(* ===== verification/_CoqProject ===== *)
-Q . S2P
Prelude.v
Float32.v
FloatOrder.v
FloatExact.v
Bitmap.v
TopK.v
CLib.v
Distance.v
KDTree.v
KDSearch.v
IVF.v
IVFSearch.v
HNSW.v
Codec.v
Serialize.v
DefParser.v
Shadow.v
Metadata.v
Values.v
Scalar.v
Each.v
Storage.v
Table.v
Refine.v
Index.v
Filter.v
Plan.v
Query.v
QuerySpec.v
QueryIndex.v
QueryDemo.v
Lifecycle.v
Graph.v
GraphSearch.v
Dijkstra.v
GraphMeasures.v
GraphRank.v
Tarjan.v
StaticBlob.v
CypherLexer.v
CypherParser.v
CypherParseSpec.v
CypherExpr.v
CypherQuery.v
CypherPlan.v
CypherRows.v
CypherEval.v
CypherJson.v
PlanCache.v
StringDict.v
CsvLoad.v
CypherExec.v
CypherPlanSpec.v
CypherRun.v
CypherCreate.v
WorkPool.v
ParallelMatch.v
GraphSchema.v
GraphTvf.v
