(* ===== verification/Prelude.v ===== *)
(** * Verification library for the SQLite multimodal extension

    ** The program

    The repository extends SQLite in two directions.  [src/sqlite-vec/
    sqlite-vec.c] implements the virtual table [vec0], which stores vectors
    and answers nearest-neighbour queries, and the scalar functions on
    vectors.  [src/sqlite-graph] implements a graph virtual table with
    Cypher.  [src/sqlite] is the vendored database engine.  This library
    models [sqlite-vec.c] and, of the graph, the storage, the searches, the
    algorithms, and Cypher from the text of a query to its result.

    A [vec0] table is created from column definitions: vector columns,
    partition keys, auxiliary and metadata columns, options.  Its rows are in
    shadow tables: [_rowids] gives a row's chunk and slot, [_chunks] has a
    validity bitmap and the rowids of a chunk, each vector column and each
    metadata column has a blob per chunk, long texts and auxiliary values
    have tables of their own.  One vector column can have an index in memory
    (KD-tree, HNSW graph or IVF), which every change of the table updates and
    which is saved in a file.  [xUpdate] inserts, deletes and updates rows;
    [xBestIndex], [xFilter] and the cursor functions answer queries: KNN with
    constraints, full scan, point query.

    A [graph] table shows the rows of two ordinary tables, nodes and edges,
    as one virtual table, and SQL functions change the graph and search it.

    ** Files and what they model

    Shared: this file (result codes, machine integers, lists, tactics and
    hint databases), [Float32] (the IEEE-754 arithmetic of [float] and
    [double]), [FloatOrder] (rounding of sums is monotone), [FloatExact]
    (integers are exact below 2^53), [CLib] ([qsort] as a class, [bsearch], [RowidMap]), [Codec]
    (byte formats), [Shadow] (what the code uses of SQLite: values, rows,
    incremental blob I/O, the state-and-error monad of the handlers).

    Components, by the functions of [sqlite-vec.c] they translate:

    - [Distance]: [distance_l2_sqr_float] to [distance_hamming], the portable
      kernels; [Bitmap]: [bitmap_*]; [TopK]: [min_idx],
      [merge_sorted_lists], [topk_insert].
    - [KDTree], [KDSearch]: [kdtree_*], [build_balanced], [rebuild_subtree],
      [kdtree_topk].  [IVF], [IVFSearch]: [invlist_*], [ivf_*],
      [select_nprobe].  [HNSW]: [hnsw_*], [connect_nodes].  [Serialize]:
      [serialize_*], [deserialize_*].
    - [DefParser]: [vec0_token_next], [vec0_scanner_*], [vec0_parse_*].
    - [Values], [Scalar]: [fvec_from_value] to [ensure_vector_match] and the
      scalar functions [vec_*].  [Each]: the table functions [vec_each] and
      [vec_npy_each] with the parser of NumPy headers.
    - [Metadata]: [vec0_write_metadata_value],
      [vec0_result_metadata_value_for_rowid],
      [vec0Update_Delete_ClearMetadata].
    - [Storage]: the readers [vec0_get_chunk_position] to
      [vec0_result_metadata_value_for_rowid], [vec0_new_chunk] and the
      handlers [vec0Update_Insert], [vec0Update_Delete],
      [vec0Update_Update], [vec0Update].  The state is the record [db]: the
      table's definition ([vec0_vtab]), the shadow tables as finite maps, and
      the index, whose operations are the class [IndexOps].
    - [Filter]: [vec0_metadata_filter_text],
      [vec0_set_metadata_filter_bitmap].  [Plan]: [vec0BestIndex] and the
      column helpers.  [Query]: [vec0_chunks_iter],
      [vec0Filter_knn_chunks_iter], [vec0Filter_chunks_to_rowid_map],
      [vec0Filter_knn], [vec0Filter_fullscan], [vec0Filter_point],
      [vec0Filter], [vec0Next], [vec0Eof], [vec0Rowid], [vec0Column].
    - [Lifecycle]: [vec0_init], [vec0Create], [vec0Connect],
      [vec0Disconnect], [vec0Destroy], [vec0ShadowName]; the index of a table
      as a sum of the three kinds.
    - [StaticBlob]: the tables [vec_static_blobs] and
      [vec_static_blob_entries] over memory of the caller.

    Components of [sqlite-graph/src]:

    - [Graph]: [graphAddNode] to [graphFindEdge] and the SQL functions of
      [graph.c], the virtual table of [graph-vtab.c].  The state is the record
      [gdb]: the tables of nodes and of edges by name.
    - [GraphSearch]: [graphBFS], [graphDFS] of [graph-traverse.c] and
      [graphShortestPathFunc] of [graph.c].  [Dijkstra]: [graphDijkstra] of
      [graph-algo.c] with its priority queue and distance map;
      [GraphMeasures]: [graphPageRank], degrees, density and connectivity;
      [GraphRank]: [graphPageRankFunc] of [graph.c].
      [Tarjan]: [graphStronglyConnectedComponents] of [graph-advanced.c].
    - [CypherLexer]: [cypher/cypher-lexer.c].  [CypherParser]:
      [cypher/cypher-parser.c] and the trees of [cypher/cypher-ast.c], with
      the address of each node and the static copy of the peeked token.
      [CypherPlan]: [cypher-planner.c], [cypher-logical-plan.c] and
      [cypher-physical-plan.c].  [CypherRows]: [cypher-execution-context.c].
      [CypherExec]: [cypher-iterators.c], [cypher-executor.c] and
      [cypherExecuteSqlFunc]; a plan becomes a tree of iterators
      ([CypherIterator]) with a state ([iter_state]) each.
      [CypherEval]: [cypher-expressions.c].  [CypherJson]: [cypher-json.c].
      [PlanCache]: [graph-cache.c], on a heap of linked entries.
    - [StringDict]: [graph-compress.c].  [CsvLoad]: the CSV parser of
      [graph-bulk.c].  [WorkPool]: the threads of [graph-parallel.c], as a step
      relation on the workers and the client; [ParallelMatch]: its pattern
      matching.  [GraphSchema]: [graph-schema.c].  [GraphTvf]: [graph-tvf.c].

    Proofs across components: [Table] (the abstract table and the invariant
    [db_wf] of the shadow tables), [Refine] (the handlers implement the
    abstract table), [Index] (table and index agree), [QuerySpec] (the
    queries), [QueryIndex] (queries that search an index), [QueryDemo]
    (queries on concrete tables), [CypherParseSpec] (rules for reading tokens,
    and that the parser ends), [CypherExpr] and [CypherQuery] (the syntax of
    expressions and queries, and the trees the parser builds), [CypherPlanSpec]
    (the plan of a query), [CypherRun] and [CypherCreate] (what MATCH and CREATE
    compute, through lexer, parser, planner and executor).

    ** Interfaces

    [QSort]: what the C standard promises of [qsort].  [IndexOps],
    [VecIndex]: the operations of a vector index and their laws; the three
    indexes are instances.  [IndexSearch], [SearchLaws]: the search of an
    index and what it promises to a query.  [SqlValues]: the conversions of
    [sqlite3_value_int64], [_double] and [_text] and the order of SQL values.
    [ScanOrder]: the order in which SQLite delivers the rows of a table.
    [GraphSql]: what the graph tables use of SQLite beyond that (rowids it
    picks, weights that go through a text).  [CypherSql]: LIKE and the JSON
    functions in the statements of the Cypher executor.  [strtod] and the format [%f] are
    parameters.  Client theorems are proved against the classes.

    ** What the theorems show

    - Table: [vec0_insert_refines], [vec0_delete_refines],
      [vec0_update_refines]: the handlers succeed on rows that pass their
      checks, preserve the invariant and implement insertion, deletion and
      update on the map from rowids to rows that the readers return.
      [vec0_index_agrees]: after any history of requests that pass the checks
      and that the index can serve - a condition for each kind of index - the
      index holds exactly the rows of the table.  [metadata_roundtrip]: a metadata
      value is read back as written.
    - Queries: [best_index_correct]: the plan and the arguments describe the
      constraints.  [metadata_filter_correct]: the metadata filters select by
      value, except for two kinds of texts under order comparisons: one of 12
      characters is an error, and one longer than that which the operand
      extends counts as equal.  [knn_query_correct]: planning, filtering and
      the cursor together return the k nearest rows that satisfy the
      constraints, where no such text is compared and every id in rowid IN
      exists.  [indexed_knn_sound]: with an index, every row returned is one of
      these, with its distance.  [fullscan_correct], [point_query_correct]: scans
      stop and are complete, point queries find their row.
    - Indexes: insertion, deletion and update change exactly one row and keep
      the invariants ([kdtree_insert_correct], [kdtree_delete_correct],
      [ivf_reachable_homed], [hnsw_add_correct]); searches return what they promise
      ([kdtree_topk_exact], [ivf_search_correct], [hnsw_search_correct]).
    - Lifecycle: [vec0_create_correct]: an accepted definition gives a table
      that satisfies the invariant, with the index asked for.
      [vec0_reconnect_correct]: a table that is closed and opened again has
      the same rows and an index with the same rows, through the file formats
      of [Serialize]; what an IVF index can no longer do, as its deletion marks
      are not restored, is part of the statement.
    - Parts: the distance functions ([distance_hamming_correct],
      [distance_l1_int8_metric]), the search of static blobs ([static_knn_correct]).

    - Graph: [graph_query_correct]: scans and lookups return the rows asked
      for.  [graph_insert_correct], [graph_integrity]: insertion, and that
      edges join existing nodes after any requests, under the conditions that
      the code leaves to its user.  [shortest_path_correct],
      [graphBFS_correct], [graphDFS_correct]: the searches, with the sizes
      their arrays can have and statements that may fail.
      [graphDijkstra_correct]: the weighted search returns a walk that no
      other undercuts, in the arithmetic of [double]s.
      [scc_correct]: the strongly connected components, in topological order.
      [graphPageRankFunc_correct]: PageRank iterates its recurrence.
    - Cypher: [cypher_parser_total], [cypher_query_parsed]: the parser ends on every text, and parses the text
      of a query to the tree that is meant, up to two defects; which trees can
      be freed.  [cypher_match_correct]: a MATCH of a path, with a condition,
      returns the walks of the graph that fit, whatever RETURN says, and when
      these are the rows that the documentation promises.
      [cypher_create_correct]: a CREATE adds its path and nothing else, and for
      which literals the properties are JSON.
      [cypher_eval_correct]: expressions evaluate to what they mean, integers
      exactly below 2^53.  [cypher_json_roundtrip]: properties written as JSON
      are read back.  [plan_cache_correct]: until it reaches its limits the
      cache of plans is a map whose operations all end, and so is the first
      invalidation; [plan_cache_sound]: it returns no wrong plan at any time.
    - Threads: [work_pool_correct]: whatever the interleaving, the only fault
      is to steal from a worker that is still to be initialised; without it
      tasks run once, none is lost while the queues are short, and the pool can
      end.

    Bitmaps, the selection of nearest rows, the rebuilding of subtrees,
    deletion from IVF lists, the other column definitions, slices,
    quantisation and the JSON text of a vector have their correctness as lemmas
    of their files ([bitmap_ops_refine], [min_idx_correct],
    [merge_sorted_lists_correct], [rebuild_subtree_correct],
    [ivf_delete_update_correct], [vector_column_roundtrip], [column_definitions_roundtrip],
    [vec_slice_correct], [vec_quantize_binary_correct],
    [vec_to_json_roundtrip], [npy_roundtrip], [npy_rows_correct], [ivf_insert_correct],
    [hnsw_delete_update_correct], [graphPageRank_correct]); ids of the string
    dictionary and CSV rows ([dict_correct], [csv_rows_roundtrip]); parallel pattern matching
    ([ranges_partition], [one_thread_correct], [parallel_match_safe]); the schema and
    the text of paths ([schema_correct], [labels_equal_correct], [traversal_cursor_correct]); that the lexer ends and reads written tokens
    back is [cypher_lexer_total] and [cypher_lexer_roundtrip].

    Lemmas that state a defect of the code are next to the component they
    are about, as [kdtree_topk_l2_misses_neighbour],
    [ivf_delete_untrained_resurrects] and [vec0_update_changes_dimensions]; those
    on Cypher queries that do something else than they say are in
    [CypherCreate].

    ** Machine integers, undefined behaviour, bounds

    Integers are [Z] with the wrap-around of their width where it can occur
    ([to_i32], [to_i64], [to_u8]); rowids are 64-bit.  Reading or writing
    outside an array, and reading a value that was not initialised, is a
    result of its own ([None] or [Undef]).  Loops over arrays are recursions
    on the number of rounds left.  Fuel is used where the code loops on data:
    the breadth-first search of the HNSW graph (each round marks a node, so
    the number of nodes is enough), the sift-down of the IVF heap (the size
    of the heap), the balanced build of the KD-tree (the number of points),
    the cursor loops [drive], [each_drive], [npy_drive] and [graph_drive]
    (the number of rows left), the loop of the NumPy header (its length), the
    searches of the graph (the number of nodes; of edges, for Dijkstra), the
    Cypher lexer and parser
    (one more than the input has bytes), the loops of the Cypher executor (one
    more than the rows of any operator); the theorems on these
    functions show that this is enough.  The planner's estimates are 64-bit:
    paths of up to 21 steps do not overflow them, and ten nodes fit into the
    array of CREATE.

    ** Not modelled

    Memory exhaustion: allocations succeed, unless their size does not fit.  Errors of SQLite itself inside
    the handlers, and the rollback of a failed statement, which SQLite does.
    The AVX and NEON kernels.  The SQL text that [vec0_init] and
    [vec0Destroy] assemble, and the transaction callbacks.  Of the graph extension:
    the Cypher write operations, whose SQL functions refuse every call, the release of iterators, the positions in syntax trees,
    what the CSV loader does after its search for the columns, which is never
    reached, and [graphDestroy], which drops the virtual table from
    inside its own [xDestroy].  The vendored engine, and the experiments. *)

From stdpp Require Import base gmap list sorting numbers strings.
From Stdlib Require Import ZArith Lia.

(** ** SQLite result codes used by the extension *)

Definition SQLITE_OK : Z := 0.
Definition SQLITE_ERROR : Z := 1.
Definition SQLITE_NOMEM : Z := 7.
Definition SQLITE_NOTFOUND : Z := 12.
Definition SQLITE_FULL : Z := 13.
Definition SQLITE_CANTOPEN : Z := 14.
Definition SQLITE_EMPTY : Z := 16.
Definition SQLITE_CONSTRAINT : Z := 19.
Definition SQLITE_MISUSE : Z := 21.
Definition SQLITE_DONE : Z := 101.

(** Fundamental datatypes. *)
Definition SQLITE_INTEGER : Z := 1.
Definition SQLITE_FLOAT : Z := 2.
Definition SQLITE_TEXT : Z := 3.
Definition SQLITE_BLOB : Z := 4.
Definition SQLITE_NULL : Z := 5.

(** ** Machine integers *)

Section Wrap.
Local Open Scope Z_scope.

(** Two's complement reading of the low [w] bits of [z]. *)
Definition wrap_s (w z : Z) : Z :=
  let m := z mod 2 ^ w in
  if m <? 2 ^ (w - 1) then m else m - 2 ^ w.

Definition wrap_u (w z : Z) : Z := z mod 2 ^ w.

Definition to_i32 (z : Z) : Z := wrap_s 32 z.
Definition to_i64 (z : Z) : Z := wrap_s 64 z.
Definition to_u8 (z : Z) : Z := wrap_u 8 z.

Definition in_i32 (z : Z) : Prop := - 2 ^ 31 <= z < 2 ^ 31.
Definition in_i64 (z : Z) : Prop := - 2 ^ 63 <= z < 2 ^ 63.

Lemma wrap_s_id (w z : Z) :
  0 < w -> - 2 ^ (w - 1) <= z < 2 ^ (w - 1) -> wrap_s w z = z.
Proof.
  intros Hw Hz. unfold wrap_s.
  assert (Hp : 2 ^ w = 2 * 2 ^ (w - 1)).
  { rewrite <- Z.pow_succ_r by lia. f_equal; lia. }
  assert (0 < 2 ^ (w - 1)) by (apply Z.pow_pos_nonneg; lia).
  destruct (Z_lt_le_dec z 0).
  - assert (Hm : z mod 2 ^ w = z + 2 ^ w).
    { symmetry. apply Z.mod_unique with (q := -1); lia. }
    rewrite Hm. destruct (Z.ltb_spec (z + 2 ^ w) (2 ^ (w - 1))); lia.
  - rewrite Z.mod_small by lia.
    destruct (Z.ltb_spec z (2 ^ (w - 1))); lia.
Qed.

Lemma to_i32_id (z : Z) : in_i32 z -> to_i32 z = z.
Proof. unfold in_i32, to_i32. intros. apply wrap_s_id; simpl; lia. Qed.

(** An unsigned 64-bit number. *)
Definition to_size (z : Z) : Z := wrap_u 64 z.

(** [sqlite3_malloc]: the size is an [int]; [None] is no memory, else what was
    allocated. *)
Definition sqlite3_malloc (n : Z) : option Z := let n := to_i32 n in if n <=? 0 then None else Some n.

Lemma malloc_small (z : Z) : 0 < z < 2 ^ 31 -> sqlite3_malloc (to_size z) = Some z.
Proof.
  intros Hz. unfold sqlite3_malloc, to_size, wrap_u. rewrite Z.mod_small, to_i32_id by (unfold in_i32; lia).
  by rewrite (proj2 (Z.leb_gt _ _)) by lia.
Qed.

Lemma to_i64_id (z : Z) : in_i64 z -> to_i64 z = z.
Proof. unfold in_i64, to_i64. intros. apply wrap_s_id; simpl; lia. Qed.

End Wrap.

(** ** Arrays

    C arrays are lists.  [aget d a i] is [a[i]] for an index inside the
    array; [d] is returned outside, which the invariants of each component
    exclude.  Writes are stdpp's [<[i:=x]>]. *)

Definition aget {A : Type} (d : A) (a : list A) (i : nat) : A := default d (a !! i).

Lemma aget_lookup {A : Type} (d : A) (a : list A) (i : nat) (x : A) :
  a !! i = Some x -> aget d a i = x.
Proof. unfold aget. intros ->. done. Qed.

Lemma aget_lookup_lt {A : Type} (d : A) (a : list A) (i : nat) :
  i < length a -> a !! i = Some (aget d a i).
Proof.
  intros Hi. destruct (lookup_lt_is_Some_2 a i Hi) as [x Hx].
  by rewrite (aget_lookup _ _ _ _ Hx).
Qed.

Lemma aget_insert_eq {A : Type} (d : A) (a : list A) (i : nat) (x : A) :
  i < length a -> aget d (<[i:=x]> a) i = x.
Proof. intros. apply aget_lookup. by apply list_lookup_insert_eq. Qed.

Lemma aget_insert_ne {A : Type} (d : A) (a : list A) (i j : nat) (x : A) :
  i <> j -> aget d (<[i:=x]> a) j = aget d a j.
Proof. intros. unfold aget. by rewrite list_lookup_insert_ne. Qed.

Lemma aget_app_l {A : Type} (d : A) (a b : list A) (i : nat) :
  i < length a -> aget d (a ++ b) i = aget d a i.
Proof. intros. unfold aget. by rewrite lookup_app_l. Qed.

Lemma aget_take {A : Type} (d : A) (a : list A) (n i : nat) :
  i < n -> aget d (take n a) i = aget d a i.
Proof. intros. unfold aget. by rewrite lookup_take_lt. Qed.

Lemma aget_replicate {A : Type} (d x : A) (n i : nat) :
  i < n -> aget d (replicate n x) i = x.
Proof. intros. unfold aget. by rewrite lookup_replicate_2. Qed.

Create Rewrite HintDb arr.
#[export] Hint Rewrite @length_insert @length_app @length_take @length_drop
  @length_replicate @length_fmap : arr.

(** [alen] normalises array lengths and closes arithmetic goals on them. *)
Ltac alen := autorewrite with arr in *; simpl in *; lia.

(** Overwriting position [i] exchanges one element of the multiset. *)
Lemma insert_Permutation {A : Type} (l : list A) (i : nat) (w x : A) :
  l !! i = Some w -> exists r, l ≡ₚ w :: r /\ <[i:=x]> l ≡ₚ x :: r.
Proof.
  intros Hi. exists (take i l ++ drop (S i) l).
  pose proof (lookup_lt_Some _ _ _ Hi). split.
  - rewrite <- (take_drop_middle l i w Hi) at 1. by rewrite Permutation_middle.
  - rewrite insert_take_drop by done. by rewrite Permutation_middle.
Qed.

(** Accessing a tabulated array. *)
Lemma lookup_fmap_seq0 {B : Type} (f : nat -> B) (n i : nat) :
  i < n -> (f <$> seq 0 n) !! i = Some (f i).
Proof. intros. rewrite list_lookup_fmap, lookup_seq_lt by lia. done. Qed.

Lemma length_fmap_seq0 {B : Type} (f : nat -> B) (n : nat) : length (f <$> seq 0 n) = n.
Proof. by rewrite length_fmap, length_seq. Qed.

Lemma elem_of_fmap_seq0 {B : Type} (f : nat -> B) (n : nat) (x : B) :
  x ∈ f <$> seq 0 n <-> exists i, i < n /\ x = f i.
Proof.
  rewrite list_elem_of_fmap. setoid_rewrite elem_of_seq. split.
  - intros (i & -> & Hi). exists i. split; [lia|done].
  - intros (i & Hi & ->). exists i. split; [done|lia].
Qed.

Lemma fmap_seq0_ext {B : Type} (f g : nat -> B) (n : nat) :
  (forall i, i < n -> f i = g i) -> f <$> seq 0 n = g <$> seq 0 n.
Proof.
  intros H. apply list_eq_same_length with n; rewrite ?length_fmap_seq0; [done..|].
  intros i x y Hi. rewrite !lookup_fmap_seq0 by done. intros [= <-] [= <-]. auto.
Qed.

#[export] Hint Rewrite @length_fmap_seq0 @length_seq : arr.

(** A filter that keeps, or drops, every element. *)
Lemma filter_keeps_all {A : Type} (P : A -> Prop) `{forall x, Decision (P x)} (l : list A) :
  (forall x, x ∈ l -> P x) -> filter P l = l.
Proof.
  induction l as [|x l IH]; intros Hl; [done|].
  rewrite filter_cons_True by (apply Hl, elem_of_cons; by left).
  f_equal. apply IH. intros y Hy. apply Hl, elem_of_cons. by right.
Qed.

Lemma filter_drops_all {A : Type} (P : A -> Prop) `{forall x, Decision (P x)} (l : list A) :
  (forall x, x ∈ l -> ~ P x) -> filter P l = [].
Proof.
  intros Hl. apply elem_of_nil_inv. intros x. rewrite list_elem_of_filter.
  intros [Hp Hx]. by apply (Hl x).
Qed.

(** ** Decidability

    Quantification over the elements of a list is decidable; with the
    instances of the components, the hypotheses of a theorem are checked on
    concrete states by evaluation ([by_compute]). *)

#[global] Instance elem_forall_dec {A : Type} (P : A -> Prop) (l : list A)
  `{forall x, Decision (P x)} : Decision (forall x, x ∈ l -> P x).
Proof.
  destruct (decide (Forall P l)) as [Hl|Hl]; [left|right];
    rewrite Forall_forall in Hl; exact Hl.
Defined.

Ltac by_compute := refine (bool_decide_unpack _ _); vm_compute; exact I.

#[global] Instance concat_Permutation_proper {A : Type} :
  Proper ((≡ₚ) ==> (≡ₚ)) (@concat A).
Proof.
  intros l1 l2 Hp. induction Hp as [|x l1 l2 _ IH|x y l|l1 l2 l3 _ IH1 _ IH2]; simpl.
  - done.
  - by rewrite IH.
  - by rewrite !app_assoc, (Permutation_app_comm x y).
  - by rewrite IH1.
Qed.

(** Overwriting one part of a list of parts. *)
Lemma concat_insert_Permutation {A B : Type} (g : A -> list B) (ls : list A) (i : nat) (l l' : A) :
  ls !! i = Some l ->
  exists rest, concat (g <$> ls) ≡ₚ g l ++ rest /\ concat (g <$> <[i := l']> ls) ≡ₚ g l' ++ rest.
Proof.
  intros Hl. destruct (insert_Permutation ls i l l' Hl) as (r & H1 & H2).
  exists (concat (g <$> r)). split; [by rewrite H1|by rewrite H2].
Qed.

(** ** Swapping array elements *)

Section Swap.
Context {A : Type} (d : A).

Definition aswap (l : list A) (i j : nat) : list A := <[i := aget d l j]> (<[j := aget d l i]> l).

Lemma length_aswap (l : list A) (i j : nat) : length (aswap l i j) = length l.
Proof. unfold aswap. by rewrite !length_insert. Qed.

Lemma aget_aswap (l : list A) (i j k : nat) :
  i < length l -> j < length l ->
  aget d (aswap l i j) k
  = if decide (k = i) then aget d l j else if decide (k = j) then aget d l i else aget d l k.
Proof.
  intros Hi Hj. unfold aswap. case_decide as E1; [subst k|].
  { by rewrite aget_insert_eq by (by rewrite length_insert). }
  rewrite aget_insert_ne by done. case_decide as E2; [subst k|].
  - by rewrite aget_insert_eq.
  - by rewrite aget_insert_ne.
Qed.

Lemma aswap_Permutation (l : list A) (i j : nat) :
  i < length l -> j < length l -> aswap l i j ≡ₚ l.
Proof.
  intros Hi Hj. unfold aswap. destruct (decide (i = j)) as [->|Hne].
  { rewrite list_insert_id; [|by rewrite list_lookup_insert_eq].
    rewrite list_insert_id; [done|by apply aget_lookup_lt]. }
  set (x := aget d l i). set (y := aget d l j).
  destruct (insert_Permutation l j y x) as (r & P1 & P2); [by apply aget_lookup_lt|].
  destruct (insert_Permutation (<[j := x]> l) i x y) as (r' & P3 & P4).
  { rewrite list_lookup_insert_ne by done. by apply aget_lookup_lt. }
  rewrite P2 in P3. apply (inj (cons x)) in P3. by rewrite P4, P1, P3.
Qed.

Lemma drop_aswap (l : list A) (i j : nat) :
  i <= j -> i < length l -> j < length l ->
  drop i (aswap l i j) ≡ₚ drop i l /\
  drop i (aswap l i j) = aget d l j :: drop (S i) (aswap l i j).
Proof.
  intros Hij Hi Hj. split.
  - assert (E : take i (aswap l i j) = take i l).
    { unfold aswap. by rewrite !take_insert_ge by lia. }
    apply (Permutation_app_inv_l (take i l)). rewrite take_drop, <- E, take_drop.
    by apply aswap_Permutation.
  - rewrite (drop_S _ (aget d l j)); [done|]. unfold aswap.
    apply list_lookup_insert_eq. by rewrite length_insert.
Qed.

End Swap.

(** ** Flat arrays *)

Section Flat.
Context {A : Type}.

(** [memcpy(dst, &src[off], n)] and [memcpy(&dst[off], src, length src)] *)
Definition slice (off n : nat) (l : list A) : list A := take n (drop off l).

Definition write_at (off : nat) (src dst : list A) : list A :=
  take off dst ++ src ++ drop (off + length src) dst.

(** [realloc] to [n] elements. *)
Definition resize_to (n : nat) (x : A) (l : list A) : list A :=
  take n l ++ replicate (n - length l) x.

Lemma length_slice (off n : nat) (l : list A) :
  off + n <= length l -> length (slice off n l) = n.
Proof. intros. unfold slice. rewrite length_take, length_drop. lia. Qed.

Lemma length_write_at (off : nat) (src dst : list A) :
  off + length src <= length dst -> length (write_at off src dst) = length dst.
Proof. intros. unfold write_at. rewrite !length_app, length_take, length_drop. lia. Qed.

Lemma slice_write_eq (off : nat) (src dst : list A) :
  off + length src <= length dst -> slice off (length src) (write_at off src dst) = src.
Proof.
  intros. unfold slice, write_at. rewrite drop_app_ge by (rewrite length_take; lia).
  rewrite length_take, Nat.min_l, Nat.sub_diag, drop_0 by lia. by rewrite take_app_length.
Qed.

Lemma slice_write_ne (off : nat) (src dst : list A) (o n : nat) :
  off + length src <= length dst -> o + n <= off \/ off + length src <= o ->
  slice o n (write_at off src dst) = slice o n dst.
Proof.
  intros Hl Hd. unfold slice, write_at. destruct Hd as [Hd|Hd].
  - rewrite drop_app_le by (rewrite length_take; lia).
    rewrite take_app_le by (rewrite length_drop, length_take; lia).
    rewrite !take_drop_commute, take_take. do 2 f_equal. lia.
  - rewrite drop_app_ge by (rewrite length_take; lia).
    rewrite length_take, Nat.min_l, drop_app_ge by lia.
    rewrite drop_drop. do 2 f_equal. lia.
Qed.

Lemma length_resize_to (n : nat) (x : A) (l : list A) : length (resize_to n x l) = n.
Proof. unfold resize_to. rewrite length_app, length_take, length_replicate. lia. Qed.

Lemma slice_resize_to (n : nat) (x : A) (l : list A) (o m : nat) :
  length l <= n -> o + m <= length l -> slice o m (resize_to n x l) = slice o m l.
Proof.
  intros. unfold slice, resize_to. rewrite (take_ge l) by lia.
  rewrite drop_app_le by lia. by rewrite take_app_le by (rewrite length_drop; lia).
Qed.

Lemma aget_resize_to (d : A) (n : nat) (x : A) (l : list A) (i : nat) :
  length l <= n -> i < length l -> aget d (resize_to n x l) i = aget d l i.
Proof. intros. unfold resize_to. rewrite (take_ge l) by lia. by apply aget_app_l. Qed.

End Flat.
