(* ===== verification/Float32.v ===== *)
(** * IEEE-754 arithmetic of the vector code

    The extension stores vectors as arrays of C [float] ([f32]) and computes
    some distances in [double].  Both formats are the Standard Library's
    [SpecFloat]: [f32] is precision 24 / exponent bound 128, [f64] precision
    53 / exponent bound 1024, rounding to nearest even.  NaN payloads are
    not represented: there is one NaN.  The file also gives the comparison
    operators of C with their order theory (every comparison with a NaN is
    false) and the 32-bit memory representation used by the index files. *)

From stdpp Require Import base list numbers.
From Stdlib Require Import ZArith Lia.
From Stdlib Require Import SpecFloat.

Local Open Scope Z_scope.

(** ** Formats and operations *)

Abbreviation f32 := spec_float (only parsing).
Abbreviation f64 := spec_float (only parsing).

Definition f32_zero : f32 := S754_zero false.

Definition f32_add : f32 -> f32 -> f32 := SFadd 24 128.
Definition f32_sub : f32 -> f32 -> f32 := SFsub 24 128.
Definition f32_mul : f32 -> f32 -> f32 := SFmul 24 128.
Definition f32_div : f32 -> f32 -> f32 := SFdiv 24 128.

Definition f64_add : f64 -> f64 -> f64 := SFadd 53 1024.
Definition f64_sub : f64 -> f64 -> f64 := SFsub 53 1024.
Definition f64_mul : f64 -> f64 -> f64 := SFmul 53 1024.
Definition f64_div : f64 -> f64 -> f64 := SFdiv 53 1024.
Definition f64_sqrt : f64 -> f64 := SFsqrt 53 1024.
Definition f64_abs : f64 -> f64 := SFabs.

(** Integer to floating-point conversions ([(float)n], [(double)n]). *)
Definition f32_of_Z (z : Z) : f32 := binary_normalize 24 128 z 0 false.
Definition f64_of_Z (z : Z) : f64 := binary_normalize 53 1024 z 0 false.

(** Conversions between the two formats: exact one way, rounded the other. *)
Definition f64_of_f32 (x : f32) : f64 :=
  match x with
  | S754_finite s m e => binary_round 53 1024 s m e
  | _ => x
  end.

Definition f32_of_f64 (x : f64) : f32 :=
  match x with
  | S754_finite s m e => binary_round 24 128 s m e
  | _ => x
  end.

(** C's [FLT_MAX]. *)
Definition FLT_MAX : f32 := SFmax_float 24 128.

(** C comparisons; [x > y] is [f32_ltb y x]. *)
Definition f32_ltb : f32 -> f32 -> bool := SFltb.
Definition f32_leb : f32 -> f32 -> bool := SFleb.

Definition is_nan (x : f32) : bool :=
  match x with S754_nan => true | _ => false end.

Declare Scope f32_scope.
Delimit Scope f32_scope with f32.
Infix "<?" := f32_ltb : f32_scope.
Infix "<=?" := f32_leb : f32_scope.
Infix "+" := f32_add : f32_scope.
Infix "-" := f32_sub : f32_scope.
Infix "*" := f32_mul : f32_scope.

(** ** Order theory

    Comparisons of non-NaN floats are the lexicographic order of a key, so
    that every order fact reduces to linear arithmetic. *)

Definition f32_key (x : f32) : Z * Z * Z :=
  match x with
  | S754_zero _ | S754_nan => (0, 0, 0)
  | S754_infinity true => (-2, 0, 0)
  | S754_infinity false => (2, 0, 0)
  | S754_finite true m e => (-1, - e, - Zpos m)
  | S754_finite false m e => (1, e, Zpos m)
  end.

Definition key_lt (a b : Z * Z * Z) : Prop :=
  let '(a1, a2, a3) := a in
  let '(b1, b2, b3) := b in
  a1 < b1 \/ (a1 = b1 /\ (a2 < b2 \/ (a2 = b2 /\ a3 < b3))).

Definition key_eq (a b : Z * Z * Z) : Prop :=
  let '(a1, a2, a3) := a in
  let '(b1, b2, b3) := b in
  a1 = b1 /\ a2 = b2 /\ a3 = b3.

Lemma SFcompare_key (x y : f32) :
  is_nan x = false -> is_nan y = false ->
  match SFcompare x y with
  | Some Lt => key_lt (f32_key x) (f32_key y)
  | Some Eq => key_eq (f32_key x) (f32_key y)
  | Some Gt => key_lt (f32_key y) (f32_key x)
  | None => False
  end.
Proof.
  intros Hx Hy.
  destruct x as [sx|sx| |sx mx ex], y as [sy|sy| |sy my ey];
    try discriminate; try destruct sx; try destruct sy; simpl; try lia.
  all: change (Pos.compare_cont Eq mx my) with (Pos.compare mx my).
  all: destruct (Z.compare_spec ex ey); simpl; try lia.
  all: destruct (Pos.compare_spec mx my); simpl; lia.
Qed.

Lemma f32_ltb_key (x y : f32) :
  is_nan x = false -> is_nan y = false ->
  f32_ltb x y = true <-> key_lt (f32_key x) (f32_key y).
Proof.
  intros Hx Hy. pose proof (SFcompare_key x y Hx Hy) as H.
  unfold f32_ltb, SFltb. destruct (SFcompare x y) as [[]|]; try tauto;
    split; intros; try discriminate;
    destruct (f32_key x) as [[? ?] ?], (f32_key y) as [[? ?] ?]; simpl in *; lia.
Qed.

Lemma f32_leb_key (x y : f32) :
  is_nan x = false -> is_nan y = false ->
  f32_leb x y = true <-> ~ key_lt (f32_key y) (f32_key x).
Proof.
  intros Hx Hy. pose proof (SFcompare_key x y Hx Hy) as H.
  unfold f32_leb, SFleb. destruct (SFcompare x y) as [[]|]; try tauto;
    split; intros; try discriminate; auto;
    destruct (f32_key x) as [[? ?] ?], (f32_key y) as [[? ?] ?]; simpl in *; lia.
Qed.

Lemma SFcompare_nan (x y : f32) :
  is_nan x = true \/ is_nan y = true -> SFcompare x y = None.
Proof. destruct x, y; simpl; intros [H|H]; congruence. Qed.

Lemma f32_ltb_not_nan (x y : f32) :
  f32_ltb x y = true -> is_nan x = false /\ is_nan y = false.
Proof.
  unfold f32_ltb, SFltb. destruct x, y; simpl; intros; split; congruence.
Qed.

Lemma f32_leb_not_nan (x y : f32) :
  f32_leb x y = true -> is_nan x = false /\ is_nan y = false.
Proof.
  unfold f32_leb, SFleb. destruct x, y; simpl; intros; split; congruence.
Qed.

(** [f32_order] decides goals about [f32_ltb] and [f32_leb] of non-NaN
    values from hypotheses of the same shape. *)
Ltac f32_nan_side := first [assumption | congruence | tauto].

Ltac f32_to_keys :=
  repeat match goal with
  | H : f32_ltb ?x ?y = true |- _ =>
      let Hx := fresh in let Hy := fresh in
      destruct (f32_ltb_not_nan _ _ H) as [Hx Hy];
      apply f32_ltb_key in H; [|f32_nan_side|f32_nan_side]
  | H : f32_leb ?x ?y = true |- _ =>
      let Hx := fresh in let Hy := fresh in
      destruct (f32_leb_not_nan _ _ H) as [Hx Hy];
      apply f32_leb_key in H; [|f32_nan_side|f32_nan_side]
  | H : f32_ltb ?x ?y = false |- _ =>
      apply not_true_iff_false in H;
      rewrite f32_ltb_key in H; [|f32_nan_side|f32_nan_side]
  | H : f32_leb ?x ?y = false |- _ =>
      apply not_true_iff_false in H;
      rewrite f32_leb_key in H; [|f32_nan_side|f32_nan_side]
  end.

Ltac f32_keys_lia :=
  repeat match goal with
  | x : spec_float |- _ => destruct (f32_key x) as [[? ?] ?]; clear x
  end.

Ltac f32_goal :=
  match goal with
  | |- f32_ltb _ _ = false => apply not_true_iff_false
  | |- f32_leb _ _ = false => apply not_true_iff_false
  | _ => idtac
  end;
  try (rewrite f32_ltb_key; [|f32_nan_side|f32_nan_side]);
  try (rewrite f32_leb_key; [|f32_nan_side|f32_nan_side]).

Ltac f32_order :=
  intros; f32_to_keys; f32_goal; unfold key_lt in *;
  repeat match goal with
  | H : context [f32_key ?x] |- _ => destruct (f32_key x) as [[? ?] ?]
  | |- context [f32_key ?x] => destruct (f32_key x) as [[? ?] ?]
  end; lia.

Lemma f32_ltb_irrefl (x : f32) : f32_ltb x x = false.
Proof.
  destruct (is_nan x) eqn:E.
  - unfold f32_ltb, SFltb. rewrite SFcompare_nan by auto. done.
  - f32_order.
Qed.

Lemma f32_leb_refl (x : f32) : is_nan x = false -> f32_leb x x = true.
Proof. f32_order. Qed.

Lemma f32_ltb_leb (x y : f32) : f32_ltb x y = true -> f32_leb x y = true.
Proof. f32_order. Qed.

Lemma f32_ltb_trans (x y z : f32) :
  f32_ltb x y = true -> f32_ltb y z = true -> f32_ltb x z = true.
Proof. f32_order. Qed.

Lemma f32_leb_trans (x y z : f32) :
  f32_leb x y = true -> f32_leb y z = true -> f32_leb x z = true.
Proof. f32_order. Qed.

Lemma f32_nlt_leb (x y : f32) :
  is_nan x = false -> is_nan y = false ->
  f32_ltb x y = false -> f32_leb y x = true.
Proof. f32_order. Qed.

Lemma f32_leb_nlt (x y : f32) : f32_leb x y = true -> f32_ltb y x = false.
Proof. f32_order. Qed.

Lemma f32_nle_lt (x y : f32) :
  is_nan x = false -> is_nan y = false ->
  f32_leb x y = false -> f32_ltb y x = true.
Proof. f32_order. Qed.

Lemma f32_ltb_leb_trans (x y z : f32) :
  f32_ltb x y = true -> f32_leb y z = true -> f32_ltb x z = true.
Proof. f32_order. Qed.

Lemma f32_leb_ltb_trans (x y z : f32) :
  f32_leb x y = true -> f32_ltb y z = true -> f32_ltb x z = true.
Proof. f32_order. Qed.

Create HintDb f32.
#[export] Hint Resolve f32_leb_refl f32_ltb_leb f32_leb_nlt f32_nlt_leb : f32.
#[export] Hint Resolve f32_leb_trans f32_nle_lt : f32.

(** ** Memory representation

    [bits_of_f32] is the 32-bit pattern of a float, [f32_of_bits] reads one
    back.  A NaN is written as the default quiet NaN. *)

Definition sign_bit (s : bool) : Z := if s then 2 ^ 31 else 0.

Definition bits_of_f32 (x : f32) : Z :=
  match x with
  | S754_zero s => sign_bit s
  | S754_infinity s => sign_bit s + 255 * 2 ^ 23
  | S754_nan => 255 * 2 ^ 23 + 2 ^ 22
  | S754_finite s m e =>
      if Zpos m <? 2 ^ 23 then sign_bit s + Zpos m
      else sign_bit s + (e + 150) * 2 ^ 23 + (Zpos m - 2 ^ 23)
  end.

Definition f32_of_bits (b : Z) : f32 :=
  let s := 2 ^ 31 <=? b in
  let ex := (b / 2 ^ 23) mod 256 in
  let mt := b mod 2 ^ 23 in
  if ex =? 0 then
    match mt with
    | Zpos m => S754_finite s m (-149)
    | _ => S754_zero s
    end
  else if ex =? 255 then
    if mt =? 0 then S754_infinity s else S754_nan
  else S754_finite s (Z.to_pos (mt + 2 ^ 23)) (ex - 150).

Definition f32_valid (x : f32) : Prop := valid_binary 24 128 x = true.

Lemma digits2_pos_bounds (m : positive) :
  2 ^ (Zpos (digits2_pos m) - 1) <= Zpos m < 2 ^ Zpos (digits2_pos m).
Proof.
  induction m as [m IH|m IH|]; simpl digits2_pos;
    rewrite ?Pos2Z.inj_succ, ?Z.sub_succ_l, ?Z.sub_0_r.
  - replace (Z.succ (Zpos (digits2_pos m)) - 1)
      with (Z.succ (Zpos (digits2_pos m) - 1)) by lia.
    rewrite !Z.pow_succ_r by lia. lia.
  - replace (Z.succ (Zpos (digits2_pos m)) - 1)
      with (Z.succ (Zpos (digits2_pos m) - 1)) by lia.
    rewrite !Z.pow_succ_r by lia. lia.
  - simpl. lia.
Qed.

(** A valid finite float is subnormal with the least exponent, or has a
    24-bit mantissa. *)
Lemma f32_valid_finite (s : bool) (m : positive) (e : Z) :
  f32_valid (S754_finite s m e) ->
  (Zpos m < 2 ^ 23 /\ e = -149)
  \/ (2 ^ 23 <= Zpos m < 2 ^ 24 /\ -149 <= e <= 104).
Proof.
  unfold f32_valid. simpl. unfold bounded, canonical_mantissa, fexp, emin.
  intros [H1 H2]%andb_prop.
  apply Z.eqb_eq in H1. apply Z.leb_le in H2.
  pose proof (digits2_pos_bounds m) as [Hl Hu].
  set (d := Zpos (digits2_pos m)) in *.
  assert (Hd : (d = 24 /\ -149 <= e) \/ (d < 24 /\ e = -149)) by lia.
  destruct Hd as [[Hd He]|[Hd He]].
  - right. rewrite Hd in *. lia.
  - left. split; [|done].
    enough (2 ^ d <= 2 ^ 23) by lia. apply Z.pow_le_mono_r; lia.
Qed.

Lemma bits_of_f32_range (x : f32) : f32_valid x -> 0 <= bits_of_f32 x < 2 ^ 32.
Proof.
  destruct x as [s|s| |s m e]; intros Hv.
  1-3: try destruct s; simpl; lia.
  apply f32_valid_finite in Hv. simpl.
  destruct (Z.ltb_spec (Zpos m) (2 ^ 23)); destruct s; simpl; lia.
Qed.

Lemma f32_of_bits_fields (s : bool) (ex mt : Z) :
  0 <= ex < 256 -> 0 <= mt < 2 ^ 23 ->
  let b := sign_bit s + ex * 2 ^ 23 + mt in
  (2 ^ 31 <=? b) = s /\ (b / 2 ^ 23) mod 256 = ex /\ b mod 2 ^ 23 = mt.
Proof.
  intros Hex Hmt b.
  assert (Hb : b = mt + ((if s then 256 else 0) + ex) * 2 ^ 23).
  { unfold b. destruct s; simpl; lia. }
  split; [|split].
  - apply eq_true_iff_eq. rewrite Z.leb_le. rewrite Hb. destruct s; split; intros; try done; lia.
  - rewrite Hb, Z.div_add, (Z.div_small mt) by lia.
    symmetry. apply Z.mod_unique with (q := if s then 1 else 0); destruct s; lia.
  - rewrite Hb, Z.mod_add by lia. apply Z.mod_small; lia.
Qed.

Lemma f32_of_bits_of_f32 (x : f32) :
  f32_valid x -> f32_of_bits (bits_of_f32 x) = x.
Proof.
  destruct x as [s|s| |s m e]; intros Hv.
  1-3: try destruct s; reflexivity.
  apply f32_valid_finite in Hv. unfold bits_of_f32.
  destruct (Z.ltb_spec (Zpos m) (2 ^ 23)) as [Hm|Hm].
  - destruct Hv as [[_ ->]|]; [|lia].
    destruct (f32_of_bits_fields s 0 (Zpos m)) as (E1 & E2 & E3); [lia..|].
    unfold f32_of_bits.
    replace (sign_bit s + Zpos m) with (sign_bit s + 0 * 2 ^ 23 + Zpos m) by lia.
    rewrite E1, E2, E3. done.
  - destruct Hv as [[? _]|[Hm2 He]]; [lia|].
    destruct (f32_of_bits_fields s (e + 150) (Zpos m - 2 ^ 23)) as (E1 & E2 & E3);
      [lia..|].
    unfold f32_of_bits. rewrite E1, E2, E3.
    destruct (Z.eqb_spec (e + 150) 0); [lia|].
    destruct (Z.eqb_spec (e + 150) 255); [lia|].
    f_equal; [|lia]. rewrite Z.sub_add. done.
Qed.

(** ** Rounding never produces a NaN, and arithmetic facts used by the distances *)

Section Rounding.
Context (prec emax : Z).

Lemma shr_1_nonneg (r : shr_record) : 0 <= shr_m r -> 0 <= shr_m (shr_1 r).
Proof. destruct r as [m b s]. simpl. destruct m as [|[]|[]]; simpl; lia. Qed.

Lemma iter_shr_nonneg (p : positive) (r : shr_record) :
  0 <= shr_m r -> 0 <= shr_m (iter_pos shr_1 p r).
Proof.
  revert r. induction p as [p IH|p IH|]; intros r Hr; simpl; auto using shr_1_nonneg.
Qed.

Lemma shr_fexp_nonneg (m e : Z) (l : location) :
  0 <= m -> 0 <= shr_m (shr_fexp prec emax m e l).1.
Proof.
  intros Hm. unfold shr_fexp, shr.
  assert (Hr : 0 <= shr_m (shr_record_of_loc m l)) by (by destruct l as [|[]]).
  destruct (_ - e); simpl; auto using iter_shr_nonneg.
Qed.

Lemma round_nearest_even_nonneg (m : Z) (l : location) : 0 <= m -> 0 <= round_nearest_even m l.
Proof. intros. unfold round_nearest_even. destruct l as [|[]]; try destruct (Z.even m); lia. Qed.

(** The sign of a float, zeros and NaN counting as non-negative. *)
Definition is_neg (x : spec_float) : bool :=
  match x with S754_finite s _ _ | S754_infinity s => s | _ => false end.

Lemma binary_round_aux_num (s : bool) (m e : Z) (l : location) :
  0 <= m -> is_nan (binary_round_aux prec emax s m e l) = false /\
            (s = false -> is_neg (binary_round_aux prec emax s m e l) = false).
Proof.
  intros Hm. unfold binary_round_aux.
  pose proof (shr_fexp_nonneg m e l Hm) as H1.
  destruct (shr_fexp prec emax m e l) as [r1 e1]. simpl in H1.
  pose proof (shr_fexp_nonneg _ e1 loc_Exact
    (round_nearest_even_nonneg _ (loc_of_shr_record r1) H1)) as H2.
  destruct (shr_fexp _ _ _ e1 loc_Exact) as [r2 e2]. simpl in H2.
  destruct (shr_m r2); [done| |lia]. destruct (e2 <=? emax - prec); done.
Qed.

Lemma binary_round_num (s : bool) (m : positive) (e : Z) :
  is_nan (binary_round prec emax s m e) = false /\
  (s = false -> is_neg (binary_round prec emax s m e) = false).
Proof.
  unfold binary_round. destruct (shl_align _ _ _) as [mz ez].
  apply binary_round_aux_num. lia.
Qed.

Lemma binary_normalize_num (m e : Z) :
  is_nan (binary_normalize prec emax m e false) = false /\
  (0 <= m -> is_neg (binary_normalize prec emax m e false) = false).
Proof.
  destruct m as [|m|m]; simpl; [done| |].
  - destruct (binary_round_num false m e). auto.
  - split; [apply binary_round_num|lia].
Qed.

Definition is_fin (x : spec_float) : bool :=
  match x with S754_finite _ _ _ | S754_zero _ => true | _ => false end.

Lemma SFsub_fin_num (x y : spec_float) :
  is_fin x = true -> is_fin y = true -> is_nan (SFsub prec emax x y) = false.
Proof.
  destruct x as [sx|sx| |sx mx ex], y as [sy|sy| |sy my ey]; try done; intros _ _; simpl.
  - by destruct sx, sy.
  - apply binary_normalize_num.
Qed.

Lemma SFmul_square (x : spec_float) :
  is_nan x = false ->
  is_nan (SFmul prec emax x x) = false /\ is_neg (SFmul prec emax x x) = false.
Proof.
  destruct x as [s|s| |s m e]; try done; intros _; simpl; [by destruct s..|].
  rewrite xorb_nilpotent. destruct (binary_round_aux_num false (Zpos (m * m)) (e + e) loc_Exact).
  - lia.
  - auto.
Qed.

Lemma shl_align_pos (m : positive) (e e' : Z) : 0 < Zpos (shl_align m e e').1.
Proof. lia. Qed.

Lemma SFadd_nonneg (x y : spec_float) :
  is_nan x = false -> is_nan y = false -> is_neg x = false -> is_neg y = false ->
  is_nan (SFadd prec emax x y) = false /\ is_neg (SFadd prec emax x y) = false.
Proof.
  destruct x as [sx|sx| |sx mx ex], y as [sy|sy| |sy my ey]; try done;
    simpl; intros _ _ Hx Hy; subst; try done; try (by destruct sx, sy).
  destruct (binary_normalize_num
    (cond_Zopp false (Zpos (shl_align mx ex (Z.min ex ey)).1)
     + cond_Zopp false (Zpos (shl_align my ey (Z.min ex ey)).1)) (Z.min ex ey)) as [H1 H2].
  split; [exact H1|]. apply H2. simpl. lia.
Qed.

Lemma SFsqrt_nonneg (x : spec_float) :
  is_nan x = false -> is_neg x = false ->
  is_nan (SFsqrt prec emax x) = false /\ is_neg (SFsqrt prec emax x) = false.
Proof.
  destruct x as [s|s| |s m e]; simpl; try done; intros _ Hs; subst; [done|].
  unfold SFsqrt_core_binary.
  set (m' := match _ - _ with Z0 => _ | Zpos _ => _ | Zneg _ => _ end).
  pose proof (Z.sqrtrem_sqrt m') as Hq. destruct (Z.sqrtrem m') as [q r].
  simpl in Hq. pose proof (Z.sqrt_nonneg m').
  match goal with |- context [binary_round_aux _ _ false q ?e ?l] =>
    destruct (binary_round_aux_num false q e l ltac:(lia)) end.
  auto.
Qed.

(** Rounding commutes with the sign. *)
Lemma binary_round_opp (m : positive) (e : Z) :
  binary_round prec emax true m e = SFopp (binary_round prec emax false m e).
Proof.
  unfold binary_round, binary_round_aux. destruct (shl_align _ _ _) as [mz ez].
  destruct (shr_fexp prec emax (Zpos mz) ez loc_Exact) as [r1 e1].
  destruct (shr_fexp _ _ _ e1 loc_Exact) as [r2 e2].
  destruct (shr_m r2); try done. by destruct (e2 <=? emax - prec).
Qed.

Lemma SFmul_opp (x : spec_float) :
  SFmul prec emax (SFopp x) (SFopp x) = SFmul prec emax x x.
Proof. destruct x as [[]|[]| |[] m e]; reflexivity. Qed.

(** The square of a difference does not depend on its direction. *)
Lemma SFsub_square_sym (x y : spec_float) :
  SFmul prec emax (SFsub prec emax x y) (SFsub prec emax x y)
  = SFmul prec emax (SFsub prec emax y x) (SFsub prec emax y x).
Proof.
  destruct x as [sx|sx| |sx mx ex], y as [sy|sy| |sy my ey]; try done;
    try (by destruct sx, sy).
  unfold SFsub. rewrite (Z.min_comm ey ex).
  set (a := cond_Zopp sx _). set (b := cond_Zopp sy _).
  replace (b - a) with (- (a - b)) by lia.
  destruct (a - b) as [|m|m]; simpl; [done|..].
  - by rewrite binary_round_opp, SFmul_opp.
  - by rewrite binary_round_opp, SFmul_opp.
Qed.

Lemma SFsub_self (x : spec_float) : is_fin x = true -> SFsub prec emax x x = S754_zero false.
Proof.
  destruct x as [s|s| |s m e]; try done; intros _; [by destruct s|].
  unfold SFsub. by rewrite Z.sub_diag.
Qed.

End Rounding.

Lemma f64_of_f32_nonneg (x : f32) :
  is_nan x = false -> is_neg x = false ->
  is_nan (f64_of_f32 x) = false /\ is_neg (f64_of_f32 x) = false.
Proof.
  destruct x as [s|s| |s m e]; try done. intros _ Hs. simpl in Hs. subst s. unfold f64_of_f32.
  destruct (binary_round_num 53 1024 false m e). auto.
Qed.

Lemma f32_of_f64_nonneg (x : f64) :
  is_nan x = false -> is_neg x = false ->
  is_nan (f32_of_f64 x) = false /\ is_neg (f32_of_f64 x) = false.
Proof.
  destruct x as [s|s| |s m e]; try done. intros _ Hs. simpl in Hs. subst s. unfold f32_of_f64.
  destruct (binary_round_num 24 128 false m e). auto.
Qed.
