(* ===== verification/FloatOrder.v ===== *)
(** * Addition of non-negative floating-point numbers is monotone

    The sums that the graph algorithms form are sums of non-negative
    [double]s.  Every such number is an integer multiple of the least
    subnormal, so it has an integer value [val]; a sum has the value
    [rnd (val x + val y)], where [rnd] rounds to the nearest representable
    integer.  From this follow that sums are monotone and do not decrease. *)

From stdpp Require Import base list numbers.
From Stdlib Require Import ZArith Lia.
From Stdlib Require Import SpecFloat.
From S2P Require Import Prelude Float32.

Local Open Scope Z_scope.

(** ** Rounding of integers *)

(** [n / 2^s] rounded to the nearest integer, to the even one of two. *)
Definition rne (n s : Z) : Z :=
  let q := n / 2 ^ s in
  let r := n mod 2 ^ s in
  match 2 * r ?= 2 ^ s with
  | Lt => q
  | Eq => if Z.even q then q else q + 1
  | Gt => q + 1
  end.

Lemma rne_bounds (n s : Z) : 0 <= s -> n / 2 ^ s <= rne n s <= n / 2 ^ s + 1.
Proof. intros Hs. unfold rne. destruct (_ ?= _); [destruct (Z.even _)| |]; lia. Qed.

Lemma rne_mono (n n' s : Z) : 0 <= s -> n <= n' -> rne n s <= rne n' s.
Proof.
  intros Hs Hn. assert (Hp : 0 < 2 ^ s) by (apply Z.pow_pos_nonneg; lia).
  assert (Hq : n / 2 ^ s <= n' / 2 ^ s) by (apply Z.div_le_mono; lia).
  pose proof (rne_bounds n s Hs). pose proof (rne_bounds n' s Hs).
  destruct (decide (n / 2 ^ s = n' / 2 ^ s)) as [E|]; [|lia].
  assert (Hr : n mod 2 ^ s <= n' mod 2 ^ s) by (rewrite !Z.mod_eq by lia; rewrite E; lia).
  unfold rne. rewrite <- E.
  destruct (Z.compare_spec (2 * (n mod 2 ^ s)) (2 ^ s)), (Z.compare_spec (2 * (n' mod 2 ^ s)) (2 ^ s));
    try destruct (Z.even _); lia.
Qed.

Lemma rne_exact (q s : Z) : 0 <= s -> rne (q * 2 ^ s) s = q.
Proof.
  intros Hs. assert (Hp : 0 < 2 ^ s) by (apply Z.pow_pos_nonneg; lia). unfold rne.
  rewrite Z.div_mul, Z.mod_mul by lia. destruct (Z.compare_spec (2 * 0) (2 ^ s)); lia.
Qed.

Lemma rne_scale (n s t : Z) : 0 <= s -> 0 <= t -> rne (n * 2 ^ t) (s + t) = rne n s.
Proof.
  intros Hs Ht. assert (Hp : 0 < 2 ^ t) by (apply Z.pow_pos_nonneg; lia). assert (Hq : 0 < 2 ^ s) by (apply Z.pow_pos_nonneg; lia).
  unfold rne. rewrite Z.pow_add_r by done. rewrite Z.div_mul_cancel_r, Z.mul_mod_distr_r by lia.
  replace (2 * (n mod 2 ^ s * 2 ^ t)) with (2 * (n mod 2 ^ s) * 2 ^ t) by ring.
  rewrite <- (Zmult_compare_compat_r (2 * (n mod 2 ^ s)) (2 ^ s) (2 ^ t)) by lia. done.
Qed.

(** The number of binary digits. *)
Definition digits (n : Z) : Z := Z.log2 n + 1.

Lemma digits_bounds (n : Z) : 0 < n -> 2 ^ (digits n - 1) <= n < 2 ^ digits n.
Proof. intros Hn. unfold digits. replace (Z.log2 n + 1 - 1) with (Z.log2 n) by lia. by apply Z.log2_spec. Qed.

Lemma digits_unique (n d : Z) : 2 ^ (d - 1) <= n < 2 ^ d -> 0 < d -> digits n = d.
Proof. intros Hn Hd. unfold digits. rewrite (Z.log2_unique n (d - 1)); [lia|lia|]. by replace (Z.succ (d - 1)) with d by lia. Qed.

Lemma digits_pos (n : Z) : 0 < n -> 1 <= digits n.
Proof. intros Hn. unfold digits. pose proof (Z.log2_nonneg n). lia. Qed.

Lemma digits_scale (n t : Z) : 0 < n -> 0 <= t -> digits (n * 2 ^ t) = digits n + t.
Proof. intros Hn Ht. unfold digits. rewrite Z.log2_mul_pow2 by lia. lia. Qed.

Lemma digits2_digits (m : positive) : Zpos (digits2_pos m) = digits (Zpos m).
Proof. symmetry. apply digits_unique; [apply digits2_pos_bounds|lia]. Qed.

Section Round.
Context (prec : Z).
Hypothesis prec_big : 1 < prec.

Definition rnd (n : Z) : Z := let s := Z.max 0 (digits n - prec) in rne n s * 2 ^ s.

Lemma pow_le (a b : Z) : 0 <= a -> a <= b -> 2 ^ a <= 2 ^ b.
Proof. intros. apply Z.pow_le_mono_r; lia. Qed.

(** The mantissa before the exponent is adjusted. *)
Lemma rne_range (n : Z) : 0 < n ->
  let s := Z.max 0 (digits n - prec) in
  0 < rne n s <= 2 ^ prec /\ (0 < s -> 2 ^ (prec - 1) <= rne n s) /\ (s = 0 -> rne n s = n /\ n < 2 ^ prec).
Proof.
  intros Hn s. pose proof (digits_bounds n Hn) as [Hl Hu]. pose proof (digits_pos n Hn) as Hd.
  destruct (decide (digits n <= prec)) as [Hsm|Hbig].
  - assert (Hs : s = 0) by lia. rewrite Hs. pose proof (rne_exact n 0 ltac:(lia)) as E. rewrite Z.pow_0_r, Z.mul_1_r in E. rewrite E.
    pose proof (pow_le (digits n) prec ltac:(lia) Hsm). lia.
  - assert (Hs : s = digits n - prec) by lia. pose proof (rne_bounds n s ltac:(lia)) as Hb.
    assert (Hlo : 2 ^ (prec - 1) <= n / 2 ^ s).
    { apply Z.div_le_lower_bound; [apply Z.pow_pos_nonneg; lia|]. rewrite <- Z.pow_add_r by lia.
      replace (s + (prec - 1)) with (digits n - 1) by lia. done. }
    assert (Hhi : n / 2 ^ s < 2 ^ prec).
    { apply Z.div_lt_upper_bound; [apply Z.pow_pos_nonneg; lia|]. rewrite <- Z.pow_add_r by lia. by replace (s + prec) with (digits n) by lia. }
    pose proof (Z.pow_pos_nonneg 2 (prec - 1) ltac:(lia) ltac:(lia)). lia.
Qed.

(** Between the powers of two around the number. *)
Lemma rnd_range (n : Z) : 0 < n -> 2 ^ (digits n - 1) <= rnd n <= 2 ^ digits n.
Proof.
  intros Hn. pose proof (rne_range n Hn) as (Hr & Hlo & Hex). unfold rnd. set (s := Z.max 0 (digits n - prec)) in *.
  pose proof (digits_bounds n Hn) as Hb. pose proof (digits_pos n Hn). destruct (decide (s = 0)) as [E|Hs].
  - destruct (Hex E) as [-> _]. rewrite E, Z.pow_0_r. lia.
  - assert (Hpos : 0 < s) by lia. specialize (Hlo Hpos). assert (Hp : 0 < 2 ^ s) by (apply Z.pow_pos_nonneg; lia).
    replace (digits n - 1) with (prec - 1 + s) by lia. replace (digits n) with (prec + s) by lia.
    rewrite !Z.pow_add_r by lia. nia.
Qed.

Lemma rnd_mono (n n' : Z) : 0 <= n -> n <= n' -> rnd n <= rnd n'.
Proof.
  intros Hn Hle. destruct (decide (n = 0)) as [->|]; [|destruct (decide (digits n = digits n')) as [E|Hne]].
  - destruct (decide (n' = 0)) as [->|]; [done|]. pose proof (rnd_range n' ltac:(lia)).
    pose proof (Z.pow_nonneg 2 (digits n' - 1) ltac:(lia)). replace (rnd 0) with 0; [lia|].
    unfold rnd. replace (Z.max 0 (digits 0 - prec)) with 0 by (unfold digits; cbn; lia). done.
  - unfold rnd. rewrite E. apply Z.mul_le_mono_nonneg_r; [apply Z.pow_nonneg; lia|]. apply rne_mono; lia.
  - assert (Hd : digits n <= digits n') by (unfold digits; pose proof (Z.log2_le_mono n n' Hle); lia).
    pose proof (rnd_range n ltac:(lia)). pose proof (rnd_range n' ltac:(lia)). pose proof (digits_pos n ltac:(lia)).
    pose proof (pow_le (digits n) (digits n' - 1) ltac:(lia) ltac:(lia)). lia.
Qed.

(** A number with few enough digits, up to trailing zeros. *)
Lemma rnd_exact (q t : Z) : 0 <= q -> q < 2 ^ prec -> 0 <= t -> rnd (q * 2 ^ t) = q * 2 ^ t.
Proof.
  intros Hq Hlt Ht. destruct (decide (q = 0)) as [->|].
  { rewrite Z.mul_0_l. unfold rnd. by replace (Z.max 0 (digits 0 - prec)) with 0 by (unfold digits; cbn; lia). }
  assert (Hd : digits (q * 2 ^ t) = digits q + t) by (apply digits_scale; lia).
  assert (Hq' : digits q <= prec).
  { pose proof (digits_bounds q ltac:(lia)) as [Hl _]. destruct (decide (digits q <= prec)); [done|].
    pose proof (pow_le prec (digits q - 1) ltac:(lia) ltac:(lia)). lia. }
  unfold rnd. rewrite Hd. set (s := Z.max 0 (digits q + t - prec)).
  replace (q * 2 ^ t) with (q * 2 ^ (t - s) * 2 ^ s).
  - by rewrite rne_exact by lia.
  - rewrite <- Z.mul_assoc, <- Z.pow_add_r by lia. by replace (t - s + s) with t by lia.
Qed.

End Round.

(** ** The rounding of the format *)

Lemma iter_pos_nat {A : Type} (f : A -> A) (p : positive) (x : A) : iter_pos f p x = Nat.iter (Pos.to_nat p) f x.
Proof.
  revert x. induction p as [p IH|p IH|]; intros x; cbn [iter_pos]; rewrite ?IH.
  - rewrite Pos2Nat.inj_xI. rewrite <- Nat.iter_succ_r, <- Nat.iter_add. f_equal. lia.
  - rewrite Pos2Nat.inj_xO, <- Nat.iter_add. f_equal. lia.
  - done.
Qed.

Lemma shr_1_spec (q : Z) (r s : bool) : 0 <= q ->
  shr_1 (Build_shr_record q r s) = Build_shr_record (q / 2) (Z.odd q) (r || s).
Proof. intros Hq. rewrite <- Z.div2_div. by destruct q as [|[p|p|]|[p|p|]]. Qed.

(** Shifting [m] right by [k]: the quotient, the first bit that is lost, and
    whether another lost bit is set. *)
Lemma shr_iter (m : Z) (k : nat) : 0 <= m ->
  Nat.iter k shr_1 (Build_shr_record m false false) =
  Build_shr_record (m / 2 ^ Z.of_nat k)
    (match k with O => false | S j => Z.odd (m / 2 ^ Z.of_nat j) end)
    (match k with O => false | S j => negb (m mod 2 ^ Z.of_nat j =? 0) end).
Proof.
  intros Hm. induction k as [|k IH]; [by rewrite Z.pow_0_r, Z.div_1_r|].
  assert (Hp : 0 < 2 ^ Z.of_nat k) by (apply Z.pow_pos_nonneg; lia).
  cbn [Nat.iter]. unfold Nat.iter in IH |- *. cbn [nat_rect]. rewrite IH. clear IH.
  set (q := m / 2 ^ Z.of_nat k). assert (Hq : 0 <= q) by (apply Z.div_pos; lia).
  assert (E : m / 2 ^ Z.of_nat (S k) = q / 2).
  { unfold q. rewrite Nat2Z.inj_succ, Z.pow_succ_r, Z.div_div by lia. by rewrite Z.mul_comm. }
  rewrite E.
  assert (Hs : (match k with O => false | S j => Z.odd (m / 2 ^ Z.of_nat j) end || match k with O => false | S j => negb (m mod 2 ^ Z.of_nat j =? 0) end)
             = negb (m mod 2 ^ Z.of_nat k =? 0)).
  { destruct k as [|j]; [by rewrite Z.pow_0_r, Z.mod_1_r|].
    assert (Hj : 0 < 2 ^ Z.of_nat j) by (apply Z.pow_pos_nonneg; lia).
    rewrite Nat2Z.inj_succ, Z.pow_succ_r by lia. rewrite (Z.mul_comm 2), Z.rem_mul_r by lia.
    set (r := m mod 2 ^ Z.of_nat j). assert (0 <= r < 2 ^ Z.of_nat j) by (apply Z.mod_pos_bound; lia).
    pose proof (Z.mod_pos_bound (m / 2 ^ Z.of_nat j) 2 ltac:(lia)) as Hb. rewrite Zmod_odd in Hb |- *.
    destruct (Z.odd (m / 2 ^ Z.of_nat j)); cbn [orb].
    - symmetry. apply negb_true_iff, Z.eqb_neq. nia.
    - f_equal. by rewrite Z.mul_0_r, Z.add_0_r. }
  rewrite shr_1_spec by done. by rewrite Hs.
Qed.

Lemma shr_round (m : Z) (k : nat) : 0 <= m ->
  let r := Nat.iter k shr_1 (Build_shr_record m false false) in
  round_nearest_even (shr_m r) (loc_of_shr_record r) = rne m (Z.of_nat k).
Proof.
  intros Hm. rewrite shr_iter by done. destruct k as [|j].
  - cbn [shr_m loc_of_shr_record round_nearest_even]. change (Z.of_nat 0) with 0. pose proof (rne_exact m 0 ltac:(lia)) as E.
    rewrite Z.pow_0_r, Z.mul_1_r in E. by rewrite Z.pow_0_r, Z.div_1_r.
  - assert (Hj : 0 < 2 ^ Z.of_nat j) by (apply Z.pow_pos_nonneg; lia).
    assert (E : m mod 2 ^ Z.of_nat (S j) = m mod 2 ^ Z.of_nat j + 2 ^ Z.of_nat j * (if Z.odd (m / 2 ^ Z.of_nat j) then 1 else 0)).
    { rewrite Nat2Z.inj_succ, Z.pow_succ_r by lia. rewrite (Z.mul_comm 2), Z.rem_mul_r by lia. by rewrite Zmod_odd. }
    assert (Ep : 2 ^ Z.of_nat (S j) = 2 * 2 ^ Z.of_nat j) by (rewrite Nat2Z.inj_succ, Z.pow_succ_r by lia; done).
    pose proof (Z.mod_pos_bound m (2 ^ Z.of_nat j) Hj) as Hb. unfold rne. rewrite E.
    destruct (Z.odd (m / 2 ^ Z.of_nat j)), (Z.eqb_spec (m mod 2 ^ Z.of_nat j) 0) as [E0|E0];
      cbn [negb shr_m loc_of_shr_record round_nearest_even];
      match goal with |- context [?a ?= ?b] => destruct (Z.compare_spec a b) end; try done; lia.
Qed.

Section Format.
Context (prec emax : Z).
Hypothesis prec_big : 1 < prec.
Hypothesis emax_big : prec < emax.

Abbreviation emin := (SpecFloat.emin prec emax).
Abbreviation fexp := (SpecFloat.fexp prec emax).

(** The value of [m * 2^e] in units of the least subnormal. *)
Definition sc (m e : Z) : Z := m * 2 ^ (e - emin).

Definition overflow : Z := 2 ^ (emax - emin).

(** The value of a non-negative number; infinity is the first power of two
    that is too large. *)
Definition val (x : spec_float) : Z :=
  match x with
  | S754_finite _ m e => sc (Zpos m) e
  | S754_infinity _ => overflow
  | _ => 0
  end.

Definition good (x : spec_float) : bool := negb (is_nan x) && negb (is_neg x) && valid_binary prec emax x.

Lemma fexp_emin (k : Z) : emin <= fexp k.
Proof. unfold SpecFloat.fexp. lia. Qed.

(** The result of [binary_round]: the rounded value, or infinity. *)
Lemma round_finish (q f : Z) : 0 < q <= 2 ^ prec -> emin <= f -> (emin < f -> 2 ^ (prec - 1) <= q) ->
  let x := (let '(mrs, e) := shr_fexp prec emax q f loc_Exact in
            match shr_m mrs with
            | Z0 => S754_zero false
            | Zpos m => if Z.leb e (Z.sub emax prec) then S754_finite false m e else S754_infinity false
            | _ => S754_nan
            end) in
  good x = true /\ val x = Z.min (sc q f) overflow.
Proof.
  intros Hq Hf Hn. unfold shr_fexp. cbn [shr_record_of_loc].
  assert (Hd : Zdigits2 q = digits q) by (destruct q; [lia|apply digits2_digits|lia]). rewrite Hd.
  pose proof (digits_bounds q ltac:(lia)) as Hb. pose proof (digits_pos q ltac:(lia)) as Hd1.
  assert (Hmin : emin = 3 - emax - prec) by done.
  (* a mantissa of at most [prec] digits at its exponent *)
  assert (Hfin : forall m e, 0 < Zpos m < 2 ^ prec -> emin <= e -> (emin < e -> 2 ^ (prec - 1) <= Zpos m) -> sc (Zpos m) e = sc q f ->
    let x := if Z.leb e (Z.sub emax prec) then S754_finite false m e else S754_infinity false in
    good x = true /\ val x = Z.min (sc q f) overflow).
  { intros m e Hm He Hme Hsc. pose proof (digits_bounds (Zpos m) ltac:(lia)) as Hbm. pose proof (digits_pos (Zpos m) ltac:(lia)).
    assert (Hdm : digits (Zpos m) <= prec).
    { destruct (decide (digits (Zpos m) <= prec)); [done|]. pose proof (pow_le prec (digits (Zpos m) - 1) ltac:(lia) ltac:(lia)). lia. }
    assert (Hdn : emin < e -> digits (Zpos m) = prec) by (intros Hlt; apply digits_unique; [split; [by apply Hme|lia]|lia]).
    rewrite <- Hsc. unfold overflow, sc. cbv zeta. destruct (Z.leb_spec e (emax - prec)) as [Hle|Hgt].
    - split.
      + unfold good. cbn [is_nan is_neg negb andb valid_binary]. unfold bounded, canonical_mantissa. rewrite digits2_digits.
        apply andb_true_iff. split; [apply Z.eqb_eq|by apply Z.leb_le]. unfold SpecFloat.fexp.
        destruct (decide (emin < e)) as [Hlt|Hge]; [rewrite (Hdn Hlt); lia|lia].
      + cbn [val]. unfold sc. rewrite Z.min_l; [done|]. replace (emax - emin) with (prec + (emax - prec - emin)) by lia.
        rewrite Z.pow_add_r by lia. pose proof (pow_le (e - emin) (emax - prec - emin) ltac:(lia) ltac:(lia)).
        pose proof (Z.pow_pos_nonneg 2 (e - emin) ltac:(lia) ltac:(lia)). nia.
    - split; [done|]. cbn [val]. unfold overflow. rewrite Z.min_r; [done|].
      specialize (Hme ltac:(lia)). replace (emax - emin) with (prec - 1 + (emax - emin - (prec - 1))) by lia.
      rewrite Z.pow_add_r by lia. pose proof (pow_le (emax - emin - (prec - 1)) (e - emin) ltac:(lia) ltac:(lia)).
      pose proof (Z.pow_pos_nonneg 2 (prec - 1) ltac:(lia) ltac:(lia)). nia. }
  destruct (decide (q = 2 ^ prec)) as [->|Hne].
  - assert (Ed : digits (2 ^ prec) = prec + 1).
    { apply digits_unique; [|lia]. replace (prec + 1 - 1) with prec by lia. split; [done|]. apply Z.pow_lt_mono_r; lia. }
    rewrite Ed. assert (En : fexp (prec + 1 + f) - f = 1) by (unfold SpecFloat.fexp; lia). rewrite En.
    cbn [shr iter_pos]. rewrite shr_1_spec by lia. cbn [shr_m].
    assert (E2 : 2 ^ prec / 2 = 2 ^ (prec - 1)).
    { replace prec with (Z.succ (prec - 1)) at 1 by lia. rewrite Z.pow_succ_r, Z.mul_comm, Z.div_mul by lia. done. }
    rewrite E2. assert (Hpp : 0 < 2 ^ (prec - 1)) by (apply Z.pow_pos_nonneg; lia).
    assert (Hlt : 2 ^ (prec - 1) < 2 ^ prec) by (apply Z.pow_lt_mono_r; lia).
    assert (Esc : sc (2 ^ (prec - 1)) (f + 1) = sc (2 ^ prec) f).
    { unfold sc. rewrite <- !Z.pow_add_r by lia. f_equal. lia. }
    destruct (2 ^ (prec - 1)) as [|m|m] eqn:Em; [lia| |lia]. apply Hfin; [lia|lia|lia|done].
  - assert (Hqd : digits q <= prec).
    { destruct (decide (digits q <= prec)); [done|]. pose proof (pow_le prec (digits q - 1) ltac:(lia) ltac:(lia)). lia. }
    assert (En : fexp (digits q + f) - f <= 0) by (unfold SpecFloat.fexp; lia).
    destruct (fexp (digits q + f) - f) as [|d|d]; [|lia|]; cbn [shr shr_m];
      (destruct q as [|m|m]; [lia| |lia]; apply Hfin; [lia|lia|done|done]).
Qed.

Lemma iter_xO (m d : positive) : Zpos (Pos.iter xO m d) = Zpos m * 2 ^ Zpos d.
Proof.
  induction d as [|d IH] using Pos.peano_ind; [cbn; lia|]. rewrite Pos.iter_succ, Pos2Z.inj_succ, Z.pow_succ_r by lia.
  rewrite Pos2Z.inj_xO, IH. ring.
Qed.

Lemma binary_round_value (m : positive) (e : Z) : emin <= e ->
  good (binary_round prec emax false m e) = true /\
  val (binary_round prec emax false m e) = Z.min (rnd prec (sc (Zpos m) e)) overflow.
Proof.
  intros He. unfold binary_round. rewrite digits2_digits. set (k := digits (Zpos m) + e). set (f := fexp k).
  pose proof (fexp_emin k) as Hf. fold f in Hf.
  assert (Hsh : exists m1 e1, shl_align m e f = (m1, e1) /\ e1 <= f /\ emin <= e1 /\ sc (Zpos m1) e1 = sc (Zpos m) e /\
            digits (Zpos m1) + e1 = k).
  { unfold shl_align. destruct (f - e) as [|d|d] eqn:Ed; [exists m, e; repeat split; lia..|].
    exists (Pos.iter xO m d), f. split; [done|]. split; [lia|]. split; [done|]. rewrite iter_xO. split.
    - unfold sc. rewrite <- Z.mul_assoc, <- Z.pow_add_r by lia. do 2 f_equal. lia.
    - rewrite digits_scale by lia. unfold k. lia. }
  destruct Hsh as (m1 & e1 & -> & He1 & Hmin & <- & Hk).
  remember (binary_round_aux prec emax false (Zpos m1) e1 loc_Exact) as x eqn:Hx. unfold binary_round_aux in Hx.
  unfold shr_fexp at 1 in Hx. cbn [Zdigits2 shr_record_of_loc] in Hx. rewrite digits2_digits, Hk in Hx. fold f in Hx.
  assert (Hrec : exists r, shr (Build_shr_record (Zpos m1) false false) e1 (f - e1) = (r, f) /\
            round_nearest_even (shr_m r) (loc_of_shr_record r) = rne (Zpos m1) (f - e1)).
  { destruct (f - e1) as [|p|p] eqn:Ep; [|exists (iter_pos shr_1 p (Build_shr_record (Zpos m1) false false)); split|lia].
    - exists (Build_shr_record (Zpos m1) false false). split; [cbn; f_equal; lia|]. apply (shr_round (Zpos m1) 0). lia.
    - cbn [shr]. f_equal. lia.
    - rewrite iter_pos_nat, shr_round by lia. f_equal. lia. }
  destruct Hrec as (r & Er & Eq). rewrite Er, Eq in Hx. clear r Er Eq.
  assert (Hn : 0 < sc (Zpos m1) e1) by (unfold sc; apply Z.mul_pos_pos; [lia|apply Z.pow_pos_nonneg; lia]).
  pose proof (rne_range prec prec_big (sc (Zpos m1) e1) Hn) as (H1 & H2 & H3). unfold rnd. cbv zeta in *.
  assert (Es : Z.max 0 (digits (sc (Zpos m1) e1) - prec) = f - emin).
  { unfold sc. rewrite digits_scale by lia. unfold f, SpecFloat.fexp. lia. }
  rewrite Es in *.
  assert (Er : rne (sc (Zpos m1) e1) (f - emin) = rne (Zpos m1) (f - e1)).
  { unfold sc. replace (f - emin) with (f - e1 + (e1 - emin)) by lia. apply rne_scale; lia. }
  rewrite Er in *. pose proof (round_finish (rne (Zpos m1) (f - e1)) f H1 Hf ltac:(intros; apply H2; lia)) as Hfin. rewrite Hx. exact Hfin.
Qed.

(** ** Comparison and addition *)

Lemma good_finite (s : bool) (m : positive) (e : Z) : good (S754_finite s m e) = true ->
  s = false /\ emin <= e <= emax - prec /\ Zpos m < 2 ^ prec /\ (emin < e -> 2 ^ (prec - 1) <= Zpos m).
Proof.
  unfold good. cbn [is_nan is_neg negb andb valid_binary]. destruct s; [done|]. cbn [negb andb]. unfold bounded, canonical_mantissa.
  rewrite digits2_digits. intros [Hc%Z.eqb_eq He%Z.leb_le]%andb_true_iff. unfold SpecFloat.fexp in Hc.
  pose proof (digits_bounds (Zpos m) ltac:(lia)) as Hb. pose proof (digits_pos (Zpos m) ltac:(lia)). split; [done|]. split; [lia|]. split.
  - pose proof (pow_le (digits (Zpos m)) prec ltac:(lia) ltac:(lia)). lia.
  - intros Hlt. replace (digits (Zpos m)) with prec in Hb by lia. lia.
Qed.

Lemma val_finite (m : positive) (e : Z) : good (S754_finite false m e) = true -> 0 < sc (Zpos m) e < overflow.
Proof.
  intros (_ & He & Hm & _)%good_finite. unfold sc, overflow. pose proof (Z.pow_pos_nonneg 2 (e - emin) ltac:(lia) ltac:(lia)).
  split; [nia|]. replace (emax - emin) with (prec + (emax - prec - emin)) by lia. rewrite Z.pow_add_r by (unfold SpecFloat.emin; lia).
  pose proof (pow_le (e - emin) (emax - prec - emin) ltac:(lia) ltac:(lia)). nia.
Qed.

Lemma overflow_pos : 0 < overflow.
Proof. unfold overflow. apply Z.pow_pos_nonneg; [lia|]. unfold SpecFloat.emin. lia. Qed.

Lemma val_range (x : spec_float) : good x = true -> 0 <= val x <= overflow.
Proof.
  intros Hx. pose proof overflow_pos. destruct x as [s|s| |s m e]; cbn [val]; try lia.
  pose proof (good_finite _ _ _ Hx) as (-> & _). pose proof (val_finite m e Hx). lia.
Qed.

Lemma good_compare (x y : spec_float) : good x = true -> good y = true -> SFcompare x y = Some (val x ?= val y).
Proof.
  intros Hx Hy. pose proof overflow_pos as Ho.
  assert (Hfin : forall m1 e1 m2 e2, good (S754_finite false m1 e1) = true -> good (S754_finite false m2 e2) = true -> e1 < e2 ->
    sc (Zpos m1) e1 < sc (Zpos m2) e2).
  { intros m1 e1 m2 e2 (_ & H1 & H2 & _)%good_finite (_ & H3 & H4 & H5)%good_finite Hlt. specialize (H5 ltac:(lia)). unfold sc.
    replace (e2 - emin) with (1 + (e1 - emin) + (e2 - e1 - 1)) by lia. rewrite !Z.pow_add_r by lia.
    pose proof (Z.pow_pos_nonneg 2 (e1 - emin) ltac:(lia) ltac:(lia)). pose proof (Z.pow_pos_nonneg 2 (e2 - e1 - 1) ltac:(lia) ltac:(lia)).
    replace prec with (1 + (prec - 1)) in H2 by lia. rewrite Z.pow_add_r in H2 by lia.
    apply Z.lt_le_trans with (2 ^ 1 * 2 ^ (prec - 1) * 2 ^ (e1 - emin)); [by apply Z.mul_lt_mono_pos_r|].
    replace (Zpos m2 * (2 ^ 1 * 2 ^ (e1 - emin) * 2 ^ (e2 - e1 - 1))) with (2 ^ 1 * Zpos m2 * 2 ^ (e1 - emin) * 2 ^ (e2 - e1 - 1)) by ring.
    apply Z.le_trans with (2 ^ 1 * Zpos m2 * 2 ^ (e1 - emin)); [|nia]. apply Z.mul_le_mono_nonneg_r; lia. }
  destruct x as [s1|s1| |s1 m1 e1], y as [s2|s2| |s2 m2 e2]; try done;
    repeat match goal with H : good (S754_infinity ?s) = true |- _ => is_var s; destruct s; [discriminate|] end;
    repeat match goal with H : good (S754_finite ?s ?m ?e) = true |- _ => is_var s; pose proof (good_finite _ _ _ H) as [-> _]; pose proof (val_finite _ _ H) end;
    cbn [SFcompare val]; f_equal; symmetry.
  all: try (by apply Z.compare_refl). all: try (by apply Z.compare_lt_iff; lia). all: try (by apply Z.compare_gt_iff; lia).
  destruct (Z.compare_spec e1 e2) as [->|Hlt|Hgt].
  - change (Pos.compare_cont Eq m1 m2) with (Pos.compare m1 m2). unfold sc. symmetry.
    change (m1 ?= m2)%positive with (Zpos m1 ?= Zpos m2). apply Zmult_compare_compat_r. apply good_finite in Hx as (_ & He & _). apply Z.lt_gt, Z.pow_pos_nonneg; lia.
  - apply Z.compare_lt_iff. by apply Hfin.
  - apply Z.compare_gt_iff. by apply Hfin.
Qed.

Lemma good_ltb (x y : spec_float) : good x = true -> good y = true -> SFltb x y = (val x <? val y).
Proof. intros Hx Hy. unfold SFltb. rewrite good_compare by done. unfold Z.ltb. by destruct (val x ?= val y). Qed.

Lemma rnd_val (x : spec_float) : good x = true -> rnd prec (val x) = val x.
Proof.
  intros Hx. destruct x as [s|s| |s m e]; cbn [val].
  - apply (rnd_exact prec prec_big 0 0); [lia|apply Z.pow_pos_nonneg; lia|lia].
  - unfold overflow. rewrite <- (Z.mul_1_l (2 ^ _)). apply rnd_exact; [done|lia| |unfold SpecFloat.emin; lia].
    rewrite <- (Z.pow_0_r 2). apply Z.pow_lt_mono_r; lia.
  - apply (rnd_exact prec prec_big 0 0); [lia|apply Z.pow_pos_nonneg; lia|lia].
  - apply good_finite in Hx as (_ & He & Hm & _). unfold sc. apply rnd_exact; [done|lia|done|lia].
Qed.

Lemma good_add (x y : spec_float) : good x = true -> good y = true ->
  good (SFadd prec emax x y) = true /\ val (SFadd prec emax x y) = Z.min (rnd prec (val x + val y)) overflow.
Proof.
  intros Hx Hy. pose proof (val_range x Hx) as Hvx. pose proof (val_range y Hy) as Hvy. pose proof (rnd_val x Hx) as Hrx. pose proof (rnd_val y Hy) as Hry.
  pose proof (rnd_mono prec prec_big (val x) (val x + val y) ltac:(lia) ltac:(lia)) as Hmx.
  pose proof (rnd_mono prec prec_big (val y) (val x + val y) ltac:(lia) ltac:(lia)) as Hmy.
  destruct x as [s1|s1| |s1 m1 e1], y as [s2|s2| |s2 m2 e2]; try done;
    repeat match goal with H : good (S754_infinity ?s) = true |- _ => is_var s; destruct s; [discriminate|] end.
  - cbn [SFadd val] in *. pose proof overflow_pos. destruct s1, s2; (split; [done|]); cbn [val]; rewrite Z.add_0_l, Hrx; lia.
  - cbn [SFadd val] in *. rewrite Z.add_0_l in *. split; [done|]. cbn [val]. lia.
  - cbn [SFadd val] in *. rewrite Z.add_0_l in *. split; [done|]. lia.
  - cbn [SFadd val] in *. rewrite Z.add_0_r in *. split; [done|]. cbn [val]. lia.
  - cbn [SFadd val] in *. split; [done|]. cbn [val]. lia.
  - cbn [SFadd val] in *. split; [done|]. cbn [val]. lia.
  - cbn [SFadd val] in *. rewrite Z.add_0_r in *. split; [done|]. lia.
  - cbn [SFadd val] in *. split; [done|]. cbn [val]. lia.
  - pose proof (good_finite _ _ _ Hx) as (-> & He1 & _). pose proof (good_finite _ _ _ Hy) as (-> & He2 & _).
    cbn [SFadd cond_Zopp val]. set (ez := Z.min e1 e2).
    assert (Hal : forall m e, ez <= e -> emin <= ez -> exists p, (shl_align m e ez).1 = p /\ sc (Zpos p) ez = sc (Zpos m) e).
    { intros m e Hle Hmin. eexists. split; [done|]. unfold shl_align. destruct (ez - e) as [|d|d] eqn:Ed; cbn [fst]; [by replace ez with e by lia|lia|].
      rewrite iter_xO. unfold sc. rewrite <- Z.mul_assoc, <- Z.pow_add_r by lia. do 2 f_equal. lia. }
    destruct (Hal m1 e1) as (p1 & -> & E1); [lia|lia|]. destruct (Hal m2 e2) as (p2 & -> & E2); [lia|lia|].
    cbn [binary_normalize Z.add]. rewrite <- E1, <- E2. replace (sc (Zpos p1) ez + sc (Zpos p2) ez) with (sc (Zpos (p1 + p2)) ez) by (unfold sc; lia).
    apply binary_round_value. lia.
Qed.

End Format.

(** ** Doubles *)

(** A [double] that is not negative and not a NaN. *)
Definition f64_good (x : f64) : Prop := good 53 1024 x = true.

Definition f64_val : f64 -> Z := val 53 1024.

Lemma f64_val_range (x : f64) : f64_good x -> 0 <= f64_val x <= overflow 53 1024.
Proof. apply val_range; lia. Qed.

Lemma f64_ltb_val (x y : f64) : f64_good x -> f64_good y -> f32_ltb x y = (f64_val x <? f64_val y).
Proof. apply good_ltb; lia. Qed.

Lemma f64_add_good (x y : f64) : f64_good x -> f64_good y -> f64_good (f64_add x y).
Proof. intros Hx Hy. by apply good_add. Qed.

(** Sums do not decrease, and are monotone. *)
Lemma f64_add_grows (x y : f64) : f64_good x -> f64_good y -> f64_val x <= f64_val (f64_add x y).
Proof.
  intros Hx Hy. unfold f64_val, f64_add. destruct (good_add 53 1024 ltac:(lia) ltac:(lia) x y Hx Hy) as [_ ->].
  pose proof (val_range 53 1024 ltac:(lia) ltac:(lia) x Hx). pose proof (val_range 53 1024 ltac:(lia) ltac:(lia) y Hy).
  pose proof (rnd_mono 53 ltac:(lia) (val 53 1024 x) (val 53 1024 x + val 53 1024 y) ltac:(lia) ltac:(lia)) as Hm.
  rewrite (rnd_val 53 1024 ltac:(lia) ltac:(lia)) in Hm by done. lia.
Qed.

Lemma f64_add_mono (x y w : f64) : f64_good x -> f64_good y -> f64_good w -> f64_val x <= f64_val y ->
  f64_val (f64_add x w) <= f64_val (f64_add y w).
Proof.
  intros Hx Hy Hw Hle. unfold f64_val, f64_add in *. destruct (good_add 53 1024 ltac:(lia) ltac:(lia) x w Hx Hw) as [_ ->].
  destruct (good_add 53 1024 ltac:(lia) ltac:(lia) y w Hy Hw) as [_ ->].
  pose proof (val_range 53 1024 ltac:(lia) ltac:(lia) x Hx). pose proof (val_range 53 1024 ltac:(lia) ltac:(lia) w Hw).
  pose proof (rnd_mono 53 ltac:(lia) (val 53 1024 x + val 53 1024 w) (val 53 1024 y + val 53 1024 w) ltac:(lia) ltac:(lia)). lia.
Qed.
