(* ===== verification/FloatExact.v ===== *)
(** * Integers in [double]s

    The evaluator of Cypher expressions computes with integers as [double]s.
    A [double] that is the integer [a] exactly is described by [is_int x a];
    conversion, sum, difference, product and remainder of such numbers are
    exact while the result is below 2^53 in size.  The functions of the math
    library that the evaluator uses, but for [pow], are defined here. *)

From stdpp Require Import base list numbers.
From Stdlib Require Import ZArith Lia.
From Stdlib Require Import SpecFloat.
From S2P Require Import Prelude Float32 FloatOrder.

Local Open Scope Z_scope.

(** ** The math library *)

(** The remainder of the division cut to an integer; it is always exact. *)
Definition f64_fmod (x y : f64) : f64 :=
  match x, y with
  | S754_nan, _ | _, S754_nan | S754_infinity _, _ | _, S754_zero _ => S754_nan
  | _, S754_infinity _ | S754_zero _, _ => x
  | S754_finite sx mx ex, S754_finite _ my ey =>
      let ez := Z.min ex ey in
      binary_normalize 53 1024 (cond_Zopp sx (Zpos (shl_align mx ex ez).1 mod Zpos (shl_align my ey ez).1)) ez sx
  end.

(** A number below 2^53 in size, made an integer: [round n d] is [n / d]. *)
Definition f64_integral (round : Z -> Z -> Z) (x : f64) : f64 :=
  match x with
  | S754_finite s m (Zneg e) => binary_normalize 53 1024 (round (cond_Zopp s (Zpos m)) (2 ^ Zpos e)) 0 s
  | _ => x
  end.

Definition f64_floor : f64 -> f64 := f64_integral Z.div.
Definition f64_ceil : f64 -> f64 := f64_integral (fun n d => - (- n / d)).
(** Halves away from zero. *)
Definition f64_round : f64 -> f64 := f64_integral (fun n d => Z.sgn n * ((2 * Z.abs n + d) / (2 * d))).

(** ** Exact integers *)

Definition is_int (x : f64) (a : Z) : Prop :=
  match x with
  | S754_zero _ => a = 0
  | S754_finite s m e => -52 <= e /\ 2 ^ 52 <= Zpos m < 2 ^ 53 /\ cond_Zopp s (Zpos m) * 2 ^ (e + 52) = a * 2 ^ 52
  | _ => False
  end.

Definition exact_range (a : Z) : Prop := Z.abs a < 2 ^ 53.

Lemma cond_Zopp_opp (s : bool) (a : Z) : cond_Zopp (negb s) a = - cond_Zopp s a.
Proof. destruct s; cbn; lia. Qed.

Lemma is_int_opp (x : f64) (a : Z) : is_int x a -> is_int (SFopp x) (- a).
Proof.
  destruct x as [s|s| |s m e]; cbn [is_int SFopp]; [lia|done|done|]. intros (He & Hm & E). split; [done|]. split; [done|].
  rewrite cond_Zopp_opp. lia.
Qed.

Lemma scale_up (n e a k : Z) : 0 <= e + k -> 0 <= k <= 1074 -> n * 2 ^ (e + k) = a * 2 ^ k -> n * 2 ^ (e + 1074) = a * 2 ^ 1074.
Proof.
  intros He Hk E. replace (e + 1074) with (e + k + (1074 - k)) by lia. rewrite Z.pow_add_r, Z.mul_assoc, E by lia.
  rewrite <- Z.mul_assoc, <- Z.pow_add_r by lia. do 2 f_equal. lia.
Qed.

(** A positive value that [binary_round] does not change. *)
Lemma round_exact (n : positive) (e a : Z) : -1074 <= e -> Zpos n * 2 ^ (e + 1074) = a * 2 ^ 1074 -> exact_range a ->
  is_int (binary_round 53 1024 false n e) a.
Proof.
  intros He E Ha. unfold exact_range in Ha.
  assert (Hpos : 0 < a) by (pose proof (Z.pow_pos_nonneg 2 (e + 1074) ltac:(lia) ltac:(lia)); nia).
  assert (Esc : sc 53 1024 (Zpos n) e = a * 2 ^ 1074).
  { unfold sc. change (SpecFloat.emin 53 1024) with (-1074). by replace (e - -1074) with (e + 1074) by lia. }
  destruct (binary_round_value 53 1024 ltac:(lia) ltac:(lia) n e) as [Hg Hv]; [change (SpecFloat.emin 53 1024) with (-1074); lia|].
  rewrite Esc, rnd_exact in Hv by lia.
  assert (Hov : overflow 53 1024 = 2 ^ 1024 * 2 ^ 1074) by done. rewrite Hov in Hv. clear Hov.
  assert (H53 : 2 ^ 53 < 2 ^ 1024) by done. assert (H1074 : 0 < 2 ^ 1074) by done. rewrite Z.min_l in Hv by nia.
  destruct (binary_round 53 1024 false n e) as [s|s| |s m f] eqn:Ex; cbn [val is_int] in *.
  - nia.
  - change (overflow 53 1024) with (2 ^ 1024 * 2 ^ 1074) in Hv. nia.
  - nia.
  - destruct (good_finite 53 1024 ltac:(lia) s m f Hg) as (-> & Hf & Hm & Hc). cbn [cond_Zopp]. unfold sc in Hv.
    change (SpecFloat.emin 53 1024) with (-1074) in *. replace (f - -1074) with (f + 1074) in Hv by lia.
    assert (Hf52 : -52 <= f).
    { destruct (Z.le_gt_cases (-52) f) as [|Hlt]; [done|]. exfalso. pose proof (pow_le (f + 1074) 1021 ltac:(lia) ltac:(lia)) as Hp.
      pose proof (Z.pow_pos_nonneg 2 (f + 1074) ltac:(lia) ltac:(lia)). assert (2 ^ 1074 = 2 ^ 53 * 2 ^ 1021) by done.
      assert (0 < 2 ^ 1021) by done. nia. }
    split; [done|]. split; [split; [apply Hc; lia|done]|]. apply (Z.mul_reg_r _ _ (2 ^ 1022)); [done|].
    rewrite <- !Z.mul_assoc, <- !Z.pow_add_r by lia. replace (f + 52 + 1022) with (f + 1074) by lia. done.
Qed.

Lemma normalize_exact (n e a : Z) (s : bool) : -52 <= e -> n * 2 ^ (e + 52) = a * 2 ^ 52 -> exact_range a ->
  is_int (binary_normalize 53 1024 n e s) a.
Proof.
  intros He E Ha. destruct n as [|n|n]; cbn [binary_normalize].
  - cbn in *. lia.
  - apply round_exact; [lia| |done]. apply (scale_up _ _ _ 52); [lia|lia|done].
  - rewrite binary_round_opp. rewrite <- (Z.opp_involutive a). apply is_int_opp, round_exact; [lia| |unfold exact_range in *; lia].
    apply (scale_up _ _ _ 52); [lia|lia|lia].
Qed.

Lemma is_int_of_Z (a : Z) : exact_range a -> is_int (f64_of_Z a) a.
Proof. intros Ha. apply normalize_exact; [lia|done|done]. Qed.

(** The mantissa at a smaller exponent. *)
Lemma align_exact (m : positive) (e ez : Z) : -52 <= ez -> ez <= e -> Zpos (shl_align m e ez).1 * 2 ^ (ez + 52) = Zpos m * 2 ^ (e + 52).
Proof.
  intros Hz Hle. unfold shl_align. destruct (ez - e) as [|d|d] eqn:Ed; cbn [fst]; [by replace ez with e by lia|lia|].
  rewrite iter_xO, <- Z.mul_assoc, <- Z.pow_add_r by lia. do 2 f_equal. lia.
Qed.

Lemma cond_Zopp_mul (s : bool) (a b : Z) : cond_Zopp s a * b = cond_Zopp s (a * b).
Proof. destruct s; cbn; lia. Qed.

Lemma is_int_add (x y : f64) (a b : Z) : is_int x a -> is_int y b -> exact_range (a + b) -> is_int (f64_add x y) (a + b).
Proof.
  destruct x as [s1|s1| |s1 m1 e1], y as [s2|s2| |s2 m2 e2]; cbn [is_int]; try done.
  - intros -> -> _. by destruct s1, s2.
  - by intros -> Hy _.
  - intros Hx -> _. by rewrite Z.add_0_r.
  - intros (H1 & _ & E1) (H2 & _ & E2) Hr. unfold f64_add. cbn [SFadd]. apply normalize_exact; [lia| |done].
    rewrite Z.mul_add_distr_r, !cond_Zopp_mul, !align_exact, <- !cond_Zopp_mul by lia. lia.
Qed.

Lemma is_int_sub (x y : f64) (a b : Z) : is_int x a -> is_int y b -> exact_range (a - b) -> is_int (f64_sub x y) (a - b).
Proof.
  destruct x as [s1|s1| |s1 m1 e1], y as [s2|s2| |s2 m2 e2]; cbn [is_int]; try done.
  - intros -> -> _. by destruct s1, s2.
  - intros -> (H2 & Hm & E2) _. cbn. split; [done|]. split; [done|]. rewrite cond_Zopp_opp. lia.
  - intros Hx -> _. by rewrite Z.sub_0_r.
  - intros (H1 & _ & E1) (H2 & _ & E2) Hr. unfold f64_sub. cbn [SFsub]. apply normalize_exact; [lia| |done].
    rewrite Z.mul_sub_distr_r, !cond_Zopp_mul, !align_exact, <- !cond_Zopp_mul by lia. lia.
Qed.

(** A mantissa with too many digits is rounded as it is. *)
Lemma round_aux_long (s : bool) (m : positive) (e : Z) : 2 ^ 52 <= Zpos m -> -1074 <= e ->
  binary_round_aux 53 1024 s (Zpos m) e loc_Exact = binary_round 53 1024 s m e.
Proof.
  intros Hm He. unfold binary_round. rewrite digits2_digits. assert (Hd : 53 <= digits (Zpos m)).
  { pose proof (digits_bounds (Zpos m) ltac:(lia)) as [_ Hb]. destruct (Z.le_gt_cases 53 (digits (Zpos m))); [done|].
    pose proof (pow_le (digits (Zpos m)) 52). pose proof (digits_pos (Zpos m)). lia. }
  unfold shl_align. destruct (SpecFloat.fexp 53 1024 (digits (Zpos m) + e) - e) as [|d|d] eqn:Ed; [done|done|].
  unfold SpecFloat.fexp in Ed. lia.
Qed.

Lemma is_int_mul (x y : f64) (a b : Z) : is_int x a -> is_int y b -> exact_range (a * b) -> is_int (f64_mul x y) (a * b).
Proof.
  destruct x as [s1|s1| |s1 m1 e1], y as [s2|s2| |s2 m2 e2]; cbn [is_int]; try done; try (intros; cbn; lia).
  intros (H1 & Hm1 & E1) (H2 & Hm2 & E2) Hr. unfold f64_mul. cbn [SFmul]. rewrite round_aux_long by (rewrite ?Pos2Z.inj_mul; lia || nia).
  assert (E : cond_Zopp (xorb s1 s2) (Zpos (m1 * m2)) * 2 ^ (e1 + e2 + 1074) = a * b * 2 ^ 1074).
  { apply (scale_up _ _ _ 104); [lia|lia|]. replace (e1 + e2 + 104) with (e1 + 52 + (e2 + 52)) by lia. rewrite Z.pow_add_r, Pos2Z.inj_mul by lia.
    change (2 ^ 104) with (2 ^ 52 * 2 ^ 52). destruct s1, s2; cbn [xorb cond_Zopp] in *; nia. }
  destruct (xorb s1 s2); cbn [cond_Zopp] in E.
  - rewrite binary_round_opp, <- (Z.opp_involutive (a * b)). apply is_int_opp, round_exact; [lia|lia|unfold exact_range in *; lia].
  - by apply round_exact; [lia|..].
Qed.

Lemma is_int_fmod (x y : f64) (a b : Z) : is_int x a -> is_int y b -> b <> 0 -> exact_range a -> is_int (f64_fmod x y) (Z.rem a b).
Proof.
  destruct x as [s1|s1| |s1 m1 e1], y as [s2|s2| |s2 m2 e2]; cbn [is_int]; try done; try (intros; done).
  - intros -> _ Hb _. cbn [f64_fmod is_int]. by apply Z.rem_0_l.
  - intros (H1 & Hm1 & E1) (H2 & Hm2 & E2) Hb Ha. cbn [f64_fmod]. set (ez := Z.min e1 e2).
    pose proof (align_exact m1 e1 ez ltac:(lia) ltac:(lia)) as A1. pose proof (align_exact m2 e2 ez ltac:(lia) ltac:(lia)) as A2.
    set (p1 := (shl_align m1 e1 ez).1) in *. set (p2 := (shl_align m2 e2 ez).1) in *.
    assert (Ea : Z.abs a * 2 ^ 52 = Zpos p1 * 2 ^ (ez + 52)) by (destruct s1; cbn [cond_Zopp] in E1; lia).
    assert (Eb : Z.abs b * 2 ^ 52 = Zpos p2 * 2 ^ (ez + 52)) by (destruct s2; cbn [cond_Zopp] in E2; lia).
    assert (Em : (Zpos p1 mod Zpos p2) * 2 ^ (ez + 52) = (Z.abs a mod Z.abs b) * 2 ^ 52).
    { rewrite <- !Z.mul_mod_distr_r by lia. by rewrite Ea, Eb. }
    assert (Er : Z.rem a b = cond_Zopp s1 (Z.abs a mod Z.abs b)).
    { rewrite <- Z.rem_mod_nonneg by lia. rewrite Z.rem_abs_r, Z.rem_abs_l by done.
      assert (Hs : if s1 then a < 0 else 0 < a) by (destruct s1; cbn [cond_Zopp] in E1; pose proof (Z.pow_pos_nonneg 2 (e1 + 52)); nia).
      pose proof (Z.rem_nonneg a b Hb) as Hn. pose proof (Z.rem_nonpos a b Hb) as Hp. destruct s1; cbn [cond_Zopp]; lia. }
    rewrite Er. apply normalize_exact; [lia|by rewrite !cond_Zopp_mul, Em|].
    unfold exact_range in *. pose proof (Z.mod_pos_bound (Z.abs a) (Z.abs b) ltac:(lia)). pose proof (Z.mod_le (Z.abs a) (Z.abs b) ltac:(lia) ltac:(lia)).
    destruct s1; cbn [cond_Zopp]; lia.
Qed.

(** The integer itself, when cut to one. *)
Lemma is_int_trunc (x : f64) (a : Z) : is_int x a -> match x with S754_zero _ => a = 0 | S754_finite s m e => cond_Zopp s (Z.shiftl (Zpos m) e) = a | _ => False end.
Proof.
  destruct x as [s|s| |s m e]; cbn [is_int]; try done. intros (He & Hm & E).
  assert (Es : Z.shiftl (Zpos m) e * 2 ^ 52 = Zpos m * 2 ^ (e + 52)).
  { destruct (Z.le_gt_cases 0 e) as [Hp|Hn].
    - rewrite Z.shiftl_mul_pow2, <- Z.mul_assoc, <- Z.pow_add_r by lia. done.
    - rewrite <- (Z.opp_involutive e) at 1. rewrite Z.shiftl_opp_r, Z.shiftr_div_pow2 by lia.
      assert (Ek : 2 ^ 52 = 2 ^ (e + 52) * 2 ^ (- e)) by (rewrite <- Z.pow_add_r by lia; f_equal; lia).
      assert (Ed : (2 ^ (- e) | Zpos m)).
      { exists (Z.abs a). apply (Z.mul_reg_r _ _ (2 ^ (e + 52))); [pose proof (Z.pow_pos_nonneg 2 (e + 52)); lia|].
        rewrite <- Z.mul_assoc, (Z.mul_comm (2 ^ (- e))), <- Ek. destruct s; cbn [cond_Zopp] in E; nia. }
      destruct Ed as [k Ek2]. rewrite Ek2, Z.div_mul by (pose proof (Z.pow_pos_nonneg 2 (- e)); lia). rewrite Ek. ring. }
  destruct s; cbn [cond_Zopp] in *; nia.
Qed.
