(* ===== verification/Bitmap.v ===== *)
(** * Validity bitmaps (sqlite-vec.c, [bitmap_*])

    A chunk's validity column, the KNN candidate sets and the per-filter
    masks are [n]-bit maps stored in [n/8] bytes, least significant bit
    first.  The operations are translated on byte lists; [bits] is the
    abstract value, a list of booleans, and every operation is shown to
    implement the corresponding operation on it. *)

From stdpp Require Import base list numbers.
From Stdlib Require Import ZArith Lia.
From S2P Require Import Prelude.

Local Open Scope Z_scope.

Definition CHAR_BIT : nat := 8.

Definition bitmap_new (n : nat) : list Z := replicate (n / CHAR_BIT) 0.

Definition bitmap_new_from (n : nat) (from : list Z) : list Z := take (n / CHAR_BIT) from.

Definition bitmap_copy (base from : list Z) (n : nat) : list Z :=
  take (n / CHAR_BIT) from ++ drop (n / CHAR_BIT) base.

(** The loop of [bitmap_and_inplace] from index [i], [k] iterations left. *)
Fixpoint bitmap_and_loop (base other : list Z) (i k : nat) : list Z :=
  match k with
  | O => base
  | S k => bitmap_and_loop (<[i := Z.land (aget 0 base i) (aget 0 other i)]> base)
             other (S i) k
  end.

Definition bitmap_and_inplace (base other : list Z) (n : nat) : list Z :=
  bitmap_and_loop base other 0 (n / CHAR_BIT).

Definition bitmap_set (bitmap : list Z) (position : nat) (value : bool) : list Z :=
  let byte := aget 0 bitmap (position / CHAR_BIT) in
  let mask := Z.shiftl 1 (Z.of_nat (position mod CHAR_BIT)) in
  if value
  then <[(position / CHAR_BIT)%nat := to_u8 (Z.lor byte mask)]> bitmap
  else <[(position / CHAR_BIT)%nat := to_u8 (Z.land byte (Z.lnot mask))]> bitmap.

Definition bitmap_get (bitmap : list Z) (position : nat) : Z :=
  Z.land (Z.shiftr (aget 0 bitmap (position / CHAR_BIT))
            (Z.of_nat (position mod CHAR_BIT))) 1.

Definition bitmap_clear (bitmap : list Z) (n : nat) : list Z :=
  replicate (n / CHAR_BIT) 0 ++ drop (n / CHAR_BIT) bitmap.

Definition bitmap_fill (bitmap : list Z) (n : nat) : list Z :=
  replicate (n / CHAR_BIT) 255 ++ drop (n / CHAR_BIT) bitmap.

(** C truth value of [bitmap_get]. *)
Definition bitmap_test (bitmap : list Z) (position : nat) : bool :=
  negb (bitmap_get bitmap position =? 0).

(** ** Well-formedness and abstract value *)

Definition is_byte (b : Z) : Prop := 0 <= b < 256.

Definition bitmap_wf (n : nat) (bm : list Z) : Prop :=
  (length bm * 8)%nat = n /\ Forall is_byte bm.

(** The [n] booleans a bitmap stands for. *)
Definition bits (n : nat) (bm : list Z) : list bool :=
  (fun i => bitmap_test bm i) <$> seq 0 n.

(** ** Basic lemmas *)

Lemma bitmap_test_testbit (bm : list Z) (i : nat) :
  bitmap_test bm i = Z.testbit (aget 0 bm (i / 8)) (Z.of_nat (i mod 8)).
Proof.
  unfold bitmap_test, bitmap_get.
  change 1 with (Z.ones 1). rewrite Z.land_ones, Z.shiftr_div_pow2 by lia.
  rewrite Z.testbit_eqb by lia. change (2 ^ 1) with 2.
  unfold CHAR_BIT.
  set (q := aget 0 bm (i / 8) / 2 ^ Z.of_nat (i mod 8)).
  pose proof (Z.mod_pos_bound q 2 ltac:(lia)) as Hb.
  destruct (Z.eqb_spec (q mod 2) 0) as [->|]; [done|].
  simpl. symmetry. apply Z.eqb_eq. lia.
Qed.

Lemma to_u8_testbit (z i : Z) :
  0 <= i -> Z.testbit (to_u8 z) i = Z.testbit z i && (i <? 8).
Proof.
  intros. unfold to_u8, wrap_u. rewrite <- Z.land_ones, Z.land_spec by lia.
  by rewrite Z.testbit_ones_nonneg by lia.
Qed.

Lemma to_u8_byte (z : Z) : is_byte (to_u8 z).
Proof. unfold is_byte, to_u8, wrap_u. apply Z.mod_pos_bound. lia. Qed.

Lemma bitmap_test_set_eq (bm : list Z) (i : nat) (v : bool) :
  (i < length bm * 8)%nat -> bitmap_test (bitmap_set bm i v) i = v.
Proof.
  intros Hi. rewrite bitmap_test_testbit. unfold bitmap_set, CHAR_BIT.
  assert ((i / 8 < length bm)%nat) by (apply Nat.Div0.div_lt_upper_bound; lia).
  pose proof (Nat.mod_upper_bound i 8).
  destruct v; rewrite aget_insert_eq, to_u8_testbit by lia;
    rewrite (proj2 (Z.ltb_lt _ _)), andb_true_r by lia.
  - rewrite Z.lor_spec, Z.shiftl_spec, Z.sub_diag, orb_true_r; [done|lia].
  - rewrite Z.land_spec, Z.lnot_spec, Z.shiftl_spec, Z.sub_diag, andb_false_r; [done|lia..].
Qed.

Lemma bitmap_test_set_ne (bm : list Z) (i j : nat) (v : bool) :
  Forall is_byte bm -> i <> j -> (i < length bm * 8)%nat ->
  bitmap_test (bitmap_set bm i v) j = bitmap_test bm j.
Proof.
  intros Hb Hij Hi. rewrite !bitmap_test_testbit. unfold bitmap_set, CHAR_BIT.
  assert (Hlt : (i / 8 < length bm)%nat) by (apply Nat.Div0.div_lt_upper_bound; lia).
  pose proof (Nat.mod_upper_bound i 8). pose proof (Nat.mod_upper_bound j 8).
  destruct (decide (i / 8 = j / 8)%nat) as [He|Hne].
  - assert (Hm : (i mod 8 <> j mod 8)%nat).
    { pose proof (Nat.div_mod_eq i 8). pose proof (Nat.div_mod_eq j 8). lia. }
    rewrite <- He.
    assert (Hbit : Z.testbit (Z.shiftl 1 (Z.of_nat (i mod 8))) (Z.of_nat (j mod 8)) = false).
    { rewrite Z.shiftl_1_l. apply Z.pow2_bits_false. lia. }
    destruct v; rewrite aget_insert_eq, to_u8_testbit by lia;
      rewrite (proj2 (Z.ltb_lt _ _)), andb_true_r by lia.
    + rewrite Z.lor_spec, Hbit, orb_false_r. done.
    + rewrite Z.land_spec, Z.lnot_spec, Hbit, andb_true_r by lia. done.
  - by destruct v; rewrite aget_insert_ne.
Qed.

Lemma bitmap_set_wf (n : nat) (bm : list Z) (i : nat) (v : bool) :
  bitmap_wf n bm -> bitmap_wf n (bitmap_set bm i v).
Proof.
  intros [Hl Hb]. unfold bitmap_set.
  destruct v; (split; [by rewrite length_insert|]);
    apply Forall_insert; auto using to_u8_byte.
Qed.

Lemma bits_lookup (n : nat) (bm : list Z) (i : nat) :
  (i < n)%nat -> bits n bm !! i = Some (bitmap_test bm i).
Proof.
  intros. unfold bits. rewrite list_lookup_fmap, lookup_seq_lt by lia. done.
Qed.

Lemma length_bits (n : nat) (bm : list Z) : length (bits n bm) = n.
Proof. unfold bits. by rewrite length_fmap, length_seq. Qed.

Lemma bits_ext (n : nat) (bm : list Z) (l : list bool) :
  length l = n -> (forall i, (i < n)%nat -> l !! i = Some (bitmap_test bm i)) -> bits n bm = l.
Proof.
  intros Hl H. apply list_eq_same_length with n; [done|by rewrite length_bits|].
  intros i x y Hi Hx Hy. rewrite bits_lookup in Hx by done.
  rewrite H in Hy by done. congruence.
Qed.

Lemma bitmap_and_loop_lookup (base other : list Z) (k i j : nat) :
  aget 0 (bitmap_and_loop base other i k) j =
  if decide (i <= j < i + k /\ j < length base)%nat
  then Z.land (aget 0 base j) (aget 0 other j) else aget 0 base j.
Proof.
  revert base i. induction k as [|k IH]; intros base i; simpl.
  - case_decide; [lia|done].
  - rewrite IH, length_insert.
    destruct (decide (j = i)) as [->|Hj].
    + rewrite decide_False by lia.
      destruct (decide (i < length base)%nat).
      * rewrite aget_insert_eq, decide_True by lia. done.
      * rewrite list_insert_ge, decide_False by lia. done.
    + rewrite aget_insert_ne by done.
      destruct (decide (S i <= j < S i + k /\ j < length base)%nat);
        [rewrite decide_True by lia|rewrite decide_False by lia]; done.
Qed.

Lemma length_bitmap_and_loop (base other : list Z) (k i : nat) :
  length (bitmap_and_loop base other i k) = length base.
Proof.
  revert base i. induction k as [|k IH]; intros; simpl; [done|].
  by rewrite IH, length_insert.
Qed.

Lemma bitmap_wf_div (n : nat) (bm : list Z) : bitmap_wf n bm -> (n / CHAR_BIT)%nat = length bm.
Proof. intros [<- _]. unfold CHAR_BIT. by rewrite Nat.div_mul. Qed.

Lemma bitmap_test_and (n : nat) (base other : list Z) (i : nat) :
  bitmap_wf n base -> (i < n)%nat ->
  bitmap_test (bitmap_and_inplace base other n) i
  = bitmap_test base i && bitmap_test other i.
Proof.
  intros Hwf Hi. rewrite !bitmap_test_testbit. unfold bitmap_and_inplace.
  rewrite (bitmap_wf_div _ _ Hwf), bitmap_and_loop_lookup.
  destruct Hwf as [Hl _].
  rewrite decide_True by (split; [split; [lia|]|]; apply Nat.Div0.div_lt_upper_bound; lia).
  by rewrite Z.land_spec.
Qed.

Lemma bitmap_test_clear (n : nat) (bm : list Z) (i : nat) :
  (n mod 8 = 0)%nat -> (i < n)%nat -> bitmap_test (bitmap_clear bm n) i = false.
Proof.
  intros Hn Hi. rewrite bitmap_test_testbit. unfold bitmap_clear, CHAR_BIT.
  pose proof (Nat.div_mod_eq n 8).
  assert ((i / 8 < n / 8)%nat) by (apply Nat.Div0.div_lt_upper_bound; lia).
  rewrite aget_app_l, aget_replicate by (rewrite ?length_replicate; lia).
  apply Z.testbit_0_l.
Qed.

Lemma bitmap_test_fill (n : nat) (bm : list Z) (i : nat) :
  (n mod 8 = 0)%nat -> (i < n)%nat -> bitmap_test (bitmap_fill bm n) i = true.
Proof.
  intros Hn Hi. rewrite bitmap_test_testbit. unfold bitmap_fill, CHAR_BIT.
  pose proof (Nat.div_mod_eq n 8). pose proof (Nat.mod_upper_bound i 8).
  assert ((i / 8 < n / 8)%nat) by (apply Nat.Div0.div_lt_upper_bound; lia).
  rewrite aget_app_l, aget_replicate by (rewrite ?length_replicate; lia).
  change 255 with (Z.ones 8). rewrite Z.testbit_ones_nonneg by lia.
  apply Z.ltb_lt. lia.
Qed.

Lemma bitmap_test_copy (n : nat) (base from : list Z) (i : nat) :
  bitmap_wf n from -> (i < n)%nat ->
  bitmap_test (bitmap_copy base from n) i = bitmap_test from i.
Proof.
  intros Hwf Hi. rewrite !bitmap_test_testbit. unfold bitmap_copy.
  rewrite (bitmap_wf_div _ _ Hwf). destruct Hwf as [Hl _].
  assert ((i / 8 < length from)%nat) by (apply Nat.Div0.div_lt_upper_bound; lia).
  rewrite aget_app_l by (rewrite length_take; lia). by rewrite aget_take.
Qed.

Create Rewrite HintDb bitmap.
#[export] Hint Rewrite bitmap_test_set_eq bitmap_test_clear bitmap_test_fill
  using (first [done | lia]) : bitmap.

(** ** Refinement of boolean lists *)

(** on well-formed [n]-bit maps each bitmap operation computes the
    corresponding operation on the list of [n] booleans the map stands for:
    [bitmap_set] updates one boolean and no other, [bitmap_and_inplace] is the
    pointwise conjunction, [bitmap_clear] and [bitmap_fill] are the constant
    lists, [bitmap_copy] is the source; and the results stay well-formed. *)
Lemma bitmap_ops_refine (n : nat) (bm other : list Z) (i : nat) (v : bool) :
  bitmap_wf n bm -> bitmap_wf n other -> (i < n)%nat ->
  bits n (bitmap_set bm i v) = <[i := v]> (bits n bm) /\
  bits n (bitmap_and_inplace bm other n) = zip_with andb (bits n bm) (bits n other) /\
  bits n (bitmap_clear bm n) = replicate n false /\
  bits n (bitmap_fill bm n) = replicate n true /\
  bits n (bitmap_copy bm other n) = bits n other /\
  bitmap_wf n (bitmap_set bm i v) /\ bitmap_wf n (bitmap_copy bm other n).
Proof.
  intros Hwf Hwo Hi.
  assert (Hn8 : (n mod 8 = 0)%nat) by (destruct Hwf as [<- _]; apply Nat.Div0.mod_mul).
  split; [|split; [|split; [|split; [|split; [|split]]]]].
  - apply bits_ext; [by rewrite length_insert, length_bits|]. intros j Hj.
    destruct (decide (i = j)) as [->|Hne].
    + rewrite list_lookup_insert_eq by (by rewrite length_bits).
      rewrite bitmap_test_set_eq; [done|]. destruct Hwf. lia.
    + rewrite list_lookup_insert_ne, bits_lookup by done.
      destruct Hwf. rewrite bitmap_test_set_ne by (auto; lia). done.
  - apply bits_ext; [rewrite length_zip_with, !length_bits; lia|]. intros j Hj.
    rewrite lookup_zip_with, !bits_lookup by done. simpl. by rewrite bitmap_test_and.
  - apply bits_ext; [by rewrite length_replicate|]. intros j Hj.
    rewrite lookup_replicate_2 by done. by rewrite bitmap_test_clear.
  - apply bits_ext; [by rewrite length_replicate|]. intros j Hj.
    rewrite lookup_replicate_2 by done. by rewrite bitmap_test_fill.
  - apply bits_ext; [by rewrite length_bits|]. intros j Hj.
    rewrite bits_lookup by done. by rewrite bitmap_test_copy.
  - by apply bitmap_set_wf.
  - unfold bitmap_copy. rewrite (bitmap_wf_div _ _ Hwo), take_ge by lia.
    rewrite drop_ge, app_nil_r by (destruct Hwf, Hwo; lia). done.
Qed.

Lemma bitmap_ops_refine_witness :
  bits 16 (bitmap_set [5; 128] 9 true) = <[9%nat := true]> (bits 16 [5; 128]).
Proof.
  apply (bitmap_ops_refine 16 [5; 128] [3; 1] 9 true);
    [split; [reflexivity|]; repeat constructor; unfold is_byte; lia..|lia].
Defined.
