(* ===== verification/TopK.v ===== *)
(** * Selecting the k nearest (sqlite-vec.c)

    Three routines of the extension keep the best [k] rows of a scan:
    [min_idx] selects the k nearest candidates of one chunk,
    [merge_sorted_lists] merges a chunk's selection into the running result,
    and [topk_insert] maintains the unordered result buffer of the KD-tree
    search.  [topk_of] is the specification they share: the result is, as a
    multiset, part of the candidates, it has [min k n] elements, and nothing
    left out is nearer than anything kept. *)

From stdpp Require Import base list numbers sets sorting.
From Stdlib Require Import ZArith Lia SpecFloat.
From S2P Require Import Prelude Float32 Bitmap.

(** ** Specification *)

Section Spec.
Context {A : Type} (d : A -> f32).

Definition le_by (x y : A) : Prop := f32_leb (d x) (d y) = true.

Definition topk_of (k : nat) (cands res : list A) : Prop :=
  exists rest,
    cands ≡ₚ res ++ rest /\ length res = min k (length cands) /\
    (forall x y, x ∈ res -> y ∈ rest -> le_by x y).

Definition all_num (l : list A) : Prop := forall x, x ∈ l -> is_nan (d x) = false.

Lemma topk_of_Permutation (k : nat) (c c' res res' : list A) :
  c ≡ₚ c' -> res ≡ₚ res' -> topk_of k c res -> topk_of k c' res'.
Proof.
  intros Hc Hr (rest & Hp & Hl & Hle). exists rest. split; [|split].
  - by rewrite <- Hc, Hp, Hr.
  - by rewrite <- Hr, <- Hc.
  - intros x y Hx. rewrite <- Hr in Hx. auto.
Qed.

#[global] Instance topk_of_Proper (k : nat) :
  Proper ((≡ₚ) ==> (≡ₚ) ==> iff) (topk_of k).
Proof.
  intros c c' Hc r r' Hr. split; apply topk_of_Permutation; done || by symmetry.
Qed.

Lemma topk_of_all (k : nat) (c : list A) : length c <= k -> topk_of k c c.
Proof.
  intros. exists []. rewrite app_nil_r. split; [done|]. split; [lia|].
  intros x y _ Hy. by apply elem_of_nil in Hy.
Qed.

Lemma topk_of_nil (k : nat) : topk_of k [] [].
Proof. apply topk_of_all. simpl. lia. Qed.

Lemma topk_of_elem (k : nat) (c r : list A) (x : A) :
  topk_of k c r -> x ∈ r -> x ∈ c.
Proof. intros (rest & Hp & _) Hx. rewrite Hp. apply elem_of_app. auto. Qed.

(** A candidate that is left out although a kept one is not as near. *)
Lemma topk_of_missed (k : nat) (c r : list A) (x y : A) :
  x ∈ c -> x ∉ r -> y ∈ r -> ~ le_by y x -> ~ topk_of k c r.
Proof.
  intros Hx Hnx Hy Hlt (rest & Hp & _ & Hle). apply Hlt, Hle; [done|].
  rewrite Hp in Hx. apply elem_of_app in Hx as [?|?]; done.
Qed.

Lemma all_num_app (l1 l2 : list A) : all_num (l1 ++ l2) <-> all_num l1 /\ all_num l2.
Proof. unfold all_num. setoid_rewrite elem_of_app. split; [|intros [? ?] x [?|?]]; auto. Qed.

Lemma all_num_cons (x : A) (l : list A) :
  all_num (x :: l) <-> is_nan (d x) = false /\ all_num l.
Proof. unfold all_num. setoid_rewrite elem_of_cons. split; [|intros [? ?] y [->|?]]; auto. Qed.

Lemma all_num_topk (k : nat) (c r : list A) : topk_of k c r -> all_num c -> all_num r.
Proof. intros Ht Hc x Hx. apply Hc. by eapply topk_of_elem. Qed.

Lemma le_by_refl (x : A) : is_nan (d x) = false -> le_by x x.
Proof. apply f32_leb_refl. Qed.

Lemma le_by_trans (x y z : A) : le_by x y -> le_by y z -> le_by x z.
Proof. apply f32_leb_trans. Qed.

(** A new candidate either fits, is not better than the kept ones, or
    replaces a worst one. *)
Lemma topk_of_add_room (k : nat) (c r : list A) (x : A) :
  topk_of k c r -> length r < k -> topk_of k (x :: c) (x :: r).
Proof.
  intros (rest & Hp & Hl & Hle) Hk.
  assert (rest = []) as ->.
  { apply Permutation_length in Hp. rewrite length_app in Hp.
    apply length_zero_iff_nil. lia. }
  apply topk_of_Permutation with (c := x :: r) (res := x :: r); [|done|].
  - rewrite Hp, app_nil_r. done.
  - apply topk_of_all. simpl. lia.
Qed.

Lemma topk_of_add_worse (k : nat) (c r : list A) (x : A) :
  topk_of k c r -> length r = k -> (forall y, y ∈ r -> le_by y x) -> topk_of k (x :: c) r.
Proof.
  intros (rest & Hp & Hl & Hle) Hk Hx. exists (x :: rest). split; [|split].
  - rewrite Hp. apply Permutation_middle.
  - apply Permutation_length in Hp. rewrite length_app in Hp. simpl. lia.
  - intros y z Hy [->|Hz]%elem_of_cons; auto.
Qed.

Lemma topk_of_replace (k : nat) (c r : list A) (x w : A) :
  topk_of k c (w :: r) -> length (w :: r) = k -> all_num c ->
  (forall y, y ∈ r -> le_by y w) -> le_by x w -> topk_of k (x :: c) (x :: r).
Proof.
  intros (rest & Hp & Hl & Hle) Hk Hnum Hw Hx. exists (w :: rest). split; [|split].
  - rewrite Hp. simpl. by rewrite Permutation_middle.
  - apply Permutation_length in Hp. simpl in *. rewrite length_app in Hp. lia.
  - assert (Hww : le_by w w).
    { apply le_by_refl, Hnum. rewrite Hp. set_solver. }
    intros y z Hy Hz. apply elem_of_cons in Hz as [->|Hz].
    + apply elem_of_cons in Hy as [->|Hy]; auto.
    + apply le_by_trans with w; [|apply Hle; set_solver].
      apply elem_of_cons in Hy as [->|Hy]; auto.
Qed.

Lemma topk_of_add_worse_list (k : nat) (l c r : list A) :
  topk_of k c r -> length r = k -> (forall y x, y ∈ r -> x ∈ l -> le_by y x) ->
  topk_of k (l ++ c) r.
Proof.
  intros Ht Hk Hx. induction l as [|x l IH]; [done|]. simpl.
  apply topk_of_add_worse; [apply IH|done|]; set_solver.
Qed.

(** A sorted list's prefix is a selection of its best elements. *)
Lemma topk_of_take_sorted (k : nat) (l : list A) :
  StronglySorted le_by l -> topk_of k l (take k l).
Proof.
  intros Hs. exists (drop k l). split; [by rewrite take_drop|].
  split; [by rewrite length_take|].
  intros x y Hx Hy. revert k Hx Hy. induction Hs as [|z l Hs IH Hz]; intros k Hx Hy.
  - by rewrite take_nil in Hx; apply elem_of_nil in Hx.
  - destruct k as [|k]; simpl in *; [by apply elem_of_nil in Hx|].
    apply elem_of_cons in Hx as [->|Hx]; [|eauto].
    rewrite Forall_forall in Hz. apply Hz. eapply elem_of_submseteq; [exact Hy|].
    apply sublist_submseteq, sublist_drop.
Qed.

(** A kept element is as good as one dropped earlier. *)
Lemma topk_of_app_best (k : nat) (a1 a2 s1 r rr : list A) (x y : A) :
  length a1 = min k (length a1 + length s1) -> length r <= k -> a1 ++ a2 ≡ₚ r ++ rr ->
  (forall x y, x ∈ a1 -> y ∈ s1 -> le_by x y) -> (forall x y, x ∈ r -> y ∈ rr -> le_by x y) ->
  x ∈ r -> y ∈ s1 -> le_by x y.
Proof.
  intros L1 Lr P H1 Hr Hx Hy.
  destruct (Permutation_cross_split _ _ _ _ P) as (u1 & u2 & v1 & v2 & Q1 & Q2 & Q3 & Q4).
  pose proof Hx as Hx'. rewrite <- Q3 in Hx'. apply elem_of_app in Hx' as [Hu|Hv].
  - apply H1; [|done]. rewrite <- Q1. apply elem_of_app. by left.
  - pose proof (Permutation_length Q1) as N1. pose proof (Permutation_length Q3) as N3.
    rewrite length_app in N1, N3. destruct s1 as [|y' s1]; [by apply elem_of_nil in Hy|]. destruct v1 as [|x' v1]; [by apply elem_of_nil in Hv|].
    cbn [length] in *. destruct u2 as [|z u2]; [cbn in *; lia|].
    apply (le_by_trans x z y).
    + apply Hr; [done|]. rewrite <- Q4. set_solver.
    + apply H1; [|done]. rewrite <- Q1. set_solver.
Qed.

(** The best of two lists are the best of the best of each. *)
Lemma topk_of_app (k : nat) (A1 A2 a1 a2 r : list A) :
  topk_of k A1 a1 -> topk_of k A2 a2 -> topk_of k (a1 ++ a2) r -> topk_of k (A1 ++ A2) r.
Proof.
  intros (s1 & P1 & L1 & H1) (s2 & P2 & L2 & H2) (rr & P & L & Hr).
  pose proof (Permutation_length P1) as N1. pose proof (Permutation_length P2) as N2.
  rewrite length_app in L, N1, N2. exists (rr ++ s1 ++ s2). split; [|split].
  - rewrite P1, P2. transitivity ((a1 ++ a2) ++ s1 ++ s2); [solve_Permutation|]. rewrite P. solve_Permutation.
  - rewrite L, length_app. lia.
  - intros x y Hx [Hy|[Hy|Hy]%elem_of_app]%elem_of_app; [by apply Hr| |].
    + by apply (topk_of_app_best k a1 a2 s1 r rr); [lia|lia|..].
    + by apply (topk_of_app_best k a2 a1 s2 r rr); [lia|lia|rewrite Permutation_app_comm|..].
Qed.

(** A bound larger than the number of candidates does not matter. *)
Lemma topk_of_bound (k n : nat) (c r : list A) : length c <= n -> topk_of (min k n) c r -> topk_of k c r.
Proof. intros Hn (rest & P & L & H). exists rest. split; [done|]. split; [lia|done]. Qed.

End Spec.

(** Selections of images. *)
Lemma topk_of_fmap {A B : Type} (d : A -> f32) (e : B -> f32) (g : A -> B) (k : nat) (c r : list A) :
  (forall x, x ∈ c -> e (g x) = d x) -> topk_of d k c r -> topk_of e k (g <$> c) (g <$> r).
Proof.
  intros He (rest & P & L & H). exists (g <$> rest). rewrite !length_fmap. split; [by rewrite P, fmap_app|].
  split; [done|]. intros ? ? (x & -> & Hx)%list_elem_of_fmap (y & -> & Hy)%list_elem_of_fmap.
  unfold le_by. rewrite !He by (rewrite P; set_solver). by apply H.
Qed.

#[export] Hint Resolve le_by_refl topk_of_nil : f32.

(** ** [merge_sorted_lists] *)

Section Merge.

(** The output loop from iteration [i] with [n] iterations left.  The output
    arrays are written at increasing positions, so they are returned as the
    list written; [b] is read through [b_top_idxs]. *)
Fixpoint merge_sorted_lists_loop (a : list f32) (a_rowids : list Z) (a_length : nat)
    (b : list f32) (b_rowids : list Z) (b_top_idxs : list nat) (b_length : nat)
    (n ptrA ptrB : nat) : list (f32 * Z) :=
  match n with
  | O => []
  | S n =>
      let fromA := (aget f32_zero a ptrA, aget 0%Z a_rowids ptrA) in
      let ib := aget 0 b_top_idxs ptrB in
      let fromB := (aget f32_zero b ib, aget 0%Z b_rowids ib) in
      let takeA := fromA :: merge_sorted_lists_loop a a_rowids a_length b b_rowids
                              b_top_idxs b_length n (S ptrA) ptrB in
      let takeB := fromB :: merge_sorted_lists_loop a a_rowids a_length b b_rowids
                              b_top_idxs b_length n ptrA (S ptrB) in
      if (a_length <=? ptrA) && (b_length <=? ptrB) then []
      else if a_length <=? ptrA then takeB
      else if b_length <=? ptrB then takeA
      else if f32_leb (aget f32_zero a ptrA) (aget f32_zero b ib) then takeA
      else takeB
  end.

(** Output distances, output rowids and [*out_used]. *)
Definition merge_sorted_lists (a : list f32) (a_rowids : list Z) (a_length : nat)
    (b : list f32) (b_rowids : list Z) (b_top_idxs : list nat) (b_length : nat)
    (out_length : nat) : list f32 * list Z * nat :=
  let out := merge_sorted_lists_loop a a_rowids a_length b b_rowids b_top_idxs
               b_length out_length 0 0 in
  (out.*1, out.*2, length out).

(** The rows the two inputs denote. *)
Definition rows_a (a : list f32) (a_rowids : list Z) (n : nat) : list (f32 * Z) :=
  (fun i => (aget f32_zero a i, aget 0%Z a_rowids i)) <$> seq 0 n.

Definition rows_b (b : list f32) (b_rowids : list Z) (idxs : list nat) (n : nat)
    : list (f32 * Z) :=
  (fun i => (aget f32_zero b (aget 0 idxs i), aget 0%Z b_rowids (aget 0 idxs i)))
    <$> seq 0 n.

(** Reference: the merge of two lists, preferring the first on ties. *)
Fixpoint merge_rows (l1 : list (f32 * Z)) : list (f32 * Z) -> list (f32 * Z) :=
  fix go (l2 : list (f32 * Z)) :=
    match l1, l2 with
    | [], _ => l2
    | _, [] => l1
    | x :: l1', y :: l2' =>
        if f32_leb x.1 y.1 then x :: merge_rows l1' l2 else y :: go l2'
    end.

Lemma merge_rows_cons (x y : f32 * Z) (l1 l2 : list (f32 * Z)) :
  merge_rows (x :: l1) (y :: l2) =
  if f32_leb x.1 y.1 then x :: merge_rows l1 (y :: l2) else y :: merge_rows (x :: l1) l2.
Proof. reflexivity. Qed.

Lemma drop_fmap_seq {B : Type} (f : nat -> B) (n p : nat) :
  drop p (f <$> seq 0 n) =
  if n <=? p then [] else f p :: drop (S p) (f <$> seq 0 n).
Proof.
  destruct (Nat.leb_spec n p).
  - apply drop_ge. by rewrite length_fmap, length_seq.
  - apply drop_S. rewrite list_lookup_fmap, lookup_seq_lt by lia. done.
Qed.

Lemma merge_loop_reference a ar al b br bi bl n pa pb :
  merge_sorted_lists_loop a ar al b br bi bl n pa pb
  = take n (merge_rows (drop pa (rows_a a ar al)) (drop pb (rows_b b br bi bl))).
Proof.
  revert pa pb. induction n as [|n IH]; intros pa pb; [done|].
  unfold rows_a, rows_b.
  rewrite (drop_fmap_seq _ al pa), (drop_fmap_seq _ bl pb).
  fold (rows_a a ar al) (rows_b b br bi bl).
  cbn [merge_sorted_lists_loop].
  destruct (Nat.leb_spec al pa) as [Ha|Ha], (Nat.leb_spec bl pb) as [Hb|Hb];
    cbn [andb]; [done|..].
  - rewrite IH, (drop_ge _ pa) by (unfold rows_a; rewrite length_fmap, length_seq; lia).
    destruct (drop (S pb) (rows_b b br bi bl)); done.
  - rewrite IH, (drop_ge _ pb) by (unfold rows_b; rewrite length_fmap, length_seq; lia).
    destruct (drop (S pa) (rows_a a ar al)); done.
  - rewrite !IH. unfold rows_a, rows_b.
    rewrite (drop_fmap_seq _ al pa), (drop_fmap_seq _ bl pb).
    rewrite (proj2 (Nat.leb_gt al pa)), (proj2 (Nat.leb_gt bl pb)) by lia.
    rewrite merge_rows_cons. cbn [fst]. destruct (f32_leb _ _); done.
Qed.

Lemma merge_rows_Permutation (l1 l2 : list (f32 * Z)) : merge_rows l1 l2 ≡ₚ l1 ++ l2.
Proof.
  revert l2. induction l1 as [|x l1 IH1]; intros l2; [by destruct l2|].
  induction l2 as [|y l2 IH2]; [by rewrite app_nil_r|].
  rewrite merge_rows_cons. destruct (f32_leb x.1 y.1).
  - simpl. by rewrite IH1.
  - rewrite IH2. by rewrite <- Permutation_middle.
Qed.

Lemma merge_rows_sorted (l1 l2 : list (f32 * Z)) :
  all_num fst l1 -> all_num fst l2 ->
  StronglySorted (le_by fst) l1 -> StronglySorted (le_by fst) l2 ->
  StronglySorted (le_by fst) (merge_rows l1 l2).
Proof.
  intros Hn1 Hn2 Hs1. revert l2 Hn2. induction Hs1 as [|x l1 Hs1 IH1 Hx]; intros l2 Hn2 Hs2.
  { by destruct l2. }
  apply all_num_cons in Hn1 as [Hnx Hn1].
  induction Hs2 as [|y l2 Hs2 IH2 Hy]; [by constructor|].
  pose proof Hn2 as Hn2'. apply all_num_cons in Hn2' as [Hny Hn2'].
  rewrite merge_rows_cons. destruct (f32_leb x.1 y.1) eqn:E.
  - constructor; [apply IH1; auto; by constructor|].
    apply Forall_forall. intros z Hz. rewrite merge_rows_Permutation in Hz.
    rewrite Forall_forall in Hx, Hy.
    apply elem_of_app in Hz as [Hz|[->|Hz]%elem_of_cons]; [auto|done|].
    eapply le_by_trans; [exact E|auto].
  - constructor; [auto|].
    assert (Hyx : le_by fst y x) by (unfold le_by; auto using f32_nle_lt with f32).
    apply Forall_forall. intros z Hz. rewrite merge_rows_Permutation in Hz.
    rewrite Forall_forall in Hx, Hy.
    apply elem_of_app in Hz as [[->|Hz]%elem_of_cons|Hz]; [done| |auto].
    eapply le_by_trans; [exact Hyx|auto].
Qed.

End Merge.

(** ** [topk_insert] *)

Section TopkInsert.

(** The caller's output arrays [rowids] and [dists] with [*k_used]. *)
Record topk_buf := TopkBuf {
  tk_rowids : list Z;
  tk_dists : list f32;
  tk_used : nat
}.

(** The scan for the largest kept distance: [(maxIdx, maxDist)] after looking
    at positions [i .. i+n-1]. *)
Fixpoint topk_max_scan (dists : list f32) (i n : nat) (maxIdx : nat) (maxDist : f32)
    : nat * f32 :=
  match n with
  | O => (maxIdx, maxDist)
  | S n =>
      if f32_ltb maxDist (aget f32_zero dists i)
      then topk_max_scan dists (S i) n i (aget f32_zero dists i)
      else topk_max_scan dists (S i) n maxIdx maxDist
  end.

Definition topk_insert (buf : topk_buf) (k : nat) (rowid : Z) (dist2 : f32) : topk_buf :=
  if tk_used buf <? k then
    TopkBuf (<[tk_used buf := rowid]> (tk_rowids buf))
            (<[tk_used buf := dist2]> (tk_dists buf))
            (S (tk_used buf))
  else
    let '(maxIdx, maxDist) :=
      topk_max_scan (tk_dists buf) 1 (k - 1) 0 (aget f32_zero (tk_dists buf) 0) in
    if f32_ltb dist2 maxDist then
      TopkBuf (<[maxIdx := rowid]> (tk_rowids buf))
              (<[maxIdx := dist2]> (tk_dists buf))
              (tk_used buf)
    else buf.

Definition buf_rows (buf : topk_buf) : list (f32 * Z) :=
  rows_a (tk_dists buf) (tk_rowids buf) (tk_used buf).

Definition buf_wf (k : nat) (buf : topk_buf) : Prop :=
  k <= length (tk_rowids buf) /\ k <= length (tk_dists buf) /\ tk_used buf <= k.

Lemma topk_max_scan_spec (dists : list f32) (n i mi : nat) (md : f32) :
  mi < i -> md = aget f32_zero dists mi ->
  (forall j, j < i + n -> is_nan (aget f32_zero dists j) = false) ->
  (forall j, j < i -> f32_leb (aget f32_zero dists j) md = true) ->
  let r := topk_max_scan dists i n mi md in
  r.1 < i + n /\ r.2 = aget f32_zero dists r.1 /\
  (forall j, j < i + n -> f32_leb (aget f32_zero dists j) r.2 = true).
Proof.
  revert i mi md. induction n as [|n IH]; intros i mi md Hi Hmd Hnum Hle; simpl.
  { rewrite Nat.add_0_r. auto. }
  assert (Hm : is_nan md = false) by (rewrite Hmd; apply Hnum; lia).
  assert (Hii : is_nan (aget f32_zero dists i) = false) by (apply Hnum; lia).
  rewrite Nat.add_succ_r, <- Nat.add_succ_l.
  destruct (f32_ltb md (aget f32_zero dists i)) eqn:E; apply IH; auto; try lia;
    try (intros; apply Hnum; lia).
  - intros j Hj. destruct (decide (j = i)) as [->|]; [by apply f32_leb_refl|].
    eapply f32_leb_trans; [apply Hle; lia|]. by apply f32_ltb_leb.
  - intros j Hj. destruct (decide (j = i)) as [->|]; [auto with f32|]. apply Hle; lia.
Qed.

Lemma rows_a_insert (d : list f32) (r : list Z) (n m : nat) (x : f32) (y : Z) :
  m < n -> n <= length d -> n <= length r ->
  rows_a (<[m:=x]> d) (<[m:=y]> r) n = <[m := (x, y)]> (rows_a d r n).
Proof.
  intros. unfold rows_a. apply list_eq_same_length with n.
  1-2: by autorewrite with arr.
  intros i u v Hi. rewrite lookup_fmap_seq0 by done.
  destruct (decide (i = m)) as [->|Hne].
  - rewrite list_lookup_insert_eq by (autorewrite with arr; lia).
    rewrite !aget_insert_eq by lia. congruence.
  - rewrite list_lookup_insert_ne, lookup_fmap_seq0 by done.
    rewrite !aget_insert_ne by done. congruence.
Qed.

Lemma rows_a_push (d : list f32) (r : list Z) (n : nat) (x : f32) (y : Z) :
  n < length d -> n < length r ->
  rows_a (<[n:=x]> d) (<[n:=y]> r) (S n) = rows_a d r n ++ [(x, y)].
Proof.
  intros. unfold rows_a. rewrite seq_S, fmap_app. cbn [fmap list_fmap].
  rewrite !aget_insert_eq by lia. f_equal.
  apply fmap_seq0_ext. intros i Hi. rewrite !aget_insert_ne by lia. done.
Qed.

Lemma topk_insert_wf (k : nat) (buf : topk_buf) (r : Z) (x : f32) :
  buf_wf k buf -> buf_wf k (topk_insert buf k r x).
Proof.
  intros (H1 & H2 & H3). unfold topk_insert.
  destruct (Nat.ltb_spec (tk_used buf) k).
  - repeat split; simpl; rewrite ?length_insert; lia.
  - destruct (topk_max_scan _ _ _ _ _) as [mi md].
    destruct (f32_ltb x md); repeat split; simpl; rewrite ?length_insert; lia.
Qed.

(** The scanned maximum of a full buffer. *)
Definition buf_max (buf : topk_buf) (k : nat) : nat * f32 :=
  topk_max_scan (tk_dists buf) 1 (k - 1) 0 (aget f32_zero (tk_dists buf) 0).

Lemma length_buf_rows (buf : topk_buf) : length (buf_rows buf) = tk_used buf.
Proof. unfold buf_rows, rows_a. apply length_fmap_seq0. Qed.

Lemma buf_rows_lookup (buf : topk_buf) (i : nat) :
  i < tk_used buf ->
  buf_rows buf !! i = Some (aget f32_zero (tk_dists buf) i, aget 0%Z (tk_rowids buf) i).
Proof. intros. unfold buf_rows, rows_a. by rewrite lookup_fmap_seq0. Qed.

Lemma buf_max_spec (k : nat) (buf : topk_buf) :
  0 < k -> tk_used buf = k -> all_num fst (buf_rows buf) ->
  let '(mi, md) := buf_max buf k in
  buf_rows buf !! mi = Some (md, aget 0%Z (tk_rowids buf) mi) /\
  is_nan md = false /\
  (forall y, y ∈ buf_rows buf -> f32_leb y.1 md = true).
Proof.
  intros Hk Hu Hnum. unfold buf_max.
  assert (Hd : forall j, j < k -> is_nan (aget f32_zero (tk_dists buf) j) = false).
  { intros j Hj. eapply (Hnum (_, _)), list_elem_of_lookup_2, buf_rows_lookup. lia. }
  pose proof (topk_max_scan_spec (tk_dists buf) (k - 1) 1 0
    (aget f32_zero (tk_dists buf) 0)) as Hscan.
  destruct (topk_max_scan _ _ _ _ _) as [mi md]. simpl in Hscan.
  destruct Hscan as (Hmi & Hmd & Hmax).
  { lia. } { done. } { intros; apply Hd; lia. }
  { intros j Hj. replace j with 0 by lia. apply f32_leb_refl, Hd. lia. }
  split; [rewrite buf_rows_lookup by lia; by rewrite Hmd|].
  split; [rewrite Hmd; apply Hd; lia|].
  intros y (j & Hj & ->)%elem_of_fmap_seq0. apply Hmax. lia.
Qed.

(** One insertion preserves the selection: the buffer holds the k best of
    what it was offered. *)
Lemma topk_insert_topk (k : nat) (buf : topk_buf) (cands : list (f32 * Z)) (r : Z) (x : f32) :
  0 < k -> buf_wf k buf -> all_num fst ((x, r) :: cands) ->
  topk_of fst k cands (buf_rows buf) ->
  topk_of fst k ((x, r) :: cands) (buf_rows (topk_insert buf k r x)).
Proof.
  intros Hk (H1 & H2 & H3) [Hx Hnum]%all_num_cons Htop.
  pose proof (all_num_topk _ _ _ _ Htop Hnum) as Hrows.
  unfold topk_insert. destruct (Nat.ltb_spec (tk_used buf) k) as [Hlt|Hge].
  { unfold buf_rows at 1. cbn [tk_dists tk_rowids tk_used].
    rewrite rows_a_push, <- Permutation_cons_append by lia.
    fold (buf_rows buf). apply topk_of_add_room; [done|]. by rewrite length_buf_rows. }
  assert (Hu : tk_used buf = k) by lia.
  pose proof (buf_max_spec k buf Hk Hu Hrows) as Hmax. fold (buf_max buf k).
  destruct (buf_max buf k) as [mi md]. destruct Hmax as (Hw & Hmdn & Hall).
  destruct (f32_ltb x md) eqn:E.
  - assert (mi < tk_used buf) by (rewrite <- length_buf_rows; by eapply lookup_lt_Some).
    unfold buf_rows at 1. cbn [tk_dists tk_rowids tk_used].
    rewrite rows_a_insert by lia. fold (buf_rows buf).
    destruct (insert_Permutation _ _ _ (x, r) Hw) as (rest & Hp1 & Hp2).
    rewrite Hp2. rewrite Hp1 in Htop.
    eapply topk_of_replace; [exact Htop| |done| |by apply f32_ltb_leb].
    + by rewrite <- (Permutation_length Hp1), length_buf_rows.
    + intros y Hy. apply Hall. rewrite Hp1. set_solver.
  - apply topk_of_add_worse; [done|by rewrite length_buf_rows|].
    intros y Hy. eapply f32_leb_trans; [by apply Hall|]. by apply f32_nlt_leb.
Qed.

(** Whatever the distances, the buffer only holds rows it was offered. *)
Lemma topk_insert_sound (k : nat) (buf : topk_buf) (r : Z) (x : f32) (y : f32 * Z) :
  buf_wf k buf -> y ∈ buf_rows (topk_insert buf k r x) -> y = (x, r) \/ y ∈ buf_rows buf.
Proof.
  intros (H1 & H2 & H3). unfold topk_insert. destruct (Nat.ltb_spec (tk_used buf) k).
  - unfold buf_rows at 1. cbn [tk_dists tk_rowids tk_used]. rewrite rows_a_push by lia.
    rewrite elem_of_app, list_elem_of_singleton. tauto.
  - destruct (topk_max_scan _ _ _ _ _) as [mi md]. destruct (f32_ltb x md); [|tauto].
    unfold buf_rows at 1. cbn [tk_dists tk_rowids tk_used].
    destruct (decide (mi < tk_used buf)).
    + rewrite rows_a_insert by lia. intros [j Hj]%list_elem_of_lookup.
      destruct (decide (j = mi)) as [->|].
      * rewrite list_lookup_insert_eq in Hj by (unfold rows_a; autorewrite with arr; lia).
        left. congruence.
      * rewrite list_lookup_insert_ne in Hj by done. right. by eapply list_elem_of_lookup_2.
    + intros Hy. right. revert Hy. unfold buf_rows, rows_a.
      rewrite !elem_of_fmap_seq0. intros (j & Hj & ->). exists j. split; [done|].
      by rewrite !aget_insert_ne by lia.
Qed.

End TopkInsert.

(** ** [min_idx] *)

Section MinIdx.

(** [while (min_idx < n && (taken || !candidate)) min_idx++], [fuel] steps at
    most (the loop advances at each step, so [n] steps suffice). *)
Fixpoint first_free (n : nat) (candidates bTaken : list Z) (min_idx fuel : nat) : nat :=
  match fuel with
  | O => min_idx
  | S fuel =>
      if (min_idx <? n) && (bitmap_test bTaken min_idx || negb (bitmap_test candidates min_idx))
      then first_free n candidates bTaken (S min_idx) fuel
      else min_idx
  end.

(** The scan for the least distance, from position [i], [n] positions left. *)
Fixpoint min_scan (distances : list f32) (candidates bTaken : list Z) (i n min_idx : nat) : nat :=
  match n with
  | O => min_idx
  | S n =>
      if f32_leb (aget f32_zero distances i) (aget f32_zero distances min_idx)
         && negb (bitmap_test bTaken i) && bitmap_test candidates i
      then min_scan distances candidates bTaken (S i) n i
      else min_scan distances candidates bTaken (S i) n min_idx
  end.

(** Iterations [ik .. k-1]; the result is [out[ik..]], as far as written. *)
Fixpoint min_idx_loop (distances : list f32) (n : nat) (candidates bTaken : list Z)
    (k : nat) : list nat :=
  match k with
  | O => []
  | S k =>
      let m0 := first_free n candidates bTaken 0 n in
      if n <=? m0 then []
      else
        let m := min_scan distances candidates bTaken 0 n m0 in
        m :: min_idx_loop distances n candidates (bitmap_set bTaken m true) k
  end.

(** [out] (the part written) and [*k_used]. *)
Definition min_idx (distances : list f32) (n : nat) (candidates : list Z) (k : nat)
    (bTaken : list Z) : list nat * nat :=
  let out := min_idx_loop distances n candidates (bitmap_clear bTaken n) k in
  (out, length out).

(** Positions still available. *)
Definition free_idx (n : nat) (candidates bTaken : list Z) (i : nat) : Prop :=
  i < n /\ bitmap_test bTaken i = false /\ bitmap_test candidates i = true.

Lemma first_free_spec (n : nat) (c t : list Z) (fuel i : nat) :
  n <= i + fuel ->
  let m := first_free n c t i fuel in
  i <= m /\ (m < n -> free_idx n c t m) /\ (forall j, i <= j < m -> ~ free_idx n c t j).
Proof.
  revert i. induction fuel as [|fuel IH]; intros i Hf; simpl.
  { split; [lia|split]; [lia|lia]. }
  destruct (Nat.ltb_spec i n) as [Hi|Hi]; simpl.
  2: { split; [lia|split]; [lia|]. intros j Hj. lia. }
  destruct (bitmap_test t i) eqn:Et; simpl;
    [|destruct (bitmap_test c i) eqn:Ec; simpl].
  2: { split; [done|]. split; [done|]. lia. }
  all: destruct (IH (S i)) as (H1 & H2 & H3); [lia|]; split; [lia|]; split; [done|].
  all: intros j Hj; destruct (decide (j = i)) as [->|]; [|apply H3; lia].
  all: unfold free_idx; intros (_ & ? & ?); congruence.
Qed.

Lemma min_scan_spec (d : list f32) (c t : list Z) (N n i m : nat) :
  i + n = N -> free_idx N c t m ->
  (forall j, free_idx N c t j -> is_nan (aget f32_zero d j) = false) ->
  (forall j, j < i -> free_idx N c t j ->
     f32_leb (aget f32_zero d m) (aget f32_zero d j) = true) ->
  let r := min_scan d c t i n m in
  free_idx N c t r /\
  (forall j, free_idx N c t j -> f32_leb (aget f32_zero d r) (aget f32_zero d j) = true).
Proof.
  revert i m. induction n as [|n IH]; intros i m HN Hm Hnum Hle; simpl.
  { split; [done|]. intros j Hj. apply Hle; [destruct Hj; lia|done]. }
  destruct (f32_leb (aget f32_zero d i) (aget f32_zero d m)) eqn:E;
    simpl; [destruct (bitmap_test t i) eqn:Et; simpl; [|destruct (bitmap_test c i) eqn:Ec]|].
  2: { assert (Hi : free_idx N c t i) by (repeat split; auto; lia).
       apply IH; auto; [lia|]. intros j Hj Hfj.
       destruct (decide (j = i)) as [->|]; [apply f32_leb_refl; auto|].
       eapply f32_leb_trans; [exact E|apply Hle; [lia|done]]. }
  all: apply IH; auto; [lia|]; intros j Hj Hfj.
  all: destruct (decide (j = i)) as [->|]; [|apply Hle; [lia|done]].
  1-2: destruct Hfj as (_ & ? & ?); congruence.
  apply f32_ltb_leb, f32_nle_lt; auto.
Qed.

Lemma free_idx_set (n : nat) (c t : list Z) (m j : nat) :
  bitmap_wf n t -> m < n ->
  free_idx n c (bitmap_set t m true) j <-> free_idx n c t j /\ j <> m.
Proof.
  intros [Hl Hb] Hm. unfold free_idx. destruct (decide (j = m)) as [->|Hne].
  - rewrite bitmap_test_set_eq by lia. naive_solver.
  - rewrite bitmap_test_set_ne by (auto; lia). naive_solver.
Qed.

(** The selected positions, in order: sorted, distinct, free, and no nearer
    free position is left out; fewer than [k] only when none is left. *)
Lemma min_idx_loop_spec (d : list f32) (n : nat) (c : list Z) (k : nat) (t : list Z) :
  bitmap_wf n t ->
  (forall j, free_idx n c t j -> is_nan (aget f32_zero d j) = false) ->
  let out := min_idx_loop d n c t k in
  NoDup out /\ StronglySorted (le_by (aget f32_zero d)) out /\ length out <= k /\
  (forall x, x ∈ out -> free_idx n c t x) /\
  (forall x y, x ∈ out -> free_idx n c t y -> y ∉ out ->
     le_by (aget f32_zero d) x y) /\
  (length out < k -> forall y, free_idx n c t y -> y ∈ out).
Proof.
  revert t. induction k as [|k IH]; intros t Hwf Hnum; cbn [min_idx_loop].
  { split; [constructor|]. split; [constructor|]. split; [done|]. set_solver by lia. }
  destruct (first_free_spec n c t n 0 ltac:(lia)) as (_ & Hfree & Hnone).
  set (m0 := first_free n c t 0 n) in *.
  destruct (Nat.leb_spec n m0) as [Hge|Hlt].
  { split; [constructor|]. split; [constructor|]. split; [simpl; lia|].
    split; [set_solver|]. split; [set_solver|].
    intros _ y Hy. exfalso. apply (Hnone y); [|done]. destruct Hy. lia. }
  destruct (min_scan_spec d c t n n 0 m0) as (Hm & Hmin); auto; [lia|].
  set (m := min_scan d c t 0 n m0) in *.
  assert (Hmn : m < n) by apply Hm.
  assert (Hset := free_idx_set n c t m).
  destruct (IH (bitmap_set t m true)) as (Hnd & Hss & Hlen & Hin & Hbest & Hfull).
  { by apply bitmap_set_wf. }
  { intros j Hj. apply Hnum. apply Hset in Hj; tauto. }
  set (out := min_idx_loop d n c (bitmap_set t m true) k) in *.
  assert (Hmout : forall x, x ∈ out -> free_idx n c t x /\ x <> m).
  { intros x Hx. apply Hset; auto. }
  split; [constructor; [|done]; intros Hx; by apply Hmout in Hx as [_ ?]|].
  split; [constructor; [done|]; apply Forall_forall; intros x Hx; by apply Hmin, Hmout|].
  split; [simpl; lia|].
  split; [intros x [->|Hx]%elem_of_cons; [done|by apply Hmout]|].
  split.
  - intros x y [->|Hx]%elem_of_cons Hy Hny; [by apply Hmin|].
    apply Hbest; [done| |set_solver]. apply Hset; auto. split; [done|set_solver].
  - intros Hlt' y Hy. apply elem_of_cons.
    destruct (decide (y = m)) as [->|]; [by left|right].
    apply Hfull; [simpl in *; lia|]. by apply Hset.
Qed.

(** Candidate positions of a chunk. *)
Definition candidate_idxs (n : nat) (candidates : list Z) : list nat :=
  filter (fun i => bitmap_test candidates i = true) (seq 0 n).

Lemma bitmap_clear_wf (n : nat) (t : list Z) : bitmap_wf n t -> bitmap_wf n (bitmap_clear t n).
Proof.
  intros Hwf. unfold bitmap_clear. rewrite (bitmap_wf_div _ _ Hwf), drop_all, app_nil_r.
  destruct Hwf as [Hl Hb]. split; [by rewrite length_replicate|].
  apply Forall_replicate. unfold is_byte. lia.
Qed.

Lemma min_idx_topk_of (d : list f32) (n : nat) (c : list Z) (k : nat) (t : list Z) :
  bitmap_wf n t ->
  (forall j, j ∈ candidate_idxs n c -> is_nan (aget f32_zero d j) = false) ->
  let '(out, used) := min_idx d n c k t in
  topk_of (aget f32_zero d) k (candidate_idxs n c) out
  /\ StronglySorted (le_by (aget f32_zero d)) out /\ used = length out.
Proof.
  intros Hwf Hnum. unfold min_idx.
  assert (Hn8 : n mod 8 = 0) by (destruct Hwf as [<- _]; apply Nat.Div0.mod_mul).
  assert (Hfree : forall j, free_idx n c (bitmap_clear t n) j <-> j ∈ candidate_idxs n c).
  { intros j. unfold candidate_idxs, free_idx. rewrite list_elem_of_filter, elem_of_seq.
    split; [intros (? & _ & ?); split; [done|lia]|].
    intros [? ?]. rewrite bitmap_test_clear by lia. repeat split; auto; lia. }
  destruct (min_idx_loop_spec d n c k (bitmap_clear t n)) as (Hnd & Hss & Hlen & Hin & Hbest & Hfull).
  { by apply bitmap_clear_wf. } { intros j Hj. by apply Hnum, Hfree. }
  set (out := min_idx_loop d n c (bitmap_clear t n) k) in *.
  split; [|done].
  exists (filter (fun i => i ∉ out) (candidate_idxs n c)).
  assert (Hndc : NoDup (candidate_idxs n c)) by apply NoDup_filter, NoDup_seq.
  assert (Hp : candidate_idxs n c ≡ₚ out ++ filter (fun i => i ∉ out) (candidate_idxs n c)).
  { apply NoDup_Permutation; [done| |].
    - apply NoDup_app. split; [done|]. split; [|by apply NoDup_filter].
      intros x Hx. rewrite list_elem_of_filter. tauto.
    - intros x. rewrite elem_of_app, list_elem_of_filter.
      destruct (decide (x ∈ out)) as [Hx|Hx]; [|tauto].
      split; [by left|]. intros _. by apply Hfree, Hin. }
  split; [done|]. split.
  - pose proof (Permutation_length Hp) as Hl. rewrite length_app in Hl.
    destruct (decide (length out < k)) as [Hlt|]; [|lia].
    assert (Hnil : filter (fun i => i ∉ out) (candidate_idxs n c) = []).
    { apply elem_of_nil_inv. intros x. rewrite list_elem_of_filter.
      intros [Hx Hc]. by apply Hx, Hfull, Hfree. }
    rewrite Hnil in Hl. simpl in Hl. lia.
  - intros x y Hx. rewrite list_elem_of_filter. intros [Hy Hc].
    apply Hbest; auto. by apply Hfree.
Qed.

End MinIdx.

(** ** Correctness *)

(** merging a chunk's sorted selection into the sorted running result
    writes the [out_length] nearest rows of both, in order of distance, and
    reports how many were written. *)
Lemma merge_sorted_lists_correct (a : list f32) (a_rowids : list Z) (a_length : nat)
    (b : list f32) (b_rowids : list Z) (b_top_idxs : list nat) (b_length out_length : nat) :
  let ra := rows_a a a_rowids a_length in
  let rb := rows_b b b_rowids b_top_idxs b_length in
  all_num fst (ra ++ rb) ->
  StronglySorted (le_by fst) ra -> StronglySorted (le_by fst) rb ->
  exists out,
    merge_sorted_lists a a_rowids a_length b b_rowids b_top_idxs b_length out_length
    = (out.*1, out.*2, min out_length (a_length + b_length)) /\
    StronglySorted (le_by fst) out /\ topk_of fst out_length (ra ++ rb) out.
Proof.
  intros ra rb [Na Nb]%all_num_app Sa Sb.
  exists (take out_length (merge_rows ra rb)).
  assert (Hs : StronglySorted (le_by fst) (merge_rows ra rb)) by (by apply merge_rows_sorted).
  split; [|split].
  - unfold merge_sorted_lists. rewrite merge_loop_reference, !drop_0. f_equal.
    rewrite length_take, merge_rows_Permutation, length_app. unfold ra, rb, rows_a, rows_b.
    by rewrite !length_fmap_seq0.
  - rewrite <- (take_drop out_length (merge_rows ra rb)) in Hs.
    by apply StronglySorted_app_1_l in Hs.
  - eapply topk_of_Permutation; [apply merge_rows_Permutation|done|].
    by apply topk_of_take_sorted.
Qed.

Lemma merge_sorted_lists_correct_witness :
  let a := [f32_of_Z 1; f32_of_Z 4] in
  let b := [f32_of_Z 9; f32_of_Z 2] in
  exists out,
    merge_sorted_lists a [10; 11]%Z 2 b [20; 21]%Z [1; 0] 2 3 = (out.*1, out.*2, 3) /\
    StronglySorted (le_by fst) out /\
    topk_of fst 3 (rows_a a [10; 11]%Z 2 ++ rows_b b [20; 21]%Z [1; 0] 2) out.
Proof.
  apply (merge_sorted_lists_correct [f32_of_Z 1; f32_of_Z 4] [10; 11]%Z 2
    [f32_of_Z 9; f32_of_Z 2] [20; 21]%Z [1; 0] 2 3).
  - refine (proj1 (Forall_forall (fun x : f32 * Z => is_nan x.1 = false) _) _).
    vm_compute. repeat constructor.
  - repeat constructor.
  - repeat constructor.
Defined.

(** [min_idx] returns the positions of the [k] nearest candidates of a
    chunk, in order of distance, and [*k_used] is their number; fewer than
    [k] are returned only when there are fewer candidates. *)
Lemma min_idx_correct (distances : list f32) (n : nat) (candidates : list Z) (k : nat)
    (bTaken : list Z) :
  bitmap_wf n bTaken ->
  (forall j, j ∈ candidate_idxs n candidates -> is_nan (aget f32_zero distances j) = false) ->
  let '(out, k_used) := min_idx distances n candidates k bTaken in
  topk_of (aget f32_zero distances) k (candidate_idxs n candidates) out /\
  StronglySorted (le_by (aget f32_zero distances)) out /\ k_used = length out.
Proof. apply min_idx_topk_of. Qed.

Lemma min_idx_correct_witness :
  let d := [f32_of_Z 7; f32_of_Z 3; f32_of_Z 5; f32_of_Z 3] in
  let '(out, k_used) := min_idx d 8 [13]%Z 2 [0]%Z in
  topk_of (aget f32_zero d) 2 (candidate_idxs 8 [13]%Z) out /\
  StronglySorted (le_by (aget f32_zero d)) out /\ k_used = length out.
Proof.
  apply (min_idx_correct [f32_of_Z 7; f32_of_Z 3; f32_of_Z 5; f32_of_Z 3] 8 [13]%Z 2 [0]%Z).
  - split; [reflexivity|]. repeat constructor; unfold is_byte; lia.
  - refine (proj1 (Forall_forall (fun j => is_nan (aget f32_zero
      [f32_of_Z 7; f32_of_Z 3; f32_of_Z 5; f32_of_Z 3] j) = false) _) _).
    vm_compute. repeat constructor.
Defined.
