(* ===== verification/CLib.v ===== *)
(** * The C library routines the extension relies on

    [qsort] is specified by what the C standard promises (a permutation,
    ordered when the comparator is a consistent total preorder on the array)
    as a class, so that the components are verified for every conforming
    implementation; [insertion_qsort] is an instance used to run the models.
    [bsearch] is the usual bisection, proved to decide membership in a sorted
    array.  [cmp_i64] and [RowidMap] are the comparator and the filter set
    that the index searches hand to it. *)

From stdpp Require Import base list numbers sets sorting.
From Stdlib Require Import ZArith Lia.
From S2P Require Import Prelude.

Local Open Scope Z_scope.

(** ** [qsort] *)

(** What the standard requires of a comparator on the elements of [l]. *)
Definition cmp_consistent {A : Type} (cmp : A -> A -> Z) (l : list A) : Prop :=
  (forall x y, x ∈ l -> y ∈ l -> cmp x y <= 0 \/ cmp y x <= 0) /\
  (forall x y z, x ∈ l -> y ∈ l -> z ∈ l -> cmp x y <= 0 -> cmp y z <= 0 -> cmp x z <= 0).

Class QSort := {
  qsort : forall {A : Type}, (A -> A -> Z) -> list A -> list A;
  qsort_perm : forall (A : Type) (cmp : A -> A -> Z) (l : list A), qsort cmp l ≡ₚ l;
  qsort_sorted : forall (A : Type) (cmp : A -> A -> Z) (l : list A),
    cmp_consistent cmp l -> StronglySorted (fun x y => cmp x y <= 0) (qsort cmp l)
}.

Section InsertionSort.
Context {A : Type} (cmp : A -> A -> Z).

Fixpoint ins_cmp (x : A) (l : list A) : list A :=
  match l with
  | [] => [x]
  | y :: l' => if cmp x y <=? 0 then x :: l else y :: ins_cmp x l'
  end.

Definition sort_cmp (l : list A) : list A := foldr ins_cmp [] l.

Lemma ins_cmp_perm (x : A) (l : list A) : ins_cmp x l ≡ₚ x :: l.
Proof.
  induction l as [|y l IH]; [done|]. simpl.
  destruct (cmp x y <=? 0); [done|]. rewrite IH. apply Permutation_swap.
Qed.

Lemma sort_cmp_perm (l : list A) : sort_cmp l ≡ₚ l.
Proof. induction l as [|x l IH]; [done|]. simpl. by rewrite ins_cmp_perm, IH. Qed.

Lemma ins_cmp_sorted (x : A) (l : list A) :
  cmp_consistent cmp (x :: l) ->
  StronglySorted (fun x y => cmp x y <= 0) l ->
  StronglySorted (fun x y => cmp x y <= 0) (ins_cmp x l).
Proof.
  induction l as [|y l IH]; intros [Htot Htr] Hs; simpl.
  { repeat constructor. }
  inversion_clear Hs as [|? ? Hs' Hy]. rewrite Forall_forall in Hy.
  destruct (Z.leb_spec (cmp x y) 0) as [Hle|Hgt].
  - constructor; [by constructor; [|apply Forall_forall]|].
    apply Forall_forall. intros z [->|Hz]%elem_of_cons; [done|].
    apply Htr with y; set_solver.
  - constructor.
    + apply IH; [|done]. split; [intros; apply Htot; set_solver|].
      intros ? b; intros; apply Htr with b; set_solver.
    + apply Forall_forall. intros z Hz. rewrite ins_cmp_perm in Hz.
      apply elem_of_cons in Hz as [->|Hz]; [|auto].
      destruct (Htot x y); [set_solver..|lia|done].
Qed.

Lemma sort_cmp_sorted (l : list A) :
  cmp_consistent cmp l -> StronglySorted (fun x y => cmp x y <= 0) (sort_cmp l).
Proof.
  induction l as [|x l IH]; intros [Htot Htr]; simpl; [constructor|].
  apply ins_cmp_sorted.
  - split; intros *; rewrite ?(elem_of_cons (foldr _ _ _)), !elem_of_cons;
      fold (sort_cmp l); rewrite !sort_cmp_perm, <- !elem_of_cons; eauto.
  - apply IH. split; [intros; apply Htot; set_solver|].
    intros ? b; intros; apply Htr with b; set_solver.
Qed.

End InsertionSort.

(** A conforming implementation, to execute the models. *)
#[global] Instance insertion_qsort : QSort := {
  qsort A := @sort_cmp A;
  qsort_perm A := @sort_cmp_perm A;
  qsort_sorted A := @sort_cmp_sorted A
}.

(** ** [bsearch] on arrays of [i64] *)

Definition cmp_i64 (x y : Z) : Z :=
  if x <? y then -1 else if y <? x then 1 else 0.

(** Bisection of [arr[l..u)] for [key]: true iff a matching element is found. *)
Fixpoint bsearch_loop (fuel : nat) (key : Z) (arr : list Z) (l u : nat) : bool :=
  match fuel with
  | O => false
  | S fuel =>
      if (l <? u)%nat then
        let idx := ((l + u) / 2)%nat in
        let c := cmp_i64 key (aget 0 arr idx) in
        if c <? 0 then bsearch_loop fuel key arr l idx
        else if 0 <? c then bsearch_loop fuel key arr (S idx) u
        else true
      else false
  end.

Definition bsearch_i64 (key : Z) (arr : list Z) (nmemb : nat) : bool :=
  bsearch_loop (S nmemb) key arr 0 nmemb.

Lemma bsearch_loop_sound (fuel : nat) (key : Z) (arr : list Z) (l u : nat) :
  (u <= length arr)%nat -> bsearch_loop fuel key arr l u = true ->
  exists i, (l <= i < u)%nat /\ arr !! i = Some key.
Proof.
  revert l u. induction fuel as [|fuel IH]; intros l u Hu; [done|].
  cbn [bsearch_loop]. destruct (Nat.ltb_spec l u); [|done].
  assert (l <= (l + u) / 2 < u)%nat.
  { split; [apply Nat.div_le_lower_bound; lia|apply Nat.Div0.div_lt_upper_bound; lia]. }
  set (m := ((l + u) / 2)%nat) in *. unfold cmp_i64.
  destruct (Z.ltb_spec key (aget 0 arr m)); simpl.
  { intros (i & Hi & ?)%IH; [|lia]. exists i. split; [lia|done]. }
  destruct (Z.ltb_spec (aget 0 arr m) key); simpl.
  { intros (i & Hi & ?)%IH; [|lia]. exists i. split; [lia|done]. }
  intros _. exists m. split; [lia|]. rewrite (aget_lookup_lt 0) by lia. f_equal. lia.
Qed.

Lemma sorted_lookup_le (arr : list Z) (i j : nat) (x y : Z) :
  StronglySorted Z.le arr -> (i <= j)%nat -> arr !! i = Some x -> arr !! j = Some y -> x <= y.
Proof.
  intros Hs. revert i j. induction Hs as [|z arr Hs IH Hz]; intros i j Hij Hx Hy; [done|].
  destruct i as [|i], j as [|j]; simpl in *; try lia; simplify_eq; try lia.
  - rewrite Forall_forall in Hz. apply Hz, list_elem_of_lookup. eauto.
  - apply (IH i j); auto. lia.
Qed.

Lemma bsearch_loop_complete (fuel : nat) (key : Z) (arr : list Z) (l u i : nat) :
  StronglySorted Z.le arr -> (u <= length arr)%nat -> (u < fuel + l)%nat ->
  (l <= i < u)%nat -> arr !! i = Some key -> bsearch_loop fuel key arr l u = true.
Proof.
  intros Hs. revert l u. induction fuel as [|fuel IH]; intros l u Hu Hf Hi Hkey; [lia|].
  cbn [bsearch_loop]. destruct (Nat.ltb_spec l u); [|lia].
  assert (l <= (l + u) / 2 < u)%nat.
  { split; [apply Nat.div_le_lower_bound; lia|apply Nat.Div0.div_lt_upper_bound; lia]. }
  set (m := ((l + u) / 2)%nat) in *. unfold cmp_i64.
  pose proof (aget_lookup_lt 0 arr m ltac:(lia)) as Hm.
  destruct (Z.ltb_spec key (aget 0 arr m)); simpl.
  { apply IH; auto; try lia. split; [lia|]. destruct (decide (i < m)%nat); [done|].
    pose proof (sorted_lookup_le arr m i _ _ Hs ltac:(lia) Hm Hkey). lia. }
  destruct (Z.ltb_spec (aget 0 arr m) key); simpl; [|done].
  apply IH; auto; try lia. split; [|lia]. destruct (decide (m < i)%nat); [lia|].
  pose proof (sorted_lookup_le arr i m _ _ Hs ltac:(lia) Hkey Hm). lia.
Qed.

(** Bisection decides membership in a sorted array. *)
Lemma bsearch_i64_iff (key : Z) (arr : list Z) :
  StronglySorted Z.le arr -> bsearch_i64 key arr (length arr) = true <-> key ∈ arr.
Proof.
  intros Hs. unfold bsearch_i64. split.
  - intros (i & _ & Hi)%bsearch_loop_sound; [|done]. apply list_elem_of_lookup. eauto.
  - intros [i Hi]%list_elem_of_lookup. pose proof (lookup_lt_Some _ _ _ Hi).
    apply bsearch_loop_complete with i; auto; lia.
Qed.

(** ** [RowidMap]: the rowids a KNN query may return *)

Record RowidMap := MkRowidMap {
  rm_rowids : list Z;     (* [capacity] slots *)
  rm_capacity : nat;
  rm_count : nat;
  rm_pre_filter : bool
}.

(** Appending, with the growth policy of the code: a full buffer is
    reallocated to [2 * capacity + 16] slots, the old contents kept. *)
Definition rowid_map_add (map : RowidMap) (rowid : Z) : RowidMap :=
  let map' :=
    if (rm_capacity map <=? rm_count map)%nat then
      let new_capacity := (rm_capacity map * 2 + 16)%nat in
      MkRowidMap (take new_capacity (rm_rowids map)
                    ++ replicate (new_capacity - length (rm_rowids map)) 0)
        new_capacity (rm_count map) (rm_pre_filter map)
    else map in
  MkRowidMap (<[rm_count map' := rowid]> (rm_rowids map')) (rm_capacity map')
    (S (rm_count map')) (rm_pre_filter map').

Definition rowid_map_mem (map : RowidMap) (rowid : Z) : bool :=
  bsearch_i64 rowid (take (rm_count map) (rm_rowids map)) (rm_count map).

(** The filter test of the three index searches: a row passes when the
    pre-filter is off or its rowid is in the set. *)
Definition rowid_map_pass (map : RowidMap) (rowid : Z) : bool :=
  negb (rm_pre_filter map) || rowid_map_mem map rowid.

Definition rowid_map_wf (map : RowidMap) : Prop :=
  length (rm_rowids map) = rm_capacity map /\ (rm_count map <= rm_capacity map)%nat.

(** The set a map stands for. *)
Definition rowid_map_elems (map : RowidMap) : list Z := take (rm_count map) (rm_rowids map).

Lemma rowid_map_add_spec (map : RowidMap) (rowid : Z) :
  rowid_map_wf map ->
  rowid_map_wf (rowid_map_add map rowid) /\
  rowid_map_elems (rowid_map_add map rowid) = rowid_map_elems map ++ [rowid].
Proof.
  intros [Hl Hc]. unfold rowid_map_add, rowid_map_elems, rowid_map_wf.
  destruct (Nat.leb_spec (rm_capacity map) (rm_count map)) as [Hfull|Hroom];
    cbn [rm_rowids rm_capacity rm_count].
  - rewrite (take_ge (rm_rowids map)) by lia. split.
    + rewrite length_insert, length_app, length_replicate. lia.
    + rewrite take_S_r with (x := rowid) by
        (apply list_lookup_insert_eq; rewrite length_app, length_replicate; lia).
      rewrite take_insert_ge by lia. by rewrite take_app_le by lia.
  - split; [rewrite length_insert; lia|].
    rewrite take_S_r with (x := rowid) by (apply list_lookup_insert_eq; lia).
    by rewrite take_insert_ge by lia.
Qed.

(** On a sorted map the filter test decides membership. *)
Lemma rowid_map_pass_iff (map : RowidMap) (rowid : Z) :
  rowid_map_wf map -> StronglySorted Z.le (rowid_map_elems map) ->
  rowid_map_pass map rowid = true
  <-> (rm_pre_filter map = false \/ rowid ∈ rowid_map_elems map).
Proof.
  intros [Hl Hc] Hs. unfold rowid_map_pass, rowid_map_mem.
  assert (Hlen : length (rowid_map_elems map) = rm_count map).
  { unfold rowid_map_elems. rewrite length_take. lia. }
  rewrite orb_true_iff, negb_true_iff.
  pose proof (bsearch_i64_iff rowid (rowid_map_elems map) Hs) as Hb.
  rewrite Hlen in Hb. unfold rowid_map_elems in *. by rewrite Hb.
Qed.
