(* ===== verification/Distance.v ===== *)
(** * Distance functions (sqlite-vec.c, lines 377-610)

    The portable versions of the distance kernels: L2, L1 and cosine on
    [float] and [int8] vectors, and the Hamming distance on bit vectors with
    its byte-table and 64-bit-word implementations.  The AVX and NEON
    variants are compiled only behind their feature macros and are not
    modelled.

    Shown: the two Hamming kernels compute the number of differing bits; the
    int8 L1 distance is a metric and cannot overflow for the admitted
    dimensions; the float L2 distance is symmetric, zero on equal finite
    vectors and never NaN on finite ones. *)

From stdpp Require Import base list numbers.
From Stdlib Require Import ZArith Lia SpecFloat.
From S2P Require Import Prelude Float32 Bitmap.

Local Open Scope Z_scope.

(** ** L2 *)

(** The accumulation loops, from element [i] with [n] elements left. *)
Fixpoint l2_float_loop (a b : list f32) (i n : nat) (res : f32) : f32 :=
  match n with
  | O => res
  | S n =>
      let t := f32_sub (aget f32_zero a i) (aget f32_zero b i) in
      l2_float_loop a b (S i) n (f32_add res (f32_mul t t))
  end.

(** [return sqrt(res)]: [sqrt] works on [double]. *)
Definition sqrt_f32 (res : f32) : f32 := f32_of_f64 (f64_sqrt (f64_of_f32 res)).

Definition l2_sqr_float (a b : list f32) (qty : nat) : f32 :=
  sqrt_f32 (l2_float_loop a b 0 qty f32_zero).

Fixpoint l2_int8_loop (a b : list Z) (i n : nat) (res : f32) : f32 :=
  match n with
  | O => res
  | S n =>
      let t := f32_of_Z (aget 0 a i - aget 0 b i) in
      l2_int8_loop a b (S i) n (f32_add res (f32_mul t t))
  end.

Definition l2_sqr_int8 (a b : list Z) (d : nat) : f32 :=
  sqrt_f32 (l2_int8_loop a b 0 d f32_zero).

Definition distance_l2_sqr_float (a b : list f32) (d : nat) : f32 := l2_sqr_float a b d.
Definition distance_l2_sqr_int8 (a b : list Z) (d : nat) : f32 := l2_sqr_int8 a b d.

(** ** L1 *)

Fixpoint l1_int8_loop (a b : list Z) (i n : nat) (res : Z) : Z :=
  match n with
  | O => res
  | S n => l1_int8_loop a b (S i) n (res + Z.abs (aget 0 a i - aget 0 b i))
  end.

Definition l1_int8 (a b : list Z) (d : nat) : Z := l1_int8_loop a b 0 d 0.
Definition distance_l1_int8 (a b : list Z) (d : nat) : Z := l1_int8 a b d.

Fixpoint l1_f32_loop (a b : list f32) (i n : nat) (res : f64) : f64 :=
  match n with
  | O => res
  | S n =>
      l1_f32_loop a b (S i) n
        (f64_add res (f64_abs (f64_sub (f64_of_f32 (aget f32_zero a i))
                                 (f64_of_f32 (aget f32_zero b i)))))
  end.

Definition l1_f32 (a b : list f32) (d : nat) : f64 := l1_f32_loop a b 0 d (S754_zero false).
Definition distance_l1_f32 (a b : list f32) (d : nat) : f64 := l1_f32 a b d.

(** ** Cosine *)

(** [(dot, aMag, bMag)] *)
Fixpoint cosine_float_loop (a b : list f32) (i n : nat) (acc : f32 * f32 * f32)
    : f32 * f32 * f32 :=
  match n with
  | O => acc
  | S n =>
      let '(dot, aMag, bMag) := acc in
      let x := aget f32_zero a i in
      let y := aget f32_zero b i in
      cosine_float_loop a b (S i) n
        (f32_add dot (f32_mul x y), f32_add aMag (f32_mul x x), f32_add bMag (f32_mul y y))
  end.

(** [1 - (dot / (sqrt(aMag) * sqrt(bMag)))], in [double], returned as [float]. *)
Definition cosine_result (acc : f32 * f32 * f32) : f32 :=
  let '(dot, aMag, bMag) := acc in
  f32_of_f64
    (f64_sub (f64_of_Z 1)
       (f64_div (f64_of_f32 dot)
          (f64_mul (f64_sqrt (f64_of_f32 aMag)) (f64_sqrt (f64_of_f32 bMag))))).

Definition distance_cosine_float (a b : list f32) (qty : nat) : f32 :=
  cosine_result (cosine_float_loop a b 0 qty (f32_zero, f32_zero, f32_zero)).

Fixpoint cosine_int8_loop (a b : list Z) (i n : nat) (acc : f32 * f32 * f32)
    : f32 * f32 * f32 :=
  match n with
  | O => acc
  | S n =>
      let '(dot, aMag, bMag) := acc in
      let x := aget 0 a i in
      let y := aget 0 b i in
      cosine_int8_loop a b (S i) n
        (f32_add dot (f32_of_Z (x * y)), f32_add aMag (f32_of_Z (x * x)),
         f32_add bMag (f32_of_Z (y * y)))
  end.

Definition distance_cosine_int8 (a b : list Z) (d : nat) : f32 :=
  cosine_result (cosine_int8_loop a b 0 d (f32_zero, f32_zero, f32_zero)).

(** ** Hamming *)

Definition hamdist_table : list Z :=
  [
   0; 1; 1; 2; 1; 2; 2; 3; 1; 2; 2; 3; 2; 3; 3; 4; 1; 2; 2; 3; 2; 3; 3; 4;
   2; 3; 3; 4; 3; 4; 4; 5; 1; 2; 2; 3; 2; 3; 3; 4; 2; 3; 3; 4; 3; 4; 4; 5;
   2; 3; 3; 4; 3; 4; 4; 5; 3; 4; 4; 5; 4; 5; 5; 6; 1; 2; 2; 3; 2; 3; 3; 4;
   2; 3; 3; 4; 3; 4; 4; 5; 2; 3; 3; 4; 3; 4; 4; 5; 3; 4; 4; 5; 4; 5; 5; 6;
   2; 3; 3; 4; 3; 4; 4; 5; 3; 4; 4; 5; 4; 5; 5; 6; 3; 4; 4; 5; 4; 5; 5; 6;
   4; 5; 5; 6; 5; 6; 6; 7; 1; 2; 2; 3; 2; 3; 3; 4; 2; 3; 3; 4; 3; 4; 4; 5;
   2; 3; 3; 4; 3; 4; 4; 5; 3; 4; 4; 5; 4; 5; 5; 6; 2; 3; 3; 4; 3; 4; 4; 5;
   3; 4; 4; 5; 4; 5; 5; 6; 3; 4; 4; 5; 4; 5; 5; 6; 4; 5; 5; 6; 5; 6; 6; 7;
   2; 3; 3; 4; 3; 4; 4; 5; 3; 4; 4; 5; 4; 5; 5; 6; 3; 4; 4; 5; 4; 5; 5; 6;
   4; 5; 5; 6; 5; 6; 6; 7; 3; 4; 4; 5; 4; 5; 5; 6; 4; 5; 5; 6; 5; 6; 6; 7;
   4; 5; 5; 6; 5; 6; 6; 7; 5; 6; 6; 7; 6; 7; 7; 8
  ].

Fixpoint hamming_u8_loop (a b : list Z) (i n : nat) (same : Z) : Z :=
  match n with
  | O => same
  | S n =>
      hamming_u8_loop a b (S i) n
        (same + aget 0 hamdist_table (Z.to_nat (Z.lxor (aget 0 a i) (aget 0 b i))))
  end.

Definition distance_hamming_u8 (a b : list Z) (n : nat) : f32 :=
  f32_of_Z (hamming_u8_loop a b 0 n 0).

(** The [i]-th little-endian 64-bit word of a byte array, from byte [j] on. *)
Fixpoint load_u64_from (a : list Z) (i j n : nat) : Z :=
  match n with
  | O => 0
  | S n => aget 0 a (8 * i + j) + 256 * load_u64_from a i (S j) n
  end.

Definition load_u64 (a : list Z) (i : nat) : Z := load_u64_from a i 0 8.

(** How many of [n] positions satisfy a test. *)
Definition count_if (f : nat -> bool) (n : nat) : Z :=
  foldr (fun i acc => (if f i then 1 else 0) + acc) 0 (seq 0 n).

(** The compiler builtin: number of set bits of a 64-bit word. *)
Definition popcountl (x : Z) : Z := count_if (fun i => Z.testbit x (Z.of_nat i)) 64.

Fixpoint hamming_u64_loop (a b : list Z) (i n : nat) (same : Z) : Z :=
  match n with
  | O => same
  | S n => hamming_u64_loop a b (S i) n (same + popcountl (Z.lxor (load_u64 a i) (load_u64 b i)))
  end.

Definition distance_hamming_u64 (a b : list Z) (n : nat) : f32 :=
  f32_of_Z (hamming_u64_loop a b 0 n 0).

Definition distance_hamming (a b : list Z) (dimensions : nat) : f32 :=
  if (dimensions mod 64 =? 0)%nat then
    distance_hamming_u64 a b (dimensions / 8 / CHAR_BIT)
  else distance_hamming_u8 a b (dimensions / CHAR_BIT).

(** The specification: how many of the first [n] bits differ. *)
Definition hamming_bits (a b : list Z) (n : nat) : Z :=
  count_if (fun i => xorb (bitmap_test a i) (bitmap_test b i)) n.

(** ** Counting lemmas *)

Lemma count_if_S (f : nat -> bool) (n : nat) :
  count_if f (S n) = count_if f n + (if f n then 1 else 0).
Proof.
  unfold count_if. rewrite seq_S, foldr_app. simpl.
  generalize (seq 0 n). intros l. rewrite Z.add_0_r.
  induction l as [|i l IH]; simpl; [lia|]. rewrite IH. lia.
Qed.

Lemma count_if_ext (f g : nat -> bool) (n : nat) :
  (forall i, (i < n)%nat -> f i = g i) -> count_if f n = count_if g n.
Proof.
  induction n as [|n IH]; intros Hfg; [done|].
  rewrite !count_if_S, IH, Hfg by (intros; try apply Hfg; lia). done.
Qed.

(** Splitting a count of [m + n] positions. *)
Lemma count_if_add (f : nat -> bool) (m n : nat) :
  count_if f (m + n) = count_if f m + count_if (fun i => f (m + i)%nat) n.
Proof.
  induction n as [|n IH]; [rewrite Nat.add_0_r; unfold count_if at 3; simpl; lia|].
  rewrite Nat.add_succ_r, !count_if_S, IH. lia.
Qed.

Lemma count_if_bounds (f : nat -> bool) (n : nat) : 0 <= count_if f n <= Z.of_nat n.
Proof.
  induction n as [|n IH]; [done|]. rewrite count_if_S. destruct (f n); lia.
Qed.

(** ** Hamming *)

(** The table agrees with bit counting on every byte. *)
Lemma hamdist_table_ok (x : nat) :
  (x < 256)%nat ->
  aget 0 hamdist_table x = count_if (fun i => Z.testbit (Z.of_nat x) (Z.of_nat i)) 8.
Proof.
  intros Hx.
  assert (Hall : forallb (fun x => aget 0 hamdist_table x =?
    count_if (fun i => Z.testbit (Z.of_nat x) (Z.of_nat i)) 8) (seq 0 256) = true)
    by (vm_compute; reflexivity).
  rewrite forallb_forall in Hall. apply Z.eqb_eq, Hall, in_seq. lia.
Qed.

Lemma lxor_byte (x y : Z) : is_byte x -> is_byte y -> is_byte (Z.lxor x y).
Proof.
  unfold is_byte. intros Hx Hy.
  assert (E : Z.lxor x y = (Z.lxor x y) mod 2 ^ 8).
  { rewrite <- Z.land_ones by lia. apply Z.bits_inj'. intros n Hn.
    rewrite Z.land_spec, Z.testbit_ones_nonneg by lia.
    destruct (Z.ltb_spec n 8); [by rewrite andb_true_r|]. rewrite andb_false_r.
    rewrite Z.lxor_spec, <- (Z.mod_small x (2 ^ 8)), <- (Z.mod_small y (2 ^ 8)) by lia.
    by rewrite !Z.mod_pow2_bits_high by lia. }
  rewrite E. apply Z.mod_pos_bound. lia.
Qed.

Definition bytes_ok (a : list Z) : Prop := Forall is_byte a.

Lemma bytes_ok_aget (a : list Z) (i : nat) : bytes_ok a -> is_byte (aget 0 a i).
Proof.
  intros Ha. unfold aget. destruct (a !! i) eqn:E; simpl; [|unfold is_byte; lia].
  unfold bytes_ok in Ha. rewrite Forall_lookup in Ha. eauto.
Qed.

Lemma byte_bits_differ (a b : list Z) (i : nat) :
  bytes_ok a -> bytes_ok b ->
  aget 0 hamdist_table (Z.to_nat (Z.lxor (aget 0 a i) (aget 0 b i)))
  = count_if (fun j => xorb (bitmap_test a (i * 8 + j)) (bitmap_test b (i * 8 + j))) 8.
Proof.
  intros Ha Hb.
  pose proof (lxor_byte _ _ (bytes_ok_aget a i Ha) (bytes_ok_aget b i Hb)) as [H1 H2].
  rewrite hamdist_table_ok by lia. apply count_if_ext. intros j Hj.
  rewrite Z2Nat.id, Z.lxor_spec, !bitmap_test_testbit by lia.
  rewrite (Nat.add_comm (i * 8)), Nat.div_add, Nat.div_small, Nat.Div0.mod_add, Nat.mod_small
    by lia. done.
Qed.

Lemma hamming_u8_loop_spec (a b : list Z) (n i : nat) (same : Z) :
  bytes_ok a -> bytes_ok b ->
  hamming_u8_loop a b i n same
  = same + count_if (fun j => xorb (bitmap_test a (i * 8 + j)) (bitmap_test b (i * 8 + j)))
             (n * 8).
Proof.
  intros Ha Hb. revert i same. induction n as [|n IH]; intros i same; simpl.
  { unfold count_if. simpl. lia. }
  rewrite IH, byte_bits_differ by done.
  replace (S (S (S (S (S (S (S (S (n * 8)))))))))%nat with (8 + n * 8)%nat by lia.
  rewrite count_if_add, <- Z.add_assoc. do 2 f_equal.
  apply count_if_ext. intros j _.
  replace (i * 8 + (8 + j))%nat with (S i * 8 + j)%nat by lia. done.
Qed.

(** Bits of a loaded word are the bits of its bytes. *)
Lemma load_u64_from_testbit (a : list Z) (i n j m k : nat) :
  bytes_ok a -> (m < n)%nat -> (k < 8)%nat ->
  Z.testbit (load_u64_from a i j n) (Z.of_nat (8 * m + k))
  = Z.testbit (aget 0 a (8 * i + (j + m))) (Z.of_nat k).
Proof.
  intros Ha. revert j m. induction n as [|n IH]; intros j m Hm Hk; [lia|].
  cbn [load_u64_from]. pose proof (bytes_ok_aget a (8 * i + j) Ha) as [B1 B2].
  assert (E : aget 0 a (8 * i + j) + 256 * load_u64_from a i (S j) n
    = Z.lor (aget 0 a (8 * i + j)) (Z.shiftl (load_u64_from a i (S j) n) 8)).
  { assert (Hs : Z.shiftl (load_u64_from a i (S j) n) 8 = 256 * load_u64_from a i (S j) n)
      by (rewrite Z.shiftl_mul_pow2 by lia; lia).
    pose proof (Z.add_lor_land (aget 0 a (8 * i + j)) (Z.shiftl (load_u64_from a i (S j) n) 8)).
    enough (Z.land (aget 0 a (8 * i + j)) (Z.shiftl (load_u64_from a i (S j) n) 8) = 0) by lia.
    apply Z.bits_inj'. intros p Hp. rewrite Z.land_spec, Z.bits_0.
    destruct (Z.ltb_spec p 8).
    - by rewrite (Z.shiftl_spec_low _ _ p) by lia; rewrite andb_false_r.
    - rewrite <- (Z.mod_small (aget 0 a (8 * i + j)) (2 ^ 8)) by lia.
      by rewrite Z.mod_pow2_bits_high by lia. }
  rewrite E, Z.lor_spec. destruct m as [|m].
  - rewrite Z.shiftl_spec_low, orb_false_r by lia. by rewrite !Nat.add_0_r.
  - rewrite Z.shiftl_spec by lia.
    rewrite <- (Z.mod_small (aget 0 a (8 * i + j)) (2 ^ 8)) by lia.
    rewrite Z.mod_pow2_bits_high by lia. rewrite orb_false_l.
    replace (Z.of_nat (8 * S m + k) - 8) with (Z.of_nat (8 * m + k)) by lia.
    rewrite IH by lia. do 2 f_equal. lia.
Qed.

Lemma load_u64_testbit (a : list Z) (i p : nat) :
  bytes_ok a -> (p < 64)%nat ->
  Z.testbit (load_u64 a i) (Z.of_nat p) = bitmap_test a (i * 64 + p).
Proof.
  intros Ha Hp. unfold load_u64. rewrite bitmap_test_testbit.
  pose proof (Nat.div_mod_eq p 8) as Hdm. pose proof (Nat.mod_upper_bound p 8).
  assert ((p / 8 < 8)%nat) by (apply Nat.Div0.div_lt_upper_bound; lia).
  rewrite Hdm at 1. rewrite load_u64_from_testbit by (done || lia).
  replace (i * 64 + p)%nat with (p + (8 * i) * 8)%nat by lia.
  rewrite Nat.div_add, Nat.Div0.mod_add by lia. do 2 f_equal. lia.
Qed.

Lemma hamming_u64_loop_spec (a b : list Z) (n i : nat) (same : Z) :
  bytes_ok a -> bytes_ok b ->
  hamming_u64_loop a b i n same
  = same + count_if (fun j => xorb (bitmap_test a (i * 64 + j)) (bitmap_test b (i * 64 + j)))
             (n * 64).
Proof.
  intros Ha Hb. revert i same. induction n as [|n IH]; intros i same;
    cbn [hamming_u64_loop]; [unfold count_if; simpl; lia|].
  rewrite IH. unfold popcountl.
  replace (S n * 64)%nat with (64 + n * 64)%nat by lia.
  rewrite count_if_add, <- Z.add_assoc. f_equal. f_equal.
  - apply count_if_ext. intros j Hj. by rewrite Z.lxor_spec, !load_u64_testbit.
  - apply count_if_ext. intros j _.
    replace (i * 64 + (64 + j))%nat with (S i * 64 + j)%nat by lia. done.
Qed.

(** C39: [distance_hamming] returns the number of differing bits of the first
    [d] bits, whichever of the 64-bit and byte-table kernels it dispatches
    to. *)
Theorem distance_hamming_correct (a b : list Z) (d : nat) :
  bytes_ok a -> bytes_ok b -> (d mod 8 = 0)%nat ->
  distance_hamming a b d = f32_of_Z (hamming_bits a b d).
Proof.
  intros Ha Hb Hd. unfold distance_hamming, hamming_bits, CHAR_BIT.
  destruct (Nat.eqb_spec (d mod 64) 0) as [H64|_].
  - unfold distance_hamming_u64. rewrite hamming_u64_loop_spec by done.
    rewrite Nat.Div0.div_div. simpl (8 * 8)%nat.
    replace (d / 64 * 64)%nat with d by (pose proof (Nat.div_mod_eq d 64); lia). done.
  - unfold distance_hamming_u8. rewrite hamming_u8_loop_spec by done.
    replace (d / 8 * 8)%nat with d by (pose proof (Nat.div_mod_eq d 8); lia). done.
Qed.

Lemma distance_hamming_correct_witness :
  distance_hamming [240; 15] [255; 0] 16 = f32_of_Z (hamming_bits [240; 15] [255; 0] 16).
Proof.
  apply (distance_hamming_correct [240; 15] [255; 0] 16);
    [repeat constructor; unfold is_byte; lia..|reflexivity].
Defined.

(** ** int8 L1 *)

Lemma l1_int8_loop_acc (a b : list Z) (n i : nat) (r : Z) :
  l1_int8_loop a b i n r = r + l1_int8_loop a b i n 0.
Proof.
  revert i r. induction n as [|n IH]; intros i r; simpl; [lia|].
  rewrite IH, (IH _ (0 + _)). lia.
Qed.

Lemma l1_int8_loop_S (a b : list Z) (n i : nat) :
  l1_int8_loop a b i (S n) 0
  = Z.abs (aget 0 a i - aget 0 b i) + l1_int8_loop a b (S i) n 0.
Proof. simpl. by rewrite l1_int8_loop_acc. Qed.

Definition int8_ok (a : list Z) : Prop := Forall (fun x => -128 <= x <= 127) a.

Lemma int8_ok_aget (a : list Z) (i : nat) : int8_ok a -> -128 <= aget 0 a i <= 127.
Proof.
  intros Ha. unfold aget. destruct (a !! i) eqn:E; simpl; [|lia].
  unfold int8_ok in Ha. rewrite Forall_lookup in Ha. by apply (Ha i).
Qed.

(** C40: The int8 L1 distance is a metric on the first [d] coordinates (zero
    exactly on equal vectors, symmetric, triangle inequality), and on int8
    vectors it stays within [255 * d], so the [i32] accumulator cannot
    overflow up to the 8192 dimensions a vector column may have. *)
Theorem distance_l1_int8_metric (a b c : list Z) (d : nat) :
  int8_ok a -> int8_ok b ->
  (distance_l1_int8 a b d = 0 <-> forall i, (i < d)%nat -> aget 0 a i = aget 0 b i) /\
  distance_l1_int8 a b d = distance_l1_int8 b a d /\
  distance_l1_int8 a c d <= distance_l1_int8 a b d + distance_l1_int8 b c d /\
  0 <= distance_l1_int8 a b d <= 255 * Z.of_nat d /\
  (Z.of_nat d <= 8192 -> in_i32 (distance_l1_int8 a b d)).
Proof.
  intros Ha Hb. unfold distance_l1_int8, l1_int8.
  assert (Hbound : forall n i, 0 <= l1_int8_loop a b i n 0 <= 255 * Z.of_nat n).
  { induction n as [|n IH]; intros i; [simpl; lia|]. rewrite l1_int8_loop_S.
    specialize (IH (S i)). pose proof (int8_ok_aget a i Ha). pose proof (int8_ok_aget b i Hb). lia. }
  assert (Hzero : forall n i, l1_int8_loop a b i n 0 = 0 <->
    forall j, (i <= j < i + n)%nat -> aget 0 a j = aget 0 b j).
  { induction n as [|n IH]; intros i; [split; [intros _ j Hj; lia|done]|].
    rewrite l1_int8_loop_S. pose proof (Hbound n (S i)). split.
    - intros Hz j Hj. destruct (decide (j = i)) as [->|]; [lia|].
      apply (IH (S i)); [lia|lia].
    - intros Hj. rewrite (proj2 (IH (S i))) by (intros; apply Hj; lia).
      rewrite (Hj i) by lia. lia. }
  assert (Hsym : forall n i, l1_int8_loop a b i n 0 = l1_int8_loop b a i n 0).
  { induction n as [|n IH]; intros i; [done|]. rewrite !l1_int8_loop_S, IH. lia. }
  assert (Htri : forall n i,
    l1_int8_loop a c i n 0 <= l1_int8_loop a b i n 0 + l1_int8_loop b c i n 0).
  { induction n as [|n IH]; intros i; [done|]. rewrite !l1_int8_loop_S.
    specialize (IH (S i)). lia. }
  split; [rewrite Hzero; split; intros Hx j Hj; apply Hx; lia|].
  split; [apply Hsym|]. split; [apply Htri|]. split; [apply Hbound|].
  intros Hd. unfold in_i32. pose proof (Hbound d 0%nat). lia.
Qed.

Lemma distance_l1_int8_metric_witness :
  distance_l1_int8 [-128; 5] [127; 5] 2 = distance_l1_int8 [127; 5] [-128; 5] 2.
Proof.
  apply (distance_l1_int8_metric [-128; 5] [127; 5] [0; 0] 2); repeat constructor; lia.
Defined.

(** ** Float L2 *)

Definition fin_vec (a : list f32) : Prop := Forall (fun x => is_fin x = true) a.

Lemma fin_vec_aget (a : list f32) (i : nat) : fin_vec a -> is_fin (aget f32_zero a i) = true.
Proof.
  intros Ha. unfold aget. destruct (a !! i) eqn:E; simpl; [|done].
  unfold fin_vec in Ha. rewrite Forall_lookup in Ha. by apply (Ha i).
Qed.

Lemma l2_float_loop_sym (a b : list f32) (n i : nat) (r : f32) :
  l2_float_loop a b i n r = l2_float_loop b a i n r.
Proof.
  revert i r. induction n as [|n IH]; intros i r; simpl; [done|].
  rewrite IH. unfold f32_mul, f32_sub. by rewrite SFsub_square_sym.
Qed.

Lemma l2_float_loop_num (a b : list f32) (n i : nat) (r : f32) :
  fin_vec a -> fin_vec b -> is_nan r = false -> is_neg r = false ->
  is_nan (l2_float_loop a b i n r) = false /\ is_neg (l2_float_loop a b i n r) = false.
Proof.
  intros Ha Hb. revert i r. induction n as [|n IH]; intros i r Hn Hs; simpl; [done|].
  destruct (SFmul_square 24 128 (f32_sub (aget f32_zero a i) (aget f32_zero b i))) as [M1 M2].
  { apply SFsub_fin_num; by apply fin_vec_aget. }
  destruct (SFadd_nonneg 24 128 r _ Hn M1 Hs M2) as [A1 A2]. by apply IH.
Qed.

Lemma l2_float_loop_self (a : list f32) (n i : nat) :
  fin_vec a -> l2_float_loop a a i n f32_zero = f32_zero.
Proof.
  intros Ha. revert i. induction n as [|n IH]; intros i; simpl; [done|].
  unfold f32_sub. rewrite SFsub_self by (by apply fin_vec_aget). apply IH.
Qed.

(** the float L2 distance is symmetric for all inputs; on finite vectors
    it is never a NaN nor negative, and a vector is at distance [+0] from
    itself. *)
Lemma distance_l2_float_sane (a b : list f32) (d : nat) :
  distance_l2_sqr_float a b d = distance_l2_sqr_float b a d /\
  (fin_vec a -> fin_vec b ->
   is_nan (distance_l2_sqr_float a b d) = false /\
   is_neg (distance_l2_sqr_float a b d) = false /\
   distance_l2_sqr_float a a d = f32_zero).
Proof.
  unfold distance_l2_sqr_float, l2_sqr_float.
  split; [by rewrite l2_float_loop_sym|]. intros Ha Hb.
  rewrite l2_float_loop_self by done.
  destruct (l2_float_loop_num a b d 0 f32_zero Ha Hb eq_refl eq_refl) as [N1 N2].
  destruct (f64_of_f32_nonneg _ N1 N2) as [N3 N4].
  destruct (SFsqrt_nonneg 53 1024 _ N3 N4) as [N5 N6].
  destruct (f32_of_f64_nonneg _ N5 N6) as [N7 N8]. done.
Qed.
