(* ===== verification/KDTree.v ===== *)
(** * The KD-tree index (sqlite-vec.c, [kdtree_*], [build_balanced], ...)

    The in-memory index of [vec0] tables declared with a [kdtree] or [hybrid]
    index.  A node carries its point, its rowid, its split axis, a tombstone
    flag and two counters (subtree size, tombstones in the subtree); deletion
    marks a tombstone and a subtree is rebuilt when it is unbalanced or holds
    too many tombstones.

    Shown here: every operation keeps the counters exact, keeps the KD order
    and has the expected effect on the multiset of live rows.  The search is
    in [KDSearch].  Allocation is assumed to succeed. *)

From stdpp Require Import base list numbers sets sorting.
From Stdlib Require Import ZArith Lia SpecFloat.
From S2P Require Import Prelude Float32 CLib.

Local Open Scope Z_scope.

(** ** Data *)

(** [float *point; i64 rowid] *)
Record PointRec := MkPoint { pr_point : list f32; pr_rowid : Z }.

(** [struct KDNode]; the null pointer is [kd_null]. *)
Inductive KDNode :=
| kd_null
| kd_node (point : list f32) (rowid : Z) (axis size deleted invalid_count : Z)
          (left right : KDNode).

Record KDTree := MkKDTree { kt_root : KDNode; kt_dimensions : nat; kt_size : Z }.

(** [p[axis]] *)
Definition coord (p : list f32) (axis : Z) : f32 := aget f32_zero p (Z.to_nat axis).

(** [0.75f] and [0.3f]. *)
Definition ALPHA_BAL : f32 := S754_finite false 12582912 (-24).
Definition ALPHA_DEL : f32 := S754_finite false 10066330 (-25).

(** ** Counters *)

Definition node_size (n : KDNode) : Z :=
  match n with kd_null => 0 | kd_node _ _ _ size _ _ _ _ => size end.

Definition node_invalid (n : KDNode) : Z :=
  match n with kd_null => 0 | kd_node _ _ _ _ _ inv _ _ => inv end.

Definition is_deleted (deleted : Z) : bool := negb (deleted =? 0).

Definition pullup (n : KDNode) : KDNode :=
  match n with
  | kd_null => kd_null
  | kd_node p r ax _ del _ l rt =>
      kd_node p r ax (1 + node_size l + node_size rt) del
        ((if is_deleted del then 1 else 0) + node_invalid l + node_invalid rt) l rt
  end.

Definition is_unbalanced (n : KDNode) : bool :=
  match n with
  | kd_null => false
  | kd_node _ _ _ s _ _ l rt =>
      let left := node_size l in
      let right := node_size rt in
      if s <=? 2 then false
      else f32_ltb (f32_mul ALPHA_BAL (f32_of_Z s)) (f32_of_Z left)
           || f32_ltb (f32_mul ALPHA_BAL (f32_of_Z s)) (f32_of_Z right)
  end.

Definition too_many_deleted (n : KDNode) : bool :=
  match n with
  | kd_null => false
  | kd_node _ _ _ s _ inv _ _ =>
      f32_ltb (f32_mul ALPHA_DEL (f32_of_Z s)) (f32_of_Z inv)
  end.

(** ** Rebuilding *)

(** [current_axis] is the global the comparator reads. *)
Definition pointrec_cmp (current_axis : Z) (A B : PointRec) : Z :=
  if f32_ltb (coord (pr_point A) current_axis) (coord (pr_point B) current_axis) then -1
  else if f32_ltb (coord (pr_point B) current_axis) (coord (pr_point A) current_axis) then 1
  else 0.

(** In-order copy of the rows that are not deleted. *)
Fixpoint collect_valid_nodes (n : KDNode) (dims : nat) : list PointRec :=
  match n with
  | kd_null => []
  | kd_node p r _ _ del _ l rt =>
      collect_valid_nodes l dims
        ++ (if is_deleted del then [] else [MkPoint (take dims p) r])
        ++ collect_valid_nodes rt dims
  end.

Section Rebuild.
Context `{QSort}.

(** [build_balanced(arr, l, r, depth, dims)] on the segment [arr[l..r)],
    which is the only part of the array it touches.  [fuel] bounds the
    recursion depth; the segment length is enough ([build_balanced_fuel]). *)
Fixpoint build_balanced_rec (fuel : nat) (arr : list PointRec) (depth dims : nat) : KDNode :=
  match fuel with
  | O => kd_null
  | S fuel =>
      match arr with
      | [] => kd_null
      | _ :: _ =>
          let axis := Z.of_nat (depth mod dims) in
          let len := length arr in
          let arr := qsort (pointrec_cmp axis) arr in
          let mid := (len / 2)%nat in
          match arr !! mid with
          | None => kd_null
          | Some pm =>
              pullup (kd_node (take dims (pr_point pm)) (pr_rowid pm) axis 0 0 0
                (build_balanced_rec fuel (take mid arr) (S depth) dims)
                (build_balanced_rec fuel (drop (S mid) arr) (S depth) dims))
          end
      end
  end.

Definition build_balanced (arr : list PointRec) (depth dims : nat) : KDNode :=
  build_balanced_rec (length arr) arr depth dims.

Definition rebuild_subtree (root : KDNode) (dims : nat) : KDNode :=
  match root with
  | kd_null => kd_null
  | _ => build_balanced (collect_valid_nodes root dims) 0 dims
  end.

(** ** Insertion, deletion, update *)

Fixpoint kdtree_insert_rec (node : KDNode) (point : list f32) (rowid : Z)
    (depth dims : nat) : KDNode :=
  match node with
  | kd_null =>
      kd_node (take dims point) rowid (Z.of_nat (depth mod dims)) 1 0 0 kd_null kd_null
  | kd_node p r axis s del inv l rt =>
      let node' :=
        pullup
          (if f32_ltb (coord point axis) (coord p axis)
           then kd_node p r axis s del inv (kdtree_insert_rec l point rowid (S depth) dims) rt
           else kd_node p r axis s del inv l (kdtree_insert_rec rt point rowid (S depth) dims)) in
      if is_unbalanced node' || too_many_deleted node'
      then rebuild_subtree node' dims
      else node'
  end.

Definition kdtree_insert (tree : KDTree) (point : list f32) (rowid : Z) (dims : nat)
    : Z * KDTree :=
  match kdtree_insert_rec (kt_root tree) point rowid 0 dims with
  | kd_null => (SQLITE_NOMEM, tree)
  | newRoot => (SQLITE_OK, MkKDTree newRoot (kt_dimensions tree) (kt_size tree + 1))
  end.

Fixpoint kdtree_delete_rec (node : KDNode) (rowid : Z) (depth dims : nat) : KDNode :=
  match node with
  | kd_null => kd_null
  | kd_node p r axis s del inv l rt =>
      if r =? rowid then
        let node' := pullup (kd_node p r axis s (if is_deleted del then del else 1) inv l rt) in
        if too_many_deleted node' then rebuild_subtree node' dims else node'
      else
        let node' := pullup (kd_node p r axis s del inv
                       (kdtree_delete_rec l rowid (S depth) dims)
                       (kdtree_delete_rec rt rowid (S depth) dims)) in
        if is_unbalanced node' || too_many_deleted node'
        then rebuild_subtree node' dims
        else node'
  end.

(** The parameter is a C [int], so the caller's 64-bit rowid is truncated. *)
Definition kdtree_delete (tree : KDTree) (rowid : Z) : Z * KDTree :=
  match kt_root tree with
  | kd_null => (SQLITE_ERROR, tree)
  | root =>
      (SQLITE_OK, MkKDTree (kdtree_delete_rec root (to_i32 rowid) 0 (kt_dimensions tree))
                    (kt_dimensions tree) (kt_size tree))
  end.

Definition kdtree_update (tree : KDTree) (rowid : Z) (new_point : list f32) (dims : nat)
    : Z * KDTree :=
  match kt_root tree with
  | kd_null => (SQLITE_ERROR, tree)
  | _ =>
      let '(rc, tree') := kdtree_delete tree rowid in
      if rc =? SQLITE_OK then kdtree_insert tree' new_point rowid dims else (rc, tree')
  end.

End Rebuild.

(** ** Lookups *)

Fixpoint kdtree_find_min (node : KDNode) (axis : Z) (depth dims : nat)
    : option (list f32 * Z) :=
  match node with
  | kd_null => None
  | kd_node p r _ _ _ _ l rt =>
      if Z.of_nat (depth mod dims) =? axis then
        match l with
        | kd_null => Some (p, r)
        | _ => kdtree_find_min l axis (S depth) dims
        end
      else
        let minNode := (p, r) in
        let minNode :=
          match kdtree_find_min l axis (S depth) dims with
          | Some m => if f32_ltb (coord m.1 axis) (coord minNode.1 axis) then m else minNode
          | None => minNode
          end in
        let minNode :=
          match kdtree_find_min rt axis (S depth) dims with
          | Some m => if f32_ltb (coord m.1 axis) (coord minNode.1 axis) then m else minNode
          | None => minNode
          end in
        Some minNode
  end.

Fixpoint kdtree_find_vector_by_rowid_rec (node : KDNode) (rowid : Z) : option (list f32) :=
  match node with
  | kd_null => None
  | kd_node p r _ _ del _ l rt =>
      if negb (is_deleted del) && (r =? rowid) then Some p
      else
        match kdtree_find_vector_by_rowid_rec l rowid with
        | Some v => Some v
        | None => kdtree_find_vector_by_rowid_rec rt rowid
        end
  end.

Definition kdtree_find_vector_by_rowid (tree : KDTree) (rowid : Z) : option (list f32) :=
  kdtree_find_vector_by_rowid_rec (kt_root tree) rowid.

(** ** Abstract views *)

(** The live rows, in order. *)
Fixpoint kd_live (n : KDNode) : list PointRec :=
  match n with
  | kd_null => []
  | kd_node p r _ _ del _ l rt =>
      kd_live l ++ (if is_deleted del then [] else [MkPoint p r]) ++ kd_live rt
  end.

(** All stored rows, tombstones included. *)
Fixpoint kd_rows (n : KDNode) : list PointRec :=
  match n with
  | kd_null => []
  | kd_node p r _ _ _ _ l rt => kd_rows l ++ [MkPoint p r] ++ kd_rows rt
  end.

Fixpoint kd_height (n : KDNode) : nat :=
  match n with
  | kd_null => 0
  | kd_node _ _ _ _ _ _ l rt => S (max (kd_height l) (kd_height rt))
  end.

(** Shape invariant: coordinates in range, counters exact, flag 0 or 1. *)
Fixpoint kd_wf (dims : nat) (n : KDNode) : Prop :=
  match n with
  | kd_null => True
  | kd_node p _ ax s del inv l rt =>
      length p = dims /\ 0 <= ax < Z.of_nat dims /\ (del = 0 \/ del = 1) /\
      s = 1 + node_size l + node_size rt /\
      inv = (if is_deleted del then 1 else 0) + node_invalid l + node_invalid rt /\
      kd_wf dims l /\ kd_wf dims rt
  end.

(** KD order: at every node the left rows are at most, the right rows at
    least, the split coordinate. *)
Fixpoint kd_ordered (n : KDNode) : Prop :=
  match n with
  | kd_null => True
  | kd_node p _ ax _ _ _ l rt =>
      (forall q, q ∈ kd_rows l -> f32_leb (coord (pr_point q) ax) (coord p ax) = true) /\
      (forall q, q ∈ kd_rows rt -> f32_leb (coord p ax) (coord (pr_point q) ax) = true) /\
      kd_ordered l /\ kd_ordered rt
  end.

(** No coordinate is a NaN. *)
Definition point_num (p : list f32) : Prop := forall x, x ∈ p -> is_nan x = false.

Definition kd_num (n : KDNode) : Prop := forall q, q ∈ kd_rows n -> point_num (pr_point q).

(** ** Views of [pullup] and of the collected rows *)

Lemma kd_live_pullup (n : KDNode) : kd_live (pullup n) = kd_live n.
Proof. by destruct n. Qed.

Lemma kd_rows_pullup (n : KDNode) : kd_rows (pullup n) = kd_rows n.
Proof. by destruct n. Qed.

Lemma kd_ordered_pullup (n : KDNode) : kd_ordered (pullup n) <-> kd_ordered n.
Proof. by destruct n. Qed.

Lemma kd_wf_pullup (dims : nat) p r ax s del inv l rt :
  length p = dims -> 0 <= ax < Z.of_nat dims -> del = 0 \/ del = 1 ->
  kd_wf dims l -> kd_wf dims rt -> kd_wf dims (pullup (kd_node p r ax s del inv l rt)).
Proof. intros. simpl. repeat split; auto; lia. Qed.

Create Rewrite HintDb kd.
#[export] Hint Rewrite kd_live_pullup kd_rows_pullup kd_ordered_pullup : kd.

Lemma collect_valid_live (dims : nat) (n : KDNode) :
  kd_wf dims n -> collect_valid_nodes n dims = kd_live n.
Proof.
  induction n as [|p r ax s del inv l IHl rt IHr]; simpl; [done|].
  intros (Hp & _ & _ & _ & _ & Hl & Hr). rewrite IHl, IHr by done.
  by rewrite (take_ge p) by lia.
Qed.

Lemma kd_live_sublist (n : KDNode) : kd_live n `sublist_of` kd_rows n.
Proof.
  induction n as [|p r ax s del inv l IHl rt IHr]; simpl; [done|].
  apply sublist_app; [done|]. destruct (is_deleted del); simpl.
  - by apply sublist_cons.
  - by apply sublist_skip.
Qed.

Lemma kd_live_rows (n : KDNode) (q : PointRec) : q ∈ kd_live n -> q ∈ kd_rows n.
Proof.
  intros Hq. eapply elem_of_submseteq; [exact Hq|].
  apply sublist_submseteq, kd_live_sublist.
Qed.

Lemma kd_wf_rows_length (dims : nat) (n : KDNode) (q : PointRec) :
  kd_wf dims n -> q ∈ kd_rows n -> length (pr_point q) = dims.
Proof.
  induction n as [|p r ax s del inv l IHl rt IHr]; simpl; [set_solver|].
  intros (Hp & _ & _ & _ & _ & Hl & Hr).
  rewrite elem_of_app, elem_of_cons. intros [Hq|[->|Hq]]; auto.
Qed.

(** The exact counters are the numbers of rows and of tombstones. *)
Lemma kd_wf_size (dims : nat) (n : KDNode) :
  kd_wf dims n -> node_size n = Z.of_nat (length (kd_rows n)).
Proof.
  induction n as [|p r ax s del inv l IHl rt IHr]; simpl; [done|].
  intros (_ & _ & _ & -> & _ & Hl & Hr). rewrite IHl, IHr by done.
  rewrite length_app. simpl. lia.
Qed.

Lemma kd_wf_invalid (dims : nat) (n : KDNode) :
  kd_wf dims n ->
  node_invalid n = Z.of_nat (length (kd_rows n)) - Z.of_nat (length (kd_live n)).
Proof.
  induction n as [|p r ax s del inv l IHl rt IHr]; simpl; [done|].
  intros (_ & _ & _ & _ & -> & Hl & Hr). rewrite IHl, IHr by done.
  rewrite !length_app. destruct (is_deleted del); simpl; lia.
Qed.

Lemma coord_num (p : list f32) (ax : Z) :
  point_num p -> is_nan (coord p ax) = false.
Proof.
  intros Hp. unfold coord, aget. destruct (p !! Z.to_nat ax) eqn:E; [|done].
  apply Hp, list_elem_of_lookup. eauto.
Qed.

Lemma pointrec_cmp_le (ax : Z) (a b : PointRec) :
  point_num (pr_point a) -> point_num (pr_point b) ->
  pointrec_cmp ax a b <= 0 <->
  f32_leb (coord (pr_point a) ax) (coord (pr_point b) ax) = true.
Proof.
  intros Ha Hb. apply coord_num with (ax := ax) in Ha, Hb. unfold pointrec_cmp.
  destruct (f32_ltb (coord (pr_point a) ax) (coord (pr_point b) ax)) eqn:E1.
  { split; [intros _; by apply f32_ltb_leb|lia]. }
  destruct (f32_ltb (coord (pr_point b) ax) (coord (pr_point a) ax)) eqn:E2.
  { split; [lia|]. intros Hle. apply f32_leb_nlt in Hle. congruence. }
  split; [|lia]. intros _. by apply f32_nlt_leb.
Qed.

Lemma pointrec_cmp_consistent (ax : Z) (l : list PointRec) :
  (forall q, q ∈ l -> point_num (pr_point q)) -> cmp_consistent (pointrec_cmp ax) l.
Proof.
  intros Hl. split.
  - intros x y Hx Hy. rewrite !pointrec_cmp_le by auto.
    apply Hl in Hx, Hy. apply coord_num with (ax := ax) in Hx, Hy.
    destruct (f32_leb _ _) eqn:E; [by left|right]. by apply f32_ltb_leb, f32_nle_lt.
  - intros x y z Hx Hy Hz. rewrite !pointrec_cmp_le by auto. apply f32_leb_trans.
Qed.

(** ** Rebuilding *)

Section RebuildLemmas.
Context `{QSort}.

(** One unfolding of [build_balanced] on a non-empty segment. *)
Lemma build_split (arr : list PointRec) (ax : Z) :
  arr <> [] ->
  exists pm, qsort (pointrec_cmp ax) arr !! (length arr / 2)%nat = Some pm /\
    let s := qsort (pointrec_cmp ax) arr in
    arr ≡ₚ take (length arr / 2) s ++ pm :: drop (S (length arr / 2)) s /\
    length (take (length arr / 2) s) = (length arr / 2)%nat /\
    length (drop (S (length arr / 2)) s) = (length arr - 1 - length arr / 2)%nat.
Proof.
  intros Hne. set (s := qsort (pointrec_cmp ax) arr).
  assert (Hp : s ≡ₚ arr) by apply qsort_perm.
  assert (Hl : length s = length arr) by (by rewrite Hp).
  assert (Hpos : (0 < length arr)%nat) by (destruct arr; [done|simpl; lia]).
  assert (Hmid : (length arr / 2 < length s)%nat) by (apply Nat.Div0.div_lt_upper_bound; lia).
  destruct (lookup_lt_is_Some_2 _ _ Hmid) as [pm Hpm]. exists pm. split; [done|].
  split; [|split]; [|rewrite length_take; lia|rewrite length_drop; lia].
  rewrite <- Hp at 1. by rewrite (take_drop_middle _ _ _ Hpm).
Qed.

(** Segments of the array that the recursion may receive. *)
Definition seg_ok (dims : nat) (arr : list PointRec) : Prop :=
  forall q, q ∈ arr -> length (pr_point q) = dims.

Lemma build_rows (dims fuel : nat) (arr : list PointRec) (depth : nat) :
  (length arr <= fuel)%nat -> seg_ok dims arr ->
  kd_rows (build_balanced_rec fuel arr depth dims) ≡ₚ arr /\
  kd_live (build_balanced_rec fuel arr depth dims)
  = kd_rows (build_balanced_rec fuel arr depth dims).
Proof.
  revert arr depth. induction fuel as [|fuel IH]; intros arr depth Hf Hok.
  { destruct arr; [done|simpl in Hf; lia]. }
  destruct arr as [|a arr']; [done|]. set (arr := a :: arr') in *.
  destruct (build_split arr (Z.of_nat (depth mod dims))) as (pm & Hpm & Hp & Hll & Hlr); [done|].
  cbn [build_balanced_rec]. fold arr. subst arr. cbv beta match.
  rewrite Hpm. autorewrite with kd. set (arr := a :: arr') in *.
  assert (Hlen : (0 < length arr)%nat) by (simpl; lia).
  assert (Hhalf : (length arr / 2 < length arr)%nat) by (apply Nat.div_lt; lia).
  destruct (IH (take (length arr / 2) (qsort (pointrec_cmp (Z.of_nat (depth mod dims))) arr))
    (S depth)) as [HL1 HL2].
  { lia. } { intros q Hq. apply Hok. rewrite Hp. set_solver. }
  destruct (IH (drop (S (length arr / 2)) (qsort (pointrec_cmp (Z.of_nat (depth mod dims))) arr))
    (S depth)) as [HR1 HR2].
  { lia. } { intros q Hq. apply Hok. rewrite Hp. set_solver. }
  assert (Hlp : length (pr_point pm) = dims) by (apply Hok; rewrite Hp; set_solver).
  cbn [kd_rows kd_live is_deleted Z.eqb negb]. rewrite HL2, HR2. split; [|done].
  rewrite HL1, HR1, (take_ge (pr_point pm)) by lia.
  etransitivity; [|symmetry; exact Hp]. by destruct pm.
Qed.

Lemma build_wf (dims fuel : nat) (arr : list PointRec) (depth : nat) :
  (0 < dims)%nat -> seg_ok dims arr -> kd_wf dims (build_balanced_rec fuel arr depth dims).
Proof.
  intros Hd. revert arr depth. induction fuel as [|fuel IH]; intros arr depth Hok; [done|].
  destruct arr as [|a arr']; [done|]. set (arr := a :: arr') in *.
  destruct (build_split arr (Z.of_nat (depth mod dims))) as (pm & Hpm & Hp & _); [done|].
  cbn [build_balanced_rec]. fold arr. subst arr. cbv beta match.
  rewrite Hpm. set (arr := a :: arr') in *.
  apply kd_wf_pullup; auto.
  - rewrite length_take, (Hok pm); [lia|]. rewrite Hp. set_solver.
  - pose proof (Nat.mod_upper_bound depth dims). lia.
  - apply IH. intros q Hq. apply Hok. rewrite Hp. set_solver.
  - apply IH. intros q Hq. apply Hok. rewrite Hp. set_solver.
Qed.

Lemma build_ordered (dims fuel : nat) (arr : list PointRec) (depth : nat) :
  (length arr <= fuel)%nat -> seg_ok dims arr ->
  (forall q, q ∈ arr -> point_num (pr_point q)) ->
  kd_ordered (build_balanced_rec fuel arr depth dims).
Proof.
  revert arr depth. induction fuel as [|fuel IH]; intros arr depth Hf Hok Hnum; [done|].
  destruct arr as [|a arr']; [done|]. set (arr := a :: arr') in *.
  set (ax := Z.of_nat (depth mod dims)) in *.
  destruct (build_split arr ax) as (pm & Hpm & Hp & Hll & Hlr); [done|].
  pose proof (qsort_sorted _ _ _ (pointrec_cmp_consistent ax arr Hnum)) as Hs.
  cbn [build_balanced_rec]. fold arr ax. subst arr. cbv beta match.
  rewrite Hpm, kd_ordered_pullup. set (arr := a :: arr') in *.
  set (s := qsort (pointrec_cmp ax) arr) in *.
  assert (Hlen : (0 < length arr)%nat) by (simpl; lia).
  assert (Hhalf : (length arr / 2 < length arr)%nat) by (apply Nat.div_lt; lia).
  assert (Hin : forall q, q ∈ take (length arr / 2) s \/ q = pm
                          \/ q ∈ drop (S (length arr / 2)) s -> q ∈ arr).
  { intros q Hq. rewrite Hp. set_solver. }
  rewrite <- (take_drop_middle s _ pm Hpm) in Hs.
  apply StronglySorted_app in Hs as (Hlr' & _ & Hs2).
  inversion_clear Hs2 as [|? ? _ Hpr]. rewrite Forall_forall in Hpr.
  assert (Hc : coord (take dims (pr_point pm)) ax = coord (pr_point pm) ax).
  { rewrite take_ge; [done|]. rewrite (Hok pm); auto. }
  assert (HL : seg_ok dims (take (length arr / 2) s)) by (intros ? ?; apply Hok; auto).
  assert (HR : seg_ok dims (drop (S (length arr / 2)) s)) by (intros ? ?; apply Hok; auto).
  cbn [kd_ordered]. rewrite Hc. split; [|split; [|split]].
  - intros q Hq.
    rewrite (proj1 (build_rows dims fuel _ (S depth) ltac:(rewrite Hll; simpl in *; lia) HL)) in Hq.
    apply pointrec_cmp_le; auto. apply Hlr'; set_solver.
  - intros q Hq.
    rewrite (proj1 (build_rows dims fuel _ (S depth) ltac:(rewrite Hlr; simpl in *; lia) HR)) in Hq.
    apply pointrec_cmp_le; auto.
  - apply IH; [lia|intros ? ?; apply Hok; auto|auto].
  - apply IH; [lia|intros ? ?; apply Hok; auto|auto].
Qed.

(** Rebuilding yields logarithmic height. *)
Lemma build_height (dims fuel : nat) (arr : list PointRec) (depth : nat) :
  arr <> [] -> (kd_height (build_balanced_rec fuel arr depth dims) <= S (Nat.log2 (length arr)))%nat.
Proof.
  revert arr depth. induction fuel as [|fuel IH]; intros arr depth Hne; [simpl; lia|].
  destruct arr as [|a arr']; [done|]. set (arr := a :: arr') in *.
  destruct (build_split arr (Z.of_nat (depth mod dims))) as (pm & Hpm & _ & Hll & Hlr); [done|].
  cbn [build_balanced_rec]. fold arr. subst arr. cbv beta match.
  rewrite Hpm. set (arr := a :: arr') in *. cbn [pullup kd_height].
  assert (Hstep : forall sub, (length sub <= length arr / 2)%nat ->
    (kd_height (build_balanced_rec fuel sub (S depth) dims) <= Nat.log2 (length arr))%nat).
  { intros sub Hsub. destruct sub as [|b sub'].
    { destruct fuel; simpl; lia. }
    etransitivity; [by apply IH|].
    assert (H2 : (2 <= length arr)%nat).
    { cbn [length] in Hsub. destruct (decide (length arr < 2)%nat) as [Hlt|]; [|lia].
      rewrite (Nat.div_small _ 2 Hlt) in Hsub. lia. }
    pose proof (Nat.log2_le_mono _ _ Hsub).
    pose proof (Nat.log2_double (length arr / 2)).
    pose proof (Nat.Div0.mul_div_le (length arr) 2).
    assert ((0 < length arr / 2)%nat) by (cbn [length] in Hsub; lia).
    pose proof (Nat.log2_le_mono (2 * (length arr / 2)) (length arr)). lia. }
  apply le_n_S, Nat.max_lub; apply Hstep; [lia|].
  pose proof (Nat.div_mod_eq (length arr) 2). pose proof (Nat.mod_upper_bound (length arr) 2). lia.
Qed.

End RebuildLemmas.

(** ** Operations *)

Section Operations.
Context `{QSort}.

Lemma rebuild_spec (dims : nat) (n : KDNode) :
  (0 < dims)%nat -> kd_wf dims n ->
  kd_wf dims (rebuild_subtree n dims) /\
  kd_live (rebuild_subtree n dims) ≡ₚ kd_live n /\
  kd_rows (rebuild_subtree n dims) = kd_live (rebuild_subtree n dims) /\
  (kd_num n -> kd_ordered (rebuild_subtree n dims)).
Proof.
  intros Hd Hwf. destruct n as [|p r ax s del inv l rt]; [done|].
  unfold rebuild_subtree. set (n := kd_node _ _ _ _ _ _ _ _) in *.
  rewrite collect_valid_live by done. unfold build_balanced.
  assert (Hseg : seg_ok dims (kd_live n)).
  { intros q Hq. eapply kd_wf_rows_length; [done|]. by apply kd_live_rows. }
  destruct (build_rows dims (length (kd_live n)) (kd_live n) 0) as [H1 H2]; auto.
  rewrite H2. split; [by apply build_wf|]. split; [done|]. split; [done|].
  intros Hnum. apply build_ordered; auto. intros q Hq. by apply Hnum, kd_live_rows.
Qed.

(** What a maintenance step that may rebuild preserves. *)
Lemma maybe_rebuild_spec (dims : nat) (b : bool) (n : KDNode) :
  (0 < dims)%nat -> kd_wf dims n ->
  let n' := if b then rebuild_subtree n dims else n in
  kd_wf dims n' /\ kd_live n' ≡ₚ kd_live n /\
  (forall q, q ∈ kd_rows n' -> q ∈ kd_rows n) /\
  (kd_num n -> kd_ordered n -> kd_ordered n').
Proof.
  intros Hd Hwf. destruct b; simpl; [|by auto].
  destruct (rebuild_spec dims n Hd Hwf) as (H1 & H2 & H3 & H4).
  split; [done|]. split; [done|]. split; [|auto].
  intros q. rewrite H3, H2. apply kd_live_rows.
Qed.

Lemma kdtree_insert_rec_spec (dims : nat) (t : KDNode) (point : list f32) (rowid : Z) (depth : nat) :
  (0 < dims)%nat -> length point = dims -> kd_wf dims t ->
  let t' := kdtree_insert_rec t point rowid depth dims in
  kd_wf dims t' /\ kd_live t' ≡ₚ MkPoint point rowid :: kd_live t /\
  (forall q, q ∈ kd_rows t' -> q = MkPoint point rowid \/ q ∈ kd_rows t) /\
  (kd_num t -> point_num point -> kd_ordered t -> kd_ordered t').
Proof.
  intros Hd Hp. revert depth.
  induction t as [|p r ax s del inv l IHl rt IHr]; intros depth Hwf.
  { cbn [kdtree_insert_rec]. pose proof (Nat.mod_upper_bound depth dims).
    rewrite take_ge by lia. repeat split; simpl; auto; try lia; try set_solver. }
  cbn [kdtree_insert_rec].
  destruct Hwf as (Hlp & Hax & Hdel & Hs & Hinv & Hl & Hr).
  destruct (IHl (S depth) Hl) as (WL & LL & RL & OL).
  destruct (IHr (S depth) Hr) as (WR & LR & RR & OR).
  set (n' := pullup _).
  assert (Hn' : kd_wf dims n' /\ kd_live n' ≡ₚ MkPoint point rowid :: kd_live (kd_node p r ax s del inv l rt)
    /\ (forall q, q ∈ kd_rows n' -> q = MkPoint point rowid \/ q ∈ kd_rows (kd_node p r ax s del inv l rt))
    /\ (kd_num (kd_node p r ax s del inv l rt) -> point_num point ->
        kd_ordered (kd_node p r ax s del inv l rt) -> kd_ordered n')).
  { subst n'. destruct (f32_ltb (coord point ax) (coord p ax)) eqn:E; autorewrite with kd;
      (split; [by apply kd_wf_pullup|]); cbn [kd_live kd_rows].
    - split; [by rewrite LL|]. split; [intros q; specialize (RL q); set_solver|].
      intros Hnum Hpn (O1 & O2 & O3 & O4). cbn [kd_ordered]. split; [|split; [done|split]].
      + intros q [->|Hq]%RL; [by apply f32_ltb_leb|auto].
      + apply OL; auto. intros q Hq. apply Hnum. cbn [kd_rows]. set_solver.
      + done.
    - split; [rewrite LR; by rewrite !Permutation_middle|].
      split; [intros q; specialize (RR q); set_solver|].
      intros Hnum Hpn (O1 & O2 & O3 & O4). cbn [kd_ordered]. split; [done|]. split; [|split].
      + intros q [->|Hq]%RR; [|auto].
        apply f32_nlt_leb; auto using coord_num. apply coord_num.
        apply (Hnum (MkPoint p r)). cbn [kd_rows]. set_solver.
      + done.
      + apply OR; auto. intros q Hq. apply Hnum. cbn [kd_rows]. set_solver. }
  clearbody n'. destruct Hn' as (W & L & R & O).
  destruct (maybe_rebuild_spec dims (is_unbalanced n' || too_many_deleted n') n' Hd W)
    as (W' & L' & R' & O').
  split; [done|]. split; [by rewrite L'|]. split; [auto|].
  intros Hnum Hpn Hord. apply O'; auto.
  intros q [->|Hq]%R; auto.
Qed.

Lemma kdtree_delete_rec_spec (dims : nat) (t : KDNode) (rowid : Z) (depth : nat) :
  (0 < dims)%nat -> kd_wf dims t ->
  let t' := kdtree_delete_rec t rowid depth dims in
  kd_wf dims t' /\
  (forall q, q ∈ kd_rows t' -> q ∈ kd_rows t) /\
  (kd_num t -> kd_ordered t -> kd_ordered t').
Proof.
  intros Hd. revert depth.
  induction t as [|p r ax s del inv l IHl rt IHr]; intros depth Hwf; [done|].
  cbn [kdtree_delete_rec].
  destruct Hwf as (Hlp & Hax & Hdel & Hs & Hinv & Hl & Hr).
  destruct (r =? rowid).
  - set (n' := pullup _).
    assert (W : kd_wf dims n').
    { apply kd_wf_pullup; auto. destruct (is_deleted del); auto. }
    destruct (maybe_rebuild_spec dims (too_many_deleted n') n' Hd W) as (W' & _ & R' & O').
    split; [done|]. split; [exact R'|]. intros Hn Ho. apply O'; auto.
  - destruct (IHl (S depth) Hl) as (WL & RL & OL).
    destruct (IHr (S depth) Hr) as (WR & RR & OR).
    set (n' := pullup _).
    assert (W : kd_wf dims n') by (by apply kd_wf_pullup).
    assert (R : forall q, q ∈ kd_rows n' -> q ∈ kd_rows (kd_node p r ax s del inv l rt)).
    { intros q. subst n'. autorewrite with kd. cbn [kd_rows].
      specialize (RL q). specialize (RR q). set_solver. }
    destruct (maybe_rebuild_spec dims (is_unbalanced n' || too_many_deleted n') n' Hd W)
      as (W' & _ & R' & O').
    split; [done|]. split; [auto|].
    intros Hnum (O1 & O2 & O3 & O4). apply O'; [intros q Hq; auto|].
    subst n'. autorewrite with kd. cbn [kd_ordered].
    assert (Hnl : kd_num l) by (intros q Hq; apply Hnum; cbn [kd_rows]; set_solver).
    assert (Hnr : kd_num rt) by (intros q Hq; apply Hnum; cbn [kd_rows]; set_solver).
    repeat split; auto.
Qed.

(** The rowids stored in a tree, tombstones included. *)
Definition kd_rowids (t : KDNode) : list Z := pr_rowid <$> kd_rows t.

Lemma kd_rowids_node p r ax s del inv l rt :
  kd_rowids (kd_node p r ax s del inv l rt) = kd_rowids l ++ r :: kd_rowids rt.
Proof. unfold kd_rowids. cbn [kd_rows]. by rewrite fmap_app. Qed.

Lemma kd_live_rowid (t : KDNode) (q : PointRec) : q ∈ kd_live t -> pr_rowid q ∈ kd_rowids t.
Proof. intros Hq%kd_live_rows. by apply list_elem_of_fmap_2. Qed.

Lemma filter_rowid_notin (t : KDNode) (rowid : Z) :
  rowid ∉ kd_rowids t -> filter (fun q => pr_rowid q <> rowid) (kd_live t) = kd_live t.
Proof.
  intros Hn. apply filter_keeps_all. intros q Hq <-. by apply Hn, kd_live_rowid.
Qed.

(** Deletion removes exactly the row, when no rowid is stored twice. *)
Lemma kdtree_delete_rec_live (dims : nat) (t : KDNode) (rowid : Z) (depth : nat) :
  (0 < dims)%nat -> kd_wf dims t -> NoDup (kd_rowids t) ->
  kd_live (kdtree_delete_rec t rowid depth dims)
  ≡ₚ filter (fun q => pr_rowid q <> rowid) (kd_live t).
Proof.
  intros Hd. revert depth.
  induction t as [|p r ax s del inv l IHl rt IHr]; intros depth Hwf Hnd; [done|].
  cbn [kdtree_delete_rec].
  destruct Hwf as (Hlp & Hax & Hdel & Hs & Hinv & Hl & Hr).
  rewrite kd_rowids_node in Hnd. apply NoDup_app in Hnd as (HNl & Hdis & HNr).
  apply NoDup_cons in HNr as (Hrr & HNr).
  cbn [kd_live]. rewrite !filter_app.
  destruct (Z.eqb_spec r rowid) as [->|Hne].
  - set (n' := pullup _).
    assert (W : kd_wf dims n').
    { apply kd_wf_pullup; auto. destruct (is_deleted del); auto. }
    destruct (maybe_rebuild_spec dims (too_many_deleted n') n' Hd W) as (_ & -> & _).
    subst n'. autorewrite with kd. cbn [kd_live].
    assert (Hx : is_deleted (if is_deleted del then del else 1) = true).
    { by destruct (is_deleted del) eqn:E. }
    rewrite Hx, (filter_rowid_notin l), (filter_rowid_notin rt) by (auto; set_solver).
    destruct (is_deleted del); [done|]. rewrite filter_cons_False; [done|]. simpl. tauto.
  - set (n' := pullup _).
    assert (W : kd_wf dims n').
    { apply kd_wf_pullup; auto; by apply kdtree_delete_rec_spec. }
    destruct (maybe_rebuild_spec dims (is_unbalanced n' || too_many_deleted n') n' Hd W)
      as (_ & -> & _).
    subst n'. autorewrite with kd. cbn [kd_live].
    rewrite IHl, IHr by done. f_equiv. f_equiv.
    destruct (is_deleted del); [done|]. by rewrite filter_cons_True.
Qed.

(** Lookup by rowid returns a live row's vector, and fails only when there is
    none. *)
Lemma kdtree_find_vector_spec (t : KDNode) (rowid : Z) :
  match kdtree_find_vector_by_rowid_rec t rowid with
  | Some p => MkPoint p rowid ∈ kd_live t
  | None => forall q, q ∈ kd_live t -> pr_rowid q <> rowid
  end.
Proof.
  induction t as [|p r ax s del inv l IHl rt IHr]; cbn [kdtree_find_vector_by_rowid_rec kd_live].
  { intros q Hq. by apply elem_of_nil in Hq. }
  destruct (is_deleted del) eqn:Ed; cbn [negb andb];
    [|destruct (Z.eqb_spec r rowid) as [->|]; [set_solver|]].
  all: destruct (kdtree_find_vector_by_rowid_rec l rowid); [set_solver|].
  all: destruct (kdtree_find_vector_by_rowid_rec rt rowid); [set_solver|].
  all: intros q; rewrite !elem_of_app; intros [?|[?|?]]; auto.
  - set_solver.
  - by apply list_elem_of_singleton in H0 as ->.
Qed.

End Operations.

(** ** Correctness of the tree operations *)

Section Claims.
Context `{QSort}.

(** Invariant of an index: exact counters, KD order, no NaN coordinate. *)
Definition kdtree_inv (tree : KDTree) : Prop :=
  (0 < kt_dimensions tree)%nat /\ kd_wf (kt_dimensions tree) (kt_root tree) /\
  kd_num (kt_root tree) /\ kd_ordered (kt_root tree).

Lemma kdtree_insert_spec (tree : KDTree) (point : list f32) (rowid : Z) :
  kdtree_inv tree -> length point = kt_dimensions tree -> point_num point ->
  exists tree',
    kdtree_insert tree point rowid (kt_dimensions tree) = (SQLITE_OK, tree') /\
    kdtree_inv tree' /\
    kd_live (kt_root tree') ≡ₚ MkPoint point rowid :: kd_live (kt_root tree) /\
    kt_size tree' = kt_size tree + 1 /\ kt_dimensions tree' = kt_dimensions tree.
Proof.
  intros (Hd & Hwf & Hnum & Hord) Hp Hpn.
  destruct (kdtree_insert_rec_spec _ (kt_root tree) point rowid 0 Hd Hp Hwf) as (W & L & R & O).
  unfold kdtree_insert. set (t' := kdtree_insert_rec _ _ _ _ _) in *.
  exists (MkKDTree t' (kt_dimensions tree) (kt_size tree + 1)). split.
  { destruct t'; [|done]. apply Permutation_length in L. simpl in L. lia. }
  split; [|done]. split; [done|]. split; [done|]. split; [|by apply O].
  intros q [->|Hq]%R; auto.
Qed.

Lemma kdtree_delete_spec (tree : KDTree) (rowid : Z) :
  kdtree_inv tree -> kt_root tree <> kd_null -> in_i32 rowid ->
  NoDup (kd_rowids (kt_root tree)) ->
  exists tree',
    kdtree_delete tree rowid = (SQLITE_OK, tree') /\ kdtree_inv tree' /\
    kd_live (kt_root tree')
    ≡ₚ filter (fun q => pr_rowid q <> rowid) (kd_live (kt_root tree)) /\ kt_dimensions tree' = kt_dimensions tree.
Proof.
  intros (Hd & Hwf & Hnum & Hord) Hne Hr Hnd. unfold kdtree_delete.
  rewrite to_i32_id by done.
  destruct (kdtree_delete_rec_spec _ (kt_root tree) rowid 0 Hd Hwf) as (W & R & O).
  pose proof (kdtree_delete_rec_live _ _ rowid 0 Hd Hwf Hnd) as L.
  destruct (kt_root tree) as [|p r ax s del inv l rt] eqn:E; [done|].
  eexists. split; [done|]. split; [|split; [exact L|done]].
  split; [done|]. split; [exact W|]. split; [|by apply O]. intros q Hq. by apply Hnum, R.
Qed.

(** C27: inserting a vector succeeds, adds exactly that row to the live rows
    of the index and preserves its invariant. *)
Theorem kdtree_insert_correct (tree : KDTree) (point : list f32) (rowid : Z) :
  kdtree_inv tree -> length point = kt_dimensions tree -> point_num point ->
  exists tree',
    kdtree_insert tree point rowid (kt_dimensions tree) = (SQLITE_OK, tree') /\
    kdtree_inv tree' /\
    kd_live (kt_root tree') ≡ₚ MkPoint point rowid :: kd_live (kt_root tree) /\
    kt_size tree' = kt_size tree + 1.
Proof.
  intros Hi Hp Hn. destruct (kdtree_insert_spec tree point rowid Hi Hp Hn) as (t & ? & ? & ? & ? & _). eauto.
Qed.

(** C28: deleting a rowid succeeds on a non-empty index, removes exactly that
    row from the live rows when no rowid is stored twice, and preserves the
    invariant. *)
Theorem kdtree_delete_correct (tree : KDTree) (rowid : Z) :
  kdtree_inv tree -> kt_root tree <> kd_null -> in_i32 rowid ->
  NoDup (kd_rowids (kt_root tree)) ->
  exists tree',
    kdtree_delete tree rowid = (SQLITE_OK, tree') /\ kdtree_inv tree' /\
    kd_live (kt_root tree')
    ≡ₚ filter (fun q => pr_rowid q <> rowid) (kd_live (kt_root tree)).
Proof.
  intros Hi Hne Hr Hd. destruct (kdtree_delete_spec tree rowid Hi Hne Hr Hd) as (t & ? & ? & ? & _). eauto.
Qed.

(** rebuilding a subtree keeps its live rows, drops every tombstone,
    restores the KD order and gives a tree whose height is at most
    [log2 n + 1] for [n] live rows. *)
Lemma rebuild_subtree_correct (dims : nat) (n : KDNode) :
  (0 < dims)%nat -> kd_wf dims n -> kd_num n ->
  let n' := rebuild_subtree n dims in
  kd_wf dims n' /\ kd_live n' ≡ₚ kd_live n /\ kd_rows n' = kd_live n' /\
  node_invalid n' = 0 /\ kd_ordered n' /\
  (kd_live n <> [] -> (kd_height n' <= S (Nat.log2 (length (kd_live n))))%nat).
Proof.
  intros Hd Hwf Hnum. destruct (rebuild_spec dims n Hd Hwf) as (W & L & R & O).
  split; [done|]. split; [done|]. split; [done|].
  split; [rewrite (kd_wf_invalid dims) by done; rewrite R; lia|]. split; [auto|].
  intros Hne. destruct n; [done|]. unfold rebuild_subtree, build_balanced.
  rewrite collect_valid_live by done. by apply build_height.
Qed.

(** after an insertion of a rowid that has no live row, looking the
    rowid up returns the inserted vector. *)
Lemma kdtree_insert_find (tree : KDTree) (point : list f32) (rowid : Z) :
  kdtree_inv tree -> length point = kt_dimensions tree ->
  (forall q, q ∈ kd_live (kt_root tree) -> pr_rowid q <> rowid) ->
  kdtree_find_vector_by_rowid (kdtree_insert tree point rowid (kt_dimensions tree)).2 rowid
  = Some point.
Proof.
  intros (Hd & Hwf & _) Hp Hfresh. unfold kdtree_insert.
  destruct (kdtree_insert_rec_spec _ (kt_root tree) point rowid 0 Hd Hp Hwf) as (_ & L & _).
  set (t' := kdtree_insert_rec _ _ _ _ _) in *.
  assert (Hfind : kdtree_find_vector_by_rowid_rec t' rowid = Some point).
  { pose proof (kdtree_find_vector_spec t' rowid) as Hf.
    destruct (kdtree_find_vector_by_rowid_rec t' rowid) as [p|].
    - rewrite L in Hf. apply elem_of_cons in Hf as [[= ->]|Hf]; [done|].
      by destruct (Hfresh _ Hf).
    - exfalso. apply (Hf (MkPoint point rowid)); [|done]. rewrite L. set_solver. }
  by destruct t'.
Qed.

End Claims.

(** ** Concrete instances

    The invariant is decidable, so hypotheses are checked on a small index
    by evaluation. *)

#[global] Instance kd_wf_dec (dims : nat) (n : KDNode) : Decision (kd_wf dims n).
Proof. induction n; simpl; apply _. Defined.

#[global] Instance kd_ordered_dec (n : KDNode) : Decision (kd_ordered n).
Proof. induction n; simpl; apply _. Defined.

#[global] Instance point_num_dec (p : list f32) : Decision (point_num p).
Proof. unfold point_num. apply _. Defined.

#[global] Instance kd_num_dec (n : KDNode) : Decision (kd_num n).
Proof. unfold kd_num. apply _. Defined.

#[global] Instance kdtree_inv_dec (tree : KDTree) : Decision (kdtree_inv tree).
Proof. unfold kdtree_inv. apply _. Defined.

(** An index on the line holding the given coordinates under rowids 1, 2, ... *)
Definition line_index (l : list Z) : KDTree :=
  foldl (fun t x => (kdtree_insert t [f32_of_Z x] (kt_size t + 1) 1).2)
    (MkKDTree kd_null 1 0) l.

Lemma kdtree_insert_correct_witness :
  exists tree', kdtree_insert (line_index [4; -10; 5]) [f32_of_Z 2] 9 1 = (SQLITE_OK, tree').
Proof.
  destruct (kdtree_insert_correct (line_index [4; -10; 5]) [f32_of_Z 2] 9) as (t & Ht & _);
    [by_compute|vm_compute; reflexivity|by_compute|].
  exists t. exact Ht.
Defined.

Lemma kdtree_delete_correct_witness :
  exists tree', kdtree_delete (line_index [4; -10; 5; 7]) 2 = (SQLITE_OK, tree') /\
    kd_live (kt_root tree')
    ≡ₚ filter (fun q => pr_rowid q <> 2) (kd_live (kt_root (line_index [4; -10; 5; 7]))).
Proof.
  destruct (kdtree_delete_correct (line_index [4; -10; 5; 7]) 2) as (t & Ht & _ & Hl);
    [by_compute|by vm_compute|unfold in_i32; lia|by_compute|].
  exists t. split; [exact Ht|exact Hl].
Defined.

Lemma rebuild_subtree_correct_witness :
  kd_live (rebuild_subtree (kt_root (line_index [4; -10; 5; 7])) 1)
  ≡ₚ kd_live (kt_root (line_index [4; -10; 5; 7])).
Proof.
  destruct (rebuild_subtree_correct 1 (kt_root (line_index [4; -10; 5; 7]))) as (_ & Hl & _);
    [lia|by_compute|by_compute|exact Hl].
Defined.

Lemma kdtree_insert_find_witness :
  kdtree_find_vector_by_rowid
    (kdtree_insert (line_index [4; -10; 5]) [f32_of_Z 2] 9 1).2 9 = Some [f32_of_Z 2].
Proof.
  apply (kdtree_insert_find (line_index [4; -10; 5]) [f32_of_Z 2] 9);
    [by_compute|vm_compute; reflexivity|by_compute].
Defined.

(** An update followed by a delete of the same rowid can leave the row
    live: the update tombstones the old node and inserts a new one below it,
    and the delete stops at the first node carrying the rowid, which is the
    tombstone. *)
Theorem kdtree_delete_after_update_keeps_row :
  let t0 := line_index [10; 5; 15; 12; 20] in
  let '(rc1, t1) := kdtree_update t0 1 [f32_of_Z 14] 1 in
  let '(rc2, t2) := kdtree_delete t1 1 in
  NoDup (kd_rowids (kt_root t0)) /\ rc1 = SQLITE_OK /\ rc2 = SQLITE_OK /\
  kdtree_find_vector_by_rowid t2 1 = Some [f32_of_Z 14].
Proof.
  vm_compute. split; [by_compute|]. repeat split; reflexivity.
Qed.
