(* ===== verification/KDSearch.v ===== *)
(** * K-nearest-neighbour search in the KD-tree

    [kdtree_search_topk_rec] visits the near subtree first and enters the far
    one only if the squared coordinate difference to the splitting plane is
    below the largest distance kept.  The pruning test is right exactly when
    that squared difference bounds the distances of the far rows from below
    ([admissible]); then the search returns the k nearest live rows that
    pass the filter.  Without that hypothesis the result still only contains
    live rows that pass the filter, with their distances. *)

From stdpp Require Import base list numbers sets sorting.
From Stdlib Require Import ZArith Lia SpecFloat.
From S2P Require Import Prelude Float32 TopK CLib Distance KDTree.

Local Open Scope Z_scope.

(** [typedef double ( *DistanceFunc)(a, b, &dims)], its result converted to
    [float] as every caller does. *)
Definition DistanceFunc : Type := list f32 -> list f32 -> nat -> f32.

Section Search.
Context (distfunc : DistanceFunc) (map : RowidMap) (query : list f32) (dims k : nat).

Fixpoint kdtree_search_topk_rec (node : KDNode) (buf : topk_buf) : topk_buf :=
  match node with
  | kd_null => buf
  | kd_node p r axis _ del _ l rt =>
      let buf :=
        if is_deleted del then buf
        else
          let dist2 := distfunc query p dims in
          if rowid_map_pass map r then topk_insert buf k r dist2 else buf in
      let goleft := f32_ltb (coord query axis) (coord p axis) in
      let buf := if goleft then kdtree_search_topk_rec l buf
                 else kdtree_search_topk_rec rt buf in
      let diff := f32_sub (coord query axis) (coord p axis) in
      let maxDist2 := if (tk_used buf =? k)%nat then (buf_max buf k).2 else FLT_MAX in
      if f32_ltb (f32_mul diff diff) maxDist2 then
        if goleft then kdtree_search_topk_rec rt buf else kdtree_search_topk_rec l buf
      else buf
  end.

(** The pruning bound holds for the live rows on the far side of every node. *)
Fixpoint admissible (node : KDNode) : bool :=
  match node with
  | kd_null => true
  | kd_node p _ axis _ _ _ l rt =>
      let far := if f32_ltb (coord query axis) (coord p axis) then rt else l in
      let diff := f32_sub (coord query axis) (coord p axis) in
      f32_ltb (f32_mul diff diff) FLT_MAX
      && forallb (fun q => f32_leb (f32_mul diff diff) (distfunc query (pr_point q) dims))
           (kd_live far)
      && admissible l && admissible rt
  end.

(** What a search over a subtree may return: distance and rowid of the live
    rows that pass the filter. *)
Definition candidates (node : KDNode) : list (f32 * Z) :=
  (fun q => (distfunc query (pr_point q) dims, pr_rowid q))
    <$> filter (fun q => rowid_map_pass map (pr_rowid q) = true) (kd_live node).

Lemma candidates_node p r axis s del inv l rt :
  candidates (kd_node p r axis s del inv l rt) =
  candidates l
    ++ (if is_deleted del then [] else
        if rowid_map_pass map r then [(distfunc query p dims, r)] else [])
    ++ candidates rt.
Proof.
  unfold candidates. cbn [kd_live]. rewrite !filter_app, !fmap_app. f_equal. f_equal.
  destruct (is_deleted del); [done|].
  destruct (rowid_map_pass map r) eqn:E;
    [rewrite filter_cons_True by done|rewrite filter_cons_False by (simpl; congruence)]; done.
Qed.

Lemma elem_of_candidates (node : KDNode) (y : f32 * Z) :
  y ∈ candidates node <->
  exists q, q ∈ kd_live node /\ rowid_map_pass map (pr_rowid q) = true /\
            y = (distfunc query (pr_point q) dims, pr_rowid q).
Proof.
  unfold candidates. rewrite list_elem_of_fmap. setoid_rewrite list_elem_of_filter.
  naive_solver.
Qed.

Lemma search_wf (node : KDNode) (buf : topk_buf) :
  buf_wf k buf -> buf_wf k (kdtree_search_topk_rec node buf).
Proof.
  revert buf. induction node as [|p r ax s del inv l IHl rt IHr]; intros buf Hwf; [done|].
  cbn [kdtree_search_topk_rec].
  set (b1 := if is_deleted del then buf else _).
  assert (buf_wf k b1).
  { subst b1. destruct (is_deleted del); [done|]. destruct (rowid_map_pass map r); [|done].
    by apply topk_insert_wf. }
  destruct (f32_ltb (coord query ax) (coord p ax)); destruct (f32_ltb _ _); auto.
Qed.

Lemma search_sound (node : KDNode) (buf : topk_buf) (y : f32 * Z) :
  buf_wf k buf -> y ∈ buf_rows (kdtree_search_topk_rec node buf) ->
  y ∈ candidates node \/ y ∈ buf_rows buf.
Proof.
  revert buf. induction node as [|p r ax s del inv l IHl rt IHr]; intros buf Hwf; [tauto|].
  cbn [kdtree_search_topk_rec]. rewrite candidates_node, !elem_of_app.
  set (b1 := if is_deleted del then buf else _).
  set (self := if is_deleted del then _ else _).
  assert (Hwf1 : buf_wf k b1).
  { subst b1. destruct (is_deleted del); [done|]. destruct (rowid_map_pass map r); [|done].
    by apply topk_insert_wf. }
  assert (Hb1 : y ∈ buf_rows b1 -> y ∈ self \/ y ∈ buf_rows buf).
  { subst b1 self. destruct (is_deleted del); [tauto|]. destruct (rowid_map_pass map r); [|tauto].
    intros [->|?]%topk_insert_sound; [left; by apply list_elem_of_singleton|by right|done]. }
  pose proof (search_wf l b1 Hwf1). pose proof (search_wf rt b1 Hwf1).
  destruct (f32_ltb (coord query ax) (coord p ax)); destruct (f32_ltb _ _).
  - intros [?|[?|?]%IHl]%IHr; auto; tauto.
  - intros [?|?]%IHl; auto; tauto.
  - intros [?|[?|?]%IHr]%IHl; auto; tauto.
  - intros [?|?]%IHr; auto; tauto.
Qed.

(** Skipping a far subtree loses nothing. *)
Lemma prune_topk (far : KDNode) (buf : topk_buf) (cands : list (f32 * Z)) (d2 : f32) :
  (0 < k)%nat -> buf_wf k buf -> all_num fst cands ->
  f32_ltb d2 FLT_MAX = true ->
  (forall q, q ∈ kd_live far -> f32_leb d2 (distfunc query (pr_point q) dims) = true) ->
  f32_ltb d2 (if (tk_used buf =? k)%nat then (buf_max buf k).2 else FLT_MAX) = false ->
  topk_of fst k cands (buf_rows buf) ->
  topk_of fst k (candidates far ++ cands) (buf_rows buf).
Proof.
  intros Hk Hwf Hnum Hfin Hadm Hprune Htop.
  destruct (Nat.eqb_spec (tk_used buf) k) as [Hu|]; [|congruence].
  pose proof (buf_max_spec k buf Hk Hu (all_num_topk _ _ _ _ Htop Hnum)) as Hmax.
  destruct (buf_max buf k) as [mi md]. destruct Hmax as (_ & Hmd & Hall). cbn [snd] in Hprune.
  apply topk_of_add_worse_list; [done|by rewrite length_buf_rows|].
  intros y x Hy (q & Hq & _ & ->)%elem_of_candidates. unfold le_by. cbn [fst].
  apply f32_ltb_not_nan in Hfin as [Hd2 _].
  eapply f32_leb_trans; [by apply Hall|]. eapply f32_leb_trans; [|by apply Hadm].
  by apply f32_nlt_leb.
Qed.

(** The far side, entered or pruned. *)
Lemma far_topk (far : KDNode) (buf : topk_buf) (cands : list (f32 * Z)) (d2 : f32) :
  (forall buf, buf_wf k buf -> topk_of fst k cands (buf_rows buf) ->
     topk_of fst k (candidates far ++ cands) (buf_rows (kdtree_search_topk_rec far buf))) ->
  (0 < k)%nat -> buf_wf k buf -> all_num fst cands ->
  f32_ltb d2 FLT_MAX = true ->
  (forall q, q ∈ kd_live far -> f32_leb d2 (distfunc query (pr_point q) dims) = true) ->
  topk_of fst k cands (buf_rows buf) ->
  topk_of fst k (candidates far ++ cands)
    (buf_rows (if f32_ltb d2 (if (tk_used buf =? k)%nat then (buf_max buf k).2 else FLT_MAX)
               then kdtree_search_topk_rec far buf else buf)).
Proof.
  intros Hrec Hk Hwf Hnum Hfin Hfar Htop.
  match goal with |- context [if ?b then kdtree_search_topk_rec far buf else _] =>
    destruct b eqn:E end; [by apply Hrec|].
  by eapply prune_topk.
Qed.

(** Visiting a subtree (near, then far unless pruned) adds its candidates to
    the selection. *)
Lemma search_topk (node : KDNode) (buf : topk_buf) (cands : list (f32 * Z)) :
  (0 < k)%nat -> buf_wf k buf -> admissible node = true ->
  all_num fst (candidates node ++ cands) ->
  topk_of fst k cands (buf_rows buf) ->
  topk_of fst k (candidates node ++ cands) (buf_rows (kdtree_search_topk_rec node buf)).
Proof.
  intros Hk. revert buf cands.
  induction node as [|p r ax s del inv l IHl rt IHr]; intros buf cands Hwf Hadm Hnum Htop; [done|].
  cbn [kdtree_search_topk_rec]. cbn [admissible] in Hadm.
  apply andb_prop in Hadm as [Hadm Har]. apply andb_prop in Hadm as [Hadm Hal].
  apply andb_prop in Hadm as [Hfin Hfar]. rewrite forallb_forall in Hfar.
  setoid_rewrite <- list_elem_of_In in Hfar.
  rewrite candidates_node in *.
  set (self := if is_deleted del then _ else _) in *.
  set (b1 := if is_deleted del then buf else _).
  rewrite <- !app_assoc in *.
  apply all_num_app in Hnum as (Nl & (Ns & (Nr & Nc)%all_num_app)%all_num_app).
  assert (H1 : buf_wf k b1 /\ topk_of fst k (self ++ cands) (buf_rows b1)).
  { subst b1 self. destruct (is_deleted del); [done|].
    destruct (rowid_map_pass map r); [|done].
    split; [by apply topk_insert_wf|]. simpl. apply topk_insert_topk; auto.
    apply all_num_cons. apply all_num_cons in Ns. tauto. }
  clearbody b1. destruct H1 as [Hwf1 Htop1].
  assert (Nsc : all_num fst (self ++ cands)) by (by apply all_num_app).
  assert (Nls : all_num fst (candidates l ++ self ++ cands)) by (by apply all_num_app).
  assert (Nrs : all_num fst (candidates rt ++ self ++ cands)) by (by apply all_num_app).
  destruct (f32_ltb (coord query ax) (coord p ax)).
  - eapply topk_of_Permutation with
      (c := candidates rt ++ candidates l ++ self ++ cands); [|reflexivity|].
    { rewrite (Permutation_app_comm (candidates rt)), <- !app_assoc. do 2 f_equiv.
      apply Permutation_app_comm. }
    apply far_topk; auto using search_wf.
    intros b Hb Ht. apply IHr; auto. by apply all_num_app.
  - eapply topk_of_Permutation with
      (c := candidates l ++ candidates rt ++ self ++ cands); [|reflexivity|].
    { f_equiv. rewrite !app_assoc. f_equiv. apply Permutation_app_comm. }
    apply far_topk; auto using search_wf.
    intros b Hb Ht. apply IHl; auto. by apply all_num_app.
Qed.

(** ** Entry point *)

(** [kdtree_topk]: the caller's output arrays with the number of results. *)
Definition kdtree_topk (root : KDNode) (rowids_out : list Z) (dists_out : list f32) : topk_buf :=
  match root with
  | kd_null => TopkBuf rowids_out dists_out 0
  | _ => if (k =? 0)%nat then TopkBuf rowids_out dists_out 0
         else kdtree_search_topk_rec root (TopkBuf rowids_out dists_out 0)
  end.

Lemma kdtree_topk_nonzero (root : KDNode) (ro : list Z) (d : list f32) :
  (0 < k)%nat -> kdtree_topk root ro d = kdtree_search_topk_rec root (TopkBuf ro d 0).
Proof.
  intros. unfold kdtree_topk. destruct root; [done|].
  by rewrite (proj2 (Nat.eqb_neq k 0)) by lia.
Qed.

End Search.

(** ** Correctness of the search *)

(** every result of [kdtree_topk] is a live row of the index that passes
    the row filter, reported with its distance to the query, and there are at
    most [k] results; this holds for every distance function. *)
Lemma kdtree_topk_sound (distfunc : DistanceFunc) (map : RowidMap) (query : list f32)
    (dims k : nat) (root : KDNode) (ro : list Z) (d : list f32) (y : f32 * Z) :
  (k <= length ro)%nat -> (k <= length d)%nat ->
  let res := kdtree_topk distfunc map query dims k root ro d in
  (tk_used res <= k)%nat /\
  (y ∈ buf_rows res ->
   exists q, q ∈ kd_live root /\ rowid_map_pass map (pr_rowid q) = true /\
             y = (distfunc query (pr_point q) dims, pr_rowid q)).
Proof.
  intros Hro Hdi. destruct (decide (k = 0)%nat) as [->|].
  { unfold kdtree_topk. destruct root; simpl; (split; [lia|]);
      intros Hy; by apply elem_of_nil in Hy. }
  rewrite kdtree_topk_nonzero by lia. set (b0 := TopkBuf ro d 0).
  assert (Hwf : buf_wf k b0) by (repeat split; simpl; lia).
  split; [by apply search_wf|].
  intros [Hy|Hy]%search_sound; [by apply elem_of_candidates|by apply elem_of_nil in Hy|done].
Qed.

(** The line of the examples: an unfiltered query. *)
Definition no_filter : RowidMap := MkRowidMap [] 0 0 false.

Lemma kdtree_topk_sound_witness :
  let t := kt_root (line_index [4; -10; 5]) in
  let res := kdtree_topk distance_l2_sqr_float no_filter [f32_of_Z 0] 1 2 t [0; 0]
               [f32_zero; f32_zero] in
  (tk_used res <= 2)%nat.
Proof.
  apply (kdtree_topk_sound distance_l2_sqr_float no_filter [f32_of_Z 0] 1 2
    (kt_root (line_index [4; -10; 5])) [0; 0] [f32_zero; f32_zero] (f32_zero, 0)); simpl; lia.
Defined.

(** C22: when the squared difference to each splitting plane is a lower bound
    of the distances beyond it ([admissible]) and no distance is a NaN, the
    KD-tree search returns the [k] nearest of the live rows that pass the
    filter, all of them when there are fewer than [k]. *)
Theorem kdtree_topk_exact (distfunc : DistanceFunc) (map : RowidMap) (query : list f32)
    (dims k : nat) (root : KDNode) (ro : list Z) (d : list f32) :
  (0 < k <= length ro)%nat -> (k <= length d)%nat ->
  admissible distfunc query dims root = true ->
  all_num fst (candidates distfunc map query dims root) ->
  topk_of fst k (candidates distfunc map query dims root)
    (buf_rows (kdtree_topk distfunc map query dims k root ro d)).
Proof.
  intros [Hk Hro] Hdi Hadm Hnum. rewrite kdtree_topk_nonzero by done.
  rewrite <- (app_nil_r (candidates _ _ _ _ _)).
  apply search_topk; auto; [repeat split; simpl; lia|by rewrite app_nil_r|apply topk_of_nil].
Qed.

(** A distance for which the bound holds on the line: the squared difference. *)
Definition sq_distance : DistanceFunc :=
  fun q p _ => f32_mul (f32_sub (coord q 0) (coord p 0)) (f32_sub (coord q 0) (coord p 0)).

Lemma kdtree_topk_exact_witness :
  let t := kt_root (line_index [4; -10; 5; 3; 8]) in
  topk_of fst 2 (candidates sq_distance no_filter [f32_of_Z 0] 1 t)
    (buf_rows (kdtree_topk sq_distance no_filter [f32_of_Z 0] 1 2 t [0; 0]
       [f32_zero; f32_zero])).
Proof.
  apply (kdtree_topk_exact sq_distance no_filter [f32_of_Z 0] 1 2
    (kt_root (line_index [4; -10; 5; 3; 8])) [0; 0] [f32_zero; f32_zero]);
    [simpl; lia|simpl; lia|vm_compute; reflexivity|].
  refine (proj1 (Forall_forall (fun x : f32 * Z => is_nan x.1 = false) _) _).
  vm_compute. repeat constructor.
Defined.

(** With the L2 distance the code uses (a square root, not a square) the
    pruning test compares a squared difference with a plain distance and the
    search loses neighbours: on the line index 4, -10, 5 the two nearest rows
    to 0 are rows 1 and 3, and the search returns rows 1 and 2. *)
Theorem kdtree_topk_l2_misses_neighbour :
  let t := kt_root (line_index [4; -10; 5]) in
  let res := kdtree_topk distance_l2_sqr_float no_filter [f32_of_Z 0] 1 2 t [0; 0]
               [f32_zero; f32_zero] in
  buf_rows res = [(f32_of_Z 4, 1); (f32_of_Z 10, 2)] /\
  ~ topk_of fst 2 (candidates distance_l2_sqr_float no_filter [f32_of_Z 0] 1 t) (buf_rows res).
Proof.
  cbv zeta. set (t := kt_root _). set (res := kdtree_topk _ _ _ _ _ _ _ _).
  assert (Hr : buf_rows res = [(f32_of_Z 4, 1); (f32_of_Z 10, 2)]) by (vm_compute; reflexivity).
  assert (Hc : candidates distance_l2_sqr_float no_filter [f32_of_Z 0] 1 t
    = [(f32_of_Z 10, 2); (f32_of_Z 4, 1); (f32_of_Z 5, 3)]) by (vm_compute; reflexivity).
  split; [done|]. rewrite Hr, Hc. clear.
  apply topk_of_missed with (x := (f32_of_Z 5, 3)) (y := (f32_of_Z 10, 2)).
  - do 2 apply list_elem_of_further. apply list_elem_of_here.
  - rewrite !elem_of_cons, elem_of_nil. intros [[=]|[[=]|[]]].
  - apply list_elem_of_further, list_elem_of_here.
  - vm_compute. discriminate.
Qed.
