(* ===== verification/IVF.v ===== *)
(** * The inverted-file index (sqlite-vec.c, [invlist_*], [ivf_*])

    Vectors are buffered until [train_capacity] of them are there, a k-means
    pass chooses [nlist] centroids, and from then on each vector lives in the
    inverted list of its nearest centroid.  Arrays are flat: vector [j] of a
    list occupies elements [j*dim .. (j+1)*dim) of [vecs].  Freshly allocated
    memory is zero in the model; allocation succeeds.  [rand()] is an explicit
    stream of numbers.  An access outside an array (the untrained paths index
    by [rowid - 1] without a check) is [None].

    The search is in [IVFSearch]. *)

From stdpp Require Import base list numbers sets sorting.
From Stdlib Require Import ZArith Lia SpecFloat.
From S2P Require Import Prelude Float32 CLib KDSearch.

(** ** Inverted lists *)

Definition IVF_LIST_CAP : nat := 128.
Definition IVF_TRAIN_CAP : nat := 1024.

Record InvertedList := MkInvList {
  il_count : nat;
  il_cap : nat;
  il_rowids : list Z;
  il_vecs : list f32
}.

Definition invlist_init_with_dim (init_cap : Z) (dim : nat) : InvertedList :=
  let cap := if (0 <? init_cap)%Z then Z.to_nat init_cap else 8 in
  MkInvList 0 cap (replicate cap 0%Z) (replicate (cap * dim) f32_zero).

Definition invlist_append (l : InvertedList) (vec : list f32) (dim : nat) (rowid : Z)
    : InvertedList :=
  let l :=
    if il_cap l <=? il_count l then
      let newcap := il_cap l * 2 in
      MkInvList (il_count l) newcap (resize_to newcap 0%Z (il_rowids l))
        (resize_to (newcap * dim) f32_zero (il_vecs l))
    else l in
  let idx := il_count l in
  MkInvList (S idx) (il_cap l) (<[idx := rowid]> (il_rowids l))
    (write_at (idx * dim) (take dim vec) (il_vecs l)).

(** The rows a list holds. *)
Definition il_rows (dim : nat) (l : InvertedList) : list (Z * list f32) :=
  (fun j => (aget 0%Z (il_rowids l) j, slice (j * dim) dim (il_vecs l))) <$> seq 0 (il_count l).

Definition il_wf (dim : nat) (l : InvertedList) : Prop :=
  0 < il_cap l /\ length (il_rowids l) = il_cap l /\ length (il_vecs l) = il_cap l * dim /\
  il_count l <= il_cap l.

(** ** The index *)

Record IVF := MkIVF {
  ivf_nlist : nat;
  ivf_nprobe : nat;
  ivf_dim : nat;
  ivf_centroids : list f32;
  ivf_lists : list InvertedList;
  ivf_train_vecs : list f32;
  ivf_train_rowids : list Z;
  ivf_deleted : list bool;
  ivf_train_size : nat;
  ivf_train_capacity : nat;
  ivf_trained : bool
}.

Definition set_lists (f : IVF) (ls : list InvertedList) : IVF :=
  MkIVF (ivf_nlist f) (ivf_nprobe f) (ivf_dim f) (ivf_centroids f) ls (ivf_train_vecs f)
    (ivf_train_rowids f) (ivf_deleted f) (ivf_train_size f) (ivf_train_capacity f)
    (ivf_trained f).

Definition set_train (f : IVF) (tv : list f32) (tr : list Z) (del : list bool) (n : nat) : IVF :=
  MkIVF (ivf_nlist f) (ivf_nprobe f) (ivf_dim f) (ivf_centroids f) (ivf_lists f) tv tr del n
    (ivf_train_capacity f) (ivf_trained f).

Definition set_trained (f : IVF) (cents : list f32) : IVF :=
  MkIVF (ivf_nlist f) (ivf_nprobe f) (ivf_dim f) cents (ivf_lists f) (ivf_train_vecs f)
    (ivf_train_rowids f) (ivf_deleted f) (ivf_train_size f) (ivf_train_capacity f) true.

Definition ivf_create (nlist nprobe dim : Z) : option IVF :=
  if ((nlist <=? 0) || (dim <=? 0) || (nprobe <=? 0))%Z then None
  else
    let nl := Z.to_nat nlist in
    let dm := Z.to_nat dim in
    Some (MkIVF nl (Z.to_nat nprobe) dm (replicate (nl * dm) f32_zero)
            (replicate nl (MkInvList 0 IVF_LIST_CAP (replicate IVF_LIST_CAP 0%Z)
                             (replicate (IVF_LIST_CAP * dm) f32_zero)))
            (replicate (IVF_TRAIN_CAP * dm) f32_zero) (replicate IVF_TRAIN_CAP 0%Z)
            (replicate IVF_TRAIN_CAP false) 0 IVF_TRAIN_CAP false).

Definition centroid (f : IVF) (c : nat) : list f32 :=
  slice (c * ivf_dim f) (ivf_dim f) (ivf_centroids f).

Definition train_vec (f : IVF) (i : nat) : list f32 :=
  slice (i * ivf_dim f) (ivf_dim f) (ivf_train_vecs f).

(** The rows of the inverted lists. *)
Definition ivf_rows (f : IVF) : list (Z * list f32) :=
  concat (il_rows (ivf_dim f) <$> ivf_lists f).

Section Ops.
Context (distfunc : DistanceFunc).

(** ** Nearest centroid

    [best = 0; bestd = dist(vec, c0); for (c = 1; ...) if (d < bestd) ...],
    on any table of centroids. *)
Fixpoint nearest_loop (dist : nat -> f32) (c n best : nat) (bestd : f32) : nat :=
  match n with
  | O => best
  | S n =>
      let d := dist c in
      if f32_ltb d bestd then nearest_loop dist (S c) n c d
      else nearest_loop dist (S c) n best bestd
  end.

Definition nearest (dist : nat -> f32) (k : nat) : nat := nearest_loop dist 1 (k - 1) 0 (dist 0).

Definition ivf_add_vector (f : IVF) (vec : list f32) (rowid : Z) : Z * IVF :=
  let best := nearest (fun c => distfunc vec (centroid f c) (ivf_dim f)) (ivf_nlist f) in
  match ivf_lists f !! best with
  | None => (SQLITE_OK, f)   (* excluded by [ivf_wf] *)
  | Some l =>
      (SQLITE_OK, set_lists f (<[best := invlist_append l vec (ivf_dim f) rowid]> (ivf_lists f)))
  end.

(** ** Training *)

Definition ivf_add_to_train (f : IVF) (vec : list f32) (rowid : Z) : Z * IVF :=
  if ivf_train_capacity f <=? ivf_train_size f then (SQLITE_FULL, f)
  else
    (SQLITE_OK,
     set_train f
       (write_at (ivf_train_size f * ivf_dim f) (take (ivf_dim f) vec) (ivf_train_vecs f))
       (<[ivf_train_size f := rowid]> (ivf_train_rowids f)) (ivf_deleted f)
       (S (ivf_train_size f))).

(** Indices of the training vectors that are not marked deleted. *)
Definition valid_indices (f : IVF) : list nat :=
  filter (fun i => aget false (ivf_deleted f) i = false) (seq 0 (ivf_train_size f)).

(** Component-wise [sum[d] += vec[d]]. *)
Definition vec_add_into (sum vec : list f32) : list f32 := zip_with f32_add sum vec.

(** One pass over the valid vectors: [cent_sum] and [cent_count]. *)
Fixpoint kmeans_sums (f : IVF) (labels idxs : list nat) (sums : list (list f32))
    (counts : list nat) : list (list f32) * list nat :=
  match labels, idxs with
  | c :: labels, i :: idxs =>
      kmeans_sums f labels idxs
        (<[c := vec_add_into (aget [] sums c) (train_vec f i)]> sums)
        (<[c := S (aget 0 counts c)]> counts)
  | _, _ => (sums, counts)
  end.

(** The update of centroids [c .. k-1]; an empty cluster is re-seeded from a
    random valid vector, consuming one random number. *)
Fixpoint kmeans_update (f : IVF) (idxs : list nat) (sums : list (list f32)) (counts : list nat)
    (rand : list Z) (c n : nat) : list f32 * list Z :=
  match n with
  | O => ([], rand)
  | S n =>
      let cnt := aget 0 counts c in
      if 0 <? cnt then
        let cent := (fun x => f32_div x (f32_of_Z (Z.of_nat cnt))) <$> aget [] sums c in
        let '(rest, rand) := kmeans_update f idxs sums counts rand (S c) n in
        (cent ++ rest, rand)
      else
        let r := match rand with [] => 0%Z | r :: _ => r end in
        let rand_idx := aget 0 idxs (Z.to_nat (r mod Z.of_nat (length idxs))) in
        let '(rest, rand) := kmeans_update f idxs sums counts (tail rand) (S c) n in
        (train_vec f rand_idx ++ rest, rand)
  end.

(** One iteration: assign every valid vector to its nearest centroid, then
    move the centroids. *)
Definition kmeans_iter (f : IVF) (idxs : list nat) (cents : list f32) (rand : list Z)
    : list f32 * list Z :=
  let dim := ivf_dim f in
  let k := ivf_nlist f in
  let labels := (fun i =>
    nearest (fun c => distfunc (train_vec f i) (slice (c * dim) dim cents) dim) k) <$> idxs in
  let '(sums, counts) :=
    kmeans_sums f labels idxs (replicate k (replicate dim f32_zero)) (replicate k 0) in
  kmeans_update f idxs sums counts rand 0 k.

Fixpoint kmeans_loop (iters : nat) (f : IVF) (idxs : list nat) (cents : list f32) (rand : list Z)
    : list f32 * list Z :=
  match iters with
  | O => (cents, rand)
  | S iters =>
      let '(cents, rand) := kmeans_iter f idxs cents rand in
      kmeans_loop iters f idxs cents rand
  end.

(** Return value 1 and the trained index, or 0 and the index unchanged when
    there is nothing to train on. *)
Definition ivf_train_kmeans (f : IVF) (n iters : nat) (rand : list Z) : Z * IVF * list Z :=
  if (n =? 0) || (iters =? 0) then (0%Z, f, rand)
  else
    let idxs := valid_indices f in
    let valid_count := length idxs in
    if valid_count =? 0 then (0%Z, f, rand)
    else
      let cents := concat ((fun c => train_vec f (aget 0 idxs (c mod valid_count)))
                             <$> seq 0 (ivf_nlist f)) in
      let '(cents, rand) := kmeans_loop iters f idxs cents rand in
      (1%Z, set_trained f cents, rand).

(** Adding the training rows [i .. i+n-1] to the inverted lists. *)
Fixpoint ivf_flush (f : IVF) (i n : nat) : Z * IVF :=
  match n with
  | O => (SQLITE_OK, f)
  | S n =>
      let '(rc, f') := ivf_add_vector f (train_vec f i) (aget 0%Z (ivf_train_rowids f) i) in
      if (rc =? SQLITE_OK)%Z then ivf_flush f' (S i) n else (rc, f')
  end.

Definition ivf_train_and_flush (f : IVF) (rand : list Z) : Z * IVF * list Z :=
  let '(ok, f1, rand) := ivf_train_kmeans f (ivf_train_size f) 20 rand in
  if (ok =? 0)%Z then (SQLITE_ERROR, f1, rand)
  else
    let '(rc, f2) := ivf_flush f1 0 (ivf_train_size f1) in
    if (rc =? SQLITE_OK)%Z then
      (SQLITE_OK,
       set_train f2 (ivf_train_vecs f2) (ivf_train_rowids f2) (ivf_deleted f2) 0, rand)
    else (rc, f2, rand).

(** What an insertion into the table does to its IVF index: buffer until the
    training buffer is full, then train and flush; a trained index gets the
    row at once. *)
Definition ivf_insert (f : IVF) (vec : list f32) (rowid : Z) (rand : list Z)
    : Z * IVF * list Z :=
  if negb (ivf_trained f) then
    let '(rc, f1) := ivf_add_to_train f vec rowid in
    if negb (rc =? SQLITE_OK)%Z then (rc, f1, rand)
    else if ivf_train_capacity f1 <=? ivf_train_size f1 then ivf_train_and_flush f1 rand
    else (rc, f1, rand)
  else
    let '(rc, f1) := ivf_add_vector f vec rowid in (rc, f1, rand).

(** The row that fills the buffer starts the training, which reads the marks of
    all buffered rows: whether they are in the array [deleted]. *)
Definition marks_readable (f : IVF) : bool :=
  ivf_trained f || negb (S (ivf_train_size f) =? ivf_train_capacity f) || (ivf_train_capacity f <=? length (ivf_deleted f)).

(** ** Deletion and update *)

(** First position of [rowid] among the [n] entries from [i]. *)
Fixpoint il_find (rowids : list Z) (rowid : Z) (i n : nat) : option nat :=
  match n with
  | O => None
  | S n => if (aget 0%Z rowids i =? rowid)%Z then Some i else il_find rowids rowid (S i) n
  end.

(** Overwrite entry [i] with the last one and drop the last one. *)
Definition il_remove (dim : nat) (l : InvertedList) (i : nat) : InvertedList :=
  let last := il_count l - 1 in
  MkInvList last (il_cap l) (<[i := aget 0%Z (il_rowids l) last]> (il_rowids l))
    (write_at (i * dim) (slice (last * dim) dim (il_vecs l)) (il_vecs l)).

Fixpoint ivf_delete_loop (dim : nat) (rowid : Z) (ls : list InvertedList) (l : nat)
    : option (nat * list InvertedList) :=
  match ls with
  | [] => None
  | lst :: ls =>
      match il_find (il_rowids lst) rowid 0 (il_count lst) with
      | Some i => Some (l, il_remove dim lst i :: ls)
      | None =>
          match ivf_delete_loop dim rowid ls (S l) with
          | Some (l', ls') => Some (l', lst :: ls')
          | None => None
          end
      end
  end.

(** The slot the untrained paths use for a rowid, [None] outside the array
    [deleted] or the buffer. *)
Definition train_slot (f : IVF) (rowid : Z) : option nat :=
  if ((1 <=? rowid) && (rowid <=? Z.of_nat (ivf_train_capacity f)) && (rowid <=? Z.of_nat (length (ivf_deleted f))))%Z
  then Some (Z.to_nat (rowid - 1)) else None.

(** Returns [-2] (marked deleted, untrained), the list index, or [-1]. *)
Definition ivf_delete_vector (f : IVF) (rowid : Z) : option (Z * IVF) :=
  if negb (ivf_trained f) then
    match train_slot f rowid with
    | None => None
    | Some i =>
        Some ((-2)%Z, set_train f (ivf_train_vecs f) (ivf_train_rowids f)
                        (<[i := true]> (ivf_deleted f)) (ivf_train_size f))
    end
  else
    match ivf_delete_loop (ivf_dim f) rowid (ivf_lists f) 0 with
    | Some (l, ls) => Some (Z.of_nat l, set_lists f ls)
    | None => Some ((-1)%Z, f)
    end.

(** [1e30f], the starting minimum of the re-insertion's own loop, which
    starts at centroid 0. *)
Definition f32_1e30 : f32 := S754_finite false 13234890 76.

Definition ivf_update_vector_reinsert (f : IVF) (rowid : Z) (vec : list f32)
    : option (Z * IVF) :=
  let dim := ivf_dim f in
  if negb (ivf_trained f) then
    match train_slot f rowid with
    | None => None
    | Some i =>
        let del := if aget false (ivf_deleted f) i then <[i := false]> (ivf_deleted f)
                   else ivf_deleted f in
        Some (SQLITE_OK, set_train f (write_at (i * dim) (take dim vec) (ivf_train_vecs f))
                           (ivf_train_rowids f) del (ivf_train_size f))
    end
  else
    match ivf_delete_vector f rowid with
    | None => None
    | Some (old_list, f1) =>
        if (old_list <? 0)%Z then Some (SQLITE_OK, f1)
        else
          let new_list := nearest_loop (fun c => distfunc vec (centroid f1 c) dim) 0
                            (ivf_nlist f1) 0 f32_1e30 in
          match ivf_lists f1 !! new_list with
          | None => None
          | Some lst =>
              if il_cap lst <=? il_count lst then Some (SQLITE_NOMEM, f1)
              else
                let n := il_count lst in
                let lst' := MkInvList (S n) (il_cap lst) (<[n := rowid]> (il_rowids lst))
                              (write_at (n * dim) (take dim vec) (il_vecs lst)) in
                Some (SQLITE_OK, set_lists f1 (<[new_list := lst']> (ivf_lists f1)))
          end
    end.

End Ops.

(** ** Inverted lists hold what was appended *)

Lemma il_rows_length (dim : nat) (l : InvertedList) : length (il_rows dim l) = il_count l.
Proof. apply length_fmap_seq0. Qed.

Lemma il_rows_lookup (dim : nat) (l : InvertedList) (j : nat) :
  j < il_count l ->
  il_rows dim l !! j = Some (aget 0%Z (il_rowids l) j, slice (j * dim) dim (il_vecs l)).
Proof. intros. unfold il_rows. by rewrite lookup_fmap_seq0. Qed.

(** Writing one entry below the capacity. *)
Lemma il_rows_write (dim : nat) (l : InvertedList) (n j : nat) (rowid : Z) (vec : list f32) :
  length (il_rowids l) = il_cap l -> length (il_vecs l) = il_cap l * dim ->
  length vec = dim -> n <= il_cap l -> j < il_cap l ->
  il_rows dim (MkInvList n (il_cap l) (<[j := rowid]> (il_rowids l))
                 (write_at (j * dim) vec (il_vecs l)))
  = (fun i => if decide (i = j) then (rowid, vec)
              else (aget 0%Z (il_rowids l) i, slice (i * dim) dim (il_vecs l))) <$> seq 0 n.
Proof.
  intros Hr Hv Hl Hn Hj. unfold il_rows. cbn [il_rowids il_vecs il_count].
  apply fmap_seq0_ext. intros i Hi. assert (Hjd : j * dim + dim <= il_cap l * dim) by nia.
  case_decide as E; [subst i|].
  - rewrite aget_insert_eq by lia. rewrite <- Hl at 2. rewrite slice_write_eq by lia. done.
  - rewrite aget_insert_ne by done. rewrite slice_write_ne by nia. done.
Qed.

Lemma invlist_append_spec (dim : nat) (l : InvertedList) (vec : list f32) (rowid : Z) :
  il_wf dim l -> length vec = dim ->
  il_wf dim (invlist_append l vec dim rowid) /\
  il_rows dim (invlist_append l vec dim rowid) = il_rows dim l ++ [(rowid, vec)].
Proof.
  intros (Hc0 & Hr & Hv & Hc) Hl. unfold invlist_append. rewrite take_ge by lia.
  set (l1 := if il_cap l <=? il_count l then _ else l).
  assert (H1 : il_count l1 = il_count l /\ 0 < il_cap l1 /\ length (il_rowids l1) = il_cap l1 /\
    length (il_vecs l1) = il_cap l1 * dim /\ il_count l < il_cap l1 /\
    (forall i, i < il_count l -> aget 0%Z (il_rowids l1) i = aget 0%Z (il_rowids l) i /\
       slice (i * dim) dim (il_vecs l1) = slice (i * dim) dim (il_vecs l))).
  { subst l1. destruct (Nat.leb_spec (il_cap l) (il_count l));
      cbn [il_count il_cap il_rowids il_vecs]; [|repeat split; auto; lia].
    rewrite !length_resize_to. repeat split; try lia.
    - apply aget_resize_to; lia.
    - apply slice_resize_to; nia. }
  clearbody l1. destruct H1 as (E1 & Hc1 & Hr1 & Hv1 & Hlt & Hsame). rewrite E1. split.
  - unfold il_wf. cbn [il_count il_cap il_rowids il_vecs].
    rewrite length_insert, length_write_at by (rewrite Hv1; nia). repeat split; lia.
  - rewrite il_rows_write by lia. rewrite seq_S, fmap_app. cbn [fmap list_fmap].
    rewrite decide_True by done. f_equal. unfold il_rows.
    apply fmap_seq0_ext. intros i Hi. rewrite decide_False by lia.
    by destruct (Hsame i Hi) as [-> ->].
Qed.

(** Swap-with-last removal drops exactly entry [i]. *)
Lemma il_remove_spec (dim : nat) (l : InvertedList) (i : nat) :
  il_wf dim l -> i < il_count l ->
  il_wf dim (il_remove dim l i) /\
  exists row, il_rows dim l !! i = Some row /\ il_rows dim l ≡ₚ row :: il_rows dim (il_remove dim l i).
Proof.
  intros (Hc0 & Hr & Hv & Hc) Hi. unfold il_remove. set (last := il_count l - 1).
  assert (Hsl : length (slice (last * dim) dim (il_vecs l)) = dim).
  { apply length_slice. rewrite Hv. subst last. nia. }
  split.
  { unfold il_wf. cbn [il_count il_cap il_rowids il_vecs].
    rewrite length_insert, length_write_at by (rewrite Hv, Hsl; subst last; nia).
    subst last. repeat split; lia. }
  eexists. split; [by apply il_rows_lookup|].
  rewrite il_rows_write by (subst last; lia).
  set (row := fun j => (aget 0%Z (il_rowids l) j, slice (j * dim) dim (il_vecs l))).
  assert (Hall : il_rows dim l = (row <$> seq 0 last) ++ [row last]).
  { unfold il_rows. replace (il_count l) with (S last) by (subst last; lia).
    by rewrite seq_S, fmap_app. }
  destruct (decide (i = last)) as [->|Hne].
  - rewrite Hall, <- Permutation_cons_append. f_equiv.
    apply Permutation_refl', fmap_seq0_ext. intros j Hj. by rewrite decide_False by lia.
  - assert (Hil : i < last) by (subst last; lia).
    assert (Hw : (fun j => if decide (j = i) then row last else row j) <$> seq 0 last
                 = <[i := row last]> (row <$> seq 0 last)).
    { apply list_eq_same_length with last; [by rewrite length_insert, length_fmap_seq0|by rewrite length_fmap_seq0|].
      intros j x y Hj. rewrite lookup_fmap_seq0 by done. case_decide as Ej; [subst j|].
      - rewrite list_lookup_insert_eq by (by rewrite length_fmap_seq0). congruence.
      - rewrite list_lookup_insert_ne, lookup_fmap_seq0 by done. congruence. }
    destruct (insert_Permutation (row <$> seq 0 last) i (row i) (row last)) as (r & P1 & P2).
    { by apply lookup_fmap_seq0. }
    change (il_rows dim l ≡ₚ row i :: ((fun j => if decide (j = i) then row last else row j) <$> seq 0 last)).
    rewrite Hw, Hall, P2, P1, <- Permutation_cons_append. apply Permutation_swap.
Qed.

(** ** Nearest centroid *)

Lemma nearest_loop_lt (dist : nat -> f32) (n c best : nat) (bd : f32) :
  best < c -> nearest_loop dist c n best bd < c + n.
Proof.
  revert c best bd. induction n as [|n IH]; intros c best bd Hb; simpl; [lia|].
  rewrite Nat.add_succ_r, <- Nat.add_succ_l. destruct (f32_ltb _ _); apply IH; lia.
Qed.

Lemma nearest_loop_min (dist : nat -> f32) (n c best : nat) :
  best < c -> (forall i, i < c + n -> is_nan (dist i) = false) ->
  (forall i, i < c -> f32_leb (dist best) (dist i) = true) ->
  forall i, i < c + n -> f32_leb (dist (nearest_loop dist c n best (dist best))) (dist i) = true.
Proof.
  revert c best. induction n as [|n IH]; intros c best Hb Hnum Hle i Hi; simpl.
  { apply Hle. lia. }
  assert (Hc : is_nan (dist c) = false) by (apply Hnum; lia).
  assert (Hbn : is_nan (dist best) = false) by (apply Hnum; lia).
  destruct (f32_ltb (dist c) (dist best)) eqn:E; apply IH; try lia;
    try (intros; apply Hnum; lia).
  - intros j Hj. destruct (decide (j = c)) as [->|]; [by apply f32_leb_refl|].
    eapply f32_leb_trans; [by apply f32_ltb_leb|]. apply Hle. lia.
  - intros j Hj. destruct (decide (j = c)) as [->|]; [by apply f32_nlt_leb|]. apply Hle. lia.
Qed.

Lemma nearest_lt (dist : nat -> f32) (k : nat) : 0 < k -> nearest dist k < k.
Proof. intros. unfold nearest. pose proof (nearest_loop_lt dist (k - 1) 1 0 (dist 0)). lia. Qed.

Lemma nearest_min (dist : nat -> f32) (k : nat) :
  (forall i, i < k -> is_nan (dist i) = false) ->
  forall i, i < k -> f32_leb (dist (nearest dist k)) (dist i) = true.
Proof.
  intros Hnum i Hi. unfold nearest. apply nearest_loop_min; try lia.
  - intros; apply Hnum; lia.
  - intros j Hj. replace j with 0 by lia. apply f32_leb_refl, Hnum. lia.
Qed.

(** ** The index *)

Definition ivf_wf (f : IVF) : Prop :=
  0 < ivf_nlist f /\ length (ivf_lists f) = ivf_nlist f /\
  Forall (il_wf (ivf_dim f)) (ivf_lists f) /\
  length (ivf_train_vecs f) = ivf_train_capacity f * ivf_dim f /\
  length (ivf_train_rowids f) = ivf_train_capacity f /\
  length (ivf_deleted f) = ivf_train_capacity f /\
  ivf_train_size f <= ivf_train_capacity f.

Section IndexLemmas.
Context (distfunc : DistanceFunc).

Lemma ivf_wf_set_list (f : IVF) (i : nat) (l : InvertedList) :
  ivf_wf f -> il_wf (ivf_dim f) l -> ivf_wf (set_lists f (<[i := l]> (ivf_lists f))).
Proof.
  intros (H1 & H2 & H3 & H4 & H5 & H6 & H7) Hl. repeat split; try done.
  - cbn. by rewrite length_insert.
  - by apply Forall_insert.
Qed.

(** The list a vector is added to is that of its nearest centroid. *)
Definition home (f : IVF) (vec : list f32) : nat :=
  nearest (fun c => distfunc vec (centroid f c) (ivf_dim f)) (ivf_nlist f).

Lemma ivf_add_vector_spec (f : IVF) (vec : list f32) (rowid : Z) :
  ivf_wf f -> length vec = ivf_dim f ->
  exists l,
    ivf_lists f !! home f vec = Some l /\
    ivf_add_vector distfunc f vec rowid
    = (SQLITE_OK,
       set_lists f (<[home f vec := invlist_append l vec (ivf_dim f) rowid]> (ivf_lists f))) /\
    ivf_wf (ivf_add_vector distfunc f vec rowid).2 /\
    ivf_rows (ivf_add_vector distfunc f vec rowid).2 ≡ₚ (rowid, vec) :: ivf_rows f.
Proof.
  intros Hwf Hv. pose proof Hwf as (H1 & H2 & H3 & _).
  pose proof (nearest_lt (fun c => distfunc vec (centroid f c) (ivf_dim f)) _ H1) as Hlt.
  fold (home f vec) in Hlt.
  destruct (lookup_lt_is_Some_2 (ivf_lists f) (home f vec)) as [l Hl]; [lia|].
  exists l. split; [done|]. unfold ivf_add_vector. fold (home f vec). rewrite Hl.
  assert (Hlw : il_wf (ivf_dim f) l) by (by eapply Forall_lookup_1 in H3).
  destruct (invlist_append_spec _ l vec rowid Hlw Hv) as [W R].
  split; [done|]. cbn [snd]. split; [by apply ivf_wf_set_list|].
  unfold ivf_rows. cbn [set_lists ivf_dim ivf_lists].
  destruct (concat_insert_Permutation (il_rows (ivf_dim f)) (ivf_lists f) (home f vec) l
    (invlist_append l vec (ivf_dim f) rowid) Hl) as (rest & -> & ->).
  rewrite R, <- Permutation_cons_append. done.
Qed.

(** The rows in the training buffer. *)
Definition train_rows (f : IVF) (i n : nat) : list (Z * list f32) :=
  (fun j => (aget 0%Z (ivf_train_rowids f) j, train_vec f j)) <$> seq i n.

Lemma ivf_flush_spec (f : IVF) (n i : nat) :
  ivf_wf f -> i + n <= ivf_train_size f ->
  let r := ivf_flush distfunc f i n in
  r.1 = SQLITE_OK /\ ivf_wf r.2 /\ ivf_rows r.2 ≡ₚ train_rows f i n ++ ivf_rows f /\
  ivf_train_vecs r.2 = ivf_train_vecs f /\ ivf_train_rowids r.2 = ivf_train_rowids f /\
  ivf_dim r.2 = ivf_dim f /\ ivf_trained r.2 = ivf_trained f.
Proof.
  revert f i. induction n as [|n IH]; intros f i Hwf Hi; simpl; [done|].
  assert (Hlen : length (train_vec f i) = ivf_dim f).
  { apply length_slice. destruct Hwf as (_ & _ & _ & -> & _ & _ & Hs). nia. }
  destruct (ivf_add_vector_spec f (train_vec f i) (aget 0%Z (ivf_train_rowids f) i) Hwf Hlen)
    as (l & Hl & Ha & W & R).
  destruct (ivf_add_vector distfunc f _ _) as [rc f1]. injection Ha as -> Hf1. cbn [snd] in *.
  change (SQLITE_OK =? SQLITE_OK)%Z with true. cbv iota.
  destruct (IH f1 (S i)) as (I1 & I2 & I3 & I4 & I5 & I6 & I7); [done|subst f1; cbn; lia|].
  rewrite I4, I5, I6, I7. split; [done|]. split; [done|].
  subst f1. split; [|done].
  rewrite I3, R. unfold train_rows. cbn [seq fmap list_fmap set_lists ivf_train_rowids].
  change (train_vec (set_lists f _)) with (train_vec f).
  by rewrite <- Permutation_middle.
Qed.

Lemma il_find_spec (rowids : list Z) (rowid : Z) (n i : nat) :
  match il_find rowids rowid i n with
  | Some j => i <= j < i + n /\ aget 0%Z rowids j = rowid
  | None => forall j, i <= j < i + n -> aget 0%Z rowids j <> rowid
  end.
Proof.
  revert i. induction n as [|n IH]; intros i; simpl; [lia|].
  destruct (Z.eqb_spec (aget 0%Z rowids i) rowid) as [E|E]; [split; [lia|done]|].
  specialize (IH (S i)). destruct (il_find rowids rowid (S i) n) as [j|].
  - destruct IH. split; [lia|done].
  - intros j Hj. destruct (decide (j = i)) as [->|]; [done|]. apply IH. lia.
Qed.

(** Deletion changes one list, and removes one entry of it. *)
Lemma ivf_delete_loop_spec (dim : nat) (rowid : Z) (ls : list InvertedList) (l : nat) :
  Forall (il_wf dim) ls ->
  match ivf_delete_loop dim rowid ls l with
  | Some (l', ls') =>
      exists (i : nat) (lst lst' : InvertedList) (vec : list f32), l' = l + i /\ ls !! i = Some lst /\ ls' = <[i := lst']> ls /\
        il_wf dim lst' /\ il_rows dim lst ≡ₚ (rowid, vec) :: il_rows dim lst'
  | None => forall row, row ∈ concat (il_rows dim <$> ls) -> row.1 <> rowid
  end.
Proof.
  revert l. induction ls as [|lst ls IH]; intros l Hwf; simpl.
  { intros row Hr. by apply elem_of_nil in Hr. }
  apply Forall_cons in Hwf as [Hw Hws].
  pose proof (il_find_spec (il_rowids lst) rowid (il_count lst) 0) as Hf.
  destruct (il_find _ _ _ _) as [i|].
  - destruct Hf as [Hi E]. destruct (il_remove_spec dim lst i Hw) as (W & row & Hrow & P); [lia|].
    rewrite il_rows_lookup in Hrow by lia. injection Hrow as <-. rewrite E in P.
    exists 0, lst, (il_remove dim lst i), (slice (i * dim) dim (il_vecs lst)).
    rewrite Nat.add_0_r. done.
  - specialize (IH (S l) Hws). destruct (ivf_delete_loop _ _ _ _) as [[l' ls']|].
    + destruct IH as (i & a & a' & vec & -> & I2 & -> & I4). exists (S i), a, a', vec.
      split; [lia|]. done.
    + intros row. rewrite elem_of_app. intros [Hr|Hr]; [|auto].
      apply elem_of_fmap_seq0 in Hr as (j & Hj & ->). apply Hf. lia.
Qed.

Lemma ivf_rows_set_list (f : IVF) (i : nat) (l l' : InvertedList) :
  ivf_lists f !! i = Some l ->
  exists rest, ivf_rows f ≡ₚ il_rows (ivf_dim f) l ++ rest /\
    ivf_rows (set_lists f (<[i := l']> (ivf_lists f))) ≡ₚ il_rows (ivf_dim f) l' ++ rest.
Proof. intros Hl. by apply concat_insert_Permutation. Qed.

(** Deletion from a trained index. *)
Lemma ivf_delete_trained_spec (f : IVF) (rowid : Z) :
  ivf_wf f -> ivf_trained f = true ->
  (exists (i : nat) (lst lst' : InvertedList) (vec : list f32),
     ivf_delete_vector f rowid
     = Some (Z.of_nat i, set_lists f (<[i := lst']> (ivf_lists f))) /\
     ivf_lists f !! i = Some lst /\ il_wf (ivf_dim f) lst' /\
     il_rows (ivf_dim f) lst ≡ₚ (rowid, vec) :: il_rows (ivf_dim f) lst')
  \/ ivf_delete_vector f rowid = Some ((-1)%Z, f) /\
     forall row, row ∈ ivf_rows f -> row.1 <> rowid.
Proof.
  intros (_ & _ & Hw & _) Ht. unfold ivf_delete_vector. rewrite Ht. cbn [negb].
  pose proof (ivf_delete_loop_spec (ivf_dim f) rowid (ivf_lists f) 0 Hw) as H.
  destruct (ivf_delete_loop _ _ _ _) as [[l ls]|]; [left|by right].
  destruct H as (i & a & a' & vec & -> & H2 & -> & H4). by exists i, a, a', vec.
Qed.

(** ** The invariant: every row is in the list of its nearest centroid *)

Definition homed (f : IVF) : Prop :=
  forall i l, ivf_lists f !! i = Some l ->
  forall row, row ∈ il_rows (ivf_dim f) l -> home f row.2 = i.

Definition ivf_inv (f : IVF) : Prop :=
  ivf_wf f /\ homed f /\
  if ivf_trained f then ivf_train_size f = 0 else ivf_rows f = [].

(** Everything the index holds, buffered or in the lists. *)
Definition ivf_contents (f : IVF) : list (Z * list f32) :=
  train_rows f 0 (ivf_train_size f) ++ ivf_rows f.

(** Replacing one list by another whose rows are homed there. *)
Lemma homed_set_list (f : IVF) (i : nat) (l l' : InvertedList) :
  homed f -> ivf_lists f !! i = Some l ->
  (forall row, row ∈ il_rows (ivf_dim f) l' -> row ∈ il_rows (ivf_dim f) l \/ home f row.2 = i) ->
  homed (set_lists f (<[i := l']> (ivf_lists f))).
Proof.
  intros Hh Hl Hsub j m Hj row Hr. change (home (set_lists f _)) with (home f).
  cbn [set_lists ivf_lists ivf_dim] in Hj, Hr.
  apply list_lookup_insert_Some in Hj as [(<- & <- & _)|[_ Hj]]; [|by eapply Hh].
  destruct (Hsub row Hr); [by eapply Hh|done].
Qed.

Lemma ivf_add_vector_homed (f : IVF) (vec : list f32) (rowid : Z) :
  ivf_wf f -> length vec = ivf_dim f -> homed f ->
  homed (ivf_add_vector distfunc f vec rowid).2.
Proof.
  intros Hwf Hv Hh. destruct (ivf_add_vector_spec f vec rowid Hwf Hv) as (l & Hl & -> & _).
  eapply homed_set_list; [done..|]. intros row Hr.
  destruct Hwf as (_ & _ & Hw & _). eapply Forall_lookup_1 in Hw; [|done].
  destruct (invlist_append_spec _ l vec rowid Hw Hv) as [_ E]. rewrite E in Hr.
  apply elem_of_app in Hr as [Hr|Hr]; [by left|].
  apply list_elem_of_singleton in Hr as ->. by right.
Qed.

Lemma ivf_flush_homed (f : IVF) (n i : nat) :
  ivf_wf f -> i + n <= ivf_train_size f -> homed f -> homed (ivf_flush distfunc f i n).2.
Proof.
  revert f i. induction n as [|n IH]; intros f i Hwf Hi Hh; simpl; [done|].
  assert (Hlen : length (train_vec f i) = ivf_dim f).
  { apply length_slice. destruct Hwf as (_ & _ & _ & -> & _ & _ & Hs). nia. }
  set (rid := aget 0%Z (ivf_train_rowids f) i).
  pose proof (ivf_add_vector_homed f _ rid Hwf Hlen Hh) as Hh1.
  destruct (ivf_add_vector_spec f _ rid Hwf Hlen) as (l & Hl & Ha & W & R).
  destruct (ivf_add_vector distfunc f _ _) as [rc f1]. injection Ha as -> Hf1. cbn [snd] in *.
  change (SQLITE_OK =? SQLITE_OK)%Z with true. cbv iota.
  apply IH; [done| |done]. subst f1. cbn. lia.
Qed.

Lemma valid_indices_nonempty (f : IVF) (i : nat) :
  i < ivf_train_size f -> aget false (ivf_deleted f) i = false -> valid_indices f <> [].
Proof.
  intros Hi Hd E. assert (Hin : i ∈ valid_indices f).
  { apply list_elem_of_filter. split; [done|]. apply elem_of_seq. lia. }
  rewrite E in Hin. by apply elem_of_nil in Hin.
Qed.

Lemma ivf_rows_nil (f : IVF) :
  ivf_rows f = [] -> forall i l, ivf_lists f !! i = Some l -> il_rows (ivf_dim f) l = [].
Proof.
  intros E i l Hl. destruct (ivf_rows_set_list f i l l Hl) as (rest & P & _).
  rewrite E in P. symmetry in P. apply Permutation_nil_r in P. by apply app_eq_nil in P as [-> _].
Qed.

(** Training: on a buffer with a vector that is not marked deleted it
    succeeds, whatever the random numbers, and moves every buffered row into
    the inverted lists. *)
Lemma ivf_train_and_flush_spec (f : IVF) (rand : list Z) (i : nat) :
  ivf_inv f -> ivf_trained f = false ->
  i < ivf_train_size f -> aget false (ivf_deleted f) i = false ->
  exists f' rand', ivf_train_and_flush distfunc f rand = (SQLITE_OK, f', rand') /\
    ivf_inv f' /\ ivf_trained f' = true /\ ivf_train_size f' = 0 /\
    ivf_dim f' = ivf_dim f /\ ivf_rows f' ≡ₚ train_rows f 0 (ivf_train_size f).
Proof.
  intros (Hwf & Hh & Hnil) Ht Hi Hd. rewrite Ht in Hnil. unfold ivf_train_and_flush, ivf_train_kmeans.
  rewrite (proj2 (Nat.eqb_neq (ivf_train_size f) 0)) by lia. cbn [orb Nat.eqb].
  pose proof (valid_indices_nonempty f i Hi Hd) as Hv.
  rewrite (proj2 (Nat.eqb_neq (length (valid_indices f)) 0)) by (by destruct (valid_indices f)).
  destruct (kmeans_loop _ _ _ _ _ _) as [cents rand']. change (1 =? 0)%Z with false. cbv iota.
  set (f1 := set_trained f cents).
  assert (W1 : ivf_wf f1) by (destruct Hwf as (?&?&?&?&?&?&?); by repeat split).
  assert (H1 : homed f1).
  { intros j l Hl row Hr. change (ivf_lists f1) with (ivf_lists f) in Hl.
    change (ivf_dim f1) with (ivf_dim f) in Hr.
    rewrite (ivf_rows_nil f Hnil j l Hl) in Hr. by apply elem_of_nil in Hr. }
  destruct (ivf_flush_spec f1 (ivf_train_size f1) 0 W1) as (F1 & F2 & F3 & F4 & F5 & F6 & F7); [done|].
  pose proof (ivf_flush_homed f1 (ivf_train_size f1) 0 W1 (Nat.le_refl _) H1) as H2.
  destruct (ivf_flush distfunc f1 0 (ivf_train_size f1)) as [rc f2]. cbn [fst snd] in *.
  subst rc. change (SQLITE_OK =? SQLITE_OK)%Z with true. cbv iota.
  eexists _, _. split; [done|]. cbn [set_train ivf_trained ivf_train_size ivf_dim].
  assert (E : ivf_rows f1 = []) by done. rewrite E, app_nil_r in F3.
  split; [|split; [done|split; [done|split; [done|exact F3]]]].
  split; [|split; [exact H2|cbn; by rewrite F7]].
  destruct F2 as (?&?&?&?&?&?&?). repeat split; try done. cbn. lia.
Qed.

(** Nothing to train on: the error leaves the index as it was. *)
Lemma ivf_train_and_flush_none (f : IVF) (rand : list Z) :
  valid_indices f = [] -> ivf_train_and_flush distfunc f rand = (SQLITE_ERROR, f, rand).
Proof.
  intros E. unfold ivf_train_and_flush, ivf_train_kmeans. rewrite E.
  destruct (ivf_train_size f =? 0); reflexivity.
Qed.

Lemma valid_indices_witness (f : IVF) :
  valid_indices f <> [] -> exists i, i < ivf_train_size f /\ aget false (ivf_deleted f) i = false.
Proof.
  intros H. destruct (valid_indices f) as [|i l] eqn:E; [done|]. exists i.
  assert (Hi : i ∈ valid_indices f) by (rewrite E; apply list_elem_of_here).
  apply list_elem_of_filter in Hi as [Hd Hi]. apply elem_of_seq in Hi. split; [lia|done].
Qed.

(** One more row in the training buffer. *)
Lemma ivf_add_to_train_spec (f : IVF) (vec : list f32) (rowid : Z) :
  ivf_inv f -> ivf_trained f = false -> length vec = ivf_dim f ->
  ivf_train_size f < ivf_train_capacity f ->
  exists f', ivf_add_to_train f vec rowid = (SQLITE_OK, f') /\ ivf_inv f' /\
    ivf_trained f' = false /\ ivf_train_size f' = S (ivf_train_size f) /\
    ivf_deleted f' = ivf_deleted f /\ ivf_train_capacity f' = ivf_train_capacity f /\
    train_rows f' 0 (S (ivf_train_size f)) = train_rows f 0 (ivf_train_size f) ++ [(rowid, vec)] /\
    ivf_rows f' = ivf_rows f.
Proof.
  intros (Hwf & Hh & Hnil) Ht Hv Hlt. unfold ivf_add_to_train.
  rewrite (proj2 (Nat.leb_gt _ _)) by lia. eexists. split; [done|].
  destruct Hwf as (W1 & W2 & W3 & W4 & W5 & W6 & W7). rewrite take_ge by lia.
  assert (Hb : ivf_train_size f * ivf_dim f + length vec <= length (ivf_train_vecs f))
    by (rewrite W4; nia).
  split; [|repeat split; try done].
  - split; [|split; [exact Hh|cbn; by rewrite Ht in *]].
    repeat split; try done; cbn; rewrite ?length_insert, ?length_write_at by lia; lia.
  - unfold train_rows. rewrite seq_S, fmap_app. cbn [fmap list_fmap Nat.add].
    cbn [set_train ivf_train_rowids]. f_equal.
    + apply fmap_seq0_ext. intros j Hj. rewrite aget_insert_ne by lia. f_equal.
      unfold train_vec. cbn [set_train ivf_train_vecs ivf_dim]. apply slice_write_ne; nia.
    + rewrite aget_insert_eq by lia. unfold train_vec. cbn [set_train ivf_train_vecs ivf_dim].
      rewrite <- Hv at 2. by rewrite slice_write_eq by lia.
Qed.

(** Insertion, trained or not, adds the row to the contents. *)
Lemma ivf_insert_spec (f : IVF) (vec : list f32) (rowid : Z) (rand : list Z) :
  ivf_inv f -> length vec = ivf_dim f ->
  (ivf_trained f = false ->
     ivf_train_size f < ivf_train_capacity f /\
     aget false (ivf_deleted f) (ivf_train_size f) = false) ->
  exists f' rand', ivf_insert distfunc f vec rowid rand = (SQLITE_OK, f', rand') /\
    ivf_inv f' /\ ivf_contents f' ≡ₚ (rowid, vec) :: ivf_contents f.
Proof.
  intros Hinv Hv Hun. unfold ivf_insert. destruct (ivf_trained f) eqn:Ht; cbn [negb].
  - destruct Hinv as (Hwf & Hh & Hs). rewrite Ht in Hs.
    pose proof (ivf_add_vector_homed f vec rowid Hwf Hv Hh) as Hh'.
    destruct (ivf_add_vector_spec f vec rowid Hwf Hv) as (l & Hl & Ha & W & R).
    destruct (ivf_add_vector distfunc f vec rowid) as [rc f1]. injection Ha as -> Hf1.
    cbn [snd] in *. exists f1, rand. split; [done|].
    assert (E : ivf_train_size f1 = 0 /\ ivf_trained f1 = true) by (by subst f1).
    destruct E as [E1 E2]. split; [split; [done|split; [done|by rewrite E2]]|].
    unfold ivf_contents. by rewrite E1, Hs.
  - destruct (Hun eq_refl) as [Hlt Hd].
    destruct (ivf_add_to_train_spec f vec rowid Hinv Ht Hv Hlt)
      as (f1 & -> & Hinv1 & Ht1 & Hs1 & Hd1 & Hc1 & Htr & Hrows).
    change (SQLITE_OK =? SQLITE_OK)%Z with true. cbn [negb]. cbv iota.
    assert (Hc : ivf_contents f1 ≡ₚ (rowid, vec) :: ivf_contents f).
    { unfold ivf_contents. rewrite Hs1, Htr, Hrows, <- app_assoc. by rewrite Permutation_middle. }
    destruct (ivf_train_capacity f1 <=? ivf_train_size f1); [|by exists f1, rand].
    destruct (ivf_train_and_flush_spec f1 rand (ivf_train_size f) Hinv1 Ht1)
      as (f2 & rand' & -> & Hinv2 & Ht2 & Hs2 & _ & R2); [lia|by rewrite Hd1|].
    exists f2, rand'. split; [done|]. split; [done|]. rewrite <- Hc.
    unfold ivf_contents. rewrite Hs2. cbn [train_rows seq fmap list_fmap app]. rewrite R2.
    destruct Hinv1 as (_ & _ & Hn). rewrite Ht1 in Hn. by rewrite Hn, app_nil_r.
Qed.

Lemma ivf_insert_inv (f : IVF) (vec : list f32) (rowid : Z) (rand : list Z) :
  ivf_inv f -> length vec = ivf_dim f -> ivf_inv (ivf_insert distfunc f vec rowid rand).1.2.
Proof.
  intros Hinv Hv. destruct (ivf_trained f) eqn:Ht.
  { destruct (ivf_insert_spec f vec rowid rand Hinv Hv) as (f' & r' & -> & H & _);
      [congruence|done]. }
  destruct (decide (ivf_train_size f < ivf_train_capacity f)) as [Hlt|Hge].
  - unfold ivf_insert. rewrite Ht. cbn [negb].
    destruct (ivf_add_to_train_spec f vec rowid Hinv Ht Hv Hlt) as (f1 & -> & Hinv1 & Ht1 & _).
    change (SQLITE_OK =? SQLITE_OK)%Z with true. cbn [negb]. cbv iota.
    destruct (_ <=? _); [|done]. destruct (decide (valid_indices f1 = [])) as [E|E].
    + by rewrite ivf_train_and_flush_none.
    + apply valid_indices_witness in E as (i & Hi & Hd).
      by destruct (ivf_train_and_flush_spec f1 rand i Hinv1 Ht1 Hi Hd) as (f2 & r2 & -> & H & _).
  - unfold ivf_insert, ivf_add_to_train. rewrite Ht. cbn [negb].
    by rewrite (proj2 (Nat.leb_le _ _)) by lia.
Qed.

(** ** Deletion and update *)

Lemma ivf_delete_inv (f f' : IVF) (rowid rc : Z) :
  ivf_inv f -> ivf_delete_vector f rowid = Some (rc, f') ->
  ivf_inv f' /\ ivf_dim f' = ivf_dim f /\ ivf_trained f' = ivf_trained f /\
  centroid f' = centroid f /\ ivf_nlist f' = ivf_nlist f.
Proof.
  intros (Hwf & Hh & Hs) Hdel. destruct (ivf_trained f) eqn:Ht.
  - destruct (ivf_delete_trained_spec f rowid Hwf Ht) as [(i & l & l' & v & E & Hl & W & P)|[E _]];
      rewrite E in Hdel; injection Hdel as <- <-; [|by repeat split; try rewrite Ht; try apply Hwf].
    repeat split; try done; try by apply ivf_wf_set_list.
    + eapply homed_set_list; [done..|]. intros row Hr. left. rewrite P. by right.
    + cbn. by rewrite Ht.
  - unfold ivf_delete_vector in Hdel. rewrite Ht in Hdel. cbn [negb] in Hdel.
    destruct (train_slot f rowid) as [i|]; [|done]. injection Hdel as <- <-.
    destruct Hwf as (W1 & W2 & W3 & W4 & W5 & W6 & W7).
    repeat split; try done; cbn; [by rewrite length_insert|by rewrite Ht].
Qed.

Lemma ivf_delete_contents (f : IVF) (rowid : Z) :
  ivf_inv f -> ivf_trained f = true ->
  exists rc f', ivf_delete_vector f rowid = Some (rc, f') /\
    ((0 <= rc < Z.of_nat (ivf_nlist f))%Z /\
       (exists vec, ivf_contents f ≡ₚ (rowid, vec) :: ivf_contents f')
     \/ rc = (-1)%Z /\ f' = f /\ forall row, row ∈ ivf_contents f -> row.1 <> rowid).
Proof.
  intros (Hwf & Hh & Hs) Ht. rewrite Ht in Hs. unfold ivf_contents. rewrite Hs.
  destruct (ivf_delete_trained_spec f rowid Hwf Ht) as [(i & l & l' & v & E & Hl & W & P)|[E Hno]];
    eexists _, _; (split; [exact E|]); [left|by right].
  destruct Hwf as (_ & Hlen & _). split; [apply lookup_lt_Some in Hl; lia|].
  exists v. destruct (ivf_rows_set_list f i l l' Hl) as (rest & P1 & P2).
  cbn [set_lists ivf_train_size train_rows]. rewrite Hs. cbn [seq fmap list_fmap train_rows app].
  by rewrite P1, P2, P.
Qed.

(** Below its capacity a list is not reallocated. *)
Lemma invlist_append_room (dim : nat) (l : InvertedList) (vec : list f32) (rowid : Z) :
  il_count l < il_cap l ->
  invlist_append l vec dim rowid
  = MkInvList (S (il_count l)) (il_cap l) (<[il_count l := rowid]> (il_rowids l))
      (write_at (il_count l * dim) (take dim vec) (il_vecs l)).
Proof. intros H. unfold invlist_append. by rewrite (proj2 (Nat.leb_gt _ _)) by lia. Qed.

Definition below_1e30 (f : IVF) (vec : list f32) : Prop :=
  f32_ltb (distfunc vec (centroid f 0) (ivf_dim f)) f32_1e30 = true.

(** The update of a trained index: delete, then add to the nearest list if
    that list has room. *)
Lemma ivf_update_trained_spec (f : IVF) (rowid : Z) (vec : list f32) :
  ivf_inv f -> ivf_trained f = true -> length vec = ivf_dim f -> below_1e30 f vec ->
  exists rc f1, ivf_delete_vector f rowid = Some (rc, f1) /\
    ivf_update_vector_reinsert distfunc f rowid vec
    = if (rc <? 0)%Z then Some (SQLITE_OK, f1)
      else match ivf_lists f1 !! home f1 vec with
           | None => None
           | Some l => if il_cap l <=? il_count l then Some (SQLITE_NOMEM, f1)
                       else Some (ivf_add_vector distfunc f1 vec rowid)
           end.
Proof.
  intros Hinv Ht Hv Hb.
  destruct (ivf_delete_contents f rowid Hinv Ht) as (rc & f1 & E & _). exists rc, f1.
  split; [done|]. destruct (ivf_delete_inv f f1 rowid rc Hinv E) as (Hinv1 & Ed & Et & Ec & En).
  unfold ivf_update_vector_reinsert. rewrite Ht, E. cbn [negb].
  destruct (rc <? 0)%Z; [done|].
  assert (Hn : nearest_loop (fun c => distfunc vec (centroid f1 c) (ivf_dim f)) 0
                 (ivf_nlist f1) 0 f32_1e30 = home f1 vec).
  { unfold home, nearest. rewrite Ec, Ed. destruct Hinv1 as ((Hpos & _) & _).
    destruct (ivf_nlist f1) as [|k]; [lia|]. cbn [nearest_loop]. unfold below_1e30 in Hb.
    rewrite Hb. by rewrite Nat.sub_succ, Nat.sub_0_r. }
  cbv zeta. rewrite Hn. destruct (ivf_lists f1 !! home f1 vec) as [l|] eqn:El; [|done].
  destruct (Nat.leb_spec (il_cap l) (il_count l)); [done|].
  unfold ivf_add_vector. fold (home f1 vec). by rewrite El, invlist_append_room, Ed by done.
Qed.

Lemma train_slot_lt (f : IVF) (rowid : Z) (i : nat) :
  train_slot f rowid = Some i -> i < ivf_train_capacity f.
Proof.
  unfold train_slot. destruct (_ && _ && _)%Z eqn:E; [|done]. intros [= <-].
  apply andb_true_iff in E as [[E1%Z.leb_le E2%Z.leb_le]%andb_true_iff _]. lia.
Qed.

Lemma ivf_update_inv (f f' : IVF) (rowid rc : Z) (vec : list f32) :
  ivf_inv f -> length vec = ivf_dim f -> (ivf_trained f = true -> below_1e30 f vec) ->
  ivf_update_vector_reinsert distfunc f rowid vec = Some (rc, f') -> ivf_inv f'.
Proof.
  intros Hinv Hv Hb Hup. destruct (ivf_trained f) eqn:Ht.
  - destruct (ivf_update_trained_spec f rowid vec Hinv Ht Hv (Hb eq_refl)) as (rd & f1 & Hd & E).
    destruct (ivf_delete_inv f f1 rowid rd Hinv Hd) as (Hinv1 & Ed & Et & _).
    rewrite E in Hup. destruct (rd <? 0)%Z; [by injection Hup as <- <-|].
    destruct (ivf_lists f1 !! home f1 vec) as [l|]; [|done].
    destruct (il_cap l <=? il_count l); [by injection Hup as <- <-|].
    pose proof (ivf_insert_inv f1 vec rowid [] Hinv1 ltac:(congruence)) as Hi.
    unfold ivf_insert in Hi. rewrite Et, Ht in Hi. cbn [negb] in Hi.
    injection Hup as Hup. by rewrite Hup in Hi.
  - unfold ivf_update_vector_reinsert in Hup. rewrite Ht in Hup. cbn [negb] in Hup.
    destruct (train_slot f rowid) as [i|] eqn:Es; [|done]. apply train_slot_lt in Es.
    injection Hup as <- <-. destruct Hinv as ((W1 & W2 & W3 & W4 & W5 & W6 & W7) & Hh & Hs).
    repeat split; try done; cbn; rewrite ?take_ge by lia.
    + rewrite length_write_at by (rewrite W4; nia). done.
    + by destruct (aget false _ _); rewrite ?length_insert.
Qed.

Lemma ivf_create_inv (nlist nprobe dim : Z) (f : IVF) :
  ivf_create nlist nprobe dim = Some f -> ivf_inv f.
Proof.
  unfold ivf_create. destruct (_ || _ || _)%Z eqn:E; [done|]. intros Hf. apply (inj Some) in Hf. subst f.
  apply orb_false_iff in E as [[E1%Z.leb_gt E2%Z.leb_gt]%orb_false_iff E3%Z.leb_gt].
  set (l0 := MkInvList 0 _ _ _).
  assert (Hrows : il_rows (Z.to_nat dim) l0 = []) by done.
  assert (Hl : forall i l, replicate (Z.to_nat nlist) l0 !! i = Some l -> l = l0)
    by (intros i l H; by apply lookup_replicate in H as [-> _]).
  split; [|split].
  - repeat split; cbn [ivf_nlist ivf_lists ivf_dim ivf_train_vecs ivf_train_capacity
      ivf_train_rowids ivf_deleted ivf_train_size]; rewrite ?length_replicate; try lia.
    apply Forall_replicate. subst l0. repeat split; cbn [il_count il_cap il_rowids il_vecs];
      rewrite ?length_replicate; unfold IVF_LIST_CAP; lia.
  - intros i l Hi row Hr. apply Hl in Hi as ->. cbn [ivf_dim] in Hr. rewrite Hrows in Hr.
    by apply elem_of_nil in Hr.
  - cbn [ivf_trained]. unfold ivf_rows. cbn [ivf_dim ivf_lists]. clearbody l0.
    induction (Z.to_nat nlist) as [|n IH]; [done|]. cbn. rewrite Hrows. apply IH.
    intros i l Hi. eapply (Hl (S i)). exact Hi.
Qed.

(** ** Indexes reachable by the operations *)

Inductive ivf_reachable : IVF -> Prop :=
| reach_create nlist nprobe dim f :
    ivf_create nlist nprobe dim = Some f -> ivf_reachable f
| reach_insert f vec rowid rand rc f' rand' :
    ivf_reachable f -> length vec = ivf_dim f ->
    ivf_insert distfunc f vec rowid rand = (rc, f', rand') -> ivf_reachable f'
| reach_delete f rowid rc f' :
    ivf_reachable f -> ivf_delete_vector f rowid = Some (rc, f') -> ivf_reachable f'
| reach_update f rowid vec rc f' :
    ivf_reachable f -> length vec = ivf_dim f -> (ivf_trained f = true -> below_1e30 f vec) ->
    ivf_update_vector_reinsert distfunc f rowid vec = Some (rc, f') -> ivf_reachable f'.

(** C29: In every index reachable from [ivf_create] by insertions (error
    returns included), deletions and updates (of vectors closer than 1e30 to
    the first centroid, the update's starting bound), the arrays have their
    sizes, counts stay within capacities, and every stored row is in the
    inverted list of its nearest centroid: no centroid is nearer to the
    vector than that of the list holding it, when distances are numbers. *)
Theorem ivf_reachable_homed (f : IVF) :
  ivf_reachable f ->
  ivf_wf f /\
  forall i l row, ivf_lists f !! i = Some l -> row ∈ il_rows (ivf_dim f) l ->
  (forall c, c < ivf_nlist f -> is_nan (distfunc row.2 (centroid f c) (ivf_dim f)) = false) ->
  forall c, c < ivf_nlist f ->
  f32_leb (distfunc row.2 (centroid f i) (ivf_dim f))
    (distfunc row.2 (centroid f c) (ivf_dim f)) = true.
Proof.
  intros Hr. assert (Hinv : ivf_inv f).
  { induction Hr as [? ? ? f Hc|f v r rnd rc f' rnd' _ IH Hv E|f r rc f' _ IH E|f r v rc f' _ IH Hv Hb E].
    - by eapply ivf_create_inv.
    - pose proof (ivf_insert_inv f v r rnd IH Hv) as H. by rewrite E in H.
    - by eapply ivf_delete_inv in E as [? _].
    - by eapply ivf_update_inv. }
  destruct Hinv as (Hwf & Hh & _). split; [done|]. intros i l row Hi Hrow Hnum c Hc.
  rewrite <- (Hh i l Hi row Hrow) at 1.
  by apply (nearest_min (fun c => distfunc row.2 (centroid f c) (ivf_dim f))).
Qed.

(** Insertion adds exactly the row to what the index holds (training
    buffer and inverted lists together) and returns [SQLITE_OK], in the
    buffer while untrained, through training and flushing when the buffer
    fills (for any random numbers), and in the lists afterwards. *)
Lemma ivf_insert_correct (f : IVF) (vec : list f32) (rowid : Z) (rand : list Z) :
  ivf_inv f -> length vec = ivf_dim f ->
  (ivf_trained f = false ->
     ivf_train_size f < ivf_train_capacity f /\
     aget false (ivf_deleted f) (ivf_train_size f) = false) ->
  exists f' rand', ivf_insert distfunc f vec rowid rand = (SQLITE_OK, f', rand') /\
    ivf_inv f' /\ ivf_contents f' ≡ₚ (rowid, vec) :: ivf_contents f.
Proof. apply ivf_insert_spec. Qed.

(** Deletion from a trained index removes exactly one row with the given
    rowid and returns the index of its list, or returns -1 and changes
    nothing when no row has it; the update of a trained index removes the old
    row and adds the new vector in one step, but when the list of the nearest
    centroid is at its capacity it returns [SQLITE_NOMEM] with the old row
    gone and the new one not stored. *)
Lemma ivf_delete_update_correct (f : IVF) (rowid : Z) (vec : list f32) :
  ivf_inv f -> ivf_trained f = true -> length vec = ivf_dim f -> below_1e30 f vec ->
  exists rc f1, ivf_delete_vector f rowid = Some (rc, f1) /\ ivf_inv f1 /\
    ((0 <= rc < Z.of_nat (ivf_nlist f))%Z /\
       (exists old, ivf_contents f ≡ₚ (rowid, old) :: ivf_contents f1) /\
       (exists rc2 f2, ivf_update_vector_reinsert distfunc f rowid vec = Some (rc2, f2) /\
          ivf_inv f2 /\
          (rc2 = SQLITE_OK /\ ivf_contents f2 ≡ₚ (rowid, vec) :: ivf_contents f1 \/
           rc2 = SQLITE_NOMEM /\ f2 = f1 /\
             exists l, ivf_lists f1 !! home f1 vec = Some l /\ il_cap l <= il_count l))
     \/ rc = (-1)%Z /\ f1 = f /\ (forall row, row ∈ ivf_contents f -> row.1 <> rowid) /\
        ivf_update_vector_reinsert distfunc f rowid vec = Some (SQLITE_OK, f)).
Proof.
  intros Hinv Ht Hv Hb.
  destruct (ivf_update_trained_spec f rowid vec Hinv Ht Hv Hb) as (rc & f1 & Hd & Hu).
  destruct (ivf_delete_inv f f1 rowid rc Hinv Hd) as (Hinv1 & Ed & Et & _).
  exists rc, f1. split; [done|]. split; [done|].
  destruct (ivf_delete_contents f rowid Hinv Ht) as (rc' & f1' & Hd' & Hcase).
  rewrite Hd in Hd'. injection Hd' as <- <-. destruct Hcase as [[Hrc Hold]|(-> & -> & Hno)].
  2:{ right. by rewrite Hu. }
  left. split; [done|]. split; [done|]. rewrite Hu, (proj2 (Z.ltb_ge _ _)) by lia.
  destruct (ivf_insert_spec f1 vec rowid [] Hinv1 ltac:(congruence) ltac:(congruence))
    as (f2 & r2 & Hins & Hinv2 & P). unfold ivf_insert in Hins. rewrite Et, Ht in Hins.
  cbn [negb] in Hins. destruct (ivf_add_vector_spec f1 vec rowid) as (l & Hl & _);
    [apply Hinv1|congruence|]. rewrite Hl.
  destruct (Nat.leb_spec (il_cap l) (il_count l)).
  - exists SQLITE_NOMEM, f1. split; [done|]. split; [done|]. right. eauto.
  - destruct (ivf_add_vector distfunc f1 vec rowid) as [rc2 f3]. injection Hins as -> -> _.
    exists SQLITE_OK, f2. auto.
Qed.

(** Deleting from an untrained index returns -2 and removes nothing:
    the contents are unchanged, and when another buffered vector is left to
    train on, training moves every buffered row, the deleted one included,
    into the inverted lists. *)
Lemma ivf_delete_untrained_resurrects (f : IVF) (rowid : Z) (rand : list Z) (slot i : nat) :
  ivf_inv f -> ivf_trained f = false -> train_slot f rowid = Some slot ->
  i < ivf_train_size f -> i <> slot -> aget false (ivf_deleted f) i = false ->
  exists f1 f2 rand', ivf_delete_vector f rowid = Some ((-2)%Z, f1) /\
    ivf_train_and_flush distfunc f1 rand = (SQLITE_OK, f2, rand') /\
    ivf_contents f1 = ivf_contents f /\ ivf_rows f2 ≡ₚ ivf_contents f.
Proof.
  intros Hinv Ht Hs Hi Hne Hd.
  assert (Hdel : exists f1, ivf_delete_vector f rowid = Some ((-2)%Z, f1) /\
    f1 = set_train f (ivf_train_vecs f) (ivf_train_rowids f) (<[slot := true]> (ivf_deleted f))
           (ivf_train_size f)).
  { unfold ivf_delete_vector. rewrite Ht, Hs. eauto. }
  destruct Hdel as (f1 & Hdel & Hf1).
  destruct (ivf_delete_inv f f1 rowid _ Hinv Hdel) as (Hinv1 & Ed & Et & _).
  destruct (ivf_train_and_flush_spec f1 rand i Hinv1 ltac:(congruence)) as
    (f2 & rand' & Htr & _ & _ & _ & _ & R).
  { by subst f1. }
  { subst f1. cbn. by rewrite aget_insert_ne. }
  exists f1, f2, rand'. assert (Hc : ivf_contents f1 = ivf_contents f) by (by subst f1).
  split; [done|]. split; [done|]. split; [done|].
  rewrite R, <- Hc. unfold ivf_contents. destruct Hinv1 as (_ & _ & Hn).
  rewrite Et, Ht in Hn. by rewrite Hn, app_nil_r.
Qed.

End IndexLemmas.

(** ** Concrete indexes *)

#[export] Instance il_wf_dec (dim : nat) (l : InvertedList) : Decision (il_wf dim l).
Proof. unfold il_wf. apply _. Defined.

#[export] Instance ivf_wf_dec (f : IVF) : Decision (ivf_wf f).
Proof. unfold ivf_wf. apply _. Defined.

(** [homed] as a check over the lists. *)
Definition homedb (distfunc : DistanceFunc) (f : IVF) : bool :=
  forallb (fun p => forallb (fun row => home distfunc f row.2 =? p.1) (il_rows (ivf_dim f) p.2))
    (zip (seq 0 (length (ivf_lists f))) (ivf_lists f)).

Lemma homedb_sound (distfunc : DistanceFunc) (f : IVF) : homedb distfunc f = true -> homed distfunc f.
Proof.
  unfold homedb. rewrite forallb_forall. intros H i l Hl row Hr.
  pose proof (lookup_lt_Some _ _ _ Hl) as Hlt.
  specialize (H (i, l)). cbn [fst snd] in H. rewrite forallb_forall in H.
  apply Nat.eqb_eq, H; [|by apply list_elem_of_In].
  apply list_elem_of_In, (list_elem_of_lookup_2 _ i), lookup_zip_with_Some.
  exists i, l. rewrite lookup_seq. repeat split; auto with lia.
Qed.

Definition ivf_invb (distfunc : DistanceFunc) (f : IVF) : bool :=
  bool_decide (ivf_wf f) && homedb distfunc f &&
  if ivf_trained f then ivf_train_size f =? 0 else length (ivf_rows f) =? 0.

Lemma ivf_invb_sound (distfunc : DistanceFunc) (f : IVF) :
  ivf_invb distfunc f = true -> ivf_inv distfunc f.
Proof.
  unfold ivf_invb, ivf_inv. rewrite !andb_true_iff, bool_decide_eq_true.
  intros [[H1 H2%homedb_sound] H3]. split; [done|]. split; [done|].
  destruct (ivf_trained f); [by apply Nat.eqb_eq|]. by apply nil_length_inv, Nat.eqb_eq.
Qed.

Definition f32v (l : list Z) : list f32 := f32_of_Z <$> l.

(** Two lists over the line, centroids 0 and 10, capacity 2 each. *)
Definition line_ivf : IVF :=
  MkIVF 2 1 1 (f32v [0; 10]%Z)
    [MkInvList 2 2 [1; 2]%Z (f32v [1; 2]%Z); MkInvList 1 2 [3; 0]%Z (f32v [9; 0]%Z)]
    (f32v [0; 0; 0]%Z) [0; 0; 0]%Z [false; false; false] 0 3 true.

(** Two rows buffered of three. *)
Definition buffered_ivf : IVF :=
  MkIVF 2 1 1 (f32v [0; 0]%Z)
    [MkInvList 0 2 [0; 0]%Z (f32v [0; 0]%Z); MkInvList 0 2 [0; 0]%Z (f32v [0; 0]%Z)]
    (f32v [1; 9; 0]%Z) [1; 2; 0]%Z [false; false; false] 2 3 false.

(** Inserting rows 1, 2, ... with the given one-dimensional vectors. *)
Fixpoint insert_all (distfunc : DistanceFunc) (f : IVF) (rowid : Z) (xs : list Z) : IVF :=
  match xs with
  | [] => f
  | x :: xs =>
      insert_all distfunc (ivf_insert distfunc f (f32v [x]) rowid []).1.2 (rowid + 1)%Z xs
  end.

Lemma ivf_insert_dim (distfunc : DistanceFunc) (f : IVF) (vec : list f32) (rowid : Z) (rand : list Z) :
  ivf_inv distfunc f -> length vec = ivf_dim f ->
  ivf_dim (ivf_insert distfunc f vec rowid rand).1.2 = ivf_dim f.
Proof.
  intros Hinv Hv. unfold ivf_insert. destruct (ivf_trained f) eqn:Ht; cbn [negb].
  - by destruct (ivf_add_vector_spec distfunc f vec rowid (proj1 Hinv) Hv) as (l & _ & -> & _).
  - unfold ivf_add_to_train. destruct (_ <=? _) eqn:E; [done|]. apply Nat.leb_gt in E.
    destruct (ivf_add_to_train_spec distfunc f vec rowid Hinv Ht Hv E) as (f1 & E1 & Hinv1 & Ht1 & _).
    unfold ivf_add_to_train in E1. rewrite (proj2 (Nat.leb_gt _ _) E) in E1.
    injection E1 as E1. rewrite E1. assert (Hd : ivf_dim f1 = ivf_dim f) by (by subst f1).
    change (SQLITE_OK =? SQLITE_OK)%Z with true. cbn [negb]. cbv iota.
    destruct (_ <=? _); [|done]. destruct (decide (valid_indices f1 = [])) as [En|En].
    + by rewrite ivf_train_and_flush_none.
    + apply valid_indices_witness in En as (i & Hi & Hdl). rewrite <- Hd.
      by destruct (ivf_train_and_flush_spec distfunc f1 rand i Hinv1 Ht1 Hi Hdl)
        as (f2 & r2 & -> & _ & _ & _ & Hd2 & _).
Qed.

Lemma insert_all_reachable (distfunc : DistanceFunc) (xs : list Z) (f : IVF) (rowid : Z) :
  ivf_reachable distfunc f -> ivf_inv distfunc f -> ivf_dim f = 1 ->
  ivf_reachable distfunc (insert_all distfunc f rowid xs).
Proof.
  revert f rowid. induction xs as [|x xs IH]; intros f rowid Hr Hinv Hd; [done|]. cbn [insert_all].
  assert (Hv : length (f32v [x]) = ivf_dim f) by done. apply IH.
  - destruct (ivf_insert distfunc f (f32v [x]) rowid []) as [[rc f'] r'] eqn:E.
    by eapply reach_insert.
  - by apply ivf_insert_inv.
  - by rewrite ivf_insert_dim.
Qed.

Definition big_ivf : IVF :=
  match ivf_create 2 1 1 with
  | Some f => insert_all sq_distance f 1 (Z.of_nat <$> seq 0 1024)
  | None => line_ivf
  end.

Lemma ivf_reachable_homed_witness :
  ivf_reachable sq_distance big_ivf /\ ivf_wf big_ivf /\ ivf_trained big_ivf = true.
Proof.
  assert (Hr : ivf_reachable sq_distance big_ivf).
  { unfold big_ivf. destruct (ivf_create 2 1 1) as [f|] eqn:E; [|vm_compute in E; discriminate].
    apply insert_all_reachable; [by eapply reach_create|by eapply ivf_create_inv|].
    clear -E. unfold ivf_create in E. apply (inj Some) in E. by subst f. }
  split; [exact Hr|]. destruct (ivf_reachable_homed sq_distance big_ivf Hr) as [Hw _].
  split; [exact Hw|vm_compute; reflexivity].
Defined.

Lemma ivf_insert_correct_witness :
  exists f' rand', ivf_insert sq_distance buffered_ivf (f32v [5]%Z) 3 [7]%Z = (SQLITE_OK, f', rand') /\
    ivf_inv sq_distance f' /\
    ivf_contents f' ≡ₚ (3%Z, f32v [5]%Z) :: ivf_contents buffered_ivf.
Proof.
  destruct (ivf_insert_correct sq_distance buffered_ivf (f32v [5]%Z) 3 [7]%Z) as (f' & r' & H).
  - apply ivf_invb_sound. vm_compute. reflexivity.
  - reflexivity.
  - intros _. split; [vm_compute; lia|reflexivity].
  - exists f', r'. exact H.
Defined.

(** Row 3 moves next to rows 1 and 2, whose list is full. *)
Lemma ivf_delete_update_correct_witness :
  exists rc f1, ivf_delete_vector line_ivf 3 = Some (rc, f1) /\ ivf_inv sq_distance f1 /\
    ivf_update_vector_reinsert sq_distance line_ivf 3 (f32v [3]%Z) = Some (SQLITE_NOMEM, f1).
Proof.
  destruct (ivf_delete_update_correct sq_distance line_ivf 3 (f32v [3]%Z)) as (rc & f1 & Hd & Hi & _).
  - apply ivf_invb_sound. vm_compute. reflexivity.
  - reflexivity.
  - reflexivity.
  - vm_compute. reflexivity.
  - exists rc, f1. split; [exact Hd|]. split; [exact Hi|].
    vm_compute in Hd. injection Hd as <- <-. vm_compute. reflexivity.
Defined.

Lemma ivf_delete_untrained_resurrects_witness :
  exists f1 f2 rand', ivf_delete_vector buffered_ivf 1 = Some ((-2)%Z, f1) /\
    ivf_train_and_flush sq_distance f1 [5]%Z = (SQLITE_OK, f2, rand') /\
    ivf_contents f1 = ivf_contents buffered_ivf /\ ivf_rows f2 ≡ₚ ivf_contents buffered_ivf.
Proof.
  apply (ivf_delete_untrained_resurrects sq_distance buffered_ivf 1 [5]%Z 0 1).
  - apply ivf_invb_sound. vm_compute. reflexivity.
  - reflexivity.
  - reflexivity.
  - cbn. lia.
  - lia.
  - reflexivity.
Defined.
