(* ===== verification/IVFSearch.v ===== *)
(** * K-nearest-neighbour search in the inverted-file index
    (sqlite-vec.c, [select_nprobe], [ivf_search])

    The [nprobe] lists of the nearest centroids are scanned.  The first
    [topk] rows that pass the filter fill an array, which is then made a
    max-heap on the distance; each later row replaces the root if it is
    nearer.  The final loop takes the root out repeatedly.  The array is only
    a heap once it is full: with fewer than [topk] rows the final loop
    returns them in an order that need not be sorted. *)

From stdpp Require Import base list numbers sets sorting.
From Stdlib Require Import ZArith Lia SpecFloat.
From S2P Require Import Prelude Float32 TopK CLib KDSearch IVF.

(** ** The model *)

Section Search.
Context (distfunc : DistanceFunc).

(** The inner scan of the selection: [j .. nlist-1] with [n] steps left. *)
Fixpoint select_best (dists : list f32) (idxs : list nat) (j n best : nat) : nat :=
  match n with
  | O => best
  | S n =>
      select_best dists idxs (S j) n
        (if f32_ltb (aget f32_zero dists (aget 0 idxs j)) (aget f32_zero dists (aget 0 idxs best))
         then j else best)
  end.

(** The outer loop, returning [out_ids] from position [i]. *)
Fixpoint select_loop (dists : list f32) (nlist : nat) (idxs : list nat) (i n : nat) : list nat :=
  match n with
  | O => []
  | S n =>
      let best := select_best dists idxs (S i) (nlist - S i) i in
      let idxs := aswap 0 idxs i best in
      aget 0 idxs i :: select_loop dists nlist idxs (S i) n
  end.

Definition select_nprobe (f : IVF) (query : list f32) (nprobe : nat) : list nat :=
  let nlist := ivf_nlist f in
  let dists := (fun i => distfunc query (centroid f i) (ivf_dim f)) <$> seq 0 nlist in
  let nprobe := if nlist <? nprobe then nlist else nprobe in
  select_loop dists nlist (seq 0 nlist) 0 nprobe.

(** The heap: [Hit] records, the first [n] of them live. *)
Abbreviation Hit := (f32 * Z)%type.
Definition no_hit : Hit := (f32_zero, 0%Z).
Definition hit_dist (heap : list Hit) (i : nat) : f32 := (aget no_hit heap i).1.

(** The [while (1)] loop; the index grows, so [n] steps are enough. *)
Fixpoint sift_down (fuel : nat) (heap : list Hit) (n idx : nat) : list Hit :=
  match fuel with
  | O => heap
  | S fuel =>
      let l := idx * 2 + 1 in
      let r := l + 1 in
      let largest := idx in
      let largest := if (l <? n) && f32_ltb (hit_dist heap largest) (hit_dist heap l)
                     then l else largest in
      let largest := if (r <? n) && f32_ltb (hit_dist heap largest) (hit_dist heap r)
                     then r else largest in
      if largest =? idx then heap
      else sift_down fuel (aswap no_hit heap idx largest) n largest
  end.

(** [for (p = topk / 2 - 1; p >= 0; p--)]: positions [p-1 .. 0]. *)
Fixpoint heapify (heap : list Hit) (n p : nat) : list Hit :=
  match p with
  | O => heap
  | S p => heapify (sift_down n heap n p) n p
  end.

(** One row that passed the filter. *)
Definition heap_hit (topk : nat) (heap : list Hit) (h : Hit) : list Hit :=
  if length heap <? topk then
    let heap := heap ++ [h] in
    if length heap =? topk then heapify heap topk (topk / 2) else heap
  else if f32_ltb h.1 (hit_dist heap 0) then sift_down topk (<[0 := h]> heap) topk 0
  else heap.

(** The rows of one list from position [j], [n] left. *)
Fixpoint scan_list (f : IVF) (query : list f32) (map : RowidMap) (topk : nat)
    (lst : InvertedList) (heap : list Hit) (j n : nat) : list Hit :=
  match n with
  | O => heap
  | S n =>
      let rid := aget 0%Z (il_rowids lst) j in
      let heap :=
        if rowid_map_pass map rid then
          let v := slice (j * ivf_dim f) (ivf_dim f) (il_vecs lst) in
          heap_hit topk heap (distfunc query v (ivf_dim f), rid)
        else heap in
      scan_list f query map topk lst heap (S j) n
  end.

Fixpoint scan_lists (f : IVF) (query : list f32) (map : RowidMap) (topk : nat)
    (cent_ids : list nat) (heap : list Hit) : list Hit :=
  match cent_ids with
  | [] => heap
  | c :: cent_ids =>
      let lst := aget (MkInvList 0 0 [] []) (ivf_lists f) c in
      scan_lists f query map topk cent_ids (scan_list f query map topk lst heap 0 (il_count lst))
  end.

(** Taking the root out [n] times, filling the result from the back. *)
Fixpoint heap_drain (heap : list Hit) (n : nat) (buf : list Hit) : list Hit :=
  match n with
  | O => buf
  | S n =>
      let top := aget no_hit heap 0 in
      let heap := take n (<[0 := aget no_hit heap n]> heap) in
      heap_drain (if 0 <? n then sift_down n heap n 0 else heap) n (top :: buf)
  end.

Definition ivf_search (f : IVF) (query : list f32) (topk nprobe_override : Z) (map : RowidMap)
    : list Hit :=
  if (topk <=? 0)%Z then []
  else
    let nprobe := if (0 <? nprobe_override)%Z then Z.to_nat nprobe_override else ivf_nprobe f in
    let nprobe := if ivf_nlist f <? nprobe then ivf_nlist f else nprobe in
    let cent_ids := select_nprobe f query nprobe in
    let heap := scan_lists f query map (Z.to_nat topk) cent_ids [] in
    heap_drain heap (length heap) [].

(** ** Selection of the lists to probe *)

Section Select.
Context (dists : list f32) (nlist : nat) (dist : nat -> f32).
Hypothesis Hdist : forall i, i < nlist -> aget f32_zero dists i = dist i.
Hypothesis Hnum : forall i, i < nlist -> is_nan (dist i) = false.

Lemma select_best_spec (idxs : list nat) (lo n j best : nat) :
  length idxs = nlist -> (forall i, i ∈ idxs -> i < nlist) ->
  lo <= best < j -> j + n = nlist ->
  (forall i, lo <= i < j -> f32_leb (dist (aget 0 idxs best)) (dist (aget 0 idxs i)) = true) ->
  let b := select_best dists idxs j n best in
  lo <= b < nlist /\
  forall i, lo <= i < nlist -> f32_leb (dist (aget 0 idxs b)) (dist (aget 0 idxs i)) = true.
Proof.
  intros Hl Hin. revert j best. induction n as [|n IH]; intros j best Hb Hj Hle; cbn [select_best].
  { split; [lia|]. intros i Hi. apply Hle. lia. }
  assert (Hget : forall i, i < nlist -> aget 0 idxs i < nlist).
  { intros i Hi. apply Hin. eapply list_elem_of_lookup_2, aget_lookup_lt. lia. }
  rewrite !Hdist by (apply Hget; lia).
  pose proof (Hnum _ (Hget j ltac:(lia))). pose proof (Hnum _ (Hget best ltac:(lia))).
  apply IH; [destruct (f32_ltb _ _); lia|lia|]. intros i Hi.
  destruct (f32_ltb (dist (aget 0 idxs j)) (dist (aget 0 idxs best))) eqn:E.
  - destruct (decide (i = j)) as [->|]; [by apply f32_leb_refl|].
    eapply f32_leb_trans; [by apply f32_ltb_leb|]. apply Hle. lia.
  - destruct (decide (i = j)) as [->|]; [by apply f32_nlt_leb|]. apply Hle. lia.
Qed.

Lemma select_loop_spec (n i : nat) (idxs : list nat) :
  length idxs = nlist -> (forall x, x ∈ idxs -> x < nlist) -> i + n <= nlist ->
  exists rest, let out := select_loop dists nlist idxs i n in
    drop i idxs ≡ₚ out ++ rest /\ length out = n /\ StronglySorted (le_by dist) out /\
    forall x y, x ∈ out -> y ∈ rest -> le_by dist x y.
Proof.
  revert i idxs. induction n as [|n IH]; intros i idxs Hl Hin Hi; cbn [select_loop].
  { exists (drop i idxs). split; [done|]. split; [done|]. split; [constructor|].
    intros x y Hx. by apply elem_of_nil in Hx. }
  destruct (select_best_spec idxs i (nlist - S i) (S i) i) as [Hb Hmin]; [done..|lia|lia| |].
  { intros k Hk. replace k with i by lia. apply f32_leb_refl, Hnum, Hin.
    eapply list_elem_of_lookup_2, aget_lookup_lt. lia. }
  set (best := select_best _ _ _ _ _) in *. cbv zeta.
  destruct (drop_aswap 0 idxs i best) as [P E]; [lia..|].
  assert (Hhd : aget 0 (aswap 0 idxs i best) i = aget 0 idxs best).
  { rewrite aget_aswap by lia. by rewrite decide_True. }
  rewrite Hhd. destruct (IH (S i) (aswap 0 idxs i best)) as (rest & Pr & Hlen & Hs & Hle).
  { by rewrite length_aswap. }
  { intros x. rewrite aswap_Permutation by lia. apply Hin. }
  { lia. }
  set (out := select_loop _ _ _ _ _) in *. exists rest.
  assert (Hall : forall y, y ∈ drop (S i) (aswap 0 idxs i best) -> le_by dist (aget 0 idxs best) y).
  { intros y Hy. assert (Hy' : y ∈ drop i idxs) by (rewrite <- P, E; by right).
    apply list_elem_of_lookup in Hy' as [k Hk]. rewrite lookup_drop in Hk.
    pose proof (lookup_lt_Some _ _ _ Hk). unfold le_by.
    rewrite <- (aget_lookup 0 _ _ _ Hk). apply Hmin. lia. }
  split; [by rewrite <- P, E, Pr|]. split; [cbn; lia|]. split.
  - constructor; [done|]. apply Forall_forall. intros y Hy. apply Hall. rewrite Pr.
    apply elem_of_app. by left.
  - intros x y [->|Hx]%elem_of_cons Hy; [|by apply Hle]. apply Hall. rewrite Pr.
    apply elem_of_app. by right.
Qed.

End Select.

Definition centroid_dist (f : IVF) (query : list f32) (c : nat) : f32 :=
  distfunc query (centroid f c) (ivf_dim f).

Lemma select_nprobe_spec (f : IVF) (query : list f32) (nprobe : nat) :
  all_num (centroid_dist f query) (seq 0 (ivf_nlist f)) ->
  let out := select_nprobe f query nprobe in
  topk_of (centroid_dist f query) nprobe (seq 0 (ivf_nlist f)) out /\
  StronglySorted (le_by (centroid_dist f query)) out /\ NoDup out.
Proof.
  intros Hnum. unfold select_nprobe. set (nl := ivf_nlist f) in *.
  set (np := if nl <? nprobe then nl else nprobe).
  assert (Hnp : np = min nprobe nl) by (subst np; destruct (Nat.ltb_spec nl nprobe); lia).
  set (dists := _ <$> seq 0 nl). destruct (select_loop_spec dists nl (centroid_dist f query))
    with (n := np) (i := 0) (idxs := seq 0 nl) as (rest & P & Hl & Hs & Hle).
  - intros i Hi. subst dists. unfold aget. by rewrite lookup_fmap_seq0.
  - intros i Hi. apply Hnum, elem_of_seq. lia.
  - apply length_seq.
  - intros x. rewrite elem_of_seq. lia.
  - lia.
  - rewrite drop_0 in P. split; [|split; [done|]].
    + exists rest. split; [done|]. split; [rewrite length_seq; lia|done].
    + assert (Hnd : NoDup (seq 0 nl)) by apply NoDup_seq. rewrite P in Hnd.
      by apply NoDup_app in Hnd as [? _].
Qed.

(** ** The heap *)

Definition child (c i : nat) : Prop := c = i * 2 + 1 \/ c = i * 2 + 2.

Definition hits_num (heap : list Hit) : Prop := all_num fst heap.

(** The heap order at and below position [p], and the same except that the
    element at [idx] may be too small for its place. *)
Definition heap_from (p : nat) (heap : list Hit) : Prop :=
  forall i c, p <= i -> child c i -> c < length heap ->
  f32_leb (hit_dist heap c) (hit_dist heap i) = true.

Definition heap_except (p idx : nat) (heap : list Hit) : Prop :=
  (forall i c, p <= i -> i <> idx -> child c i -> c < length heap ->
     f32_leb (hit_dist heap c) (hit_dist heap i) = true) /\
  (forall i c, p <= i -> child idx i -> child c idx -> c < length heap ->
     f32_leb (hit_dist heap c) (hit_dist heap i) = true).

Lemma hits_num_get (heap : list Hit) (i : nat) :
  hits_num heap -> i < length heap -> is_nan (hit_dist heap i) = false.
Proof. intros Hn Hi. apply Hn. eapply list_elem_of_lookup_2. by apply aget_lookup_lt. Qed.

Lemma all_num_Permutation {A : Type} (d : A -> f32) (l l' : list A) :
  l ≡ₚ l' -> all_num d l -> all_num d l'.
Proof. intros P H x Hx. apply H. by rewrite P. Qed.

(** The choice of the largest of a node and its children. *)
Lemma largest_spec (heap : list Hit) (idx : nat) :
  hits_num heap -> idx < length heap ->
  let n := length heap in
  let m := if (idx * 2 + 1 <? n) && f32_ltb (hit_dist heap idx) (hit_dist heap (idx * 2 + 1))
           then idx * 2 + 1 else idx in
  let m := if (idx * 2 + 1 + 1 <? n) && f32_ltb (hit_dist heap m) (hit_dist heap (idx * 2 + 1 + 1))
           then idx * 2 + 1 + 1 else m in
  (forall c, child c idx -> c < n -> f32_leb (hit_dist heap c) (hit_dist heap m) = true) /\
  (m = idx \/ child m idx /\ m < n /\ f32_ltb (hit_dist heap idx) (hit_dist heap m) = true).
Proof.
  intros Hn Hi. cbv zeta. unfold child.
  pose proof (hits_num_get heap idx Hn Hi) as Hni.
  replace (idx * 2 + 1 + 1) with (idx * 2 + 2) by lia.
  assert (Hnl := hits_num_get heap (idx * 2 + 1) Hn). assert (Hnr := hits_num_get heap (idx * 2 + 2) Hn).
  destruct (Nat.ltb_spec (idx * 2 + 1) (length heap)) as [Hl|Hl]; cbn [andb].
  2:{ rewrite (proj2 (Nat.ltb_ge (idx * 2 + 2) _)) by lia. cbn [andb]. split; [|by left].
      intros c [->| ->] Hc; lia. }
  specialize (Hnl Hl).
  destruct (f32_ltb (hit_dist heap idx) (hit_dist heap (idx * 2 + 1))) eqn:E1;
    (destruct (Nat.ltb_spec (idx * 2 + 2) (length heap)) as [Hr|Hr]; cbn [andb];
      [specialize (Hnr Hr)|]).
  - destruct (f32_ltb (hit_dist heap (idx * 2 + 1)) (hit_dist heap (idx * 2 + 2))) eqn:E2.
    + split; [intros c [->| ->] _; [by apply f32_ltb_leb|by apply f32_leb_refl]|].
      right. split; [auto|]. split; [done|]. by eapply f32_ltb_trans.
    + split; [intros c [->| ->] _; [by apply f32_leb_refl|by apply f32_nlt_leb]|]. right. auto.
  - split; [intros c [->| ->] ?; [by apply f32_leb_refl|lia]|]. right. auto.
  - destruct (f32_ltb (hit_dist heap idx) (hit_dist heap (idx * 2 + 2))) eqn:E2.
    + split; [|right; auto]. intros c [->| ->] _; [|by apply f32_leb_refl].
      eapply f32_leb_trans; [apply f32_nlt_leb, E1; done|by apply f32_ltb_leb].
    + split; [|by left]. intros c [->| ->] _; by apply f32_nlt_leb.
  - split; [|by left]. intros c [->| ->] ?; [by apply f32_nlt_leb|lia].
Qed.

Lemma heap_except_swap (p idx m : nat) (heap : list Hit) :
  p <= idx -> idx < length heap -> m < length heap -> child m idx ->
  heap_except p idx heap -> f32_ltb (hit_dist heap idx) (hit_dist heap m) = true ->
  (forall c, child c idx -> c < length heap -> f32_leb (hit_dist heap c) (hit_dist heap m) = true) ->
  heap_except p m (aswap no_hit heap idx m).
Proof.
  intros Hp Hi Hm Hch [He Hg] Hlt Hmax.
  assert (Hget : forall k, hit_dist (aswap no_hit heap idx m) k =
    if decide (k = idx) then hit_dist heap m
    else if decide (k = m) then hit_dist heap idx else hit_dist heap k).
  { intros k. unfold hit_dist. rewrite aget_aswap by done. by repeat case_decide. }
  assert (Hne : m <> idx) by (destruct Hch; lia).
  split; intros i c Hpi; rewrite length_aswap; rewrite !Hget.
  - intros Him Hc Hlc. rewrite (decide_False (P := i = m)) by done.
    destruct (decide (i = idx)) as [->|Hii].
    + rewrite (decide_False (P := c = idx)) by (destruct Hc; lia).
      case_decide; [by apply f32_ltb_leb|by apply Hmax].
    + destruct (decide (c = idx)) as [->|Hci]; [by apply (Hg i m)|].
      rewrite decide_False by (destruct Hc, Hch; lia). by apply He.
  - intros Hmi Hc Hlc. assert (i = idx) as -> by (destruct Hmi, Hch; lia).
    rewrite (decide_True (P := idx = idx)) by done.
    rewrite (decide_False (P := c = idx)), (decide_False (P := c = m)) by (destruct Hc, Hch; lia).
    apply He; [destruct Hch; lia|done..].
Qed.

Lemma sift_down_spec (fuel p idx : nat) (heap : list Hit) :
  hits_num heap -> p <= idx -> idx < length heap -> length heap <= idx + fuel ->
  heap_except p idx heap ->
  sift_down fuel heap (length heap) idx ≡ₚ heap /\
  heap_from p (sift_down fuel heap (length heap) idx).
Proof.
  revert idx heap. induction fuel as [|fuel IH]; intros idx heap Hn Hp Hi Hf Hex; [lia|].
  cbn [sift_down]. destruct (largest_spec heap idx Hn Hi) as [Hmax Hcase].
  set (m := if (idx * 2 + 1 + 1 <? _) && _ then _ else _) in *. cbv zeta.
  destruct Hcase as [E|(Hch & Hm & Hlt)].
  - rewrite E, Nat.eqb_refl. split; [done|]. intros i c Hpi Hc Hlc.
    destruct (decide (i = idx)) as [->|]; [rewrite E in Hmax; by apply Hmax|by apply (proj1 Hex)].
  - rewrite (proj2 (Nat.eqb_neq m idx)) by (destruct Hch; lia).
    assert (P : aswap no_hit heap idx m ≡ₚ heap) by (by apply aswap_Permutation).
    rewrite <- (length_aswap no_hit heap idx m).
    destruct (IH m (aswap no_hit heap idx m)) as [P' Hh'].
    + by eapply all_num_Permutation.
    + destruct Hch; lia.
    + by rewrite length_aswap.
    + rewrite length_aswap. destruct Hch; lia.
    + by apply heap_except_swap.
    + split; [by rewrite P'|done].
Qed.

Lemma heap_from_except (p : nat) (heap : list Hit) : heap_from (S p) heap -> heap_except p p heap.
Proof.
  intros H. split.
  - intros i c Hi Hne Hc Hl. apply H; [lia|done..].
  - intros i c Hi Hc. destruct Hc; lia.
Qed.

Lemma heapify_spec (p : nat) (heap : list Hit) :
  hits_num heap -> p <= length heap -> heap_from p heap ->
  heapify heap (length heap) p ≡ₚ heap /\ heap_from 0 (heapify heap (length heap) p).
Proof.
  revert heap. induction p as [|p IH]; intros heap Hn Hp Hh; [done|]. cbn [heapify].
  destruct (sift_down_spec (length heap) p p heap) as [P Hh']; [done|lia|lia|lia| |].
  { by apply heap_from_except. }
  set (h' := sift_down _ _ _ _) in *. rewrite <- (Permutation_length P).
  destruct (IH h') as [P2 H2]; [by eapply all_num_Permutation|apply Permutation_length in P; lia|done|].
  split; [by rewrite P2|done].
Qed.

(** Above the middle there are no children. *)
Lemma heap_from_half (heap : list Hit) : heap_from (length heap / 2) heap.
Proof.
  intros i c Hi Hc Hl. pose proof (Nat.div_mod_eq (length heap) 2).
  pose proof (Nat.mod_upper_bound (length heap) 2 ltac:(lia)). destruct Hc; lia.
Qed.

(** The root of a heap is a maximum. *)
Lemma heap_root_max (heap : list Hit) (x : Hit) :
  hits_num heap -> heap_from 0 heap -> x ∈ heap -> le_by fst x (aget no_hit heap 0).
Proof.
  intros Hn Hh [i Hi]%list_elem_of_lookup. pose proof (lookup_lt_Some _ _ _ Hi) as Hlt.
  rewrite <- (aget_lookup no_hit _ _ _ Hi). clear Hi x. revert Hlt.
  induction i as [i IH] using lt_wf_ind. intros Hlt. destruct (decide (i = 0)) as [->|H0].
  { apply le_by_refl. by apply hits_num_get. }
  assert (Hpar : exists q, child i q).
  { destruct (Nat.Even_or_Odd i) as [[q Hq]|[q Hq]]; [exists (q - 1)|exists q]; unfold child; lia. }
  destruct Hpar as [q Hq]. eapply le_by_trans; [apply (Hh q); [lia|done..]|].
  apply IH; destruct Hq; lia.
Qed.

Lemma sift_down_Permutation (fuel idx : nat) (heap : list Hit) :
  idx < length heap -> sift_down fuel heap (length heap) idx ≡ₚ heap.
Proof.
  revert idx heap. induction fuel as [|fuel IH]; intros idx heap Hi; [done|]. cbn [sift_down].
  set (m := if (idx * 2 + 1 + 1 <? _) && _ then _ else _). cbv zeta.
  assert (Hm : m < length heap).
  { subst m. destruct (Nat.ltb_spec (idx * 2 + 1 + 1) (length heap)), (Nat.ltb_spec (idx * 2 + 1) (length heap));
      cbn [andb]; repeat destruct (f32_ltb _ _); lia. }
  destruct (m =? idx); [done|]. rewrite <- (length_aswap no_hit heap idx m).
  rewrite IH by (by rewrite length_aswap). by apply aswap_Permutation.
Qed.

(** Replacing the root keeps the order everywhere else. *)
Lemma heap_except_root (heap : list Hit) (h : Hit) :
  heap_from 0 heap -> heap_except 0 0 (<[0 := h]> heap).
Proof.
  intros Hh. split; intros i c Hi; [|intros Hc; destruct Hc; lia].
  intros Hne Hc Hl. rewrite length_insert in Hl. unfold hit_dist.
  rewrite !aget_insert_ne by (destruct Hc; lia). by apply Hh.
Qed.

(** What the array holds while the rows [cands] have been seen. *)
Definition heap_inv (topk : nat) (cands : list Hit) (heap : list Hit) : Prop :=
  topk_of fst topk cands heap /\ (length heap = topk -> heap_from 0 heap).

Lemma heap_hit_inv (topk : nat) (cands heap : list Hit) (h : Hit) :
  0 < topk -> all_num fst (h :: cands) -> heap_inv topk cands heap ->
  heap_inv topk (h :: cands) (heap_hit topk heap h).
Proof.
  intros Hk Hnum [Ht Hh]. pose proof Hnum as [Hnh Hnc]%all_num_cons.
  pose proof (all_num_topk _ _ _ _ Ht Hnc) as Hn.
  assert (Hlen : length heap <= topk) by (destruct Ht as (? & _ & El & _); rewrite El; apply Nat.le_min_l).
  unfold heap_hit. destruct (Nat.ltb_spec (length heap) topk) as [Hlt|Hge].
  - assert (Ht' : topk_of fst topk (h :: cands) (heap ++ [h])).
    { eapply topk_of_Permutation; [done|apply Permutation_cons_append|]. by apply topk_of_add_room. }
    destruct (Nat.eqb_spec (length (heap ++ [h])) topk) as [E|E]; [|by split].
    rewrite <- E. destruct (heapify_spec (length (heap ++ [h]) / 2) (heap ++ [h])) as [P H'].
    + by eapply all_num_topk.
    + apply Nat.Div0.div_le_upper_bound. lia.
    + apply heap_from_half.
    + split; [|done]. eapply topk_of_Permutation; [done|symmetry; exact P|]. by rewrite E.
  - assert (E : length heap = topk) by lia. specialize (Hh E).
    assert (Hroot : heap !! 0 = Some (aget no_hit heap 0)) by (apply aget_lookup_lt; lia).
    destruct (f32_ltb h.1 (hit_dist heap 0)) eqn:Elt.
    + destruct (insert_Permutation heap 0 _ h Hroot) as (r & P1 & P2).
      assert (Hnr : all_num fst r).
      { eapply all_num_Permutation in Hn; [|exact P1]. by apply all_num_cons in Hn as [_ ?]. }
      rewrite <- E. rewrite <- (length_insert heap 0 h).
      destruct (sift_down_spec (length (<[0:=h]> heap)) 0 0 (<[0:=h]> heap)) as [P H'].
      * eapply all_num_Permutation; [symmetry; exact P2|]. by apply all_num_cons.
      * done.
      * rewrite length_insert. lia.
      * lia.
      * by apply heap_except_root.
      * split; [|done].
        eapply topk_of_Permutation; [done|symmetry; rewrite P; exact P2|]. rewrite length_insert, E.
        eapply topk_of_replace with (w := aget no_hit heap 0); [|apply Permutation_length in P1; cbn in *; lia|done| |].
        -- eapply topk_of_Permutation; [done|exact P1|done].
        -- intros y Hy. apply heap_root_max; [done|done|]. rewrite P1. by right.
        -- by apply f32_ltb_leb.
    + split; [|done]. apply topk_of_add_worse; [done|done|]. intros y Hy.
      eapply le_by_trans; [by apply heap_root_max|].
      apply f32_nlt_leb; [done| |done]. apply hits_num_get; [done|lia].
Qed.

Lemma foldl_heap_hit_inv (topk : nat) (hits cands heap : list Hit) :
  0 < topk -> all_num fst (hits ++ cands) -> heap_inv topk cands heap ->
  heap_inv topk (hits ++ cands) (foldl (heap_hit topk) heap hits).
Proof.
  intros Hk. revert cands heap. induction hits as [|h hits IH]; intros cands heap Hn Hh; [done|].
  cbn [foldl app]. assert (P : hits ++ h :: cands ≡ₚ h :: hits ++ cands) by (by rewrite Permutation_middle).
  destruct (IH (h :: cands) (heap_hit topk heap h)) as [T H].
  - by eapply all_num_Permutation.
  - apply heap_hit_inv; [done| |done]. cbn [app] in Hn. apply all_num_cons in Hn as [? Hn].
    apply all_num_app in Hn as [? ?]. by apply all_num_cons.
  - split; [|done]. by eapply topk_of_Permutation; [exact P|done|].
Qed.

(** The rows of a list that pass the filter, with their distances. *)
Definition row_hits (f : IVF) (query : list f32) (map : RowidMap) (rows : list (Z * list f32))
    : list Hit :=
  (fun row => (distfunc query row.2 (ivf_dim f), row.1))
    <$> filter (fun row => rowid_map_pass map row.1 = true) rows.

Lemma row_hits_app (f : IVF) (query : list f32) (map : RowidMap) (l l' : list (Z * list f32)) :
  row_hits f query map (l ++ l') = row_hits f query map l ++ row_hits f query map l'.
Proof. unfold row_hits. by rewrite filter_app, fmap_app. Qed.

Lemma scan_list_foldl (f : IVF) (query : list f32) (map : RowidMap) (topk : nat)
    (lst : InvertedList) (n j : nat) (heap : list Hit) :
  j + n = il_count lst ->
  scan_list f query map topk lst heap j n
  = foldl (heap_hit topk) heap (row_hits f query map (drop j (il_rows (ivf_dim f) lst))).
Proof.
  revert j heap. induction n as [|n IH]; intros j heap Hj; cbn [scan_list].
  { by rewrite drop_ge by (rewrite il_rows_length; lia). }
  rewrite IH by lia. assert (Hlt : j < il_count lst) by lia.
  rewrite (drop_S _ _ j (il_rows_lookup (ivf_dim f) lst j Hlt)). unfold row_hits at 2.
  destruct (rowid_map_pass map (aget 0%Z (il_rowids lst) j)) eqn:E.
  - by rewrite filter_cons_True.
  - rewrite filter_cons_False; [done|]. cbn. by rewrite E.
Qed.

(** The rows of the lists a search probes. *)
Definition list_at (f : IVF) (c : nat) : InvertedList :=
  aget (MkInvList 0 0 [] []) (ivf_lists f) c.

Definition probed_rows (f : IVF) (cent_ids : list nat) : list (Z * list f32) :=
  concat ((fun c => il_rows (ivf_dim f) (list_at f c)) <$> cent_ids).

Lemma scan_lists_foldl (f : IVF) (query : list f32) (map : RowidMap) (topk : nat)
    (cs : list nat) (heap : list Hit) :
  scan_lists f query map topk cs heap
  = foldl (heap_hit topk) heap (row_hits f query map (probed_rows f cs)).
Proof.
  revert heap. induction cs as [|c cs IH]; intros heap; [done|]. cbn [scan_lists].
  rewrite IH, scan_list_foldl, drop_0 by lia. unfold probed_rows. cbn [fmap list_fmap concat].
  by rewrite row_hits_app, foldl_app.
Qed.

(** ** Taking the rows out *)

Lemma heap_pop_snoc (h : list Hit) (x : Hit) :
  take (length h) (<[0 := aget no_hit (h ++ [x]) (length h)]> (h ++ [x])) = <[0 := x]> h.
Proof.
  assert (E : aget no_hit (h ++ [x]) (length h) = x) by (apply aget_lookup; by apply list_lookup_middle).
  rewrite E. destruct h as [|a h]; [done|]. cbn. by rewrite take_app_length.
Qed.

Lemma heap_pop_Permutation (h : list Hit) (x : Hit) :
  aget no_hit (h ++ [x]) 0 :: <[0 := x]> h ≡ₚ h ++ [x].
Proof. destruct h as [|a h]; [done|]. cbn. by rewrite <- Permutation_cons_append. Qed.

(** Restoring the heap after the pop. *)
Definition heap_restore (h : list Hit) : list Hit :=
  if 0 <? length h then sift_down (length h) h (length h) 0 else h.

Lemma heap_drain_snoc (h buf : list Hit) (x : Hit) :
  heap_drain (h ++ [x]) (S (length h)) buf
  = heap_drain (heap_restore (<[0 := x]> h)) (length h) (aget no_hit (h ++ [x]) 0 :: buf).
Proof. cbn [heap_drain]. rewrite heap_pop_snoc. unfold heap_restore. by rewrite length_insert. Qed.

Lemma heap_restore_Permutation (h : list Hit) : heap_restore h ≡ₚ h.
Proof.
  unfold heap_restore. destruct (Nat.ltb_spec 0 (length h)); [|done]. by apply sift_down_Permutation.
Qed.

Lemma heap_restore_heap (h : list Hit) (x : Hit) :
  hits_num (h ++ [x]) -> heap_from 0 (h ++ [x]) -> heap_from 0 (heap_restore (<[0 := x]> h)).
Proof.
  intros Hn Hh. unfold heap_restore. rewrite length_insert.
  destruct (Nat.ltb_spec 0 (length h)) as [Hpos|Hz].
  2:{ intros i c _ Hc Hl. rewrite length_insert in Hl. lia. }
  rewrite <- (length_insert h 0 x). apply sift_down_spec; rewrite ?length_insert; try lia.
  - apply all_num_app in Hn as [Hn Hx]. intros y Hy.
    apply list_elem_of_lookup in Hy as [i Hi].
    apply list_lookup_insert_Some in Hi as [(<- & <- & _)|[_ Hi]].
    + apply Hx. by left.
    + apply Hn. by eapply list_elem_of_lookup_2.
  - apply heap_except_root. intros i c Hi Hc Hl.
    assert (Hci : i < length h) by (destruct Hc; lia).
    specialize (Hh i c Hi Hc). rewrite length_app in Hh. unfold hit_dist in Hh |- *.
    rewrite !aget_app_l in Hh by done. apply Hh. lia.
Qed.

Lemma heap_drain_Permutation (n : nat) (h buf : list Hit) :
  length h = n -> heap_drain h n buf ≡ₚ h ++ buf.
Proof.
  revert h buf. induction n as [|n IH]; intros h buf Hl.
  { by destruct h. }
  destruct h as [|x h _] using rev_ind; [done|]. rewrite length_app in Hl. cbn in Hl.
  assert (E : length h = n) by lia. rewrite <- E at 1. rewrite heap_drain_snoc, E, IH.
  - rewrite <- Permutation_middle, heap_restore_Permutation, app_comm_cons.
    by rewrite heap_pop_Permutation.
  - by rewrite heap_restore_Permutation, length_insert.
Qed.

Lemma heap_drain_sorted (n : nat) (h buf : list Hit) :
  length h = n -> hits_num h -> heap_from 0 h -> StronglySorted (le_by fst) buf ->
  (forall x y, x ∈ h -> y ∈ buf -> le_by fst x y) ->
  StronglySorted (le_by fst) (heap_drain h n buf).
Proof.
  revert h buf. induction n as [|n IH]; intros h buf Hl Hn Hh Hs Hle; [done|].
  destruct h as [|x h _] using rev_ind; [done|]. rewrite length_app in Hl. cbn in Hl.
  assert (E : length h = n) by lia. rewrite <- E at 1. rewrite heap_drain_snoc, E.
  assert (Hsub : forall y, y ∈ heap_restore (<[0:=x]> h) -> y ∈ h ++ [x]).
  { intros y. rewrite heap_restore_Permutation, <- heap_pop_Permutation. by right. }
  assert (Hroot : aget no_hit (h ++ [x]) 0 ∈ h ++ [x]).
  { rewrite <- heap_pop_Permutation at 2. by left. }
  apply IH.
  - by rewrite heap_restore_Permutation, length_insert.
  - intros y Hy. by apply Hn, Hsub.
  - by apply heap_restore_heap.
  - constructor; [done|]. apply Forall_forall. intros y Hy. by apply Hle.
  - intros y z Hy [->|Hz]%elem_of_cons; [|apply Hle; auto]. apply heap_root_max; auto.
Qed.

(** ** The search *)

Lemma select_loop_length (dists : list f32) (nlist n i : nat) (idxs : list nat) :
  length (select_loop dists nlist idxs i n) = n.
Proof. revert i idxs. induction n as [|n IH]; intros i idxs; [done|]. cbn. by rewrite IH. Qed.

(** Probing all lists covers all rows. *)
Lemma probed_rows_all (f : IVF) (cs : list nat) :
  length (ivf_lists f) = ivf_nlist f -> cs ≡ₚ seq 0 (ivf_nlist f) ->
  probed_rows f cs ≡ₚ ivf_rows f.
Proof.
  intros Hl P. unfold probed_rows, ivf_rows. rewrite P, <- Hl. apply Permutation_refl'.
  f_equal. apply list_eq. intros i. rewrite !list_lookup_fmap.
  destruct (decide (i < length (ivf_lists f))) as [Hi|Hi].
  - rewrite lookup_seq_lt by done. cbn. unfold list_at.
    by rewrite (aget_lookup_lt (MkInvList 0 0 [] []) _ _ Hi).
  - rewrite lookup_seq_ge, lookup_ge_None_2 by lia. done.
Qed.

Definition search_nprobe (f : IVF) (nprobe_override : Z) : nat :=
  if (0 <? nprobe_override)%Z then Z.to_nat nprobe_override else ivf_nprobe f.

Lemma ivf_search_spec (f : IVF) (query : list f32) (topk nprobe_override : Z) (map : RowidMap) :
  (0 < topk)%Z ->
  let np := min (ivf_nlist f) (search_nprobe f nprobe_override) in
  let cands := row_hits f query map (probed_rows f (select_nprobe f query np)) in
  let res := ivf_search f query topk nprobe_override map in
  all_num fst cands ->
  topk_of fst (Z.to_nat topk) cands res /\
  (Z.to_nat topk <= length cands -> StronglySorted (le_by fst) res).
Proof.
  intros Hk np cands res Hnum. subst res. unfold ivf_search.
  rewrite (proj2 (Z.leb_gt _ _)) by lia. fold (search_nprobe f nprobe_override).
  replace (if ivf_nlist f <? search_nprobe f nprobe_override then _ else _) with np
    by (subst np; destruct (Nat.ltb_spec (ivf_nlist f) (search_nprobe f nprobe_override)); lia).
  rewrite scan_lists_foldl. fold cands. clearbody cands np.
  destruct (foldl_heap_hit_inv (Z.to_nat topk) cands [] []) as [Ht Hh].
  { lia. }
  { by rewrite app_nil_r. }
  { split; [apply topk_of_nil|]. cbn. lia. }
  rewrite app_nil_r in Ht. set (heap := foldl _ _ _) in *.
  assert (Hnh : hits_num heap) by (by eapply all_num_topk). split.
  - eapply topk_of_Permutation; [done| |exact Ht].
    by rewrite heap_drain_Permutation, app_nil_r.
  - intros Hlen. apply heap_drain_sorted; [done|done| |constructor|].
    + apply Hh. destruct Ht as (? & _ & El & _). rewrite El. lia.
    + intros x y _ Hy. by apply elem_of_nil in Hy.
Qed.

(** C23: The search returns, of the rows in the probed lists that pass the
    rowid filter, [topk] with smallest distances (all of them if there are
    fewer), where the probed lists are distinct and are those of the [nprobe]
    nearest centroids; with at least [topk] such rows the result is in
    ascending order of distance. *)
Theorem ivf_search_correct (f : IVF) (query : list f32) (topk nprobe_override : Z)
    (map : RowidMap) :
  (0 < topk)%Z ->
  all_num (centroid_dist f query) (seq 0 (ivf_nlist f)) ->
  let np := min (ivf_nlist f) (search_nprobe f nprobe_override) in
  let probes := select_nprobe f query np in
  let cands := row_hits f query map (probed_rows f probes) in
  let res := ivf_search f query topk nprobe_override map in
  all_num fst cands ->
  topk_of (centroid_dist f query) np (seq 0 (ivf_nlist f)) probes /\ NoDup probes /\
  topk_of fst (Z.to_nat topk) cands res /\
  (Z.to_nat topk <= length cands -> StronglySorted (le_by fst) res).
Proof.
  intros Hk Hc np probes cands res Hn.
  destruct (select_nprobe_spec f query np Hc) as (H1 & _ & H3).
  split; [done|]. split; [done|]. by apply ivf_search_spec.
Qed.

(** Probing as many lists as there are makes the search exact: the
    result is the [topk] nearest of all rows of the index that pass the
    filter. *)
Lemma ivf_search_exhaustive (f : IVF) (query : list f32) (topk nprobe_override : Z)
    (map : RowidMap) :
  (0 < topk)%Z -> ivf_wf f -> ivf_nlist f <= search_nprobe f nprobe_override ->
  all_num (centroid_dist f query) (seq 0 (ivf_nlist f)) ->
  all_num fst (row_hits f query map (ivf_rows f)) ->
  topk_of fst (Z.to_nat topk) (row_hits f query map (ivf_rows f))
    (ivf_search f query topk nprobe_override map).
Proof.
  intros Hk (_ & Hl & _) Hnp Hc Hn.
  destruct (select_nprobe_spec f query (ivf_nlist f) Hc) as (Ht & _ & _).
  assert (P : select_nprobe f query (ivf_nlist f) ≡ₚ seq 0 (ivf_nlist f)).
  { destruct Ht as (rest & P & El & _). rewrite length_seq, Nat.min_id in El.
    assert (rest = []) as ->; [|by rewrite P, app_nil_r]. apply nil_length_inv.
    apply Permutation_length in P. rewrite length_app, length_seq in P. lia. }
  assert (Ph : row_hits f query map (probed_rows f (select_nprobe f query (ivf_nlist f)))
               ≡ₚ row_hits f query map (ivf_rows f)).
  { unfold row_hits. apply fmap_Permutation, filter_Permutation. by apply probed_rows_all. }
  destruct (ivf_search_spec f query topk nprobe_override map Hk) as [Hs _].
  { rewrite Nat.min_l by done. by eapply all_num_Permutation. }
  rewrite Nat.min_l in Hs by done. by eapply topk_of_Permutation.
Qed.

End Search.

(** Nearest first of the three rows within the first list. *)
Lemma ivf_search_correct_witness :
  let cands := row_hits sq_distance line_ivf (f32v [0]%Z) no_filter
                 (probed_rows line_ivf (select_nprobe sq_distance line_ivf (f32v [0]%Z) 2)) in
  topk_of fst 2 cands (ivf_search sq_distance line_ivf (f32v [0]%Z) 2 2 no_filter) /\
  StronglySorted (le_by fst) (ivf_search sq_distance line_ivf (f32v [0]%Z) 2 2 no_filter).
Proof.
  cbv zeta.
  destruct (ivf_search_correct sq_distance line_ivf (f32v [0]%Z) 2 2 no_filter)
    as (_ & _ & H3 & H4).
  - lia.
  - unfold all_num. by_compute.
  - unfold all_num. by_compute.
  - split; [exact H3|]. apply H4. vm_compute. lia.
Defined.

Lemma ivf_search_exhaustive_witness :
  topk_of fst 2 (row_hits sq_distance line_ivf (f32v [7]%Z) no_filter (ivf_rows line_ivf))
    (ivf_search sq_distance line_ivf (f32v [7]%Z) 2 2 no_filter).
Proof.
  apply (ivf_search_exhaustive sq_distance line_ivf (f32v [7]%Z) 2 2 no_filter).
  - lia.
  - by_compute.
  - vm_compute. lia.
  - unfold all_num. by_compute.
  - unfold all_num. by_compute.
Defined.

(** With fewer rows than [topk] the array never becomes a heap and the
    result need not be sorted: asking for three neighbours of 0 among rows at
    distance 1 and 4 returns the farther one first. *)
Theorem ivf_search_unsorted_below_topk :
  (ivf_search sq_distance line_ivf (f32v [0]%Z) 3 1 no_filter).*2 = [2; 1]%Z /\
  ~ StronglySorted (le_by fst) (ivf_search sq_distance line_ivf (f32v [0]%Z) 3 1 no_filter).
Proof.
  split; [vm_compute; reflexivity|]. intros H.
  assert (E : ivf_search sq_distance line_ivf (f32v [0]%Z) 3 1 no_filter
              = [(f32_of_Z 4, 2%Z); (f32_of_Z 1, 1%Z)]) by (vm_compute; reflexivity).
  rewrite E in H. apply StronglySorted_inv in H as [_ H]. apply Forall_cons in H as [H _].
  vm_compute in H. discriminate.
Qed.
