(* ===== verification/HNSW.v ===== *)
(** * The HNSW graph index (sqlite-vec.c, [hnsw_*])

    Nodes are kept in insertion order, node [i] having id [i]; each has up to
    [MAX_NEIGHBORS] neighbour ids on each of its levels.  [h_nodes] holds the
    allocated nodes: the pointers above [num_nodes] are [NULL], so looking up
    such an index is [None], as is index [-1].  An operation that would
    dereference one returns [None].

    [random_level] takes the logarithm of a random number; here the level is
    an argument of the insertion, clamped as the code does. *)

From stdpp Require Import base option list numbers sets sorting.
From Stdlib Require Import ZArith Lia SpecFloat.
From S2P Require Import Prelude Float32 TopK CLib KDSearch.

Definition MAX_NEIGHBORS : nat := 16.
Definition MAX_LEVELS : nat := 8.
Definition EF_CONSTRUCTION : nat := 64.

Record HNSWNode := MkNode {
  hn_id : nat;
  hn_rowid : Z;
  hn_level : nat;
  hn_vec : list f32;
  hn_nbors : list (list nat);   (* per level; the count is the length *)
  hn_deleted : bool
}.

Record HNSW := MkHNSW {
  h_dim : nat;
  h_max_nodes : nat;
  h_nodes : list HNSWNode;
  h_entry_id : Z;
  h_max_level : nat
}.

Definition hnsw_create (max_nodes dim : nat) : HNSW := MkHNSW dim max_nodes [] (-1) 0.

(** The clamp of [random_level]. *)
Definition random_level (drawn : nat) : nat :=
  if MAX_LEVELS <=? drawn then MAX_LEVELS - 1 else drawn.

Definition node_create (id : nat) (rowid : Z) (vec : list f32) (dim drawn : nat) : HNSWNode :=
  MkNode id rowid (random_level drawn) (take dim vec) (replicate MAX_LEVELS []) false.

Definition nbors_at (n : HNSWNode) (l : nat) : list nat := aget [] (hn_nbors n) l.

Definition set_nbors (n : HNSWNode) (nb : list (list nat)) : HNSWNode :=
  MkNode (hn_id n) (hn_rowid n) (hn_level n) (hn_vec n) nb (hn_deleted n).

Definition set_deleted (n : HNSWNode) : HNSWNode :=
  MkNode (hn_id n) (hn_rowid n) (hn_level n) (hn_vec n) (hn_nbors n) true.

Definition set_vec (n : HNSWNode) (v : list f32) : HNSWNode :=
  MkNode (hn_id n) (hn_rowid n) (hn_level n) v (hn_nbors n) (hn_deleted n).

Definition set_nodes (h : HNSW) (ns : list HNSWNode) : HNSW :=
  MkHNSW (h_dim h) (h_max_nodes h) ns (h_entry_id h) (h_max_level h).

(** [connect_nodes(a, b, level)] on node [a]. *)
Definition connect_nodes (b_id level : nat) (a : HNSWNode) : HNSWNode :=
  if length (nbors_at a level) <? MAX_NEIGHBORS
  then set_nbors a (<[level := nbors_at a level ++ [b_id]]> (hn_nbors a))
  else a.

(** ** The exchange sort of both functions

    [for i, for j = i+1..: if (dist[j] < dist[i]) swap]. *)
Section Sort.
Context {A : Type} (dflt : A) (key : A -> f32).

Fixpoint sort_inner (arr : list A) (i j n : nat) : list A :=
  match n with
  | O => arr
  | S n =>
      sort_inner (if f32_ltb (key (aget dflt arr j)) (key (aget dflt arr i))
                  then aswap dflt arr i j else arr) i (S j) n
  end.

Fixpoint sort_outer (arr : list A) (i n : nat) : list A :=
  match n with
  | O => arr
  | S n => sort_outer (sort_inner arr i (S i) (length arr - S i)) (S i) n
  end.

Definition exchange_sort (arr : list A) : list A := sort_outer arr 0 (length arr).

Lemma sort_inner_spec (n i j : nat) (arr : list A) :
  i < j -> j + n = length arr -> all_num key arr ->
  (forall k, i <= k < j -> f32_leb (key (aget dflt arr i)) (key (aget dflt arr k)) = true) ->
  let b := sort_inner arr i j n in
  b ≡ₚ arr /\ take i b = take i arr /\
  forall k, i <= k < length arr -> f32_leb (key (aget dflt b i)) (key (aget dflt b k)) = true.
Proof.
  revert j arr. induction n as [|n IH]; intros j arr Hij Hj Hn Hmin; cbn [sort_inner].
  { split; [done|]. split; [done|]. intros k Hk. apply Hmin. lia. }
  assert (Hget : forall k, k < length arr -> is_nan (key (aget dflt arr k)) = false).
  { intros k Hk. apply Hn. by eapply list_elem_of_lookup_2, aget_lookup_lt. }
  pose proof (Hget i ltac:(lia)) as Hni. pose proof (Hget j ltac:(lia)) as Hnj.
  destruct (f32_ltb (key (aget dflt arr j)) (key (aget dflt arr i))) eqn:E.
  - assert (P : aswap dflt arr i j ≡ₚ arr) by (apply aswap_Permutation; lia).
    destruct (IH (S j) (aswap dflt arr i j)) as (P' & T & M).
    + lia.
    + rewrite length_aswap. lia.
    + intros x Hx. apply Hn. by rewrite <- P.
    + intros k Hk. rewrite !aget_aswap by lia. rewrite (decide_True (P := i = i)) by done.
      case_decide as E1; [by apply f32_leb_refl|].
      case_decide as E2; [by apply f32_ltb_leb|].
      eapply f32_leb_trans; [by apply f32_ltb_leb|]. apply Hmin. lia.
    + rewrite length_aswap in M. split; [by rewrite P'|]. split; [|done].
      rewrite T. unfold aswap. by rewrite !take_insert_ge by lia.
  - apply IH; [lia|lia|done|]. intros k Hk.
    destruct (decide (k = j)) as [->|]; [by apply f32_nlt_leb|]. apply Hmin. lia.
Qed.

Lemma sort_outer_spec (n i : nat) (arr : list A) :
  i + n = length arr -> all_num key arr ->
  let r := sort_outer arr i n in
  take i r = take i arr /\ r ≡ₚ arr /\ StronglySorted (le_by key) (drop i r).
Proof.
  revert i arr. induction n as [|n IH]; intros i arr Hi Hn; cbn [sort_outer].
  { split; [done|]. split; [done|]. rewrite drop_ge by lia. constructor. }
  destruct (sort_inner_spec (length arr - S i) i (S i) arr) as (P & T & M); [lia|lia|done| |].
  { intros k Hk. replace k with i by lia. apply f32_leb_refl, Hn.
    eapply list_elem_of_lookup_2, aget_lookup_lt. lia. }
  set (b := sort_inner _ _ _ _) in *. assert (Hlb : length b = length arr) by (by rewrite P).
  assert (Hnb : all_num key b) by (intros x Hx; apply Hn; by rewrite <- P).
  destruct (IH (S i) b) as (T' & P' & S'); [lia|done|]. set (r := sort_outer _ _ _) in *.
  assert (Hx : b !! i = Some (aget dflt b i)) by (apply aget_lookup_lt; lia).
  assert (Hr : r !! i = Some (aget dflt b i)).
  { rewrite <- (lookup_take_lt r (S i)), T', lookup_take_lt by lia. done. }
  split; [|split; [by rewrite P', P|]].
  - rewrite <- T. apply (f_equal (take i)) in T'. by rewrite !take_take, !Nat.min_l in T' by lia.
  - rewrite (drop_S _ _ _ Hr). constructor; [done|]. apply Forall_forall. intros y Hy.
    assert (Hyb : y ∈ drop (S i) b).
    { assert (Pd : drop (S i) r ≡ₚ drop (S i) b); [|rewrite Pd in Hy; exact Hy].
      apply (Permutation_app_inv_l (take (S i) b)). by rewrite <- T' at 1; rewrite !take_drop. }
    apply list_elem_of_lookup in Hyb as [k Hk]. rewrite lookup_drop in Hk.
    unfold le_by. rewrite <- (aget_lookup dflt _ _ _ Hk). apply M.
    apply lookup_lt_Some in Hk. lia.
Qed.

Lemma exchange_sort_spec (arr : list A) :
  all_num key arr -> exchange_sort arr ≡ₚ arr /\ StronglySorted (le_by key) (exchange_sort arr).
Proof.
  intros Hn. destruct (sort_outer_spec (length arr) 0 arr) as (_ & P & S); [done|done|].
  rewrite drop_0 in S. done.
Qed.

(** Without the assumption it is still a permutation. *)
Lemma sort_inner_Permutation (n i j : nat) (arr : list A) :
  i < j -> j + n = length arr -> sort_inner arr i j n ≡ₚ arr.
Proof.
  revert j arr. induction n as [|n IH]; intros j arr Hij Hj; cbn [sort_inner]; [done|].
  destruct (f32_ltb _ _); rewrite IH; rewrite ?length_aswap; try lia; [|done].
  apply aswap_Permutation; lia.
Qed.

Lemma sort_outer_Permutation (n i : nat) (arr : list A) :
  i + n <= length arr -> sort_outer arr i n ≡ₚ arr.
Proof.
  revert i arr. induction n as [|n IH]; intros i arr Hi; cbn [sort_outer]; [done|].
  assert (P : sort_inner arr i (S i) (length arr - S i) ≡ₚ arr)
    by (apply sort_inner_Permutation; lia).
  rewrite IH; [done|]. rewrite P. lia.
Qed.

Lemma exchange_sort_Permutation (arr : list A) : exchange_sort arr ≡ₚ arr.
Proof. by apply sort_outer_Permutation. Qed.

End Sort.

Section Ops.
Context (distfunc : DistanceFunc).

(** ** Greedy descent towards a target

    The [for] loop over the neighbours of the current node, which goes on
    with the neighbours of the new node, from the same position, when it
    moves; at most [MAX_NEIGHBORS] steps. *)
Fixpoint greedy_scan (h : HNSW) (target : list f32) (l fuel i : nat) (cur : HNSWNode)
    (cur_dist : f32) (changed : bool) : option (HNSWNode * f32 * bool) :=
  match fuel with
  | O => Some (cur, cur_dist, changed)
  | S fuel =>
      match nbors_at cur l !! i with
      | None => Some (cur, cur_dist, changed)
      | Some nid =>
          n2 ← h_nodes h !! nid;
          if hn_deleted n2 then greedy_scan h target l fuel (S i) cur cur_dist changed
          else
            let d := distfunc (hn_vec n2) target (h_dim h) in
            if f32_ltb d cur_dist then greedy_scan h target l fuel (S i) n2 d true
            else greedy_scan h target l fuel (S i) cur cur_dist changed
      end
  end.

(** [while (changed)]; every round but the last moves to a nearer node, so
    [num_nodes + 1] rounds are enough ([greedy_level_total]). *)
Fixpoint greedy_level (fuel : nat) (h : HNSW) (target : list f32) (l : nat) (cur : HNSWNode)
    (cur_dist : f32) : option (HNSWNode * f32) :=
  match fuel with
  | O => None
  | S fuel =>
      '(cur, cur_dist, changed) ← greedy_scan h target l MAX_NEIGHBORS 0 cur cur_dist false;
      if (changed : bool) then greedy_level fuel h target l cur cur_dist else Some (cur, cur_dist)
  end.

(** Levels [n .. 1] of the search. *)
Fixpoint search_descend (h : HNSW) (query : list f32) (n : nat) (cur : HNSWNode) (cur_dist : f32)
    : option HNSWNode :=
  match n with
  | O => Some cur
  | S n' =>
      '(cur, cur_dist) ← greedy_level (S (length (h_nodes h))) h query n cur cur_dist;
      search_descend h query n' cur cur_dist
  end.

(** ** Insertion *)

(** Levels [lo + n .. lo + 1] of the insertion: [cur_entry] afterwards. *)
Fixpoint add_descend (h : HNSW) (vec : list f32) (lo n cur_entry : nat) : option nat :=
  match n with
  | O => Some cur_entry
  | S n' =>
      ep ← h_nodes h !! cur_entry;
      if hn_deleted ep then add_descend h vec lo n' cur_entry
      else
        '(ep, _) ← greedy_level (S (length (h_nodes h))) h vec (lo + n) ep
                     (distfunc (hn_vec ep) vec (h_dim h));
        add_descend h vec lo n' (hn_id ep)
  end.

(** The nodes a new node may be linked to on level [l], with distances. *)
Definition link_candidates (h : HNSW) (n : HNSWNode) (l : nat) : list (nat * f32) :=
  (fun c => (hn_id c, distfunc (hn_vec n) (hn_vec c) (h_dim h)))
    <$> filter (fun c => hn_deleted c = false /\ l <= hn_level c /\ hn_id c <> hn_id n) (h_nodes h).

(** Both directions of the links to the nodes [ids]. *)
Fixpoint link_all (nodes : list HNSWNode) (id l : nat) (ids : list nat) : list HNSWNode :=
  match ids with
  | [] => nodes
  | nid :: ids =>
      link_all (alter (connect_nodes id l) nid (alter (connect_nodes nid l) id nodes)) id l ids
  end.

Definition link_level (h : HNSW) (n : HNSWNode) (l : nat) : HNSW :=
  let candidates := exchange_sort (0, f32_zero) snd (link_candidates h n l) in
  set_nodes h (link_all (h_nodes h) (hn_id n) l (take MAX_NEIGHBORS candidates).*1).

(** [for (l = n->level; l >= 0; l--)]: levels [k-1 .. 0]. *)
Fixpoint link_levels (h : HNSW) (n : HNSWNode) (k : nat) : HNSW :=
  match k with
  | O => h
  | S l => link_levels (link_level h n l) n l
  end.

(** The rowid parameter is an [int]. *)
Definition hnsw_add (h : HNSW) (vec : list f32) (rowid : Z) (drawn : nat) : option (Z * HNSW) :=
  if h_max_nodes h <=? length (h_nodes h) then Some (SQLITE_NOMEM, h)
  else
    let n := node_create (length (h_nodes h)) (to_i32 rowid) vec (h_dim h) drawn in
    let h1 := set_nodes h (h_nodes h ++ [n]) in
    if (h_entry_id h =? -1)%Z then
      Some (SQLITE_OK, MkHNSW (h_dim h) (h_max_nodes h) (h_nodes h1) 0 (hn_level n))
    else
      _ ← add_descend h1 (hn_vec n) (hn_level n) (h_max_level h - hn_level n)
            (Z.to_nat (h_entry_id h));
      let h2 := link_levels h1 n (S (hn_level n)) in
      Some (SQLITE_OK,
        if h_max_level h <? hn_level n
        then MkHNSW (h_dim h) (h_max_nodes h) (h_nodes h2) (Z.of_nat (hn_id n)) (hn_level n)
        else h2).

(** ** Search *)

(** The entry point: the first node that is not deleted from [entry_id] on. *)
Fixpoint skip_deleted (fuel : nat) (h : HNSW) (ep : nat) (cur : HNSWNode) : option HNSWNode :=
  if hn_deleted cur && (ep <? length (h_nodes h)) then
    match fuel with
    | O => None
    | S fuel => next ← h_nodes h !! S ep; skip_deleted fuel h (S ep) next
    end
  else Some cur.

(** [bsearch(&n->rowid, ..., sizeof(i64), cmp_i64)] compares the eight bytes
    at [&n->rowid]: the [int rowid] and the [int level] after it, as a
    little-endian 64-bit integer. *)
Definition rowid_key (n : HNSWNode) : Z :=
  to_i64 (hn_rowid n mod 2 ^ 32 + 2 ^ 32 * Z.of_nat (hn_level n)).

(** The neighbours of a node: mark and enqueue those not visited. *)
Fixpoint enqueue (h : HNSW) (nbors : list nat) (visited : list bool) (queue : list nat)
    : option (list bool * list nat) :=
  match nbors with
  | [] => Some (visited, queue)
  | nid :: nbors =>
      v ← visited !! nid;
      if v : bool then enqueue h nbors visited queue
      else
        n2 ← h_nodes h !! nid;
        if hn_deleted n2 then enqueue h nbors visited queue
        else enqueue h nbors (<[nid := true]> visited) (queue ++ [nid])
  end.

Definition passes (map : RowidMap) (n : HNSWNode) : bool :=
  negb (hn_deleted n) && rowid_map_pass map (rowid_key n).

(** [while (qh < qt && results < ef)], [queue] being [q[qh..qt)]; a node is
    enqueued at most once, so [num_nodes] rounds are enough. *)
Fixpoint bfs (fuel : nat) (h : HNSW) (query : list f32) (map : RowidMap) (ef : nat)
    (visited : list bool) (queue : list nat) (results : list (f32 * Z))
    : option (list (f32 * Z)) :=
  match queue with
  | [] => Some results
  | id :: queue =>
      if length results <? ef then
        match fuel with
        | O => None
        | S fuel =>
            n ← h_nodes h !! id;
            let results :=
              if passes map n
              then results ++ [(distfunc (hn_vec n) query (h_dim h), hn_rowid n)]
              else results in
            '(visited, queue) ← enqueue h (nbors_at n 0) visited queue;
            bfs fuel h query map ef visited queue results
        end
      else Some results
  end.

Definition hnsw_search (h : HNSW) (query : list f32) (ef topk : nat) (map : RowidMap)
    : option (list (f32 * Z)) :=
  if (h_entry_id h <? 0)%Z then None
  else
    let ep := Z.to_nat (h_entry_id h) in
    cur ← h_nodes h !! ep;
    cur ← skip_deleted (length (h_nodes h)) h ep cur;
    cur ← search_descend h query (h_max_level h) cur (distfunc (hn_vec cur) query (h_dim h));
    results ← bfs (length (h_nodes h)) h query map ef
                (<[hn_id cur := true]> (replicate (length (h_nodes h)) false)) [hn_id cur] [];
    Some (take topk (exchange_sort (f32_zero, 0%Z) fst results)).

(** ** Deletion and update *)

Fixpoint find_live (nodes : list HNSWNode) (rowid : Z) (i : nat) : option nat :=
  match nodes with
  | [] => None
  | n :: nodes =>
      if (hn_rowid n =? rowid)%Z && negb (hn_deleted n) then Some i
      else find_live nodes rowid (S i)
  end.

Definition hnsw_delete (h : HNSW) (rowid : Z) : Z * HNSW :=
  match find_live (h_nodes h) (to_i32 rowid) 0 with
  | None => (SQLITE_OK, h)
  | Some i => (SQLITE_OK, set_nodes h (alter set_deleted i (h_nodes h)))
  end.

Definition hnsw_update (h : HNSW) (rowid : Z) (vec : list f32) (reinsert : bool) (drawn : nat)
    : option (Z * HNSW) :=
  match find_live (h_nodes h) (to_i32 rowid) 0 with
  | None => Some (SQLITE_OK, h)
  | Some i =>
      if negb reinsert then
        Some (SQLITE_OK,
              set_nodes h (alter (fun n => set_vec n (take (h_dim h) vec)) i (h_nodes h)))
      else hnsw_add (set_nodes h (alter set_deleted i (h_nodes h))) vec rowid drawn
  end.

End Ops.

(** ** The graph invariant *)

Definition node_wf (N dim i : nat) (n : HNSWNode) : Prop :=
  hn_id n = i /\ hn_level n < MAX_LEVELS /\ length (hn_vec n) = dim /\
  length (hn_nbors n) = MAX_LEVELS /\
  forall l, length (nbors_at n l) <= MAX_NEIGHBORS /\
    forall j, j ∈ nbors_at n l -> j < N /\ j <> i.

Definition nodes_wf (N dim : nat) (nodes : list HNSWNode) : Prop :=
  forall i n, nodes !! i = Some n -> node_wf N dim i n.

Definition hnsw_wf (h : HNSW) : Prop :=
  length (h_nodes h) <= h_max_nodes h /\
  nodes_wf (length (h_nodes h)) (h_dim h) (h_nodes h) /\
  (h_nodes h = [] /\ h_entry_id h = (-1)%Z \/
   exists e, h_entry_id h = Z.of_nat e /\ e < length (h_nodes h)) /\
  forall n, n ∈ h_nodes h -> hn_level n <= h_max_level h.

(** What links do not touch. *)
Definition node_core (n : HNSWNode) : nat * Z * nat * list f32 * bool :=
  (hn_id n, hn_rowid n, hn_level n, hn_vec n, hn_deleted n).

(** The rows the index holds. *)
Definition hnsw_live (h : HNSW) : list (Z * list f32) :=
  (fun n => (hn_rowid n, hn_vec n)) <$> filter (fun n => hn_deleted n = false) (h_nodes h).

Lemma live_core (ns ns' : list HNSWNode) :
  node_core <$> ns = node_core <$> ns' ->
  (fun n => (hn_rowid n, hn_vec n)) <$> filter (fun n => hn_deleted n = false) ns
  = (fun n => (hn_rowid n, hn_vec n)) <$> filter (fun n => hn_deleted n = false) ns'.
Proof.
  revert ns'. induction ns as [|n ns IH]; intros [|n' ns'] E; try done.
  injection E as E1 E2 E3 E4 E5 E6. apply IH in E6. rewrite !filter_cons, E5.
  destruct (decide _); [|done]. cbn. by rewrite E2, E4, E6.
Qed.

Lemma connect_nodes_core (b l : nat) (n : HNSWNode) : node_core (connect_nodes b l n) = node_core n.
Proof. unfold connect_nodes. by destruct (_ <? _). Qed.

Lemma alter_core (f : HNSWNode -> HNSWNode) (i : nat) (ns : list HNSWNode) :
  (forall n, node_core (f n) = node_core n) -> node_core <$> alter f i ns = node_core <$> ns.
Proof.
  intros Hf. apply list_eq. intros j. rewrite !list_lookup_fmap.
  destruct (decide (i = j)) as [->|Hne].
  - rewrite list_lookup_alter_eq. destruct (ns !! j) as [n|]; [|done]. cbn. by rewrite Hf.
  - by rewrite list_lookup_alter_ne.
Qed.

Lemma link_all_core (id l : nat) (ids : list nat) (ns : list HNSWNode) :
  node_core <$> link_all ns id l ids = node_core <$> ns.
Proof.
  revert ns. induction ids as [|nid ids IH]; intros ns; [done|]. cbn [link_all].
  by rewrite IH, !alter_core by (intros; apply connect_nodes_core).
Qed.

Lemma nbors_at_insert (n : HNSWNode) (l l' : nat) (nb : list nat) :
  nbors_at (set_nbors n (<[l := nb]> (hn_nbors n))) l'
  = if decide (l = l' /\ l < length (hn_nbors n)) then nb else nbors_at n l'.
Proof.
  unfold nbors_at. cbn [set_nbors hn_nbors]. destruct (decide (l = l')) as [->|Hne].
  - destruct (decide (l' < length (hn_nbors n))) as [Hl|Hl].
    + rewrite decide_True by done. by rewrite aget_insert_eq.
    + rewrite decide_False by lia. by rewrite list_insert_ge by lia.
  - rewrite decide_False by (intros [? _]; done). by rewrite aget_insert_ne.
Qed.

Lemma connect_nodes_wf (N dim i b l : nat) (n : HNSWNode) :
  b < N -> b <> i -> node_wf N dim i n -> node_wf N dim i (connect_nodes b l n).
Proof.
  intros Hb Hne (H1 & H2 & H3 & H4 & H5). unfold connect_nodes.
  destruct (Nat.ltb_spec (length (nbors_at n l)) MAX_NEIGHBORS) as [Hr|Hr]; [|done].
  split; [done|]. split; [done|]. split; [done|]. split; [by cbn; rewrite length_insert|].
  intros l'. rewrite nbors_at_insert. case_decide as E; [|apply H5]. destruct E as [<- _]. split.
  - rewrite length_app. cbn. lia.
  - intros j [Hj|Hj]%elem_of_app; [by apply (H5 l)|]. by apply list_elem_of_singleton in Hj as ->.
Qed.

Lemma nodes_wf_alter (N dim i : nat) (f : HNSWNode -> HNSWNode) (ns : list HNSWNode) :
  (forall n, node_wf N dim i n -> node_wf N dim i (f n)) ->
  nodes_wf N dim ns -> nodes_wf N dim (alter f i ns).
Proof.
  intros Hf Hw j n Hj. destruct (decide (i = j)) as [->|Hne].
  - rewrite list_lookup_alter_eq in Hj. destruct (ns !! j) as [m|] eqn:E; [|done].
    injection Hj as <-. by apply Hf, Hw.
  - rewrite list_lookup_alter_ne in Hj by done. by apply Hw.
Qed.

Lemma link_all_wf (N dim id l : nat) (ids : list nat) (ns : list HNSWNode) :
  id < N -> (forall j, j ∈ ids -> j < N /\ j <> id) -> nodes_wf N dim ns ->
  nodes_wf N dim (link_all ns id l ids).
Proof.
  intros Hid. revert ns. induction ids as [|nid ids IH]; intros ns Hids Hw; [done|]. cbn [link_all].
  destruct (Hids nid) as [Hn Hne]; [by left|]. apply IH.
  - intros j Hj. apply Hids. by right.
  - apply nodes_wf_alter; [intros n; apply connect_nodes_wf; lia|].
    apply nodes_wf_alter; [intros n; apply connect_nodes_wf; lia|done].
Qed.

Section AddLemmas.
Context (distfunc : DistanceFunc).

Lemma link_candidates_ids (h : HNSW) (n : HNSWNode) (l : nat) (j : nat) :
  nodes_wf (length (h_nodes h)) (h_dim h) (h_nodes h) ->
  j ∈ (link_candidates distfunc h n l).*1 -> j < length (h_nodes h) /\ j <> hn_id n.
Proof.
  intros Hw Hj. apply list_elem_of_fmap in Hj as ([i d] & -> & Hj).
  apply list_elem_of_fmap in Hj as (c & [= -> ->] & Hc).
  apply list_elem_of_filter in Hc as [(_ & _ & Hne) Hc]. split; [|done].
  apply list_elem_of_lookup in Hc as [k Hk]. destruct (Hw k c Hk) as [-> _].
  by apply lookup_lt_Some in Hk.
Qed.

Lemma link_level_spec (h : HNSW) (n : HNSWNode) (l : nat) :
  hn_id n < length (h_nodes h) -> nodes_wf (length (h_nodes h)) (h_dim h) (h_nodes h) ->
  let h' := link_level distfunc h n l in
  node_core <$> h_nodes h' = node_core <$> h_nodes h /\
  nodes_wf (length (h_nodes h)) (h_dim h) (h_nodes h').
Proof.
  intros Hn Hw. unfold link_level. cbn [set_nodes h_nodes]. split; [apply link_all_core|].
  apply link_all_wf; [done| |done]. intros j Hj. apply (link_candidates_ids h n l j Hw).
  apply list_elem_of_fmap in Hj as (x & -> & Hx). apply list_elem_of_fmap_2.
  rewrite <- (exchange_sort_Permutation (0, f32_zero) snd). by eapply subseteq_take.
Qed.

Lemma link_levels_spec (h : HNSW) (n : HNSWNode) (k : nat) :
  hn_id n < length (h_nodes h) -> nodes_wf (length (h_nodes h)) (h_dim h) (h_nodes h) ->
  let h' := link_levels distfunc h n k in
  node_core <$> h_nodes h' = node_core <$> h_nodes h /\
  nodes_wf (length (h_nodes h)) (h_dim h) (h_nodes h') /\
  h_dim h' = h_dim h /\ h_max_nodes h' = h_max_nodes h /\ h_entry_id h' = h_entry_id h /\
  h_max_level h' = h_max_level h.
Proof.
  revert h. induction k as [|l IH]; intros h Hn Hw; [done|]. cbn [link_levels].
  destruct (link_level_spec h n l Hn Hw) as [C W]. set (h1 := link_level _ _ _ _) in *.
  assert (Hl : length (h_nodes h1) = length (h_nodes h)).
  { apply (f_equal length) in C. by rewrite !length_fmap in C. }
  destruct (IH h1) as (C' & W' & E); [lia|by rewrite Hl|]. rewrite Hl in W'.
  split; [by rewrite C'|]. done.
Qed.

End AddLemmas.

(** ** The greedy descent terminates *)

Lemma filter_length_lt {A : Type} (P Q : A -> Prop) `{forall x, Decision (P x)}
    `{forall x, Decision (Q x)} (l : list A) (y : A) :
  (forall x, P x -> Q x) -> y ∈ l -> Q y -> ~ P y -> length (filter P l) < length (filter Q l).
Proof.
  intros Hsub. assert (Hle : forall l, length (filter P l) <= length (filter Q l)).
  { induction l0 as [|x l0 IH]; [done|]. rewrite !filter_cons.
    destruct (decide (P x)); [rewrite decide_True by auto; cbn; lia|].
    destruct (decide (Q x)); cbn; lia. }
  induction l as [|x l IH]; intros Hy Hq Hp; [by apply elem_of_nil in Hy|].
  rewrite !filter_cons. apply elem_of_cons in Hy as [->|Hy].
  - rewrite (decide_False (P := P x)), (decide_True (P := Q x)) by done. cbn. specialize (Hle l). lia.
  - specialize (IH Hy Hq Hp). destruct (decide (P x)); [rewrite decide_True by auto; cbn; lia|].
    destruct (decide (Q x)); cbn; lia.
Qed.

Section GreedyLemmas.
Context (distfunc : DistanceFunc) (h : HNSW) (target : list f32).
Hypothesis Hwf : nodes_wf (length (h_nodes h)) (h_dim h) (h_nodes h).

Definition node_dist (n : HNSWNode) : f32 := distfunc (hn_vec n) target (h_dim h).

Definition is_node (n : HNSWNode) : Prop := h_nodes h !! hn_id n = Some n.

Lemma lookup_is_node (i : nat) (n : HNSWNode) : h_nodes h !! i = Some n -> is_node n /\ hn_id n = i.
Proof. intros Hn. destruct (Hwf i n Hn) as [E _]. unfold is_node. by rewrite E. Qed.

Lemma nbor_node (n : HNSWNode) (l j : nat) :
  is_node n -> j ∈ nbors_at n l -> exists m, h_nodes h !! j = Some m /\ is_node m /\ hn_id m = j.
Proof.
  intros Hn Hj. destruct (Hwf _ _ Hn) as (_ & _ & _ & _ & Hnb).
  destruct (Hnb l) as [_ Hlt]. apply Hlt in Hj as [Hj _].
  apply lookup_lt_is_Some_2 in Hj as [m Hm]. exists m. split; [done|]. by apply lookup_is_node.
Qed.

(** A scan ends at a node, the same or a nearer one that is not deleted. *)
Lemma greedy_scan_spec (l fuel i : nat) (cur : HNSWNode) (changed : bool) :
  is_node cur ->
  exists cur' changed',
    greedy_scan distfunc h target l fuel i cur (node_dist cur) changed
    = Some (cur', node_dist cur', changed') /\ is_node cur' /\
    (cur' = cur /\ changed' = changed \/
     f32_ltb (node_dist cur') (node_dist cur) = true /\ hn_deleted cur' = false).
Proof.
  revert i cur changed. induction fuel as [|fuel IH]; intros i cur changed Hc; cbn [greedy_scan].
  { exists cur, changed. auto. }
  destruct (nbors_at cur l !! i) as [nid|] eqn:E; [|exists cur, changed; auto].
  destruct (nbor_node cur l nid Hc) as (n2 & E2 & Hn2 & _); [by eapply list_elem_of_lookup_2|].
  rewrite E2. cbn [mbind option_bind]. fold (node_dist n2).
  destruct (hn_deleted n2) eqn:Ed; [by apply IH|].
  destruct (f32_ltb (node_dist n2) (node_dist cur)) eqn:Elt; [|by apply IH].
  destruct (IH (S i) n2 true Hn2) as (c & ch & -> & Hcn & Hor). exists c, ch.
  split; [done|]. split; [done|]. right. destruct Hor as [[-> _]|[Hlt Hd]]; [done|].
  split; [by eapply f32_ltb_trans|done].
Qed.

(** Nodes nearer than a distance: the measure of the [while] loop. *)
Definition nearer (d : f32) : nat := length (filter (fun n => f32_ltb (node_dist n) d = true) (h_nodes h)).

Lemma nearer_lt (n : HNSWNode) (d : f32) :
  is_node n -> f32_ltb (node_dist n) d = true -> nearer (node_dist n) < nearer d.
Proof.
  intros Hn Hlt. apply filter_length_lt with n.
  - intros x Hx. by eapply f32_ltb_trans.
  - by eapply list_elem_of_lookup_2.
  - done.
  - rewrite f32_ltb_irrefl. done.
Qed.

Lemma greedy_level_total (l fuel : nat) (cur : HNSWNode) :
  is_node cur -> nearer (node_dist cur) < fuel ->
  exists cur', greedy_level distfunc fuel h target l cur (node_dist cur) = Some (cur', node_dist cur') /\
    is_node cur' /\ (hn_deleted cur = false -> hn_deleted cur' = false).
Proof.
  revert cur. induction fuel as [|fuel IH]; intros cur Hc Hf; [lia|]. cbn [greedy_level].
  destruct (greedy_scan_spec l MAX_NEIGHBORS 0 cur false Hc) as (c & ch & -> & Hcn & Hor).
  cbn [mbind option_bind]. destruct ch.
  - destruct Hor as [[_ ?]|[Hlt Hd]]; [done|]. destruct (IH c Hcn) as (c' & E & Hc' & Hd').
    { pose proof (nearer_lt c _ Hcn Hlt). lia. }
    exists c'. auto.
  - exists c. split; [done|]. split; [done|]. by destruct Hor as [[-> _]|[_ ?]].
Qed.

Lemma nearer_bound (d : f32) : nearer d < S (length (h_nodes h)).
Proof. unfold nearer. pose proof (length_filter (fun n => f32_ltb (node_dist n) d = true) (h_nodes h)). lia. Qed.

Lemma search_descend_total (n : nat) (cur : HNSWNode) :
  is_node cur -> hn_deleted cur = false ->
  exists cur', search_descend distfunc h target n cur (node_dist cur) = Some cur' /\
    is_node cur' /\ hn_deleted cur' = false.
Proof.
  revert cur. induction n as [|n IH]; intros cur Hc Hd; cbn [search_descend]; [by exists cur|].
  destruct (greedy_level_total (S n) (S (length (h_nodes h))) cur Hc (nearer_bound _))
    as (c & E & Hc' & Hd'). rewrite E. cbn [mbind option_bind]. by apply IH; [|apply Hd'].
Qed.

Lemma add_descend_total (lo n e : nat) :
  e < length (h_nodes h) ->
  exists e', add_descend distfunc h target lo n e = Some e' /\ e' < length (h_nodes h).
Proof.
  revert e. induction n as [|n IH]; intros e He; cbn [add_descend]; [by exists e|].
  destruct (lookup_lt_is_Some_2 _ _ He) as [ep Hep]. rewrite Hep. cbn [mbind option_bind].
  destruct (hn_deleted ep); [by apply IH|]. apply lookup_is_node in Hep as [Hep _].
  destruct (greedy_level_total (lo + S n) (S (length (h_nodes h))) ep Hep (nearer_bound _))
    as (c & E & Hc & _). unfold node_dist in E at 1. rewrite E. cbn [mbind option_bind].
  apply IH. by apply lookup_lt_Some in Hc.
Qed.

End GreedyLemmas.

(** ** Insertion, deletion and update refine a multiset of rows *)

Section UpdateLemmas.
Context (distfunc : DistanceFunc).

Lemma random_level_lt (drawn : nat) : random_level drawn < MAX_LEVELS.
Proof. unfold random_level, MAX_LEVELS. destruct (Nat.leb_spec 8 drawn); lia. Qed.

Lemma node_create_wf (N id dim drawn : nat) (rowid : Z) (vec : list f32) :
  length vec = dim -> node_wf N dim id (node_create id rowid vec dim drawn).
Proof.
  intros Hv. repeat split; cbn [node_create hn_level hn_vec hn_nbors].
  - apply random_level_lt.
  - rewrite length_take. lia.
  - unfold nbors_at. cbn [node_create hn_nbors]. destruct (decide (l < MAX_LEVELS)).
    + rewrite aget_replicate by done. cbn. lia.
    + unfold aget. rewrite lookup_ge_None_2 by (rewrite length_replicate; lia). cbn. lia.
  - exfalso. revert H. unfold nbors_at, aget. cbn [node_create hn_nbors].
    destruct (replicate MAX_LEVELS [] !! l) as [x|] eqn:E; cbn;
      [apply lookup_replicate in E as [-> _]|]; apply not_elem_of_nil.
  - exfalso. revert H. unfold nbors_at, aget. cbn [node_create hn_nbors].
    destruct (replicate MAX_LEVELS [] !! l) as [x|] eqn:E; cbn;
      [apply lookup_replicate in E as [-> _]|]; apply not_elem_of_nil.
Qed.

Lemma node_wf_mono (N N' dim i : nat) (n : HNSWNode) :
  N <= N' -> node_wf N dim i n -> node_wf N' dim i n.
Proof.
  intros HN (H1 & H2 & H3 & H4 & H5). repeat split; try done; [apply H5| |];
    apply H5 in H as [??]; [lia|done].
Qed.

Lemma nodes_wf_snoc (dim : nat) (ns : list HNSWNode) (n : HNSWNode) :
  nodes_wf (length ns) dim ns -> node_wf (S (length ns)) dim (length ns) n ->
  nodes_wf (length (ns ++ [n])) dim (ns ++ [n]).
Proof.
  intros Hw Hn i m Hm. rewrite length_app, Nat.add_1_r.
  apply lookup_app_Some in Hm as [Hm|[Hi Hm]].
  - eapply node_wf_mono; [|by apply Hw]. lia.
  - apply list_lookup_singleton_Some in Hm as [E <-]. by replace i with (length ns) by lia.
Qed.

Lemma levels_core (ns ns' : list HNSWNode) (m : nat) :
  node_core <$> ns = node_core <$> ns' ->
  (forall n, n ∈ ns' -> hn_level n <= m) -> forall n, n ∈ ns -> hn_level n <= m.
Proof.
  intros E H n Hn. apply (list_elem_of_fmap_2 node_core) in Hn. rewrite E in Hn.
  apply list_elem_of_fmap in Hn as (n' & En & Hn'). injection En as _ _ -> _ _. by apply H.
Qed.

Lemma hnsw_add_spec (h : HNSW) (vec : list f32) (rowid : Z) (drawn : nat) :
  hnsw_wf h -> length vec = h_dim h -> length (h_nodes h) < h_max_nodes h ->
  exists h', hnsw_add distfunc h vec rowid drawn = Some (SQLITE_OK, h') /\ hnsw_wf h' /\
    h_dim h' = h_dim h /\ hnsw_live h' = hnsw_live h ++ [(to_i32 rowid, vec)].
Proof.
  intros (W1 & W2 & W3 & W4) Hv Hroom. unfold hnsw_add.
  rewrite (proj2 (Nat.leb_gt _ _)) by lia.
  set (n := node_create _ _ _ _ _). set (h1 := set_nodes h (h_nodes h ++ [n])).
  assert (Hn : node_wf (S (length (h_nodes h))) (h_dim h) (length (h_nodes h)) n)
    by (by apply node_create_wf).
  assert (Hw1 : nodes_wf (length (h_nodes h1)) (h_dim h1) (h_nodes h1)) by (by apply nodes_wf_snoc).
  assert (Hl1 : length (h_nodes h1) = S (length (h_nodes h))).
  { cbn. rewrite length_app. cbn. lia. }
  assert (Hlive : (fun n => (hn_rowid n, hn_vec n)) <$> filter (fun n => hn_deleted n = false) (h_nodes h1)
                  = hnsw_live h ++ [(to_i32 rowid, vec)]).
  { cbn [h1 set_nodes h_nodes]. rewrite filter_app, fmap_app. f_equal.
    rewrite filter_cons_True by done. unfold n, node_create. cbn [fmap list_fmap filter list_filter hn_rowid hn_vec].
    by rewrite take_ge by lia. }
  assert (Hlvl : forall m, h_max_level h <= m -> hn_level n <= m ->
    forall x, x ∈ h_nodes h1 -> hn_level x <= m).
  { intros m Hm Hnm x [Hx|Hx]%elem_of_app; [specialize (W4 x Hx); lia|].
    by apply list_elem_of_singleton in Hx as ->. }
  destruct (Z.eqb_spec (h_entry_id h) (-1)) as [E|E].
  - destruct W3 as [[Hnil _]|(e & He & _)]; [|lia]. eexists. split; [done|].
    split; [|split; [done|exact Hlive]].
    split; [cbn [h_nodes h_max_nodes]; lia|]. split; [exact Hw1|].
    split; [right; exists 0; cbn [h_nodes h_entry_id]; lia|].
    intros x Hx. cbn [h_nodes h_max_level] in *. cbn [h1 set_nodes h_nodes] in Hx.
    rewrite Hnil in Hx. by apply list_elem_of_singleton in Hx as ->.
  - destruct W3 as [[_ ?]|(e & He & Hlt)]; [done|]. rewrite He, Nat2Z.id.
    destruct (add_descend_total distfunc h1 (hn_vec n) Hw1 (hn_level n)
      (h_max_level h - hn_level n) e) as (e' & -> & _); [lia|]. cbn [mbind option_bind].
    assert (Hid : hn_id n = length (h_nodes h)) by done.
    destruct (link_levels_spec distfunc h1 n (S (hn_level n))) as (C & W & D1 & D2 & D3 & D4);
      [lia|done|]. set (h2 := link_levels _ _ _ _) in *.
    assert (Hl2 : length (h_nodes h2) = length (h_nodes h1)).
    { apply (f_equal length) in C. by rewrite !length_fmap in C. }
    eexists. split; [done|]. pose proof (live_core _ _ C) as Hlc. rewrite Hlive in Hlc.
    destruct (Nat.ltb_spec (h_max_level h) (hn_level n)) as [Hgt|Hle].
    + split; [|split; [done|exact Hlc]]. split; [cbn [h_nodes h_max_nodes]; lia|].
      split; [cbn [h_nodes h_dim]; by rewrite Hl2|].
      split; [right; exists (hn_id n); cbn [h_nodes h_entry_id]; lia|].
      cbn [h_nodes h_max_level]. eapply levels_core; [exact C|]. apply Hlvl; lia.
    + split; [|split; [done|exact Hlc]]. split; [rewrite D2; change (h_max_nodes h1) with (h_max_nodes h); lia|].
      split; [rewrite Hl2, D1; exact W|]. split; [right; exists e; rewrite D3; split; [exact He|lia]|].
      rewrite D4. eapply levels_core; [exact C|]. by apply Hlvl.
Qed.

Lemma find_live_spec (ns : list HNSWNode) (rowid : Z) (i : nat) :
  match find_live ns rowid i with
  | Some j => exists n k, j = i + k /\ ns !! k = Some n /\ hn_rowid n = rowid /\ hn_deleted n = false
  | None => forall n, n ∈ ns -> hn_deleted n = false -> hn_rowid n <> rowid
  end.
Proof.
  revert i. induction ns as [|n ns IH]; intros i; cbn [find_live].
  { intros n Hn. by apply elem_of_nil in Hn. }
  destruct ((hn_rowid n =? rowid)%Z && negb (hn_deleted n)) eqn:E.
  - apply andb_true_iff in E as [E1%Z.eqb_eq E2%negb_true_iff]. exists n, 0. repeat split; [lia|done..].
  - specialize (IH (S i)). destruct (find_live ns rowid (S i)) as [j|].
    + destruct IH as (m & k & -> & Hk & H). exists m, (S k). split; [lia|done].
    + intros m [->|Hm]%elem_of_cons Hd; [|by apply IH]. rewrite Hd in E.
      apply andb_false_iff in E as [E%Z.eqb_neq|E]; done.
Qed.

Lemma hnsw_wf_alter (h : HNSW) (i : nat) (f : HNSWNode -> HNSWNode) :
  (forall N n, node_wf N (h_dim h) i n -> node_wf N (h_dim h) i (f n)) ->
  (forall n, hn_level (f n) = hn_level n) ->
  hnsw_wf h -> hnsw_wf (set_nodes h (alter f i (h_nodes h))).
Proof.
  intros Hf Hl (W1 & W2 & W3 & W4). unfold hnsw_wf. cbn [set_nodes h_nodes h_dim h_max_nodes h_entry_id h_max_level].
  rewrite length_alter. split; [done|]. split; [apply nodes_wf_alter; [apply Hf|done]|]. split.
  - destruct W3 as [[E ?]|?]; [left|by right]. by rewrite E.
  - intros n Hn. apply list_elem_of_lookup in Hn as [j Hj]. destruct (decide (i = j)) as [->|Hne].
    + rewrite list_lookup_alter_eq in Hj. destruct (h_nodes h !! j) as [m|] eqn:E; [|done].
      injection Hj as <-. rewrite Hl. apply W4. by eapply list_elem_of_lookup_2.
    + rewrite list_lookup_alter_ne in Hj by done. apply W4. by eapply list_elem_of_lookup_2.
Qed.

(** Marking a live node takes its row out. *)
Lemma live_alter (h : HNSW) (i : nat) (n : HNSWNode) (f : HNSWNode -> HNSWNode) :
  h_nodes h !! i = Some n -> hn_deleted n = false ->
  exists rest, hnsw_live h ≡ₚ (hn_rowid n, hn_vec n) :: rest /\
    hnsw_live (set_nodes h (alter f i (h_nodes h)))
    ≡ₚ (if hn_deleted (f n) then [] else [(hn_rowid (f n), hn_vec (f n))]) ++ rest.
Proof.
  intros Hi Hd. unfold hnsw_live. cbn [set_nodes h_nodes].
  assert (Ha : alter f i (h_nodes h) = <[i := f n]> (h_nodes h)).
  { apply list_eq. intros j. destruct (decide (i = j)) as [->|Hne].
    - rewrite list_lookup_alter_eq, list_lookup_insert_eq, Hi by (by eapply lookup_lt_Some). done.
    - by rewrite list_lookup_alter_ne, list_lookup_insert_ne. }
  rewrite Ha. destruct (insert_Permutation (h_nodes h) i n (f n) Hi) as (r & P1 & P2).
  exists ((fun n => (hn_rowid n, hn_vec n)) <$> filter (fun n => hn_deleted n = false) r).
  rewrite P2, !filter_cons. split; [by rewrite P1, filter_cons_True|].
  destruct (hn_deleted (f n)) eqn:Ef.
  - by rewrite decide_False.
  - by rewrite decide_True.
Qed.

Lemma set_deleted_wf (N dim i : nat) (n : HNSWNode) : node_wf N dim i n -> node_wf N dim i (set_deleted n).
Proof. done. Qed.

Lemma set_vec_wf (N dim i : nat) (n : HNSWNode) (v : list f32) :
  length v = dim -> node_wf N dim i n -> node_wf N dim i (set_vec n v).
Proof. intros Hv (H1 & H2 & H3 & H4 & H5). by split; [|split; [|split; [|split]]]. Qed.

Lemma hnsw_delete_spec (h : HNSW) (rowid : Z) :
  hnsw_wf h ->
  exists h', hnsw_delete h rowid = (SQLITE_OK, h') /\ hnsw_wf h' /\ h_dim h' = h_dim h /\
    ((exists vec, hnsw_live h ≡ₚ (to_i32 rowid, vec) :: hnsw_live h') \/
     h' = h /\ forall row, row ∈ hnsw_live h -> row.1 <> to_i32 rowid).
Proof.
  intros Hw. unfold hnsw_delete. pose proof (find_live_spec (h_nodes h) (to_i32 rowid) 0) as Hf.
  destruct (find_live _ _ _) as [i|].
  - destruct Hf as (n & k & -> & Hk & Hr & Hd). eexists. split; [done|]. cbn [Nat.add].
    split; [by apply hnsw_wf_alter|]. split; [done|]. left. exists (hn_vec n).
    destruct (live_alter h k n set_deleted Hk Hd) as (rest & P1 & P2). by rewrite P1, P2, Hr.
  - exists h. split; [done|]. split; [done|]. split; [done|]. right. split; [done|].
    intros row Hrow. apply list_elem_of_fmap in Hrow as (n & -> & Hn).
    apply list_elem_of_filter in Hn as [Hd Hn]. by apply Hf.
Qed.

End UpdateLemmas.

(** ** The breadth-first search *)

Section SearchLemmas.
Context (distfunc : DistanceFunc) (h : HNSW) (query : list f32) (map : RowidMap) (ef : nat).
Hypothesis Hwf : nodes_wf (length (h_nodes h)) (h_dim h) (h_nodes h).

(** [i] is a node that is not deleted. *)
Definition live_id (i : nat) : Prop := exists n, h_nodes h !! i = Some n /\ hn_deleted n = false.

(** Reachable from [s] along level-0 links through live nodes. *)
Inductive reach0 (s : nat) : nat -> Prop :=
| reach0_refl : reach0 s s
| reach0_step i j n :
    reach0 s i -> h_nodes h !! i = Some n -> j ∈ nbors_at n 0 -> live_id j -> reach0 s j.

(** The answers the nodes [ids] give, in order. *)
Definition node_hits (ids : list nat) : list (f32 * Z) :=
  (fun n => (distfunc (hn_vec n) query (h_dim h), hn_rowid n))
    <$> filter (fun n => passes map n = true) (omap (fun i => h_nodes h !! i) ids).

Lemma node_hits_snoc (ids : list nat) (i : nat) (n : HNSWNode) :
  h_nodes h !! i = Some n ->
  node_hits (ids ++ [i])
  = if passes map n then node_hits ids ++ [(distfunc (hn_vec n) query (h_dim h), hn_rowid n)]
    else node_hits ids.
Proof.
  intros Hn. unfold node_hits. rewrite omap_app. cbn [omap list_omap]. rewrite Hn, filter_app, fmap_app.
  destruct (passes map n) eqn:E.
  - by rewrite filter_cons_True.
  - rewrite filter_cons_False by (by rewrite E). by rewrite app_nil_r.
Qed.

Lemma enqueue_spec (nbors : list nat) (visited : list bool) (queue : list nat) :
  length visited = length (h_nodes h) -> (forall j, j ∈ nbors -> j < length (h_nodes h)) ->
  exists visited' new, enqueue h nbors visited queue = Some (visited', queue ++ new) /\
    length visited' = length (h_nodes h) /\ NoDup new /\
    (forall j, j ∈ new -> j ∈ nbors /\ live_id j /\ visited !! j = Some false) /\
    (forall j, visited' !! j = Some true <-> visited !! j = Some true \/ j ∈ new) /\
    (forall j, j ∈ nbors -> live_id j -> visited' !! j = Some true).
Proof.
  revert visited queue. induction nbors as [|nid nbors IH]; intros visited queue Hl Hn; cbn [enqueue].
  { exists visited, []. rewrite app_nil_r. split; [done|]. split; [done|]. split; [constructor|].
    split; [set_solver|]. split; [set_solver|set_solver]. }
  assert (Hnid : nid < length (h_nodes h)) by (apply Hn; by left).
  assert (Hn' : forall j, j ∈ nbors -> j < length (h_nodes h)) by (intros; apply Hn; by right).
  destruct (lookup_lt_is_Some_2 visited nid) as [v Ev]; [lia|]. rewrite Ev. cbn [mbind option_bind].
  destruct (lookup_lt_is_Some_2 (h_nodes h) nid Hnid) as [n2 En].
  destruct v.
  - destruct (IH visited queue Hl Hn') as (v' & new & E & H1 & H2 & H3 & H4 & H5).
    exists v', new. split; [done|]. split; [done|]. split; [done|]. split; [|split; [done|]].
    + intros j Hj. destruct (H3 j Hj) as (? & ? & ?). split; [by right|done].
    + intros j [->|Hj]%elem_of_cons Hlv; [|by apply H5]. apply H4. by left.
  - rewrite En. cbn [mbind option_bind]. destruct (hn_deleted n2) eqn:Ed.
    + destruct (IH visited queue Hl Hn') as (v' & new & E & H1 & H2 & H3 & H4 & H5).
      exists v', new. split; [done|]. split; [done|]. split; [done|]. split; [|split; [done|]].
      * intros j Hj. destruct (H3 j Hj) as (? & ? & ?). split; [by right|done].
      * intros j [->|Hj]%elem_of_cons Hlv; [|by apply H5]. destruct Hlv as (m & Em & Hm). congruence.
    + destruct (IH (<[nid := true]> visited) (queue ++ [nid])) as (v' & new & E & H1 & H2 & H3 & H4 & H5).
      { by rewrite length_insert. }
      { done. }
      assert (Hfresh : forall j, j ∈ new -> j <> nid).
      { intros j Hj ->. destruct (H3 nid Hj) as (_ & _ & Hv). rewrite list_lookup_insert_eq in Hv by lia. done. }
      exists v', (nid :: new). split; [by rewrite E, <- app_assoc|]. split; [done|]. split.
      { constructor; [|done]. intros Hin. by apply (Hfresh nid). }
      split; [|split].
      * intros j [->|Hj]%elem_of_cons.
        -- split; [by left|]. split; [by exists n2|done].
        -- pose proof (Hfresh j Hj). destruct (H3 j Hj) as (? & ? & Hv).
           rewrite list_lookup_insert_ne in Hv by done. split; [by right|done].
      * intros j. rewrite H4, elem_of_cons. destruct (decide (j = nid)) as [->|Hne].
        -- rewrite list_lookup_insert_eq by lia. naive_solver.
        -- rewrite list_lookup_insert_ne by done. naive_solver.
      * intros j [->|Hj]%elem_of_cons Hlv; [|by apply H5]. apply H4.
        rewrite list_lookup_insert_eq by lia. by left.
Qed.

(** The state of the loop: [dn] the ids already taken from the queue. *)
Definition bfs_inv (s : nat) (visited : list bool) (dn queue : list nat) : Prop :=
  length visited = length (h_nodes h) /\ NoDup (dn ++ queue) /\
  (forall i, visited !! i = Some true <-> i ∈ dn ++ queue) /\
  (forall i, i ∈ dn ++ queue -> live_id i /\ reach0 s i) /\
  (forall i n j, i ∈ dn -> h_nodes h !! i = Some n -> j ∈ nbors_at n 0 -> live_id j -> j ∈ dn ++ queue).

(** The ids whose answers a search collects: distinct live nodes reachable
    from [s], all of them if fewer than [ef] answers were found. *)
Definition collected (s : nat) (ids : list nat) : Prop :=
  NoDup ids /\ (forall i, i ∈ ids -> live_id i /\ reach0 s i) /\ length (node_hits ids) <= ef /\
  (length (node_hits ids) < ef -> forall i, reach0 s i -> i ∈ ids).

Lemma bfs_inv_dn_lt (s : nat) (visited : list bool) (dn : list nat) (i : nat) (queue : list nat) :
  bfs_inv s visited dn (i :: queue) -> length dn < length (h_nodes h).
Proof.
  intros (_ & Hnd & _ & Hlv & _).
  assert (Hsub : dn ++ [i] ⊆+ seq 0 (length (h_nodes h))).
  { apply NoDup_submseteq.
    - rewrite (assoc _ dn [i] queue : dn ++ i :: queue = (dn ++ [i]) ++ queue) in Hnd.
      by apply NoDup_app in Hnd as [? _].
    - intros x Hx. destruct (Hlv x) as [(n & Hn & _) _]; [set_solver|].
      apply elem_of_seq. apply lookup_lt_Some in Hn. lia. }
  apply submseteq_length in Hsub. rewrite length_app, length_seq in Hsub. cbn in Hsub. lia.
Qed.

Lemma bfs_inv_step (s : nat) (visited : list bool) (dn queue : list nat) (i : nat) (n : HNSWNode) :
  bfs_inv s visited dn (i :: queue) -> h_nodes h !! i = Some n ->
  exists visited' new, enqueue h (nbors_at n 0) visited queue = Some (visited', queue ++ new) /\
    bfs_inv s visited' (dn ++ [i]) (queue ++ new).
Proof.
  intros (H1 & H2 & H3 & H4 & H5) Hn. destruct (Hwf i n Hn) as (_ & _ & _ & _ & Hnb).
  destruct (enqueue_spec (nbors_at n 0) visited queue H1) as (v' & new & E & G1 & G2 & G3 & G4 & G5).
  { intros j Hj. by apply (Hnb 0). }
  exists v', new. split; [done|].
  assert (Ha : (dn ++ [i]) ++ queue ++ new = (dn ++ i :: queue) ++ new) by (by rewrite <- !app_assoc).
  unfold bfs_inv. rewrite Ha. split; [done|]. split; [|split; [|split]].
  - apply NoDup_app. split; [done|]. split; [|done]. intros x Hx Hx'.
    apply H3 in Hx. apply G3 in Hx' as (_ & _ & Hv). congruence.
  - intros j. rewrite G4, H3, (elem_of_app (dn ++ i :: queue)). done.
  - intros j [Hj|Hj]%elem_of_app; [by apply H4|]. destruct (G3 j Hj) as (Hjn & Hlv & _).
    split; [done|]. eapply reach0_step; [|done..]. apply H4. set_solver.
  - intros k m j [Hk|Hk]%elem_of_app Hm Hj Hlv.
    + apply elem_of_app. left. by eapply H5.
    + apply list_elem_of_singleton in Hk as ->. rewrite Hn in Hm. injection Hm as <-.
      rewrite elem_of_app, <- H3, <- G4. by apply G5.
Qed.

Lemma bfs_spec (s fuel : nat) (visited : list bool) (dn queue : list nat) :
  bfs_inv s visited dn queue -> s ∈ dn ++ queue -> length (h_nodes h) <= length dn + fuel ->
  length (node_hits dn) <= ef ->
  exists ids, bfs distfunc fuel h query map ef visited queue (node_hits dn) = Some (node_hits ids) /\
    collected s ids.
Proof.
  revert visited dn queue. induction fuel as [|fuel IH]; intros visited dn queue Hinv Hs Hf Hef;
    destruct queue as [|i queue]; cbn [bfs].
  1,3: exists dn; (split; [done|]); destruct Hinv as (H1 & H2 & H3 & H4 & H5);
    rewrite app_nil_r in *; (split; [done|]); (split; [done|]); (split; [done|]); intros _ i Hi;
    induction Hi as [|i j n _ IHi Hn Hj Hlv]; [done|]; by eapply H5.
  - pose proof (bfs_inv_dn_lt _ _ _ _ _ Hinv). lia.
  - destruct (Nat.ltb_spec (length (node_hits dn)) ef) as [Hlt|Hge].
    2:{ exists dn. split; [done|]. destruct Hinv as (H1 & H2 & H3 & H4 & H5).
        split; [by apply NoDup_app in H2 as [? _]|]. split; [intros; apply H4; set_solver|].
        split; [done|]. lia. }
    pose proof Hinv as (_ & _ & _ & H4 & _). destruct (H4 i) as [(n & Hn & Hd) _]; [set_solver|].
    rewrite Hn. cbn [mbind option_bind].
    destruct (bfs_inv_step _ _ _ _ _ _ Hinv Hn) as (v' & new & -> & Hinv'). cbn [mbind option_bind].
    pose proof (node_hits_snoc dn i n Hn) as Hh. rewrite <- Hh. apply IH; [done| | |].
    + rewrite <- !app_assoc. set_solver.
    + rewrite length_app. cbn. lia.
    + rewrite Hh. destruct (passes map n); rewrite ?length_app; cbn; lia.
Qed.

(** ** The entry point *)

Lemma skip_deleted_spec (fuel ep k : nat) (cur : HNSWNode) :
  h_nodes h !! ep = Some cur -> ep <= k -> live_id k -> k - ep <= fuel ->
  exists n, skip_deleted fuel h ep cur = Some n /\ is_node h n /\ hn_deleted n = false.
Proof.
  revert ep cur. induction fuel as [|fuel IH]; intros ep cur Hep Hk Hlv Hf; cbn [skip_deleted];
    pose proof (lookup_lt_Some _ _ _ Hep) as Hlt; rewrite (proj2 (Nat.ltb_lt _ _) Hlt), andb_true_r;
    (destruct (hn_deleted cur) eqn:Ed; [|exists cur; by split; [|split; [apply (lookup_is_node _ Hwf ep)|]]]).
  - destruct Hlv as (n & Hn & Hd). replace k with ep in Hn by lia. congruence.
  - destruct (decide (ep = k)) as [->|Hne].
    { destruct Hlv as (n & Hn & Hd). congruence. }
    assert (Hnx : is_Some (h_nodes h !! S ep)).
    { apply lookup_lt_is_Some_2. destruct Hlv as (n & Hn & _). apply lookup_lt_Some in Hn. lia. }
    destruct Hnx as [nx Hnx]. rewrite Hnx. cbn [mbind option_bind]. apply IH; [done|lia|done|lia].
Qed.

Lemma hnsw_search_spec (topk e k : nat) :
  h_entry_id h = Z.of_nat e -> e <= k -> live_id k ->
  exists s ids, live_id s /\ collected s ids /\
    hnsw_search distfunc h query ef topk map
    = Some (take topk (exchange_sort (f32_zero, 0%Z) fst (node_hits ids))).
Proof.
  intros He Hek Hk. unfold hnsw_search. rewrite He, (proj2 (Z.ltb_ge _ _)), Nat2Z.id by lia.
  pose proof Hk as (nk & Hnk & _). apply lookup_lt_Some in Hnk.
  destruct (lookup_lt_is_Some_2 (h_nodes h) e) as [ne Hne]; [lia|]. rewrite Hne. cbn [mbind option_bind].
  destruct (skip_deleted_spec (length (h_nodes h)) e k ne) as (c & -> & Hc & Hd); [done..|lia|].
  cbn [mbind option_bind].
  destruct (search_descend_total distfunc h query Hwf (h_max_level h) c Hc Hd) as (c' & E & Hc' & Hd').
  unfold node_dist in E. rewrite E. cbn [mbind option_bind]. set (s := hn_id c').
  assert (Hs : live_id s) by (by exists c').
  assert (Hsl : s < length (h_nodes h)) by (by eapply lookup_lt_Some).
  destruct (bfs_spec s (length (h_nodes h)) (<[s := true]> (replicate (length (h_nodes h)) false)) [] [s])
    as (ids & Eb & Hcol).
  - split; [by rewrite length_insert, length_replicate|]. cbn [app]. split; [apply NoDup_singleton|].
    split; [|split].
    + intros i. rewrite list_elem_of_singleton. destruct (decide (i = s)) as [->|Hi].
      * rewrite list_lookup_insert_eq by (by rewrite length_replicate). done.
      * rewrite list_lookup_insert_ne by done. split; [|done].
        intros Hr. by apply lookup_replicate in Hr as [? _].
    + intros i ->%list_elem_of_singleton. split; [done|constructor].
    + intros i n j Hi. by apply elem_of_nil in Hi.
  - by left.
  - cbn. lia.
  - cbn. lia.
  - change (node_hits []) with (@nil (f32 * Z)) in Eb. rewrite Eb. by exists s, ids.
Qed.

End SearchLemmas.

(** ** Properties *)

Section Properties.
Context (distfunc : DistanceFunc).

(** C31: Inserting into the HNSW graph, for any random level: a full index is
    left unchanged with [SQLITE_NOMEM]; otherwise the operation succeeds
    without touching unallocated nodes, the greedy descent terminating, the
    new row joins the live rows, and the graph stays well formed (ids are
    positions, levels are bounded, neighbour lists have at most
    [MAX_NEIGHBORS] entries, all existing nodes other than the owner). *)
Theorem hnsw_add_correct (h : HNSW) (vec : list f32) (rowid : Z) (drawn : nat) :
  hnsw_wf h -> length vec = h_dim h -> in_i32 rowid ->
  if h_max_nodes h <=? length (h_nodes h)
  then hnsw_add distfunc h vec rowid drawn = Some (SQLITE_NOMEM, h)
  else exists h', hnsw_add distfunc h vec rowid drawn = Some (SQLITE_OK, h') /\ hnsw_wf h' /\
         hnsw_live h' = hnsw_live h ++ [(rowid, vec)].
Proof.
  intros Hw Hv Hr. destruct (Nat.leb_spec (h_max_nodes h) (length (h_nodes h))) as [Hf|Hroom].
  - unfold hnsw_add. by rewrite (proj2 (Nat.leb_le _ _)) by lia.
  - destruct (hnsw_add_spec distfunc h vec rowid drawn Hw Hv Hroom) as (h' & E & W & _ & L).
    exists h'. rewrite (to_i32_id rowid Hr) in L. done.
Qed.

(** Deletion removes exactly one live row with the rowid, or nothing
    when there is none.  An update in place exchanges the vector of that row.
    An update with re-insertion first marks the row deleted and then adds the
    new one: with a free slot the row is exchanged, on a full index the
    result is [SQLITE_NOMEM] and the row is lost. *)
Lemma hnsw_delete_update_correct (h : HNSW) (rowid : Z) (vec : list f32) (drawn : nat) :
  hnsw_wf h -> length vec = h_dim h -> in_i32 rowid ->
  (exists old h1, hnsw_delete h rowid = (SQLITE_OK, h1) /\ hnsw_wf h1 /\
     hnsw_live h ≡ₚ (rowid, old) :: hnsw_live h1 /\
     (exists h2, hnsw_update distfunc h rowid vec false drawn = Some (SQLITE_OK, h2) /\
        hnsw_wf h2 /\ hnsw_live h2 ≡ₚ (rowid, vec) :: hnsw_live h1) /\
     if h_max_nodes h <=? length (h_nodes h)
     then hnsw_update distfunc h rowid vec true drawn = Some (SQLITE_NOMEM, h1)
     else exists h2, hnsw_update distfunc h rowid vec true drawn = Some (SQLITE_OK, h2) /\
            hnsw_wf h2 /\ hnsw_live h2 ≡ₚ (rowid, vec) :: hnsw_live h1)
  \/ hnsw_delete h rowid = (SQLITE_OK, h) /\
     (forall row, row ∈ hnsw_live h -> row.1 <> rowid) /\
     forall reinsert, hnsw_update distfunc h rowid vec reinsert drawn = Some (SQLITE_OK, h).
Proof.
  intros Hw Hv Hr. destruct (hnsw_delete_spec h rowid Hw) as (h1 & E & W & D & Hcase).
  unfold hnsw_update, hnsw_delete in *.
  pose proof (find_live_spec (h_nodes h) (to_i32 rowid) 0) as Hf. rewrite (to_i32_id rowid Hr) in *.
  destruct (find_live (h_nodes h) rowid 0) as [i|].
  2:{ right. split; [done|]. split; [|done]. injection E as <-.
      intros row Hrow. apply list_elem_of_fmap in Hrow as (n & -> & Hn).
      apply list_elem_of_filter in Hn as [Hd Hn]. by apply Hf. }
  left. destruct Hf as (n & k & -> & Hk & Hrow & Hd). cbn [Nat.add] in *. injection E as <-.
  destruct (live_alter h k n set_deleted Hk Hd) as (rest & P1 & P2). rewrite Hrow in P1.
  exists (hn_vec n). eexists. split; [done|]. split; [done|]. split; [by rewrite P1, P2|]. split.
  - cbn [negb]. eexists. split; [done|]. split.
    + apply hnsw_wf_alter; [|done|done]. intros N m Hm. apply set_vec_wf; [rewrite length_take; lia|done].
    + destruct (live_alter h k n (fun n => set_vec n (take (h_dim h) vec)) Hk Hd) as (rest' & P3 & P4).
      rewrite P4, P2. cbn [set_vec hn_deleted set_deleted hn_rowid hn_vec]. rewrite Hd, Hrow, take_ge by lia.
      cbn [app]. f_equiv. rewrite Hrow in P3. rewrite P1 in P3. by apply (inj (cons _)) in P3.
  - cbn [negb]. destruct (Nat.leb_spec (h_max_nodes h) (length (h_nodes h))) as [Hfull|Hroom].
    + unfold hnsw_add. cbn [set_nodes h_max_nodes h_nodes]. rewrite length_alter.
      by rewrite (proj2 (Nat.leb_le _ _)) by lia.
    + destruct (hnsw_add_spec distfunc (set_nodes h (alter set_deleted k (h_nodes h))) vec rowid drawn W)
        as (h2 & E2 & W2 & _ & L2); [done|cbn [set_nodes h_nodes h_max_nodes]; rewrite length_alter; lia|].
      exists h2. split; [done|]. split; [done|]. rewrite L2, (to_i32_id rowid Hr).
      by rewrite <- Permutation_cons_append.
Qed.

(** C24: When some node at or after the entry node is live, the search
    returns: its answers are the [topk] nearest, in ascending order, of what
    a set of distinct live nodes contributes, nodes passing the filter, all
    reachable over level-0 links of live nodes from one live start node; if
    they contribute fewer than [ef] answers the set is everything reachable
    from there. *)
Theorem hnsw_search_correct (h : HNSW) (query : list f32) (map : RowidMap) (ef topk e k : nat) :
  hnsw_wf h -> h_entry_id h = Z.of_nat e -> e <= k -> live_id h k ->
  (forall n, n ∈ h_nodes h -> is_nan (distfunc (hn_vec n) query (h_dim h)) = false) ->
  exists s ids res,
    hnsw_search distfunc h query ef topk map = Some res /\
    live_id h s /\ NoDup ids /\ (forall i, i ∈ ids -> live_id h i /\ reach0 h s i) /\
    (length (node_hits distfunc h query map ids) < ef -> forall i, reach0 h s i -> i ∈ ids) /\
    topk_of fst topk (node_hits distfunc h query map ids) res /\
    StronglySorted (le_by fst) res.
Proof.
  intros (_ & Hw & _) He Hek Hk Hnum.
  destruct (hnsw_search_spec distfunc h query map ef Hw topk e k He Hek Hk)
    as (s & ids & Hs & (C1 & C2 & C3 & C4) & E).
  assert (Hn : all_num fst (node_hits distfunc h query map ids)).
  { intros x Hx. apply list_elem_of_fmap in Hx as (n & -> & Hn).
    apply list_elem_of_filter in Hn as [_ Hn]. apply list_elem_of_omap in Hn as (i & _ & Hi).
    apply Hnum. by eapply list_elem_of_lookup_2. }
  destruct (exchange_sort_spec (f32_zero, 0%Z) fst _ Hn) as [P S].
  set (sorted := exchange_sort _ _ _) in *.
  exists s, ids, (take topk sorted). split; [done|]. split; [done|]. split; [done|].
  split; [done|]. split; [done|]. split.
  - eapply topk_of_Permutation; [exact P|done|]. by apply topk_of_take_sorted.
  - rewrite <- (take_drop topk sorted) in S. by apply StronglySorted_app in S as (_ & S & _).
Qed.

(** The filter test reads the node's rowid and level as one 64-bit
    integer: with the pre-filter on, a node is accepted exactly if it is
    live, its rowid is in the map and its level is 0, so rows that drew a
    higher level are never returned. *)
Lemma hnsw_prefilter_needs_level_0 (map : RowidMap) (n : HNSWNode) :
  rowid_map_wf map -> StronglySorted Z.le (rowid_map_elems map) -> rm_pre_filter map = true ->
  (forall r, r ∈ rowid_map_elems map -> 0 <= r < 2 ^ 31)%Z ->
  (0 <= hn_rowid n < 2 ^ 31)%Z -> hn_level n < MAX_LEVELS ->
  passes map n = true
  <-> hn_deleted n = false /\ hn_level n = 0 /\ hn_rowid n ∈ rowid_map_elems map.
Proof.
  intros Hw Hs Hp Hmap Hr Hl. unfold passes. rewrite andb_true_iff, negb_true_iff.
  rewrite (rowid_map_pass_iff map (rowid_key n) Hw Hs), Hp.
  assert (Hk : rowid_key n = (hn_rowid n + 2 ^ 32 * Z.of_nat (hn_level n))%Z).
  { unfold rowid_key. unfold MAX_LEVELS in Hl. rewrite (Z.mod_small (hn_rowid n)) by lia.
    apply to_i64_id. unfold in_i64. lia. }
  rewrite Hk. split.
  - intros [Hd [?|Hin]]; [done|]. split; [done|]. pose proof (Hmap _ Hin).
    assert (E : hn_level n = 0) by lia. split; [done|]. rewrite E in Hin. by rewrite Z.add_0_r in Hin.
  - intros (Hd & E & Hin). split; [done|]. right. by rewrite E, Z.add_0_r.
Qed.

Lemma skip_deleted_none (h : HNSW) (fuel ep : nat) (cur : HNSWNode) :
  h_nodes h !! ep = Some cur -> (forall k, ep <= k -> ~ live_id h k) ->
  skip_deleted fuel h ep cur = None.
Proof.
  revert ep cur. induction fuel as [|fuel IH]; intros ep cur Hep Hno; cbn [skip_deleted];
    pose proof (lookup_lt_Some _ _ _ Hep) as Hlt; rewrite (proj2 (Nat.ltb_lt _ _) Hlt), andb_true_r;
    (destruct (hn_deleted cur) eqn:Ed; [|by destruct (Hno ep); [lia|exists cur]]); [done|].
  destruct (h_nodes h !! S ep) as [nx|] eqn:E; [|done]. cbn [mbind option_bind].
  apply IH; [done|]. intros k Hk. apply Hno. lia.
Qed.

(** With no live node at or after the entry node the search does not
    return: it reads [nodes[-1]] of an empty index, or runs past the last
    node into a null pointer. *)
Lemma hnsw_search_without_live_node (h : HNSW) (query : list f32) (map : RowidMap) (ef topk : nat) :
  (forall k, (h_entry_id h <= Z.of_nat k)%Z -> ~ live_id h k) ->
  hnsw_search distfunc h query ef topk map = None.
Proof.
  intros Hno. unfold hnsw_search. destruct (Z.ltb_spec (h_entry_id h) 0) as [|Hpos]; [done|].
  destruct (h_nodes h !! Z.to_nat (h_entry_id h)) as [c|] eqn:E; [|done]. cbn [mbind option_bind].
  rewrite skip_deleted_none; [done|done|]. intros k Hk. apply Hno. lia.
Qed.

End Properties.

(** ** A concrete graph over the line *)

Lemma hnsw_create_wf (max_nodes dim : nat) : hnsw_wf (hnsw_create max_nodes dim).
Proof.
  split; [cbn; lia|]. split; [intros i n Hi; cbn in Hi; by rewrite lookup_nil in Hi|].
  split; [by left|]. intros n Hn. by apply elem_of_nil in Hn.
Qed.

Definition hnsw_add_point (h : HNSW) (p : Z * Z * nat) : HNSW :=
  match hnsw_add sq_distance h [f32_of_Z p.1.1] p.1.2 p.2 with
  | Some (_, h') => h'
  | None => h
  end.

(** Points with rowid and drawn level. *)
Definition line_hnsw (max_nodes : nat) (ps : list (Z * Z * nat)) : HNSW :=
  foldl hnsw_add_point (hnsw_create max_nodes 1) ps.

Lemma line_hnsw_wf (max_nodes : nat) (ps : list (Z * Z * nat)) : hnsw_wf (line_hnsw max_nodes ps).
Proof.
  unfold line_hnsw.
  assert (H : hnsw_wf (hnsw_create max_nodes 1) /\ h_dim (hnsw_create max_nodes 1) = 1)
    by (split; [apply hnsw_create_wf|done]).
  revert H. generalize (hnsw_create max_nodes 1). induction ps as [|p ps IH]; intros h [Hw Hd]; [done|].
  cbn [foldl]. apply IH. unfold hnsw_add_point.
  destruct (Nat.leb_spec (h_max_nodes h) (length (h_nodes h))) as [Hf|Hroom].
  - unfold hnsw_add. by rewrite (proj2 (Nat.leb_le _ _)) by lia.
  - destruct (hnsw_add_spec sq_distance h [f32_of_Z p.1.1] p.1.2 p.2 Hw) as (h' & -> & W & D & _);
      [done|done|]. split; [done|congruence].
Qed.

Definition demo_hnsw : HNSW := line_hnsw 4 [(1, 11, 0%nat); (5, 12, 1%nat); (9, 13, 0%nat)]%Z.

Lemma hnsw_add_correct_witness :
  exists h', hnsw_add sq_distance demo_hnsw [f32_of_Z 6] 14 2 = Some (SQLITE_OK, h') /\ hnsw_wf h' /\
    hnsw_live h' = hnsw_live demo_hnsw ++ [(14%Z, [f32_of_Z 6])].
Proof.
  refine (hnsw_add_correct sq_distance demo_hnsw [f32_of_Z 6] 14 2 _ _ _).
  - apply line_hnsw_wf.
  - reflexivity.
  - unfold in_i32. lia.
Defined.

Lemma hnsw_delete_update_correct_witness :
  exists old h1, hnsw_delete demo_hnsw 12 = (SQLITE_OK, h1) /\
    hnsw_live demo_hnsw ≡ₚ (12%Z, old) :: hnsw_live h1 /\
    exists h2, hnsw_update sq_distance demo_hnsw 12 [f32_of_Z 7] true 0 = Some (SQLITE_OK, h2) /\
      hnsw_wf h2 /\ hnsw_live h2 ≡ₚ (12%Z, [f32_of_Z 7]) :: hnsw_live h1.
Proof.
  destruct (hnsw_delete_update_correct sq_distance demo_hnsw 12 [f32_of_Z 7] 0)
    as [(old & h1 & H1 & _ & H3 & _ & H5)|(_ & Hno & _)].
  - apply line_hnsw_wf.
  - reflexivity.
  - unfold in_i32. lia.
  - exists old, h1. split; [exact H1|]. split; [exact H3|exact H5].
  - exfalso. apply (Hno (12%Z, [f32_of_Z 5])); [|reflexivity].
    apply list_elem_of_In. vm_compute. auto.
Defined.

Lemma hnsw_search_correct_witness :
  exists s ids res,
    hnsw_search sq_distance demo_hnsw [f32_of_Z 4] EF_CONSTRUCTION 2 no_filter = Some res /\
    live_id demo_hnsw s /\ NoDup ids /\
    topk_of fst 2 (node_hits sq_distance demo_hnsw [f32_of_Z 4] no_filter ids) res /\
    res.*2 = [12; 11]%Z.
Proof.
  destruct (hnsw_search_correct sq_distance demo_hnsw [f32_of_Z 4] no_filter EF_CONSTRUCTION 2 1 1)
    as (s & ids & res & H1 & H2 & H3 & H4 & H5 & H6 & H7).
  - apply line_hnsw_wf.
  - vm_compute. reflexivity.
  - lia.
  - destruct (h_nodes demo_hnsw !! 1) as [n|] eqn:E; [|vm_compute in E; discriminate].
    exists n. split; [exact E|]. vm_compute in E. injection E as <-. reflexivity.
  - by_compute.
  - exists s, ids, res. split; [exact H1|]. split; [exact H2|]. split; [exact H3|]. split; [exact H6|].
    vm_compute in H1. injection H1 as <-. reflexivity.
Defined.

Lemma hnsw_prefilter_needs_level_0_witness :
  let map := MkRowidMap [12; 13]%Z 2 2 true in
  let n := MkNode 1 12 1 [f32_of_Z 5] [] false in
  passes map n = false /\ hn_rowid n ∈ rowid_map_elems map.
Proof.
  cbv zeta. split; [|by_compute]. apply not_true_is_false. intros H.
  apply (hnsw_prefilter_needs_level_0 (MkRowidMap [12; 13]%Z 2 2 true)) in H as (_ & H & _).
  - discriminate.
  - split; [reflexivity|cbn; lia].
  - cbn. repeat constructor; lia.
  - reflexivity.
  - refine (proj1 (Forall_forall _ _) _). cbn. repeat constructor; lia.
  - cbn. lia.
  - cbn. unfold MAX_LEVELS. lia.
Defined.

Lemma hnsw_search_without_live_node_witness :
  hnsw_search sq_distance (hnsw_create 4 1) [f32_of_Z 4] EF_CONSTRUCTION 2 no_filter = None.
Proof.
  apply (hnsw_search_without_live_node sq_distance (hnsw_create 4 1)).
  intros k _ (n & Hn & _). cbn in Hn. rewrite lookup_nil in Hn. discriminate.
Defined.
