(* ===== verification/Codec.v ===== *)
(** * Byte formats

    Bytes are integers from 0 to 255, integers little-endian.  Reading is a
    small state-and-error monad over the bytes that are left.  A [Codec]
    pairs the two directions of one field type with its law; the round trips
    of the file formats and of the metadata columns are proved from the laws
    of their fields. *)

From stdpp Require Import base option list numbers sets.
From Stdlib Require Import ZArith Lia SpecFloat.
From S2P Require Import Prelude Float32.

Local Open Scope Z_scope.

(** ** Readers *)

Abbreviation bytes := (list Z).
Definition reader (A : Type) : Type := bytes -> option (A * bytes).

Definition rret {A : Type} (x : A) : reader A := fun s => Some (x, s).

Definition rbind {A B : Type} (m : reader A) (f : A -> reader B) : reader B :=
  fun s => match m s with Some (x, s') => f x s' | None => None end.

Declare Scope reader_scope.
Delimit Scope reader_scope with reader.
Notation "x '<-r' m ; f" := (rbind m (fun x => f))
  (at level 20, m at level 100, f at level 200, right associativity) : reader_scope.

(** [for (i = 0; i < n; i++)] of reads. *)
Fixpoint rrepeat {A : Type} (n : nat) (m : reader A) : reader (list A) :=
  match n with
  | O => rret []
  | S n => rbind m (fun x => rbind (rrepeat n m) (fun l => rret (x :: l)))
  end.

(** ** Little-endian integers *)

Fixpoint enc_le (n : nat) (z : Z) : bytes :=
  match n with
  | O => []
  | S n => z mod 256 :: enc_le n (z / 256)
  end.

Fixpoint dec_le (n : nat) : reader Z :=
  match n with
  | O => rret 0
  | S n => fun s =>
      match s with
      | [] => None
      | b :: s => rbind (dec_le n) (fun hi => rret (b + 256 * hi)) s
      end
  end.

Lemma dec_enc_le (n : nat) (z : Z) (s : bytes) :
  dec_le n (enc_le n z ++ s) = Some (z mod 2 ^ (8 * Z.of_nat n), s).
Proof.
  revert z s. induction n as [|n IH]; intros z s; [by rewrite Z.mod_1_r|].
  cbn [dec_le enc_le app]. unfold rbind. rewrite IH. unfold rret. do 2 f_equal.
  replace (8 * Z.of_nat (S n)) with (8 + 8 * Z.of_nat n) by lia.
  rewrite Z.pow_add_r by lia. change (2 ^ 8) with 256.
  rewrite Z.rem_mul_r by (try apply Z.pow_nonzero; lia). lia.
Qed.

Lemma length_enc_le (n : nat) (z : Z) : length (enc_le n z) = n.
Proof. revert z. induction n as [|n IH]; intros z; [done|]. cbn. by rewrite IH. Qed.

(** ** Field types *)

Record Codec (A : Type) := MkCodec {
  enc : A -> bytes;
  dec : reader A;
  enc_ok : A -> Prop;
  dec_enc : forall x s, enc_ok x -> dec (enc x ++ s) = Some (x, s)
}.
Arguments enc {A} c x.
Arguments dec {A} c s.
Arguments enc_ok {A} c x.
Arguments dec_enc {A} c x s.

Definition dec_i32 : reader Z := rbind (dec_le 4) (fun z => rret (to_i32 z)).
Definition dec_i64 : reader Z := rbind (dec_le 8) (fun z => rret (to_i64 z)).
Definition dec_f32 : reader f32 := rbind (dec_le 4) (fun z => rret (f32_of_bits z)).
(** A [bool]: any non-zero byte is true. *)
Definition dec_bool : reader bool := rbind (dec_le 1) (fun z => rret (negb (z =? 0))).

Lemma wrap_s_mod (w z : Z) : 0 < w -> wrap_s w (z mod 2 ^ w) = wrap_s w z.
Proof. intros. unfold wrap_s. by rewrite Z.mod_mod by (apply Z.pow_nonzero; lia). Qed.

Lemma dec_enc_i32 (z : Z) (s : bytes) : in_i32 z -> dec_i32 (enc_le 4 z ++ s) = Some (z, s).
Proof.
  intros Hz. unfold dec_i32, rbind. rewrite dec_enc_le. unfold rret, to_i32.
  change (8 * Z.of_nat 4) with 32. rewrite wrap_s_mod by lia.
  fold (to_i32 z). by rewrite (to_i32_id z Hz).
Qed.

Lemma dec_enc_i64 (z : Z) (s : bytes) : in_i64 z -> dec_i64 (enc_le 8 z ++ s) = Some (z, s).
Proof.
  intros Hz. unfold dec_i64, rbind. rewrite dec_enc_le. unfold rret, to_i64.
  change (8 * Z.of_nat 8) with 64. rewrite wrap_s_mod by lia.
  fold (to_i64 z). by rewrite (to_i64_id z Hz).
Qed.

Lemma dec_enc_f32 (x : f32) (s : bytes) :
  f32_valid x -> dec_f32 (enc_le 4 (bits_of_f32 x) ++ s) = Some (x, s).
Proof.
  intros Hx. unfold dec_f32, rbind. rewrite dec_enc_le. unfold rret.
  change (8 * Z.of_nat 4) with 32. rewrite Z.mod_small by (by apply bits_of_f32_range).
  by rewrite f32_of_bits_of_f32.
Qed.

Lemma dec_enc_bool (b : bool) (s : bytes) :
  True -> dec_bool (enc_le 1 (if b then 1 else 0) ++ s) = Some (b, s).
Proof. intros _. by destruct b. Qed.

Definition i32c : Codec Z := MkCodec Z (enc_le 4) dec_i32 in_i32 dec_enc_i32.
Definition i64c : Codec Z := MkCodec Z (enc_le 8) dec_i64 in_i64 dec_enc_i64.
Definition f32c : Codec f32 :=
  MkCodec f32 (fun x => enc_le 4 (bits_of_f32 x)) dec_f32 f32_valid dec_enc_f32.
Definition boolc : Codec bool :=
  MkCodec bool (fun b => enc_le 1 (if b then 1 else 0)) dec_bool (fun _ => True) dec_enc_bool.

(** A non-negative [int] (or the low half of a [size_t]) used as a count. *)
Definition dec_nat : reader nat := rbind dec_i32 (fun z => rret (Z.to_nat z)).

Lemma dec_enc_nat (n : nat) (s : bytes) :
  Z.of_nat n < 2 ^ 31 -> dec_nat (enc_le 4 (Z.of_nat n) ++ s) = Some (n, s).
Proof.
  intros Hn. unfold dec_nat, rbind. rewrite dec_enc_i32 by (unfold in_i32; lia).
  unfold rret. by rewrite Nat2Z.id.
Qed.

Definition natc : Codec nat :=
  MkCodec nat (fun n => enc_le 4 (Z.of_nat n)) dec_nat (fun n => Z.of_nat n < 2 ^ 31) dec_enc_nat.

(** Arrays: the elements one after the other. *)
Section Arrays.
Context {A : Type} (c : Codec A).

Definition enc_array (l : list A) : bytes := concat (enc c <$> l).
Definition dec_array (n : nat) : reader (list A) := rrepeat n (dec c).

Lemma dec_enc_array (l : list A) (n : nat) (s : bytes) :
  length l = n -> Forall (enc_ok c) l -> dec_array n (enc_array l ++ s) = Some (l, s).
Proof.
  intros Hl Hok. revert n Hl. induction Hok as [|x l Hx _ IH]; intros n <-; [done|].
  unfold enc_array, dec_array in *. cbn [fmap list_fmap concat length rrepeat].
  rewrite <- app_assoc. unfold rbind at 1. rewrite dec_enc by done.
  unfold rbind. by rewrite (IH (length l)).
Qed.

End Arrays.

(** Reading back one field at the front of the file. *)
Lemma rbind_dec {A B : Type} (c : Codec A) (x : A) (s : bytes) (f : A -> reader B) :
  enc_ok c x -> rbind (dec c) f (enc c x ++ s) = f x s.
Proof. intros Hx. unfold rbind. by rewrite dec_enc. Qed.

Lemma rbind_array {A B : Type} (c : Codec A) (l : list A) (n : nat) (s : bytes)
    (f : list A -> reader B) :
  length l = n -> Forall (enc_ok c) l -> rbind (dec_array c n) f (enc_array c l ++ s) = f l s.
Proof. intros Hl Hok. unfold rbind. by rewrite dec_enc_array. Qed.

(** [read_fields] consumes the fields written at the front, leaving the
    range conditions. *)
Ltac read_fields :=
  rewrite <- ?app_assoc;
  repeat first [rewrite rbind_dec | rewrite rbind_array].
