(* ===== verification/Serialize.v ===== *)
(** * Index files (sqlite-vec.c, [serialize_*], [deserialize_*])

    The three indexes are saved with [fwrite] and loaded with [fread], field
    by field, on a little-endian machine.  A file is a list of byte values.
    [fread] at the end of the file leaves its target untouched: where the
    code does not test for that the value is indeterminate, which is [None]
    here. *)

From stdpp Require Import base option list numbers sets.
From Stdlib Require Import ZArith Lia SpecFloat.
From S2P Require Import Prelude Float32 Codec CLib KDTree KDSearch IVF IVFSearch HNSW.

Local Open Scope Z_scope.

(** ** The KD-tree *)

Fixpoint serialize_kdnode (node : KDNode) : bytes :=
  match node with
  | kd_null => enc i32c 1
  | kd_node p r axis size del inv l rt =>
      enc i32c 0 ++ enc i64c r ++ enc i32c axis ++ enc i32c size ++ enc i32c del ++ enc i32c inv
      ++ enc_array f32c p ++ serialize_kdnode l ++ serialize_kdnode rt
  end.

(** The recursion is on the file: [fuel] bounds its depth. *)
Fixpoint deserialize_kdnode (fuel dims : nat) : reader KDNode :=
  match fuel with
  | O => fun _ => None
  | S fuel => fun s =>
      match dec i32c s with
      | None => Some (kd_null, s)
      | Some (is_null, s) =>
          if negb (is_null =? 0) then Some (kd_null, s)
          else
            (r <-r dec i64c; axis <-r dec i32c; size <-r dec i32c; del <-r dec i32c;
             inv <-r dec i32c; p <-r dec_array f32c dims;
             l <-r deserialize_kdnode fuel dims; rt <-r deserialize_kdnode fuel dims;
             rret (kd_node p r axis size del inv l rt))%reader s
      end
  end.

Definition serialize_kdtree (tree : KDTree) : bytes :=
  enc natc (kt_dimensions tree) ++ enc i32c (kt_size tree) ++ serialize_kdnode (kt_root tree).

Definition deserialize_kdtree (file : bytes) : option KDTree :=
  match (dims <-r dec natc; size <-r dec i32c; root <-r deserialize_kdnode (S (length file)) dims;
         rret (MkKDTree root dims size))%reader file with
  | Some (t, _) => Some t
  | None => None
  end.

(** Field values in the range of their C types. *)
Fixpoint kd_storable (dims : nat) (node : KDNode) : Prop :=
  match node with
  | kd_null => True
  | kd_node p r axis size del inv l rt =>
      length p = dims /\ Forall f32_valid p /\ in_i64 r /\ in_i32 axis /\ in_i32 size /\
      in_i32 del /\ in_i32 inv /\ kd_storable dims l /\ kd_storable dims rt
  end.

Fixpoint kd_height (node : KDNode) : nat :=
  match node with
  | kd_null => 1
  | kd_node _ _ _ _ _ _ l rt => S (Nat.max (kd_height l) (kd_height rt))
  end.

Lemma deserialize_serialize_kdnode (node : KDNode) (fuel dims : nat) (s : bytes) :
  kd_storable dims node -> (kd_height node <= fuel)%nat ->
  deserialize_kdnode fuel dims (serialize_kdnode node ++ s) = Some (node, s).
Proof.
  revert fuel s. induction node as [|p r axis size del inv l IHl rt IHr]; intros fuel s Hok Hh;
    (destruct fuel as [|fuel]; [cbn in Hh; lia|]); cbn [deserialize_kdnode serialize_kdnode].
  - rewrite dec_enc by (cbn; unfold in_i32; lia). done.
  - destruct Hok as (H1 & H2 & H3 & H4 & H5 & H6 & H7 & Hl & Hr). cbn [kd_height] in Hh.
    rewrite <- !app_assoc, dec_enc by (cbn; unfold in_i32; lia). cbn [negb Z.eqb].
    read_fields; try done. unfold rbind at 1. rewrite IHl by (done || lia).
    unfold rbind. by rewrite IHr by (done || lia).
Qed.

(** Every node takes at least the four bytes of its marker. *)
Lemma kd_height_bytes (node : KDNode) : (kd_height node <= length (serialize_kdnode node))%nat.
Proof.
  induction node as [|p r axis size del inv l IHl rt IHr]; [cbn; lia|]. cbn [kd_height serialize_kdnode].
  rewrite !length_app. change (length (enc i32c 0)) with 4%nat. lia.
Qed.

Lemma kdtree_file_roundtrip (tree : KDTree) :
  Z.of_nat (kt_dimensions tree) < 2 ^ 31 -> in_i32 (kt_size tree) ->
  kd_storable (kt_dimensions tree) (kt_root tree) ->
  deserialize_kdtree (serialize_kdtree tree) = Some tree.
Proof.
  intros Hd Hs Hok. unfold deserialize_kdtree.
  set (fuel := S _). assert (Hf : (kd_height (kt_root tree) <= fuel)%nat).
  { subst fuel. unfold serialize_kdtree. rewrite !length_app.
    pose proof (kd_height_bytes (kt_root tree)). lia. }
  clearbody fuel. unfold serialize_kdtree. read_fields; try done.
  unfold rbind. rewrite <- (app_nil_r (serialize_kdnode _)).
  rewrite deserialize_serialize_kdnode by done. by destruct tree.
Qed.

(** ** The HNSW graph

    [fwrite(&n->deleted, sizeof(int), ...)] writes the [bool] and the three
    bytes behind it ([pad], whatever they hold); reading overwrites the same
    four bytes.  The levels above the node's own are not stored: after
    loading they hold what the allocation held ([uninit]). *)

Definition serialize_hnsw_level (n : HNSWNode) (lvl : nat) : bytes :=
  enc natc (length (nbors_at n lvl)) ++ enc_array natc (nbors_at n lvl).

Definition serialize_hnsw_node (pad : bytes) (n : HNSWNode) : bytes :=
  enc natc (hn_id n) ++ enc i32c (hn_rowid n) ++ enc natc (hn_level n)
  ++ enc boolc (hn_deleted n) ++ pad ++ enc_array f32c (hn_vec n)
  ++ concat (serialize_hnsw_level n <$> seq 0 (S (hn_level n))).

Definition serialize_hnsw (pad : bytes) (h : HNSW) : bytes :=
  enc natc (h_dim h) ++ enc natc (h_max_nodes h) ++ enc natc (length (h_nodes h))
  ++ enc i32c (h_entry_id h) ++ enc natc (h_max_level h)
  ++ concat (serialize_hnsw_node pad <$> h_nodes h).

(** A count above [MAX_NEIGHBORS] would write past the array. *)
Definition deserialize_hnsw_level : reader (list nat) :=
  (count <-r dec natc;
   if (count <=? MAX_NEIGHBORS)%nat then dec_array natc count else fun _ => None)%reader.

Definition deserialize_hnsw_node (uninit : list (list nat)) (dim : nat) : reader HNSWNode :=
  (id <-r dec natc; rowid <-r dec i32c; level <-r dec natc;
   deleted <-r dec boolc; _ <-r dec_le 3; vec <-r dec_array f32c dim;
   nbors <-r rrepeat (S level) deserialize_hnsw_level;
   rret (MkNode id rowid level vec (nbors ++ drop (S level) uninit) deleted))%reader.

Definition deserialize_hnsw (uninit : list (list nat)) (file : bytes) : option HNSW :=
  match (dim <-r dec natc; max_nodes <-r dec natc; num_nodes <-r dec natc; entry_id <-r dec i32c;
         max_level <-r dec natc; nodes <-r rrepeat num_nodes (deserialize_hnsw_node uninit dim);
         rret (MkHNSW dim max_nodes nodes entry_id max_level))%reader file with
  | Some (h, _) => Some h
  | None => None
  end.

Definition node_storable (n : HNSWNode) : Prop :=
  Z.of_nat (hn_id n) < 2 ^ 31 /\ in_i32 (hn_rowid n) /\ Forall f32_valid (hn_vec n) /\
  forall l j, j ∈ nbors_at n l -> Z.of_nat j < 2 ^ 31.

(** What a node is after saving and loading. *)
Definition restored (uninit : list (list nat)) (n : HNSWNode) : HNSWNode :=
  set_nbors n (take (S (hn_level n)) (hn_nbors n) ++ drop (S (hn_level n)) uninit).

(** Repeated reads of items written one after the other. *)
Lemma rrepeat_concat {A B : Type} (m : reader B) (w : A -> bytes) (v : A -> B) (l : list A)
    (s : bytes) :
  (forall x s, x ∈ l -> m (w x ++ s) = Some (v x, s)) ->
  rrepeat (length l) m (concat (w <$> l) ++ s) = Some (v <$> l, s).
Proof.
  revert s. induction l as [|x l IH]; intros s Hx; [done|]. cbn [length rrepeat fmap list_fmap concat].
  rewrite <- app_assoc. unfold rbind at 1. rewrite Hx by (by left).
  unfold rbind. rewrite IH; [done|]. intros y t Hy. apply Hx. by right.
Qed.

Lemma hnsw_level_roundtrip (n : HNSWNode) (lvl : nat) (s : bytes) :
  (length (nbors_at n lvl) <= MAX_NEIGHBORS)%nat ->
  (forall j, j ∈ nbors_at n lvl -> Z.of_nat j < 2 ^ 31) ->
  deserialize_hnsw_level (serialize_hnsw_level n lvl ++ s) = Some (nbors_at n lvl, s).
Proof.
  intros Hl Hj. unfold deserialize_hnsw_level, serialize_hnsw_level. read_fields.
  - rewrite (proj2 (Nat.leb_le _ _)) by done. apply dec_enc_array; [done|]. by apply Forall_forall.
  - cbn. unfold MAX_NEIGHBORS in Hl. lia.
Qed.

Lemma take_as_levels (n : HNSWNode) (k : nat) :
  (k <= length (hn_nbors n))%nat -> take k (hn_nbors n) = nbors_at n <$> seq 0 k.
Proof.
  intros Hk. apply list_eq. intros i. rewrite list_lookup_fmap.
  destruct (decide (i < k)%nat) as [Hi|Hi].
  - rewrite lookup_take_lt, lookup_seq_lt by done. cbn. unfold nbors_at.
    apply aget_lookup_lt. lia.
  - rewrite lookup_take_ge by lia. rewrite lookup_seq_ge by lia. done.
Qed.

Lemma hnsw_node_roundtrip (pad : bytes) (uninit : list (list nat)) (N dim i : nat) (n : HNSWNode)
    (s : bytes) :
  length pad = 3%nat -> node_wf N dim i n -> node_storable n ->
  deserialize_hnsw_node uninit dim (serialize_hnsw_node pad n ++ s) = Some (restored uninit n, s).
Proof.
  intros Hp (W1 & W2 & W3 & W4 & W5) (S1 & S2 & S3 & S4).
  unfold deserialize_hnsw_node, serialize_hnsw_node.
  assert (Hpad : forall t, exists z, dec_le 3 (pad ++ t) = Some (z, t)).
  { intros t. destruct pad as [|a [|b [|c [|? ?]]]]; try done. by eexists. }
  read_fields; try done; [|cbn; unfold MAX_LEVELS in W2; lia].
  destruct (Hpad (enc_array f32c (hn_vec n) ++ concat (serialize_hnsw_level n <$> seq 0 (S (hn_level n))) ++ s))
    as [z Hz]. unfold rbind at 1. rewrite Hz, rbind_array by done.
  unfold rbind. replace (S (hn_level n)) with (length (seq 0 (S (hn_level n)))) at 1 by apply length_seq.
  rewrite (rrepeat_concat _ _ (nbors_at n)).
  - unfold rret, restored. rewrite take_as_levels; [done|]. unfold MAX_LEVELS in *. lia.
  - intros l t Hl. apply hnsw_level_roundtrip; [apply W5|apply S4].
Qed.

Lemma hnsw_file_roundtrip (pad : bytes) (uninit : list (list nat)) (h : HNSW) :
  length pad = 3%nat -> hnsw_wf h -> (forall n, n ∈ h_nodes h -> node_storable n) ->
  Z.of_nat (h_dim h) < 2 ^ 31 -> Z.of_nat (h_max_nodes h) < 2 ^ 31 ->
  Z.of_nat (h_max_level h) < 2 ^ 31 ->
  deserialize_hnsw uninit (serialize_hnsw pad h) = Some (set_nodes h (restored uninit <$> h_nodes h)).
Proof.
  intros Hp (W1 & W2 & W3 & W4) Hs Hd Hm Hl. unfold deserialize_hnsw, serialize_hnsw.
  read_fields; try done.
  - unfold rbind. rewrite <- (app_nil_r (concat _)).
    rewrite (rrepeat_concat _ _ (restored uninit)); [done|].
    intros n s Hn. pose proof Hn as [i Hi]%list_elem_of_lookup.
    eapply hnsw_node_roundtrip; [done|by eapply W2|by apply Hs].
  - destruct W3 as [[_ ->]|(e & -> & He)]; cbn; unfold in_i32; lia.
  - cbn. lia.
Qed.

(** ** The inverted-file index

    The array [deleted] is not stored, and loading does not set the pointer to
    it: the loaded index has no such array ([[]]), and an access to it is
    undefined. *)

Definition serialize_invlist (l : InvertedList) : bytes :=
  enc natc (il_count l) ++ enc natc (il_cap l) ++ enc_array i64c (il_rowids l)
  ++ enc_array f32c (il_vecs l).

Definition deserialize_invlist (dim : nat) : reader InvertedList :=
  (count <-r dec natc; cap <-r dec natc; rowids <-r dec_array i64c cap;
   vecs <-r dec_array f32c (cap * dim)%nat; rret (MkInvList count cap rowids vecs))%reader.

Definition serialize_ivf (f : IVF) : bytes :=
  enc natc (ivf_nlist f) ++ enc natc (ivf_nprobe f) ++ enc natc (ivf_dim f)
  ++ enc boolc (ivf_trained f) ++ enc_array f32c (ivf_centroids f)
  ++ concat (serialize_invlist <$> ivf_lists f)
  ++ enc natc (ivf_train_size f) ++ enc natc (ivf_train_capacity f)
  ++ (if (0 <? ivf_train_capacity f)%nat
      then enc_array f32c (ivf_train_vecs f) ++ enc_array i64c (ivf_train_rowids f) else []).

Definition deserialize_ivf (file : bytes) : option IVF :=
  match (nlist <-r dec natc; nprobe <-r dec natc; dim <-r dec natc; trained <-r dec boolc;
         cents <-r dec_array f32c (nlist * dim)%nat; lists <-r rrepeat nlist (deserialize_invlist dim);
         size <-r dec natc; cap <-r dec natc;
         if (0 <? cap)%nat then
           (vecs <-r dec_array f32c (cap * dim)%nat; rowids <-r dec_array i64c cap;
            rret (MkIVF nlist nprobe dim cents lists vecs rowids [] size cap trained))
         else rret (MkIVF nlist nprobe dim cents lists [] [] [] size cap trained))%reader file with
  | Some (f, _) => Some f
  | None => None
  end.

Definition il_storable (l : InvertedList) : Prop :=
  Z.of_nat (il_cap l) < 2 ^ 31 /\ Forall in_i64 (il_rowids l) /\ Forall f32_valid (il_vecs l).

Definition ivf_storable (f : IVF) : Prop :=
  Z.of_nat (ivf_nlist f) < 2 ^ 31 /\ Z.of_nat (ivf_nprobe f) < 2 ^ 31 /\
  Z.of_nat (ivf_dim f) < 2 ^ 31 /\ Z.of_nat (ivf_train_capacity f) < 2 ^ 31 /\
  length (ivf_centroids f) = (ivf_nlist f * ivf_dim f)%nat /\ Forall f32_valid (ivf_centroids f) /\
  (forall l, l ∈ ivf_lists f -> il_storable l) /\
  Forall f32_valid (ivf_train_vecs f) /\ Forall in_i64 (ivf_train_rowids f).

Lemma invlist_roundtrip (dim : nat) (l : InvertedList) (s : bytes) :
  il_wf dim l -> il_storable l ->
  deserialize_invlist dim (serialize_invlist l ++ s) = Some (l, s).
Proof.
  intros (W1 & W2 & W3 & W4) (S1 & S2 & S3). unfold deserialize_invlist, serialize_invlist.
  read_fields; try done; [by destruct l|cbn; lia].
Qed.

(** The index without its deletion marks. *)
Definition forget_marks (f : IVF) : IVF :=
  set_train f (ivf_train_vecs f) (ivf_train_rowids f) [] (ivf_train_size f).

Lemma ivf_file_roundtrip (f : IVF) :
  ivf_wf f -> ivf_storable f -> deserialize_ivf (serialize_ivf f) = Some (forget_marks f).
Proof.
  intros (W1 & W2 & W3 & W4 & W5 & W6 & W7) (S1 & S2 & S3 & S4 & S5 & S6 & S7 & S8 & S9).
  unfold deserialize_ivf, serialize_ivf, forget_marks. read_fields; try done.
  unfold rbind at 1. rewrite <- W2, (rrepeat_concat _ _ id).
  - rewrite list_fmap_id. read_fields; try done; [|cbn; lia].
    destruct (Nat.ltb_spec 0 (ivf_train_capacity f)) as [Hc|Hc].
    + rewrite <- (app_nil_r (enc_array i64c _)). read_fields; try done.
      unfold rret, set_train. by rewrite W2.
    + unfold rret, set_train. assert (E : ivf_train_capacity f = 0%nat) by lia. rewrite E in W4, W5.
      apply nil_length_inv in W4, W5. by rewrite W2, W4, W5.
  - intros l t Hl. apply invlist_roundtrip; [|by apply S7].
    apply list_elem_of_lookup in Hl as [i Hi]. by eapply Forall_lookup_1 in W3.
Qed.

(** ** Properties *)

(** Loading a saved KD-tree gives the same tree back, for every tree
    whose counters, rowids and coordinates fit their C types. *)
Lemma kdtree_file_correct (tree : KDTree) :
  Z.of_nat (kt_dimensions tree) < 2 ^ 31 -> in_i32 (kt_size tree) ->
  kd_storable (kt_dimensions tree) (kt_root tree) ->
  deserialize_kdtree (serialize_kdtree tree) = Some tree.
Proof. apply kdtree_file_roundtrip. Qed.

(** Loading a saved HNSW graph gives an index with the same live rows
    in which every node has its identity, vector, deletion mark and the
    neighbour lists up to its own level; the lists above that level are
    whatever the allocated memory held, and if that agrees with the saved
    index the two are equal. *)
Lemma hnsw_file_correct (pad : bytes) (uninit : list (list nat)) (h : HNSW) :
  length pad = 3%nat -> hnsw_wf h -> (forall n, n ∈ h_nodes h -> node_storable n) ->
  Z.of_nat (h_dim h) < 2 ^ 31 -> Z.of_nat (h_max_nodes h) < 2 ^ 31 ->
  Z.of_nat (h_max_level h) < 2 ^ 31 ->
  exists h', deserialize_hnsw uninit (serialize_hnsw pad h) = Some h' /\
    hnsw_live h' = hnsw_live h /\ node_core <$> h_nodes h' = node_core <$> h_nodes h /\
    (forall i n n' l, h_nodes h !! i = Some n -> h_nodes h' !! i = Some n' ->
       (l <= hn_level n)%nat -> nbors_at n' l = nbors_at n l) /\
    ((forall n, n ∈ h_nodes h -> drop (S (hn_level n)) (hn_nbors n) = drop (S (hn_level n)) uninit) ->
     h' = h).
Proof.
  intros Hp Hw Hs Hd Hm Hl. pose proof Hw as (_ & W2 & _).
  rewrite (hnsw_file_roundtrip pad uninit h) by done. eexists. split; [done|].
  cbn [set_nodes h_nodes].
  assert (Hcore : node_core <$> (restored uninit <$> h_nodes h) = node_core <$> h_nodes h).
  { rewrite <- list_fmap_compose. by apply list_fmap_ext. }
  split; [by apply live_core|]. split; [done|]. split.
  - intros i n n' l Hn Hn' Hle. rewrite list_lookup_fmap, Hn in Hn'. injection Hn' as <-.
    destruct (W2 i n Hn) as (_ & Hlv & _ & Hln & _). unfold nbors_at, restored.
    cbn [set_nbors hn_nbors]. rewrite aget_app_l by (rewrite length_take; lia).
    apply aget_take. lia.
  - intros Hsame. destruct h as [dim mx ns e ml]. unfold set_nodes. cbn in *. f_equal.
    rewrite <- (list_fmap_id ns) at 2. apply list_fmap_ext. intros i n Hi.
    unfold restored. rewrite <- Hsame, take_drop by (by eapply list_elem_of_lookup_2).
    by destruct n.
Qed.

(** A trained index does not read the marks: it works without them. *)
Lemma forget_add (distfunc : DistanceFunc) (f : IVF) (v : list f32) (r : Z) :
  ivf_add_vector distfunc (forget_marks f) v r = prod_map id forget_marks (ivf_add_vector distfunc f v r).
Proof.
  unfold ivf_add_vector, centroid. cbn [forget_marks set_train ivf_lists ivf_dim ivf_centroids ivf_nlist].
  by destruct (ivf_lists f !! _).
Qed.

Lemma forget_delete (f : IVF) (r : Z) :
  ivf_trained f = true ->
  ivf_delete_vector (forget_marks f) r = prod_map id forget_marks <$> ivf_delete_vector f r.
Proof.
  intros Ht. unfold ivf_delete_vector. cbn [forget_marks set_train ivf_trained ivf_lists ivf_dim]. rewrite Ht. cbn [negb].
  by destruct (ivf_delete_loop _ _ _ _) as [[]|].
Qed.

Lemma forget_update (distfunc : DistanceFunc) (f : IVF) (r : Z) (v : list f32) :
  ivf_trained f = true ->
  ivf_update_vector_reinsert distfunc (forget_marks f) r v
  = prod_map id forget_marks <$> ivf_update_vector_reinsert distfunc f r v.
Proof.
  intros Ht. unfold ivf_update_vector_reinsert. rewrite (forget_delete f r Ht).
  cbn [forget_marks set_train ivf_trained ivf_dim]. rewrite Ht. cbn [negb].
  destruct (ivf_delete_vector f r) as [[l f1]|]; [|done]. cbn. destruct (l <? 0); [done|].
  unfold centroid. cbn. destruct (ivf_lists f1 !! _); [|done]. by destruct (_ <=? _)%nat.
Qed.

Lemma forget_insert (distfunc : DistanceFunc) (f : IVF) (v : list f32) (r : Z) (rand : list Z) :
  ivf_trained f = true ->
  ivf_insert distfunc (forget_marks f) v r rand
  = let '(rc, f1, rand1) := ivf_insert distfunc f v r rand in (rc, forget_marks f1, rand1).
Proof.
  intros Ht. unfold ivf_insert. rewrite forget_add. cbn [forget_marks set_train ivf_trained]. rewrite Ht. cbn [negb].
  by destruct (ivf_add_vector distfunc f v r).
Qed.

(** What is left of an index that was saved and loaded: its contents and the
    answers to searches are the same; a trained index also inserts, deletes
    and updates as before, while in one that is not trained a deletion and an
    update are undefined, and the insertion of the row that fills the buffer. *)
Definition ivf_restored (f f' : IVF) : Prop :=
  f' = forget_marks f /\ ivf_contents f' = ivf_contents f /\
  (forall distfunc query topk nprobe map,
     ivf_search distfunc f' query topk nprobe map = ivf_search distfunc f query topk nprobe map) /\
  if ivf_trained f then
    forall distfunc v r rand,
      marks_readable f' = true /\
      ivf_insert distfunc f' v r rand
        = (let '(rc, f1, rand1) := ivf_insert distfunc f v r rand in (rc, forget_marks f1, rand1)) /\
      ivf_delete_vector f' r = prod_map id forget_marks <$> ivf_delete_vector f r /\
      ivf_update_vector_reinsert distfunc f' r v
        = prod_map id forget_marks <$> ivf_update_vector_reinsert distfunc f r v
  else
    (marks_readable f' = false <-> S (ivf_train_size f) = ivf_train_capacity f) /\
    forall distfunc v r, ivf_delete_vector f' r = None /\ ivf_update_vector_reinsert distfunc f' r v = None.

Lemma ivf_file_correct (f : IVF) :
  ivf_wf f -> ivf_storable f ->
  exists f', deserialize_ivf (serialize_ivf f) = Some f' /\ ivf_restored f f'.
Proof.
  intros Hw Hs. rewrite ivf_file_roundtrip by done. eexists. split; [done|]. split; [done|]. split; [done|]. split.
  { intros distfunc query topk nprobe map. unfold ivf_search.
    cbn [forget_marks set_train ivf_nlist ivf_nprobe]. destruct (topk <=? 0); [done|].
    rewrite !scan_lists_foldl. done. }
  destruct (ivf_trained f) eqn:Ht.
  - intros distfunc v r rand. split; [unfold marks_readable; cbn; by rewrite Ht|].
    by rewrite forget_insert, forget_delete, forget_update.
  - split.
    + unfold marks_readable. cbn. rewrite Ht. cbn. destruct (ivf_train_capacity f) as [|c]; [done|].
      destruct (Nat.eqb_spec (ivf_train_size f) c); split; try done; [by intros _; f_equal|by intros [= ?]].
    + intros distfunc v r. unfold ivf_update_vector_reinsert, ivf_delete_vector.
      assert (train_slot (forget_marks f) r = None) as ->; [|by cbn [forget_marks set_train ivf_trained]; rewrite Ht].
      unfold train_slot. cbn [forget_marks set_train ivf_deleted ivf_train_capacity length Z.of_nat].
      destruct (Z.leb_spec 1 r); [|done]. destruct (Z.leb_spec r (Z.of_nat 0)); [lia|]. by rewrite andb_false_r.
Qed.

Fixpoint kd_storableb (dims : nat) (node : KDNode) : bool :=
  match node with
  | kd_null => true
  | kd_node p r axis size del inv l rt =>
      (length p =? dims)%nat && forallb (valid_binary 24 128) p
      && bool_decide (in_i64 r /\ in_i32 axis /\ in_i32 size /\ in_i32 del /\ in_i32 inv)
      && kd_storableb dims l && kd_storableb dims rt
  end.

Lemma kd_storableb_sound (dims : nat) (node : KDNode) :
  kd_storableb dims node = true -> kd_storable dims node.
Proof.
  induction node as [|p r axis size del inv l IHl rt IHr]; [done|]. cbn [kd_storableb kd_storable].
  rewrite !andb_true_iff, bool_decide_eq_true, Nat.eqb_eq, forallb_forall.
  intros ((((H1 & H2) & H3) & H4) & H5). split; [done|]. split; [|naive_solver].
  apply Forall_forall. intros x Hx. by apply H2, list_elem_of_In.
Qed.

Lemma Forall_validb (l : list f32) : forallb (valid_binary 24 128) l = true -> Forall f32_valid l.
Proof. rewrite forallb_forall. intros H. apply Forall_forall. intros x Hx. by apply H, list_elem_of_In. Qed.

Definition node_storableb (n : HNSWNode) : bool :=
  (Z.of_nat (hn_id n) <? 2 ^ 31) && bool_decide (in_i32 (hn_rowid n))
  && forallb (valid_binary 24 128) (hn_vec n)
  && forallb (forallb (fun j => Z.of_nat j <? 2 ^ 31)) (hn_nbors n).

Lemma node_storableb_sound (n : HNSWNode) : node_storableb n = true -> node_storable n.
Proof.
  unfold node_storableb. rewrite !andb_true_iff, Z.ltb_lt, bool_decide_eq_true.
  intros [[[H1 H2] H3%Forall_validb] H4]. repeat split; try done; try apply H2.
  intros l j Hj. unfold nbors_at, aget in Hj. rewrite forallb_forall in H4.
  destruct (hn_nbors n !! l) as [nb|] eqn:E; [|by apply elem_of_nil in Hj]. cbn in Hj.
  apply list_elem_of_lookup_2, list_elem_of_In in E. specialize (H4 nb E).
  rewrite forallb_forall in H4. apply Z.ltb_lt, H4. by apply list_elem_of_In.
Qed.

Definition il_storableb (l : InvertedList) : bool :=
  (Z.of_nat (il_cap l) <? 2 ^ 31) && bool_decide (Forall in_i64 (il_rowids l))
  && forallb (valid_binary 24 128) (il_vecs l).

Lemma il_storableb_sound (l : InvertedList) : il_storableb l = true -> il_storable l.
Proof.
  unfold il_storableb. rewrite !andb_true_iff, Z.ltb_lt, bool_decide_eq_true.
  by intros [[H1 H2] H3%Forall_validb].
Qed.

Lemma kdtree_file_correct_witness :
  deserialize_kdtree (serialize_kdtree (line_index [4; -10; 5; 3; 8]))
  = Some (line_index [4; -10; 5; 3; 8]).
Proof.
  apply (kdtree_file_correct (line_index [4; -10; 5; 3; 8])).
  - vm_compute. reflexivity.
  - by_compute.
  - apply kd_storableb_sound. vm_compute. reflexivity.
Defined.

Lemma hnsw_file_correct_witness :
  deserialize_hnsw (replicate MAX_LEVELS []) (serialize_hnsw [0; 0; 0] demo_hnsw) = Some demo_hnsw.
Proof.
  destruct (hnsw_file_correct [0; 0; 0] (replicate MAX_LEVELS []) demo_hnsw)
    as (h' & H & _ & _ & _ & E).
  - reflexivity.
  - apply line_hnsw_wf.
  - intros n Hn. apply node_storableb_sound. revert n Hn. by_compute.
  - vm_compute. reflexivity.
  - vm_compute. reflexivity.
  - vm_compute. reflexivity.
  - rewrite H. f_equal. apply E. by_compute.
Defined.

Lemma ivf_file_correct_witness :
  exists f', deserialize_ivf (serialize_ivf line_ivf) = Some f' /\ ivf_restored line_ivf f'.
Proof.
  destruct (ivf_file_correct line_ivf) as (f' & H1 & H2).
  - by_compute.
  - split; [done|]. split; [done|]. split; [done|]. split; [done|]. split; [done|].
    split; [by apply Forall_validb; vm_compute|]. split; [|split; [by apply Forall_validb; vm_compute|by_compute]].
    intros l Hl. apply il_storableb_sound. revert l Hl. by_compute.
  - exists f'. auto.
Defined.
