(* ===== verification/DefParser.v ===== *)
(** * Column definitions (sqlite-vec.c, [vec0_token_next], [vec0_scanner_*],
    [vec0_parse_*])

    The arguments of [CREATE VIRTUAL TABLE ... USING vec0(...)] are parsed one
    by one.  A C string is the list of its characters; a pointer into it is
    the suffix it points at, and reading past the end gives the terminating
    NUL.

    The parsers keep one [struct Vec0Token] on the stack.  It is not
    initialised, and [vec0_token_next] writes it only when there is a token:
    [None] is the uninitialised token, and reading it makes a parser's result
    [PUndef].  A token that was read stays in place when the next call
    reports the end of the input, which the guards [rc != SOME && type != ...]
    let through when the old token has the wanted type. *)

From stdpp Require Import base option list numbers.
From Stdlib Require Import ZArith Lia Ascii String.
From S2P Require Import Prelude.

Local Open Scope Z_scope.

Definition chars : Type := list ascii.
Definition cstr (s : string) : chars := list_ascii_of_string s.

(** ** Characters *)

Definition code (c : ascii) : Z := Z.of_N (N_of_ascii c).

(** A literal as the bytes of a C string. *)
Definition bstr (s : string) : list Z := code <$> cstr s.

Definition between (lo x hi : Z) : bool := (lo <=? x) && (x <=? hi).

Definition is_alpha (x : ascii) : bool := between 97 (code x) 122 || between 65 (code x) 90.
Definition is_digit (x : ascii) : bool := between 48 (code x) 57.
Definition is_whitespace (x : ascii) : bool :=
  (code x =? 32) || (code x =? 9) || (code x =? 10) || (code x =? 13).
Definition is_ident_char (x : ascii) : bool := is_alpha x || is_digit x || (code x =? 95).

(** ** Tokens *)

Inductive Vec0TokenType :=
| TOKEN_TYPE_IDENTIFIER
| TOKEN_TYPE_DIGIT
| TOKEN_TYPE_LBRACKET
| TOKEN_TYPE_RBRACKET
| TOKEN_TYPE_PLUS
| TOKEN_TYPE_EQ.

#[global] Instance Vec0TokenType_eq_dec : EqDecision Vec0TokenType.
Proof. solve_decision. Defined.

(** [start], and [end - start]. *)
Record Vec0Token := MkToken {
  token_type : Vec0TokenType;
  tk_start : chars;
  tk_len : nat
}.

Definition tk_text (t : Vec0Token) : chars := take (tk_len t) (tk_start t).

Inductive token_result :=
| RESULT_EOF
| RESULT_SOME (t : Vec0Token) (rest : chars)
| RESULT_ERROR.

(** The loop [while (ptr < end && p( *ptr )) ptr++]. *)
Fixpoint span (p : ascii -> bool) (s : chars) : nat :=
  match s with
  | [] => 0
  | c :: s' => if p c then S (span p s') else 0
  end.

Definition punct (ty : Vec0TokenType) (s : chars) : token_result := RESULT_SOME (MkToken ty s 0) s.

Definition word (ty : Vec0TokenType) (p : ascii -> bool) (s : chars) : token_result :=
  RESULT_SOME (MkToken ty s (span p s)) (drop (span p s) s).

Fixpoint vec0_token_next (s : chars) : token_result :=
  match s with
  | [] => RESULT_EOF
  | curr :: s' =>
      if is_whitespace curr then vec0_token_next s'
      else if code curr =? 43 then punct TOKEN_TYPE_PLUS s'
      else if code curr =? 91 then punct TOKEN_TYPE_LBRACKET s'
      else if code curr =? 93 then punct TOKEN_TYPE_RBRACKET s'
      else if code curr =? 61 then punct TOKEN_TYPE_EQ s'
      else if is_alpha curr then word TOKEN_TYPE_IDENTIFIER is_ident_char s
      else if is_digit curr then word TOKEN_TYPE_DIGIT is_digit s
      else RESULT_ERROR
  end.

(** ** The scanner and the parsers' monad *)

Record Vec0Scanner := MkScanner {
  sc_start : chars;
  sc_token : option Vec0Token
}.

Definition vec0_scanner_init (source : chars) : Vec0Scanner := MkScanner source None.

Inductive presult (A : Type) :=
| POk (x : A)
| PReturn (rc : Z)      (* an early [return rc] *)
| PUndef.               (* the uninitialised token is read *)
Arguments POk {A} x.
Arguments PReturn {A} rc.
Arguments PUndef {A}.

Definition parser (A : Type) : Type := Vec0Scanner -> presult (A * Vec0Scanner).

Definition pret {A : Type} (x : A) : parser A := fun s => POk (x, s).
Definition pfail {A : Type} (rc : Z) : parser A := fun _ => PReturn rc.

Definition pbind {A B : Type} (m : parser A) (f : A -> parser B) : parser B :=
  fun s => match m s with
           | POk (x, s') => f x s'
           | PReturn rc => PReturn rc
           | PUndef => PUndef
           end.

Declare Scope parser_scope.
Delimit Scope parser_scope with parser.
Notation "x '<-p' m ; f" := (pbind m (fun x => f))
  (at level 20, m at level 100, f at level 200, right associativity) : parser_scope.

(** [vec0_scanner_next]: the result code and the token afterwards. *)
Definition vec0_scanner_next (s : Vec0Scanner) : token_result * Vec0Scanner :=
  match vec0_token_next (sc_start s) with
  | RESULT_SOME t rest => (RESULT_SOME t rest, MkScanner rest (Some t))
  | r => (r, s)
  end.

(** [rc = next; if (rc != SOME && !ok(token.token_type)) return fail;] *)
Definition expect_and (ok : Vec0TokenType -> bool) (fail : Z) : parser Vec0Token := fun s =>
  let '(rc, s) := vec0_scanner_next s in
  match rc, sc_token s with
  | RESULT_SOME t _, _ => POk (t, s)
  | _, None => PUndef
  | _, Some t => if ok (token_type t) then POk (t, s) else PReturn fail
  end.

(** [rc = next; if (rc != SOME || !ok(token.token_type)) return fail;] *)
Definition expect_or (ok : Vec0TokenType -> bool) (fail : Z) : parser Vec0Token := fun s =>
  let '(rc, s) := vec0_scanner_next s in
  match rc with
  | RESULT_SOME t _ => if ok (token_type t) then POk (t, s) else PReturn fail
  | _ => PReturn fail
  end.

Definition is_type (ty : Vec0TokenType) (x : Vec0TokenType) : bool := bool_decide (x = ty).

(** The code a parser returns, and what it wrote to its output arguments. *)
Definition run {A : Type} (m : parser A) (source : chars) : presult A :=
  match m (vec0_scanner_init source) with
  | POk (x, _) => POk x
  | PReturn rc => PReturn rc
  | PUndef => PUndef
  end.

(** ** [sqlite3_strnicmp(a, b, n) == 0] *)

Definition NUL : ascii := zero.

Definition lower (c : ascii) : ascii :=
  if between 65 (code c) 90 then ascii_of_N (N_of_ascii c + 32) else c.

Fixpoint strnieq (a b : chars) (n : nat) : bool :=
  match n with
  | O => true
  | S n =>
      let ca := hd NUL a in
      let cb := hd NUL b in
      if Ascii.eqb ca NUL then Ascii.eqb cb NUL
      else if Ascii.eqb (lower ca) (lower cb) then strnieq (tail a) (tail b) n
      else false
  end.

(** [sqlite3_strnicmp(token.start, kw, token.end - token.start) == 0] *)
Definition token_is (t : Vec0Token) (kw : string) : bool := strnieq (tk_start t) (cstr kw) (tk_len t).

(** [atoi]: [strtol] with saturation at the ends of [long], cut to [int]. *)
Definition is_space (c : ascii) : bool := (code c =? 32) || between 9 (code c) 13.

Fixpoint digits_value (acc : Z) (s : chars) : Z :=
  match s with
  | [] => acc
  | c :: s => if is_digit c then digits_value (10 * acc + (code c - 48)) s else acc
  end.

Definition clamp_long (z : Z) : Z := Z.max (- 2 ^ 63) (Z.min (2 ^ 63 - 1) z).

Fixpoint atoi (s : chars) : Z :=
  match s with
  | [] => 0
  | c :: s' =>
      if is_space c then atoi s'
      else if code c =? 45 then to_i32 (clamp_long (- digits_value 0 s'))
      else if code c =? 43 then to_i32 (clamp_long (digits_value 0 s'))
      else to_i32 (clamp_long (digits_value 0 s))
  end.

(** ** The parsers *)

Definition ident : Vec0TokenType -> bool := is_type TOKEN_TYPE_IDENTIFIER.

Definition vec0_parse_table_option (source : chars) : presult (chars * chars) :=
  run (key <-p expect_and ident SQLITE_EMPTY;
       _ <-p expect_and (is_type TOKEN_TYPE_EQ) SQLITE_EMPTY;
       value <-p expect_and (fun ty => ident ty || is_type TOKEN_TYPE_DIGIT ty) SQLITE_ERROR;
       fun s => match vec0_token_next (sc_start s) with
                | RESULT_EOF => POk ((tk_text key, tk_text value), s)
                | _ => PReturn SQLITE_ERROR
                end)%parser source.

(** The column type of keys: TEXT or INTEGER. *)
Definition key_type (t : Vec0Token) : parser Z :=
  if token_is t "text" then pret SQLITE_TEXT
  else if token_is t "int" || token_is t "integer" then pret SQLITE_INTEGER
  else pfail SQLITE_EMPTY.

Definition keyword (kw : string) : parser unit :=
  (t <-p expect_and ident SQLITE_EMPTY;
   if token_is t kw then pret tt else pfail SQLITE_EMPTY)%parser.

Definition vec0_parse_partition_key_definition (source : chars) : presult (chars * Z) :=
  run (name <-p expect_and ident SQLITE_EMPTY;
       t <-p expect_and ident SQLITE_EMPTY;
       column_type <-p key_type t;
       _ <-p keyword "partition";
       _ <-p keyword "key";
       pret (tk_text name, column_type))%parser source.

Definition auxiliary_type (t : Vec0Token) : parser Z :=
  if token_is t "text" then pret SQLITE_TEXT
  else if token_is t "int" || token_is t "integer" then pret SQLITE_INTEGER
  else if token_is t "float" || token_is t "double" then pret SQLITE_FLOAT
  else if token_is t "blob" then pret SQLITE_BLOB
  else pfail SQLITE_EMPTY.

Definition vec0_parse_auxiliary_column_definition (source : chars) : presult (chars * Z) :=
  run (_ <-p expect_or (is_type TOKEN_TYPE_PLUS) SQLITE_EMPTY;
       name <-p expect_and ident SQLITE_EMPTY;
       t <-p expect_and ident SQLITE_EMPTY;
       column_type <-p auxiliary_type t;
       pret (tk_text name, column_type))%parser source.

Inductive vec0_metadata_column_kind :=
| METADATA_KIND_BOOLEAN
| METADATA_KIND_INTEGER
| METADATA_KIND_FLOAT
| METADATA_KIND_TEXT.

Definition metadata_kind (t : Vec0Token) : parser vec0_metadata_column_kind :=
  if token_is t "boolean" || token_is t "bool" then pret METADATA_KIND_BOOLEAN
  else if token_is t "int64" || token_is t "integer64" || token_is t "integer" || token_is t "int"
  then pret METADATA_KIND_INTEGER
  else if token_is t "float" || token_is t "double" || token_is t "float64" || token_is t "f64"
  then pret METADATA_KIND_FLOAT
  else if token_is t "text" then pret METADATA_KIND_TEXT
  else pfail SQLITE_EMPTY.

Definition vec0_parse_metadata_column_definition (source : chars)
    : presult (chars * vec0_metadata_column_kind) :=
  run (name <-p expect_or ident SQLITE_EMPTY;
       t <-p expect_or ident SQLITE_EMPTY;
       kind <-p metadata_kind t;
       pret (tk_text name, kind))%parser source.

Definition vec0_parse_primary_key_definition (source : chars) : presult (chars * Z) :=
  run (name <-p expect_and ident SQLITE_EMPTY;
       t <-p expect_and ident SQLITE_EMPTY;
       column_type <-p key_type t;
       _ <-p keyword "primary";
       _ <-p keyword "key";
       pret (tk_text name, column_type))%parser source.

(** ** Vector columns *)

Inductive VectorElementType :=
| SQLITE_VEC_ELEMENT_TYPE_FLOAT32
| SQLITE_VEC_ELEMENT_TYPE_BIT
| SQLITE_VEC_ELEMENT_TYPE_INT8.

Inductive Vec0DistanceMetrics :=
| VEC0_DISTANCE_METRIC_L2
| VEC0_DISTANCE_METRIC_COSINE
| VEC0_DISTANCE_METRIC_L1.

Record VectorColumnDefinition := MkVectorColumn {
  vc_name : chars;
  vc_dimensions : Z;
  vc_element_type : VectorElementType;
  vc_distance_metric : Vec0DistanceMetrics
}.

(** [size_t] arithmetic; the dimensions are small enough not to wrap. *)
Definition vector_byte_size (element_type : VectorElementType) (dimensions : Z) : Z :=
  match element_type with
  | SQLITE_VEC_ELEMENT_TYPE_FLOAT32 => dimensions * 4
  | SQLITE_VEC_ELEMENT_TYPE_INT8 => dimensions
  | SQLITE_VEC_ELEMENT_TYPE_BIT => dimensions / 8
  end.

Definition vector_column_byte_size (column : VectorColumnDefinition) : Z :=
  vector_byte_size (vc_element_type column) (vc_dimensions column).

Definition element_type_of (t : Vec0Token) : parser VectorElementType :=
  let starts kw := strnieq (tk_start t) (cstr kw) (String.length kw) in
  if starts "float"%string || starts "f32"%string then pret SQLITE_VEC_ELEMENT_TYPE_FLOAT32
  else if starts "int8"%string || starts "i8"%string then pret SQLITE_VEC_ELEMENT_TYPE_INT8
  else if starts "bit"%string then pret SQLITE_VEC_ELEMENT_TYPE_BIT
  else pfail SQLITE_EMPTY.

Definition metric_of (t : Vec0Token) : parser Vec0DistanceMetrics :=
  if token_is t "l2" then pret VEC0_DISTANCE_METRIC_L2
  else if token_is t "l1" then pret VEC0_DISTANCE_METRIC_L1
  else if token_is t "cosine" then pret VEC0_DISTANCE_METRIC_COSINE
  else pfail SQLITE_ERROR.

(** The [while (1)] loop over [key=value] options.  A round that goes on has
    consumed a token, so the length of the input bounds the rounds; running
    out would be [PUndef] ([parse_vector_column_defined]). *)
Fixpoint vector_options (fuel : nat) (elementType : VectorElementType)
    (metric : Vec0DistanceMetrics) : parser Vec0DistanceMetrics :=
  match fuel with
  | O => fun _ => PUndef
  | S fuel => fun s =>
      match vec0_token_next (sc_start s) with
      | RESULT_EOF => POk (metric, s)
      | _ =>
          (key <-p expect_and ident SQLITE_ERROR;
           if token_is key "distance_metric" then
             match elementType with
             | SQLITE_VEC_ELEMENT_TYPE_BIT => pfail SQLITE_ERROR
             | _ =>
                 (_ <-p expect_and (is_type TOKEN_TYPE_EQ) SQLITE_ERROR;
                  value <-p expect_and ident SQLITE_ERROR;
                  metric <-p metric_of value;
                  vector_options fuel elementType metric)
             end
           else pfail SQLITE_ERROR)%parser s
      end
  end.

Definition vec0_parse_vector_column (source : chars) : presult VectorColumnDefinition :=
  run (name <-p expect_and ident SQLITE_EMPTY;
       t <-p expect_or ident SQLITE_EMPTY;
       elementType <-p element_type_of t;
       _ <-p expect_and (is_type TOKEN_TYPE_LBRACKET) SQLITE_EMPTY;
       d <-p expect_and (is_type TOKEN_TYPE_DIGIT) SQLITE_ERROR;
       let dimensions := atoi (tk_start d) in
       if dimensions <=? 0 then pfail SQLITE_ERROR
       else
         (_ <-p expect_and (is_type TOKEN_TYPE_RBRACKET) SQLITE_ERROR;
          metric <-p vector_options (S (List.length source)) elementType VEC0_DISTANCE_METRIC_L2;
          pret (MkVectorColumn (tk_text name) dimensions elementType metric)))%parser source.

(** ** Scanning what was printed *)

Definition ident_ok (w : chars) : Prop :=
  exists c w', w = c :: w' /\ is_alpha c = true /\ forallb is_ident_char w' = true.

(** [rest] does not continue a word of [p] characters. *)
Definition stops (p : ascii -> bool) (rest : chars) : Prop :=
  match rest with [] => True | c :: _ => p c = false end.

Lemma span_stops (p : ascii -> bool) (w rest : chars) :
  forallb p w = true -> stops p rest -> span p (w ++ rest) = List.length w.
Proof.
  intros Hw Hr. induction w as [|c w IH]; cbn in *.
  - destruct rest as [|c r]; [done|]. cbn in *. by rewrite Hr.
  - apply andb_true_iff in Hw as [-> Hw]. f_equal. auto.
Qed.

Lemma alpha_not_special (c : ascii) :
  is_alpha c = true ->
  is_whitespace c = false /\ (code c =? 43) = false /\ (code c =? 91) = false /\
  (code c =? 93) = false /\ (code c =? 61) = false.
Proof. unfold is_alpha, is_whitespace, between. lia. Qed.

Lemma digit_not_special (c : ascii) :
  is_digit c = true ->
  is_whitespace c = false /\ (code c =? 43) = false /\ (code c =? 91) = false /\
  (code c =? 93) = false /\ (code c =? 61) = false /\ is_alpha c = false.
Proof. unfold is_alpha, is_digit, is_whitespace, between. lia. Qed.

Lemma token_next_ident (w rest : chars) :
  ident_ok w -> stops is_ident_char rest ->
  vec0_token_next (w ++ rest)
  = RESULT_SOME (MkToken TOKEN_TYPE_IDENTIFIER (w ++ rest) (List.length w)) rest.
Proof.
  intros (c & w' & -> & Hc & Hw) Hr. cbn [app vec0_token_next].
  destruct (alpha_not_special c Hc) as (-> & -> & -> & -> & ->). rewrite Hc. unfold word.
  assert (Hs : span is_ident_char (c :: w' ++ rest) = List.length (c :: w')).
  { apply (span_stops is_ident_char (c :: w') rest); [|done]. cbn. rewrite Hw, andb_true_r.
    unfold is_ident_char. by rewrite Hc. }
  rewrite Hs. f_equal. apply (drop_app_length (c :: w') rest).
Qed.

Lemma token_next_digits (w rest : chars) :
  w <> [] -> forallb is_digit w = true -> stops is_digit rest ->
  vec0_token_next (w ++ rest)
  = RESULT_SOME (MkToken TOKEN_TYPE_DIGIT (w ++ rest) (List.length w)) rest.
Proof.
  intros Hne Hw Hr. destruct w as [|c w']; [done|]. pose proof Hw as [Hc _]%andb_true_iff.
  cbn [app vec0_token_next].
  destruct (digit_not_special c Hc) as (-> & -> & -> & -> & -> & ->). rewrite Hc. unfold word.
  pose proof (span_stops is_digit (c :: w') rest Hw Hr) as Hs. cbn [app] in Hs. rewrite Hs.
  f_equal. apply (drop_app_length (c :: w') rest).
Qed.

(** A blank before a token. *)
Lemma token_next_space (s : chars) : vec0_token_next (cstr " " ++ s) = vec0_token_next s.
Proof. reflexivity. Qed.

Lemma expect_and_some (ok : Vec0TokenType -> bool) (fail : Z) (s rest : chars) (t : Vec0Token)
    (t0 : option Vec0Token) :
  vec0_token_next s = RESULT_SOME t rest ->
  expect_and ok fail (MkScanner s t0) = POk (t, MkScanner rest (Some t)).
Proof. intros H. unfold expect_and, vec0_scanner_next. cbn [sc_start]. by rewrite H. Qed.

Lemma expect_or_some (ok : Vec0TokenType -> bool) (fail : Z) (s rest : chars) (t : Vec0Token)
    (t0 : option Vec0Token) :
  vec0_token_next s = RESULT_SOME t rest -> ok (token_type t) = true ->
  expect_or ok fail (MkScanner s t0) = POk (t, MkScanner rest (Some t)).
Proof. intros H Hok. unfold expect_or, vec0_scanner_next. cbn [sc_start]. by rewrite H, Hok. Qed.

Lemma pbind_ok {A B : Type} (m : parser A) (f : A -> parser B) (s s' : Vec0Scanner) (x : A) :
  m s = POk (x, s') -> pbind m f s = f x s'.
Proof. intros H. unfold pbind. by rewrite H. Qed.

(** One step of a parser on an input whose next token is known. *)
Tactic Notation "next_token" uconstr(H) :=
  first [erewrite pbind_ok by (refine (expect_and_some _ _ _ _ _ _ H)) |
         erewrite pbind_ok by (refine (expect_or_some _ _ _ _ _ _ H _); reflexivity)];
  cbv beta.

Lemma tk_text_prefix (ty : Vec0TokenType) (w rest : chars) :
  tk_text (MkToken ty (w ++ rest) (List.length w)) = w.
Proof. unfold tk_text. cbn. apply take_app_length. Qed.

(** A keyword written in front of a rest that does not continue it. *)
Lemma token_next_kw (kw : string) (rest : chars) :
  ident_ok (cstr kw) -> stops is_ident_char rest ->
  vec0_token_next (cstr " " ++ cstr kw ++ rest)
  = RESULT_SOME (MkToken TOKEN_TYPE_IDENTIFIER (cstr kw ++ rest) (List.length (cstr kw))) rest.
Proof. intros. rewrite token_next_space. by apply token_next_ident. Qed.

Ltac kw_ok := eexists _, _; (split; [reflexivity|split; reflexivity]).

Lemma token_is_kw (kw : string) (rest : chars) :
  forallb (fun c => negb (Ascii.eqb c NUL)) (cstr kw) = true ->
  token_is (MkToken TOKEN_TYPE_IDENTIFIER (cstr kw ++ rest) (List.length (cstr kw))) kw = true.
Proof.
  unfold token_is. cbn [tk_start tk_len]. induction (cstr kw) as [|c w IH]; [done|].
  cbn. intros [Hc Hw]%andb_true_iff. apply negb_true_iff in Hc. rewrite Hc, Ascii.eqb_refl. auto.
Qed.

Lemma keyword_ok (kw : string) (rest : chars) (t0 : option Vec0Token) :
  ident_ok (cstr kw) -> forallb (fun c => negb (Ascii.eqb c NUL)) (cstr kw) = true ->
  stops is_ident_char rest ->
  exists t, keyword kw (MkScanner (cstr " " ++ cstr kw ++ rest) t0) = POk (tt, MkScanner rest (Some t)).
Proof.
  intros H1 H2 H3. unfold keyword. next_token (token_next_kw kw rest H1 H3).
  rewrite token_is_kw by done. by eexists.
Qed.

(** ** The key, auxiliary and metadata columns *)

Definition key_types : list (string * Z) :=
  [("text", SQLITE_TEXT); ("int", SQLITE_INTEGER); ("integer", SQLITE_INTEGER)]%string.

Definition auxiliary_types : list (string * Z) :=
  [("text", SQLITE_TEXT); ("int", SQLITE_INTEGER); ("integer", SQLITE_INTEGER);
   ("float", SQLITE_FLOAT); ("double", SQLITE_FLOAT); ("blob", SQLITE_BLOB)]%string.

Definition metadata_kinds : list (string * vec0_metadata_column_kind) :=
  [("boolean", METADATA_KIND_BOOLEAN); ("bool", METADATA_KIND_BOOLEAN);
   ("int64", METADATA_KIND_INTEGER); ("integer64", METADATA_KIND_INTEGER);
   ("integer", METADATA_KIND_INTEGER); ("int", METADATA_KIND_INTEGER);
   ("float", METADATA_KIND_FLOAT); ("double", METADATA_KIND_FLOAT);
   ("float64", METADATA_KIND_FLOAT); ("f64", METADATA_KIND_FLOAT);
   ("text", METADATA_KIND_TEXT)]%string.

(** Case analysis over a table of keywords. *)
Ltac each_kw H :=
  repeat (apply elem_of_cons in H as [H|H]; [injection H as -> ->|]); [..|by apply elem_of_nil in H].

Lemma space_stops (s : chars) : stops is_ident_char (cstr " " ++ s).
Proof. reflexivity. Qed.

Definition not_nul (w : chars) : bool := forallb (fun c => negb (Ascii.eqb c NUL)) w.

(** The common shape of partition and primary keys. *)
Lemma key_column_printed (kw1 : string) (name : chars) (kw : string) (ty : Z) :
  ident_ok (cstr kw1) -> not_nul (cstr kw1) = true -> ident_ok name -> (kw, ty) ∈ key_types ->
  run (name <-p expect_and ident SQLITE_EMPTY;
       t <-p expect_and ident SQLITE_EMPTY;
       column_type <-p key_type t;
       _ <-p keyword kw1;
       _ <-p keyword "key";
       pret (tk_text name, column_type))%parser
    (name ++ cstr " " ++ cstr kw ++ cstr " " ++ cstr kw1 ++ cstr " " ++ cstr "key")
  = POk (name, ty).
Proof.
  intros H1 H1' Hn Hkw. unfold run, vec0_scanner_init.
  next_token (token_next_ident name _ Hn (space_stops _)).
  assert (Hk : ident_ok (cstr kw)) by (each_kw Hkw; kw_ok).
  next_token (token_next_kw kw (cstr " " ++ cstr kw1 ++ cstr " " ++ cstr "key") Hk (space_stops _)).
  erewrite pbind_ok with (x := ty) by (each_kw Hkw; reflexivity).
  edestruct (keyword_ok kw1 (cstr " " ++ cstr "key")) as [t Ht]; [done|done|apply space_stops|].
  erewrite pbind_ok by apply Ht.
  destruct (keyword_ok "key" []) with (t0 := Some t) as [t' Ht']; [kw_ok|reflexivity|done|].
  rewrite app_nil_r in Ht'. erewrite pbind_ok by apply Ht'. cbn [pret]. by rewrite tk_text_prefix.
Qed.

(** A name and a keyword at the end of the input. *)
Lemma token_next_last_kw (kw : string) :
  ident_ok (cstr kw) ->
  vec0_token_next (cstr " " ++ cstr kw)
  = RESULT_SOME (MkToken TOKEN_TYPE_IDENTIFIER (cstr kw) (List.length (cstr kw))) [].
Proof. intros H. pose proof (token_next_kw kw [] H I) as E. by rewrite app_nil_r in E. Qed.

Lemma auxiliary_printed (name : chars) (kw : string) (ty : Z) :
  ident_ok name -> (kw, ty) ∈ auxiliary_types ->
  vec0_parse_auxiliary_column_definition (cstr "+" ++ name ++ cstr " " ++ cstr kw) = POk (name, ty).
Proof.
  intros Hn Hkw. unfold vec0_parse_auxiliary_column_definition, run, vec0_scanner_init.
  next_token (eq_refl : vec0_token_next (cstr "+" ++ name ++ cstr " " ++ cstr kw) = punct TOKEN_TYPE_PLUS _).
  next_token (token_next_ident name _ Hn (space_stops _)).
  assert (Hk : ident_ok (cstr kw)) by (each_kw Hkw; kw_ok).
  next_token (token_next_last_kw kw Hk).
  erewrite pbind_ok with (x := ty) by (each_kw Hkw; reflexivity).
  cbn [pret]. by rewrite tk_text_prefix.
Qed.

Lemma metadata_printed (name : chars) (kw : string) (k : vec0_metadata_column_kind) :
  ident_ok name -> (kw, k) ∈ metadata_kinds ->
  vec0_parse_metadata_column_definition (name ++ cstr " " ++ cstr kw) = POk (name, k).
Proof.
  intros Hn Hkw. unfold vec0_parse_metadata_column_definition, run, vec0_scanner_init.
  next_token (token_next_ident name _ Hn (space_stops _)).
  assert (Hk : ident_ok (cstr kw)) by (each_kw Hkw; kw_ok).
  next_token (token_next_last_kw kw Hk).
  erewrite pbind_ok with (x := k) by (each_kw Hkw; reflexivity).
  cbn [pret]. by rewrite tk_text_prefix.
Qed.

Lemma table_option_printed (key value : chars) :
  ident_ok key -> ident_ok value \/ (value <> [] /\ forallb is_digit value = true) ->
  vec0_parse_table_option (key ++ cstr "=" ++ value) = POk (key, value).
Proof.
  intros Hk Hv. unfold vec0_parse_table_option, run, vec0_scanner_init.
  next_token (token_next_ident key (cstr "=" ++ value) Hk eq_refl).
  next_token (eq_refl : vec0_token_next (cstr "=" ++ value) = punct TOKEN_TYPE_EQ value).
  assert (Hnext : exists ty, vec0_token_next (value ++ [])
            = RESULT_SOME (MkToken ty (value ++ []) (List.length value)) []).
  { destruct Hv as [Hv|[Hne Hv]]; eexists; [by apply token_next_ident|by apply token_next_digits]. }
  destruct Hnext as [ty Hnext]. rewrite app_nil_r in Hnext. next_token Hnext.
  cbn [sc_start vec0_token_next]. rewrite tk_text_prefix. unfold tk_text. cbn [tk_len tk_start].
  by rewrite take_ge.
Qed.

(** ** Vector columns *)

Definition element_types : list (string * VectorElementType) :=
  [("float", SQLITE_VEC_ELEMENT_TYPE_FLOAT32); ("f32", SQLITE_VEC_ELEMENT_TYPE_FLOAT32);
   ("int8", SQLITE_VEC_ELEMENT_TYPE_INT8); ("i8", SQLITE_VEC_ELEMENT_TYPE_INT8);
   ("bit", SQLITE_VEC_ELEMENT_TYPE_BIT)]%string.

Definition metrics : list (string * Vec0DistanceMetrics) :=
  [("l2", VEC0_DISTANCE_METRIC_L2); ("l1", VEC0_DISTANCE_METRIC_L1);
   ("cosine", VEC0_DISTANCE_METRIC_COSINE)]%string.

Definition print_option (o : string * Vec0DistanceMetrics) : chars :=
  cstr " " ++ cstr "distance_metric" ++ cstr "=" ++ cstr o.1.

Definition print_options (os : list (string * Vec0DistanceMetrics)) : chars :=
  List.concat (print_option <$> os).

(** The last option wins. *)
Definition options_metric (m : Vec0DistanceMetrics) (os : list (string * Vec0DistanceMetrics))
    : Vec0DistanceMetrics := foldl (fun _ o => o.2) m os.

Lemma options_stop (os : list (string * Vec0DistanceMetrics)) : stops is_ident_char (print_options os).
Proof. by destruct os. Qed.

Lemma vector_options_printed (os : list (string * Vec0DistanceMetrics)) (fuel : nat)
    (et : VectorElementType) (m : Vec0DistanceMetrics) (t0 : option Vec0Token) :
  (forall o, o ∈ os -> o ∈ metrics) -> (et = SQLITE_VEC_ELEMENT_TYPE_BIT -> os = []) ->
  (List.length os < fuel)%nat ->
  exists s', vector_options fuel et m (MkScanner (print_options os) t0)
    = POk (options_metric m os, s').
Proof.
  revert fuel m t0. induction os as [|[kw mt] os IH]; intros fuel m t0 Hos Hbit Hf;
    (destruct fuel as [|fuel]; [lia|]); cbn [vector_options sc_start].
  { by eexists. }
  set (tail := cstr "=" ++ cstr kw ++ print_options os).
  assert (Htxt : print_options ((kw, mt) :: os) = cstr " " ++ cstr "distance_metric" ++ tail).
  { unfold print_options, print_option. cbn [fmap list_fmap List.concat fst]. subst tail.
    by rewrite <- !app_assoc. }
  assert (Hkey : vec0_token_next (print_options ((kw, mt) :: os))
    = RESULT_SOME (MkToken TOKEN_TYPE_IDENTIFIER (cstr "distance_metric" ++ tail)
        (List.length (cstr "distance_metric"))) tail).
  { rewrite Htxt. apply token_next_kw; [kw_ok|reflexivity]. }
  rewrite Hkey. next_token Hkey. rewrite token_is_kw by reflexivity.
  assert (Hkw : (kw, mt) ∈ metrics) by (apply Hos; by left).
  assert (Hk : ident_ok (cstr kw)) by (each_kw Hkw; kw_ok).
  destruct et; [|by specialize (Hbit eq_refl)|].
  all: next_token (eq_refl : vec0_token_next tail = punct TOKEN_TYPE_EQ (cstr kw ++ print_options os)).
  all: next_token (token_next_ident (cstr kw) _ Hk (options_stop os)).
  all: erewrite pbind_ok with (x := mt) by (each_kw Hkw; reflexivity).
  all: edestruct (IH fuel mt) as [s' Hs']; [intros; apply Hos; by right|done|cbn in Hf; lia|].
  all: exists s'; by rewrite Hs'.
Qed.

Lemma digits_value_app (acc : Z) (w rest : chars) :
  forallb is_digit w = true -> stops is_digit rest ->
  digits_value acc (w ++ rest) = digits_value acc w.
Proof.
  revert acc. induction w as [|c w IH]; intros acc Hw Hr; cbn in *.
  - destruct rest as [|c r]; [done|]. cbn in *. by rewrite Hr.
  - apply andb_true_iff in Hw as [-> Hw]. auto.
Qed.

Lemma digit_not_sign (c : ascii) :
  is_digit c = true -> is_space c = false /\ (code c =? 45) = false /\ (code c =? 43) = false.
Proof. unfold is_digit, is_space, between. lia. Qed.

Lemma atoi_digits (w rest : chars) :
  w <> [] -> forallb is_digit w = true -> stops is_digit rest ->
  0 <= digits_value 0 w < 2 ^ 31 -> atoi (w ++ rest) = digits_value 0 w.
Proof.
  intros Hne Hw Hr Hv. pose proof (digits_value_app 0 w rest Hw Hr) as E.
  destruct w as [|c w]; [done|]. pose proof Hw as [Hc _]%andb_true_iff.
  cbn [app atoi]. destruct (digit_not_sign c Hc) as (-> & -> & ->). cbn [app] in E. rewrite E.
  unfold clamp_long. rewrite Z.min_r, Z.max_r by lia. apply to_i32_id. unfold in_i32. lia.
Qed.

Lemma vector_column_printed (name : chars) (kw : string) (et : VectorElementType) (ds : chars)
    (os : list (string * Vec0DistanceMetrics)) :
  ident_ok name -> (kw, et) ∈ element_types -> ds <> [] -> forallb is_digit ds = true ->
  0 < digits_value 0 ds < 2 ^ 31 ->
  (forall o, o ∈ os -> o ∈ metrics) -> (et = SQLITE_VEC_ELEMENT_TYPE_BIT -> os = []) ->
  vec0_parse_vector_column
    (name ++ cstr " " ++ cstr kw ++ cstr "[" ++ ds ++ cstr "]" ++ print_options os)
  = POk (MkVectorColumn name (digits_value 0 ds) et (options_metric VEC0_DISTANCE_METRIC_L2 os)).
Proof.
  intros Hn Hkw Hne Hd Hv Hos Hbit. unfold vec0_parse_vector_column.
  set (fuel := S _). assert (Hf : (List.length os < fuel)%nat).
  { subst fuel. rewrite !length_app. assert (H : (List.length os <= List.length (print_options os))%nat); [|lia].
    clear. induction os as [|o os IH]; [done|]. unfold print_options in *. cbn [fmap list_fmap List.concat].
    rewrite length_app. cbn. lia. }
  clearbody fuel. unfold run, vec0_scanner_init.
  next_token (token_next_ident name _ Hn (space_stops _)).
  assert (Hk : ident_ok (cstr kw)) by (each_kw Hkw; kw_ok).
  next_token (token_next_kw kw (cstr "[" ++ ds ++ cstr "]" ++ print_options os) Hk eq_refl).
  erewrite pbind_ok with (x := et) by (each_kw Hkw; reflexivity).
  next_token (eq_refl : vec0_token_next (cstr "[" ++ ds ++ cstr "]" ++ print_options os)
    = punct TOKEN_TYPE_LBRACKET (ds ++ cstr "]" ++ print_options os)).
  next_token (token_next_digits ds (cstr "]" ++ print_options os) Hne Hd eq_refl).
  cbn [tk_start]. rewrite atoi_digits by (done || lia). cbv zeta. rewrite (proj2 (Z.leb_gt _ _)) by lia.
  next_token (eq_refl : vec0_token_next (cstr "]" ++ print_options os)
    = punct TOKEN_TYPE_RBRACKET (print_options os)).
  edestruct (vector_options_printed os fuel et) as [s' Hs']; [done|done|done|].
  erewrite pbind_ok by apply Hs'. cbn [pret]. by rewrite tk_text_prefix.
Qed.

(** ** Which inputs make a parser read the uninitialised token *)

Lemma span_le (p : ascii -> bool) (s : chars) : (span p s <= List.length s)%nat.
Proof. induction s as [|c s IH]; cbn; [lia|]. destruct (p c); cbn; lia. Qed.

Lemma token_next_shorter (s rest : chars) (t : Vec0Token) :
  vec0_token_next s = RESULT_SOME t rest -> (List.length rest < List.length s)%nat.
Proof.
  induction s as [|c s IH]; [done|]. cbn [vec0_token_next List.length].
  destruct (is_whitespace c); [intros H; specialize (IH H); lia|]. unfold punct, word.
  repeat case_match; intros [= <- <-]; try lia.
  - rewrite length_drop. cbn [span]. unfold is_ident_char at 1.
    match goal with H : is_alpha c = true |- _ => rewrite H end. cbn. lia.
  - rewrite length_drop. cbn [span].
    match goal with H : is_digit c = true |- _ => rewrite H end. cbn. lia.
Qed.

(** Once a token was read, and with less than [n] characters left, the
    parser does not read an uninitialised token, and leaves a token. *)
Definition safe_below {A : Type} (n : nat) (m : parser A) : Prop :=
  forall s, is_Some (sc_token s) -> (List.length (sc_start s) < n)%nat ->
  match m s with
  | PUndef => False
  | PReturn _ => True
  | POk (_, s') => is_Some (sc_token s') /\ (List.length (sc_start s') < n)%nat
  end.

Lemma safe_bind {A B : Type} (n : nat) (m : parser A) (f : A -> parser B) :
  safe_below n m -> (forall x, safe_below n (f x)) -> safe_below n (pbind m f).
Proof.
  intros Hm Hf s Hs Hn. specialize (Hm s Hs Hn). unfold pbind.
  destruct (m s) as [[x s']| |]; [|done..]. destruct Hm. by apply Hf.
Qed.

Lemma safe_ret {A : Type} (n : nat) (x : A) : safe_below n (pret x).
Proof. intros s Hs Hn. done. Qed.

Lemma safe_fail {A : Type} (n : nat) (rc : Z) : safe_below n (pfail (A := A) rc).
Proof. intros s Hs Hn. done. Qed.

Lemma safe_expect_and (n : nat) (ok : Vec0TokenType -> bool) (fail : Z) :
  safe_below n (expect_and ok fail).
Proof.
  intros s [t Ht] Hn. unfold expect_and, vec0_scanner_next.
  destruct (vec0_token_next (sc_start s)) as [|t' rest|] eqn:E.
  - rewrite Ht. destruct (ok _); [|done]. rewrite Ht. eauto.
  - cbn. apply token_next_shorter in E. split; [eauto|lia].
  - rewrite Ht. destruct (ok _); [|done]. rewrite Ht. eauto.
Qed.

Lemma safe_if {A : Type} (n : nat) (b : bool) (m1 m2 : parser A) :
  safe_below n m1 -> safe_below n m2 -> safe_below n (if b then m1 else m2).
Proof. by destruct b. Qed.

Create HintDb safe.
#[export] Hint Resolve safe_ret safe_fail safe_expect_and safe_if safe_bind : safe.

Ltac safe := repeat (intros; first
  [apply safe_bind | apply safe_if | apply safe_ret | apply safe_fail | apply safe_expect_and]).

Lemma safe_key_type (n : nat) (t : Vec0Token) : safe_below n (key_type t).
Proof. unfold key_type. safe. Qed.

Lemma safe_keyword (n : nat) (kw : string) : safe_below n (keyword kw).
Proof. unfold keyword. safe. Qed.

Lemma safe_metric_of (n : nat) (t : Vec0Token) : safe_below n (metric_of t).
Proof. unfold metric_of. safe. Qed.

Lemma safe_options (n fuel : nat) (et : VectorElementType) (m : Vec0DistanceMetrics) :
  (n <= fuel)%nat -> safe_below n (vector_options fuel et m).
Proof.
  revert n m. induction fuel as [|fuel IH]; intros n m Hf s Hs Hn; [lia|]. cbn [vector_options].
  destruct (vec0_token_next (sc_start s)) as [|t rest|] eqn:E; [done|..].
  - destruct s as [st tk]. cbn [sc_start sc_token] in *. next_token E. apply token_next_shorter in E.
    set (body := if token_is t "distance_metric" then _ else _).
    assert (Hb : safe_below (List.length st) body).
    { subst body. destruct et; safe; first [apply safe_metric_of | intros; apply IH; lia]. }
    specialize (Hb (MkScanner rest (Some t)) (ex_intro _ t eq_refl)). cbn [sc_start] in Hb.
    specialize (Hb ltac:(lia)). destruct (body _) as [[x s']| |]; [|done..].
    destruct Hb. split; [done|lia].
  - destruct Hs as [t Ht]. unfold pbind at 1, expect_and at 1, vec0_scanner_next at 1. rewrite E, Ht.
    destruct (ident (token_type t)) eqn:Ei; [|done]. destruct (token_is t _); [|done].
    assert (Heq : expect_and (is_type TOKEN_TYPE_EQ) SQLITE_ERROR s = PReturn SQLITE_ERROR).
    { unfold expect_and, vec0_scanner_next. rewrite E, Ht. unfold ident, is_type in *.
      apply bool_decide_eq_true in Ei. by rewrite Ei. }
    unfold pbind. by destruct et; rewrite ?Heq.
Qed.

Definition no_token (source : chars) : Prop :=
  forall t rest, vec0_token_next source <> RESULT_SOME t rest.

(** A parser that starts with the [&&] guard. *)
Lemma run_undef_iff {A : Type} (ok : Vec0TokenType -> bool) (fail : Z) (f : Vec0Token -> parser A)
    (source : chars) :
  (forall t, safe_below (List.length source) (f t)) ->
  run (pbind (expect_and ok fail) f) source = PUndef <-> no_token source.
Proof.
  intros Hf. unfold run, vec0_scanner_init, no_token.
  destruct (vec0_token_next source) as [|t rest|] eqn:E.
  - unfold pbind, expect_and, vec0_scanner_next. cbn [sc_start]. rewrite E. cbn. naive_solver.
  - next_token E. apply token_next_shorter in E.
    specialize (Hf t (MkScanner rest (Some t)) (ex_intro _ t eq_refl) E).
    destruct (f t _) as [[x s']| |]; naive_solver.
  - unfold pbind, expect_and, vec0_scanner_next. cbn [sc_start]. rewrite E. cbn. naive_solver.
Qed.

Lemma safe_expect_or_first {A : Type} (ok : Vec0TokenType -> bool) (fail : Z) (f : Vec0Token -> parser A)
    (source : chars) :
  (forall t, safe_below (List.length source) (f t)) -> run (pbind (expect_or ok fail) f) source <> PUndef.
Proof.
  intros Hf. unfold run, vec0_scanner_init, pbind, expect_or, vec0_scanner_next. cbn [sc_start].
  destruct (vec0_token_next source) as [|t rest|] eqn:E; [done| |done].
  destruct (ok _); [|done]. apply token_next_shorter in E.
  specialize (Hf t (MkScanner rest (Some t)) (ex_intro _ t eq_refl) E).
  by destruct (f t _) as [[x s']| |].
Qed.

Lemma safe_expect_or (n : nat) (ok : Vec0TokenType -> bool) (fail : Z) :
  safe_below n (expect_or ok fail).
Proof.
  intros s Hs Hn. unfold expect_or, vec0_scanner_next.
  destruct (vec0_token_next (sc_start s)) as [|t rest|] eqn:E; [done| |done].
  destruct (ok _); [|done]. apply token_next_shorter in E. split; [by eexists|cbn; lia].
Qed.

(** ** Properties *)

(** A vector column definition written as
    [name type\[dimensions\] distance_metric=m ...] is parsed to exactly
    these values, for every identifier, type keyword, positive dimension
    that fits an [int] and sequence of options (none for bit vectors), the
    last option winning and L2 being the default. *)
Lemma vector_column_roundtrip (name : chars) (kw : string) (et : VectorElementType) (ds : chars)
    (os : list (string * Vec0DistanceMetrics)) :
  ident_ok name -> (kw, et) ∈ element_types -> ds <> [] -> forallb is_digit ds = true ->
  0 < digits_value 0 ds < 2 ^ 31 ->
  (forall o, o ∈ os -> o ∈ metrics) -> (et = SQLITE_VEC_ELEMENT_TYPE_BIT -> os = []) ->
  vec0_parse_vector_column
    (name ++ cstr " " ++ cstr kw ++ cstr "[" ++ ds ++ cstr "]" ++ print_options os)
  = POk (MkVectorColumn name (digits_value 0 ds) et (options_metric VEC0_DISTANCE_METRIC_L2 os)).
Proof. apply vector_column_printed. Qed.

(** Partition keys, primary keys, auxiliary columns, metadata columns
    and table options written in their documented form are parsed to the
    name and type they state, for every identifier and every type keyword. *)
Lemma column_definitions_roundtrip (name : chars) :
  ident_ok name ->
  (forall kw ty, (kw, ty) ∈ key_types ->
     vec0_parse_partition_key_definition
       (name ++ cstr " " ++ cstr kw ++ cstr " " ++ cstr "partition" ++ cstr " " ++ cstr "key")
     = POk (name, ty) /\
     vec0_parse_primary_key_definition
       (name ++ cstr " " ++ cstr kw ++ cstr " " ++ cstr "primary" ++ cstr " " ++ cstr "key")
     = POk (name, ty)) /\
  (forall kw ty, (kw, ty) ∈ auxiliary_types ->
     vec0_parse_auxiliary_column_definition (cstr "+" ++ name ++ cstr " " ++ cstr kw)
     = POk (name, ty)) /\
  (forall kw k, (kw, k) ∈ metadata_kinds ->
     vec0_parse_metadata_column_definition (name ++ cstr " " ++ cstr kw) = POk (name, k)) /\
  (forall value, ident_ok value \/ (value <> [] /\ forallb is_digit value = true) ->
     vec0_parse_table_option (name ++ cstr "=" ++ value) = POk (name, value)).
Proof.
  intros Hn. split; [|split; [|split]].
  - intros kw ty Hkw.
    split; apply key_column_printed; (done || kw_ok).
  - intros kw ty Hkw. by apply auxiliary_printed.
  - intros kw k Hkw. by apply metadata_printed.
  - intros value Hv. by apply table_option_printed.
Qed.

(** The parsers of vector columns, partition keys, primary keys and
    table options read their uninitialised token exactly when the input has
    no first token (blank, or starting with an unexpected character); the
    parsers of auxiliary and metadata columns never do, and the loop over
    column options always ends. *)
Lemma parsers_defined (source : chars) :
  (vec0_parse_vector_column source = PUndef <-> no_token source) /\
  (vec0_parse_partition_key_definition source = PUndef <-> no_token source) /\
  (vec0_parse_primary_key_definition source = PUndef <-> no_token source) /\
  (vec0_parse_table_option source = PUndef <-> no_token source) /\
  vec0_parse_auxiliary_column_definition source <> PUndef /\
  vec0_parse_metadata_column_definition source <> PUndef.
Proof.
  split; [|split; [|split; [|split; [|split]]]].
  - apply run_undef_iff. intros t. apply safe_bind; [apply safe_expect_or|]. intros x.
    unfold element_type_of. safe. apply safe_options. lia.
  - apply run_undef_iff. safe; first [apply safe_key_type|apply safe_keyword].
  - apply run_undef_iff. safe; first [apply safe_key_type|apply safe_keyword].
  - apply run_undef_iff. safe. intros v s Hs Hn.
    destruct (vec0_token_next (sc_start s)); done.
  - apply safe_expect_or_first. unfold auxiliary_type. safe.
  - apply safe_expect_or_first. unfold metadata_kind. safe. all: apply safe_expect_or.
Qed.

(** Because the guards test [rc != SOME && type != wanted] and keywords
    are compared over the length of the token, tokens of other types and
    abbreviations are accepted: three plus signs after a name make it a text
    partition key and a text primary key, one-letter prefixes do too, and a
    vector column may be declared with digits in place of its brackets. *)
Lemma lenient_definitions (name : chars) :
  ident_ok name ->
  vec0_parse_partition_key_definition (name ++ cstr " + + +") = POk (name, SQLITE_TEXT) /\
  vec0_parse_primary_key_definition (name ++ cstr " + + +") = POk (name, SQLITE_TEXT) /\
  vec0_parse_partition_key_definition (name ++ cstr " t p k") = POk (name, SQLITE_TEXT) /\
  vec0_parse_vector_column (name ++ cstr " float 5 5 5")
  = POk (MkVectorColumn name 5 SQLITE_VEC_ELEMENT_TYPE_FLOAT32 VEC0_DISTANCE_METRIC_L2).
Proof.
  intros Hn.
  assert (Hfirst : forall A (f : Vec0Token -> parser A) rest, stops is_ident_char rest ->
    run (pbind (expect_and ident SQLITE_EMPTY) f) (name ++ rest)
    = match f (MkToken TOKEN_TYPE_IDENTIFIER (name ++ rest) (List.length name))
              (MkScanner rest (Some (MkToken TOKEN_TYPE_IDENTIFIER (name ++ rest) (List.length name))))
      with POk (x, _) => POk x | PReturn rc => PReturn rc | PUndef => PUndef end).
  { intros A f rest Hr. unfold run, vec0_scanner_init. by next_token (token_next_ident name rest Hn Hr). }
  unfold vec0_parse_partition_key_definition, vec0_parse_primary_key_definition,
    vec0_parse_vector_column.
  rewrite !Hfirst by reflexivity.
  assert (Ht : forall rest, tk_text (MkToken TOKEN_TYPE_IDENTIFIER (name ++ rest) (List.length name)) = name)
    by (intros; apply tk_text_prefix).
  split; [|split; [|split]].
  - transitivity (POk (tk_text (MkToken TOKEN_TYPE_IDENTIFIER (name ++ cstr " + + +") (List.length name)),
      SQLITE_TEXT)); [reflexivity|by rewrite Ht].
  - transitivity (POk (tk_text (MkToken TOKEN_TYPE_IDENTIFIER (name ++ cstr " + + +") (List.length name)),
      SQLITE_TEXT)); [reflexivity|by rewrite Ht].
  - transitivity (POk (tk_text (MkToken TOKEN_TYPE_IDENTIFIER (name ++ cstr " t p k") (List.length name)),
      SQLITE_TEXT)); [reflexivity|by rewrite Ht].
  - transitivity (POk (MkVectorColumn
      (tk_text (MkToken TOKEN_TYPE_IDENTIFIER (name ++ cstr " float 5 5 5") (List.length name)))
      5 SQLITE_VEC_ELEMENT_TYPE_FLOAT32 VEC0_DISTANCE_METRIC_L2)); [reflexivity|by rewrite Ht].
Qed.

Lemma vector_column_roundtrip_witness :
  vec0_parse_vector_column
    (cstr "abc_1" ++ cstr " " ++ cstr "int8" ++ cstr "[" ++ cstr "768" ++ cstr "]"
     ++ print_options [("l1"%string, VEC0_DISTANCE_METRIC_L1); ("cosine"%string, VEC0_DISTANCE_METRIC_COSINE)])
  = POk (MkVectorColumn (cstr "abc_1") 768 SQLITE_VEC_ELEMENT_TYPE_INT8 VEC0_DISTANCE_METRIC_COSINE).
Proof.
  apply (vector_column_roundtrip (cstr "abc_1") "int8" SQLITE_VEC_ELEMENT_TYPE_INT8 (cstr "768")
    [("l1"%string, VEC0_DISTANCE_METRIC_L1); ("cosine"%string, VEC0_DISTANCE_METRIC_COSINE)]).
  - kw_ok.
  - apply list_elem_of_In. vm_compute. auto.
  - discriminate.
  - reflexivity.
  - vm_compute. split; reflexivity.
  - intros o Ho. rewrite list_elem_of_In in Ho |- *. cbn in *. tauto.
  - discriminate.
Defined.

Lemma column_definitions_roundtrip_witness :
  vec0_parse_partition_key_definition
    (cstr "user_id" ++ cstr " " ++ cstr "integer" ++ cstr " " ++ cstr "partition" ++ cstr " " ++ cstr "key")
  = POk (cstr "user_id", SQLITE_INTEGER).
Proof.
  destruct (column_definitions_roundtrip (cstr "user_id")) as (H & _).
  - kw_ok.
  - apply (H "integer"%string). apply list_elem_of_In. vm_compute. auto.
Defined.

Lemma lenient_definitions_witness :
  vec0_parse_partition_key_definition (cstr "a" ++ cstr " + + +") = POk (cstr "a", SQLITE_TEXT).
Proof. destruct (lenient_definitions (cstr "a")) as [H _]; [kw_ok|exact H]. Defined.
