(* ===== verification/Shadow.v ===== *)
(** * Shadow tables: values, rows and incremental blob I/O

    What the [vec0] code uses of SQLite.  A shadow table is a finite map from
    rowids.  [sqlite3_blob_open] finds a row or fails with [SQLITE_ERROR];
    [sqlite3_blob_read] and [sqlite3_blob_write] fail with [SQLITE_ERROR] for
    a range outside the blob and never change its size; closing and memory
    allocation succeed.  Operations run in a state-and-error monad: a failed
    operation keeps the changes made so far, as the code does (SQLite rolls
    them back at the end of the statement). *)

From stdpp Require Import base option list numbers gmap.
From Stdlib Require Import ZArith Lia SpecFloat.
From S2P Require Import Prelude Float32 Codec.

Local Open Scope Z_scope.

(** ** [sqlite3_value] *)

(** A FLOAT is its 64-bit pattern, a TEXT its bytes. *)
Inductive value :=
| VNull
| VInt (z : Z)
| VFloat (bits : Z)
| VText (b : bytes)
| VBlob (b : bytes).

#[global] Instance value_eq_dec : EqDecision value.
Proof. solve_decision. Defined.

Definition sqlite3_value_type (v : value) : Z :=
  match v with
  | VNull => SQLITE_NULL
  | VInt _ => SQLITE_INTEGER
  | VFloat _ => SQLITE_FLOAT
  | VText _ => SQLITE_TEXT
  | VBlob _ => SQLITE_BLOB
  end.

(** [sqlite3_value_int64] and [sqlite3_value_int] on integers; the code reads
    them only after a type test. *)
Definition sqlite3_value_int64 (v : value) : Z := match v with VInt z => z | _ => 0 end.
Definition sqlite3_value_int (v : value) : Z := to_i32 (sqlite3_value_int64 v).

(** The SQL operator [=] used as a condition: NULL equals nothing. *)
Definition sql_eq (a b : value) : bool :=
  match a, b with
  | VNull, _ | _, VNull => false
  | _, _ => bool_decide (a = b)
  end.

(** A FLOAT as a double. *)
Definition f64_of_bits (b : Z) : f64 :=
  let s := 2 ^ 63 <=? b in
  let ex := (b / 2 ^ 52) mod 2048 in
  let mt := b mod 2 ^ 52 in
  if ex =? 0 then
    match mt with
    | Zpos m => S754_finite s m (-1074)
    | _ => S754_zero s
    end
  else if ex =? 2047 then
    if mt =? 0 then S754_infinity s else S754_nan
  else S754_finite s (Z.to_pos (mt + 2 ^ 52)) (ex - 1075).

(** What [sqlite3_value_int64], [sqlite3_value_double], [sqlite3_value_text]
    (with [sqlite3_value_bytes]) and the SQL comparison operators return;
    only conversions to a value's own type are fixed. *)
Class SqlValues := {
  value_int64 : value -> Z;
  value_double : value -> f64;
  value_text : value -> bytes;
  sql_compare : value -> value -> option comparison;
  value_int64_int : forall z, value_int64 (VInt z) = z;
  value_double_float : forall b, value_double (VFloat b) = f64_of_bits b;
  value_text_text : forall t, value_text (VText t) = t
}.

(** The order in which a [SELECT] without [ORDER BY] returns the rows. *)
Class ScanOrder := {
  scan : forall A : Type, gmap Z A -> list (Z * A);
  scan_perm : forall (A : Type) (t : gmap Z A), scan A t ≡ₚ map_to_list t
}.
Arguments scan {_ A} t.

(** ** The monad *)

Inductive res (A : Type) :=
| Ok (x : A)
| Err (rc : Z)
| Undef.          (* undefined behaviour *)
Arguments Ok {A} x.
Arguments Err {A} rc.
Arguments Undef {A}.

(** Results without a state. *)
Definition res_bind {A B : Type} (m : res A) (f : A -> res B) : res B :=
  match m with Ok x => f x | Err rc => Err rc | Undef => Undef end.

Declare Scope query_scope.
Notation "x <-? m ; f" := (res_bind m (fun x => f))
  (at level 200, m at level 100, f at level 200, right associativity) : query_scope.
Notation "' p <-? m ; f" := (res_bind m (fun x => match x with p => f end))
  (at level 20, p pattern, m at level 100, f at level 200) : query_scope.

Definition M (S A : Type) : Type := S -> res A * S.

Definition mret {S A : Type} (x : A) : M S A := fun s => (Ok x, s).
Definition mfail {S A : Type} (rc : Z) : M S A := fun s => (Err rc, s).

Definition mbind {S A B : Type} (m : M S A) (f : A -> M S B) : M S B :=
  fun s => match m s with
           | (Ok x, s') => f x s'
           | (Err rc, s') => (Err rc, s')
           | (Undef, s') => (Undef, s')
           end.

Definition mget {S A : Type} (f : S -> A) : M S A := fun s => (Ok (f s), s).
Definition mput {S : Type} (f : S -> S) : M S unit := fun s => (Ok tt, f s).

(** [Some] or an error. *)
Definition mopt {S A : Type} (o : option A) (rc : Z) : M S A :=
  match o with Some x => mret x | None => mfail rc end.

Definition mwhen {S : Type} (b : bool) (rc : Z) : M S unit := if b then mfail rc else mret tt.

Declare Scope storage_scope.
Delimit Scope storage_scope with storage.
Notation "x <-m m ; f" := (mbind m (fun x => f))
  (at level 20, m at level 100, f at level 200, right associativity) : storage_scope.

Lemma mbind_ok {S A B : Type} (m : M S A) (f : A -> M S B) (s s' : S) (x : A) :
  m s = (Ok x, s') -> mbind m f s = f x s'.
Proof. intros H. unfold mbind. by rewrite H. Qed.

Lemma mbind_err {S A B : Type} (m : M S A) (f : A -> M S B) (s s' : S) (rc : Z) :
  m s = (Err rc, s') -> mbind m f s = (Err rc, s').
Proof. intros H. unfold mbind. by rewrite H. Qed.

(** Running an operation on a part of the state. *)
Definition mzoom {S T A : Type} (get : S -> T) (put : T -> S -> S) (m : M T A) : M S A :=
  fun s => let '(r, t) := m (get s) in (r, put t s).

(** A [for] loop with an early exit on errors, carrying a value. *)
Fixpoint mfold {S A B : Type} (f : B -> A -> M S B) (acc : B) (l : list A) : M S B :=
  match l with
  | [] => mret acc
  | x :: l => mbind (f acc x) (fun acc' => mfold f acc' l)
  end.

Definition mfor {S A : Type} (f : A -> M S unit) (l : list A) : M S unit :=
  mfold (fun _ x => f x) tt l.

(** Going on after an error. *)
Definition mignore {S : Type} (m : M S unit) : M S unit :=
  fun s => match m s with
           | (Undef, s') => (Undef, s')
           | (_, s') => (Ok tt, s')
           end.

(** ** Blobs *)

Abbreviation blob_table := (gmap Z bytes).

Definition blob_read (b : bytes) (n off : nat) : option bytes :=
  if (off + n <=? length b)%nat then Some (slice off n b) else None.

Definition blob_write (b src : bytes) (off : nat) : option bytes :=
  if (off + length src <=? length b)%nat then Some (write_at off src b) else None.

Lemma blob_read_ok (b : bytes) (n off : nat) :
  (off + n <= length b)%nat -> blob_read b n off = Some (slice off n b).
Proof. intros. unfold blob_read. by rewrite (proj2 (Nat.leb_le _ _)). Qed.

Lemma blob_write_ok (b src : bytes) (off : nat) :
  (off + length src <= length b)%nat -> blob_write b src off = Some (write_at off src b).
Proof. intros. unfold blob_write. by rewrite (proj2 (Nat.leb_le _ _)). Qed.

(** Reading cell [i] of size [n] after writing cell [j]. *)
Lemma blob_read_write_cell (b src b' : bytes) (n i j : nat) :
  length src = n -> blob_write b src (j * n) = Some b' -> (S j * n <= length b)%nat ->
  (S i * n <= length b)%nat ->
  length b' = length b /\
  blob_read b' n (i * n) = if decide (i = j) then Some src else blob_read b n (i * n).
Proof.
  intros Hs Hw Hj Hi. rewrite blob_write_ok in Hw by lia. injection Hw as <-.
  rewrite length_write_at by lia. split; [done|].
  rewrite !blob_read_ok by (rewrite ?length_write_at; lia). case_decide as E; f_equal.
  - subst i. rewrite <- Hs at 2. apply slice_write_eq. lia.
  - apply slice_write_ne; nia.
Qed.
