(* ===== verification/Metadata.v ===== *)
(** * Metadata columns (sqlite-vec.c, [vec0_write_metadata_value],
    [vec0_result_metadata_value_for_rowid], [vec0Update_Delete_ClearMetadata])

    A metadata column keeps, per chunk, a blob with one cell for each row of
    the chunk: a bit, an [i64], a [double], or a 16-byte view of a text.  The
    view holds the length and the first 12 bytes; texts longer than that are
    stored whole in a second table, by rowid. *)

From stdpp Require Import base option list numbers gmap.
From Stdlib Require Import ZArith Lia.
From S2P Require Import Prelude Bitmap Codec Shadow DefParser.

Local Open Scope Z_scope.

Definition VIEW_BUFFER_LENGTH : nat := 16.
Definition VIEW_DATA_LENGTH : nat := 12.

Record metadata_store := MkMetadata {
  md_chunks : blob_table;            (* <table>_metadatachunksNN *)
  md_text : gmap Z bytes             (* <table>_metadatatextNN *)
}.

Definition set_chunk (chunk_id : Z) (b : bytes) (s : metadata_store) : metadata_store :=
  MkMetadata (<[chunk_id := b]> (md_chunks s)) (md_text s).

Definition set_text (t : gmap Z bytes) (s : metadata_store) : metadata_store :=
  MkMetadata (md_chunks s) t.

Definition vec0_metadata_chunk_size (kind : vec0_metadata_column_kind) (chunk_size : nat) : nat :=
  match kind with
  | METADATA_KIND_BOOLEAN => chunk_size / 8
  | METADATA_KIND_INTEGER => chunk_size * 8
  | METADATA_KIND_FLOAT => chunk_size * 8
  | METADATA_KIND_TEXT => chunk_size * VIEW_BUFFER_LENGTH
  end%nat.

(** The type test of a written value. *)
Definition metadata_value_ok (kind : vec0_metadata_column_kind) (v : value) : bool :=
  match kind, v with
  | METADATA_KIND_BOOLEAN, VInt _ => (sqlite3_value_int v =? 0) || (sqlite3_value_int v =? 1)
  | METADATA_KIND_INTEGER, VInt _ => true
  | METADATA_KIND_FLOAT, VFloat _ => true
  | METADATA_KIND_TEXT, VText _ => true
  | _, _ => false
  end.

(** The bytes of a written [i64] or [double]. *)
Definition cell_bytes (v : value) : bytes :=
  match v with
  | VInt z => enc_le 8 z
  | VFloat b => enc_le 8 b
  | _ => []
  end.

Definition text_bytes (v : value) : bytes := match v with VText b => b | _ => [] end.

(** The view of a text: length, then up to 12 bytes, zero-filled. *)
Definition text_view (b : bytes) : bytes :=
  resize_to VIEW_BUFFER_LENGTH 0 (enc_le 4 (Z.of_nat (length b)) ++ take VIEW_DATA_LENGTH b).

(** The [int] at the start of a view. *)
Definition view_length (view : bytes) : Z :=
  match dec_i32 view with Some (n, _) => n | None => 0 end.

(** The result of [sqlite3_blob_write] is overwritten by that of
    [sqlite3_blob_close]: a write outside the blob goes unnoticed. *)
Definition write_unchecked (chunk_id : Z) (b src : bytes) (off : nat) : M metadata_store unit :=
  match blob_write b src off with
  | Some b' => mput (set_chunk chunk_id b')
  | None => mret tt
  end.

Definition write_bit (chunk_id : Z) (b : bytes) (off : nat) (bit : bool) : M metadata_store unit :=
  (block <-m mopt (blob_read b 1 (off / CHAR_BIT)) SQLITE_ERROR;
   let mask := Z.shiftl 1 (Z.of_nat (off mod CHAR_BIT)) in
   let x := aget 0 block 0 in
   write_unchecked chunk_id b
     [if bit then to_u8 (Z.lor x mask) else to_u8 (Z.land x (Z.lnot mask))]
     (off / CHAR_BIT))%storage.

(** The table of long texts: [UPDATE], [INSERT] (the rowid must be new), or
    [DELETE]. *)
Definition write_long_text (rowid : Z) (t : bytes) (prev_n : Z) (isupdate : bool)
    : M metadata_store unit :=
  if (VIEW_DATA_LENGTH <? length t)%nat then
    if isupdate && (Z.of_nat VIEW_DATA_LENGTH <? prev_n) then
      mput (fun s => set_text (alter (fun _ => t) rowid (md_text s)) s)
    else
      (txt <-m mget md_text;
       match txt !! rowid with
       | Some _ => mfail SQLITE_ERROR
       | None => mput (set_text (<[rowid := t]> txt))
       end)%storage
  else if Z.of_nat VIEW_DATA_LENGTH <? prev_n then
    mput (fun s => set_text (delete rowid (md_text s)) s)
  else mret tt.

Definition vec0_write_metadata_value (kind : vec0_metadata_column_kind) (rowid chunk_id : Z)
    (chunk_offset : nat) (v : value) (isupdate : bool) : M metadata_store unit :=
  (_ <-m mwhen (negb (metadata_value_ok kind v)) SQLITE_ERROR;
   chunks <-m mget md_chunks;
   b <-m mopt (chunks !! chunk_id) SQLITE_ERROR;
   match kind with
   | METADATA_KIND_BOOLEAN =>
       write_bit chunk_id b chunk_offset (negb (sqlite3_value_int v =? 0))
   | METADATA_KIND_INTEGER | METADATA_KIND_FLOAT =>
       write_unchecked chunk_id b (cell_bytes v) (chunk_offset * 8)
   | METADATA_KIND_TEXT =>
       prev <-m mopt (blob_read b 4 (chunk_offset * VIEW_BUFFER_LENGTH)) SQLITE_ERROR;
       _ <-m write_unchecked chunk_id b (text_view (text_bytes v)) (chunk_offset * VIEW_BUFFER_LENGTH);
       write_long_text rowid (text_bytes v) (view_length prev) isupdate
   end)%storage.

(** Reading a value, given the position of the row. *)
Definition vec0_result_metadata_value (kind : vec0_metadata_column_kind) (rowid chunk_id : Z)
    (chunk_offset : nat) (s : metadata_store) : res value :=
  match md_chunks s !! chunk_id with
  | None => Err SQLITE_ERROR
  | Some b =>
      match kind with
      | METADATA_KIND_BOOLEAN =>
          match blob_read b 1 (chunk_offset / CHAR_BIT) with
          | None => Err SQLITE_ERROR
          | Some block =>
              Ok (VInt (Z.land (Z.shiftr (aget 0 block 0) (Z.of_nat (chunk_offset mod CHAR_BIT))) 1))
          end
      | METADATA_KIND_INTEGER =>
          match blob_read b 8 (chunk_offset * 8) with
          | None => Err SQLITE_ERROR
          | Some c => Ok (VInt (match dec_i64 c with Some (z, _) => z | None => 0 end))
          end
      | METADATA_KIND_FLOAT =>
          match blob_read b 8 (chunk_offset * 8) with
          | None => Err SQLITE_ERROR
          | Some c => Ok (VFloat (match dec_le 8 c with Some (z, _) => z | None => 0 end))
          end
      | METADATA_KIND_TEXT =>
          match blob_read b VIEW_BUFFER_LENGTH (chunk_offset * VIEW_BUFFER_LENGTH) with
          | None => Err SQLITE_ERROR
          | Some view =>
              let length := view_length view in
              if length <=? Z.of_nat VIEW_DATA_LENGTH
              then Ok (VText (slice 4 (Z.to_nat length) view))
              else match md_text s !! rowid with
                   | Some t => Ok (VText t)
                   | None => Err SQLITE_ERROR
                   end
          end
      end
  end.

(** Zeroing a cell; unlike the write, the result of the blob write is the
    result here.  After deleting a long text the result is that of
    [sqlite3_step], [SQLITE_DONE]. *)
Definition write_checked (chunk_id : Z) (b src : bytes) (off : nat) : M metadata_store unit :=
  match blob_write b src off with
  | Some b' => mput (set_chunk chunk_id b')
  | None => mfail SQLITE_ERROR
  end.

Definition vec0Update_Delete_ClearMetadata (kind : vec0_metadata_column_kind) (rowid chunk_id : Z)
    (chunk_offset : nat) : M metadata_store unit :=
  (chunks <-m mget md_chunks;
   b <-m mopt (chunks !! chunk_id) SQLITE_ERROR;
   match kind with
   | METADATA_KIND_BOOLEAN =>
       block <-m mopt (blob_read b 1 (chunk_offset / CHAR_BIT)) SQLITE_ERROR;
       let mask := Z.shiftl 1 (Z.of_nat (chunk_offset mod CHAR_BIT)) in
       write_checked chunk_id b [to_u8 (Z.land (aget 0 block 0) (Z.lnot mask))]
         (chunk_offset / CHAR_BIT)
   | METADATA_KIND_INTEGER | METADATA_KIND_FLOAT =>
       write_checked chunk_id b (enc_le 8 0) (chunk_offset * 8)
   | METADATA_KIND_TEXT =>
       n <-m mopt (blob_read b 4 (chunk_offset * VIEW_BUFFER_LENGTH)) SQLITE_ERROR;
       _ <-m write_checked chunk_id b (replicate VIEW_BUFFER_LENGTH 0)
               (chunk_offset * VIEW_BUFFER_LENGTH);
       if Z.of_nat VIEW_DATA_LENGTH <? view_length n
       then (_ <-m mput (fun s => set_text (delete rowid (md_text s)) s); mfail SQLITE_DONE)
       else mret tt
   end)%storage.

(** ** Cells *)

Lemma write_at_single (b : bytes) (i : nat) (x : Z) :
  (i < length b)%nat -> write_at i [x] b = <[i := x]> b.
Proof. intros. unfold write_at. by rewrite insert_take_drop by done; rewrite Nat.add_1_r. Qed.

Lemma blob_read_byte (b : bytes) (i : nat) :
  (i < length b)%nat -> blob_read b 1 i = Some [aget 0 b i].
Proof.
  intros Hi. rewrite blob_read_ok by lia. unfold slice.
  rewrite (drop_S _ _ _ (aget_lookup_lt 0 b i Hi)). by rewrite firstn_cons, take_0.
Qed.

Lemma bit_index (n off : nat) (b : bytes) : bitmap_wf n b -> (off < n)%nat -> (off / CHAR_BIT < length b)%nat.
Proof. intros [Hl _] Ho. unfold CHAR_BIT. apply Nat.Div0.div_lt_upper_bound. lia. Qed.

(** The bit write is the bitmap operation. *)
Lemma write_bit_ok (n off : nat) (chunk_id : Z) (b : bytes) (bit : bool) (s : metadata_store) :
  bitmap_wf n b -> (off < n)%nat ->
  write_bit chunk_id b off bit s = (Ok tt, set_chunk chunk_id (bitmap_set b off bit) s).
Proof.
  intros Hw Ho. pose proof (bit_index n off b Hw Ho) as Hi. unfold write_bit.
  rewrite blob_read_byte by done. cbn [mopt]. erewrite mbind_ok by reflexivity.
  unfold write_unchecked. rewrite blob_write_ok by (cbn [length]; lia). rewrite write_at_single by done.
  unfold bitmap_set, mput. by destruct bit.
Qed.

Lemma bitmap_get_b2z (b : bytes) (i : nat) : bitmap_get b i = Z.b2z (bitmap_test b i).
Proof.
  rewrite bitmap_test_testbit. unfold bitmap_get, CHAR_BIT. change 1 with (Z.ones 1).
  rewrite Z.land_ones, Z.shiftr_div_pow2 by lia. change (2 ^ 1) with 2.
  by rewrite <- Z.testbit_spec' by lia.
Qed.

Lemma read_bit (n off : nat) (b : bytes) (rowid chunk_id : Z) (s : metadata_store) :
  bitmap_wf n b -> (off < n)%nat -> md_chunks s !! chunk_id = Some b ->
  vec0_result_metadata_value METADATA_KIND_BOOLEAN rowid chunk_id off s
  = Ok (VInt (Z.b2z (bitmap_test b off))).
Proof.
  intros Hw Ho Hb. unfold vec0_result_metadata_value. rewrite Hb.
  rewrite blob_read_byte by (by eapply bit_index). rewrite <- bitmap_get_b2z. done.
Qed.

Lemma length_text_view (t : bytes) : length (text_view t) = VIEW_BUFFER_LENGTH.
Proof. apply length_resize_to. Qed.

Lemma view_length_view (t rest : bytes) :
  Z.of_nat (length t) < 2 ^ 31 -> view_length (text_view t ++ rest) = Z.of_nat (length t).
Proof.
  intros Ht. unfold view_length, text_view, resize_to.
  rewrite take_ge.
  - rewrite <- !app_assoc, dec_enc_i32; [done|]. unfold in_i32. lia.
  - rewrite length_app, length_enc_le, length_take. unfold VIEW_BUFFER_LENGTH, VIEW_DATA_LENGTH. lia.
Qed.

Lemma view_data (t : bytes) :
  (length t <= VIEW_DATA_LENGTH)%nat -> slice 4 (length t) (text_view t) = t.
Proof.
  intros Ht. unfold text_view, resize_to, slice. rewrite (take_ge t) by lia.
  rewrite (take_ge (enc_le 4 _ ++ t)).
  - rewrite <- app_assoc, drop_app_ge by (rewrite length_enc_le; lia).
    rewrite length_enc_le, Nat.sub_diag, drop_0. apply take_app_length.
  - rewrite length_app, length_enc_le. unfold VIEW_BUFFER_LENGTH, VIEW_DATA_LENGTH in *. lia.
Qed.

(** The first four bytes of a cell give the length the whole cell gives. *)
Lemma view_length_prefix (b : bytes) (off : nat) :
  (off + VIEW_BUFFER_LENGTH <= length b)%nat ->
  view_length (slice off 4 b) = view_length (slice off VIEW_BUFFER_LENGTH b).
Proof.
  intros Hb. unfold view_length.
  assert (E : slice off VIEW_BUFFER_LENGTH b = slice off 4 b ++ slice (off + 4) 12 b).
  { unfold slice, VIEW_BUFFER_LENGTH. rewrite <- drop_drop.
    rewrite <- (take_drop 4 (take 16 (drop off b))), take_take, skipn_firstn_comm. done. }
  rewrite E. pose proof (length_slice off 4 b ltac:(unfold VIEW_BUFFER_LENGTH in *; lia)) as Hl.
  destruct (slice off 4 b) as [|a1 [|a2 [|a3 [|a4 [|]]]]]; try done.
Qed.

(** ** Round trips *)

(** A store whose chunk has the size of its kind. *)
Definition chunk_ok (kind : vec0_metadata_column_kind) (cs : nat) (b : bytes) : Prop :=
  length b = vec0_metadata_chunk_size kind cs /\ Forall is_byte b.

(** Values as SQLite delivers them. *)
Definition value_wf (v : value) : Prop :=
  match v with
  | VInt z => in_i64 z
  | VFloat b => 0 <= b < 2 ^ 64
  | VText b => Z.of_nat (length b) < 2 ^ 31
  | _ => True
  end.

(** What a column returns for a value written to it. *)
Definition stored_value (kind : vec0_metadata_column_kind) (v : value) : value :=
  match kind with
  | METADATA_KIND_BOOLEAN => VInt (sqlite3_value_int v)
  | _ => v
  end.

(** The long-text table agrees with the cell of the row. *)
Definition text_agrees (kind : vec0_metadata_column_kind) (rowid chunk_id : Z) (off : nat)
    (s : metadata_store) : Prop :=
  match kind with
  | METADATA_KIND_TEXT =>
      forall b, md_chunks s !! chunk_id = Some b ->
      (Z.of_nat VIEW_DATA_LENGTH < view_length (slice (off * VIEW_BUFFER_LENGTH) VIEW_BUFFER_LENGTH b)
       <-> is_Some (md_text s !! rowid))
  | _ => True
  end.

Lemma chunk_ok_bitmap (cs : nat) (b : bytes) :
  (cs mod 8 = 0)%nat -> chunk_ok METADATA_KIND_BOOLEAN cs b -> bitmap_wf cs b.
Proof.
  intros Hcs [Hl Hb]. split; [|done]. cbn [vec0_metadata_chunk_size] in Hl. rewrite Hl.
  pose proof (Nat.div_mod_eq cs 8). lia.
Qed.

(** An [i64] or [double] cell. *)
Lemma number_cell_roundtrip (kind : vec0_metadata_column_kind) (rowid chunk_id : Z) (off cs : nat)
    (v : value) (isupdate : bool) (s : metadata_store) (b : bytes) :
  kind = METADATA_KIND_INTEGER \/ kind = METADATA_KIND_FLOAT ->
  metadata_value_ok kind v = true -> value_wf v -> (off < cs)%nat ->
  md_chunks s !! chunk_id = Some b -> length b = (cs * 8)%nat ->
  exists b', vec0_write_metadata_value kind rowid chunk_id off v isupdate s
    = (Ok tt, set_chunk chunk_id b' s) /\ length b' = length b /\
    vec0_result_metadata_value kind rowid chunk_id off (set_chunk chunk_id b' s) = Ok v /\
    forall r off', off' <> off -> (off' < cs)%nat ->
      vec0_result_metadata_value kind r chunk_id off' (set_chunk chunk_id b' s)
      = vec0_result_metadata_value kind r chunk_id off' s.
Proof.
  intros Hk Hok Hv Hoff Hb Hlen.
  assert (Hc : length (cell_bytes v) = 8%nat).
  { destruct Hk as [-> | ->], v; try done; apply length_enc_le. }
  destruct (blob_write b (cell_bytes v) (off * 8)) as [b'|] eqn:Ew.
  2:{ rewrite blob_write_ok in Ew by lia. done. }
  exists b'. destruct (blob_read_write_cell b (cell_bytes v) b' 8 off off Hc Ew) as [Hl Hr]; [lia..|].
  rewrite decide_True in Hr by done. split; [|split; [done|split]].
  - unfold vec0_write_metadata_value. rewrite Hok. cbn [negb mwhen].
    erewrite mbind_ok by reflexivity. erewrite mbind_ok by reflexivity. rewrite Hb. cbn [mopt].
    erewrite mbind_ok by reflexivity.
    destruct Hk as [-> | ->]; unfold write_unchecked; by rewrite Ew.
  - unfold vec0_result_metadata_value. cbn [set_chunk md_chunks]. rewrite lookup_insert_eq, Hr.
    destruct Hk as [-> | ->], v; try done; cbn [cell_bytes]; rewrite <- (app_nil_r (enc_le 8 _)).
    + by rewrite dec_enc_i64.
    + rewrite dec_enc_le. cbn in Hv. by rewrite Z.mod_small.
  - intros r off' Hne Hlt.
    destruct (blob_read_write_cell b (cell_bytes v) b' 8 off' off Hc Ew) as [_ Hr']; [lia..|].
    rewrite decide_False in Hr' by done. unfold vec0_result_metadata_value.
    cbn [set_chunk md_chunks]. rewrite lookup_insert_eq, Hb.
    destruct Hk as [-> | ->]; by rewrite Hr'.
Qed.

Lemma bit_cell_roundtrip (rowid chunk_id : Z) (off cs : nat) (v : value) (isupdate : bool)
    (s : metadata_store) (b : bytes) :
  metadata_value_ok METADATA_KIND_BOOLEAN v = true -> (off < cs)%nat -> bitmap_wf cs b ->
  md_chunks s !! chunk_id = Some b ->
  exists b', vec0_write_metadata_value METADATA_KIND_BOOLEAN rowid chunk_id off v isupdate s
    = (Ok tt, set_chunk chunk_id b' s) /\ bitmap_wf cs b' /\
    vec0_result_metadata_value METADATA_KIND_BOOLEAN rowid chunk_id off (set_chunk chunk_id b' s)
    = Ok (VInt (sqlite3_value_int v)) /\
    forall r off', off' <> off -> (off' < cs)%nat ->
      vec0_result_metadata_value METADATA_KIND_BOOLEAN r chunk_id off' (set_chunk chunk_id b' s)
      = vec0_result_metadata_value METADATA_KIND_BOOLEAN r chunk_id off' s.
Proof.
  intros Hok Hoff Hw Hb. set (bit := negb (sqlite3_value_int v =? 0)).
  exists (bitmap_set b off bit). pose proof (bitmap_set_wf cs b off bit Hw) as Hw'.
  assert (Hs : md_chunks (set_chunk chunk_id (bitmap_set b off bit) s) !! chunk_id
               = Some (bitmap_set b off bit)) by apply lookup_insert_eq.
  destruct Hw as [Hl Hby]. split; [|split; [done|split]].
  - unfold vec0_write_metadata_value. rewrite Hok. cbn [negb mwhen].
    erewrite mbind_ok by reflexivity. erewrite mbind_ok by reflexivity. rewrite Hb. cbn [mopt].
    erewrite mbind_ok by reflexivity. by rewrite (write_bit_ok cs).
  - rewrite (read_bit cs off _ _ _ _ Hw' Hoff Hs), bitmap_test_set_eq by lia.
    do 2 f_equal. subst bit. destruct v; try done. cbn [metadata_value_ok] in Hok.
    destruct (Z.eqb_spec (sqlite3_value_int (VInt z)) 0) as [->|]; [done|].
    cbn [orb] in Hok. apply Z.eqb_eq in Hok. by rewrite Hok.
  - intros r off' Hne Hlt. rewrite (read_bit cs off' _ _ _ _ Hw' Hlt Hs).
    rewrite (read_bit cs off' b) by done. by rewrite bitmap_test_set_ne by (done || lia).
Qed.

(** The table of long texts after a write. *)
Lemma write_long_text_ok (rowid : Z) (t : bytes) (prev_n : Z) (isupdate : bool) (s : metadata_store) :
  (Z.of_nat VIEW_DATA_LENGTH < prev_n <-> is_Some (md_text s !! rowid)) ->
  (isupdate = false -> prev_n <= Z.of_nat VIEW_DATA_LENGTH) ->
  exists txt, write_long_text rowid t prev_n isupdate s = (Ok tt, set_text txt s) /\
    txt !! rowid = (if (VIEW_DATA_LENGTH <? length t)%nat then Some t else None) /\
    forall r, r <> rowid -> txt !! r = md_text s !! r.
Proof.
  intros Hag Hup. unfold write_long_text. destruct (Nat.ltb_spec VIEW_DATA_LENGTH (length t)) as [Hlong|Hshort].
  - destruct (Z.ltb_spec (Z.of_nat VIEW_DATA_LENGTH) prev_n) as [Hp|Hp].
    + destruct isupdate; [|lia]. cbn [andb]. eexists. split; [done|].
      apply Hag in Hp as [old Hold]. split.
      * by rewrite lookup_alter_eq, Hold.
      * intros r Hr. by rewrite lookup_alter_ne.
    + rewrite andb_false_r. erewrite mbind_ok by reflexivity.
      destruct (md_text s !! rowid) as [old|] eqn:E; [destruct Hag as [_ Hag]; specialize (Hag (ex_intro _ old eq_refl)); lia|].
      eexists. split; [done|]. split; [by rewrite lookup_insert_eq|].
      intros r Hr. by rewrite lookup_insert_ne.
  - destruct (Z.ltb_spec (Z.of_nat VIEW_DATA_LENGTH) prev_n) as [Hp|Hp].
    + eexists. split; [done|]. split; [by rewrite lookup_delete_eq|].
      intros r Hr. by rewrite lookup_delete_ne.
    + exists (md_text s). split; [by destruct s|]. split; [|done].
      destruct (md_text s !! rowid) as [old|] eqn:E; [|done].
      destruct Hag as [_ Hag]. specialize (Hag (ex_intro _ old eq_refl)). lia.
Qed.

Lemma text_cell_written (rowid chunk_id : Z) (off cs : nat) (t : bytes) (isupdate : bool)
    (s : metadata_store) (b : bytes) :
  (off < cs)%nat -> md_chunks s !! chunk_id = Some b ->
  length b = (cs * VIEW_BUFFER_LENGTH)%nat ->
  let view := slice (off * VIEW_BUFFER_LENGTH) VIEW_BUFFER_LENGTH b in
  (Z.of_nat VIEW_DATA_LENGTH < view_length view <-> is_Some (md_text s !! rowid)) ->
  (isupdate = false -> view_length view <= Z.of_nat VIEW_DATA_LENGTH) ->
  exists b' txt, vec0_write_metadata_value METADATA_KIND_TEXT rowid chunk_id off (VText t) isupdate s
    = (Ok tt, set_text txt (set_chunk chunk_id b' s)) /\ length b' = length b /\
    (forall off', (off' < cs)%nat ->
       slice (off' * VIEW_BUFFER_LENGTH) VIEW_BUFFER_LENGTH b' =
       if decide (off' = off) then text_view t else slice (off' * VIEW_BUFFER_LENGTH) VIEW_BUFFER_LENGTH b) /\
    txt !! rowid = (if (VIEW_DATA_LENGTH <? length t)%nat then Some t else None) /\
    forall r, r <> rowid -> txt !! r = md_text s !! r.
Proof.
  intros Hoff Hb Hlen view Hag Hup. pose proof (length_text_view t) as Hvl.
  destruct (blob_write b (text_view t) (off * VIEW_BUFFER_LENGTH)) as [b'|] eqn:Ew.
  2:{ rewrite blob_write_ok in Ew by (unfold VIEW_BUFFER_LENGTH in *; lia). done. }
  set (s1 := set_chunk chunk_id b' s).
  destruct (write_long_text_ok rowid t (view_length view) isupdate s1 Hag Hup) as (txt & Ewt & Hown & Hoth).
  assert (Hcell : forall off', (off' < cs)%nat -> length b' = length b /\
    slice (off' * VIEW_BUFFER_LENGTH) VIEW_BUFFER_LENGTH b' =
    if decide (off' = off) then text_view t else slice (off' * VIEW_BUFFER_LENGTH) VIEW_BUFFER_LENGTH b).
  { intros off' Hlt.
    destruct (blob_read_write_cell b _ b' VIEW_BUFFER_LENGTH off' off Hvl Ew) as [Hl Hr];
      [unfold VIEW_BUFFER_LENGTH in *; lia..|]. split; [done|].
    rewrite blob_read_ok in Hr by (unfold VIEW_BUFFER_LENGTH in *; lia).
    case_decide; [by injection Hr|].
    rewrite blob_read_ok in Hr by (unfold VIEW_BUFFER_LENGTH in *; lia). by injection Hr. }
  exists b', txt. split; [|split; [apply (Hcell off Hoff)|split; [intros; by apply Hcell|split; done]]].
  unfold vec0_write_metadata_value. cbn [metadata_value_ok negb mwhen].
  erewrite mbind_ok by reflexivity. erewrite mbind_ok by reflexivity. rewrite Hb. cbn [mopt].
  erewrite mbind_ok by reflexivity.
  rewrite blob_read_ok by (unfold VIEW_BUFFER_LENGTH in *; lia). cbn [mopt].
  erewrite mbind_ok by reflexivity. unfold write_unchecked. cbn [text_bytes]. rewrite Ew.
  erewrite mbind_ok by reflexivity. rewrite view_length_prefix by (unfold VIEW_BUFFER_LENGTH in *; lia).
  exact Ewt.
Qed.

(** Reading a text cell. *)
Lemma read_text (rowid chunk_id : Z) (off cs : nat) (s : metadata_store) (b : bytes) :
  (off < cs)%nat -> md_chunks s !! chunk_id = Some b -> length b = (cs * VIEW_BUFFER_LENGTH)%nat ->
  vec0_result_metadata_value METADATA_KIND_TEXT rowid chunk_id off s =
  let view := slice (off * VIEW_BUFFER_LENGTH) VIEW_BUFFER_LENGTH b in
  if view_length view <=? Z.of_nat VIEW_DATA_LENGTH
  then Ok (VText (slice 4 (Z.to_nat (view_length view)) view))
  else match md_text s !! rowid with Some t => Ok (VText t) | None => Err SQLITE_ERROR end.
Proof.
  intros Hoff Hb Hlen. unfold vec0_result_metadata_value. rewrite Hb.
  rewrite blob_read_ok by (unfold VIEW_BUFFER_LENGTH in *; lia). done.
Qed.

Lemma view_length_written (t : bytes) :
  Z.of_nat (length t) < 2 ^ 31 -> view_length (text_view t) = Z.of_nat (length t).
Proof. intros. by rewrite <- (app_nil_r (text_view t)), view_length_view. Qed.

Lemma text_cell_roundtrip (rowid chunk_id : Z) (off cs : nat) (t : bytes) (isupdate : bool)
    (s : metadata_store) (b : bytes) :
  Z.of_nat (length t) < 2 ^ 31 -> (off < cs)%nat -> md_chunks s !! chunk_id = Some b ->
  length b = (cs * VIEW_BUFFER_LENGTH)%nat ->
  let view := slice (off * VIEW_BUFFER_LENGTH) VIEW_BUFFER_LENGTH b in
  (Z.of_nat VIEW_DATA_LENGTH < view_length view <-> is_Some (md_text s !! rowid)) ->
  (isupdate = false -> view_length view <= Z.of_nat VIEW_DATA_LENGTH) ->
  exists s', vec0_write_metadata_value METADATA_KIND_TEXT rowid chunk_id off (VText t) isupdate s
    = (Ok tt, s') /\
    vec0_result_metadata_value METADATA_KIND_TEXT rowid chunk_id off s' = Ok (VText t) /\
    forall r off', r <> rowid -> off' <> off -> (off' < cs)%nat ->
      vec0_result_metadata_value METADATA_KIND_TEXT r chunk_id off' s'
      = vec0_result_metadata_value METADATA_KIND_TEXT r chunk_id off' s.
Proof.
  intros Ht Hoff Hb Hlen view Hag Hup.
  destruct (text_cell_written rowid chunk_id off cs t isupdate s b Hoff Hb Hlen Hag Hup)
    as (b' & txt & E & Hl & Hcell & Hown & Hoth).
  eexists. split; [exact E|].
  assert (Hb' : md_chunks (set_text txt (set_chunk chunk_id b' s)) !! chunk_id = Some b')
    by apply lookup_insert_eq.
  split.
  - rewrite (read_text _ _ off cs _ b' Hoff Hb' ltac:(congruence)), Hcell, decide_True by done. cbv zeta.
    rewrite view_length_written by done. cbn [set_text md_text]. rewrite Hown.
    destruct (Z.leb_spec (Z.of_nat (length t)) (Z.of_nat VIEW_DATA_LENGTH)).
    + by rewrite Nat2Z.id, view_data by lia.
    + by rewrite (proj2 (Nat.ltb_lt _ _)) by lia.
  - intros r off' Hr Hne Hlt. rewrite (read_text r _ off' cs _ b' Hlt Hb' ltac:(congruence)).
    rewrite (read_text r _ off' cs s b Hlt Hb Hlen), Hcell, decide_False by done.
    cbn [set_text md_text]. by rewrite Hoth.
Qed.

(** ** Clearing a cell *)

Lemma clear_number_cell (kind : vec0_metadata_column_kind) (rowid chunk_id : Z) (off cs : nat)
    (s : metadata_store) (b : bytes) :
  kind = METADATA_KIND_INTEGER \/ kind = METADATA_KIND_FLOAT -> (off < cs)%nat ->
  md_chunks s !! chunk_id = Some b -> length b = (cs * 8)%nat ->
  exists b', vec0Update_Delete_ClearMetadata kind rowid chunk_id off s
    = (Ok tt, set_chunk chunk_id b' s) /\ length b' = length b /\
    forall r off', off' <> off -> (off' < cs)%nat ->
      vec0_result_metadata_value kind r chunk_id off' (set_chunk chunk_id b' s)
      = vec0_result_metadata_value kind r chunk_id off' s.
Proof.
  intros Hk Hoff Hb Hlen.
  assert (Hc : length (enc_le 8 0) = 8%nat) by apply length_enc_le.
  destruct (blob_write b (enc_le 8 0) (off * 8)) as [b'|] eqn:Ew.
  2:{ rewrite blob_write_ok in Ew by lia. done. }
  exists b'. destruct (blob_read_write_cell b _ b' 8 off off Hc Ew) as [Hl _]; [lia..|].
  split; [|split; [done|]].
  - unfold vec0Update_Delete_ClearMetadata. erewrite mbind_ok by reflexivity. rewrite Hb. cbn [mopt].
    erewrite mbind_ok by reflexivity. destruct Hk as [-> | ->]; unfold write_checked; by rewrite Ew.
  - intros r off' Hne Hlt.
    destruct (blob_read_write_cell b _ b' 8 off' off Hc Ew) as [_ Hr']; [lia..|].
    rewrite decide_False in Hr' by done. unfold vec0_result_metadata_value.
    cbn [set_chunk md_chunks]. rewrite lookup_insert_eq, Hb.
    destruct Hk as [-> | ->]; by rewrite Hr'.
Qed.

Lemma clear_bit_cell (rowid chunk_id : Z) (off cs : nat) (s : metadata_store) (b : bytes) :
  (off < cs)%nat -> bitmap_wf cs b -> md_chunks s !! chunk_id = Some b ->
  exists b', vec0Update_Delete_ClearMetadata METADATA_KIND_BOOLEAN rowid chunk_id off s
    = (Ok tt, set_chunk chunk_id b' s) /\ bitmap_wf cs b' /\
    forall r off', off' <> off -> (off' < cs)%nat ->
      vec0_result_metadata_value METADATA_KIND_BOOLEAN r chunk_id off' (set_chunk chunk_id b' s)
      = vec0_result_metadata_value METADATA_KIND_BOOLEAN r chunk_id off' s.
Proof.
  intros Hoff Hw Hb. exists (bitmap_set b off false). pose proof (bitmap_set_wf cs b off false Hw) as Hw'.
  pose proof (bit_index cs off b Hw Hoff) as Hi. split; [|split; [done|]].
  - unfold vec0Update_Delete_ClearMetadata. erewrite mbind_ok by reflexivity. rewrite Hb. cbn [mopt].
    erewrite mbind_ok by reflexivity. rewrite blob_read_byte by done. cbn [mopt].
    erewrite mbind_ok by reflexivity. unfold write_checked.
    rewrite blob_write_ok by (cbn [length]; lia). rewrite write_at_single by done. done.
  - intros r off' Hne Hlt. destruct Hw as [Hl Hby].
    rewrite (read_bit cs off' (bitmap_set b off false) r chunk_id _ Hw' Hlt) by apply lookup_insert_eq.
    rewrite (read_bit cs off' b) by done. by rewrite bitmap_test_set_ne by (done || lia).
Qed.

(** The result code is not [SQLITE_OK] when a long text was removed. *)
Lemma clear_text_cell (rowid chunk_id : Z) (off cs : nat) (s : metadata_store) (b : bytes) :
  (off < cs)%nat -> md_chunks s !! chunk_id = Some b -> length b = (cs * VIEW_BUFFER_LENGTH)%nat ->
  (Z.of_nat VIEW_DATA_LENGTH < view_length (slice (off * VIEW_BUFFER_LENGTH) VIEW_BUFFER_LENGTH b)
   <-> is_Some (md_text s !! rowid)) ->
  exists rc b', vec0Update_Delete_ClearMetadata METADATA_KIND_TEXT rowid chunk_id off s
    = (rc, set_text (delete rowid (md_text s)) (set_chunk chunk_id b' s)) /\ rc <> Undef /\
    length b' = length b /\
    forall off', (off' < cs)%nat ->
      slice (off' * VIEW_BUFFER_LENGTH) VIEW_BUFFER_LENGTH b' =
      if decide (off' = off) then replicate VIEW_BUFFER_LENGTH 0
      else slice (off' * VIEW_BUFFER_LENGTH) VIEW_BUFFER_LENGTH b.
Proof.
  intros Hoff Hb Hlen Hag.
  assert (Hz : length (replicate VIEW_BUFFER_LENGTH 0) = VIEW_BUFFER_LENGTH) by apply length_replicate.
  destruct (blob_write b (replicate VIEW_BUFFER_LENGTH 0) (off * VIEW_BUFFER_LENGTH)) as [b'|] eqn:Ew.
  2:{ rewrite blob_write_ok in Ew by (rewrite Hz; unfold VIEW_BUFFER_LENGTH in *; lia). done. }
  assert (Hcell : forall off', (off' < cs)%nat -> length b' = length b /\
    slice (off' * VIEW_BUFFER_LENGTH) VIEW_BUFFER_LENGTH b' =
    if decide (off' = off) then replicate VIEW_BUFFER_LENGTH 0
    else slice (off' * VIEW_BUFFER_LENGTH) VIEW_BUFFER_LENGTH b).
  { intros off' Hlt.
    destruct (blob_read_write_cell b _ b' VIEW_BUFFER_LENGTH off' off Hz Ew) as [Hl Hr];
      [unfold VIEW_BUFFER_LENGTH in *; lia..|]. split; [done|].
    rewrite blob_read_ok in Hr by (unfold VIEW_BUFFER_LENGTH in *; lia).
    case_decide; [by injection Hr|].
    rewrite blob_read_ok in Hr by (unfold VIEW_BUFFER_LENGTH in *; lia). by injection Hr. }
  assert (Hrun : vec0Update_Delete_ClearMetadata METADATA_KIND_TEXT rowid chunk_id off s =
    (if Z.of_nat VIEW_DATA_LENGTH <? view_length (slice (off * VIEW_BUFFER_LENGTH) VIEW_BUFFER_LENGTH b)
     then mbind (mput (fun s => set_text (delete rowid (md_text s)) s)) (fun _ => mfail SQLITE_DONE)
     else mret tt) (set_chunk chunk_id b' s)).
  { unfold vec0Update_Delete_ClearMetadata. erewrite mbind_ok by reflexivity. rewrite Hb. cbn [mopt].
    erewrite mbind_ok by reflexivity.
    rewrite blob_read_ok by (unfold VIEW_BUFFER_LENGTH in *; lia). cbn [mopt].
    erewrite mbind_ok by reflexivity. unfold write_checked. rewrite Ew.
    erewrite mbind_ok by reflexivity. by rewrite view_length_prefix by (unfold VIEW_BUFFER_LENGTH in *; lia). }
  rewrite Hrun. destruct (Z.ltb_spec (Z.of_nat VIEW_DATA_LENGTH)
    (view_length (slice (off * VIEW_BUFFER_LENGTH) VIEW_BUFFER_LENGTH b))) as [Hlong|Hshort].
  - exists (Err SQLITE_DONE), b'. split; [done|]. split; [done|].
    split; [apply (Hcell off Hoff)|intros; by apply Hcell].
  - exists (Ok tt), b'. split; [|split; [done|split; [apply (Hcell off Hoff)|intros; by apply Hcell]]].
    rewrite delete_id; [by destruct s|]. destruct (md_text s !! rowid) eqn:E; [|done].
    assert (Z.of_nat VIEW_DATA_LENGTH
      < view_length (slice (off * VIEW_BUFFER_LENGTH) VIEW_BUFFER_LENGTH b)) by (apply Hag; by eexists). lia.
Qed.

(** C26: Writing a metadata value of the column's type succeeds and reading
    the row gives the value back (a BOOLEAN as 0 or 1, a text longer than the
    12 bytes of the view from the second table); the values of all other
    rows and cells are unchanged.  The chunk has the size the code creates,
    and for a text the long-text table agrees with the cell. *)
Theorem metadata_roundtrip (kind : vec0_metadata_column_kind) (rowid chunk_id : Z) (off cs : nat)
    (v : value) (isupdate : bool) (s : metadata_store) (b : bytes) :
  metadata_value_ok kind v = true -> value_wf v -> (off < cs)%nat -> (cs mod 8 = 0)%nat ->
  md_chunks s !! chunk_id = Some b -> chunk_ok kind cs b -> text_agrees kind rowid chunk_id off s ->
  (kind = METADATA_KIND_TEXT -> isupdate = false ->
     view_length (slice (off * VIEW_BUFFER_LENGTH) VIEW_BUFFER_LENGTH b) <= Z.of_nat VIEW_DATA_LENGTH) ->
  exists s', vec0_write_metadata_value kind rowid chunk_id off v isupdate s = (Ok tt, s') /\
    vec0_result_metadata_value kind rowid chunk_id off s' = Ok (stored_value kind v) /\
    forall r off', r <> rowid -> off' <> off -> (off' < cs)%nat ->
      vec0_result_metadata_value kind r chunk_id off' s'
      = vec0_result_metadata_value kind r chunk_id off' s.
Proof.
  intros Hok Hv Hoff Hcs Hb Hck Hag Hup. destruct kind.
  - destruct (bit_cell_roundtrip rowid chunk_id off cs v isupdate s b) as (b' & E & _ & R & F);
      [done|done|by apply chunk_ok_bitmap|done|]. eexists. split; [exact E|]. eauto.
  - destruct (number_cell_roundtrip METADATA_KIND_INTEGER rowid chunk_id off cs v isupdate s b)
      as (b' & E & _ & R & F); [auto|done..|apply Hck|]. eexists. split; [exact E|]. eauto.
  - destruct (number_cell_roundtrip METADATA_KIND_FLOAT rowid chunk_id off cs v isupdate s b)
      as (b' & E & _ & R & F); [auto|done..|apply Hck|]. eexists. split; [exact E|]. eauto.
  - destruct v as [| | |t|]; try done.
    destruct (text_cell_roundtrip rowid chunk_id off cs t isupdate s b) as (s' & E & R & F);
      [done|done|done|apply Hck|by apply Hag|by apply Hup|]. eauto.
Qed.

Lemma metadata_roundtrip_witness :
  let t := [104; 101; 108; 108; 111; 32; 119; 111; 114; 108; 100; 33; 33; 33]%Z in
  let s := MkMetadata {[ 1 := replicate 128 0 ]} ∅ in
  exists s', vec0_write_metadata_value METADATA_KIND_TEXT 7 1 3 (VText t) false s = (Ok tt, s') /\
    vec0_result_metadata_value METADATA_KIND_TEXT 7 1 3 s' = Ok (VText t).
Proof.
  destruct (metadata_roundtrip METADATA_KIND_TEXT 7 1 3 8
    (VText [104; 101; 108; 108; 111; 32; 119; 111; 114; 108; 100; 33; 33; 33]) false
    (MkMetadata {[ 1 := replicate 128 0 ]} ∅) (replicate 128 0)) as (s' & H1 & H2 & _).
  - reflexivity.
  - cbn. lia.
  - lia.
  - reflexivity.
  - reflexivity.
  - split; [reflexivity|]. apply Forall_replicate. unfold is_byte. lia.
  - intros b Hb. injection Hb as <-. vm_compute. split; [discriminate|intros [x Hx]; discriminate].
  - intros _ _. vm_compute. discriminate.
  - exists s'. split; [exact H1|exact H2].
Defined.
