(* ===== verification/Values.v ===== *)
(** * Vectors from SQL values and the scalar functions (sqlite-vec.c,
    [fvec_from_value] to [ensure_vector_match], [vec_f32] to [vec_slice])

    A vector is its element type, its number of dimensions and its bytes in
    memory.  It comes from a BLOB, or from a TEXT holding a JSON-like array.
    [strtod] is a parameter; [strtol] is modelled. *)

From stdpp Require Import base option list numbers.
From Stdlib Require Import ZArith Lia SpecFloat.
From S2P Require Import Prelude Float32 Bitmap Codec Shadow DefParser.

Local Open Scope Z_scope.

(** ** [struct Array] *)

Section Array.
Context {A : Type}.

Record Array := MkArray { arr_items : list A; arr_capacity : nat }.

Definition array_init (init_capacity : nat) : Array := MkArray [] init_capacity.

(** The length equals the number of items; a full array grows first. *)
Definition array_append (a : Array) (x : A) : Array :=
  let cap := if (length (arr_items a) =? arr_capacity a)%nat
             then (arr_capacity a * 2 + 100)%nat else arr_capacity a in
  MkArray (arr_items a ++ [x]) cap.

Lemma array_append_room (a : Array) (x : A) :
  (length (arr_items a) <= arr_capacity a)%nat ->
  (length (arr_items (array_append a x)) <= arr_capacity (array_append a x))%nat.
Proof.
  intros H. unfold array_append. cbn [arr_items arr_capacity]. rewrite length_app. cbn.
  destruct (Nat.eqb_spec (length (arr_items a)) (arr_capacity a)); lia.
Qed.

End Array.
Arguments Array : clear implicits.

(** ** Values and vectors *)

(** A value with its subtype. *)
Record sval := MkSval { sv_value : value; sv_subtype : Z }.

Definition element_code (t : VectorElementType) : Z :=
  match t with
  | SQLITE_VEC_ELEMENT_TYPE_FLOAT32 => 223
  | SQLITE_VEC_ELEMENT_TYPE_BIT => 224
  | SQLITE_VEC_ELEMENT_TYPE_INT8 => 225
  end.

#[global] Instance VectorElementType_eq_dec : EqDecision VectorElementType.
Proof. solve_decision. Defined.

Definition JSON_SUBTYPE : Z := 74.

Record vector := MkVector {
  vec_type : VectorElementType;
  vec_dims : nat;
  vec_bytes : bytes
}.

(** [vecJsonIsspace]: the table has 1 at tab, newline, return and blank. *)
Definition vecJsonIsspace (c : Z) : bool := (c =? 9) || (c =? 10) || (c =? 13) || (c =? 32).

(** ** The array parser

    [source] is NUL-terminated: [hd 0] reads the terminator at its end.  The
    two parsers differ in how one element is read. *)

Inductive number (A : Type) :=
| NumError                          (* out of range *)
| NumNone                           (* [endptr == ptr] *)
| NumOk (x : A) (consumed : nat).   (* [consumed = endptr - ptr] *)
Arguments NumError {A}.
Arguments NumNone {A}.
Arguments NumOk {A} x consumed.

Section Json.
Context {A : Type} (read_number : bytes -> number A).

(** Leading whitespace up to the bracket: what follows it. *)
Fixpoint json_start (s : bytes) : option bytes :=
  match s with
  | [] => None
  | c :: s' =>
      if vecJsonIsspace c then json_start s'
      else if c =? 91 then Some s' else None
  end.

(** After an element: skip whitespace and commas; [true] at the bracket. *)
Fixpoint json_skip (s : bytes) : bytes * bool :=
  match s with
  | [] => ([], false)
  | c :: s' =>
      if vecJsonIsspace c then json_skip s'
      else if c =? 44 then json_skip s'
      else if c =? 93 then (s, true) else (s, false)
  end.

(** The element loop; each round consumes at least a character, so the
    length of the input bounds the rounds. *)
Fixpoint json_items (fuel : nat) (s : bytes) (x : Array A) : option (Array A) :=
  match s with
  | [] => Some x
  | c :: _ =>
      match fuel with
      | O => None
      | S fuel =>
          match read_number s with
          | NumError => None
          | NumNone => if c =? 93 then Some x else None
          | NumOk res consumed =>
              let '(s', fin) := json_skip (drop consumed s) in
              if fin then Some (array_append x res) else json_items fuel s' (array_append x res)
          end
      end
  end.

(** The elements, or [None] for an error; an empty array is an error. *)
Definition json_array (source : bytes) : option (list A) :=
  match source with
  | [] => None
  | _ =>
      match json_start source with
      | None => None
      | Some s =>
          match json_items (length source) s (array_init ((length source + 1) / 2)) with
          | Some x => match arr_items x with [] => None | l => Some l end
          | None => None
          end
      end
  end.

End Json.

(** ** [strtol(ptr, &endptr, 10)] *)

Definition c_isspace (c : Z) : bool := (c =? 32) || ((9 <=? c) && (c <=? 13)).
Definition c_isdigit (c : Z) : bool := (48 <=? c) && (c <=? 57).

Fixpoint skip_spaces (s : bytes) : bytes :=
  match s with
  | c :: s' => if c_isspace c then skip_spaces s' else s
  | [] => []
  end.

(** The digits at the front: value and count. *)
Fixpoint dec_digits (acc : Z) (s : bytes) : Z * nat :=
  match s with
  | c :: s' =>
      if c_isdigit c then let '(v, n) := dec_digits (10 * acc + (c - 48)) s' in (v, S n)
      else (acc, 0%nat)
  | [] => (acc, 0%nat)
  end.

Definition strtol (s : bytes) : number Z :=
  let s1 := skip_spaces s in
  let '(neg, s2) := match s1 with
                    | c :: s' => if c =? 45 then (true, s') else if c =? 43 then (false, s') else (false, s1)
                    | [] => (false, s1)
                    end in
  let '(v, n) := dec_digits 0 s2 in
  if (n =? 0)%nat then NumNone
  else
    let v := if neg then - v else v in
    if (v <? - 2 ^ 63) || (2 ^ 63 - 1 <? v) then NumError
    else NumOk v (length s - (length s2 - n)).

(** ** The conversions *)

Section Conversions.
(** [strtod]: not representable (with the tests on [errno]), no number, or the
    value and the characters read. *)
Context (strtod : bytes -> number f64).

Definition read_f32 (s : bytes) : number f32 :=
  match strtod s with
  | NumError => NumError
  | NumNone => NumNone
  | NumOk d n => NumOk (f32_of_f64 d) n
  end.

Definition read_i8 (s : bytes) : number Z :=
  match strtol s with
  | NumError => NumError
  | NumNone => NumNone
  | NumOk v n => if (v <? -128) || (127 <? v) then NumError else NumOk v n
  end.

Definition f32_bytes (l : list f32) : bytes := enc_array f32c l.
Definition i8_bytes (l : list Z) : bytes := (fun z => z mod 256) <$> l.

Definition fvec_from_value (v : sval) : option vector :=
  match sv_value v with
  | VBlob b =>
      if (length b =? 0)%nat then None
      else if negb (length b mod 4 =? 0)%nat then None
      else Some (MkVector SQLITE_VEC_ELEMENT_TYPE_FLOAT32 (length b / 4) b)
  | VText s =>
      match json_array read_f32 s with
      | Some l => Some (MkVector SQLITE_VEC_ELEMENT_TYPE_FLOAT32 (length l) (f32_bytes l))
      | None => None
      end
  | _ => None
  end.

Definition bitvec_from_value (v : sval) : option vector :=
  match sv_value v with
  | VBlob b =>
      if (length b =? 0)%nat then None
      else Some (MkVector SQLITE_VEC_ELEMENT_TYPE_BIT (length b * CHAR_BIT) b)
  | _ => None
  end.

Definition int8_vec_from_value (v : sval) : option vector :=
  match sv_value v with
  | VBlob b =>
      if (length b =? 0)%nat then None
      else Some (MkVector SQLITE_VEC_ELEMENT_TYPE_INT8 (length b) b)
  | VText s =>
      match json_array read_i8 s with
      | Some l => Some (MkVector SQLITE_VEC_ELEMENT_TYPE_INT8 (length l) (i8_bytes l))
      | None => None
      end
  | _ => None
  end.

Definition vector_from_value (v : sval) : option vector :=
  let subtype := sv_subtype v in
  if (subtype =? 0) || (subtype =? element_code SQLITE_VEC_ELEMENT_TYPE_FLOAT32)
     || (subtype =? JSON_SUBTYPE) then fvec_from_value v
  else if subtype =? element_code SQLITE_VEC_ELEMENT_TYPE_BIT then bitvec_from_value v
  else if subtype =? element_code SQLITE_VEC_ELEMENT_TYPE_INT8 then int8_vec_from_value v
  else None.

Definition ensure_vector_match (aValue bValue : sval) : option (vector * vector) :=
  match vector_from_value aValue, vector_from_value bValue with
  | Some a, Some b =>
      if negb (element_code (vec_type a) =? element_code (vec_type b)) then None
      else if negb (vec_dims a =? vec_dims b)%nat then None
      else Some (a, b)
  | _, _ => None
  end.

(** ** Scalar functions: [None] is an error result *)

Definition result_blob (t : VectorElementType) (b : bytes) : option sval :=
  Some (MkSval (VBlob b) (element_code t)).

Definition vec_f32 (v : sval) : option sval :=
  match fvec_from_value v with
  | Some x => result_blob SQLITE_VEC_ELEMENT_TYPE_FLOAT32 (take (vec_dims x * 4) (vec_bytes x))
  | None => None
  end.

Definition vec_bit (v : sval) : option sval :=
  match bitvec_from_value v with
  | Some x => result_blob SQLITE_VEC_ELEMENT_TYPE_BIT (take (vec_dims x / CHAR_BIT) (vec_bytes x))
  | None => None
  end.

Definition vec_int8 (v : sval) : option sval :=
  match int8_vec_from_value v with
  | Some x => result_blob SQLITE_VEC_ELEMENT_TYPE_INT8 (take (vec_dims x) (vec_bytes x))
  | None => None
  end.

Definition vec_length (v : sval) : option Z :=
  match vector_from_value v with
  | Some x => Some (Z.of_nat (vec_dims x))
  | None => None
  end.

(** Element [i] of a vector in memory. *)
Definition f32_at (b : bytes) (i : nat) : f32 :=
  match dec_f32 (slice (i * 4) 4 b) with Some (x, _) => x | None => f32_zero end.
Definition i8_at (b : bytes) (i : nat) : Z := wrap_s 8 (aget 0 b i).

Definition map2_f32 (f : f32 -> f32 -> f32) (a b : bytes) (n : nat) : bytes :=
  f32_bytes ((fun i => f (f32_at a i) (f32_at b i)) <$> seq 0 n).
Definition map2_i8 (f : Z -> Z -> Z) (a b : bytes) (n : nat) : bytes :=
  i8_bytes ((fun i => f (i8_at a i) (i8_at b i)) <$> seq 0 n).

Definition vec_add (aValue bValue : sval) : option sval :=
  match ensure_vector_match aValue bValue with
  | None => None
  | Some (a, b) =>
      match vec_type a with
      | SQLITE_VEC_ELEMENT_TYPE_BIT => None
      | SQLITE_VEC_ELEMENT_TYPE_FLOAT32 =>
          result_blob SQLITE_VEC_ELEMENT_TYPE_FLOAT32
            (map2_f32 f32_add (vec_bytes a) (vec_bytes b) (vec_dims a))
      | SQLITE_VEC_ELEMENT_TYPE_INT8 =>
          result_blob SQLITE_VEC_ELEMENT_TYPE_INT8
            (map2_i8 Z.add (vec_bytes a) (vec_bytes b) (vec_dims a))
      end
  end.

Definition vec_sub (aValue bValue : sval) : option sval :=
  match ensure_vector_match aValue bValue with
  | None => None
  | Some (a, b) =>
      match vec_type a with
      | SQLITE_VEC_ELEMENT_TYPE_BIT => None
      | SQLITE_VEC_ELEMENT_TYPE_FLOAT32 =>
          result_blob SQLITE_VEC_ELEMENT_TYPE_FLOAT32
            (map2_f32 f32_sub (vec_bytes a) (vec_bytes b) (vec_dims a))
      | SQLITE_VEC_ELEMENT_TYPE_INT8 =>
          result_blob SQLITE_VEC_ELEMENT_TYPE_INT8
            (map2_i8 Z.sub (vec_bytes a) (vec_bytes b) (vec_dims a))
      end
  end.

Definition vec_slice (v : sval) (start end_ : Z) : option sval :=
  match vector_from_value v with
  | None => None
  | Some x =>
      let dims := Z.of_nat (vec_dims x) in
      if (start <? 0) || (end_ <? 0) || (dims <? start) || (dims <? end_)
         || (end_ <? start) || (start =? end_) then None
      else
        let st := Z.to_nat start in
        let n := Z.to_nat (end_ - start) in
        match vec_type x with
        | SQLITE_VEC_ELEMENT_TYPE_FLOAT32 =>
            result_blob SQLITE_VEC_ELEMENT_TYPE_FLOAT32 (slice (st * 4) (n * 4) (vec_bytes x))
        | SQLITE_VEC_ELEMENT_TYPE_INT8 =>
            result_blob SQLITE_VEC_ELEMENT_TYPE_INT8 (slice st n (vec_bytes x))
        | SQLITE_VEC_ELEMENT_TYPE_BIT =>
            if negb (start mod 8 =? 0) then None
            else if negb (end_ mod 8 =? 0) then None
            else result_blob SQLITE_VEC_ELEMENT_TYPE_BIT
                   (slice (st / CHAR_BIT) (n / CHAR_BIT) (vec_bytes x))
        end
  end.

(** [out[i / 8] |= (res << (i % 8))] for [i = 0 .. n-1]. *)
Fixpoint quantize_loop (positive : nat -> bool) (out : bytes) (i n : nat) : bytes :=
  match n with
  | O => out
  | S n =>
      let res := if positive i then 1 else 0 in
      quantize_loop positive
        (<[(i / 8)%nat := to_u8 (Z.lor (aget 0 out (i / 8)) (Z.shiftl res (Z.of_nat (i mod 8))))]> out)
        (S i) n
  end.

Definition vec_quantize_binary (v : sval) : option sval :=
  match vector_from_value v with
  | None => None
  | Some x =>
      let n := vec_dims x in
      if (n <=? 0)%nat then None
      else if negb (n mod CHAR_BIT =? 0)%nat then None
      else
        let out := replicate (n / CHAR_BIT) 0 in
        match vec_type x with
        | SQLITE_VEC_ELEMENT_TYPE_FLOAT32 =>
            result_blob SQLITE_VEC_ELEMENT_TYPE_BIT
              (quantize_loop (fun i => f32_ltb f32_zero (f32_at (vec_bytes x) i)) out 0 n)
        | SQLITE_VEC_ELEMENT_TYPE_INT8 =>
            result_blob SQLITE_VEC_ELEMENT_TYPE_BIT
              (quantize_loop (fun i => 0 <? i8_at (vec_bytes x) i) out 0 n)
        | SQLITE_VEC_ELEMENT_TYPE_BIT => None
        end
  end.

End Conversions.

(** ** Reading printed integers *)

Lemma dec_digits_app (ds rest : bytes) (acc : Z) :
  forallb c_isdigit ds = true -> c_isdigit (hd 0 rest) = false ->
  dec_digits acc (ds ++ rest) = ((dec_digits acc ds).1, length ds).
Proof.
  intros Hd Hr. revert acc. induction ds as [|c ds IH]; intros acc.
  - destruct rest as [|c r]; [done|]. cbn in *. by rewrite Hr.
  - cbn [forallb] in Hd. apply andb_true_iff in Hd as [Hc Hd]. cbn [app dec_digits length].
    rewrite Hc, (IH Hd). by destruct (dec_digits _ ds).
Qed.

(** A sign and digits. *)
Definition print_int (p : bool * bytes) : bytes := (if p.1 then [45] else []) ++ p.2.
Definition int_value (p : bool * bytes) : Z :=
  let v := (dec_digits 0 p.2).1 in if p.1 then - v else v.
Definition int_ok (p : bool * bytes) : Prop :=
  p.2 <> [] /\ forallb c_isdigit p.2 = true /\ -128 <= int_value p <= 127.

Lemma digit_plain (c : Z) :
  c_isdigit c = true ->
  c_isspace c = false /\ (c =? 45) = false /\ (c =? 43) = false /\ vecJsonIsspace c = false /\
  (c =? 44) = false /\ (c =? 93) = false.
Proof. unfold c_isdigit, c_isspace, vecJsonIsspace. lia. Qed.

Lemma read_i8_unsigned (ds rest : bytes) :
  int_ok (false, ds) -> c_isdigit (hd 0 rest) = false ->
  strtol (ds ++ rest) = NumOk (dec_digits 0 ds).1 (length ds).
Proof.
  intros (Hne & Hd & Hr) Hrest. unfold int_value in Hr. cbn [fst snd] in *.
  pose proof (dec_digits_app ds rest 0 Hd Hrest) as E.
  destruct ds as [|c ds]; [done|].
  assert (Hc : c_isdigit c = true) by (cbn in Hd; by apply andb_true_iff in Hd as [? _]).
  destruct (digit_plain c Hc) as (C1 & C2 & C3 & _).
  set (v := (dec_digits 0 (c :: ds)).1) in *. set (n := length (c :: ds)) in *.
  unfold strtol. cbn [app skip_spaces] in *. rewrite C1, C2, C3, E.
  assert ((n =? 0)%nat = false) as -> by done.
  assert ((v <? - 2 ^ 63) || (2 ^ 63 - 1 <? v) = false) as -> by lia.
  f_equal. subst n. cbn [length]. rewrite length_app. lia.
Qed.

Lemma read_i8_negative (ds rest : bytes) :
  int_ok (true, ds) -> c_isdigit (hd 0 rest) = false ->
  strtol (45 :: ds ++ rest) = NumOk (- (dec_digits 0 ds).1) (S (length ds)).
Proof.
  intros (Hne & Hd & Hr) Hrest. unfold int_value in Hr. cbn [fst snd] in *.
  pose proof (dec_digits_app ds rest 0 Hd Hrest) as E.
  set (v := (dec_digits 0 ds).1) in *.
  unfold strtol. change (skip_spaces (45 :: ds ++ rest)) with (45 :: ds ++ rest).
  cbv zeta iota beta. change (45 =? 45) with true. cbv iota beta. rewrite E.
  assert ((length ds =? 0)%nat = false) as -> by (by destruct ds).
  assert ((- v <? - 2 ^ 63) || (2 ^ 63 - 1 <? - v) = false) as -> by lia.
  f_equal. cbn [length]. rewrite length_app. lia.
Qed.

Lemma read_i8_printed (p : bool * bytes) (rest : bytes) :
  int_ok p -> c_isdigit (hd 0 rest) = false ->
  read_i8 (print_int p ++ rest) = NumOk (int_value p) (length (print_int p)).
Proof.
  intros Hok Hrest. pose proof Hok as (_ & _ & Hr). destruct p as [neg ds].
  unfold read_i8, print_int. cbn [fst snd].
  destruct neg; cbn [app].
  - rewrite (read_i8_negative _ _ Hok Hrest). unfold int_value in *. cbn [fst snd] in *.
    assert ((- (dec_digits 0 ds).1 <? -128) || (127 <? - (dec_digits 0 ds).1) = false) as -> by lia.
    done.
  - rewrite (read_i8_unsigned _ _ Hok Hrest). unfold int_value in *. cbn [fst snd] in *.
    assert (((dec_digits 0 ds).1 <? -128) || (127 <? (dec_digits 0 ds).1) = false) as -> by lia.
    done.
Qed.

(** ** Reading printed arrays

    Any element reader that reads back its printed form. *)

Definition json_sep (c : Z) : bool := vecJsonIsspace c || (c =? 44).

Lemma json_skip_sep (sep s : bytes) :
  forallb json_sep sep = true -> json_skip (sep ++ s) = json_skip s.
Proof.
  intros Hs. induction sep as [|c sep IH]; [done|].
  cbn [forallb] in Hs. apply andb_true_iff in Hs as [Hc Hs]. cbn [app json_skip].
  unfold json_sep in Hc. destruct (vecJsonIsspace c); [auto|]. cbn in Hc. rewrite Hc. auto.
Qed.

Section Printed.
Context {A P : Type} (read_number : bytes -> number A) (print : P -> bytes) (val : P -> A)
  (ok : P -> Prop).

(** What may follow a number: a separator or the closing bracket. *)
Definition ends_number (s : bytes) : Prop :=
  exists c s', s = c :: s' /\ (json_sep c = true \/ c = 93).

Hypothesis read_print : forall p rest, ok p -> ends_number rest ->
  read_number (print p ++ rest) = NumOk (val p) (length (print p)).
Hypothesis print_starts : forall p, ok p ->
  exists c s, print p = c :: s /\ json_sep c = false /\ c <> 93.

(** The items after the first, each behind its separators; then the trailing
    separators and the bracket. *)
Definition rest_text (items : list (bytes * P)) (tail junk : bytes) : bytes :=
  List.concat ((fun it : bytes * P => it.1 ++ print it.2) <$> items) ++ tail ++ 93 :: junk.

Definition items_ok (items : list (bytes * P)) : Prop :=
  Forall (fun it : bytes * P => it.1 <> [] /\ forallb json_sep it.1 = true /\ ok it.2) items.

Lemma rest_text_ends (items : list (bytes * P)) (tail junk : bytes) :
  items_ok items -> forallb json_sep tail = true -> ends_number (rest_text items tail junk).
Proof.
  intros Hi Ht. unfold rest_text. destruct items as [|[sep p] items]; cbn [fmap list_fmap List.concat app].
  - destruct tail as [|c tail]; [exists 93, junk; auto|].
    cbn in Ht. apply andb_true_iff in Ht as [Hc _]. exists c, (tail ++ 93 :: junk). auto.
  - apply Forall_cons_1 in Hi as [(Hne & Hs & _) _]. cbn [fst snd] in *.
    destruct sep as [|c sep]; [done|]. cbn in Hs. apply andb_true_iff in Hs as [Hc _].
    exists c, (((sep ++ print p) ++ List.concat ((fun it : bytes * P => it.1 ++ print it.2) <$> items))
      ++ tail ++ 93 :: junk). auto.
Qed.

Lemma json_skip_item (sep : bytes) (p : P) (s : bytes) :
  forallb json_sep sep = true -> ok p -> json_skip (sep ++ print p ++ s) = (print p ++ s, false).
Proof.
  intros Hs Hp. rewrite json_skip_sep by done.
  destruct (print_starts p Hp) as (c & s' & -> & Hc & H93). cbn [app json_skip].
  unfold json_sep in Hc. apply orb_false_iff in Hc as [-> ->].
  destruct (Z.eqb_spec c 93); [done|reflexivity].
Qed.

Lemma json_items_text (p : P) (items : list (bytes * P)) (tail junk : bytes) (fuel : nat) (x : Array A) :
  ok p -> items_ok items -> forallb json_sep tail = true -> (length items < fuel)%nat ->
  exists x', json_items read_number fuel (print p ++ rest_text items tail junk) x = Some x' /\
    arr_items x' = arr_items x ++ val p :: (val ∘ snd <$> items).
Proof.
  intros Hp Hi Ht Hf. revert p x fuel Hp Hf.
  induction items as [|[sep q] items IH]; intros p x fuel Hp Hf; (destruct fuel as [|fuel]; [cbn in Hf; lia|]);
    pose proof (read_print p _ Hp (rest_text_ends _ tail junk Hi Ht)) as R;
    destruct (print_starts p Hp) as (c & s' & Ec & _).
  - rewrite Ec in *. cbn [app json_items] in *. rewrite R.
    rewrite app_comm_cons, drop_app_length.
    unfold rest_text. cbn [fmap list_fmap List.concat app]. rewrite json_skip_sep by done.
    cbn. eexists. split; [reflexivity|]. done.
  - apply Forall_cons_1 in Hi as [(Hne & Hs & Hq) Hi]. cbn [fst snd] in *.
    destruct (IH Hi q (array_append x (val p)) fuel Hq ltac:(cbn in Hf; lia)) as (x' & Ex & Hx).
    rewrite Ec in *. cbn [app json_items] in *. rewrite R.
    rewrite app_comm_cons, drop_app_length.
    unfold rest_text at 1. cbn [fmap list_fmap List.concat app fst snd].
    rewrite <- !app_assoc. rewrite json_skip_item by done.
    exists x'. split; [exact Ex|]. rewrite Hx. cbn [array_append arr_items fmap list_fmap].
    by rewrite <- app_assoc.
Qed.

Lemma json_start_spaces (ws s : bytes) :
  forallb vecJsonIsspace ws = true -> json_start (ws ++ 91 :: s) = Some s.
Proof.
  intros Hw. induction ws as [|c ws IH]; [done|].
  cbn [forallb] in Hw. apply andb_true_iff in Hw as [Hc Hw]. cbn. rewrite Hc. auto.
Qed.

Lemma length_rest_text (items : list (bytes * P)) (tail junk : bytes) :
  items_ok items -> (length items < length (rest_text items tail junk))%nat.
Proof.
  intros Hi. unfold rest_text. induction Hi as [|[sep q] items (Hne & _) Hi IH]; cbn.
  - rewrite length_app. cbn. lia.
  - rewrite <- !app_assoc, !length_app in *. cbn [fst snd] in *. destruct sep; [done|]. cbn in *. lia.
Qed.

Lemma json_array_text (ws : bytes) (p : P) (items : list (bytes * P)) (tail junk : bytes) :
  forallb vecJsonIsspace ws = true -> ok p -> items_ok items -> forallb json_sep tail = true ->
  json_array read_number (ws ++ 91 :: print p ++ rest_text items tail junk) =
    Some (val p :: (val ∘ snd <$> items)).
Proof.
  intros Hw Hp Hi Ht. unfold json_array.
  destruct (ws ++ 91 :: print p ++ rest_text items tail junk) as [|c0 s0] eqn:E.
  { by destruct ws. }
  rewrite <- E, json_start_spaces by done.
  set (src := ws ++ 91 :: print p ++ rest_text items tail junk).
  destruct (json_items_text p items tail junk (length src) (array_init ((length src + 1) / 2)))
    as (x' & Ex & Hx); [done..| |by rewrite Ex, Hx].
  pose proof (length_rest_text items tail junk Hi). subst src. rewrite length_app. cbn. rewrite length_app. lia.
Qed.

End Printed.

(** ** Elements *)

Lemma i8_at_bytes (l : list Z) (i : nat) :
  Forall (fun z => -128 <= z <= 127) l -> (i < length l)%nat -> i8_at (i8_bytes l) i = aget 0 l i.
Proof.
  intros Hl Hi. unfold i8_at, i8_bytes. pose proof (aget_lookup_lt 0 l i Hi) as E.
  rewrite (aget_lookup 0 _ i (aget 0 l i mod 256)) by (by rewrite list_lookup_fmap, E).
  change 256 with (2 ^ 8). rewrite wrap_s_mod by lia.
  pose proof (proj1 (Forall_lookup _ _) Hl i _ E) as R. cbv beta in R. apply wrap_s_id; lia.
Qed.

(** What a vector holds: a float, a signed byte or a bit at each index. *)
Inductive element := EF32 (x : f32) | EI8 (z : Z) | EBit (b : bool).

Definition vector_element (x : vector) (i : nat) : element :=
  match vec_type x with
  | SQLITE_VEC_ELEMENT_TYPE_FLOAT32 => EF32 (f32_at (vec_bytes x) i)
  | SQLITE_VEC_ELEMENT_TYPE_INT8 => EI8 (i8_at (vec_bytes x) i)
  | SQLITE_VEC_ELEMENT_TYPE_BIT => EBit (bitmap_test (vec_bytes x) i)
  end.

Definition vector_elements (x : vector) : list element := vector_element x <$> seq 0 (vec_dims x).

(** The bytes of a vector match its dimensions. *)
Definition vector_size (t : VectorElementType) (dims : nat) : nat :=
  match t with
  | SQLITE_VEC_ELEMENT_TYPE_FLOAT32 => dims * 4
  | SQLITE_VEC_ELEMENT_TYPE_INT8 => dims
  | SQLITE_VEC_ELEMENT_TYPE_BIT => dims / CHAR_BIT
  end.

Definition vector_wf (x : vector) : Prop :=
  (0 < vec_dims x)%nat /\ length (vec_bytes x) = vector_size (vec_type x) (vec_dims x) /\
  (vec_type x = SQLITE_VEC_ELEMENT_TYPE_BIT -> (vec_dims x mod CHAR_BIT = 0)%nat).

Lemma length_f32_bytes (l : list f32) : length (f32_bytes l) = (length l * 4)%nat.
Proof.
  unfold f32_bytes, enc_array. induction l as [|x l IH]; [done|].
  cbn [fmap list_fmap List.concat length]. rewrite length_app, IH.
  assert (length (enc f32c x) = 4%nat) by apply length_enc_le. lia.
Qed.

Lemma json_array_nonempty {A : Type} (rd : bytes -> number A) (s : bytes) (l : list A) :
  json_array rd s = Some l -> (0 < length l)%nat.
Proof.
  unfold json_array. intros H. repeat (case_match; try done); simplify_eq. cbn. lia.
Qed.

Section Wf.
Context (strtod : bytes -> number f64).

Lemma vector_from_value_wf (v : sval) (x : vector) :
  vector_from_value strtod v = Some x -> vector_wf x.
Proof.
  assert (H4 : forall n, n <> 0%nat -> (n mod 4 = 0)%nat -> (0 < n / 4 /\ n = n / 4 * 4)%nat).
  { intros n Hn Hm. pose proof (Nat.div_mod_eq n 4). lia. }
  unfold vector_from_value, fvec_from_value, bitvec_from_value, int8_vec_from_value.
  intros H. repeat (case_match; try done); simplify_eq;
    unfold vector_wf, CHAR_BIT; cbn [vec_dims vec_bytes vec_type vector_size];
    repeat match goal with
           | E : json_array _ _ = Some _ |- _ => apply json_array_nonempty in E
           | E : (_ =? 0)%nat = false |- _ => apply Nat.eqb_neq in E
           | E : negb _ = false |- _ => apply negb_false_iff, Nat.eqb_eq in E
           end;
    try (match goal with E : (_ mod 4 = 0)%nat |- _ => pose proof (H4 _ ltac:(eassumption) E) end);
    unfold i8_bytes; rewrite ?length_f32_bytes, ?length_fmap, ?Nat.div_mul, ?Nat.Div0.mod_mul by done;
    repeat split; try done; try lia.
Qed.

End Wf.

(** A TEXT holding an array of integers of the int8 range, each printed
    with an optional minus sign and any number of digits, separated by
    non-empty runs of whitespace and commas, behind leading whitespace and
    followed by anything after the closing bracket, is read by
    [int8_vec_from_value] as the vector of exactly these integers. *)
Lemma int8_json_roundtrip (ws : bytes) (p : bool * bytes) (items : list (bytes * (bool * bytes)))
    (tail junk : bytes) (subtype : Z) :
  forallb vecJsonIsspace ws = true -> int_ok p ->
  Forall (fun it : bytes * (bool * bytes) =>
            it.1 <> [] /\ forallb json_sep it.1 = true /\ int_ok it.2) items ->
  forallb json_sep tail = true ->
  let values := int_value p :: (int_value ∘ snd <$> items) in
  let text := ws ++ 91 :: print_int p ++ rest_text print_int items tail junk in
  exists x, int8_vec_from_value (MkSval (VText text) subtype) = Some x /\
    vec_type x = SQLITE_VEC_ELEMENT_TYPE_INT8 /\ vector_elements x = EI8 <$> values.
Proof.
  intros Hw Hp Hi Ht values text.
  assert (Hstart : forall q, int_ok q ->
    exists c s, print_int q = c :: s /\ json_sep c = false /\ c <> 93).
  { intros [neg ds] (Hne & Hd & _). cbn [fst snd] in *. unfold print_int. cbn [fst snd].
    destruct neg; [by exists 45, ds|]. destruct ds as [|c ds]; [done|]. exists c, ds.
    cbn in Hd. apply andb_true_iff in Hd as [Hc _]. destruct (digit_plain c Hc) as (_ & _ & _ & H1 & H2 & H3).
    unfold json_sep. rewrite H1, H2. split_and!; [done..|lia]. }
  assert (Hread : forall q rest, int_ok q -> ends_number rest ->
    read_i8 (print_int q ++ rest) = NumOk (int_value q) (length (print_int q))).
  { intros q rest Hq (c & s' & -> & Hc). apply read_i8_printed; [done|]. cbn.
    unfold json_sep, vecJsonIsspace, c_isdigit in *. lia. }
  pose proof (json_array_text read_i8 print_int int_value int_ok Hread Hstart ws p items tail junk
                Hw Hp Hi Ht) as E.
  unfold int8_vec_from_value. cbn [sv_value]. fold text in E. rewrite E. fold values.
  eexists. split; [reflexivity|]. split; [done|].
  assert (Hr : Forall (fun z => -128 <= z <= 127) values).
  { apply Forall_cons_2; [apply Hp|]. apply Forall_fmap. eapply Forall_impl; [|exact Hi].
    intros it (_ & _ & _ & _ & R). exact R. }
  unfold vector_elements. cbn [vec_dims vec_type].
  apply list_eq_same_length with (length values); rewrite ?length_fmap, ?length_seq; [done..|].
  intros i a b Hlt. rewrite lookup_fmap_seq0 by done. rewrite list_lookup_fmap, (aget_lookup_lt 0) by done.
  intros [= <-] [= <-].
  unfold vector_element. cbn [vec_type vec_bytes].
  change (int_value p mod 256 :: _) with (i8_bytes values). by rewrite i8_at_bytes.
Qed.

Lemma int8_json_roundtrip_witness :
  exists x, int8_vec_from_value (MkSval (VText [32; 91; 45; 49; 50; 44; 32; 48; 55; 93; 33]) 0) = Some x /\
    vec_type x = SQLITE_VEC_ELEMENT_TYPE_INT8 /\ vector_elements x = EI8 <$> [-12; 7].
Proof.
  apply (int8_json_roundtrip [32] (true, [49; 50]) [([44; 32], (false, [48; 55]))] [] [33] 0);
    [reflexivity| |apply Forall_cons_2; [|apply Forall_nil_2]|reflexivity];
    unfold int_ok, int_value; cbn; repeat split; try done; lia.
Defined.

(** ** Slices *)

Lemma drop_slice {A : Type} (l : list A) (off n o m : nat) :
  (o + m <= n)%nat -> slice o m (slice off n l) = slice (off + o) m l.
Proof.
  intros H. unfold slice. rewrite skipn_firstn_comm, take_take, drop_drop. f_equal. lia.
Qed.

Lemma aget_slice (l : list Z) (off n i : nat) : (i < n)%nat -> aget 0 (slice off n l) i = aget 0 l (off + i).
Proof. intros H. unfold slice, aget. rewrite lookup_take_lt by done. by rewrite lookup_drop. Qed.

Lemma bitmap_test_slice (l : list Z) (off n i : nat) :
  (i < n * 8)%nat -> bitmap_test (slice off n l) i = bitmap_test l (off * 8 + i).
Proof.
  intros H. rewrite !bitmap_test_testbit.
  assert (((off * 8 + i) / 8)%nat = (off + i / 8)%nat) as -> by (rewrite Nat.div_add_l by done; done).
  assert (((off * 8 + i) mod 8)%nat = (i mod 8)%nat) as ->.
  { rewrite Nat.add_comm. apply Nat.Div0.mod_add. }
  rewrite aget_slice; [done|]. apply Nat.Div0.div_lt_upper_bound. lia.
Qed.

(** Where a slice is defined. *)
Definition slice_ok (x : vector) (start end_ : Z) : bool :=
  (0 <=? start) && (start <? end_) && (end_ <=? Z.of_nat (vec_dims x)) &&
  match vec_type x with
  | SQLITE_VEC_ELEMENT_TYPE_BIT => (start mod 8 =? 0) && (end_ mod 8 =? 0)
  | _ => true
  end.

Section SliceCorrect.
Context (strtod : bytes -> number f64).

(** The blob results are vectors again. *)
Lemma vector_from_blob (t : VectorElementType) (b : bytes) (dims : nat) :
  (0 < dims)%nat -> length b = vector_size t dims ->
  (t = SQLITE_VEC_ELEMENT_TYPE_BIT -> (dims mod CHAR_BIT = 0)%nat) ->
  vector_from_value strtod (MkSval (VBlob b) (element_code t)) = Some (MkVector t dims b).
Proof.
  intros Hd Hl Hb. unfold vector_from_value, fvec_from_value, bitvec_from_value, int8_vec_from_value.
  destruct t; cbn [sv_subtype sv_value element_code vector_size] in *; cbn [Z.eqb Pos.eqb orb].
  - assert ((length b =? 0)%nat = false) as -> by (apply Nat.eqb_neq; lia).
    rewrite Hl, Nat.Div0.mod_mul, Nat.div_mul by done. done.
  - specialize (Hb eq_refl). unfold CHAR_BIT in *. pose proof (Nat.div_mod_eq dims 8).
    assert ((length b =? 0)%nat = false) as -> by (apply Nat.eqb_neq; lia).
    do 2 f_equal. lia.
  - assert ((length b =? 0)%nat = false) as -> by (apply Nat.eqb_neq; lia). by rewrite Hl.
Qed.

(** One element of a slice. *)
Lemma slice_element (x : vector) (st n i : nat) :
  (i < n)%nat ->
  (vec_type x = SQLITE_VEC_ELEMENT_TYPE_BIT -> st mod 8 = 0 /\ n mod 8 = 0)%nat ->
  vector_element
    (MkVector (vec_type x) n
       (slice (vector_size (vec_type x) st) (vector_size (vec_type x) n) (vec_bytes x))) i =
  vector_element x (st + i).
Proof.
  intros Hi Hb. unfold vector_element. cbn [vec_type vec_bytes]. destruct (vec_type x); cbn [vector_size].
  - unfold f32_at. rewrite drop_slice by lia.
    by replace (st * 4 + i * 4)%nat with ((st + i) * 4)%nat by lia.
  - destruct (Hb eq_refl) as [H1 H2]. unfold CHAR_BIT.
    pose proof (Nat.div_mod_eq st 8). pose proof (Nat.div_mod_eq n 8).
    rewrite bitmap_test_slice by lia. do 2 f_equal. lia.
  - unfold i8_at. by rewrite aget_slice.
Qed.

(** A slice of a vector, as a blob, is the vector of the elements it covers. *)
Lemma slice_blob_elements (x : vector) (st n : nat) :
  vector_wf x -> (0 < n)%nat -> (st + n <= vec_dims x)%nat ->
  (vec_type x = SQLITE_VEC_ELEMENT_TYPE_BIT -> st mod 8 = 0 /\ n mod 8 = 0)%nat ->
  exists r y,
    Some (MkSval (VBlob (slice (vector_size (vec_type x) st) (vector_size (vec_type x) n) (vec_bytes x)))
            (element_code (vec_type x))) = Some r /\
    vector_from_value strtod r = Some y /\ vec_type y = vec_type x /\
    vector_elements y = slice st n (vector_elements x).
Proof.
  intros (_ & Hlen & _) Hn Hle Hb. eexists _, _. split; [reflexivity|]. split.
  - apply vector_from_blob; [apply Hn| |intros E; apply (Hb E)].
    rewrite length_slice; [done|]. rewrite Hlen. destruct (vec_type x); cbn [vector_size]; [lia| |lia].
    destruct (Hb eq_refl) as [H1 H2]. unfold CHAR_BIT.
    rewrite <- Nat.div_add_l by done. apply Nat.Div0.div_le_mono.
    pose proof (Nat.div_mod_eq st 8). lia.
  - split; [done|]. unfold vector_elements. cbn [vec_dims].
    apply list_eq_same_length with n; [|by rewrite length_fmap_seq0|].
    { rewrite length_slice; [done|]. rewrite length_fmap_seq0. lia. }
    intros i a b Hi. rewrite lookup_fmap_seq0 by done. unfold slice at 2.
    rewrite lookup_take_lt, lookup_drop, lookup_fmap_seq0 by lia.
    intros [= <-] [= <-]. by apply slice_element.
Qed.

End SliceCorrect.

(** [vec_slice] fails exactly when the bounds are negative, out of order,
    equal, beyond the dimensions or, for a bit vector, not multiples of 8.
    Otherwise its result is again a vector of the same element type holding
    the elements [start .. end - 1]. *)
Lemma vec_slice_correct (strtod : bytes -> number f64) (v : sval) (x : vector) (start end_ : Z) :
  vector_from_value strtod v = Some x ->
  if slice_ok x start end_
  then exists r y, vec_slice strtod v start end_ = Some r /\ vector_from_value strtod r = Some y /\
         vec_type y = vec_type x /\
         vector_elements y =
           slice (Z.to_nat start) (Z.to_nat (end_ - start)) (vector_elements x)
  else vec_slice strtod v start end_ = None.
Proof.
  intros Hv. destruct (vector_from_value_wf _ _ _ Hv) as (Hd & Hlen & H8).
  unfold vec_slice. rewrite Hv. set (dims := Z.of_nat (vec_dims x)).
  destruct ((start <? 0) || (end_ <? 0) || (dims <? start) || (dims <? end_) || (end_ <? start)
            || (start =? end_)) eqn:G.
  { assert (slice_ok x start end_ = false) as ->; [|done].
    unfold slice_ok. apply andb_false_iff. left. subst dims. lia. }
  assert (R : 0 <= start /\ start < end_ /\ end_ <= dims) by lia.
  assert (B : (0 <=? start) && (start <? end_) && (end_ <=? dims) = true) by lia.
  unfold slice_ok. fold dims. rewrite B. cbn [andb].
  set (st := Z.to_nat start). set (n := Z.to_nat (end_ - start)).
  assert (Hn : (0 < n /\ st + n <= vec_dims x)%nat) by (subst st n dims; lia).
  pose proof (slice_blob_elements strtod x st n (conj Hd (conj Hlen H8)) (proj1 Hn) (proj2 Hn)) as K.
  destruct (vec_type x); cbn [vector_size] in K; unfold result_blob.
  - apply K. done.
  - destruct (Z.eqb_spec (start mod 8) 0) as [Es|]; [|done]. cbn [negb andb].
    destruct (Z.eqb_spec (end_ mod 8) 0) as [Ee|]; [|done]. cbn [negb]. apply K. intros _.
    subst st n. split; apply Nat2Z.inj; rewrite Nat2Z.inj_mod, Z2Nat.id by lia;
      change (Z.of_nat 8) with 8; [done|].
    rewrite Zminus_mod, Es, Ee. done.
  - apply K. done.
Qed.

Lemma vec_slice_correct_witness :
  exists r y, vec_slice (fun _ => NumNone) (MkSval (VBlob [1; 2; 3; 255]) 225) 1 4 = Some r /\
    vector_from_value (fun _ => NumNone) r = Some y /\
    vec_type y = SQLITE_VEC_ELEMENT_TYPE_INT8 /\ vector_elements y = [EI8 2; EI8 3; EI8 (-1)].
Proof.
  exact (vec_slice_correct (fun _ => NumNone) (MkSval (VBlob [1; 2; 3; 255]) 225) _ 1 4 eq_refl).
Defined.

(** ** Binary quantization *)

Lemma quantize_step (positive : nat -> bool) (out : bytes) (n i : nat) :
  bitmap_wf n out -> (i < n)%nat ->
  <[(i / 8)%nat := to_u8 (Z.lor (aget 0 out (i / 8))
      (Z.shiftl (if positive i then 1 else 0) (Z.of_nat (i mod 8))))]> out =
  if positive i then bitmap_set out i true else out.
Proof.
  intros [Hl Hb] Hi. destruct (positive i); [done|].
  rewrite Z.shiftl_0_l, Z.lor_0_r.
  assert (Hlt : (i / 8 < length out)%nat) by (apply Nat.Div0.div_lt_upper_bound; lia).
  pose proof (aget_lookup_lt 0 out _ Hlt) as E.
  pose proof (proj1 (Forall_lookup _ _) Hb _ _ E) as R.
  unfold to_u8, wrap_u. rewrite Z.mod_small by (unfold is_byte in R; lia). by apply list_insert_id.
Qed.

Lemma quantize_loop_bits (positive : nat -> bool) (n k i : nat) (out : bytes) :
  bitmap_wf n out -> (i + k = n)%nat -> (forall j, (i <= j < n)%nat -> bitmap_test out j = false) ->
  let out' := quantize_loop positive out i k in
  bitmap_wf n out' /\
  forall j, (j < n)%nat -> bitmap_test out' j = if (i <=? j)%nat then positive j else bitmap_test out j.
Proof.
  revert i out. induction k as [|k IH]; intros i out Hw Hik Hz; cbn [quantize_loop].
  - split; [done|]. intros j Hj. destruct (Nat.leb_spec i j); [lia|done].
  - rewrite (quantize_step positive out n i Hw) by lia.
    assert (Hset : forall j, (j < n)%nat -> bitmap_test (if positive i then bitmap_set out i true else out) j =
      if decide (j = i) then positive i else bitmap_test out j).
    { intros j Hj. pose proof (proj1 Hw) as Hl. destruct (positive i) eqn:Ep; case_decide as Ej; subst; try done.
      - apply bitmap_test_set_eq. lia.
      - apply bitmap_test_set_ne; [apply Hw|done|lia].
      - apply Hz. lia. }
    destruct (IH (S i) (if positive i then bitmap_set out i true else out)) as [Hw' Hb'].
    + destruct (positive i); [|done]. by apply bitmap_set_wf.
    + lia.
    + intros j Hj. rewrite Hset by lia. rewrite decide_False by lia. apply Hz. lia.
    + split; [done|]. intros j Hj. rewrite Hb', Hset by done.
      destruct (decide (j = i)) as [->|Hne].
      { by rewrite (proj2 (Nat.leb_gt (S i) i)), Nat.leb_refl by lia. }
      destruct (Nat.leb_spec (S i) j), (Nat.leb_spec i j); try lia; done.
Qed.

Lemma bitmap_zero_wf (n : nat) : (n mod 8 = 0)%nat -> bitmap_wf n (replicate (n / 8) 0).
Proof.
  intros H. split; [rewrite length_replicate; pose proof (Nat.div_mod_eq n 8); lia|].
  apply Forall_replicate. unfold is_byte. lia.
Qed.

Lemma bitmap_zero_test (m j : nat) : bitmap_test (replicate m 0) j = false.
Proof.
  rewrite bitmap_test_testbit. unfold aget.
  assert (default 0 (replicate m 0 !! (j / 8)%nat) = 0) as ->.
  { destruct (replicate m 0 !! (j / 8)%nat) eqn:E; [|done]. by apply lookup_replicate_1 in E as [-> _]. }
  by rewrite Z.testbit_0_l.
Qed.

(** Whether an element is positive. *)
Definition element_positive (e : element) : bool :=
  match e with EF32 x => f32_ltb f32_zero x | EI8 z => 0 <? z | EBit _ => false end.

(** [vec_quantize_binary] fails exactly on bit vectors and on lengths that
    are not multiples of 8; otherwise the result is a bit vector of the same
    dimensions whose bit [i] says whether element [i] is positive. *)
Lemma vec_quantize_binary_correct (strtod : bytes -> number f64) (v : sval) (x : vector) :
  vector_from_value strtod v = Some x ->
  if (vec_dims x mod 8 =? 0)%nat && negb (bool_decide (vec_type x = SQLITE_VEC_ELEMENT_TYPE_BIT))
  then exists r y, vec_quantize_binary strtod v = Some r /\ vector_from_value strtod r = Some y /\
         vec_type y = SQLITE_VEC_ELEMENT_TYPE_BIT /\
         vector_elements y = EBit ∘ element_positive <$> vector_elements x
  else vec_quantize_binary strtod v = None.
Proof.
  intros Hv. destruct (vector_from_value_wf _ _ _ Hv) as (Hd & _). unfold vec_quantize_binary.
  rewrite Hv. assert ((vec_dims x <=? 0)%nat = false) as -> by (apply Nat.leb_gt; lia).
  unfold CHAR_BIT. destruct (Nat.eqb_spec (vec_dims x mod 8) 0) as [E8|]; [|done]. cbn [negb andb].
  set (n := vec_dims x) in *.
  assert (K : forall positive, (forall i, positive i = element_positive (vector_element x i)) ->
    exists r y, result_blob SQLITE_VEC_ELEMENT_TYPE_BIT
        (quantize_loop positive (replicate (n / 8) 0) 0 n) = Some r /\
      vector_from_value strtod r = Some y /\ vec_type y = SQLITE_VEC_ELEMENT_TYPE_BIT /\
      vector_elements y = EBit ∘ element_positive <$> vector_elements x).
  { intros positive Hp.
    destruct (quantize_loop_bits positive n n 0 _ (bitmap_zero_wf n E8) eq_refl) as [[Hl _] Hb].
    { intros. apply bitmap_zero_test. }
    eexists _, _. split; [reflexivity|]. split.
    - apply vector_from_blob; [exact Hd| |done]. cbn [vector_size]. unfold CHAR_BIT.
      etransitivity; [symmetry; apply (Nat.div_mul _ 8); done|]. by rewrite Hl.
    - split; [done|]. unfold vector_elements. cbn [vec_dims]. rewrite <- list_fmap_compose.
      apply fmap_seq0_ext. intros i Hi. unfold vector_element at 1. cbn [vec_type vec_bytes compose].
      by rewrite Hb, Hp by done. }
  destruct (vec_type x) eqn:Et; cbn [bool_decide]; [apply K| |apply K]; [|done|];
    intros i; unfold vector_element; by rewrite Et.
Qed.

Lemma vec_quantize_binary_correct_witness :
  exists r y,
    vec_quantize_binary (fun _ => NumNone) (MkSval (VBlob [1; 255; 3; 0; 5; 6; 128; 8]) 225) = Some r /\
    vector_from_value (fun _ => NumNone) r = Some y /\
    vec_type y = SQLITE_VEC_ELEMENT_TYPE_BIT /\
    vector_elements y = EBit <$> [true; false; true; false; true; true; false; true].
Proof.
  exact (vec_quantize_binary_correct (fun _ => NumNone)
           (MkSval (VBlob [1; 255; 3; 0; 5; 6; 128; 8]) 225) _ eq_refl).
Defined.
