(* ===== verification/Scalar.v ===== *)
(** * Scalar functions on vectors (sqlite-vec.c, [vec_distance_*],
    [vec_type], [vec_quantize_int8], [vec_to_json], [vec_normalize])

    [%f] is a parameter.  Shown here: the JSON text of an [int8] vector is
    read back as the vector. *)

From Stdlib Require Import String ZArith Lia SpecFloat.
From stdpp Require Import base option list numbers.
From S2P Require Import Prelude Float32 Bitmap Distance Codec Shadow DefParser Values.

Local Open Scope Z_scope.

(** ** Decimal numbers *)

(** The digits of [n], in front of [acc]. *)
Fixpoint dec_loop (fuel : nat) (n : Z) (acc : bytes) : bytes :=
  match fuel with
  | O => acc
  | S fuel =>
      let acc := (48 + n mod 10) :: acc in
      if n <? 10 then acc else dec_loop fuel (n / 10) acc
  end.

(** A number has at most as many decimal digits as bits. *)
Definition print_dec (n : Z) : bytes := dec_loop (S (S (Z.to_nat (Z.log2 n)))) n [].

(** [%d] *)
Definition fmt_d (z : Z) : bytes := if z <? 0 then 45 :: print_dec (- z) else print_dec z.

(** ** The functions *)

Inductive sql_result :=
| RDouble (d : f64)
| RInt (z : Z)
| RText (b : bytes) (subtype : Z).

Section Scalar.
Context (strtod : bytes -> number f64) (fmt_f : f64 -> bytes).

Definition floats (x : vector) : list f32 := f32_at (vec_bytes x) <$> seq 0 (vec_dims x).
Definition int8s (x : vector) : list Z := i8_at (vec_bytes x) <$> seq 0 (vec_dims x).

(** [sqlite3_result_double] of a [float]. *)
Definition result_float (d : f32) : option sql_result := Some (RDouble (f64_of_f32 d)).

Definition vec_distance_cosine (aValue bValue : sval) : option sql_result :=
  '(a, b) ← ensure_vector_match strtod aValue bValue;
  match vec_type a with
  | SQLITE_VEC_ELEMENT_TYPE_BIT => None
  | SQLITE_VEC_ELEMENT_TYPE_FLOAT32 => result_float (distance_cosine_float (floats a) (floats b) (vec_dims a))
  | SQLITE_VEC_ELEMENT_TYPE_INT8 => result_float (distance_cosine_int8 (int8s a) (int8s b) (vec_dims a))
  end.

Definition vec_distance_l2 (aValue bValue : sval) : option sql_result :=
  '(a, b) ← ensure_vector_match strtod aValue bValue;
  match vec_type a with
  | SQLITE_VEC_ELEMENT_TYPE_BIT => None
  | SQLITE_VEC_ELEMENT_TYPE_FLOAT32 => result_float (distance_l2_sqr_float (floats a) (floats b) (vec_dims a))
  | SQLITE_VEC_ELEMENT_TYPE_INT8 => result_float (distance_l2_sqr_int8 (int8s a) (int8s b) (vec_dims a))
  end.

Definition vec_distance_l1 (aValue bValue : sval) : option sql_result :=
  '(a, b) ← ensure_vector_match strtod aValue bValue;
  match vec_type a with
  | SQLITE_VEC_ELEMENT_TYPE_BIT => None
  | SQLITE_VEC_ELEMENT_TYPE_FLOAT32 => Some (RDouble (distance_l1_f32 (floats a) (floats b) (vec_dims a)))
  | SQLITE_VEC_ELEMENT_TYPE_INT8 => Some (RInt (to_i32 (distance_l1_int8 (int8s a) (int8s b) (vec_dims a))))
  end.

Definition vec_distance_hamming (aValue bValue : sval) : option sql_result :=
  '(a, b) ← ensure_vector_match strtod aValue bValue;
  match vec_type a with
  | SQLITE_VEC_ELEMENT_TYPE_BIT => result_float (distance_hamming (vec_bytes a) (vec_bytes b) (vec_dims a))
  | SQLITE_VEC_ELEMENT_TYPE_FLOAT32 => None
  | SQLITE_VEC_ELEMENT_TYPE_INT8 => None
  end.

Definition vec_type_name (elementType : VectorElementType) : string :=
  match elementType with
  | SQLITE_VEC_ELEMENT_TYPE_FLOAT32 => "float32"
  | SQLITE_VEC_ELEMENT_TYPE_INT8 => "int8"
  | SQLITE_VEC_ELEMENT_TYPE_BIT => "bit"
  end.

(** [vec_type] *)
Definition vec_type_function (v : sval) : option string := vec_type_name ∘ vec_type <$> vector_from_value strtod v.

(** A [double] cut to an integer; NaN and infinity have no value. *)
Definition trunc_f64 (x : f64) : option Z :=
  match x with
  | S754_zero _ => Some 0
  | S754_finite s m e => Some (cond_Zopp s (Z.shiftl (Zpos m) e))
  | _ => None
  end.

(** [((x - (-1.0)) / step) - 128] cut to [int8]; outside its range the
    conversion is undefined. *)
Definition quantize_step_f32 : f32 := f32_of_f64 (f64_div (f64_of_Z 2) (f64_of_Z 255)).

Definition quantize_int8 (x : f32) : option Z :=
  z ← trunc_f64 (f64_sub (f64_div (f64_sub (f64_of_f32 x) (f64_of_Z (-1))) (f64_of_f32 quantize_step_f32)) (f64_of_Z 128));
  if (-128 <=? z) && (z <=? 127) then Some z else None.

Definition lower_byte (c : Z) : Z := if (65 <=? c) && (c <=? 90) then c + 32 else c.

Definition unit_text : bytes := [117; 110; 105; 116].

Definition vec_quantize_int8 (v arg : sval) : res sval :=
  match fvec_from_value strtod v with
  | None => Err SQLITE_ERROR
  | Some x =>
      match sv_value arg with
      | VText t =>
          if bool_decide (lower_byte <$> t = unit_text) then
            match mapM quantize_int8 (floats x) with
            | Some zs => Ok (MkSval (VBlob (i8_bytes zs)) (element_code SQLITE_VEC_ELEMENT_TYPE_INT8))
            | None => Undef
            end
          else Err SQLITE_ERROR
      | _ => Err SQLITE_ERROR
      end
  end.

Definition json_null : bytes := [110; 117; 108; 108].

Definition json_element (x : vector) (i : nat) : bytes :=
  match vec_type x with
  | SQLITE_VEC_ELEMENT_TYPE_FLOAT32 =>
      let value := f32_at (vec_bytes x) i in
      if is_nan value then json_null else fmt_f (f64_of_f32 value)
  | SQLITE_VEC_ELEMENT_TYPE_INT8 => fmt_d (i8_at (vec_bytes x) i)
  | SQLITE_VEC_ELEMENT_TYPE_BIT =>
      fmt_d (Z.land (Z.shiftr (aget 0 (vec_bytes x) (i / 8)) (Z.of_nat (i mod CHAR_BIT))) 1)
  end.

Fixpoint json_elements (x : vector) (i n : nat) : bytes :=
  match n with
  | O => []
  | S n => (if (i =? 0)%nat then [] else [44]) ++ json_element x i ++ json_elements x (S i) n
  end.

Definition vec_to_json (v : sval) : option sval :=
  x ← vector_from_value strtod v;
  Some (MkSval (VText ([91] ++ json_elements x 0 (vec_dims x) ++ [93])) JSON_SUBTYPE).

(** [norm += v[i] * v[i]], then [norm = sqrt(norm)]. *)
Definition vector_norm (l : list f32) : f32 := sqrt_f32 (foldl (fun norm v => f32_add norm (f32_mul v v)) f32_zero l).

Definition vec_normalize (v : sval) : option sval :=
  x ← vector_from_value strtod v;
  match vec_type x with
  | SQLITE_VEC_ELEMENT_TYPE_FLOAT32 =>
      let norm := vector_norm (floats x) in
      result_blob SQLITE_VEC_ELEMENT_TYPE_FLOAT32 (f32_bytes ((fun v => f32_div v norm) <$> floats x))
  | _ => None
  end.

End Scalar.

(** ** Reading printed numbers *)

Lemma dec_digits_compose (ds es : bytes) (acc : Z) :
  forallb c_isdigit ds = true -> (dec_digits acc (ds ++ es)).1 = (dec_digits (dec_digits acc ds).1 es).1.
Proof.
  revert acc. induction ds as [|c ds IH]; intros acc Hd; [done|]. cbn in *. apply andb_true_iff in Hd as [Hc Hd].
  rewrite Hc. specialize (IH (10 * acc + (c - 48)) Hd). by destruct (dec_digits _ (ds ++ es)), (dec_digits _ ds).
Qed.

Lemma digit_char (n : Z) : c_isdigit (48 + n mod 10) = true.
Proof. unfold c_isdigit. pose proof (Z.mod_pos_bound n 10 eq_refl). lia. Qed.

Lemma dec_loop_spec (fuel : nat) (n : Z) (acc : bytes) :
  0 <= n < 2 ^ Z.of_nat fuel -> exists ds, dec_loop (S fuel) n acc = ds ++ acc /\ ds <> [] /\
    forallb c_isdigit ds = true /\ (dec_digits 0 ds).1 = n.
Proof.
  revert n acc. induction fuel as [|fuel IH]; intros n acc Hn.
  - assert (n = 0) as -> by (cbn in Hn; lia). by exists [48].
  - cbn [dec_loop]. destruct (Z.ltb_spec n 10) as [Hlt|Hge].
    { exists [48 + n mod 10]. cbn [forallb]. rewrite digit_char. split; [done|]. split; [done|]. split; [done|].
      cbn [dec_digits]. rewrite digit_char. cbn. rewrite Z.mod_small by lia. lia. }
    destruct (IH (n / 10) ((48 + n mod 10) :: acc)) as (ds & E & Hne & Hd & Hv).
    { rewrite Nat2Z.inj_succ, Z.pow_succ_r in Hn by lia. split; [by apply Z.div_pos; lia|].
      apply Z.div_lt_upper_bound; lia. }
    exists (ds ++ [48 + n mod 10]). split; [cbn [dec_loop] in E; by rewrite E, <- app_assoc|].
    split; [by intros [-> _]%app_eq_nil|]. rewrite forallb_app, Hd. cbn [forallb]. rewrite digit_char. split; [done|].
    rewrite dec_digits_compose by done. rewrite Hv. cbn [dec_digits]. rewrite digit_char. cbn.
    pose proof (Z.div_mod n 10). lia.
Qed.

Lemma print_dec_spec (n : Z) :
  0 <= n -> print_dec n <> [] /\ forallb c_isdigit (print_dec n) = true /\ (dec_digits 0 (print_dec n)).1 = n.
Proof.
  intros Hn. unfold print_dec. set (k := Z.to_nat (Z.log2 n)).
  assert (Hk : 0 <= n < 2 ^ Z.of_nat (S k)).
  { split; [done|]. rewrite Nat2Z.inj_succ. unfold k. rewrite Z2Nat.id by apply Z.log2_nonneg.
    destruct (Z.eq_dec n 0) as [->|]; [done|]. apply Z.log2_spec. lia. }
  destruct (dec_loop_spec (S k) n []) as (ds & -> & Hds); [done|]. by rewrite app_nil_r.
Qed.

Definition signed (z : Z) : bool * bytes := (z <? 0, print_dec (Z.abs z)).

Lemma fmt_d_signed (z : Z) : fmt_d z = print_int (signed z).
Proof.
  unfold fmt_d, print_int, signed. cbn [fst snd]. destruct (Z.ltb_spec z 0).
  - by rewrite Z.abs_neq by lia.
  - by rewrite Z.abs_eq by lia.
Qed.

Lemma signed_value (z : Z) : int_value (signed z) = z.
Proof.
  unfold int_value, signed. cbn [fst snd]. destruct (print_dec_spec (Z.abs z)) as (_ & _ & ->); [lia|].
  destruct (Z.ltb_spec z 0); lia.
Qed.

Lemma signed_ok (z : Z) : -128 <= z <= 127 -> int_ok (signed z).
Proof.
  intros Hz. destruct (print_dec_spec (Z.abs z)) as (H1 & H2 & _); [lia|].
  split; [done|]. split; [done|]. by rewrite signed_value.
Qed.

(** ** JSON *)

Lemma i8_range (b : bytes) (i : nat) : -128 <= i8_at b i <= 127.
Proof.
  unfold i8_at, wrap_s. set (z := aget 0 b i). pose proof (Z.mod_pos_bound z (2 ^ 8) eq_refl).
  change (2 ^ 8) with 256 in *. change (2 ^ (8 - 1)) with 128. destruct (Z.ltb_spec (z mod 256) 128); lia.
Qed.

(** The items after the first: a comma and a number each. *)
Definition json_rest (x : vector) (i n : nat) : list (bytes * (bool * bytes)) :=
  (fun j => ([44], signed (i8_at (vec_bytes x) j))) <$> seq i n.

Lemma json_elements_rest (fmt_f : f64 -> bytes) (x : vector) (i n : nat) :
  vec_type x = SQLITE_VEC_ELEMENT_TYPE_INT8 -> (0 < i)%nat ->
  json_elements fmt_f x i n ++ [93] = rest_text print_int (json_rest x i n) [] [].
Proof.
  intros Ht. revert i. induction n as [|n IH]; intros i Hi; [done|]. cbn [json_elements].
  destruct (Nat.eqb_spec i 0); [lia|]. unfold json_element. rewrite Ht, fmt_d_signed, <- !app_assoc, IH by lia.
  unfold rest_text, json_rest. cbn [seq fmap list_fmap List.concat fst snd]. by rewrite <- !app_assoc.
Qed.

(** An [int8] vector survives its JSON text: [vec_to_json] of a value
    that is an [int8] vector is a text with the JSON subtype, and reading
    that text as an [int8] vector gives the same elements, for every
    dimension and every element. *)
Lemma vec_to_json_roundtrip (strtod : bytes -> number f64) (fmt_f : f64 -> bytes) (v : sval) (x : vector) :
  vector_from_value strtod v = Some x -> vec_type x = SQLITE_VEC_ELEMENT_TYPE_INT8 ->
  exists j y, vec_to_json strtod fmt_f v = Some j /\ sv_subtype j = JSON_SUBTYPE /\
    int8_vec_from_value j = Some y /\ vec_type y = SQLITE_VEC_ELEMENT_TYPE_INT8 /\ vector_elements y = vector_elements x.
Proof.
  intros Hv Ht. destruct (vector_from_value_wf strtod v x Hv) as [Hd _].
  destruct (vec_dims x) as [|n] eqn:En; [lia|]. set (z := i8_at (vec_bytes x)).
  destruct (int8_json_roundtrip [] (signed (z 0%nat)) (json_rest x 1 n) [] [] JSON_SUBTYPE) as (y & E & Hty & He).
  - done.
  - apply signed_ok, i8_range.
  - apply Forall_fmap, Forall_forall. intros j _. split; [done|]. split; [done|]. apply signed_ok, i8_range.
  - done.
  - exists (MkSval (VText ([91] ++ json_elements fmt_f x 0 (S n) ++ [93])) JSON_SUBTYPE), y.
    split; [unfold vec_to_json; rewrite Hv; cbn; by rewrite En|]. split; [done|]. split; [|split; [done|]].
    + rewrite <- E. do 3 f_equal. cbn [app json_elements]. change (0 =? 0)%nat with true. cbv iota. f_equal.
      cbn [app]. rewrite <- app_assoc, json_elements_rest by (done || lia). f_equal.
      unfold json_element. by rewrite Ht, fmt_d_signed.
    + rewrite He. unfold vector_elements. rewrite En. cbn [seq fmap list_fmap]. unfold vector_element at 1. rewrite Ht.
      rewrite signed_value. f_equal. unfold json_rest. rewrite <- !list_fmap_compose. apply list_fmap_ext.
      intros i j _. cbn. rewrite signed_value. unfold vector_element. by rewrite Ht.
Qed.

Lemma vec_to_json_roundtrip_witness :
  exists j y, vec_to_json (fun _ => NumNone) (fun _ => []) (MkSval (VBlob [128; 7]) 225) = Some j /\
    sv_value j = VText [91; 45; 49; 50; 56; 44; 55; 93] /\ int8_vec_from_value j = Some y /\
    vector_elements y = [EI8 (-128); EI8 7].
Proof.
  destruct (vec_to_json_roundtrip (fun _ => NumNone) (fun _ => []) (MkSval (VBlob [128; 7]) 225)
    (MkVector SQLITE_VEC_ELEMENT_TYPE_INT8 2 [128; 7]) eq_refl eq_refl) as (j & y & E & _ & Hy & _ & He).
  exists j, y. split; [exact E|]. vm_compute in E. injection E as <-. split; [reflexivity|]. split; [exact Hy|].
  rewrite He. vm_compute. reflexivity.
Defined.

(** The ends of the range of [vec_quantize_int8], and a value beyond it.  The
    step is rounded up to a [float], so 1.0 falls short of the last code. *)
Lemma quantize_int8_ends :
  quantize_int8 (f32_of_Z (-1)) = Some (-128) /\ quantize_int8 (f32_of_Z 1) = Some 126 /\
  quantize_int8 (f32_of_Z 2) = None.
Proof. vm_compute. repeat split. Qed.
