(* ===== verification/Each.v ===== *)
(** * The table functions [vec_each] and [vec_npy_each] (sqlite-vec.c,
    [vec_each*], [npy_token_next] to [vec_npy_eachColumn])

    [vec_each] yields the elements of a vector, [vec_npy_each] the rows of a
    NumPy array, given as a BLOB or read from a file in pieces of 1024 rows.
    Memory behind a pointer is the list of bytes up to the end of the
    allocation; reading past it is [Undef].  The parser of the header is
    given a pointer and a length, and looks beyond the length in places. *)

From Stdlib Require Import String ZArith Lia.
From stdpp Require Import base option list numbers.
From S2P Require Import Prelude Float32 Bitmap Distance Codec Shadow DefParser Values Scalar.

Local Open Scope Z_scope.
Local Open Scope query_scope.

(** ** [vec_each] *)

Record vec_each_cursor := MkEach { ec_iRowid : Z; ec_vector : option vector }.

Definition vec_eachOpen : vec_each_cursor := MkEach 0 None.

Definition vec_eachFilter (strtod : bytes -> number f64) (v : sval) (cur : vec_each_cursor)
    : res unit * vec_each_cursor :=
  match vector_from_value strtod v with
  | Some x => (Ok tt, MkEach 0 (Some x))
  | None => (Err SQLITE_ERROR, MkEach (ec_iRowid cur) None)
  end.

Definition vec_eachRowid (cur : vec_each_cursor) : Z := ec_iRowid cur.

Definition each_dimensions (cur : vec_each_cursor) : Z :=
  match ec_vector cur with Some x => Z.of_nat (vec_dims x) | None => 0 end.

Definition vec_eachEof (cur : vec_each_cursor) : bool := each_dimensions cur <=? ec_iRowid cur.

Definition vec_eachNext (cur : vec_each_cursor) : vec_each_cursor := MkEach (ec_iRowid cur + 1) (ec_vector cur).

(** Column 0; bits are taken from the highest of a byte down. *)
Definition vec_eachColumn (cur : vec_each_cursor) : res sql_result :=
  match ec_vector cur with
  | None => Undef
  | Some x =>
      let i := Z.to_nat (ec_iRowid cur) in
      match vec_type x with
      | SQLITE_VEC_ELEMENT_TYPE_FLOAT32 => Ok (RDouble (f64_of_f32 (f32_at (vec_bytes x) i)))
      | SQLITE_VEC_ELEMENT_TYPE_BIT =>
          let b := aget 0 (vec_bytes x) (i / CHAR_BIT) in
          Ok (RInt (if 0 <? Z.land b (Z.shiftr 128 (Z.of_nat (i mod CHAR_BIT))) then 1 else 0))
      | SQLITE_VEC_ELEMENT_TYPE_INT8 => Ok (RInt (i8_at (vec_bytes x) i))
      end
  end.

(** ** Tokens of a NumPy header *)

Inductive NpyTokenType :=
| NPY_TOKEN_TYPE_NUMBER
| NPY_TOKEN_TYPE_LPAREN
| NPY_TOKEN_TYPE_RPAREN
| NPY_TOKEN_TYPE_LBRACE
| NPY_TOKEN_TYPE_RBRACE
| NPY_TOKEN_TYPE_COLON
| NPY_TOKEN_TYPE_COMMA
| NPY_TOKEN_TYPE_STRING
| NPY_TOKEN_TYPE_FALSE.

#[global] Instance NpyTokenType_eq_dec : EqDecision NpyTokenType.
Proof. solve_decision. Defined.

(** The memory from the start of the token on. *)
Record NpyToken := MkNpy { npy_type : NpyTokenType; npy_start : bytes }.

(** The memory from [ptr] on, and the bytes before [end]. *)
Record NpyScanner := MkNpyScanner { ns_mem : bytes; ns_len : nat }.

(** [strncmp(mem, lit, strlen(lit)) == 0]; [None]: past the allocation. *)
Fixpoint prefix_is (mem lit : bytes) : option bool :=
  match lit with
  | [] => Some true
  | c :: lit =>
      match mem with
      | [] => None
      | x :: mem => if x =? c then prefix_is mem lit else Some false
      end
  end.

(** The bytes of [mem] before the first one that fails [p], [n] at most. *)
Fixpoint count_while (p : Z -> bool) (n : nat) (mem : bytes) : nat :=
  match n, mem with
  | S n, c :: mem => if p c then S (count_while p n mem) else 0
  | _, _ => 0
  end.

Definition npy_punct (c : Z) : option NpyTokenType :=
  if c =? 40 then Some NPY_TOKEN_TYPE_LPAREN
  else if c =? 41 then Some NPY_TOKEN_TYPE_RPAREN
  else if c =? 123 then Some NPY_TOKEN_TYPE_LBRACE
  else if c =? 125 then Some NPY_TOKEN_TYPE_RBRACE
  else if c =? 58 then Some NPY_TOKEN_TYPE_COLON
  else if c =? 44 then Some NPY_TOKEN_TYPE_COMMA
  else None.

(** [Ok None]: [VEC0_TOKEN_RESULT_ERROR]. *)
Fixpoint npy_token_next (mem : bytes) (len : nat) : res (option (NpyToken * NpyScanner)) :=
  match len with
  | O => Ok None
  | S len' =>
      match mem with
      | [] => Undef
      | curr :: mem' =>
          if vecJsonIsspace curr then npy_token_next mem' len'
          else
            match npy_punct curr with
            | Some ty => Ok (Some (MkNpy ty mem, MkNpyScanner mem' len'))
            | None =>
                if curr =? 39 then
                  let k := count_while (fun c => negb (c =? 39)) len' mem' in
                  match drop k mem' with
                  | [] => Undef
                  | c :: rest =>
                      if c =? 39 then Ok (Some (MkNpy NPY_TOKEN_TYPE_STRING mem, MkNpyScanner rest (len' - k - 1)))
                      else Ok None
                  end
                else if curr =? 70 then
                  match prefix_is mem (bstr "False") with
                  | None => Undef
                  | Some true => Ok (Some (MkNpy NPY_TOKEN_TYPE_FALSE mem, MkNpyScanner (drop 5 mem) (len - 5)))
                  | Some false => Ok None
                  end
                else if c_isdigit curr then
                  let k := count_while c_isdigit len mem in
                  Ok (Some (MkNpy NPY_TOKEN_TYPE_NUMBER mem, MkNpyScanner (drop k mem) (len - k)))
                else Ok None
            end
      end
  end.

Definition npy_scanner_next (s : NpyScanner) : res (option (NpyToken * NpyScanner)) :=
  npy_token_next (ns_mem s) (ns_len s).

(** ** The header *)

(** [rc = next; if (rc != SOME || type != ty) return SQLITE_ERROR;] *)
Definition npy_expect (ty : NpyTokenType) (s : NpyScanner) : res (NpyToken * NpyScanner) :=
  r <-? npy_scanner_next s;
  match r with
  | Some (t, s') => if decide (npy_type t = ty) then Ok (t, s') else Err SQLITE_ERROR
  | None => Err SQLITE_ERROR
  end.

Definition key_eq (t : NpyToken) (lit : string) : res bool :=
  match prefix_is (npy_start t) (bstr lit) with Some b => Ok b | None => Undef end.

(** [strtol] of a token of digits; the digits may go on past the token. *)
Definition npy_number (t : NpyToken) : res Z :=
  let '(v, n) := dec_digits 0 (npy_start t) in
  if (length (npy_start t) <=? n)%nat then Undef else Ok (Z.min v (2 ^ 63 - 1)).

(** The outputs written so far. *)
Record npy_header := MkHeader {
  nh_element_type : option VectorElementType;
  nh_shape : option (Z * Z)                  (* numElements, numDimensions *)
}.

Definition npy_shape (s : NpyScanner) : res ((Z * Z) * NpyScanner) :=
  '(_, s) <-? npy_expect NPY_TOKEN_TYPE_LPAREN s;
  '(t, s) <-? npy_expect NPY_TOKEN_TYPE_NUMBER s;
  first <-? npy_number t;
  '(_, s) <-? npy_expect NPY_TOKEN_TYPE_COMMA s;
  r <-? npy_scanner_next s;
  match r with
  | None => Err SQLITE_ERROR
  | Some (t, s) =>
      match npy_type t with
      | NPY_TOKEN_TYPE_NUMBER =>
          numDimensions <-? npy_number t;
          '(_, s) <-? npy_expect NPY_TOKEN_TYPE_RPAREN s;
          Ok ((first, numDimensions), s)
      | NPY_TOKEN_TYPE_RPAREN => Ok ((if first =? 0 then 0 else 1, first), s)
      | _ => Err SQLITE_ERROR
      end
  end.

(** The value of a key. *)
Definition npy_value (key : NpyToken) (h : npy_header) (s : NpyScanner) : res (npy_header * NpyScanner) :=
  is_descr <-? key_eq key "'descr'";
  if is_descr : bool then
    '(t, s) <-? npy_expect NPY_TOKEN_TYPE_STRING s;
    ok <-? key_eq t "'<f4'";
    if ok : bool then Ok (MkHeader (Some SQLITE_VEC_ELEMENT_TYPE_FLOAT32) (nh_shape h), s) else Err SQLITE_ERROR
  else
    is_order <-? key_eq key "'fortran_order'";
    if is_order : bool then
      '(_, s) <-? npy_expect NPY_TOKEN_TYPE_FALSE s;
      Ok (h, s)
    else
      is_shape <-? key_eq key "'shape'";
      if is_shape : bool then
        '(shape, s) <-? npy_shape s;
        Ok (MkHeader (nh_element_type h) (Some shape), s)
      else Err SQLITE_ERROR.

(** The [while (1)] loop.  A round that goes on has consumed a token, so the
    length bounds the rounds. *)
Fixpoint npy_loop (fuel : nat) (h : npy_header) (s : NpyScanner) : res npy_header :=
  match fuel with
  | O => Undef
  | S fuel =>
      r <-? npy_scanner_next s;
      match r with
      | None => Err SQLITE_ERROR
      | Some (key, s) =>
          match npy_type key with
          | NPY_TOKEN_TYPE_RBRACE => Ok h
          | NPY_TOKEN_TYPE_STRING =>
              '(_, s) <-? npy_expect NPY_TOKEN_TYPE_COLON s;
              '(h, s) <-? npy_value key h s;
              '(_, s) <-? npy_expect NPY_TOKEN_TYPE_COMMA s;
              npy_loop fuel h s
          | _ => Err SQLITE_ERROR
          end
      end
  end.

(** The first token can be any; if there is none, an uninitialised token is
    read. *)
Definition parse_npy_header (mem : bytes) (len : nat) : res npy_header :=
  r <-? npy_scanner_next (MkNpyScanner mem len);
  match r with
  | None => Undef
  | Some (_, s) => npy_loop (S len) (MkHeader None None) s
  end.

(** ** Arrays in memory and in files *)

Definition NPY_MAGIC : bytes := 147 :: bstr "NUMPY".

(** [size_t] products. *)
Definition npy_byte_size (numDimensions : Z) : Z := wrap_u 64 (numDimensions * 4).

Definition npy_expected_size (numElements numDimensions : Z) : Z :=
  to_i32 (wrap_u 64 (numElements * npy_byte_size numDimensions)).

(** Outputs the header did not set are uninitialised. *)
Definition header_shape (h : npy_header) : res (Z * Z) :=
  match nh_element_type h, nh_shape h with
  | Some _, Some shape => Ok shape
  | _, _ => Undef
  end.

Definition npy_header_length (buffer : bytes) : nat := Z.to_nat (aget 0 buffer 8 + 256 * aget 0 buffer 9).

(** The data, [numElements], [numDimensions]. *)
Definition parse_npy_buffer (buffer : bytes) : res (bytes * Z * Z) :=
  if (length buffer <? 10)%nat then Err SQLITE_ERROR
  else if negb (bool_decide (take 6 buffer = NPY_MAGIC)) then Err SQLITE_ERROR
  else
    let headerLength := npy_header_length buffer in
    let totalHeaderLength := (10 + headerLength)%nat in
    let dataSize := Z.of_nat (length buffer) - Z.of_nat totalHeaderLength in
    if dataSize <? 0 then Err SQLITE_ERROR
    else
      h <-? parse_npy_header (drop 10 buffer) headerLength;
      '(numElements, numDimensions) <-? header_shape h;
      if negb (npy_expected_size numElements numDimensions =? dataSize) then Err SQLITE_ERROR
      else Ok (drop totalHeaderLength buffer, numElements, numDimensions).

(** Bytes read, complete items, the rest of the file. *)
Definition fread (size nmemb : nat) (file : bytes) : bytes * nat * bytes :=
  if (size =? 0)%nat then ([], 0%nat, file)
  else (take (size * nmemb) file, min nmemb (length file / size), drop (size * nmemb) file).

Inductive npy_input :=
| InputBuffer (vector : bytes)
| InputFile (file chunksBuffer : bytes) (currentChunkIndex currentChunkSize : nat) (eof : bool).

Record vec_npy_each_cursor := MkNpyCursor {
  nc_iRowid : Z;
  nc_nElements : Z;
  nc_nDimensions : Z;
  nc_input : npy_input
}.

Definition maxChunks : nat := 1024.

(** The header is in memory of its own. *)
Definition parse_npy_file (file : bytes) : res vec_npy_each_cursor :=
  if (length file <? 10)%nat then Err SQLITE_ERROR
  else if negb (bool_decide (take 6 file = NPY_MAGIC)) then Err SQLITE_ERROR
  else
    let headerLength := npy_header_length file in
    let totalHeaderLength := (10 + headerLength)%nat in
    let dataSize := to_i32 (Z.of_nat (length file) - Z.of_nat totalHeaderLength) in
    if dataSize <? 0 then Err SQLITE_ERROR
    else
      let headerX := take headerLength (drop 10 file) in
      if negb (length headerX =? headerLength)%nat then Err SQLITE_ERROR
      else
        h <-? parse_npy_header headerX headerLength;
        '(numElements, numDimensions) <-? header_shape h;
        if negb (npy_expected_size numElements numDimensions =? dataSize) then Err SQLITE_ERROR
        else
          let '(chunksBuffer, currentChunkSize, rest) :=
            fread (Z.to_nat (npy_byte_size numDimensions)) maxChunks (drop totalHeaderLength file) in
          Ok (MkNpyCursor 0 numElements numDimensions
                (InputFile rest chunksBuffer 0 currentChunkSize (currentChunkSize =? 0)%nat)).

(** The argument: a BLOB, or a pointer to the name of a file that was opened. *)
Inductive npy_argument := NpyBlob (b : bytes) | NpyFile (contents : bytes).

Definition vec_npy_eachFilter (arg : npy_argument) : res vec_npy_each_cursor :=
  match arg with
  | NpyFile contents => parse_npy_file contents
  | NpyBlob b =>
      '(data, numElements, numDimensions) <-? parse_npy_buffer b;
      Ok (MkNpyCursor 0 numElements numDimensions (InputBuffer data))
  end.

Definition vec_npy_eachEof (cur : vec_npy_each_cursor) : bool :=
  match nc_input cur with
  | InputBuffer _ => (nc_nElements cur =? 0) || (nc_nElements cur <=? nc_iRowid cur)
  | InputFile _ _ _ _ eof => eof
  end.

Definition vec_npy_eachNext (cur : vec_npy_each_cursor) : vec_npy_each_cursor :=
  let iRowid := nc_iRowid cur + 1 in
  let input :=
    match nc_input cur with
    | InputBuffer v => InputBuffer v
    | InputFile file buffer index size eof =>
        if (size <=? S index)%nat then
          let '(buffer', size', file') := fread (Z.to_nat (npy_byte_size (nc_nDimensions cur))) maxChunks file in
          InputFile file' buffer' 0 size' (if (size' =? 0)%nat then true else eof)
        else InputFile file buffer (S index) size eof
    end in
  MkNpyCursor iRowid (nc_nElements cur) (nc_nDimensions cur) input.

(** [sqlite3_result_blob(&data\[index * nDimensions * 4\], nDimensions * 4)] *)
Definition npy_row (data : bytes) (index nDimensions : Z) : res bytes :=
  let off := wrap_u 64 (index * nDimensions * 4) in
  let n := to_i32 (npy_byte_size nDimensions) in
  if (n <? 0) || (Z.of_nat (length data) <? off + n) then Undef else Ok (slice (Z.to_nat off) (Z.to_nat n) data).

Definition vec_npy_eachColumn (cur : vec_npy_each_cursor) : res bytes :=
  match nc_input cur with
  | InputBuffer v => npy_row v (nc_iRowid cur) (nc_nDimensions cur)
  | InputFile _ buffer index _ _ => npy_row buffer (Z.of_nat index) (nc_nDimensions cur)
  end.

(** The rows a query reads, within [fuel] rounds of the loop. *)
Fixpoint npy_drive (fuel : nat) (cur : vec_npy_each_cursor) : option (list (res bytes)) :=
  if vec_npy_eachEof cur then Some []
  else match fuel with
       | O => None
       | S fuel => cons (vec_npy_eachColumn cur) <$> npy_drive fuel (vec_npy_eachNext cur)
       end.

(** ** [vec_each] yields the elements *)

(** The elements a query reads. *)
Fixpoint each_drive (fuel : nat) (cur : vec_each_cursor) : option (list (Z * res sql_result)) :=
  if vec_eachEof cur then Some []
  else match fuel with
       | O => None
       | S fuel => cons (vec_eachRowid cur, vec_eachColumn cur) <$> each_drive fuel (vec_eachNext cur)
       end.

(** An element as SQL shows it.  Bit [i] is bit [7 - i mod 8] of its byte,
    not bit [i mod 8] as in the rest of the code. *)
Definition each_value (x : vector) (i : nat) : sql_result :=
  match vec_type x with
  | SQLITE_VEC_ELEMENT_TYPE_FLOAT32 => RDouble (f64_of_f32 (f32_at (vec_bytes x) i))
  | SQLITE_VEC_ELEMENT_TYPE_INT8 => RInt (i8_at (vec_bytes x) i)
  | SQLITE_VEC_ELEMENT_TYPE_BIT => RInt (if bitmap_test (vec_bytes x) (i / 8 * 8 + (7 - i mod 8)) then 1 else 0)
  end.

Lemma shiftr_128 (k : nat) : (k < 8)%nat -> Z.shiftr 128 (Z.of_nat k) = 2 ^ Z.of_nat (7 - k).
Proof. intros Hk. do 8 (destruct k as [|k]; [done|]). lia. Qed.

Lemma land_pow2_pos (b : Z) (k : nat) : (0 <? Z.land b (2 ^ Z.of_nat k)) = Z.testbit b (Z.of_nat k).
Proof.
  assert (E : Z.land b (2 ^ Z.of_nat k) = if Z.testbit b (Z.of_nat k) then 2 ^ Z.of_nat k else 0).
  { apply Z.bits_inj'. intros j Hj. rewrite Z.land_spec, Z.pow2_bits_eqb by lia.
    destruct (Z.eqb_spec (Z.of_nat k) j) as [<-|Hne].
    - rewrite andb_true_r. destruct (Z.testbit b (Z.of_nat k)); [by rewrite Z.pow2_bits_true by lia|by rewrite Z.bits_0].
    - rewrite andb_false_r. destruct (Z.testbit b (Z.of_nat k)); [by rewrite Z.pow2_bits_false|by rewrite Z.bits_0]. }
  rewrite E. pose proof (Z.pow_pos_nonneg 2 (Z.of_nat k)). destruct (Z.testbit b (Z.of_nat k)); lia.
Qed.

Lemma vec_eachColumn_value (x : vector) (i : nat) :
  vec_eachColumn (MkEach (Z.of_nat i) (Some x)) = Ok (each_value x i).
Proof.
  unfold vec_eachColumn, each_value. cbn [ec_vector ec_iRowid]. rewrite Nat2Z.id. destruct (vec_type x); [done| |done].
  assert (Hk : (i mod 8 < 8)%nat) by (apply Nat.mod_upper_bound; lia).
  change CHAR_BIT with 8%nat. rewrite shiftr_128, land_pow2_pos, bitmap_test_testbit by done.
  rewrite (Nat.div_add_l (i / 8) 8), (Nat.div_small (7 - _) 8), Nat.add_0_r by lia.
  by rewrite Nat.add_comm, Nat.Div0.mod_add, (Nat.mod_small (7 - _)) by lia.
Qed.

Lemma each_drive_from (x : vector) (k i : nat) :
  (i + k = vec_dims x)%nat ->
  each_drive k (MkEach (Z.of_nat i) (Some x)) = Some ((fun j => (Z.of_nat j, Ok (each_value x j))) <$> seq i k).
Proof.
  revert i. induction k as [|k IH]; intros i Hi; cbn [each_drive]; unfold vec_eachEof, each_dimensions; cbn [ec_vector ec_iRowid].
  - by rewrite (proj2 (Z.leb_le _ _)) by lia.
  - rewrite (proj2 (Z.leb_gt _ _)) by lia. rewrite vec_eachColumn_value. unfold vec_eachNext. cbn [ec_iRowid ec_vector].
    replace (Z.of_nat i + 1) with (Z.of_nat (S i)) by lia. by rewrite IH by lia.
Qed.

(** [vec_each] yields every element of a vector once, in order, with its
    index as the row id, and then ends: driving a cursor from [xFilter] on
    takes as many rounds as the vector has dimensions.  A bit comes out as
    bit [7 - i mod 8] of byte [i / 8].  A value that is no vector is an
    error, and leaves the cursor at its end. *)
Lemma vec_each_correct (strtod : bytes -> number f64) (v : sval) (cur : vec_each_cursor) :
  match vector_from_value strtod v with
  | Some x =>
      (vec_eachFilter strtod v cur).1 = Ok tt /\
      each_drive (vec_dims x) (vec_eachFilter strtod v cur).2 =
        Some ((fun i => (Z.of_nat i, Ok (each_value x i))) <$> seq 0 (vec_dims x))
  | None =>
      (vec_eachFilter strtod v cur).1 = Err SQLITE_ERROR /\
      (0 <= ec_iRowid cur -> vec_eachEof (vec_eachFilter strtod v cur).2 = true)
  end.
Proof.
  unfold vec_eachFilter. destruct (vector_from_value strtod v) as [x|]; cbn [fst snd].
  - split; [done|]. by apply (each_drive_from x (vec_dims x) 0).
  - split; [done|]. intros Hr. unfold vec_eachEof, each_dimensions. cbn. lia.
Qed.

Lemma vec_each_correct_witness :
  each_drive 8 (vec_eachFilter (fun _ => NumNone) (MkSval (VBlob [5]) 224) vec_eachOpen).2 =
  Some ((fun p : Z * Z => (p.1, Ok (RInt p.2))) <$>
          [(0, 0); (1, 0); (2, 0); (3, 0); (4, 0); (5, 1); (6, 0); (7, 1)]).
Proof. exact (proj2 (vec_each_correct (fun _ => NumNone) (MkSval (VBlob [5]) 224) vec_eachOpen)). Defined.

(** ** The rows of an array *)

(** The first [k] rows of [sz] bytes. *)
Fixpoint rows (sz k : nat) (data : bytes) : list bytes :=
  match k with
  | O => []
  | S k => take sz data :: rows sz k (drop sz data)
  end.

Lemma rows_lookup (sz k i : nat) (data : bytes) : (i < k)%nat -> rows sz k data !! i = Some (slice (i * sz) sz data).
Proof.
  revert i data. induction k as [|k IH]; intros i data Hi; [lia|]. destruct i as [|i]; [done|]. cbn [rows lookup list_lookup].
  rewrite (IH i) by lia. unfold slice. by rewrite drop_drop.
Qed.

(** A cursor with [k] rows of [sz] bytes left, the bytes of [data]. *)
Definition npy_left (sz k : nat) (data : bytes) (cur : vec_npy_each_cursor) : Prop :=
  nc_nDimensions cur * 4 = Z.of_nat sz /\ length data = (k * sz)%nat /\
  match nc_input cur with
  | InputBuffer v =>
      exists i, nc_iRowid cur = Z.of_nat i /\ nc_nElements cur = Z.of_nat (i + k) /\
        data = drop (i * sz) v /\ length v = ((i + k) * sz)%nat /\ Z.of_nat ((i + k) * sz) < 2 ^ 31
  | InputFile file buffer index size eof =>
      if eof then k = 0%nat
      else (0 < sz)%nat /\ (index < size)%nat /\ data = drop (index * sz) buffer ++ file /\
           length buffer = (size * sz)%nat /\ Z.of_nat (size * sz) < 2 ^ 31 /\ Z.of_nat (k * sz) < 2 ^ 31
  end.

Lemma npy_row_slice (data : bytes) (i sz : nat) (d : Z) :
  d * 4 = Z.of_nat sz -> (i * sz + sz <= length data)%nat -> Z.of_nat (length data) < 2 ^ 31 ->
  npy_row data (Z.of_nat i) d = Ok (slice (i * sz) sz data).
Proof.
  intros Hd Hl Hb. unfold npy_row, npy_byte_size. rewrite <- Z.mul_assoc, Hd, <- Nat2Z.inj_mul.
  unfold wrap_u. rewrite !Z.mod_small by lia. unfold to_i32. rewrite wrap_s_id by lia.
  rewrite (proj2 (Z.ltb_ge (Z.of_nat sz) 0)), (proj2 (Z.ltb_ge (Z.of_nat (length data)) _)) by lia.
  by rewrite !Nat2Z.id.
Qed.

Lemma npy_left_eof (sz k : nat) (data : bytes) (cur : vec_npy_each_cursor) :
  npy_left sz k data cur -> vec_npy_eachEof cur = (k =? 0)%nat.
Proof.
  unfold npy_left, vec_npy_eachEof. intros (Hd & Hl & H). destruct (nc_input cur) as [v|file buffer index size eof].
  - destruct H as (i & -> & -> & _). destruct (Nat.eqb_spec k 0) as [->|Hk].
    + rewrite Nat.add_0_r, Z.leb_refl. apply orb_true_r.
    + by rewrite (proj2 (Z.eqb_neq _ _)), (proj2 (Z.leb_gt _ _)) by lia.
  - destruct eof; [by subst|]. destruct H as (Hsz & Hi & -> & Hb & _). symmetry. apply Nat.eqb_neq. intros ->.
    rewrite length_app, length_drop in Hl. nia.
Qed.

Lemma npy_left_column (sz k : nat) (data : bytes) (cur : vec_npy_each_cursor) :
  npy_left sz (S k) data cur -> vec_npy_eachColumn cur = Ok (take sz data).
Proof.
  unfold npy_left, vec_npy_eachColumn. intros (Hd & Hl & H).
  destruct (nc_input cur) as [v|file buffer index size eof].
  - destruct H as (i & -> & _ & -> & Hv & Hb). apply npy_row_slice; [done| |lia]. rewrite Hv, Nat.mul_add_distr_r. lia.
  - destruct eof; [done|]. destruct H as (Hsz & Hi & -> & Hbl & Hb & _).
    rewrite (npy_row_slice buffer index sz) by (done || nia). unfold slice. f_equal.
    rewrite take_app_le; [done|]. rewrite length_drop. nia.
Qed.

Lemma npy_left_next (sz k : nat) (data : bytes) (cur : vec_npy_each_cursor) :
  npy_left sz (S k) data cur -> npy_left sz k (drop sz data) (vec_npy_eachNext cur).
Proof.
  unfold npy_left, vec_npy_eachNext. intros (Hd & Hl & H). cbn [nc_nDimensions nc_input nc_iRowid nc_nElements].
  split; [done|]. split; [rewrite length_drop; lia|].
  destruct (nc_input cur) as [v|file buffer index size eof].
  - destruct H as (i & -> & -> & -> & Hv & Hb). exists (S i). rewrite drop_drop.
    split; [lia|]. split; [lia|]. split; [f_equal; lia|]. split; [lia|]. by replace (S i + k)%nat with (i + S k)%nat by lia.
  - destruct eof; [done|]. destruct H as (Hsz & Hi & -> & Hbl & Hb & Hk).
    rewrite length_app, length_drop in Hl.
    destruct (Nat.leb_spec size (S index)) as [Hlast|Hmore].
    + assert (size = S index) as -> by lia. unfold npy_byte_size, wrap_u. rewrite Hd, Z.mod_small, Nat2Z.id by lia.
      unfold fread. destruct (Nat.eqb_spec sz 0) as [|_]; [lia|].
      assert (Hf : length file = (k * sz)%nat) by lia. rewrite Hf, Nat.div_mul by lia.
      assert (Hdrop : drop sz (drop (index * sz) buffer ++ file) = file).
      { rewrite drop_app_ge by (rewrite length_drop; lia). rewrite length_drop, Hbl.
        by replace (sz - (S index * sz - index * sz))%nat with 0%nat by lia. }
      destruct (Nat.eqb_spec (min maxChunks k) 0) as [E|E]; [unfold maxChunks in E; lia|].
      split; [done|]. split; [lia|]. rewrite Hdrop. split; [cbn [Nat.mul]; by rewrite drop_0, take_drop|].
      rewrite length_take, Hf. split; [rewrite (Nat.mul_comm sz); by rewrite Nat.mul_min_distr_r|]. split; [nia|lia].
    + split; [done|]. split; [done|]. split; [|split; [done|split; [done|nia]]].
      rewrite drop_app_le by (rewrite length_drop; nia). rewrite drop_drop. do 2 f_equal. lia.
Qed.

Lemma npy_drive_rows (sz k : nat) (data : bytes) (cur : vec_npy_each_cursor) :
  npy_left sz k data cur -> npy_drive k cur = Some (Ok <$> rows sz k data).
Proof.
  revert data cur. induction k as [|k IH]; intros data cur H; cbn [npy_drive]; rewrite (npy_left_eof _ _ _ _ H); [done|].
  cbn [Nat.eqb rows fmap list_fmap]. rewrite (npy_left_column _ _ _ _ H). by rewrite (IH _ _ (npy_left_next _ _ _ _ H)).
Qed.

Lemma res_bind_ok {A B : Type} (m : res A) (f : A -> res B) (y : B) :
  res_bind m f = Ok y -> exists x, m = Ok x /\ f x = Ok y.
Proof. destruct m; [eauto|done..]. Qed.

(** The steps of a computation that succeeded. *)
Ltac invert_binds :=
  repeat match goal with
  | H : res_bind _ _ = Ok _ |- _ => apply res_bind_ok in H as ([] & ? & H) || apply res_bind_ok in H as (? & ? & H)
  | H : (match ?x with _ => _ end) = Ok _ |- _ => destruct x eqn:?
  | H : (if ?x then _ else _) = Ok _ |- _ => destruct x eqn:?
  | H : Ok _ = Ok _ |- _ => injection H as ?; subst
  | H : Err _ = Ok _ |- _ => discriminate H
  | H : Undef = Ok _ |- _ => discriminate H
  end.

Lemma dec_digits_nonneg (s : bytes) (acc : Z) : 0 <= acc -> 0 <= (dec_digits acc s).1.
Proof.
  revert acc. induction s as [|c s IH]; intros acc Ha; [done|]. cbn [dec_digits]. destruct (c_isdigit c) eqn:Hc; [|done].
  unfold c_isdigit in Hc. specialize (IH (10 * acc + (c - 48))). destruct (dec_digits _ s). cbn in *. lia.
Qed.

Lemma npy_number_nonneg (t : NpyToken) (z : Z) : npy_number t = Ok z -> 0 <= z.
Proof.
  unfold npy_number. pose proof (dec_digits_nonneg (npy_start t) 0) as Hn. destruct (dec_digits 0 (npy_start t)) as [v n].
  cbn [fst] in Hn. intros H. invert_binds. lia.
Qed.

(** A shape that was read has no negative number. *)
Definition shape_ok (h : npy_header) : Prop := forall n d, nh_shape h = Some (n, d) -> 0 <= n /\ 0 <= d.

Lemma npy_shape_nonneg (s s' : NpyScanner) (n d : Z) : npy_shape s = Ok ((n, d), s') -> 0 <= n /\ 0 <= d.
Proof.
  unfold npy_shape. intros H. invert_binds; repeat match goal with
    | H : npy_number _ = Ok _ |- _ => apply npy_number_nonneg in H end; simplify_eq; try lia.
Qed.

Lemma npy_value_shape (key : NpyToken) (h h' : npy_header) (s s' : NpyScanner) :
  shape_ok h -> npy_value key h s = Ok (h', s') -> shape_ok h'.
Proof.
  unfold npy_value, shape_ok. intros Hh H. invert_binds; simplify_eq; cbn [nh_shape]; try done.
  intros n d [= ->]. eapply npy_shape_nonneg. eassumption.
Qed.

Lemma npy_loop_shape (fuel : nat) (h h' : npy_header) (s : NpyScanner) :
  shape_ok h -> npy_loop fuel h s = Ok h' -> shape_ok h'.
Proof.
  revert h s. induction fuel as [|fuel IH]; intros h s Hh H; [done|]. cbn [npy_loop] in H. invert_binds; [done|].
  eapply IH; [|eassumption]. eapply npy_value_shape; eassumption.
Qed.

Lemma parse_npy_header_shape (mem : bytes) (len : nat) (h : npy_header) (n d : Z) :
  parse_npy_header mem len = Ok h -> header_shape h = Ok (n, d) -> 0 <= n /\ 0 <= d.
Proof.
  unfold parse_npy_header, header_shape. intros H Hs. invert_binds. simplify_eq.
  eapply npy_loop_shape; [|eassumption|eassumption]. done.
Qed.

(** The contents of an argument, and its data. *)
Definition npy_contents (arg : npy_argument) : bytes := match arg with NpyBlob b => b | NpyFile c => c end.
Definition npy_data (arg : npy_argument) : bytes := drop (10 + npy_header_length (npy_contents arg)) (npy_contents arg).

(** The shape agrees with the data when the product is an [int]. *)
Lemma npy_expected_exact (n d : Z) (len : Z) :
  0 <= n -> 0 <= d -> n * d * 4 < 2 ^ 31 -> npy_expected_size n d = len -> len = n * (d * 4).
Proof.
  intros Hn Hd Hb <-. unfold npy_expected_size, npy_byte_size. unfold wrap_u.
  rewrite Z.mul_mod_idemp_r, Z.mod_small by nia. unfold to_i32. rewrite wrap_s_id; nia.
Qed.

Lemma fread_left (sz n : nat) (d : Z) (data : bytes) :
  d * 4 = Z.of_nat sz -> (0 < sz)%nat -> Z.of_nat (n * sz) < 2 ^ 31 -> length data = (n * sz)%nat ->
  let '(buffer, size, rest) := fread (Z.to_nat (npy_byte_size d)) maxChunks data in
  npy_left sz n data (MkNpyCursor 0 (Z.of_nat n) d (InputFile rest buffer 0 size (size =? 0)%nat)).
Proof.
  intros Hd Hsz Hb Hl. unfold fread, npy_left, npy_byte_size, maxChunks. rewrite Hd. cbn [nc_nDimensions nc_input].
  destruct n as [|n].
  - destruct data; [|done]. destruct (Nat.eqb_spec (Z.to_nat (wrap_u 64 (Z.of_nat sz))) 0) as [E|E]; [done|].
    cbn [length]. by rewrite Nat.Div0.div_0_l, Nat.min_0_r.
  - unfold wrap_u. rewrite Z.mod_small, Nat2Z.id by nia. destruct (Nat.eqb_spec sz 0) as [|_]; [lia|].
    rewrite Hl, Nat.div_mul by lia. destruct (Nat.eqb_spec (min 1024 (S n)) 0) as [|_]; [lia|].
    split; [done|]. split; [done|]. split; [done|]. split; [lia|]. cbn [Nat.mul]. rewrite drop_0, take_drop. split; [done|].
    rewrite length_take, Hl. split; [by rewrite (Nat.mul_comm sz), Nat.mul_min_distr_r|]. split; [nia|done].
Qed.

Lemma npy_data_size (c : bytes) :
  bytes_ok c -> Z.of_nat (length c) < 2 ^ 31 ->
  to_i32 (Z.of_nat (length c) - Z.of_nat (10 + npy_header_length c)) =
    Z.of_nat (length c) - Z.of_nat (10 + npy_header_length c).
Proof.
  intros Hok Hl. unfold npy_header_length, to_i32.
  pose proof (bytes_ok_aget c 8 Hok) as H8. pose proof (bytes_ok_aget c 9 Hok) as H9. unfold is_byte in *.
  rewrite wrap_s_id; lia.
Qed.

(** What an accepted header says of the data. *)
Lemma npy_accepted (mem contents : bytes) (len : nat) (h : npy_header) (n d : Z) :
  parse_npy_header mem len = Ok h -> header_shape h = Ok (n, d) -> 0 < d -> n * d * 4 < 2 ^ 31 ->
  npy_expected_size n d = Z.of_nat (length contents) - Z.of_nat (10 + npy_header_length contents) ->
  exists k sz, n = Z.of_nat k /\ d * 4 = Z.of_nat sz /\ (0 < sz)%nat /\ Z.of_nat (k * sz) < 2 ^ 31 /\
    length (drop (10 + npy_header_length contents) contents) = (k * sz)%nat.
Proof.
  intros Hh Hs Hd Hb He. destruct (parse_npy_header_shape _ _ _ _ _ Hh Hs) as [Hn _].
  apply npy_expected_exact in He; [|lia..]. exists (Z.to_nat n), (Z.to_nat (d * 4)).
  split; [lia|]. split; [lia|]. split; [lia|]. split; [nia|]. rewrite length_drop. nia.
Qed.

Lemma npy_filter_left (arg : npy_argument) (cur : vec_npy_each_cursor) :
  vec_npy_eachFilter arg = Ok cur -> bytes_ok (npy_contents arg) -> Z.of_nat (length (npy_contents arg)) < 2 ^ 31 ->
  nc_nElements cur * nc_nDimensions cur * 4 < 2 ^ 31 -> 0 < nc_nDimensions cur ->
  npy_left (Z.to_nat (nc_nDimensions cur * 4)) (Z.to_nat (nc_nElements cur)) (npy_data arg) cur.
Proof.
  unfold npy_data. destruct arg as [b|c]; cbn [vec_npy_eachFilter npy_contents].
  - unfold parse_npy_buffer. intros H Hok Hlen Hb Hd. invert_binds. cbn [nc_nDimensions nc_nElements] in *.
    destruct (npy_accepted (drop 10 b) b _ _ z0 z ltac:(eassumption) ltac:(eassumption) Hd Hb)
      as (k & sz & -> & Hsz & Hpos & Hk & Hl); [by apply Z.eqb_eq, negb_false_iff|].
    rewrite Hsz, !Nat2Z.id. split; [done|]. split; [done|]. exists 0%nat. by repeat split.
  - unfold parse_npy_file. intros H Hok Hlen Hb Hd. invert_binds. cbn [nc_nDimensions nc_nElements] in *.
    rewrite npy_data_size in * by done.
    destruct (npy_accepted (take (npy_header_length c) (drop 10 c)) c _ _ _ _ ltac:(eassumption) ltac:(eassumption) Hd Hb)
      as (k & sz & -> & Hsz & Hpos & Hk & Hl); [by apply Z.eqb_eq, negb_false_iff|].
    rewrite Hsz, !Nat2Z.id. pose proof (fread_left sz k _ _ Hsz Hpos Hk Hl) as Hf.
    match goal with E : fread _ _ _ = _ |- _ => by rewrite E in Hf end.
Qed.

Lemma npy_filter_nonneg (arg : npy_argument) (cur : vec_npy_each_cursor) :
  vec_npy_eachFilter arg = Ok cur -> 0 <= nc_nElements cur.
Proof.
  destruct arg as [b|c]; unfold vec_npy_eachFilter, parse_npy_buffer, parse_npy_file; intros H; invert_binds;
    eapply proj1, parse_npy_header_shape; eassumption.
Qed.

(** The rows of an array that [vec_npy_each] accepts, given as a BLOB or
    as a file, are the consecutive pieces of [nDimensions] floats of the data
    behind the header: a query reads exactly [nElements] rows, each of them
    inside the buffer it is read from, the pieces of 1024 rows of a file
    joined without gap.  The contents, and the size the header gives, must
    fit an [int]. *)
Lemma npy_rows_correct (arg : npy_argument) (cur : vec_npy_each_cursor) :
  vec_npy_eachFilter arg = Ok cur -> bytes_ok (npy_contents arg) -> Z.of_nat (length (npy_contents arg)) < 2 ^ 31 ->
  nc_nElements cur * nc_nDimensions cur * 4 < 2 ^ 31 -> 0 < nc_nDimensions cur ->
  exists n sz, nc_nElements cur = Z.of_nat n /\ nc_nDimensions cur * 4 = Z.of_nat sz /\
    npy_drive n cur = Some (Ok <$> rows sz n (npy_data arg)) /\ length (npy_data arg) = (n * sz)%nat.
Proof.
  intros H Hok Hlen Hb Hd. pose proof (npy_filter_left _ _ H Hok Hlen Hb Hd) as Hleft.
  exists (Z.to_nat (nc_nElements cur)), (Z.to_nat (nc_nDimensions cur * 4)).
  split; [symmetry; apply Z2Nat.id; eapply npy_filter_nonneg; eassumption|]. split; [lia|].
  split; [by apply npy_drive_rows|]. apply Hleft.
Qed.

(** ** Arrays as NumPy writes them *)

Definition npy_header_text (n d : Z) (pad : bytes) : bytes :=
  bstr "{'descr': '<f4', 'fortran_order': False, 'shape': (" ++ print_dec n ++ bstr ", " ++ print_dec d ++
  bstr "), }" ++ pad.

(** Version 1.0: the length of the header in two bytes. *)
Definition npy_file (n d : Z) (pad data : bytes) : bytes :=
  let header := npy_header_text n d pad in
  let len := Z.of_nat (length header) in
  NPY_MAGIC ++ [1; 0; len mod 256; len / 256] ++ header ++ data.

Definition no_digit (rest : bytes) : Prop := match rest with c :: _ => c_isdigit c = false | [] => False end.

Lemma count_while_digits (ds rest : bytes) (n : nat) :
  forallb c_isdigit ds = true -> no_digit rest -> count_while c_isdigit (length ds + n) (ds ++ rest) = length ds.
Proof.
  intros Hd Hr. induction ds as [|c ds IH].
  - destruct rest as [|c rest]; [done|]. cbn [no_digit] in Hr. destruct n; [done|]. cbn [length Nat.add app count_while]. by rewrite Hr.
  - cbn [forallb] in Hd. apply andb_true_iff in Hd as [Hc Hd]. cbn [length Nat.add app count_while]. by rewrite Hc, (IH Hd).
Qed.

(** A digit starts no other token. *)
Lemma digit_start (c : Z) :
  c_isdigit c = true -> vecJsonIsspace c = false /\ npy_punct c = None /\ (c =? 39) = false /\ (c =? 70) = false.
Proof.
  unfold c_isdigit, vecJsonIsspace, npy_punct. intros Hc. apply andb_true_iff in Hc as [H1 H2].
  assert (Hn : forall k, k < 48 \/ 57 < k -> (c =? k) = false) by (intros k Hk; apply Z.eqb_neq; lia).
  rewrite !Hn by lia. done.
Qed.

Lemma npy_token_number (ds rest : bytes) (n : nat) :
  ds <> [] -> forallb c_isdigit ds = true -> no_digit rest ->
  npy_token_next (ds ++ rest) (length ds + n) =
    Ok (Some (MkNpy NPY_TOKEN_TYPE_NUMBER (ds ++ rest), MkNpyScanner rest n)).
Proof.
  intros Hne Hd Hr. pose proof (count_while_digits ds rest n Hd Hr) as Hc. destruct ds as [|c ds]; [done|].
  cbn [forallb] in Hd. apply andb_true_iff in Hd as [Hdc _]. destruct (digit_start c Hdc) as (H1 & H2 & H3 & H4).
  cbn [length Nat.add app npy_token_next] in *. rewrite H1, H2, H3, H4, Hdc, Hc. do 4 f_equal.
  - change (c :: ds ++ rest) with ((c :: ds) ++ rest). apply (drop_app_length (c :: ds) rest).
  - lia.
Qed.

Lemma npy_number_printed (n : Z) (rest : bytes) (ty : NpyTokenType) :
  0 <= n < 2 ^ 63 -> no_digit rest -> npy_number (MkNpy ty (print_dec n ++ rest)) = Ok n.
Proof.
  intros Hn Hr. destruct (print_dec_spec n) as (Hne & Hd & Hv); [lia|]. unfold npy_number. cbn [npy_start].
  rewrite dec_digits_app; [|done|by destruct rest]. rewrite Hv, length_app. destruct rest as [|c rest]; [done|]. cbn [length].
  rewrite (proj2 (Nat.leb_gt _ _)) by lia. f_equal. lia.
Qed.

Lemma npy_expect_number (n : Z) (rest : bytes) (k : nat) :
  0 <= n -> no_digit rest ->
  npy_expect NPY_TOKEN_TYPE_NUMBER (MkNpyScanner (print_dec n ++ rest) (length (print_dec n) + k)) =
    Ok (MkNpy NPY_TOKEN_TYPE_NUMBER (print_dec n ++ rest), MkNpyScanner rest k).
Proof.
  intros Hn Hr. destruct (print_dec_spec n Hn) as (Hne & Hd & _). unfold npy_expect, npy_scanner_next. cbn [ns_mem ns_len].
  by rewrite npy_token_number.
Qed.

(** The literals of a goal as bytes. *)
Ltac literals :=
  repeat match goal with
  | |- context [bstr ?s] => let t := eval vm_compute in (bstr s) in change (bstr s) with t
  end; cbn [app].

(** The shape, up to its closing parenthesis. *)
Lemma npy_shape_printed (n d : Z) (rest : bytes) (k : nat) :
  0 <= n < 2 ^ 63 -> 0 <= d < 2 ^ 63 ->
  npy_shape (MkNpyScanner (bstr " (" ++ print_dec n ++ bstr ", " ++ print_dec d ++ bstr ")" ++ rest)
               (2 + (length (print_dec n) + (2 + (length (print_dec d) + (1 + k)))))) =
    Ok ((n, d), MkNpyScanner rest k).
Proof.
  intros Hn Hd. literals. cbn [Nat.add]. set (rest2 := print_dec d ++ 41 :: rest). set (k2 := (length (print_dec d) + S k)%nat).
  assert (H1 : npy_expect NPY_TOKEN_TYPE_LPAREN
                 (MkNpyScanner (32 :: 40 :: print_dec n ++ 44 :: 32 :: rest2) (S (S (length (print_dec n) + S (S k2))))) =
               Ok (MkNpy NPY_TOKEN_TYPE_LPAREN (40 :: print_dec n ++ 44 :: 32 :: rest2),
                   MkNpyScanner (print_dec n ++ 44 :: 32 :: rest2) (length (print_dec n) + S (S k2)))) by reflexivity.
  assert (H2 : npy_expect NPY_TOKEN_TYPE_COMMA (MkNpyScanner (44 :: 32 :: rest2) (S (S k2))) =
               Ok (MkNpy NPY_TOKEN_TYPE_COMMA (44 :: 32 :: rest2), MkNpyScanner (32 :: rest2) (S k2))) by reflexivity.
  assert (H3 : npy_scanner_next (MkNpyScanner (32 :: rest2) (S k2)) =
               Ok (Some (MkNpy NPY_TOKEN_TYPE_NUMBER rest2, MkNpyScanner (41 :: rest) (S k)))).
  { destruct (print_dec_spec d) as (Hne & Hd1 & _); [lia|]. exact (npy_token_number (print_dec d) (41 :: rest) (S k) Hne Hd1 eq_refl). }
  unfold npy_shape. rewrite H1. cbn [res_bind]. rewrite npy_expect_number by (done || lia). cbn [res_bind].
  rewrite npy_number_printed by done. cbn [res_bind]. rewrite H2. cbn [res_bind]. rewrite H3. cbn [res_bind npy_type].
  unfold rest2. rewrite npy_number_printed by done. reflexivity.
Qed.

(** One round of the loop. *)
Lemma npy_loop_key (fuel : nat) (h h' : npy_header) (s s1 s2 s3 s4 : NpyScanner) (key t t' : NpyToken) :
  npy_scanner_next s = Ok (Some (key, s1)) -> npy_type key = NPY_TOKEN_TYPE_STRING ->
  npy_expect NPY_TOKEN_TYPE_COLON s1 = Ok (t, s2) -> npy_value key h s2 = Ok (h', s3) ->
  npy_expect NPY_TOKEN_TYPE_COMMA s3 = Ok (t', s4) -> npy_loop (S fuel) h s = npy_loop fuel h' s4.
Proof.
  intros H1 H2 H3 H4 H5. cbn [npy_loop]. rewrite H1. cbn [res_bind]. rewrite H2, H3. cbn [res_bind]. rewrite H4. cbn [res_bind]. by rewrite H5.
Qed.

Lemma npy_value_of_shape (key : NpyToken) (h : npy_header) (s s' : NpyScanner) (shape : Z * Z) :
  key_eq key "'descr'" = Ok false -> key_eq key "'fortran_order'" = Ok false -> key_eq key "'shape'" = Ok true ->
  npy_shape s = Ok (shape, s') -> npy_value key h s = Ok (MkHeader (nh_element_type h) (Some shape), s').
Proof. intros H1 H2 H3 H4. unfold npy_value. rewrite H1, H2, H3. cbn [res_bind]. by rewrite H4. Qed.

Lemma res_bind_step {A B : Type} (m : res A) (f : A -> res B) (x : A) : m = Ok x -> res_bind m f = f x.
Proof. by intros ->. Qed.

(** The header is read to its closing brace, whatever the memory behind it
    holds. *)
Lemma npy_header_printed (n d : Z) (pad extra : bytes) :
  0 <= n < 2 ^ 63 -> 0 <= d < 2 ^ 63 ->
  parse_npy_header (npy_header_text n d pad ++ extra) (length (npy_header_text n d pad)) =
    Ok (MkHeader (Some SQLITE_VEC_ELEMENT_TYPE_FLOAT32) (Some (n, d))).
Proof.
  intros Hn Hd. set (k := S (S (S (length pad)))).
  pose proof (npy_shape_printed n d (bstr ", }" ++ pad ++ extra) k Hn Hd) as Hs.
  set (mem := bstr " (" ++ print_dec n ++ _) in Hs. set (len := (2 + _)%nat) in Hs.
  assert (Hmem : npy_header_text n d pad ++ extra =
    bstr "{'descr': '<f4', 'fortran_order': False, 'shape':" ++ mem).
  { unfold npy_header_text, mem. literals. repeat (rewrite <- !app_assoc || cbn [app]). done. }
  assert (Hlen : length (npy_header_text n d pad) =
    (length (bstr "{'descr': '<f4', 'fortran_order': False, 'shape':") + len)%nat).
  { unfold npy_header_text, len, k. literals. repeat (rewrite length_app || cbn [length]). lia. }
  rewrite Hmem, Hlen. clear Hmem Hlen. revert Hs. clearbody mem len. intros Hs. literals. cbn [length Nat.add].
  unfold parse_npy_header. etransitivity; [apply res_bind_step; reflexivity|]. cbn beta iota.
  etransitivity; [eapply npy_loop_key; reflexivity|].
  etransitivity; [eapply npy_loop_key; reflexivity|].
  etransitivity; [eapply npy_loop_key; [reflexivity..| |]|].
  - eapply npy_value_of_shape; [reflexivity..|exact Hs].
  - reflexivity.
  - reflexivity.
Qed.

Section Written.
Context (n d : nat) (pad data : bytes).
Let header := npy_header_text (Z.of_nat n) (Z.of_nat d) pad.
Let file := npy_file (Z.of_nat n) (Z.of_nat d) pad data.
Hypothesis d_pos : (0 < d)%nat.
Hypothesis d_fits : Z.of_nat (d * 4) < 2 ^ 31.
Hypothesis data_size : length data = (n * (d * 4))%nat.
Hypothesis header_size : (Z.of_nat (length header) < 65536).
Hypothesis file_size : Z.of_nat (length file) < 2 ^ 31.

Lemma file_header_length : npy_header_length file = length header.
Proof.
  change (npy_header_length file) with
    (Z.to_nat (Z.of_nat (length header) mod 256 + 256 * (Z.of_nat (length header) / 256))).
  rewrite Z.add_comm, <- Z.div_mod by done. apply Nat2Z.id.
Qed.

Lemma file_drop_10 : drop 10 file = header ++ data.
Proof. reflexivity. Qed.

Lemma file_length : length file = (10 + length header + length data)%nat.
Proof. change (length file) with (10 + length (header ++ data))%nat. rewrite length_app. lia. Qed.

Lemma file_drop : drop (10 + length header) file = data.
Proof. rewrite <- drop_drop, file_drop_10. apply drop_app_length. Qed.

Lemma file_expected : npy_expected_size (Z.of_nat n) (Z.of_nat d) = Z.of_nat (length data).
Proof.
  pose proof file_length. unfold npy_expected_size, npy_byte_size, wrap_u. rewrite Z.mul_mod_idemp_r, Z.mod_small by lia.
  unfold to_i32. rewrite wrap_s_id; lia.
Qed.

Lemma file_data_size : Z.of_nat (length file) - Z.of_nat (10 + length header) = Z.of_nat (length data).
Proof. rewrite file_length. lia. Qed.

Lemma file_as_blob :
  vec_npy_eachFilter (NpyBlob file) = Ok (MkNpyCursor 0 (Z.of_nat n) (Z.of_nat d) (InputBuffer data)).
Proof.
  pose proof file_length. cbn [vec_npy_eachFilter]. unfold parse_npy_buffer.
  rewrite (proj2 (Nat.ltb_ge _ _)) by lia. rewrite bool_decide_eq_true_2 by reflexivity. cbn [negb].
  rewrite file_header_length, file_data_size, (proj2 (Z.ltb_ge _ _)) by lia.
  rewrite file_drop_10. unfold header at 1 3. rewrite npy_header_printed by lia.
  cbn [res_bind header_shape nh_element_type nh_shape]. rewrite file_expected, Z.eqb_refl. cbn [negb res_bind].
  do 3 f_equal. exact file_drop.
Qed.

Lemma file_as_file :
  vec_npy_eachFilter (NpyFile file) =
    let '(buffer, size, rest) := fread (Z.to_nat (npy_byte_size (Z.of_nat d))) maxChunks data in
    Ok (MkNpyCursor 0 (Z.of_nat n) (Z.of_nat d) (InputFile rest buffer 0 size (size =? 0)%nat)).
Proof.
  pose proof file_length. cbn [vec_npy_eachFilter]. unfold parse_npy_file.
  rewrite (proj2 (Nat.ltb_ge _ _)) by lia. rewrite bool_decide_eq_true_2 by reflexivity. cbn [negb].
  rewrite file_header_length, file_data_size. unfold to_i32. rewrite wrap_s_id, (proj2 (Z.ltb_ge _ _)) by lia.
  rewrite file_drop_10, take_app_length, Nat.eqb_refl. cbn [negb].
  pose proof (npy_header_printed (Z.of_nat n) (Z.of_nat d) pad []) as Hh. rewrite app_nil_r in Hh. unfold header at 1 2.
  rewrite Hh by lia. cbn [res_bind header_shape nh_element_type nh_shape].
  rewrite file_expected, Z.eqb_refl. cbn [negb]. by rewrite file_drop.
Qed.

End Written.

(** An array written the way NumPy writes one, the header
    [{'descr': '<f4', 'fortran_order': False, 'shape': (n, d), }] with any
    padding and the [n * d] floats behind it, is read back: as a BLOB and as
    a file alike, [vec_npy_each] accepts it and yields its [n] rows in
    order, then ends. *)
Lemma npy_roundtrip (n d : nat) (pad data : bytes) (arg : npy_argument) :
  (0 < d)%nat -> Z.of_nat (d * 4) < 2 ^ 31 -> length data = (n * (d * 4))%nat ->
  Z.of_nat (length (npy_header_text (Z.of_nat n) (Z.of_nat d) pad)) < 65536 ->
  Z.of_nat (length (npy_file (Z.of_nat n) (Z.of_nat d) pad data)) < 2 ^ 31 ->
  npy_contents arg = npy_file (Z.of_nat n) (Z.of_nat d) pad data ->
  exists cur, vec_npy_eachFilter arg = Ok cur /\ npy_drive n cur = Some (Ok <$> rows (d * 4) n data).
Proof.
  intros Hd Hd' Hl Hh Hf Ha. pose proof (file_length n d pad data) as Hlen.
  destruct arg as [b|c]; cbn [npy_contents] in Ha; subst.
  - eexists. split; [by apply file_as_blob|]. apply npy_drive_rows. split; [cbn; lia|]. split; [done|].
    exists 0%nat. split; [done|]. split; [done|]. split; [done|]. split; [done|]. cbn [Nat.add]. lia.
  - rewrite (file_as_file n d pad data) by done.
    pose proof (fread_left (d * 4) n (Z.of_nat d) data ltac:(lia) ltac:(lia) ltac:(lia) Hl) as Hr.
    destruct (fread _ _ _) as [[buffer size] rest]. eexists. split; [done|]. by apply npy_drive_rows.
Qed.

Lemma npy_roundtrip_witness :
  exists cur, vec_npy_eachFilter (NpyFile (npy_file 2 1 [10] [0; 0; 128; 63; 0; 0; 0; 64])) = Ok cur /\
    npy_drive 2 cur = Some [Ok [0; 0; 128; 63]; Ok [0; 0; 0; 64]].
Proof.
  exact (npy_roundtrip 2 1 [10] [0; 0; 128; 63; 0; 0; 0; 64] (NpyFile (npy_file 2 1 [10] [0; 0; 128; 63; 0; 0; 0; 64]))
    ltac:(lia) ltac:(reflexivity) eq_refl ltac:(reflexivity) ltac:(reflexivity) eq_refl).
Defined.

Lemma npy_rows_correct_witness :
  exists cur n sz, vec_npy_eachFilter (NpyBlob (npy_file 2 1 [] [0; 0; 128; 63; 0; 0; 0; 64])) = Ok cur /\
    nc_nElements cur = Z.of_nat n /\ nc_nDimensions cur * 4 = Z.of_nat sz /\
    npy_drive n cur = Some (Ok <$> rows sz n [0; 0; 128; 63; 0; 0; 0; 64]).
Proof.
  set (b := npy_file 2 1 [] [0; 0; 128; 63; 0; 0; 0; 64]).
  set (cur := MkNpyCursor 0 2 1 (InputBuffer [0; 0; 128; 63; 0; 0; 0; 64])).
  destruct (npy_rows_correct (NpyBlob b) cur) as (n & sz & Hn & Hsz & Hr & _).
  1: vm_compute; reflexivity.
  1: change (Forall (fun c => 0 <= c < 256) b); by_compute.
  1,2,3: reflexivity.
  exists cur, n, sz. split; [vm_compute; reflexivity|]. auto.
Defined.

(** The size a shape asks for is cut to an [int]: a shape of 2^30 rows of
    one float passes with no data behind it, and its first row is read past
    the end. *)
Lemma npy_size_overflow :
  exists cur, vec_npy_eachFilter (NpyBlob (npy_file (2 ^ 30) 1 [] [])) = Ok cur /\ vec_npy_eachColumn cur = Undef.
Proof. eexists. split; [vm_compute; reflexivity|]. reflexivity. Qed.

(** Without dimensions, a BLOB yields its empty rows and a file none. *)
Lemma npy_no_dimensions :
  (exists cur, vec_npy_eachFilter (NpyBlob (npy_file 2 0 [] [])) = Ok cur /\ npy_drive 2 cur = Some [Ok []; Ok []]) /\
  (exists cur, vec_npy_eachFilter (NpyFile (npy_file 2 0 [] [])) = Ok cur /\ npy_drive 2 cur = Some []).
Proof. split; (eexists; split; [vm_compute; reflexivity|reflexivity]). Qed.
