(* ===== verification/Storage.v ===== *)
(** * Chunk storage (sqlite-vec.c, [vec0_get_chunk_position] to
    [vec0_new_chunk], [vec0Update_Insert] to [vec0Update])

    A [vec0] table keeps its rows in chunks of [chunk_size] slots.  The row
    of the [_rowids] table gives a row's chunk and slot, the chunk has a
    validity bit and a rowid for each slot, every vector and metadata column
    has one blob per chunk with a cell for each slot, and auxiliary values are
    in a table of their own.  The handlers are translated as programs over
    these shadow tables; the vector index is reached through an interface. *)

From stdpp Require Import base option list numbers gmap.
From Stdlib Require Import ZArith Lia Ascii.
From S2P Require Import Prelude Float32 Bitmap Codec Shadow DefParser Metadata Values.

Local Open Scope Z_scope.

(** ** The index as its clients call it

    [None] is undefined behaviour, the integer the result code. *)
Class IndexOps (I : Type) := {
  ix_insert : I -> list f32 -> Z -> option (Z * I);
  ix_delete : I -> Z -> option (Z * I);
  ix_update : I -> Z -> list f32 -> option (Z * I);
  ix_dim : I -> nat
}.

(** ** Schema and state *)

Inductive vec0_user_column_kind :=
| USER_COLUMN_VECTOR
| USER_COLUMN_PARTITION
| USER_COLUMN_AUXILIARY
| USER_COLUMN_METADATA.

#[global] Instance vec0_user_column_kind_eq_dec : EqDecision vec0_user_column_kind.
Proof. solve_decision. Defined.

Record vec0_vtab := MkVtab {
  vt_pkIsText : bool;
  vt_chunk_size : nat;
  vt_user_columns : list (vec0_user_column_kind * nat);    (* kind, index in its kind *)
  vt_vector_columns : list VectorColumnDefinition;
  vt_partition_types : list Z;
  vt_auxiliary_types : list Z;
  vt_metadata_kinds : list vec0_metadata_column_kind;
  vt_index_column : chars                                  (* indexMeta->indexColumnName *)
}.

(** A row of [_rowids]; the position is NULL until the vectors are stored. *)
Record rowid_row := MkRow { rr_id : value; rr_position : option (Z * nat) }.

Record chunk_row := MkChunk {
  ck_size : nat;
  ck_partition : list value;
  ck_validity : bytes;
  ck_rowids : bytes
}.

(** The vector and metadata chunk tables declare [rowid PRIMARY KEY] without
    INTEGER: blobs are opened by the internal rowid SQLite assigns, the
    largest one plus one.  The declared column is written with the
    AUTOINCREMENT chunk id, which is always new, and never read. *)
Record db (I : Type) := MkDb {
  db_vtab : vec0_vtab;
  db_rowids : gmap Z rowid_row;
  db_rowids_seq : Z;                     (* AUTOINCREMENT: the largest rowid so far *)
  db_chunks : gmap Z chunk_row;
  db_chunks_seq : Z;
  db_vectors : list blob_table;
  db_auxiliary : gmap Z (list value);
  db_metadata : list metadata_store;
  db_index : option I                    (* hasIndex *)
}.
Arguments MkDb {I}.
Arguments db_vtab {I} d.
Arguments db_rowids {I} d.
Arguments db_rowids_seq {I} d.
Arguments db_chunks {I} d.
Arguments db_chunks_seq {I} d.
Arguments db_vectors {I} d.
Arguments db_auxiliary {I} d.
Arguments db_metadata {I} d.
Arguments db_index {I} d.

Section Setters.
Context {I : Type}.

Definition set_vtab (p : vec0_vtab) (s : db I) : db I :=
  MkDb p (db_rowids s) (db_rowids_seq s) (db_chunks s) (db_chunks_seq s) (db_vectors s)
    (db_auxiliary s) (db_metadata s) (db_index s).
Definition set_rowids (t : gmap Z rowid_row) (seq : Z) (s : db I) : db I :=
  MkDb (db_vtab s) t seq (db_chunks s) (db_chunks_seq s) (db_vectors s)
    (db_auxiliary s) (db_metadata s) (db_index s).
Definition set_chunks (t : gmap Z chunk_row) (seq : Z) (s : db I) : db I :=
  MkDb (db_vtab s) (db_rowids s) (db_rowids_seq s) t seq (db_vectors s)
    (db_auxiliary s) (db_metadata s) (db_index s).
Definition set_vectors (t : list blob_table) (s : db I) : db I :=
  MkDb (db_vtab s) (db_rowids s) (db_rowids_seq s) (db_chunks s) (db_chunks_seq s) t
    (db_auxiliary s) (db_metadata s) (db_index s).
Definition set_auxiliary (t : gmap Z (list value)) (s : db I) : db I :=
  MkDb (db_vtab s) (db_rowids s) (db_rowids_seq s) (db_chunks s) (db_chunks_seq s) (db_vectors s)
    t (db_metadata s) (db_index s).
Definition set_metadata (t : list metadata_store) (s : db I) : db I :=
  MkDb (db_vtab s) (db_rowids s) (db_rowids_seq s) (db_chunks s) (db_chunks_seq s) (db_vectors s)
    (db_auxiliary s) t (db_index s).
Definition set_index (i : option I) (s : db I) : db I :=
  MkDb (db_vtab s) (db_rowids s) (db_rowids_seq s) (db_chunks s) (db_chunks_seq s) (db_vectors s)
    (db_auxiliary s) (db_metadata s) i.

(** A program on one metadata column; there is none beyond the last. *)
Definition on_metadata {A : Type} (idx : nat) (m : M metadata_store A) : M (db I) A :=
  fun s => match db_metadata s !! idx with
           | Some t => let '(r, t') := m t in (r, set_metadata (<[idx := t']> (db_metadata s)) s)
           | None => (Undef, s)
           end.

End Setters.

(** The user columns of a kind: position among the user columns and index. *)
Definition user_columns_of (k : vec0_user_column_kind) (p : vec0_vtab) : list (nat * nat) :=
  omap (fun c : nat * (vec0_user_column_kind * nat) =>
          if decide (c.2.1 = k) then Some (c.1, c.2.2) else None)
    (imap (fun i c => (i, c)) (vt_user_columns p)).

(** [vector_columns[i]] and its byte size. *)
Definition no_column : VectorColumnDefinition :=
  MkVectorColumn [] 0 SQLITE_VEC_ELEMENT_TYPE_FLOAT32 VEC0_DISTANCE_METRIC_L2.
Definition vector_column (p : vec0_vtab) (i : nat) : VectorColumnDefinition :=
  aget no_column (vt_vector_columns p) i.
Definition column_size (p : vec0_vtab) (i : nat) : nat :=
  Z.to_nat (vector_column_byte_size (vector_column p i)).

(** ** Reading *)

Section Reading.
Context {I : Type}.

(** A NULL position reads as 0. *)
Definition vec0_get_chunk_position (rowid : Z) (s : db I) : res (value * Z * nat) :=
  match db_rowids s !! rowid with
  | None => Err SQLITE_EMPTY
  | Some r =>
      let '(chunk_id, chunk_offset) := default (0, 0%nat) (rr_position r) in
      Ok (rr_id r, chunk_id, chunk_offset)
  end.

Definition SQLITE_ROW : Z := 100.

(** The row whose id is [valueId]: [SELECT rowid ... WHERE id = ?], after the
    affinity of the column has been applied to the operand. *)
Definition rowid_with_id (valueId : value) (s : db I) : res Z :=
  match filter (fun r : Z * rowid_row => sql_eq (rr_id r.2) valueId = true)
          (map_to_list (db_rowids s)) with
  | [] => Err SQLITE_EMPTY
  | [r] => Ok r.1
  | _ => Err SQLITE_ROW
  end.

Definition vec0_result_id (rowid : Z) (s : db I) : res value :=
  if negb (vt_pkIsText (db_vtab s)) then Ok (VInt rowid)
  else match vec0_get_chunk_position rowid s with
       | Ok (id, _, _) => Ok id
       | Err rc => Err rc
       | Undef => Undef
       end.

Definition vec0_get_vector_data (rowid : Z) (vector_column_idx : nat) (s : db I) : res bytes :=
  match vec0_get_chunk_position rowid s with
  | Ok (_, chunk_id, chunk_offset) =>
      match aget ∅ (db_vectors s) vector_column_idx !! chunk_id with
      | None => Err SQLITE_ERROR
      | Some vectorBlob =>
          let size := column_size (db_vtab s) vector_column_idx in
          match blob_read vectorBlob size (chunk_offset * size) with
          | Some buf => Ok buf
          | None => Err SQLITE_ERROR
          end
      end
  | Err rc => Err rc
  | Undef => Undef
  end.

Definition vec0_get_partition_value_for_rowid (rowid : Z) (partition_idx : nat) (s : db I) : res value :=
  match vec0_get_chunk_position rowid s with
  | Ok (_, chunk_id, _) =>
      match db_chunks s !! chunk_id with
      | Some c => Ok (aget VNull (ck_partition c) partition_idx)
      | None => Err SQLITE_ERROR
      end
  | Err rc => Err rc
  | Undef => Undef
  end.

Definition vec0_get_auxiliary_value_for_rowid (rowid : Z) (auxiliary_idx : nat) (s : db I) : res value :=
  match db_auxiliary s !! rowid with
  | Some values => Ok (aget VNull values auxiliary_idx)
  | None => Err SQLITE_ERROR
  end.

Definition vec0_result_metadata_value_for_rowid (rowid : Z) (metadata_idx : nat) (s : db I) : res value :=
  match vec0_get_chunk_position rowid s with
  | Ok (_, chunk_id, chunk_offset) =>
      vec0_result_metadata_value
        (aget METADATA_KIND_BOOLEAN (vt_metadata_kinds (db_vtab s)) metadata_idx)
        rowid chunk_id chunk_offset (aget (MkMetadata ∅ ∅) (db_metadata s) metadata_idx)
  | Err rc => Err rc
  | Undef => Undef
  end.

End Reading.

(** ** Inserting *)

(** A query in a program. *)
Definition mquery {S A : Type} (f : S -> res A) : M S A := fun s => (f s, s).

Definition I64_MAX : Z := 2 ^ 63 - 1.

(** The first [0] in a byte from bit [j], and in the bitmap. *)
Fixpoint free_bit (b : Z) (j k : nat) : option nat :=
  match k with
  | O => None
  | S k => if Z.land (Z.shiftr b (Z.of_nat j)) 1 =? 0 then Some j else free_bit b (S j) k
  end.

Fixpoint next_available (validity : bytes) (i : nat) : option nat :=
  match validity with
  | [] => None
  | b :: validity =>
      if b =? 255 then next_available validity (S i)
      else match free_bit b 0 CHAR_BIT with
           | Some j => Some (i * CHAR_BIT + j)%nat
           | None => next_available validity (S i)
           end
  end.

(** The largest key of a table, 0 if it is empty or has no positive key. *)
Definition max_key {A : Type} (t : gmap Z A) : Z := foldr Z.max 0 (map_to_list t).*1.

(** [INSERT] of a blob into a chunk table: the internal rowid is the next one. *)
Definition append_blob (b : bytes) (t : blob_table) : blob_table := <[max_key t + 1 := b]> t.

(** All partition columns equal, [AND] of [=]. *)
Definition partition_match (a b : list value) : bool :=
  forallb (fun ab : value * value => sql_eq ab.1 ab.2) (zip a b).

Section Insert.
Context {I : Type} `{IndexOps I} (strtod : bytes -> number f64).
Local Open Scope storage_scope.

Definition vec0_get_latest_chunk_rowid (partitionKeyValues : list value) (s : db I) : res Z :=
  match filter (fun c : Z * chunk_row => partition_match (ck_partition c.2) partitionKeyValues = true)
          (map_to_list (db_chunks s)) with
  | [] => Err SQLITE_EMPTY
  | c :: cs => Ok (foldr Z.max c.1 cs.*1)
  end.

Definition vec0_rowids_insert_rowid (rowid : Z) : M (db I) unit :=
  t <-m mget db_rowids;
  seq <-m mget db_rowids_seq;
  _ <-m mwhen (bool_decide (is_Some (t !! rowid))) SQLITE_ERROR;
  mput (set_rowids (<[rowid := MkRow VNull None]> t) (Z.max seq rowid)).

(** [id TEXT UNIQUE NOT NULL] in a table with a TEXT primary key. *)
Definition id_constraint_ok (p : vec0_vtab) (t : gmap Z rowid_row) (id : value) : bool :=
  if vt_pkIsText p
  then negb (sqlite3_value_type id =? SQLITE_NULL) &&
       forallb (fun r : Z * rowid_row => negb (sql_eq (rr_id r.2) id)) (map_to_list t)
  else true.

Definition vec0_rowids_insert_id (idValue : value) : M (db I) Z :=
  p <-m mget db_vtab;
  t <-m mget db_rowids;
  seq <-m mget db_rowids_seq;
  _ <-m mwhen (negb (id_constraint_ok p t idValue)) SQLITE_ERROR;
  _ <-m mwhen (I64_MAX <=? seq) SQLITE_ERROR;
  _ <-m mput (set_rowids (<[seq + 1 := MkRow idValue None]> t) (seq + 1));
  mret (seq + 1).

Definition vec0_rowids_update_position (rowid chunk_rowid : Z) (chunk_offset : nat) : M (db I) unit :=
  mput (fun s => set_rowids
    (alter (fun r => MkRow (rr_id r) (Some (chunk_rowid, chunk_offset))) rowid (db_rowids s))
    (db_rowids_seq s) s).

Definition vec0_new_chunk (partitionKeyValues : list value) : M (db I) Z :=
  p <-m mget db_vtab;
  t <-m mget db_chunks;
  seq <-m mget db_chunks_seq;
  _ <-m mwhen (I64_MAX <=? seq) SQLITE_ERROR;
  let n := vt_chunk_size p in
  let rowid := seq + 1 in
  _ <-m mput (set_chunks
    (<[rowid := MkChunk n partitionKeyValues (replicate (n / CHAR_BIT) 0) (replicate (n * 8) 0)]> t) rowid);
  _ <-m mfor (fun c : nat * nat =>
         let vectorsSize := (n * column_size p c.2)%nat in
         mput (fun s => set_vectors (alter (append_blob (replicate vectorsSize 0)) c.2 (db_vectors s)) s))
       (user_columns_of USER_COLUMN_VECTOR p);
  _ <-m mfor (fun c : nat * nat =>
         let kind := aget METADATA_KIND_BOOLEAN (vt_metadata_kinds p) c.2 in
         on_metadata c.2 (mput (fun m => MkMetadata
           (append_blob (replicate (vec0_metadata_chunk_size kind n) 0) (md_chunks m)) (md_text m))))
       (user_columns_of USER_COLUMN_METADATA p);
  mret rowid.

Definition vec0Update_InsertRowidStep (idValue : value) : M (db I) Z :=
  p <-m mget db_vtab;
  if vt_pkIsText p then
    _ <-m mwhen (negb (sqlite3_value_type idValue =? SQLITE_TEXT)) SQLITE_ERROR;
    vec0_rowids_insert_id idValue
  else if sqlite3_value_type idValue =? SQLITE_INTEGER then
    let suppliedRowid := sqlite3_value_int64 idValue in
    _ <-m vec0_rowids_insert_rowid suppliedRowid;
    mret suppliedRowid
  else
    _ <-m mwhen (negb (sqlite3_value_type idValue =? SQLITE_NULL)) SQLITE_ERROR;
    vec0_rowids_insert_id VNull.

(** The validity blob of a chunk, of the expected size. *)
Definition open_validity (chunk_rowid : Z) : M (db I) bytes :=
  p <-m mget db_vtab;
  t <-m mget db_chunks;
  c <-m mopt (t !! chunk_rowid) SQLITE_ERROR;
  _ <-m mwhen (negb (length (ck_validity c) =? vt_chunk_size p / CHAR_BIT)%nat) SQLITE_ERROR;
  mret (ck_validity c).

(** Chunk, slot and the validity bitmap read from the chunk. *)
Definition vec0Update_InsertNextAvailableStep (partitionKeyValues : list value)
    : M (db I) (Z * nat * bytes) :=
  let fresh :=
    chunk_rowid <-m vec0_new_chunk partitionKeyValues;
    validity <-m open_validity chunk_rowid;
    mret (chunk_rowid, 0%nat, validity) in
  latest <-m mget (vec0_get_latest_chunk_rowid partitionKeyValues);
  match latest with
  | Ok chunk_rowid =>
      validity <-m open_validity chunk_rowid;
      match next_available validity 0 with
      | Some chunk_offset => mret (chunk_rowid, chunk_offset, validity)
      | None => fresh
      end
  | Err rc => if rc =? SQLITE_EMPTY then fresh else mfail rc
  | Undef => mquery (fun _ => Undef)
  end.

Definition vec0_write_vector_to_vector_blob (blobVectors : bytes) (chunk_offset : nat)
    (bVector : bytes) (dimensions : nat) (element_type : VectorElementType) : option bytes :=
  let '(n, offset) :=
    match element_type with
    | SQLITE_VEC_ELEMENT_TYPE_FLOAT32 => (dimensions * 4, chunk_offset * dimensions * 4)
    | SQLITE_VEC_ELEMENT_TYPE_INT8 => (dimensions, chunk_offset * dimensions)
    | SQLITE_VEC_ELEMENT_TYPE_BIT => (dimensions / CHAR_BIT, chunk_offset * dimensions / CHAR_BIT)
    end%nat in
  blob_write blobVectors (take n bVector) offset.

(** Writing a vector into the chunk of a column. *)
Definition write_vector (i : nat) (chunk_id : Z) (chunk_offset : nat) (vector : bytes) (check_size : bool)
    : M (db I) unit :=
  p <-m mget db_vtab;
  ts <-m mget db_vectors;
  b <-m mopt (aget ∅ ts i !! chunk_id) SQLITE_ERROR;
  _ <-m mwhen (check_size && negb (length b =? vt_chunk_size p * column_size p i)%nat) SQLITE_ERROR;
  b' <-m mopt (vec0_write_vector_to_vector_blob b chunk_offset vector
                 (Z.to_nat (vc_dimensions (vector_column p i))) (vc_element_type (vector_column p i)))
          SQLITE_ERROR;
  mput (set_vectors (<[i := <[chunk_id := b']> (aget ∅ ts i)]> ts)).

(** Writing into a blob column of a chunk row. *)
Definition write_validity (chunk_id : Z) (src : bytes) (off : nat) : M (db I) unit :=
  t <-m mget db_chunks;
  c <-m mopt (t !! chunk_id) SQLITE_ERROR;
  b <-m mopt (blob_write (ck_validity c) src off) SQLITE_ERROR;
  mput (fun s => set_chunks (<[chunk_id := MkChunk (ck_size c) (ck_partition c) b (ck_rowids c)]> t)
                   (db_chunks_seq s) s).

Definition write_chunk_rowid (chunk_id : Z) (chunk_offset : nat) (rowid : Z) : M (db I) unit :=
  p <-m mget db_vtab;
  t <-m mget db_chunks;
  c <-m mopt (t !! chunk_id) SQLITE_ERROR;
  _ <-m mwhen (negb (vt_chunk_size p * 8 =? length (ck_rowids c))%nat) SQLITE_ERROR;
  b <-m mopt (blob_write (ck_rowids c) (enc_le 8 rowid) (chunk_offset * 8)) SQLITE_ERROR;
  mput (fun s => set_chunks (<[chunk_id := MkChunk (ck_size c) (ck_partition c) (ck_validity c) b]> t)
                   (db_chunks_seq s) s).

Definition vec0Update_InsertWriteFinalStep (chunk_rowid : Z) (chunk_offset : nat) (rowid : Z)
    (vectorDatas : list bytes) (bufferChunksValidity : bytes) : M (db I) unit :=
  let bx := aget 0 bufferChunksValidity (chunk_offset / CHAR_BIT) in
  let bx := to_u8 (Z.lor bx (Z.shiftl 1 (Z.of_nat (chunk_offset mod CHAR_BIT)))) in
  _ <-m write_validity chunk_rowid [bx] (chunk_offset / CHAR_BIT);
  p <-m mget db_vtab;
  _ <-m mfor (fun i => write_vector i chunk_rowid chunk_offset (aget [] vectorDatas i) true)
         (seq 0 (length (vt_vector_columns p)));
  _ <-m write_chunk_rowid chunk_rowid chunk_offset rowid;
  vec0_rowids_update_position rowid chunk_rowid chunk_offset.

(** [argv]: the id, the user columns, then the hidden columns. *)
Record insert_args := MkInsert {
  ia_id : value;
  ia_columns : list sval;
  ia_distance : value;
  ia_k : value
}.

Definition argv_column (columns : list sval) (i : nat) : sval := aget (MkSval VNull 0) columns i.

(** NULL or of the declared type. *)
Definition type_matches (v : value) (type : Z) : bool :=
  (sqlite3_value_type v =? SQLITE_NULL) || (sqlite3_value_type v =? type).

Definition read_partition_keys (p : vec0_vtab) (columns : list sval) : M (db I) (list value) :=
  mfold (fun (keys : list value) (c : nat * nat) =>
           let v := sv_value (argv_column columns c.1) in
           _ <-m mwhen (negb (type_matches v (aget 0 (vt_partition_types p) c.2))) SQLITE_ERROR;
           mret (<[c.2 := v]> keys))
    (replicate (length (vt_partition_types p)) VNull) (user_columns_of USER_COLUMN_PARTITION p).

(** A vector of the element type and dimensions of the column. *)
Definition checked_vector (col : VectorColumnDefinition) (v : sval) : option vector :=
  match vector_from_value strtod v with
  | None => None
  | Some x =>
      if negb (element_code (vec_type x) =? element_code (vc_element_type col)) then None
      else if negb (Z.of_nat (vec_dims x) =? vc_dimensions col) then None
      else Some x
  end.

Definition read_vectors (p : vec0_vtab) (columns : list sval) : M (db I) (list bytes) :=
  mfold (fun (datas : list bytes) (c : nat * nat) =>
           x <-m mopt (checked_vector (vector_column p c.2) (argv_column columns c.1)) SQLITE_ERROR;
           mret (<[c.2 := vec_bytes x]> datas))
    (replicate (length (vt_vector_columns p)) []) (user_columns_of USER_COLUMN_VECTOR p).

Definition insert_auxiliary (p : vec0_vtab) (rowid : Z) (columns : list sval) : M (db I) unit :=
  if (length (vt_auxiliary_types p) =? 0)%nat then mret tt
  else
    values <-m mfold (fun (values : list value) (c : nat * nat) =>
        let v := sv_value (argv_column columns c.1) in
        _ <-m mwhen (negb (type_matches v (aget 0 (vt_auxiliary_types p) c.2))) SQLITE_CONSTRAINT;
        mret (<[c.2 := v]> values))
      (replicate (length (vt_auxiliary_types p)) VNull) (user_columns_of USER_COLUMN_AUXILIARY p);
    t <-m mget db_auxiliary;
    _ <-m mwhen (bool_decide (is_Some (t !! rowid))) SQLITE_ERROR;
    mput (set_auxiliary (<[rowid := values]> t)).

Definition insert_metadata (p : vec0_vtab) (rowid chunk_rowid : Z) (chunk_offset : nat)
    (columns : list sval) : M (db I) unit :=
  mfor (fun c : nat * nat =>
      let kind := aget METADATA_KIND_BOOLEAN (vt_metadata_kinds p) c.2 in
      on_metadata c.2 (vec0_write_metadata_value kind rowid chunk_rowid chunk_offset
        (sv_value (argv_column columns c.1)) false))
    (user_columns_of USER_COLUMN_METADATA p).

(** The floats of a vector in memory. *)
Definition vector_floats (b : bytes) (dim : nat) : list f32 := f32_at b <$> seq 0 dim.

(** [sqlite3_stricmp(a, b) == 0] *)
Definition stricmp_eq (a b : chars) : bool := bool_decide (lower <$> a = lower <$> b).

(** The first vector column with the name of the indexed column. *)
Definition index_column (p : vec0_vtab) : option nat :=
  fst <$> list_find (fun c => stricmp_eq (vc_name c) (vt_index_column p) = true) (vt_vector_columns p).

(** The result code and new state of an index operation. *)
Definition run_index (r : option (Z * I)) : M (db I) Z :=
  match r with
  | Some (rc, i) => _ <-m mput (set_index (Some i)); mret rc
  | None => mquery (fun _ => Undef)
  end.

(** The index reads a float for each dimension, whatever the type of the
    elements: an [int8] or [bit] vector is shorter. *)
Definition index_insert (p : vec0_vtab) (rowid : Z) (vectorDatas : list bytes) : M (db I) unit :=
  ix <-m mget db_index;
  match ix, index_column p with
  | Some ix, Some i =>
      let dim := Z.to_nat (vc_dimensions (vector_column p i)) in
      _ <-m (if (length (aget [] vectorDatas i) <? dim * 4)%nat then mquery (fun _ => Undef) else mret tt);
      rc <-m run_index (ix_insert ix (vector_floats (aget [] vectorDatas i) dim) rowid);
      mwhen (negb (rc =? SQLITE_OK)) rc
  | _, _ => mret tt
  end.

Definition vec0Update_Insert (args : insert_args) : M (db I) Z :=
  p <-m mget db_vtab;
  partitionKeyValues <-m read_partition_keys p (ia_columns args);
  vectorDatas <-m read_vectors p (ia_columns args);
  _ <-m mwhen (negb (sqlite3_value_type (ia_distance args) =? SQLITE_NULL)) SQLITE_ERROR;
  _ <-m mwhen (negb (sqlite3_value_type (ia_k args) =? SQLITE_NULL)) SQLITE_ERROR;
  rowid <-m vec0Update_InsertRowidStep (ia_id args);
  position <-m vec0Update_InsertNextAvailableStep partitionKeyValues;
  let '(chunk_rowid, chunk_offset, validity) := position in
  _ <-m vec0Update_InsertWriteFinalStep chunk_rowid chunk_offset rowid vectorDatas validity;
  _ <-m insert_auxiliary p rowid (ia_columns args);
  _ <-m insert_metadata p rowid chunk_rowid chunk_offset (ia_columns args);
  _ <-m index_insert p rowid vectorDatas;
  mret rowid.

End Insert.

(** ** Deleting *)

Section Delete.
Context {I : Type} `{IndexOps I}.
Local Open Scope storage_scope.

(** The test is [bx >> k], not [(bx >> k) & 1]: a set bit above also passes. *)
Definition vec0Update_Delete_ClearValidity (chunk_id : Z) (chunk_offset : nat) : M (db I) unit :=
  t <-m mget db_chunks;
  c <-m mopt (t !! chunk_id) SQLITE_ERROR;
  block <-m mopt (blob_read (ck_validity c) 1 (chunk_offset / CHAR_BIT)) SQLITE_ERROR;
  let bx := aget 0 block 0 in
  _ <-m mwhen (Z.shiftr bx (Z.of_nat (chunk_offset mod CHAR_BIT)) =? 0) SQLITE_ERROR;
  let mask := to_u8 (Z.lnot (Z.shiftl 1 (Z.of_nat (chunk_offset mod CHAR_BIT)))) in
  write_validity chunk_id [to_u8 (Z.land bx mask)] (chunk_offset / CHAR_BIT).

Definition vec0Update_Delete_DeleteRowids (rowid : Z) : M (db I) unit :=
  mput (fun s => set_rowids (delete rowid (db_rowids s)) (db_rowids_seq s) s).

Definition vec0Update_Delete_DeleteAux (rowid : Z) : M (db I) unit :=
  mput (fun s => set_auxiliary (delete rowid (db_auxiliary s)) s).

(** The result codes of the metadata columns are overwritten. *)
Definition delete_metadata (p : vec0_vtab) (rowid chunk_id : Z) (chunk_offset : nat) : M (db I) unit :=
  mfor (fun i =>
      let kind := aget METADATA_KIND_BOOLEAN (vt_metadata_kinds p) i in
      mignore (on_metadata i (vec0Update_Delete_ClearMetadata kind rowid chunk_id chunk_offset)))
    (seq 0 (length (vt_metadata_kinds p))).

(** Rowid 0 is not removed from the index. *)
Definition index_delete (rowid : Z) : M (db I) unit :=
  ix <-m mget db_index;
  match ix with
  | Some ix =>
      if rowid =? 0 then mret tt
      else rc <-m run_index (ix_delete ix rowid); mwhen (negb (rc =? SQLITE_OK)) rc
  | None => mret tt
  end.

(** The rowid a primary key value stands for.  SQLite passes the id it has read
    from the row, a TEXT in a table with TEXT keys, which the affinity of the
    column leaves as it is. *)
Definition rowid_of (idValue : value) : M (db I) Z :=
  p <-m mget db_vtab;
  if vt_pkIsText p then mquery (rowid_with_id idValue)
  else mret (sqlite3_value_int64 idValue).

Definition vec0Update_Delete (idValue : value) : M (db I) unit :=
  rowid <-m rowid_of idValue;
  position <-m mquery (vec0_get_chunk_position rowid);
  let '(_, chunk_id, chunk_offset) := position in
  _ <-m vec0Update_Delete_ClearValidity chunk_id chunk_offset;
  _ <-m vec0Update_Delete_DeleteRowids rowid;
  p <-m mget db_vtab;
  _ <-m (if (length (vt_auxiliary_types p) =? 0)%nat then mret tt
         else vec0Update_Delete_DeleteAux rowid);
  _ <-m delete_metadata p rowid chunk_id chunk_offset;
  index_delete rowid.

End Delete.

(** ** Updating *)

Section Update.
Context {I : Type} `{IndexOps I} (strtod : bytes -> number f64).
Local Open Scope storage_scope.

Definition vec0Update_UpdateAuxColumn (auxiliary_column_idx : nat) (v : value) (rowid : Z)
    : M (db I) unit :=
  mput (fun s => set_auxiliary
    (alter (fun values => <[auxiliary_column_idx := v]> values) rowid (db_auxiliary s)) s).

Definition vec0Update_UpdateVectorColumn (chunk_id : Z) (chunk_offset : nat) (i : nat) (valueVector : sval)
    : M (db I) unit :=
  p <-m mget db_vtab;
  x <-m mopt (checked_vector strtod (vector_column p i) valueVector) SQLITE_ERROR;
  write_vector i chunk_id chunk_offset (vec_bytes x) false.

(** [argv]: old and new id, and for each user column the new value and
    whether [sqlite3_value_nochange] holds. *)
Record update_args := MkUpdate {
  ua_old_id : value;
  ua_new_id : value;
  ua_columns : list (sval * bool)
}.

Definition update_column (args : update_args) (i : nat) : sval * bool :=
  aget (MkSval VNull 0, true) (ua_columns args) i.

(** [vector_from_value] with [&p->vector_columns\[i\].dimensions] as its
    output: the column definition at the user column's position [i] gets the
    dimensions of the value. *)
Definition set_dimensions (i dims : nat) (p : vec0_vtab) : vec0_vtab :=
  MkVtab (vt_pkIsText p) (vt_chunk_size p) (vt_user_columns p)
    (alter (fun c => MkVectorColumn (vc_name c) (Z.of_nat dims) (vc_element_type c) (vc_distance_metric c))
       i (vt_vector_columns p))
    (vt_partition_types p) (vt_auxiliary_types p) (vt_metadata_kinds p) (vt_index_column p).

(** The index is updated for every vector column, whatever its name, and the
    result code is dropped; the index reads [ix_dim] floats. *)
Definition index_update (rowid : Z) (vec : bytes) : M (db I) unit :=
  ix <-m mget db_index;
  match ix with
  | Some ix =>
      _ <-m (if (length vec <? ix_dim ix * 4)%nat then mquery (fun _ => Undef) else mret tt);
      _ <-m run_index (ix_update ix rowid (vector_floats vec (ix_dim ix)));
      mret tt
  | None => mret tt
  end.

(** [pzError] is not initialised: [garbage] says whether it holds a non-null
    pointer, which is then printed and freed. *)
Definition update_vectors (garbage : bool) (args : update_args) (rowid chunk_id : Z) (chunk_offset : nat)
    (columns : list (nat * nat)) : M (db I) unit :=
  mfor (fun c : nat * nat =>
      let valueVector := (update_column args c.1).1 in
      if sqlite3_value_type (sv_value valueVector) =? SQLITE_NULL then mret tt
      else
        match vector_from_value strtod valueVector with
        | None => mfail SQLITE_ERROR
        | Some x =>
            _ <-m mput (fun s => set_vtab (set_dimensions c.1 (vec_dims x) (db_vtab s)) s);
            _ <-m (if garbage then mquery (fun _ => Undef) else mret tt);
            _ <-m vec0Update_UpdateVectorColumn chunk_id chunk_offset c.2 valueVector;
            index_update rowid (vec_bytes x)
        end) columns.

(** Equal lengths and [strncmp] finds no difference before a NUL. *)
Fixpoint c_string (b : bytes) : bytes :=
  match b with
  | [] => []
  | c :: b => if c =? 0 then [] else c :: c_string b
  end.

Definition same_text (a b : bytes) : bool :=
  (length a =? length b)%nat && bool_decide (c_string a = c_string b).

Definition vec0Update_Update (garbage : bool) (args : update_args) : M (db I) unit :=
  p <-m mget db_vtab;
  _ <-m mwhen (vt_pkIsText p &&
               negb (same_text (text_bytes (ua_old_id args)) (text_bytes (ua_new_id args)))) SQLITE_ERROR;
  rowid <-m rowid_of (ua_old_id args);
  position <-m mquery (vec0_get_chunk_position rowid);
  let '(_, chunk_id, chunk_offset) := position in
  _ <-m mfor (fun c : nat * nat => mwhen (negb (update_column args c.1).2) SQLITE_ERROR)
         (user_columns_of USER_COLUMN_PARTITION p);
  _ <-m mfor (fun c : nat * nat =>
           let '(v, nochange) := update_column args c.1 in
           if nochange then mret tt else vec0Update_UpdateAuxColumn c.2 (sv_value v) rowid)
         (user_columns_of USER_COLUMN_AUXILIARY p);
  _ <-m mfor (fun c : nat * nat =>
           let '(v, nochange) := update_column args c.1 in
           let kind := aget METADATA_KIND_BOOLEAN (vt_metadata_kinds p) c.2 in
           if nochange then mret tt
           else on_metadata c.2 (vec0_write_metadata_value kind rowid chunk_id chunk_offset (sv_value v) true))
         (user_columns_of USER_COLUMN_METADATA p);
  update_vectors garbage args rowid chunk_id chunk_offset (user_columns_of USER_COLUMN_VECTOR p).

End Update.

(** ** [xUpdate]: the number and type of the arguments choose the handler *)

Inductive update_request :=
| ReqDelete (argv0 : value)
| ReqRow (argv0 argv1 id : value) (columns : list (sval * bool)) (distance k : value)
| ReqOther.

Definition vec0Update {I : Type} `{IndexOps I} (strtod : bytes -> number f64) (garbage : bool)
    (r : update_request) : M (db I) (option Z) :=
  (match r with
   | ReqDelete argv0 =>
       if negb (sqlite3_value_type argv0 =? SQLITE_NULL)
       then _ <-m vec0Update_Delete argv0; mret None
       else mfail SQLITE_ERROR
   | ReqRow argv0 argv1 id columns distance k =>
       if sqlite3_value_type argv0 =? SQLITE_NULL
       then rowid <-m vec0Update_Insert strtod (MkInsert id columns.*1 distance k); mret (Some rowid)
       else _ <-m vec0Update_Update strtod garbage (MkUpdate argv0 argv1 columns); mret None
   | ReqOther => mfail SQLITE_ERROR
   end)%storage.
