(* ===== verification/Table.v ===== *)
(** * The [vec0] table as a map from rowids to rows

    The abstract value of the shadow tables, what the readers return for a
    row, and the invariant that ties the shadow tables together, with the
    lemmas on single columns and free slots. *)

From stdpp Require Import base option list numbers gmap.
From Stdlib Require Import ZArith Lia.
From S2P Require Import Prelude Float32 Bitmap Codec Shadow DefParser Metadata Values Storage.

Local Open Scope Z_scope.

(** ** Loops over the columns *)

Section Loops.
Context {S A B : Type} (get : S -> list A) (put : list A -> S -> S) (key : B -> nat).
Hypothesis get_put : forall l s, get (put l s) = l.
Hypothesis put_put : forall l l' s, put l (put l' s) = put l s.
Hypothesis put_get : forall s, put (get s) s = s.

(** A loop whose rounds each rewrite their own element of a list. *)
Lemma mfor_cells (body : B -> M S unit) (g : B -> A -> A) (L : list B) (s : S) :
  key <$> L = seq 0 (length (get s)) ->
  (forall x a l, x ∈ L -> get s !! key x = Some a -> l !! key x = Some a ->
     body x (put l s) = (Ok tt, put (<[key x := g x a]> l) s)) ->
  mfor body L s = (Ok tt, put (zip_with g L (get s)) s).
Proof.
  intros Hk Hb.
  assert (Hgen : forall L2 L1 done rest, L = L1 ++ L2 -> length done = length L1 ->
    get s = take (length L1) (get s) ++ rest ->
    mfor body L2 (put (done ++ rest) s) = (Ok tt, put (done ++ zip_with g L2 rest) s)).
  { induction L2 as [|x L2 IH]; intros L1 dn rest HL Hd Hr.
    - assert (rest = []) as ->; [|done].
      apply (f_equal length) in Hk. rewrite HL, app_nil_r, length_fmap, length_seq in Hk.
      rewrite Hk, take_ge in Hr by done. rewrite <- (app_nil_r (get s)) in Hr at 1.
      by apply app_inv_head in Hr.
    - assert (Hlt : key x = length L1).
      { apply (f_equal (fun l => l !! length L1)) in Hk.
        rewrite HL, fmap_app, lookup_app_r, length_fmap, Nat.sub_diag in Hk by (by rewrite length_fmap).
        cbn in Hk. symmetry in Hk. by apply lookup_seq in Hk as [E _]. }
      assert (Hin : (length L1 < length (get s))%nat).
      { apply (f_equal length) in Hk. rewrite HL, length_fmap, length_app, length_seq in Hk.
        cbn in Hk. lia. }
      assert (Hrl : length (take (length L1) (get s)) = length L1) by (rewrite length_take; lia).
      destruct rest as [|a rest].
      { rewrite app_nil_r in Hr. apply (f_equal length) in Hr. rewrite Hrl in Hr. lia. }
      assert (Hga : get s !! key x = Some a).
      { rewrite Hr, lookup_app_r, Hrl, Hlt, Nat.sub_diag by (rewrite Hrl; lia). done. }
      unfold mfor. cbn [mfold]. erewrite mbind_ok.
      2:{ apply (Hb x a (dn ++ a :: rest)); [rewrite HL; set_solver|done|].
          rewrite lookup_app_r, Hd, Hlt, Nat.sub_diag by lia. done. }
      fold (mfor body L2). rewrite insert_app_r_alt by lia. rewrite Hlt, Hd, Nat.sub_diag.
      cbn [list_insert insert]. rewrite cons_middle, app_assoc.
      rewrite (IH (L1 ++ [x])).
      + cbn [zip_with]. by rewrite <- app_assoc.
      + by rewrite <- app_assoc.
      + rewrite !length_app. cbn. lia.
      + rewrite length_app. cbn [length]. rewrite Nat.add_1_r, (take_S_r _ _ a) by (by rewrite <- Hlt).
        by rewrite <- app_assoc. }
  rewrite <- (put_get s) at 1. apply (Hgen L [] [] (get s)); done.
Qed.

End Loops.

(** A loop that fills an array by index. *)
Lemma mfold_fill {S A B : Type} (f : list A -> B -> M S (list A)) (key : B -> nat) (val : B -> A)
    (L : list B) (n : nat) (init : list A) (s : S) :
  key <$> L = seq 0 n -> length init = n ->
  (forall acc x, x ∈ L -> f acc x s = (Ok (<[key x := val x]> acc), s)) ->
  mfold f init L s = (Ok (val <$> L), s).
Proof.
  intros Hk Hi Hf.
  assert (Hgen : forall L2 L1 rest, L = L1 ++ L2 -> length rest = length L2 ->
    mfold f ((val <$> L1) ++ rest) L2 s = (Ok (val <$> L), s)).
  { induction L2 as [|x L2 IH]; intros L1 rest HL Hr.
    - destruct rest; [|done]. rewrite app_nil_r in *. by rewrite HL.
    - destruct rest as [|a rest]; [done|]. cbn [mfold].
      assert (Hlt : key x = length L1).
      { apply (f_equal (fun l => l !! length L1)) in Hk.
        rewrite HL, fmap_app, lookup_app_r, length_fmap, Nat.sub_diag in Hk by (by rewrite length_fmap).
        cbn in Hk. symmetry in Hk. by apply lookup_seq in Hk as [E _]. }
      erewrite mbind_ok by (apply Hf; rewrite HL; set_solver).
      rewrite insert_app_r_alt by (rewrite length_fmap; lia). rewrite Hlt, length_fmap, Nat.sub_diag.
      cbn [list_insert insert]. rewrite cons_middle, app_assoc.
      replace ((val <$> L1) ++ [val x]) with (val <$> (L1 ++ [x])) by (by rewrite fmap_app).
      apply IH; [by rewrite <- app_assoc|]. by injection Hr. }
  apply (Hgen L [] init); [done|]. apply (f_equal length) in Hk.
  rewrite length_fmap, length_seq in Hk. lia.
Qed.

(** ** Free slots *)

Lemma free_bit_spec (b : Z) (k j : nat) :
  match free_bit b j k with
  | Some i => (j <= i < j + k)%nat /\ Z.testbit b (Z.of_nat i) = false
  | None => forall i, (j <= i < j + k)%nat -> Z.testbit b (Z.of_nat i) = true
  end.
Proof.
  revert j. induction k as [|k IH]; intros j; cbn [free_bit].
  - intros i Hi. lia.
  - assert (Ht : (Z.land (Z.shiftr b (Z.of_nat j)) 1 =? 0) = negb (Z.testbit b (Z.of_nat j))).
    { change 1 with (Z.ones 1). rewrite Z.land_ones, Z.shiftr_div_pow2 by lia. change (2 ^ 1) with 2.
      rewrite <- Z.testbit_spec' by lia. by destruct (Z.testbit b (Z.of_nat j)). }
    rewrite Ht. destruct (Z.testbit b (Z.of_nat j)) eqn:E; cbn [negb].
    + specialize (IH (S j)). destruct (free_bit b (S j) k).
      * destruct IH. split; [lia|done].
      * intros i Hi. destruct (decide (i = j)) as [->|]; [done|]. apply IH. lia.
    + split; [lia|done].
Qed.

Lemma next_available_spec (validity : bytes) (n : nat) :
  bitmap_wf n validity ->
  match next_available validity 0 with
  | Some off => (off < n)%nat /\ bitmap_test validity off = false
  | None => forall off, (off < n)%nat -> bitmap_test validity off = true
  end.
Proof.
  intros [Hl Hb].
  assert (Hgen : forall rest pre i, validity = pre ++ rest -> length pre = i ->
    match next_available rest i with
    | Some off => (off < n)%nat /\ bitmap_test validity off = false
    | None => forall off, (i * 8 <= off < n)%nat -> bitmap_test validity off = true
    end).
  { induction rest as [|b rest IH]; intros pre i Hv Hi; cbn [next_available].
    - intros off Hoff. rewrite app_nil_r in Hv. subst pre. lia.
    - assert (Hat : aget 0 validity i = b).
      { apply aget_lookup. rewrite Hv, lookup_app_r, Hi, Nat.sub_diag by lia. done. }
      assert (Hlen : (i < length validity)%nat) by (rewrite Hv, length_app; cbn; lia).
      specialize (IH (pre ++ [b]) (S i) ltac:(by rewrite <- app_assoc) ltac:(rewrite length_app; cbn; lia)).
      assert (Hin : forall j, (j < 8)%nat ->
        bitmap_test validity (i * 8 + j) = Z.testbit b (Z.of_nat j)).
      { intros j Hj. rewrite bitmap_test_testbit.
        assert (((i * 8 + j) / 8)%nat = i) as -> by (rewrite Nat.div_add_l, Nat.div_small by lia; lia).
        assert (((i * 8 + j) mod 8)%nat = j) as -> by (rewrite Nat.add_comm, Nat.Div0.mod_add, Nat.mod_small; lia).
        by rewrite Hat. }
      assert (Hfull : (forall j, (j < 8)%nat -> Z.testbit b (Z.of_nat j) = true) ->
        match next_available rest (S i) with
        | Some off => (off < n)%nat /\ bitmap_test validity off = false
        | None => forall off, (i * 8 <= off < n)%nat -> bitmap_test validity off = true
        end).
      { intros Hone. destruct (next_available rest (S i)); [done|]. intros off Hoff.
        destruct (decide (off < S i * 8)%nat); [|apply IH; lia].
        replace off with (i * 8 + (off - i * 8))%nat by lia. rewrite Hin by lia. apply Hone. lia. }
      destruct (Z.eqb_spec b 255) as [->|Hne].
      + apply Hfull. intros j Hj. do 8 (destruct j as [|j]; [done|]). lia.
      + pose proof (free_bit_spec b CHAR_BIT 0) as Hf. unfold CHAR_BIT in *.
        destruct (free_bit b 0 8) as [j|].
        * destruct Hf as [Hj Hf]. split; [lia|]. rewrite Hin by lia. done.
        * apply Hfull. intros j Hj. apply Hf. lia. }
  specialize (Hgen validity [] 0%nat eq_refl eq_refl).
  destruct (next_available validity 0); [done|]. intros off Hoff. apply Hgen. lia.
Qed.

(** ** Tables with keys 1 .. n *)

Definition upto {A : Type} (n : Z) (t : gmap Z A) : Prop := forall c, is_Some (t !! c) <-> 1 <= c <= n.

Lemma max_key_upto {A : Type} (n : Z) (t : gmap Z A) : 0 <= n -> upto n t -> max_key t = n.
Proof.
  intros Hn Hu. unfold max_key.
  assert (Hub : forall l : list Z, (forall c, c ∈ l -> c <= n) -> foldr Z.max 0 l <= n).
  { induction l as [|c l IH]; intros H; cbn; [lia|].
    apply Z.max_lub; [apply H; set_solver|apply IH; set_solver]. }
  assert (Hge : forall (l : list Z) c, c ∈ l -> c <= foldr Z.max 0 l).
  { induction l as [|x l IH]; intros c; [set_solver|]. intros [->|Hc]%elem_of_cons; cbn; [lia|].
    specialize (IH c Hc). lia. }
  assert (Hin : forall c, c ∈ (map_to_list t).*1 <-> 1 <= c <= n).
  { intros c. etransitivity; [|apply Hu]. rewrite list_elem_of_fmap. split.
    - intros ([k x] & -> & Hk). apply elem_of_map_to_list in Hk. by exists x.
    - intros [x Hx]. exists (c, x). by rewrite elem_of_map_to_list. }
  assert (Hge0 : forall l, 0 <= foldr Z.max 0 l) by (induction l; cbn; lia).
  apply Z.le_antisymm.
  - apply Hub. intros c Hc%Hin. lia.
  - destruct (decide (n = 0)) as [->|]; [apply Hge0|]. apply Hge, Hin. lia.
Qed.

Lemma upto_append {A : Type} (n : Z) (t : gmap Z A) (x : A) :
  0 <= n -> upto n t -> upto (n + 1) (<[n + 1 := x]> t).
Proof.
  intros Hn Hu c. destruct (decide (c = n + 1)) as [->|Hne].
  - rewrite lookup_insert_eq. split; [lia|by eexists].
  - rewrite lookup_insert_ne by done. pose proof (Hu c). split; intros; [|apply Hu; lia].
    assert (1 <= c <= n) by (by apply Hu). lia.
Qed.

Lemma upto_overwrite {A : Type} (n c : Z) (t : gmap Z A) (x : A) :
  1 <= c <= n -> upto n t -> upto n (<[c := x]> t).
Proof.
  intros Hc Hu k. destruct (decide (k = c)) as [->|Hne].
  - rewrite lookup_insert_eq. split; [lia|by eexists].
  - rewrite lookup_insert_ne by done. apply Hu.
Qed.

Lemma upto_fresh {A : Type} (n : Z) (t : gmap Z A) : upto n t -> t !! (n + 1) = None.
Proof.
  intros Hu. destruct (t !! (n + 1)) eqn:E; [|done].
  assert (1 <= n + 1 <= n) by (apply Hu; by eexists). lia.
Qed.

(** ** Invariant of a metadata column *)

(** Row [r] is in slot [off] of chunk [c]. *)
Definition slot (rows : gmap Z rowid_row) (r c : Z) (off : nat) : Prop :=
  exists id, rows !! r = Some (MkRow id (Some (c, off))).

Definition meta_chunk_ok (k : vec0_metadata_column_kind) (cs : nat) (b : bytes) : Prop :=
  length b = vec0_metadata_chunk_size k cs /\ (k = METADATA_KIND_BOOLEAN -> Forall is_byte b).

Definition cell_view (b : bytes) (off : nat) : bytes :=
  slice (off * VIEW_BUFFER_LENGTH) VIEW_BUFFER_LENGTH b.

(** A blob for every chunk; long texts exactly for the rows whose cell says
    so; the cell of a row is the view of its text, that of a free slot is the
    view of the empty one. *)
Record meta_wf (k : vec0_metadata_column_kind) (cs : nat) (n : Z) (rows : gmap Z rowid_row)
    (m : metadata_store) : Prop := {
  mw_upto : upto n (md_chunks m);
  mw_chunks : forall c b, md_chunks m !! c = Some b -> meta_chunk_ok k cs b;
  mw_agree : forall r c off, slot rows r c off -> text_agrees k r c off m;
  mw_text : k = METADATA_KIND_TEXT -> forall r, rows !! r = None -> md_text m !! r = None;
  mw_free : k = METADATA_KIND_TEXT -> forall c off b, (off < cs)%nat -> md_chunks m !! c = Some b ->
    (forall r, ~ slot rows r c off) -> view_length (cell_view b off) = 0;
  mw_cell : k = METADATA_KIND_TEXT -> forall r c off b, (off < cs)%nat -> md_chunks m !! c = Some b ->
    slot rows r c off -> exists t, Z.of_nat (length t) < 2 ^ 31 /\ cell_view b off = text_view t /\
      ((VIEW_DATA_LENGTH < length t)%nat -> md_text m !! r = Some t)
}.

(** Only texts look at the rows. *)
Lemma meta_wf_plain (k : vec0_metadata_column_kind) (cs : nat) (n : Z) (rows : gmap Z rowid_row)
    (m : metadata_store) :
  k <> METADATA_KIND_TEXT -> upto n (md_chunks m) ->
  (forall c b, md_chunks m !! c = Some b -> meta_chunk_ok k cs b) -> meta_wf k cs n rows m.
Proof. intros Hk Hu Hc. split; [done|done| |done..]. by destruct k. Qed.

Lemma meta_read_frame (k : vec0_metadata_column_kind) (r c : Z) (off : nat) (m m' : metadata_store) :
  md_chunks m' !! c = md_chunks m !! c -> md_text m' !! r = md_text m !! r ->
  vec0_result_metadata_value k r c off m' = vec0_result_metadata_value k r c off m.
Proof. intros E1 E2. unfold vec0_result_metadata_value. by rewrite E1, E2. Qed.

Lemma meta_chunk_bitmap (cs : nat) (b : bytes) :
  (cs mod 8 = 0)%nat -> meta_chunk_ok METADATA_KIND_BOOLEAN cs b -> bitmap_wf cs b.
Proof. intros Hcs [Hl Hb]. apply chunk_ok_bitmap; [done|]. split; [done|]. by apply Hb. Qed.

Lemma bitmap_meta_chunk (cs : nat) (b : bytes) :
  bitmap_wf cs b -> meta_chunk_ok METADATA_KIND_BOOLEAN cs b.
Proof.
  intros [Hl Hb]. split; [|done]. cbn [vec0_metadata_chunk_size]. rewrite <- Hl. by rewrite Nat.div_mul.
Qed.

(** Overwriting the blob of one chunk. *)
Lemma meta_set_chunk (k : vec0_metadata_column_kind) (cs : nat) (n c : Z) (b' : bytes) (m : metadata_store) :
  upto n (md_chunks m) -> 1 <= c <= n ->
  (forall c b, md_chunks m !! c = Some b -> meta_chunk_ok k cs b) -> meta_chunk_ok k cs b' ->
  upto n (<[c := b']> (md_chunks m)) /\
  forall c0 b, <[c := b']> (md_chunks m) !! c0 = Some b -> meta_chunk_ok k cs b.
Proof.
  intros Hu Hc Hk Hb. split; [by apply upto_overwrite|].
  intros c0 b. destruct (decide (c0 = c)) as [->|Hne].
  - rewrite lookup_insert_eq. by intros [= <-].
  - rewrite lookup_insert_ne by done. apply Hk.
Qed.

Lemma slot_insert (rows : gmap Z rowid_row) (r : Z) (id : value) (c : Z) (off : nat) (r' c' : Z) (off' : nat) :
  slot (<[r := MkRow id (Some (c, off))]> rows) r' c' off' <->
  (r' = r /\ c' = c /\ off' = off) \/ (r' <> r /\ slot rows r' c' off').
Proof.
  unfold slot. destruct (decide (r' = r)) as [->|Hne].
  - rewrite lookup_insert_eq. split; [intros [? [= -> -> ->]]; auto|].
    intros [(_ & -> & ->)|[? _]]; [by eexists|done].
  - rewrite lookup_insert_ne by done. split; [auto|]. intros [(? & _)|[_ ?]]; done.
Qed.

Lemma slot_delete (rows : gmap Z rowid_row) (r r' c' : Z) (off' : nat) :
  slot (delete r rows) r' c' off' <-> r' <> r /\ slot rows r' c' off'.
Proof.
  unfold slot. destruct (decide (r' = r)) as [->|Hne].
  - rewrite lookup_delete_eq. split; [by intros [? ?]|by intros [? _]].
  - rewrite lookup_delete_ne by done. tauto.
Qed.

(** A written cell keeps the other rows of the column. *)
Definition meta_frame (k : vec0_metadata_column_kind) (cs : nat) (rows : gmap Z rowid_row)
    (m m' : metadata_store) : Prop :=
  forall r c off, slot rows r c off -> (off < cs)%nat ->
    vec0_result_metadata_value k r c off m' = vec0_result_metadata_value k r c off m.

Section MetaWrite.
Context (cs : nat) (n : Z) (rows : gmap Z rowid_row) (r : Z) (id : value) (c : Z) (off : nat).
Hypothesis (Hcs : (cs mod 8 = 0)%nat) (Hnew : rows !! r = None)
  (Hfree : forall r', ~ slot rows r' c off) (Hc : 1 <= c <= n) (Hoff : (off < cs)%nat).

Let rows' := <[r := MkRow id (Some (c, off))]> rows.

(** Other slots differ in the chunk or in the offset. *)
Lemma other_slot (r' c' : Z) (off' : nat) :
  slot rows r' c' off' -> r' <> r /\ (c' <> c \/ c' = c /\ off' <> off).
Proof.
  intros Hs. split.
  - intros ->. destruct Hs as [? E]. by rewrite Hnew in E.
  - destruct (decide (c' = c)) as [->|]; [|by left]. right. split; [done|]. intros ->. by apply (Hfree r').
Qed.

Lemma meta_write_plain (k : vec0_metadata_column_kind) (v : value) (m : metadata_store) (b b' : bytes) :
  k <> METADATA_KIND_TEXT -> meta_wf k cs n rows m -> md_chunks m !! c = Some b ->
  meta_chunk_ok k cs b' ->
  (forall r off', off' <> off -> (off' < cs)%nat ->
     vec0_result_metadata_value k r c off' (set_chunk c b' m) = vec0_result_metadata_value k r c off' m) ->
  meta_wf k cs n rows' (set_chunk c b' m) /\ meta_frame k cs rows m (set_chunk c b' m).
Proof.
  intros Hk [Hu Hch _ _ _ _] Hb Hb' Hf. split.
  - apply meta_wf_plain; [done|apply (meta_set_chunk k cs n c b' m Hu Hc Hch Hb')..].
  - intros r' c' off' Hs Hlt. destruct (other_slot _ _ _ Hs) as [_ [Hne|[-> Hne]]]; [|auto].
    apply meta_read_frame; [|done]. cbn. by rewrite lookup_insert_ne.
Qed.

Lemma meta_write_text (t : bytes) (m : metadata_store) :
  meta_wf METADATA_KIND_TEXT cs n rows m -> Z.of_nat (length t) < 2 ^ 31 ->
  exists m', vec0_write_metadata_value METADATA_KIND_TEXT r c off (VText t) false m = (Ok tt, m') /\
    meta_wf METADATA_KIND_TEXT cs n rows' m' /\
    vec0_result_metadata_value METADATA_KIND_TEXT r c off m' = Ok (VText t) /\
    meta_frame METADATA_KIND_TEXT cs rows m m'.
Proof.
  intros [Hu Hch Hag Htx Hfr Hcl] Ht. destruct (proj2 (Hu c) Hc) as [b Hb]. pose proof (Hch c b Hb) as [Hlen _].
  cbn [vec0_metadata_chunk_size] in Hlen.
  pose proof (Hfr eq_refl c off b Hoff Hb Hfree) as Hview. pose proof (Htx eq_refl r Hnew) as Hno.
  assert (Hiff : Z.of_nat VIEW_DATA_LENGTH < view_length (cell_view b off) <-> is_Some (md_text m !! r)).
  { rewrite Hno, Hview. split; [done|by intros [? ?]]. }
  assert (Hshort : view_length (cell_view b off) <= Z.of_nat VIEW_DATA_LENGTH) by (rewrite Hview; done).
  destruct (text_cell_written r c off cs t false m b Hoff Hb Hlen Hiff (fun _ => Hshort))
    as (b' & txt & E & Hl & Hcell & Hown & Hoth).
  set (m' := set_text txt (set_chunk c b' m)) in *. exists m'. split; [exact E|].
  assert (Hb' : md_chunks m' !! c = Some b') by apply lookup_insert_eq.
  assert (Hne' : forall c', c' <> c -> md_chunks m' !! c' = md_chunks m !! c')
    by (intros; cbn; by rewrite lookup_insert_ne).
  assert (Hb'ok : meta_chunk_ok METADATA_KIND_TEXT cs b') by (split; [cbn; congruence|done]).
  destruct (meta_set_chunk METADATA_KIND_TEXT cs n c b' m Hu Hc Hch Hb'ok) as [Hu' Hch'].
  split; [|split].
  - split; [done|done| | | |].
    + intros r' c' off' Hs. apply slot_insert in Hs as [(-> & -> & ->)|[Hr' Hs]]; intros b0 Hb0.
      * rewrite Hb' in Hb0. injection Hb0 as <-. rewrite Hcell, decide_True by done.
        rewrite view_length_written by done. cbn [m' set_text md_text]. rewrite Hown.
        destruct (Nat.ltb_spec VIEW_DATA_LENGTH (length t)); split; try lia; try (by eexists).
        by intros [? ?].
      * destruct (other_slot _ _ _ Hs) as [_ [Hc'|[-> Ho]]].
        -- rewrite Hne' in Hb0 by done. cbn [m' set_text md_text]. rewrite Hoth by done. by apply (Hag r' c' off' Hs).
        -- rewrite Hb' in Hb0. injection Hb0 as <-. cbn [m' set_text md_text]. rewrite Hoth by done.
           destruct (decide (off' < cs)%nat) as [Hlt|Hge].
           ++ rewrite Hcell, decide_False by done. by apply (Hag r' c off' Hs).
           ++ rewrite <- (Hag r' c off' Hs b Hb). unfold slice, VIEW_BUFFER_LENGTH in *.
              by rewrite !drop_ge by lia.
    + intros _ r' Hr'. unfold rows' in Hr'. cbn [m' set_text md_text]. destruct (decide (r' = r)) as [->|Hne].
      { by rewrite lookup_insert_eq in Hr'. }
      rewrite lookup_insert_ne in Hr' by done. rewrite Hoth by done. by apply Htx.
    + intros _ c' off' b0 Hlt Hb0 Hns.
      assert (Hns' : forall r0, ~ slot rows r0 c' off').
      { intros r0 Hs. apply (Hns r0), slot_insert. right. split; [by apply (other_slot _ _ _ Hs)|done]. }
      destruct (decide (c' = c)) as [->|Hne]; [|rewrite Hne' in Hb0 by done; by eapply Hfr].
      rewrite Hb' in Hb0. injection Hb0 as <-. unfold cell_view.
      destruct (decide (off' = off)) as [->|Ho].
      { exfalso. apply (Hns r), slot_insert. by left. }
      rewrite Hcell, decide_False by done. by eapply Hfr.
    + intros _ r' c' off' b0 Hlt Hb0 Hs. unfold cell_view. cbn [m' set_text md_text].
      apply slot_insert in Hs as [(-> & -> & ->)|[Hr' Hs]].
      * rewrite Hb' in Hb0. injection Hb0 as <-. exists t. rewrite Hcell, decide_True by done.
        split; [done|]. split; [done|]. intros Hlong. rewrite Hown. by rewrite (proj2 (Nat.ltb_lt _ _)).
      * rewrite Hoth by done. destruct (other_slot _ _ _ Hs) as [_ [Hc'|[-> Ho]]].
        -- rewrite Hne' in Hb0 by done. by apply (Hcl eq_refl r' c' off').
        -- rewrite Hb' in Hb0. injection Hb0 as <-. rewrite Hcell, decide_False by done.
           by apply (Hcl eq_refl r' c off').
  - rewrite (read_text r c off cs m' b' Hoff Hb' ltac:(congruence)), Hcell, decide_True by done. cbv zeta.
    rewrite view_length_written by done. cbn [m' set_text md_text]. rewrite Hown.
    destruct (Z.leb_spec (Z.of_nat (length t)) (Z.of_nat VIEW_DATA_LENGTH)).
    + by rewrite Nat2Z.id, view_data by lia.
    + by rewrite (proj2 (Nat.ltb_lt _ _)) by lia.
  - intros r' c' off' Hs Hlt. destruct (other_slot _ _ _ Hs) as [Hr' [Hc'|[-> Ho]]].
    + apply meta_read_frame; [by apply Hne'|]. by apply Hoth.
    + rewrite (read_text r' c off' cs m' b' Hlt Hb' ltac:(congruence)).
      rewrite (read_text r' c off' cs m b Hlt Hb Hlen), Hcell, decide_False by done.
      cbn [m' set_text md_text]. by rewrite Hoth.
Qed.

Lemma meta_write (k : vec0_metadata_column_kind) (v : value) (m : metadata_store) :
  meta_wf k cs n rows m -> metadata_value_ok k v = true -> value_wf v ->
  exists m', vec0_write_metadata_value k r c off v false m = (Ok tt, m') /\
    meta_wf k cs n rows' m' /\ vec0_result_metadata_value k r c off m' = Ok (stored_value k v) /\
    meta_frame k cs rows m m'.
Proof.
  intros Hw Hok Hv. destruct (proj2 (mw_upto _ _ _ _ _ Hw c) Hc) as [b Hb].
  pose proof (mw_chunks _ _ _ _ _ Hw c b Hb) as Hbk. destruct k.
  - destruct (bit_cell_roundtrip r c off cs v false m b) as (b' & E & Hw' & R & F);
      [done|done|by apply meta_chunk_bitmap|done|].
    destruct (meta_write_plain METADATA_KIND_BOOLEAN v m b b') as [H1 H2]; eauto using bitmap_meta_chunk.
  - destruct (number_cell_roundtrip METADATA_KIND_INTEGER r c off cs v false m b)
      as (b' & E & Hl & R & F); [auto|done..|apply Hbk|].
    destruct (meta_write_plain METADATA_KIND_INTEGER v m b b') as [H1 H2]; eauto.
    split; [|done]. rewrite Hl. apply Hbk.
  - destruct (number_cell_roundtrip METADATA_KIND_FLOAT r c off cs v false m b)
      as (b' & E & Hl & R & F); [auto|done..|apply Hbk|].
    destruct (meta_write_plain METADATA_KIND_FLOAT v m b b') as [H1 H2]; eauto.
    split; [|done]. rewrite Hl. apply Hbk.
  - destruct v as [| | |t|]; try done. by apply meta_write_text.
Qed.

End MetaWrite.

(** ** Clearing the cell of a deleted row *)

Section MetaClear.
Context (cs : nat) (n : Z) (rows : gmap Z rowid_row) (r c : Z) (off : nat).
Hypothesis (Hcs : (cs mod 8 = 0)%nat) (Hslot : slot rows r c off)
  (Hinj : forall r', slot rows r' c off -> r' = r) (Hc : 1 <= c <= n) (Hoff : (off < cs)%nat).

Let rows' := delete r rows.

Lemma remaining_slot (r' c' : Z) (off' : nat) :
  slot rows' r' c' off' -> r' <> r /\ slot rows r' c' off' /\ (c' <> c \/ c' = c /\ off' <> off).
Proof.
  intros [Hr Hs]%slot_delete. split; [done|]. split; [done|].
  destruct (decide (c' = c)) as [->|]; [|by left]. right. split; [done|]. intros ->. by apply Hr, Hinj.
Qed.

Lemma meta_clear_plain (k : vec0_metadata_column_kind) (m : metadata_store) (b b' : bytes) :
  k <> METADATA_KIND_TEXT -> meta_wf k cs n rows m -> meta_chunk_ok k cs b' ->
  (forall r off', off' <> off -> (off' < cs)%nat ->
     vec0_result_metadata_value k r c off' (set_chunk c b' m) = vec0_result_metadata_value k r c off' m) ->
  meta_wf k cs n rows' (set_chunk c b' m) /\ meta_frame k cs rows' m (set_chunk c b' m).
Proof.
  intros Hk [Hu Hch _ _ _ _] Hb' Hf. split.
  - apply meta_wf_plain; [done|apply (meta_set_chunk k cs n c b' m Hu Hc Hch Hb')..].
  - intros r' c' off' Hs Hlt. destruct (remaining_slot _ _ _ Hs) as (_ & _ & [Hne|[-> Hne]]); [|auto].
    apply meta_read_frame; [|done]. cbn. by rewrite lookup_insert_ne.
Qed.

Lemma meta_clear_text (m : metadata_store) :
  meta_wf METADATA_KIND_TEXT cs n rows m ->
  exists rc m', vec0Update_Delete_ClearMetadata METADATA_KIND_TEXT r c off m = (rc, m') /\
    rc <> Undef /\ meta_wf METADATA_KIND_TEXT cs n rows' m' /\ meta_frame METADATA_KIND_TEXT cs rows' m m'.
Proof.
  intros [Hu Hch Hag Htx Hfr Hcl]. destruct (proj2 (Hu c) Hc) as [b Hb]. pose proof (Hch c b Hb) as [Hlen _].
  cbn [vec0_metadata_chunk_size] in Hlen.
  destruct (clear_text_cell r c off cs m b Hoff Hb Hlen (Hag r c off Hslot b Hb))
    as (rc & b' & E & Hrc & Hl & Hcell).
  set (m' := set_text (delete r (md_text m)) (set_chunk c b' m)) in *.
  exists rc, m'. split; [exact E|]. split; [done|].
  assert (Hb' : md_chunks m' !! c = Some b') by apply lookup_insert_eq.
  assert (Hne' : forall c', c' <> c -> md_chunks m' !! c' = md_chunks m !! c')
    by (intros; cbn; by rewrite lookup_insert_ne).
  assert (Htxt : forall r', r' <> r -> md_text m' !! r' = md_text m !! r')
    by (intros; cbn; by rewrite lookup_delete_ne).
  assert (Hb'ok : meta_chunk_ok METADATA_KIND_TEXT cs b') by (split; [cbn; congruence|done]).
  destruct (meta_set_chunk METADATA_KIND_TEXT cs n c b' m Hu Hc Hch Hb'ok) as [Hu' Hch'].
  split; [split; [done|done| | | |]|].
  - intros r' c' off' Hs. destruct (remaining_slot _ _ _ Hs) as (Hr & Hs0 & [Hc'|[-> Ho]]); intros b0 Hb0.
    + rewrite Hne' in Hb0 by done. rewrite Htxt by done. by apply (Hag r' c' off' Hs0).
    + rewrite Hb' in Hb0. injection Hb0 as <-. rewrite Htxt by done.
      destruct (decide (off' < cs)%nat) as [Hlt|Hge].
      * rewrite Hcell, decide_False by done. by apply (Hag r' c off' Hs0).
      * rewrite <- (Hag r' c off' Hs0 b Hb). unfold slice, VIEW_BUFFER_LENGTH in *. by rewrite !drop_ge by lia.
  - intros _ r' Hr'. cbn [m' set_text md_text]. unfold rows' in Hr'. destruct (decide (r' = r)) as [->|Hne].
    { by rewrite lookup_delete_eq. }
    rewrite lookup_delete_ne in Hr' by done. rewrite lookup_delete_ne by done. by apply Htx.
  - intros _ c' off' b0 Hlt Hb0 Hns. unfold cell_view. destruct (decide (c' = c /\ off' = off)) as [[-> ->]|Ho].
    { rewrite Hb' in Hb0. injection Hb0 as <-. rewrite Hcell, decide_True by done. done. }
    assert (Hns' : forall r0, ~ slot rows r0 c' off').
    { intros r0 Hs. apply (Hns r0), slot_delete. split; [|done]. intros ->. destruct Hs as [i1 E1], Hslot as [i2 E2].
      rewrite E1 in E2. injection E2 as -> -> ->. by apply Ho. }
    destruct (decide (c' = c)) as [->|Hne]; [|rewrite Hne' in Hb0 by done; by eapply Hfr].
    rewrite Hb' in Hb0. injection Hb0 as <-. rewrite Hcell, decide_False by naive_solver. by eapply Hfr.
  - intros _ r' c' off' b0 Hlt Hb0 Hs. unfold cell_view.
    destruct (remaining_slot _ _ _ Hs) as (Hr & Hs0 & [Hc'|[-> Ho]]); rewrite Htxt by done.
    + rewrite Hne' in Hb0 by done. by apply (Hcl eq_refl r' c' off').
    + rewrite Hb' in Hb0. injection Hb0 as <-. rewrite Hcell, decide_False by done.
      by apply (Hcl eq_refl r' c off').
  - intros r' c' off' Hs Hlt. destruct (remaining_slot _ _ _ Hs) as (Hr & Hs0 & [Hc'|[-> Ho]]).
    + apply meta_read_frame; [by apply Hne'|by apply Htxt].
    + rewrite (read_text r' c off' cs m' b' Hlt Hb' ltac:(congruence)).
      rewrite (read_text r' c off' cs m b Hlt Hb Hlen), Hcell, decide_False by done. by rewrite Htxt.
Qed.

Lemma meta_clear (k : vec0_metadata_column_kind) (m : metadata_store) :
  meta_wf k cs n rows m ->
  exists rc m', vec0Update_Delete_ClearMetadata k r c off m = (rc, m') /\ rc <> Undef /\
    meta_wf k cs n rows' m' /\ meta_frame k cs rows' m m'.
Proof.
  intros Hw. destruct (proj2 (mw_upto _ _ _ _ _ Hw c) Hc) as [b Hb].
  pose proof (mw_chunks _ _ _ _ _ Hw c b Hb) as Hbk. destruct k.
  - destruct (clear_bit_cell r c off cs m b) as (b' & E & Hw' & F);
      [done|by apply meta_chunk_bitmap|done|].
    eexists _, _. split; [exact E|]. split; [done|]. by apply meta_clear_plain; auto using bitmap_meta_chunk.
  - destruct (clear_number_cell METADATA_KIND_INTEGER r c off cs m b) as (b' & E & Hl & F);
      [auto|done..|apply Hbk|].
    eexists _, _. split; [exact E|]. split; [done|]. apply meta_clear_plain; auto.
    split; [|done]. rewrite Hl. apply Hbk.
  - destruct (clear_number_cell METADATA_KIND_FLOAT r c off cs m b) as (b' & E & Hl & F);
      [auto|done..|apply Hbk|].
    eexists _, _. split; [exact E|]. split; [done|]. apply meta_clear_plain; auto.
    split; [|done]. rewrite Hl. apply Hbk.
  - by apply meta_clear_text.
Qed.

End MetaClear.

(** ** A new chunk *)

Definition meta_append (k : vec0_metadata_column_kind) (cs : nat) (m : metadata_store) : metadata_store :=
  MkMetadata (append_blob (replicate (vec0_metadata_chunk_size k cs) 0) (md_chunks m)) (md_text m).

Lemma view_length_zero (n off : nat) : view_length (cell_view (replicate n 0) off) = 0.
Proof.
  unfold cell_view, slice, view_length. rewrite drop_replicate, take_replicate.
  generalize (VIEW_BUFFER_LENGTH `min` (n - off * VIEW_BUFFER_LENGTH))%nat. intros k.
  do 4 (destruct k as [|k]; [done|]). done.
Qed.

Lemma meta_append_wf (k : vec0_metadata_column_kind) (cs : nat) (n : Z) (rows : gmap Z rowid_row)
    (m : metadata_store) :
  0 <= n -> (forall r c off, slot rows r c off -> 1 <= c <= n) -> meta_wf k cs n rows m ->
  meta_wf k cs (n + 1) rows (meta_append k cs m) /\ meta_frame k cs rows m (meta_append k cs m).
Proof.
  intros Hn Hrows [Hu Hch Hag Htx Hfr Hcl]. unfold meta_append, append_blob. rewrite (max_key_upto n) by done.
  set (z := replicate _ 0). assert (Hz : meta_chunk_ok k cs z).
  { split; [apply length_replicate|]. intros _. apply Forall_replicate. unfold is_byte. lia. }
  assert (Hold : forall c, 1 <= c <= n -> <[n + 1 := z]> (md_chunks m) !! c = md_chunks m !! c)
    by (intros; rewrite lookup_insert_ne; [done|lia]).
  split; [split; cbn [md_chunks md_text]|].
  - by apply upto_append.
  - intros c b. destruct (decide (c = n + 1)) as [->|]; [rewrite lookup_insert_eq; by intros [= <-]|].
    rewrite lookup_insert_ne by done. apply Hch.
  - intros r c off Hs. specialize (Hag r c off Hs). specialize (Hrows r c off Hs). destruct k; try done.
    intros b. cbn [md_chunks]. rewrite Hold by done. apply Hag.
  - done.
  - intros Hk c off b Hlt. destruct (decide (c = n + 1)) as [->|].
    + rewrite lookup_insert_eq. intros [= <-] _. apply view_length_zero.
    + rewrite lookup_insert_ne by done. by apply Hfr.
  - intros Hk r c off b Hlt Hb Hs. rewrite Hold in Hb by (by eapply Hrows). by apply (Hcl Hk r c off b).
  - intros r c off Hs _. apply meta_read_frame; [|done]. cbn. apply Hold. by eapply Hrows.
Qed.

(** ** The invariant of the shadow tables *)

Definition column_ok (col : VectorColumnDefinition) : Prop :=
  0 < vc_dimensions col /\
  (vc_element_type col = SQLITE_VEC_ELEMENT_TYPE_BIT -> vc_dimensions col mod 8 = 0).

(** What [vec0_init] sets up: columns of each kind are numbered in order. *)
Record schema_wf (p : vec0_vtab) : Prop := {
  sw_size : (0 < vt_chunk_size p)%nat;
  sw_size8 : (vt_chunk_size p mod 8 = 0)%nat;
  sw_columns : Forall column_ok (vt_vector_columns p);
  sw_vector : (user_columns_of USER_COLUMN_VECTOR p).*2 = seq 0 (length (vt_vector_columns p));
  sw_partition : (user_columns_of USER_COLUMN_PARTITION p).*2 = seq 0 (length (vt_partition_types p));
  sw_auxiliary : (user_columns_of USER_COLUMN_AUXILIARY p).*2 = seq 0 (length (vt_auxiliary_types p));
  sw_metadata : (user_columns_of USER_COLUMN_METADATA p).*2 = seq 0 (length (vt_metadata_kinds p))
}.

Definition chunk_wf (p : vec0_vtab) (ck : chunk_row) : Prop :=
  length (ck_partition ck) = length (vt_partition_types p) /\
  bitmap_wf (vt_chunk_size p) (ck_validity ck) /\
  length (ck_rowids ck) = (vt_chunk_size p * 8)%nat.

(** A row is where its [_rowids] entry says: the slot is valid and carries
    the rowid. *)
Definition row_wf (p : vec0_vtab) (chunks : gmap Z chunk_row) (r : Z) (row : rowid_row) : Prop :=
  exists c off ck, rr_position row = Some (c, off) /\ chunks !! c = Some ck /\
    (off < vt_chunk_size p)%nat /\ bitmap_test (ck_validity ck) off = true /\
    blob_read (ck_rowids ck) 8 (off * 8) = Some (enc_le 8 r).

Definition vectors_wf (p : vec0_vtab) (n : Z) (i : nat) (t : blob_table) : Prop :=
  upto n t /\ forall c b, t !! c = Some b -> length b = (vt_chunk_size p * column_size p i)%nat.

Definition metadata_kind_at (p : vec0_vtab) (i : nat) : vec0_metadata_column_kind :=
  aget METADATA_KIND_BOOLEAN (vt_metadata_kinds p) i.

Record db_wf {I : Type} (s : db I) : Prop := {
  wf_schema : schema_wf (db_vtab s);
  wf_seq : 0 <= db_chunks_seq s;
  wf_rowids_seq : 0 <= db_rowids_seq s;
  wf_upto : upto (db_chunks_seq s) (db_chunks s);
  wf_chunk : forall c ck, db_chunks s !! c = Some ck -> chunk_wf (db_vtab s) ck;
  wf_vectors_len : length (db_vectors s) = length (vt_vector_columns (db_vtab s));
  wf_vectors : forall i t, db_vectors s !! i = Some t -> vectors_wf (db_vtab s) (db_chunks_seq s) i t;
  wf_metadata_len : length (db_metadata s) = length (vt_metadata_kinds (db_vtab s));
  wf_metadata : forall i m, db_metadata s !! i = Some m ->
    meta_wf (metadata_kind_at (db_vtab s) i) (vt_chunk_size (db_vtab s)) (db_chunks_seq s) (db_rowids s) m;
  wf_range : forall r row, db_rowids s !! r = Some row -> in_i64 r /\ r <= db_rowids_seq s;
  wf_rows : forall r row, db_rowids s !! r = Some row -> row_wf (db_vtab s) (db_chunks s) r row;
  wf_slots : forall c ck off, db_chunks s !! c = Some ck -> (off < vt_chunk_size (db_vtab s))%nat ->
    bitmap_test (ck_validity ck) off = true -> exists r, slot (db_rowids s) r c off;
  wf_ids : vt_pkIsText (db_vtab s) = true ->
    (forall r row, db_rowids s !! r = Some row -> sqlite3_value_type (rr_id row) = SQLITE_TEXT) /\
    (forall r1 r2 row1 row2, db_rowids s !! r1 = Some row1 -> db_rowids s !! r2 = Some row2 ->
       rr_id row1 = rr_id row2 -> r1 = r2);
  wf_auxiliary : (0 < length (vt_auxiliary_types (db_vtab s)))%nat ->
    forall r, is_Some (db_auxiliary s !! r) <-> is_Some (db_rowids s !! r)
}.

(** ** The table: what the readers return for a row *)

Record row_view := MkView {
  rv_id : res value;
  rv_partition : list (res value);
  rv_vectors : list (res bytes);
  rv_auxiliary : list (res value);
  rv_metadata : list (res value)
}.

Definition view {I : Type} (s : db I) (r : Z) : row_view :=
  let p := db_vtab s in
  MkView (vec0_result_id r s)
    ((fun i => vec0_get_partition_value_for_rowid r i s) <$> seq 0 (length (vt_partition_types p)))
    ((fun i => vec0_get_vector_data r i s) <$> seq 0 (length (vt_vector_columns p)))
    ((fun i => vec0_get_auxiliary_value_for_rowid r i s) <$> seq 0 (length (vt_auxiliary_types p)))
    ((fun i => vec0_result_metadata_value_for_rowid r i s) <$> seq 0 (length (vt_metadata_kinds p))).

Definition table {I : Type} (s : db I) (r : Z) : option row_view :=
  match db_rowids s !! r with Some _ => Some (view s r) | None => None end.

Section Frame.
Context {I : Type}.

(** The cell of a vector column. *)
Definition vector_cell (s : db I) (i : nat) (c : Z) (off : nat) : option bytes :=
  match aget ∅ (db_vectors s) i !! c with
  | Some b => blob_read b (column_size (db_vtab s) i) (off * column_size (db_vtab s) i)
  | None => None
  end.

Definition metadata_cell (s : db I) (i : nat) (r c : Z) (off : nat) : res value :=
  vec0_result_metadata_value (metadata_kind_at (db_vtab s) i) r c off
    (aget (MkMetadata ∅ ∅) (db_metadata s) i).

Definition or_error {A : Type} (o : option A) : res A :=
  match o with Some x => Ok x | None => Err SQLITE_ERROR end.

(** The view of a row in a known slot. *)
Lemma view_slot (s : db I) (r c : Z) (off : nat) (id : value) :
  db_rowids s !! r = Some (MkRow id (Some (c, off))) ->
  view s r =
    let p := db_vtab s in
    MkView (Ok (if vt_pkIsText p then id else VInt r))
      ((fun i => or_error ((fun ck => aget VNull (ck_partition ck) i) <$> db_chunks s !! c))
         <$> seq 0 (length (vt_partition_types p)))
      ((fun i => or_error (vector_cell s i c off)) <$> seq 0 (length (vt_vector_columns p)))
      ((fun i => or_error ((fun vs => aget VNull vs i) <$> db_auxiliary s !! r))
         <$> seq 0 (length (vt_auxiliary_types p)))
      ((fun i => metadata_cell s i r c off) <$> seq 0 (length (vt_metadata_kinds p))).
Proof.
  intros Hr. unfold view, vec0_result_id, vec0_get_partition_value_for_rowid, vec0_get_vector_data,
    vec0_get_auxiliary_value_for_rowid, vec0_result_metadata_value_for_rowid, vec0_get_chunk_position.
  rewrite Hr. cbn [rr_position rr_id]. change (default (0, 0%nat) (Some (c, off))) with (c, off).
  cbv beta iota zeta. f_equal.
  - by destruct (vt_pkIsText (db_vtab s)).
  - apply fmap_seq0_ext. intros i _. by destruct (db_chunks s !! c).
  - apply fmap_seq0_ext. intros i _. unfold vector_cell.
    destruct (aget ∅ (db_vectors s) i !! c) as [b|]; [|done]. by destruct (blob_read _ _ _).
  - apply fmap_seq0_ext. intros i _. by destruct (db_auxiliary s !! r).
Qed.

Lemma table_frame (s s' : db I) (r : Z) :
  db_wf s -> db_vtab s' = db_vtab s -> db_rowids s' !! r = db_rowids s !! r ->
  db_auxiliary s' !! r = db_auxiliary s !! r ->
  (forall c off, slot (db_rowids s) r c off -> (off < vt_chunk_size (db_vtab s))%nat ->
     ck_partition <$> db_chunks s' !! c = ck_partition <$> db_chunks s !! c /\
     (forall i, (i < length (vt_vector_columns (db_vtab s)))%nat -> vector_cell s' i c off = vector_cell s i c off) /\
     (forall i, (i < length (vt_metadata_kinds (db_vtab s)))%nat ->
        metadata_cell s' i r c off = metadata_cell s i r c off)) ->
  table s' r = table s r.
Proof.
  intros Hw Hp Hr Ha Hcell. unfold table. rewrite Hr.
  destruct (db_rowids s !! r) as [[id pos]|] eqn:E; [|done]. f_equal.
  destruct (wf_rows s Hw r _ E) as (c & off & ck & Hpos & Hck & Hoff & _). cbn in Hpos. subst pos.
  destruct (Hcell c off (ex_intro _ id E) Hoff) as (H1 & H2 & H3).
  rewrite (view_slot s' r c off id), (view_slot s r c off id), Hp by congruence. cbv zeta. f_equal.
  - apply fmap_seq0_ext. intros i _. f_equal.
    destruct (db_chunks s' !! c), (db_chunks s !! c); cbn in *; try done. injection H1 as H1. by rewrite H1.
  - apply fmap_seq0_ext. intros i Hi. by rewrite H2.
  - by rewrite Ha.
  - apply fmap_seq0_ext. intros i Hi. by apply H3.
Qed.

(** No two rows share a slot. *)
Lemma enc_le_inj (r1 r2 : Z) : in_i64 r1 -> in_i64 r2 -> enc_le 8 r1 = enc_le 8 r2 -> r1 = r2.
Proof.
  intros H1 H2 E. pose proof (dec_enc_i64 r1 [] H1) as D1. pose proof (dec_enc_i64 r2 [] H2) as D2.
  rewrite E, D2 in D1. by injection D1.
Qed.

Lemma slot_inj (s : db I) (r1 r2 c : Z) (off : nat) :
  db_wf s -> slot (db_rowids s) r1 c off -> slot (db_rowids s) r2 c off -> r1 = r2.
Proof.
  intros Hw [id1 E1] [id2 E2].
  destruct (wf_rows s Hw _ _ E1) as (? & ? & ck1 & [= <- <-] & Hc1 & _ & _ & R1).
  destruct (wf_rows s Hw _ _ E2) as (? & ? & ck2 & [= <- <-] & Hc2 & _ & _ & R2).
  rewrite Hc1 in Hc2. injection Hc2 as <-. rewrite R1 in R2.
  apply enc_le_inj; [apply (wf_range s Hw _ _ E1)|apply (wf_range s Hw _ _ E2)|].
  exact (f_equal (default []) R2).
Qed.

Lemma slot_chunk (s : db I) (r c : Z) (off : nat) :
  db_wf s -> slot (db_rowids s) r c off -> 1 <= c <= db_chunks_seq s.
Proof.
  intros Hw [id E]. destruct (wf_rows s Hw _ _ E) as (? & ? & ck & [= <- <-] & Hc & _).
  apply (wf_upto s Hw). by eexists.
Qed.

End Frame.
