(* ===== verification/Refine.v ===== *)
(** * The handlers refine the abstract table (sqlite-vec.c,
    [vec0Update_Insert], [vec0Update_Delete], [vec0Update_Update])

    Each handler is run step by step on a state that satisfies the invariant;
    the resulting state is given explicitly, shown to satisfy the invariant
    and to stand for the updated map. *)

From stdpp Require Import base option list numbers gmap.
From Stdlib Require Import ZArith Lia.
From S2P Require Import Prelude Float32 Bitmap Codec Shadow DefParser Metadata Values Storage Table.

Local Open Scope Z_scope.

(** ** Loops over the columns of a table *)

Lemma list_alter_some {A : Type} (f : A -> A) (i : nat) (l : list A) (a : A) :
  l !! i = Some a -> alter f i l = <[i := f a]> l.
Proof.
  revert i. induction l as [|x l IH]; intros [|i] H; try done.
  - by injection H as ->.
  - cbn. f_equal. by apply IH.
Qed.

Lemma zip_with_imap {A B C : Type} (h : nat -> A -> C) (L : list B) (key : B -> nat) (l : list A) :
  key <$> L = seq 0 (length l) -> zip_with (fun x a => h (key x) a) L l = imap h l.
Proof.
  intros Hk. apply list_eq. intros i. rewrite list_lookup_imap.
  assert (HLi : key <$> L !! i = seq 0 (length l) !! i) by (by rewrite <- Hk, list_lookup_fmap).
  destruct (l !! i) as [a|] eqn:Ea.
  - pose proof (lookup_lt_Some _ _ _ Ea) as Hlt. rewrite lookup_seq_lt in HLi by done.
    destruct (L !! i) as [x|] eqn:Ex; [|done]. cbn in HLi. injection HLi as HLi.
    rewrite lookup_zip_with, Ex, Ea. cbn. by rewrite HLi.
  - rewrite lookup_zip_with, Ea. by destruct (L !! i).
Qed.

Section Loops2.
Context {I : Type}.

Lemma set_vectors_id (s : db I) : set_vectors (db_vectors s) s = s.
Proof. by destruct s. Qed.

Lemma set_metadata_id (s : db I) : set_metadata (db_metadata s) s = s.
Proof. by destruct s. Qed.

(** Each round rewrites the vector table of its column. *)
Lemma mfor_vectors {B : Type} (key : B -> nat) (h : nat -> blob_table -> blob_table)
    (body : B -> M (db I) unit) (L : list B) (s : db I) :
  key <$> L = seq 0 (length (db_vectors s)) ->
  (forall x a l, x ∈ L -> db_vectors s !! key x = Some a -> l !! key x = Some a ->
     body x (set_vectors l s) = (Ok tt, set_vectors (<[key x := h (key x) a]> l) s)) ->
  mfor body L s = (Ok tt, set_vectors (imap h (db_vectors s)) s).
Proof.
  intros Hk Hb. rewrite <- (zip_with_imap h L key) by done.
  by apply (mfor_cells db_vectors set_vectors key (fun _ _ => eq_refl) (fun _ _ _ => eq_refl)
           set_vectors_id body (fun x a => h (key x) a)).
Qed.

Lemma mfor_metadata {B : Type} (key : B -> nat) (g : B -> metadata_store -> metadata_store)
    (m : B -> M metadata_store unit) (L : list B) (s : db I) :
  key <$> L = seq 0 (length (db_metadata s)) ->
  (forall x a, x ∈ L -> db_metadata s !! key x = Some a -> m x a = (Ok tt, g x a)) ->
  mfor (fun x => on_metadata (key x) (m x)) L s = (Ok tt, set_metadata (zip_with g L (db_metadata s)) s).
Proof.
  intros Hk Hb.
  apply (mfor_cells db_metadata set_metadata key (fun _ _ => eq_refl) (fun _ _ _ => eq_refl)
           set_metadata_id); [done|].
  intros x a l Hx Ha Hl. unfold on_metadata. cbn [set_metadata db_metadata]. by rewrite Hl, (Hb x a Hx Ha).
Qed.

End Loops2.

(** ** A new chunk *)

Section NewChunk.
Context {I : Type} `{IndexOps I}.

Definition add_chunk (keys : list value) (s : db I) : db I :=
  let p := db_vtab s in
  let cs := vt_chunk_size p in
  let n := db_chunks_seq s in
  set_metadata (imap (fun i m => meta_append (metadata_kind_at p i) cs m) (db_metadata s))
    (set_vectors (imap (fun i t => append_blob (replicate (cs * column_size p i) 0) t) (db_vectors s))
      (set_chunks (<[n + 1 := MkChunk cs keys (replicate (cs / CHAR_BIT) 0) (replicate (cs * 8) 0)]>
                     (db_chunks s)) (n + 1) s)).

Lemma vec0_new_chunk_ok (keys : list value) (t : gmap Z rowid_row) (q : Z) (s : db I) :
  db_wf s -> db_chunks_seq s < I64_MAX ->
  vec0_new_chunk keys (set_rowids t q s) = (Ok (db_chunks_seq s + 1), set_rowids t q (add_chunk keys s)).
Proof.
  intros Hw Hseq. pose proof (wf_schema s Hw) as Hp. unfold vec0_new_chunk.
  do 3 erewrite mbind_ok by reflexivity. cbn [db_chunks_seq set_rowids db_vtab].
  rewrite (proj2 (Z.leb_gt _ _)) by lia. do 2 erewrite mbind_ok by reflexivity.
  erewrite mbind_ok.
  2:{ apply (mfor_vectors snd (fun i t => append_blob
        (replicate (vt_chunk_size (db_vtab s) * column_size (db_vtab s) i) 0) t)).
      - cbn. by rewrite (wf_vectors_len s Hw), (sw_vector _ Hp).
      - intros x a l _ _ Hl. unfold mput. cbn [db_vectors set_vectors].
        by rewrite (list_alter_some _ _ _ _ Hl). }
  erewrite mbind_ok.
  2:{ apply (mfor_metadata snd (fun x m => meta_append (metadata_kind_at (db_vtab s) x.2)
        (vt_chunk_size (db_vtab s)) m)).
      - cbn. by rewrite (wf_metadata_len s Hw), (sw_metadata _ Hp).
      - done. }
  unfold mret. f_equal. unfold add_chunk.
  rewrite (zip_with_imap (fun i m => meta_append (metadata_kind_at (db_vtab s) i)
             (vt_chunk_size (db_vtab s)) m) _ snd).
  - done.
  - cbn. by rewrite (wf_metadata_len s Hw), (sw_metadata _ Hp).
Qed.

Lemma add_chunk_wf (keys : list value) (s : db I) :
  db_wf s -> length keys = length (vt_partition_types (db_vtab s)) -> db_wf (add_chunk keys s).
Proof.
  intros Hw Hk. pose proof (wf_schema s Hw) as Hp. pose proof (wf_seq s Hw) as Hseq.
  set (cs := vt_chunk_size (db_vtab s)).
  assert (Hold : forall c ck, db_chunks s !! c = Some ck ->
    db_chunks (add_chunk keys s) !! c = Some ck).
  { intros c ck E. cbn. rewrite lookup_insert_ne; [done|]. intros <-.
    by rewrite (upto_fresh _ _ (wf_upto s Hw)) in E. }
  assert (Hbits : bitmap_wf cs (replicate (cs / CHAR_BIT) 0)) by apply bitmap_zero_wf, (sw_size8 _ Hp).
  split; cbn [add_chunk set_metadata set_vectors set_chunks db_vtab db_chunks db_chunks_seq db_vectors
              db_metadata db_rowids db_rowids_seq db_auxiliary].
  - done.
  - lia.
  - apply (wf_rowids_seq s Hw).
  - apply upto_append; [done|apply (wf_upto s Hw)].
  - intros c ck. destruct (decide (c = db_chunks_seq s + 1)) as [->|Hne].
    + rewrite lookup_insert_eq. intros [= <-]. split; [done|]. split; [exact Hbits|apply length_replicate].
    + rewrite lookup_insert_ne by done. apply (wf_chunk s Hw).
  - by rewrite length_imap, (wf_vectors_len s Hw).
  - intros i t. rewrite list_lookup_imap. intros (t0 & Ht0 & ->)%fmap_Some_1.
    destruct (wf_vectors s Hw i t0 Ht0) as [Hu Hl]. unfold append_blob. rewrite (max_key_upto _ _ Hseq Hu).
    split; [by apply upto_append|]. intros c b.
    destruct (decide (c = db_chunks_seq s + 1)) as [->|Hne].
    + rewrite lookup_insert_eq. intros [= <-]. apply length_replicate.
    + rewrite lookup_insert_ne by done. apply Hl.
  - by rewrite length_imap, (wf_metadata_len s Hw).
  - intros i m. rewrite list_lookup_imap. intros (m0 & Hm0 & ->)%fmap_Some_1.
    apply meta_append_wf; [done| |apply (wf_metadata s Hw i m0 Hm0)].
    intros r c off Hs. by apply (slot_chunk s r c off).
  - apply (wf_range s Hw).
  - intros r row E. destruct (wf_rows s Hw r row E) as (c & off & ck & H1 & H2 & H3).
    exists c, off, ck. split; [done|]. split; [by apply Hold|done].
  - intros c ck off. destruct (decide (c = db_chunks_seq s + 1)) as [->|Hne].
    + rewrite lookup_insert_eq. intros [= <-] _. cbn [ck_validity]. by rewrite bitmap_zero_test.
    + rewrite lookup_insert_ne by done. apply (wf_slots s Hw).
  - apply (wf_ids s Hw).
  - apply (wf_auxiliary s Hw).
Qed.

Lemma add_chunk_table (keys : list value) (s : db I) (r : Z) :
  db_wf s -> table (add_chunk keys s) r = table s r.
Proof.
  intros Hw. apply table_frame; [done..|]. intros c off Hs Hoff.
  pose proof (slot_chunk s r c off Hw Hs) as Hc. pose proof (wf_seq s Hw) as Hseq.
  split; [|split].
  - cbn. rewrite lookup_insert_ne; [done|lia].
  - intros i Hi. unfold vector_cell, aget.
    cbn [add_chunk set_metadata set_vectors set_chunks db_vtab db_vectors]. rewrite list_lookup_imap.
    rewrite <- (wf_vectors_len s Hw) in Hi. destruct (lookup_lt_is_Some_2 _ _ Hi) as [t Ht]. rewrite Ht.
    change (default ∅ (_ <$> Some t)) with
      (append_blob (replicate (vt_chunk_size (db_vtab s) * column_size (db_vtab s) i) 0) t).
    change (default ∅ (Some t)) with t. unfold append_blob.
    rewrite (max_key_upto _ _ Hseq (proj1 (wf_vectors s Hw i t Ht))).
    rewrite lookup_insert_ne; [done|lia].
  - intros i Hi. unfold metadata_cell, aget.
    cbn [add_chunk set_metadata set_vectors set_chunks db_vtab db_metadata]. rewrite list_lookup_imap.
    rewrite <- (wf_metadata_len s Hw) in Hi. destruct (lookup_lt_is_Some_2 _ _ Hi) as [m Hm]. rewrite Hm.
    eapply (meta_append_wf _ _ _ (db_rowids s)); [exact Hseq| |apply (wf_metadata s Hw i m Hm)|exact Hs|exact Hoff].
    intros r' c' off' Hs'. by apply (slot_chunk s r' c' off').
Qed.

End NewChunk.

(** ** The next available slot *)

Section NextAvailable.
Context {I : Type} `{IndexOps I}.

Lemma sql_eq_true (a b : value) : sql_eq a b = true -> a = b.
Proof. destruct a, b; cbn; try done; by intros ?%bool_decide_eq_true. Qed.

Lemma partition_match_eq (a b : list value) :
  length a = length b -> partition_match a b = true -> a = b.
Proof.
  revert b. induction a as [|x a IH]; intros [|y b] Hl Hm; try done.
  cbn in Hm. apply andb_true_iff in Hm as [Hx Hm]. apply sql_eq_true in Hx as ->.
  f_equal. apply IH; [by injection Hl|done].
Qed.

Lemma foldr_max_elem (c : Z) (l : list Z) : foldr Z.max c l ∈ c :: l.
Proof.
  induction l as [|x l IH]; cbn; [set_solver|].
  destruct (Z.max_dec x (foldr Z.max c l)) as [-> | ->]; set_solver.
Qed.

Lemma latest_chunk_spec (keys : list value) (s : db I) :
  match vec0_get_latest_chunk_rowid keys s with
  | Ok c => exists ck, db_chunks s !! c = Some ck /\ partition_match (ck_partition ck) keys = true
  | Err rc => rc = SQLITE_EMPTY
  | Undef => False
  end.
Proof.
  unfold vec0_get_latest_chunk_rowid. set (l := filter _ _).
  assert (Hl : forall x, x ∈ l -> db_chunks s !! x.1 = Some x.2 /\ partition_match (ck_partition x.2) keys = true).
  { intros [c ck] Hx. apply list_elem_of_filter in Hx as [Hm Hx]. apply elem_of_map_to_list in Hx. done. }
  destruct l as [|x l]; [done|].
  assert (Hin : foldr Z.max x.1 l.*1 ∈ (x :: l).*1) by apply foldr_max_elem.
  apply list_elem_of_fmap in Hin as (y & -> & Hy). exists y.2. by apply Hl.
Qed.

(** A state with the same rows and at least the same chunks. *)
Record extends (s s0 : db I) : Prop := {
  ex_wf : db_wf s0;
  ex_table : forall r, table s0 r = table s r;
  ex_vtab : db_vtab s0 = db_vtab s;
  ex_rowids : db_rowids s0 = db_rowids s;
  ex_seq : db_rowids_seq s0 = db_rowids_seq s;
  ex_auxiliary : db_auxiliary s0 = db_auxiliary s;
  ex_index : db_index s0 = db_index s
}.

Lemma open_validity_ok (t : gmap Z rowid_row) (q : Z) (s : db I) (c : Z) (ck : chunk_row) :
  db_wf s -> db_chunks s !! c = Some ck ->
  open_validity c (set_rowids t q s) = (Ok (ck_validity ck), set_rowids t q s).
Proof.
  intros Hw Hc. destruct (wf_chunk s Hw c ck Hc) as (_ & [Hl _] & _). unfold open_validity.
  do 2 erewrite mbind_ok by reflexivity. cbn [set_rowids db_chunks db_vtab]. rewrite Hc.
  cbn [mopt]. erewrite mbind_ok by reflexivity. rewrite <- Hl. unfold CHAR_BIT.
  rewrite Nat.div_mul by done. by rewrite Nat.eqb_refl.
Qed.

Lemma next_available_step (keys : list value) (t : gmap Z rowid_row) (q : Z) (s : db I) :
  db_wf s -> length keys = length (vt_partition_types (db_vtab s)) -> db_chunks_seq s < I64_MAX ->
  exists s0 c off ck,
    vec0Update_InsertNextAvailableStep keys (set_rowids t q s)
      = (Ok (c, off, ck_validity ck), set_rowids t q s0) /\
    extends s s0 /\ db_chunks s0 !! c = Some ck /\ ck_partition ck = keys /\
    (off < vt_chunk_size (db_vtab s))%nat /\ bitmap_test (ck_validity ck) off = false.
Proof.
  intros Hw Hk Hseq. pose proof (wf_schema s Hw) as Hp.
  set (ck0 := MkChunk (vt_chunk_size (db_vtab s)) keys (replicate (vt_chunk_size (db_vtab s) / CHAR_BIT) 0)
                (replicate (vt_chunk_size (db_vtab s) * 8) 0)).
  pose proof (add_chunk_wf keys s Hw Hk) as Hw'.
  assert (Hc0 : db_chunks (add_chunk keys s) !! (db_chunks_seq s + 1) = Some ck0) by apply lookup_insert_eq.
  assert (Hfresh : exists s0 c off ck,
    mbind (vec0_new_chunk keys) (fun chunk_rowid => mbind (open_validity chunk_rowid)
      (fun validity => mret (chunk_rowid, 0%nat, validity))) (set_rowids t q s)
      = (Ok (c, off, ck_validity ck), set_rowids t q s0) /\
    extends s s0 /\ db_chunks s0 !! c = Some ck /\ ck_partition ck = keys /\
    (off < vt_chunk_size (db_vtab s))%nat /\ bitmap_test (ck_validity ck) off = false).
  { exists (add_chunk keys s), (db_chunks_seq s + 1), 0%nat, ck0. split.
    - erewrite mbind_ok by (by apply vec0_new_chunk_ok). by erewrite mbind_ok by (by apply open_validity_ok).
    - split; [split; try done; intros; by apply add_chunk_table|]. split; [done|]. split; [done|].
      split; [apply (sw_size _ Hp)|apply bitmap_zero_test]. }
  unfold vec0Update_InsertNextAvailableStep. erewrite mbind_ok by reflexivity.
  pose proof (latest_chunk_spec keys (set_rowids t q s)) as Hl.
  destruct (vec0_get_latest_chunk_rowid keys (set_rowids t q s)) as [c|rc|]; [|by subst rc|done].
  destruct Hl as (ck & Hc & Hm). cbn [set_rowids db_chunks] in Hc.
  destruct (wf_chunk s Hw c ck Hc) as (Hlen & Hbits & _).
  erewrite mbind_ok by (by apply open_validity_ok).
  pose proof (next_available_spec _ _ Hbits) as Hna.
  destruct (next_available (ck_validity ck) 0) as [off|]; [|exact Hfresh].
  exists s, c, off, ck. split; [done|]. split; [by split|]. split; [done|].
  split; [apply partition_match_eq; [congruence|done]|done].
Qed.

End NextAvailable.

(** ** Writing the row *)

Lemma column_size_cases (col : VectorColumnDefinition) (off : nat) (data : bytes) (b : bytes) :
  column_ok col -> length data = Z.to_nat (vector_column_byte_size col) ->
  vec0_write_vector_to_vector_blob b off data (Z.to_nat (vc_dimensions col)) (vc_element_type col)
  = blob_write b data (off * Z.to_nat (vector_column_byte_size col)).
Proof.
  intros [Hd Hbit] Hl. unfold vec0_write_vector_to_vector_blob, vector_column_byte_size, vector_byte_size in *.
  destruct (vc_element_type col); unfold CHAR_BIT.
  - rewrite Z2Nat.inj_mul in * by lia. change (Z.to_nat 4) with 4%nat in *. rewrite <- Hl, take_ge by done.
    f_equal. lia.
  - specialize (Hbit eq_refl). pose proof (Z.div_mod (vc_dimensions col) 8 ltac:(lia)) as E.
    rewrite Z2Nat.inj_div in * by lia. change (Z.to_nat 8) with 8%nat in *.
    rewrite <- Hl, take_ge by done. f_equal. rewrite Hl.
    assert (Ed : (Z.to_nat (vc_dimensions col) = Z.to_nat (vc_dimensions col) / 8 * 8)%nat).
    { apply Nat2Z.inj. rewrite Nat2Z.inj_mul, Nat2Z.inj_div, !Z2Nat.id by lia. lia. }
    rewrite Ed at 1. rewrite Nat.mul_assoc. by rewrite Nat.div_mul.
  - rewrite <- Hl, take_ge by done. done.
Qed.

Section Place.
Context {I : Type} `{IndexOps I}.
Context (s0 : db I) (Hw : db_wf s0) (r : Z) (id : value) (q : Z) (c : Z) (off : nat) (ck : chunk_row)
  (datas : list bytes).
Context (Hnew : db_rowids s0 !! r = None) (Hr : in_i64 r).
Context (Hck : db_chunks s0 !! c = Some ck) (Hoff : (off < vt_chunk_size (db_vtab s0))%nat).
Context (Hbit : bitmap_test (ck_validity ck) off = false).
Context (Hdata : forall i, (i < length (vt_vector_columns (db_vtab s0)))%nat ->
     length (aget [] datas i) = column_size (db_vtab s0) i).

Let p := db_vtab s0.
Let cs := vt_chunk_size p.

Definition placed_chunk : chunk_row :=
  MkChunk (ck_size ck) (ck_partition ck) (bitmap_set (ck_validity ck) off true)
    (write_at (off * 8) (enc_le 8 r) (ck_rowids ck)).

Definition placed_vectors : list blob_table :=
  imap (fun i t => <[c := write_at (off * column_size p i) (aget [] datas i) (default [] (t !! c))]> t)
    (db_vectors s0).

Definition placed : db I :=
  MkDb p (<[r := MkRow id (Some (c, off))]> (db_rowids s0)) q (<[c := placed_chunk]> (db_chunks s0))
    (db_chunks_seq s0) placed_vectors (db_auxiliary s0) (db_metadata s0) (db_index s0).

Lemma chunk_in_range : 1 <= c <= db_chunks_seq s0.
Proof. apply (wf_upto s0 Hw). by eexists. Qed.

Lemma cell_fits (i : nat) (t : blob_table) (b : bytes) :
  db_vectors s0 !! i = Some t -> t !! c = Some b -> (S off * column_size p i <= length b)%nat.
Proof.
  intros Ht Hb. destruct (wf_vectors s0 Hw i t Ht) as [_ Hl]. rewrite (Hl c b Hb).
  apply Nat.mul_le_mono_r. exact Hoff.
Qed.

Lemma write_vector_ok (i : nat) (t : blob_table) (l : list blob_table) (s : db I) (check : bool) :
  db_vtab s = p -> db_vectors s0 !! i = Some t -> db_vectors s = l -> l !! i = Some t ->
  write_vector i c off (aget [] datas i) check s =
    (Ok tt, set_vectors (<[i := <[c := write_at (off * column_size p i) (aget [] datas i)
                                        (default [] (t !! c))]> t]> l) s).
Proof.
  intros Hp Ht Hv Hl. destruct (wf_vectors s0 Hw i t Ht) as [Hu Hsz].
  destruct (proj2 (Hu c) chunk_in_range) as [b Hb].
  pose proof (cell_fits i t b Ht Hb) as Hfit. pose proof (lookup_lt_Some _ _ _ Ht) as Hi.
  rewrite (wf_vectors_len s0 Hw) in Hi. pose proof (Hdata i Hi) as Hdl.
  assert (Hcol : column_ok (vector_column p i)).
  { pose proof (aget_lookup_lt no_column _ _ Hi) as E.
    exact (proj1 (Forall_lookup _ _) (sw_columns _ (wf_schema s0 Hw)) i _ E). }
  unfold write_vector. do 2 erewrite mbind_ok by reflexivity. rewrite Hp, Hv, (aget_lookup ∅ l i t Hl), Hb.
  cbn [mopt]. erewrite mbind_ok by reflexivity.
  assert (Hs : (length b =? vt_chunk_size p * column_size p i)%nat = true) by (apply Nat.eqb_eq, (Hsz c b Hb)).
  rewrite Hs, andb_false_r. cbn [mwhen]. erewrite mbind_ok by reflexivity.
  rewrite (column_size_cases (vector_column p i) off _ b Hcol Hdl).
  change (Z.to_nat (vector_column_byte_size (vector_column p i))) with (column_size p i).
  fold p in Hdl. rewrite blob_write_ok by lia. cbn [mopt default]. by erewrite mbind_ok by reflexivity.
Qed.

Lemma write_final_ok :
  vec0Update_InsertWriteFinalStep c off r datas (ck_validity ck)
    (set_rowids (<[r := MkRow id None]> (db_rowids s0)) q s0) = (Ok tt, placed).
Proof.
  destruct (wf_chunk s0 Hw c ck Hck) as (_ & Hbits & Hrl).
  pose proof (bit_index cs off _ Hbits Hoff) as Hi.
  set (s1 := set_rowids (<[r := MkRow id None]> (db_rowids s0)) q s0).
  set (ck1 := MkChunk (ck_size ck) (ck_partition ck) (bitmap_set (ck_validity ck) off true) (ck_rowids ck)).
  set (s2 := set_chunks (<[c := ck1]> (db_chunks s0)) (db_chunks_seq s0) s1).
  set (s3 := set_vectors placed_vectors s2).
  set (s4 := set_chunks (<[c := placed_chunk]> (db_chunks s0)) (db_chunks_seq s0) s3).
  unfold vec0Update_InsertWriteFinalStep.
  rewrite (mbind_ok _ _ s1 s2 tt).
  2:{ unfold write_validity. erewrite mbind_ok by reflexivity. cbn [s1 set_rowids db_chunks]. rewrite Hck.
      cbn [mopt]. erewrite mbind_ok by reflexivity.
      rewrite blob_write_ok by (cbn [length]; lia). rewrite write_at_single by done. cbn [mopt].
      by erewrite mbind_ok by reflexivity. }
  erewrite mbind_ok by reflexivity. change (db_vtab s2) with p.
  rewrite (mbind_ok _ _ s2 s3 tt).
  2:{ refine (mfor_vectors (fun i => i) (fun i t => <[c := write_at (off * column_size p i)
        (aget [] datas i) (default [] (t !! c))]> t) _ _ s2 _ _).
      - rewrite list_fmap_id. change (db_vectors s2) with (db_vectors s0). by rewrite (wf_vectors_len s0 Hw).
      - intros i t l _ Ht Hl.
        by apply (write_vector_ok i t l (set_vectors l s2) true eq_refl Ht eq_refl Hl). }
  rewrite (mbind_ok _ _ s3 s4 tt).
  2:{ unfold write_chunk_rowid. do 2 erewrite mbind_ok by reflexivity.
      change (db_chunks s3) with (<[c := ck1]> (db_chunks s0)). rewrite lookup_insert_eq. cbn [mopt].
      erewrite mbind_ok by reflexivity. change (db_vtab s3) with p. cbn [ck1 ck_rowids].
      rewrite Hrl, Nat.eqb_refl. cbn [negb mwhen]. erewrite mbind_ok by reflexivity.
      assert (Hw8 : length (enc_le 8 r) = 8%nat) by apply length_enc_le.
      rewrite blob_write_ok by (rewrite Hw8, Hrl; unfold cs in *; lia). cbn [mopt].
      erewrite mbind_ok by reflexivity. unfold mput. by rewrite insert_insert_eq. }
  unfold vec0_rowids_update_position, mput. f_equal.
  change (db_rowids s4) with (<[r := MkRow id None]> (db_rowids s0)).
  unfold set_rowids, placed. by rewrite alter_insert_eq.
Qed.

(** *** The invariant after the row is in place *)

Lemma slot_free (r' : Z) : ~ slot (db_rowids s0) r' c off.
Proof.
  intros [id' E]. destruct (wf_rows s0 Hw r' _ E) as (? & ? & ck' & [= <- <-] & Hc & _ & Hb & _).
  rewrite Hck in Hc. injection Hc as <-. by rewrite Hbit in Hb.
Qed.

Lemma placed_validity (off' : nat) :
  (off' < cs)%nat ->
  bitmap_test (ck_validity placed_chunk) off' = if decide (off' = off) then true else bitmap_test (ck_validity ck) off'.
Proof.
  destruct (wf_chunk s0 Hw c ck Hck) as (_ & [Hl Hb] & _). intros Hlt. cbn [placed_chunk ck_validity].
  case_decide as E; [subst; apply bitmap_test_set_eq; lia|]. apply bitmap_test_set_ne; [done|congruence|lia].
Qed.

Lemma placed_rowids (off' : nat) :
  (off' < cs)%nat ->
  blob_read (ck_rowids placed_chunk) 8 (off' * 8) =
    if decide (off' = off) then Some (enc_le 8 r) else blob_read (ck_rowids ck) 8 (off' * 8).
Proof.
  destruct (wf_chunk s0 Hw c ck Hck) as (_ & _ & Hl). intros Hlt.
  assert (Hw8 : length (enc_le 8 r) = 8%nat) by apply length_enc_le. fold p cs in Hl.
  apply (blob_read_write_cell (ck_rowids ck) (enc_le 8 r) _ 8 off' off Hw8); [|unfold cs, p in *; lia..].
  apply blob_write_ok. unfold cs, p in *. lia.
Qed.

Lemma placed_chunk_wf : chunk_wf p placed_chunk.
Proof.
  destruct (wf_chunk s0 Hw c ck Hck) as (Hpl & Hbits & Hl). split; [done|]. split.
  - by apply bitmap_set_wf.
  - cbn [placed_chunk ck_rowids]. rewrite length_write_at; [done|].
    assert (Hw8 : length (enc_le 8 r) = 8%nat) by apply length_enc_le. unfold cs, p in *. lia.
Qed.

Lemma placed_vectors_wf (i : nat) (t : blob_table) :
  placed_vectors !! i = Some t -> vectors_wf p (db_chunks_seq s0) i t.
Proof.
  unfold placed_vectors. rewrite list_lookup_imap. intros (t0 & Ht0 & ->)%fmap_Some_1.
  destruct (wf_vectors s0 Hw i t0 Ht0) as [Hu Hl]. split; [apply upto_overwrite; [apply chunk_in_range|done]|].
  destruct (proj2 (Hu c) chunk_in_range) as [b Hb]. rewrite Hb. intros c' b'.
  pose proof (lookup_lt_Some _ _ _ Ht0) as Hi. rewrite (wf_vectors_len s0 Hw) in Hi.
  destruct (decide (c' = c)) as [->|Hne].
  - rewrite lookup_insert_eq. intros [= <-]. cbn [default]. pose proof (cell_fits i t0 b Ht0 Hb) as Hf.
    pose proof (Hdata i Hi) as Hd. fold p in Hd. change (default [] (Some b)) with b.
    rewrite length_write_at by lia. by apply (Hl c).
  - rewrite lookup_insert_ne by done. apply Hl.
Qed.

Section Final.
Context (aux' : gmap Z (list value)) (meta' : list metadata_store) (ix' : option I).
Let rows' := <[r := MkRow id (Some (c, off))]> (db_rowids s0).

Definition final : db I :=
  MkDb p rows' q (<[c := placed_chunk]> (db_chunks s0)) (db_chunks_seq s0) placed_vectors aux' meta' ix'.

Lemma final_vector_cell (i : nat) (c' : Z) (off' : nat) :
  (i < length (vt_vector_columns p))%nat -> (off' < cs)%nat ->
  vector_cell final i c' off' =
    if decide (c' = c /\ off' = off) then Some (aget [] datas i) else vector_cell s0 i c' off'.
Proof.
  intros Hi Hlt. pose proof Hi as Hi'. unfold p in Hi'. rewrite <- (wf_vectors_len s0 Hw) in Hi'.
  destruct (lookup_lt_is_Some_2 _ _ Hi') as [t Ht].
  destruct (wf_vectors s0 Hw i t Ht) as [Hu Hl]. destruct (proj2 (Hu c) chunk_in_range) as [b Hb].
  unfold vector_cell. cbn [final db_vectors db_vtab]. rewrite (aget_lookup ∅ (db_vectors s0) i t Ht).
  rewrite (aget_lookup ∅ placed_vectors i
    (<[c := write_at (off * column_size p i) (aget [] datas i) b]> t)).
  2:{ unfold placed_vectors. rewrite list_lookup_imap, Ht. cbn. by rewrite Hb. }
  destruct (decide (c' = c)) as [->|Hne].
  - rewrite lookup_insert_eq, Hb. fold p. pose proof (cell_fits i t b Ht Hb) as Hf. pose proof (Hl c b Hb) as Hlb.
    fold p cs in Hlb. pose proof (Hdata i Hi) as Hd. fold p in Hd.
    edestruct (blob_read_write_cell b (aget [] datas i) (write_at (off * column_size p i) (aget [] datas i) b)
      (column_size p i) off' off Hd) as [_ Hread].
    + apply blob_write_ok. lia.
    + lia.
    + rewrite Hlb. apply Nat.mul_le_mono_r. lia.
    + rewrite Hread. by destruct (decide (off' = off)), (decide (c = c /\ off' = off)); try naive_solver.
  - rewrite lookup_insert_ne by done. rewrite decide_False by naive_solver. done.
Qed.

Lemma final_table_new :
  table final r = Some (MkView (Ok (if vt_pkIsText p then id else VInt r))
    ((fun i => Ok (aget VNull (ck_partition ck) i)) <$> seq 0 (length (vt_partition_types p)))
    ((fun i => Ok (aget [] datas i)) <$> seq 0 (length (vt_vector_columns p)))
    ((fun i => or_error ((fun vs => aget VNull vs i) <$> aux' !! r)) <$> seq 0 (length (vt_auxiliary_types p)))
    ((fun i => metadata_cell final i r c off) <$> seq 0 (length (vt_metadata_kinds p)))).
Proof.
  assert (E : db_rowids final !! r = Some (MkRow id (Some (c, off)))) by apply lookup_insert_eq.
  unfold table. rewrite E, (view_slot final r c off id E). cbv zeta. do 2 f_equal.
  - apply fmap_seq0_ext. intros i _. cbn [final db_chunks]. by rewrite lookup_insert_eq.
  - apply fmap_seq0_ext. intros i Hi. rewrite final_vector_cell by done. by rewrite decide_True.
Qed.

Context (Hml : length meta' = length (vt_metadata_kinds p)).
Context (Hframe : forall i m m', db_metadata s0 !! i = Some m -> meta' !! i = Some m' ->
  meta_frame (metadata_kind_at p i) cs (db_rowids s0) m m').
Context (Hauxframe : forall r', r' <> r -> aux' !! r' = db_auxiliary s0 !! r').

Lemma final_table_other (r' : Z) : r' <> r -> table final r' = table s0 r'.
Proof.
  intros Hne. apply table_frame; [done|done| | |].
  - cbn. unfold rows'. by rewrite lookup_insert_ne.
  - by apply Hauxframe.
  - intros c' off' Hs Hlt. assert (Hd : ~ (c' = c /\ off' = off)) by (intros [-> ->]; by apply (slot_free r')).
    split; [|split].
    + cbn. destruct (decide (c' = c)) as [->|Hc]; [rewrite lookup_insert_eq, Hck; done|by rewrite lookup_insert_ne].
    + intros i Hi. rewrite final_vector_cell by done. by rewrite decide_False.
    + intros i Hi. unfold metadata_cell, aget. cbn [final db_metadata db_vtab].
      rewrite <- (wf_metadata_len s0 Hw) in Hi. destruct (lookup_lt_is_Some_2 _ _ Hi) as [m Hm].
      rewrite (wf_metadata_len s0 Hw) in Hi. fold p in Hi. rewrite <- Hml in Hi.
      destruct (lookup_lt_is_Some_2 _ _ Hi) as [m' Hm']. rewrite Hm, Hm'. by apply (Hframe i m m' Hm Hm').
Qed.

Context (Hq : r <= q /\ db_rowids_seq s0 <= q).
Context (Hmw : forall i m, meta' !! i = Some m -> meta_wf (metadata_kind_at p i) cs (db_chunks_seq s0) rows' m).
Context (Hids : vt_pkIsText p = true -> sqlite3_value_type id = SQLITE_TEXT /\
  forall r' row, db_rowids s0 !! r' = Some row -> rr_id row <> id).
Context (Haux : (0 < length (vt_auxiliary_types p))%nat -> forall r', is_Some (aux' !! r') <-> is_Some (rows' !! r')).

Lemma final_wf : db_wf final.
Proof.
  split; cbn [final db_vtab db_chunks db_chunks_seq db_vectors db_metadata db_rowids db_rowids_seq db_auxiliary].
  - apply (wf_schema s0 Hw).
  - apply (wf_seq s0 Hw).
  - pose proof (wf_rowids_seq s0 Hw). lia.
  - apply upto_overwrite; [apply chunk_in_range|apply (wf_upto s0 Hw)].
  - intros c' ck'. destruct (decide (c' = c)) as [->|Hne].
    + rewrite lookup_insert_eq. intros [= <-]. apply placed_chunk_wf.
    + rewrite lookup_insert_ne by done. apply (wf_chunk s0 Hw).
  - unfold placed_vectors. rewrite length_imap. apply (wf_vectors_len s0 Hw).
  - apply placed_vectors_wf.
  - done.
  - done.
  - intros r' row. unfold rows'. destruct (decide (r' = r)) as [->|Hne].
    + intros _. split; [done|lia].
    + rewrite lookup_insert_ne by done. intros E. destruct (wf_range s0 Hw r' row E). split; [done|lia].
  - intros r' row. unfold rows'. destruct (decide (r' = r)) as [->|Hne].
    + rewrite lookup_insert_eq. intros [= <-]. exists c, off, placed_chunk. rewrite lookup_insert_eq.
      split; [done|]. split; [done|]. split; [done|].
      rewrite placed_validity, placed_rowids, !decide_True by done. done.
    + rewrite lookup_insert_ne by done. intros E.
      destruct (wf_rows s0 Hw r' row E) as (c' & off' & ck' & H1 & H2 & H3 & H4 & H5).
      destruct (decide (c' = c)) as [->|Hc].
      * rewrite Hck in H2. injection H2 as <-. exists c, off', placed_chunk. rewrite lookup_insert_eq.
        assert (off' <> off) by (intros ->; by rewrite Hbit in H4).
        rewrite placed_validity, placed_rowids, !decide_False by done. done.
      * exists c', off', ck'. rewrite lookup_insert_ne by done. done.
  - intros c' ck' off' E Hlt Hv. unfold rows'. setoid_rewrite slot_insert.
    destruct (decide (c' = c)) as [->|Hc].
    + rewrite lookup_insert_eq in E. injection E as <-. rewrite placed_validity in Hv by done.
      case_decide as Eo; [exists r; by left|].
      destruct (wf_slots s0 Hw c ck off' Hck Hlt Hv) as [r' Hs]. exists r'. right. split; [|done].
      intros ->. destruct Hs as [? Hs]. by rewrite Hnew in Hs.
    + rewrite lookup_insert_ne in E by done. destruct (wf_slots s0 Hw c' ck' off' E Hlt Hv) as [r' Hs].
      exists r'. right. split; [|done]. intros ->. destruct Hs as [? Hs]. by rewrite Hnew in Hs.
  - intros Ht. destruct (Hids Ht) as [Hty Hdist]. destruct (wf_ids s0 Hw Ht) as [Hty0 Hd0]. unfold rows'. split.
    + intros r' row. destruct (decide (r' = r)) as [->|Hne]; [rewrite lookup_insert_eq; by intros [= <-]|].
      rewrite lookup_insert_ne by done. apply Hty0.
    + intros r1 r2 row1 row2. destruct (decide (r1 = r)) as [->|H1], (decide (r2 = r)) as [->|H2];
        rewrite ?lookup_insert_eq, ?lookup_insert_ne by done; try done.
      * intros [= <-] E2 Eid. by destruct (Hdist _ _ E2).
      * intros E1 [= <-] Eid. by destruct (Hdist _ _ E1).
      * apply Hd0.
  - done.
Qed.

End Final.

End Place.

(** ** The insert handler *)

Lemma aget_seq {A : Type} (d : A) (l : list A) : (aget d l <$> seq 0 (length l)) = l.
Proof.
  apply list_eq_same_length with (length l); [done|by rewrite length_fmap_seq0|].
  intros i x y Hi. rewrite lookup_fmap_seq0 by done. rewrite (aget_lookup_lt d) by done. congruence.
Qed.

(** Values per column, read by index. *)
Lemma seq_columns {A B : Type} (d : A) (F : A -> B) (val : nat * nat -> A) (L : list (nat * nat)) (n : nat) :
  L.*2 = seq 0 n -> (fun i => F (aget d (val <$> L) i)) <$> seq 0 n = F ∘ val <$> L.
Proof.
  intros Hk. assert (Hn : length (val <$> L) = n).
  { apply (f_equal length) in Hk. by rewrite length_fmap, length_seq in Hk; rewrite length_fmap. }
  rewrite list_fmap_compose. transitivity (F <$> (aget d (val <$> L) <$> seq 0 n)).
  - by rewrite <- list_fmap_compose.
  - by rewrite <- Hn, aget_seq.
Qed.

Section InsertSpec.
Context {I : Type} `{IndexOps I} (strtod : bytes -> number f64).

Definition arg_value (args : insert_args) (c : nat * nat) : value := sv_value (argv_column (ia_columns args) c.1).

Definition arg_vector (p : vec0_vtab) (args : insert_args) (c : nat * nat) : bytes :=
  default [] (vec_bytes <$> checked_vector strtod (vector_column p c.2) (argv_column (ia_columns args) c.1)).

Definition arg_vectors (p : vec0_vtab) (args : insert_args) : list bytes :=
  arg_vector p args <$> user_columns_of USER_COLUMN_VECTOR p.

(** The rowid an insertion chooses: the given one, or the next. *)
Definition new_rowid (s : db I) (id : value) : Z :=
  if vt_pkIsText (db_vtab s) then db_rowids_seq s + 1
  else match id with VInt z => z | _ => db_rowids_seq s + 1 end.

(** What the handler checks, with the index after the insertion. *)
Record insert_ok (s : db I) (args : insert_args) (ix' : option I) : Prop := {
  io_partition : forall c, c ∈ user_columns_of USER_COLUMN_PARTITION (db_vtab s) ->
    type_matches (arg_value args c) (aget 0 (vt_partition_types (db_vtab s)) c.2) = true;
  io_vectors : forall c, c ∈ user_columns_of USER_COLUMN_VECTOR (db_vtab s) ->
    is_Some (checked_vector strtod (vector_column (db_vtab s) c.2) (argv_column (ia_columns args) c.1));
  io_auxiliary : forall c, c ∈ user_columns_of USER_COLUMN_AUXILIARY (db_vtab s) ->
    type_matches (arg_value args c) (aget 0 (vt_auxiliary_types (db_vtab s)) c.2) = true;
  io_metadata : forall c, c ∈ user_columns_of USER_COLUMN_METADATA (db_vtab s) ->
    metadata_value_ok (metadata_kind_at (db_vtab s) c.2) (arg_value args c) = true /\
    value_wf (arg_value args c);
  io_hidden : ia_distance args = VNull /\ ia_k args = VNull;
  io_id : if vt_pkIsText (db_vtab s)
    then (exists b, ia_id args = VText b) /\
         forall r row, db_rowids s !! r = Some row -> rr_id row <> ia_id args
    else ia_id args = VNull \/ exists z, ia_id args = VInt z /\ in_i64 z /\ db_rowids s !! z = None;
  io_room : db_rowids_seq s < I64_MAX /\ db_chunks_seq s < I64_MAX;
  io_index : match db_index s, index_column (db_vtab s) with
    | Some ix, Some i => exists ix1, ix' = Some ix1 /\
        (Z.to_nat (vc_dimensions (vector_column (db_vtab s) i)) * 4 <= length (aget [] (arg_vectors (db_vtab s) args) i))%nat /\
        ix_insert ix (vector_floats (aget [] (arg_vectors (db_vtab s) args) i)
          (Z.to_nat (vc_dimensions (vector_column (db_vtab s) i)))) (new_rowid s (ia_id args))
        = Some (SQLITE_OK, ix1)
    | _, _ => ix' = db_index s
    end
}.

(** The inserted row as the readers return it. *)
Definition inserted_view (p : vec0_vtab) (r : Z) (args : insert_args) : row_view :=
  MkView (Ok (if vt_pkIsText p then ia_id args else VInt r))
    ((fun c => Ok (arg_value args c)) <$> user_columns_of USER_COLUMN_PARTITION p)
    ((fun c => Ok (arg_vector p args c)) <$> user_columns_of USER_COLUMN_VECTOR p)
    ((fun c => Ok (arg_value args c)) <$> user_columns_of USER_COLUMN_AUXILIARY p)
    ((fun c => Ok (stored_value (metadata_kind_at p c.2) (arg_value args c)))
       <$> user_columns_of USER_COLUMN_METADATA p).

Lemma checked_vector_size (col : VectorColumnDefinition) (v : sval) (x : vector) :
  checked_vector strtod col v = Some x -> length (vec_bytes x) = Z.to_nat (vector_column_byte_size col).
Proof.
  unfold checked_vector. destruct (vector_from_value strtod v) as [y|] eqn:E; [|done].
  destruct (Z.eqb_spec (element_code (vec_type y)) (element_code (vc_element_type col))) as [Et|]; [|done].
  destruct (Z.eqb_spec (Z.of_nat (vec_dims y)) (vc_dimensions col)) as [Ed|]; [|done].
  cbn. intros [= <-]. destruct (vector_from_value_wf _ _ _ E) as (_ & Hl & _). rewrite Hl.
  unfold vector_column_byte_size. rewrite <- Ed.
  assert (vc_element_type col = vec_type y) as -> by (by destruct (vec_type y), (vc_element_type col)).
  unfold vector_byte_size, vector_size, CHAR_BIT. destruct (vec_type y).
  - rewrite Z2Nat.inj_mul, Nat2Z.id by lia. done.
  - rewrite Z2Nat.inj_div, Nat2Z.id by lia. done.
  - by rewrite Nat2Z.id.
Qed.

Section Steps.
Context (s : db I) (args : insert_args) (ix' : option I) (Hw : db_wf s) (Hok : insert_ok s args ix').
Let p := db_vtab s.
Let r := new_rowid s (ia_id args).
Let q := Z.max (db_rowids_seq s) r.
Let id := if vt_pkIsText p then ia_id args else VNull.

Lemma read_partition_keys_ok :
  read_partition_keys p (ia_columns args) s
  = (Ok (arg_value args <$> user_columns_of USER_COLUMN_PARTITION p), s).
Proof.
  apply (mfold_fill _ snd (arg_value args) _ (length (vt_partition_types p))).
  - apply (sw_partition _ (wf_schema s Hw)).
  - apply length_replicate.
  - intros acc c Hc. pose proof (io_partition s args ix' Hok c Hc) as Ht. fold p in Ht.
    unfold arg_value in *. rewrite Ht. cbn [negb mwhen]. by erewrite mbind_ok by reflexivity.
Qed.

Lemma read_vectors_ok : read_vectors strtod p (ia_columns args) s = (Ok (arg_vectors p args), s).
Proof.
  apply (mfold_fill _ snd (arg_vector p args) _ (length (vt_vector_columns p))).
  - apply (sw_vector _ (wf_schema s Hw)).
  - apply length_replicate.
  - intros acc c Hc. destruct (io_vectors s args ix' Hok c Hc) as [x Hx]. unfold arg_vector.
    fold p in Hx. rewrite Hx. cbn [mopt]. by erewrite mbind_ok by reflexivity.
Qed.

Lemma new_rowid_fresh : db_rowids s !! r = None /\ in_i64 r.
Proof.
  assert (Hnext : db_rowids s !! (db_rowids_seq s + 1) = None /\ in_i64 (db_rowids_seq s + 1)).
  { split.
    - destruct (db_rowids s !! (db_rowids_seq s + 1)) eqn:E; [|done].
      apply (wf_range s Hw) in E as [_ E]. lia.
    - pose proof (wf_rowids_seq s Hw). pose proof (io_room s args ix' Hok) as [Hm _].
      unfold I64_MAX, in_i64 in *. lia. }
  unfold r, new_rowid. pose proof (io_id s args ix' Hok) as Hid. destruct (vt_pkIsText (db_vtab s)); [done|].
  destruct Hid as [-> | (z & -> & Hz & Hf)]; done.
Qed.

Lemma insert_rowid_ok :
  vec0Update_InsertRowidStep (ia_id args) s
  = (Ok r, set_rowids (<[r := MkRow id None]> (db_rowids s)) q s).
Proof.
  pose proof (io_room s args ix' Hok) as [Hm _]. pose proof (io_id s args ix' Hok) as Hid.
  pose proof (proj1 new_rowid_fresh) as Hfr. revert Hfr. unfold q, id, r, new_rowid, p.
  unfold vec0Update_InsertRowidStep. erewrite mbind_ok by reflexivity.
  assert (Hmax : Z.max (db_rowids_seq s) (db_rowids_seq s + 1) = db_rowids_seq s + 1) by lia.
  assert (Hnext : forall v, id_constraint_ok (db_vtab s) (db_rowids s) v = true ->
    vec0_rowids_insert_id v s = (Ok (db_rowids_seq s + 1),
      set_rowids (<[db_rowids_seq s + 1 := MkRow v None]> (db_rowids s)) (db_rowids_seq s + 1) s)).
  { intros v Hv. unfold vec0_rowids_insert_id. do 3 erewrite mbind_ok by reflexivity. rewrite Hv.
    cbn [negb mwhen]. erewrite mbind_ok by reflexivity. rewrite (proj2 (Z.leb_gt _ _)) by lia. done. }
  destruct (vt_pkIsText (db_vtab s)) eqn:Et.
  - destruct Hid as [[b Hb] Hdist]. intros _. rewrite Hb in *. cbn [sqlite3_value_type].
    rewrite Hmax. apply Hnext. unfold id_constraint_ok. rewrite Et. apply andb_true_iff. split; [done|].
    apply forallb_forall. intros [r' row] Hin. apply list_elem_of_In, elem_of_map_to_list in Hin.
    cbn [snd]. destruct (sql_eq (rr_id row) (VText b)) eqn:Es; [|reflexivity].
    apply sql_eq_true in Es. by destruct (Hdist _ _ Hin).
  - destruct Hid as [-> | (z & -> & Hz & Hf)]; cbn [sqlite3_value_type sqlite3_value_int64].
    + intros _. rewrite Hmax. apply Hnext. unfold id_constraint_ok. by rewrite Et.
    + intros _. unfold vec0_rowids_insert_rowid. change (SQLITE_INTEGER =? SQLITE_INTEGER) with true.
      cbv iota zeta. erewrite mbind_ok; [|do 2 erewrite mbind_ok by reflexivity; rewrite Hf; reflexivity]. done.
Qed.

Definition inserted_aux (aux : gmap Z (list value)) : gmap Z (list value) :=
  if (length (vt_auxiliary_types p) =? 0)%nat then aux
  else <[r := arg_value args <$> user_columns_of USER_COLUMN_AUXILIARY p]> aux.

Lemma insert_auxiliary_ok (st : db I) :
  ((0 < length (vt_auxiliary_types p))%nat -> db_auxiliary st !! r = None) ->
  insert_auxiliary p r (ia_columns args) st = (Ok tt, set_auxiliary (inserted_aux (db_auxiliary st)) st).
Proof.
  intros Hno. unfold insert_auxiliary, inserted_aux.
  destruct (Nat.eqb_spec (length (vt_auxiliary_types p)) 0) as [E|E]; [by destruct st|].
  erewrite mbind_ok.
  2:{ apply (mfold_fill _ snd (arg_value args) _ (length (vt_auxiliary_types p))).
      - apply (sw_auxiliary _ (wf_schema s Hw)).
      - apply length_replicate.
      - intros acc c Hc. pose proof (io_auxiliary s args ix' Hok c Hc) as Ht. fold p in Ht.
        unfold arg_value in *. rewrite Ht. cbn [negb mwhen]. by erewrite mbind_ok by reflexivity. }
  erewrite mbind_ok by reflexivity. rewrite Hno by lia. by erewrite mbind_ok by reflexivity.
Qed.

Definition metadata_written (c : Z) (off : nat) (x : nat * nat) (m : metadata_store) : metadata_store :=
  (vec0_write_metadata_value (metadata_kind_at p x.2) r c off (arg_value args x) false m).2.

Lemma insert_metadata_ok (st : db I) (c : Z) (off : nat) :
  length (db_metadata st) = length (vt_metadata_kinds p) ->
  (forall x m, x ∈ user_columns_of USER_COLUMN_METADATA p -> db_metadata st !! x.2 = Some m ->
     (vec0_write_metadata_value (metadata_kind_at p x.2) r c off (arg_value args x) false m).1 = Ok tt) ->
  insert_metadata p r c off (ia_columns args) st
  = (Ok tt, set_metadata (zip_with (metadata_written c off) (user_columns_of USER_COLUMN_METADATA p)
                            (db_metadata st)) st).
Proof.
  intros Hl Hwr. apply (mfor_metadata snd (metadata_written c off)).
  - rewrite Hl. apply (sw_metadata _ (wf_schema s Hw)).
  - intros x m Hx Hm. specialize (Hwr x m Hx Hm). unfold metadata_written, arg_value, metadata_kind_at in *.
    destruct (vec0_write_metadata_value _ _ _ _ _ _ m) as [res m']. cbn in *. by subst res.
Qed.

Lemma index_insert_ok (st : db I) :
  db_index st = db_index s -> index_insert p r (arg_vectors p args) st = (Ok tt, set_index ix' st).
Proof.
  intros Hi. pose proof (io_index s args ix' Hok) as Hx. unfold index_insert.
  erewrite mbind_ok by reflexivity. rewrite Hi. fold p in Hx.
  destruct (db_index s) as [ix|] eqn:Ei; [destruct (index_column p) as [i|]|].
  - destruct Hx as (ix1 & -> & Hlen & Hx). fold r in Hx. rewrite (proj2 (Nat.ltb_ge _ _)) by done.
    erewrite mbind_ok by reflexivity. rewrite Hx. done.
  - subst ix'. rewrite <- Hi. by destruct st.
  - subst ix'. rewrite <- Hi. by destruct st.
Qed.

(** The columns have pairwise different indexes, so a column is at its index. *)
Lemma column_at (k : vec0_user_column_kind) (n i : nat) (x : nat * nat) :
  (user_columns_of k p).*2 = seq 0 n -> user_columns_of k p !! i = Some x -> x.2 = i.
Proof.
  intros Hk Hx. assert (E : (user_columns_of k p).*2 !! i = Some x.2) by (by rewrite list_lookup_fmap, Hx).
  rewrite Hk in E. apply lookup_seq in E as [E _]. exact E.
Qed.

Section Assemble.
Context (s0 : db I) (c : Z) (off : nat) (ck : chunk_row) (Hex : extends s s0)
  (Hck : db_chunks s0 !! c = Some ck)
  (Hpart : ck_partition ck = arg_value args <$> user_columns_of USER_COLUMN_PARTITION p)
  (Hoff : (off < vt_chunk_size p)%nat) (Hbit : bitmap_test (ck_validity ck) off = false).

Let Hw0 : db_wf s0 := ex_wf s s0 Hex.
Let rows' := <[r := MkRow id (Some (c, off))]> (db_rowids s0).
Let meta' := zip_with (metadata_written c off) (user_columns_of USER_COLUMN_METADATA p) (db_metadata s0).
Let s' := final s0 r id q c off ck (arg_vectors p args) (inserted_aux (db_auxiliary s0)) meta' ix'.

Lemma fresh0 : db_rowids s0 !! r = None.
Proof. rewrite (ex_rowids s s0 Hex). apply new_rowid_fresh. Qed.

Lemma metadata_write_ok (x : nat * nat) (i : nat) (m : metadata_store) :
  user_columns_of USER_COLUMN_METADATA p !! i = Some x -> db_metadata s0 !! i = Some m ->
  let k := metadata_kind_at p x.2 in
  x.2 = i /\
  (vec0_write_metadata_value k r c off (arg_value args x) false m).1 = Ok tt /\
  meta_wf k (vt_chunk_size p) (db_chunks_seq s0) rows' (metadata_written c off x m) /\
  vec0_result_metadata_value k r c off (metadata_written c off x m)
    = Ok (stored_value k (arg_value args x)) /\
  meta_frame k (vt_chunk_size p) (db_rowids s0) m (metadata_written c off x m).
Proof.
  intros Hx Hm k. pose proof (column_at _ _ _ _ (sw_metadata _ (wf_schema s Hw)) Hx) as Hi.
  split; [done|]. pose proof (list_elem_of_lookup_2 _ _ _ Hx) as HxL.
  destruct (io_metadata s args ix' Hok x HxL) as [Hvk Hvw].
  pose proof (wf_metadata s0 Hw0 i m Hm) as Hmw. rewrite (ex_vtab s s0 Hex) in Hmw. fold p in Hmw.
  rewrite <- Hi in Hmw.
  destruct (meta_write (vt_chunk_size p) (db_chunks_seq s0) (db_rowids s0) r id c off
    (sw_size8 _ (wf_schema s Hw)) fresh0 (slot_free s0 Hw0 c off ck Hck Hbit)
    (chunk_in_range s0 Hw0 c ck Hck) Hoff k (arg_value args x) m Hmw Hvk Hvw) as (m' & E & H1 & H2 & H3).
  unfold metadata_written. fold k. rewrite E. done.
Qed.

(** The metadata columns after the loop. *)
Lemma written_at (i : nat) (m' : metadata_store) :
  meta' !! i = Some m' -> exists x m, user_columns_of USER_COLUMN_METADATA p !! i = Some x /\
    db_metadata s0 !! i = Some m /\ m' = metadata_written c off x m.
Proof. intros (x & m & -> & Hx & Hm)%lookup_zip_with_Some. eauto. Qed.

Lemma metadata_columns_length : length (user_columns_of USER_COLUMN_METADATA p) = length (vt_metadata_kinds p).
Proof.
  pose proof (sw_metadata _ (wf_schema s Hw)) as Hk. apply (f_equal length) in Hk.
  by rewrite length_fmap, length_seq in Hk.
Qed.

Lemma meta_length0 : length (db_metadata s0) = length (vt_metadata_kinds p).
Proof. rewrite (wf_metadata_len s0 Hw0). by rewrite (ex_vtab s s0 Hex). Qed.

Lemma vector_sizes (i : nat) :
  (i < length (vt_vector_columns (db_vtab s0)))%nat ->
  length (aget [] (arg_vectors p args) i) = column_size (db_vtab s0) i.
Proof.
  rewrite (ex_vtab s s0 Hex). fold p. intros Hi. pose proof (sw_vector _ (wf_schema s Hw)) as Hk. fold p in Hk.
  destruct (lookup_lt_is_Some_2 (user_columns_of USER_COLUMN_VECTOR p) i) as [x Hx].
  { apply (f_equal length) in Hk. rewrite length_fmap, length_seq in Hk. lia. }
  pose proof (column_at _ _ _ _ Hk Hx) as Hxi.
  destruct (io_vectors s args ix' Hok x (list_elem_of_lookup_2 _ _ _ Hx)) as [v Hv]. fold p in Hv.
  rewrite (aget_lookup [] _ i (vec_bytes v)).
  - rewrite (checked_vector_size _ _ _ Hv), Hxi. done.
  - unfold arg_vectors. rewrite list_lookup_fmap, Hx. cbn. unfold arg_vector. by rewrite Hv.
Qed.

Lemma inserted_wf : db_wf s'.
Proof.
  assert (Hp : db_vtab s0 = p) by apply (ex_vtab s s0 Hex).
  apply (final_wf s0 Hw0 r id q c off ck (arg_vectors p args) fresh0 (proj2 new_rowid_fresh) Hck);
    rewrite ?Hp; try done.
  - intros i Hi. rewrite <- Hp in Hi. by rewrite (vector_sizes i Hi), Hp.
  - unfold meta'. rewrite length_zip_with, metadata_columns_length, meta_length0. lia.
  - rewrite (ex_seq s s0 Hex). unfold q. lia.
  - intros i m' Hm'. destruct (written_at i m' Hm') as (x & m & Hx & Hm & ->).
    destruct (metadata_write_ok x i m Hx Hm) as (<- & _ & H1 & _). exact H1.
  - intros Ht. unfold id. rewrite Ht. rewrite (ex_rowids s s0 Hex). pose proof (io_id s args ix' Hok) as Hid.
    fold p in Hid. rewrite Ht in Hid. destruct Hid as [[b ->] Hd]. done.
  - intros Hn r'. unfold inserted_aux. rewrite (proj2 (Nat.eqb_neq _ _)) by lia. fold rows'. unfold rows'.
    destruct (decide (r' = r)) as [->|Hne]; [by rewrite !lookup_insert_eq|].
    rewrite !lookup_insert_ne by done. apply (wf_auxiliary s0 Hw0). by rewrite Hp.
Qed.

Lemma inserted_table_new : table s' r = Some (inserted_view p r args).
Proof.
  assert (Hp : db_vtab s0 = p) by apply (ex_vtab s s0 Hex).
  pose proof (wf_schema s Hw) as Hsw.
  unfold s'. rewrite (final_table_new s0 Hw0 r id q c off ck); try done.
  2:{ by rewrite Hp. }
  2:{ apply vector_sizes. }
  rewrite Hp. unfold inserted_view. f_equal. f_equal.
  - unfold id. by destruct (vt_pkIsText p).
  - rewrite Hpart. rewrite (seq_columns VNull Ok) by apply (sw_partition _ Hsw). done.
  - unfold arg_vectors. rewrite (seq_columns [] Ok) by apply (sw_vector _ Hsw). done.
  - pose proof (sw_auxiliary _ Hsw) as Ha. fold p in Ha.
    unfold inserted_aux. destruct (Nat.eqb_spec (length (vt_auxiliary_types p)) 0) as [E|E].
    + rewrite E in *. cbn in Ha. by apply fmap_nil_inv in Ha as ->.
    + rewrite lookup_insert_eq. cbn [fmap option_fmap option_map or_error].
      rewrite (seq_columns VNull Ok) by done. done.
  - pose proof (sw_metadata _ Hsw) as Hmk. fold p in Hmk. rewrite <- Hmk, <- list_fmap_compose.
    apply list_fmap_ext. intros i x Hx. cbn [compose]. unfold metadata_cell. cbn [final db_vtab db_metadata].
    destruct (lookup_lt_is_Some_2 (db_metadata s0) i) as [m Hm].
    { rewrite meta_length0, <- metadata_columns_length. by eapply lookup_lt_Some. }
    destruct (metadata_write_ok x i m Hx Hm) as (Hi & _ & _ & Hrd & _). rewrite Hp.
    rewrite (aget_lookup _ _ x.2 (metadata_written c off x m)); [exact Hrd|].
    rewrite Hi. unfold meta'. by rewrite lookup_zip_with, Hx, Hm.
Qed.

Lemma inserted_table_other (r' : Z) : r' <> r -> table s' r' = table s r'.
Proof.
  intros Hne. assert (Hp : db_vtab s0 = p) by apply (ex_vtab s s0 Hex).
  rewrite <- (ex_table s s0 Hex r'). unfold s'.
  apply (final_table_other s0 Hw0 r id q c off ck); try done; rewrite ?Hp; try done.
  - intros i Hi. rewrite <- Hp in Hi. by rewrite (vector_sizes i Hi), Hp.
  - unfold meta'. rewrite length_zip_with, metadata_columns_length, meta_length0. lia.
  - intros i m m' Hm Hm'. destruct (written_at i m' Hm') as (x & m0 & Hx & Hm0 & ->).
    rewrite Hm in Hm0. injection Hm0 as <-.
    destruct (metadata_write_ok x i m Hx Hm) as (<- & _ & _ & _ & Hf). exact Hf.
  - intros r0 Hr0. unfold inserted_aux. destruct (_ =? 0)%nat; [done|]. by rewrite lookup_insert_ne.
Qed.

End Assemble.

Lemma insert_spec :
  exists s', vec0Update_Insert strtod args s = (Ok r, s') /\ db_wf s' /\
    (forall r', table s' r' = if decide (r' = r) then Some (inserted_view p r args) else table s r') /\
    db_index s' = ix' /\ db_vtab s' = p.
Proof.
  set (keys := arg_value args <$> user_columns_of USER_COLUMN_PARTITION p).
  set (t := <[r := MkRow id None]> (db_rowids s)).
  destruct (next_available_step keys t q s) as (s0 & c & off & ck & E & Hex & Hck & Hpart & Hoff & Hbit).
  { done. }
  { unfold keys. rewrite length_fmap. pose proof (sw_partition _ (wf_schema s Hw)) as Hk.
    apply (f_equal length) in Hk. by rewrite length_fmap, length_seq in Hk. }
  { apply (io_room s args ix' Hok). }
  assert (Hp : db_vtab s0 = p) by apply (ex_vtab s s0 Hex).
  eexists. split; [|split; [exact (inserted_wf s0 c off ck Hex Hck Hoff Hbit)|split; [|split; [reflexivity|exact Hp]]]].
  - unfold vec0Update_Insert. erewrite mbind_ok by reflexivity. fold p.
    rewrite (mbind_ok _ _ s s _ read_partition_keys_ok). rewrite (mbind_ok _ _ s s _ read_vectors_ok).
    destruct (io_hidden s args ix' Hok) as [-> ->]. do 2 erewrite mbind_ok by reflexivity.
    rewrite (mbind_ok _ _ s _ _ insert_rowid_ok). fold t. rewrite (mbind_ok _ _ _ _ _ E).
    assert (Ht : t = <[r := MkRow id None]> (db_rowids s0)) by (unfold t; by rewrite (ex_rowids s s0 Hex)).
    rewrite Ht. erewrite mbind_ok.
    2:{ apply (write_final_ok s0 (ex_wf s s0 Hex) r id q c off ck (arg_vectors p args)); try done.
        - rewrite Hp. exact Hoff.
        - by eapply vector_sizes. }
    erewrite mbind_ok.
    2:{ apply insert_auxiliary_ok. cbn [placed db_auxiliary]. intros Hn.
        destruct (db_auxiliary s0 !! r) eqn:Ea; [|done].
        assert (is_Some (db_rowids s0 !! r)) as [? Hx]
          by (apply (wf_auxiliary s0 (ex_wf s s0 Hex)); [by rewrite Hp|by eexists]).
        by rewrite (fresh0 s0 Hex) in Hx. }
    erewrite mbind_ok.
    2:{ apply insert_metadata_ok.
        - cbn [set_auxiliary placed db_metadata]. apply (meta_length0 s0 Hex).
        - cbn [set_auxiliary placed db_metadata]. intros x m Hx Hm.
          apply list_elem_of_lookup in Hx as [i Hx].
          pose proof (column_at _ _ _ _ (sw_metadata _ (wf_schema s Hw)) Hx) as Hi. rewrite Hi in Hm.
          by apply (metadata_write_ok s0 c off ck Hex Hck Hoff Hbit x i m Hx Hm). }
    erewrite mbind_ok by (apply index_insert_ok; apply (ex_index s s0 Hex)). reflexivity.
  - intros r'. case_decide as Er; [subst r'|].
    + by apply inserted_table_new.
    + by apply (inserted_table_other s0 c off ck Hex Hck Hoff Hbit).
Qed.

End Steps.

End InsertSpec.

(** ** The delete handler *)

Lemma land_to_u8 (b m : Z) : to_u8 (Z.land b (to_u8 m)) = to_u8 (Z.land b m).
Proof.
  apply Z.bits_inj'. intros i Hi. rewrite !to_u8_testbit by lia. rewrite !Z.land_spec, to_u8_testbit by lia.
  destruct (i <? 8); by rewrite ?andb_true_r, ?andb_false_r.
Qed.

Lemma set_bit_shift (bm : bytes) (n off : nat) :
  bitmap_wf n bm -> bitmap_test bm off = true ->
  (Z.shiftr (aget 0 bm (off / CHAR_BIT)) (Z.of_nat (off mod CHAR_BIT)) =? 0) = false.
Proof.
  intros _ Hb. rewrite bitmap_test_testbit in Hb. apply Z.eqb_neq. intros E.
  unfold CHAR_BIT in *. assert (Z.testbit (Z.shiftr (aget 0 bm (off / 8)) (Z.of_nat (off mod 8))) 0 = true) as H.
  { rewrite Z.shiftr_spec by lia. by rewrite Z.add_0_l. }
  by rewrite E in H.
Qed.

Section DeleteSpec.
Context {I : Type} `{IndexOps I}.
Context (s : db I) (idv : value) (r c : Z) (off : nat) (id : value) (ix' : option I) (Hw : db_wf s).
Context (Hrow : db_rowids s !! r = Some (MkRow id (Some (c, off)))).
Context (Hid : if vt_pkIsText (db_vtab s) then idv = id else idv = VInt r).
Context (Hix : match db_index s with
  | Some ix => if r =? 0 then ix' = Some ix
               else exists ix1, ix_delete ix r = Some (SQLITE_OK, ix1) /\ ix' = Some ix1
  | None => ix' = None
  end).

Let p := db_vtab s.
Let cs := vt_chunk_size p.

Lemma rowid_of_ok : rowid_of idv s = (Ok r, s).
Proof.
  unfold rowid_of. erewrite mbind_ok by reflexivity. fold p. fold p in Hid.
  destruct (vt_pkIsText p) eqn:Et; [|by rewrite Hid]. subst idv. unfold mquery. f_equal.
  destruct (wf_ids s Hw Et) as [Hty Hdist]. pose proof (Hty _ _ Hrow) as Ht. cbn [rr_id] in Ht.
  unfold rowid_with_id. set (l := filter _ _).
  assert (Hin : forall x, x ∈ l <-> x = (r, MkRow id (Some (c, off)))).
  { intros [r' row']. unfold l. rewrite list_elem_of_filter, elem_of_map_to_list. cbn [snd]. split.
    - intros [Es E]. apply sql_eq_true in Es. pose proof (Hdist r' r _ _ E Hrow Es) as ->.
      rewrite Hrow in E. by injection E as <-.
    - intros [= -> ->]. split; [|done]. cbn [rr_id]. destruct id; try done. cbn. by rewrite bool_decide_eq_true. }
  assert (Hp : l ≡ₚ [(r, MkRow id (Some (c, off)))]).
  { apply NoDup_Permutation; [apply NoDup_filter, NoDup_map_to_list|apply NoDup_singleton|].
    intros x. by rewrite Hin, list_elem_of_singleton. }
  apply Permutation_singleton_r in Hp as ->. done.
Qed.

Lemma row_chunk : exists ck, db_chunks s !! c = Some ck /\ (off < cs)%nat /\
  bitmap_test (ck_validity ck) off = true.
Proof.
  destruct (wf_rows s Hw r _ Hrow) as (? & ? & ck & [= <- <-] & Hck & Hoff & Hb & _). eauto.
Qed.

Definition cleared_chunk (ck : chunk_row) : chunk_row :=
  MkChunk (ck_size ck) (ck_partition ck) (bitmap_set (ck_validity ck) off false) (ck_rowids ck).

Definition cleared_metadata : list metadata_store :=
  imap (fun i m => (vec0Update_Delete_ClearMetadata (metadata_kind_at p i) r c off m).2) (db_metadata s).

Definition deleted_aux : gmap Z (list value) :=
  if (length (vt_auxiliary_types p) =? 0)%nat then db_auxiliary s else delete r (db_auxiliary s).

Definition deleted (ck : chunk_row) : db I :=
  MkDb p (delete r (db_rowids s)) (db_rowids_seq s) (<[c := cleared_chunk ck]> (db_chunks s))
    (db_chunks_seq s) (db_vectors s) deleted_aux cleared_metadata ix'.

Lemma clear_ok (i : nat) (m : metadata_store) :
  db_metadata s !! i = Some m ->
  let k := metadata_kind_at p i in
  exists rc m', vec0Update_Delete_ClearMetadata k r c off m = (rc, m') /\ rc <> Undef /\
    meta_wf k cs (db_chunks_seq s) (delete r (db_rowids s)) m' /\
    meta_frame k cs (delete r (db_rowids s)) m m'.
Proof.
  intros Hm k. destruct row_chunk as (ck & Hck & Hoff & _).
  apply meta_clear; [apply (sw_size8 _ (wf_schema s Hw))|by eexists| | |done|apply (wf_metadata s Hw i m Hm)].
  - intros r' Hs. apply (slot_inj s r' r c off Hw Hs). by eexists.
  - apply (slot_chunk s r c off Hw). by eexists.
Qed.

Lemma delete_ok :
  exists ck, db_chunks s !! c = Some ck /\ vec0Update_Delete idv s = (Ok tt, deleted ck).
Proof.
  destruct row_chunk as (ck & Hck & Hoff & Hb). exists ck. split; [done|].
  destruct (wf_chunk s Hw c ck Hck) as (_ & Hbits & _).
  pose proof (bit_index cs off _ Hbits Hoff) as Hi.
  unfold vec0Update_Delete. rewrite (mbind_ok _ _ s s r rowid_of_ok).
  rewrite (mbind_ok _ _ s s (id, c, off)) by (unfold mquery, vec0_get_chunk_position; by rewrite Hrow).
  set (s1 := set_chunks (<[c := cleared_chunk ck]> (db_chunks s)) (db_chunks_seq s) s).
  rewrite (mbind_ok _ _ s s1 tt).
  2:{ unfold vec0Update_Delete_ClearValidity. erewrite mbind_ok by reflexivity. rewrite Hck. cbn [mopt].
      erewrite mbind_ok by reflexivity. rewrite blob_read_byte by done. cbn [mopt].
      erewrite mbind_ok by reflexivity. change (aget 0 [aget 0 (ck_validity ck) (off / CHAR_BIT)] 0)
        with (aget 0 (ck_validity ck) (off / CHAR_BIT)).
      rewrite (set_bit_shift _ _ _ Hbits Hb). cbn [mwhen]. erewrite mbind_ok by reflexivity.
      unfold write_validity. erewrite mbind_ok by reflexivity. rewrite Hck. cbn [mopt].
      erewrite mbind_ok by reflexivity. rewrite blob_write_ok by (cbn [length]; lia).
      rewrite write_at_single by done. cbn [mopt]. erewrite mbind_ok by reflexivity.
      rewrite land_to_u8. done. }
  do 2 erewrite mbind_ok by reflexivity. change (db_vtab _) with p.
  set (s2 := set_auxiliary deleted_aux (set_rowids (delete r (db_rowids s)) (db_rowids_seq s) s1)).
  rewrite (mbind_ok _ _ _ s2 tt).
  2:{ unfold s2, deleted_aux. destruct (length (vt_auxiliary_types p) =? 0)%nat; done. }
  set (s3 := set_metadata cleared_metadata s2).
  rewrite (mbind_ok _ _ _ s3 tt).
  2:{ unfold delete_metadata, s3, cleared_metadata.
      change (db_metadata s) with (db_metadata s2).
      rewrite <- (zip_with_imap _ (seq 0 (length (vt_metadata_kinds p))) (fun i => i)).
      2:{ rewrite list_fmap_id. change (db_metadata s2) with (db_metadata s). by rewrite (wf_metadata_len s Hw). }
      apply (mfor_cells db_metadata set_metadata (fun i => i) (fun _ _ => eq_refl) (fun _ _ _ => eq_refl)
               set_metadata_id).
      - rewrite list_fmap_id. change (db_metadata s2) with (db_metadata s). by rewrite (wf_metadata_len s Hw).
      - intros i m l _ Hm Hl. destruct (clear_ok i m Hm) as (rc & m' & E & Hrc & _).
        unfold mignore, on_metadata. cbn [set_metadata db_metadata]. rewrite Hl.
        unfold metadata_kind_at in *. rewrite E. by destruct rc. }
  unfold index_delete. erewrite mbind_ok by reflexivity. change (db_index s3) with (db_index s).
  destruct (db_index s) as [ix|] eqn:Ei.
  - destruct (r =? 0); [unfold deleted; rewrite Hix, <- Ei; done|].
    destruct Hix as (ix1 & E & Hx). rewrite E. unfold deleted. by rewrite Hx.
  - unfold deleted. by rewrite Hix, <- Ei.
Qed.

Section Deleted.
Context (ck : chunk_row) (Hck : db_chunks s !! c = Some ck).

Lemma cleared_validity (off' : nat) :
  (off' < cs)%nat -> bitmap_test (ck_validity (cleared_chunk ck)) off' =
    if decide (off' = off) then false else bitmap_test (ck_validity ck) off'.
Proof.
  destruct (wf_chunk s Hw c ck Hck) as (_ & [Hl Hb] & _). intros Hlt. cbn [cleared_chunk ck_validity].
  destruct row_chunk as (_ & _ & Hoff & _). fold p cs in Hl.
  case_decide as E; [subst; apply bitmap_test_set_eq; lia|]. apply bitmap_test_set_ne; [done|congruence|lia].
Qed.

(** A row other than the deleted one keeps its slot. *)
Lemma other_row (r' : Z) (row : rowid_row) :
  delete r (db_rowids s) !! r' = Some row -> r' <> r /\ db_rowids s !! r' = Some row.
Proof.
  destruct (decide (r' = r)) as [->|Hne]; [by rewrite lookup_delete_eq|]. by rewrite lookup_delete_ne.
Qed.

Lemma deleted_wf : db_wf (deleted ck).
Proof.
  destruct row_chunk as (ck0 & Hck0 & Hoff & Hb). rewrite Hck in Hck0. injection Hck0 as <-.
  pose proof (slot_chunk s r c off Hw (ex_intro _ id Hrow)) as Hc.
  split; cbn [deleted db_vtab db_chunks db_chunks_seq db_vectors db_metadata db_rowids db_rowids_seq db_auxiliary].
  - apply (wf_schema s Hw).
  - apply (wf_seq s Hw).
  - apply (wf_rowids_seq s Hw).
  - apply upto_overwrite; [done|apply (wf_upto s Hw)].
  - intros c' ck'. destruct (decide (c' = c)) as [->|Hne].
    + rewrite lookup_insert_eq. intros [= <-]. destruct (wf_chunk s Hw c ck Hck) as (H1 & H2 & H3).
      split; [done|]. split; [by apply bitmap_set_wf|done].
    + rewrite lookup_insert_ne by done. apply (wf_chunk s Hw).
  - apply (wf_vectors_len s Hw).
  - apply (wf_vectors s Hw).
  - unfold cleared_metadata. rewrite length_imap. apply (wf_metadata_len s Hw).
  - intros i m'. unfold cleared_metadata. rewrite list_lookup_imap. intros (m & Hm & ->)%fmap_Some_1.
    destruct (clear_ok i m Hm) as (rc & m' & E & _ & H1 & _). fold p. by rewrite E.
  - intros r' row [_ E]%other_row. by apply (wf_range s Hw r' row).
  - intros r' row [Hne E]%other_row. destruct (wf_rows s Hw r' row E) as (c' & off' & ck' & H1 & H2 & H3 & H4 & H5).
    destruct (decide (c' = c)) as [->|Hcc].
    + rewrite Hck in H2. injection H2 as <-. exists c, off', (cleared_chunk ck). rewrite lookup_insert_eq.
      assert (off' <> off).
      { intros ->. apply Hne, (slot_inj s r' r c off Hw); [|by eexists]. exists (rr_id row).
        destruct row; cbn in *. by rewrite H1 in E. }
      rewrite cleared_validity, decide_False by done. done.
    + exists c', off', ck'. rewrite lookup_insert_ne by done. done.
  - intros c' ck' off' E Hlt Hv. setoid_rewrite slot_delete.
    assert (Hkeep : exists r', slot (db_rowids s) r' c' off' /\ (c' = c -> off' <> off)).
    { destruct (decide (c' = c)) as [->|Hcc].
      - rewrite lookup_insert_eq in E. injection E as <-. rewrite cleared_validity in Hv by done.
        case_decide; [done|]. destruct (wf_slots s Hw c ck off' Hck Hlt Hv) as [r' Hs]. eauto.
      - rewrite lookup_insert_ne in E by done. destruct (wf_slots s Hw c' ck' off' E Hlt Hv) as [r' Hs]. eauto. }
    destruct Hkeep as (r' & Hs & Hne). exists r'. split; [|done]. intros ->. destruct Hs as [id' E'].
    rewrite Hrow in E'. injection E' as _ <- <-. by apply Hne.
  - intros Ht. destruct (wf_ids s Hw Ht) as [Hty Hd]. split.
    + intros r' row [_ E]%other_row. by apply (Hty r' row).
    + intros r1 r2 row1 row2 [_ E1]%other_row [_ E2]%other_row. by apply Hd.
  - intros Hn r'. unfold deleted_aux. rewrite (proj2 (Nat.eqb_neq _ _)) by (fold p in Hn; lia).
    destruct (decide (r' = r)) as [->|Hne]; [by rewrite !lookup_delete_eq|].
    rewrite !lookup_delete_ne by done. by apply (wf_auxiliary s Hw).
Qed.

Lemma deleted_table (r' : Z) : table (deleted ck) r' = if decide (r' = r) then None else table s r'.
Proof.
  case_decide as E.
  { subst r'. unfold table. cbn [deleted db_rowids]. by rewrite lookup_delete_eq. }
  apply table_frame; [done|done| | |].
  - cbn. by rewrite lookup_delete_ne.
  - cbn. unfold deleted_aux. destruct (_ =? 0)%nat; [done|]. by rewrite lookup_delete_ne.
  - intros c' off' Hs Hlt. split; [|split; [done|]].
    + cbn. destruct (decide (c' = c)) as [->|Hc]; [by rewrite lookup_insert_eq, Hck|by rewrite lookup_insert_ne].
    + intros i Hi. unfold metadata_cell, aget. cbn [deleted db_metadata db_vtab].
      rewrite <- (wf_metadata_len s Hw) in Hi. destruct (lookup_lt_is_Some_2 _ _ Hi) as [m Hm].
      unfold cleared_metadata. rewrite list_lookup_imap, Hm.
      destruct (clear_ok i m Hm) as (rc & m' & Ec & _ & _ & Hf). cbn [fmap option_fmap option_map].
      rewrite Ec. apply Hf; [|done]. by apply slot_delete.
Qed.

End Deleted.

End DeleteSpec.

(** ** The update handler *)

Section UpdateSpec.
Context {I : Type} `{IndexOps I} (strtod : bytes -> number f64).
Context (s : db I) (args : update_args) (r c : Z) (off : nat) (id : value) (Hw : db_wf s).
Context (Hrow : db_rowids s !! r = Some (MkRow id (Some (c, off)))).
Let p := db_vtab s.
Let cs := vt_chunk_size p.

(** The new vector of a column, if there is one. *)
Definition new_vector (x : nat * nat) : option bytes :=
  let v := (update_column args x.1).1 in
  if sqlite3_value_type (sv_value v) =? SQLITE_NULL then None
  else vec_bytes <$> checked_vector strtod (vector_column p x.2) v.

(** New vectors have the type and dimensions of their columns, and a vector
    column's position among all columns is its number among the vector
    columns, or larger than all of these. *)
Definition update_vectors_ok : Prop :=
  forall x, x ∈ user_columns_of USER_COLUMN_VECTOR p ->
    (x.1 = x.2 \/ (length (vt_vector_columns p) <= x.1)%nat) /\
    (sqlite3_value_type (sv_value (update_column args x.1).1) = SQLITE_NULL \/
     is_Some (checked_vector strtod (vector_column p x.2) (update_column args x.1).1)).

Context (Hix : db_index s = None) (Hvec : update_vectors_ok).

Lemma set_dimensions_same (x : nat * nat) (v : vector) :
  x ∈ user_columns_of USER_COLUMN_VECTOR p -> (x.1 = x.2 \/ (length (vt_vector_columns p) <= x.1)%nat) ->
  Z.of_nat (vec_dims v) = vc_dimensions (vector_column p x.2) ->
  set_dimensions x.1 (vec_dims v) p = p.
Proof.
  intros _ Hpos Hd. unfold set_dimensions. destruct p as [a b u vs pt at_ mk ic]. cbn in *. f_equal.
  apply list_eq. intros i. destruct (decide (i = x.1)) as [->|Hne]; [|by rewrite list_lookup_alter_ne].
  rewrite list_lookup_alter_eq. destruct (vs !! x.1) as [col|] eqn:E; [|done]. cbn. f_equal.
  destruct Hpos as [Hx|Hge].
  - unfold vector_column in Hd. cbn [vt_vector_columns] in Hd. rewrite <- Hx, (aget_lookup _ _ _ _ E) in Hd.
    rewrite Hd. by destruct col.
  - apply lookup_lt_Some in E. lia.
Qed.

Lemma checked_vector_dims (col : VectorColumnDefinition) (v : sval) (x : vector) :
  checked_vector strtod col v = Some x ->
  vector_from_value strtod v = Some x /\ Z.of_nat (vec_dims x) = vc_dimensions col.
Proof.
  unfold checked_vector. destruct (vector_from_value strtod v) as [y|]; [|done].
  destruct (negb _); [done|]. destruct (Z.eqb_spec (Z.of_nat (vec_dims y)) (vc_dimensions col)); [|done].
  by intros [= <-].
Qed.

Let L := user_columns_of USER_COLUMN_VECTOR p.

Definition column_vector (i : nat) : option bytes := new_vector (aget (0, 0)%nat L i).

(** All columns, with zeros where nothing is written. *)
Definition update_datas : list bytes :=
  (fun i => default (replicate (column_size p i) 0) (column_vector i)) <$> seq 0 (length (vt_vector_columns p)).

Definition updated_vectors : list blob_table :=
  imap (fun i t => match column_vector i with
                   | Some d => <[c := write_at (off * column_size p i) d (default [] (t !! c))]> t
                   | None => t
                   end) (db_vectors s).

Lemma vector_column_at (i : nat) : (i < length (vt_vector_columns p))%nat ->
  exists x, L !! i = Some x /\ x.2 = i /\ aget (0, 0)%nat L i = x /\ x ∈ L.
Proof.
  intros Hi. pose proof (sw_vector _ (wf_schema s Hw)) as Hk. fold p L in Hk.
  destruct (lookup_lt_is_Some_2 L i) as [x Hx].
  { apply (f_equal length) in Hk. rewrite length_fmap, length_seq in Hk. lia. }
  exists x. split; [done|]. split; [by apply (column_at s _ _ _ _ Hk Hx)|].
  split; [by apply aget_lookup|by eapply list_elem_of_lookup_2].
Qed.

Lemma update_datas_size (i : nat) :
  (i < length (vt_vector_columns p))%nat -> length (aget [] update_datas i) = column_size p i.
Proof.
  intros Hi. unfold update_datas. rewrite (aget_lookup _ _ _ _ (lookup_fmap_seq0 _ _ _ Hi)).
  destruct (vector_column_at i Hi) as (x & Hx & Hxi & Ha & HxL). unfold column_vector. rewrite Ha. unfold new_vector.
  destruct (sqlite3_value_type _ =? SQLITE_NULL); [apply length_replicate|].
  destruct (checked_vector _ _ _) as [v|] eqn:E; [|apply length_replicate].
  cbn. rewrite (checked_vector_size _ _ _ _ E), Hxi. done.
Qed.

Lemma update_slot : exists ck, db_chunks s !! c = Some ck /\ (off < cs)%nat.
Proof. destruct (wf_rows s Hw r _ Hrow) as (? & ? & ck & [= <- <-] & Hck & Hoff & _). eauto. Qed.

Lemma update_vectors_run :
  update_vectors strtod false args r c off L s = (Ok tt, set_vectors updated_vectors s).
Proof.
  destruct update_slot as (ck & Hck & Hoff). unfold update_vectors, updated_vectors.
  apply (mfor_vectors snd).
  - rewrite (wf_vectors_len s Hw). apply (sw_vector _ (wf_schema s Hw)).
  - intros x t l Hx Ht Hl. destruct (Hvec x Hx) as [Hpos Hval].
    pose proof (lookup_lt_Some _ _ _ Ht) as Hi. rewrite (wf_vectors_len s Hw) in Hi. fold p in Hi.
    destruct (vector_column_at x.2 Hi) as (y & Hy & Hyi & Ha & HyL).
    assert (y = x) as ->.
    { apply list_elem_of_lookup in Hx as [j Hj].
      pose proof (column_at s _ _ _ _ (sw_vector _ (wf_schema s Hw)) Hj) as Ej. rewrite <- Ej in Hj.
      rewrite Hy in Hj. by injection Hj. }
    pose proof (lookup_fmap_seq0 (fun i => default (replicate (column_size p i) 0) (column_vector i)) _ _ Hi) as Hd.
    fold update_datas in Hd. cbv beta in Hd. unfold column_vector in Hd. unfold column_vector. rewrite Ha in *. unfold new_vector in *.
    destruct (Z.eqb_spec (sqlite3_value_type (sv_value (update_column args x.1).1)) SQLITE_NULL) as [En|En].
    { by rewrite (list_insert_id l x.2 t Hl). }
    destruct Hval as [?|[v Hv]]; [done|]. rewrite Hv in *. cbn [fmap option_fmap option_map] in *.
    change (default _ (Some (vec_bytes v))) with (vec_bytes v) in Hd.
    destruct (checked_vector_dims _ _ _ Hv) as [Hfv Hdims]. rewrite Hfv.
    rewrite (mbind_ok _ _ (set_vectors l s) (set_vectors l s) tt).
    2:{ unfold mput. change (db_vtab (set_vectors l s)) with p. by rewrite (set_dimensions_same x v Hx Hpos Hdims). }
    erewrite mbind_ok by reflexivity. erewrite mbind_ok.
    2:{ unfold vec0Update_UpdateVectorColumn. erewrite mbind_ok by reflexivity.
        change (db_vtab (set_vectors l s)) with p. rewrite Hv. cbn [mopt]. erewrite mbind_ok by reflexivity.
        rewrite <- (aget_lookup [] _ _ _ Hd).
        by apply (write_vector_ok s Hw c off ck update_datas Hck Hoff update_datas_size x.2 t l). }
    unfold index_update. erewrite mbind_ok by reflexivity. cbn [set_vectors db_index]. rewrite Hix.
    unfold mret. rewrite (aget_lookup [] _ _ _ Hd). done.
Qed.

Context (Hold : if vt_pkIsText p then ua_old_id args = id /\ ua_new_id args = id else ua_old_id args = VInt r).
Context (Hkeep : forall k x, k <> USER_COLUMN_VECTOR -> x ∈ user_columns_of k p -> (update_column args x.1).2 = true).

(** A loop that does nothing. *)
Lemma mfor_skip {B : Type} (body : B -> M (db I) unit) (l : list B) :
  (forall x, x ∈ l -> body x s = (Ok tt, s)) -> mfor body l s = (Ok tt, s).
Proof.
  unfold mfor. induction l as [|x l IH]; intros Hb; [done|]. cbn [mfold].
  rewrite (mbind_ok _ _ s s tt (Hb x ltac:(set_solver))). apply IH. intros y Hy. apply Hb. set_solver.
Qed.

Lemma update_ok : vec0Update_Update strtod false args s = (Ok tt, set_vectors updated_vectors s).
Proof.
  unfold vec0Update_Update. erewrite mbind_ok by reflexivity. fold p.
  assert (Hrid : rowid_of (ua_old_id args) s = (Ok r, s)).
  { apply (rowid_of_ok s _ r c off id Hw Hrow). fold p. destruct (vt_pkIsText p); [apply Hold|exact Hold]. }
  erewrite mbind_ok.
  2:{ destruct (vt_pkIsText p); [|done]. destruct Hold as [-> ->]. unfold same_text.
      rewrite Nat.eqb_refl, bool_decide_eq_true_2 by done. done. }
  rewrite (mbind_ok _ _ s s r Hrid).
  rewrite (mbind_ok _ _ s s (id, c, off)) by (unfold mquery, vec0_get_chunk_position; by rewrite Hrow).
  rewrite (mbind_ok _ _ s s tt).
  2:{ apply mfor_skip. intros x Hx. by rewrite (Hkeep USER_COLUMN_PARTITION x ltac:(done) Hx). }
  rewrite (mbind_ok _ _ s s tt).
  2:{ apply mfor_skip. intros x Hx. pose proof (Hkeep USER_COLUMN_AUXILIARY x ltac:(done) Hx) as Hn.
      destruct (update_column args x.1) as [v nc]. cbn in Hn. by subst nc. }
  rewrite (mbind_ok _ _ s s tt).
  2:{ apply mfor_skip. intros x Hx. pose proof (Hkeep USER_COLUMN_METADATA x ltac:(done) Hx) as Hn.
      destruct (update_column args x.1) as [v nc]. cbn in Hn. by subst nc. }
  apply update_vectors_run.
Qed.

Let s' := set_vectors updated_vectors s.

Lemma updated_cell (i : nat) (c' : Z) (off' : nat) :
  (i < length (vt_vector_columns p))%nat -> (off' < cs)%nat ->
  vector_cell s' i c' off' =
    match column_vector i with
    | Some d => if decide (c' = c /\ off' = off) then Some d else vector_cell s i c' off'
    | None => vector_cell s i c' off'
    end.
Proof.
  intros Hi Hlt. destruct update_slot as (ck & Hck & Hoff). pose proof Hi as Hi'. unfold p in Hi'.
  rewrite <- (wf_vectors_len s Hw) in Hi'. destruct (lookup_lt_is_Some_2 _ _ Hi') as [t Ht].
  destruct (wf_vectors s Hw i t Ht) as [Hu Hl].
  destruct (proj2 (Hu c) (slot_chunk s r c off Hw (ex_intro _ id Hrow))) as [b Hb].
  pose proof (update_datas_size i Hi) as Hds. unfold update_datas in Hds.
  rewrite (aget_lookup _ _ _ _ (lookup_fmap_seq0 _ _ _ Hi)) in Hds.
  unfold vector_cell. cbn [s' set_vectors db_vectors db_vtab]. fold p.
  rewrite (aget_lookup ∅ (db_vectors s) i t Ht).
  rewrite (aget_lookup ∅ updated_vectors i (match column_vector i with
     | Some d => <[c := write_at (off * column_size p i) d b]> t | None => t end)).
  2:{ unfold updated_vectors. rewrite list_lookup_imap, Ht. cbn. rewrite Hb. done. }
  destruct (column_vector i) as [d|]; [|done].
  assert (Hd : length d = column_size p i) by exact Hds.
  pose proof (Hl c b Hb) as Hlb. fold p cs in Hlb.
  destruct (decide (c' = c)) as [->|Hne]; [|rewrite lookup_insert_ne, decide_False by naive_solver; done].
  rewrite lookup_insert_eq, Hb.
  assert (Hfit : forall o, (o < cs)%nat -> (S o * column_size p i <= length b)%nat)
    by (intros; rewrite Hlb; apply Nat.mul_le_mono_r; lia).
  edestruct (blob_read_write_cell b d (write_at (off * column_size p i) d b) (column_size p i) off' off Hd) as [_ Hread];
    [apply blob_write_ok; specialize (Hfit off Hoff); lia|by apply Hfit|by apply Hfit|].
  rewrite Hread. by destruct (decide (off' = off)), (decide (c = c /\ off' = off)); try naive_solver.
Qed.

Lemma updated_wf : db_wf s'.
Proof.
  split; try solve [destruct Hw; done].
  - cbn. unfold updated_vectors. rewrite length_imap. apply (wf_vectors_len s Hw).
  - cbn [s' set_vectors db_vectors db_vtab db_chunks_seq]. intros i t'. unfold updated_vectors.
    rewrite list_lookup_imap. intros (t & Ht & ->)%fmap_Some_1.
    destruct (wf_vectors s Hw i t Ht) as [Hu Hl].
    pose proof (slot_chunk s r c off Hw (ex_intro _ id Hrow)) as Hc.
    destruct (proj2 (Hu c) Hc) as [b Hb]. destruct update_slot as (ck & Hck & Hoff).
    pose proof (lookup_lt_Some _ _ _ Ht) as Hi. rewrite (wf_vectors_len s Hw) in Hi.
    pose proof (update_datas_size i Hi) as Hds. unfold update_datas in Hds.
    rewrite (aget_lookup _ _ _ _ (lookup_fmap_seq0 _ _ _ Hi)) in Hds.
    destruct (column_vector i) as [d|]; [|done].
    assert (Hd : length d = column_size p i) by exact Hds.
    split; [by apply upto_overwrite|]. intros c' b'. destruct (decide (c' = c)) as [->|Hne].
    + rewrite lookup_insert_eq, Hb. change (default [] (Some b)) with b. intros [= <-].
      pose proof (Hl c b Hb) as Hlb. fold p cs in Hlb. rewrite length_write_at; [done|].
      assert (S off * column_size p i <= length b)%nat by (rewrite Hlb; apply Nat.mul_le_mono_r; lia). lia.
    + rewrite lookup_insert_ne by done. apply Hl.
Qed.

Lemma updated_table (r' : Z) :
  r' <> r -> table s' r' = table s r'.
Proof.
  intros Hne. apply table_frame; [done..|]. intros c' off' Hs Hlt. split; [done|]. split; [|done].
  intros i Hi. rewrite updated_cell by done. destruct (column_vector i); [|done].
  rewrite decide_False; [done|]. intros [-> ->]. apply Hne, (slot_inj s r' r c off Hw Hs). by eexists.
Qed.

(** The row with its new vectors. *)
Definition updated_view : row_view :=
  let v := view s r in
  MkView (rv_id v) (rv_partition v)
    ((fun i => match column_vector i with Some d => Ok d | None => vec0_get_vector_data r i s end)
       <$> seq 0 (length (vt_vector_columns p)))
    (rv_auxiliary v) (rv_metadata v).

Lemma updated_row : table s' r = Some updated_view.
Proof.
  assert (E : db_rowids s' !! r = Some (MkRow id (Some (c, off)))) by exact Hrow.
  destruct update_slot as (ck & Hck & Hoff).
  unfold table. rewrite E. f_equal. unfold updated_view. rewrite (view_slot s' r c off id E), (view_slot s r c off id Hrow).
  cbv zeta. cbn [rv_id rv_partition rv_auxiliary rv_metadata]. f_equal.
  apply fmap_seq0_ext. intros i Hi. rewrite updated_cell by done.
  destruct (column_vector i); [by rewrite decide_True|].
  unfold vec0_get_vector_data, vec0_get_chunk_position. rewrite Hrow. cbn [rr_position rr_id].
  change (default (0, 0%nat) (Some (c, off))) with (c, off). cbv beta iota zeta. unfold vector_cell.
  destruct (aget ∅ (db_vectors s) i !! c); [|done]. by destruct (blob_read _ _ _).
Qed.

End UpdateSpec.

(** ** Refinement *)

Section Refinement.
Context {I : Type} `{IndexOps I} (strtod : bytes -> number f64).

(** C2: Inserting a row whose values pass the handler's checks succeeds and
    implements insertion into the map the table stands for: the rowid is the
    given one or the next of the sequence and was free; reading the row gives
    back its id, partition values, vectors, auxiliary values and metadata;
    every other row reads as before; and the shadow tables satisfy their
    invariant again (a row's slot is valid and carries its rowid, valid slots
    have rows, blobs have their sizes, long texts match their cells), whether
    the slot was free in the latest chunk or a new chunk was made. *)
Theorem vec0_insert_refines (s : db I) (args : insert_args) (ix' : option I) :
  db_wf s -> insert_ok strtod s args ix' ->
  let r := new_rowid s (ia_id args) in
  exists s', vec0Update_Insert strtod args s = (Ok r, s') /\ db_wf s' /\ table s r = None /\
    (forall r', table s' r' =
       if decide (r' = r) then Some (inserted_view strtod (db_vtab s) r args) else table s r') /\
    db_index s' = ix' /\ db_vtab s' = db_vtab s.
Proof.
  intros Hw Hok r. destruct (insert_spec strtod s args ix' Hw Hok) as (s' & E & Hw' & Ht & Hi).
  exists s'. split; [exact E|]. split; [done|]. split; [|done].
  pose proof (proj1 (new_rowid_fresh strtod s args ix' Hw Hok)) as F. fold r in F. unfold table. by rewrite F.
Qed.

(** C13: Deleting an existing row, given by its rowid or its text key,
    succeeds when the index removes it, and implements deletion from the
    map: the row is gone, every other row reads as before and the invariant
    holds, so that the slot can be used again. *)
Theorem vec0_delete_refines (s : db I) (idv id : value) (r c : Z) (off : nat) (ix' : option I) :
  db_wf s -> db_rowids s !! r = Some (MkRow id (Some (c, off))) ->
  (if vt_pkIsText (db_vtab s) then idv = id else idv = VInt r) ->
  match db_index s with
  | Some ix => if r =? 0 then ix' = Some ix
               else exists ix1, ix_delete ix r = Some (SQLITE_OK, ix1) /\ ix' = Some ix1
  | None => ix' = None
  end ->
  exists s', vec0Update_Delete idv s = (Ok tt, s') /\ db_wf s' /\
    (forall r', table s' r' = if decide (r' = r) then None else table s r') /\
    db_index s' = ix' /\ forall r', ~ slot (db_rowids s') r' c off.
Proof.
  intros Hw Hrow Hid Hix. destruct (delete_ok s idv r c off id ix' Hw Hrow Hid Hix) as (ck & Hck & E).
  exists (deleted s r c off ix' ck). split; [exact E|]. split; [by eapply deleted_wf|].
  split; [by eapply deleted_table|]. split; [done|]. intros r' [Hne Hs]%slot_delete.
  apply Hne, (slot_inj s r' r c off Hw Hs). by eexists.
Qed.

(** C30: Updating the vectors of an existing row, with values of the types and
    dimensions of their columns, succeeds on a table without an index and
    implements the update of the map: the row reads back with the new vectors
    (the old ones where the value is NULL) and its other values, every other
    row reads as before, and schema and invariant are kept.  The position of
    a vector column among all columns must be its number among the vector
    columns, or larger than all of these, and the uninitialised error pointer
    must be null. *)
Theorem vec0_update_refines (s : db I) (args : update_args) (id : value) (r c : Z) (off : nat) :
  db_wf s -> db_rowids s !! r = Some (MkRow id (Some (c, off))) -> db_index s = None ->
  update_vectors_ok strtod s args ->
  (if vt_pkIsText (db_vtab s) then ua_old_id args = id /\ ua_new_id args = id
   else ua_old_id args = VInt r) ->
  (forall k x, k <> USER_COLUMN_VECTOR -> x ∈ user_columns_of k (db_vtab s) ->
     (update_column args x.1).2 = true) ->
  exists s', vec0Update_Update strtod false args s = (Ok tt, s') /\ db_wf s' /\ db_vtab s' = db_vtab s /\
    forall r', table s' r' = if decide (r' = r) then Some (updated_view strtod s args r) else table s r'.
Proof.
  intros Hw Hrow Hix Hvec Hold Hkeep. eexists. split; [by eapply update_ok|].
  split; [by eapply updated_wf|]. split; [done|].
  intros r'. case_decide as E; [subst r'; by eapply updated_row|by eapply updated_table].
Qed.

End Refinement.

(** ** A concrete table *)

(** The shadow tables right after [CREATE VIRTUAL TABLE], without an index. *)
Definition created {I : Type} (p : vec0_vtab) : db I :=
  MkDb p ∅ 0 ∅ 0 (replicate (length (vt_vector_columns p)) ∅) ∅
    (replicate (length (vt_metadata_kinds p)) (MkMetadata ∅ ∅)) None.

Lemma upto_empty {A : Type} : upto 0 (∅ : gmap Z A).
Proof. intros c. rewrite lookup_empty. split; [by intros []|lia]. Qed.

Lemma created_wf {I : Type} (p : vec0_vtab) : schema_wf p -> db_wf (created p : db I).
Proof.
  intros Hp. split; cbn; try done; try apply upto_empty.
  - apply length_replicate.
  - intros i t [-> _]%lookup_replicate. split; [apply upto_empty|done].
  - apply length_replicate.
  - intros i m [-> _]%lookup_replicate. split; cbn; try done; [apply upto_empty|].
    intros r c off [id H]. by rewrite lookup_empty in H.
  - intros _ r. rewrite !lookup_empty. split; by intros [].
Qed.

(** Tables that never have an index. *)
#[local] Instance no_index : IndexOps Empty_set := {|
  ix_insert (i : Empty_set) _ _ := match i with end;
  ix_delete (i : Empty_set) _ := match i with end;
  ix_update (i : Empty_set) _ _ := match i with end;
  ix_dim (i : Empty_set) := match i with end
|}.

(** A text key, an [int8\[2\]] vector, a partition key and an auxiliary and a
    metadata column, both texts. *)
Definition demo_vtab : vec0_vtab :=
  MkVtab true 8
    [(USER_COLUMN_VECTOR, 0%nat); (USER_COLUMN_PARTITION, 0%nat);
     (USER_COLUMN_AUXILIARY, 0%nat); (USER_COLUMN_METADATA, 0%nat)]
    [MkVectorColumn [] 2 SQLITE_VEC_ELEMENT_TYPE_INT8 VEC0_DISTANCE_METRIC_L2]
    [SQLITE_INTEGER] [SQLITE_TEXT] [METADATA_KIND_TEXT] [].

Lemma demo_schema_wf : schema_wf demo_vtab.
Proof. split; try reflexivity; [cbn; lia|]. repeat constructor; done. Qed.

Definition no_strtod (_ : bytes) : number f64 := NumNone.

Definition demo_int8 (b : bytes) : sval := MkSval (VBlob b) 225.

(** The text of the metadata column is longer than a cell. *)
Definition demo_row (key : Z) (vector : bytes) : insert_args :=
  MkInsert (VText [key])
    [demo_int8 vector; MkSval (VInt 7) 0; MkSval (VText [65; 66]) 0; MkSval (VText (replicate 20 90)) 0]
    VNull VNull.

Definition demo_db : db Empty_set := created demo_vtab.

Ltac solve_columns :=
  intros ? Hx; vm_compute in Hx;
  repeat (apply elem_of_cons in Hx; destruct Hx as [->|Hx]); try (by apply elem_of_nil in Hx).

Lemma demo_insert_ok : insert_ok no_strtod demo_db (demo_row 97 [1; 2]) None.
Proof.
  split; try (solve_columns; first [reflexivity|by eexists|split; reflexivity]).
  - done.
  - split; [by eexists|]. intros r row Hr. cbn in Hr. by rewrite lookup_empty in Hr.
  - split; reflexivity.
  - reflexivity.
Qed.

Definition demo_one : db Empty_set := (vec0Update_Insert no_strtod (demo_row 97 [1; 2]) demo_db).2.

Lemma demo_one_wf : db_wf demo_one.
Proof.
  destruct (insert_spec no_strtod demo_db (demo_row 97 [1; 2]) None (created_wf _ demo_schema_wf) demo_insert_ok)
    as (s' & E & Hw & _).
  unfold demo_one. by rewrite E.
Qed.

Lemma demo_one_row : db_rowids demo_one !! 1 = Some (MkRow (VText [97]) (Some (1, 0%nat))).
Proof. vm_compute. reflexivity. Qed.

Lemma vec0_insert_refines_witness :
  exists s', vec0Update_Insert no_strtod (demo_row 97 [1; 2]) demo_db = (Ok 1, s') /\ db_wf s' /\
    table s' 1 = Some (MkView (Ok (VText [97])) [Ok (VInt 7)] [Ok [1; 2]] [Ok (VText [65; 66])]
                         [Ok (VText (replicate 20 90))]).
Proof.
  destruct (vec0_insert_refines no_strtod demo_db (demo_row 97 [1; 2]) None
              (created_wf _ demo_schema_wf) demo_insert_ok) as (s' & E & Hw & _ & Ht & _).
  exists s'. split; [exact E|]. split; [exact Hw|]. rewrite Ht. reflexivity.
Defined.

Lemma vec0_delete_refines_witness :
  exists s', vec0Update_Delete (VText [97]) demo_one = (Ok tt, s') /\ db_wf s' /\ table s' 1 = None.
Proof.
  destruct (vec0_delete_refines demo_one (VText [97]) (VText [97]) 1 1 0 None demo_one_wf demo_one_row)
    as (s' & E & Hw & Ht & _); [reflexivity|vm_compute; reflexivity|].
  exists s'. split; [exact E|]. split; [exact Hw|]. rewrite Ht. reflexivity.
Defined.

(** A new vector, everything else unchanged. *)
Definition demo_update (key : Z) (vector : bytes) : update_args :=
  MkUpdate (VText [key]) (VText [key])
    [(demo_int8 vector, false); (MkSval VNull 0, true); (MkSval VNull 0, true); (MkSval VNull 0, true)].

Lemma vec0_update_refines_witness :
  exists s', vec0Update_Update no_strtod false (demo_update 97 [3; 4]) demo_one = (Ok tt, s') /\ db_wf s' /\
    table s' 1 = Some (MkView (Ok (VText [97])) [Ok (VInt 7)] [Ok [3; 4]] [Ok (VText [65; 66])]
                         [Ok (VText (replicate 20 90))]).
Proof.
  destruct (vec0_update_refines no_strtod demo_one (demo_update 97 [3; 4]) (VText [97]) 1 1 0
              demo_one_wf demo_one_row) as (s' & E & Hw & _ & Ht).
  - vm_compute. reflexivity.
  - intros x Hx. vm_compute in Hx. apply list_elem_of_singleton in Hx as ->. split; [left; reflexivity|].
    right. vm_compute. by eexists.
  - vm_compute. done.
  - intros k x Hk Hx. destruct k; [done|..]; vm_compute in Hx; apply list_elem_of_singleton in Hx as ->; reflexivity.
  - exists s'. split; [exact E|]. split; [exact Hw|]. rewrite Ht. vm_compute. reflexivity.
Defined.

(** An UPDATE with a vector of other dimensions is not refused: it overwrites
    the dimensions the check compares with.  Row [b] is at slot 1 of its
    chunk; its new one-dimensional vector is written to byte 1, which belongs
    to row [a], and every vector of the column now reads one byte. *)
Definition demo_two : db Empty_set := (vec0Update_Insert no_strtod (demo_row 98 [3; 4]) demo_one).2.

Lemma vec0_update_changes_dimensions :
  let s' := (vec0Update_Update no_strtod false (demo_update 98 [9]) demo_two).2 in
  vec0_get_vector_data 1 0 demo_two = Ok [1; 2] /\ vec0_get_vector_data 2 0 demo_two = Ok [3; 4] /\
  (vec0Update_Update no_strtod false (demo_update 98 [9]) demo_two).1 = Ok tt /\
  vc_dimensions (vector_column (db_vtab s') 0) = 1 /\
  (take 4 <$> aget ∅ (db_vectors s') 0 !! 1) = Some [1; 9; 3; 4] /\
  vec0_get_vector_data 1 0 s' = Ok [1] /\ vec0_get_vector_data 2 0 s' = Ok [9].
Proof. vm_compute. repeat split. Qed.
