(* ===== verification/Index.v ===== *)
(** * The table and its vector index (sqlite-vec.c, [vec0Update_Insert],
    [vec0Update_Delete] with [indexMeta])

    A table declared with an index keeps a second copy of one vector column
    in an in-memory index.  [VecIndex] states what the table relies on; the
    KD-tree, the HNSW graph and the IVF index are shown to provide it, and
    the table handlers, proved against it, keep table and index in
    agreement. *)

From stdpp Require Import base option list numbers gmap.
From Stdlib Require Import ZArith Lia Ascii.
From S2P Require Import Prelude Float32 CLib Distance KDTree KDSearch IVF HNSW Bitmap Codec Shadow DefParser.
From S2P Require Import Metadata Values Storage Table Refine.

Local Open Scope Z_scope.

(** ** What the table relies on

    [ix_insertable] and [ix_removable] say when an operation of the index
    reports success. *)
Class VecIndex (I : Type) `{IndexOps I} := {
  ix_inv : I -> Prop;
  ix_rows : I -> list (Z * list f32);
  ix_insertable : I -> list f32 -> Z -> Prop;
  ix_removable : I -> Z -> Prop;
  ix_insert_law : forall i v r, ix_inv i -> length v = ix_dim i -> ix_insertable i v r ->
    exists i', ix_insert i v r = Some (SQLITE_OK, i') /\ ix_inv i' /\ ix_dim i' = ix_dim i /\
      ix_rows i' ≡ₚ (r, v) :: ix_rows i;
  ix_delete_law : forall i r, ix_inv i -> NoDup (ix_rows i).*1 -> ix_removable i r ->
    exists i', ix_delete i r = Some (SQLITE_OK, i') /\ ix_inv i' /\ ix_dim i' = ix_dim i /\
      ix_rows i' ≡ₚ filter (fun row => row.1 <> r) (ix_rows i)
}.

Lemma filter_absent (l : list (Z * list f32)) (r : Z) :
  (forall row, row ∈ l -> row.1 <> r) -> filter (fun row => row.1 <> r) l = l.
Proof.
  induction l as [|row l IH]; intros Hl; [done|].
  rewrite filter_cons_True by (apply Hl; set_solver). rewrite IH; [done|set_solver].
Qed.

(** Removing one row whose key occurs once. *)
Lemma filter_removed (l l' : list (Z * list f32)) (r : Z) (v : list f32) :
  NoDup l.*1 -> l ≡ₚ (r, v) :: l' -> l' ≡ₚ filter (fun row => row.1 <> r) l.
Proof.
  intros Hn Hp. rewrite Hp in Hn. cbn in Hn. apply NoDup_cons in Hn as [Hr _].
  rewrite Hp, filter_cons_False by naive_solver. rewrite filter_absent; [done|].
  intros row Hx <-. apply Hr. by apply list_elem_of_fmap_2.
Qed.

(** ** The KD-tree *)

Definition kd_row (q : PointRec) : Z * list f32 := (pr_rowid q, pr_point q).

Lemma kd_row_filter (l : list PointRec) (r : Z) :
  kd_row <$> filter (fun q => pr_rowid q <> r) l = filter (fun row => row.1 <> r) (kd_row <$> l).
Proof.
  induction l as [|q l IH]; [done|]. rewrite fmap_cons, !filter_cons. cbn [kd_row fst].
  case_decide; [by rewrite fmap_cons, IH|done].
Qed.

#[global] Instance kdtree_ops `{QSort} : IndexOps KDTree := {
  ix_insert t v r := Some (kdtree_insert t v r (length v));
  ix_delete t r := Some (kdtree_delete t r);
  ix_update t r v := Some (kdtree_update t r v (length v));
  ix_dim := kt_dimensions
}.

#[global] Program Instance kdtree_index `{QSort} : VecIndex KDTree := {
  ix_inv := kdtree_inv;
  ix_rows t := kd_row <$> kd_live (kt_root t);
  ix_insertable _ v _ := point_num v;
  ix_removable t r := kt_root t <> kd_null /\ in_i32 r /\ NoDup (kd_rowids (kt_root t))
}.
Next Obligation.
  intros HQ t v r Hi Hv Hn. cbn. cbn in Hv. rewrite Hv.
  destruct (kdtree_insert_spec t v r Hi Hv Hn) as (t' & E & Hi' & Hl & _ & Hd).
  exists t'. rewrite E. do 3 (split; [done|]). by rewrite Hl.
Qed.
Next Obligation.
  intros HQ t r Hi _ (Hne & Hr & Hd). cbn.
  destruct (kdtree_delete_spec t r Hi Hne Hr Hd) as (t' & E & Hi' & Hl & Hk).
  exists t'. rewrite E. do 3 (split; [done|]). by rewrite Hl, kd_row_filter.
Qed.

(** ** The HNSW graph, with the levels its random generator will draw *)

Section HNSWIndex.
Context (distfunc : DistanceFunc).

#[global] Instance hnsw_ops : IndexOps (HNSW * list nat) := {
  ix_insert h v r := p ← hnsw_add distfunc h.1 v r (default 0%nat (head h.2)); Some (p.1, (p.2, tail h.2));
  ix_delete h r := let p := hnsw_delete h.1 r in Some (p.1, (p.2, h.2));
  ix_update h r v :=
    p ← hnsw_update distfunc h.1 r v true (default 0%nat (head h.2)); Some (p.1, (p.2, tail h.2));
  ix_dim h := h_dim h.1
}.

#[global] Program Instance hnsw_index : VecIndex (HNSW * list nat) := {
  ix_inv h := hnsw_wf h.1;
  ix_rows h := hnsw_live h.1;
  ix_insertable h _ r := (length (h_nodes h.1) < h_max_nodes h.1)%nat /\ in_i32 r;
  ix_removable _ r := in_i32 r
}.
Next Obligation.
  intros [h ds] v r Hi Hv [Hroom Hr]. cbn in *.
  destruct (hnsw_add_spec distfunc h v r (default 0%nat (head ds)) Hi Hv Hroom) as (h' & E & Hi' & Hd & Hl).
  exists (h', tail ds). rewrite E. do 3 (split; [done|]). cbn. rewrite Hl, to_i32_id by done.
  by rewrite Permutation_app_comm.
Qed.
Next Obligation.
  intros [h ds] r Hi Hn Hr. cbn in *.
  destruct (hnsw_delete_spec h r Hi) as (h' & E & Hi' & Hd & Hl). rewrite to_i32_id in Hl by done.
  exists (h', ds). rewrite E. do 3 (split; [done|]). cbn. destruct Hl as [[v Hl]|[-> Hl]].
  - by apply (filter_removed _ _ r v).
  - by rewrite filter_absent.
Qed.

End HNSWIndex.

(** ** The IVF index, with the numbers its random generator will draw

    A deletion returns the number of the inverted list, which the table takes
    for a result code: only rows of list 0 are removed without an error. *)

Section IVFIndex.
Context (distfunc : DistanceFunc).

#[global] Instance ivf_ops : IndexOps (IVF * list Z) := {
  ix_insert f v r :=
    if marks_readable f.1
    then let '(rc, f', rand) := ivf_insert distfunc f.1 v r f.2 in Some (rc, (f', rand))
    else None;
  ix_delete f r := p ← ivf_delete_vector f.1 r; Some (p.1, (p.2, f.2));
  ix_update f r v := p ← ivf_update_vector_reinsert distfunc f.1 r v; Some (p.1, (p.2, f.2));
  ix_dim f := ivf_dim f.1
}.

Lemma ivf_inv_marks (f : IVF) : ivf_inv distfunc f -> marks_readable f = true.
Proof.
  intros [Hw _]. unfold marks_readable. assert (length (ivf_deleted f) = ivf_train_capacity f) as -> by apply Hw.
  by rewrite Nat.leb_refl, orb_true_r.
Qed.

#[global] Program Instance ivf_index : VecIndex (IVF * list Z) := {
  ix_inv f := ivf_inv distfunc f.1;
  ix_rows f := ivf_contents f.1;
  ix_insertable f _ _ := ivf_trained f.1 = false ->
    (ivf_train_size f.1 < ivf_train_capacity f.1)%nat /\
    aget false (ivf_deleted f.1) (ivf_train_size f.1) = false;
  ix_removable f r := ivf_trained f.1 = true /\
    exists f', ivf_delete_vector f.1 r = Some (SQLITE_OK, f')
}.
Next Obligation.
  intros [f rand] v r Hi Hv Hroom. cbn in *.
  destruct (ivf_insert_spec distfunc f v r rand Hi Hv Hroom) as (f' & rand' & E & Hi' & Hl).
  exists (f', rand'). pose proof (ivf_insert_dim distfunc f v r rand Hi Hv) as Hd.
  rewrite (ivf_inv_marks f Hi). rewrite E in Hd. rewrite E. done.
Qed.
Next Obligation.
  intros [f rand] r Hi Hn [Ht [f' E]]. cbn in *.
  destruct (ivf_delete_inv distfunc f f' r SQLITE_OK Hi E) as (Hi' & Hd & _).
  destruct (ivf_delete_contents distfunc f r Hi Ht) as (rc & f1 & E1 & Hl). rewrite E in E1.
  injection E1 as <- <-. exists (f', rand). rewrite E. do 3 (split; [done|]). cbn.
  destruct Hl as [[_ [v Hl]]|[? _]]; [|done]. by apply (filter_removed _ _ r v).
Qed.

End IVFIndex.

(** ** Table and index *)

Section Agreement.
Context {I : Type} `{VecIndex I} (strtod : bytes -> number f64).

(** The vector of a row in column [i], as floats. *)
Definition row_floats (s : db I) (i : nat) (r : Z) : list f32 :=
  vector_floats (match vec0_get_vector_data r i s with Ok b => b | _ => [] end)
    (Z.to_nat (vc_dimensions (vector_column (db_vtab s) i))).

Definition table_rows (s : db I) (i : nat) : list (Z * list f32) :=
  (fun r => (r, row_floats s i r)) <$> elements (dom (db_rowids s)).

(** The index holds the rowids of the table with their vectors. *)
Definition agrees (s : db I) (i : nat) (ix : I) : Prop :=
  db_index s = Some ix /\ index_column (db_vtab s) = Some i /\
  ix_inv ix /\
  ix_dim ix = Z.to_nat (vc_dimensions (vector_column (db_vtab s) i)) /\
  ix_rows ix ≡ₚ table_rows s i.

Lemma index_column_lt (p : vec0_vtab) (i : nat) :
  index_column p = Some i -> (i < length (vt_vector_columns p))%nat.
Proof.
  unfold index_column. intros ([j c] & Hf & ->)%fmap_Some_1.
  apply list_find_Some in Hf as [Hf _]. by eapply lookup_lt_Some.
Qed.

Lemma table_dom (s : db I) (r : Z) : r ∈ dom (db_rowids s) <-> is_Some (table s r).
Proof.
  rewrite elem_of_dom. unfold table. destruct (db_rowids s !! r); rewrite ?is_Some_alt; naive_solver.
Qed.

(** Equal rows have equal vectors. *)
Lemma row_floats_table (s s' : db I) (i : nat) (r : Z) :
  db_vtab s' = db_vtab s -> (i < length (vt_vector_columns (db_vtab s)))%nat ->
  table s' r = table s r -> r ∈ dom (db_rowids s) -> row_floats s' i r = row_floats s i r.
Proof.
  intros Hv Hi Ht Hr. pose proof Hr as Hr'. rewrite table_dom, <- Ht, <- table_dom in Hr'.
  apply elem_of_dom in Hr as [row Hr], Hr' as [row' Hr']. unfold table in Ht. rewrite Hr, Hr' in Ht.
  apply (inj Some), (f_equal rv_vectors) in Ht. cbn in Ht. rewrite Hv in Ht.
  apply (f_equal (lookup i)) in Ht. rewrite !(lookup_fmap_seq0 _ _ _ Hi) in Ht. injection Ht as Ht.
  unfold row_floats. by rewrite Ht, Hv.
Qed.

Lemma row_floats_view (s : db I) (i : nat) (r : Z) (v : row_view) (b : bytes) :
  (i < length (vt_vector_columns (db_vtab s)))%nat ->
  table s r = Some v -> rv_vectors v !! i = Some (Ok b) ->
  row_floats s i r = vector_floats b (Z.to_nat (vc_dimensions (vector_column (db_vtab s) i))).
Proof.
  intros Hi Ht Hv. unfold table in Ht. destruct (db_rowids s !! r); [|done]. apply (inj Some) in Ht as <-.
  cbn in Hv. rewrite (lookup_fmap_seq0 _ _ _ Hi) in Hv. injection Hv as Hv. unfold row_floats. by rewrite Hv.
Qed.

(** Rows of the table after a row is added or removed. *)
Lemma table_rows_insert (s s' : db I) (i : nat) (r : Z) :
  db_vtab s' = db_vtab s -> (i < length (vt_vector_columns (db_vtab s)))%nat ->
  table s r = None -> is_Some (table s' r) -> (forall r', r' <> r -> table s' r' = table s r') ->
  table_rows s' i ≡ₚ (r, row_floats s' i r) :: table_rows s i.
Proof.
  intros Hv Hi Hn Hs Ho. unfold table_rows.
  assert (Hr : r ∉ dom (db_rowids s)) by (rewrite table_dom, Hn; by intros []).
  assert (Hd : dom (db_rowids s') = {[r]} ∪ dom (db_rowids s)).
  { apply set_eq. intros r'. rewrite elem_of_union, elem_of_singleton, !table_dom.
    destruct (decide (r' = r)) as [->|Hne]; [naive_solver|]. rewrite (Ho r' Hne). naive_solver. }
  rewrite Hd, elements_union_singleton by done. cbn. constructor.
  erewrite list_fmap_ext; [reflexivity|]. intros j r' Hj. cbn. f_equal.
  apply list_elem_of_lookup_2, elem_of_elements in Hj.
  apply row_floats_table; [done..|apply Ho; by intros ->|done].
Qed.

Lemma table_rows_delete (s s' : db I) (i : nat) (r : Z) :
  db_vtab s' = db_vtab s -> (i < length (vt_vector_columns (db_vtab s)))%nat ->
  is_Some (table s r) -> table s' r = None -> (forall r', r' <> r -> table s' r' = table s r') ->
  table_rows s' i ≡ₚ filter (fun row => row.1 <> r) (table_rows s i).
Proof.
  intros Hv Hi Hs Hn Ho. apply (filter_removed _ _ r (row_floats s i r)).
  - unfold table_rows. rewrite <- list_fmap_compose, list_fmap_id. apply NoDup_elements.
  - apply table_rows_insert; [done|by rewrite Hv|done..|]. intros r' Hne. by rewrite Ho.
Qed.

(** The vector an insertion gives to the index. *)
Definition insert_vector (s : db I) (args : insert_args) (i : nat) : list f32 :=
  vector_floats (aget [] (arg_vectors strtod (db_vtab s) args) i)
    (Z.to_nat (vc_dimensions (vector_column (db_vtab s) i))).

(** The index copies [4] bytes per dimension out of the argument: a [float32]
    column has them, an [int8] or [bit] column does not. *)
Definition float_column (s : db I) (i : nat) : Prop :=
  vc_element_type (vector_column (db_vtab s) i) = SQLITE_VEC_ELEMENT_TYPE_FLOAT32.

Lemma float_column_bytes (s : db I) (args : insert_args) (i : nat) :
  schema_wf (db_vtab s) -> insert_ok strtod (set_index None s) args None -> float_column s i ->
  (i < length (vt_vector_columns (db_vtab s)))%nat ->
  (Z.to_nat (vc_dimensions (vector_column (db_vtab s) i)) * 4
   <= length (aget [] (arg_vectors strtod (db_vtab s) args) i))%nat.
Proof.
  intros Hs Hok Hf Hi. pose proof (sw_vector _ Hs) as Hk.
  destruct (lookup_lt_is_Some_2 (user_columns_of USER_COLUMN_VECTOR (db_vtab s)) i) as [x Hx].
  { apply (f_equal length) in Hk. rewrite length_fmap, length_seq in Hk. lia. }
  destruct (io_vectors _ _ _ _ Hok x (list_elem_of_lookup_2 _ _ _ Hx)) as [v Hv]. cbn in Hv.
  rewrite (aget_lookup [] _ i (vec_bytes v)).
  - rewrite (checked_vector_size _ _ _ _ Hv), (column_at _ _ _ _ _ Hk Hx). unfold vector_column_byte_size.
    rewrite Hf. cbn. lia.
  - unfold arg_vectors. rewrite list_lookup_fmap, Hx. cbn. unfold arg_vector. by rewrite Hv.
Qed.

Lemma agrees_insert (s : db I) (args : insert_args) (i : nat) (ix : I) :
  db_wf s -> agrees s i ix -> float_column s i -> insert_ok strtod (set_index None s) args None ->
  ix_insertable ix (insert_vector s args i) (new_rowid s (ia_id args)) ->
  exists s' ix', vec0Update_Insert strtod args s = (Ok (new_rowid s (ia_id args)), s') /\
    db_wf s' /\ db_vtab s' = db_vtab s /\ agrees s' i ix'.
Proof.
  intros Hw (Hx & Hc & Hi & Hd & Hrows) Hf Hok Hins. set (r := new_rowid s (ia_id args)) in *.
  assert (Hlen : length (insert_vector s args i) = ix_dim ix)
    by (unfold insert_vector, vector_floats; by rewrite length_fmap, length_seq).
  destruct (ix_insert_law ix _ r Hi Hlen Hins) as (ix' & E & Hi' & Hd' & Hrows').
  assert (Hok' : insert_ok strtod s args (Some ix')).
  { pose proof (float_column_bytes s args i (wf_schema s Hw) Hok Hf (index_column_lt _ _ Hc)).
    destruct Hok. split; try done. rewrite Hx, Hc. by exists ix'. }
  destruct (insert_spec strtod s args (Some ix') Hw Hok') as (s' & E' & Hw' & Ht & Hx' & Hv).
  pose proof (index_column_lt _ _ Hc) as Hlt.
  assert (Hnew : table s' r = Some (inserted_view strtod (db_vtab s) r args))
    by (rewrite Ht; by rewrite decide_True).
  exists s', ix'. do 3 (split; [done|]). split; [done|]. rewrite Hv.
  split; [done|]. split; [done|]. split; [by rewrite Hd'|]. rewrite Hrows', Hrows.
  rewrite (table_rows_insert s s' i r Hv Hlt).
  - assert (Hlt' : (i < length (vt_vector_columns (db_vtab s')))%nat) by (by rewrite Hv).
    rewrite (row_floats_view s' i r _ (aget [] (arg_vectors strtod (db_vtab s) args) i) Hlt' Hnew);
      [by rewrite Hv|].
    pose proof (f_equal length (sw_vector _ (wf_schema s Hw))) as Hk. rewrite length_fmap, length_seq in Hk.
    destruct (lookup_lt_is_Some_2 (user_columns_of USER_COLUMN_VECTOR (db_vtab s)) i) as [x Hxi]; [lia|].
    cbn [inserted_view rv_vectors]. rewrite list_lookup_fmap, Hxi. cbn. do 2 f_equal. symmetry.
    apply aget_lookup. unfold arg_vectors. by rewrite list_lookup_fmap, Hxi.
  - pose proof (proj1 (new_rowid_fresh strtod s args _ Hw Hok')) as Hfr. fold r in Hfr. unfold table. by rewrite Hfr.
  - rewrite Hnew. by eexists.
  - intros r' Hne. by rewrite Ht, decide_False.
Qed.

Lemma agrees_delete (s : db I) (i : nat) (ix : I) (idv id : value) (r c : Z) (off : nat) :
  db_wf s -> agrees s i ix -> db_rowids s !! r = Some (MkRow id (Some (c, off))) ->
  (if vt_pkIsText (db_vtab s) then idv = id else idv = VInt r) -> r <> 0 -> ix_removable ix r ->
  exists s' ix', vec0Update_Delete idv s = (Ok tt, s') /\
    db_wf s' /\ db_vtab s' = db_vtab s /\ agrees s' i ix'.
Proof.
  intros Hw (Hx & Hc & Hi & Hd & Hrows) Hrow Hid Hne Hrem.
  assert (Hnd : NoDup (ix_rows ix).*1).
  { rewrite Hrows. unfold table_rows. rewrite <- list_fmap_compose, list_fmap_id. apply NoDup_elements. }
  destruct (ix_delete_law ix r Hi Hnd Hrem) as (ix' & E & Hi' & Hd' & Hrows').
  destruct (delete_ok s idv r c off id (Some ix') Hw Hrow Hid) as (ck & Hck & E').
  { rewrite Hx. apply Z.eqb_neq in Hne. rewrite Hne. by exists ix'. }
  exists (deleted s r c off (Some ix') ck), ix'. split; [done|]. split; [by eapply deleted_wf|].
  split; [done|]. split; [done|]. split; [done|]. split; [done|]. split; [by rewrite Hd'|].
  pose proof (deleted_table s r c off id (Some ix') Hw Hrow ck Hck) as Ht.
  rewrite Hrows', Hrows. symmetry. apply table_rows_delete; [done|by apply index_column_lt|..].
  - unfold table. rewrite Hrow. by eexists.
  - by rewrite Ht, decide_True.
  - intros r' Hn. by rewrite Ht, decide_False.
Qed.

(** Requests that the handlers accept, and whose index operation succeeds. *)
Inductive admissible (s : db I) (ix : I) : update_request -> Prop :=
| adm_insert argv1 id columns i :
    let args := MkInsert id columns.*1 VNull VNull in
    insert_ok strtod (set_index None s) args None -> index_column (db_vtab s) = Some i ->
    float_column s i -> ix_insertable ix (insert_vector s args i) (new_rowid s id) ->
    admissible s ix (ReqRow VNull argv1 id columns VNull VNull)
| adm_delete idv id r c off :
    db_rowids s !! r = Some (MkRow id (Some (c, off))) ->
    (if vt_pkIsText (db_vtab s) then idv = id else idv = VInt r) -> r <> 0 -> ix_removable ix r ->
    admissible s ix (ReqDelete idv).

(** A history of admissible requests. *)
Inductive serves (garbage : bool) : db I -> list update_request -> db I -> Prop :=
| serves_nil s : serves garbage s [] s
| serves_cons s ix req rs o s1 s2 :
    db_index s = Some ix -> admissible s ix req -> vec0Update strtod garbage req s = (Ok o, s1) ->
    serves garbage s1 rs s2 -> serves garbage s (req :: rs) s2.

Lemma agrees_step (garbage : bool) (s : db I) (i : nat) (ix : I) (req : update_request) :
  db_wf s -> agrees s i ix -> admissible s ix req ->
  exists o s' ix', vec0Update strtod garbage req s = (Ok o, s') /\ db_wf s' /\ agrees s' i ix'.
Proof.
  intros Hw Ha [argv1 id columns j args Hok Hj Hf Hins|idv id r c off Hrow Hid Hr Hrem].
  - assert (j = i) as -> by (destruct Ha as (_ & Hc & _); congruence).
    destruct (agrees_insert s args i ix Hw Ha Hf Hok Hins) as (s' & ix' & E & Hw' & _ & Ha').
    exists (Some (new_rowid s id)), s', ix'. split; [|done]. unfold vec0Update. fold args.
    change (sqlite3_value_type VNull =? SQLITE_NULL) with true. cbv iota. by rewrite (mbind_ok _ _ _ _ _ E).
  - destruct (agrees_delete s i ix idv id r c off Hw Ha Hrow Hid Hr Hrem) as (s' & ix' & E & Hw' & _ & Ha').
    exists None, s', ix'. split; [|done]. unfold vec0Update.
    assert (Hnn : (sqlite3_value_type idv =? SQLITE_NULL) = false).
    { destruct (vt_pkIsText (db_vtab s)) eqn:Hp; subst idv; [|done].
      pose proof (proj1 (wf_ids s Hw Hp) r _ Hrow) as Ht. cbn in Ht. by rewrite Ht. }
    rewrite Hnn. cbn [negb]. by rewrite (mbind_ok _ _ _ _ _ E).
Qed.

Lemma serves_agrees (garbage : bool) (s s' : db I) (i : nat) (ix : I) (rs : list update_request) :
  db_wf s -> agrees s i ix -> serves garbage s rs s' -> exists ix', db_wf s' /\ agrees s' i ix'.
Proof.
  intros Hw Ha Hs. revert ix Hw Ha. induction Hs as [s|s ix0 req rs o s1 s2 Hx Hadm E _ IH]; intros ix Hw Ha; [by exists ix|].
  assert (ix0 = ix) as -> by (destruct Ha as [Ha _]; congruence).
  destruct (agrees_step garbage s i ix req Hw Ha Hadm) as (o' & s1' & ix' & E' & Hw' & Ha').
  rewrite E in E'. injection E' as <- <-. by apply (IH ix').
Qed.

(** C14: Table and index stay in agreement over admissible histories: after any
    history of insertions and deletions that pass the handlers' checks and that
    the index can serve, the index holds exactly the rowids of the table, each
    with the vector the table's reader returns for it, and the shadow tables
    satisfy their invariant; and in such a state every further admissible
    request succeeds.  The index can serve an insertion when its column is of
    type [float32] (of an [int8] or [bit] vector the handler copies 4 bytes per
    dimension, past its end) and
    - KD-tree: no element of the vector is a NaN;
    - HNSW: the rowid fits an [int] and the graph is not full;
    - IVF: the index is trained, or the buffer has room and the mark of its
      next slot is clear;
    and a deletion of a rowid other than 0 when
    - KD-tree: the tree is not empty, the rowid fits an [int], and no rowid is
      stored twice, deleted nodes included: after the insertion of a rowid that
      was deleted before, a deletion can mark the old node again and leave the
      new one ([kd_reinserted_stays]);
    - HNSW: the rowid fits an [int];
    - IVF: the index is trained and the row is in list 0, since the handler
      takes the number of the list for a result code. *)
Theorem vec0_index_agrees (garbage : bool) (s s' : db I) (i : nat) (ix : I) (rs : list update_request) :
  db_wf s -> agrees s i ix -> serves garbage s rs s' ->
  exists ix', db_wf s' /\ agrees s' i ix' /\
    forall req, admissible s' ix' req ->
      exists o s2 ix2, vec0Update strtod garbage req s' = (Ok o, s2) /\ db_wf s2 /\ agrees s2 i ix2.
Proof.
  intros Hw Ha Hs. destruct (serves_agrees garbage s s' i ix rs Hw Ha Hs) as (ix' & Hw' & Ha').
  exists ix'. split; [done|]. split; [done|]. intros req. by apply agrees_step.
Qed.

End Agreement.

(** ** A concrete table with a KD-tree *)

Lemma set_index_wf {I : Type} (s : db I) (i : option I) : db_wf s -> db_wf (set_index i s).
Proof. intros []. by split. Qed.

Definition kd_vtab : vec0_vtab :=
  MkVtab false 8 [(USER_COLUMN_VECTOR, 0%nat)]
    [MkVectorColumn ["v"%char] 1 SQLITE_VEC_ELEMENT_TYPE_FLOAT32 VEC0_DISTANCE_METRIC_L2] [] [] [] ["V"%char].

Lemma kd_schema_wf : schema_wf kd_vtab.
Proof. split; try reflexivity; [cbn; lia|]. repeat constructor; done. Qed.

Definition kd_created : db KDTree := set_index (Some (MkKDTree kd_null 1 0)) (created kd_vtab).

Lemma kd_created_agrees : agrees kd_created 0 (MkKDTree kd_null 1 0).
Proof. repeat split; try reflexivity; try done; cbn; try lia; intros q Hq; by apply elem_of_nil in Hq. Qed.

(** Rows with one float each, and the removal of the first. *)
Definition kd_insert (b : bytes) : update_request :=
  ReqRow VNull VNull VNull [(MkSval (VBlob b) 223, false)] VNull VNull.

Definition kd_history : list update_request :=
  [kd_insert [0; 0; 128; 64]; kd_insert [0; 0; 0; 64]; ReqDelete (VInt 1)].

Definition kd_run (rs : list update_request) : db KDTree :=
  foldl (fun s r => (vec0Update no_strtod false r s).2) kd_created rs.

Lemma kd_insert_admissible (s : db KDTree) (ix : KDTree) (b : bytes) :
  db_vtab s = kd_vtab -> db_rowids_seq s < I64_MAX -> db_chunks_seq s < I64_MAX ->
  is_Some (checked_vector no_strtod (vector_column kd_vtab 0) (MkSval (VBlob b) 223)) ->
  ix_insertable ix (insert_vector no_strtod s (MkInsert VNull [MkSval (VBlob b) 223] VNull VNull) 0)
    (new_rowid s VNull) ->
  admissible no_strtod s ix (kd_insert b).
Proof.
  intros Hv Hr Hc Hb Hi. apply (adm_insert _ s ix VNull VNull [(MkSval (VBlob b) 223, false)] 0).
  - split; cbn [set_index db_vtab db_rowids db_rowids_seq db_chunks_seq db_index]; rewrite ?Hv;
      try (solve_columns; done); try done. by left.
  - by rewrite Hv.
  - unfold float_column. by rewrite Hv.
  - exact Hi.
Qed.

(** The index after a prefix of the history. *)
Definition kd_tree (n : nat) : KDTree := default (MkKDTree kd_null 1 0) (db_index (kd_run (take n kd_history))).

Lemma kd_history_serves : serves no_strtod false kd_created kd_history (kd_run kd_history).
Proof.
  apply (serves_cons _ _ kd_created (kd_tree 0) _ _ (Some 1) (kd_run (take 1 kd_history)));
    [reflexivity| |vm_compute; reflexivity|].
  { apply kd_insert_admissible; [reflexivity..| |]; [by_compute|by_compute]. }
  apply (serves_cons _ _ _ (kd_tree 1) _ _ (Some 2) (kd_run (take 2 kd_history)));
    [vm_compute; reflexivity| |vm_compute; reflexivity|].
  { apply kd_insert_admissible; [vm_compute; reflexivity..| |]; [by_compute|by_compute]. }
  apply (serves_cons _ _ _ (kd_tree 2) _ _ None (kd_run (take 3 kd_history)));
    [vm_compute; reflexivity| |vm_compute; reflexivity|].
  { apply (adm_delete _ _ _ (VInt 1) VNull 1 1 0); [vm_compute; reflexivity|reflexivity|done|].
    split; [vm_compute; discriminate|]. split; by_compute. }
  apply serves_nil.
Qed.

(** A rowid that was deleted and inserted again is stored twice; the next
    deletion removes it from the table and succeeds, and the index still has
    it. *)
Definition kd_insert_at (r : Z) (b : bytes) : update_request :=
  ReqRow VNull VNull (VInt r) [(MkSval (VBlob b) 223, false)] VNull VNull.

Definition kd_reinsert : list update_request :=
  [kd_insert [0; 0; 128; 64]; kd_insert [0; 0; 0; 64]; kd_insert [0; 0; 128; 63]; kd_insert [0; 0; 192; 63];
   ReqDelete (VInt 1); kd_insert_at 1 [0; 0; 128; 64]].

Lemma kd_reinserted_stays :
  (vec0Update no_strtod false (ReqDelete (VInt 1)) (kd_run kd_reinsert)).1 = Ok None /\
  let s := kd_run (kd_reinsert ++ [ReqDelete (VInt 1)]) in
  (table_rows s 0).*1 = [3; 4; 2] /\ fst <$> default [] (ix_rows <$> db_index s) = [3; 4; 2; 1].
Proof. split; [|split]; vm_compute; reflexivity. Qed.

Lemma vec0_index_agrees_witness :
  exists ix', agrees (kd_run kd_history) 0 ix' /\
    table_rows (kd_run kd_history) 0 = [(2, [f32_of_Z 2])].
Proof.
  destruct (vec0_index_agrees no_strtod false kd_created (kd_run kd_history) 0 (MkKDTree kd_null 1 0) kd_history
              (set_index_wf _ _ (created_wf _ kd_schema_wf)) kd_created_agrees kd_history_serves)
    as (ix' & _ & Ha & _).
  exists ix'. split; [exact Ha|]. vm_compute. reflexivity.
Defined.
