(* ===== verification/Filter.v ===== *)
(** * Metadata filters (sqlite-vec.c, [vec0_metadata_filter_text],
    [vec0_set_metadata_filter_bitmap])

    A KNN query with constraints on metadata columns computes, for each chunk
    and constraint, a bitmap of the slots whose cell satisfies it.  The
    filter reads the cells of all slots, free ones too.  Shown here: the bit
    of a row's slot is the comparison of the value the row's reader returns
    with the operand. *)

From stdpp Require Import base option list numbers gmap.
From Stdlib Require Import ZArith Lia SpecFloat.
From S2P Require Import Prelude Float32 Bitmap Codec Shadow DefParser Metadata Values Storage Table.

Local Open Scope Z_scope.

Local Open Scope query_scope.

(** ** C strings *)

(** [*s]; a string ends with a NUL. *)
Definition char0 (s : bytes) : Z := match s with [] => 0 | c :: _ => c end.

Fixpoint strncmp (n : nat) (a b : bytes) : Z :=
  match n with
  | O => 0
  | S n =>
      let x := char0 a in
      let y := char0 b in
      if x =? y then if x =? 0 then 0 else strncmp n (tail a) (tail b) else x - y
  end.

(** ** Operators *)

Inductive vec0_metadata_operator :=
| METADATA_OPERATOR_EQ
| METADATA_OPERATOR_GT
| METADATA_OPERATOR_LE
| METADATA_OPERATOR_LT
| METADATA_OPERATOR_GE
| METADATA_OPERATOR_NE
| METADATA_OPERATOR_IN.

#[global] Instance vec0_metadata_operator_eq_dec : EqDecision vec0_metadata_operator.
Proof. solve_decision. Defined.

(** The six comparisons; an unordered pair (a NaN) is only different.  [IN]
    has no operand of its own. *)
Definition op_holds (op : vec0_metadata_operator) (c : option comparison) : bool :=
  match op, c with
  | METADATA_OPERATOR_EQ, Some Eq => true
  | METADATA_OPERATOR_GT, Some Gt => true
  | METADATA_OPERATOR_LE, Some (Eq | Lt) => true
  | METADATA_OPERATOR_LT, Some Lt => true
  | METADATA_OPERATOR_GE, Some (Eq | Gt) => true
  | METADATA_OPERATOR_NE, (Some (Lt | Gt) | None) => true
  | _, _ => false
  end.

(** [a op b] on integers. *)
Definition z_op (op : vec0_metadata_operator) (a b : Z) : bool := op_holds op (Some (a ?= b)).

(** ** [xxx in (...)] *)

Inductive metadata_in_array :=
| InIntegers (l : list Z)
| InTexts (l : list (Z * bytes)).     (* [n], [zString] *)

Record Vec0MetadataIn := MkMetadataIn {
  mi_argv_idx : nat;
  mi_metadata_idx : nat;
  mi_array : metadata_in_array
}.

Definition in_integers (a : metadata_in_array) : list Z := match a with InIntegers l => l | _ => [] end.
Definition in_texts (a : metadata_in_array) : list (Z * bytes) := match a with InTexts l => l | _ => [] end.

Definition find_metadata_in (l : list Vec0MetadataIn) (argv_idx : nat) : option Vec0MetadataIn :=
  snd <$> list_find (fun m => mi_argv_idx m = argv_idx) l.

(** The operands of a constraint, copied; [zString] ends at the first NUL. *)
Definition metadata_in_of `{SqlValues} (kind : vec0_metadata_column_kind) (l : list value) : metadata_in_array :=
  match kind with
  | METADATA_KIND_TEXT =>
      InTexts ((fun v => (Z.of_nat (length (value_text v)), c_string (value_text v))) <$> l)
  | _ => InIntegers (value_int64 <$> l)
  end.

(** ** The loops over the slots of a chunk *)

(** [bitmap_set(b, i, test(i))] *)
Fixpoint filter_loop (test : nat -> res bool) (i n : nat) (b : bytes) : res bytes :=
  match n with
  | O => Ok b
  | S n => v <-? test i; filter_loop test (S i) n (bitmap_set b i v)
  end.

(** The bit is set on a match and otherwise left. *)
Fixpoint filter_in_loop (test : nat -> res bool) (i n : nat) (b : bytes) : res bytes :=
  match n with
  | O => Ok b
  | S n => v <-? test i; filter_in_loop test (S i) n (if v then bitmap_set b i true else b)
  end.

(** ** Texts *)

Section TextFilter.
Context `{SqlValues}.

Definition vec0_get_metadata_text_long_value (rowid : Z) (m : metadata_store) : res bytes :=
  match md_text m !! rowid with
  | Some t => Ok t
  | None => Err SQLITE_ERROR
  end.

(** The [i]-th rowid of a chunk. *)
Definition rowid_at (rowids : bytes) (i : nat) : Z :=
  match dec_i64 (slice (i * 8) 8 rowids) with Some (z, _) => z | None => 0 end.

(** The full text, of the length the cell says. *)
Definition full_text (m : metadata_store) (rowids : bytes) (i : nat) (nPrefix : Z) : res bytes :=
  sFull <-? vec0_get_metadata_text_long_value (rowid_at rowids i) m;
  if negb (nPrefix =? Z.of_nat (length sFull)) then Err SQLITE_ERROR else Ok sFull.

(** [EQ], and with [neg] [NE]. *)
Definition text_eq_test (neg : bool) (m : metadata_store) (rowids buffer sTarget : bytes) (i : nat)
    : res bool :=
  let view := slice (i * VIEW_BUFFER_LENGTH) VIEW_BUFFER_LENGTH buffer in
  let nPrefix := view_length view in
  let sPrefix := drop 4 view in
  if negb (nPrefix =? Z.of_nat (length sTarget)) then Ok neg
  else
    let cmpPrefix := strncmp (Z.to_nat (Z.min nPrefix (Z.of_nat VIEW_DATA_LENGTH))) sPrefix sTarget in
    if nPrefix <=? Z.of_nat VIEW_DATA_LENGTH then Ok (xorb neg (cmpPrefix =? 0))
    else if negb (cmpPrefix =? 0) then Ok neg
    else
      sFull <-? full_text m rowids i nPrefix;
      Ok (xorb neg (strncmp (length sFull) sFull sTarget =? 0)).

(** [GT], [GE], [LE], [LT].  A negative length would be a huge [size_t]. *)
Definition text_order_test (op : vec0_metadata_operator) (m : metadata_store)
    (rowids buffer sTarget : bytes) (i : nat) : res bool :=
  let nTarget := Z.of_nat (length sTarget) in
  let view := slice (i * VIEW_BUFFER_LENGTH) VIEW_BUFFER_LENGTH buffer in
  let nPrefix := view_length view in
  let sPrefix := drop 4 view in
  if nPrefix <? 0 then Undef
  else
    let cmpPrefix := strncmp (Z.to_nat (Z.min (Z.min nPrefix (Z.of_nat VIEW_DATA_LENGTH)) nTarget))
                       sPrefix sTarget in
    if nPrefix <? Z.of_nat VIEW_DATA_LENGTH then
      Ok (if cmpPrefix =? 0 then z_op op nPrefix nTarget else z_op op cmpPrefix 0)
    else
      sFull <-? full_text m rowids i nPrefix;
      Ok (z_op op (strncmp (length sFull) sFull sTarget) 0).

(** [IN]: the first entry that equals the text. *)
Fixpoint text_in_test (m : metadata_store) (rowids view : bytes) (i : nat) (targets : list (Z * bytes))
    : res bool :=
  match targets with
  | [] => Ok false
  | (n, zString) :: targets =>
      let nPrefix := view_length view in
      let sPrefix := drop 4 view in
      if negb (n =? nPrefix) then text_in_test m rowids view i targets
      else
        let cmpPrefix := strncmp (Z.to_nat (Z.min nPrefix (Z.of_nat VIEW_DATA_LENGTH))) sPrefix zString in
        if nPrefix <=? Z.of_nat VIEW_DATA_LENGTH then
          if cmpPrefix =? 0 then Ok true else text_in_test m rowids view i targets
        else if negb (cmpPrefix =? 0) then text_in_test m rowids view i targets
        else
          sFull <-? full_text m rowids i nPrefix;
          if strncmp (length sFull) sFull zString =? 0 then Ok true
          else text_in_test m rowids view i targets
  end.

(** The parameter [chunk_rowid] is an [int].  The index of a missing [IN]
    array is tested in an unsigned variable, which is never negative. *)
Definition vec0_metadata_filter_text (chunks : gmap Z chunk_row) (v : value) (buffer : bytes) (size : nat)
    (op : vec0_metadata_operator) (b : bytes) (m : metadata_store) (chunk_rowid : Z)
    (aMetadataIn : list Vec0MetadataIn) (argv_idx : nat) : res bytes :=
  let sTarget := value_text v in
  match chunks !! to_i32 chunk_rowid with
  | None => Err SQLITE_ERROR
  | Some ck =>
      let rowids := ck_rowids ck in
      if negb (length rowids =? size * 8)%nat then Undef     (* assert *)
      else
        match op with
        | METADATA_OPERATOR_EQ => filter_loop (text_eq_test false m rowids buffer sTarget) 0 size b
        | METADATA_OPERATOR_NE => filter_loop (text_eq_test true m rowids buffer sTarget) 0 size b
        | METADATA_OPERATOR_IN =>
            match find_metadata_in aMetadataIn argv_idx with
            | None => Undef
            | Some metadataIn =>
                filter_in_loop (fun i => text_in_test m rowids
                    (slice (i * VIEW_BUFFER_LENGTH) VIEW_BUFFER_LENGTH buffer) i
                    (in_texts (mi_array metadataIn))) 0 size b
            end
        | _ => filter_loop (text_order_test op m rowids buffer sTarget) 0 size b
        end
  end.

(** ** All kinds *)

Definition i64_cell (buffer : bytes) (i : nat) : Z := rowid_at buffer i.

Definition double_cell (buffer : bytes) (i : nat) : f64 :=
  f64_of_bits (match dec_le 8 (slice (i * 8) 8 buffer) with Some (z, _) => z | None => 0 end).

Definition vec0_set_metadata_filter_bitmap (kind : vec0_metadata_column_kind) (m : metadata_store)
    (chunks : gmap Z chunk_row) (op : vec0_metadata_operator) (v : value) (chunk_rowid : Z) (b : bytes)
    (size : nat) (aMetadataIn : list Vec0MetadataIn) (argv_idx : nat) : res bytes :=
  match md_chunks m !! chunk_rowid with
  | None => Err SQLITE_ERROR
  | Some buffer =>
      if negb (length buffer =? vec0_metadata_chunk_size kind size)%nat then Err SQLITE_ERROR
      else
        match kind with
        | METADATA_KIND_BOOLEAN =>
            let target := negb (to_i32 (value_int64 v) =? 0) in
            if (target && bool_decide (op = METADATA_OPERATOR_EQ))
               || (negb target && bool_decide (op = METADATA_OPERATOR_NE))
            then filter_loop (fun i => Ok (bitmap_test buffer i)) 0 size b
            else filter_loop (fun i => Ok (negb (bitmap_test buffer i))) 0 size b
        | METADATA_KIND_INTEGER =>
            match op with
            | METADATA_OPERATOR_IN =>
                match find_metadata_in aMetadataIn argv_idx with
                | None => Err SQLITE_ERROR
                | Some metadataIn =>
                    filter_in_loop (fun i => Ok (existsb (fun t => t =? i64_cell buffer i)
                      (in_integers (mi_array metadataIn)))) 0 size b
                end
            | _ => filter_loop (fun i => Ok (z_op op (i64_cell buffer i) (value_int64 v))) 0 size b
            end
        | METADATA_KIND_FLOAT =>
            match op with
            | METADATA_OPERATOR_IN => Ok b
            | _ => filter_loop (fun i =>
                     Ok (op_holds op (SFcompare (double_cell buffer i) (value_double v)))) 0 size b
            end
        | METADATA_KIND_TEXT =>
            vec0_metadata_filter_text chunks v buffer size op b m chunk_rowid aMetadataIn argv_idx
        end
  end.

End TextFilter.

(** ** The loops *)

Lemma filter_loop_spec (test : nat -> res bool) (f : nat -> bool) (N n i : nat) (b : bytes) :
  bitmap_wf N b -> (i + n <= N)%nat -> (forall j, (i <= j < i + n)%nat -> test j = Ok (f j)) ->
  exists b', filter_loop test i n b = Ok b' /\ bitmap_wf N b' /\
    forall j, (j < N)%nat ->
      bitmap_test b' j = if decide (i <= j < i + n)%nat then f j else bitmap_test b j.
Proof.
  revert i b. induction n as [|n IH]; intros i b Hw Hn Ht; cbn [filter_loop].
  - exists b. split; [done|]. split; [done|]. intros j Hj. rewrite decide_False by lia. done.
  - rewrite (Ht i) by lia. cbn [res_bind].
    destruct (IH (S i) (bitmap_set b i (f i))) as (b' & E & Hw' & Hb');
      [by apply bitmap_set_wf|lia|intros; apply Ht; lia|].
    exists b'. split; [done|]. split; [done|]. intros j Hj. rewrite Hb' by done. destruct Hw as [Hl Hb].
    destruct (decide (j = i)) as [->|Hne].
    + rewrite decide_False, decide_True by lia. apply bitmap_test_set_eq. lia.
    + rewrite bitmap_test_set_ne by (done || lia).
      destruct (decide (S i <= j < S i + n)%nat), (decide (i <= j < i + S n)%nat); done || lia.
Qed.

Lemma filter_in_loop_spec (test : nat -> res bool) (f : nat -> bool) (N n i : nat) (b : bytes) :
  bitmap_wf N b -> (i + n <= N)%nat -> (forall j, (i <= j < i + n)%nat -> test j = Ok (f j)) ->
  exists b', filter_in_loop test i n b = Ok b' /\ bitmap_wf N b' /\
    forall j, (j < N)%nat ->
      bitmap_test b' j = if decide (i <= j < i + n)%nat then f j || bitmap_test b j else bitmap_test b j.
Proof.
  revert i b. induction n as [|n IH]; intros i b Hw Hn Ht; cbn [filter_in_loop].
  - exists b. split; [done|]. split; [done|]. intros j Hj. rewrite decide_False by lia. done.
  - rewrite (Ht i) by lia. cbn [res_bind].
    destruct (IH (S i) (if f i then bitmap_set b i true else b)) as (b' & E & Hw' & Hb');
      [destruct (f i); [by apply bitmap_set_wf|done]|lia|intros; apply Ht; lia|].
    exists b'. split; [done|]. split; [done|]. intros j Hj. rewrite Hb' by done. destruct Hw as [Hl Hb].
    destruct (decide (j = i)) as [->|Hne].
    + rewrite decide_False, decide_True by lia. destruct (f i); [|done]. apply bitmap_test_set_eq. lia.
    + assert (E' : bitmap_test (if f i then bitmap_set b i true else b) j = bitmap_test b j)
        by (destruct (f i); [apply bitmap_test_set_ne; [done|lia|lia]|done]).
      rewrite E'. destruct (decide (S i <= j < S i + n)%nat), (decide (i <= j < i + S n)%nat); done || lia.
Qed.

(** ** Comparing texts *)

(** Byte order, a prefix first: the BINARY collation. *)
Fixpoint bytes_compare (a b : bytes) : comparison :=
  match a, b with
  | [], [] => Eq
  | [], _ => Lt
  | _, [] => Gt
  | x :: a, y :: b => match x ?= y with Eq => bytes_compare a b | c => c end
  end.

Definition no_nul (t : bytes) : Prop := Forall (fun c => 0 < c) t.

Lemma bytes_compare_eq (a b : bytes) : bytes_compare a b = Eq <-> a = b.
Proof.
  revert b. induction a as [|x a IH]; intros [|y b]; cbn; try done.
  destruct (Z.compare_spec x y) as [->| |]; [rewrite IH; naive_solver| |]; (split; [done|]);
    intros [= -> ->]; lia.
Qed.

(** The sign of [strncmp] is the order of the prefixes. *)
Lemma strncmp_compare (n : nat) (a b : bytes) :
  (n <= length a)%nat -> no_nul a -> no_nul b ->
  (strncmp n a b ?= 0) = bytes_compare (take n a) (take n b).
Proof.
  revert a b. induction n as [|n IH]; intros [|x a] b Hn Ha Hb; cbn [length] in Hn; try done; try lia.
  apply Forall_cons_1 in Ha as [Hx Ha]. destruct b as [|y b].
  - cbn. destruct (Z.eqb_spec x 0); [lia|]. by destruct (Z.compare_spec (x - 0) 0); lia || done.
  - apply Forall_cons_1 in Hb as [Hy Hb]. cbn [strncmp char0 tail take bytes_compare].
    destruct (Z.eqb_spec x y) as [->|Hne].
    + destruct (Z.eqb_spec y 0); [lia|]. rewrite Z.compare_refl. apply IH; [lia|done..].
    + destruct (Z.compare_spec x y), (Z.compare_spec (x - y) 0); lia || done.
Qed.

(** Only the first [n] characters matter. *)
Lemma strncmp_app (n : nat) (a z b : bytes) : (n <= length a)%nat -> strncmp n (a ++ z) b = strncmp n a b.
Proof.
  revert a b. induction n as [|n IH]; intros [|x a] b Hn; cbn [length] in Hn; try done; try lia.
  cbn [strncmp app char0 tail]. destruct (_ =? _); [|done]. destruct (_ =? 0); [done|]. apply IH. lia.
Qed.

Lemma strncmp_eqb (n : nat) (a b : bytes) :
  (n <= length a)%nat -> no_nul a -> no_nul b ->
  (strncmp n a b =? 0) = bool_decide (take n a = take n b).
Proof.
  intros Hn Ha Hb. pose proof (strncmp_compare n a b Hn Ha Hb) as H. apply eq_bool_prop_intro.
  rewrite bool_decide_spec, <- bytes_compare_eq, <- H. destruct (Z.compare_spec (strncmp n a b) 0);
    destruct (Z.eqb_spec (strncmp n a b) 0); cbn; naive_solver lia.
Qed.

(** The order from that of the prefixes of common length. *)
Lemma bytes_compare_min (a b : bytes) :
  bytes_compare a b =
    match bytes_compare (take (min (length a) (length b)) a) (take (min (length a) (length b)) b) with
    | Eq => (Z.of_nat (length a) ?= Z.of_nat (length b))
    | c => c
    end.
Proof.
  revert b. induction a as [|x a IH]; intros [|y b]; cbn [length Nat.min take bytes_compare]; try done.
  destruct (x ?= y); [|done..]. rewrite IH, !Nat2Z.inj_succ, <- Zcompare_succ_compat. done.
Qed.

(** A text that is no proper prefix of the other. *)
Lemma bytes_compare_left (a b : bytes) :
  (take (length a) b = a -> a = b) -> bytes_compare a (take (length a) b) = bytes_compare a b.
Proof.
  revert b. induction a as [|x a IH]; intros [|y b] Hp; cbn [length take bytes_compare] in *; try done.
  - by specialize (Hp eq_refl).
  - destruct (Z.compare_spec x y) as [->| |]; [|done..]. apply IH. intros E. rewrite E in Hp.
    by injection (Hp eq_refl).
Qed.

(** ** The cell of a text *)

Lemma view_prefix (t : bytes) : exists z, drop 4 (text_view t) = take VIEW_DATA_LENGTH t ++ z.
Proof.
  unfold text_view, resize_to. eexists. rewrite take_ge.
  - rewrite <- app_assoc, drop_app_ge by (rewrite length_enc_le; lia).
    rewrite length_enc_le, Nat.sub_diag, drop_0. reflexivity.
  - rewrite length_app, length_enc_le, length_take. unfold VIEW_BUFFER_LENGTH, VIEW_DATA_LENGTH. lia.
Qed.

Lemma no_nul_take (n : nat) (t : bytes) : no_nul t -> no_nul (take n t).
Proof. apply Forall_take. Qed.

(** The slot of a row that holds the text [t]. *)
Record text_slot (m : metadata_store) (rowids buffer : bytes) (i : nat) (t : bytes) : Prop := {
  ts_length : Z.of_nat (length t) < 2 ^ 31;
  ts_view : slice (i * VIEW_BUFFER_LENGTH) VIEW_BUFFER_LENGTH buffer = text_view t;
  ts_long : (VIEW_DATA_LENGTH < length t)%nat -> md_text m !! rowid_at rowids i = Some t
}.

Section TextSlot.
Context (m : metadata_store) (rowids buffer : bytes) (i : nat) (t : bytes).
Context (Hs : text_slot m rowids buffer i t) (Hnul : no_nul t).

Lemma slot_view_length : view_length (text_view t) = Z.of_nat (length t).
Proof. rewrite <- (app_nil_r (text_view t)). by apply view_length_view, Hs. Qed.

Lemma slot_full_text :
  (VIEW_DATA_LENGTH < length t)%nat -> full_text m rowids i (Z.of_nat (length t)) = Ok t.
Proof.
  intros Hl. unfold full_text, vec0_get_metadata_text_long_value.
  rewrite (ts_long _ _ _ _ _ Hs Hl). cbn [res_bind]. by rewrite Z.eqb_refl.
Qed.

(** [strncmp] on the characters in the cell. *)
Lemma slot_prefix_eqb (x : bytes) :
  no_nul x -> length x = length t ->
  (strncmp (Z.to_nat (Z.min (Z.of_nat (length t)) (Z.of_nat VIEW_DATA_LENGTH))) (drop 4 (text_view t)) x =? 0)
  = bool_decide (take VIEW_DATA_LENGTH t = take VIEW_DATA_LENGTH x).
Proof.
  intros Hx Hl. destruct (view_prefix t) as [z ->].
  replace (Z.to_nat _) with (min (length t) VIEW_DATA_LENGTH) by lia.
  rewrite strncmp_app by (rewrite length_take; lia).
  rewrite strncmp_eqb; [|rewrite length_take; lia|by apply no_nul_take|done].
  rewrite take_take. apply bool_decide_ext.
  destruct (Nat.le_ge_cases (length t) VIEW_DATA_LENGTH).
  - rewrite !Nat.min_l by lia. rewrite !(take_ge t), !(take_ge x) by lia. done.
  - rewrite !Nat.min_r by lia. done.
Qed.

Lemma text_eq_ok (neg : bool) (x : bytes) :
  no_nul x ->
  text_eq_test neg m rowids buffer x i = Ok (xorb neg (bool_decide (t = x))).
Proof.
  intros Hx. unfold text_eq_test. rewrite (ts_view _ _ _ _ _ Hs), slot_view_length.
  destruct (Z.eqb_spec (Z.of_nat (length t)) (Z.of_nat (length x))) as [El|El]; cbn [negb].
  2:{ rewrite bool_decide_eq_false_2 by (intros ->; lia). by rewrite xorb_false_r. }
  rewrite slot_prefix_eqb by (done || lia).
  destruct (Z.leb_spec (Z.of_nat (length t)) (Z.of_nat VIEW_DATA_LENGTH)).
  - by rewrite !take_ge by lia.
  - case_bool_decide as Ep; cbn [negb].
    + rewrite slot_full_text by lia. cbn [res_bind].
      rewrite strncmp_eqb by (done || lia). by rewrite !take_ge by lia.
    + rewrite bool_decide_eq_false_2 by (intros ->; done). by rewrite xorb_false_r.
Qed.

(** What the order comparisons see: a long text that begins the operand counts
    as equal to it. *)
Definition order_compare (t x : bytes) : comparison :=
  if (VIEW_DATA_LENGTH <? length t)%nat && bool_decide (take (length t) x = t) then Eq else bytes_compare t x.

Lemma text_order_ok (op : vec0_metadata_operator) (x : bytes) :
  no_nul x -> length t <> VIEW_DATA_LENGTH ->
  text_order_test op m rowids buffer x i = Ok (op_holds op (Some (order_compare t x))).
Proof.
  intros Hx Hne. unfold text_order_test. rewrite (ts_view _ _ _ _ _ Hs), slot_view_length.
  destruct (Z.ltb_spec (Z.of_nat (length t)) 0); [lia|]. unfold order_compare.
  destruct (Z.ltb_spec (Z.of_nat (length t)) (Z.of_nat VIEW_DATA_LENGTH)) as [Hsh|Hlg].
  - rewrite (proj2 (Nat.ltb_ge _ _)) by lia. cbn [andb].
    destruct (view_prefix t) as [z ->]. rewrite (take_ge t) by lia.
    replace (Z.to_nat _) with (min (length t) (length x)) by lia.
    rewrite strncmp_app by lia.
    pose proof (strncmp_compare (min (length t) (length x)) t x ltac:(lia) Hnul Hx) as Hc.
    unfold z_op. rewrite (bytes_compare_min t x). rewrite <- Hc.
    destruct (Z.eqb_spec (strncmp (min (length t) (length x)) t x) 0) as [->|Hz]; [done|].
    destruct (Z.compare_spec (strncmp (min (length t) (length x)) t x) 0); done.
  - rewrite (proj2 (Nat.ltb_lt _ _)) by lia. cbn [andb].
    rewrite slot_full_text by lia. cbn [res_bind]. unfold z_op.
    rewrite strncmp_compare by (done || lia). rewrite (take_ge t) by lia.
    case_bool_decide as Hp; [by rewrite Hp, (proj2 (bytes_compare_eq t t) eq_refl)|].
    by rewrite bytes_compare_left by done.
Qed.

(** A text of exactly 12 characters is looked up in the table of long texts,
    where it is not. *)
Lemma text_order_fails (op : vec0_metadata_operator) (x : bytes) :
  length t = VIEW_DATA_LENGTH -> md_text m !! rowid_at rowids i = None ->
  text_order_test op m rowids buffer x i = Err SQLITE_ERROR.
Proof.
  intros Hl Hn. unfold text_order_test. rewrite (ts_view _ _ _ _ _ Hs), slot_view_length, Hl.
  unfold full_text, vec0_get_metadata_text_long_value. by rewrite Hn.
Qed.

Lemma text_in_ok (l : list bytes) :
  Forall no_nul l ->
  text_in_test m rowids (text_view t) i ((fun x => (Z.of_nat (length x), x)) <$> l)
  = Ok (existsb (fun x => bool_decide (t = x)) l).
Proof.
  intros Hl. induction l as [|x l IH]; [done|]. apply Forall_cons_1 in Hl as [Hx Hl]. specialize (IH Hl).
  cbn [fmap list_fmap text_in_test existsb]. rewrite slot_view_length.
  destruct (Z.eqb_spec (Z.of_nat (length x)) (Z.of_nat (length t))) as [El|El]; cbn [negb].
  2:{ rewrite bool_decide_eq_false_2 by (intros ->; lia). exact IH. }
  rewrite slot_prefix_eqb by (done || lia).
  destruct (Z.leb_spec (Z.of_nat (length t)) (Z.of_nat VIEW_DATA_LENGTH)).
  - rewrite !take_ge by lia. case_bool_decide; [done|]. exact IH.
  - case_bool_decide as Ep; cbn [negb].
    + rewrite slot_full_text by lia. cbn [res_bind].
      rewrite strncmp_eqb by (done || lia). rewrite !take_ge by lia. case_bool_decide; [done|]. exact IH.
    + rewrite bool_decide_eq_false_2 by (intros ->; done). exact IH.
Qed.

End TextSlot.

(** A cell of length 0 never fails. *)
Section EmptySlot.
Context (m : metadata_store) (rowids buffer : bytes) (i : nat).
Context (Hv : view_length (slice (i * VIEW_BUFFER_LENGTH) VIEW_BUFFER_LENGTH buffer) = 0).

Lemma text_eq_empty (neg : bool) (x : bytes) : exists v, text_eq_test neg m rowids buffer x i = Ok v.
Proof. unfold text_eq_test. rewrite Hv. destruct (negb _); by eexists. Qed.

Lemma text_order_empty (op : vec0_metadata_operator) (x : bytes) :
  exists v, text_order_test op m rowids buffer x i = Ok v.
Proof. unfold text_order_test. rewrite Hv. by eexists. Qed.

Lemma text_in_empty (l : list (Z * bytes)) :
  exists v, text_in_test m rowids (slice (i * VIEW_BUFFER_LENGTH) VIEW_BUFFER_LENGTH buffer) i l = Ok v.
Proof.
  induction l as [|[n x] l IH]; [by eexists|]. cbn [text_in_test]. rewrite Hv.
  destruct (negb _); [done|]. cbn. by eexists.
Qed.

End EmptySlot.

(** ** Correctness *)

(** A constraint on a metadata column. *)
Inductive metadata_filter :=
| FCompare (op : vec0_metadata_operator) (v : value)
| FIn (l : list value).

Definition filter_op (f : metadata_filter) : vec0_metadata_operator :=
  match f with FCompare op _ => op | FIn _ => METADATA_OPERATOR_IN end.

Definition filter_value (f : metadata_filter) : value :=
  match f with FCompare _ v => v | FIn _ => VNull end.

(** Order of values of the same type. *)
Definition value_compare (v w : value) : option comparison :=
  match v, w with
  | VInt a, VInt b => Some (a ?= b)
  | VFloat a, VFloat b => SFcompare (f64_of_bits a) (f64_of_bits b)
  | VText a, VText b => Some (bytes_compare a b)
  | _, _ => None
  end.

Definition filter_holds (f : metadata_filter) (v : value) : bool :=
  match f with
  | FCompare op w => op_holds op (value_compare v w)
  | FIn l => existsb (fun w => op_holds METADATA_OPERATOR_EQ (value_compare v w)) l
  end.

(** Operands of the column's type, operators the planner lets through. *)
Definition filter_ok (kind : vec0_metadata_column_kind) (f : metadata_filter) : Prop :=
  match kind, f with
  | METADATA_KIND_BOOLEAN, FCompare op (VInt z) =>
      (op = METADATA_OPERATOR_EQ \/ op = METADATA_OPERATOR_NE) /\ (z = 0 \/ z = 1)
  | METADATA_KIND_INTEGER, FCompare op (VInt z) => op <> METADATA_OPERATOR_IN
  | METADATA_KIND_INTEGER, FIn l => Forall (fun v => exists z, v = VInt z) l
  | METADATA_KIND_FLOAT, FCompare op (VFloat b) => op <> METADATA_OPERATOR_IN
  | METADATA_KIND_TEXT, FCompare op (VText x) => op <> METADATA_OPERATOR_IN /\ no_nul x
  | METADATA_KIND_TEXT, FIn l => Forall (fun v => exists x, v = VText x /\ no_nul x) l
  | _, _ => False
  end.

(** An order comparison with a text. *)
Definition text_order (f : metadata_filter) : option bytes :=
  match f with
  | FCompare (METADATA_OPERATOR_EQ | METADATA_OPERATOR_NE | METADATA_OPERATOR_IN) _ | FIn _ => None
  | FCompare _ (VText x) => Some x
  | FCompare _ _ => None
  end.

(** What the filter decides: as [filter_holds], but for a stored text of more
    than 12 characters that is a proper prefix of the operand of an order
    comparison, which counts as equal to it. *)
Definition filter_verdict (f : metadata_filter) (v : value) : bool :=
  match text_order f, v with
  | Some x, VText t => op_holds (filter_op f) (Some (order_compare t x))
  | _, _ => filter_holds f v
  end.

(** The value is no text of exactly 12 characters under an order comparison. *)
Definition filter_reads (f : metadata_filter) (v : value) : Prop :=
  match text_order f, v with
  | Some _, VText t => length t <> VIEW_DATA_LENGTH
  | _, _ => True
  end.

Definition text_no_nul (v : value) : Prop := match v with VText t => no_nul t | _ => True end.

(** The value is no proper prefix, longer than 12 characters, of the operand of
    an order comparison. *)
Definition no_long_prefix (f : metadata_filter) (v : value) : Prop :=
  match text_order f, v with
  | Some x, VText t => (VIEW_DATA_LENGTH < length t)%nat -> take (length t) x = t -> t = x
  | _, _ => True
  end.

(** The values a filter decides rightly. *)
Definition value_safe (f : metadata_filter) (v : value) : Prop := text_no_nul v /\ filter_reads f v /\ no_long_prefix f v.

Lemma verdict_holds (f : metadata_filter) (v : value) : no_long_prefix f v -> filter_verdict f v = filter_holds f v.
Proof.
  unfold no_long_prefix, filter_verdict. destruct (text_order f) as [x|] eqn:E; [|done]. destruct v as [| | |t|]; try done.
  intros Hp. assert (Ec : order_compare t x = bytes_compare t x).
  { unfold order_compare. destruct (Nat.ltb_spec VIEW_DATA_LENGTH (length t)) as [Hl|]; [|done]. cbn [andb].
    case_bool_decide as Ht; [|done]. by rewrite (Hp Hl Ht), (proj2 (bytes_compare_eq x x) eq_refl). }
  rewrite Ec. by destruct f as [[] []|]; cbn in E; try done; injection E as ->.
Qed.

(** What a loop whose tests all succeed leaves in the bitmap. *)
Definition filtered (test : nat -> res bool) (cs : nat) (r : res bytes) : Prop :=
  exists b', r = Ok b' /\ bitmap_wf cs b' /\ forall i v, (i < cs)%nat -> test i = Ok v -> bitmap_test b' i = v.

Definition zero_bitmap (cs : nat) (b : bytes) : Prop :=
  bitmap_wf cs b /\ forall i, (i < cs)%nat -> bitmap_test b i = false.

Lemma bitmap_new_zero (cs : nat) : (cs mod 8 = 0)%nat -> zero_bitmap cs (bitmap_new cs).
Proof.
  intros Hcs. unfold bitmap_new, CHAR_BIT. split; [split|].
  - rewrite length_replicate. pose proof (Nat.div_mod_eq cs 8). lia.
  - apply Forall_replicate. unfold is_byte. lia.
  - intros i Hi. rewrite bitmap_test_testbit. unfold aget. rewrite lookup_replicate_2.
    + apply Z.testbit_0_l.
    + apply Nat.Div0.div_lt_upper_bound. pose proof (Nat.div_mod_eq cs 8). lia.
Qed.

Lemma test_value (test : nat -> res bool) (cs : nat) :
  (forall i, (i < cs)%nat -> exists v, test i = Ok v) ->
  forall i, (0 <= i < 0 + cs)%nat -> test i = Ok (match test i with Ok v => v | _ => false end).
Proof. intros Ht i Hi. destruct (Ht i) as [v ->]; [lia|done]. Qed.

Lemma filter_loop_run (test : nat -> res bool) (cs : nat) (b : bytes) :
  bitmap_wf cs b -> (forall i, (i < cs)%nat -> exists v, test i = Ok v) ->
  filtered test cs (filter_loop test 0 cs b).
Proof.
  intros Hb Ht. destruct (filter_loop_spec test _ cs cs 0 b Hb ltac:(lia) (test_value test cs Ht)) as (b' & E & Hw & Hv).
  exists b'. split; [done|]. split; [done|]. intros i v Hi E'. rewrite Hv, E' by done. by rewrite decide_True by lia.
Qed.

Lemma filter_in_loop_run (test : nat -> res bool) (cs : nat) (b : bytes) :
  zero_bitmap cs b -> (forall i, (i < cs)%nat -> exists v, test i = Ok v) ->
  filtered test cs (filter_in_loop test 0 cs b).
Proof.
  intros [Hb Hz] Ht.
  destruct (filter_in_loop_spec test _ cs cs 0 b Hb ltac:(lia) (test_value test cs Ht)) as (b' & E & Hw & Hv).
  exists b'. split; [done|]. split; [done|]. intros i v Hi E'. rewrite Hv, E', Hz by done.
  rewrite decide_True by lia. apply orb_false_r.
Qed.

(** A loop over tests that succeed or fail with the same code. *)
Lemma filter_loop_fails (test : nat -> res bool) (rc : Z) (n i : nat) (b : bytes) :
  (forall k, (i <= k < i + n)%nat -> test k = Err rc \/ exists v, test k = Ok v) -> (exists k, (i <= k < i + n)%nat /\ test k = Err rc) ->
  filter_loop test i n b = Err rc.
Proof.
  revert i b. induction n as [|n IH]; intros i b Hall (k & Hk & Ek); [lia|]. cbn [filter_loop].
  destruct (Hall i ltac:(lia)) as [->|[v Ev]]; [done|]. rewrite Ev. cbn [res_bind]. apply IH; [intros l Hl; apply Hall; lia|].
  exists k. split; [|done]. destruct (decide (k = i)) as [->|]; [congruence|lia].
Qed.

Lemma text_order_inv (f : metadata_filter) (x : bytes) : text_order f = Some x ->
  exists op, f = FCompare op (VText x) /\ op <> METADATA_OPERATOR_EQ /\ op <> METADATA_OPERATOR_NE /\ op <> METADATA_OPERATOR_IN.
Proof. destruct f as [op v|]; [|done]. intros H. exists op. destruct op, v; cbn in H; try done; injection H as ->; done. Qed.

Section FilterSpec.
Context {I : Type} `{SqlValues} (s : db I) (Hw : db_wf s) (c : Z) (ck : chunk_row).
Context (Hck : db_chunks s !! c = Some ck) (j : nat) (m : metadata_store) (Hm : db_metadata s !! j = Some m).
Let kind := metadata_kind_at (db_vtab s) j.
Let cs := vt_chunk_size (db_vtab s).

Lemma column_meta_wf : meta_wf kind cs (db_chunks_seq s) (db_rowids s) m.
Proof. apply (wf_metadata s Hw j m Hm). Qed.

Lemma column_buffer : exists buffer, md_chunks m !! c = Some buffer /\
  length buffer = vec0_metadata_chunk_size kind cs /\ (kind = METADATA_KIND_BOOLEAN -> bitmap_wf cs buffer).
Proof.
  destruct (proj2 (mw_upto _ _ _ _ _ column_meta_wf c)) as [b Hb].
  { apply (wf_upto s Hw). by eexists. }
  pose proof (mw_chunks _ _ _ _ _ column_meta_wf c b Hb) as Hok. exists b. split; [done|]. split; [apply Hok|].
  intros E. rewrite E in Hok. apply meta_chunk_bitmap; [apply (sw_size8 _ (wf_schema s Hw))|done].
Qed.

Lemma row_at (r : Z) (off : nat) : slot (db_rowids s) r c off ->
  (off < cs)%nat /\ rowid_at (ck_rowids ck) off = r /\
  vec0_result_metadata_value_for_rowid r j s = vec0_result_metadata_value kind r c off m.
Proof.
  intros [id E]. destruct (wf_rows s Hw _ _ E) as (? & ? & ck' & [= <- <-] & Hc & Hoff & _ & R).
  rewrite Hck in Hc. injection Hc as <-. split; [done|]. split.
  - unfold rowid_at, blob_read in *. destruct (_ <=? _)%nat; [|done]. apply (inj Some) in R. rewrite R.
    rewrite <- (app_nil_r (enc_le 8 r)), dec_enc_i64; [done|]. apply (wf_range s Hw r _ E).
  - unfold vec0_result_metadata_value_for_rowid, vec0_get_chunk_position. rewrite E. cbn [rr_position rr_id].
    change (default (0, 0%nat) (Some (c, off))) with (c, off). cbv beta iota.
    by rewrite (aget_lookup _ _ _ _ Hm).
Qed.

(** A text column: the slot of a row holds the text its reader returns, a
    free slot has length 0. *)
Lemma row_text (r : Z) (off : nat) (buffer : bytes) :
  kind = METADATA_KIND_TEXT -> md_chunks m !! c = Some buffer -> slot (db_rowids s) r c off ->
  exists t, vec0_result_metadata_value_for_rowid r j s = Ok (VText t) /\
    text_slot m (ck_rowids ck) buffer off t.
Proof.
  intros Hk Hb Hs. destruct (row_at r off Hs) as (Hoff & Hr & ->). rewrite Hk.
  pose proof column_meta_wf as Hmw. rewrite Hk in Hmw.
  destruct (mw_cell _ _ _ _ _ Hmw eq_refl r c off buffer Hoff Hb Hs) as (t & Hl & Hv & Hlong).
  destruct (mw_chunks _ _ _ _ _ Hmw c buffer Hb) as [Hlen _]. cbn in Hlen.
  unfold cell_view in Hv. exists t. split; [|split; [done|done|by rewrite Hr]].
  rewrite (read_text r c off cs m buffer Hoff Hb Hlen). cbv zeta. rewrite Hv.
  pose proof (view_length_view t [] Hl) as Hvl. rewrite app_nil_r in Hvl. rewrite Hvl.
  destruct (Z.leb_spec (Z.of_nat (length t)) (Z.of_nat VIEW_DATA_LENGTH)).
  - by rewrite Nat2Z.id, view_data by lia.
  - by rewrite Hlong by lia.
Qed.

Lemma slot_dec (off : nat) : (off < cs)%nat ->
  (exists r, slot (db_rowids s) r c off) \/ (forall r, ~ slot (db_rowids s) r c off).
Proof.
  intros Hoff. destruct (bitmap_test (ck_validity ck) off) eqn:Hb.
  - left. by apply (wf_slots s Hw c ck off Hck Hoff Hb).
  - right. intros r [id E]. destruct (wf_rows s Hw _ _ E) as (? & ? & ck' & [= <- <-] & Hc & _ & Hv & _).
    rewrite Hck in Hc. injection Hc as <-. congruence.
Qed.

Lemma text_tests (buffer : bytes) (test : nat -> res bool) (f : metadata_filter) :
  kind = METADATA_KIND_TEXT -> md_chunks m !! c = Some buffer ->
  (forall r off v, slot (db_rowids s) r c off ->
     vec0_result_metadata_value_for_rowid r j s = Ok v -> text_no_nul v /\ filter_reads f v) ->
  (forall i t, text_slot m (ck_rowids ck) buffer i t -> no_nul t -> filter_reads f (VText t) ->
     test i = Ok (filter_verdict f (VText t))) ->
  (forall i, view_length (slice (i * VIEW_BUFFER_LENGTH) VIEW_BUFFER_LENGTH buffer) = 0 -> exists v, test i = Ok v) ->
  (forall i, (i < cs)%nat -> exists v, test i = Ok v) /\
  (forall r off, slot (db_rowids s) r c off -> exists v, vec0_result_metadata_value_for_rowid r j s = Ok v /\
     test off = Ok (filter_verdict f v)).
Proof.
  intros Hk Hb Hsafe Ht He. split.
  - intros i Hi. destruct (slot_dec i Hi) as [[r Hs]|Hno].
    + destruct (row_text r i buffer Hk Hb Hs) as (t & Hr & Hts). eexists.
      by apply (Ht i t Hts); apply (Hsafe r i _ Hs Hr).
    + apply He. pose proof column_meta_wf as Hmw. rewrite Hk in Hmw.
      by apply (mw_free _ _ _ _ _ Hmw eq_refl c i buffer).
  - intros r off Hs. destruct (row_text r off buffer Hk Hb Hs) as (t & Hr & Hts). exists (VText t).
    split; [done|]. by apply Ht; [done|..]; apply (Hsafe r off _ Hs Hr).
Qed.

(** The array of an [IN] constraint was built from its values. *)
Definition in_array_ok (f : metadata_filter) (aMetadataIn : list Vec0MetadataIn) (argv_idx : nat) : Prop :=
  match f with
  | FCompare _ _ => True
  | FIn l => exists x, find_metadata_in aMetadataIn argv_idx = Some x /\ mi_array x = metadata_in_of kind l
  end.

Definition filter_result (f : metadata_filter) (aMetadataIn : list Vec0MetadataIn) (argv_idx : nat) (b : bytes)
    : res bytes :=
  vec0_set_metadata_filter_bitmap kind m (db_chunks s) (filter_op f) (filter_value f) c b cs aMetadataIn argv_idx.

Definition filter_agrees (f : metadata_filter) (r : res bytes) : Prop :=
  exists b', r = Ok b' /\ bitmap_wf cs b' /\
    forall r off, slot (db_rowids s) r c off -> exists v,
      vec0_result_metadata_value_for_rowid r j s = Ok v /\ bitmap_test b' off = filter_verdict f v.

Lemma filtered_agrees (test : nat -> res bool) (f : metadata_filter) (r : res bytes) :
  filtered test cs r ->
  (forall r off, slot (db_rowids s) r c off -> exists v, vec0_result_metadata_value_for_rowid r j s = Ok v /\
     test off = Ok (filter_verdict f v)) -> filter_agrees f r.
Proof.
  intros (b' & E & Hb & Hv) Ht. exists b'. split; [done|]. split; [done|]. intros r' off Hs.
  destruct (Ht r' off Hs) as (v & Hr & Hoff). exists v. split; [done|]. apply Hv; [|done].
  by destruct (row_at r' off Hs).
Qed.

Lemma filter_boolean (f : metadata_filter) aMetadataIn argv_idx (b : bytes) :
  kind = METADATA_KIND_BOOLEAN -> bitmap_wf cs b -> filter_ok kind f ->
  filter_agrees f (filter_result f aMetadataIn argv_idx b).
Proof.
  intros Hk Hb Hf. destruct column_buffer as (buffer & Hbuf & Hlen & Hbw). specialize (Hbw Hk).
  assert (Hr : forall r off, slot (db_rowids s) r c off ->
    vec0_result_metadata_value_for_rowid r j s = Ok (VInt (Z.b2z (bitmap_test buffer off)))).
  { intros r off Hs. destruct (row_at r off Hs) as (Hoff & _ & ->). rewrite Hk. by apply (read_bit cs). }
  unfold filter_result, vec0_set_metadata_filter_bitmap. rewrite Hbuf, Hlen, Nat.eqb_refl. cbn [negb].
  rewrite Hk in Hf |- *. destruct f as [op [|z| | |]|]; cbn in Hf; try done. destruct Hf as [Hop Hz].
  cbn [filter_op filter_value]. rewrite value_int64_int.
  match goal with |- context [if ?x then _ else _] => set (pos := x) end.
  assert (Hpos : forall off, (if pos then bitmap_test buffer off else negb (bitmap_test buffer off))
    = filter_verdict (FCompare op (VInt z)) (VInt (Z.b2z (bitmap_test buffer off)))).
  { intros off. subst pos. destruct Hop as [-> | ->], Hz as [-> | ->], (bitmap_test buffer off); reflexivity. }
  destruct pos; (eapply filtered_agrees; [apply filter_loop_run; [done|by eexists]|]);
    intros r off Hs; eexists; (split; [by apply Hr|]); by rewrite <- Hpos.
Qed.

Lemma number_cell (r : Z) (off : nat) (buffer : bytes) :
  kind = METADATA_KIND_INTEGER \/ kind = METADATA_KIND_FLOAT -> md_chunks m !! c = Some buffer ->
  length buffer = vec0_metadata_chunk_size kind cs -> slot (db_rowids s) r c off ->
  vec0_result_metadata_value_for_rowid r j s = Ok (match kind with
    | METADATA_KIND_INTEGER => VInt (i64_cell buffer off)
    | _ => VFloat (match dec_le 8 (slice (off * 8) 8 buffer) with Some (z, _) => z | None => 0 end)
    end).
Proof.
  intros Hk Hb Hlen Hs. destruct (row_at r off Hs) as (Hoff & _ & ->). unfold vec0_result_metadata_value.
  rewrite Hb. destruct Hk as [-> | ->]; cbn [vec0_metadata_chunk_size] in Hlen;
    rewrite blob_read_ok by lia; done.
Qed.

Lemma filter_number (f : metadata_filter) aMetadataIn argv_idx (b : bytes) :
  kind = METADATA_KIND_INTEGER \/ kind = METADATA_KIND_FLOAT -> zero_bitmap cs b -> filter_ok kind f ->
  in_array_ok f aMetadataIn argv_idx -> filter_agrees f (filter_result f aMetadataIn argv_idx b).
Proof.
  intros Hk Hb Hf Hin. destruct column_buffer as (buffer & Hbuf & Hlen & _).
  pose proof (fun r off Hs => number_cell r off buffer Hk Hbuf Hlen Hs) as Hr.
  unfold filter_result, vec0_set_metadata_filter_bitmap. rewrite Hbuf, Hlen, Nat.eqb_refl. cbn [negb].
  unfold in_array_ok in Hin. destruct Hk as [Hk|Hk]; rewrite Hk in Hf, Hr, Hin |- *.
  - destruct f as [op [|z| | |]|l]; cbn in Hf; try done.
    + cbn [filter_op filter_value]. rewrite value_int64_int. destruct op; try done;
        (eapply filtered_agrees; [apply filter_loop_run; [apply Hb|by eexists]|]);
        intros r off Hs; eexists; (split; [by apply Hr|]); reflexivity.
    + destruct Hin as (x & -> & ->). cbn [filter_op metadata_in_of in_integers].
      eapply filtered_agrees; [apply filter_in_loop_run; [done|by eexists]|].
      intros r off Hs; eexists; (split; [by apply Hr|]). f_equal. cbn [filter_holds]. clear -Hf.
      induction Hf as [|v l [z ->] _ IH]; [done|]. cbn [fmap list_fmap existsb]. rewrite IH, value_int64_int.
      f_equal. cbn. rewrite Z.compare_antisym. destruct (Z.compare_spec z (i64_cell buffer off)), (Z.eqb_spec z (i64_cell buffer off)); cbn; lia || done.
  - destruct f as [op [| |z| |]|l]; cbn in Hf; try done.
    cbn [filter_op filter_value]. rewrite value_double_float. destruct op; try done;
      (eapply filtered_agrees; [apply filter_loop_run; [apply Hb|by eexists]|]);
      intros r off Hs; eexists; (split; [by apply Hr|]); reflexivity.
Qed.

Lemma c_string_no_nul (t : bytes) : no_nul t -> c_string t = t.
Proof.
  induction 1 as [|x t Hx _ IH]; [done|]. cbn. destruct (Z.eqb_spec x 0); [lia|]. by rewrite IH.
Qed.

Lemma text_in_entries (l : list value) :
  Forall (fun v => exists x, v = VText x /\ no_nul x) l ->
  exists ts, l = VText <$> ts /\ Forall no_nul ts /\
    in_texts (metadata_in_of METADATA_KIND_TEXT l) = (fun x => (Z.of_nat (length x), x)) <$> ts.
Proof.
  induction 1 as [|v l (x & -> & Hx) _ (ts & -> & Hts & E)]; [by exists []|].
  exists (x :: ts). split; [done|]. split; [by apply Forall_cons_2|].
  cbn in E |- *. rewrite E, value_text_text, c_string_no_nul by done. done.
Qed.

Lemma filter_text (f : metadata_filter) aMetadataIn argv_idx (b : bytes) :
  kind = METADATA_KIND_TEXT -> in_i32 c -> zero_bitmap cs b -> filter_ok kind f ->
  in_array_ok f aMetadataIn argv_idx ->
  (forall r off v, slot (db_rowids s) r c off ->
     vec0_result_metadata_value_for_rowid r j s = Ok v -> text_no_nul v /\ filter_reads f v) ->
  filter_agrees f (filter_result f aMetadataIn argv_idx b).
Proof.
  intros Hk Hc Hb Hf Hin Hsafe. destruct column_buffer as (buffer & Hbuf & Hlen & _).
  unfold filter_result, vec0_set_metadata_filter_bitmap. rewrite Hbuf, Hlen, Nat.eqb_refl. cbn [negb].
  unfold in_array_ok in Hin. rewrite Hk in Hf, Hin |- *. unfold vec0_metadata_filter_text.
  rewrite to_i32_id, Hck by done. destruct (wf_chunk s Hw c ck Hck) as (_ & _ & Hrl). fold cs in Hrl.
  rewrite Hrl, Nat.eqb_refl. cbn [negb].
  pose proof (fun test => text_tests buffer test f Hk Hbuf Hsafe) as Htests.
  destruct f as [op [| | |x|]|l]; cbn in Hf; try done; cbn [filter_op filter_value].
  - destruct Hf as [Hop Hx]. rewrite value_text_text. destruct op; try done;
      (edestruct Htests as [H1 H2]; [..|eapply filtered_agrees; [apply filter_loop_run; [apply Hb|exact H1]|exact H2]]);
      intros i; try solve [intros Hv; by apply text_eq_empty || by apply text_order_empty];
      intros t Hts Hn Ho; try (by apply text_order_ok);
      (rewrite (text_eq_ok _ _ _ _ t) by done); f_equal; cbn;
      pose proof (bytes_compare_eq t x) as He; case_bool_decide as Et;
      destruct (bytes_compare t x); naive_solver.
  - destruct Hin as (y & -> & ->). destruct (text_in_entries l Hf) as (ts & -> & Hts & E).
    rewrite E. edestruct Htests as [H1 H2];
      [..|eapply filtered_agrees; [apply filter_in_loop_run; [exact Hb|exact H1]|exact H2]];
      intros i; cbv beta; [|by intros Hv; apply text_in_empty].
    intros t Hs Hn _. rewrite (ts_view _ _ _ _ _ Hs), (text_in_ok _ _ buffer) by done. f_equal. unfold filter_verdict. cbn [text_order filter_holds].
    clear. induction ts as [|x ts IH]; [done|]. cbn [fmap list_fmap existsb]. rewrite IH. f_equal. cbn.
    pose proof (bytes_compare_eq t x) as He. case_bool_decide; destruct (bytes_compare t x); naive_solver.
Qed.

(** Every kind of column. *)
Lemma filter_decides (f : metadata_filter) aMetadataIn argv_idx (b : bytes) :
  in_i32 c -> zero_bitmap cs b -> filter_ok kind f -> in_array_ok f aMetadataIn argv_idx ->
  (forall r off v, slot (db_rowids s) r c off ->
     vec0_result_metadata_value_for_rowid r j s = Ok v -> text_no_nul v /\ filter_reads f v) ->
  filter_agrees f (filter_result f aMetadataIn argv_idx b).
Proof.
  intros Hc Hb Hf Hin Hsafe.
  assert (Hk : kind = METADATA_KIND_BOOLEAN \/ (kind = METADATA_KIND_INTEGER \/ kind = METADATA_KIND_FLOAT) \/
               kind = METADATA_KIND_TEXT) by (destruct kind; auto).
  destruct Hk as [Hk|[Hk|Hk]]; [apply filter_boolean; [done|apply Hb|done]|by apply filter_number|by apply filter_text].
Qed.

Lemma order_fails (r : Z) (off : nat) (t buffer : bytes) (op : vec0_metadata_operator) (x : bytes) :
  kind = METADATA_KIND_TEXT -> md_chunks m !! c = Some buffer -> slot (db_rowids s) r c off ->
  text_slot m (ck_rowids ck) buffer off t -> length t = VIEW_DATA_LENGTH ->
  text_order_test op m (ck_rowids ck) buffer x off = Err SQLITE_ERROR.
Proof.
  intros Hk Hb Hs Hts Hl. apply (text_order_fails _ _ _ _ t); [done|done|]. destruct (row_at r off Hs) as (_ & -> & _).
  pose proof (mw_agree _ _ _ _ _ column_meta_wf r c off Hs) as Ha. rewrite Hk in Ha. specialize (Ha buffer Hb).
  rewrite (ts_view _ _ _ _ _ Hts), (slot_view_length m (ck_rowids ck) buffer off t Hts), Hl in Ha.
  destruct (md_text m !! r) as [z|]; [|done]. exfalso. assert (Z.of_nat VIEW_DATA_LENGTH < Z.of_nat VIEW_DATA_LENGTH) by (apply Ha; by eexists). lia.
Qed.

(** Values that are decided rightly. *)
Lemma filter_spec (f : metadata_filter) aMetadataIn argv_idx (b : bytes) :
  in_i32 c -> zero_bitmap cs b -> filter_ok kind f -> in_array_ok f aMetadataIn argv_idx ->
  (forall r off v, slot (db_rowids s) r c off ->
     vec0_result_metadata_value_for_rowid r j s = Ok v -> value_safe f v) ->
  exists b', filter_result f aMetadataIn argv_idx b = Ok b' /\ bitmap_wf cs b' /\
    forall r off, slot (db_rowids s) r c off -> exists v,
      vec0_result_metadata_value_for_rowid r j s = Ok v /\ bitmap_test b' off = filter_holds f v.
Proof.
  intros Hc Hb Hf Hin Hsafe. destruct (filter_decides f aMetadataIn argv_idx b Hc Hb Hf Hin) as (b' & E & Hw' & Hr).
  { intros r off v Hs Hv. destruct (Hsafe r off v Hs Hv) as (H1 & H2 & _). done. }
  exists b'. split; [done|]. split; [done|]. intros r off Hs. destruct (Hr r off Hs) as (v & Hv & ->). exists v. split; [done|].
  apply verdict_holds, (Hsafe r off v Hs Hv).
Qed.

(** A text of exactly 12 characters under an order comparison. *)
Lemma filter_fails (f : metadata_filter) aMetadataIn argv_idx (b : bytes) :
  in_i32 c -> filter_ok kind f ->
  (forall r off v, slot (db_rowids s) r c off -> vec0_result_metadata_value_for_rowid r j s = Ok v -> text_no_nul v) ->
  (exists r off v, slot (db_rowids s) r c off /\ vec0_result_metadata_value_for_rowid r j s = Ok v /\ ~ filter_reads f v) ->
  filter_result f aMetadataIn argv_idx b = Err SQLITE_ERROR.
Proof.
  intros Hc Hf Hnul (r & off & v & Hs & Hv & Hno). unfold filter_reads in Hno.
  destruct (text_order f) as [x|] eqn:Ef; [|tauto]. destruct (text_order_inv f x Ef) as (op & -> & N1 & N2 & N3).
  assert (Hk : kind = METADATA_KIND_TEXT) by (revert Hf; unfold filter_ok; by destruct kind). assert (Hx : no_nul x) by (rewrite Hk in Hf; apply Hf).
  destruct column_buffer as (buffer & Hbuf & Hlen & _).
  assert (Htest : filter_loop (text_order_test op m (ck_rowids ck) buffer x) 0 cs b = Err SQLITE_ERROR).
  { apply filter_loop_fails.
    - intros i Hi. destruct (slot_dec i ltac:(lia)) as [[r' Hs']|Hfree].
      + destruct (row_text r' i buffer Hk Hbuf Hs') as (t & Hr & Hts). destruct (decide (length t = VIEW_DATA_LENGTH)) as [El|Hl].
        * left. by apply (order_fails r' i t buffer op x).
        * right. eexists. apply (text_order_ok _ _ _ _ t); [done|by apply (Hnul r' i _ Hs' Hr)|done|done].
      + right. pose proof column_meta_wf as Hmw. rewrite Hk in Hmw. apply text_order_empty. apply (mw_free _ _ _ _ _ Hmw eq_refl c i buffer); [lia|done|done].
    - destruct (row_text r off buffer Hk Hbuf Hs) as (t & Hr & Hts). rewrite Hv in Hr. injection Hr as ->. exists off.
      split; [destruct (row_at r off Hs) as [? _]; lia|]. apply (order_fails r off t buffer op x); [done..|]. by destruct (decide (length t = VIEW_DATA_LENGTH)). }
  unfold filter_result, vec0_set_metadata_filter_bitmap. rewrite Hbuf, Hlen, Nat.eqb_refl, Hk. cbn [negb filter_op filter_value].
  unfold vec0_metadata_filter_text. rewrite to_i32_id, Hck by done. destruct (wf_chunk s Hw c ck Hck) as (_ & _ & Hrl). fold cs in Hrl.
  rewrite Hrl, Nat.eqb_refl, value_text_text. cbn [negb]. by destruct op.
Qed.

End FilterSpec.

(** C16: What the filter of a metadata constraint does to a chunk of a table that
    satisfies the invariant, for boolean, integer, float and text columns, with
    texts that hold no NUL and operands of the column's type.  If the chunk
    holds no text of exactly 12 characters under an order comparison ([<],
    [<=], [>], [>=]), the filter succeeds, and the bit of a row's slot is the
    comparison of the value the row's reader returns with the operand, or its
    membership in the list of an [IN] constraint; but a text of more than 12
    characters that is a proper prefix of the operand of an order comparison
    counts as equal to it.  If it holds such a text of 12 characters the filter
    fails with [SQLITE_ERROR]. *)
Theorem metadata_filter_correct {I : Type} `{SqlValues} (s : db I) (c : Z) (ck : chunk_row) (j : nat)
    (m : metadata_store) (f : metadata_filter) aMetadataIn argv_idx :
  db_wf s -> db_chunks s !! c = Some ck -> in_i32 c -> db_metadata s !! j = Some m ->
  let kind := metadata_kind_at (db_vtab s) j in
  let cs := vt_chunk_size (db_vtab s) in
  let stored r off v := slot (db_rowids s) r c off /\ vec0_result_metadata_value_for_rowid r j s = Ok v in
  let result := vec0_set_metadata_filter_bitmap kind m (db_chunks s) (filter_op f) (filter_value f) c
                  (bitmap_new cs) cs aMetadataIn argv_idx in
  filter_ok kind f -> in_array_ok s j f aMetadataIn argv_idx -> (forall r off v, stored r off v -> text_no_nul v) ->
  ((forall r off v, stored r off v -> filter_reads f v) ->
     exists b', result = Ok b' /\ bitmap_wf cs b' /\
       forall r off, slot (db_rowids s) r c off -> exists v,
         vec0_result_metadata_value_for_rowid r j s = Ok v /\ bitmap_test b' off = filter_verdict f v /\
         (no_long_prefix f v -> bitmap_test b' off = filter_holds f v)) /\
  ((exists r off v, stored r off v /\ ~ filter_reads f v) -> result = Err SQLITE_ERROR).
Proof.
  intros Hw Hck Hc Hm kind cs stored result Hf Hin Hnul.
  assert (Hz : zero_bitmap cs (bitmap_new cs)) by (apply bitmap_new_zero, (sw_size8 _ (wf_schema s Hw))). split.
  - intros Hreads. destruct (filter_decides s Hw c ck Hck j m Hm f aMetadataIn argv_idx (bitmap_new cs)) as (b' & E & Hb & Hr); try done.
    { intros r off v Hs Hv. split; [by apply (Hnul r off)|by apply (Hreads r off)]. }
    exists b'. split; [done|]. split; [done|]. intros r off Hs. destruct (Hr r off Hs) as (v & Hv & Ev). exists v.
    split; [done|]. split; [done|]. intros Hp. by rewrite Ev, verdict_holds.
  - intros (r & off & v & [Hs Hv] & Hno). apply (filter_fails s Hw c ck Hck j m Hm f aMetadataIn argv_idx); [done|done| |by exists r, off, v].
    intros r' off' v' Hs' Hv'. by apply (Hnul r' off').
Qed.
