(* ===== verification/Plan.v ===== *)
(** * Query planning (sqlite-vec.c, [vec0_column_distance_idx] to
    [vec0_column_idx_to_metadata_idx], [vec0BestIndex])

    [xBestIndex] turns the constraints SQLite offers into a plan: a plan
    character, four characters for each value it wants in [xFilter]'s [argv],
    and for each constraint the position of its value there.  Shown here: on
    success the plan string and the argument positions describe the same list
    of constraints, which is the list of all usable ones on partition and
    metadata columns. *)

From stdpp Require Import base option list numbers sets.
From Stdlib Require Import ZArith Lia.
From S2P Require Import Prelude Shadow DefParser Metadata Values Storage Filter.

Local Open Scope Z_scope.

(** ** Columns of the virtual table

    Column 0 is the id, then come the user columns, [distance] and [k]. *)

Definition VEC0_COLUMN_ID : Z := 0.
Definition VEC0_COLUMN_USERN_START : Z := 1.
Definition VEC0_COLUMN_OFFSET_DISTANCE : Z := 1.
Definition VEC0_COLUMN_OFFSET_K : Z := 2.

Definition vec0_num_defined_user_columns (p : vec0_vtab) : Z :=
  Z.of_nat (length (vt_vector_columns p) + length (vt_partition_types p) + length (vt_auxiliary_types p)
            + length (vt_metadata_kinds p)).

Definition vec0_column_distance_idx (p : vec0_vtab) : Z :=
  VEC0_COLUMN_USERN_START + (vec0_num_defined_user_columns p - 1) + VEC0_COLUMN_OFFSET_DISTANCE.

Definition vec0_column_k_idx (p : vec0_vtab) : Z :=
  VEC0_COLUMN_USERN_START + (vec0_num_defined_user_columns p - 1) + VEC0_COLUMN_OFFSET_K.

(** [vec0_column_idx_is_vector] and the like: a user column of the kind. *)
Definition vec0_column_idx_is (k : vec0_user_column_kind) (p : vec0_vtab) (column_idx : Z) : bool :=
  (VEC0_COLUMN_USERN_START <=? column_idx) &&
  (column_idx <=? VEC0_COLUMN_USERN_START + vec0_num_defined_user_columns p - 1) &&
  match vt_user_columns p !! Z.to_nat (column_idx - VEC0_COLUMN_USERN_START) with
  | Some (k', _) => bool_decide (k' = k)
  | None => false
  end.

Definition vec0_column_idx_is_vector := vec0_column_idx_is USER_COLUMN_VECTOR.
Definition vec0_column_idx_is_partition := vec0_column_idx_is USER_COLUMN_PARTITION.
Definition vec0_column_idx_is_auxiliary := vec0_column_idx_is USER_COLUMN_AUXILIARY.
Definition vec0_column_idx_is_metadata := vec0_column_idx_is USER_COLUMN_METADATA.

(** [vec0_column_idx_to_vector_idx] and the like. *)
Definition vec0_column_idx_to_idx (p : vec0_vtab) (column_idx : Z) : nat :=
  match vt_user_columns p !! Z.to_nat (column_idx - VEC0_COLUMN_USERN_START) with
  | Some (_, i) => i
  | None => 0%nat
  end.

(** ** The plan string *)

Definition VEC0_QUERY_PLAN_FULLSCAN : Z := 49.      (* '1' *)
Definition VEC0_QUERY_PLAN_POINT : Z := 50.
Definition VEC0_QUERY_PLAN_KNN : Z := 51.

Definition VEC0_IDXSTR_KIND_KNN_MATCH : Z := 123.                 (* '{' *)
Definition VEC0_IDXSTR_KIND_KNN_K : Z := 125.                     (* '}' *)
Definition VEC0_IDXSTR_KIND_KNN_ROWID_IN : Z := 91.               (* '[' *)
Definition VEC0_IDXSTR_KIND_KNN_PARTITON_CONSTRAINT : Z := 93.    (* ']' *)
Definition VEC0_IDXSTR_KIND_POINT_ID : Z := 33.                   (* '!' *)
Definition VEC0_IDXSTR_KIND_METADATA_CONSTRAINT : Z := 38.        (* '&' *)

Definition CHAR_A : Z := 65.
Definition CHAR_UNDERSCORE : Z := 95.

(** [VEC0_METADATA_OPERATOR_EQ] = 'a' to [VEC0_METADATA_OPERATOR_IN] = 'g';
    the partition operators are the first six, with the same characters. *)
Definition operator_char (op : vec0_metadata_operator) : Z :=
  match op with
  | METADATA_OPERATOR_EQ => 97
  | METADATA_OPERATOR_GT => 98
  | METADATA_OPERATOR_LE => 99
  | METADATA_OPERATOR_LT => 100
  | METADATA_OPERATOR_GE => 101
  | METADATA_OPERATOR_NE => 102
  | METADATA_OPERATOR_IN => 103
  end.

Definition metadata_operator (c : Z) : option vec0_metadata_operator :=
  if c =? 97 then Some METADATA_OPERATOR_EQ
  else if c =? 98 then Some METADATA_OPERATOR_GT
  else if c =? 99 then Some METADATA_OPERATOR_LE
  else if c =? 100 then Some METADATA_OPERATOR_LT
  else if c =? 101 then Some METADATA_OPERATOR_GE
  else if c =? 102 then Some METADATA_OPERATOR_NE
  else if c =? 103 then Some METADATA_OPERATOR_IN
  else None.

Lemma metadata_operator_char (op : vec0_metadata_operator) : metadata_operator (operator_char op) = Some op.
Proof. by destruct op. Qed.

(** ** [sqlite3_index_info] *)

Definition SQLITE_INDEX_CONSTRAINT_EQ : Z := 2.
Definition SQLITE_INDEX_CONSTRAINT_GT : Z := 4.
Definition SQLITE_INDEX_CONSTRAINT_LE : Z := 8.
Definition SQLITE_INDEX_CONSTRAINT_LT : Z := 16.
Definition SQLITE_INDEX_CONSTRAINT_GE : Z := 32.
Definition SQLITE_INDEX_CONSTRAINT_MATCH : Z := 64.
Definition SQLITE_INDEX_CONSTRAINT_NE : Z := 68.
Definition SQLITE_INDEX_CONSTRAINT_LIMIT : Z := 73.
Definition SQLITE_INDEX_CONSTRAINT_OFFSET : Z := 74.

(** [ic_in]: [sqlite3_vtab_in(info, i, -1)], the constraint is an [IN]. *)
Record index_constraint := MkConstraint {
  ic_column : Z;
  ic_op : Z;
  ic_usable : bool;
  ic_in : bool
}.

(** [iu_argvIndex] 0: the value is not wanted.  [iu_in]:
    [sqlite3_vtab_in(info, i, 1)], the list is wanted all at once. *)
Record constraint_usage := MkUsage {
  iu_argvIndex : nat;
  iu_omit : bool;
  iu_in : bool
}.

Record index_orderby := MkOrderBy { ob_column : Z; ob_desc : bool }.

Record index_plan := MkPlan {
  pl_idxNum : Z;
  pl_idxStr : list Z;
  pl_usage : list constraint_usage
}.

(** ** The first loop of [vec0BestIndex] *)

Record best_terms := MkTerms {
  bt_match : option (nat * nat);       (* [iMatchTerm], [iMatchVectorTerm] *)
  bt_limit : option nat;
  bt_rowid : option nat;
  bt_k : option nat;
  bt_rowid_in : option nat;
  bt_aux : bool
}.

Definition no_terms : best_terms := MkTerms None None None None None false.

Definition is_limit_or_offset (op : Z) : bool :=
  (op =? SQLITE_INDEX_CONSTRAINT_LIMIT) || (op =? SQLITE_INDEX_CONSTRAINT_OFFSET).

(** [None]: [SQLITE_ERROR]. *)
Definition best_term (p : vec0_vtab) (t : best_terms) (i : nat) (c : index_constraint) : option best_terms :=
  if negb (ic_usable c) then Some t
  else
    let op := ic_op c in
    let is_match := (op =? SQLITE_INDEX_CONSTRAINT_MATCH) && vec0_column_idx_is_vector p (ic_column c) in
    let is_id := (op =? SQLITE_INDEX_CONSTRAINT_EQ) && (ic_column c =? VEC0_COLUMN_ID) in
    if is_match && bool_decide (is_Some (bt_match t)) then None
    else if is_id && ic_in c && bool_decide (is_Some (bt_rowid_in t)) then None
    else Some (MkTerms
      (if is_match then Some (i, vec0_column_idx_to_idx p (ic_column c)) else bt_match t)
      (if op =? SQLITE_INDEX_CONSTRAINT_LIMIT then Some i else bt_limit t)
      (if is_id && negb (ic_in c) then Some i else bt_rowid t)
      (if (op =? SQLITE_INDEX_CONSTRAINT_EQ) && (ic_column c =? vec0_column_k_idx p) then Some i else bt_k t)
      (if is_id && ic_in c then Some i else bt_rowid_in t)
      (bt_aux t || negb (is_limit_or_offset op) && vec0_column_idx_is_auxiliary p (ic_column c))).

Fixpoint best_terms_loop (p : vec0_vtab) (t : best_terms) (i : nat) (cs : list index_constraint)
    : option best_terms :=
  match cs with
  | [] => Some t
  | c :: cs => t' ← best_term p t i c; best_terms_loop p t' (S i) cs
  end.

(** ** Emitting entries *)

Record plan_state := MkPS {
  ps_argvIndex : nat;
  ps_idxStr : list Z;
  ps_usage : list constraint_usage
}.

Definition emit (i : nat) (vtab_in : bool) (entry : list Z) (ps : plan_state) : plan_state :=
  MkPS (S (ps_argvIndex ps)) (ps_idxStr ps ++ entry)
    (<[i := MkUsage (ps_argvIndex ps) true vtab_in]> (ps_usage ps)).

Definition plain_entry (kind : Z) : list Z := [kind; CHAR_UNDERSCORE; CHAR_UNDERSCORE; CHAR_UNDERSCORE].

(** At most 16 columns of a kind: the column is a character. *)
Definition column_entry (kind : Z) (idx : nat) (op : vec0_metadata_operator) : list Z :=
  [kind; CHAR_A + Z.of_nat idx; operator_char op; CHAR_UNDERSCORE].

(** The comparison operators, partition and metadata columns alike. *)
Definition comparison_operator (op : Z) : option vec0_metadata_operator :=
  if op =? SQLITE_INDEX_CONSTRAINT_EQ then Some METADATA_OPERATOR_EQ
  else if op =? SQLITE_INDEX_CONSTRAINT_GT then Some METADATA_OPERATOR_GT
  else if op =? SQLITE_INDEX_CONSTRAINT_LE then Some METADATA_OPERATOR_LE
  else if op =? SQLITE_INDEX_CONSTRAINT_LT then Some METADATA_OPERATOR_LT
  else if op =? SQLITE_INDEX_CONSTRAINT_GE then Some METADATA_OPERATOR_GE
  else if op =? SQLITE_INDEX_CONSTRAINT_NE then Some METADATA_OPERATOR_NE
  else None.

Definition plan_partition (p : vec0_vtab) (i : nat) (c : index_constraint) (ps : plan_state) : plan_state :=
  if negb (ic_usable c) || is_limit_or_offset (ic_op c) || negb (vec0_column_idx_is_partition p (ic_column c))
  then ps
  else match comparison_operator (ic_op c) with
       | None => ps
       | Some op =>
           emit i false (column_entry VEC0_IDXSTR_KIND_KNN_PARTITON_CONSTRAINT
                           (vec0_column_idx_to_idx p (ic_column c)) op) ps
       end.

#[global] Instance vec0_metadata_column_kind_eq_dec : EqDecision vec0_metadata_column_kind.
Proof. solve_decision. Defined.

Definition metadata_kind_of (p : vec0_vtab) (i : nat) : vec0_metadata_column_kind :=
  aget METADATA_KIND_BOOLEAN (vt_metadata_kinds p) i.

(** [None]: [SQLITE_ERROR]. *)
Definition plan_metadata (p : vec0_vtab) (i : nat) (c : index_constraint) (ps : plan_state)
    : option plan_state :=
  if negb (ic_usable c) || is_limit_or_offset (ic_op c) || negb (vec0_column_idx_is_metadata p (ic_column c))
  then Some ps
  else
    let metadata_idx := vec0_column_idx_to_idx p (ic_column c) in
    let kind := metadata_kind_of p metadata_idx in
    let is_in := (ic_op c =? SQLITE_INDEX_CONSTRAINT_EQ) && ic_in c in
    if is_in && (bool_decide (kind = METADATA_KIND_FLOAT) || bool_decide (kind = METADATA_KIND_BOOLEAN))
    then None
    else
      value ← (if is_in then Some METADATA_OPERATOR_IN else comparison_operator (ic_op c));
      if bool_decide (kind = METADATA_KIND_BOOLEAN)
         && negb (bool_decide (value = METADATA_OPERATOR_EQ) || bool_decide (value = METADATA_OPERATOR_NE))
      then None
      else Some (emit i is_in (column_entry VEC0_IDXSTR_KIND_METADATA_CONSTRAINT metadata_idx value) ps).

Fixpoint plan_partitions (p : vec0_vtab) (i : nat) (cs : list index_constraint) (ps : plan_state)
    : plan_state :=
  match cs with
  | [] => ps
  | c :: cs => plan_partitions p (S i) cs (plan_partition p i c ps)
  end.

Fixpoint plan_metadatas (p : vec0_vtab) (i : nat) (cs : list index_constraint) (ps : plan_state)
    : option plan_state :=
  match cs with
  | [] => Some ps
  | c :: cs => ps' ← plan_metadata p i c ps; plan_metadatas p (S i) cs ps'
  end.

(** The checks of a KNN query. *)
Definition knn_plan_ok (p : vec0_vtab) (t : best_terms) (orderBy : list index_orderby) : bool :=
  negb (bool_decide (bt_limit t = None) && bool_decide (bt_k t = None)) &&
  negb (bool_decide (is_Some (bt_limit t)) && bool_decide (is_Some (bt_k t))) &&
  match orderBy with
  | [] => true
  | [o] => (ob_column o =? vec0_column_distance_idx p) && negb (ob_desc o)
  | _ => false
  end && negb (bt_aux t).

Definition unused : constraint_usage := MkUsage 0 false false.

(** [None]: [SQLITE_ERROR].  [colUsed] is SQLite's; a full scan leaves
    [idxNum] as it is, 0. *)
Definition vec0BestIndex (p : vec0_vtab) (cs : list index_constraint) (orderBy : list index_orderby)
    (colUsed : Z) : option index_plan :=
  t ← best_terms_loop p no_terms 0 cs;
  let usage := replicate (length cs) unused in
  match bt_match t with
  | Some (iMatchTerm, iMatchVectorTerm) =>
      if negb (knn_plan_ok p t orderBy) then None
      else
        let ps := MkPS 1 [VEC0_QUERY_PLAN_KNN] usage in
        let ps := emit iMatchTerm false (plain_entry VEC0_IDXSTR_KIND_KNN_MATCH) ps in
        let iK := match bt_limit t with Some i => i | None => default 0%nat (bt_k t) end in
        let ps := emit iK false (plain_entry VEC0_IDXSTR_KIND_KNN_K) ps in
        let ps := match bt_rowid_in t with
                  | Some i => emit i true (plain_entry VEC0_IDXSTR_KIND_KNN_ROWID_IN) ps
                  | None => ps
                  end in
        ps ← plan_metadatas p 0 cs (plan_partitions p 0 cs ps);
        Some (MkPlan (Z.of_nat iMatchVectorTerm) (ps_idxStr ps) (ps_usage ps))
  | None =>
      match bt_rowid t with
      | Some i =>
          let ps := emit i false (plain_entry VEC0_IDXSTR_KIND_POINT_ID) (MkPS 1 [VEC0_QUERY_PLAN_POINT] usage) in
          Some (MkPlan colUsed (ps_idxStr ps) (ps_usage ps))
      | None => Some (MkPlan 0 [VEC0_QUERY_PLAN_FULLSCAN] usage)
      end
  end.

(** ** The arguments of [xFilter]

    SQLite passes the right-hand side of the constraint with [argvIndex] [j]
    as [argv[j - 1]]; the list of an [IN] that was asked for all at once is
    read with [sqlite3_vtab_in_first] and [sqlite3_vtab_in_next]. *)
Inductive filter_arg :=
| ArgValue (v : sval)
| ArgIn (l : list value).

Definition filter_argv {A : Type} (usage : list constraint_usage) (rhs : list A) : list A :=
  omap (fun j => u ← list_find (fun u => iu_argvIndex u = j) usage; rhs !! u.1) (seq 1 (length usage)).

(** ** What a plan asks for *)

Inductive plan_item :=
| PMatch
| PK
| PRowidIn
| PPartition (idx : nat) (op : vec0_metadata_operator)
| PMetadata (idx : nat) (op : vec0_metadata_operator).

#[global] Instance plan_item_eq_dec : EqDecision plan_item.
Proof. solve_decision. Defined.

Definition item_chars (it : plan_item) : list Z :=
  match it with
  | PMatch => plain_entry VEC0_IDXSTR_KIND_KNN_MATCH
  | PK => plain_entry VEC0_IDXSTR_KIND_KNN_K
  | PRowidIn => plain_entry VEC0_IDXSTR_KIND_KNN_ROWID_IN
  | PPartition idx op => column_entry VEC0_IDXSTR_KIND_KNN_PARTITON_CONSTRAINT idx op
  | PMetadata idx op => column_entry VEC0_IDXSTR_KIND_METADATA_CONSTRAINT idx op
  end.

Definition item_in (it : plan_item) : bool :=
  match it with PRowidIn => true | PMetadata _ METADATA_OPERATOR_IN => true | _ => false end.

Definition items_str (items : list (nat * plan_item)) : list Z :=
  VEC0_QUERY_PLAN_KNN :: concat (item_chars <$> items.*2).

(** The item of a constraint on a partition or metadata column. *)
Definition partition_item (p : vec0_vtab) (c : index_constraint) : option plan_item :=
  if ic_usable c && vec0_column_idx_is_partition p (ic_column c)
  then PPartition (vec0_column_idx_to_idx p (ic_column c)) <$> comparison_operator (ic_op c) else None.

Definition metadata_item (p : vec0_vtab) (c : index_constraint) : option plan_item :=
  if ic_usable c && negb (is_limit_or_offset (ic_op c)) && vec0_column_idx_is_metadata p (ic_column c)
  then PMetadata (vec0_column_idx_to_idx p (ic_column c)) <$>
         (if (ic_op c =? SQLITE_INDEX_CONSTRAINT_EQ) && ic_in c then Some METADATA_OPERATOR_IN
          else comparison_operator (ic_op c))
  else None.

Fixpoint items_from (f : index_constraint -> option plan_item) (i : nat) (cs : list index_constraint)
    : list (nat * plan_item) :=
  match cs with
  | [] => []
  | c :: cs => (match f c with Some it => [(i, it)] | None => [] end) ++ items_from f (S i) cs
  end.

(** The usage array that asks for the items in order. *)
Record asks (n : nat) (items : list (nat * plan_item)) (ps : plan_state) : Prop := {
  ask_index : ps_argvIndex ps = S (length items);
  ask_str : ps_idxStr ps = items_str items;
  ask_len : length (ps_usage ps) = n;
  ask_nodup : NoDup items.*1;
  ask_used : forall j i it, items !! j = Some (i, it) -> ps_usage ps !! i = Some (MkUsage (S j) true (item_in it));
  ask_unused : forall i, (i < n)%nat -> i ∉ items.*1 -> ps_usage ps !! i = Some unused
}.

Lemma asks_emit (n : nat) (items : list (nat * plan_item)) (ps : plan_state) (i : nat) (it : plan_item)
    (entry : list Z) (vin : bool) :
  asks n items ps -> (i < n)%nat -> i ∉ items.*1 -> entry = item_chars it -> vin = item_in it ->
  asks n (items ++ [(i, it)]) (emit i vin entry ps).
Proof.
  intros [H1 H2 H3 H4 H5 H6] Hi Hn -> ->. split; cbn.
  - rewrite H1, length_app. cbn. lia.
  - rewrite H2. unfold items_str. by rewrite !fmap_app, concat_app; cbn; rewrite app_nil_r.
  - by rewrite length_insert.
  - rewrite fmap_app. apply list.NoDup_app. split; [done|]. split; [|apply NoDup_singleton]. cbn. set_solver.
  - intros j i' it' [E|[Hj E]]%lookup_app_Some.
    + rewrite list_lookup_insert_ne; [by apply H5|]. intros ->. apply Hn.
      apply list_elem_of_lookup. exists j. by rewrite list_lookup_fmap, E.
    + destruct (j - length items)%nat eqn:Ej; [|done]. cbn in E. injection E as <- <-.
      rewrite list_lookup_insert_eq by lia. rewrite H1. do 2 f_equal. lia.
  - intros i' Hi' Hn'. rewrite fmap_app in Hn'. rewrite list_lookup_insert_ne; [apply H6|]; set_solver.
Qed.

(** The arguments come in the order of the items. *)
Lemma asks_argv {A : Type} (n : nat) (items : list (nat * plan_item)) (ps : plan_state) (rhs : list A) :
  asks n items ps -> length rhs = n ->
  length (filter_argv (ps_usage ps) rhs) = length items /\
  forall j i it, items !! j = Some (i, it) -> filter_argv (ps_usage ps) rhs !! j = rhs !! i.
Proof.
  intros [H1 H2 H3 H4 H5 H6] Hr.
  assert (Hin : forall j i it, items !! j = Some (i, it) -> (i < n)%nat).
  { intros j i it E. rewrite <- H3. eapply lookup_lt_Some, H5, E. }
  assert (Hle : (length items <= n)%nat).
  { rewrite <- (length_fmap fst), <- (length_seq n 0). apply submseteq_length, NoDup_submseteq; [done|].
    intros i [j Hj]%list_elem_of_lookup. rewrite list_lookup_fmap in Hj.
    destruct (items !! j) as [[i' it]|] eqn:E; [|done]. injection Hj as <-.
    apply elem_of_seq. specialize (Hin _ _ _ E). lia. }
  assert (Hf : forall j i it, items !! j = Some (i, it) ->
    list_find (fun u => iu_argvIndex u = S j) (ps_usage ps) = Some (i, MkUsage (S j) true (item_in it))).
  { intros j i it E. apply list_find_Some. split; [by apply H5|]. split; [done|].
    intros i' u Hu Hlt Hj. destruct (decide (i' ∈ items.*1)) as [[j' Hj']%list_elem_of_lookup|Hno].
    - rewrite list_lookup_fmap in Hj'. destruct (items !! j') as [[i2 it2]|] eqn:E2; [|done].
      injection Hj' as <-. rewrite (H5 _ _ _ E2) in Hu. injection Hu as <-. cbn in Hj. injection Hj as ->.
      rewrite E in E2. injection E2 as <- _. lia.
    - rewrite H6 in Hu; [by injection Hu as <-|apply lookup_lt_Some in Hu; lia|done]. }
  assert (Hnone : forall j, (length items <= j)%nat ->
    list_find (fun u => iu_argvIndex u = S j) (ps_usage ps) = None).
  { intros j Hj. apply list_find_None, Forall_lookup. intros i' u Hu He.
    destruct (decide (i' ∈ items.*1)) as [[j' Hj']%list_elem_of_lookup|Hno].
    - rewrite list_lookup_fmap in Hj'. destruct (items !! j') as [[i2 it2]|] eqn:E2; [|done].
      injection Hj' as <-. rewrite (H5 _ _ _ E2) in Hu. injection Hu as <-. cbn in He.
      apply lookup_lt_Some in E2. lia.
    - rewrite H6 in Hu; [by injection Hu as <-|apply lookup_lt_Some in Hu; lia|done]. }
  set (f := fun j => u ← list_find (fun u => iu_argvIndex u = j) (ps_usage ps); rhs !! u.1).
  assert (Hsome : forall j i it, items !! j = Some (i, it) -> f (S j) = rhs !! i)
    by (intros j i it E; unfold f; by rewrite (Hf _ _ _ E)).
  assert (Hsplit : filter_argv (ps_usage ps) rhs = omap f (seq 1 (length items))).
  { unfold filter_argv. fold f. rewrite H3. replace n with (length items + (n - length items))%nat by lia.
    rewrite seq_app, omap_app.
    assert (omap f (seq (1 + length items) (n - length items)) = []) as ->; [|by rewrite app_nil_r].
    assert (Hgen : forall m a, (length items < a)%nat -> omap f (seq a m) = []).
    { induction m as [|m IH]; intros a Ha; [done|]. cbn. destruct a as [|a]; [lia|].
      unfold f at 1. rewrite Hnone by lia. cbn. apply IH. lia. }
    apply Hgen. lia. }
  rewrite Hsplit.
  assert (Hgen : forall l k, items = take k items ++ l -> length (take k items) = k ->
    length (omap f (seq (S k) (length l))) = length l /\
    forall j i it, l !! j = Some (i, it) -> omap f (seq (S k) (length l)) !! j = rhs !! i).
  { induction l as [|[i it] l IH]; intros k El Ek; [done|]. cbn [length seq].
    assert (E : items !! k = Some (i, it)) by (rewrite El, lookup_app_r, Ek, Nat.sub_diag by lia; done).
    pose proof (Hin _ _ _ E) as Hlt. destruct (lookup_lt_is_Some_2 rhs i) as [x Hx]; [lia|].
    destruct (IH (S k)) as [IH1 IH2].
    { rewrite (take_S_r _ _ _ E), <- app_assoc. done. }
    { rewrite length_take. apply lookup_lt_Some in E. lia. }
    cbn [omap list_omap]. rewrite (Hsome _ _ _ E), Hx. cbn [length]. split; [by rewrite IH1|].
    intros [|j] i' it' E'; cbn in E'; [by injection E' as <- <-|]. cbn. by apply IH2 in E'. }
  apply (Hgen items 0%nat); done.
Qed.

(** ** Items of the loops *)

Lemma items_from_elem (f : index_constraint -> option plan_item) (i : nat) (cs : list index_constraint)
    (k : nat) (it : plan_item) :
  (k, it) ∈ items_from f i cs <-> exists j c, k = (i + j)%nat /\ cs !! j = Some c /\ f c = Some it.
Proof.
  revert i. induction cs as [|c cs IH]; intros i; cbn [items_from].
  - split; [by intros ?%elem_of_nil|]. by intros (j & c & _ & E & _).
  - rewrite elem_of_app, IH. split.
    + intros [E|(j & c' & -> & E & F)].
      * destruct (f c) as [it'|] eqn:F; [|by apply elem_of_nil in E].
        apply list_elem_of_singleton in E as [= -> ->]. exists 0%nat, c. split; [lia|done].
      * exists (S j), c'. split; [lia|done].
    + intros ([|j] & c' & -> & E & F); cbn in E.
      * injection E as ->. left. rewrite F, Nat.add_0_r. apply list_elem_of_singleton. done.
      * right. exists j, c'. split; [lia|done].
Qed.

Lemma plan_partition_item (p : vec0_vtab) (i : nat) (c : index_constraint) (ps : plan_state) :
  plan_partition p i c ps =
    match partition_item p c with Some it => emit i (item_in it) (item_chars it) ps | None => ps end.
Proof.
  unfold plan_partition, partition_item, is_limit_or_offset.
  destruct (ic_usable c); [|done]. destruct (vec0_column_idx_is_partition p (ic_column c)); cbn [negb orb andb].
  - destruct (Z.eqb_spec (ic_op c) SQLITE_INDEX_CONSTRAINT_LIMIT) as [->|_]; [done|].
    destruct (Z.eqb_spec (ic_op c) SQLITE_INDEX_CONSTRAINT_OFFSET) as [->|_]; [done|].
    by destruct (comparison_operator (ic_op c)).
  - by rewrite orb_true_r.
Qed.

Lemma plan_partitions_asks (p : vec0_vtab) (n i : nat) (cs : list index_constraint)
    (items : list (nat * plan_item)) (ps : plan_state) :
  asks n items ps -> (i + length cs <= n)%nat ->
  (forall j c it, cs !! j = Some c -> partition_item p c = Some it -> (i + j)%nat ∉ items.*1) ->
  asks n (items ++ items_from (partition_item p) i cs) (plan_partitions p i cs ps).
Proof.
  revert i items ps. induction cs as [|c cs IH]; intros i items ps Ha Hn Hd; cbn [items_from plan_partitions].
  - by rewrite app_nil_r.
  - cbn [length] in Hn. rewrite app_assoc, plan_partition_item.
    pose proof (Hd 0%nat c) as Hd0. rewrite Nat.add_0_r in Hd0.
    destruct (partition_item p c) as [it|] eqn:E.
    + apply IH; [apply asks_emit; [done|lia|by apply (Hd0 it)|done..]|lia|].
      intros j c' it' Ej E'. rewrite fmap_app, elem_of_app. cbn [fmap list_fmap fst]. rewrite list_elem_of_singleton.
      intros [H|H]; [|lia]. apply (Hd (S j) c' it'); [done..|]. by rewrite Nat.add_succ_r.
    + rewrite app_nil_r. apply IH; [done|lia|]. intros j c' it' Ej E' H.
      apply (Hd (S j) c' it'); [done..|]. by rewrite Nat.add_succ_r.
Qed.

(** An accepted constraint on a metadata column is asked for. *)
Definition metadata_asked (p : vec0_vtab) (c : index_constraint) : Prop :=
  ic_usable c = true -> is_limit_or_offset (ic_op c) = false ->
  vec0_column_idx_is_metadata p (ic_column c) = true -> is_Some (metadata_item p c).

Lemma plan_metadata_item (p : vec0_vtab) (i : nat) (c : index_constraint) (ps ps' : plan_state) :
  plan_metadata p i c ps = Some ps' ->
  ps' = (match metadata_item p c with Some it => emit i (item_in it) (item_chars it) ps | None => ps end) /\
  metadata_asked p c.
Proof.
  unfold plan_metadata, metadata_item, metadata_asked. unfold metadata_item.
  destruct (ic_usable c); cbn [negb orb andb]; [|by intros [= <-]].
  destruct (is_limit_or_offset (ic_op c)); cbn [negb orb andb]; [by intros [= <-]|].
  destruct (vec0_column_idx_is_metadata p (ic_column c)); cbn [negb orb andb]; [|by intros [= <-]].
  destruct (_ && ic_in c) eqn:Ei; cbn [andb].
  - destruct (_ || _); [done|]. cbn. intros Hp. case_match; [done|]. injection Hp as <-.
    split; [done|]. by eexists.
  - destruct (comparison_operator (ic_op c)) as [op|] eqn:Eo; [|done]. cbn. intros Hp. case_match; [done|].
    injection Hp as <-. split; [|by eexists]. f_equal. revert Eo. unfold comparison_operator.
    repeat (destruct (_ =? _); [by intros [= <-]|]). done.
Qed.

Lemma plan_metadatas_asks (p : vec0_vtab) (n i : nat) (cs : list index_constraint)
    (items : list (nat * plan_item)) (ps ps' : plan_state) :
  plan_metadatas p i cs ps = Some ps' -> asks n items ps -> (i + length cs <= n)%nat ->
  (forall j c it, cs !! j = Some c -> metadata_item p c = Some it -> (i + j)%nat ∉ items.*1) ->
  asks n (items ++ items_from (metadata_item p) i cs) ps' /\ Forall (metadata_asked p) cs.
Proof.
  revert i items ps. induction cs as [|c cs IH]; intros i items ps Hp Ha Hn Hd; cbn in Hp |- *.
  - injection Hp as <-. by rewrite app_nil_r.
  - apply bind_Some in Hp as (ps1 & [-> Hc]%plan_metadata_item & Hp). cbn [length] in Hn.
    rewrite app_assoc. pose proof (Hd 0%nat c) as Hd0. rewrite Nat.add_0_r in Hd0.
    enough (asks n ((items ++ match metadata_item p c with Some it => [(i, it)] | None => [] end)
              ++ items_from (metadata_item p) (S i) cs) ps' /\ Forall (metadata_asked p) cs) as [H1 H2]
      by (split; [done|by apply Forall_cons_2]).
    destruct (metadata_item p c) as [it|] eqn:E.
    + eapply IH; [exact Hp|apply asks_emit; [done|lia|by apply (Hd0 it)|done..]|lia|].
      intros j c' it' Ej E'. rewrite fmap_app, elem_of_app. cbn [fmap list_fmap fst]. rewrite list_elem_of_singleton.
      intros [H|H]; [|lia]. apply (Hd (S j) c' it'); [done..|]. by rewrite Nat.add_succ_r.
    + rewrite app_nil_r. eapply IH; [exact Hp|done|lia|]. intros j c' it' Ej E' H.
      apply (Hd (S j) c' it'); [done..|]. by rewrite Nat.add_succ_r.
Qed.

(** ** The terms of the first loop *)

Definition is_match_term (p : vec0_vtab) (c : index_constraint) : bool :=
  ic_usable c && (ic_op c =? SQLITE_INDEX_CONSTRAINT_MATCH) && vec0_column_idx_is_vector p (ic_column c).
Definition is_k_term (p : vec0_vtab) (c : index_constraint) : bool :=
  ic_usable c && ((ic_op c =? SQLITE_INDEX_CONSTRAINT_LIMIT) ||
                  (ic_op c =? SQLITE_INDEX_CONSTRAINT_EQ) && (ic_column c =? vec0_column_k_idx p)).
Definition is_id_term (c : index_constraint) : bool :=
  ic_usable c && (ic_op c =? SQLITE_INDEX_CONSTRAINT_EQ) && (ic_column c =? VEC0_COLUMN_ID).
Definition is_aux_term (p : vec0_vtab) (c : index_constraint) : bool :=
  ic_usable c && negb (is_limit_or_offset (ic_op c)) && vec0_column_idx_is_auxiliary p (ic_column c).

Definition is_rowid_in (c : index_constraint) : bool := is_id_term c && ic_in c.
Definition is_rowid_eq (c : index_constraint) : bool := is_id_term c && negb (ic_in c).

(** The constraints seen so far, [cs], in terms of what was recorded: a
    single [MATCH] and [rowid IN], some limit or [k], some [rowid =]. *)
Record terms_ok (p : vec0_vtab) (cs : list index_constraint) (t : best_terms) : Prop := {
  to_match : forall i c, cs !! i = Some c -> is_match_term p c = true ->
    bt_match t = Some (i, vec0_column_idx_to_idx p (ic_column c));
  to_match' : forall i v, bt_match t = Some (i, v) -> exists c, cs !! i = Some c /\ is_match_term p c = true;
  to_rowid_in : forall i c, cs !! i = Some c -> is_rowid_in c = true -> bt_rowid_in t = Some i;
  to_rowid_in' : forall i, bt_rowid_in t = Some i -> exists c, cs !! i = Some c /\ is_rowid_in c = true;
  to_rowid : forall i c, cs !! i = Some c -> is_rowid_eq c = true -> is_Some (bt_rowid t);
  to_rowid' : forall i, bt_rowid t = Some i -> exists c, cs !! i = Some c /\ is_rowid_eq c = true;
  to_k' : forall i, bt_limit t = Some i \/ bt_k t = Some i -> exists c, cs !! i = Some c /\ is_k_term p c = true;
  to_aux : bt_aux t = false -> Forall (fun c => is_aux_term p c = false) cs
}.

(** One constraint; what it is decides what is recorded. *)
Lemma best_term_ok (p : vec0_vtab) (t t' : best_terms) (i : nat) (c : index_constraint) :
  best_term p t i c = Some t' ->
  (is_match_term p c = true -> bt_match t = None) /\ (is_rowid_in c = true -> bt_rowid_in t = None) /\
  t' = MkTerms (if is_match_term p c then Some (i, vec0_column_idx_to_idx p (ic_column c)) else bt_match t)
         (if ic_usable c && (ic_op c =? SQLITE_INDEX_CONSTRAINT_LIMIT) then Some i else bt_limit t)
         (if is_rowid_eq c then Some i else bt_rowid t)
         (if ic_usable c && ((ic_op c =? SQLITE_INDEX_CONSTRAINT_EQ) && (ic_column c =? vec0_column_k_idx p))
          then Some i else bt_k t)
         (if is_rowid_in c then Some i else bt_rowid_in t)
         (bt_aux t || is_aux_term p c).
Proof.
  unfold best_term, is_match_term, is_rowid_in, is_rowid_eq, is_id_term, is_aux_term.
  destruct (ic_usable c); cbn [negb andb].
  2:{ intros [= <-]. rewrite orb_false_r. split; [done|]. split; [done|]. by destruct t. }
  destruct ((ic_op c =? SQLITE_INDEX_CONSTRAINT_MATCH) && _) eqn:Em; cbn [andb].
  all: try (case_bool_decide as Hm; [done|]).
  all: destruct ((ic_op c =? SQLITE_INDEX_CONSTRAINT_EQ) && (ic_column c =? VEC0_COLUMN_ID)); cbn [andb].
  all: destruct (ic_in c); cbn [andb negb].
  all: try (case_bool_decide as Hr; [done|]).
  all: intros [= <-]; (split; [intros; by apply eq_None_not_Some|]); (split; [intros; by apply eq_None_not_Some|]).
  all: done.
Qed.

Lemma best_terms_loop_ok (p : vec0_vtab) (cs2 cs1 : list index_constraint) (t t' : best_terms) :
  best_terms_loop p t (length cs1) cs2 = Some t' -> terms_ok p cs1 t -> terms_ok p (cs1 ++ cs2) t'.
Proof.
  revert cs1 t. induction cs2 as [|c cs2 IH]; intros cs1 t Hb Hok; cbn in Hb.
  - injection Hb as <-. by rewrite app_nil_r.
  - apply bind_Some in Hb as (t1 & (Hm & Hr & ->)%best_term_ok & Hb).
    replace (S (length cs1)) with (length (cs1 ++ [c])) in Hb by (rewrite length_app; cbn; lia).
    rewrite cons_middle, app_assoc. apply (IH _ _ Hb). destruct Hok as [A1 A2 B1 B2 C1 C2 D E].
    assert (Hnew : forall i c', (cs1 ++ [c]) !! i = Some c' ->
      cs1 !! i = Some c' \/ i = length cs1 /\ c' = c).
    { intros i c' [?|[Hi Hc]]%lookup_app_Some; [by left|]. right.
      destruct (i - length cs1)%nat eqn:Ei; [|done]. injection Hc as <-. split; [lia|done]. }
    assert (Hold : forall i c', cs1 !! i = Some c' -> (cs1 ++ [c]) !! i = Some c')
      by (intros; by apply lookup_app_l_Some).
    assert (Hlast : (cs1 ++ [c]) !! length cs1 = Some c) by (by rewrite lookup_app_r, Nat.sub_diag).
    split; cbn [bt_match bt_limit bt_rowid bt_k bt_rowid_in bt_aux].
    + intros i c' [H|[-> ->]]%Hnew H'; [|by rewrite H'].
      destruct (is_match_term p c); [|by apply A1]. rewrite (A1 i c' H H') in Hm. by specialize (Hm eq_refl).
    + intros i v. destruct (is_match_term p c) eqn:Ec; [intros [= <- _]; by exists c|].
      intros (c' & H & H')%A2. exists c'. auto.
    + intros i c' [H|[-> ->]]%Hnew H'; [|by rewrite H'].
      destruct (is_rowid_in c); [|by apply (B1 i c')]. rewrite (B1 i c' H H') in Hr. by specialize (Hr eq_refl).
    + intros i. destruct (is_rowid_in c) eqn:Ec; [intros [= <-]; by exists c|].
      intros (c' & H & H')%B2. exists c'. auto.
    + intros i c' [H|[-> ->]]%Hnew H'; [|rewrite H'; by eexists].
      destruct (is_rowid_eq c); [by eexists|]. by apply (C1 i c').
    + intros i. destruct (is_rowid_eq c) eqn:Ec; [intros [= <-]; by exists c|].
      intros (c' & H & H')%C2. exists c'. auto.
    + intros i Hi.
      assert (Hk : (bt_limit t = Some i \/ bt_k t = Some i) \/ i = length cs1 /\ is_k_term p c = true).
      { unfold is_k_term. destruct (ic_usable c), (ic_op c =? SQLITE_INDEX_CONSTRAINT_LIMIT),
          ((ic_op c =? SQLITE_INDEX_CONSTRAINT_EQ) && (ic_column c =? vec0_column_k_idx p));
          cbn [andb orb] in *; destruct Hi as [Hi|Hi]; try injection Hi as <-; auto. }
      destruct Hk as [(c' & H & H')%D|[-> H]]; [exists c'; auto|by exists c].
    + intros [Ha Hc]%orb_false_iff. apply Forall_app. split; [by apply E|]. by apply Forall_cons_2.
Qed.

Lemma best_terms_ok (p : vec0_vtab) (cs : list index_constraint) (t : best_terms) :
  best_terms_loop p no_terms 0 cs = Some t -> terms_ok p cs t.
Proof. intros H. apply (best_terms_loop_ok p cs [] no_terms t H). split; naive_solver. Qed.

(** ** Correctness of the plan *)

(** What a usable constraint restricts in a KNN query. *)
Definition filter_item (p : vec0_vtab) (c : index_constraint) : option plan_item :=
  if is_rowid_in c then Some PRowidIn
  else match partition_item p c with Some it => Some it | None => metadata_item p c end.

(** Columns of different kinds are different. *)
Lemma column_kinds (p : vec0_vtab) (k1 k2 : vec0_user_column_kind) (i : Z) :
  vec0_column_idx_is k1 p i = true -> vec0_column_idx_is k2 p i = true -> k1 = k2.
Proof.
  unfold vec0_column_idx_is. destruct (vt_user_columns p !! _) as [[k ?]|]; [|by rewrite !andb_false_r].
  rewrite !andb_true_iff, !bool_decide_eq_true. naive_solver.
Qed.

Lemma user_column_range (p : vec0_vtab) (k : vec0_user_column_kind) (i : Z) :
  vec0_column_idx_is k p i = true -> i <> VEC0_COLUMN_ID /\ i <> vec0_column_k_idx p.
Proof.
  unfold vec0_column_idx_is, vec0_column_k_idx, VEC0_COLUMN_ID, VEC0_COLUMN_USERN_START, VEC0_COLUMN_OFFSET_K.
  rewrite !andb_true_iff, !Z.leb_le. lia.
Qed.

(** An item of a column constraint is neither of the other terms. *)
Lemma partition_item_inv (p : vec0_vtab) (c : index_constraint) (it : plan_item) :
  partition_item p c = Some it ->
  vec0_column_idx_is USER_COLUMN_PARTITION p (ic_column c) = true /\ is_Some (comparison_operator (ic_op c)).
Proof.
  unfold partition_item, vec0_column_idx_is_partition. destruct (ic_usable c && _) eqn:E; [|done].
  apply andb_true_iff in E as [_ E]. intros (op & Ho & _)%fmap_Some_1. split; [done|by eexists].
Qed.

Lemma metadata_item_inv (p : vec0_vtab) (c : index_constraint) (it : plan_item) :
  metadata_item p c = Some it ->
  vec0_column_idx_is USER_COLUMN_METADATA p (ic_column c) = true /\ is_Some (comparison_operator (ic_op c)).
Proof.
  unfold metadata_item, vec0_column_idx_is_metadata. destruct (ic_usable c && _ && _) eqn:E; [|done].
  apply andb_true_iff in E as [_ E]. destruct (Z.eqb_spec (ic_op c) SQLITE_INDEX_CONSTRAINT_EQ) as [->|]; cbn [andb].
  - intros _. split; [done|by eexists].
  - intros (op & Ho & _)%fmap_Some_1. split; [done|by eexists].
Qed.

Lemma column_term_apart (p : vec0_vtab) (c : index_constraint) (k : vec0_user_column_kind) :
  vec0_column_idx_is k p (ic_column c) = true -> is_Some (comparison_operator (ic_op c)) ->
  is_match_term p c = false /\ is_k_term p c = false /\ is_rowid_in c = false.
Proof.
  intros Hk [op Ho]. destruct (user_column_range p k _ Hk) as [H0 Hd].
  unfold is_match_term, is_k_term, is_rowid_in, is_id_term.
  destruct (Z.eqb_spec (ic_op c) SQLITE_INDEX_CONSTRAINT_MATCH) as [E|_]; [by rewrite E in Ho|].
  destruct (Z.eqb_spec (ic_op c) SQLITE_INDEX_CONSTRAINT_LIMIT) as [E|_]; [by rewrite E in Ho|].
  rewrite (proj2 (Z.eqb_neq _ _) H0), (proj2 (Z.eqb_neq _ _) Hd). by rewrite !andb_false_r.
Qed.

Lemma match_term_apart (p : vec0_vtab) (c : index_constraint) :
  is_match_term p c = true -> is_k_term p c = false /\ is_rowid_in c = false.
Proof.
  unfold is_match_term, is_k_term, is_rowid_in, is_id_term. rewrite !andb_true_iff, Z.eqb_eq.
  intros [[_ ->] _]. by rewrite !andb_false_r.
Qed.

Lemma k_term_apart (p : vec0_vtab) (c : index_constraint) : is_k_term p c = true -> is_rowid_in c = false.
Proof.
  unfold is_k_term, is_rowid_in, is_id_term. rewrite andb_true_iff, orb_true_iff, andb_true_iff, !Z.eqb_eq.
  intros [_ [->|[-> ->]]]; [by rewrite !andb_false_r|].
  assert ((vec0_column_k_idx p =? VEC0_COLUMN_ID) = false) as ->; [|by rewrite !andb_false_r].
  apply Z.eqb_neq. unfold vec0_column_k_idx, vec0_num_defined_user_columns, VEC0_COLUMN_ID, VEC0_COLUMN_USERN_START,
    VEC0_COLUMN_OFFSET_K. lia.
Qed.

(** The plan of a KNN query: [MATCH] and limit first, then the constraints
    that restrict the rows. *)
Record knn_plan (p : vec0_vtab) (cs : list index_constraint) (plan : index_plan)
    (items : list (nat * plan_item)) (iMatch iK : nat) : Prop := {
  kp_items : exists rest, items = (iMatch, PMatch) :: (iK, PK) :: rest /\ NoDup items.*1 /\
    (forall i it, (i, it) ∈ rest <-> exists c, cs !! i = Some c /\ filter_item p c = Some it);
  kp_match : exists c, cs !! iMatch = Some c /\ is_match_term p c = true /\
    pl_idxNum plan = Z.of_nat (vec0_column_idx_to_idx p (ic_column c)) /\
    forall i c', cs !! i = Some c' -> is_match_term p c' = true -> i = iMatch;
  kp_k : exists c, cs !! iK = Some c /\ is_k_term p c = true;
  kp_one_in : forall i j ci cj, cs !! i = Some ci -> cs !! j = Some cj -> is_rowid_in ci = true ->
    is_rowid_in cj = true -> i = j;
  kp_metadata : Forall (metadata_asked p) cs;
  kp_aux : Forall (fun c => is_aux_term p c = false) cs;
  kp_str : pl_idxStr plan = items_str items;
  kp_usage : length (pl_usage plan) = length cs;
  kp_asks : asks (length cs) items (MkPS (S (length items)) (pl_idxStr plan) (pl_usage plan))
}.

Lemma asks_start (n : nat) : asks n [] (MkPS 1 [VEC0_QUERY_PLAN_KNN] (replicate n unused)).
Proof.
  split; cbn; [done|done|by rewrite length_replicate|constructor|done|].
  intros i Hi _. by apply lookup_replicate_2.
Qed.

Lemma knn_items_asks (p : vec0_vtab) (cs : list index_constraint) (t : best_terms) (iM v iK : nat) (ps : plan_state) :
  terms_ok p cs t -> bt_match t = Some (iM, v) -> bt_limit t = Some iK \/ bt_k t = Some iK ->
  let rowid_in := match bt_rowid_in t with Some i => [(i, PRowidIn)] | None => [] end in
  let ps1 := emit iK false (plain_entry VEC0_IDXSTR_KIND_KNN_K)
               (emit iM false (plain_entry VEC0_IDXSTR_KIND_KNN_MATCH)
                 (MkPS 1 [VEC0_QUERY_PLAN_KNN] (replicate (length cs) unused))) in
  let ps2 := match bt_rowid_in t with
             | Some i => emit i true (plain_entry VEC0_IDXSTR_KIND_KNN_ROWID_IN) ps1
             | None => ps1
             end in
  plan_metadatas p 0 cs (plan_partitions p 0 cs ps2) = Some ps ->
  asks (length cs) ([(iM, PMatch); (iK, PK)] ++ rowid_in ++ items_from (partition_item p) 0 cs
                      ++ items_from (metadata_item p) 0 cs) ps /\
  Forall (metadata_asked p) cs.
Proof.
  intros Hok Hm Hk rowid_in ps1 ps2 Hp.
  destruct (to_match' _ _ _ Hok _ _ Hm) as (cm & Ecm & Hcm). destruct (to_k' _ _ _ Hok _ Hk) as (ck & Eck & Hck).
  destruct (match_term_apart _ _ Hcm) as [Hmk Hmr]. pose proof (k_term_apart _ _ Hck) as Hkr.
  assert (H1 : asks (length cs) [(iM, PMatch); (iK, PK)] ps1).
  { apply (asks_emit _ [(iM, PMatch)]); [|by eapply lookup_lt_Some| |done..].
    - apply (asks_emit _ []); [apply asks_start|by eapply lookup_lt_Some|apply not_elem_of_nil|done..].
    - cbn. intros Hr. apply list_elem_of_singleton in Hr as ->. congruence. }
  assert (H2 : asks (length cs) ([(iM, PMatch); (iK, PK)] ++ rowid_in) ps2).
  { subst rowid_in ps2. destruct (bt_rowid_in t) as [i|] eqn:Ei; [|by rewrite app_nil_r].
    destruct (to_rowid_in' _ _ _ Hok _ Ei) as (cr & Ecr & Hcr).
    apply asks_emit; [done|by eapply lookup_lt_Some| |done..]. cbn.
    intros [->|Hr]%elem_of_cons; [congruence|]. apply list_elem_of_singleton in Hr as ->. congruence. }
  assert (Hapart : forall j c k, cs !! j = Some c -> vec0_column_idx_is k p (ic_column c) = true ->
    is_Some (comparison_operator (ic_op c)) -> j ∉ ([(iM, PMatch); (iK, PK)] ++ rowid_in).*1).
  { intros j c k Ej Hc Ho. destruct (column_term_apart p c k Hc Ho) as (N1 & N2 & N3). subst rowid_in. cbn.
    intros [->|Hr]%elem_of_cons; [congruence|]. apply elem_of_cons in Hr as [->|Hr]; [congruence|].
    destruct (bt_rowid_in t) as [i|] eqn:Ei; [|by apply elem_of_nil in Hr]. apply list_elem_of_singleton in Hr as ->.
    destruct (to_rowid_in' _ _ _ Hok _ Ei) as (cr & Ecr & Hcr). cbn in Ej. congruence. }
  assert (H3 : asks (length cs) (([(iM, PMatch); (iK, PK)] ++ rowid_in) ++ items_from (partition_item p) 0 cs)
                 (plan_partitions p 0 cs ps2)).
  { apply plan_partitions_asks; [done|lia|]. intros j c it Ej Hi. destruct (partition_item_inv _ _ _ Hi).
    by apply (Hapart j c USER_COLUMN_PARTITION). }
  rewrite !app_assoc. eapply plan_metadatas_asks; [exact Hp|done|lia|]. intros j c it Ej Hi.
  destruct (metadata_item_inv _ _ _ Hi) as [Hc Ho]. rewrite fmap_app, elem_of_app. intros [H|H].
  - by apply (Hapart j c USER_COLUMN_METADATA Ej Hc Ho).
  - apply list_elem_of_fmap in H as ([k it'] & E & H). cbn in E. subst k.
    apply items_from_elem in H as (j' & c' & Ejj & Ej' & Hi'). cbn in Ejj. subst j'. rewrite Ej in Ej'. injection Ej' as <-.
    destruct (partition_item_inv _ _ _ Hi') as [Hp' _]. by pose proof (column_kinds _ _ _ _ Hc Hp').
Qed.

(** The items after the first two are those of the constraints. *)
Lemma filter_items_elem (p : vec0_vtab) (cs : list index_constraint) (t : best_terms) (i : nat) (it : plan_item) :
  terms_ok p cs t ->
  (i, it) ∈ (match bt_rowid_in t with Some i => [(i, PRowidIn)] | None => [] end)
              ++ items_from (partition_item p) 0 cs ++ items_from (metadata_item p) 0 cs <->
  exists c, cs !! i = Some c /\ filter_item p c = Some it.
Proof.
  intros Hok. rewrite !elem_of_app, !items_from_elem. unfold filter_item. split.
  - intros [Hi|[(j & c & -> & Ec & Hi)|(j & c & -> & Ec & Hi)]].
    + destruct (bt_rowid_in t) as [r|] eqn:Er; [|by apply elem_of_nil in Hi].
      apply list_elem_of_singleton in Hi as [= -> ->].
      destruct (to_rowid_in' _ _ _ Hok _ Er) as (c & Ec & Hc). exists c. by rewrite Hc.
    + exists c. split; [done|]. destruct (partition_item_inv _ _ _ Hi) as [H1 H2].
      destruct (column_term_apart p c _ H1 H2) as (_ & _ & ->). by rewrite Hi.
    + exists c. split; [done|]. destruct (metadata_item_inv _ _ _ Hi) as [H1 H2].
      destruct (column_term_apart p c _ H1 H2) as (_ & _ & ->).
      destruct (partition_item p c) eqn:Hpi; [|done]. destruct (partition_item_inv _ _ _ Hpi) as [H3 _].
      by pose proof (column_kinds _ _ _ _ H1 H3).
  - intros (c & Ec & Hi). destruct (is_rowid_in c) eqn:Hc.
    + injection Hi as <-. left. rewrite (to_rowid_in _ _ _ Hok _ _ Ec Hc). by apply list_elem_of_singleton.
    + right. destruct (partition_item p c) eqn:Hpi; [left|right]; exists i, c; naive_solver.
Qed.

Lemma knn_plan_asks (p : vec0_vtab) (cs : list index_constraint) (orderBy : list index_orderby) (colUsed : Z)
    (t : best_terms) (iM v : nat) (plan : index_plan) :
  best_terms_loop p no_terms 0 cs = Some t -> bt_match t = Some (iM, v) ->
  vec0BestIndex p cs orderBy colUsed = Some plan -> exists items iK, knn_plan p cs plan items iM iK.
Proof.
  intros Ht Em (t' & Ht' & Hb)%bind_Some. rewrite Ht in Ht'. injection Ht' as <-. rewrite Em in Hb.
  pose proof (best_terms_ok _ _ _ Ht) as Hok.
  destruct (negb (knn_plan_ok p t orderBy)) eqn:Eok; [done|]. apply bind_Some in Hb as (ps & Hp & [= <-]).
  set (iK := match bt_limit t with Some i => i | None => default 0%nat (bt_k t) end) in Hp.
  unfold knn_plan_ok in Eok. apply negb_false_iff in Eok. rewrite !andb_true_iff in Eok.
  destruct Eok as [[[Hlk _] _] Haux].
  assert (Hk : bt_limit t = Some iK \/ bt_k t = Some iK).
  { subst iK. destruct (bt_limit t); [by left|]. destruct (bt_k t); [by right|done]. }
  destruct (knn_items_asks p cs t iM v iK ps Hok Em Hk Hp) as [Ha Hmeta].
  set (items := [(iM, PMatch); (iK, PK)] ++ _) in Ha. exists items, iK.
  split; cbn [pl_usage pl_idxStr pl_idxNum].
  - eexists. split; [reflexivity|]. split; [apply Ha|]. intros i it. by apply filter_items_elem.
  - destruct (to_match' _ _ _ Hok _ _ Em) as (c & Ec & Hc). exists c. do 2 (split; [done|]).
    assert (Hu : forall i c', cs !! i = Some c' -> is_match_term p c' = true ->
      (i, vec0_column_idx_to_idx p (ic_column c')) = (iM, v)).
    { intros i c' Ec' Hc'. pose proof (to_match _ _ _ Hok _ _ Ec' Hc'). congruence. }
    split; [by injection (Hu iM c Ec Hc) as <-|]. intros i c' Ec' Hc'. by injection (Hu i c' Ec' Hc').
  - by apply (to_k' _ _ _ Hok).
  - intros i j ci cj Hi Hj Hci Hcj. pose proof (to_rowid_in _ _ _ Hok _ _ Hi Hci) as E1.
    pose proof (to_rowid_in _ _ _ Hok _ _ Hj Hcj) as E2. congruence.
  - done.
  - apply (to_aux _ _ _ Hok). by apply negb_true_iff.
  - apply Ha.
  - apply Ha.
  - destruct Ha. by split.
Qed.

Lemma best_index_knn (p : vec0_vtab) (cs : list index_constraint) (orderBy : list index_orderby) (colUsed : Z)
    (plan : index_plan) (iM : nat) (c : index_constraint) :
  vec0BestIndex p cs orderBy colUsed = Some plan -> cs !! iM = Some c -> is_match_term p c = true ->
  exists items iK, knn_plan p cs plan items iM iK /\
    pl_idxNum plan = Z.of_nat (vec0_column_idx_to_idx p (ic_column c)).
Proof.
  intros Hb Hc Hm. pose proof Hb as (t & Ht & _)%bind_Some. pose proof (best_terms_ok _ _ _ Ht) as Hok.
  destruct (knn_plan_asks p cs orderBy colUsed t iM _ plan Ht (to_match _ _ _ Hok _ _ Hc Hm) Hb) as (items & iK & Hp).
  exists items, iK. split; [done|]. destruct (kp_match _ _ _ _ _ _ Hp) as (c' & Hc' & _ & E & _). congruence.
Qed.

(** C17: Planning is faithful.  When [xBestIndex] accepts, exactly one of
    three plans results.  With a usable [MATCH] on a vector column, a KNN
    plan on that column: the string lists [MATCH], the limit or [k], and then
    every usable [rowid IN], partition and metadata constraint exactly once,
    no metadata or auxiliary constraint is dropped silently, and the values
    SQLite passes to [xFilter] are those of these constraints in the same
    order.  Otherwise a point query if there is a usable [rowid = ?], with
    its value, else a full scan without arguments. *)
Theorem best_index_correct {A : Type} (p : vec0_vtab) (cs : list index_constraint) (orderBy : list index_orderby)
    (colUsed : Z) (plan : index_plan) (rhs : list A) :
  vec0BestIndex p cs orderBy colUsed = Some plan -> length rhs = length cs ->
  let argv := filter_argv (pl_usage plan) rhs in
  (exists items iMatch iK, knn_plan p cs plan items iMatch iK /\
     length argv = length items /\ forall j i it, items !! j = Some (i, it) -> argv !! j = rhs !! i) \/
  (Forall (fun c => is_match_term p c = false) cs /\
   ((exists i c x, cs !! i = Some c /\ is_rowid_eq c = true /\ rhs !! i = Some x /\ argv = [x] /\
       pl_idxStr plan = VEC0_QUERY_PLAN_POINT :: plain_entry VEC0_IDXSTR_KIND_POINT_ID) \/
    (Forall (fun c => is_rowid_eq c = false) cs /\ argv = [] /\ pl_idxStr plan = [VEC0_QUERY_PLAN_FULLSCAN]))).
Proof.
  intros Hb Hr. cbv zeta. pose proof Hb as Hb'. unfold vec0BestIndex in Hb.
  apply bind_Some in Hb as (t & Ht & Hb). pose proof (best_terms_ok _ _ _ Ht) as Hok.
  destruct (bt_match t) as [[iM v]|] eqn:Em.
  - left. destruct (knn_plan_asks p cs orderBy colUsed t iM v plan Ht Em Hb') as (items & iK & Hp).
    exists items, iM, iK. split; [done|]. by apply (asks_argv _ _ _ rhs (kp_asks _ _ _ _ _ _ Hp)).
  - right. assert (Hnm : Forall (fun c => is_match_term p c = false) cs).
    { apply Forall_lookup. intros i c Ec. destruct (is_match_term p c) eqn:E; [|done].
      by rewrite (to_match _ _ _ Hok _ _ Ec E) in Em. }
    split; [done|]. destruct (bt_rowid t) as [i|] eqn:Er; [left|right]; injection Hb as <-; cbn [pl_usage pl_idxStr].
    + destruct (to_rowid' _ _ _ Hok _ Er) as (c & Ec & Hc). pose proof (lookup_lt_Some _ _ _ Ec) as Hi.
      destruct (lookup_lt_is_Some_2 rhs i) as [x Hx]; [lia|]. exists i, c, x. do 3 (split; [done|]). split; [|done].
      destruct (asks_argv (length cs) [(i, PMatch)]
        (emit i false (plain_entry VEC0_IDXSTR_KIND_KNN_MATCH) (MkPS 1 [VEC0_QUERY_PLAN_KNN] (replicate (length cs) unused))) rhs)
        as [Hl Ha]; [apply (asks_emit _ []); [apply asks_start|done|apply not_elem_of_nil|done..]|done|].
      specialize (Ha 0%nat i PMatch eq_refl). rewrite Hx in Ha. cbn [emit ps_usage] in *.
      destruct (filter_argv _ rhs) as [|y [|]]; [done| |done]. cbn in Ha. by injection Ha as ->.
    + split; [|split; [|done]].
      * apply Forall_lookup. intros i c Ec. destruct (is_rowid_eq c) eqn:E; [|done].
        destruct (to_rowid _ _ _ Hok _ _ Ec E). congruence.
      * destruct (asks_argv (length cs) [] (MkPS 1 [VEC0_QUERY_PLAN_KNN] (replicate (length cs) unused)) rhs)
          as [Hl _]; [apply asks_start|done|]. by apply nil_length_inv.
Qed.

(** A table with a vector, a partition and an INTEGER metadata column, and
    the query [WHERE m > ? AND v MATCH ? AND p = ? AND rowid IN (..) AND k = ?]. *)
Definition plan_vtab : vec0_vtab :=
  MkVtab false 8 [(USER_COLUMN_VECTOR, 0%nat); (USER_COLUMN_PARTITION, 0%nat); (USER_COLUMN_METADATA, 0%nat)]
    [no_column] [SQLITE_INTEGER] [] [METADATA_KIND_INTEGER] [].

Definition plan_constraints : list index_constraint :=
  [MkConstraint 3 SQLITE_INDEX_CONSTRAINT_GT true false; MkConstraint 1 SQLITE_INDEX_CONSTRAINT_MATCH true false;
   MkConstraint 2 SQLITE_INDEX_CONSTRAINT_EQ true false; MkConstraint 0 SQLITE_INDEX_CONSTRAINT_EQ true true;
   MkConstraint 5 SQLITE_INDEX_CONSTRAINT_EQ true false].

Definition demo_plan : index_plan :=
  MkPlan 0 ([51] ++ plain_entry 123 ++ plain_entry 125 ++ plain_entry 91 ++ [93; 65; 97; 95] ++ [38; 65; 98; 95])
    [MkUsage 5 true false; MkUsage 1 true false; MkUsage 4 true false; MkUsage 3 true true; MkUsage 2 true false].

Lemma best_index_correct_witness :
  vec0BestIndex plan_vtab plan_constraints [MkOrderBy 4 false] 0 = Some demo_plan /\
  filter_argv (pl_usage demo_plan) [10; 20; 30; 40; 50] = [20; 50; 40; 30; 10] /\
  exists items iMatch iK, knn_plan plan_vtab plan_constraints demo_plan items iMatch iK /\ length items = 5%nat.
Proof.
  split; [reflexivity|]. split; [reflexivity|].
  destruct (best_index_correct plan_vtab plan_constraints [MkOrderBy 4 false] 0 demo_plan [10; 20; 30; 40; 50]
    eq_refl eq_refl) as [(items & iM & iK & Hp & Hl & _)|[Hno _]].
  - exists items, iM, iK. split; [exact Hp|]. by rewrite <- Hl.
  - exfalso. pose proof (proj1 (Forall_lookup _ _) Hno 1%nat _ eq_refl) as H. discriminate H.
Defined.
