(* ===== verification/Query.v ===== *)
(** * Queries (sqlite-vec.c, [vec0_chunks_iter],
    [vec0Filter_knn_chunks_iter], [vec0Filter_chunks_to_rowid_map],
    [vec0Filter_knn] to [vec0Column])

    [xFilter] runs the plan chosen by [xBestIndex].  A KNN query goes over the
    chunks that satisfy the partition constraints, computes a bitmap of the
    rows that satisfy the others, and either scans the vectors of these rows,
    merging the best of each chunk into a running result, or collects their
    rowids and asks the vector index.  The cursor then hands out the rows. *)

From stdpp Require Import base option list numbers gmap sorting.
From Stdlib Require Import ZArith Lia SpecFloat.
From S2P Require Import Prelude Float32 Bitmap TopK CLib Distance Codec Shadow DefParser Metadata Values Storage.
From S2P Require Import Filter Plan.

Local Open Scope Z_scope.
Local Open Scope query_scope.

(** ** What the queries rely on *)

(** A KNN search of the index, with the number of rows asked for: distances
    and rowids, [None] if the index cannot be searched yet. *)
Class IndexSearch (I : Type) := {
  ix_pre_filter : I -> bool;
  ix_search : I -> list f32 -> nat -> RowidMap -> res (option (list (f32 * Z)))
}.

(** ** Reading the plan string *)

Definition idx_kind (idxStr : list Z) (i : nat) : Z := aget 0 idxStr (1 + i * 4).
Definition idx_column (idxStr : list Z) (i : nat) : nat := Z.to_nat (aget 0 idxStr (1 + i * 4 + 1) - CHAR_A).
Definition idx_operator (idxStr : list Z) (i : nat) : Z := aget 0 idxStr (1 + i * 4 + 2).

(** The last entry of a kind. *)
Definition last_of_kind (kind : Z) (idxStr : list Z) (argc : nat) : option nat :=
  last (filter (fun i => idx_kind idxStr i = kind) (seq 0 argc)).

Definition arg_sval (a : filter_arg) : sval :=
  match a with ArgValue v => v | ArgIn _ => MkSval VNull 0 end.
Definition no_arg : filter_arg := ArgValue (MkSval VNull 0).
Definition arg_at (argv : list filter_arg) (i : nat) : filter_arg := aget no_arg argv i.
Definition arg_value (argv : list filter_arg) (i : nat) : value := sv_value (arg_sval (arg_at argv i)).

(** [sqlite3_vtab_in_first], [sqlite3_vtab_in_next]: only for an [IN] list. *)
Definition arg_in (argv : list filter_arg) (i : nat) : res (list value) :=
  match arg_at argv i with ArgIn l => Ok l | ArgValue _ => Undef end.

(** ** Distances *)

Definition vector_i8 (b : bytes) (dim : nat) : list Z := i8_at b <$> seq 0 dim.

(** [f32 result = ...]: every distance is converted to [float]. *)
Definition vector_distance (col : VectorColumnDefinition) (base query : bytes) : f32 :=
  let d := Z.to_nat (vc_dimensions col) in
  match vc_element_type col with
  | SQLITE_VEC_ELEMENT_TYPE_FLOAT32 =>
      let a := vector_floats base d in
      let b := vector_floats query d in
      match vc_distance_metric col with
      | VEC0_DISTANCE_METRIC_L2 => distance_l2_sqr_float a b d
      | VEC0_DISTANCE_METRIC_L1 => f32_of_f64 (distance_l1_f32 a b d)
      | VEC0_DISTANCE_METRIC_COSINE => distance_cosine_float a b d
      end
  | SQLITE_VEC_ELEMENT_TYPE_INT8 =>
      let a := vector_i8 base d in
      let b := vector_i8 query d in
      match vc_distance_metric col with
      | VEC0_DISTANCE_METRIC_L2 => distance_l2_sqr_int8 a b d
      | VEC0_DISTANCE_METRIC_L1 => f32_of_Z (distance_l1_int8 a b d)
      | VEC0_DISTANCE_METRIC_COSINE => distance_cosine_int8 a b d
      end
  | SQLITE_VEC_ELEMENT_TYPE_BIT => distance_hamming base query d
  end.

(** ** The chunks of a query *)

Section Chunks.
Context {I : Type} `{SqlValues} `{ScanOrder} (s : db I) (idxStr : list Z) (argv : list filter_arg).
Let argc := length argv.
Let p := db_vtab s.
Let cs := vt_chunk_size p.

(** A condition of a [WHERE] clause: a comparison with NULL is not true. *)
Definition sql_condition (op : vec0_metadata_operator) (v w : value) : bool :=
  match sql_compare v w with Some c => op_holds op (Some c) | None => false end.

(** The operator of a partition constraint; [None]: [SQLITE_ERROR]. *)
Definition partition_operator (c : Z) : option vec0_metadata_operator :=
  match metadata_operator c with
  | Some METADATA_OPERATOR_IN => None
  | o => o
  end.

(** The conjunction of the partition constraints on a chunk. *)
Fixpoint partition_where (es : list nat) (ck : chunk_row) : option bool :=
  match es with
  | [] => Some true
  | i :: es =>
      if idx_kind idxStr i =? VEC0_IDXSTR_KIND_KNN_PARTITON_CONSTRAINT then
        op ← partition_operator (idx_operator idxStr i);
        b ← partition_where es ck;
        Some (sql_condition op (aget VNull (ck_partition ck) (idx_column idxStr i)) (arg_value argv i) && b)
      else partition_where es ck
  end.

(** [select chunk_id, validity, rowids from _chunks WHERE ...]; an unknown
    operator is an error whatever the chunks. *)
Definition vec0_chunks_iter : res (list (Z * chunk_row)) :=
  if forallb (fun i => negb (idx_kind idxStr i =? VEC0_IDXSTR_KIND_KNN_PARTITON_CONSTRAINT)
                       || bool_decide (is_Some (partition_operator (idx_operator idxStr i)))) (seq 0 argc)
  then Ok (filter (fun c => partition_where (seq 0 argc) c.2 = Some true) (scan (db_chunks s)))
  else Err SQLITE_ERROR.

(** ** The rows of a chunk that satisfy the constraints *)

(** [rowid in (...)]: slots that are not valid are skipped. *)
Fixpoint rowids_bitmap (arrayRowidsIn : list Z) (ck : chunk_row) (i n : nat) (b : bytes) : bytes :=
  match n with
  | O => b
  | S n =>
      rowids_bitmap arrayRowidsIn ck (S i) n
        (if bitmap_test (ck_validity ck) i
         then bitmap_set b i (bsearch_i64 (rowid_at (ck_rowids ck) i) arrayRowidsIn (length arrayRowidsIn))
         else b)
  end.

(** The metadata constraints; the planner writes no other operator. *)
Fixpoint metadata_filters (aMetadataIn : list Vec0MetadataIn) (chunk_id : Z) (es : list nat) (b : bytes)
    : res bytes :=
  match es with
  | [] => Ok b
  | i :: es =>
      if idx_kind idxStr i =? VEC0_IDXSTR_KIND_METADATA_CONSTRAINT then
        let metadata_idx := idx_column idxStr i in
        match db_metadata s !! metadata_idx, metadata_operator (idx_operator idxStr i) with
        | Some m, Some op =>
            bmMetadata <-? vec0_set_metadata_filter_bitmap (metadata_kind_of p metadata_idx) m (db_chunks s) op
                             (arg_value argv i) chunk_id (bitmap_clear (bitmap_new cs) cs) cs aMetadataIn i;
            metadata_filters aMetadataIn chunk_id es (bitmap_and_inplace b bmMetadata cs)
        | _, _ => Undef
        end
      else metadata_filters aMetadataIn chunk_id es b
  end.

Definition hasMetadataFilters : bool :=
  existsb (fun i => idx_kind idxStr i =? VEC0_IDXSTR_KIND_METADATA_CONSTRAINT) (seq 0 argc).

Definition chunk_bitmap (arrayRowidsIn : option (list Z)) (aMetadataIn : list Vec0MetadataIn)
    (chunk_id : Z) (ck : chunk_row) : res bytes :=
  let b := bitmap_copy (bitmap_clear (bitmap_new cs) cs) (ck_validity ck) cs in
  let b := match arrayRowidsIn with
           | Some arr => bitmap_and_inplace b (rowids_bitmap arr ck 0 cs (bitmap_clear (bitmap_new cs) cs)) cs
           | None => b
           end in
  if hasMetadataFilters then metadata_filters aMetadataIn chunk_id (seq 0 argc) b else Ok b.

(** The sizes of the blobs of a chunk. *)
Definition chunk_sizes_ok (ck : chunk_row) : bool :=
  (length (ck_validity ck) =? cs / CHAR_BIT)%nat && (length (ck_rowids ck) =? cs * 8)%nat.

Definition chunk_rowids (ck : chunk_row) : list Z := rowid_at (ck_rowids ck) <$> seq 0 cs.

(** ** The scan *)

(** [topk_distances], [topk_rowids], [k_used]. *)
Record knn_acc := MkAcc { ka_distances : list f32; ka_rowids : list Z; ka_used : nat }.

Definition knn_chunk (vectorColumnIdx : nat) (queryVector : bytes) (k : nat)
    (arrayRowidsIn : option (list Z)) (aMetadataIn : list Vec0MetadataIn) (acc : knn_acc)
    (c : Z * chunk_row) : res knn_acc :=
  let '(chunk_id, ck) := c in
  let col := vector_column p vectorColumnIdx in
  let size := column_size p vectorColumnIdx in
  if negb (chunk_sizes_ok ck) then Err SQLITE_ERROR
  else
    match aget ∅ (db_vectors s) vectorColumnIdx !! chunk_id with
    | None => Err SQLITE_ERROR
    | Some baseVectors =>
        if negb (length baseVectors =? cs * size)%nat then Err SQLITE_ERROR
        else
          b <-? chunk_bitmap arrayRowidsIn aMetadataIn chunk_id ck;
          let chunk_distances :=
            (fun i => if bitmap_test b i then vector_distance col (slice (i * size) size baseVectors) queryVector
                      else f32_zero) <$> seq 0 cs in
          let '(chunk_topk_idxs, used1) := min_idx chunk_distances cs b (min k cs) (bitmap_new cs) in
          let '(tmp_distances, tmp_rowids, used) :=
            merge_sorted_lists (ka_distances acc) (ka_rowids acc) (ka_used acc) chunk_distances
              (chunk_rowids ck) chunk_topk_idxs (min (min k cs) used1) k in
          Ok (MkAcc (tmp_distances ++ drop used (ka_distances acc)) (tmp_rowids ++ drop used (ka_rowids acc)) used)
    end.

Fixpoint res_foldl {A B : Type} (f : B -> A -> res B) (acc : B) (l : list A) : res B :=
  match l with
  | [] => Ok acc
  | x :: l => acc' <-? f acc x; res_foldl f acc' l
  end.

Definition vec0Filter_knn_chunks_iter (chunks : list (Z * chunk_row)) (vectorColumnIdx : nat)
    (arrayRowidsIn : option (list Z)) (aMetadataIn : list Vec0MetadataIn) (queryVector : bytes) (k : nat)
    : res knn_acc :=
  res_foldl (knn_chunk vectorColumnIdx queryVector k arrayRowidsIn aMetadataIn)
    (MkAcc (replicate k f32_zero) (replicate k 0) 0) chunks.

(** ** The rowids for an index search *)

Definition rowid_map_chunk (arrayRowidsIn : option (list Z)) (aMetadataIn : list Vec0MetadataIn)
    (out_map : RowidMap) (c : Z * chunk_row) : res RowidMap :=
  let '(chunk_id, ck) := c in
  if negb (chunk_sizes_ok ck) then Err SQLITE_ERROR
  else
    b <-? chunk_bitmap arrayRowidsIn aMetadataIn chunk_id ck;
    Ok (foldl (fun m i => if bitmap_test b i then rowid_map_add m (rowid_at (ck_rowids ck) i) else m)
          out_map (seq 0 cs)).

Definition vec0Filter_chunks_to_rowid_map `{QSort} (chunks : list (Z * chunk_row))
    (arrayRowidsIn : option (list Z)) (aMetadataIn : list Vec0MetadataIn) (out_map : RowidMap) : res RowidMap :=
  m <-? res_foldl (rowid_map_chunk arrayRowidsIn aMetadataIn) out_map chunks;
  Ok (MkRowidMap (qsort cmp_i64 (take (rm_count m) (rm_rowids m)) ++ drop (rm_count m) (rm_rowids m))
        (rm_capacity m) (rm_count m) (rm_pre_filter m)).

End Chunks.

(** ** The cursor *)

(** A prepared statement: its rows and the current one, [None] before the
    first step and after the last row.  A step after the end starts again. *)
Record stmt := MkStmt { st_rows : list Z; st_current : option nat }.

Definition stmt_step (st : stmt) : stmt :=
  let next := match st_current st with Some i => S i | None => 0%nat end in
  MkStmt (st_rows st) (if (next <? length (st_rows st))%nat then Some next else None).

(** [sqlite3_column_int64(stmt, 0)] *)
Definition stmt_column (st : stmt) : Z :=
  match st_current st with Some i => aget 0 (st_rows st) i | None => 0 end.

Record vec0_query_fullscan_data := MkFullscan { fs_stmt : stmt; fs_done : bool }.

Record vec0_query_knn_data := MkKnn {
  kq_k : Z;
  kq_k_used : nat;
  kq_rowids : list Z;
  kq_distances : list f32;
  kq_current_idx : nat
}.

Record vec0_query_point_data := MkPoint {
  pt_rowid : Z;
  pt_vectors : list bytes;
  pt_done : bool
}.

Record vec0_cursor := MkCursor {
  cu_query_plan : Z;
  cu_fullscan : option vec0_query_fullscan_data;
  cu_knn : option vec0_query_knn_data;
  cu_point : option vec0_query_point_data
}.

Definition vec0Open : vec0_cursor := MkCursor 0 None None None.
Definition vec0_cursor_clear (cur : vec0_cursor) : vec0_cursor := MkCursor (cu_query_plan cur) None None None.

Definition K_EXT : nat := 2.
Definition SQLITE_VEC_VEC0_K_MAX : Z := 4096.

(** ** [xFilter] *)

Section Filter.
Context {I : Type} `{IndexOps I} `{IndexSearch I} `{SqlValues} `{ScanOrder} `{QSort}.
Context (strtod : bytes -> number f64) (s : db I).
Let p := db_vtab s.

(** The column [id TEXT] has TEXT affinity and a parameter has none: a number
    becomes its text before it is compared. *)
Definition text_affinity (v : value) : value :=
  match v with
  | VInt _ | VFloat _ => VText (value_text v)
  | _ => v
  end.

Definition vec0_rowid_from_id (valueId : value) : res Z := rowid_with_id (text_affinity valueId) s.

(** The rowids of [rowid in (...)], in the order of the list. *)
Fixpoint rowids_in (items : list value) : res (list Z) :=
  match items with
  | [] => Ok []
  | item :: items =>
      rowid <-? (if vt_pkIsText p then vec0_rowid_from_id item else Ok (value_int64 item));
      rest <-? rowids_in items;
      Ok (rowid :: rest)
  end.

(** The arrays of the metadata [IN] constraints; [None]: the column is
    neither INTEGER nor TEXT. *)
Fixpoint metadata_ins (idxStr : list Z) (argv : list filter_arg) (es : list nat)
    : res (option (list Vec0MetadataIn)) :=
  match es with
  | [] => Ok (Some [])
  | i :: es =>
      if (idx_kind idxStr i =? VEC0_IDXSTR_KIND_METADATA_CONSTRAINT)
         && (idx_operator idxStr i =? operator_char METADATA_OPERATOR_IN)
      then
        let metadata_idx := idx_column idxStr i in
        let kind := metadata_kind_of p metadata_idx in
        if bool_decide (kind = METADATA_KIND_INTEGER) || bool_decide (kind = METADATA_KIND_TEXT) then
          l <-? arg_in argv i;
          rest <-? metadata_ins idxStr argv es;
          Ok (cons (MkMetadataIn i metadata_idx (metadata_in_of kind l)) <$> rest)
        else Ok None
      else metadata_ins idxStr argv es
  end.

(** The sorted array of the [rowid in (...)] constraint, if there is one. *)
Definition rowid_in_array (idxStr : list Z) (argv : list filter_arg) : res (option (list Z)) :=
  match last_of_kind VEC0_IDXSTR_KIND_KNN_ROWID_IN idxStr (length argv) with
  | None => Ok None
  | Some i => items <-? arg_in argv i; arr <-? rowids_in items; Ok (Some (qsort cmp_i64 arr))
  end.

(** The scan, or the index if it can be searched.  A search of the index
    reads as many floats from the query as the index has dimensions. *)
Definition knn_run (vectorColumnIdx : nat) (idxStr : list Z) (argv : list filter_arg) (q : vector) (k : Z)
    (arrayRowidsIn : option (list Z)) (aMetadataIn : list Vec0MetadataIn) : res vec0_query_knn_data :=
  chunks <-? vec0_chunks_iter s idxStr argv;
  let full :=
    acc <-? vec0Filter_knn_chunks_iter s idxStr argv chunks vectorColumnIdx arrayRowidsIn aMetadataIn
              (vec_bytes q) (Z.to_nat k);
    Ok (MkKnn k (ka_used acc) (ka_rowids acc) (ka_distances acc) 0) in
  match db_index s with
  | None => full
  | Some ix =>
      out_map <-? vec0Filter_chunks_to_rowid_map s idxStr argv chunks arrayRowidsIn aMetadataIn
                    (MkRowidMap (replicate 16 0) 16 0 (ix_pre_filter ix));
      if (length (vec_bytes q) <? ix_dim ix * 4)%nat then Undef
      else
        found <-? ix_search ix (vector_floats (vec_bytes q) (ix_dim ix)) (Z.to_nat k) out_map;
        match found with
        | Some rows => Ok (MkKnn k (length rows) rows.*2 rows.*1 0)
        | None => full
        end
  end.

(** [None]: the result code is [SQLITE_OK] but the cursor gets no data.  An
    error while the [rowid in (...)] list is read is kept in a variable of an
    inner block, and lost. *)
Definition vec0Filter_knn (idxNum : Z) (idxStr : list Z) (argv : list filter_arg)
    : res (option vec0_query_knn_data) :=
  let argc := length argv in
  let vectorColumnIdx := Z.to_nat idxNum in
  let col := vector_column p vectorColumnIdx in
  match last_of_kind VEC0_IDXSTR_KIND_KNN_MATCH idxStr argc, last_of_kind VEC0_IDXSTR_KIND_KNN_K idxStr argc with
  | Some query_idx, Some k_idx =>
      match vector_from_value strtod (arg_sval (arg_at argv query_idx)) with
      | None => Err SQLITE_ERROR
      | Some q =>
          if negb (bool_decide (vec_type q = vc_element_type col)) then Err SQLITE_ERROR
          else if negb (Z.of_nat (vec_dims q) =? vc_dimensions col) then Err SQLITE_ERROR
          else
            let k := value_int64 (arg_value argv k_idx) in
            if k <? 0 then Err SQLITE_ERROR
            else if SQLITE_VEC_VEC0_K_MAX <? k then Err SQLITE_ERROR
            else if k =? 0 then Ok (Some (MkKnn 0 0 [] [] 0))
            else
              match rowid_in_array idxStr argv with
              | Undef => Undef
              | Err _ => Ok None
              | Ok arrayRowidsIn =>
                  ins <-? metadata_ins idxStr argv (seq 0 argc);
                  match ins with
                  | None => Ok None
                  | Some aMetadataIn =>
                      d <-? knn_run vectorColumnIdx idxStr argv q k arrayRowidsIn aMetadataIn;
                      Ok (Some d)
                  end
              end
      end
  | _, _ => Undef      (* assert *)
  end.

(** [ORDER BY chunk_id, chunk_offset]; NULL comes first. *)
Definition position_le (a b : Z * rowid_row) : Prop :=
  match rr_position a.2, rr_position b.2 with
  | None, _ => True
  | Some _, None => False
  | Some (c, off), Some (c', off') => c < c' \/ c = c' /\ (off <= off')%nat
  end.

#[global] Instance position_le_dec (a b : Z * rowid_row) : Decision (position_le a b).
Proof. unfold position_le. repeat case_match; apply _. Defined.

(** The statement is stepped once, to the first row. *)
Definition vec0Filter_fullscan : vec0_query_fullscan_data :=
  let st := stmt_step (MkStmt (merge_sort position_le (scan (db_rowids s))).*1 None) in
  MkFullscan st (bool_decide (st_current st = None)).

Fixpoint point_vectors (rowid : Z) (es : list nat) : res (list bytes) :=
  match es with
  | [] => Ok []
  | i :: es => v <-? vec0_get_vector_data rowid i s; rest <-? point_vectors rowid es; Ok (v :: rest)
  end.

(** A row that does not exist: no row, and no error. *)
Definition vec0Filter_point (argv : list filter_arg) : res vec0_query_point_data :=
  let eof rowid := MkPoint rowid [] true in
  match (if vt_pkIsText p then vec0_rowid_from_id (arg_value argv 0) else Ok (value_int64 (arg_value argv 0))) with
  | Ok rowid =>
      match point_vectors rowid (seq 0 (length (vt_vector_columns p))) with
      | Ok vectors => Ok (MkPoint rowid vectors false)
      | Err rc => if rc =? SQLITE_EMPTY then Ok (eof rowid) else Err rc
      | Undef => Undef
      end
  | Err rc => if rc =? SQLITE_EMPTY then Ok (eof 0) else Err rc
  | Undef => Undef
  end.

Definition vec0Filter (idxNum : Z) (idxStr : list Z) (argv : list filter_arg) (cur : vec0_cursor)
    : res unit * vec0_cursor :=
  let cur := vec0_cursor_clear cur in
  let n := length idxStr in
  if (n <=? 0)%nat then (Err SQLITE_ERROR, cur)
  else if negb ((n - 1) mod 4 =? 0)%nat then (Err SQLITE_ERROR, cur)
  else if negb ((n - 1) / 4 =? length argv)%nat then (Err SQLITE_ERROR, cur)
  else
    let query_plan := aget 0 idxStr 0 in
    if query_plan =? VEC0_QUERY_PLAN_FULLSCAN then
      (Ok tt, MkCursor VEC0_QUERY_PLAN_FULLSCAN (Some vec0Filter_fullscan) None None)
    else if query_plan =? VEC0_QUERY_PLAN_KNN then
      match vec0Filter_knn idxNum idxStr argv with
      | Ok (Some d) => (Ok tt, MkCursor VEC0_QUERY_PLAN_KNN None (Some d) None)
      | Ok None => (Ok tt, cur)
      | Err rc => (Err rc, cur)
      | Undef => (Undef, cur)
      end
    else if query_plan =? VEC0_QUERY_PLAN_POINT then
      match vec0Filter_point argv with
      | Ok d => (Ok tt, MkCursor VEC0_QUERY_PLAN_POINT None None (Some d))
      | Err rc => (Err rc, cur)
      | Undef => (Undef, cur)
      end
    else (Err SQLITE_ERROR, cur).

End Filter.

(** ** Moving the cursor *)

Definition vec0Rowid (cur : vec0_cursor) : res Z :=
  if cu_query_plan cur =? VEC0_QUERY_PLAN_FULLSCAN then
    match cu_fullscan cur with Some d => Ok (stmt_column (fs_stmt d)) | None => Undef end
  else if cu_query_plan cur =? VEC0_QUERY_PLAN_POINT then
    match cu_point cur with Some d => Ok (pt_rowid d) | None => Undef end
  else Err SQLITE_ERROR.

Definition vec0Next (cur : vec0_cursor) : res unit * vec0_cursor :=
  if cu_query_plan cur =? VEC0_QUERY_PLAN_FULLSCAN then
    match cu_fullscan cur with
    | None => (Err SQLITE_ERROR, cur)
    | Some d =>
        let st := stmt_step (fs_stmt d) in
        (Ok tt, MkCursor (cu_query_plan cur)
                  (Some (MkFullscan st (fs_done d || bool_decide (st_current st = None)))) (cu_knn cur) (cu_point cur))
    end
  else if cu_query_plan cur =? VEC0_QUERY_PLAN_KNN then
    match cu_knn cur with
    | None => (Err SQLITE_ERROR, cur)
    | Some d =>
        (Ok tt, MkCursor (cu_query_plan cur) (cu_fullscan cur)
                  (Some (MkKnn (kq_k d) (kq_k_used d) (kq_rowids d) (kq_distances d) (S (kq_current_idx d))))
                  (cu_point cur))
    end
  else if cu_query_plan cur =? VEC0_QUERY_PLAN_POINT then
    match cu_point cur with
    | None => (Err SQLITE_ERROR, cur)
    | Some d =>
        (Ok tt, MkCursor (cu_query_plan cur) (cu_fullscan cur) (cu_knn cur)
                  (Some (MkPoint (pt_rowid d) (pt_vectors d) true)))
    end
  else (Err SQLITE_ERROR, cur).

Definition vec0Eof (cur : vec0_cursor) : bool :=
  if cu_query_plan cur =? VEC0_QUERY_PLAN_FULLSCAN then
    match cu_fullscan cur with Some d => fs_done d | None => true end
  else if cu_query_plan cur =? VEC0_QUERY_PLAN_KNN then
    match cu_knn cur with Some d => (kq_k_used d <=? kq_current_idx d)%nat | None => true end
  else if cu_query_plan cur =? VEC0_QUERY_PLAN_POINT then
    match cu_point cur with Some d => pt_done d | None => true end
  else true.

(** ** [xColumn] *)

(** What a column function sets; nothing set reads as NULL.  An error is
    the function's result code or the one set on the context. *)
Inductive column_result :=
| CUnset
| CNull
| CValue (v : value)
| CBlob (b : bytes) (subtype : Z)
| CDouble (d : f64).

Section Column.
Context {I : Type} (s : db I).
Let p := db_vtab s.

Definition result_vector (vector_idx : nat) (b : bytes) : column_result :=
  CBlob b (element_code (vc_element_type (vector_column p vector_idx))).

Definition result_value (r : res value) : res column_result := v <-? r; Ok (CValue v).

(** The columns read from the shadow tables by rowid. *)
Definition vector_result (rowid : Z) (i : Z) : res column_result :=
  let vector_idx := vec0_column_idx_to_idx p i in
  v <-? vec0_get_vector_data rowid vector_idx s; Ok (result_vector vector_idx v).
Definition partition_result (rowid : Z) (i : Z) : res column_result :=
  result_value (vec0_get_partition_value_for_rowid rowid (vec0_column_idx_to_idx p i) s).
Definition auxiliary_result (rowid : Z) (i : Z) : res column_result :=
  result_value (vec0_get_auxiliary_value_for_rowid rowid (vec0_column_idx_to_idx p i) s).
Definition metadata_result (rowid : Z) (i : Z) : res column_result :=
  result_value (vec0_result_metadata_value_for_rowid rowid (vec0_column_idx_to_idx p i) s).

(** [nochange]: [sqlite3_vtab_nochange], the column of an [UPDATE] that does
    not change it. *)
Definition vec0Column_fullscan (d : vec0_query_fullscan_data) (nochange : bool) (i : Z) : res column_result :=
  let rowid := stmt_column (fs_stmt d) in
  if i =? VEC0_COLUMN_ID then result_value (vec0_result_id rowid s)
  else if vec0_column_idx_is_vector p i then vector_result rowid i
  else if i =? vec0_column_distance_idx p then Ok CNull
  else if vec0_column_idx_is_partition p i then partition_result rowid i
  else if vec0_column_idx_is_auxiliary p i then auxiliary_result rowid i
  else if vec0_column_idx_is_metadata p i then
    if nochange then Ok CUnset else metadata_result rowid i
  else Ok CUnset.

Definition vec0Column_point (d : vec0_query_point_data) (nochange : bool) (i : Z) : res column_result :=
  let rowid := pt_rowid d in
  if i =? VEC0_COLUMN_ID then result_value (vec0_result_id rowid s)
  else if i =? vec0_column_distance_idx p then Ok CNull
  else if vec0_column_idx_is_vector p i then
    let vector_idx := vec0_column_idx_to_idx p i in
    Ok (if nochange then CNull else result_vector vector_idx (aget [] (pt_vectors d) vector_idx))
  else if vec0_column_idx_is_partition p i then if nochange then Ok CUnset else partition_result rowid i
  else if vec0_column_idx_is_auxiliary p i then if nochange then Ok CUnset else auxiliary_result rowid i
  else if vec0_column_idx_is_metadata p i then if nochange then Ok CUnset else metadata_result rowid i
  else Ok CUnset.

Definition vec0Column_knn (d : vec0_query_knn_data) (i : Z) : res column_result :=
  let rowid := aget 0 (kq_rowids d) (kq_current_idx d) in
  if i =? VEC0_COLUMN_ID then result_value (vec0_result_id rowid s)
  else if i =? vec0_column_distance_idx p then
    Ok (CDouble (f64_of_f32 (aget f32_zero (kq_distances d) (kq_current_idx d))))
  else if vec0_column_idx_is_vector p i then vector_result rowid i
  else if vec0_column_idx_is_partition p i then partition_result rowid i
  else if vec0_column_idx_is_auxiliary p i then auxiliary_result rowid i
  else if vec0_column_idx_is_metadata p i then metadata_result rowid i
  else Ok CUnset.

Definition vec0Column (cur : vec0_cursor) (nochange : bool) (i : Z) : res column_result :=
  if cu_query_plan cur =? VEC0_QUERY_PLAN_FULLSCAN then
    match cu_fullscan cur with Some d => vec0Column_fullscan d nochange i | None => Err SQLITE_ERROR end
  else if cu_query_plan cur =? VEC0_QUERY_PLAN_KNN then
    match cu_knn cur with Some d => vec0Column_knn d i | None => Err SQLITE_ERROR end
  else if cu_query_plan cur =? VEC0_QUERY_PLAN_POINT then
    match cu_point cur with Some d => vec0Column_point d nochange i | None => Err SQLITE_ERROR end
  else Ok CUnset.

End Column.

(** ** The loop of the caller

    [while (!xEof) { visit; xNext }], as SQLite drives a cursor; [visit] is
    what it reads of the current row. *)
Section Drive.
Context {A : Type} (visit : vec0_cursor -> A).

Fixpoint drive (fuel : nat) (cur : vec0_cursor) : option (list A) :=
  if vec0Eof cur then Some []
  else match fuel with
       | O => None
       | S fuel =>
           match vec0Next cur with
           | (Ok _, cur') => rest ← drive fuel cur'; Some (visit cur :: rest)
           | _ => None
           end
       end.

End Drive.
