(* ===== verification/QuerySpec.v ===== *)
(** * Correctness of queries

    The rows of a KNN query without an index are the nearest of the rows
    that satisfy the constraints; the rowid filter handed to an index holds
    exactly these rows; the cursor visits each row once and stops. *)

From stdpp Require Import base option list numbers gmap sorting sets.
From Stdlib Require Import ZArith Lia SpecFloat.
From S2P Require Import Prelude Float32 Bitmap TopK CLib Distance Codec Shadow DefParser Metadata Values Storage.
From S2P Require Import Table Filter Plan Query.

Local Open Scope Z_scope.
Local Open Scope query_scope.

(** ** Bitmaps *)

Lemma land_byte (a b : Z) : is_byte a -> is_byte b -> is_byte (Z.land a b).
Proof.
  unfold is_byte. intros Ha Hb. replace (Z.land a b) with (Z.land a b mod 2 ^ 8); [apply Z.mod_pos_bound; lia|].
  rewrite <- Z.land_ones, <- Z.land_assoc, Z.land_ones by lia. by rewrite Z.mod_small.
Qed.

Lemma bitmap_and_loop_bytes (other : list Z) (k i : nat) (base : list Z) :
  Forall is_byte base -> Forall is_byte other -> Forall is_byte (bitmap_and_loop base other i k).
Proof.
  intros Hb Ho. revert base i Hb. induction k as [|k IH]; intros base i Hb; [done|]. cbn [bitmap_and_loop].
  apply IH. apply Forall_insert; [done|]. by apply land_byte; apply bytes_ok_aget.
Qed.

Lemma bitmap_and_wf (n : nat) (a b : list Z) :
  bitmap_wf n a -> bitmap_wf n b -> bitmap_wf n (bitmap_and_inplace a b n).
Proof.
  intros [Hl Hb] [_ Ho]. unfold bitmap_and_inplace. split; [by rewrite length_bitmap_and_loop|].
  by apply bitmap_and_loop_bytes.
Qed.

Lemma bitmap_copy_wf (n : nat) (a b : list Z) : bitmap_wf n a -> bitmap_wf n b -> bitmap_wf n (bitmap_copy a b n).
Proof.
  intros Ha Hb. unfold bitmap_copy. rewrite (bitmap_wf_div _ _ Hb), take_ge by lia.
  rewrite drop_ge, app_nil_r by (destruct Ha, Hb; lia). done.
Qed.

Lemma bitmap_new_clear (cs : nat) : (cs mod 8 = 0)%nat -> zero_bitmap cs (bitmap_clear (bitmap_new cs) cs).
Proof.
  intros Hcs. destruct (bitmap_new_zero cs Hcs) as [Hw _]. split; [by apply bitmap_clear_wf|].
  intros i Hi. by apply bitmap_test_clear.
Qed.

(** ** Selections *)

Lemma seq_below (n : nat) : Forall (fun i => (i < n)%nat) (seq 0 n).
Proof. apply Forall_forall. intros i Hi%elem_of_seq. lia. Qed.

Lemma fmap_aget_seq {A B : Type} (f : A -> B) (d : A) (l : list A) :
  (fun i => f (aget d l i)) <$> seq 0 (length l) = f <$> l.
Proof.
  apply list_eq. intros i. rewrite !list_lookup_fmap. destruct (decide (i < length l)%nat) as [Hi|Hi].
  - rewrite lookup_seq_lt, (aget_lookup_lt d) by done. done.
  - rewrite lookup_seq_ge, (lookup_ge_None_2 l) by lia. done.
Qed.

Lemma StronglySorted_image {A B : Type} (d : A -> f32) (e : B -> f32) (g : A -> B) (l : list A) :
  (forall x, x ∈ l -> e (g x) = d x) -> StronglySorted (le_by d) l -> StronglySorted (le_by e) (g <$> l).
Proof.
  intros He Hs. induction Hs as [|x l Hs IH Hx]; [constructor|]. rewrite fmap_cons. constructor.
  - apply IH. intros y Hy. apply He. set_solver.
  - apply Forall_fmap. rewrite Forall_forall in Hx |- *. intros y Hy. unfold compose, le_by.
    rewrite !He by set_solver. by apply Hx.
Qed.

Definition acc_rows (acc : knn_acc) : list (f32 * Z) := rows_a (ka_distances acc) (ka_rowids acc) (ka_used acc).

(** The running result is the best of the candidates so far, in order. *)
Definition acc_best (k : nat) (cands : list (f32 * Z)) (acc : knn_acc) : Prop :=
  all_num fst cands /\ topk_of fst k cands (acc_rows acc) /\ StronglySorted (le_by fst) (acc_rows acc).

Lemma acc_rows_prefix (out : list (f32 * Z)) (ds : list f32) (rs : list Z) :
  acc_rows (MkAcc (out.*1 ++ ds) (out.*2 ++ rs) (length out)) = out.
Proof.
  unfold acc_rows, rows_a. cbn [ka_distances ka_rowids ka_used].
  transitivity ((fun i => id (aget (f32_zero, 0) out i)) <$> seq 0 (length out)); [|by rewrite fmap_aget_seq, list_fmap_id].
  apply fmap_seq0_ext. intros i Hi. rewrite !aget_app_l by (by rewrite length_fmap).
  unfold aget. rewrite !list_lookup_fmap. destruct (lookup_lt_is_Some_2 out i Hi) as [[x y] ->]. done.
Qed.

Lemma acc_best_merge (k : nat) (cands : list (f32 * Z)) (acc : knn_acc) (d : list f32) (rows : list Z)
    (cs : nat) (b t : bytes) :
  acc_best k cands acc -> bitmap_wf cs t ->
  let g := fun i => (aget f32_zero d i, aget 0 rows i) in
  all_num fst (g <$> candidate_idxs cs b) ->
  let '(idxs, used1) := min_idx d cs b (min k cs) t in
  let '(ds, rs, used) := merge_sorted_lists (ka_distances acc) (ka_rowids acc) (ka_used acc) d rows idxs
                           (min (min k cs) used1) k in
  acc_best k (cands ++ (g <$> candidate_idxs cs b))
    (MkAcc (ds ++ drop used (ka_distances acc)) (rs ++ drop used (ka_rowids acc)) used).
Proof.
  intros (Hn & Ht & Hs) Htk g Hng.
  assert (Hnum : forall j, j ∈ candidate_idxs cs b -> is_nan (aget f32_zero d j) = false).
  { intros j Hj. apply (Hng (g j)). by apply list_elem_of_fmap_2. }
  pose proof (min_idx_topk_of d cs b (min k cs) t Htk Hnum) as Hm.
  destruct (min_idx d cs b (min k cs) t) as [idxs used1]. destruct Hm as (Hti & Hsi & ->).
  assert (Hlen : (length idxs <= min k cs)%nat) by (destruct Hti as (? & _ & -> & _); lia).
  rewrite Nat.min_r by lia. unfold merge_sorted_lists. rewrite merge_loop_reference, !drop_0.
  fold (acc_rows acc).
  assert (Hrb : rows_b d rows idxs (length idxs) = g <$> idxs) by apply (fmap_aget_seq g 0%nat).
  rewrite Hrb. set (out := take k _).
  assert (Htb : topk_of fst k (g <$> candidate_idxs cs b) (g <$> idxs)).
  { apply (topk_of_bound fst k cs).
    - rewrite length_fmap. unfold candidate_idxs. rewrite length_filter, length_seq. done.
    - by apply (topk_of_fmap (aget f32_zero d)). }
  assert (Hsb : StronglySorted (le_by fst) (g <$> idxs)) by (by apply (StronglySorted_image (aget f32_zero d))).
  assert (Hms : StronglySorted (le_by fst) (merge_rows (acc_rows acc) (g <$> idxs)))
    by (apply merge_rows_sorted; [by eapply all_num_topk..|done|done]).
  split; [by apply all_num_app|]. subst out. rewrite acc_rows_prefix. split.
  - eapply topk_of_app; [exact Ht|exact Htb|]. eapply topk_of_Permutation; [apply merge_rows_Permutation|done|].
    by apply topk_of_take_sorted.
  - rewrite <- (take_drop k (merge_rows _ _)) in Hms. by apply StronglySorted_app_1_l in Hms.
Qed.

(** ** Filling a rowid map *)

Lemma rowid_map_add_all (test : nat -> bool) (f : nat -> Z) (l : list nat) (m : RowidMap) :
  rowid_map_wf m ->
  let m' := foldl (fun m i => if test i then rowid_map_add m (f i) else m) m l in
  rowid_map_wf m' /\ rowid_map_elems m' = rowid_map_elems m ++ (f <$> filter (fun i => test i = true) l) /\
  rm_pre_filter m' = rm_pre_filter m.
Proof.
  revert m. induction l as [|i l IH]; intros m Hm; cbn [foldl].
  - split; [done|]. by rewrite app_nil_r.
  - rewrite filter_cons. destruct (test i) eqn:E.
    + destruct (rowid_map_add_spec m (f i) Hm) as [Hw He]. destruct (IH _ Hw) as (H1 & H2 & H3).
      split; [done|]. rewrite H2, He, H3, decide_True, fmap_cons, <- app_assoc by done. split; [done|].
      unfold rowid_map_add. by destruct (_ <=? _)%nat.
    + rewrite decide_False by congruence. by apply IH.
Qed.

(** ** Reading the plan *)

Lemma length_item_chars (it : plan_item) : length (item_chars it) = 4%nat.
Proof. by destruct it. Qed.

(** The string of a list of items, as [xFilter] gets it. *)
Definition plan_str (its : list plan_item) : list Z := VEC0_QUERY_PLAN_KNN :: concat (item_chars <$> its).

Lemma length_plan_str (its : list plan_item) : length (plan_str its) = (1 + length its * 4)%nat.
Proof.
  unfold plan_str. cbn [length]. f_equal. induction its as [|it its IH]; [done|]. cbn [fmap list_fmap concat].
  rewrite length_app, IH, length_item_chars. cbn. lia.
Qed.

Lemma concat_char (its : list plan_item) (i j : nat) (it : plan_item) :
  its !! i = Some it -> (j < 4)%nat -> concat (item_chars <$> its) !! (i * 4 + j)%nat = item_chars it !! j.
Proof.
  revert i. induction its as [|it' its IH]; intros [|i] Hi Hj; try done; rewrite fmap_cons; cbn [concat].
  - injection Hi as ->. by rewrite lookup_app_l by (rewrite length_item_chars; lia).
  - rewrite lookup_app_r by (rewrite length_item_chars; lia). rewrite length_item_chars.
    rewrite <- (IH i Hi) by done. f_equal. lia.
Qed.

Lemma plan_char (its : list plan_item) (i j : nat) (it : plan_item) :
  its !! i = Some it -> (j < 4)%nat -> aget 0 (plan_str its) (1 + i * 4 + j) = aget 0 (item_chars it) j.
Proof. intros Hi Hj. unfold aget. by rewrite <- (concat_char its i j it Hi Hj). Qed.

Definition item_kind (it : plan_item) : Z := aget 0 (item_chars it) 0.

Section Items.
Context (its : list plan_item).
Let idxStr := plan_str its.

Lemma plan_kind (i : nat) (it : plan_item) : its !! i = Some it -> idx_kind idxStr i = item_kind it.
Proof. intros Hi. unfold idx_kind, item_kind. rewrite <- (plan_char its i 0 it Hi) by lia. f_equal. lia. Qed.

Lemma plan_column (i idx : nat) (op : vec0_metadata_operator) :
  its !! i = Some (PPartition idx op) \/ its !! i = Some (PMetadata idx op) ->
  idx_column idxStr i = idx /\ idx_operator idxStr i = operator_char op.
Proof.
  unfold idx_column, idx_operator, idxStr. intros [Hi|Hi];
    rewrite (plan_char its i 1 _ Hi), (plan_char its i 2 _ Hi) by lia; cbn; (split; [|done]); unfold CHAR_A; lia.
Qed.

End Items.

(** ** What a query means *)

Section Meaning.
Context {I : Type} `{SqlValues} (s : db I).

(** A constraint on the key compares the rowid, or in a table with TEXT keys the
    id, with the text of a number. *)
Definition row_has_id (r : Z) (v : value) : bool :=
  if vt_pkIsText (db_vtab s)
  then match db_rowids s !! r with Some row => sql_eq (rr_id row) (text_affinity v) | None => false end
  else r =? value_int64 v.

Definition item_metadata_filter (op : vec0_metadata_operator) (a : filter_arg) : metadata_filter :=
  match op, a with
  | METADATA_OPERATOR_IN, ArgIn l => FIn l
  | _, _ => FCompare op (sv_value (arg_sval a))
  end.

(** The row satisfies the constraint, in terms of what its readers return. *)
Definition item_holds (it : plan_item) (a : filter_arg) (r : Z) : bool :=
  match it with
  | PMatch | PK => true
  | PRowidIn => match a with ArgIn l => existsb (row_has_id r) l | ArgValue _ => false end
  | PPartition idx op =>
      match vec0_get_partition_value_for_rowid r idx s with
      | Ok v => sql_condition op v (sv_value (arg_sval a))
      | _ => false
      end
  | PMetadata idx op =>
      match vec0_result_metadata_value_for_rowid r idx s with
      | Ok v => filter_holds (item_metadata_filter op a) v
      | _ => false
      end
  end.

Definition row_matches (its : list plan_item) (argv : list filter_arg) (r : Z) : bool :=
  forallb (fun q => item_holds q.1 q.2 r) (zip its argv).

Definition row_data (i : nat) (r : Z) : bytes :=
  match vec0_get_vector_data r i s with Ok b => b | _ => [] end.

(** Distance to the query and rowid of a row. *)
Definition knn_row (i : nat) (q : bytes) (r : Z) : f32 * Z :=
  (vector_distance (vector_column (db_vtab s) i) (row_data i r) q, r).

(** The rows a KNN query chooses from. *)
Definition knn_candidates (its : list plan_item) (argv : list filter_arg) (i : nat) (q : bytes) : list (f32 * Z) :=
  knn_row i q <$> filter (fun r => row_matches its argv r = true) (elements (dom (db_rowids s))).

(** Queries the theorems are about: operands of the columns' types, every id
    of a [rowid IN] list present in a table with TEXT keys. *)
Record query_ok (its : list plan_item) (argv : list filter_arg) : Prop := {
  qo_length : length argv = length its;
  qo_chunks : db_chunks_seq s < 2 ^ 31;
  qo_partition : forall i idx op, its !! i = Some (PPartition idx op) -> op <> METADATA_OPERATOR_IN;
  qo_metadata : forall i idx op a, its !! i = Some (PMetadata idx op) -> argv !! i = Some a ->
    let f := item_metadata_filter op a in
    (idx < length (vt_metadata_kinds (db_vtab s)))%nat /\ filter_ok (metadata_kind_of (db_vtab s) idx) f /\
    filter_op f = op /\
    forall r v, vec0_result_metadata_value_for_rowid r idx s = Ok v -> value_safe f v;
  qo_rowid_in : forall i, its !! i = Some PRowidIn -> exists l, argv !! i = Some (ArgIn l) /\
    (vt_pkIsText (db_vtab s) = true -> Forall (fun v => exists r, row_has_id r v = true) l);
  qo_one_in : forall i j, its !! i = Some PRowidIn -> its !! j = Some PRowidIn -> i = j
}.

Lemma row_matches_iff (its : list plan_item) (argv : list filter_arg) (r : Z) :
  row_matches its argv r = true <->
  forall i it a, its !! i = Some it -> argv !! i = Some a -> item_holds it a r = true.
Proof.
  unfold row_matches. rewrite forallb_forall. split.
  - intros Hf i it a Hi Ha. apply (Hf (it, a)), list_elem_of_In, list_elem_of_lookup. exists i.
    by rewrite lookup_zip_with, Hi, Ha.
  - intros Hf [it a] Hx%list_elem_of_In. apply list_elem_of_lookup in Hx as [i Hi].
    rewrite lookup_zip_with in Hi. destruct (its !! i) as [it'|] eqn:E1; [|done].
    destruct (argv !! i) as [a'|] eqn:E2; [|done]. injection Hi as -> ->. by apply (Hf i).
Qed.

End Meaning.

(** ** The chunks *)

Section ChunkSpec.
Context {I : Type} `{SqlValues} (s : db I) (Hw : db_wf s) (its : list plan_item) (argv : list filter_arg).
Context (Hq : query_ok s its argv).
Let cs := vt_chunk_size (db_vtab s).
Let idxStr := plan_str its.

Definition partition_holds (ck : chunk_row) (i : nat) : bool :=
  match its !! i with
  | Some (PPartition idx op) => sql_condition op (aget VNull (ck_partition ck) idx) (arg_value argv i)
  | _ => true
  end.

Lemma partition_operator_char (op : vec0_metadata_operator) :
  op <> METADATA_OPERATOR_IN -> partition_operator (operator_char op) = Some op.
Proof. by destruct op. Qed.

Lemma item_at (i : nat) : (i < length argv)%nat -> exists it, its !! i = Some it.
Proof. intros Hi. apply lookup_lt_is_Some_2. by rewrite <- (qo_length _ _ _ Hq). Qed.

Lemma partition_kind (i : nat) (it : plan_item) : its !! i = Some it ->
  (idx_kind idxStr i =? VEC0_IDXSTR_KIND_KNN_PARTITON_CONSTRAINT) =
    match it with PPartition _ _ => true | _ => false end.
Proof. intros Hi. unfold idxStr. rewrite (plan_kind its i it Hi). by destruct it. Qed.

Lemma metadata_kind_char (i : nat) (it : plan_item) : its !! i = Some it ->
  (idx_kind idxStr i =? VEC0_IDXSTR_KIND_METADATA_CONSTRAINT) =
    match it with PMetadata _ _ => true | _ => false end.
Proof. intros Hi. unfold idxStr. rewrite (plan_kind its i it Hi). by destruct it. Qed.

Lemma partition_where_holds (ck : chunk_row) (es : list nat) :
  Forall (fun i => (i < length argv)%nat) es ->
  partition_where idxStr argv es ck = Some (forallb (partition_holds ck) es).
Proof.
  induction 1 as [|i es Hi _ IH]; [done|]. cbn [partition_where forallb].
  destruct (item_at i Hi) as [it Hit]. rewrite (partition_kind i it Hit). unfold partition_holds at 1. rewrite Hit.
  destruct it as [| | |idx op|idx op]; try exact IH.
  destruct (plan_column its i idx op (or_introl Hit)) as [Ec Eo]. fold idxStr in Ec, Eo. rewrite Ec, Eo.
  rewrite partition_operator_char by (by apply (qo_partition _ _ _ Hq i idx)). cbn. by rewrite IH.
Qed.

Lemma chunks_iter_ok `{ScanOrder} :
  vec0_chunks_iter s idxStr argv =
  Ok (filter (fun c => forallb (partition_holds c.2) (seq 0 (length argv)) = true) (scan (db_chunks s))).
Proof.
  unfold vec0_chunks_iter. rewrite (proj2 (forallb_forall _ _)).
  - f_equal. apply list_filter_iff. intros c. rewrite partition_where_holds by apply seq_below.
    split; [by intros [= ->]|by intros ->].
  - intros i Hi%list_elem_of_In%elem_of_seq. destruct (item_at i) as [it Hit]; [lia|].
    rewrite (partition_kind i it Hit). destruct it as [| | |idx op|idx op]; try done. cbn [negb orb].
    destruct (plan_column its i idx op (or_introl Hit)) as [_ Eo]. fold idxStr in Eo. rewrite Eo.
    rewrite partition_operator_char by (by apply (qo_partition _ _ _ Hq i idx)). done.
Qed.

(** ** The bitmap of a chunk *)

Section Bits.
Context (c : Z) (ck : chunk_row) (Hck : db_chunks s !! c = Some ck).

(** The set bits are the slots of rows that satisfy [P]. *)
Definition bits_of (b : bytes) (P : Z -> Prop) : Prop :=
  bitmap_wf cs b /\
  forall off, (off < cs)%nat ->
    (bitmap_test b off = true <-> exists r, slot (db_rowids s) r c off /\ P r).

Lemma bits_of_and (b bm : bytes) (P : Z -> Prop) (Q : Z -> bool) :
  bits_of b P -> bitmap_wf cs bm ->
  (forall r off, slot (db_rowids s) r c off -> bitmap_test bm off = Q r) ->
  bits_of (bitmap_and_inplace b bm cs) (fun r => P r /\ Q r = true).
Proof.
  intros [Hb HP] Hbm HQ. split; [by apply bitmap_and_wf|]. intros off Hoff.
  rewrite bitmap_test_and, andb_true_iff, HP by done. split.
  - intros [(r & Hs & Hr) Hm]. exists r. split; [done|]. split; [done|]. by rewrite <- (HQ r off).
  - intros (r & Hs & Hr & Hm). split; [by exists r|]. by rewrite (HQ r off).
Qed.

Lemma bits_of_iff (b : bytes) (P Q : Z -> Prop) :
  bits_of b P -> (forall r, r ∈ dom (db_rowids s) -> P r <-> Q r) -> bits_of b Q.
Proof.
  intros [Hb HP] HQ. split; [done|]. intros off Hoff. rewrite HP by done.
  split; intros (r & Hr & Hp); exists r; (split; [done|]); apply HQ; try done; destruct Hr as [id E];
    apply elem_of_dom; by eexists.
Qed.

Lemma slot_lt (r : Z) (off : nat) : slot (db_rowids s) r c off -> (off < cs)%nat.
Proof. intros [id E]. by destruct (wf_rows s Hw _ _ E) as (? & ? & ck' & [= <- <-] & _ & Hoff & _). Qed.

Lemma slot_valid (off : nat) : (off < cs)%nat ->
  bitmap_test (ck_validity ck) off = true <-> exists r, slot (db_rowids s) r c off.
Proof.
  intros Hoff. split; [by apply (wf_slots s Hw c ck off Hck Hoff)|].
  intros (r & id & E). destruct (wf_rows s Hw _ _ E) as (? & ? & ck' & [= <- <-] & Hc & _ & Hv & _).
  rewrite Hck in Hc. by injection Hc as <-.
Qed.

Lemma validity_bits : bits_of (bitmap_copy (bitmap_clear (bitmap_new cs) cs) (ck_validity ck) cs) (fun _ => True).
Proof.
  destruct (bitmap_new_clear cs (sw_size8 _ (wf_schema s Hw))) as [Hz _].
  destruct (wf_chunk s Hw c ck Hck) as (_ & Hv & _). split; [by apply bitmap_copy_wf|].
  intros off Hoff. rewrite bitmap_test_copy, slot_valid by done. split; intros (r & Hr); exists r; naive_solver.
Qed.

Lemma slot_rowid (r : Z) (off : nat) : slot (db_rowids s) r c off -> rowid_at (ck_rowids ck) off = r.
Proof.
  intros [id E]. destruct (wf_rows s Hw _ _ E) as (? & ? & ck' & [= <- <-] & Hc & Hoff & _ & R).
  rewrite Hck in Hc. injection Hc as <-. unfold rowid_at, blob_read in *.
  destruct (_ <=? _)%nat; [|done]. apply (inj Some) in R. rewrite R.
  rewrite <- (app_nil_r (enc_le 8 r)), dec_enc_i64; [done|]. apply (wf_range s Hw r _ E).
Qed.

(** [rowid in (...)] *)
Lemma rowids_bitmap_spec (arr : list Z) (n i : nat) (b : bytes) :
  StronglySorted Z.le arr -> bitmap_wf cs b -> (i + n = cs)%nat ->
  (forall off, (i <= off < cs)%nat -> bitmap_test b off = false) ->
  let b' := rowids_bitmap arr ck i n b in
  bitmap_wf cs b' /\ (forall off, (off < i)%nat -> bitmap_test b' off = bitmap_test b off) /\
  forall r off, (i <= off)%nat -> slot (db_rowids s) r c off -> bitmap_test b' off = bool_decide (r ∈ arr).
Proof.
  intros Hs. revert i b. induction n as [|n IH]; intros i b Hb Hn Hz; cbn [rowids_bitmap].
  - split; [done|]. split; [done|]. intros r off Hi Hr. apply slot_lt in Hr. lia.
  - set (b1 := if bitmap_test (ck_validity ck) i then _ else b).
    assert (Hb1 : bitmap_wf cs b1) by (subst b1; destruct (bitmap_test _ i); [by apply bitmap_set_wf|done]).
    assert (Hne : forall off, off <> i -> bitmap_test b1 off = bitmap_test b off).
    { intros off Ho. subst b1. destruct (bitmap_test (ck_validity ck) i); [|done].
      destruct Hb. by apply bitmap_test_set_ne; [|lia..]. }
    destruct (IH (S i) b1 Hb1) as (H1 & H2 & H3); [lia|intros off Ho; rewrite Hne by lia; apply Hz; lia|].
    split; [done|]. split; [intros off Ho; rewrite H2, Hne by lia; done|].
    intros r off Ho Hr. destruct (decide (off = i)) as [->|]; [|apply H3; [lia|done]].
    rewrite H2 by lia. subst b1. rewrite (proj2 (slot_valid i ltac:(lia))) by (by exists r).
    rewrite bitmap_test_set_eq, (slot_rowid r i Hr) by (destruct Hb; lia).
    apply eq_bool_prop_intro. rewrite bool_decide_spec. pose proof (bsearch_i64_iff r arr Hs) as Hiff.
    destruct (bsearch_i64 r arr (length arr)); cbn; naive_solver.
Qed.

Lemma rowid_in_bits (arr : list Z) (b : bytes) (P : Z -> Prop) :
  StronglySorted Z.le arr -> bits_of b P ->
  bits_of (bitmap_and_inplace b (rowids_bitmap arr ck 0 cs (bitmap_clear (bitmap_new cs) cs)) cs)
    (fun r => P r /\ bool_decide (r ∈ arr) = true).
Proof.
  intros Hs HP. destruct (bitmap_new_clear cs (sw_size8 _ (wf_schema s Hw))) as [Hz Hzero].
  destruct (rowids_bitmap_spec arr cs 0 _ Hs Hz) as (H1 & _ & H3); [done|intros off Ho; apply Hzero; lia|].
  apply bits_of_and; [done|done|]. intros r off Hr. apply H3; [lia|done].
Qed.

(** Metadata constraints *)

Context (aMetadataIn : list Vec0MetadataIn).
Hypothesis Hins : forall i idx l, its !! i = Some (PMetadata idx METADATA_OPERATOR_IN) ->
  argv !! i = Some (ArgIn l) -> exists x, find_metadata_in aMetadataIn i = Some x /\
    mi_array x = metadata_in_of (metadata_kind_of (db_vtab s) idx) l.

Lemma chunk_in_i32 : in_i32 c.
Proof.
  pose proof (proj1 (wf_upto s Hw c) ltac:(by eexists)). pose proof (qo_chunks _ _ _ Hq). unfold in_i32. lia.
Qed.

Lemma metadata_in_ok (i idx : nat) (op : vec0_metadata_operator) (a : filter_arg) :
  its !! i = Some (PMetadata idx op) -> argv !! i = Some a ->
  in_array_ok s idx (item_metadata_filter op a) aMetadataIn i.
Proof.
  intros Hi Ha. destruct (qo_metadata _ _ _ Hq i idx op a Hi Ha) as (_ & _ & Ho & _).
  destruct op; cbn in *; try done. destruct a as [v|l]; cbn in *; [done|]. by apply Hins.
Qed.

Lemma metadata_filters_bits (es : list nat) (b : bytes) (P : Z -> Prop) :
  Forall (fun i => (i < length argv)%nat) es -> bits_of b P ->
  exists b', metadata_filters s idxStr argv aMetadataIn c es b = Ok b' /\
    bits_of b' (fun r => P r /\ forall i idx op a, i ∈ es -> its !! i = Some (PMetadata idx op) ->
                           argv !! i = Some a -> item_holds s (PMetadata idx op) a r = true).
Proof.
  intros Hes. revert b P. induction Hes as [|i es Hi _ IH]; intros b P HP.
  { exists b. split; [done|]. eapply bits_of_iff; [exact HP|]. intros r _. split; [|tauto].
    intros Hr. split; [done|]. intros j idx op a Hj. by apply elem_of_nil in Hj. }
  cbn [metadata_filters]. destruct (item_at i Hi) as [it Hit]. rewrite (metadata_kind_char i it Hit).
  assert (Hskip : (forall idx op, it <> PMetadata idx op) -> exists b', metadata_filters s idxStr argv aMetadataIn c es b = Ok b' /\
    bits_of b' (fun r => P r /\ forall j idx op a, j ∈ i :: es -> its !! j = Some (PMetadata idx op) ->
                           argv !! j = Some a -> item_holds s (PMetadata idx op) a r = true)).
  { intros Hne. destruct (IH b P HP) as (b' & E & Hb'). exists b'. split; [done|].
    eapply bits_of_iff; [exact Hb'|]. intros r _. split; intros [Hr Hall]; (split; [done|]).
    - intros j idx op a [->|Hj]%elem_of_cons Hj'; [|by apply Hall]. congruence.
    - intros j idx op a Hj. apply Hall. set_solver. }
  destruct it as [| | |idx op|idx op]; try (by apply Hskip). clear Hskip.
  destruct (plan_column its i idx op (or_intror Hit)) as [Ec Eo]. fold idxStr in Ec, Eo. rewrite Ec, Eo.
  destruct (lookup_lt_is_Some_2 argv i Hi) as [a Ha].
  destruct (qo_metadata _ _ _ Hq i idx op a Hit Ha) as (Hidx & Hf & Ho & Hsafe).
  destruct (lookup_lt_is_Some_2 (db_metadata s) idx) as [m Hm]; [by rewrite (wf_metadata_len s Hw)|].
  rewrite Hm, metadata_operator_char. set (f := item_metadata_filter op a) in *.
  destruct (filter_spec s Hw c ck Hck idx m Hm f aMetadataIn i (bitmap_clear (bitmap_new cs) cs))
    as (bm & Eb & Hbm & Hbits); [apply chunk_in_i32|by apply bitmap_new_clear, (sw_size8 _ (wf_schema s Hw))
      |exact Hf|by apply metadata_in_ok|intros r off v _; apply Hsafe|].
  assert (Hv : arg_value argv i = filter_value f).
  { unfold arg_value, arg_at. rewrite (aget_lookup _ _ _ _ Ha). subst f. by destruct op, a. }
  unfold filter_result in Eb. rewrite Ho, <- Hv in Eb. unfold metadata_kind_of in *. unfold metadata_kind_at in Eb.
  fold cs in Eb |- *. rewrite Eb. cbn [res_bind].
  destruct (IH _ _ (bits_of_and b bm P (item_holds s (PMetadata idx op) a) HP Hbm
    ltac:(intros r off Hr; destruct (Hbits r off Hr) as (v & Er & ->); cbn; by rewrite Er))) as (b' & E & Hb').
  exists b'. split; [done|]. eapply bits_of_iff; [exact Hb'|]. intros r _. split.
  - intros [[Hr Hi'] Hall]. split; [done|]. intros j idx' op' a' [->|Hj]%elem_of_cons Hj' Ha'; [congruence|by apply (Hall j)].
  - intros [Hr Hall]. split; [split; [done|]|].
    + apply (Hall i idx op a); [set_solver|done..].
    + intros j idx' op' a' Hj. apply Hall. set_solver.
Qed.

(** All constraints but those on partition columns, which hold for the chunk. *)
Definition chunk_row_ok (r : Z) : Prop :=
  forall i it a, its !! i = Some it -> argv !! i = Some a -> (forall idx op, it <> PPartition idx op) ->
    item_holds s it a r = true.

(** The array of the [rowid IN] constraint. *)
Definition rowid_array_ok (arrayRowidsIn : option (list Z)) : Prop :=
  match arrayRowidsIn with
  | None => forall i, its !! i <> Some PRowidIn
  | Some arr => StronglySorted Z.le arr /\ exists i l, its !! i = Some PRowidIn /\ argv !! i = Some (ArgIn l) /\
      forall r, r ∈ dom (db_rowids s) -> r ∈ arr <-> existsb (row_has_id s r) l = true
  end.

Lemma no_metadata_filters (i idx : nat) (op : vec0_metadata_operator) (a : filter_arg) :
  hasMetadataFilters idxStr argv = false -> its !! i = Some (PMetadata idx op) -> argv !! i <> Some a.
Proof.
  intros Hno Hi Ha. apply lookup_lt_Some in Ha. revert Hno. unfold hasMetadataFilters.
  rewrite (proj2 (existsb_exists _ _)); [done|]. exists i.
  split; [apply list_elem_of_In, elem_of_seq; lia|]. by rewrite (metadata_kind_char i _ Hi).
Qed.

Lemma chunk_bits (arrayRowidsIn : option (list Z)) : rowid_array_ok arrayRowidsIn ->
  exists b, chunk_bitmap s idxStr argv arrayRowidsIn aMetadataIn c ck = Ok b /\ bits_of b chunk_row_ok.
Proof.
  intros Harr. unfold chunk_bitmap. fold cs.
  set (b1 := match arrayRowidsIn with Some arr => _ | None => _ end).
  assert (H1 : bits_of b1 (fun r => forall i a, its !! i = Some PRowidIn -> argv !! i = Some a ->
                                      item_holds s PRowidIn a r = true)).
  { subst b1. destruct arrayRowidsIn as [arr|].
    - destruct Harr as (Hs & i & l & Hi & Ha & Harr). eapply bits_of_iff; [by apply rowid_in_bits, validity_bits|].
      intros r Hr. cbv beta. rewrite bool_decide_eq_true, (Harr r Hr). split.
      + intros [_ He] j a Hj Ha'. rewrite (qo_one_in _ _ _ Hq j i) in Ha' by done.
        rewrite Ha in Ha'. by injection Ha' as <-.
      + intros Hall. split; [done|]. by apply (Hall i (ArgIn l)).
    - eapply bits_of_iff; [apply validity_bits|]. intros r _. split; [|done]. intros _ i a Hi. by apply Harr in Hi. }
  destruct (hasMetadataFilters idxStr argv) eqn:Hmf.
  - destruct (metadata_filters_bits (seq 0 (length argv)) b1 _ (seq_below _) H1) as (b & E & Hb).
    exists b. split; [done|]. eapply bits_of_iff; [exact Hb|]. intros r _. split.
    + intros [Hin Hmeta] i it a Hi Ha Hnp. destruct it as [| | |idx op|idx op]; [done|done|by apply (Hin i)| |].
      * by destruct (Hnp idx op).
      * apply (Hmeta i idx op a); [|done..]. apply elem_of_seq. apply lookup_lt_Some in Ha. lia.
    + intros Hall. split; [intros i a Hi Ha; by apply (Hall i)|]. intros i idx op a _ Hi Ha. by apply (Hall i).
  - exists b1. split; [done|]. eapply bits_of_iff; [exact H1|]. intros r _. split.
    + intros Hin i it a Hi Ha Hnp. destruct it as [| | |idx op|idx op]; [done|done|by apply (Hin i)| |].
      * by destruct (Hnp idx op).
      * by destruct (no_metadata_filters i idx op a Hmf Hi).
    + intros Hall i a Hi Ha. by apply (Hall i).
Qed.

(** Together with the partition constraints of the chunk these are all. *)
Lemma chunk_row_matches (r : Z) (off : nat) :
  slot (db_rowids s) r c off -> forallb (partition_holds ck) (seq 0 (length argv)) = true ->
  chunk_row_ok r <-> row_matches s its argv r = true.
Proof.
  intros [id E] Hp. rewrite row_matches_iff. split.
  - intros Hr i it a Hi Ha. destruct it as [| | |idx op|idx op]; try (by apply (Hr i _ a Hi Ha)).
    rewrite forallb_forall in Hp. specialize (Hp i). unfold partition_holds, arg_value, arg_at in Hp.
    rewrite Hi, (aget_lookup _ _ _ _ Ha) in Hp. cbn. unfold vec0_get_partition_value_for_rowid, vec0_get_chunk_position.
    rewrite E. cbn [rr_position rr_id]. change (default (0, 0%nat) (Some (c, off))) with (c, off). cbv beta iota.
    rewrite Hck. apply Hp. apply list_elem_of_In, elem_of_seq. apply lookup_lt_Some in Ha. lia.
  - intros Hr i it a Hi Ha _. by apply (Hr i).
Qed.

(** And for a row of another chunk they fail. *)
Lemma row_matches_chunk (r : Z) (off : nat) :
  slot (db_rowids s) r c off -> row_matches s its argv r = true ->
  forallb (partition_holds ck) (seq 0 (length argv)) = true.
Proof.
  intros [id E] Hr. rewrite row_matches_iff in Hr. apply forallb_forall. intros i Hi%list_elem_of_In%elem_of_seq.
  unfold partition_holds, arg_value, arg_at. destruct (item_at i) as [it Hit]; [lia|]. rewrite Hit.
  destruct (lookup_lt_is_Some_2 argv i) as [a Ha]; [lia|]. specialize (Hr i it a Hit Ha).
  rewrite (aget_lookup _ _ _ _ Ha). destruct it as [| | |idx op|idx op]; try done. cbn in Hr.
  unfold vec0_get_partition_value_for_rowid, vec0_get_chunk_position in Hr.
  rewrite E in Hr. cbn [rr_position rr_id] in Hr. change (default (0, 0%nat) (Some (c, off))) with (c, off) in Hr.
  cbv beta iota in Hr. by rewrite Hck in Hr.
Qed.

End Bits.

(** ** The rows of a list of chunks *)

Definition chunk_rows (ck : chunk_row) (b : bytes) : list Z := rowid_at (ck_rowids ck) <$> candidate_idxs cs b.

Lemma candidate_slot (c : Z) (ck : chunk_row) (b : bytes) (P : Z -> Prop) (off : nat) :
  db_chunks s !! c = Some ck -> bits_of c b P -> off ∈ candidate_idxs cs b ->
  slot (db_rowids s) (rowid_at (ck_rowids ck) off) c off /\ P (rowid_at (ck_rowids ck) off).
Proof.
  intros Hck [_ HP] [Hb Hoff%elem_of_seq]%list_elem_of_filter. apply HP in Hb as (r & Hr & Hp); [|lia].
  by rewrite (slot_rowid c ck Hck r off Hr).
Qed.

Lemma chunk_rows_spec (c : Z) (ck : chunk_row) (b : bytes) (P : Z -> Prop) :
  db_chunks s !! c = Some ck -> bits_of c b P ->
  NoDup (chunk_rows ck b) /\ forall r, r ∈ chunk_rows ck b <-> exists off, slot (db_rowids s) r c off /\ P r.
Proof.
  intros Hck HP. pose proof (fun off => candidate_slot c ck b P off Hck HP) as Hslot. split.
  - apply NoDup_fmap_2_strong; [|apply NoDup_filter, NoDup_seq]. intros o1 o2 H1 H2 E.
    destruct (Hslot o1 H1) as [[id1 S1] _], (Hslot o2 H2) as [[id2 S2] _]. rewrite E in S1. congruence.
  - intros r. unfold chunk_rows. rewrite list_elem_of_fmap. split.
    + intros (off & -> & Ho). exists off. by apply Hslot.
    + intros (off & Hr & Hp). exists off. split; [by rewrite (slot_rowid c ck Hck r off Hr)|].
      pose proof (slot_lt c r off Hr) as Ho. apply list_elem_of_filter. split; [|apply elem_of_seq; lia].
      apply HP; [done|]. by exists r.
Qed.

Definition collects (done : list (Z * chunk_row)) (L : list Z) : Prop :=
  NoDup L /\ forall r, r ∈ L <-> exists c ck off, (c, ck) ∈ done /\ slot (db_rowids s) r c off /\ chunk_row_ok r.

Lemma collects_nil : collects [] [].
Proof.
  split; [constructor|]. intros r. split; [by intros ?%elem_of_nil|].
  intros (c & ck & off & Hd & _). by apply elem_of_nil in Hd.
Qed.

Lemma collects_step (done : list (Z * chunk_row)) (L : list Z) (c : Z) (ck : chunk_row) (b : bytes) :
  collects done L -> db_chunks s !! c = Some ck -> c ∉ done.*1 -> bits_of c b chunk_row_ok ->
  collects (done ++ [(c, ck)]) (L ++ chunk_rows ck b).
Proof.
  intros [Hn HL] Hck Hc Hb. destruct (chunk_rows_spec c ck b _ Hck Hb) as [Hn' HR]. split.
  - apply list.NoDup_app. split; [done|]. split; [|done]. intros r (c1 & ck1 & o1 & Hd & [id1 S1] & _)%HL
      (o2 & [id2 S2] & _)%HR. rewrite S1 in S2. injection S2 as -> -> ->. apply Hc, list_elem_of_fmap.
    by exists (c, ck1).
  - intros r. rewrite elem_of_app, HL, HR. split.
    + intros [(c1 & ck1 & o1 & Hd & Hr)|(o2 & Hr)].
      * exists c1, ck1, o1. split; [apply elem_of_app; by left|done].
      * exists c, ck, o2. split; [apply elem_of_app; right; by apply list_elem_of_singleton|done].
    + intros (c1 & ck1 & o1 & [Hd|Hd]%elem_of_app & Hr); [left; by exists c1, ck1, o1|].
      apply list_elem_of_singleton in Hd as [= -> ->]. right. by exists o1.
Qed.

(** All chunks that satisfy the partition constraints. *)
Lemma collects_all (chunks : list (Z * chunk_row)) (L : list Z) :
  (forall c ck, (c, ck) ∈ chunks <-> db_chunks s !! c = Some ck /\ forallb (partition_holds ck) (seq 0 (length argv)) = true) ->
  collects chunks L -> L ≡ₚ filter (fun r => row_matches s its argv r = true) (elements (dom (db_rowids s))).
Proof.
  intros Hch [Hn HL]. apply NoDup_Permutation; [done|apply NoDup_filter, NoDup_elements|]. intros r.
  rewrite HL, list_elem_of_filter, elem_of_elements, elem_of_dom. split.
  - intros (c & ck & off & [Hck Hp]%Hch & Hs & Hr). split; [by apply (chunk_row_matches c ck Hck r off)|].
    destruct Hs as [id E]. by eexists.
  - intros [Hr [[id pos] E]]. destruct (wf_rows s Hw _ _ E) as (c & off & ck & Hpos & Hck & _). cbn in Hpos. subst pos.
    assert (Hs : slot (db_rowids s) r c off) by (by exists id).
    pose proof (row_matches_chunk c ck Hck r off Hs Hr) as Hp.
    exists c, ck, off. split; [by apply Hch|]. split; [done|]. by apply (chunk_row_matches c ck Hck r off Hs Hp).
Qed.

(** ** The scan *)

Section Scan.
Context (aMetadataIn : list Vec0MetadataIn) (arrayRowidsIn : option (list Z)).
Hypothesis Hins : forall i idx l, its !! i = Some (PMetadata idx METADATA_OPERATOR_IN) ->
  argv !! i = Some (ArgIn l) -> exists x, find_metadata_in aMetadataIn i = Some x /\
    mi_array x = metadata_in_of (metadata_kind_of (db_vtab s) idx) l.
Hypothesis Harr : rowid_array_ok arrayRowidsIn.

Lemma sizes_ok (c : Z) (ck : chunk_row) : db_chunks s !! c = Some ck -> chunk_sizes_ok s ck = true.
Proof.
  intros Hck. destruct (wf_chunk s Hw c ck Hck) as (_ & Hv & Hr). unfold chunk_sizes_ok.
  rewrite (bitmap_wf_div _ _ Hv), Hr, !Nat.eqb_refl. done.
Qed.

Section Column.
Context (vcol : nat) (Hv : (vcol < length (vt_vector_columns (db_vtab s)))%nat) (q : bytes) (k : nat).
Let size := column_size (db_vtab s) vcol.

Lemma chunk_vectors (c : Z) (ck : chunk_row) : db_chunks s !! c = Some ck ->
  exists base, aget ∅ (db_vectors s) vcol !! c = Some base /\ length base = (cs * size)%nat /\
    forall r off, slot (db_rowids s) r c off -> row_data s vcol r = slice (off * size) size base.
Proof.
  intros Hck. destruct (lookup_lt_is_Some_2 (db_vectors s) vcol) as [t Ht]; [by rewrite (wf_vectors_len s Hw)|].
  destruct (wf_vectors s Hw vcol t Ht) as [Hu Hl]. rewrite (aget_lookup _ _ _ _ Ht).
  destruct (proj2 (Hu c)) as [base Hb]; [by apply (wf_upto s Hw); eexists|]. exists base.
  split; [done|]. split; [by apply (Hl c)|]. intros r off Hs. pose proof (slot_lt c r off Hs) as Ho. destruct Hs as [id E].
  unfold row_data, vec0_get_vector_data, vec0_get_chunk_position. rewrite E. cbn [rr_position rr_id].
  change (default (0, 0%nat) (Some (c, off))) with (c, off). cbv beta iota zeta.
  rewrite (aget_lookup _ _ _ _ Ht), Hb, blob_read_ok; [done|]. rewrite (Hl c base Hb). fold cs size. nia.
Qed.

Definition numbers (r : Z) : Prop :=
  r ∈ dom (db_rowids s) -> row_matches s its argv r = true -> is_nan (knn_row s vcol q r).1 = false.

Lemma knn_chunk_step (done : list (Z * chunk_row)) (L : list Z) (acc : knn_acc) (c : Z) (ck : chunk_row) :
  (forall r, numbers r) -> collects done L -> acc_best k (knn_row s vcol q <$> L) acc ->
  db_chunks s !! c = Some ck -> forallb (partition_holds ck) (seq 0 (length argv)) = true -> c ∉ done.*1 ->
  exists acc' L', knn_chunk s idxStr argv vcol q k arrayRowidsIn aMetadataIn acc (c, ck) = Ok acc' /\
    collects (done ++ [(c, ck)]) L' /\ acc_best k (knn_row s vcol q <$> L') acc'.
Proof.
  intros Hnum HL Hacc Hck Hp Hc. destruct (chunk_bits c ck Hck aMetadataIn Hins arrayRowidsIn Harr) as (b & Eb & Hb).
  destruct (chunk_vectors c ck Hck) as (base & Ebase & Hlen & Hdata).
  unfold knn_chunk. rewrite (sizes_ok c ck Hck), Ebase. cbn [negb]. fold size cs. rewrite Hlen, Nat.eqb_refl. cbn [negb].
  rewrite Eb. cbn [res_bind]. set (d := _ <$> seq 0 cs).
  assert (Hg : forall off, off ∈ candidate_idxs cs b ->
    (aget f32_zero d off, aget 0 (chunk_rowids s ck) off) = knn_row s vcol q (rowid_at (ck_rowids ck) off)).
  { intros off Ho. destruct (candidate_slot c ck b _ off Hck Hb Ho) as [Hs _].
    apply list_elem_of_filter in Ho as [Ht Ho%elem_of_seq]. unfold knn_row. rewrite (Hdata _ off Hs). f_equal.
    - apply aget_lookup. subst d. rewrite lookup_fmap_seq0 by lia. by rewrite Ht.
    - apply aget_lookup. unfold chunk_rowids. by rewrite lookup_fmap_seq0 by (fold cs; lia). }
  assert (Hgl : (fun off => (aget f32_zero d off, aget 0 (chunk_rowids s ck) off)) <$> candidate_idxs cs b
                = knn_row s vcol q <$> chunk_rows ck b).
  { unfold chunk_rows. rewrite <- list_fmap_compose. apply list_fmap_ext. intros j off Hj. apply Hg.
    by eapply list_elem_of_lookup_2. }
  pose proof (acc_best_merge k _ acc d (chunk_rowids s ck) cs b (bitmap_new cs) Hacc
    (proj1 (bitmap_new_zero cs (sw_size8 _ (wf_schema s Hw))))) as Hm.
  cbv zeta in Hm. rewrite Hgl, <- fmap_app in Hm.
  destruct (min_idx _ _ _ _ _) as [idxs used1]. destruct (merge_sorted_lists _ _ _ _ _ _ _ _) as [[ds rs] used].
  eexists _, (L ++ chunk_rows ck b). split; [done|]. split; [by apply collects_step|]. apply Hm.
  intros x Hx. apply list_elem_of_fmap in Hx as (r & -> & Hr).
  apply (chunk_rows_spec c ck b _ Hck Hb) in Hr as (off & Hs & Hr). apply Hnum.
  - destruct Hs as [id E]. apply elem_of_dom. by eexists.
  - by apply (chunk_row_matches c ck Hck r off Hs Hp).
Qed.

Lemma knn_fold (todo done : list (Z * chunk_row)) (L : list Z) (acc : knn_acc) :
  (forall r, numbers r) -> collects done L -> acc_best k (knn_row s vcol q <$> L) acc ->
  NoDup (done ++ todo).*1 ->
  (forall c ck, (c, ck) ∈ todo -> db_chunks s !! c = Some ck /\ forallb (partition_holds ck) (seq 0 (length argv)) = true) ->
  exists acc' L', res_foldl (knn_chunk s idxStr argv vcol q k arrayRowidsIn aMetadataIn) acc todo = Ok acc' /\
    collects (done ++ todo) L' /\ acc_best k (knn_row s vcol q <$> L') acc'.
Proof.
  intros Hnum. revert done L acc. induction todo as [|[c ck] todo IH]; intros done L acc HL Hacc Hn Ht.
  - exists acc, L. by rewrite app_nil_r.
  - destruct (Ht c ck ltac:(set_solver)) as [Hck Hp].
    assert (Hc : c ∉ done.*1).
    { rewrite fmap_app in Hn. apply list.NoDup_app in Hn as (_ & Hd & _). intros Hin. apply (Hd c Hin).
      cbn. set_solver. }
    destruct (knn_chunk_step done L acc c ck Hnum HL Hacc Hck Hp Hc) as (acc1 & L1 & E & HL1 & Hacc1).
    cbn [res_foldl]. rewrite E. cbn [res_bind]. rewrite cons_middle, app_assoc in Hn |- *.
    apply (IH _ L1); [done..|]. intros c' ck' Hin. apply Ht. set_solver.
Qed.

End Column.

(** ** The rowids for the index *)

Lemma rowid_map_chunk_step (done : list (Z * chunk_row)) (m : RowidMap) (c : Z) (ck : chunk_row) :
  rowid_map_wf m -> collects done (rowid_map_elems m) -> db_chunks s !! c = Some ck -> c ∉ done.*1 ->
  exists m', rowid_map_chunk s idxStr argv arrayRowidsIn aMetadataIn m (c, ck) = Ok m' /\ rowid_map_wf m' /\
    rm_pre_filter m' = rm_pre_filter m /\ collects (done ++ [(c, ck)]) (rowid_map_elems m').
Proof.
  intros Hm HL Hck Hc. destruct (chunk_bits c ck Hck aMetadataIn Hins arrayRowidsIn Harr) as (b & Eb & Hb).
  unfold rowid_map_chunk. rewrite (sizes_ok c ck Hck). cbn [negb]. rewrite Eb. cbn [res_bind]. fold cs.
  destruct (rowid_map_add_all (bitmap_test b) (rowid_at (ck_rowids ck)) (seq 0 cs) m Hm) as (H1 & H2 & H3).
  eexists. split; [done|]. split; [done|]. split; [done|]. rewrite H2. by apply collects_step.
Qed.

Lemma rowid_map_fold (todo done : list (Z * chunk_row)) (m : RowidMap) :
  rowid_map_wf m -> collects done (rowid_map_elems m) -> NoDup (done ++ todo).*1 ->
  (forall c ck, (c, ck) ∈ todo -> db_chunks s !! c = Some ck) ->
  exists m', res_foldl (rowid_map_chunk s idxStr argv arrayRowidsIn aMetadataIn) m todo = Ok m' /\ rowid_map_wf m' /\
    rm_pre_filter m' = rm_pre_filter m /\ collects (done ++ todo) (rowid_map_elems m').
Proof.
  revert done m. induction todo as [|[c ck] todo IH]; intros done m Hm HL Hn Ht.
  - exists m. by rewrite app_nil_r.
  - assert (Hc : c ∉ done.*1).
    { rewrite fmap_app in Hn. apply list.NoDup_app in Hn as (_ & Hd & _). intros Hin. apply (Hd c Hin).
      cbn. set_solver. }
    destruct (rowid_map_chunk_step done m c ck Hm HL (Ht c ck ltac:(set_solver)) Hc) as (m1 & E & Hm1 & Hp1 & HL1).
    cbn [res_foldl]. rewrite E. cbn [res_bind]. rewrite cons_middle, app_assoc in Hn |- *. rewrite <- Hp1.
    apply IH; [done..|]. intros c' ck' Hin. apply Ht. set_solver.
Qed.

End Scan.

End ChunkSpec.

(** ** Sorting *)

Lemma cmp_i64_le (x y : Z) : cmp_i64 x y <= 0 <-> x <= y.
Proof. unfold cmp_i64. destruct (Z.ltb_spec x y), (Z.ltb_spec y x); lia. Qed.

Lemma qsort_i64_sorted `{QSort} (l : list Z) : StronglySorted Z.le (qsort cmp_i64 l).
Proof.
  assert (Hs : StronglySorted (fun x y => cmp_i64 x y <= 0) (qsort cmp_i64 l)).
  { apply qsort_sorted. split; intros *; rewrite !cmp_i64_le; lia. }
  induction Hs as [|x l' Hs IH Hx]; constructor; [done|]. rewrite Forall_forall in Hx |- *.
  intros y Hy. apply cmp_i64_le. by apply Hx.
Qed.

(** ** The arguments of a KNN query *)

Section Arguments.
Context {I : Type} `{SqlValues} (s : db I) (Hw : db_wf s) (its : list plan_item) (argv : list filter_arg).
Context (Hq : query_ok s its argv).
Let idxStr := plan_str its.

Lemma last_of_kind_elem (kind : Z) (i : nat) :
  i ∈ filter (fun i => idx_kind idxStr i = kind) (seq 0 (length argv)) <->
  exists it, its !! i = Some it /\ item_kind it = kind.
Proof.
  rewrite list_elem_of_filter, elem_of_seq. rewrite (qo_length _ _ _ Hq). split.
  - intros [Hk Hi]. destruct (lookup_lt_is_Some_2 its i) as [it Hit]; [lia|]. exists it.
    unfold idxStr in Hk. by rewrite (plan_kind its i it Hit) in Hk.
  - intros (it & Hi & Hk). unfold idxStr. rewrite (plan_kind its i it Hi). split; [done|].
    apply lookup_lt_Some in Hi. lia.
Qed.

Lemma last_of_kind_unique (i : nat) (it : plan_item) :
  its !! i = Some it -> (forall j it', its !! j = Some it' -> item_kind it' = item_kind it -> j = i) ->
  last_of_kind (item_kind it) idxStr (length argv) = Some i.
Proof.
  intros Hi Hu. unfold last_of_kind.
  assert (E : filter (fun j => idx_kind idxStr j = item_kind it) (seq 0 (length argv)) ≡ₚ [i]).
  { apply NoDup_Permutation; [apply NoDup_filter, NoDup_seq|apply NoDup_singleton|]. intros j.
    rewrite last_of_kind_elem, list_elem_of_singleton. split; [intros (it' & Hj & Hk); by apply (Hu j it')|].
    intros ->. by exists it. }
  apply Permutation_singleton_r in E. by rewrite E.
Qed.

Lemma last_of_kind_none (it : plan_item) :
  (forall i it', its !! i = Some it' -> item_kind it' <> item_kind it) ->
  last_of_kind (item_kind it) idxStr (length argv) = None.
Proof.
  intros Hno. unfold last_of_kind.
  assert (E : filter (fun j => idx_kind idxStr j = item_kind it) (seq 0 (length argv)) = []); [|by rewrite E].
  apply elem_of_nil_inv. intros j (it' & Hj & Hk)%last_of_kind_elem. by apply (Hno j it').
Qed.

(** *** [rowid IN] *)

Lemma sql_eq_text (v w : value) : sqlite3_value_type v = SQLITE_TEXT -> sql_eq v w = true <-> v = w.
Proof. destruct v; try done. intros _. unfold sql_eq. destruct w; [done|apply bool_decide_eq_true..]. Qed.

Lemma rowid_from_id_ok (v : value) (r : Z) :
  vt_pkIsText (db_vtab s) = true -> row_has_id s r v = true -> vec0_rowid_from_id s v = Ok r.
Proof.
  intros Hpk. unfold row_has_id. rewrite Hpk. destruct (db_rowids s !! r) as [row|] eqn:Er; [|done]. intros Hv.
  destruct (wf_ids s Hw Hpk) as [Ht Hu]. unfold vec0_rowid_from_id, rowid_with_id.
  assert (E : filter (fun x : Z * rowid_row => sql_eq (rr_id x.2) (text_affinity v) = true) (map_to_list (db_rowids s)) ≡ₚ [(r, row)]).
  { apply NoDup_Permutation; [apply NoDup_filter, NoDup_map_to_list|apply NoDup_singleton|]. intros [r' row'].
    rewrite list_elem_of_filter, elem_of_map_to_list, list_elem_of_singleton. cbn [fst snd]. split.
    - intros [Hs E']. apply sql_eq_text in Hs, Hv; [|by eapply Ht..].
      assert (r' = r) as -> by (apply (Hu r' r row' row); congruence). congruence.
    - intros [= -> ->]. done. }
  apply Permutation_singleton_r in E. by rewrite E.
Qed.

Lemma rowids_in_ok (l : list value) :
  (vt_pkIsText (db_vtab s) = true -> Forall (fun v => exists r, row_has_id s r v = true) l) ->
  exists arr, rowids_in s l = Ok arr /\
    forall r, r ∈ dom (db_rowids s) -> r ∈ arr <-> existsb (row_has_id s r) l = true.
Proof.
  induction l as [|v l IH]; intros Hl.
  { exists []. split; [done|]. intros r _. split; [by intros ?%elem_of_nil|done]. }
  destruct IH as (arr & E & Harr). { intros Hpk. specialize (Hl Hpk). by apply Forall_cons_1 in Hl as [_ ?]. }
  cbn [rowids_in]. destruct (vt_pkIsText (db_vtab s)) eqn:Hpk.
  - specialize (Hl eq_refl). apply Forall_cons_1 in Hl as [[r0 Hr0] _].
    rewrite (rowid_from_id_ok v r0 Hpk Hr0). cbn [res_bind]. rewrite E. cbn [res_bind]. exists (r0 :: arr). split; [done|].
    intros r Hr. rewrite elem_of_cons, (Harr r Hr). cbn [existsb]. rewrite orb_true_iff. split; [naive_solver|].
    intros [Hv|Hv]; [left|by right]. pose proof (rowid_from_id_ok v r Hpk Hv) as E1.
    pose proof (rowid_from_id_ok v r0 Hpk Hr0) as E2. congruence.
  - cbn [res_bind]. rewrite E. cbn [res_bind]. exists (value_int64 v :: arr). split; [done|]. intros r Hr.
    rewrite elem_of_cons, (Harr r Hr). cbn [existsb]. rewrite orb_true_iff. unfold row_has_id at 2. rewrite Hpk, Z.eqb_eq. done.
Qed.

Lemma rowid_in_array_ok `{QSort} :
  exists arr, rowid_in_array s idxStr argv = Ok arr /\ rowid_array_ok s its argv arr.
Proof.
  unfold rowid_in_array. change VEC0_IDXSTR_KIND_KNN_ROWID_IN with (item_kind PRowidIn).
  destruct (decide (PRowidIn ∈ its)) as [Hin|Hno].
  - apply list_elem_of_lookup in Hin as [i Hi]. rewrite (last_of_kind_unique i PRowidIn Hi).
    2:{ intros j [] Hj Hk; try done. by apply (qo_one_in _ _ _ Hq). }
    destruct (qo_rowid_in _ _ _ Hq i Hi) as (l & Ha & Hl). unfold arg_in, arg_at. rewrite (aget_lookup _ _ _ _ Ha).
    cbn [res_bind]. destruct (rowids_in_ok l Hl) as (arr & E & Harr). rewrite E. cbn [res_bind].
    eexists. split; [done|]. split; [apply qsort_i64_sorted|]. exists i, l. split; [done|]. split; [done|].
    intros r Hr. by rewrite (qsort_perm _ cmp_i64 arr), Harr.
  - rewrite last_of_kind_none.
    + exists None. split; [done|]. intros i Hi. apply Hno. by eapply list_elem_of_lookup_2.
    + intros i [] Hi; try done. by destruct Hno; eapply list_elem_of_lookup_2.
Qed.

(** *** Metadata [IN] *)

Lemma find_metadata_in_cons (x : Vec0MetadataIn) (l : list Vec0MetadataIn) (i : nat) :
  find_metadata_in (x :: l) i = if decide (mi_argv_idx x = i) then Some x else find_metadata_in l i.
Proof.
  unfold find_metadata_in. cbn. case_decide; [done|]. by destruct (list_find _ l) as [[? ?]|].
Qed.

Lemma metadata_ins_ok (es : list nat) : NoDup es -> Forall (fun i => (i < length argv)%nat) es ->
  exists ins, metadata_ins s idxStr argv es = Ok (Some ins) /\
    forall i idx l, i ∈ es -> its !! i = Some (PMetadata idx METADATA_OPERATOR_IN) -> argv !! i = Some (ArgIn l) ->
      exists x, find_metadata_in ins i = Some x /\
        mi_array x = metadata_in_of (metadata_kind_of (db_vtab s) idx) l.
Proof.
  intros Hn He. induction es as [|i es IH].
  { exists []. split; [done|]. intros i idx l Hi. by apply elem_of_nil in Hi. }
  apply list.NoDup_cons in Hn as [Hni Hn]. apply Forall_cons_1 in He as [Hi He].
  destruct (IH Hn He) as (ins & E & Hins). cbn [metadata_ins].
  destruct (item_at s its argv Hq i Hi) as [it Hit]. pose proof (metadata_kind_char its i it Hit) as Hkc.
  fold idxStr in Hkc. rewrite Hkc.
  assert (Hskip : (forall idx, it <> PMetadata idx METADATA_OPERATOR_IN) -> exists ins, metadata_ins s idxStr argv es = Ok (Some ins) /\
    forall j idx l, j ∈ i :: es -> its !! j = Some (PMetadata idx METADATA_OPERATOR_IN) -> argv !! j = Some (ArgIn l) ->
      exists x, find_metadata_in ins j = Some x /\ mi_array x = metadata_in_of (metadata_kind_of (db_vtab s) idx) l).
  { intros Hne. exists ins. split; [done|]. intros j idx l [->|Hj]%elem_of_cons Hj'; [congruence|by apply Hins]. }
  destruct it as [| | |idx op|idx op]; cbn [andb]; try (by apply Hskip).
  destruct (plan_column its i idx op (or_intror Hit)) as [Ec Eo]. fold idxStr in Ec, Eo. rewrite Ec, Eo.
  destruct (lookup_lt_is_Some_2 argv i Hi) as [a Ha].
  destruct (qo_metadata _ _ _ Hq i idx op a Hit Ha) as (_ & Hf & Ho & _).
  destruct op; cbn [operator_char Z.eqb andb Pos.eqb]; try (by apply Hskip). clear Hskip.
  destruct a as [v|l]; cbn in Hf, Ho; [destruct (metadata_kind_of _ _), (sv_value v); naive_solver|].
  assert (Hk : bool_decide (metadata_kind_of (db_vtab s) idx = METADATA_KIND_INTEGER)
               || bool_decide (metadata_kind_of (db_vtab s) idx = METADATA_KIND_TEXT) = true)
    by (destruct (metadata_kind_of (db_vtab s) idx); done).
  rewrite Hk. unfold arg_in, arg_at. rewrite (aget_lookup _ _ _ _ Ha). cbn [res_bind]. rewrite E. cbn [res_bind].
  eexists. split; [done|]. intros j idx' l' [->|Hj]%elem_of_cons Hj' Ha'; rewrite find_metadata_in_cons; cbn [mi_argv_idx].
  - rewrite decide_True by done. eexists. split; [done|]. cbn. congruence.
  - rewrite decide_False by (intros ->; done). by apply Hins.
Qed.

End Arguments.

(** ** KNN without an index *)

Section KnnScan.
Context {I : Type} `{IndexOps I} `{IndexSearch I} `{SqlValues} `{ScanOrder} `{QSort}.
Context (strtod : bytes -> number f64) (s : db I) (Hw : db_wf s).

(** The query vector fits the column. *)
Definition query_fits (vcol : nat) (q : vector) : Prop :=
  vec_type q = vc_element_type (vector_column (db_vtab s) vcol) /\
  Z.of_nat (vec_dims q) = vc_dimensions (vector_column (db_vtab s) vcol).

Definition knn_data_rows (d : vec0_query_knn_data) : list (f32 * Z) :=
  rows_a (kq_distances d) (kq_rowids d) (kq_k_used d).

Lemma acc_best_nil (k : nat) (ds : list f32) (rs : list Z) : acc_best k [] (MkAcc ds rs 0).
Proof. split; [intros x Hx; by apply elem_of_nil in Hx|]. split; [apply topk_of_nil|constructor]. Qed.

Lemma chunks_all (its : list plan_item) (argv : list filter_arg) :
  let chunks := filter (fun c => forallb (partition_holds its argv c.2) (seq 0 (length argv)) = true)
                  (scan (db_chunks s)) in
  NoDup chunks.*1 /\
  forall c ck, (c, ck) ∈ chunks <-> db_chunks s !! c = Some ck /\
    forallb (partition_holds its argv ck) (seq 0 (length argv)) = true.
Proof.
  split.
  - apply (sublist_NoDup _ (scan (db_chunks s)).*1); [|apply fmap_sublist, sublist_filter].
    rewrite scan_perm. apply NoDup_fst_map_to_list.
  - intros c ck. rewrite list_elem_of_filter, scan_perm, elem_of_map_to_list. naive_solver.
Qed.

Section Items.
Context (its rest : list plan_item) (argv : list filter_arg) (vcol : nat) (qv kv : sval) (q : vector).
Hypothesis Hq : query_ok s its argv.
Hypothesis Hits : its = (PMatch :: PK :: rest).
Hypothesis Hrest : (PMatch ∉ rest) /\ (PK ∉ rest).
Hypothesis Hargs : argv !! 0%nat = Some (ArgValue qv) /\ argv !! 1%nat = Some (ArgValue kv).
Hypothesis Hvec : vector_from_value strtod qv = Some q /\ query_fits vcol q.

Lemma unique_item (i : nat) (it it' : plan_item) (j : nat) :
  (i = 0%nat /\ it = PMatch \/ i = 1%nat /\ it = PK) -> its !! j = Some it' -> item_kind it' = item_kind it -> j = i.
Proof.
  intros Hi Hj Hk. destruct Hrest as [Hr1 Hr2]. rewrite Hits in Hj.
  destruct Hi as [[-> ->]|[-> ->]]; destruct j as [|[|j]]; cbn in Hj; try done; exfalso.
  - by injection Hj as <-.
  - apply list_elem_of_lookup_2 in Hj. by destruct it'.
  - by injection Hj as <-.
  - apply list_elem_of_lookup_2 in Hj. by destruct it'.
Qed.

(** What is left of [vec0Filter_knn] once its checks are passed. *)
Lemma knn_checks (k : Z) : value_int64 (sv_value kv) = k -> 0 < k <= SQLITE_VEC_VEC0_K_MAX ->
  exists arr ins, rowid_array_ok s its argv arr /\
    (forall i idx l, its !! i = Some (PMetadata idx METADATA_OPERATOR_IN) -> argv !! i = Some (ArgIn l) ->
       exists x, find_metadata_in ins i = Some x /\ mi_array x = metadata_in_of (metadata_kind_of (db_vtab s) idx) l) /\
    vec0Filter_knn strtod s (Z.of_nat vcol) (plan_str its) argv =
      (d <-? knn_run s vcol (plan_str its) argv q k arr ins; Ok (Some d)).
Proof.
  intros Hk Hr. destruct (rowid_in_array_ok s Hw its argv Hq) as (arr & Ea & Harr).
  destruct (metadata_ins_ok s its argv Hq (seq 0 (length argv)) (NoDup_seq _ _) (seq_below _)) as (ins & Ei & Hins).
  exists arr, ins. split; [done|]. split.
  { intros i idx l Hi Ha. apply Hins; [|done..]. apply elem_of_seq. apply lookup_lt_Some in Ha. lia. }
  unfold vec0Filter_knn. change VEC0_IDXSTR_KIND_KNN_MATCH with (item_kind PMatch).
  change VEC0_IDXSTR_KIND_KNN_K with (item_kind PK).
  rewrite (last_of_kind_unique s its argv Hq 0 PMatch), (last_of_kind_unique s its argv Hq 1 PK);
    [|by rewrite Hits|intros j it'; apply unique_item; auto|by rewrite Hits|intros j it'; apply unique_item; auto].
  destruct Hargs as [A0 A1], Hvec as (Hv & Ht & Hd). unfold arg_value, arg_at.
  rewrite (aget_lookup _ _ _ _ A0), (aget_lookup _ _ _ _ A1). cbn [arg_sval]. rewrite Hv, Nat2Z.id.
  rewrite bool_decide_eq_true_2 by done. cbn [negb]. rewrite Hd, Z.eqb_refl. cbn [negb]. rewrite Hk.
  rewrite (proj2 (Z.ltb_ge _ _)), (proj2 (Z.ltb_ge _ _)), (proj2 (Z.eqb_neq _ _)) by lia.
  rewrite Ea, Ei. done.
Qed.

(** The scan of the chunks. *)
Lemma knn_full (k : Z) (arr : option (list Z)) (ins : list Vec0MetadataIn) :
  (vcol < length (vt_vector_columns (db_vtab s)))%nat -> 0 < k ->
  rowid_array_ok s its argv arr ->
  (forall i idx l, its !! i = Some (PMetadata idx METADATA_OPERATOR_IN) -> argv !! i = Some (ArgIn l) ->
     exists x, find_metadata_in ins i = Some x /\ mi_array x = metadata_in_of (metadata_kind_of (db_vtab s) idx) l) ->
  (forall r, r ∈ dom (db_rowids s) -> row_matches s its argv r = true ->
     is_nan (knn_row s vcol (vec_bytes q) r).1 = false) ->
  exists chunks acc, vec0_chunks_iter s (plan_str its) argv = Ok chunks /\
    vec0Filter_knn_chunks_iter s (plan_str its) argv chunks vcol arr ins (vec_bytes q) (Z.to_nat k) = Ok acc /\
    acc_best (Z.to_nat k) (knn_candidates s its argv vcol (vec_bytes q)) acc.
Proof.
  intros Hv Hk Harr Hins Hnum. destruct (chunks_all its argv) as [Hn Hch]. cbv zeta in Hn, Hch.
  rewrite (chunks_iter_ok s its argv Hq). set (chunks := filter _ (scan (db_chunks s))) in *.
  destruct (knn_fold s Hw its argv Hq ins arr Hins Harr vcol Hv (vec_bytes q) (Z.to_nat k) chunks [] []
    (MkAcc (replicate (Z.to_nat k) f32_zero) (replicate (Z.to_nat k) 0) 0) Hnum (collects_nil s its argv)
    (acc_best_nil _ _ _) Hn) as (acc & L & E & HL & Hb); [intros c ck Hc; by apply Hch|].
  exists chunks, acc. split; [done|]. split; [exact E|].
  pose proof (collects_all s Hw its argv Hq chunks L Hch HL) as HP. unfold knn_candidates.
  destruct Hb as (B1 & B2 & B3). split; [|split; [|done]].
  - intros x Hx. apply B1. by rewrite HP.
  - eapply topk_of_Permutation; [|done|exact B2]. by rewrite HP.
Qed.

(** [k = 0] is answered without looking at the chunks. *)
Lemma knn_zero : value_int64 (sv_value kv) = 0 ->
  vec0Filter_knn strtod s (Z.of_nat vcol) (plan_str its) argv = Ok (Some (MkKnn 0 0 [] [] 0)).
Proof.
  intros Hk. unfold vec0Filter_knn. change VEC0_IDXSTR_KIND_KNN_MATCH with (item_kind PMatch).
  change VEC0_IDXSTR_KIND_KNN_K with (item_kind PK).
  rewrite (last_of_kind_unique s its argv Hq 0 PMatch), (last_of_kind_unique s its argv Hq 1 PK);
    [|by rewrite Hits|intros j it'; apply unique_item; auto|by rewrite Hits|intros j it'; apply unique_item; auto].
  destruct Hargs as [A0 A1], Hvec as (Hv & Ht & Hd). unfold arg_value, arg_at.
  rewrite (aget_lookup _ _ _ _ A0), (aget_lookup _ _ _ _ A1). cbn [arg_sval]. rewrite Hv, Nat2Z.id.
  rewrite bool_decide_eq_true_2 by done. cbn [negb]. rewrite Hd, Z.eqb_refl. cbn [negb]. by rewrite Hk.
Qed.

(** The data of the cursor, for a table that is scanned. *)
Lemma knn_scan_data (k : Z) :
  db_index s = None -> (vcol < length (vt_vector_columns (db_vtab s)))%nat ->
  value_int64 (sv_value kv) = k -> 0 <= k <= SQLITE_VEC_VEC0_K_MAX ->
  (forall r, r ∈ dom (db_rowids s) -> row_matches s its argv r = true ->
     is_nan (knn_row s vcol (vec_bytes q) r).1 = false) ->
  exists d, vec0Filter_knn strtod s (Z.of_nat vcol) (plan_str its) argv = Ok (Some d) /\
    kq_current_idx d = 0%nat /\ (kq_k_used d <= Z.to_nat k)%nat /\ StronglySorted (le_by fst) (knn_data_rows d) /\
    topk_of fst (Z.to_nat k) (knn_candidates s its argv vcol (vec_bytes q)) (knn_data_rows d).
Proof.
  intros Hix Hv Hk Hr Hnum. destruct (decide (k = 0)) as [->|Hk0].
  { exists (MkKnn 0 0 [] [] 0). split; [by apply knn_zero|]. split; [done|]. split; [done|]. split; [constructor|].
    exists (knn_candidates s its argv vcol (vec_bytes q)). split; [done|]. split; [done|].
    intros x y Hx. by apply elem_of_nil in Hx. }
  destruct (knn_checks k Hk ltac:(lia)) as (arr & ins & Harr & Hins & E).
  destruct (knn_full k arr ins Hv ltac:(lia) Harr Hins Hnum) as (chunks & acc & E1 & E2 & _ & Ht & Hs).
  exists (MkKnn k (ka_used acc) (ka_rowids acc) (ka_distances acc) 0). rewrite E. unfold knn_run.
  rewrite E1. cbn [res_bind]. rewrite Hix, E2. cbn [res_bind]. split; [done|]. split; [done|].
  change (knn_data_rows _) with (acc_rows acc). split; [|done]. cbn.
  destruct Ht as (? & _ & L & _). unfold acc_rows, rows_a in L. rewrite length_fmap_seq0 in L. lia.
Qed.

(** The rowids handed to the index: those of the candidates, in order. *)
Lemma knn_rowid_map (arr : option (list Z)) (ins : list Vec0MetadataIn) (pre : bool) :
  rowid_array_ok s its argv arr ->
  (forall i idx l, its !! i = Some (PMetadata idx METADATA_OPERATOR_IN) -> argv !! i = Some (ArgIn l) ->
     exists x, find_metadata_in ins i = Some x /\ mi_array x = metadata_in_of (metadata_kind_of (db_vtab s) idx) l) ->
  exists chunks m, vec0_chunks_iter s (plan_str its) argv = Ok chunks /\
    vec0Filter_chunks_to_rowid_map s (plan_str its) argv chunks arr ins (MkRowidMap (replicate 16 0) 16 0 pre) = Ok m /\
    rowid_map_wf m /\ rm_pre_filter m = pre /\ StronglySorted Z.le (rowid_map_elems m) /\
    rowid_map_elems m ≡ₚ filter (fun r => row_matches s its argv r = true) (elements (dom (db_rowids s))).
Proof.
  intros Harr Hins. destruct (chunks_all its argv) as [Hn Hch]. cbv zeta in Hn, Hch.
  rewrite (chunks_iter_ok s its argv Hq). set (chunks := filter _ (scan (db_chunks s))) in *.
  destruct (rowid_map_fold s Hw its argv Hq ins arr Hins Harr chunks [] (MkRowidMap (replicate 16 0) 16 0 pre))
    as (m & E & [Hl Hc] & Hpre & HL); [split; cbn; lia|apply collects_nil|done|intros c ck Hc; by apply Hch|].
  exists chunks. eexists. split; [done|]. unfold vec0Filter_chunks_to_rowid_map. rewrite E. cbn [res_bind].
  split; [done|]. pose proof (collects_all s Hw its argv Hq chunks _ Hch HL) as HP.
  fold (rowid_map_elems m). set (sorted := qsort cmp_i64 (rowid_map_elems m)).
  assert (Hs : length sorted = rm_count m).
  { subst sorted. rewrite qsort_perm. unfold rowid_map_elems. rewrite length_take. lia. }
  assert (He : rowid_map_elems (MkRowidMap (sorted ++ drop (rm_count m) (rm_rowids m)) (rm_capacity m) (rm_count m)
                 (rm_pre_filter m)) = sorted).
  { unfold rowid_map_elems at 1. cbn. rewrite <- Hs at 1. by rewrite take_app_length. }
  rewrite He. split; [split; cbn; [rewrite length_app, Hs, length_drop; lia|done]|]. split; [done|].
  split; [apply qsort_i64_sorted|]. subst sorted. by rewrite qsort_perm.
Qed.

End Items.
End KnnScan.

(** ** Driving a cursor *)

Lemma drive_eof {A : Type} (visit : vec0_cursor -> A) (fuel : nat) (cur : vec0_cursor) :
  vec0Eof cur = true -> drive visit fuel cur = Some [].
Proof. intros E. destruct fuel; cbn; by rewrite E. Qed.

Lemma drive_next {A : Type} (visit : vec0_cursor -> A) (fuel : nat) (cur cur' : vec0_cursor) :
  vec0Eof cur = false -> vec0Next cur = (Ok tt, cur') ->
  drive visit (S fuel) cur = (rest ← drive visit fuel cur'; Some (visit cur :: rest)).
Proof. intros E N. cbn. by rewrite E, N. Qed.

(** ** The cursor of a KNN query *)

Section KnnCursor.
Context {I : Type} (s : db I).

(** What a caller reads of a row: distance and id. *)
Definition knn_columns (cur : vec0_cursor) : res column_result * res column_result :=
  (vec0Column s cur false (vec0_column_distance_idx (db_vtab s)), vec0Column s cur false VEC0_COLUMN_ID).

Definition shown (row : f32 * Z) : res column_result * res column_result :=
  (Ok (CDouble (f64_of_f32 row.1)), result_value (vec0_result_id row.2 s)).

Lemma distance_idx_pos (p : vec0_vtab) : (vec0_column_distance_idx p =? VEC0_COLUMN_ID) = false.
Proof.
  apply Z.eqb_neq. unfold vec0_column_distance_idx, vec0_num_defined_user_columns, VEC0_COLUMN_USERN_START,
    VEC0_COLUMN_OFFSET_DISTANCE, VEC0_COLUMN_ID. lia.
Qed.

Lemma drive_knn (fuel : nat) (fs : option vec0_query_fullscan_data) (pt : option vec0_query_point_data)
    (d : vec0_query_knn_data) :
  (kq_k_used d <= kq_current_idx d + fuel)%nat ->
  drive knn_columns fuel (MkCursor VEC0_QUERY_PLAN_KNN fs (Some d) pt) =
  Some (shown <$> drop (kq_current_idx d) (knn_data_rows d)).
Proof.
  revert d. induction fuel as [|fuel IH]; intros [k used rs ds i] Hf; cbn [kq_k_used kq_current_idx] in *;
    (destruct (decide (used <= i)%nat) as [Hi|Hi];
      [rewrite drop_ge by (unfold knn_data_rows, rows_a; rewrite length_fmap_seq0; done);
       apply drive_eof; by apply Nat.leb_le|]); [lia|].
  erewrite drive_next; [|apply Nat.leb_gt; cbn; lia|reflexivity]. rewrite IH by (cbn; lia).
  rewrite (drop_S (knn_data_rows (MkKnn k used rs ds i)) (aget f32_zero ds i, aget 0 rs i) i)
    by (unfold knn_data_rows, rows_a; cbn; by rewrite lookup_fmap_seq0 by lia).
  rewrite fmap_cons. cbn. do 2 f_equal. unfold knn_columns, shown, vec0Column, vec0Column_knn. cbn.
  by rewrite distance_idx_pos, Z.eqb_refl.
Qed.

End KnnCursor.

(** ** A KNN query, from the constraints to the rows *)

(** Columns of a kind are numbered below their count. *)
Lemma user_column_idx (p : vec0_vtab) (k : vec0_user_column_kind) (i : Z) (n : nat) :
  (user_columns_of k p).*2 = seq 0 n -> vec0_column_idx_is k p i = true -> (vec0_column_idx_to_idx p i < n)%nat.
Proof.
  unfold vec0_column_idx_is, vec0_column_idx_to_idx. intros Hk. set (j := Z.to_nat _).
  destruct (vt_user_columns p !! j) as [[k' idx]|] eqn:E; [|by rewrite andb_false_r].
  rewrite !andb_true_iff, bool_decide_eq_true. intros [_ ->].
  enough (idx ∈ seq 0 n) by (apply elem_of_seq in H; lia). rewrite <- Hk. apply list_elem_of_fmap. exists (j, idx).
  split; [done|]. unfold user_columns_of. apply list_elem_of_omap. exists (j, (k, idx)). cbn.
  split; [|by rewrite decide_True]. apply list_elem_of_lookup. exists j. by rewrite list_lookup_imap, E.
Qed.

Section Where.
Context {I : Type} `{IndexOps I} `{IndexSearch I} `{SqlValues} `{ScanOrder} `{QSort}.
Context (strtod : bytes -> number f64) (s : db I) (Hw : db_wf s).
Let p := db_vtab s.

(** The [WHERE] clause on a row: the constraints on rowid, partition and
    metadata columns. *)
Definition where_holds (cs : list index_constraint) (rhs : list filter_arg) (r : Z) : bool :=
  forallb (fun ca => match filter_item p ca.1 with Some it => item_holds s it ca.2 r | None => true end) (zip cs rhs).

(** The queries that the filters decide rightly.  The operands have the types of
    their columns and no text holds a NUL; under an order comparison with a
    text no row of the table holds a text of exactly 12 characters, on which
    the filter fails, or one of more than 12 that is a proper prefix of the
    operand, which it takes for equal ([metadata_filter_correct]); the texts of
    a [rowid IN] on a table with TEXT ids are ids of rows, since the filter
    fails on others; chunk ids fit into an [int]. *)
Record where_ok (cs : list index_constraint) (rhs : list filter_arg) : Prop := {
  wo_length : length rhs = length cs;
  wo_chunks : db_chunks_seq s < 2 ^ 31;
  wo_metadata : forall i c a idx op, cs !! i = Some c -> rhs !! i = Some a -> filter_item p c = Some (PMetadata idx op) ->
    let f := item_metadata_filter op a in
    filter_ok (metadata_kind_of p idx) f /\ filter_op f = op /\
    forall r v, vec0_result_metadata_value_for_rowid r idx s = Ok v -> value_safe f v;
  wo_rowid_in : forall i c, cs !! i = Some c -> filter_item p c = Some PRowidIn ->
    exists l, rhs !! i = Some (ArgIn l) /\
      (vt_pkIsText p = true -> Forall (fun v => exists r, row_has_id s r v = true) l)
}.

Section Plan.
Context (cs : list index_constraint) (rhs : list filter_arg) (plan : index_plan).
Context (items : list (nat * plan_item)) (iMatch iK : nat) (Hp : knn_plan p cs plan items iMatch iK).
Context (Hok : where_ok cs rhs).
Let its := items.*2.
Let argv := filter_argv (pl_usage plan) rhs.

Lemma plan_argv : length argv = length its /\
  forall j i it, items !! j = Some (i, it) -> argv !! j = rhs !! i.
Proof.
  unfold its. rewrite length_fmap. apply (asks_argv _ _ _ rhs (kp_asks _ _ _ _ _ _ Hp)), (wo_length _ _ Hok).
Qed.

Lemma plan_item_at (j : nat) (it : plan_item) : its !! j = Some it ->
  exists i, items !! j = Some (i, it) /\
    (it = PMatch /\ j = 0%nat \/ it = PK /\ j = 1%nat \/ exists c, cs !! i = Some c /\ filter_item p c = Some it).
Proof.
  unfold its. rewrite list_lookup_fmap. intros ([i it'] & Hj & ->)%fmap_Some_1. exists i. split; [done|].
  destruct (kp_items _ _ _ _ _ _ Hp) as (rest & E & _ & Hrest). rewrite E in Hj.
  destruct j as [|[|j]]; cbn in Hj; [injection Hj as <- <-; by left|injection Hj as <- <-; right; by left|].
  right. right. apply Hrest. by eapply list_elem_of_lookup_2.
Qed.

Lemma filter_item_metadata (c : index_constraint) (idx : nat) (op : vec0_metadata_operator) :
  filter_item p c = Some (PMetadata idx op) -> (idx < length (vt_metadata_kinds p))%nat.
Proof.
  unfold filter_item. destruct (is_rowid_in c); [done|]. destruct (partition_item p c) eqn:E.
  - intros [= ->]. unfold partition_item in E. destruct (_ && _); [|done]. by apply fmap_Some_1 in E as (? & _ & ?).
  - intros Hm. destruct (metadata_item_inv _ _ _ Hm) as [Hc _]. unfold metadata_item in Hm.
    destruct (_ && _); [|done]. apply fmap_Some_1 in Hm as (? & _ & [= -> _]).
    by apply (user_column_idx p USER_COLUMN_METADATA), Hc; apply (sw_metadata _ (wf_schema s Hw)).
Qed.

Lemma filter_item_partition (c : index_constraint) (idx : nat) (op : vec0_metadata_operator) :
  filter_item p c = Some (PPartition idx op) -> op <> METADATA_OPERATOR_IN.
Proof.
  unfold filter_item. destruct (is_rowid_in c); [done|]. destruct (partition_item p c) eqn:E.
  - intros [= ->]. unfold partition_item in E. destruct (_ && _); [|done].
    apply fmap_Some_1 in E as (o & Ho & [= _ ->]). revert Ho. unfold comparison_operator.
    repeat (destruct (_ =? _); [by intros [= <-]|]). done.
  - unfold metadata_item. destruct (_ && _); [|done]. by intros (? & _ & ?)%fmap_Some_1.
Qed.

Lemma filter_item_rowid_in (c : index_constraint) : filter_item p c = Some PRowidIn -> is_rowid_in c = true.
Proof.
  unfold filter_item. destruct (is_rowid_in c); [done|]. destruct (partition_item p c) eqn:E.
  - intros [= ->]. unfold partition_item in E. destruct (_ && _); [|done]. by apply fmap_Some_1 in E as (? & _ & ?).
  - unfold metadata_item. destruct (_ && _); [|done]. by intros (? & _ & ?)%fmap_Some_1.
Qed.

Lemma plan_query_ok : query_ok s its argv.
Proof.
  destruct plan_argv as [Hl Ha]. split; [done|apply (wo_chunks _ _ Hok)|..].
  - intros j idx op Hj. destruct (plan_item_at j _ Hj) as (i & _ & [[? _]|[[? _]|(c & _ & Hc)]]); try done.
    by eapply filter_item_partition.
  - intros j idx op a Hj Haj. destruct (plan_item_at j _ Hj) as (i & Hi & [[? _]|[[? _]|(c & Ec & Hc)]]); try done.
    rewrite (Ha _ _ _ Hi) in Haj. split; [by eapply filter_item_metadata|]. by apply (wo_metadata _ _ Hok i c).
  - intros j Hj. destruct (plan_item_at j _ Hj) as (i & Hi & [[? _]|[[? _]|(c & Ec & Hc)]]); try done.
    rewrite (Ha _ _ _ Hi). by apply (wo_rowid_in _ _ Hok i c).
  - intros j1 j2 Hj1 Hj2.
    destruct (plan_item_at j1 _ Hj1) as (i1 & Hi1 & [[? _]|[[? _]|(c1 & Ec1 & Hc1)]]); try done.
    destruct (plan_item_at j2 _ Hj2) as (i2 & Hi2 & [[? _]|[[? _]|(c2 & Ec2 & Hc2)]]); try done.
    assert (i1 = i2) as <- by (by apply (kp_one_in _ _ _ _ _ _ Hp i1 i2 c1 c2); try apply filter_item_rowid_in).
    destruct (kp_items _ _ _ _ _ _ Hp) as (rest & _ & Hn & _).
    apply (NoDup_lookup _ _ _ i1 Hn); rewrite list_lookup_fmap; [by rewrite Hi1|by rewrite Hi2].
Qed.

(** The plan asks for what the clause says. *)
Lemma plan_matches (r : Z) : row_matches s its argv r = where_holds cs rhs r.
Proof.
  destruct plan_argv as [Hl Ha]. apply eq_bool_prop_intro. rewrite !Is_true_true, row_matches_iff.
  unfold where_holds. rewrite forallb_forall. split.
  - intros Hr [c a] Hca%list_elem_of_In. apply list_elem_of_lookup in Hca as [i Hi]. rewrite lookup_zip_with in Hi.
    destruct (cs !! i) as [c'|] eqn:Ec; [|done]. destruct (rhs !! i) as [a'|] eqn:Ea; [|done]. injection Hi as -> ->.
    cbn. destruct (filter_item p c) as [it|] eqn:Hit; [|done].
    destruct (kp_items _ _ _ _ _ _ Hp) as (rest & E & _ & Hrest).
    assert (Hin : (i, it) ∈ rest) by (apply Hrest; by exists c). apply list_elem_of_lookup in Hin as [j Hj].
    assert (Hj' : items !! S (S j) = Some (i, it)) by (rewrite E; done).
    apply (Hr (S (S j)) it a); [unfold its; by rewrite list_lookup_fmap, Hj'|]. by rewrite (Ha _ _ _ Hj').
  - intros Hr j it a Hj Haj. destruct (plan_item_at j _ Hj) as (i & Hi & [[-> _]|[[-> _]|(c & Ec & Hc)]]); try done.
    rewrite (Ha _ _ _ Hi) in Haj. specialize (Hr (c, a)). cbn in Hr. rewrite Hc in Hr. apply Hr.
    apply list_elem_of_In, list_elem_of_lookup. exists i. by rewrite lookup_zip_with, Ec, Haj.
Qed.

(** The first two arguments. *)
Lemma plan_first (cm : index_constraint) (qv kv : sval) :
  cs !! iMatch = Some cm -> is_match_term p cm = true -> rhs !! iMatch = Some (ArgValue qv) ->
  (forall i c, cs !! i = Some c -> is_k_term p c = true -> rhs !! i = Some (ArgValue kv)) ->
  (exists rest, its = PMatch :: PK :: rest /\ (PMatch ∉ rest) /\ (PK ∉ rest)) /\
  argv !! 0%nat = Some (ArgValue qv) /\ argv !! 1%nat = Some (ArgValue kv).
Proof.
  intros Hcm Hm Hqv Hkv. destruct plan_argv as [_ Ha]. destruct (kp_items _ _ _ _ _ _ Hp) as (rest & E & _ & Hrest).
  assert (Hno : forall it, it = PMatch \/ it = PK -> it ∉ rest.*2).
  { intros it Hit ([i it'] & -> & Hin)%list_elem_of_fmap. cbn in Hit. apply Hrest in Hin as (c & _ & Hc).
    revert Hc. unfold filter_item, partition_item, metadata_item.
    repeat case_match; intros Hc; simplify_eq; try (by destruct Hit); try (apply fmap_Some_1 in Hc as (? & _ & ->); by destruct Hit);
      match goal with H : _ <$> _ = Some _ |- _ => apply fmap_Some_1 in H as (? & _ & ->); by destruct Hit end. }
  split; [exists (rest.*2); unfold its; rewrite E; cbn; split; [done|]; split; apply Hno; auto|].
  destruct (kp_k _ _ _ _ _ _ Hp) as (ck & Eck & Hck). split.
  - rewrite (Ha 0%nat iMatch PMatch) by (by rewrite E). done.
  - rewrite (Ha 1%nat iK PK) by (by rewrite E). by apply (Hkv iK ck).
Qed.

End Plan.

Lemma plan_str_items (items : list (nat * plan_item)) : items_str items = plan_str items.*2.
Proof. done. Qed.

(** [xFilter] dispatches a KNN plan. *)
Lemma filter_knn_dispatch (idxNum : Z) (its : list plan_item) (argv : list filter_arg) (cur : vec0_cursor)
    (d : vec0_query_knn_data) :
  length argv = length its -> vec0Filter_knn strtod s idxNum (plan_str its) argv = Ok (Some d) ->
  vec0Filter strtod s idxNum (plan_str its) argv cur = (Ok tt, MkCursor VEC0_QUERY_PLAN_KNN None (Some d) None).
Proof.
  intros Hl Hk. unfold vec0Filter. rewrite length_plan_str, Hl.
  replace (1 + length its * 4 - 1)%nat with (length its * 4)%nat by lia.
  rewrite Nat.Div0.mod_mul, Nat.div_mul, !Nat.eqb_refl by done. cbn [Nat.add Nat.leb negb].
  change (aget 0 (plan_str its) 0) with VEC0_QUERY_PLAN_KNN. cbn. by rewrite Hk.
Qed.

(** C1: A KNN query is exact, on the data its filters decide rightly.  Let
    [xBestIndex] accept the constraints of a query with a [MATCH] on a vector
    column of a table without index, let the operands have the types of their
    columns, and let no distance be a NaN.  Further ([where_ok]): no text holds a
    NUL; if the query has an order comparison ([<], [<=], [>], [>=]) on a TEXT
    metadata column, no row holds there a text of exactly 12 characters (the
    query would fail) or one of more than 12 characters that is a proper prefix
    of the operand (it would count as equal to it); chunk ids fit into an [int]; if it has [rowid IN (...)]
    on a table with TEXT ids, each member is the id of a row (the query would
    fail).  Then [xFilter] with the plan and the values in the order of the plan
    succeeds, and stepping the cursor to its end reads the [k] rows nearest
    to the query vector, in order of distance, among the rows of the table
    that satisfy every constraint on rowid, partition and metadata columns,
    all of these if there are fewer than [k]; [k] rounds of the loop are
    enough. *)
Theorem knn_query_correct (cs : list index_constraint) (rhs : list filter_arg) (orderBy : list index_orderby)
    (colUsed : Z) (plan : index_plan) (cur : vec0_cursor) (iMatch : nat) (cm : index_constraint)
    (qv kv : sval) (q : vector) (k : Z) (fuel : nat) :
  let vcol := vec0_column_idx_to_idx p (ic_column cm) in
  db_index s = None -> where_ok cs rhs -> vec0BestIndex p cs orderBy colUsed = Some plan ->
  cs !! iMatch = Some cm -> is_match_term p cm = true -> rhs !! iMatch = Some (ArgValue qv) ->
  vector_from_value strtod qv = Some q -> query_fits s vcol q ->
  (forall i c, cs !! i = Some c -> is_k_term p c = true -> rhs !! i = Some (ArgValue kv)) ->
  value_int64 (sv_value kv) = k -> 0 <= k <= SQLITE_VEC_VEC0_K_MAX ->
  (forall r, r ∈ dom (db_rowids s) -> where_holds cs rhs r = true ->
     is_nan (knn_row s vcol (vec_bytes q) r).1 = false) ->
  (Z.to_nat k <= fuel)%nat ->
  exists cur' rows,
    vec0Filter strtod s (pl_idxNum plan) (pl_idxStr plan) (filter_argv (pl_usage plan) rhs) cur = (Ok tt, cur') /\
    drive (knn_columns s) fuel cur' = Some (shown s <$> rows) /\ StronglySorted (le_by fst) rows /\
    topk_of fst (Z.to_nat k)
      (knn_row s vcol (vec_bytes q) <$> filter (fun r => where_holds cs rhs r = true) (elements (dom (db_rowids s))))
      rows.
Proof.
  intros vcol Hix Hok Hb Hcm Hm Hqv Hvec Hfit Hkv Hk Hr Hnum Hfuel.
  destruct (best_index_knn p cs orderBy colUsed plan iMatch cm Hb Hcm Hm) as (items & iK & Hp & Hnumb).
  pose proof (plan_query_ok cs rhs plan items iMatch iK Hp Hok) as Hq.
  destruct (plan_first cs rhs plan items iMatch iK Hp Hok cm qv kv Hcm Hm Hqv Hkv) as ((rest & Hits & Hrest) & Hargs).
  pose proof (plan_matches cs rhs plan items iMatch iK Hp Hok) as Hmat.
  rewrite (kp_str _ _ _ _ _ _ Hp), plan_str_items, Hnumb. fold vcol.
  set (its := items.*2) in *. set (argv := filter_argv (pl_usage plan) rhs) in *.
  assert (Hc : filter (fun r => where_holds cs rhs r = true) (elements (dom (db_rowids s)))
               = filter (fun r => row_matches s its argv r = true) (elements (dom (db_rowids s))))
    by (apply list_filter_iff; intros r; by rewrite Hmat).
  rewrite Hc. fold (knn_candidates s its argv vcol (vec_bytes q)).
  destruct (knn_scan_data strtod s Hw its rest argv vcol qv kv q Hq Hits Hrest Hargs (conj Hvec Hfit) k)
    as (d & E & E0 & Hu & Hs & Ht); [done| |done|done|intros r Hd Hrm; apply Hnum; [done|by rewrite <- Hmat]|].
  { apply andb_true_iff in Hm as [_ Hm]. by apply (user_column_idx p USER_COLUMN_VECTOR), Hm; apply (sw_vector _ (wf_schema s Hw)). }
  eexists _, (knn_data_rows d). split; [by apply filter_knn_dispatch; [apply (qo_length _ _ _ Hq)|]|].
  split; [rewrite drive_knn by lia; by rewrite E0, drop_0|done].
Qed.

End Where.

(** ** Full scans *)

Section Fullscan.
Context {I : Type} `{IndexOps I} `{IndexSearch I} `{SqlValues} `{ScanOrder} `{QSort}.
Context (strtod : bytes -> number f64) (s : db I).

#[global] Instance position_le_total : Total position_le.
Proof.
  intros a b. unfold position_le. destruct (rr_position a.2) as [[c o]|], (rr_position b.2) as [[c' o']|]; try tauto.
  destruct (Z.lt_trichotomy c c') as [|[->|]]; [tauto| |tauto].
  destruct (Nat.le_ge_cases o o'); [left|right]; right; by split.
Qed.

#[global] Instance position_le_trans : Transitive position_le.
Proof.
  intros a b c. unfold position_le.
  destruct (rr_position a.2) as [[c1 o1]|], (rr_position b.2) as [[c2 o2]|], (rr_position c.2) as [[c3 o3]|]; try tauto.
  lia.
Qed.

Definition scan_cursor (rows : list Z) (i : nat) : vec0_cursor :=
  MkCursor VEC0_QUERY_PLAN_FULLSCAN
    (Some (MkFullscan (MkStmt rows (if (i <? length rows)%nat then Some i else None)) (length rows <=? i)%nat)) None None.

Lemma scan_cursor_next (rows : list Z) (i : nat) :
  (i < length rows)%nat -> vec0Next (scan_cursor rows i) = (Ok tt, scan_cursor rows (S i)).
Proof.
  intros Hi. unfold vec0Next, scan_cursor, stmt_step.
  cbn [cu_query_plan cu_fullscan fs_stmt st_current st_rows fs_done cu_knn cu_point].
  change (VEC0_QUERY_PLAN_FULLSCAN =? VEC0_QUERY_PLAN_FULLSCAN) with true.
  rewrite (proj2 (Nat.ltb_lt _ _) Hi), (proj2 (Nat.leb_gt _ _) Hi). cbv iota beta. do 4 f_equal. cbn [orb].
  destruct (Nat.ltb_spec (S i) (length rows)) as [H'|H'].
  - by rewrite (proj2 (Nat.leb_gt _ _) H').
  - by rewrite (proj2 (Nat.leb_le _ _) H').
Qed.

Lemma drive_scan (fuel : nat) (rows : list Z) (i : nat) :
  (length rows <= i + fuel)%nat -> drive vec0Rowid fuel (scan_cursor rows i) = Some (Ok <$> drop i rows).
Proof.
  revert i. induction fuel as [|fuel IH]; intros i Hf;
    (destruct (decide (length rows <= i)%nat) as [Hi|Hi]; 
      [rewrite drop_ge by done; apply drive_eof; by apply Nat.leb_le|]); [lia|].
  destruct (lookup_lt_is_Some_2 rows i) as [r Hr]; [lia|].
  assert (Hv : vec0Rowid (scan_cursor rows i) = Ok r).
  { unfold vec0Rowid, scan_cursor, stmt_column. cbn [cu_query_plan cu_fullscan fs_stmt st_current st_rows].
    change (VEC0_QUERY_PLAN_FULLSCAN =? VEC0_QUERY_PLAN_FULLSCAN) with true.
    rewrite (proj2 (Nat.ltb_lt _ _)) by lia. cbv iota. by rewrite (aget_lookup _ _ _ _ Hr). }
  erewrite drive_next; [|by apply Nat.leb_gt, Nat.nle_gt|apply scan_cursor_next; lia]. rewrite IH by lia.
  by rewrite (drop_S rows r i Hr), fmap_cons, Hv.
Qed.

(** C18: A full scan terminates and is complete: with any number of rounds
    that is at least the number of rows, stepping the cursor to its end
    visits every rowid of the table exactly once, in the order of chunks and
    slots; on an empty table the cursor is at its end from the start. *)
Theorem fullscan_correct (cur : vec0_cursor) (idxNum : Z) :
  exists cur' rows,
    vec0Filter strtod s idxNum [VEC0_QUERY_PLAN_FULLSCAN] [] cur = (Ok tt, cur') /\
    rows ≡ₚ map_to_list (db_rowids s) /\ StronglySorted position_le rows /\
    (vec0Eof cur' = true <-> db_rowids s = ∅) /\
    forall fuel, (size (db_rowids s) <= fuel)%nat -> drive vec0Rowid fuel cur' = Some (Ok <$> rows.*1).
Proof.
  set (rows := merge_sort position_le (scan (db_rowids s))).
  assert (Hp : rows ≡ₚ map_to_list (db_rowids s)) by (subst rows; by rewrite merge_sort_Permutation, scan_perm).
  assert (Hl : length rows.*1 = size (db_rowids s)) by (by rewrite length_fmap, Hp, length_map_to_list).
  exists (scan_cursor rows.*1 0), rows. split; [|split; [done|split; [|split]]].
  - unfold vec0Filter. cbn. unfold vec0Filter_fullscan, scan_cursor. fold rows. unfold stmt_step. cbn.
    do 4 f_equal. by destruct rows.
  - by apply (StronglySorted_merge_sort _ _).
  - unfold vec0Eof, scan_cursor. cbn [cu_query_plan cu_fullscan fs_done].
    change (VEC0_QUERY_PLAN_FULLSCAN =? VEC0_QUERY_PLAN_FULLSCAN) with true. cbv iota.
    rewrite Nat.leb_le, Hl, <- map_size_empty_iff. lia.
  - intros fuel Hf. rewrite drive_scan by lia. by rewrite drop_0.
Qed.

End Fullscan.

(** ** Point queries *)

Section Point.
Context {I : Type} `{IndexOps I} `{IndexSearch I} `{SqlValues} `{ScanOrder} `{QSort}.
Context (strtod : bytes -> number f64) (s : db I) (Hw : db_wf s).
Let p := db_vtab s.

(** Every row has its vectors. *)
Lemma row_vector_ok (r : Z) (i : nat) :
  r ∈ dom (db_rowids s) -> (i < length (vt_vector_columns p))%nat ->
  vec0_get_vector_data r i s = Ok (row_data s i r).
Proof.
  intros [[id pos] E]%elem_of_dom Hi. destruct (wf_rows s Hw _ _ E) as (c & off & ck & Hpos & Hck & Hoff & _).
  cbn in Hpos. subst pos. unfold row_data, vec0_get_vector_data, vec0_get_chunk_position. rewrite E.
  cbn [rr_position rr_id]. change (default (0, 0%nat) (Some (c, off))) with (c, off). cbv beta iota.
  destruct (lookup_lt_is_Some_2 (db_vectors s) i) as [t Ht]; [by rewrite (wf_vectors_len s Hw)|].
  destruct (wf_vectors s Hw i t Ht) as [Hu Hl]. rewrite (aget_lookup _ _ _ _ Ht).
  destruct (proj2 (Hu c)) as [base Hb]; [by apply (wf_upto s Hw); eexists|].
  rewrite Hb, blob_read_ok; [done|]. rewrite (Hl c base Hb). nia.
Qed.

Lemma point_vectors_ok (r : Z) (es : list nat) :
  r ∈ dom (db_rowids s) -> Forall (fun i => (i < length (vt_vector_columns p))%nat) es ->
  point_vectors s r es = Ok ((fun i => row_data s i r) <$> es).
Proof.
  intros Hr. induction 1 as [|i es Hi _ IH]; [done|]. cbn [point_vectors fmap list_fmap].
  rewrite row_vector_ok by done. cbn [res_bind]. by rewrite IH.
Qed.

(** A row that does not exist; every table has a vector column. *)
Lemma point_vectors_empty (r : Z) :
  (0 < length (vt_vector_columns p))%nat -> r ∉ dom (db_rowids s) ->
  point_vectors s r (seq 0 (length (vt_vector_columns p))) = Err SQLITE_EMPTY.
Proof.
  intros Hv Hr. destruct (length (vt_vector_columns p)) as [|n]; [lia|]. cbn [seq point_vectors].
  apply not_elem_of_dom in Hr. unfold vec0_get_vector_data, vec0_get_chunk_position. by rewrite Hr.
Qed.

Lemma rowid_from_id_none (v : value) :
  vt_pkIsText p = true -> (forall r, r ∈ dom (db_rowids s) -> row_has_id s r v = false) ->
  vec0_rowid_from_id s v = Err SQLITE_EMPTY.
Proof.
  intros Hpk Hno. unfold vec0_rowid_from_id, rowid_with_id.
  assert (E : filter (fun x : Z * rowid_row => sql_eq (rr_id x.2) (text_affinity v) = true) (map_to_list (db_rowids s)) = []); [|by rewrite E].
  apply elem_of_nil_inv. intros [r row] [Hs Hr%elem_of_map_to_list]%list_elem_of_filter.
  specialize (Hno r). unfold row_has_id in Hno. fold p in Hno. rewrite Hpk, Hr in Hno.
  cbn in Hs. rewrite Hs in Hno. discriminate Hno. apply elem_of_dom. by eexists.
Qed.

(** What the columns of a row hold. *)
Definition column_value (r : Z) (i : Z) : res column_result :=
  if i =? VEC0_COLUMN_ID then result_value (vec0_result_id r s)
  else if i =? vec0_column_distance_idx p then Ok CNull
  else if vec0_column_idx_is_vector p i then vector_result s r i
  else if vec0_column_idx_is_partition p i then partition_result s r i
  else if vec0_column_idx_is_auxiliary p i then auxiliary_result s r i
  else if vec0_column_idx_is_metadata p i then metadata_result s r i
  else Ok CUnset.

Lemma point_column (r : Z) (done : bool) (i : Z) : r ∈ dom (db_rowids s) ->
  vec0Column_point s (MkPoint r ((fun i => row_data s i r) <$> seq 0 (length (vt_vector_columns p))) done) false i
  = column_value r i.
Proof.
  intros Hr. unfold vec0Column_point, column_value. cbn [pt_rowid pt_vectors]. fold p.
  destruct (i =? VEC0_COLUMN_ID); [done|]. destruct (i =? vec0_column_distance_idx p); [done|].
  destruct (vec0_column_idx_is_vector p i) eqn:Ev; [|done].
  pose proof (user_column_idx p USER_COLUMN_VECTOR i _ (sw_vector _ (wf_schema s Hw)) Ev) as Hi.
  unfold vector_result. fold p. rewrite row_vector_ok by done. cbn [res_bind].
  erewrite (aget_lookup []) by (by apply lookup_fmap_seq0). done.
Qed.

Lemma point_found (sv : sval) (r : Z) :
  r ∈ dom (db_rowids s) -> row_has_id s r (sv_value sv) = true ->
  vec0Filter_point s [ArgValue sv] =
  Ok (MkPoint r ((fun i => row_data s i r) <$> seq 0 (length (vt_vector_columns p))) false).
Proof.
  intros Hr Hh. unfold vec0Filter_point. change (arg_value [ArgValue sv] 0) with (sv_value sv). fold p.
  assert (E : (if vt_pkIsText p then vec0_rowid_from_id s (sv_value sv) else Ok (value_int64 (sv_value sv))) = Ok r).
  { destruct (vt_pkIsText p) eqn:Hpk; [by apply rowid_from_id_ok|]. unfold row_has_id in Hh. fold p in Hh.
    rewrite Hpk in Hh. f_equal. lia. }
  rewrite E. by rewrite point_vectors_ok by (done || apply seq_below).
Qed.

Lemma point_absent (sv : sval) :
  (0 < length (vt_vector_columns p))%nat ->
  (forall r, r ∈ dom (db_rowids s) -> row_has_id s r (sv_value sv) = false) ->
  exists rid, vec0Filter_point s [ArgValue sv] = Ok (MkPoint rid [] true).
Proof.
  intros Hv Hno. unfold vec0Filter_point. change (arg_value [ArgValue sv] 0) with (sv_value sv). fold p.
  destruct (vt_pkIsText p) eqn:Hpk; [rewrite rowid_from_id_none by done; by eexists|].
  rewrite point_vectors_empty; [by eexists|done|]. intros Hd. specialize (Hno _ Hd).
  unfold row_has_id in Hno. fold p in Hno. rewrite Hpk in Hno. lia.
Qed.

Lemma key_dec (v : value) :
  (exists r, r ∈ dom (db_rowids s) /\ row_has_id s r v = true) \/
  (forall r, r ∈ dom (db_rowids s) -> row_has_id s r v = false).
Proof.
  destruct (decide (Exists (fun r => row_has_id s r v = true) (elements (dom (db_rowids s))))) as [He|He].
  - left. apply Exists_exists in He as (r & Hr & ?). exists r. split; [by apply elem_of_elements|done].
  - right. intros r Hr. apply not_true_is_false. intros Hh. apply He, Exists_exists. exists r.
    split; [by apply elem_of_elements|done].
Qed.

(** C19: A point query finds the row.  For [rowid = ?], or [id = ?] in a
    table with TEXT keys, where a number is compared by its text, [xFilter] always succeeds on a table that satisfies
    the invariant; if a row has the key, the cursor visits this row and no
    other, and each column reads what the table stores for it; otherwise the
    cursor is at its end from the start. *)
Theorem point_query_correct (sv : sval) (cur : vec0_cursor) (idxNum : Z) :
  (0 < length (vt_vector_columns p))%nat ->
  exists cur',
    vec0Filter strtod s idxNum (VEC0_QUERY_PLAN_POINT :: plain_entry VEC0_IDXSTR_KIND_POINT_ID) [ArgValue sv] cur
    = (Ok tt, cur') /\
    ((forall r, r ∈ dom (db_rowids s) -> row_has_id s r (sv_value sv) = false) -> vec0Eof cur' = true) /\
    (forall r, r ∈ dom (db_rowids s) -> row_has_id s r (sv_value sv) = true ->
       forall (fuel : nat) (columns : list Z), drive (fun cur => (vec0Rowid cur, vec0Column s cur false <$> columns)) (S fuel) cur'
       = Some [(Ok r, column_value r <$> columns)]).
Proof.
  intros Hv.
  assert (Hd : forall d, vec0Filter_point s [ArgValue sv] = Ok d ->
    vec0Filter strtod s idxNum (VEC0_QUERY_PLAN_POINT :: plain_entry VEC0_IDXSTR_KIND_POINT_ID) [ArgValue sv] cur
    = (Ok tt, MkCursor VEC0_QUERY_PLAN_POINT None None (Some d))) by (intros d E; unfold vec0Filter; cbn; by rewrite E).
  destruct (key_dec (sv_value sv)) as [(r & Hr & Hh)|Hno].
  - pose proof (point_found sv r Hr Hh) as E. eexists. split; [by apply Hd|]. split.
    + intros Hno. by rewrite (Hno r Hr) in Hh.
    + intros r' Hr' Hh' fuel columns.
      assert (r' = r) as -> by (pose proof (point_found sv r' Hr' Hh'); congruence).
      erewrite drive_next by reflexivity. rewrite drive_eof by done. cbn. do 3 f_equal.
      apply list_fmap_ext. intros _ i _. unfold vec0Column. cbn. by apply point_column.
  - destruct (point_absent sv Hv Hno) as [rid E]. eexists. split; [by apply Hd|]. split; [done|].
    intros r Hr Hh. by rewrite (Hno r Hr) in Hh.
Qed.

End Point.
