(* ===== verification/QueryIndex.v ===== *)
(** * KNN queries with a vector index (sqlite-vec.c, [vec0Filter_knn],
    the branches on [indexType])

    What a query relies on when it searches an index, the three indexes as
    instances, and what the rows of an indexed query are. *)

From stdpp Require Import base option list numbers gmap sorting sets.
From Stdlib Require Import ZArith Lia SpecFloat.
From S2P Require Import Prelude Float32 Bitmap TopK CLib Distance KDTree KDSearch IVF IVFSearch HNSW.
From S2P Require Import Codec Shadow DefParser Metadata Values Storage Table Refine Index.
From S2P Require Import Filter Plan Query QuerySpec.

Local Open Scope Z_scope.
Local Open Scope query_scope.

Definition IVF_N_PROBE : Z := 8.

(** ** The interface

    A search of an index that is ready returns rows that pass the rowid
    filter, with their distances, at most [K_EXT * k]; rowids in the range of
    a non-negative [int]. *)
Class SearchLaws (I : Type) `{VecIndex I} `{IndexSearch I} := {
  ix_ready : I -> Prop;
  ix_distance : I -> list f32 -> list f32 -> f32;
  ix_search_law : forall ix q k m,
    ix_inv ix -> ix_ready ix -> (0 < k)%nat -> rowid_map_wf m -> StronglySorted Z.le (rowid_map_elems m) ->
    rm_pre_filter m = true -> (forall r, r ∈ rowid_map_elems m -> 0 <= r < 2 ^ 31) ->
    (forall row, row ∈ ix_rows ix -> 0 <= row.1 < 2 ^ 31 /\ is_nan (ix_distance ix q row.2) = false) ->
    exists rows, ix_search ix q k m = Ok (Some rows) /\ (length rows <= K_EXT * k)%nat /\
      forall d r, (d, r) ∈ rows -> r ∈ rowid_map_elems m /\ exists v, (r, v) ∈ ix_rows ix /\ d = ix_distance ix q v
}.

(** ** The KD-tree; a HYBRID index is searched without the filter *)

Section KD.
Context `{QSort} (distfunc : DistanceFunc) (hybrid : bool).

#[global] Instance kdtree_search : IndexSearch KDTree := {
  ix_pre_filter _ := negb hybrid;
  ix_search t q k m :=
    let n := (K_EXT * k)%nat in
    Ok (Some (buf_rows (kdtree_topk distfunc m q (kt_dimensions t) n (kt_root t) (replicate n 0) (replicate n f32_zero))))
}.

#[global] Program Instance kdtree_search_laws : SearchLaws KDTree := {
  ix_ready _ := True;
  ix_distance t q v := distfunc q v (kt_dimensions t)
}.
Next Obligation.
  intros t q k m _ _ Hk Hm Hs Hpre _ _. cbn. set (n := (k + (k + 0))%nat). set (b0 := TopkBuf (replicate n 0) (replicate n f32_zero) 0).
  assert (Hwf : buf_wf n b0) by (repeat split; cbn; rewrite ?length_replicate; lia).
  rewrite (kdtree_topk_nonzero distfunc m q (kt_dimensions t) n (kt_root t)) by lia. fold b0.
  eexists. split; [done|]. split.
  - rewrite length_buf_rows. apply (search_wf distfunc m q (kt_dimensions t) n (kt_root t)) in Hwf. apply Hwf.
  - intros d r [Hy|Hy]%(search_sound distfunc m q (kt_dimensions t) n); [|by apply elem_of_nil in Hy|done].
    apply elem_of_candidates in Hy as (x & Hx & Hp & [= -> ->]).
    apply (rowid_map_pass_iff m (pr_rowid x) Hm Hs) in Hp as [Hp|Hp]; [congruence|]. split; [done|].
    exists (pr_point x). split; [|done]. by apply (list_elem_of_fmap_2 kd_row).
Qed.

End KD.

(** ** The HNSW graph *)

Section HN.
Context (distfunc : DistanceFunc).

#[global] Instance hnsw_index_search : IndexSearch (HNSW * list nat) := {
  ix_pre_filter _ := true;
  ix_search h q k m :=
    let k_ext := if (K_EXT * k <? EF_CONSTRUCTION)%nat then (k * K_EXT)%nat else EF_CONSTRUCTION in
    match hnsw_search distfunc h.1 q EF_CONSTRUCTION k_ext m with
    | Some rows => Ok (Some rows)
    | None => Undef
    end
}.

(** A live node at or after the entry node. *)
Definition hnsw_ready (h : HNSW) : Prop := exists e k, h_entry_id h = Z.of_nat e /\ (e <= k)%nat /\ live_id h k.

#[global] Program Instance hnsw_search_laws :
    @SearchLaws (HNSW * list nat) (hnsw_ops distfunc) (hnsw_index distfunc) hnsw_index_search := {
  ix_ready h := hnsw_ready h.1;
  ix_distance h q v := distfunc v q (h_dim h.1)
}.
Next Obligation.
  intros [h ds] q k m Hinv (e & j & He & Hej & Hj) Hk Hm Hs Hpre Hmap Hrows.
  cbn in Hinv, He, Hej, Hj, Hmap, Hrows. cbn -[Nat.ltb Nat.mul K_EXT EF_CONSTRUCTION].
  pose proof Hinv as (_ & Hw & _).
  match goal with |- context [hnsw_search _ _ _ _ ?ke _] => set (k_ext := ke) end.
  destruct (hnsw_search_spec distfunc h q m EF_CONSTRUCTION Hw k_ext e j He Hej Hj)
    as (st & ids & _ & (_ & Hids & _ & _) & E). rewrite E. eexists. split; [done|]. split.
  { rewrite length_take. subst k_ext. destruct (Nat.ltb_spec (K_EXT * k) EF_CONSTRUCTION); lia. }
  assert (Hhit : forall x, x ∈ node_hits distfunc h q m ids -> exists n, n ∈ h_nodes h /\ hn_deleted n = false /\
    passes m n = true /\ x = (distfunc (hn_vec n) q (h_dim h), hn_rowid n) /\ (hn_level n < MAX_LEVELS)%nat).
  { intros x (n & -> & [Hp (i & Hi & Hn)%list_elem_of_omap]%list_elem_of_filter)%list_elem_of_fmap.
    exists n. split; [by eapply list_elem_of_lookup_2|]. destruct (Hids i Hi) as [(n' & Hn' & Hd) _].
    rewrite Hn in Hn'. injection Hn' as <-. do 3 (split; [done|]). apply (Hw i n Hn). }
  assert (Hlive : forall n, n ∈ h_nodes h -> hn_deleted n = false -> (hn_rowid n, hn_vec n) ∈ hnsw_live h).
  { intros n Hn Hd. apply (list_elem_of_fmap_2 (fun n => (hn_rowid n, hn_vec n))). by apply list_elem_of_filter. }
  assert (Hnum : all_num fst (node_hits distfunc h q m ids)).
  { intros x (n & Hn & Hd & _ & -> & _)%Hhit. cbn. by apply (Hrows (hn_rowid n, hn_vec n)), Hlive. }
  destruct (exchange_sort_spec (f32_zero, 0) fst _ Hnum) as [P _].
  intros d r Hx. eapply elem_of_submseteq in Hx; [|apply sublist_submseteq, sublist_take]. rewrite P in Hx.
  apply Hhit in Hx as (n & Hn & Hd & Hp & [= -> ->] & Hl). pose proof (Hlive n Hn Hd) as Hin.
  apply (hnsw_prefilter_needs_level_0 m n Hm Hs Hpre Hmap (proj1 (Hrows _ Hin)) Hl) in Hp as (_ & _ & Hr).
  split; [done|]. by exists (hn_vec n).
Qed.

End HN.

(** ** The IVF index; not searched before it is trained *)

Section IV.
Context (distfunc : DistanceFunc).

Lemma probed_rows_sub (f : IVF) (cs : list nat) (row : Z * list f32) : row ∈ probed_rows f cs -> row ∈ ivf_rows f.
Proof.
  unfold probed_rows, ivf_rows. rewrite !list_elem_of_In, !in_concat. intros (l & Hl & Hr).
  apply list_elem_of_In, list_elem_of_fmap in Hl as (c & -> & _). unfold list_at, aget in Hr.
  destruct (ivf_lists f !! c) as [l|] eqn:E; cbn in Hr; [|done]. exists (il_rows (ivf_dim f) l).
  split; [|done]. apply list_elem_of_In, list_elem_of_fmap_2. by eapply list_elem_of_lookup_2.
Qed.

#[global] Instance ivf_index_search : IndexSearch (IVF * list Z) := {
  ix_pre_filter _ := true;
  ix_search f q k m :=
    if ivf_trained f.1 then Ok (Some (ivf_search distfunc f.1 q (Z.of_nat (k * K_EXT)) IVF_N_PROBE m)) else Ok None
}.

#[global] Program Instance ivf_search_laws :
    @SearchLaws (IVF * list Z) (ivf_ops distfunc) (ivf_index distfunc) ivf_index_search := {
  ix_ready f := ivf_trained f.1 = true;
  ix_distance f q v := distfunc q v (ivf_dim f.1)
}.
Next Obligation.
  intros [f rand] q k m Hinv Ht Hk Hm Hs Hpre _ Hrows.
  cbn in Hinv, Ht, Hrows. cbn -[Z.of_nat Nat.mul K_EXT]. rewrite Ht. eexists. split; [done|].
  destruct Hinv as (Hwf & _ & Hts). rewrite Ht in Hts.
  set (np := min (ivf_nlist f) (search_nprobe f IVF_N_PROBE)). set (probes := select_nprobe distfunc f q np).
  assert (Hsub : forall row, row ∈ probed_rows f probes -> row ∈ ivf_contents f).
  { intros row Hr. unfold ivf_contents. apply elem_of_app. right. by apply probed_rows_sub in Hr. }
  assert (Hhit : forall x, x ∈ row_hits distfunc f q m (probed_rows f probes) -> exists row, row ∈ ivf_contents f /\
    rowid_map_pass m row.1 = true /\ x = (distfunc q row.2 (ivf_dim f), row.1)).
  { intros x (row & -> & [Hp Hr]%list_elem_of_filter)%list_elem_of_fmap. exists row. auto. }
  assert (Hnum : all_num fst (row_hits distfunc f q m (probed_rows f probes))).
  { intros x (row & Hr & _ & ->)%Hhit. by apply (Hrows row). }
  destruct (ivf_search_spec distfunc f q (Z.of_nat (k * K_EXT)) IVF_N_PROBE m ltac:(unfold K_EXT; lia) Hnum) as [Htk _].
  split; [destruct Htk as (? & _ & -> & _); unfold K_EXT; lia|]. intros d r Hx%(topk_of_elem _ _ _ _ _ Htk).
  apply Hhit in Hx as ([r' v] & Hr & Hp & [= -> ->]). cbn in *.
  apply (rowid_map_pass_iff m r' Hm Hs) in Hp as [Hp|Hp]; [congruence|]. split; [done|]. by exists v.
Qed.

End IV.

(** ** Queries on a table in agreement with its index *)

Section Indexed.
Context {I : Type} `{SearchLaws I} `{SqlValues} `{ScanOrder} `{QSort}.
Context (strtod : bytes -> number f64) (s : db I) (Hw : db_wf s) (i : nat) (ix : I) (Ha : agrees s i ix).
Let p := db_vtab s.
Let col := vector_column p i.

(** A float vector that fits the indexed column has the dimensions of the index. *)
Lemma index_query_floats (qv : sval) (q : vector) :
  vector_from_value strtod qv = Some q -> query_fits s i q -> vc_element_type col = SQLITE_VEC_ELEMENT_TYPE_FLOAT32 ->
  length (vec_bytes q) = (ix_dim ix * 4)%nat.
Proof.
  intros Hv [Ht Hd] Hc. destruct Ha as (_ & _ & _ & Hdim & _). pose proof (vector_from_value_wf strtod qv q Hv) as Hwf.
  fold p col in Ht, Hd, Hdim. unfold vector_wf in Hwf. rewrite Ht, Hc in Hwf. destruct Hwf as (_ & Hl & _).
  rewrite Hl. cbn. rewrite Hdim. lia.
Qed.

(** The rows of the index are rows of the table. *)
Lemma index_row (r : Z) (v : list f32) : (r, v) ∈ ix_rows ix -> r ∈ dom (db_rowids s) /\ v = row_floats s i r.
Proof.
  destruct Ha as (_ & _ & _ & _ & Hrows). rewrite Hrows. unfold table_rows.
  intros (r' & [= -> ->] & Hr)%list_elem_of_fmap. split; [by apply elem_of_elements|done].
Qed.

Lemma indexed_knn_run (its rest : list plan_item) (argv : list filter_arg) (qv kv : sval) (q : vector) (k : Z) :
  query_ok s its argv -> its = PMatch :: PK :: rest -> (PMatch ∉ rest) /\ (PK ∉ rest) ->
  argv !! 0%nat = Some (ArgValue qv) /\ argv !! 1%nat = Some (ArgValue kv) ->
  vector_from_value strtod qv = Some q -> query_fits s i q -> vc_element_type col = SQLITE_VEC_ELEMENT_TYPE_FLOAT32 ->
  value_int64 (sv_value kv) = k -> 0 < k <= SQLITE_VEC_VEC0_K_MAX ->
  ix_pre_filter ix = true -> ix_ready ix ->
  (forall r, r ∈ dom (db_rowids s) -> 0 <= r < 2 ^ 31 /\
     is_nan (ix_distance ix (vector_floats (vec_bytes q) (ix_dim ix)) (row_floats s i r)) = false) ->
  exists d rows, vec0Filter_knn strtod s (Z.of_nat i) (plan_str its) argv = Ok (Some d) /\
    kq_current_idx d = 0%nat /\ knn_data_rows d = rows /\ (length rows <= K_EXT * Z.to_nat k)%nat /\
    kq_k_used d = length rows /\
    forall dist r, (dist, r) ∈ rows -> r ∈ dom (db_rowids s) /\ row_matches s its argv r = true /\
      dist = ix_distance ix (vector_floats (vec_bytes q) (ix_dim ix)) (row_floats s i r).
Proof.
  intros Hq Hits Hrest Hargs Hv Hfit Hc Hk Hr Hpre Hready Hrange.
  destruct (knn_checks strtod s Hw its rest argv i qv kv q Hq Hits Hrest Hargs (conj Hv Hfit) k Hk Hr)
    as (arr & ins & Harr & Hins & E).
  destruct (knn_rowid_map s Hw its argv Hq arr ins true Harr Hins) as (chunks & m & E1 & E2 & Hm & Hp & Hs & HP).
  pose proof Ha as (Hx & _ & Hinv & _). set (qf := vector_floats (vec_bytes q) (ix_dim ix)) in *.
  destruct (ix_search_law ix qf (Z.to_nat k) m Hinv Hready ltac:(lia) Hm Hs Hp) as (rows & E3 & Hl & Hrows).
  { intros r Hr'. rewrite HP in Hr'. apply list_elem_of_filter in Hr' as [_ Hr'%elem_of_elements]. by apply Hrange. }
  { intros [r v] Hrow. destruct (index_row r v Hrow) as [Hd ->]. by apply Hrange. }
  exists (MkKnn k (length rows) rows.*2 rows.*1 0), rows. rewrite E. unfold knn_run. rewrite E1. cbn [res_bind].
  rewrite Hx, Hpre, E2. cbn [res_bind]. rewrite (index_query_floats qv q Hv Hfit Hc), Nat.ltb_irrefl. fold qf.
  rewrite E3. cbn [res_bind]. split; [done|]. split; [done|]. split; [|split; [done|split; [done|]]].
  - unfold knn_data_rows. cbn. pose proof (acc_rows_prefix rows [] []) as Hacc. by rewrite !app_nil_r in Hacc.
  - intros dist r Hd. destruct (Hrows dist r Hd) as (Hr' & v & Hv' & ->). destruct (index_row r v Hv') as [Hdom ->].
    rewrite HP in Hr'. by apply list_elem_of_filter in Hr' as [? _].
Qed.

(** C15: A KNN query on an indexed table is sound, on the data its filters decide
    rightly.  Let the index be in agreement with the table, ready to be searched
    and not HYBRID; let the query be on the indexed column, of type [float32],
    with [k] positive; let the rowids lie between 0 and 2^31, since the index
    keeps them as [int], and let no distance be a NaN.  Further ([where_ok]): no
    text holds a NUL; under an order comparison on a TEXT metadata column no row
    holds a text of exactly 12 characters (the query would fail) or a longer one
    that is a proper prefix of the operand (it would count as equal to it); the
    members of a [rowid IN (...)] on a table with TEXT ids are ids of rows (the
    query would fail).  Then [xFilter] succeeds, and the
    cursor reads at most [2 k] rows, each of them a row of the table that
    satisfies every constraint on rowid, partition and metadata columns, with
    the distance of the index between the query and the vector the table
    stores for it. *)
Theorem indexed_knn_sound (cs : list index_constraint) (rhs : list filter_arg) (orderBy : list index_orderby)
    (colUsed : Z) (plan : index_plan) (cur : vec0_cursor) (iMatch : nat) (cm : index_constraint)
    (qv kv : sval) (q : vector) (k : Z) (fuel : nat) :
  let qf := vector_floats (vec_bytes q) (ix_dim ix) in
  ix_pre_filter ix = true -> ix_ready ix -> vc_element_type col = SQLITE_VEC_ELEMENT_TYPE_FLOAT32 ->
  where_ok s cs rhs -> vec0BestIndex p cs orderBy colUsed = Some plan ->
  cs !! iMatch = Some cm -> is_match_term p cm = true -> vec0_column_idx_to_idx p (ic_column cm) = i ->
  rhs !! iMatch = Some (ArgValue qv) -> vector_from_value strtod qv = Some q -> query_fits s i q ->
  (forall i c, cs !! i = Some c -> is_k_term p c = true -> rhs !! i = Some (ArgValue kv)) ->
  value_int64 (sv_value kv) = k -> 0 < k <= SQLITE_VEC_VEC0_K_MAX ->
  (forall r, r ∈ dom (db_rowids s) -> 0 <= r < 2 ^ 31 /\ is_nan (ix_distance ix qf (row_floats s i r)) = false) ->
  (K_EXT * Z.to_nat k <= fuel)%nat ->
  exists cur' rows,
    vec0Filter strtod s (pl_idxNum plan) (pl_idxStr plan) (filter_argv (pl_usage plan) rhs) cur = (Ok tt, cur') /\
    drive (knn_columns s) fuel cur' = Some (shown s <$> rows) /\ (length rows <= K_EXT * Z.to_nat k)%nat /\
    forall dist r, (dist, r) ∈ rows ->
      r ∈ dom (db_rowids s) /\ where_holds s cs rhs r = true /\ dist = ix_distance ix qf (row_floats s i r).
Proof.
  intros qf Hpre Hready Hc Hok Hb Hcm Hm Hi Hqv Hvec Hfit Hkv Hk Hr Hrange Hfuel.
  destruct (best_index_knn p cs orderBy colUsed plan iMatch cm Hb Hcm Hm) as (items & iK & Hp & Hnumb).
  pose proof (plan_query_ok s Hw cs rhs plan items iMatch iK Hp Hok) as Hq.
  destruct (plan_first s cs rhs plan items iMatch iK Hp Hok cm qv kv Hcm Hm Hqv Hkv) as ((rest & Hits & Hrest) & Hargs).
  pose proof (plan_matches s cs rhs plan items iMatch iK Hp Hok) as Hmat.
  rewrite (kp_str _ _ _ _ _ _ Hp), plan_str_items, Hnumb, Hi.
  destruct (indexed_knn_run _ rest _ qv kv q k Hq Hits Hrest Hargs Hvec Hfit Hc Hk Hr Hpre Hready Hrange)
    as (d & rows & E & E0 & Ed & Hl & Hu & Hrows).
  eexists _, rows. split; [by apply filter_knn_dispatch; [apply (qo_length _ _ _ Hq)|]|].
  split; [rewrite drive_knn by lia; by rewrite E0, drop_0, Ed|]. split; [done|].
  intros dist r Hx. destruct (Hrows dist r Hx) as (H1' & H2' & H3'). split; [done|]. split; [by rewrite <- Hmat|done].
Qed.

End Indexed.
