(* ===== verification/QueryDemo.v ===== *)
(** * Queries on concrete tables

    Instances of the interfaces the queries are stated over (SQLite's value
    conversions, the order of its scans, a table without index), and the
    theorems on queries applied to small tables. *)

From stdpp Require Import base option list numbers gmap sorting sets.
From Stdlib Require Import ZArith Lia SpecFloat.
From S2P Require Import Prelude Float32 Bitmap TopK CLib Distance KDTree KDSearch Codec Shadow DefParser Metadata.
From S2P Require Import Values Scalar Storage Table Refine Index Filter Plan Query QuerySpec QueryIndex.

Local Open Scope Z_scope.

(** ** Instances *)

(** The conversions of [sqlite3_value_int64], [_double] and [_text] on values
    of their own type, the text of an integer, and the order of values of one type. *)
Definition own_int64 (v : value) : Z := match v with VInt z => z | _ => 0 end.
Definition own_double (v : value) : f64 := match v with VFloat b => f64_of_bits b | _ => f64_of_bits 0 end.
Definition own_text (v : value) : bytes := match v with VText t => t | VInt z => fmt_d z | _ => [] end.

#[local] Instance own_values : SqlValues := {|
  value_int64 := own_int64;
  value_double := own_double;
  value_text := own_text;
  sql_compare a b := match a, b with
    | VInt x, VInt y => Some (x ?= y)
    | VText x, VText y => Some (bytes_compare x y)
    | _, _ => None
    end;
  value_int64_int _ := eq_refl;
  value_double_float _ := eq_refl;
  value_text_text _ := eq_refl
|}.

#[local] Instance map_order : ScanOrder := {|
  scan A t := map_to_list t;
  scan_perm A t := reflexivity _
|}.

#[local] Existing Instance no_index.

#[local] Instance no_search : IndexSearch Empty_set := {|
  ix_pre_filter (i : Empty_set) := match i with end;
  ix_search (i : Empty_set) _ _ _ := match i with end
|}.

(** ** The table: rows [a] and [b] of [Refine] *)

Lemma demo_insert_two : insert_ok no_strtod demo_one (demo_row 98 [3; 4]) None.
Proof.
  split; try (solve_columns; first [reflexivity|by eexists|split; reflexivity]).
  - done.
  - split; [by eexists|]. intros r row Hr%elem_of_map_to_list. vm_compute in Hr.
    apply list_elem_of_singleton in Hr. by injection Hr as -> ->.
  - split; reflexivity.
  - reflexivity.
Qed.

Lemma demo_two_wf : db_wf demo_two.
Proof.
  destruct (insert_spec no_strtod demo_one (demo_row 98 [3; 4]) None demo_one_wf demo_insert_two) as (s' & E & Hw & _).
  unfold demo_two. by rewrite E.
Qed.

Lemma demo_two_rows (r : Z) : r ∈ dom (db_rowids demo_two) -> r = 1 \/ r = 2.
Proof.
  intros Hr%elem_of_elements. vm_compute in Hr.
  apply elem_of_cons in Hr as [->|Hr]; [auto|]. apply elem_of_cons in Hr as [->|Hr]; [auto|]. by apply elem_of_nil in Hr.
Qed.

Lemma demo_two_metadata (r : Z) (v : value) :
  vec0_result_metadata_value_for_rowid r 0 demo_two = Ok v -> v = VText (replicate 20 90).
Proof.
  intros Hv. destruct (db_rowids demo_two !! r) as [row|] eqn:E.
  - destruct (demo_two_rows r) as [->| ->]; [by apply elem_of_dom; eexists|..]; vm_compute in Hv; by injection Hv as <-.
  - unfold vec0_result_metadata_value_for_rowid, vec0_get_chunk_position in Hv. rewrite E in Hv. discriminate Hv.
Qed.

(** ** A filter on the metadata column: [m <= 'ZZ..Z'] with nineteen letters *)

Definition demo_filter : metadata_filter := FCompare METADATA_OPERATOR_GE (VText (replicate 19 90)).

Lemma demo_filter_safe (v : value) : v = VText (replicate 20 90) -> value_safe demo_filter v.
Proof.
  intros ->. split; [repeat constructor; discriminate|]. split; [discriminate|]. intros _ E. discriminate E.
Qed.

Lemma demo_filter_ok (kind : vec0_metadata_column_kind) : kind = METADATA_KIND_TEXT -> filter_ok kind demo_filter.
Proof. intros ->. split; [discriminate|repeat constructor; discriminate]. Qed.

Lemma metadata_filter_correct_witness :
  exists b', bitmap_wf 8 b' /\ bitmap_test b' 0 = true /\ bitmap_test b' 1 = true.
Proof.
  destruct (db_chunks demo_two !! 1) as [ck|] eqn:Hck; [|vm_compute in Hck; discriminate Hck].
  destruct (db_metadata demo_two !! 0%nat) as [m|] eqn:Hm; [|vm_compute in Hm; discriminate Hm].
  destruct (metadata_filter_correct demo_two 1 ck 0 m demo_filter [] 0 demo_two_wf Hck) as [Hdecided _];
    [done|exact Hm|apply demo_filter_ok; vm_compute; reflexivity|exact I|..].
  { intros r off v [_ Hv%demo_two_metadata]. by apply demo_filter_safe. }
  destruct Hdecided as (b' & _ & Hb & Hr).
  { intros r off v [_ Hv%demo_two_metadata]. by apply demo_filter_safe. }
  exists b'. split; [exact Hb|].
  split.
  - destruct (Hr 1 0%nat) as (v & Hv & -> & _); [vm_compute; eexists; reflexivity|].
    apply demo_two_metadata in Hv as ->. reflexivity.
  - destruct (Hr 2 1%nat) as (v & Hv & -> & _); [vm_compute; eexists; reflexivity|].
    apply demo_two_metadata in Hv as ->. reflexivity.
Defined.

(** ** A KNN query: [v MATCH \[3, 4\] AND k = 1 AND p = 7 AND m >= 'ZZ..Z'] *)

Definition demo_constraints : list index_constraint :=
  [MkConstraint 1 SQLITE_INDEX_CONSTRAINT_MATCH true false; MkConstraint 6 SQLITE_INDEX_CONSTRAINT_EQ true false;
   MkConstraint 2 SQLITE_INDEX_CONSTRAINT_EQ true false; MkConstraint 4 SQLITE_INDEX_CONSTRAINT_GE true false].

Definition demo_operands : list filter_arg :=
  [ArgValue (demo_int8 [3; 4]); ArgValue (MkSval (VInt 1) 0); ArgValue (MkSval (VInt 7) 0);
   ArgValue (MkSval (VText (replicate 19 90)) 0)].

Lemma demo_where_ok : where_ok demo_two demo_constraints demo_operands.
Proof.
  split; [reflexivity|vm_compute; reflexivity|..].
  - intros [|[|[|[|i]]]] c a idx op Hc Ha Hf; cbn in Hc, Ha; try discriminate Hc; injection Hc as <-; injection Ha as <-;
      vm_compute in Hf; try discriminate Hf; injection Hf as <- <-.
    split; [apply demo_filter_ok; vm_compute; reflexivity|]. split; [reflexivity|].
    intros r v Hv%demo_two_metadata. by apply demo_filter_safe.
  - intros [|[|[|[|i]]]] c Hc Hf; cbn in Hc; try discriminate Hc; injection Hc as <-; vm_compute in Hf; discriminate Hf.
Qed.

Definition demo_query_plan : index_plan := default (MkPlan 0 [] []) (vec0BestIndex demo_vtab demo_constraints [] 0).

Lemma knn_query_correct_witness :
  exists cur',
    vec0Filter no_strtod demo_two (pl_idxNum demo_query_plan) (pl_idxStr demo_query_plan)
      (filter_argv (pl_usage demo_query_plan) demo_operands) vec0Open = (Ok tt, cur') /\
    drive (fun cur => vec0Column demo_two cur false 0) 1 cur' = Some [Ok (CValue (VText [98]))].
Proof.
  destruct (knn_query_correct no_strtod demo_two demo_two_wf demo_constraints demo_operands [] 0 demo_query_plan
    vec0Open 0 (MkConstraint 1 SQLITE_INDEX_CONSTRAINT_MATCH true false) (demo_int8 [3; 4]) (MkSval (VInt 1) 0)
    (MkVector SQLITE_VEC_ELEMENT_TYPE_INT8 2 [3; 4]) 1 1) as (cur' & rows & E & _).
  - vm_compute. reflexivity.
  - exact demo_where_ok.
  - vm_compute. reflexivity.
  - reflexivity.
  - reflexivity.
  - reflexivity.
  - reflexivity.
  - split; vm_compute; reflexivity.
  - intros [|[|[|[|i]]]] c Hc Hf; cbn in Hc; try discriminate Hc; injection Hc as <-; vm_compute in Hf;
      first [discriminate Hf|reflexivity].
  - reflexivity.
  - unfold SQLITE_VEC_VEC0_K_MAX. lia.
  - intros r Hr _. destruct (demo_two_rows r Hr) as [->| ->]; vm_compute; reflexivity.
  - lia.
  - exists cur'. split; [exact E|]. 
    assert (Hc : cur' = (vec0Filter no_strtod demo_two (pl_idxNum demo_query_plan) (pl_idxStr demo_query_plan)
      (filter_argv (pl_usage demo_query_plan) demo_operands) vec0Open).2) by (rewrite E; reflexivity).
    rewrite Hc. vm_compute. reflexivity.
Defined.

(** ** Scans and point queries *)

Lemma fullscan_correct_witness :
  exists cur', vec0Filter no_strtod demo_two 0 [VEC0_QUERY_PLAN_FULLSCAN] [] vec0Open = (Ok tt, cur') /\
    exists rows, drive vec0Rowid 2 cur' = Some (Ok <$> rows.*1) /\ rows ≡ₚ map_to_list (db_rowids demo_two).
Proof.
  destruct (fullscan_correct no_strtod demo_two vec0Open 0) as (cur' & rows & E & Hp & _ & _ & Hd).
  exists cur'. split; [exact E|]. exists rows. split; [apply Hd; vm_compute; lia|exact Hp].
Defined.

Lemma point_query_correct_witness :
  exists cur',
    vec0Filter no_strtod demo_two 0 (VEC0_QUERY_PLAN_POINT :: plain_entry VEC0_IDXSTR_KIND_POINT_ID)
      [ArgValue (MkSval (VText [98]) 0)] vec0Open = (Ok tt, cur') /\
    drive (fun cur => (vec0Rowid cur, vec0Column demo_two cur false <$> [0; 2])) 1 cur'
    = Some [(Ok 2, [Ok (CValue (VText [98])); Ok (CValue (VInt 7))])].
Proof.
  destruct (point_query_correct no_strtod demo_two demo_two_wf (MkSval (VText [98]) 0) vec0Open 0)
    as (cur' & E & _ & Hd); [vm_compute; lia|].
  exists cur'. split; [exact E|]. rewrite (Hd 2); [vm_compute; reflexivity..].
Defined.

(** A number finds the row whose TEXT id is its text. *)
Lemma number_finds_text : sql_eq (VText [53]) (text_affinity (VInt 5)) = true.
Proof. vm_compute. reflexivity. Qed.

(** ** A KNN query on the table with a KD-tree: [v MATCH \[2.0\] AND k = 1 AND rowid IN (2, 5)] *)

#[local] Instance kd_l2 : IndexSearch KDTree := kdtree_search distance_l2_sqr_float false.
#[local] Instance kd_l2_laws : SearchLaws KDTree := kdtree_search_laws distance_l2_sqr_float false.

Definition kd_constraints : list index_constraint :=
  [MkConstraint 1 SQLITE_INDEX_CONSTRAINT_MATCH true false; MkConstraint 3 SQLITE_INDEX_CONSTRAINT_EQ true false;
   MkConstraint 0 SQLITE_INDEX_CONSTRAINT_EQ true true].

Definition kd_query : sval := MkSval (VBlob [0; 0; 0; 64]) 223.

Definition kd_operands : list filter_arg := [ArgValue kd_query; ArgValue (MkSval (VInt 1) 0); ArgIn [VInt 2; VInt 5]].

Definition kd_plan : index_plan := default (MkPlan 0 [] []) (vec0BestIndex kd_vtab kd_constraints [] 0).

Lemma kd_where_ok : where_ok (kd_run kd_history) kd_constraints kd_operands.
Proof.
  split; [reflexivity|vm_compute; reflexivity|..].
  - intros [|[|[|i]]] c a idx op Hc Ha Hf; cbn in Hc, Ha; try discriminate Hc; injection Hc as <-; injection Ha as <-;
      vm_compute in Hf; discriminate Hf.
  - intros [|[|[|i]]] c Hc Hf; cbn in Hc; try discriminate Hc; injection Hc as <-; vm_compute in Hf; try discriminate Hf.
    exists [VInt 2; VInt 5]. split; [reflexivity|]. intros Hx. vm_compute in Hx. discriminate Hx.
Qed.

Lemma kd_rows (r : Z) : r ∈ dom (db_rowids (kd_run kd_history)) -> r = 2.
Proof.
  intros Hr%elem_of_elements. vm_compute in Hr. apply elem_of_cons in Hr as [->|Hr]; [auto|]. by apply elem_of_nil in Hr.
Qed.

Lemma indexed_knn_sound_witness :
  exists cur' rows,
    vec0Filter no_strtod (kd_run kd_history) (pl_idxNum kd_plan) (pl_idxStr kd_plan)
      (filter_argv (pl_usage kd_plan) kd_operands) vec0Open = (Ok tt, cur') /\
    drive (knn_columns (kd_run kd_history)) 2 cur' = Some (shown (kd_run kd_history) <$> rows) /\
    forall dist r, (dist, r) ∈ rows -> r = 2.
Proof.
  destruct (serves_agrees no_strtod false kd_created (kd_run kd_history) 0 (MkKDTree kd_null 1 0) kd_history
              (set_index_wf _ _ (created_wf _ kd_schema_wf)) kd_created_agrees kd_history_serves) as (ix & Hw & Ha).
  assert (Hix : ix = default (MkKDTree kd_null 1 0) (db_index (kd_run kd_history))) by (by rewrite (proj1 Ha)).
  destruct (indexed_knn_sound no_strtod (kd_run kd_history) Hw 0 ix Ha kd_constraints kd_operands [] 0 kd_plan
    vec0Open 0 (MkConstraint 1 SQLITE_INDEX_CONSTRAINT_MATCH true false) kd_query (MkSval (VInt 1) 0)
    (MkVector SQLITE_VEC_ELEMENT_TYPE_FLOAT32 1 [0; 0; 0; 64]) 1 2) as (cur' & rows & E & Hd & _ & Hrows).
  - reflexivity.
  - exact I.
  - vm_compute. reflexivity.
  - exact kd_where_ok.
  - vm_compute. reflexivity.
  - reflexivity.
  - vm_compute. reflexivity.
  - vm_compute. reflexivity.
  - reflexivity.
  - reflexivity.
  - split; vm_compute; reflexivity.
  - intros [|[|[|i]]] c Hc Hf; cbn in Hc; try discriminate Hc; injection Hc as <-; vm_compute in Hf;
      first [discriminate Hf|reflexivity].
  - reflexivity.
  - unfold SQLITE_VEC_VEC0_K_MAX. lia.
  - intros r ->%kd_rows. split; [lia|]. rewrite Hix. vm_compute. reflexivity.
  - reflexivity.
  - exists cur', rows. split; [exact E|]. split; [exact Hd|]. intros dist r Hr. apply kd_rows, (Hrows dist r Hr).
Defined.
