(* ===== verification/Lifecycle.v ===== *)
(** * Creating, opening, closing and dropping tables (sqlite-vec.c,
    [vec0_init], [vec0Create], [vec0Connect], [vec0Disconnect],
    [vec0Destroy], [get_distance_func], [get_db_basename])

    [vec0_init] parses the arguments of [CREATE VIRTUAL TABLE], declares the
    columns to SQLite and, for a new table, creates the shadow tables and an
    empty index.  Closing a table saves its index to a file, opening it loads
    the file.  Names of tables are kept in lower case, as SQLite compares
    them without case. *)

From Stdlib Require Import Ascii String ZArith Lia SpecFloat.
From stdpp Require Import base option list numbers gmap strings sorting sets.
From S2P Require Import Prelude Float32 Bitmap TopK CLib Distance KDTree KDSearch IVF IVFSearch HNSW.
From S2P Require Import Codec Serialize Shadow DefParser Metadata Values Storage Table Refine Index.
From S2P Require Import Filter Plan Query QuerySpec QueryIndex.

Local Open Scope Z_scope.
Local Open Scope storage_scope.
Local Open Scope query_scope.

Definition VEC0_MAX_VECTOR_COLUMNS : nat := 16.
Definition VEC0_MAX_PARTITION_COLUMNS : nat := 4.
Definition VEC0_MAX_AUXILIARY_COLUMNS : nat := 16.
Definition VEC0_MAX_METADATA_COLUMNS : nat := 16.
Definition SQLITE_VEC_VEC0_MAX_DIMENSIONS : Z := 8192.
Definition SQLITE_VEC_CHUNK_SIZE_MAX : Z := 4096.
Definition MAX_HNSW_NODES : nat := 4096.
Definition IVF_N_LIST : Z := 32.

Inductive IndexType :=
| INDEX_TYPE_KDTREE
| INDEX_TYPE_IVF
| INDEX_TYPE_HNSW
| INDEX_TYPE_HYBRID.

(** ** Parsing the arguments *)

(** The variables of the loop over the arguments. *)
Record init_state := MkInit {
  in_chunk_size : Z;                                       (* -1: not given *)
  in_user_columns : list (vec0_user_column_kind * nat);
  in_vector : list VectorColumnDefinition;
  in_partition : list (chars * Z);
  in_auxiliary : list (chars * Z);
  in_metadata : list (chars * vec0_metadata_column_kind);
  in_pk : option (chars * Z);
  in_index : option (IndexType * chars)
}.

Definition init_start : init_state := MkInit (-1) [] [] [] [] [] None None.

Definition add_vector (st : init_state) (col : VectorColumnDefinition) : res init_state :=
  let n := length (in_vector st) in
  if (VEC0_MAX_VECTOR_COLUMNS <=? n)%nat then Err SQLITE_ERROR
  else if SQLITE_VEC_VEC0_MAX_DIMENSIONS <? vc_dimensions col then Err SQLITE_ERROR
  else Ok (MkInit (in_chunk_size st) (in_user_columns st ++ [(USER_COLUMN_VECTOR, n)]) (in_vector st ++ [col])
             (in_partition st) (in_auxiliary st) (in_metadata st) (in_pk st) (in_index st)).

Definition add_partition (st : init_state) (c : chars * Z) : res init_state :=
  let n := length (in_partition st) in
  if (VEC0_MAX_PARTITION_COLUMNS <=? n)%nat then Err SQLITE_ERROR
  else Ok (MkInit (in_chunk_size st) (in_user_columns st ++ [(USER_COLUMN_PARTITION, n)]) (in_vector st)
             (in_partition st ++ [c]) (in_auxiliary st) (in_metadata st) (in_pk st) (in_index st)).

Definition set_primary_key (st : init_state) (c : chars * Z) : res init_state :=
  match in_pk st with
  | Some _ => Err SQLITE_ERROR
  | None => Ok (MkInit (in_chunk_size st) (in_user_columns st) (in_vector st) (in_partition st)
                  (in_auxiliary st) (in_metadata st) (Some c) (in_index st))
  end.

Definition add_auxiliary (st : init_state) (c : chars * Z) : res init_state :=
  let n := length (in_auxiliary st) in
  if (VEC0_MAX_AUXILIARY_COLUMNS <=? n)%nat then Err SQLITE_ERROR
  else Ok (MkInit (in_chunk_size st) (in_user_columns st ++ [(USER_COLUMN_AUXILIARY, n)]) (in_vector st)
             (in_partition st) (in_auxiliary st ++ [c]) (in_metadata st) (in_pk st) (in_index st)).

Definition add_metadata (st : init_state) (c : chars * vec0_metadata_column_kind) : res init_state :=
  let n := length (in_metadata st) in
  if (VEC0_MAX_METADATA_COLUMNS <=? n)%nat then Err SQLITE_ERROR
  else Ok (MkInit (in_chunk_size st) (in_user_columns st ++ [(USER_COLUMN_METADATA, n)]) (in_vector st)
             (in_partition st) (in_auxiliary st) (in_metadata st ++ [c]) (in_pk st) (in_index st)).

(** [sqlite3_strnicmp(key, kw, keyLength) == 0]: any prefix of the keyword. *)
Definition key_is (key : chars) (kw : string) : bool := strnieq key (cstr kw) (length key).

Definition index_type_of (key : chars) : option IndexType :=
  if key_is key "create_index_kdtree" then Some INDEX_TYPE_KDTREE
  else if key_is key "create_index_hnsw" then Some INDEX_TYPE_HNSW
  else if key_is key "create_index_ivf" then Some INDEX_TYPE_IVF
  else if key_is key "create_index_hybrid" then Some INDEX_TYPE_HYBRID
  else None.

(** An option other than [chunk_size] is an index. *)
Definition table_option (st : init_state) (key value : chars) : res init_state :=
  if key_is key "chunk_size" then
    let chunk_size := atoi value in
    if chunk_size <=? 0 then Err SQLITE_ERROR
    else if negb (chunk_size mod 8 =? 0) then Err SQLITE_ERROR
    else if SQLITE_VEC_CHUNK_SIZE_MAX <? chunk_size then Err SQLITE_ERROR
    else Ok (MkInit chunk_size (in_user_columns st) (in_vector st) (in_partition st) (in_auxiliary st)
               (in_metadata st) (in_pk st) (in_index st))
  else
    match in_index st with
    | Some _ => Err SQLITE_ERROR
    | None =>
        if negb (length (in_vector st) =? 1)%nat then Err SQLITE_ERROR
        else match index_type_of key with
             | None => Err SQLITE_ERROR
             | Some ty => Ok (MkInit (in_chunk_size st) (in_user_columns st) (in_vector st) (in_partition st)
                                (in_auxiliary st) (in_metadata st) (in_pk st) (Some (ty, value)))
             end
    end.

(** The parsers are tried one after the other. *)
Definition or_other {A B : Type} (r : presult A) (ok : A -> res B) (other : Z -> res B) : res B :=
  match r with
  | POk x => ok x
  | PReturn rc => other rc
  | PUndef => Undef
  end.

Definition init_arg (st : init_state) (arg : chars) : res init_state :=
  or_other (vec0_parse_vector_column arg) (add_vector st) (fun rc =>
    if rc =? SQLITE_ERROR then Err SQLITE_ERROR
    else or_other (vec0_parse_partition_key_definition arg) (add_partition st) (fun _ =>
      or_other (vec0_parse_primary_key_definition arg) (set_primary_key st) (fun _ =>
        or_other (vec0_parse_auxiliary_column_definition arg) (add_auxiliary st) (fun _ =>
          or_other (vec0_parse_metadata_column_definition arg) (add_metadata st) (fun _ =>
            or_other (vec0_parse_table_option arg) (fun kv => table_option st kv.1 kv.2)
              (fun _ => Err SQLITE_ERROR)))))).

(** [argv\[3\]], ...; at least one vector column. *)
Definition init_args (argv : list chars) : res init_state :=
  st <-? res_foldl init_arg init_start argv;
  if (length (in_vector st) =? 0)%nat then Err SQLITE_ERROR else Ok st.

Definition vtab_of (st : init_state) : vec0_vtab :=
  MkVtab (match in_pk st with Some (_, ty) => ty =? SQLITE_TEXT | None => false end)
    (Z.to_nat (if in_chunk_size st <? 0 then 1024 else in_chunk_size st))
    (in_user_columns st) (in_vector st) (in_partition st).*2 (in_auxiliary st).*2 (in_metadata st).*2
    (match in_index st with Some (_, name) => name | None => [] end).

(** ** The declaration of the columns *)

Definition DQUOTE : ascii := ascii_of_nat 34.

(** [%w] inside double quotes: a quote is doubled. *)
Definition quoted (name : chars) : chars :=
  DQUOTE :: concat ((fun c => if Ascii.eqb c DQUOTE then [c; c] else [c]) <$> name) ++ [DQUOTE].

Definition user_column_name (st : init_state) (c : vec0_user_column_kind * nat) : chars :=
  match c.1 with
  | USER_COLUMN_VECTOR => vc_name (aget no_column (in_vector st) c.2)
  | USER_COLUMN_PARTITION => (aget ([], 0) (in_partition st) c.2).1
  | USER_COLUMN_AUXILIARY => (aget ([], 0) (in_auxiliary st) c.2).1
  | USER_COLUMN_METADATA => (aget ([], METADATA_KIND_BOOLEAN) (in_metadata st) c.2).1
  end.

(** The columns of the declared table, in order. *)
Definition declared_columns (st : init_state) : list chars :=
  (match in_pk st with Some (name, _) => quoted name ++ cstr " primary key" | None => cstr "rowid" end)
  :: (quoted <$> (user_column_name st <$> in_user_columns st))
  ++ [cstr " distance hidden"; cstr "k hidden"].

Fixpoint join (sep : chars) (l : list chars) : chars :=
  match l with
  | [] => []
  | [x] => x
  | x :: l => x ++ sep ++ join sep l
  end.

Definition vec0_declaration (st : init_state) : chars :=
  cstr "CREATE TABLE x(" ++ join (cstr ", ") (declared_columns st) ++ cstr ") "
  ++ match in_pk st with Some _ => cstr "without rowid " | None => [] end.

(** ** Shadow tables *)

Definition digit (n : nat) : ascii := ascii_of_nat (48 + n).

(** [%02d] of a number below 100. *)
Definition fmt02d (i : nat) : chars := [digit (i / 10); digit (i mod 10)].

Definition shadow_table (tableName suffix : chars) : chars := lower <$> (tableName ++ cstr "_" ++ suffix).

Definition vector_suffixes (p : vec0_vtab) : list chars :=
  (fun i => cstr "vector_chunks" ++ fmt02d i) <$> seq 0 (length (vt_vector_columns p)).

Definition metadata_suffixes (p : vec0_vtab) : list chars :=
  concat (imap (fun i kind =>
    (cstr "metadatachunks" ++ fmt02d i)
    :: (if bool_decide (kind = METADATA_KIND_TEXT) then [cstr "metadatatext" ++ fmt02d i] else []))
    (vt_metadata_kinds p)).

Definition auxiliary_suffixes (p : vec0_vtab) : list chars :=
  if (0 <? length (vt_auxiliary_types p))%nat then [cstr "auxiliary"] else [].

(** The order of [vec0_init] and that of [vec0Destroy]. *)
Definition created_suffixes (p : vec0_vtab) : list chars :=
  [cstr "info"; cstr "chunks"; cstr "rowids"] ++ vector_suffixes p ++ metadata_suffixes p ++ auxiliary_suffixes p.

Definition dropped_suffixes (p : vec0_vtab) : list chars :=
  [cstr "chunks"; cstr "info"; cstr "rowids"] ++ vector_suffixes p ++ auxiliary_suffixes p ++ metadata_suffixes p.

(** [vec0ShadowName]: which suffixes SQLite protects. *)
Definition azName : list chars :=
  [cstr "rowids"; cstr "chunks"; cstr "auxiliary"; cstr "info"]
  ++ ((fun i => cstr "metadatachunks" ++ fmt02d i) <$> seq 0 16)
  ++ ((fun i => cstr "metadatatext" ++ fmt02d i) <$> seq 0 16).

Definition vec0ShadowName (zName : chars) : bool := existsb (stricmp_eq zName) azName.

(** [CREATE TABLE] and [DROP TABLE] on the names of the existing tables. *)
Definition create_table (name : chars) : M (gset chars) unit :=
  tables <-m mget id;
  _ <-m mwhen (bool_decide (name ∈ tables)) SQLITE_ERROR;
  mput (fun tables => {[name]} ∪ tables).

Definition drop_table (name : chars) : M (gset chars) unit :=
  tables <-m mget id;
  _ <-m mwhen (negb (bool_decide (name ∈ tables))) SQLITE_ERROR;
  mput (fun tables => tables ∖ {[name]}).

(** ** The index of a table *)

(** [indexTree], [indexHNSW] or [indexIVF] of [IndexMeta], with the numbers
    the random generator will draw for the last two. *)
Inductive vec_index :=
| IndexTree (hybrid : bool) (t : KDTree)
| IndexHNSW (h : HNSW * list nat)
| IndexIVF (f : IVF * list Z).

(** The distance of the first vector column.  For the other element types the
    functions installed read the floats of the index as [int8] or bits; they
    are not functions on floats. *)
Definition get_distance_func (p : vec0_vtab) : option DistanceFunc :=
  let col := vector_column p 0 in
  match vc_element_type col with
  | SQLITE_VEC_ELEMENT_TYPE_FLOAT32 =>
      Some match vc_distance_metric col with
           | VEC0_DISTANCE_METRIC_L2 => distance_l2_sqr_float
           | VEC0_DISTANCE_METRIC_L1 => fun a b d => f32_of_f64 (distance_l1_f32 a b d)
           | VEC0_DISTANCE_METRIC_COSINE => distance_cosine_float
           end
  | _ => None
  end.

(** An empty index, for the dimensions of the last vector column. *)
Definition new_index (ty : IndexType) (p : vec0_vtab) (levels : list nat) (rand : list Z) : res vec_index :=
  let dim := vc_dimensions (vector_column p (length (vt_vector_columns p) - 1)) in
  match ty with
  | INDEX_TYPE_KDTREE => Ok (IndexTree false (MkKDTree kd_null (Z.to_nat dim) 0))
  | INDEX_TYPE_HYBRID => Ok (IndexTree true (MkKDTree kd_null (Z.to_nat dim) 0))
  | INDEX_TYPE_HNSW => Ok (IndexHNSW (hnsw_create MAX_HNSW_NODES (Z.to_nat dim), levels))
  | INDEX_TYPE_IVF =>
      match ivf_create IVF_N_LIST IVF_N_PROBE dim with
      | Some f => Ok (IndexIVF (f, rand))
      | None => Err SQLITE_ERROR
      end
  end.

(** ** Index files *)

(** [strrchr]: what follows the last occurrence, and what precedes it. *)
Fixpoint after_last (c : ascii) (s : chars) : option chars :=
  match s with
  | [] => None
  | x :: s' => match after_last c s' with
               | Some r => Some r
               | None => if Ascii.eqb x c then Some s' else None
               end
  end.

Definition before_last (c : ascii) (s : chars) : chars :=
  match after_last c s with
  | Some r => take (length s - length r - 1) s
  | None => s
  end.

(** The file of the main database; [None] if it has no name. *)
Definition get_db_basename (filename : option chars) (out_size : nat) : chars :=
  match filename with
  | None => []
  | Some fullpath =>
      let base := match after_last (ascii_of_nat 47) fullpath with
                  | Some r => r
                  | None => default fullpath (after_last (ascii_of_nat 92) fullpath)
                  end in
      before_last (ascii_of_nat 46) (take (out_size - 1) base)
  end.

Definition index_kind_name (ix : vec_index) : string :=
  match ix with IndexTree _ _ => "kdtree" | IndexHNSW _ => "hnsw" | IndexIVF _ => "ivf" end.

Definition type_kind_name (ty : IndexType) : string :=
  match ty with
  | INDEX_TYPE_KDTREE | INDEX_TYPE_HYBRID => "kdtree"
  | INDEX_TYPE_HNSW => "hnsw"
  | INDEX_TYPE_IVF => "ivf"
  end.

(** [snprintf] into 128 bytes. *)
Definition index_file (filename : option chars) (tableName : chars) (kind : string) : chars :=
  take 127 (get_db_basename filename 128 ++ cstr "_" ++ tableName ++ cstr "_" ++ cstr kind ++ cstr ".idx").

(** [pad]: the bytes of [deleted] above its first; [uninit_nbors]: memory that
    loading leaves as it was allocated. *)
Definition save_index (pad : bytes) (ix : vec_index) : bytes :=
  match ix with
  | IndexTree _ t => serialize_kdtree t
  | IndexHNSW h => serialize_hnsw pad h.1
  | IndexIVF f => serialize_ivf f.1
  end.

Definition load_index (uninit_nbors : list (list nat)) (levels : list nat)
    (rand : list Z) (ty : IndexType) (file : bytes) : option vec_index :=
  match ty with
  | INDEX_TYPE_KDTREE => IndexTree false <$> deserialize_kdtree file
  | INDEX_TYPE_HYBRID => IndexTree true <$> deserialize_kdtree file
  | INDEX_TYPE_HNSW => (fun h => IndexHNSW (h, levels)) <$> deserialize_hnsw uninit_nbors file
  | INDEX_TYPE_IVF => (fun f => IndexIVF (f, rand)) <$> deserialize_ivf file
  end.

(** ** The module functions *)

(** Tables of the schema and files of the working directory. *)
Record world := MkWorld { w_tables : gset chars; w_files : gmap chars bytes }.

Definition on_tables {A : Type} (m : M (gset chars) A) : M world A :=
  mzoom w_tables (fun t w => MkWorld t (w_files w)) m.

Section Module.
Context (declare_vtab : chars -> bool).        (* sqlite3_declare_vtab returns SQLITE_OK *)
Context (filename : option chars).             (* sqlite3_db_filename *)
Context (pad : bytes) (uninit_nbors : list (list nat)).
Context (levels : list nat) (rand : list Z).

(** The part of [vec0_init] common to [xCreate] and [xConnect]. *)
Definition vec0_init (argv : list chars) : res init_state :=
  st <-? init_args argv;
  if declare_vtab (vec0_declaration st) then Ok st else Err SQLITE_ERROR.

Definition lift {A : Type} (r : res A) : M world A := fun w => (r, w).

(** The indexed column must be a vector column. *)
Definition vec0Create (tableName : chars) (argv : list chars) : M world (db vec_index) :=
  st <-m lift (vec0_init argv);
  let p := vtab_of st in
  _ <-m on_tables (mfor (fun suffix => create_table (shadow_table tableName suffix)) (created_suffixes p));
  match in_index st with
  | None => mret (created p)
  | Some (ty, _) =>
      match index_column p with
      | None => mfail SQLITE_ERROR
      | Some _ => ix <-m lift (new_index ty p levels rand); mret (set_index (Some ix) (created p))
      end
  end.

(** A missing file leaves the table without index. *)
Definition vec0Connect (tableName : chars) (argv : list chars) (stored : db vec_index) : M world (db vec_index) :=
  st <-m lift (vec0_init argv);
  let s := set_index None (set_vtab (vtab_of st) stored) in
  match in_index st with
  | None => mret s
  | Some (ty, _) =>
      files <-m mget w_files;
      match files !! index_file filename tableName (type_kind_name ty) with
      | None => mret s
      | Some file =>
          match load_index uninit_nbors levels rand ty file with
          | Some ix => mret (set_index (Some ix) s)
          | None => lift Undef
          end
      end
  end.

(** [can_write]: the file can be opened; an error is reported but not
    returned. *)
Definition vec0Disconnect (can_write : bool) (tableName : chars) (s : db vec_index) : M world unit :=
  match db_index s with
  | None => mret tt
  | Some ix =>
      if can_write
      then mput (fun w => MkWorld (w_tables w)
             (<[index_file filename tableName (index_kind_name ix) := save_index pad ix]> (w_files w)))
      else mret tt
  end.

(** The file name always says [kdtree]. *)
Definition vec0Destroy (tableName : chars) (s : db vec_index) : M world unit :=
  let p := db_vtab s in
  _ <-m on_tables (mfor (fun suffix => drop_table (shadow_table tableName suffix)) (dropped_suffixes p));
  match db_index s with
  | None => mret tt
  | Some _ => mput (fun w => MkWorld (w_tables w) (delete (index_file filename tableName "kdtree") (w_files w)))
  end.

End Module.

(** ** The index as one of three *)

Section AnyIndex.
Context `{QSort} (distfunc : DistanceFunc).

Let HN := hnsw_ops distfunc.
Let IV := ivf_ops distfunc.

#[global] Instance vec_index_ops : IndexOps vec_index := {
  ix_insert ix v r := match ix with
    | IndexTree b t => prod_map id (IndexTree b) <$> ix_insert t v r
    | IndexHNSW h => prod_map id IndexHNSW <$> @ix_insert _ HN h v r
    | IndexIVF f => prod_map id IndexIVF <$> @ix_insert _ IV f v r
    end;
  ix_delete ix r := match ix with
    | IndexTree b t => prod_map id (IndexTree b) <$> ix_delete t r
    | IndexHNSW h => prod_map id IndexHNSW <$> @ix_delete _ HN h r
    | IndexIVF f => prod_map id IndexIVF <$> @ix_delete _ IV f r
    end;
  ix_update ix r v := match ix with
    | IndexTree b t => prod_map id (IndexTree b) <$> ix_update t r v
    | IndexHNSW h => prod_map id IndexHNSW <$> @ix_update _ HN h r v
    | IndexIVF f => prod_map id IndexIVF <$> @ix_update _ IV f r v
    end;
  ix_dim ix := match ix with
    | IndexTree _ t => ix_dim t
    | IndexHNSW h => @ix_dim _ HN h
    | IndexIVF f => @ix_dim _ IV f
    end
}.

Let HNi := hnsw_index distfunc.
Let IVi := ivf_index distfunc.

#[global] Program Instance vec_index_laws : VecIndex vec_index := {
  ix_inv ix := match ix with
    | IndexTree _ t => ix_inv t
    | IndexHNSW h => @ix_inv _ _ HNi h
    | IndexIVF f => @ix_inv _ _ IVi f
    end;
  ix_rows ix := match ix with
    | IndexTree _ t => ix_rows t
    | IndexHNSW h => @ix_rows _ _ HNi h
    | IndexIVF f => @ix_rows _ _ IVi f
    end;
  ix_insertable ix v r := match ix with
    | IndexTree _ t => ix_insertable t v r
    | IndexHNSW h => @ix_insertable _ _ HNi h v r
    | IndexIVF f => @ix_insertable _ _ IVi f v r
    end;
  ix_removable ix r := match ix with
    | IndexTree _ t => ix_removable t r
    | IndexHNSW h => @ix_removable _ _ HNi h r
    | IndexIVF f => @ix_removable _ _ IVi f r
    end
}.
Next Obligation.
  intros [b t|h|f] v r Hi Hd Hok.
  - destruct (ix_insert_law t v r Hi Hd Hok) as (t' & E & R). exists (IndexTree b t'). exact (conj (f_equal (fmap (prod_map id (IndexTree b))) E) R).
  - destruct (@ix_insert_law _ _ HNi h v r Hi Hd Hok) as (h' & E & R). exists (IndexHNSW h'). exact (conj (f_equal (fmap (prod_map id IndexHNSW)) E) R).
  - destruct (@ix_insert_law _ _ IVi f v r Hi Hd Hok) as (f' & E & R). exists (IndexIVF f'). exact (conj (f_equal (fmap (prod_map id IndexIVF)) E) R).
Qed.
Next Obligation.
  intros [b t|h|f] r Hi Hn Hok.
  - destruct (ix_delete_law t r Hi Hn Hok) as (t' & E & R). exists (IndexTree b t'). exact (conj (f_equal (fmap (prod_map id (IndexTree b))) E) R).
  - destruct (@ix_delete_law _ _ HNi h r Hi Hn Hok) as (h' & E & R). exists (IndexHNSW h'). exact (conj (f_equal (fmap (prod_map id IndexHNSW)) E) R).
  - destruct (@ix_delete_law _ _ IVi f r Hi Hn Hok) as (f' & E & R). exists (IndexIVF f'). exact (conj (f_equal (fmap (prod_map id IndexIVF)) E) R).
Qed.

Let HNs := hnsw_index_search distfunc.
Let IVs := ivf_index_search distfunc.

#[global] Instance vec_index_search : IndexSearch vec_index := {
  ix_pre_filter ix := match ix with
    | IndexTree b t => @ix_pre_filter _ (kdtree_search distfunc b) t
    | IndexHNSW h => @ix_pre_filter _ HNs h
    | IndexIVF f => @ix_pre_filter _ IVs f
    end;
  ix_search ix := match ix with
    | IndexTree b t => @ix_search _ (kdtree_search distfunc b) t
    | IndexHNSW h => @ix_search _ HNs h
    | IndexIVF f => @ix_search _ IVs f
    end
}.

Let KDl b := kdtree_search_laws distfunc b.
Let HNl := hnsw_search_laws distfunc.
Let IVl := ivf_search_laws distfunc.

#[global] Program Instance vec_index_search_laws : SearchLaws vec_index := {
  ix_ready ix := match ix with
    | IndexTree b t => @ix_ready _ _ _ _ (KDl b) t
    | IndexHNSW h => @ix_ready _ _ _ _ HNl h
    | IndexIVF f => @ix_ready _ _ _ _ IVl f
    end;
  ix_distance ix := match ix with
    | IndexTree b t => @ix_distance _ _ _ _ (KDl b) t
    | IndexHNSW h => @ix_distance _ _ _ _ HNl h
    | IndexIVF f => @ix_distance _ _ _ _ IVl f
    end
}.
Next Obligation.
  intros [b t|h|f] q k m.
  - exact (@ix_search_law _ _ _ _ (KDl b) t q k m).
  - exact (@ix_search_law _ _ _ _ HNl h q k m).
  - exact (@ix_search_law _ _ _ _ IVl f q k m).
Qed.

End AnyIndex.

(** ** What [vec0_init] accepts *)

Lemma res_foldl_inv {A B : Type} (P : B -> Prop) (f : B -> A -> res B) (l : list A) (acc acc' : B) :
  (forall b x b', P b -> f b x = Ok b' -> P b') -> P acc -> res_foldl f acc l = Ok acc' -> P acc'.
Proof.
  intros Hf. revert acc. induction l as [|x l IH]; intros acc Ha E; cbn in E; [by injection E as <-|].
  destruct (f acc x) as [b| |] eqn:Ef; [|discriminate E..]. eapply IH, E. by eapply Hf.
Qed.

Lemma parsed_dimensions (arg : chars) (col : VectorColumnDefinition) :
  vec0_parse_vector_column arg = POk col -> 0 < vc_dimensions col.
Proof.
  unfold vec0_parse_vector_column, run, pbind, pret, pfail. intros E.
  repeat match type of E with
  | context [match ?x with _ => _ end] =>
      lazymatch x with
      | context [match _ with _ => _ end] => fail
      | _ => destruct x eqn:?; try discriminate E
      end
  end; injection E as <-; cbn; lia.
Qed.

(** The indices of the columns of a kind, in order. *)
Definition kind_indices (k : vec0_user_column_kind) (l : list (vec0_user_column_kind * nat)) : list nat :=
  omap (fun c => if decide (c.1 = k) then Some c.2 else None) l.

Lemma kind_indices_snoc (k k' : vec0_user_column_kind) (l : list (vec0_user_column_kind * nat)) (n : nat) :
  kind_indices k (l ++ [(k', n)]) = kind_indices k l ++ if decide (k' = k) then [n] else [].
Proof. unfold kind_indices. rewrite omap_app. cbn. by case_decide. Qed.

Lemma user_columns_indices (k : vec0_user_column_kind) (p : vec0_vtab) :
  (user_columns_of k p).*2 = kind_indices k (vt_user_columns p).
Proof.
  unfold user_columns_of, kind_indices.
  enough (H : forall l (f : nat -> nat), (omap (fun c : nat * (vec0_user_column_kind * nat) =>
    if decide (c.2.1 = k) then Some (c.1, c.2.2) else None) (imap (fun i c => (f i, c)) l)).*2
    = omap (fun c : vec0_user_column_kind * nat => if decide (c.1 = k) then Some c.2 else None) l)
    by apply (H _ id).
  induction l as [|[k' n] l IH]; intros f; [done|]. cbn. case_decide; cbn; [f_equal|]; apply (IH (f ∘ S)).
Qed.

Record init_ok (st : init_state) : Prop := {
  io_chunk : in_chunk_size st = -1 \/
    (0 < in_chunk_size st <= SQLITE_VEC_CHUNK_SIZE_MAX /\ in_chunk_size st mod 8 = 0);
  io_dims : Forall (fun c => 0 < vc_dimensions c <= SQLITE_VEC_VEC0_MAX_DIMENSIONS) (in_vector st);
  io_numbered :
    kind_indices USER_COLUMN_VECTOR (in_user_columns st) = seq 0 (length (in_vector st)) /\
    kind_indices USER_COLUMN_PARTITION (in_user_columns st) = seq 0 (length (in_partition st)) /\
    kind_indices USER_COLUMN_AUXILIARY (in_user_columns st) = seq 0 (length (in_auxiliary st)) /\
    kind_indices USER_COLUMN_METADATA (in_user_columns st) = seq 0 (length (in_metadata st));
  io_limits : (length (in_vector st) <= VEC0_MAX_VECTOR_COLUMNS)%nat /\
    (length (in_partition st) <= VEC0_MAX_PARTITION_COLUMNS)%nat /\
    (length (in_auxiliary st) <= VEC0_MAX_AUXILIARY_COLUMNS)%nat /\
    (length (in_metadata st) <= VEC0_MAX_METADATA_COLUMNS)%nat
}.

Ltac init_step :=
  match goal with
  | H : context [if ?c then _ else _] |- _ => destruct c eqn:?; try discriminate H
  | H : Ok _ = Ok _ |- _ => injection H as <-
  end.

(** A new column of kind [k] gets the next number. *)
Lemma numbered_snoc (k k' : vec0_user_column_kind) (l : list (vec0_user_column_kind * nat)) (m n : nat) :
  kind_indices k l = seq 0 m -> (k' = k -> n = m) ->
  kind_indices k (l ++ [(k', n)]) = seq 0 (m + if decide (k' = k) then 1 else 0).
Proof.
  intros E Hn. rewrite kind_indices_snoc, E. case_decide; [rewrite Hn by done; by rewrite seq_app|].
  by rewrite app_nil_r, Nat.add_0_r.
Qed.

Lemma add_column_ok (st st' : init_state) (k : vec0_user_column_kind) (n : nat) :
  init_ok st -> in_chunk_size st' = in_chunk_size st -> in_user_columns st' = in_user_columns st ++ [(k, n)] ->
  let extra k' := if decide (k = k') then 1%nat else 0%nat in
  length (in_vector st') = (length (in_vector st) + extra USER_COLUMN_VECTOR)%nat ->
  length (in_partition st') = (length (in_partition st) + extra USER_COLUMN_PARTITION)%nat ->
  length (in_auxiliary st') = (length (in_auxiliary st) + extra USER_COLUMN_AUXILIARY)%nat ->
  length (in_metadata st') = (length (in_metadata st) + extra USER_COLUMN_METADATA)%nat ->
  n = match k with
      | USER_COLUMN_VECTOR => length (in_vector st)
      | USER_COLUMN_PARTITION => length (in_partition st)
      | USER_COLUMN_AUXILIARY => length (in_auxiliary st)
      | USER_COLUMN_METADATA => length (in_metadata st)
      end ->
  (n < match k with
       | USER_COLUMN_VECTOR => VEC0_MAX_VECTOR_COLUMNS
       | USER_COLUMN_PARTITION => VEC0_MAX_PARTITION_COLUMNS
       | USER_COLUMN_AUXILIARY => VEC0_MAX_AUXILIARY_COLUMNS
       | USER_COLUMN_METADATA => VEC0_MAX_METADATA_COLUMNS
       end)%nat ->
  Forall (fun c => 0 < vc_dimensions c <= SQLITE_VEC_VEC0_MAX_DIMENSIONS) (in_vector st') -> init_ok st'.
Proof.
  intros [Hc Hd (Hv & Hp & Ha & Hm) (Lv & Lp & La & Lm)] Ec Eu extra Ev Ep Ea Em Hn Hlt Hd'.
  split; [by rewrite Ec|done| |].
  - rewrite Eu, Ev, Ep, Ea, Em. repeat split; apply numbered_snoc; try done; by intros ->.
  - rewrite Ev, Ep, Ea, Em. subst extra n. cbv beta. destruct k; repeat case_decide; try done; repeat split; lia.
Qed.

(** [apply add_column_ok] to a state given field by field. *)
Ltac column_added st :=
  repeat match goal with H : (_ <=? _)%nat = false |- _ => apply Nat.leb_gt in H end;
  eapply (add_column_ok st); try done;
  cbn [in_vector in_partition in_auxiliary in_metadata]; rewrite ?length_app; cbn [length]; try case_decide; try done; try lia.

Lemma init_arg_ok (st st' : init_state) (arg : chars) : init_ok st -> init_arg st arg = Ok st' -> init_ok st'.
Proof.
  intros Hst. pose proof Hst as [Hc Hd Hn Hl]. unfold init_arg, or_other.
  destruct (vec0_parse_vector_column arg) as [col|rc|] eqn:Ev; [| |done].
  { unfold add_vector. intros E. repeat init_step. column_added st.
    apply Forall_app; split; [done|]. constructor; [|done]. apply parsed_dimensions in Ev. lia. }
  destruct (rc =? SQLITE_ERROR); [done|].
  destruct (vec0_parse_partition_key_definition arg) as [c|?|]; [| |done].
  { unfold add_partition. intros E. repeat init_step. column_added st. }
  destruct (vec0_parse_primary_key_definition arg) as [c|?|]; [| |done].
  { unfold set_primary_key. destruct (in_pk st); [done|]. intros E. init_step. by split. }
  destruct (vec0_parse_auxiliary_column_definition arg) as [c|?|]; [| |done].
  { unfold add_auxiliary. intros E. repeat init_step. column_added st. }
  destruct (vec0_parse_metadata_column_definition arg) as [c|?|]; [| |done].
  { unfold add_metadata. intros E. repeat init_step. column_added st. }
  destruct (vec0_parse_table_option arg) as [[key v]|?|]; [|done..]. unfold table_option. cbn [fst snd].
  destruct (key_is key _); intros E.
  - repeat init_step. split; try done. right. cbn. lia.
  - destruct (in_index st); [done|]. init_step. destruct (index_type_of key); [|done]. init_step. by split.
Qed.

Lemma init_args_ok (argv : list chars) (st : init_state) :
  init_args argv = Ok st -> init_ok st /\ (0 < length (in_vector st))%nat.
Proof.
  unfold init_args. destruct (res_foldl init_arg init_start argv) as [st1| |] eqn:E; [|done..]. cbn [res_bind].
  destruct (Nat.eqb_spec (length (in_vector st1)) 0) as [|Hne]; [done|]. intros [= <-]. split; [|lia]. eapply (res_foldl_inv init_ok), E.
  - intros b x b' Hb. by apply init_arg_ok.
  - split; cbn; try done; [by left|]. repeat split; lia.
Qed.

(** The table of an accepted definition. *)
Lemma vtab_of_schema (st : init_state) :
  init_ok st ->
  (forall c, c ∈ in_vector st -> vc_element_type c = SQLITE_VEC_ELEMENT_TYPE_BIT -> vc_dimensions c mod 8 = 0) ->
  schema_wf (vtab_of st).
Proof.
  intros [Hc Hd (Hv & Hp & Ha & Hm) _] Hbit.
  assert (Hs : 0 < (if in_chunk_size st <? 0 then 1024 else in_chunk_size st) /\
    (if in_chunk_size st <? 0 then 1024 else in_chunk_size st) mod 8 = 0).
  { destruct Hc as [->|[Hr Hm8]]; [done|]. destruct (Z.ltb_spec (in_chunk_size st) 0); lia. }
  split; cbn [vtab_of vt_chunk_size vt_vector_columns vt_partition_types vt_auxiliary_types vt_metadata_kinds];
    rewrite ?user_columns_indices, ?length_fmap; try done.
  - lia.
  - apply Nat2Z.inj. rewrite Nat2Z.inj_mod, Z2Nat.id by lia. apply Hs.
  - apply Forall_forall. intros c Hin. rewrite Forall_forall in Hd. split; [by apply Hd|auto].
Qed.

(** *** Column numbers *)

Lemma kind_count (l : list (vec0_user_column_kind * nat)) :
  length l = (length (kind_indices USER_COLUMN_VECTOR l) + length (kind_indices USER_COLUMN_PARTITION l)
    + length (kind_indices USER_COLUMN_AUXILIARY l) + length (kind_indices USER_COLUMN_METADATA l))%nat.
Proof.
  induction l as [|[k n] l IH]; [done|]. unfold kind_indices in *. cbn [length]. rewrite IH. cbn [omap list_omap fst snd].
  repeat case_decide; cbn [length]; try congruence; try lia. by destruct k.
Qed.

Lemma init_num_columns (st : init_state) :
  init_ok st -> vec0_num_defined_user_columns (vtab_of st) = Z.of_nat (length (in_user_columns st)).
Proof.
  intros [_ _ (Hv & Hp & Ha & Hm) _]. rewrite (kind_count (in_user_columns st)), Hv, Hp, Ha, Hm, !length_seq.
  unfold vec0_num_defined_user_columns. cbn. rewrite !length_fmap. lia.
Qed.

Lemma lookup_cons_S {A : Type} (x : A) (l : list A) (n : nat) : (x :: l) !! S n = l !! n.
Proof. done. Qed.

(** The numbers the planner uses are positions in the declaration. *)
Lemma declared_positions (st : init_state) :
  init_ok st ->
  declared_columns st !! Z.to_nat (vec0_column_distance_idx (vtab_of st)) = Some (cstr " distance hidden") /\
  declared_columns st !! Z.to_nat (vec0_column_k_idx (vtab_of st)) = Some (cstr "k hidden") /\
  forall i c, in_user_columns st !! i = Some c ->
    declared_columns st !! Z.to_nat (VEC0_COLUMN_USERN_START + Z.of_nat i) = Some (quoted (user_column_name st c)) /\
    vec0_column_idx_is c.1 (vtab_of st) (VEC0_COLUMN_USERN_START + Z.of_nat i) = true /\
    vec0_column_idx_to_idx (vtab_of st) (VEC0_COLUMN_USERN_START + Z.of_nat i) = c.2.
Proof.
  intros Hst. pose proof (init_num_columns st Hst) as Hn.
  unfold vec0_column_distance_idx, vec0_column_k_idx, vec0_column_idx_is, vec0_column_idx_to_idx. rewrite Hn.
  unfold VEC0_COLUMN_USERN_START, VEC0_COLUMN_OFFSET_DISTANCE, VEC0_COLUMN_OFFSET_K, declared_columns.
  set (n := length (in_user_columns st)).
  assert (Hlen : length (quoted <$> (user_column_name st <$> in_user_columns st)) = n) by (by rewrite !length_fmap).
  replace (Z.to_nat _) with (S n) by lia. replace (Z.to_nat _) with (S (S n)) by lia. rewrite !lookup_cons_S.
  split; [by rewrite lookup_app_r, Hlen, Nat.sub_diag by lia|].
  split; [rewrite lookup_app_r by lia; by replace (S n - _)%nat with 1%nat by lia|].
  intros i c Hi. pose proof (lookup_lt_Some _ _ _ Hi) as Hlt. fold n in Hlt.
  replace (Z.to_nat (1 + Z.of_nat i)) with (S i) by lia. replace (Z.to_nat (1 + Z.of_nat i - 1)) with i by lia.
  rewrite lookup_cons_S. cbn [vtab_of vt_user_columns]. rewrite Hi. split; [|split; [|by destruct c]].
  - rewrite lookup_app_l by (rewrite Hlen; lia). by rewrite !list_lookup_fmap, Hi.
  - destruct c as [k j]. cbn [fst]. rewrite bool_decide_eq_true_2 by done. lia.
Qed.

(** *** Names of shadow tables *)

(** The suffixes of a table with as many columns as allowed. *)
Definition all_suffixes : list chars :=
  [cstr "info"; cstr "chunks"; cstr "rowids"]
  ++ ((fun i => cstr "vector_chunks" ++ fmt02d i) <$> seq 0 VEC0_MAX_VECTOR_COLUMNS)
  ++ concat ((fun i => [cstr "metadatachunks" ++ fmt02d i; cstr "metadatatext" ++ fmt02d i])
       <$> seq 0 VEC0_MAX_METADATA_COLUMNS)
  ++ [cstr "auxiliary"].

Lemma all_suffixes_distinct : NoDup all_suffixes.
Proof. by_compute. Qed.

Lemma all_suffixes_lower : Forall (fun s => lower <$> s = s) all_suffixes.
Proof. by_compute. Qed.

Lemma seq_prefix (a n m : nat) : (n <= m)%nat -> seq a n `sublist_of` seq a m.
Proof. intros H. replace m with (n + (m - n))%nat by lia. rewrite seq_app. by apply sublist_inserts_r. Qed.

Lemma metadata_suffixes_sublist (kinds : list vec0_metadata_column_kind) (start : nat) :
  concat (imap (fun i kind =>
    (cstr "metadatachunks" ++ fmt02d (start + i))
    :: (if bool_decide (kind = METADATA_KIND_TEXT) then [cstr "metadatatext" ++ fmt02d (start + i)] else [])) kinds)
  `sublist_of`
  concat ((fun i => [cstr "metadatachunks" ++ fmt02d i; cstr "metadatatext" ++ fmt02d i]) <$> seq start (length kinds)).
Proof.
  revert start. induction kinds as [|kind kinds IH]; intros start; [done|].
  cbn [imap length seq fmap list_fmap concat]. rewrite Nat.add_0_r. apply sublist_app.
  - apply sublist_skip. case_bool_decide; [done|]. apply sublist_nil_l.
  - specialize (IH (S start)). etrans; [|exact IH]. apply reflexive_eq. f_equal. apply imap_ext.
    intros i kind' _. cbn. by rewrite Nat.add_succ_r.
Qed.

Lemma created_suffixes_sublist (st : init_state) : init_ok st -> created_suffixes (vtab_of st) `sublist_of` all_suffixes.
Proof.
  intros [_ _ _ (Lv & _ & _ & Lm)]. unfold created_suffixes, all_suffixes.
  apply sublist_app; [done|]. apply sublist_app; [by apply fmap_sublist, seq_prefix|]. apply sublist_app.
  - unfold metadata_suffixes. cbn [vtab_of vt_metadata_kinds]. etrans; [apply (metadata_suffixes_sublist _ 0)|].
    rewrite length_fmap. replace VEC0_MAX_METADATA_COLUMNS with
      (length (in_metadata st) + (VEC0_MAX_METADATA_COLUMNS - length (in_metadata st)))%nat by lia.
    rewrite seq_app, fmap_app, concat_app. by apply sublist_inserts_r.
  - unfold auxiliary_suffixes. case_match; [done|apply sublist_nil_l].
Qed.

Lemma dropped_suffixes_perm (p : vec0_vtab) : dropped_suffixes p ≡ₚ created_suffixes p.
Proof.
  unfold dropped_suffixes, created_suffixes. cbn [app]. rewrite (Permutation_app_comm (auxiliary_suffixes p)).
  apply Permutation_swap.
Qed.

Lemma shadow_table_inj (tableName s1 s2 : chars) :
  lower <$> s1 = s1 -> lower <$> s2 = s2 -> shadow_table tableName s1 = shadow_table tableName s2 -> s1 = s2.
Proof. unfold shadow_table. rewrite !fmap_app. intros -> -> E. by apply app_inv_head, app_inv_head in E. Qed.

Lemma shadow_tables_distinct (tableName : chars) (st : init_state) :
  init_ok st -> NoDup (shadow_table tableName <$> created_suffixes (vtab_of st)).
Proof.
  intros Hst. pose proof (created_suffixes_sublist st Hst) as Hs.
  assert (Hl : Forall (fun s => lower <$> s = s) (created_suffixes (vtab_of st))).
  { apply Forall_forall. intros x Hx. apply (proj1 (Forall_forall _ _) all_suffixes_lower).
    by eapply elem_of_submseteq, sublist_submseteq. }
  apply sublist_NoDup in Hs; [|apply all_suffixes_distinct].
  revert Hl Hs. induction (created_suffixes (vtab_of st)) as [|x l IH]; intros Hl Hs; [constructor|].
  apply list.NoDup_cons in Hs as [Hx Hs]. pose proof (Forall_inv Hl) as Hx'. apply Forall_inv_tail in Hl. cbn.
  apply list.NoDup_cons. split; [|by apply IH]. intros (y & E & Hy)%list_elem_of_fmap.
  rewrite Forall_forall in Hl. apply shadow_table_inj in E; [by subst y|done|by apply Hl].
Qed.

(** SQLite knows every shadow table but those of the vector columns. *)
Lemma vec0ShadowName_created (st : init_state) (suffix : chars) :
  init_ok st -> suffix ∈ created_suffixes (vtab_of st) ->
  vec0ShadowName suffix = false <-> suffix ∈ vector_suffixes (vtab_of st).
Proof.
  intros Hst Hin.
  assert (Hv : suffix ∈ vector_suffixes (vtab_of st) -> vec0ShadowName suffix = false).
  { intros (i & -> & Hi%elem_of_seq)%list_elem_of_fmap. destruct Hst as [_ _ _ (Lv & _)]. cbn in Hi.
    assert (Hall : Forall (fun i => vec0ShadowName (cstr "vector_chunks" ++ fmt02d i) = false) (seq 0 16)) by by_compute.
    rewrite Forall_forall in Hall. apply Hall, elem_of_seq. unfold VEC0_MAX_VECTOR_COLUMNS in Lv. lia. }
  split; [|done]. intros Hno. unfold created_suffixes in Hin. rewrite !elem_of_app in Hin.
  assert (Hall : Forall (fun s => vec0ShadowName s = true) ([cstr "info"; cstr "chunks"; cstr "rowids"] ++
    concat ((fun i => [cstr "metadatachunks" ++ fmt02d i; cstr "metadatatext" ++ fmt02d i])
      <$> seq 0 VEC0_MAX_METADATA_COLUMNS) ++ [cstr "auxiliary"])) by by_compute.
  rewrite Forall_forall in Hall. specialize (Hall suffix). rewrite Hno in Hall.
  destruct Hin as [Hin|[Hin|[Hin|Hin]]]; [|done|..]; (enough (false = true) by done; apply Hall; rewrite !elem_of_app).
  - by left.
  - right; left. eapply elem_of_submseteq; [exact Hin|]. apply sublist_submseteq.
    unfold metadata_suffixes. etrans; [apply (metadata_suffixes_sublist _ 0)|].
    destruct Hst as [_ _ _ (_ & _ & _ & Lm)]. cbn [vtab_of vt_metadata_kinds]. rewrite length_fmap.
    replace VEC0_MAX_METADATA_COLUMNS with
      (length (in_metadata st) + (VEC0_MAX_METADATA_COLUMNS - length (in_metadata st)))%nat by lia.
    rewrite seq_app, fmap_app, concat_app. by apply sublist_inserts_r.
  - right; right. unfold auxiliary_suffixes in Hin. case_match; [done|by apply elem_of_nil in Hin].
Qed.

(** *** Creating and dropping *)

Lemma create_tables (names : list chars) (t t' : gset chars) (r : res unit) :
  NoDup names -> mfor create_table names t = (r, t') ->
  (r = Ok tt <-> forall x, x ∈ names -> x ∉ t) /\ (r = Ok tt -> t' = list_to_set names ∪ t) /\
  (r = Ok tt \/ r = Err SQLITE_ERROR).
Proof.
  unfold mfor. revert t. induction names as [|x names IH]; intros t Hd E; cbn in E.
  { injection E as <- <-. split; [split; [intros _ y Hy; by apply elem_of_nil in Hy|done]|].
    split; [set_solver|by left]. }
  apply list.NoDup_cons in Hd as [Hx Hd]. unfold create_table at 1, mbind, mget, mwhen, mfail, mput in E. cbn in E.
  case_bool_decide as Hin; cbn in E.
  - injection E as <- <-. split; [|split; [done|by right]]. split; [done|]. intros Hf. exfalso. by eapply Hf; [left|].
  - specialize (IH _ Hd E) as (H1 & H2 & H3). split; [|split; [|done]].
    + rewrite H1. split; intros Hf y Hy; [|set_solver]. apply elem_of_cons in Hy as [->|Hy]; [done|].
      specialize (Hf y Hy). set_solver.
    + intros Hr. rewrite (H2 Hr). set_solver.
Qed.

Lemma drop_tables (names : list chars) (t : gset chars) :
  NoDup names -> (forall x, x ∈ names -> x ∈ t) -> mfor drop_table names t = (Ok tt, t ∖ list_to_set names).
Proof.
  unfold mfor. revert t. induction names as [|x names IH]; intros t Hd Hin; cbn.
  { unfold mret. f_equal. set_solver. }
  apply list.NoDup_cons in Hd as [Hx Hd]. unfold drop_table at 1, mbind, mget, mwhen, mret, mput. cbn.
  rewrite bool_decide_eq_true_2 by (apply Hin; left). cbn. rewrite IH; [f_equal; set_solver|done|].
  intros y Hy. apply elem_of_difference. split; [apply Hin; by right|]. intros ->%elem_of_singleton. done.
Qed.

Lemma mfor_fmap {S A B : Type} (f : B -> M S unit) (g : A -> B) (l : list A) (s : S) :
  mfor (fun x => f (g x)) l s = mfor f (g <$> l) s.
Proof.
  unfold mfor. revert s. induction l as [|x l IH]; intros s; [done|]. cbn. unfold mbind.
  destruct (f (g x) s) as [[[]| |] s']; [apply IH|done..].
Qed.

(** *** The new index *)

Definition index_type (ix : vec_index) : IndexType :=
  match ix with
  | IndexTree b _ => if b then INDEX_TYPE_HYBRID else INDEX_TYPE_KDTREE
  | IndexHNSW _ => INDEX_TYPE_HNSW
  | IndexIVF _ => INDEX_TYPE_IVF
  end.

Section NewIndex.
Context `{QSort} (distfunc : DistanceFunc).

Lemma new_index_ok (ty : IndexType) (p : vec0_vtab) (levels : list nat) (rand : list Z) (ix : vec_index) :
  let dim := vc_dimensions (vector_column p (length (vt_vector_columns p) - 1)) in
  0 < dim -> new_index ty p levels rand = Ok ix ->
  index_type ix = ty /\ @ix_inv _ _ (vec_index_laws distfunc) ix /\ @ix_dim _ (vec_index_ops distfunc) ix = Z.to_nat dim /\
  @ix_rows _ _ (vec_index_laws distfunc) ix = [].
Proof.
  intros dim Hd. unfold new_index. fold dim.
  assert (Ht : forall b, @ix_inv _ _ (vec_index_laws distfunc) (IndexTree b (MkKDTree kd_null (Z.to_nat dim) 0))).
  { intros b. repeat split; try done; cbn; try lia; intros q Hq; by apply elem_of_nil in Hq. }
  destruct ty; intros E.
  - injection E as <-. split; [done|]. split; [apply Ht|done].
  - destruct (ivf_create _ _ dim) as [f|] eqn:Ef; [|done]. injection E as <-. split; [done|].
    pose proof (ivf_create_inv distfunc _ _ _ _ Ef) as Hi. split; [done|]. destruct Hi as (_ & _ & Hr).
    unfold ivf_create in Ef. destruct (_ || _ || _); [discriminate Ef|]. apply (inj Some) in Ef. subst f. split; [done|].
    exact Hr.
  - injection E as <-. split; [done|]. split; [apply hnsw_create_wf|done].
  - injection E as <-. split; [done|]. split; [apply Ht|done].
Qed.

End NewIndex.

(** *** The module functions *)

Section Lifecycle.
Context `{QSort} (distfunc : DistanceFunc) (declare_vtab : chars -> bool) (filename : option chars).
Context (pad : bytes) (uninit_nbors : list (list nat)) (levels : list nat) (rand : list Z).

Let ops := vec_index_ops distfunc.
#[local] Existing Instance ops.
Let laws := vec_index_laws distfunc.
#[local] Existing Instance laws.

Lemma vec0_init_ok (argv : list chars) (st : init_state) :
  vec0_init declare_vtab argv = Ok st ->
  init_ok st /\ (0 < length (in_vector st))%nat /\ declare_vtab (vec0_declaration st) = true.
Proof.
  unfold vec0_init. destruct (init_args argv) as [st1| |] eqn:E; [|done..]. cbn [res_bind].
  destruct (declare_vtab _) eqn:Ed; [|done]. intros [= <-]. by destruct (init_args_ok _ _ E).
Qed.

Lemma vec0_create_inv (tableName : chars) (argv : list chars) (w w' : world) (s : db vec_index) :
  vec0Create declare_vtab levels rand tableName argv w = (Ok s, w') ->
  exists st, vec0_init declare_vtab argv = Ok st /\
    mfor create_table (shadow_table tableName <$> created_suffixes (vtab_of st)) (w_tables w) = (Ok tt, w_tables w') /\
    w_files w' = w_files w /\
    match in_index st with
    | None => s = created (vtab_of st)
    | Some (ty, _) => exists i ix, index_column (vtab_of st) = Some i /\ new_index ty (vtab_of st) levels rand = Ok ix /\
        s = set_index (Some ix) (created (vtab_of st))
    end.
Proof.
  unfold vec0Create, lift, mbind. destruct (vec0_init declare_vtab argv) as [st| |] eqn:E; [|done..].
  unfold on_tables, mzoom. rewrite mfor_fmap.
  destruct (mfor create_table _ _) as [[[]| |] t] eqn:Em; [|done..]. intros Hs. exists st. split; [done|].
  destruct (in_index st) as [[ty name]|].
  - destruct (index_column (vtab_of st)) as [i|]; [|done].
    destruct (new_index ty (vtab_of st) levels rand) as [ix| |]; [|done..]. injection Hs as <- <-. by eauto 10.
  - injection Hs as <- <-. by eauto.
Qed.

(** C20: A created table is well formed.  When [xCreate] accepts a definition
    whose bit vector columns have multiples of 8 dimensions, the new table
    satisfies the invariant, has between 1 and 16 vector columns of at most
    8192 dimensions and at most 4 partition, 16 auxiliary and 16 metadata
    columns, and every number the queries use for a column is the position
    of that column in the declaration SQLite has received; the shadow tables
    are new and no other table is changed; an index of the requested type is
    there exactly if one was declared, and it agrees with the empty table if
    its column is the last vector column. *)
Theorem vec0_create_correct (tableName : chars) (argv : list chars) (w w' : world) (s : db vec_index) :
  vec0Create declare_vtab levels rand tableName argv w = (Ok s, w') ->
  let p := db_vtab s in
  (forall c, c ∈ vt_vector_columns p -> vc_element_type c = SQLITE_VEC_ELEMENT_TYPE_BIT -> vc_dimensions c mod 8 = 0) ->
  exists st, vec0_init declare_vtab argv = Ok st /\ p = vtab_of st /\ db_wf s /\ db_rowids s = ∅ /\
    (1 <= length (vt_vector_columns p) <= VEC0_MAX_VECTOR_COLUMNS)%nat /\
    Forall (fun c => vc_dimensions c <= SQLITE_VEC_VEC0_MAX_DIMENSIONS) (vt_vector_columns p) /\
    (length (vt_partition_types p) <= VEC0_MAX_PARTITION_COLUMNS)%nat /\
    (length (vt_auxiliary_types p) <= VEC0_MAX_AUXILIARY_COLUMNS)%nat /\
    (length (vt_metadata_kinds p) <= VEC0_MAX_METADATA_COLUMNS)%nat /\
    (declare_vtab (vec0_declaration st) = true /\
     declared_columns st !! Z.to_nat (vec0_column_distance_idx p) = Some (cstr " distance hidden") /\
     declared_columns st !! Z.to_nat (vec0_column_k_idx p) = Some (cstr "k hidden") /\
     forall i c, in_user_columns st !! i = Some c ->
       let n := VEC0_COLUMN_USERN_START + Z.of_nat i in
       declared_columns st !! Z.to_nat n = Some (quoted (user_column_name st c)) /\
       vec0_column_idx_is c.1 p n = true /\ vec0_column_idx_to_idx p n = c.2) /\
    (let tables := list_to_set (shadow_table tableName <$> created_suffixes p) in
     w_files w' = w_files w /\ w_tables w' = tables ∪ w_tables w /\ tables ## w_tables w) /\
    match in_index st, db_index s with
    | None, None => True
    | Some (ty, _), Some ix => index_type ix = ty /\ exists i, index_column p = Some i /\
        (S i = length (vt_vector_columns p) -> agrees s i ix)
    | _, _ => False
    end.
Proof.
  intros (st & Ei & Em & Hf & Hs)%vec0_create_inv p Hbit.
  destruct (vec0_init_ok argv st Ei) as (Hst & Hv & Hdecl).
  assert (Hp : p = vtab_of st).
  { unfold p. destruct (in_index st) as [[]|]; [destruct Hs as (? & ? & _ & _ & ->)|subst s]; done. }
  rewrite Hp in Hbit. cbn [vtab_of vt_vector_columns] in Hbit.
  assert (Hw0 : db_wf (created (vtab_of st) : db vec_index)) by (apply created_wf; by apply vtab_of_schema).
  destruct (create_tables _ _ _ _ (shadow_tables_distinct tableName st Hst) Em) as (Hfresh & Ht & _).
  pose proof (declared_positions st Hst) as (Hdist & Hk & Huser).
  pose proof Hst as [_ Hd _ (Lv & Lp & La & Lm)].
  exists st. rewrite Hp. cbn [vtab_of vt_vector_columns vt_partition_types vt_auxiliary_types vt_metadata_kinds].
  rewrite !length_fmap. split; [done|]. split; [done|].
  split; [by destruct (in_index st) as [[]|]; [destruct Hs as (? & ? & _ & _ & ->); apply set_index_wf|subst s]|].
  split; [by destruct (in_index st) as [[]|]; [destruct Hs as (? & ? & _ & _ & ->)|subst s]|].
  split; [lia|]. split; [eapply Forall_impl; [exact Hd|]; intros c [_ Hc]; exact Hc|].
  do 3 (split; [done|]). split; [done|]. split.
  { split; [done|]. split; [by apply Ht|]. apply elem_of_disjoint. intros x Hx Hx'.
    rewrite elem_of_list_to_set in Hx. by apply (proj1 Hfresh eq_refl x). }
  destruct (in_index st) as [[ty name]|]; [|by subst s]. destruct Hs as (i & ix & Hi & Hix & ->).
  cbn [set_index db_index]. pose proof (Forall_forall (fun c => 0 < vc_dimensions c <= SQLITE_VEC_VEC0_MAX_DIMENSIONS) (in_vector st)) as Hall.
  destruct (new_index_ok distfunc ty (vtab_of st) levels rand ix) as (Hty & Hinv & Hdim & Hrows); [|done|].
  { cbn. unfold vector_column. destruct (lookup_lt_is_Some_2 (in_vector st) (length (in_vector st) - 1)) as [c Hc]; [lia|].
    rewrite (aget_lookup _ _ _ _ Hc). apply (proj1 Hall Hd c). by eapply list_elem_of_lookup_2. }
  split; [done|]. exists i. split; [done|]. intros Hlast. cbn in Hlast.
  split; [done|]. split; [done|]. split; [done|]. cbn [set_index db_vtab created]. split.
  - etrans; [exact Hdim|]. do 2 f_equal. cbn. by replace (length (in_vector st) - 1)%nat with i by lia.
  - etrans; [apply reflexive_eq, Hrows|]. done.
Qed.

(** What fits the fields of an index file. *)
Definition index_storable (ix : vec_index) : Prop :=
  match ix with
  | IndexTree _ t =>
      Z.of_nat (kt_dimensions t) < 2 ^ 31 /\ in_i32 (kt_size t) /\ kd_storable (kt_dimensions t) (kt_root t)
  | IndexHNSW (h, _) =>
      hnsw_wf h /\ (forall n, n ∈ h_nodes h -> node_storable n) /\ Z.of_nat (h_dim h) < 2 ^ 31 /\
      Z.of_nat (h_max_nodes h) < 2 ^ 31 /\ Z.of_nat (h_max_level h) < 2 ^ 31
  | IndexIVF (f, _) => ivf_wf f /\ ivf_storable f
  end.

(** An index that was saved and loaded. *)
Definition index_restored (ix ix' : vec_index) : Prop :=
  match ix, ix' with
  | IndexTree b t, IndexTree b' t' => b' = b /\ t' = t
  | IndexHNSW (h, _), IndexHNSW (h', _) =>
      hnsw_live h' = hnsw_live h /\ node_core <$> h_nodes h' = node_core <$> h_nodes h /\
      (forall i n n' l, h_nodes h !! i = Some n -> h_nodes h' !! i = Some n' ->
         (l <= hn_level n)%nat -> nbors_at n' l = nbors_at n l) /\
      ((forall n, n ∈ h_nodes h -> drop (S (hn_level n)) (hn_nbors n) = drop (S (hn_level n)) uninit_nbors) -> h' = h)
  | IndexIVF (f, _), IndexIVF (f', _) => ivf_restored f f'
  | _, _ => False
  end.

Lemma load_saved (ix : vec_index) :
  length pad = 3%nat -> index_storable ix ->
  exists ix', load_index uninit_nbors levels rand (index_type ix) (save_index pad ix) = Some ix' /\
    index_type ix' = index_type ix /\ index_restored ix ix'.
Proof.
  intros Hpad. destruct ix as [b t|[h ls]|[f rs]]; cbn [index_storable index_type save_index fst].
  - intros (Hd & Hsz & Ht). exists (IndexTree b t). split; [|done].
    by destruct b; cbn [load_index]; rewrite kdtree_file_correct.
  - intros (Hw & Hn & Hd & Hm & Hl).
    destruct (hnsw_file_correct pad uninit_nbors h Hpad Hw Hn Hd Hm Hl) as (h' & E & R).
    exists (IndexHNSW (h', levels)). cbn [load_index]. by rewrite E.
  - intros [Hw Hs]. destruct (ivf_file_correct f Hw Hs) as (f' & E & R).
    exists (IndexIVF (f', rand)). cbn [load_index]. by rewrite E.
Qed.

Lemma type_kind_of_index (ix : vec_index) : type_kind_name (index_type ix) = index_kind_name ix.
Proof. by destruct ix as [[]|?|?]. Qed.

(** C21: Closing and reopening a table restores it.  [xDisconnect] saves the
    index, and [xConnect] with the same arguments finds the rows as they
    were and an index that stands for the same rows: a KD-tree is equal to
    the one saved; an HNSW graph has the same live rows and the same nodes
    with the neighbour lists up to the level of each node, and is equal if
    the memory for the other lists happens to hold what they were; an IVF
    index has the same contents and answers every search alike.  The deletion
    marks of an IVF index are not saved and the pointer to them is not set: a
    trained index, which does not read them, inserts, deletes and updates as
    the saved one does, but in one that is not trained every deletion and
    update is undefined, and so is the insertion that fills the buffer.  A
    table without index is unchanged. *)
Theorem vec0_reconnect_correct (tableName : chars) (argv : list chars) (st : init_state) (s : db vec_index) (w : world) :
  length pad = 3%nat -> vec0_init declare_vtab argv = Ok st -> db_vtab s = vtab_of st ->
  index_type <$> db_index s = fst <$> in_index st -> (forall ix, db_index s = Some ix -> index_storable ix) ->
  exists w1 s',
    vec0Disconnect filename pad true tableName s w = (Ok tt, w1) /\
    vec0Connect declare_vtab filename uninit_nbors levels rand tableName argv s w1 = (Ok s', w1) /\
    w_tables w1 = w_tables w /\ s' = set_index (db_index s') s /\
    match db_index s, db_index s' with
    | None, None => True
    | Some ix, Some ix' => index_type ix' = index_type ix /\ ix_rows ix' = ix_rows ix /\ index_restored ix ix'
    | _, _ => False
    end.
Proof.
  intros Hpad Ei Hp Hty Hst. unfold vec0Disconnect, vec0Connect, mbind, lift, mget, mret, mput. rewrite Ei, <- Hp.
  destruct (db_index s) as [ix|] eqn:Ex.
  - destruct (in_index st) as [[ty name]|]; [|done]. injection Hty as <-.
    destruct (load_saved ix Hpad (Hst ix eq_refl)) as (ix' & E & Ht & R).
    eexists _, (set_index (Some ix') s). split; [done|]. cbn [w_files].
    rewrite type_kind_of_index, lookup_insert_eq, E. split; [by destruct s|]. split; [done|]. split; [by destruct s|].
    cbn [set_index db_index]. split; [done|]. split; [|done].
    destruct ix as [b t|[h ?]|[f ?]], ix' as [b' t'|[h' ?]|[f' ?]]; try done; cbn in R.
    + by destruct R as [-> ->].
    + apply R.
    + apply R.
  - destruct (in_index st) as [[ty name]|]; [done|]. exists w, s. rewrite Ex. destruct s; cbn in *. by subst.
Qed.

(** Dropping a table removes what creating it added.  Let [xCreate]
    have made the table, and let its definition be unchanged.  Then
    [xDestroy] succeeds, whatever other tables have been created in the
    meantime; it removes exactly the shadow tables of the table, and the
    file of a KD-tree.  If no table was added, the tables are those before
    the creation. *)
Lemma vec0_destroy_correct (tableName : chars) (argv : list chars) (w w1 w2 : world) (s s' : db vec_index) :
  vec0Create declare_vtab levels rand tableName argv w = (Ok s, w1) ->
  db_vtab s' = db_vtab s -> w_tables w1 ⊆ w_tables w2 ->
  exists w3, vec0Destroy filename tableName s' w2 = (Ok tt, w3) /\
    w_tables w3 = w_tables w2 ∖ (w_tables w1 ∖ w_tables w) /\
    (w_tables w2 = w_tables w1 -> w_tables w3 = w_tables w) /\
    (forall b t, db_index s' = Some (IndexTree b t) -> w_files w3 !! index_file filename tableName "kdtree" = None).
Proof.
  intros (st & Ei & Em & _ & Hs)%vec0_create_inv Hp Hsub. destruct (vec0_init_ok argv st Ei) as (Hst & _ & _).
  assert (Hv : db_vtab s' = vtab_of st).
  { rewrite Hp. destruct (in_index st) as [[]|]; [destruct Hs as (? & ? & _ & _ & ->)|subst s]; done. }
  pose proof (shadow_tables_distinct tableName st Hst) as Hd.
  destruct (create_tables _ _ _ _ Hd Em) as (Hfresh & Ht & _). specialize (Ht eq_refl).
  pose proof (proj1 Hfresh eq_refl) as Hnew. clear Hfresh Em.
  set (created := shadow_table tableName <$> created_suffixes (vtab_of st)) in *.
  set (dropped := shadow_table tableName <$> dropped_suffixes (vtab_of st)).
  assert (Hperm : dropped ≡ₚ created) by (apply fmap_Permutation, dropped_suffixes_perm).
  assert (Hin : forall x, x ∈ dropped <-> x ∈ created) by (intros x; by rewrite Hperm).
  unfold vec0Destroy, mbind, on_tables, mzoom. rewrite Hv, mfor_fmap. fold dropped.
  rewrite drop_tables; [|by rewrite Hperm|intros x Hx%Hin; apply Hsub; rewrite Ht, elem_of_union, elem_of_list_to_set; by left].
  assert (Hdiff : w_tables w2 ∖ list_to_set dropped = w_tables w2 ∖ (w_tables w1 ∖ w_tables w)).
  { rewrite Ht. apply set_eq. intros x.
    rewrite !elem_of_difference, elem_of_union, !elem_of_list_to_set, Hin. specialize (Hnew x).
    destruct (decide (x ∈ created)), (decide (x ∈ w_tables w)); tauto. }
  assert (Hback : w_tables w2 = w_tables w1 -> w_tables w2 ∖ list_to_set dropped = w_tables w).
  { intros ->. rewrite Ht. apply set_eq. intros x. rewrite elem_of_difference, elem_of_union, !elem_of_list_to_set, Hin.
    specialize (Hnew x). tauto. }
  destruct (db_index s') as [ix|]; eexists; (split; [reflexivity|]); cbn [w_tables w_files]; (split; [done|]);
    (split; [done|]); [|done]. intros b t _. apply lookup_delete_eq.
Qed.

End Lifecycle.

(** ** A table with a KD-tree, from creation to removal *)

Definition demo_argv : list chars :=
  [cstr "id text primary key"; cstr "p integer partition key"; cstr "v float[2] distance_metric=L1";
   cstr "+note text"; cstr "m text"; cstr "chunk_size=16"; cstr "create_index_kdtree=V"].

Definition accept (_ : chars) : bool := true.

Definition demo_world : world := MkWorld ∅ ∅.

Definition demo_created : res (db vec_index) * world := vec0Create accept [] [] (cstr "T") demo_argv demo_world.

Definition demo_table : db vec_index := match demo_created.1 with Ok s => s | _ => created (vtab_of init_start) end.

Lemma vec0_create_correct_witness :
  exists st, vec0_init accept demo_argv = Ok st /\ db_wf demo_table /\
    vec0_declaration st
    = cstr "CREATE TABLE x(" ++ quoted (cstr "id") ++ cstr " primary key, " ++ quoted (cstr "p") ++ cstr ", "
      ++ quoted (cstr "v") ++ cstr ", " ++ quoted (cstr "note") ++ cstr ", " ++ quoted (cstr "m")
      ++ cstr ",  distance hidden, k hidden) without rowid " /\
    exists ix, db_index demo_table = Some ix /\ index_type ix = INDEX_TYPE_KDTREE.
Proof.
  destruct (vec0_create_correct distance_l2_sqr_float accept [] [] (cstr "T") demo_argv demo_world demo_created.2
    demo_table) as (st & E & _ & Hw & _ & _ & _ & _ & _ & _ & _ & _ & Hi).
  - vm_compute. reflexivity.
  - intros c Hc Hb. vm_compute in Hc. apply list_elem_of_singleton in Hc. subst c. discriminate Hb.
  - exists st. split; [exact E|]. split; [exact Hw|]. vm_compute in E. injection E as <-.
    split; [vm_compute; reflexivity|]. cbn [in_index] in Hi. destruct (db_index demo_table) as [ix|]; [|destruct Hi].
    exists ix. split; [reflexivity|]. apply Hi.
Defined.

Lemma vec0_reconnect_correct_witness :
  exists w1 s', vec0Disconnect (Some (cstr "/tmp/a.db")) [0; 0; 0] true (cstr "T") demo_table demo_created.2 = (Ok tt, w1) /\
    vec0Connect accept (Some (cstr "/tmp/a.db")) [] [] [] (cstr "T") demo_argv demo_table w1 = (Ok s', w1) /\
    s' = set_index (db_index s') demo_table /\ is_Some (db_index s').
Proof.
  destruct (vec0_init accept demo_argv) as [st| |] eqn:E; [|vm_compute in E; discriminate E..].
  destruct (vec0_reconnect_correct distance_l2_sqr_float accept (Some (cstr "/tmp/a.db")) [0; 0; 0] [] [] []
    (cstr "T") demo_argv st demo_table demo_created.2) as (w1 & s' & H1 & H2 & _ & H3 & H4).
  - reflexivity.
  - exact E.
  - vm_compute in E. injection E as <-. vm_compute. reflexivity.
  - vm_compute in E. injection E as <-. vm_compute. reflexivity.
  - intros ix Hx. vm_compute in Hx. injection Hx as <-. split; [reflexivity|]. split; [split; vm_compute; congruence|exact I].
  - exists w1, s'. split; [exact H1|]. split; [exact H2|]. split; [exact H3|].
    destruct (db_index s') as [ix'|]; [by eexists|]. vm_compute in H4. destruct H4.
Defined.

Lemma vec0_destroy_correct_witness :
  exists w3, vec0Destroy (Some (cstr "/tmp/a.db")) (cstr "T") demo_table demo_created.2 = (Ok tt, w3) /\ w_tables w3 = ∅.
Proof.
  destruct (vec0_destroy_correct accept (Some (cstr "/tmp/a.db")) [] [] (cstr "T") demo_argv demo_world
    demo_created.2 demo_created.2 demo_table demo_table) as (w3 & E & _ & Hb & _).
  - vm_compute. reflexivity.
  - reflexivity.
  - reflexivity.
  - exists w3. split; [exact E|]. by apply Hb.
Defined.

(** ** Definitions the code accepts although they do not work *)

(** The index is made for the dimensions of the last vector column, whatever
    column it is on. *)
Lemma index_of_other_dimension :
  exists s w, vec0Create accept [] [] (cstr "t")
    [cstr "v float[2]"; cstr "create_index_kdtree=v"; cstr "u float[3]"] demo_world = (Ok s, w) /\
  index_column (db_vtab s) = Some 0%nat /\ vc_dimensions (vector_column (db_vtab s) 0) = 2 /\
  (@ix_dim _ (vec_index_ops distance_l2_sqr_float) <$> db_index s) = Some 3%nat.
Proof. eexists _, _. split; [vm_compute; reflexivity|]. vm_compute. repeat split. Qed.

(** A bit column whose dimensions are not a multiple of 8, which no bit
    vector has. *)
Lemma bit_column_of_12 :
  exists s w, vec0Create accept [] [] (cstr "t") [cstr "v bit[12]"] demo_world = (Ok s, w) /\
  vc_dimensions (vector_column (db_vtab s) 0) = 12 /\ column_size (db_vtab s) 0 = 1%nat.
Proof. eexists _, _. split; [vm_compute; reflexivity|]. vm_compute. repeat split. Qed.

(** Abbreviated options. *)
Lemma abbreviated_options :
  exists s w, vec0Create accept [] [] (cstr "t") [cstr "v float[2]"; cstr "c=8"; cstr "create=v"] demo_world = (Ok s, w) /\
  vt_chunk_size (db_vtab s) = 8%nat /\ index_type <$> db_index s = Some INDEX_TYPE_KDTREE.
Proof. eexists _, _. split; [vm_compute; reflexivity|]. vm_compute. repeat split. Qed.

(** The file of an HNSW graph is left behind when the table is dropped. *)
Lemma destroy_leaves_hnsw_file :
  let file := Some (cstr "a.db") in
  exists s w w1 w2, vec0Create accept [] [] (cstr "t") [cstr "v float[2]"; cstr "create_index_hnsw=v"] demo_world = (Ok s, w) /\
  vec0Disconnect file [0; 0; 0] true (cstr "t") s w = (Ok tt, w1) /\ vec0Destroy file (cstr "t") s w1 = (Ok tt, w2) /\
  is_Some (w_files w2 !! cstr "a_t_hnsw.idx").
Proof.
  eexists _, _, _, _. split; [vm_compute; reflexivity|]. split; [vm_compute; reflexivity|].
  split; [vm_compute; reflexivity|]. vm_compute. by eexists.
Qed.
