(* ===== verification/Graph.v ===== *)
(** * The graph virtual table (sqlite-graph/src/graph.c, graph-vtab.c)

    Nodes and edges are rows of two ordinary tables, [_nodes] and [_edges] by
    default.  The storage functions [graphAddNode] to [graphFindEdge], the SQL
    functions [graph_node_add] to [graph_cascade_delete_node], and the virtual
    table that shows both tables as one: an edge's rowid is its id with bit 62
    set.  A statement is modelled by what SQLite documents of it: an INSERT of
    an id in use fails with [SQLITE_CONSTRAINT], a statement on a table that
    does not exist with [SQLITE_ERROR]. *)

From Stdlib Require Import String ZArith Lia SpecFloat.
From stdpp Require Import base option list numbers gmap.
From S2P Require Import Prelude Float32 Codec Shadow DefParser.

Local Open Scope Z_scope.
Local Open Scope storage_scope.

(** ** Tables *)

(** A TEXT or NULL. *)
Definition text : Type := option bytes.

Record GraphNode := MkGNode { gn_labels : text; gn_properties : text }.

Record GraphEdge := MkGEdge {
  ge_source : Z;
  ge_target : Z;
  ge_edge_type : text;
  ge_weight : option f64;
  ge_properties : text
}.

(** The tables of a database by name; a name stands for a table of one kind. *)
Record gdb := MkGdb {
  gd_nodes : gmap bytes (gmap Z GraphNode);
  gd_edges : gmap bytes (gmap Z GraphEdge)
}.

Record GraphVtab := MkGVtab {
  gv_zTableName : bytes;
  gv_zNodeTableName : bytes;
  gv_zEdgeTableName : bytes
}.

(** What the code relies on: the rowid SQLite picks when the largest one is
    taken, the number it reads back from a weight printed with [%f] ([None]
    if the text is no number), and an UPDATE of the virtual table that is run
    from inside its own [xUpdate]. *)
Class GraphSql := {
  random_rowid : list Z -> Z;
  random_rowid_fresh : forall l, random_rowid l ∉ l;
  reread_f : f64 -> option f64;
  nested_update : GraphVtab -> Z -> list (string * value) -> M gdb unit
}.

Section Sql.
Context `{GraphSql}.

Definition max_id (l : list Z) : option Z := foldr (fun x m => Some (match m with Some y => Z.max x y | None => x end)) None l.

(** The rowid of an INSERT without one. *)
Definition auto_rowid {A : Type} (t : gmap Z A) : Z :=
  let ids := (map_to_list t).*1 in
  match max_id ids with
  | None => 1
  | Some m => if m <? 2 ^ 63 - 1 then m + 1 else random_rowid ids
  end.

End Sql.

Definition set_nodes (name : bytes) (t : gmap Z GraphNode) (s : gdb) : gdb := MkGdb (<[name := t]> (gd_nodes s)) (gd_edges s).
Definition set_edges (name : bytes) (t : gmap Z GraphEdge) (s : gdb) : gdb := MkGdb (gd_nodes s) (<[name := t]> (gd_edges s)).

Definition node_table (name : bytes) : M gdb (gmap Z GraphNode) := t <-m mget (fun s => gd_nodes s !! name); mopt t SQLITE_ERROR.
Definition edge_table (name : bytes) : M gdb (gmap Z GraphEdge) := t <-m mget (fun s => gd_edges s !! name); mopt t SQLITE_ERROR.

(** [INSERT INTO nodes], [INSERT OR REPLACE], [UPDATE], [DELETE]. *)
Definition insert_node (name : bytes) (id : Z) (n : GraphNode) : M gdb unit :=
  t <-m node_table name;
  _ <-m mwhen (bool_decide (is_Some (t !! id))) SQLITE_CONSTRAINT;
  mput (set_nodes name (<[id := n]> t)).

Definition replace_node (name : bytes) (id : Z) (n : GraphNode) : M gdb unit :=
  t <-m node_table name;
  mput (set_nodes name (<[id := n]> t)).

Definition update_properties (name : bytes) (id : Z) (properties : text) : M gdb unit :=
  t <-m node_table name;
  mput (set_nodes name (alter (fun n => MkGNode (gn_labels n) properties) id t)).

Definition delete_node (name : bytes) (id : Z) : M gdb unit :=
  t <-m node_table name;
  mput (set_nodes name (delete id t)).

(** [DELETE FROM edges WHERE p] *)
Definition delete_edges (name : bytes) (p : Z -> GraphEdge -> bool) : M gdb unit :=
  t <-m edge_table name;
  mput (set_edges name (filter (fun '(i, e) => p i e = false) t)).

Definition touches (id : Z) (e : GraphEdge) : bool := (ge_source e =? id) || (ge_target e =? id).
Definition joins (a b : Z) (e : GraphEdge) : bool := (ge_source e =? a) && (ge_target e =? b).

Definition empty_labels : text := Some (bstr "[]").

(** The tables the storage functions use: they append to the name of the
    virtual table, whatever tables it was created with. *)
Definition suffixed_nodes (v : GraphVtab) : bytes := gv_zTableName v ++ bstr "_nodes".
Definition suffixed_edges (v : GraphVtab) : bytes := gv_zTableName v ++ bstr "_edges".

(** ** Storage functions (graph.c) *)

Section Storage.
Context `{GraphSql} `{ScanOrder}.

(** [sqlite3_mprintf("%s", sqlite3_column_text(...))]: NULL prints as the
    empty text. *)
Definition column_string (t : text) : bytes := default [] t.

(** [sqlite3_column_double] of NULL is 0. *)
Definition column_double (w : option f64) : f64 := default (S754_zero false) w.

Definition graphAddNode (v : GraphVtab) (iNodeId : Z) (zProperties : text) : M gdb unit :=
  insert_node (suffixed_nodes v) iNodeId (MkGNode empty_labels zProperties).

Definition graphRemoveNode (v : GraphVtab) (iNodeId : Z) : M gdb unit :=
  _ <-m delete_node (suffixed_nodes v) iNodeId;
  delete_edges (suffixed_edges v) (fun _ e => touches iNodeId e).

Definition graphGetNode (v : GraphVtab) (iNodeId : Z) : M gdb bytes :=
  t <-m node_table (suffixed_nodes v);
  n <-m mopt (t !! iNodeId) SQLITE_NOTFOUND;
  mret (column_string (gn_properties n)).

(** The weight goes through its text. *)
Definition insert_edge (name : bytes) (e : GraphEdge) : M gdb Z :=
  t <-m edge_table name;
  let id := auto_rowid t in
  _ <-m mput (set_edges name (<[id := e]> t));
  mret id.

Definition graphAddEdge (v : GraphVtab) (iFromId iToId : Z) (rWeight : f64) (zProperties : text) : M gdb unit :=
  _ <-m edge_table (suffixed_edges v);
  w <-m mopt (reread_f rWeight) SQLITE_ERROR;
  _ <-m insert_edge (suffixed_edges v) (MkGEdge iFromId iToId None (Some w) zProperties);
  mret tt.

Definition graphRemoveEdge (v : GraphVtab) (iFromId iToId : Z) : M gdb unit :=
  delete_edges (suffixed_edges v) (fun _ e => joins iFromId iToId e).

Definition graphUpdateNode (v : GraphVtab) (iNodeId : Z) (zProperties : text) : M gdb unit :=
  update_properties (suffixed_nodes v) iNodeId zProperties.

(** The first of the edges between two nodes that a scan meets. *)
Definition first_edge (a b : Z) (t : gmap Z GraphEdge) : option (Z * GraphEdge) :=
  head (filter (fun p : Z * GraphEdge => joins a b p.2 = true) (scan t)).

Definition graphGetEdge (v : GraphVtab) (iFromId iToId : Z) : M gdb (f64 * bytes) :=
  t <-m edge_table (suffixed_edges v);
  e <-m mopt (first_edge iFromId iToId t) SQLITE_NOTFOUND;
  mret (column_double (ge_weight e.2), column_string (ge_properties e.2)).

(** [sqlite3_column_int] of a count; 0 if the statement fails. *)
Definition graphCountNodes (v : GraphVtab) (s : gdb) : Z :=
  match gd_nodes s !! suffixed_nodes v with Some t => to_i32 (Z.of_nat (size t)) | None => 0 end.

Definition graphCountEdges (v : GraphVtab) (s : gdb) : Z :=
  match gd_edges s !! suffixed_edges v with Some t => to_i32 (Z.of_nat (size t)) | None => 0 end.

Definition graphFindNode (v : GraphVtab) (iNodeId : Z) (s : gdb) : option (Z * bytes) :=
  t ← gd_nodes s !! suffixed_nodes v;
  n ← t !! iNodeId;
  Some (iNodeId, column_string (gn_properties n)).

Definition graphFindEdge (v : GraphVtab) (iFromId iToId : Z) (s : gdb) : option (Z * (Z * Z) * f64 * bytes) :=
  t ← gd_edges s !! suffixed_edges v;
  '(i, e) ← first_edge iFromId iToId t;
  Some (i, (ge_source e, ge_target e), column_double (ge_weight e), column_string (ge_properties e)).

End Storage.

(** ** SQL functions (graph.c) *)

(** A C string ends at its first NUL. *)
Fixpoint cstring (b : bytes) : bytes :=
  match b with
  | [] => []
  | c :: b => if c =? 0 then [] else c :: cstring b
  end.

Section Functions.
Context `{GraphSql} `{SqlValues} (pGraph : option GraphVtab).

(** [sqlite3_value_text]: NULL for NULL. *)
Definition arg_text (x : value) : text :=
  match x with VNull => None | _ => Some (cstring (value_text x)) end.

(** No graph table: an error message. *)
Definition with_graph {A : Type} (f : GraphVtab -> M gdb A) : M gdb A :=
  match pGraph with Some v => f v | None => mfail SQLITE_ERROR end.

Definition graphNodeAddFunc (a0 a1 : value) : M gdb Z :=
  with_graph (fun v =>
    let iNodeId := value_int64 a0 in
    _ <-m insert_node (suffixed_nodes v) iNodeId (MkGNode empty_labels (arg_text a1));
    mret iNodeId).

(** No check of the nodes, no weight. *)
Definition graphEdgeAddFunc (a0 a1 a2 a3 : value) : M gdb Z :=
  with_graph (fun v =>
    insert_edge (suffixed_edges v) (MkGEdge (value_int64 a0) (value_int64 a1) (arg_text a2) None (arg_text a3))).

Definition graphNodeUpdateFunc (a0 a1 : value) : M gdb Z :=
  with_graph (fun v =>
    let iNodeId := value_int64 a0 in
    _ <-m update_properties (suffixed_nodes v) iNodeId (arg_text a1);
    mret iNodeId).

Definition graphNodeDeleteFunc (a0 : value) : M gdb Z :=
  with_graph (fun v =>
    let iNodeId := value_int64 a0 in
    _ <-m delete_node (suffixed_nodes v) iNodeId;
    mret iNodeId).

Definition graphEdgeUpdateFunc (a0 a1 a2 a3 a4 : value) : M gdb Z :=
  with_graph (fun v =>
    let iEdgeId := value_int64 a0 in
    t <-m edge_table (suffixed_edges v);
    w <-m mopt (reread_f (value_double a3)) SQLITE_ERROR;
    let upd e := MkGEdge (value_int64 a1) (value_int64 a2) (ge_edge_type e) (Some w) (arg_text a4) in
    _ <-m mput (set_edges (suffixed_edges v) (alter upd iEdgeId t));
    mret iEdgeId).

Definition graphEdgeDeleteFunc (a0 : value) : M gdb Z :=
  with_graph (fun v =>
    let iEdgeId := value_int64 a0 in
    _ <-m delete_edges (suffixed_edges v) (fun i _ => i =? iEdgeId);
    mret iEdgeId).

Definition graphNodeUpsertFunc (a0 a1 : value) : M gdb Z :=
  with_graph (fun v =>
    let iNodeId := value_int64 a0 in
    _ <-m replace_node (suffixed_nodes v) iNodeId (MkGNode empty_labels (arg_text a1));
    mret iNodeId).

Definition graphCascadeDeleteNodeFunc (a0 : value) : M gdb Z :=
  with_graph (fun v =>
    let iNodeId := value_int64 a0 in
    _ <-m delete_edges (suffixed_edges v) (fun _ e => touches iNodeId e);
    _ <-m delete_node (suffixed_nodes v) iNodeId;
    mret iNodeId).

(** [SELECT count(...)] of nodes, and of edges that satisfy a condition. *)
Definition count_nodes (v : GraphVtab) : M gdb Z :=
  t <-m node_table (suffixed_nodes v);
  mret (to_i32 (Z.of_nat (size t))).

Definition count_edges (v : GraphVtab) (p : GraphEdge -> bool) : M gdb Z :=
  t <-m edge_table (suffixed_edges v);
  mret (to_i32 (Z.of_nat (size (filter (fun '(_, e) => p e = true) t)))).

Definition graphCountNodesFunc : M gdb Z := with_graph count_nodes.
Definition graphCountEdgesFunc : M gdb Z := with_graph (fun v => count_edges v (fun _ => true)).

Definition graphDegreeCentralityFunc (a0 : value) : M gdb f64 :=
  with_graph (fun v =>
    nDegree <-m count_edges v (touches (value_int64 a0));
    nNodes <-m count_nodes v;
    mret (if nNodes <=? 1 then S754_zero false else f64_div (f64_of_Z nDegree) (f64_of_Z (nNodes - 1)))).

(** A count of edges, not a search. *)
Definition graphIsConnectedFunc : M gdb bool :=
  with_graph (fun v =>
    nNodes <-m count_nodes v;
    if nNodes <=? 1 then mret true
    else
      nEdges <-m count_edges v (fun _ => true);
      mret (nNodes - 1 <=? nEdges)).

Definition graphDensityFunc : M gdb f64 :=
  with_graph (fun v =>
    nNodes <-m count_nodes v;
    if nNodes <=? 1 then mret (S754_zero false)
    else
      nEdges <-m count_edges v (fun _ => true);
      mret (f64_div (f64_of_Z nEdges) (f64_mul (f64_of_Z nNodes) (f64_of_Z (nNodes - 1))))).

(** A self loop, or more edges than a tree has. *)
Definition graphHasCycleFunc : M gdb bool :=
  with_graph (fun v =>
    nSelfLoops <-m count_edges v (fun e => ge_source e =? ge_target e);
    if 0 <? nSelfLoops then mret true
    else
      nEdges <-m count_edges v (fun _ => true);
      nNodes <-m count_nodes v;
      mret (nNodes - 1 <? nEdges)).

End Functions.

(** ** The virtual table (graph-vtab.c) *)

(** Names of the tables behind a virtual table: arguments, or suffixes. *)
Definition vtab_names (argv : list bytes) : GraphVtab :=
  let table := default [] (argv !! 2%nat) in
  if (5 <=? length argv)%nat then MkGVtab table (default [] (argv !! 3%nat)) (default [] (argv !! 4%nat))
  else MkGVtab table (table ++ bstr "_nodes") (table ++ bstr "_edges").

(** [CREATE TABLE IF NOT EXISTS] for both. *)
Definition create_tables (v : GraphVtab) (s : gdb) : gdb :=
  MkGdb (match gd_nodes s !! gv_zNodeTableName v with
         | Some _ => gd_nodes s | None => <[gv_zNodeTableName v := ∅]> (gd_nodes s) end)
        (match gd_edges s !! gv_zEdgeTableName v with
         | Some _ => gd_edges s | None => <[gv_zEdgeTableName v := ∅]> (gd_edges s) end).

Definition graphCreate (argv : list bytes) : M gdb GraphVtab :=
  let v := vtab_names argv in
  _ <-m mput (create_tables v);
  mret v.

Definition table_count (v : GraphVtab) (s : gdb) : nat :=
  ((if gd_nodes s !! gv_zNodeTableName v is Some _ then 1 else 0) + (if gd_edges s !! gv_zEdgeTableName v is Some _ then 1 else 0))%nat.

Definition graphConnect (argv : list bytes) : M gdb GraphVtab :=
  let v := vtab_names argv in
  tableCount <-m mget (table_count v);
  _ <-m (if (tableCount =? 2)%nat then mret tt else mput (create_tables v));
  mret v.

(** [xBestIndex]: the rowid equalities are taken over, one argument each. *)
Record constraint := MkConstraint { co_iColumn : Z; co_op : Z; co_usable : bool }.

Definition SQLITE_INDEX_CONSTRAINT_EQ : Z := 2.

Definition rowid_eq (c : constraint) : bool := (co_iColumn c =? -1) && (co_op c =? SQLITE_INDEX_CONSTRAINT_EQ).

(** [argvIndex] of each constraint, and [idxNum]; a taken one is omitted. *)
Fixpoint usage (constraintIdx : nat) (cs : list constraint) : list nat :=
  match cs with
  | [] => []
  | c :: cs =>
      if co_usable c && rowid_eq c then S constraintIdx :: usage (S constraintIdx) cs
      else 0%nat :: usage constraintIdx cs
  end.

Definition graphBestIndex (cs : list constraint) : list nat * Z :=
  (usage 0 cs, if existsb (fun c => co_usable c && rowid_eq c) cs then 1 else 0).

(** A statement: its rows and how many were stepped over; stepping past the
    last one resets it. *)
Record stmt (A : Type) := MkStmt { st_rows : list (Z * A); st_pos : nat }.
Arguments MkStmt {A} st_rows st_pos.
Arguments st_rows {A} s.
Arguments st_pos {A} s.

Definition sqlite3_step {A : Type} (p : stmt A) : bool * stmt A :=
  if (st_pos p <? length (st_rows p))%nat then (true, MkStmt (st_rows p) (S (st_pos p)))
  else (false, MkStmt (st_rows p) 0).

Definition current {A : Type} (p : stmt A) : option (Z * A) :=
  match st_pos p with O => None | S i => st_rows p !! i end.

Record GraphCursor := MkGCursor {
  gc_iIterMode : Z;
  gc_pNodeStmt : stmt GraphNode;
  gc_pEdgeStmt : stmt GraphEdge
}.

Definition edge_bit : Z := 2 ^ 62.
Definition is_edge_rowid (rowid : Z) : bool := negb (Z.land rowid edge_bit =? 0).
Definition edge_of_rowid (rowid : Z) : Z := Z.land rowid (Z.lnot edge_bit).
Definition rowid_of_edge (id : Z) : Z := Z.lor id edge_bit.

(** Stepping the edges: mode 1, or 2 at the end. *)
Definition step_edges (cur : GraphCursor) : GraphCursor :=
  let '(row, e) := sqlite3_step (gc_pEdgeStmt cur) in
  MkGCursor (if row then 1 else 2) (gc_pNodeStmt cur) e.

(** The statements are never NULL here; mode -1 and 0 step the nodes first. *)
Definition graphNext (cur : GraphCursor) : GraphCursor :=
  if (gc_iIterMode cur =? -1) || (gc_iIterMode cur =? 0) then
    let '(row, n) := sqlite3_step (gc_pNodeStmt cur) in
    if row : bool then MkGCursor 0 n (gc_pEdgeStmt cur)
    else step_edges (MkGCursor 1 n (gc_pEdgeStmt cur))
  else if gc_iIterMode cur =? 1 then step_edges cur
  else MkGCursor 2 (gc_pNodeStmt cur) (gc_pEdgeStmt cur).

Definition graphEof (cur : GraphCursor) : bool := 2 <=? gc_iIterMode cur.

Section Vtab.
Context `{GraphSql} `{SqlValues} `{ScanOrder} (v : GraphVtab).

Definition graphFilter (idxNum : Z) (argv : list value) (s : gdb) : res GraphCursor :=
  match gd_nodes s !! gv_zNodeTableName v, gd_edges s !! gv_zEdgeTableName v with
  | Some nodes, Some edges =>
      match (if idxNum =? 1 then argv else []) with
      | a :: _ =>
          let targetRowid := value_int64 a in
          if is_edge_rowid targetRowid then
            let id := edge_of_rowid targetRowid in
            Ok (graphNext (MkGCursor 0 (MkStmt [] 0)
              (MkStmt (match edges !! id with Some e => [(id, e)] | None => [] end) 0)))
          else
            Ok (graphNext (MkGCursor (-1)
              (MkStmt (match nodes !! targetRowid with Some n => [(targetRowid, n)] | None => [] end) 0) (MkStmt [] 0)))
      | [] => Ok (graphNext (MkGCursor (-1) (MkStmt (scan nodes) 0) (MkStmt (scan edges) 0)))
      end
  | _, _ => Err SQLITE_ERROR
  end.

Inductive cell := CNull | CInt (z : Z) | CDouble (d : f64) | CText (b : bytes).

Definition text_cell (t : text) : cell := match t with Some b => CText b | None => CNull end.

Definition node_column (id : Z) (n : GraphNode) (iCol : Z) : cell :=
  match iCol with
  | 0 => CText (bstr "node")
  | 1 => CInt id
  | 4 => text_cell (gn_labels n)
  | 7 => text_cell (gn_properties n)
  | _ => CNull
  end.

Definition edge_column (id : Z) (e : GraphEdge) (iCol : Z) : cell :=
  match iCol with
  | 0 => CText (bstr "edge")
  | 1 => CInt id
  | 2 => CInt (ge_source e)
  | 3 => CInt (ge_target e)
  | 5 => text_cell (ge_edge_type e)
  | 6 => CDouble (column_double (ge_weight e))
  | 7 => text_cell (ge_properties e)
  | _ => CNull
  end.

(** [None]: the statement has no row. *)
Definition graphColumn (cur : GraphCursor) (iCol : Z) : option cell :=
  if gc_iIterMode cur =? 0 then
    '(id, n) ← current (gc_pNodeStmt cur); Some (node_column id n iCol)
  else
    '(id, e) ← current (gc_pEdgeStmt cur); Some (edge_column id e iCol).

Definition graphRowid (cur : GraphCursor) : option Z :=
  if gc_iIterMode cur =? 0 then fst <$> current (gc_pNodeStmt cur)
  else rowid_of_edge ∘ fst <$> current (gc_pEdgeStmt cur).

(** The value of an argument of [xUpdate], or a default for NULL. *)
Definition arg (argv : list value) (i : nat) : value := default VNull (argv !! i).
Definition is_null (x : value) : bool := sqlite3_value_type x =? SQLITE_NULL.
Definition int_arg (argv : list value) (i : nat) : Z := if is_null (arg argv i) then 0 else value_int64 (arg argv i).
Definition text_arg (argv : list value) (i : nat) (d : bytes) : text :=
  if is_null (arg argv i) then Some d else arg_text (arg argv i).
Definition double_arg (argv : list value) (i : nat) : f64 :=
  if is_null (arg argv i) then S754_zero false else value_double (arg argv i).

Definition insert_node_row (argv : list value) : M gdb Z :=
  let node_id := int_arg argv 3 in
  let n := MkGNode (text_arg argv 6 (bstr "[]")) (text_arg argv 9 []) in
  if 0 <? node_id then
    _ <-m replace_node (gv_zNodeTableName v) node_id n;
    mret node_id
  else
    t <-m node_table (gv_zNodeTableName v);
    let id := auto_rowid t in
    _ <-m mput (set_nodes (gv_zNodeTableName v) (<[id := n]> t));
    mret id.

Definition insert_edge_row (argv : list value) : M gdb Z :=
  let from_id := int_arg argv 4 in
  let to_id := int_arg argv 5 in
  nodes <-m node_table (gv_zNodeTableName v);
  _ <-m mwhen (negb (bool_decide (is_Some (nodes !! from_id)) && bool_decide (is_Some (nodes !! to_id)))) SQLITE_CONSTRAINT;
  _ <-m edge_table (gv_zEdgeTableName v);
  w <-m mopt (reread_f (double_arg argv 8)) SQLITE_ERROR;
  id <-m insert_edge (gv_zEdgeTableName v) (MkGEdge from_id to_id (text_arg argv 7 []) (Some w) (text_arg argv 9 []));
  mret (rowid_of_edge id).

(** The assignments an UPDATE of an edge asks for. *)
Definition edge_updates (argv : list value) : list (string * value) :=
  filter (fun p : string * value => is_null p.2 = false)
    [("from_id"%string, arg argv 4); ("to_id"%string, arg argv 5); ("weight"%string, arg argv 8); ("properties"%string, arg argv 9)].

(** [*pRowid] is set by an INSERT. *)
Definition graphUpdate (argv : list value) : M gdb (option Z) :=
  if (length argv =? 1)%nat then
    let rowid := value_int64 (arg argv 0) in
    _ <-m (if is_edge_rowid rowid then delete_edges (gv_zEdgeTableName v) (fun i _ => i =? edge_of_rowid rowid)
           else delete_node (gv_zNodeTableName v) rowid);
    mret None
  else if (11 <=? length argv)%nat && is_null (arg argv 0) && is_null (arg argv 1) then
    let type := arg_text (arg argv 2) in
    if bool_decide (type = Some (bstr "node")) then id <-m insert_node_row argv; mret (Some id)
    else if bool_decide (type = Some (bstr "edge")) then id <-m insert_edge_row argv; mret (Some id)
    else mfail SQLITE_MISUSE
  else if (11 <=? length argv)%nat then
    let old_rowid := value_int64 (arg argv 0) in
    if negb (old_rowid =? value_int64 (arg argv 1)) then mfail SQLITE_MISUSE
    else if is_edge_rowid old_rowid then
      _ <-m (match edge_updates argv with
             | [] => mret tt
             | us => nested_update v (edge_of_rowid old_rowid) us
             end);
      mret None
    else
      _ <-m (if is_null (arg argv 9) then mret tt
             else update_properties (gv_zNodeTableName v) old_rowid (arg_text (arg argv 9)));
      mret None
  else mfail SQLITE_MISUSE.

End Vtab.

(** ** Scans and lookups *)

Definition all_columns : list Z := [0; 1; 2; 3; 4; 5; 6; 7; 8].

(** A row as a query sees it: the rowid and the columns. *)
Definition graph_row : Type := option Z * list (option cell).

Definition cursor_row (cur : GraphCursor) : graph_row := (graphRowid cur, graphColumn cur <$> all_columns).
Definition node_row (p : Z * GraphNode) : graph_row := (Some p.1, (fun c => Some (node_column p.1 p.2 c)) <$> all_columns).
Definition edge_row (p : Z * GraphEdge) : graph_row :=
  (Some (rowid_of_edge p.1), (fun c => Some (edge_column p.1 p.2 c)) <$> all_columns).

(** The loop of SQLite over a cursor. *)
Fixpoint graph_drive (fuel : nat) (cur : GraphCursor) : option (list graph_row) :=
  if graphEof cur then Some []
  else match fuel with
       | O => None
       | S fuel => cons (cursor_row cur) <$> graph_drive fuel (graphNext cur)
       end.

(** The cursor is on the first of the edges [l] that are left. *)
Definition edges_left (cur : GraphCursor) (l : list (Z * GraphEdge)) : Prop :=
  match l with
  | [] => gc_iIterMode cur = 2
  | _ => gc_iIterMode cur = 1 /\
      exists pre, st_rows (gc_pEdgeStmt cur) = pre ++ l /\ st_pos (gc_pEdgeStmt cur) = S (length pre)
  end.

Definition rows_left (cur : GraphCursor) (ln : list (Z * GraphNode)) (le : list (Z * GraphEdge)) : Prop :=
  match ln with
  | [] => edges_left cur le
  | _ => gc_iIterMode cur = 0 /\ gc_pEdgeStmt cur = MkStmt le 0 /\
      exists pre, st_rows (gc_pNodeStmt cur) = pre ++ ln /\ st_pos (gc_pNodeStmt cur) = S (length pre)
  end.

Lemma step_at {A : Type} (p : stmt A) (pre l : list (Z * A)) :
  st_rows p = pre ++ l -> st_pos p = length pre ->
  sqlite3_step p = match l with [] => (false, MkStmt (pre ++ l) 0) | _ => (true, MkStmt (pre ++ l) (S (length pre))) end.
Proof.
  intros Hr Hp. unfold sqlite3_step. rewrite Hr, Hp, length_app. destruct l as [|x l]; cbn [length].
  - by rewrite (proj2 (Nat.ltb_ge _ _)) by lia.
  - by rewrite (proj2 (Nat.ltb_lt _ _)) by lia.
Qed.

Lemma current_at {A : Type} (p : stmt A) (pre l : list (Z * A)) (x : Z * A) :
  st_rows p = pre ++ x :: l -> st_pos p = S (length pre) -> current p = Some x.
Proof. intros Hr Hp. unfold current. by rewrite Hr, Hp, list_lookup_middle. Qed.

Lemma step_edges_left (cur : GraphCursor) (pre l : list (Z * GraphEdge)) :
  st_rows (gc_pEdgeStmt cur) = pre ++ l -> st_pos (gc_pEdgeStmt cur) = length pre -> edges_left (step_edges cur) l.
Proof.
  intros Hr Hp. unfold step_edges. rewrite (step_at _ pre l Hr Hp). destruct l as [|x l]; [done|].
  split; [done|]. by exists pre.
Qed.

Lemma graphNext_left (cur : GraphCursor) (pre ln : list (Z * GraphNode)) (le : list (Z * GraphEdge)) :
  gc_iIterMode cur = -1 \/ gc_iIterMode cur = 0 -> gc_pEdgeStmt cur = MkStmt le 0 ->
  st_rows (gc_pNodeStmt cur) = pre ++ ln -> st_pos (gc_pNodeStmt cur) = length pre -> rows_left (graphNext cur) ln le.
Proof.
  intros Hm He Hr Hp. unfold graphNext.
  assert (E : (gc_iIterMode cur =? -1) || (gc_iIterMode cur =? 0) = true) by (destruct Hm as [->| ->]; done).
  rewrite E, (step_at _ pre ln Hr Hp), He. destruct ln as [|x ln].
  - by apply (step_edges_left _ []).
  - split; [done|]. split; [done|]. by exists pre.
Qed.

Lemma edges_drive (l : list (Z * GraphEdge)) (cur : GraphCursor) :
  edges_left cur l -> graph_drive (length l) cur = Some (edge_row <$> l).
Proof.
  revert cur. induction l as [|x l IH]; intros cur H; cbn [graph_drive length]; unfold graphEof.
  - by rewrite H.
  - destruct H as (Hm & pre & Hr & Hp). rewrite Hm. change (2 <=? 1) with false. cbv iota.
    rewrite (IH (graphNext cur)).
    + unfold cursor_row, graphRowid, graphColumn. rewrite Hm, (current_at _ _ _ _ Hr Hp). by destruct x.
    + unfold graphNext. rewrite Hm. apply (step_edges_left _ (pre ++ [x])); [by rewrite <- app_assoc|].
      rewrite length_app, Hp. cbn. lia.
Qed.

Lemma rows_drive (ln : list (Z * GraphNode)) (le : list (Z * GraphEdge)) (cur : GraphCursor) :
  rows_left cur ln le -> graph_drive (length ln + length le) cur = Some ((node_row <$> ln) ++ (edge_row <$> le)).
Proof.
  revert cur. induction ln as [|x ln IH]; intros cur H; [by apply edges_drive|].
  cbn [graph_drive length Nat.add]. unfold graphEof. destruct H as (Hm & He & pre & Hr & Hp). rewrite Hm.
  change (2 <=? 0) with false. cbv iota. rewrite (IH (graphNext cur)).
  - unfold cursor_row, graphRowid, graphColumn. rewrite Hm, (current_at _ _ _ _ Hr Hp). by destruct x.
  - apply (graphNext_left _ (pre ++ [x])); [by right|done|by rewrite <- app_assoc|]. rewrite length_app, Hp. cbn. lia.
Qed.

(** ** Rowids *)

Definition id_ok (id : Z) : Prop := 0 <= id < 2 ^ 62.

Lemma edge_bit_testbit (i : Z) : 0 <= i -> Z.testbit edge_bit i = (62 =? i).
Proof. intros Hi. unfold edge_bit. rewrite Z.pow2_bits_eqb by lia. done. Qed.

Lemma is_edge_rowid_testbit (r : Z) : is_edge_rowid r = Z.testbit r 62.
Proof.
  unfold is_edge_rowid. destruct (Z.testbit r 62) eqn:E.
  - apply negb_true_iff, Z.eqb_neq. intros E2. apply (f_equal (fun z => Z.testbit z 62)) in E2.
    rewrite Z.land_spec, E, edge_bit_testbit in E2 by lia. done.
  - apply negb_false_iff, Z.eqb_eq. apply Z.bits_inj'. intros i Hi. rewrite Z.land_spec, edge_bit_testbit, Z.bits_0 by lia.
    destruct (Z.eqb_spec 62 i) as [<-|]; [by rewrite E|by rewrite andb_false_r].
Qed.

Lemma id_ok_testbit (id : Z) : id_ok id -> Z.testbit id 62 = false.
Proof. intros [H0 H1]. apply Z.bits_above_log2; [done|]. destruct (Z.eq_dec id 0) as [->|]; [done|]. apply Z.log2_lt_pow2; lia. Qed.

Lemma is_edge_rowid_of_edge (id : Z) : is_edge_rowid (rowid_of_edge id) = true.
Proof. rewrite is_edge_rowid_testbit. unfold rowid_of_edge. rewrite Z.lor_spec, edge_bit_testbit by lia. apply orb_true_r. Qed.

(** Taking the bit off and putting it on again. *)
Lemma rowid_of_edge_iff (id r : Z) :
  id_ok id -> is_edge_rowid r = true -> (rowid_of_edge id = r <-> id = edge_of_rowid r).
Proof.
  intros Hid Hr. rewrite is_edge_rowid_testbit in Hr. apply id_ok_testbit in Hid as Hb.
  unfold rowid_of_edge, edge_of_rowid. split; [intros <-|intros ->]; apply Z.bits_inj'; intros i Hi;
    repeat rewrite ?Z.lor_spec, ?Z.land_spec, ?Z.lnot_spec by lia; rewrite !edge_bit_testbit by lia;
    destruct (Z.eqb_spec 62 i) as [<-|].
  - by rewrite Hb, andb_false_r.
  - by rewrite orb_false_r, andb_true_r.
  - by rewrite Hr, orb_true_r.
  - by rewrite orb_false_r, andb_true_r.
Qed.

Lemma filter_scan_key `{ScanOrder} {A : Type} (t : gmap Z A) (k : Z) :
  filter (fun p => p.1 = k) (scan t) = match t !! k with Some x => [(k, x)] | None => [] end.
Proof.
  assert (Hnone : forall m : gmap Z A, m !! k = None -> filter (fun p => p.1 = k) (map_to_list m) = []).
  { intros m Hm. apply elem_of_nil_inv. intros [i x] [Hi Hx]%list_elem_of_filter.
    cbn in Hi. subst i. apply elem_of_map_to_list in Hx. congruence. }
  pose proof (scan_perm A t) as Hp. destruct (t !! k) as [x|] eqn:E.
  - apply Permutation_singleton_r. rewrite Hp, <- (map_to_list_delete t k x E). cbn.
    rewrite decide_True by done. rewrite Hnone; [done|]. apply lookup_delete_eq.
  - apply Permutation_nil_r. by rewrite Hp, Hnone.
Qed.

Section Scans.
Context `{SqlValues} `{ScanOrder} (v : GraphVtab) (s : gdb) (nodes : gmap Z GraphNode) (edges : gmap Z GraphEdge).
Hypothesis has_nodes : gd_nodes s !! gv_zNodeTableName v = Some nodes.
Hypothesis has_edges : gd_edges s !! gv_zEdgeTableName v = Some edges.

Definition graph_rows : list graph_row := (node_row <$> scan nodes) ++ (edge_row <$> scan edges).

Lemma scan_length {A : Type} (t : gmap Z A) : length (scan t) = size t.
Proof. by rewrite (Permutation_length (scan_perm A t)), length_map_to_list. Qed.

Lemma full_scan (argv : list value) :
  exists cur, graphFilter v 0 argv s = Ok cur /\ graph_drive (size nodes + size edges) cur = Some graph_rows.
Proof.
  unfold graphFilter. rewrite has_nodes, has_edges. eexists. split; [done|]. rewrite <- !scan_length.
  apply rows_drive. by apply (graphNext_left _ [] (scan nodes) (scan edges)); [left| | |].
Qed.

Definition ids_ok : Prop := map_Forall (fun id _ => id_ok id) nodes /\ map_Forall (fun id _ => id_ok id) edges.

Lemma scan_elem {A : Type} (t : gmap Z A) (p : Z * A) : p ∈ scan t -> t !! p.1 = Some p.2.
Proof. rewrite (scan_perm A t). destruct p as [i x]. by rewrite elem_of_map_to_list. Qed.

(** The rows with a rowid, as a filter on the keys. *)
Lemma filter_node_rows (r : Z) (l : list (Z * GraphNode)) :
  filter (fun row : graph_row => row.1 = Some r) (node_row <$> l) = node_row <$> filter (fun p => p.1 = r) l.
Proof.
  induction l as [|[i n] l IH]; [done|]. cbn [fmap list_fmap]. rewrite !filter_cons, IH. cbn [node_row fst].
  destruct (decide (i = r)) as [->|Hne]; [by rewrite decide_True|]. rewrite decide_False; [done|congruence].
Qed.

Lemma filter_edge_rows (r : Z) (l : list (Z * GraphEdge)) :
  filter (fun row : graph_row => row.1 = Some r) (edge_row <$> l) = edge_row <$> filter (fun p => rowid_of_edge p.1 = r) l.
Proof.
  induction l as [|[i n] l IH]; [done|]. cbn [fmap list_fmap]. rewrite !filter_cons, IH. cbn [edge_row fst].
  destruct (decide (rowid_of_edge i = r)) as [->|Hne]; [by rewrite decide_True|]. rewrite decide_False; [done|congruence].
Qed.

Lemma filter_none {A : Type} (P : A -> Prop) `{!forall x, Decision (P x)} (l : list A) :
  (forall x, x ∈ l -> ~ P x) -> filter P l = [].
Proof. intros Hn. apply elem_of_nil_inv. intros x [Hp Hx]%list_elem_of_filter. by apply (Hn x). Qed.

Lemma filter_all {A : Type} (P : A -> Prop) `{!forall x, Decision (P x)} (l : list A) : (forall x, P x) -> filter P l = l.
Proof. intros Hp. induction l as [|x l IH]; [done|]. rewrite filter_cons, IH. by rewrite decide_True. Qed.

Lemma filter_same {A : Type} (P Q : A -> Prop) `{!forall x, Decision (P x)} `{!forall x, Decision (Q x)} (l : list A) :
  (forall x, x ∈ l -> P x <-> Q x) -> filter P l = filter Q l.
Proof.
  intros Hpq. induction l as [|x l IH]; [done|]. rewrite !filter_cons, IH by (intros; apply Hpq; by right).
  pose proof (Hpq x ltac:(by left)). destruct (decide (P x)), (decide (Q x)); tauto.
Qed.

Lemma rowid_lookup (r : Z) (rest : list value) :
  ids_ok -> exists cur, graphFilter v 1 (VInt r :: rest) s = Ok cur /\
    graph_drive 1 cur = Some (filter (fun row : graph_row => row.1 = Some r) graph_rows).
Proof.
  intros [Hn He]. unfold graphFilter. rewrite has_nodes, has_edges. change (1 =? 1) with true. cbv iota zeta.
  rewrite value_int64_int. unfold graph_rows. rewrite filter_app, filter_node_rows, filter_edge_rows.
  destruct (is_edge_rowid r) eqn:Hr; (eexists; split; [done|]).
  - rewrite (filter_none (fun p : Z * GraphNode => p.1 = r)).
    2: { intros p Hp <-. apply scan_elem, Hn, id_ok_testbit in Hp. by rewrite is_edge_rowid_testbit, Hp in Hr. }
    rewrite (filter_same _ (fun p : Z * GraphEdge => p.1 = edge_of_rowid r)).
    2: { intros p Hp. apply rowid_of_edge_iff; [|done]. eapply He, scan_elem, Hp. }
    rewrite filter_scan_key. destruct (edges !! edge_of_rowid r) as [e|].
    + apply (rows_drive [] [(edge_of_rowid r, e)]).
      by apply (graphNext_left _ [] []); [right| | |].
    + reflexivity.
  - rewrite (filter_none (fun p : Z * GraphEdge => rowid_of_edge p.1 = r)).
    2: { intros p _ <-. by rewrite is_edge_rowid_of_edge in Hr. }
    rewrite filter_scan_key, app_nil_r. destruct (nodes !! r) as [n|].
    + rewrite <- (app_nil_r (node_row <$> [(r, n)])). apply (rows_drive [(r, n)] []).
      by apply (graphNext_left _ [] [(r, n)]); [left| | |].
    + reflexivity.
Qed.

End Scans.

Lemma graph_drive_more (n m : nat) (cur : GraphCursor) (l : list graph_row) :
  graph_drive n cur = Some l -> (n <= m)%nat -> graph_drive m cur = Some l.
Proof.
  revert m cur l. induction n as [|n IH]; intros m cur l H Hm.
  - destruct m; cbn [graph_drive] in *; by destruct (graphEof cur).
  - destruct m as [|m]; [lia|]. cbn [graph_drive] in *. destruct (graphEof cur); [done|].
    apply fmap_Some in H as (l' & H & ->). by rewrite (IH m _ _ H) by lia.
Qed.

(** The constraints [xBestIndex] takes over, with their values. *)
Definition taken (cs : list (constraint * Z)) : list Z :=
  snd <$> filter (fun p : constraint * Z => co_usable p.1 && rowid_eq p.1 = true) cs.

(** The arguments SQLite passes to [xFilter]: the values of the constraints
    with an [argvIndex]. *)
Definition filter_args (us : list nat) (vals : list Z) : list Z :=
  snd <$> filter (fun p : nat * Z => (0 < p.1)%nat) (zip us vals).

Lemma usage_args (n : nat) (cs : list (constraint * Z)) :
  filter_args (usage n cs.*1) cs.*2 = taken cs /\
  filter (fun u => (0 < u)%nat) (usage n cs.*1) = seq (S n) (length (taken cs)).
Proof.
  unfold filter_args, taken. revert n. induction cs as [|[c r] cs IH]; intros n; [done|]. cbn [fmap list_fmap usage fst snd].
  rewrite filter_cons. cbn [fst]. destruct (co_usable c && rowid_eq c); cbn [zip zip_with]; rewrite !filter_cons; cbn [fst snd].
  - destruct (IH (S n)) as [E1 E2]. rewrite !decide_True by (done || lia). cbn [fmap list_fmap snd length seq]. by rewrite E1, E2.
  - destruct (IH n) as [E1 E2]. rewrite !(decide_False (P := (0 < 0)%nat)) by lia. rewrite decide_False by done. by rewrite E1, E2.
Qed.

Lemma existsb_taken (cs : list (constraint * Z)) :
  existsb (fun c => co_usable c && rowid_eq c) cs.*1 = negb (bool_decide (taken cs = [])).
Proof.
  unfold taken. induction cs as [|[c r] cs IH]; [done|]. cbn [fmap list_fmap existsb fst]. rewrite filter_cons. cbn [fst].
  destruct (co_usable c && rowid_eq c); [|by rewrite IH]. by rewrite decide_True by done.
Qed.

(** C11: A query on the graph table, from [xBestIndex] through [xFilter] to
    the end of the cursor: the constraints taken over are numbered in order
    for the arguments, and when at most one of them is an equality on the
    rowid, the cursor yields exactly the rows that satisfy it, all nodes and
    edges if there is none, nodes before edges, and reaches its end within
    one more round than there are rows.  Ids must lie below bit 62. *)
Theorem graph_query_correct `{SqlValues} `{ScanOrder} (v : GraphVtab) (s : gdb) (nodes : gmap Z GraphNode)
    (edges : gmap Z GraphEdge) (cs : list (constraint * Z)) :
  gd_nodes s !! gv_zNodeTableName v = Some nodes -> gd_edges s !! gv_zEdgeTableName v = Some edges ->
  ids_ok nodes edges -> (length (taken cs) <= 1)%nat ->
  let '(us, idxNum) := graphBestIndex cs.*1 in
  let args := filter_args us cs.*2 in
  filter (fun u => (0 < u)%nat) us = seq 1 (length args) /\
  exists cur, graphFilter v idxNum (VInt <$> args) s = Ok cur /\
    graph_drive (S (size nodes + size edges)) cur =
      Some (filter (fun row => Forall (fun r => row.1 = Some r) (taken cs)) (graph_rows nodes edges)).
Proof.
  intros Hn He Hids Hle. unfold graphBestIndex. destruct (usage_args 0 cs) as [E1 E2]. rewrite E1. split; [done|].
  rewrite existsb_taken. destruct (taken cs) as [|r [|]] eqn:Ht; [| |cbn in Hle; lia].
  - rewrite bool_decide_eq_true_2 by done. cbn [negb fmap list_fmap].
    destruct (full_scan v s nodes edges Hn He []) as (cur & Ef & Ed). exists cur. split; [done|].
    rewrite (graph_drive_more _ _ _ _ Ed) by lia. f_equal. symmetry. apply filter_all. constructor.
  - rewrite bool_decide_eq_false_2 by done. cbn [negb fmap list_fmap].
    destruct (rowid_lookup v s nodes edges Hn He r [] Hids) as (cur & Ef & Ed). exists cur. split; [done|].
    rewrite (graph_drive_more _ _ _ _ Ed) by lia. f_equal. apply filter_same. intros row _.
    rewrite Forall_singleton. done.
Qed.

(** ** Referential integrity *)

(** Both tables exist and every edge joins two nodes. *)
Definition graph_wf (v : GraphVtab) (s : gdb) : Prop :=
  exists nodes edges, gd_nodes s !! gv_zNodeTableName v = Some nodes /\ gd_edges s !! gv_zEdgeTableName v = Some edges /\
    map_Forall (fun _ e => is_Some (nodes !! ge_source e) /\ is_Some (nodes !! ge_target e)) edges.

(** The functions of graph.c use the same tables as the virtual table. *)
Definition default_names (v : GraphVtab) : Prop :=
  gv_zNodeTableName v = suffixed_nodes v /\ gv_zEdgeTableName v = suffixed_edges v.

(** Everything that changes the tables: [xUpdate], the storage functions and
    the SQL functions. *)
Inductive graph_request :=
| ReqUpdate (argv : list value)
| ReqAddNode (iNodeId : Z) (zProperties : text)
| ReqRemoveNode (iNodeId : Z)
| ReqUpdateNode (iNodeId : Z) (zProperties : text)
| ReqAddEdge (iFromId iToId : Z) (rWeight : f64) (zProperties : text)
| ReqRemoveEdge (iFromId iToId : Z)
| FnNodeAdd (a0 a1 : value)
| FnNodeUpdate (a0 a1 : value)
| FnNodeUpsert (a0 a1 : value)
| FnNodeDelete (a0 : value)
| FnCascadeDelete (a0 : value)
| FnEdgeAdd (a0 a1 a2 a3 : value)
| FnEdgeUpdate (a0 a1 a2 a3 a4 : value)
| FnEdgeDelete (a0 : value).

Section Integrity.
Context `{GraphSql} `{SqlValues} (v : GraphVtab).

Definition ignore {A : Type} (m : M gdb A) (s : gdb) : gdb := (m s).2.

Definition graph_run (q : graph_request) : gdb -> gdb :=
  match q with
  | ReqUpdate argv => ignore (graphUpdate v argv)
  | ReqAddNode i p => ignore (graphAddNode v i p)
  | ReqRemoveNode i => ignore (graphRemoveNode v i)
  | ReqUpdateNode i p => ignore (graphUpdateNode v i p)
  | ReqAddEdge a b w p => ignore (graphAddEdge v a b w p)
  | ReqRemoveEdge a b => ignore (graphRemoveEdge v a b)
  | FnNodeAdd a0 a1 => ignore (graphNodeAddFunc (Some v) a0 a1)
  | FnNodeUpdate a0 a1 => ignore (graphNodeUpdateFunc (Some v) a0 a1)
  | FnNodeUpsert a0 a1 => ignore (graphNodeUpsertFunc (Some v) a0 a1)
  | FnNodeDelete a0 => ignore (graphNodeDeleteFunc (Some v) a0)
  | FnCascadeDelete a0 => ignore (graphCascadeDeleteNodeFunc (Some v) a0)
  | FnEdgeAdd a0 a1 a2 a3 => ignore (graphEdgeAddFunc (Some v) a0 a1 a2 a3)
  | FnEdgeUpdate a0 a1 a2 a3 a4 => ignore (graphEdgeUpdateFunc (Some v) a0 a1 a2 a3 a4)
  | FnEdgeDelete a0 => ignore (graphEdgeDeleteFunc (Some v) a0)
  end.

Definition has_node (s : gdb) (id : Z) : bool :=
  bool_decide (is_Some (gd_nodes s !! gv_zNodeTableName v ≫= lookup id)).

Definition isolated (s : gdb) (id : Z) : bool :=
  bool_decide (map_Forall (fun _ e => touches id e = false) (default ∅ (gd_edges s !! gv_zEdgeTableName v))).

(** What the code does not check and its user must: a node that is deleted by
    itself has no edges; an edge that is added or changed without a check joins
    nodes of the graph; and an UPDATE of an edge through the virtual table,
    which runs an UPDATE of the virtual table itself, assigns nothing. *)
Definition safe_request (s : gdb) (q : graph_request) : bool :=
  match q with
  | ReqUpdate argv =>
      let old_rowid := value_int64 (arg argv 0) in
      if (length argv =? 1)%nat then is_edge_rowid old_rowid || isolated s old_rowid
      else (is_null (arg argv 0) && is_null (arg argv 1)) || negb (is_edge_rowid old_rowid)
           || match edge_updates argv with [] => true | _ => false end
  | ReqAddEdge a b _ _ => has_node s a && has_node s b
  | FnNodeDelete a0 => isolated s (value_int64 a0)
  | FnEdgeAdd a0 a1 _ _ => has_node s (value_int64 a0) && has_node s (value_int64 a1)
  | FnEdgeUpdate _ a1 a2 _ _ => has_node s (value_int64 a1) && has_node s (value_int64 a2)
  | _ => true
  end.

(** Requests that are safe, each in the state it meets. *)
Fixpoint safe_requests (s : gdb) (qs : list graph_request) : bool :=
  match qs with
  | [] => true
  | q :: qs => safe_request s q && safe_requests (graph_run q s) qs
  end.

Definition keeps {A : Type} (m : M gdb A) : Prop := forall s, graph_wf v s -> graph_wf v (m s).2.

Lemma keeps_bind {A B : Type} (m : M gdb A) (f : A -> M gdb B) : keeps m -> (forall x, keeps (f x)) -> keeps (mbind m f).
Proof. intros Hm Hf s Hs. unfold mbind. specialize (Hm s Hs). destruct (m s) as [[x| |] s']; [by apply Hf|done..]. Qed.

Lemma keeps_ret {A : Type} (x : A) : keeps (mret x).
Proof. by intros s. Qed.

Lemma keeps_fail {A : Type} (rc : Z) : keeps (A := A) (mfail rc).
Proof. by intros s. Qed.

(** Replacing the table of nodes by one that has them all. *)
Lemma wf_set_nodes (s : gdb) (nodes nodes' : gmap Z GraphNode) :
  graph_wf v s -> gd_nodes s !! gv_zNodeTableName v = Some nodes -> (forall i, is_Some (nodes !! i) -> is_Some (nodes' !! i)) ->
  graph_wf v (set_nodes (gv_zNodeTableName v) nodes' s).
Proof.
  intros (n & e & Hn & He & Hwf) Hn' Hsub. simplify_eq. exists nodes', e. cbn. rewrite lookup_insert_eq.
  split; [done|]. split; [done|]. intros i x Hx. destruct (Hwf i x Hx). split; by apply Hsub.
Qed.

Lemma alter_is_Some {A : Type} (f : A -> A) (t : gmap Z A) (k i : Z) : is_Some (t !! i) -> is_Some (alter f k t !! i).
Proof. intros [x Hx]. rewrite lookup_alter. case_decide; subst; rewrite ?Hx; by eexists. Qed.

Lemma insert_is_Some {A : Type} (x : A) (t : gmap Z A) (k i : Z) : is_Some (t !! i) -> is_Some (<[k := x]> t !! i).
Proof. intros [y Hy]. rewrite lookup_insert. case_decide; [by eexists|]. by rewrite Hy. Qed.

Lemma keeps_insert_node (id : Z) (n : GraphNode) : keeps (insert_node (gv_zNodeTableName v) id n).
Proof.
  intros s Hs. unfold insert_node, node_table, mbind, mget. destruct (gd_nodes s !! gv_zNodeTableName v) as [t|] eqn:E; [|done].
  cbn [mopt mret]. unfold mwhen. case_bool_decide; [done|]. cbn. eapply wf_set_nodes; [done|done|].
  intros i Hi. by apply insert_is_Some.
Qed.

Lemma keeps_replace_node (id : Z) (n : GraphNode) : keeps (replace_node (gv_zNodeTableName v) id n).
Proof.
  intros s Hs. unfold replace_node, node_table, mbind, mget. destruct (gd_nodes s !! gv_zNodeTableName v) as [t|] eqn:E; [|done].
  cbn. eapply wf_set_nodes; [done|done|]. intros i Hi. by apply insert_is_Some.
Qed.

Lemma keeps_update_properties (id : Z) (p : text) : keeps (update_properties (gv_zNodeTableName v) id p).
Proof.
  intros s Hs. unfold update_properties, node_table, mbind, mget. destruct (gd_nodes s !! gv_zNodeTableName v) as [t|] eqn:E; [|done].
  cbn. eapply wf_set_nodes; [done|done|]. intros i Hi. by apply alter_is_Some.
Qed.

Lemma keeps_delete_edges (p : Z -> GraphEdge -> bool) : keeps (delete_edges (gv_zEdgeTableName v) p).
Proof.
  intros s (n & e & Hn & He & Hwf). unfold delete_edges, edge_table, mbind, mget. rewrite He. cbn.
  eexists n, _. cbn. rewrite lookup_insert_eq. split; [done|]. split; [done|].
  intros i x [Hx _]%map_lookup_filter_Some. by apply (Hwf i).
Qed.

(** The edges of a node are deleted with it, in either order. *)
Lemma keeps_cascade (id : Z) (s : gdb) (nodes : gmap Z GraphNode) (edges : gmap Z GraphEdge) :
  graph_wf v s -> gd_nodes s !! gv_zNodeTableName v = Some nodes -> gd_edges s !! gv_zEdgeTableName v = Some edges ->
  graph_wf v (set_nodes (gv_zNodeTableName v) (delete id nodes)
    (set_edges (gv_zEdgeTableName v) (filter (fun '(_, e) => touches id e = false) edges) s)).
Proof.
  intros (n & e & Hn & He & Hwf) Hn' He'. simplify_eq. eexists _, _. cbn. rewrite !lookup_insert_eq.
  split; [done|]. split; [done|]. intros i x [Hx Ht]%map_lookup_filter_Some. destruct (Hwf i x Hx) as [H1 H2].
  unfold touches in Ht. apply orb_false_iff in Ht as [H3%Z.eqb_neq H4%Z.eqb_neq].
  by rewrite !lookup_delete_ne.
Qed.

Lemma insert_node_row_keeps (argv : list value) : keeps (insert_node_row v argv).
Proof.
  unfold insert_node_row. case_match.
  - apply keeps_bind; [apply keeps_replace_node|intros; apply keeps_ret].
  - intros s Hs. unfold node_table, mbind, mget. destruct (gd_nodes s !! gv_zNodeTableName v) as [t|] eqn:E; [|done].
    cbn. eapply wf_set_nodes; [done|done|]. intros i Hi. by apply insert_is_Some.
Qed.

Lemma insert_edge_row_keeps (argv : list value) : keeps (insert_edge_row v argv).
Proof.
  intros s (n & e & Hn & He & Hwf). unfold insert_edge_row, node_table, edge_table, insert_edge, mbind, mget.
  rewrite Hn. cbn [mopt mret]. unfold mwhen.
  destruct (negb _) eqn:Ex; [by exists n, e|]. cbn [mret]. rewrite He. cbn [mopt mret].
  destruct (reread_f _) as [w|]; [|by exists n, e]. cbn [mopt mret]. unfold edge_table, mbind, mget. rewrite He. cbn.
  eexists n, _. cbn. rewrite lookup_insert_eq. split; [done|]. split; [done|].
  apply negb_false_iff, andb_true_iff in Ex as [H1%bool_decide_eq_true H2%bool_decide_eq_true].
  apply map_Forall_insert_2; [done|done].
Qed.

(** A node without edges can go. *)
Lemma delete_node_keeps (id : Z) (s : gdb) :
  isolated s id = true -> graph_wf v s -> graph_wf v (delete_node (gv_zNodeTableName v) id s).2.
Proof.
  intros Hi%bool_decide_eq_true (n & e & Hn & He & Hwf). unfold delete_node, node_table, mbind, mget. rewrite Hn. cbn.
  rewrite He in Hi. cbn in Hi. exists (delete id n), e. cbn. rewrite lookup_insert_eq. split; [done|]. split; [done|].
  intros i x Hx. specialize (Hi i x Hx). cbn in Hi. unfold touches in Hi. apply orb_false_iff in Hi as [H1%Z.eqb_neq H2%Z.eqb_neq].
  rewrite !lookup_delete_ne by done. by apply (Hwf i).
Qed.

Lemma has_node_spec (s : gdb) (nodes : gmap Z GraphNode) (id : Z) :
  gd_nodes s !! gv_zNodeTableName v = Some nodes -> has_node s id = true -> is_Some (nodes !! id).
Proof. intros Hn Hh%bool_decide_eq_true. by rewrite Hn in Hh. Qed.

(** An edge between nodes of the graph can come. *)
Lemma insert_edge_keeps (e : GraphEdge) (s : gdb) :
  has_node s (ge_source e) && has_node s (ge_target e) = true -> graph_wf v s ->
  graph_wf v (insert_edge (gv_zEdgeTableName v) e s).2.
Proof.
  intros [Ha Hb]%andb_true_iff (n & es & Hn & He & Hwf). unfold insert_edge, edge_table, mbind, mget. rewrite He. cbn.
  eexists n, _. cbn. rewrite lookup_insert_eq. split; [done|]. split; [done|].
  apply map_Forall_insert_2; [|done]. split; by eapply has_node_spec.
Qed.

Lemma edge_update_keeps (a0 a1 a2 a3 a4 : value) (s : gdb) :
  default_names v -> has_node s (value_int64 a1) && has_node s (value_int64 a2) = true -> graph_wf v s ->
  graph_wf v (graphEdgeUpdateFunc (Some v) a0 a1 a2 a3 a4 s).2.
Proof.
  intros [_ Hde] [Ha Hb]%andb_true_iff (n & es & Hn & He & Hwf). unfold graphEdgeUpdateFunc, with_graph. rewrite <- Hde.
  unfold edge_table, mbind, mget. rewrite He. cbn [mopt mret]. destruct (reread_f _) as [w|]; [|by exists n, es]. cbn.
  eexists n, _. cbn. rewrite lookup_insert_eq. split; [done|]. split; [done|]. intros i x. rewrite lookup_alter. case_decide as Hi; [|apply Hwf].
  intros (y & Hy & ->)%fmap_Some_1. cbn. split; by eapply has_node_spec.
Qed.

Lemma graphUpdate_keeps (argv : list value) (s : gdb) :
  safe_request s (ReqUpdate argv) = true -> graph_wf v s -> graph_wf v (graphUpdate v argv s).2.
Proof.
  unfold graphUpdate. cbn [safe_request]. intros Hsafe. destruct (length argv =? 1)%nat.
  - destruct (is_edge_rowid _); [apply keeps_bind; [apply keeps_delete_edges|intros; apply keeps_ret]|]. intros Hs.
    pose proof (delete_node_keeps _ s Hsafe Hs) as Hk. unfold mbind. destruct (delete_node _ _ s) as [[[]| |] s']; exact Hk.
  - destruct (11 <=? length argv)%nat; [|apply keeps_fail]. cbn [andb].
    destruct (is_null (arg argv 0) && is_null (arg argv 1)) eqn:En.
    + case_bool_decide; [apply keeps_bind; [apply insert_node_row_keeps|intros; apply keeps_ret]|].
      case_bool_decide; [apply keeps_bind; [apply insert_edge_row_keeps|intros; apply keeps_ret]|]. apply keeps_fail.
    + destruct (negb (_ =? _)); [apply keeps_fail|]. cbn [orb] in Hsafe. destruct (is_edge_rowid _); cbn [negb orb] in Hsafe.
      * destruct (edge_updates argv); [|done]. apply keeps_bind; intros; apply keeps_ret.
      * apply keeps_bind; [|intros; apply keeps_ret]. case_match; [apply keeps_ret|apply keeps_update_properties].
Qed.

Lemma graph_run_keeps (q : graph_request) (s : gdb) :
  default_names v -> safe_request s q = true -> graph_wf v s -> graph_wf v (graph_run q s).
Proof.
  intros Hdef Hsafe Hs. pose proof Hdef as [Hdn Hde].
  destruct q; unfold graph_run, ignore; [..|by apply edge_update_keeps|]; unfold graphAddNode, graphRemoveNode, graphUpdateNode,
    graphAddEdge, graphRemoveEdge, graphNodeAddFunc, graphNodeUpdateFunc, graphNodeUpsertFunc, graphNodeDeleteFunc,
    graphCascadeDeleteNodeFunc, graphEdgeAddFunc, graphEdgeDeleteFunc, with_graph; rewrite <- ?Hdn, <- ?Hde.
  - by apply graphUpdate_keeps.
  - by apply keeps_insert_node.
  - destruct Hs as (n & e & Hn & He & Hwf). unfold delete_node, delete_edges, node_table, edge_table, mbind, mget.
    rewrite Hn. cbn. rewrite He. cbn. by apply (keeps_cascade iNodeId s n e); [exists n, e| |].
  - by apply keeps_update_properties.
  - pose proof Hs as (n & es & Hn & He & Hwf). assert (Et : edge_table (gv_zEdgeTableName v) s = (Ok es, s))
      by (unfold edge_table, mbind, mget; by rewrite He).
    unfold mbind. rewrite Et. destruct (reread_f rWeight) as [w|]; [|done]. cbn [mopt mret].
    pose proof (insert_edge_keeps (MkGEdge iFromId iToId None (Some w) zProperties) s Hsafe Hs) as Hk.
    destruct (insert_edge _ _ s) as [[?| |] s']; exact Hk.
  - by apply keeps_delete_edges.
  - by apply keeps_bind; [apply keeps_insert_node|intros; apply keeps_ret|].
  - by apply keeps_bind; [apply keeps_update_properties|intros; apply keeps_ret|].
  - by apply keeps_bind; [apply keeps_replace_node|intros; apply keeps_ret|].
  - pose proof (delete_node_keeps _ s Hsafe Hs) as Hk. unfold mbind. destruct (delete_node _ _ s) as [[[]| |] s']; exact Hk.
  - destruct Hs as (n & e & Hn & He & Hwf). unfold delete_node, delete_edges, node_table, edge_table, mbind, mget.
    rewrite He. cbn. rewrite Hn. cbn. by apply (keeps_cascade (value_int64 a0) s n e); [exists n, e| |].
  - by apply insert_edge_keeps.
  - by apply keeps_bind; [apply keeps_delete_edges|intros; apply keeps_ret|].
Qed.

End Integrity.

(** C12: Referential integrity: a graph table created with the default names
    keeps both its tables, and every edge in it joins two existing nodes, after
    any sequence of requests, whether they succeed or fail, through the virtual
    table, the storage functions ([graphAddNode], [graphAddEdge], ...) or the
    SQL functions ([graph_node_add], [graph_edge_update], ...), under the
    conditions that the code leaves to its user: a node deleted through the
    virtual table or with [graph_node_delete] has no edges at that time, the end
    points given to [graphAddEdge], [graph_edge_add] and [graph_edge_update] are
    nodes of the graph, and no UPDATE through the virtual table assigns to an
    edge.  Removing a node with [graphRemoveNode] or
    [graph_cascade_delete_node], and inserting an edge through the virtual
    table, need no condition. *)
Theorem graph_integrity `{GraphSql} `{SqlValues} (argv : list bytes) (s : gdb) (qs : list graph_request) :
  let v := vtab_names argv in
  (length argv < 5)%nat -> gd_edges s !! gv_zEdgeTableName v = None ->
  safe_requests v (graphCreate argv s).2 qs = true ->
  graph_wf v (foldl (fun s q => graph_run v q s) (graphCreate argv s).2 qs).
Proof.
  intros v Hargv He Hqs.
  assert (Hdef : default_names v).
  { unfold v, vtab_names. rewrite (proj2 (Nat.leb_gt _ _)) by lia. done. }
  assert (Hwf : graph_wf v (graphCreate argv s).2).
  { cbn. fold v. unfold create_tables, graph_wf. cbn. rewrite He, lookup_insert_eq.
    destruct (gd_nodes s !! gv_zNodeTableName v) as [n|] eqn:En; [exists n, ∅; rewrite En|exists ∅, ∅; rewrite lookup_insert_eq]; done. }
  revert Hqs Hwf. generalize (graphCreate argv s).2. induction qs as [|q qs IH]; intros s'; [done|].
  cbn [foldl safe_requests]. intros [Hq Hqs]%andb_true_iff Hwf. apply IH; [done|]. by apply graph_run_keeps.
Qed.

(** ** Insertion *)

Lemma max_id_spec (l : list Z) : match max_id l with Some m => forall x, x ∈ l -> x <= m | None => l = [] end.
Proof.
  induction l as [|x l IH]; [done|]. cbn [max_id foldr]. change (foldr _ None l) with (max_id l).
  destruct (max_id l) as [m|].
  - intros y [->|Hy]%elem_of_cons; [lia|]. specialize (IH y Hy). lia.
  - subst l. intros y [->|Hy]%elem_of_cons; [lia|]. by apply elem_of_nil in Hy.
Qed.

Lemma auto_rowid_fresh `{GraphSql} {A : Type} (t : gmap Z A) : t !! auto_rowid t = None.
Proof.
  destruct (t !! auto_rowid t) as [x|] eqn:E; [|done]. exfalso.
  assert (Hin : auto_rowid t ∈ (map_to_list t).*1) by (apply list_elem_of_fmap; exists (auto_rowid t, x); by rewrite elem_of_map_to_list).
  revert Hin. unfold auto_rowid. pose proof (max_id_spec (map_to_list t).*1) as Hm. destruct (max_id _) as [m|].
  - destruct (Z.ltb_spec m (2 ^ 63 - 1)).
    + intros Hin%Hm. lia.
    + apply random_rowid_fresh.
  - rewrite Hm. intros []%elem_of_nil.
Qed.

Lemma scan_insert `{ScanOrder} {A : Type} (t : gmap Z A) (k : Z) (x : A) :
  scan (<[k := x]> t) ≡ₚ (k, x) :: filter (fun p => p.1 <> k) (scan t).
Proof.
  rewrite !scan_perm, <- insert_delete_eq, map_to_list_insert by apply lookup_delete_eq. apply Permutation_skip.
  apply NoDup_Permutation; [apply NoDup_map_to_list|apply NoDup_filter, NoDup_map_to_list|].
  intros [i y]. rewrite list_elem_of_filter, !elem_of_map_to_list, lookup_delete_Some. cbn. split; intros []; auto.
Qed.

Lemma scan_insert_fresh `{ScanOrder} {A : Type} (t : gmap Z A) (k : Z) (x : A) :
  t !! k = None -> scan (<[k := x]> t) ≡ₚ (k, x) :: scan t.
Proof. intros Hk. by rewrite !scan_perm, map_to_list_insert. Qed.

Section Insertion.
Context `{GraphSql} `{SqlValues} `{ScanOrder} (v : GraphVtab) (argv : list value).

Definition new_node : GraphNode := MkGNode (text_arg argv 6 (bstr "[]")) (text_arg argv 9 []).
Definition new_edge (w : f64) : GraphEdge :=
  MkGEdge (int_arg argv 4) (int_arg argv 5) (text_arg argv 7 []) (Some w) (text_arg argv 9 []).

Definition new_node_id (nodes : gmap Z GraphNode) : Z := if 0 <? int_arg argv 3 then int_arg argv 3 else auto_rowid nodes.

Lemma insert_node_row_ok (s : gdb) (nodes : gmap Z GraphNode) :
  gd_nodes s !! gv_zNodeTableName v = Some nodes ->
  insert_node_row v argv s =
    (Ok (new_node_id nodes), set_nodes (gv_zNodeTableName v) (<[new_node_id nodes := new_node]> nodes) s).
Proof.
  intros Hn. unfold insert_node_row, new_node_id, replace_node, node_table, mbind, mget. case_match; by rewrite Hn.
Qed.

Lemma insert_edge_row_ok (s : gdb) (nodes : gmap Z GraphNode) (edges : gmap Z GraphEdge) (w : f64) :
  gd_nodes s !! gv_zNodeTableName v = Some nodes -> gd_edges s !! gv_zEdgeTableName v = Some edges ->
  is_Some (nodes !! int_arg argv 4) -> is_Some (nodes !! int_arg argv 5) -> reread_f (double_arg argv 8) = Some w ->
  insert_edge_row v argv s =
    (Ok (rowid_of_edge (auto_rowid edges)), set_edges (gv_zEdgeTableName v) (<[auto_rowid edges := new_edge w]> edges) s).
Proof.
  intros Hn He H4 H5 Hw. unfold insert_edge_row, node_table, edge_table, insert_edge, mbind, mget. rewrite Hn. cbn [mopt mret].
  rewrite !bool_decide_eq_true_2 by done. cbn [andb negb mwhen mret]. rewrite He. cbn [mopt mret]. rewrite Hw. cbn [mopt mret].
  unfold edge_table, mbind, mget. by rewrite He.
Qed.

Lemma insert_edge_row_err (s : gdb) (nodes : gmap Z GraphNode) (edges : gmap Z GraphEdge) :
  gd_nodes s !! gv_zNodeTableName v = Some nodes -> gd_edges s !! gv_zEdgeTableName v = Some edges ->
  nodes !! int_arg argv 4 = None \/ nodes !! int_arg argv 5 = None -> insert_edge_row v argv s = (Err SQLITE_CONSTRAINT, s).
Proof.
  intros Hn He H45. unfold insert_edge_row, node_table, edge_table, insert_edge, mbind, mget. rewrite Hn. cbn [mopt mret].
  assert (E : bool_decide (is_Some (nodes !! int_arg argv 4)) && bool_decide (is_Some (nodes !! int_arg argv 5)) = false).
  { apply andb_false_iff. destruct H45 as [->| ->]; [left|right]; by apply bool_decide_eq_false_2; intros []. }
  by rewrite E.
Qed.

End Insertion.

(** C35: An INSERT into the graph table.  A node is stored with its labels and
    properties under the id given, replacing the node that had it, or under a
    fresh one; an edge under a fresh id when both its nodes exist, and the
    rowid returned has bit 62 set.  Nothing else changes in either table.  An
    edge with a missing node fails with [SQLITE_CONSTRAINT] and any other
    type with [SQLITE_MISUSE], both without effect. *)
Theorem graph_insert_correct `{GraphSql} `{SqlValues} `{ScanOrder} (v : GraphVtab) (argv : list value) (s : gdb)
    (nodes : gmap Z GraphNode) (edges : gmap Z GraphEdge) :
  gd_nodes s !! gv_zNodeTableName v = Some nodes -> gd_edges s !! gv_zEdgeTableName v = Some edges ->
  (11 <= length argv)%nat -> is_null (arg argv 0) = true -> is_null (arg argv 1) = true ->
  let type := arg_text (arg argv 2) in
  (type = Some (bstr "node") -> exists id nodes',
    graphUpdate v argv s = (Ok (Some id), set_nodes (gv_zNodeTableName v) nodes' s) /\
    (if 0 <? int_arg argv 3 then id = int_arg argv 3 else nodes !! id = None) /\
    scan nodes' ≡ₚ (id, new_node argv) :: filter (fun p => p.1 <> id) (scan nodes)) /\
  (type = Some (bstr "edge") -> nodes !! int_arg argv 4 = None \/ nodes !! int_arg argv 5 = None ->
    graphUpdate v argv s = (Err SQLITE_CONSTRAINT, s)) /\
  (forall w, type = Some (bstr "edge") -> is_Some (nodes !! int_arg argv 4) -> is_Some (nodes !! int_arg argv 5) ->
    reread_f (double_arg argv 8) = Some w -> exists id edges',
    graphUpdate v argv s = (Ok (Some (rowid_of_edge id)), set_edges (gv_zEdgeTableName v) edges' s) /\
    edges !! id = None /\ scan edges' ≡ₚ (id, new_edge argv w) :: scan edges) /\
  (type <> Some (bstr "node") -> type <> Some (bstr "edge") -> graphUpdate v argv s = (Err SQLITE_MISUSE, s)).
Proof.
  intros Hn He Hl Ha0 Ha1 type. unfold graphUpdate. rewrite (proj2 (Nat.eqb_neq _ _)), (proj2 (Nat.leb_le _ _)), Ha0, Ha1 by lia.
  cbn [andb]. fold type. split; [|split; [|split]].
  - intros Ht. rewrite bool_decide_eq_true_2 by done. eexists _, _. split; [|split].
    + unfold mbind. rewrite (insert_node_row_ok v argv s nodes Hn). reflexivity.
    + unfold new_node_id. case_match; [done|]. apply auto_rowid_fresh.
    + apply scan_insert.
  - intros Ht H45. rewrite bool_decide_eq_false_2, bool_decide_eq_true_2 by (by rewrite ?Ht). unfold mbind.
    by rewrite (insert_edge_row_err v argv s nodes edges Hn He H45).
  - intros w Ht H4 H5 Hw. rewrite bool_decide_eq_false_2, bool_decide_eq_true_2 by (by rewrite ?Ht). eexists _, _. split; [|split].
    + unfold mbind. rewrite (insert_edge_row_ok v argv s nodes edges w Hn He H4 H5 Hw). reflexivity.
    + apply auto_rowid_fresh.
    + apply scan_insert_fresh, auto_rowid_fresh.
  - intros Ht1 Ht2. by rewrite !bool_decide_eq_false_2.
Qed.

(** ** A concrete graph *)

#[local] Instance demo_sql : GraphSql := {|
  random_rowid := fun l => fresh l;
  random_rowid_fresh := fun l => infinite_is_fresh l;
  reread_f := Some;
  nested_update := fun _ _ _ => mfail SQLITE_ERROR
|}.

#[local] Instance demo_values : SqlValues := {|
  value_int64 := fun x => match x with VInt z => z | _ => 0 end;
  value_double := fun x => match x with VFloat b => f64_of_bits b | _ => S754_zero false end;
  value_text := fun x => match x with VText t => t | _ => [] end;
  sql_compare := fun _ _ => None;
  value_int64_int := fun _ => eq_refl;
  value_double_float := fun _ => eq_refl;
  value_text_text := fun _ => eq_refl
|}.

#[local] Instance demo_order : ScanOrder := {|
  scan := fun A t => map_to_list t;
  scan_perm := fun A t => Permutation_refl _
|}.

Definition demo_argv : list bytes := [bstr "graph"; bstr "main"; bstr "g"].
Definition demo_vtab : GraphVtab := vtab_names demo_argv.

(** The arguments of an INSERT. *)
Definition insert_argv (type : string) (id from to : value) : list value :=
  [VNull; VNull; VText (bstr type); id; from; to; VNull; VNull; VNull; VNull; VNull].

Definition demo_requests : list graph_request :=
  [ReqUpdate (insert_argv "node" (VInt 1) VNull VNull); ReqUpdate (insert_argv "node" (VInt 2) VNull VNull);
   ReqUpdate (insert_argv "edge" VNull (VInt 1) (VInt 2))].

Definition run_all (qs : list graph_request) (s : gdb) : gdb := foldl (fun s q => graph_run demo_vtab q s) s qs.

Definition empty_db : gdb := (graphCreate demo_argv (MkGdb ∅ ∅)).2.
Definition demo_db : gdb := run_all demo_requests empty_db.

Definition table_of {A : Type} (o : option (gmap Z A)) : gmap Z A := default ∅ o.
Definition demo_nodes : gmap Z GraphNode := table_of (gd_nodes demo_db !! gv_zNodeTableName demo_vtab).
Definition demo_edges : gmap Z GraphEdge := table_of (gd_edges demo_db !! gv_zEdgeTableName demo_vtab).

Definition rowid_constraint : constraint := MkConstraint (-1) SQLITE_INDEX_CONSTRAINT_EQ true.

Lemma graph_query_correct_witness :
  exists cur, graphFilter demo_vtab 1 [VInt (rowid_of_edge 1)] demo_db = Ok cur /\
    graph_drive 4 cur = Some [edge_row (1, MkGEdge 1 2 (Some []) (Some (S754_zero false)) (Some []))].
Proof.
  destruct (graph_query_correct demo_vtab demo_db demo_nodes demo_edges [(rowid_constraint, rowid_of_edge 1)])
    as (_ & cur & Ef & Ed).
  1,2: vm_compute; reflexivity.
  1: split; [change (map_Forall (fun id (_ : GraphNode) => 0 <= id < 2 ^ 62) demo_nodes)
            |change (map_Forall (fun id (_ : GraphEdge) => 0 <= id < 2 ^ 62) demo_edges)]; by_compute.
  1: vm_compute; lia.
  exists cur. split; [exact Ef|]. etransitivity; [exact Ed|]. vm_compute. reflexivity.
Defined.

Lemma graph_integrity_witness :
  graph_wf demo_vtab demo_db /\ exists e, demo_edges !! 1 = Some e /\ ge_source e = 1 /\ ge_target e = 2.
Proof.
  split; [|eexists; split; [vm_compute; reflexivity|done]].
  apply (graph_integrity demo_argv (MkGdb ∅ ∅) demo_requests).
  - cbn. lia.
  - reflexivity.
  - vm_compute. reflexivity.
Defined.

Lemma graph_insert_correct_witness :
  exists id edges', graphUpdate demo_vtab (insert_argv "edge" VNull (VInt 2) (VInt 2)) demo_db =
      (Ok (Some (rowid_of_edge id)), set_edges (gv_zEdgeTableName demo_vtab) edges' demo_db) /\
    demo_edges !! id = None /\
    scan edges' ≡ₚ (id, MkGEdge 2 2 (Some []) (Some (S754_zero false)) (Some [])) :: scan demo_edges.
Proof.
  destruct (graph_insert_correct demo_vtab (insert_argv "edge" VNull (VInt 2) (VInt 2)) demo_db demo_nodes demo_edges)
    as (_ & _ & He & _).
  1,2: vm_compute; reflexivity.
  1: cbn; lia.
  1,2: reflexivity.
  apply (He (S754_zero false)); [reflexivity|vm_compute; eexists; reflexivity..|reflexivity].
Defined.

(** ** What the code gets wrong *)

(** Two equalities on the rowid: the second is taken over and then ignored,
    so the query [rowid = 1 AND rowid = 2] finds node 1. *)
Lemma two_rowid_constraints :
  let cs := [(rowid_constraint, 1); (rowid_constraint, 2)] in
  let '(us, idxNum) := graphBestIndex cs.*1 in
  us = [1; 2]%nat /\
  exists cur, graphFilter demo_vtab idxNum (VInt <$> filter_args us cs.*2) demo_db = Ok cur /\
    graph_drive 1 cur = Some [node_row (1, MkGNode (Some (bstr "[]")) (Some []))].
Proof. split; [reflexivity|]. eexists. split; [vm_compute; reflexivity|]. vm_compute. reflexivity. Qed.

(** The rowid of a node with a negative id is read as that of an edge. *)
Lemma negative_node_lost :
  let s := (graphAddNode demo_vtab (-1) None empty_db).2 in
  exists cur, graphFilter demo_vtab 1 [VInt (-1)] s = Ok cur /\ graph_drive 0 cur = Some [] /\
  exists cur', graphFilter demo_vtab 0 [] s = Ok cur' /\ graph_drive 1 cur' = Some [node_row (-1, MkGNode empty_labels None)].
Proof.
  eexists. split; [vm_compute; reflexivity|]. split; [reflexivity|]. eexists. split; [vm_compute; reflexivity|].
  vm_compute. reflexivity.
Qed.

(** Deleting a node through the virtual table or with [graph_node_delete]
    leaves its edges, and [graph_edge_add] and [graph_edge_update] do not look
    for the nodes. *)
Lemma dangling_edges :
  ~ graph_wf demo_vtab (graph_run demo_vtab (ReqUpdate [VInt 1]) demo_db) /\
  ~ graph_wf demo_vtab (graph_run demo_vtab (FnNodeDelete (VInt 1)) demo_db) /\
  ~ graph_wf demo_vtab (graph_run demo_vtab (FnEdgeUpdate (VInt 1) (VInt 8) (VInt 9) (VInt 0) VNull) demo_db) /\
  ~ graph_wf demo_vtab (graph_run demo_vtab (FnEdgeAdd (VInt 8) (VInt 9) VNull VNull) demo_db).
Proof.
  split; [|split; [|split]]; intros (n & e & Hn & He & Hwf); vm_compute in Hn, He; injection Hn as <-; injection He as <-.
  1,2,3: destruct (Hwf 1 _ eq_refl) as [[? Hx] _]; vm_compute in Hx; discriminate Hx.
  destruct (Hwf 2 _ eq_refl) as [[? Hx] _]. vm_compute in Hx. discriminate Hx.
Qed.

Definition edge_requests (l : list (Z * Z)) : list graph_request :=
  (fun p => ReqUpdate (insert_argv "edge" VNull (VInt p.1) (VInt p.2))) <$> l.
Definition node_requests (l : list Z) : list graph_request := (fun i => ReqUpdate (insert_argv "node" (VInt i) VNull VNull)) <$> l.

Definition small_graph (ns : list Z) (es : list (Z * Z)) : gdb := run_all (node_requests ns ++ edge_requests es) empty_db.

(** Connectivity and cycles are guessed from the number of edges: three edges
    between two of four nodes count as connected, an acyclic triangle has a
    cycle, and a cycle of two among four nodes has none. *)
Lemma guessed_properties :
  (graphIsConnectedFunc (Some demo_vtab) (small_graph [1; 2; 3; 4] [(1, 2); (1, 2); (1, 2)])).1 = Ok true /\
  (graphHasCycleFunc (Some demo_vtab) (small_graph [1; 2; 3] [(1, 2); (1, 3); (2, 3)])).1 = Ok true /\
  (graphHasCycleFunc (Some demo_vtab) (small_graph [1; 2; 3; 4] [(1, 2); (2, 1)])).1 = Ok false.
Proof. vm_compute. repeat split. Qed.

(** A table created over tables of its own: the functions look for others. *)
Lemma custom_tables_unused :
  let argv := [bstr "graph"; bstr "main"; bstr "g"; bstr "n"; bstr "e"] in
  let v := vtab_names argv in
  let s := (graphUpdate v (insert_argv "node" (VInt 1) VNull VNull) (graphCreate argv (MkGdb ∅ ∅)).2).2 in
  graphCountNodes v s = 0 /\ (graphCountNodesFunc (Some v) s).1 = Err SQLITE_ERROR.
Proof. vm_compute. repeat split. Qed.
