(* ===== verification/GraphSearch.v ===== *)
(** * Searching the graph (graph-util.c, graph-traverse.c, graph.c)

    [graphBFS] and [graphDFS] visit the nodes reachable from a start node, up
    to a depth; [graph_shortest_path] searches breadth first, keeping the
    predecessors in an array indexed by node id.  The statements that select
    the successors of a node are a function here: [None] if the statement
    cannot be prepared.  Shown: the breadth-first searches visit by distance,
    the shortest path is one, the depth-first search visits what is reachable. *)

From Stdlib Require Import String ZArith Lia Sorting.
From stdpp Require Import base option list numbers gmap sorting.
From S2P Require Import Prelude Float32 Codec Shadow DefParser Values Scalar Graph.

Local Open Scope Z_scope.

(** ** [graphBFS] *)

(** A linked list of depths, the newest first; 0 if a node is not found. *)
Fixpoint depth_of (l : list (Z * Z)) (id : Z) : Z :=
  match l with
  | [] => 0
  | (i, d) :: l => if i =? id then d else depth_of l id
  end.

(** The visited nodes, in an array that doubles when it is full. *)
Record GraphVisitedSet := MkVisited { vs_aNodes : list Z; vs_nAlloc : Z }.

Definition graphVisitedSetCreate : GraphVisitedSet := MkVisited [] 16.

Definition graphVisitedSetContains (pSet : GraphVisitedSet) (iNodeId : Z) : bool := existsb (Z.eqb iNodeId) (vs_aNodes pSet).

(** The new size is passed as an [int].  If it is not positive the array is
    freed, and [graphVisitedSetDestroy] frees it again. *)
Definition graphVisitedSetAdd (pSet : GraphVisitedSet) (iNodeId : Z) : res GraphVisitedSet :=
  if vs_nAlloc pSet <=? Z.of_nat (length (vs_aNodes pSet)) then
    let nNewAlloc := vs_nAlloc pSet * 2 in
    match sqlite3_malloc (to_size (nNewAlloc * 8)) with
    | Some _ => Ok (MkVisited (vs_aNodes pSet ++ [iNodeId]) nNewAlloc)
    | None => Undef
    end
  else Ok (MkVisited (vs_aNodes pSet ++ [iNodeId]) (vs_nAlloc pSet)).

Record bfs_state := MkBfs {
  bs_queue : list Z;
  bs_visited : GraphVisitedSet;
  bs_depths : list (Z * Z);
  bs_path : list Z
}.

(** One row of the statement. *)
Definition bfs_visit (nCurrentDepth : Z) (st : bfs_state) (to_id : Z) : res bfs_state :=
  if graphVisitedSetContains (bs_visited st) to_id then Ok st
  else
    res_bind (graphVisitedSetAdd (bs_visited st) to_id) (fun pVisited =>
      Ok (MkBfs (bs_queue st ++ [to_id]) pVisited ((to_id, nCurrentDepth + 1) :: bs_depths st) (bs_path st ++ [to_id]))).

Fixpoint bfs_rows (nCurrentDepth : Z) (rows : list Z) (st : bfs_state) : res bfs_state :=
  match rows with
  | [] => Ok st
  | to_id :: rows => res_bind (bfs_visit nCurrentDepth st to_id) (bfs_rows nCurrentDepth rows)
  end.

(** The result code is that of the last statement; [None]: out of fuel. *)
Fixpoint bfs_loop (fuel : nat) (sel : Z -> option (list Z)) (nMaxDepth rc : Z) (st : bfs_state) : option (res (Z * list Z)) :=
  match bs_queue st with
  | [] => Some (Ok (rc, bs_path st))
  | iCurrentId :: queue =>
      match fuel with
      | O => None
      | S fuel =>
          let st := MkBfs queue (bs_visited st) (bs_depths st) (bs_path st) in
          let nCurrentDepth := depth_of (bs_depths st) iCurrentId in
          if (0 <=? nMaxDepth) && (nMaxDepth <=? nCurrentDepth) then bfs_loop fuel sel nMaxDepth rc st
          else
            match sel iCurrentId with
            | None => bfs_loop fuel sel nMaxDepth SQLITE_ERROR st
            | Some rows =>
                match bfs_rows nCurrentDepth rows st with
                | Ok st => bfs_loop fuel sel nMaxDepth SQLITE_OK st
                | Err rc => Some (Err rc)
                | Undef => Some Undef
                end
            end
      end
  end.

Definition graphBFS (fuel : nat) (sel : Z -> option (list Z)) (iStartId nMaxDepth : Z) : option (res (Z * list Z)) :=
  match graphVisitedSetAdd graphVisitedSetCreate iStartId with
  | Ok pVisited => bfs_loop fuel sel nMaxDepth SQLITE_OK (MkBfs [iStartId] pVisited [(iStartId, 0)] [iStartId])
  | Err rc => Some (Err rc)
  | Undef => Some Undef
  end.

(** The text: closed when the search succeeded. *)
Fixpoint join_ids (l : list Z) : bytes :=
  match l with
  | [] => []
  | [x] => fmt_d x
  | x :: l => fmt_d x ++ [44] ++ join_ids l
  end.

Definition path_text (closed : bool) (l : list Z) : bytes := [91] ++ join_ids l ++ (if closed then [93] else []).

(** ** [graphDFS] *)

(** The visited nodes in order are also the path.  The result code and the
    set; [None]: out of fuel. *)
Fixpoint graphDFSRecursive (fuel : nat) (sel : Z -> option (list Z)) (nMaxDepth nCurrentDepth iNodeId : Z) (pVisited : GraphVisitedSet)
    : option (res (Z * GraphVisitedSet)) :=
  match fuel with
  | O => None
  | S fuel =>
      if (0 <=? nMaxDepth) && (nMaxDepth <=? nCurrentDepth) then Some (Ok (SQLITE_OK, pVisited))
      else if graphVisitedSetContains pVisited iNodeId then Some (Ok (SQLITE_OK, pVisited))
      else
        match graphVisitedSetAdd pVisited iNodeId with
        | Ok pVisited =>
            match sel iNodeId with
            | None => Some (Ok (SQLITE_ERROR, pVisited))
            | Some rows =>
                (fix children (rows : list Z) (pVisited : GraphVisitedSet) :=
                   match rows with
                   | [] => Some (Ok (SQLITE_OK, pVisited))
                   | to_id :: rows =>
                       match graphDFSRecursive fuel sel nMaxDepth (nCurrentDepth + 1) to_id pVisited with
                       | Some (Ok (rc, pVisited)) =>
                           if rc =? SQLITE_OK then children rows pVisited else Some (Ok (rc, pVisited))
                       | r => r
                       end
                   end) rows pVisited
            end
        | Err rc => Some (Err rc)
        | Undef => Some Undef
        end
  end.

Definition graphDFS (fuel : nat) (sel : Z -> option (list Z)) (exists_start : bool) (iStartId nMaxDepth : Z)
    : option (res (Z * list Z)) :=
  if exists_start then
    match graphDFSRecursive fuel sel nMaxDepth 0 iStartId graphVisitedSetCreate with
    | Some (Ok (rc, pVisited)) => Some (Ok (rc, vs_aNodes pVisited))
    | Some (Err rc) => Some (Err rc)
    | Some Undef => Some Undef
    | None => None
    end
  else Some (Ok (SQLITE_NOTFOUND, [])).

(** ** [graph_shortest_path] *)

Record sp_state := MkSp { sp_queue : list Z; sp_visited : list Z; sp_pred : list Z }.

(** [pPredecessor] is indexed by node ids, without a check. *)
Definition in_array (pred : list Z) (i : Z) : bool := (0 <=? i) && (i <? Z.of_nat (length pred)).

Definition sp_visit (currentNodeId : Z) (st : sp_state) (neighborId : Z) : res sp_state :=
  if existsb (Z.eqb neighborId) (sp_visited st) then Ok st
  else if in_array (sp_pred st) neighborId then
    Ok (MkSp (sp_queue st ++ [neighborId]) (neighborId :: sp_visited st) (<[Z.to_nat neighborId := currentNodeId]> (sp_pred st)))
  else Undef.

Fixpoint sp_rows (currentNodeId : Z) (rows : list Z) (st : sp_state) : res sp_state :=
  match rows with
  | [] => Ok st
  | r :: rows => res_bind (sp_visit currentNodeId st r) (sp_rows currentNodeId rows)
  end.

(** [None]: out of fuel. *)
Fixpoint sp_loop (fuel : nat) (sel : Z -> option (list Z)) (iEndId : Z) (st : sp_state) : option (res sp_state) :=
  match sp_queue st with
  | [] => Some (Ok st)
  | currentNodeId :: queue =>
      match fuel with
      | O => None
      | S fuel =>
          let st := MkSp queue (sp_visited st) (sp_pred st) in
          if currentNodeId =? iEndId then Some (Ok st)
          else
            match sp_rows currentNodeId (default [] (sel currentNodeId)) st with
            | Ok st => sp_loop fuel sel iEndId st
            | Err rc => Some (Err rc)
            | Undef => Some Undef
            end
      end
  end.

(** The chain of predecessors from [iCurrent] on. *)
Fixpoint sp_path (fuel : nat) (pred : list Z) (iCurrent : Z) : option (res (list Z)) :=
  if iCurrent =? -1 then Some (Ok [])
  else match fuel with
       | O => None
       | S fuel =>
           if in_array pred iCurrent then
             match sp_path fuel pred (aget (-1) pred (Z.to_nat iCurrent)) with
             | Some (Ok l) => Some (Ok (iCurrent :: l))
             | r => r
             end
           else Some Undef
       end.

(** The neighbours of a node: [SELECT target FROM edges WHERE source = id]. *)
Definition targets `{ScanOrder} (edges : gmap Z GraphEdge) (id : Z) : list Z :=
  (fun p => ge_target p.2) <$> filter (fun p : Z * GraphEdge => ge_source p.2 = id) (scan edges).

(** The nodes of the path; [None]: a loop does not end within its fuel, which
    is the number of edges for the search, of nodes for the path.  The size of
    the array of predecessors is passed as an [int] and the array is filled
    without a test, so that a size cut short writes past its end. *)
Definition shortest_path `{ScanOrder} (v : GraphVtab) (iStartId iEndId : Z) (s : gdb) : option (res (list Z)) :=
  let nNodes := match gd_nodes s !! suffixed_nodes v with Some t => to_i32 (Z.of_nat (size t)) | None => 0 end in
  if nNodes =? 0 then Some (Ok [])
  else
    let nBytes := to_size (8 * (nNodes + 1)) in
    if default 0 (sqlite3_malloc nBytes) <? nBytes then Some Undef
    else
      let edges := gd_edges s !! suffixed_edges v in
      let sel id := (fun t => targets t id) <$> edges in
      let fuel := match edges with Some t => S (size t) | None => 1%nat end in
      match sp_loop fuel sel iEndId (MkSp [iStartId] [iStartId] (replicate (Z.to_nat (nNodes + 1)) (-1))) with
      | Some (Ok st) => sp_path (S (length (sp_pred st))) (sp_pred st) iEndId
      | Some (Err rc) => Some (Err rc)
      | Some Undef => Some Undef
      | None => None
      end.

Definition graphShortestPathFunc `{ScanOrder} (pGraph : option GraphVtab) (iStartId iEndId : Z) (s : gdb)
    : option (res bytes) :=
  match pGraph with
  | None => Some (Err SQLITE_ERROR)
  | Some v =>
      match shortest_path v iStartId iEndId s with
      | Some (Ok l) => Some (Ok (path_text true l))
      | Some (Err rc) => Some (Err rc)
      | Some Undef => Some Undef
      | None => None
      end
  end.

(** ** Breadth-first search *)

Inductive walk (nbrs : Z -> list Z) : nat -> Z -> Z -> Prop :=
| walk_nil a : walk nbrs 0 a a
| walk_step n a b c : walk nbrs n a b -> c ∈ nbrs b -> walk nbrs (S n) a c.

Lemma walk_in_closed (nbrs : Z -> list Z) (U : list Z) (n : nat) (a b : Z) :
  walk nbrs n a b -> a ∈ U -> (forall x y, x ∈ U -> y ∈ nbrs x -> y ∈ U) -> b ∈ U.
Proof. intros Hw Ha Hcl. induction Hw; [done|]. eauto. Qed.

Section BfsInvariant.
Context (nbrs : Z -> list Z) (start : Z) (explore : nat -> bool).

(** Nodes [P] are done, [Q] is the queue, [dep] the depths.  The queue holds
    nodes of depth [d], then of depth [d + 1].  The neighbours [rest] of the
    last node done, [c], are still to be visited. *)
Record bfs_mid (P Q : list Z) (c : Z) (rest : list Z) (d : nat) (dep : Z -> nat) : Prop := {
  bi_nodup : NoDup (P ++ Q);
  bi_start : start ∈ P ++ Q;
  bi_start_dep : dep start = 0%nat;
  bi_levels : exists A B, Q = A ++ B /\ Forall (fun x => dep x = d) A /\ Forall (fun x => dep x = S d) B;
  bi_done : Forall (fun x => (dep x <= d)%nat) P;
  bi_current : rest <> [] -> c ∈ P /\ dep c = d /\ explore d = true;
  bi_closed : forall p y, p ∈ P -> explore (dep p) = true -> y ∈ nbrs p ->
    (y ∈ P ++ Q /\ (dep y <= S (dep p))%nat) \/ (p = c /\ y ∈ rest);
  bi_sound : forall y, y ∈ P ++ Q -> y <> start ->
    exists u, u ∈ P /\ y ∈ nbrs u /\ dep y = S (dep u) /\ explore (dep u) = true;
  bi_sorted : StronglySorted le (dep <$> P ++ Q)
}.

Definition bfs_inv (P Q : list Z) (dep : Z -> nat) : Prop := exists c d, bfs_mid P Q c [] d dep.

Lemma bfs_init (dep : Z -> nat) : dep start = 0%nat -> bfs_inv [] [start] dep.
Proof.
  intros Hd. exists start, 0%nat. split; try done.
  - apply NoDup_singleton.
  - by left.
  - exists [start], []. by rewrite Forall_singleton.
  - by intros p y Hp%elem_of_nil.
  - intros y Hy%list_elem_of_singleton. done.
  - cbn. repeat constructor.
Qed.

Lemma bfs_mid_max P Q c rest d dep x : bfs_mid P Q c rest d dep -> x ∈ P ++ Q -> (dep x <= S d)%nat.
Proof.
  intros Hm [Hx|Hx]%elem_of_app.
  - pose proof (proj1 (Forall_forall _ _) (bi_done _ _ _ _ _ _ Hm) x Hx). cbn in *. lia.
  - destruct (bi_levels _ _ _ _ _ _ Hm) as (A & B & -> & HA & HB). rewrite Forall_forall in HA, HB.
    apply elem_of_app in Hx as [Hx|Hx]; [rewrite (HA x Hx)|rewrite (HB x Hx)]; lia.
Qed.

(** A neighbour that was visited before. *)
Lemma bfs_skip P Q c y rest d dep :
  bfs_mid P Q c (y :: rest) d dep -> y ∈ P ++ Q -> bfs_mid P Q c rest d dep.
Proof.
  intros Hm Hy. pose proof (bfs_mid_max _ _ _ _ _ _ _ Hm Hy) as Hmax. destruct (bi_current _ _ _ _ _ _ Hm) as (Hc & Hcd & He); [done|].
  destruct Hm. split; try done. intros p z Hp Hep Hz. destruct (bi_closed0 p z Hp Hep Hz) as [?|[-> [->|?]%elem_of_cons]]; auto.
  left. split; [done|]. lia.
Qed.

Lemma StronglySorted_snoc (l : list nat) (x : nat) : StronglySorted le l -> Forall (fun y => (y <= x)%nat) l -> StronglySorted le (l ++ [x]).
Proof.
  induction l as [|y l IH]; intros Hs Hx; [repeat constructor|]. cbn. inversion Hs; subst. inversion Hx; subst.
  constructor; [by apply IH|]. rewrite Forall_app, Forall_singleton. done.
Qed.

(** A new neighbour goes to the end of the queue. *)
Lemma bfs_add P Q c y rest d dep :
  bfs_mid P Q c (y :: rest) d dep -> y ∈ nbrs c -> y ∉ P ++ Q ->
  bfs_mid P (Q ++ [y]) c rest d (fun x => if decide (x = y) then S d else dep x).
Proof.
  intros Hm Hyc Hy. pose proof (fun x => bfs_mid_max _ _ _ _ _ _ x Hm) as Hmax.
  destruct (bi_current _ _ _ _ _ _ Hm) as (Hc & Hcd & He); [done|]. set (dep' := fun x => _).
  assert (Hsame : forall x, x ∈ P ++ Q -> dep' x = dep x).
  { intros x Hx. unfold dep'. rewrite decide_False; [done|]. by intros ->. }
  assert (Hnew : dep' y = S d) by (unfold dep'; by rewrite decide_True).
  assert (HP : forall x, x ∈ P -> dep' x = dep x) by (intros x Hx; apply Hsame, elem_of_app; by left).
  destruct Hm as [Hnd Hst Hsd (A & B & -> & HA & HB) Hdone Hcur Hcl Hso Hsort]. rewrite Forall_forall in HA, HB, Hdone. split.
  - rewrite app_assoc. apply NoDup_app. split; [done|]. split; [|apply NoDup_singleton]. intros x Hx ->%list_elem_of_singleton. done.
  - rewrite app_assoc. apply elem_of_app. by left.
  - rewrite Hsame; done.
  - exists A, (B ++ [y]). rewrite <- app_assoc. split; [done|]. rewrite Forall_app, Forall_singleton, !Forall_forall. split.
    + intros x Hx. rewrite Hsame; [by apply HA|]. rewrite !elem_of_app. auto.
    + split; [|done]. intros x Hx. rewrite Hsame; [by apply HB|]. rewrite !elem_of_app. auto.
  - rewrite Forall_forall. intros x Hx. rewrite HP by done. by apply Hdone.
  - intros _. rewrite HP by done. done.
  - intros p z Hp. rewrite (HP p Hp). intros Hep Hz. destruct (Hcl p z Hp Hep Hz) as [[Hz1 Hz2]|[-> [->|Hz1]%elem_of_cons]].
    + left. rewrite app_assoc, (Hsame z Hz1). split; [|done]. apply elem_of_app. by left.
    + left. rewrite Hnew, Hcd. split; [|lia]. rewrite !elem_of_app, list_elem_of_singleton. auto.
    + by right.
  - intros z. rewrite app_assoc. intros [Hz| ->%list_elem_of_singleton]%elem_of_app Hzs.
    + destruct (Hso z Hz Hzs) as (u & Hu & Hzu & Hd1 & Hd2). exists u. by rewrite (HP u Hu), (Hsame z Hz).
    + exists c. rewrite Hnew, HP, Hcd by done. done.
  - rewrite app_assoc, fmap_app. cbn [fmap list_fmap]. rewrite Hnew.
    assert (E : dep' <$> P ++ A ++ B = dep <$> P ++ A ++ B) by (apply Forall_fmap_ext_1, Forall_forall; exact Hsame).
    rewrite E. apply StronglySorted_snoc; [done|]. rewrite Forall_fmap. apply Forall_forall. exact Hmax.
Qed.

(** The next node leaves the queue. *)
Lemma bfs_pop P c Q dep :
  bfs_inv P (c :: Q) dep -> exists d, dep c = d /\
    bfs_mid (P ++ [c]) Q c (if explore (dep c) then nbrs c else []) d dep /\
    Forall (fun x => (d <= dep x)%nat) (c :: Q).
Proof.
  intros (c0 & d0 & Hm). destruct Hm as [Hnd Hst Hsd (A & B & HQ & HA & HB) Hdone Hcur Hcl Hso Hsort].
  assert (Hlv : exists A B, Q = A ++ B /\ Forall (fun x => dep x = dep c) A /\ Forall (fun x => dep x = S (dep c)) B /\ (d0 <= dep c)%nat).
  { destruct A as [|a A].
    - destruct B as [|b B]; [done|]. injection HQ as -> ->. inversion HB; subst. exists B, []. rewrite app_nil_r.
      split; [done|]. split; [|split; [constructor|lia]]. eapply Forall_impl; [done|]. cbn. lia.
    - injection HQ as -> ->. inversion HA; subst. exists A, B. auto. }
  destruct Hlv as (A' & B' & -> & HA' & HB' & Hd0). exists (dep c). split; [done|]. split.
  - split; try done.
    + by rewrite <- app_assoc.
    + by rewrite <- app_assoc.
    + by exists A', B'.
    + rewrite Forall_app, Forall_singleton. split; [|lia]. eapply Forall_impl; [done|]. cbn. lia.
    + intros Hr. split; [apply elem_of_app; right; by left|]. split; [done|]. by destruct (explore (dep c)).
    + intros p y [Hp| ->%list_elem_of_singleton]%elem_of_app Hep Hy.
      * left. rewrite <- app_assoc. destruct (Hcl p y Hp Hep Hy) as [?|[_ []%elem_of_nil]]; done.
      * rewrite Hep. by right.
    + intros y. rewrite <- app_assoc. intros Hy Hys. destruct (Hso y Hy Hys) as (u & Hu & Hr). exists u. split; [|done].
      apply elem_of_app. by left.
    + by rewrite <- app_assoc.
  - constructor; [done|]. rewrite Forall_app. split; (eapply Forall_impl; [done|]); cbn; lia.
Qed.

(** A node found is that many steps away. *)
Lemma bfs_walk_sound P Q dep y : bfs_inv P Q dep -> y ∈ P ++ Q -> walk nbrs (dep y) start y.
Proof.
  intros (c & d & Hm). remember (dep y) as n eqn:E. revert y E. induction n as [|n IH]; intros y E Hy.
  - destruct (decide (y = start)) as [->|Hne]; [constructor|]. destruct (bi_sound _ _ _ _ _ _ Hm y Hy Hne) as (u & _ & _ & Hd & _). lia.
  - destruct (decide (y = start)) as [->|Hne]; [pose proof (bi_start_dep _ _ _ _ _ _ Hm); lia|].
    destruct (bi_sound _ _ _ _ _ _ Hm y Hy Hne) as (u & Hu & Hyu & Hd & _). apply walk_step with u; [|done].
    apply IH; [lia|]. apply elem_of_app. by left.
Qed.

(** A walk has been followed, or leads through the queue. *)
Lemma bfs_walk_complete P Q dep k w :
  bfs_inv P Q dep -> walk nbrs k start w -> (forall i, (i < k)%nat -> explore i = true) ->
  (w ∈ P ++ Q /\ (dep w <= k)%nat) \/ (exists q, q ∈ Q /\ (dep q <= k)%nat).
Proof.
  intros (c & d & Hm) Hw. remember start as a eqn:Ea. induction Hw as [a|n a b y Hw IH Hy]; intros Hex; subst a.
  - left. split; [apply (bi_start _ _ _ _ _ _ Hm)|]. pose proof (bi_start_dep _ _ _ _ _ _ Hm). lia.
  - destruct IH as [[Hb Hd]|(q & Hq & Hd)]; [done|auto with lia| |right; exists q; split; [done|lia]].
    apply elem_of_app in Hb as [Hb|Hb]; [|right; exists b; split; [done|lia]].
    destruct (bi_closed _ _ _ _ _ _ Hm b y Hb) as [[H1 H2]|[_ []%elem_of_nil]]; [|done|left; split; [done|lia]].
    apply Hex. lia.
Qed.

(** The nodes done are at most those of a set closed under neighbours. *)
Lemma bfs_in_closed P Q dep (U : list Z) :
  bfs_inv P Q dep -> start ∈ U -> (forall x y, x ∈ U -> y ∈ nbrs x -> y ∈ U) -> (length (P ++ Q) <= length U)%nat.
Proof.
  intros Hi Hs Hcl. assert (Hin : forall x, x ∈ P ++ Q -> x ∈ U).
  { intros x Hx. eapply walk_in_closed; [by apply (bfs_walk_sound P Q dep x Hi)|done|done]. }
  destruct Hi as (c & d & Hm). apply submseteq_length, NoDup_submseteq; [apply (bi_nodup _ _ _ _ _ _ Hm)|done].
Qed.

End BfsInvariant.

(** ** [graphBFS] visits by distance *)

Lemma existsb_spec (l : list Z) (x : Z) : existsb (Z.eqb x) l = bool_decide (x ∈ l).
Proof.
  induction l as [|y l IH]; [done|]. cbn [existsb]. rewrite IH.
  destruct (Z.eqb_spec x y) as [->|Hne]; cbn; [by rewrite bool_decide_eq_true_2 by left|].
  apply bool_decide_ext. rewrite elem_of_cons. naive_solver.
Qed.

(** The array is a power of two long; up to [2 ^ 27] nodes fit. *)
Definition visited_ok (v : GraphVisitedSet) : Prop :=
  exists j, 4 <= j <= 27 /\ vs_nAlloc v = 2 ^ j /\ Z.of_nat (length (vs_aNodes v)) <= 2 ^ j.

Lemma visited_ok_create : visited_ok graphVisitedSetCreate.
Proof. exists 4. cbn. lia. Qed.

Lemma visited_add_ok (v : GraphVisitedSet) (x : Z) :
  visited_ok v -> Z.of_nat (length (vs_aNodes v)) < 2 ^ 27 ->
  exists v', graphVisitedSetAdd v x = Ok v' /\ vs_aNodes v' = vs_aNodes v ++ [x] /\ visited_ok v'.
Proof.
  intros (j & Hj & Ha & Hl) H27. unfold graphVisitedSetAdd. destruct (Z.leb_spec (vs_nAlloc v) (Z.of_nat (length (vs_aNodes v)))) as [Hle|Hlt].
  - rewrite Ha in Hle. assert (Hj' : j < 27) by (apply (Z.pow_lt_mono_r_iff 2); lia).
    assert (E : vs_nAlloc v * 2 = 2 ^ (j + 1)) by (rewrite Ha, Z.pow_add_r by lia; lia).
    pose proof (Z.pow_le_mono_r 2 (j + 1) 27 ltac:(lia) ltac:(lia)). pose proof (Z.pow_pos_nonneg 2 j ltac:(lia) ltac:(lia)).
    rewrite malloc_small by lia. eexists. split; [done|]. split; [done|]. exists (j + 1). cbn. rewrite length_app. cbn [length].
    rewrite <- E. lia.
  - eexists. split; [done|]. split; [done|]. exists j. cbn. rewrite length_app. cbn [length]. lia.
Qed.

Lemma filter_ext_in (f g : Z -> bool) (l : list Z) :
  (forall x, x ∈ l -> f x = g x) -> List.filter f l = List.filter g l.
Proof.
  induction l as [|x l IH]; intros H; [done|]. cbn. rewrite (H x) by left. rewrite IH; [done|]. intros y Hy. apply H. by right.
Qed.

Section GraphBfs.
Context (sel : Z -> option (list Z)) (start nMaxDepth : Z).

(** The successors the statements return: none if a statement fails. *)
Definition selected (x : Z) : list Z := default [] (sel x).

Definition select_rc (x : Z) : Z := if sel x is Some _ then SQLITE_OK else SQLITE_ERROR.

Definition within (n : nat) : bool := (nMaxDepth <? 0) || (Z.of_nat n <? nMaxDepth).

(** The result code after the nodes [l] are done. *)
Definition bfs_rc (dep : Z -> nat) (l : list Z) : Z :=
  default SQLITE_OK (select_rc <$> last (List.filter (fun x => within (dep x)) l)).

Lemma within_depth (n : nat) : (0 <=? nMaxDepth) && (nMaxDepth <=? Z.of_nat n) = negb (within n).
Proof. unfold within. rewrite negb_orb, <- Z.leb_antisym, <- Z.leb_antisym. done. Qed.

Lemma bfs_rc_snoc (dep : Z -> nat) (l : list Z) (x : Z) :
  bfs_rc dep (l ++ [x]) = if within (dep x) then select_rc x else bfs_rc dep l.
Proof.
  unfold bfs_rc. rewrite List.filter_app. cbn. destruct (within (dep x)); [by rewrite last_snoc|by rewrite app_nil_r].
Qed.

Lemma bfs_rc_ext (dep dep' : Z -> nat) (l : list Z) : (forall x, x ∈ l -> dep' x = dep x) -> bfs_rc dep' l = bfs_rc dep l.
Proof. intros H. unfold bfs_rc. do 3 f_equal. apply filter_ext_in. intros x Hx. by rewrite H. Qed.

Definition bfs_matches (st : bfs_state) (P Q : list Z) (dep : Z -> nat) : Prop :=
  bs_queue st = Q /\ vs_aNodes (bs_visited st) = P ++ Q /\ visited_ok (bs_visited st) /\ bs_path st = P ++ Q /\
  forall x, x ∈ P ++ Q -> depth_of (bs_depths st) x = Z.of_nat (dep x).

Context (U : list Z) (start_in : start ∈ U) (U_closed : forall x y, x ∈ U -> y ∈ selected x -> y ∈ U).
Context (U_small : Z.of_nat (length U) <= 2 ^ 27).

(** A new node leaves room: it is not among those counted. *)
Lemma bfs_room P Q c y rest d dep :
  bfs_mid selected start within P Q c (y :: rest) d dep -> y ∈ selected c -> c ∈ U -> y ∉ P ++ Q ->
  (forall x, x ∈ P ++ Q -> x ∈ U) -> Z.of_nat (length (P ++ Q)) < 2 ^ 27.
Proof.
  intros Hm Hy Hc Hn HU. assert (H1 : (length (y :: P ++ Q) <= length U)%nat).
  { apply submseteq_length, NoDup_submseteq; [constructor; [done|apply (bi_nodup _ _ _ _ _ _ _ _ _ Hm)]|].
    intros x [->|Hx]%elem_of_cons; eauto. }
  cbn [length] in H1. lia.
Qed.

Lemma bfs_rows_matches (rows : list Z) (st : bfs_state) P Q c d dep :
  bfs_mid selected start within P Q c rows d dep -> bfs_matches st P Q dep -> Forall (fun y => y ∈ selected c) rows ->
  c ∈ U -> (forall x, x ∈ P ++ Q -> x ∈ U) ->
  exists st' Q' dep', bfs_rows (Z.of_nat d) rows st = Ok st' /\ bfs_mid selected start within P Q' c [] d dep' /\
    bfs_matches st' P Q' dep' /\ forall x, x ∈ P -> dep' x = dep x.
Proof.
  revert st Q dep. induction rows as [|y rows IH]; intros st Q dep Hm Hst Hr Hc HU; [by exists st, Q, dep|].
  apply Forall_cons_1 in Hr as [Hy Hr]. cbn [bfs_rows]. destruct Hst as (H1 & H2 & Hok & H3 & H4).
  unfold bfs_visit, graphVisitedSetContains. rewrite existsb_spec, H2. case_bool_decide as Hin; cbn [res_bind].
  - apply (IH st Q dep); try done. by eapply bfs_skip.
  - pose proof (bfs_room _ _ _ _ _ _ _ Hm Hy Hc Hin HU) as Hroom. rewrite <- H2 in Hroom.
    destruct (visited_add_ok _ y Hok Hroom) as (v' & Ev & Hv & Hok'). rewrite Ev. cbn [res_bind].
    edestruct (fun st => IH st (Q ++ [y]) (fun x => if decide (x = y) then S d else dep x)) as (st' & Q' & dep' & E & Hm' & Hst' & Hsame);
      [by eapply bfs_add| |done|done|..].
    3: { exists st', Q', dep'. split; [exact E|]. split; [done|]. split; [done|]. intros x Hx. rewrite (Hsame x Hx).
         rewrite decide_False; [done|]. intros ->. apply Hin, elem_of_app. by left. }
    + unfold bfs_matches. cbn. rewrite H1, Hv, ?H2, H3, <- !app_assoc.
      split; [done|]. split; [done|]. split; [done|]. split; [done|]. intros x Hx. destruct (Z.eqb_spec y x) as [<-|Hne].
      * rewrite decide_True by done. lia.
      * rewrite decide_False by done. apply H4. rewrite app_assoc in Hx. apply elem_of_app in Hx as [Hx|Hx]; [done|].
        apply list_elem_of_singleton in Hx. done.
    + intros x. rewrite app_assoc, elem_of_app, list_elem_of_singleton. intros [Hx| ->]; eauto.
Qed.

Lemma bfs_loop_ok (fuel : nat) (st : bfs_state) P Q dep :
  bfs_inv selected start within P Q dep -> bfs_matches st P Q dep -> (length U <= fuel + length P)%nat ->
  exists l dep', bfs_loop fuel sel nMaxDepth (bfs_rc dep P) st = Some (Ok (bfs_rc dep' l, l)) /\
    bfs_inv selected start within l [] dep'.
Proof.
  revert st P Q dep. induction fuel as [|fuel IH]; intros st P Q dep Hi Hst Hf.
  - pose proof (bfs_in_closed _ _ _ _ _ _ _ Hi start_in U_closed) as Hlen. rewrite length_app in Hlen. destruct Q as [|c Q]; [|cbn in Hlen; lia].
    destruct Hst as (H1 & H2 & Hok & H3 & H4). rewrite app_nil_r in *. cbn [bfs_loop]. rewrite H1, H3. eauto.
  - destruct Hst as (H1 & H2 & Hok & H3 & H4). destruct Q as [|c Q].
    { rewrite app_nil_r in *. cbn [bfs_loop]. rewrite H1, H3. eauto. }
    assert (HU : forall x, x ∈ P ++ c :: Q -> x ∈ U).
    { intros x Hx. eapply walk_in_closed; [by apply (bfs_walk_sound _ _ _ _ _ _ x Hi)|done|done]. }
    cbn [bfs_loop]. rewrite H1. cbn [bs_depths bs_visited bs_path]. rewrite H4 by (apply elem_of_app; right; by left).
    rewrite within_depth. destruct (bfs_pop _ _ _ _ _ _ _ Hi) as (d & Hd & Hm & _). pose proof (bfs_rc_snoc dep P c) as Hrc. rewrite Hd in *.
    assert (Hst' : bfs_matches (MkBfs Q (bs_visited st) (bs_depths st) (bs_path st)) (P ++ [c]) Q dep).
    { unfold bfs_matches. cbn. by rewrite <- app_assoc. }
    assert (HU' : forall x, x ∈ (P ++ [c]) ++ Q -> x ∈ U) by (rewrite <- app_assoc; exact HU).
    assert (Hlen' : (length U <= fuel + length (P ++ [c]))%nat) by (rewrite length_app; cbn; lia).
    destruct (within d) eqn:Ew; cbn [negb]; [|rewrite <- Hrc; apply (IH _ (P ++ [c]) Q dep); [by exists c, d|done|done]].
    destruct (bfs_rows_matches _ _ _ _ _ _ _ Hm Hst') as (st' & Q' & dep' & Er & Hm' & Hst'' & Hsame);
      [by apply Forall_forall|apply HU, elem_of_app; right; by left|done|].
    rewrite <- (bfs_rc_ext dep dep' (P ++ [c]) Hsame) in Hrc. unfold selected, select_rc in Er, Hrc. destruct (sel c) as [rows|].
    + change (default [] (Some rows)) with rows in Er. rewrite Er, <- Hrc. apply (IH _ (P ++ [c]) Q' dep'); [by exists c, d|done|done].
    + injection Er as <-. rewrite <- Hrc. apply (IH _ (P ++ [c]) Q' dep'); [by exists c, d|done|done].
Qed.

(** The search from the start. *)
Lemma graphBFS_search (fuel : nat) :
  (length U <= fuel)%nat ->
  exists l dep, graphBFS fuel sel start nMaxDepth = Some (Ok (bfs_rc dep l, l)) /\ bfs_inv selected start within l [] dep.
Proof.
  intros Hf. unfold graphBFS. destruct (visited_add_ok graphVisitedSetCreate start visited_ok_create) as (v & Ev & Hv & Hok); [cbn; lia|].
  rewrite Ev. apply (bfs_loop_ok fuel (MkBfs [start] v [(start, 0)] [start]) [] [start] (fun _ => 0%nat)); [by apply bfs_init| |cbn; lia].
  split; [done|]. split; [done|]. split; [done|]. split; [done|]. intros x ->%list_elem_of_singleton. cbn. by rewrite Z.eqb_refl.
Qed.

End GraphBfs.

(** C32: [graphBFS], whatever the statements that select the successors of a
    node return: let [selected sel x] be the rows of the one for [x], no rows
    if it cannot be prepared.  If these stay within a set of at most [2 ^ 27]
    nodes, as many as the array of visited nodes can hold, then within as many
    rounds as the set has nodes the search ends, and its list has each node
    at most [nMaxDepth] steps from the start (each reachable node, if
    [nMaxDepth] is negative) exactly once, ordered by distance from the start.
    The result code is that of the last statement: of the last node of the list
    that is less than [nMaxDepth] steps away, [SQLITE_OK] if there is none.  On
    the tables that [graphCreate] makes, which have no columns [to_id] and
    [from_id], every statement fails, and the search returns [SQLITE_ERROR] and
    the start node alone. *)
Theorem graphBFS_correct (sel : Z -> option (list Z)) (start nMaxDepth : Z) (U : list Z) (fuel : nat) :
  start ∈ U -> (forall x y, x ∈ U -> y ∈ selected sel x -> y ∈ U) -> Z.of_nat (length U) <= 2 ^ 27 -> (length U <= fuel)%nat ->
  exists l dist,
    graphBFS fuel sel start nMaxDepth = Some (Ok (bfs_rc sel nMaxDepth dist l, l)) /\ NoDup l /\
    (forall x, x ∈ l <-> exists k, walk (selected sel) k start x /\ (nMaxDepth < 0 \/ Z.of_nat k <= nMaxDepth)) /\
    (forall x, x ∈ l -> walk (selected sel) (dist x) start x /\ forall k, walk (selected sel) k start x -> (dist x <= k)%nat) /\
    StronglySorted le (dist <$> l) /\
    ((forall x, x ∈ U -> is_Some (sel x)) -> bfs_rc sel nMaxDepth dist l = SQLITE_OK) /\
    ((forall x, sel x = None) -> nMaxDepth <> 0 -> bfs_rc sel nMaxDepth dist l = SQLITE_ERROR /\ l = [start]).
Proof.
  intros HU Hcl H27 Hf. destruct (graphBFS_search sel start nMaxDepth U HU Hcl H27 fuel Hf) as (l & dist & El & Hi).
  pose proof (fun x => bfs_walk_sound _ _ _ _ _ _ x Hi) as Hsound. rewrite app_nil_r in Hsound.
  assert (Hlim : forall x, x ∈ l -> nMaxDepth < 0 \/ Z.of_nat (dist x) <= nMaxDepth).
  { intros x Hx. destruct Hi as (c & d & Hm). destruct (decide (x = start)) as [->|Hne].
    - rewrite (bi_start_dep _ _ _ _ _ _ _ _ _ Hm). lia.
    - destruct (bi_sound _ _ _ _ _ _ _ _ _ Hm x) as (u & _ & _ & -> & Hu); [by rewrite app_nil_r|done|].
      unfold within in Hu. lia. }
  assert (Hcomp : forall k x, walk (selected sel) k start x -> nMaxDepth < 0 \/ Z.of_nat k <= nMaxDepth -> x ∈ l /\ (dist x <= k)%nat).
  { intros k x Hw Hk. destruct (bfs_walk_complete _ _ _ _ _ _ k x Hi Hw) as [H|(q & []%elem_of_nil & _)].
    - intros j Hj. unfold within. lia.
    - by rewrite app_nil_r in H. }
  assert (Hnd : NoDup l).
  { destruct Hi as (c & d & Hm). pose proof (bi_nodup _ _ _ _ _ _ _ _ _ Hm) as Hnd. by rewrite app_nil_r in Hnd. }
  exists l, dist. split; [done|]. split; [done|]. split; [|split; [|split; [|split]]].
  - intros x. split; [intros Hx; exists (dist x); split; auto|]. intros (k & Hw & Hk). by apply (Hcomp k x).
  - intros x Hx. split; [auto|]. intros k Hw. destruct (decide (nMaxDepth < 0 \/ Z.of_nat k <= nMaxDepth)) as [Hk|Hk].
    + by apply (Hcomp k x).
    + specialize (Hlim x Hx). lia.
  - destruct Hi as (c & d & Hm). pose proof (bi_sorted _ _ _ _ _ _ _ _ _ Hm) as Hs. by rewrite app_nil_r in Hs.
  - intros Hall. unfold bfs_rc. destruct (last _) as [x|] eqn:Ex; [|done]. cbn. unfold select_rc.
    apply last_Some_elem_of, list_elem_of_In, List.filter_In in Ex as [Ex%list_elem_of_In _].
    destruct (Hall x) as [rows ->]; [|done]. eapply walk_in_closed; [by apply Hsound|done|done].
  - intros Hnone Hm0. assert (l = [start]) as ->.
    { assert (Hone : forall x, x ∈ l -> x = start).
      { intros x Hx. destruct (Hsound x Hx) as [|n a b c _ Hc]; [done|]. unfold selected in Hc. rewrite Hnone in Hc.
        by apply elem_of_nil in Hc. }
      destruct (Hcomp 0%nat start) as [Hs _]; [constructor|lia|]. destruct l as [|x [|y l]]; [by apply elem_of_nil in Hs|f_equal; apply Hone; left|].
      exfalso. apply NoDup_cons in Hnd as [Hx _]. apply Hx. rewrite (Hone x), (Hone y); [left|right; left|left]. }
    split; [|done]. unfold bfs_rc. cbn [List.filter]. assert (dist start = 0%nat) as ->.
    { destruct (Hcomp 0%nat start) as [_ Hd]; [constructor|lia|lia]. }
    assert (within nMaxDepth 0 = true) as -> by (unfold within; destruct (Z.ltb_spec nMaxDepth 0), (Z.ltb_spec (Z.of_nat 0) nMaxDepth); try done; lia). cbn. unfold select_rc. by rewrite Hnone.
Qed.

Lemma graphBFS_correct_witness :
  exists l dist, graphBFS 3 (fun x => Some (if x =? 1 then [2; 3] else if x =? 2 then [3] else [])) 1 (-1) = Some (Ok (SQLITE_OK, l)) /\
    l = [1; 2; 3] /\ StronglySorted le (dist <$> l).
Proof.
  destruct (graphBFS_correct (fun x => Some (if x =? 1 then [2; 3] else if x =? 2 then [3] else [])) 1 (-1) [1; 2; 3] 3)
    as (l & dist & E & _ & _ & _ & Hs & Hok & _).
  - by left.
  - intros x y Hx Hy. unfold selected in Hy. cbn in Hy. destruct (x =? 1); [|destruct (x =? 2)].
    + by right.
    + do 2 right. done.
    + by apply elem_of_nil in Hy.
  - done.
  - done.
  - rewrite Hok in E by (intros x _; by eexists). exists l, dist. split; [exact E|]. split; [|exact Hs]. vm_compute in E. by injection E.
Defined.

(** ** The shortest path *)

(** A path from its end back to its start. *)
Fixpoint back_path (nbrs : Z -> list Z) (l : list Z) : Prop :=
  match l with
  | x :: ((y :: _) as r) => x ∈ nbrs y /\ back_path nbrs r
  | _ => True
  end.

Section ShortestPath.
Context (nbrs : Z -> list Z) (start iEndId : Z) (N : nat) (U : list Z).
Hypothesis start_in : start ∈ U.
Hypothesis U_closed : forall x y, x ∈ U -> y ∈ nbrs x -> y ∈ U.
Hypothesis U_range : forall x, x ∈ U -> 0 <= x < Z.of_nat N.

Let always : nat -> bool := fun _ => true.
Local Abbreviation inv := (bfs_inv nbrs start always).
Local Abbreviation mid := (bfs_mid nbrs start always).

(** The array holds a predecessor of every node found but the start. *)
Definition pred_ok (pred P Q : list Z) (dep : Z -> nat) : Prop :=
  length pred = N /\ forall x, 0 <= x < Z.of_nat N ->
    let p := aget (-1) pred (Z.to_nat x) in
    if decide (x ∈ P ++ Q /\ x <> start) then p ∈ P /\ x ∈ nbrs p /\ dep x = S (dep p) else p = -1.

Definition sp_matches (st : sp_state) (P Q : list Z) (dep : Z -> nat) : Prop :=
  sp_queue st = Q /\ (forall x, x ∈ sp_visited st <-> x ∈ P ++ Q) /\ pred_ok (sp_pred st) P Q dep.

Lemma inv_range P Q dep x : inv P Q dep -> x ∈ P ++ Q -> 0 <= x < Z.of_nat N.
Proof.
  intros Hi Hx. apply U_range. eapply walk_in_closed; [by apply (bfs_walk_sound _ _ _ _ _ _ x Hi)|done|done].
Qed.

Lemma sp_rows_matches (rows : list Z) (st : sp_state) P Q c d dep :
  mid P Q c rows d dep -> sp_matches st P Q dep -> Forall (fun y => y ∈ nbrs c) rows -> c ∈ U -> c ∈ P -> dep c = d ->
  exists st' Q' dep', sp_rows c rows st = Ok st' /\ mid P Q' c [] d dep' /\ sp_matches st' P Q' dep'.
Proof.
  revert st Q dep. induction rows as [|y rows IH]; intros st Q dep Hm Hst Hr HcU HcP Hcd; [by exists st, Q, dep|].
  apply Forall_cons_1 in Hr as [Hy Hr]. cbn [sp_rows]. destruct Hst as (H1 & H2 & Hlen & H3).
  unfold sp_visit. rewrite existsb_spec. case_bool_decide as Hin; rewrite H2 in Hin; cbn [res_bind].
  - apply (IH st Q dep); try done. by eapply bfs_skip.
  - pose proof (U_range y (U_closed c y HcU Hy)) as Hry. unfold in_array.
    rewrite Hlen, (proj2 (Z.leb_le _ _)), (proj2 (Z.ltb_lt _ _)) by lia. cbn [andb res_bind].
    assert (Hsame : forall x, x ∈ P ++ Q -> x <> y) by (intros x Hx ->; done).
    eapply (IH _ (Q ++ [y])); [by eapply bfs_add| |done|done|done|].
    2: { cbn beta. rewrite decide_False; [done|]. apply Hsame, elem_of_app. by left. }
    split; [cbn; by rewrite H1|]. split.
    { intros x. cbn. rewrite elem_of_cons, H2, app_assoc, (elem_of_app (P ++ Q)), list_elem_of_singleton. naive_solver. }
    split; [cbn; by rewrite length_insert|]. intros x Hx. cbn [sp_pred]. specialize (H3 x Hx).
    destruct (decide (x = y)) as [->|Hne].
    + unfold aget. rewrite list_lookup_insert_eq by lia. cbn [default].
      rewrite decide_True; [|split; [rewrite !elem_of_app, list_elem_of_singleton; auto|]].
      2: { intros ->. apply Hin, (bi_start _ _ _ _ _ _ _ _ _ Hm). }
      rewrite decide_False by (apply Hsame, elem_of_app; by left). auto.
    + unfold aget in *. rewrite list_lookup_insert_ne by lia.
      rewrite app_assoc. destruct (decide (x ∈ P ++ Q /\ x <> start)) as [Hx1|Hx1].
      * rewrite decide_True; [|by rewrite elem_of_app; naive_solver]. destruct H3 as (Hp & Hxp & Hd). split; [done|]. split; [done|].
        rewrite decide_False; [done|]. apply Hsame, elem_of_app. by left.
      * rewrite decide_False; [done|]. rewrite elem_of_app, list_elem_of_singleton. naive_solver.
Qed.

(** The search ends at the end node, or with every reachable node done. *)
Definition sp_found (st : sp_state) : Prop := exists P Q dep, inv P Q dep /\ pred_ok (sp_pred st) P Q dep /\
  (Q = [] /\ iEndId ∉ P \/ iEndId ∈ Q /\ Forall (fun x => (dep iEndId <= dep x)%nat) Q).

Lemma sp_loop_ok (fuel : nat) (st : sp_state) P Q dep :
  inv P Q dep -> sp_matches st P Q dep -> (length U <= fuel + length P)%nat -> iEndId ∉ P ->
  exists st', sp_loop fuel (fun x => Some (nbrs x)) iEndId st = Some (Ok st') /\ sp_found st'.
Proof.
  revert st P Q dep. induction fuel as [|fuel IH]; intros st P Q dep Hi Hst Hf He.
  - pose proof (bfs_in_closed _ _ _ _ _ _ _ Hi start_in U_closed) as Hlen. rewrite length_app in Hlen.
    destruct Q as [|c Q]; [|cbn in Hlen; lia]. destruct Hst as (H1 & H2 & H3). cbn [sp_loop]. rewrite H1. exists st.
    split; [done|]. exists P, [], dep. auto.
  - destruct Hst as (H1 & H2 & H3). cbn [sp_loop]. rewrite H1. destruct Q as [|c Q].
    { exists st. split; [done|]. exists P, [], dep. auto. }
    destruct (bfs_pop _ _ _ _ _ _ _ Hi) as (d & Hd & Hm & Hmin). destruct (Z.eqb_spec c iEndId) as [->|Hne].
    { eexists. split; [done|]. exists P, (iEndId :: Q), dep. split; [done|]. split; [done|]. right. split; [by left|].
      by rewrite Hd. }
    change (default [] _) with (nbrs c). destruct (sp_rows_matches (nbrs c) (MkSp Q (sp_visited st) (sp_pred st)) (P ++ [c]) Q c d dep Hm)
      as (st' & Q' & dep' & Er & Hm' & Hst').
    + split; [done|]. split; [intros x; rewrite <- app_assoc; apply H2|]. destruct H3 as [Hlen H3]. split; [done|].
      intros x Hx. specialize (H3 x Hx). rewrite <- app_assoc. cbn [app sp_pred]. case_decide; [|done].
      destruct H3 as (Hp & Hr). split; [|done]. apply elem_of_app. by left.
    + by apply Forall_forall.
    + eapply walk_in_closed; [apply (bfs_walk_sound _ _ _ _ _ _ c Hi)|done|done]. apply elem_of_app. right. by left.
    + apply elem_of_app. right. by left.
    + done.
    + rewrite Er. apply (IH _ (P ++ [c]) Q' dep'); [by exists c, d|done| |].
      * rewrite length_app. cbn. lia.
      * rewrite elem_of_app, list_elem_of_singleton. naive_solver.
Qed.

(** The chain of predecessors of a node found leads to the start. *)
Lemma sp_path_ok (pred P Q : list Z) (dep : Z -> nat) (n : nat) (x : Z) (fuel : nat) :
  inv P Q dep -> pred_ok pred P Q dep -> x ∈ P ++ Q -> dep x = n -> (n < fuel)%nat ->
  exists l, sp_path fuel pred x = Some (Ok l) /\ head l = Some x /\ last l = Some start /\ back_path nbrs l /\ length l = S n.
Proof.
  intros Hi Hp. revert x fuel. induction n as [|n IH]; intros x fuel Hx Hn Hf; (destruct fuel as [|fuel]; [lia|]);
    pose proof (inv_range _ _ _ x Hi Hx) as Hr; cbn [sp_path]; rewrite (proj2 (Z.eqb_neq x (-1))) by lia;
    unfold in_array; rewrite (proj1 Hp), (proj2 (Z.leb_le _ _)), (proj2 (Z.ltb_lt _ _)) by lia; cbn [andb];
    pose proof (proj2 Hp x Hr) as Hpx; cbv zeta in Hpx; case_decide as Hd.
  - destruct Hpx as (_ & _ & Hdep). lia.
  - rewrite Hpx. assert (x = start) as -> by (destruct (decide (x = start)); [done|exfalso; apply Hd; done]).
    exists [start]. destruct fuel; repeat split.
  - destruct Hpx as (HpP & Hxp & Hdep). destruct (IH (aget (-1) pred (Z.to_nat x)) fuel) as (l & El & Hh & Hl & Hb & Hlen); [|lia|lia|].
    { apply elem_of_app. by left. }
    exists (x :: l). rewrite El. split; [done|]. split; [done|]. destruct l as [|y l]; [done|]. injection Hh as ->.
    split; [done|]. split; [done|]. cbn [length] in *. lia.
  - assert (x = start) as -> by (destruct (decide (x = start)); [done|exfalso; apply Hd; done]).
    destruct Hi as (c & d & Hm). pose proof (bi_start_dep _ _ _ _ _ _ _ _ _ Hm). lia.
Qed.

(** Every depth up to that of a node occurs, so it is below the number of
    nodes. *)
Lemma depth_bound P Q dep x : inv P Q dep -> x ∈ P ++ Q -> (dep x < N)%nat.
Proof.
  intros Hi Hx. assert (Hall : forall n y, y ∈ P ++ Q -> dep y = n -> forall m, (m <= n)%nat -> m ∈ dep <$> P ++ Q).
  { induction n as [|n IH]; intros y Hy Hn m Hm.
    - assert (m = dep y) as -> by lia. by apply list_elem_of_fmap_2.
    - destruct (decide (m = S n)) as [->|Hne]; [rewrite <- Hn; by apply list_elem_of_fmap_2|].
      destruct Hi as (c & d & Hmid). destruct (decide (y = start)) as [->|Hys].
      + pose proof (bi_start_dep _ _ _ _ _ _ _ _ _ Hmid). lia.
      + destruct (bi_sound _ _ _ _ _ _ _ _ _ Hmid y Hy Hys) as (u & Hu & _ & Hd & _). apply (IH u); [|lia|lia].
        apply elem_of_app. by left. }
  assert (H1 : (length (seq 0 (S (dep x))) <= length (dep <$> P ++ Q))%nat).
  { apply submseteq_length, NoDup_submseteq; [apply NoDup_seq|]. intros m Hm%elem_of_seq. apply (Hall (dep x) x); [done|done|lia]. }
  assert (H2 : (length (P ++ Q) <= length (Z.of_nat <$> seq 0 N))%nat).
  { destruct Hi as (c & d & Hm) eqn:E. apply submseteq_length, NoDup_submseteq; [apply (bi_nodup _ _ _ _ _ _ _ _ _ Hm)|].
    intros y Hy. pose proof (inv_range _ _ _ y (ex_intro _ c (ex_intro _ d Hm)) Hy). apply list_elem_of_fmap. exists (Z.to_nat y).
    rewrite elem_of_seq. lia. }
  rewrite length_fmap, length_seq in H1. rewrite length_fmap, length_seq in H2. lia.
Qed.

(** The list read off the array. *)
Definition sp_result (l : list Z) : Prop :=
  ((exists k, walk nbrs k start iEndId) -> head l = Some iEndId /\ last l = Some start /\ back_path nbrs l /\
     forall k, walk nbrs k start iEndId -> (length l <= S k)%nat) /\
  ((~ exists k, walk nbrs k start iEndId) -> l = [iEndId]).

Lemma sp_result_ok (st : sp_state) :
  0 <= iEndId < Z.of_nat N -> sp_found st ->
  exists l, sp_path (S (length (sp_pred st))) (sp_pred st) iEndId = Some (Ok l) /\ sp_result l.
Proof.
  intros Hr (P & Q & dep & Hi & Hp & [[-> He]|[He Hmin]]).
  - assert (Hno : ~ exists k, walk nbrs k start iEndId).
    { intros (k & Hw). destruct (bfs_walk_complete _ _ _ _ _ _ k _ Hi Hw) as [[H _]|(q & []%elem_of_nil & _)]; [done|].
      rewrite app_nil_r in H. done. }
    exists [iEndId]. split; [|split; [by intros|done]]. cbn [sp_path]. rewrite (proj2 (Z.eqb_neq _ _)) by lia.
    pose proof (proj2 Hp iEndId Hr) as Hpx. cbv zeta in Hpx. rewrite decide_False in Hpx by (rewrite app_nil_r; tauto).
    unfold in_array. rewrite (proj1 Hp), (proj2 (Z.leb_le _ _)), (proj2 (Z.ltb_lt _ _)) by lia. cbn [andb]. rewrite Hpx.
    by destruct N.
  - assert (HeL : iEndId ∈ P ++ Q) by (apply elem_of_app; by right).
    destruct (sp_path_ok _ _ _ _ _ iEndId (S (length (sp_pred st))) Hi Hp HeL eq_refl) as (l & El & Hh & Hl & Hb & Hlen).
    { rewrite (proj1 Hp). pose proof (depth_bound _ _ _ _ Hi HeL). lia. }
    exists l. split; [done|]. split.
    + intros _. split; [done|]. split; [done|]. split; [done|]. intros k Hw. rewrite Hlen.
      destruct (bfs_walk_complete _ _ _ _ _ _ k _ Hi Hw) as [[_ H]|(q & Hq & H)]; [done|lia|].
      rewrite Forall_forall in Hmin. specialize (Hmin q Hq). cbn in Hmin. lia.
    + intros Hno. exfalso. apply Hno. exists (dep iEndId). by apply (bfs_walk_sound _ _ _ _ _ _ iEndId Hi).
Qed.

Lemma sp_search_ok (fuel : nat) :
  0 <= iEndId < Z.of_nat N -> (length U <= fuel)%nat ->
  exists st l, sp_loop fuel (fun x => Some (nbrs x)) iEndId (MkSp [start] [start] (replicate N (-1))) = Some (Ok st) /\
    sp_path (S (length (sp_pred st))) (sp_pred st) iEndId = Some (Ok l) /\ sp_result l.
Proof.
  intros Hr Hf. destruct (sp_loop_ok fuel (MkSp [start] [start] (replicate N (-1))) [] [start] (fun _ => 0%nat)) as (st & El & Hfound).
  - by apply bfs_init.
  - split; [done|]. split; [done|]. split; [apply length_replicate|]. intros x Hx. cbn. rewrite decide_False.
    + unfold aget. by rewrite lookup_replicate_2 by lia.
    + rewrite list_elem_of_singleton. tauto.
  - cbn. lia.
  - apply not_elem_of_nil.
  - exists st. destruct (sp_result_ok st Hr Hfound) as (l & Ep & Hl). eauto.
Qed.

End ShortestPath.

(** C3: [graph_shortest_path(start, end)] on a graph of fewer than
    [2 ^ 28 - 1] nodes, whose array of predecessors has a size that fits an
    [int], with node ids between 0 and the number of nodes: both loops end, no
    access leaves the array, and if the end can be reached the result lists the
    nodes of a path along the edges that is as short as any, in reverse: from
    the end back to the start.  If it cannot be reached the result is not empty
    but the end node alone, as for a path of one node; the examples expect an
    empty result then. *)
Theorem shortest_path_correct `{ScanOrder} (v : GraphVtab) (s : gdb) (nodes : gmap Z GraphNode) (edges : gmap Z GraphEdge)
    (iStartId iEndId : Z) :
  gd_nodes s !! suffixed_nodes v = Some nodes -> gd_edges s !! suffixed_edges v = Some edges ->
  0 < Z.of_nat (size nodes) < 2 ^ 28 - 1 ->
  0 <= iStartId <= Z.of_nat (size nodes) -> 0 <= iEndId <= Z.of_nat (size nodes) ->
  map_Forall (fun _ e => 0 <= ge_target e <= Z.of_nat (size nodes)) edges ->
  exists l, graphShortestPathFunc (Some v) iStartId iEndId s = Some (Ok (path_text true l)) /\
    sp_result (targets edges) iStartId iEndId l.
Proof.
  intros Hn He Hsz Hs Hend Hids.
  set (U := iStartId :: ((fun p => ge_target p.2) <$> scan edges)).
  destruct (sp_search_ok (targets edges) iStartId iEndId (Z.to_nat (Z.of_nat (size nodes) + 1)) U) with (fuel := S (size edges))
    as (st & l & El & Ep & Hl).
  - by left.
  - intros x y _ Hy. right. unfold targets in Hy. apply list_elem_of_fmap in Hy as (p & -> & [_ Hp]%list_elem_of_filter).
    by apply (list_elem_of_fmap_2 (fun p : Z * GraphEdge => ge_target p.2)).
  - intros x [->|Hx]%elem_of_cons; [lia|]. apply list_elem_of_fmap in Hx as (p & -> & Hp%scan_elem).
    specialize (Hids _ _ Hp). cbn in Hids. lia.
  - lia.
  - cbn [U length]. by rewrite length_fmap, scan_length.
  - exists l. split; [|done]. unfold graphShortestPathFunc, shortest_path. rewrite Hn, He.
    rewrite to_i32_id by (unfold in_i32; lia). rewrite (proj2 (Z.eqb_neq _ _)) by lia. cbv zeta. rewrite malloc_small by lia.
    rewrite (proj2 (Z.ltb_ge _ _)) by (unfold to_size, wrap_u; rewrite Z.mod_small by lia; cbn; lia).
    change (fun id => (fun t => targets t id) <$> Some edges) with (fun id => Some (targets edges id)). by rewrite El, Ep.
Qed.

(** ** Depth-first search *)

Definition reaches (nbrs : Z -> list Z) (a b : Z) : Prop := exists k, walk nbrs k a b.

Lemma reaches_step (nbrs : Z -> list Z) (a b c : Z) : b ∈ nbrs a -> reaches nbrs b c -> reaches nbrs a c.
Proof.
  intros Hb (k & Hw). exists (S k). induction Hw as [b|n b x y Hw IH Hy]; [apply walk_step with a; [constructor|done]|].
  apply walk_step with x; [by apply IH|done].
Qed.

Section Dfs.
Context (sel : Z -> option (list Z)) (U : list Z) (nMaxDepth : Z).
Hypothesis U_closed : forall x y, x ∈ U -> y ∈ selected sel x -> y ∈ U.
Hypothesis U_small : Z.of_nat (length U) <= 2 ^ 27.
Hypothesis unlimited : nMaxDepth < 0.

Local Abbreviation nbrs := (selected sel).

(** The nodes [new] of a search: different ones of [U], reachable from [x]. *)
Definition dfs_new (x : Z) (vis new : list Z) : Prop :=
  NoDup (vis ++ new) /\ (forall y, y ∈ vis ++ new -> y ∈ U) /\ forall y, y ∈ new -> reaches nbrs x y.

(** A search that ends well has visited the successors of all new nodes; one that
    fails has stopped at a node whose statement failed. *)
Definition dfs_end (rc : Z) (vis new : list Z) : Prop :=
  (rc = SQLITE_OK /\ forall y, y ∈ new -> is_Some (sel y) /\ forall z, z ∈ nbrs y -> z ∈ vis ++ new) \/
  (rc = SQLITE_ERROR /\ exists y, last new = Some y /\ sel y = None).

(** What a call has done: visit the node, and what it leads to. *)
Definition dfs_done (targets : list Z) (x rc : Z) (v v' : GraphVisitedSet) : Prop :=
  visited_ok v' /\ exists new, vs_aNodes v' = vs_aNodes v ++ new /\ dfs_new x (vs_aNodes v) new /\ dfs_end rc (vs_aNodes v) new /\
    (rc = SQLITE_OK -> forall y, y ∈ targets -> y ∈ vs_aNodes v').

Definition dfs_pre (v : GraphVisitedSet) : Prop :=
  visited_ok v /\ NoDup (vs_aNodes v) /\ forall y, y ∈ vs_aNodes v -> y ∈ U.

Lemma dfs_done_pre (targets : list Z) (x rc : Z) (v v' : GraphVisitedSet) : dfs_done targets x rc v v' -> dfs_pre v'.
Proof. intros (Hok & new & E & (H1 & H2 & _) & _). split; [done|]. by rewrite E. Qed.

Lemma last_app_r (l l' : list Z) (y : Z) : last l' = Some y -> last (l ++ l') = Some y.
Proof. intros H. rewrite last_app, H. done. Qed.

(** Two searches in a row, the second from another successor. *)
Lemma dfs_done_app (x r rc : Z) (rows : list Z) (v v1 v2 : GraphVisitedSet) :
  r ∈ nbrs x -> dfs_done [r] r SQLITE_OK v v1 -> dfs_done rows x rc v1 v2 -> dfs_done (r :: rows) x rc v v2.
Proof.
  intros Hr (_ & n1 & E1 & (_ & _ & Hr1) & He1 & Ht1) (Hok & n2 & E2 & (Hnd & HU & Hr2) & He2 & Ht2). split; [done|].
  rewrite E1 in *. rewrite <- app_assoc in *. exists (n1 ++ n2). split; [done|]. split; [|split].
  - split; [done|]. split; [done|]. intros y [Hy|Hy]%elem_of_app; [|by apply Hr2]. apply reaches_step with r; [done|]. by apply Hr1.
  - destruct He2 as [[-> He2]|[-> (y & Hy & Hn)]]; [|right; split; [done|]; exists y; split; [by apply last_app_r|done]].
    left. split; [done|]. destruct He1 as [[_ He1]|[? _]]; [|done]. intros y [Hy|Hy]%elem_of_app.
    + destruct (He1 y Hy) as [Hs Hz]. split; [done|]. intros z Hzy. rewrite app_assoc. apply elem_of_app. left. by apply Hz.
    + rewrite app_assoc. by apply He2.
  - intros Hrc y [->|Hy]%elem_of_cons; [|by apply Ht2]. rewrite E2, app_assoc. apply elem_of_app. left. apply Ht1; [done|by left].
Qed.

(** The node itself, before its successors. *)
Lemma dfs_done_cons (x rc : Z) (v v1 v2 : GraphVisitedSet) (rows : list Z) :
  x ∈ U -> sel x = Some rows -> vs_aNodes v1 = vs_aNodes v ++ [x] -> dfs_done rows x rc v1 v2 -> dfs_done [x] x rc v v2.
Proof.
  intros Hx Hs E1 (Hok & n & E & (Hnd & HU & Hr) & He & Ht). split; [done|]. rewrite E1 in *. rewrite <- app_assoc in *. exists (x :: n).
  split; [done|]. split; [|split].
  - split; [done|]. split; [done|]. intros y [->|Hy]%elem_of_cons; [exists 0%nat; constructor|by apply Hr].
  - destruct He as [[-> He]|[-> (y & Hy & Hn)]]; [|right; split; [done|]; exists y; split; [by apply (last_app_r [x])|done]].
    left. split; [done|]. intros y [->|Hy]%elem_of_cons.
    2: { destruct (He y Hy) as [Hsy Hz]. split; [done|]. intros z Hzy. specialize (Hz z Hzy). by rewrite <- app_assoc in Hz. }
    split; [by eexists|]. intros z Hz. unfold selected in Hz.
    rewrite Hs in Hz. change (z ∈ vs_aNodes v ++ [x] ++ n). rewrite <- E. by apply Ht.
  - intros _ y ->%list_elem_of_singleton. rewrite E. apply elem_of_app. right. by left.
Qed.

Lemma dfs_ok (fuel : nat) (depth x : Z) (v : GraphVisitedSet) :
  x ∈ U -> dfs_pre v -> (length U < fuel + length (vs_aNodes v))%nat ->
  exists rc v', graphDFSRecursive fuel sel nMaxDepth depth x v = Some (Ok (rc, v')) /\ dfs_done [x] x rc v v'.
Proof.
  revert depth x v. induction fuel as [|fuel IH]; intros depth x v Hx (Hok & Hnd & HU) Hf.
  { pose proof (submseteq_length _ _ (NoDup_submseteq _ U Hnd HU)). lia. }
  cbn [graphDFSRecursive]. rewrite (proj2 (Z.leb_gt _ _)) by lia. cbn [andb]. unfold graphVisitedSetContains. rewrite existsb_spec.
  case_bool_decide as Hin.
  { exists SQLITE_OK, v. split; [done|]. split; [done|]. exists []. rewrite app_nil_r. split; [done|]. unfold dfs_new, dfs_end. rewrite app_nil_r.
    split; [split; [done|split; [done|by intros y []%elem_of_nil]]|]. split; [left; split; [done|by intros y []%elem_of_nil]|].
    by intros _ y ->%list_elem_of_singleton. }
  assert (Hnd1 : NoDup (vs_aNodes v ++ [x])).
  { apply NoDup_app. split; [done|]. split; [|apply NoDup_singleton]. intros y Hy ->%list_elem_of_singleton. done. }
  assert (HU1 : forall y, y ∈ vs_aNodes v ++ [x] -> y ∈ U).
  { intros y [Hy| ->%list_elem_of_singleton]%elem_of_app; [by apply HU|done]. }
  assert (Hlen : (length (vs_aNodes v ++ [x]) <= length U)%nat) by (by apply submseteq_length, NoDup_submseteq).
  rewrite length_app in Hlen. cbn [length] in Hlen.
  destruct (visited_add_ok v x Hok) as (v1 & -> & E1 & Hok1); [lia|]. destruct (sel x) as [rows|] eqn:Es.
  2: { exists SQLITE_ERROR, v1. split; [done|]. split; [done|]. exists [x]. split; [done|]. split; [|split; [|done]].
       - split; [done|]. split; [done|]. intros y ->%list_elem_of_singleton. exists 0%nat. constructor.
       - right. split; [done|]. by exists x. }
  set (kids := fix children (rows : list Z) (pVisited : GraphVisitedSet) := _).
  assert (Hkids : forall rows v1, Forall (fun y => y ∈ nbrs x) rows -> dfs_pre v1 -> (length U < fuel + length (vs_aNodes v1))%nat ->
    exists rc v', kids rows v1 = Some (Ok (rc, v')) /\ dfs_done rows x rc v1 v').
  { clear - IH U_closed Hx. induction rows as [|r rows IHr]; intros v1 Hr Hp Hf1.
    - exists SQLITE_OK, v1. split; [done|]. destruct Hp as (? & ? & ?). split; [done|]. exists []. unfold dfs_new, dfs_end. rewrite app_nil_r.
      split; [done|]. split; [split; [done|split; [done|by intros y []%elem_of_nil]]|].
      split; [left; split; [done|]|intros _]; by intros y []%elem_of_nil.
    - apply Forall_cons_1 in Hr as [Hrx Hr]. cbn [kids]. fold kids.
      destruct (IH (depth + 1) r v1) as (rc & v2 & -> & Hd); [by eapply U_closed|done|done|].
      destruct Hd as (Hok2 & n & E2 & Hn & [[-> He]|[-> He]] & Ht).
      + change (SQLITE_OK =? SQLITE_OK) with true. cbv iota.
        assert (Hd : dfs_done [r] r SQLITE_OK v1 v2) by (split; [done|]; exists n; split; [done|]; split; [done|]; split; [by left|done]).
        destruct (IHr v2) as (rc & v3 & E & Hd'); [done|by eapply dfs_done_pre|rewrite E2, length_app; lia|].
        exists rc, v3. split; [done|]. by eapply dfs_done_app.
      + exists SQLITE_ERROR, v2. split; [done|]. split; [done|]. exists n. split; [done|]. destruct Hn as (? & ? & Hre).
        split; [|split; [by right|done]]. split; [done|]. split; [done|]. intros y Hy. apply reaches_step with r; [done|]. by apply Hre. }
  destruct (Hkids rows v1) as (rc & v' & E & Hd).
  - apply Forall_forall. intros y Hy. unfold selected. by rewrite Es.
  - split; [done|]. by rewrite E1.
  - rewrite E1, length_app. cbn. lia.
  - exists rc, v'. split; [done|]. by eapply dfs_done_cons.
Qed.

End Dfs.

(** C33: [graphDFS] without a depth limit, whatever the statements that select
    the successors return ([selected sel x], no rows if the one for [x] cannot
    be prepared): on a graph of at most [2 ^ 27] nodes, as many as the array of
    visited nodes can hold, it ends within one level of recursion more than
    there are nodes, and its list has only nodes reachable from the start node,
    each once.  If the statement of every reachable node succeeds, the result
    is [SQLITE_OK] and the list has all of them; if one of them fails, the
    result is [SQLITE_ERROR] and the list ends with a node whose statement
    failed.  On the tables that [graphCreate] makes, which have no columns
    [to_id] and [from_id], all fail: the result is [SQLITE_ERROR] and the start
    node.  A start node that does not exist is [SQLITE_NOTFOUND]. *)
Theorem graphDFS_correct (sel : Z -> option (list Z)) (start nMaxDepth : Z) (U : list Z) (fuel : nat) :
  start ∈ U -> (forall x y, x ∈ U -> y ∈ selected sel x -> y ∈ U) -> Z.of_nat (length U) <= 2 ^ 27 ->
  nMaxDepth < 0 -> (length U < fuel)%nat ->
  (exists rc l, graphDFS fuel sel true start nMaxDepth = Some (Ok (rc, l)) /\ NoDup l /\
    (forall x, x ∈ l -> reaches (selected sel) start x) /\
    ((forall x, reaches (selected sel) start x -> is_Some (sel x)) ->
       rc = SQLITE_OK /\ forall x, x ∈ l <-> reaches (selected sel) start x) /\
    ((exists x, reaches (selected sel) start x /\ sel x = None) ->
       rc = SQLITE_ERROR /\ exists y, last l = Some y /\ sel y = None) /\
    (sel start = None -> l = [start])) /\
  graphDFS fuel sel false start nMaxDepth = Some (Ok (SQLITE_NOTFOUND, [])).
Proof.
  intros HU Hcl H27 Hm Hf. split; [|done]. destruct (dfs_ok sel U nMaxDepth Hcl H27 Hm fuel 0 start graphVisitedSetCreate)
    as (rc & v & E & _ & l & El & (Hnd & _ & Hr) & He & Ht).
  - done.
  - split; [apply visited_ok_create|]. split; [constructor|by intros y []%elem_of_nil].
  - cbn. lia.
  - cbn [vs_aNodes graphVisitedSetCreate app] in *. exists rc, l. unfold graphDFS. rewrite E, El. split; [done|]. split; [done|]. split; [done|].
    assert (Hall : rc = SQLITE_OK -> forall x, reaches (selected sel) start x -> x ∈ l /\ is_Some (sel x)).
    { intros -> x (k & Hw). destruct He as [[_ He]|[? _]]; [|done]. assert (Hx : x ∈ l); [|split; [done|by apply He]].
      rewrite El in Ht. assert (Hs : start ∈ l) by (apply Ht; [done|by left]). clear - Hw Hs He.
      induction Hw as [|n a b c Hw IH Hc]; [done|]. by apply (proj2 (He b (IH Hs))). }
    split; [|split].
    + intros Hsome. assert (rc = SQLITE_OK) as ->.
      { destruct He as [[-> _]|[_ (y & Hy & Hn)]]; [done|]. exfalso.
        destruct (Hsome y) as [rows Hy']; [by apply Hr, last_Some_elem_of|]. congruence. }
      split; [done|]. intros x. split; [apply Hr|]. intros Hx. by apply Hall.
    + intros (x & Hx & Hn). destruct He as [[-> _]|He]; [|done]. exfalso. destruct (Hall eq_refl x Hx) as [_ [rows Hs]]. congruence.
    + intros Hs. assert (Hone : forall x, x ∈ l -> x = start).
      { intros x (k & Hw)%Hr. clear - Hw Hs. induction Hw as [|n a b c Hw IH Hc]; [done|]. rewrite (IH Hs) in Hc. unfold selected in Hc.
        rewrite Hs in Hc. by apply elem_of_nil in Hc. }
      destruct l as [|x [|y l]]; [|f_equal; apply Hone; left|].
      * destruct He as [[-> _]|[_ (y & ? & _)]]; [|done]. destruct (Hall eq_refl start) as [H _]; [exists 0%nat; constructor|].
        by apply elem_of_nil in H.
      * exfalso. apply NoDup_cons in Hnd as [Hx _]. apply Hx. rewrite (Hone x), (Hone y); [left|right; left|left].
Qed.

Lemma graphDFS_correct_witness :
  exists rc l, graphDFS 4 (fun x => Some (if x =? 1 then [2; 3] else if x =? 2 then [1] else [])) true 1 (-1) = Some (Ok (rc, l)) /\
    rc = SQLITE_OK /\ l = [1; 2; 3] /\ NoDup l.
Proof.
  destruct (graphDFS_correct (fun x => Some (if x =? 1 then [2; 3] else if x =? 2 then [1] else [])) 1 (-1) [1; 2; 3] 4)
    as ((rc & l & E & Hnd & _ & Hok & _) & _).
  - by left.
  - intros x y Hx Hy. unfold selected in Hy. cbn in Hy. destruct (x =? 1); [by right|]. destruct (x =? 2); [|by apply elem_of_nil in Hy].
    apply list_elem_of_singleton in Hy as ->. by left.
  - done.
  - done.
  - cbn. lia.
  - exists rc, l. split; [exact E|]. split; [apply Hok; intros x _; by eexists|]. split; [|exact Hnd]. vm_compute in E. by injection E.
Defined.

(** ** A concrete graph *)

#[local] Instance id_order : ScanOrder := {|
  scan := fun A t => map_to_list t;
  scan_perm := fun A t => Permutation_refl _
|}.

Definition path_node : GraphNode := MkGNode None None.
Definition path_edge (a b : Z) : GraphEdge := MkGEdge a b None None None.

Definition path_vtab : GraphVtab := MkGVtab (bstr "g") (bstr "g_nodes") (bstr "g_edges").

Definition path_nodes : gmap Z GraphNode := list_to_map ((fun i => (i, path_node)) <$> [1; 2; 3; 4]).
Definition path_edges : gmap Z GraphEdge :=
  list_to_map [(1, path_edge 1 2); (2, path_edge 2 3); (3, path_edge 1 3); (4, path_edge 3 1)].

Definition path_db (nodes : gmap Z GraphNode) (edges : gmap Z GraphEdge) : gdb :=
  MkGdb {[ bstr "g_nodes" := nodes ]} {[ bstr "g_edges" := edges ]}.

Lemma shortest_path_correct_witness :
  exists l, graphShortestPathFunc (Some path_vtab) 2 3 (path_db path_nodes path_edges) = Some (Ok (path_text true l)) /\
    sp_result (targets path_edges) 2 3 l /\ path_text true [3; 2] = bstr "[3,2]".
Proof.
  destruct (shortest_path_correct path_vtab (path_db path_nodes path_edges) path_nodes path_edges 2 3) as (l & E & Hl).
  1,2: vm_compute; reflexivity.
  1,2,3: by_compute.
  1: change (map_Forall (fun _ e => 0 <= ge_target e <= Z.of_nat (size path_nodes)) path_edges); by_compute.
  exists l. split; [exact E|]. split; [exact Hl|reflexivity].
Defined.

(** The path is listed from its end to its start. *)
Lemma shortest_path_backwards :
  graphShortestPathFunc (Some path_vtab) 1 3 (path_db path_nodes path_edges) = Some (Ok (bstr "[3,1]")).
Proof. vm_compute. reflexivity. Qed.

(** A node that cannot be reached is its own path. *)
Lemma shortest_path_unreachable :
  graphShortestPathFunc (Some path_vtab) 1 4 (path_db path_nodes path_edges) = Some (Ok (bstr "[4]")).
Proof. vm_compute. reflexivity. Qed.

(** Ids beyond the number of nodes index past the array. *)
Lemma shortest_path_overruns :
  graphShortestPathFunc (Some path_vtab) 1 100
    (path_db {[ 1 := path_node; 100 := path_node ]} {[ 1 := path_edge 1 100 ]}) = Some Undef.
Proof. vm_compute. reflexivity. Qed.

(** A statement that cannot be prepared, as on the tables [graphCreate]
    makes, which have no column [to_id]: the search fails, and its text is
    left without the closing bracket. *)
Lemma graphBFS_without_columns (start nMaxDepth : Z) :
  nMaxDepth <> 0 -> graphBFS 1 (fun _ => None) start nMaxDepth = Some (Ok (SQLITE_ERROR, [start])).
Proof.
  intros Hm. unfold graphBFS. cbn [graphVisitedSetAdd graphVisitedSetCreate vs_nAlloc vs_aNodes length app].
  change (16 <=? Z.of_nat 0) with false. cbv iota. cbn [bfs_loop bs_queue bs_depths bs_visited bs_path depth_of]. rewrite Z.eqb_refl.
  assert (E : (0 <=? nMaxDepth) && (nMaxDepth <=? 0) = false) by lia. by rewrite E.
Qed.

(** The visited set of [2 ^ 27] nodes cannot grow. *)
Lemma visited_set_full (l : list Z) (x : Z) :
  Z.of_nat (length l) = 2 ^ 27 -> graphVisitedSetAdd (MkVisited l (2 ^ 27)) x = Undef.
Proof. intros Hl. unfold graphVisitedSetAdd. cbn [vs_nAlloc vs_aNodes]. rewrite Hl. reflexivity. Qed.

(** With a depth limit, [graphDFS] misses nodes it met first on a longer way:
    4 is two steps from 1, below the limit of 3. *)
Lemma graphDFS_limit_misses :
  graphDFS 9 (fun x => Some (if x =? 1 then [2; 3] else if x =? 2 then [3] else if x =? 3 then [4] else [])) true 1 3 =
    Some (Ok (SQLITE_OK, [1; 2; 3])).
Proof. vm_compute. reflexivity. Qed.
