(* ===== verification/Dijkstra.v ===== *)
(** * Weighted shortest paths (graph-algo.c)

    [graphDijkstra] keeps the nodes to settle in a binary heap and their
    distances and predecessors in a chained hash table; a node whose distance
    drops is inserted again, and the stale entries are skipped when they leave
    the heap.  Distances are [double]s.  The statement that selects the edges of
    a node is a function, [None] if it cannot be prepared; memory is never
    exhausted.  Shown: the heap is a priority queue, the table a finite map,
    and the search returns a walk whose sum of weights, as [double]s added from
    the start on, is least. *)

From Stdlib Require Import String ZArith Lia Floats.SpecFloat.
From stdpp Require Import base option list numbers gmap sorting.
From S2P Require Import Prelude Float32 FloatOrder Codec Shadow DefParser Values Scalar Graph GraphSearch.

Local Open Scope Z_scope.

(** ** The priority queue *)

Record PQNode := MkPQNode { pq_iNodeId : Z; pq_rDistance : f64 }.

Definition no_pqnode : PQNode := MkPQNode 0 (S754_zero false).

(** The used part of [aNodes]. *)
Abbreviation GraphPriorityQueue := (list PQNode) (only parsing).

Definition graphPriorityQueueCreate : GraphPriorityQueue := [].

Definition pqParent (i : nat) : nat := ((i - 1) / 2)%nat.

Definition pqLeftChild (i : nat) : nat := (2 * i + 1)%nat.

Definition pqRightChild (i : nat) : nat := (2 * i + 2)%nat.

Definition pqSwap (q : GraphPriorityQueue) (i j : nat) : GraphPriorityQueue := aswap no_pqnode q i j.

Definition pq_dist (q : GraphPriorityQueue) (i : nat) : f64 := pq_rDistance (aget no_pqnode q i).

(** Enough fuel: [i], as each step at least halves it. *)
Fixpoint pqBubbleUp (fuel : nat) (q : GraphPriorityQueue) (i : nat) : GraphPriorityQueue :=
  match fuel with
  | O => q
  | S fuel =>
      if (0 <? i)%nat && f32_ltb (pq_dist q i) (pq_dist q (pqParent i)) then
        pqBubbleUp fuel (pqSwap q i (pqParent i)) (pqParent i)
      else q
  end.

Definition pq_min_child (q : GraphPriorityQueue) (i : nat) : nat :=
  let left := pqLeftChild i in
  let right := pqRightChild i in
  let minIndex := if (left <? length q)%nat && f32_ltb (pq_dist q left) (pq_dist q i) then left else i in
  if (right <? length q)%nat && f32_ltb (pq_dist q right) (pq_dist q minIndex) then right else minIndex.

(** Enough fuel: the length of the queue, as the index grows. *)
Fixpoint pqBubbleDown (fuel : nat) (q : GraphPriorityQueue) (i : nat) : GraphPriorityQueue :=
  match fuel with
  | O => q
  | S fuel =>
      let minIndex := pq_min_child q i in
      if (minIndex =? i)%nat then q else pqBubbleDown fuel (pqSwap q i minIndex) minIndex
  end.

(** The array doubles when it is full.  At [2 ^ 26] nodes of 16 bytes the size
    asked for, an [int], becomes negative: [sqlite3_realloc] frees the array,
    which is freed again when the queue is destroyed. *)
Definition graphPriorityQueueInsert (q : GraphPriorityQueue) (iNodeId : Z) (rDistance : f64) : res GraphPriorityQueue :=
  if Z.of_nat (length q) =? 2 ^ 26 then Undef
  else Ok (pqBubbleUp (length q) (q ++ [MkPQNode iNodeId rDistance]) (length q)).

(** The node that leaves and the rest. *)
Definition graphPriorityQueueExtractMin (q : GraphPriorityQueue) : res (PQNode * GraphPriorityQueue) :=
  match q with
  | [] => Err SQLITE_NOTFOUND
  | [x] => Ok (x, [])
  | x :: q =>
      let nUsed := length q in
      let q := aget no_pqnode q (nUsed - 1) :: take (nUsed - 1) q in
      Ok (x, pqBubbleDown nUsed q 0)
  end.

Definition graphPriorityQueueIsEmpty (q : GraphPriorityQueue) : bool := (length q =? 0)%nat.

(** ** The distance map *)

Record DistanceInfo := MkDistanceInfo { di_iNodeId : Z; di_rDistance : f64; di_iPredecessor : Z }.

(** Each bucket is a list, the newest entry first. *)
Record DistanceMap := MkDistanceMap { dm_aBuckets : list (list DistanceInfo); dm_nEntries : Z }.

Definition dm_nBuckets (m : DistanceMap) : Z := Z.of_nat (length (dm_aBuckets m)).

(** The number of buckets is an [int], whose computation may overflow.  The size
    of the array is reduced to an [int] too: none is allocated if it is not
    positive, and one that is too small is overrun. *)
Definition distanceMapCreate (nExpectedNodes : Z) : res DistanceMap :=
  let nBuckets := nExpectedNodes * 2 + 1 in
  let nByte := to_i32 (nBuckets * 8) in
  if (nBuckets <? -2 ^ 31) || (2 ^ 31 <=? nBuckets) then Undef
  else if nByte <=? 0 then Err SQLITE_NOMEM
  else if negb (nByte =? nBuckets * 8) then Undef
  else Ok (MkDistanceMap (replicate (Z.to_nat nBuckets) []) 0).

(** The bucket of a node: C's remainder has the sign of the id, and a negative
    index is outside of the array. *)
Definition bucket_of (m : DistanceMap) (iNodeId : Z) : res nat :=
  let iBucket := Z.rem iNodeId (dm_nBuckets m) in
  if iBucket <? 0 then Undef else Ok (Z.to_nat iBucket).

Fixpoint bucket_find (l : list DistanceInfo) (iNodeId : Z) : option DistanceInfo :=
  match l with
  | [] => None
  | e :: l => if di_iNodeId e =? iNodeId then Some e else bucket_find l iNodeId
  end.

Fixpoint bucket_update (l : list DistanceInfo) (iNodeId : Z) (rDistance : f64) (iPredecessor : Z) : list DistanceInfo :=
  match l with
  | [] => []
  | e :: l =>
      if di_iNodeId e =? iNodeId then MkDistanceInfo iNodeId rDistance iPredecessor :: l
      else e :: bucket_update l iNodeId rDistance iPredecessor
  end.

Definition distanceMapSet (m : DistanceMap) (iNodeId : Z) (rDistance : f64) (iPredecessor : Z) : res DistanceMap :=
  res_bind (bucket_of m iNodeId) (fun b =>
    let l := aget [] (dm_aBuckets m) b in
    match bucket_find l iNodeId with
    | Some _ => Ok (MkDistanceMap (<[b := bucket_update l iNodeId rDistance iPredecessor]> (dm_aBuckets m)) (dm_nEntries m))
    | None => Ok (MkDistanceMap (<[b := MkDistanceInfo iNodeId rDistance iPredecessor :: l]> (dm_aBuckets m)) (dm_nEntries m + 1))
    end).

Definition DBL_MAX : f64 := SFmax_float 53 1024.

Definition distanceMapGet (m : DistanceMap) (iNodeId : Z) : res f64 :=
  res_bind (bucket_of m iNodeId) (fun b =>
    Ok (match bucket_find (aget [] (dm_aBuckets m) b) iNodeId with Some e => di_rDistance e | None => DBL_MAX end)).

Definition distanceMapGetPredecessor (m : DistanceMap) (iNodeId : Z) : res Z :=
  res_bind (bucket_of m iNodeId) (fun b =>
    Ok (match bucket_find (aget [] (dm_aBuckets m) b) iNodeId with Some e => di_iPredecessor e | None => -1 end)).

(** ** The search *)

(** One row of the statement. *)
Definition dijkstra_row (iCurrentId : Z) (rCurrentDist : f64) (st : DistanceMap * GraphPriorityQueue) (row : Z * f64)
    : res (DistanceMap * GraphPriorityQueue) :=
  let '(to_id, weight) := row in
  let rNewDist := f64_add rCurrentDist weight in
  res_bind (distanceMapGet st.1 to_id) (fun d =>
    if f32_ltb rNewDist d then
      res_bind (distanceMapSet st.1 to_id rNewDist iCurrentId) (fun m =>
        res_bind (graphPriorityQueueInsert st.2 to_id rNewDist) (fun q => Ok (m, q)))
    else Ok st).

Fixpoint dijkstra_rows (iCurrentId : Z) (rCurrentDist : f64) (rows : list (Z * f64)) (st : DistanceMap * GraphPriorityQueue)
    : res (DistanceMap * GraphPriorityQueue) :=
  match rows with
  | [] => Ok st
  | row :: rows => res_bind (dijkstra_row iCurrentId rCurrentDist st row) (dijkstra_rows iCurrentId rCurrentDist rows)
  end.

(** The result code of the last call and the distances; [None]: out of fuel. *)
Fixpoint dijkstra_loop (fuel : nat) (sel : Z -> option (list (Z * f64))) (iEndId rc : Z)
    (st : DistanceMap * GraphPriorityQueue) : option (res (Z * DistanceMap)) :=
  if graphPriorityQueueIsEmpty st.2 then Some (Ok (rc, st.1))
  else
    match fuel with
    | O => None
    | S fuel =>
        match graphPriorityQueueExtractMin st.2 with
        | Err rc => Some (Ok (rc, st.1))
        | Undef => Some Undef
        | Ok (x, q) =>
            let '(MkPQNode iCurrentId rCurrentDist) := x in
            if (0 <=? iEndId) && (iCurrentId =? iEndId) then Some (Ok (SQLITE_OK, st.1))
            else
              match distanceMapGet st.1 iCurrentId with
              | Err rc => Some (Err rc)
              | Undef => Some Undef
              | Ok d =>
                  if f32_ltb d rCurrentDist then dijkstra_loop fuel sel iEndId SQLITE_OK (st.1, q)
                  else
                    match sel iCurrentId with
                    | None => dijkstra_loop fuel sel iEndId SQLITE_ERROR (st.1, q)
                    | Some rows =>
                        match dijkstra_rows iCurrentId rCurrentDist rows (st.1, q) with
                        | Ok st => dijkstra_loop fuel sel iEndId SQLITE_OK st
                        | Err rc => Some (Err rc)
                        | Undef => Some Undef
                        end
                    end
              end
        end
    end.

(** The first loop over the predecessors counts them; [None]: out of fuel. *)
Fixpoint path_count (fuel : nat) (m : DistanceMap) (iStartId iCurrent : Z) : option (res nat) :=
  if iCurrent =? -1 then Some (Ok 0%nat)
  else if iCurrent =? iStartId then Some (Ok 1%nat)
  else
    match fuel with
    | O => None
    | S fuel =>
        match distanceMapGetPredecessor m iCurrent with
        | Ok p =>
            match path_count fuel m iStartId p with
            | Some (Ok n) => Some (Ok (S n))
            | r => r
            end
        | Err rc => Some (Err rc)
        | Undef => Some Undef
        end
    end.

(** The second writes [aPath], from its end; an entry never written is undefined. *)
Fixpoint path_fill (i : nat) (m : DistanceMap) (iStartId iCurrent : Z) (aPath : list Z) : res (list Z) :=
  match i with
  | O => Ok aPath
  | S i =>
      if iCurrent =? iStartId then (if (i =? 0)%nat then Ok (iCurrent :: aPath) else Undef)
      else
        (* The predecessor of the first entry is looked up and not used. *)
        res_bind (distanceMapGetPredecessor m iCurrent) (fun p => path_fill i m iStartId p (iCurrent :: aPath))
  end.

(** The result code, [*pzPath] and [*prDistance].  The fuel of the loop over the
    predecessors is the number of entries. *)
Definition dijkstra_result (m : DistanceMap) (iStartId iEndId rc : Z) : option (res (Z * option bytes * f64)) :=
  if iEndId <? 0 then Some (Ok (SQLITE_OK, Some [123; 125], DBL_MAX))
  else
    match distanceMapGet m iEndId with
    | Ok rFinalDist =>
        if f32_ltb rFinalDist DBL_MAX then
          match path_count (Z.to_nat (dm_nEntries m)) m iStartId iEndId with
          | Some (Ok nPath) =>
              match path_fill nPath m iStartId iEndId [] with
              | Ok aPath => Some (Ok (rc, Some (path_text true aPath), rFinalDist))
              | Err rc => Some (Err rc)
              | Undef => Some Undef
              end
          | Some (Err rc) => Some (Err rc)
          | Some Undef => Some Undef
          | None => None
          end
        else Some (Ok (SQLITE_NOTFOUND, None, DBL_MAX))
    | Err rc => Some (Err rc)
    | Undef => Some Undef
    end.

(** [nNodes] is what the statement that counts the nodes gives, 0 if it fails. *)
Definition graphDijkstra (fuel : nat) (sel : Z -> option (list (Z * f64))) (nNodes iStartId iEndId : Z)
    : option (res (Z * option bytes * f64)) :=
  let start :=
    res_bind (distanceMapCreate nNodes) (fun m =>
    res_bind (distanceMapSet m iStartId (S754_zero false) (-1)) (fun m =>
    res_bind (graphPriorityQueueInsert graphPriorityQueueCreate iStartId (S754_zero false)) (fun q => Ok (m, q)))) in
  match start with
  | Ok st =>
      match dijkstra_loop fuel sel iEndId SQLITE_OK st with
      | Some (Ok (rc, m)) => dijkstra_result m iStartId iEndId rc
      | Some (Err rc) => Some (Err rc)
      | Some Undef => Some Undef
      | None => None
      end
  | Err rc => Some (Err rc)
  | Undef => Some Undef
  end.

(** ** The queue is a priority queue *)

(** Statements about the heap are about the keys by position. *)
Definition heap_keys (n : nat) (K : nat -> Z) : Prop :=
  forall j, (0 < j < n)%nat -> K (pqParent j) <= K j.

(** A heap but for the key at [i], which may be below its parent's. *)
Definition heap_up (n : nat) (K : nat -> Z) (i : nat) : Prop :=
  (forall j, (0 < j < n)%nat -> j <> i -> K (pqParent j) <= K j) /\
  (forall j, (0 < j < n)%nat -> pqParent j = i -> (0 < i)%nat -> K (pqParent i) <= K j).

(** A heap but for the key at [i], which may be above its children's. *)
Definition heap_down (n : nat) (K : nat -> Z) (i : nat) : Prop :=
  (forall j, (0 < j < n)%nat -> pqParent j <> i -> K (pqParent j) <= K j) /\
  (forall j, (0 < j < n)%nat -> pqParent j = i -> (0 < i)%nat -> K (pqParent i) <= K j).

Definition keys_swapped (K K' : nat -> Z) (i j : nat) : Prop :=
  K' i = K j /\ K' j = K i /\ forall k, k <> i -> k <> j -> K' k = K k.

Lemma pqParent_child (i : nat) : (0 < i)%nat -> i = pqLeftChild (pqParent i) \/ i = pqRightChild (pqParent i).
Proof.
  intros Hi. unfold pqParent, pqLeftChild, pqRightChild. pose proof (Nat.div_mod (i - 1) 2). pose proof (Nat.mod_upper_bound (i - 1) 2). lia.
Qed.

Lemma pqParent_lt (i : nat) : (0 < i)%nat -> (pqParent i < i)%nat.
Proof. intros Hi. pose proof (pqParent_child i Hi). unfold pqLeftChild, pqRightChild in *. lia. Qed.

Lemma child_pqParent (i : nat) : pqParent (pqLeftChild i) = i /\ pqParent (pqRightChild i) = i.
Proof.
  pose proof (pqParent_child (pqLeftChild i)). pose proof (pqParent_child (pqRightChild i)).
  unfold pqLeftChild, pqRightChild in *. lia.
Qed.

Lemma heap_up_swap (n i : nat) (K K' : nat -> Z) :
  (0 < i < n)%nat -> heap_up n K i -> K i < K (pqParent i) -> keys_swapped K K' i (pqParent i) -> heap_up n K' (pqParent i).
Proof.
  intros Hi [H1 H2] Hlt (Ei & Ep & Eo). pose proof (pqParent_lt i ltac:(lia)) as Hp. set (p := pqParent i) in *.
  assert (G : forall j, (0 < j < n)%nat -> pqParent j = p -> j <> i -> K p <= K' j).
  { intros j Hj Ej Hji. pose proof (pqParent_lt j ltac:(lia)). rewrite Eo by lia. rewrite <- Ej. by apply H1. }
  split.
  - intros j Hj Hjp. destruct (decide (j = i)) as [->|Hji]; [fold p; lia|]. rewrite (Eo j) by done.
    destruct (decide (pqParent j = i)) as [E|Hni]; [rewrite E, Ei; apply H2; lia|].
    destruct (decide (pqParent j = p)) as [E|Hnp]; [rewrite E, Ep; specialize (H1 j Hj Hji); rewrite E in H1; lia|].
    rewrite (Eo (pqParent j)) by done. by apply H1.
  - intros j Hj Ej Hp0. pose proof (pqParent_lt p Hp0). rewrite (Eo (pqParent p)) by lia.
    assert (K (pqParent p) <= K p) by (apply H1; lia).
    destruct (decide (j = i)) as [->|Hji]; [lia|]. specialize (G j Hj Ej Hji). lia.
Qed.

Lemma heap_down_swap (n i m : nat) (K K' : nat -> Z) :
  (0 < m < n)%nat -> pqParent m = i -> heap_down n K i -> K m < K i ->
  (forall j, (0 < j < n)%nat -> pqParent j = i -> K m <= K j) -> keys_swapped K K' i m -> heap_down n K' m.
Proof.
  intros Hm Em [H1 H2] Hlt Hmin (Ei & Ep & Eo). pose proof (pqParent_lt m ltac:(lia)) as Hp. rewrite Em in Hp. split.
  - intros j Hj Hjm. pose proof (pqParent_lt j ltac:(lia)). destruct (decide (j = m)) as [->|Hnm]; [rewrite Em; lia|].
    destruct (decide (pqParent j = i)) as [E|Hni]; [rewrite E, Ei, (Eo j) by lia; by apply Hmin|].
    rewrite (Eo (pqParent j)) by done. destruct (decide (j = i)) as [->|Hji]; [|rewrite Eo by done; by apply H1].
    rewrite Ei. apply H2; lia.
  - intros j Hj Ej _. pose proof (pqParent_lt j ltac:(lia)). rewrite Em, Ei, (Eo j) by lia. rewrite <- Ej. apply H1; lia.
Qed.

Definition pq_key (q : GraphPriorityQueue) (i : nat) : Z := f64_val (pq_dist q i).

Definition pq_good (q : GraphPriorityQueue) : Prop := Forall (fun x => f64_good (pq_rDistance x)) q.

Definition pq_heap (q : GraphPriorityQueue) : Prop := heap_keys (length q) (pq_key q).

Lemma good_zero : f64_good (S754_zero false).
Proof. reflexivity. Qed.

Lemma pq_good_dist (q : GraphPriorityQueue) (i : nat) : pq_good q -> f64_good (pq_dist q i).
Proof.
  intros Hq. unfold pq_dist, aget. destruct (q !! i) as [x|] eqn:E; [|apply good_zero]. cbn. exact (Forall_lookup_1 _ _ _ _ Hq E).
Qed.

Lemma pq_ltb (q : GraphPriorityQueue) (i j : nat) : pq_good q -> f32_ltb (pq_dist q i) (pq_dist q j) = (pq_key q i <? pq_key q j).
Proof. intros Hq. apply f64_ltb_val; by apply pq_good_dist. Qed.

Lemma pqSwap_Permutation (q : GraphPriorityQueue) (i j : nat) : (i < length q)%nat -> (j < length q)%nat -> pqSwap q i j ≡ₚ q.
Proof. apply aswap_Permutation. Qed.

Lemma pq_good_Permutation (q q' : GraphPriorityQueue) : q ≡ₚ q' -> pq_good q -> pq_good q'.
Proof. intros Hp. unfold pq_good. by rewrite Hp. Qed.

Lemma pqSwap_keys (q : GraphPriorityQueue) (i j : nat) : (i < length q)%nat -> (j < length q)%nat ->
  keys_swapped (pq_key q) (pq_key (pqSwap q i j)) i j.
Proof.
  intros Hi Hj. unfold keys_swapped, pq_key, pq_dist, pqSwap. split; [|split].
  - rewrite aget_aswap by done. by rewrite decide_True.
  - rewrite aget_aswap by done. case_decide as E; [by rewrite E|]. by rewrite decide_True.
  - intros k Hki Hkj. rewrite aget_aswap by done. by rewrite !decide_False.
Qed.

Lemma pqSwap_length (q : GraphPriorityQueue) (i j : nat) : length (pqSwap q i j) = length q.
Proof. apply length_aswap. Qed.

(** Moving an entry up restores the heap. *)
Lemma pqBubbleUp_spec (fuel : nat) (q : GraphPriorityQueue) (i : nat) :
  (i < length q)%nat -> (i <= fuel)%nat -> pq_good q -> heap_up (length q) (pq_key q) i ->
  pqBubbleUp fuel q i ≡ₚ q /\ pq_heap (pqBubbleUp fuel q i).
Proof.
  revert q i. induction fuel as [|fuel IH]; intros q i Hi Hf Hg Hh.
  { cbn [pqBubbleUp]. split; [done|]. intros j Hj. apply (proj1 Hh); lia. }
  cbn [pqBubbleUp]. destruct ((0 <? i)%nat && _) eqn:E.
  - apply andb_true_iff in E as [H0%Nat.ltb_lt E]. rewrite pq_ltb, Z.ltb_lt in E by done. pose proof (pqParent_lt i H0).
    destruct (IH (pqSwap q i (pqParent i)) (pqParent i)) as [Hp Hheap].
    + rewrite pqSwap_length. lia.
    + lia.
    + eapply pq_good_Permutation; [symmetry; apply pqSwap_Permutation; lia|done].
    + rewrite pqSwap_length. eapply heap_up_swap; [|exact Hh|done|apply pqSwap_keys; lia]. lia.
    + split; [|done]. rewrite Hp. apply pqSwap_Permutation; lia.
  - split; [done|]. intros j Hj. destruct (decide (j = i)) as [->|]; [|apply (proj1 Hh); lia].
    apply andb_false_iff in E as [E%Nat.ltb_ge|E]; [lia|]. rewrite pq_ltb, Z.ltb_ge in E by done. done.
Qed.

Lemma pq_min_child_spec (q : GraphPriorityQueue) (i : nat) : (i < length q)%nat -> pq_good q ->
  let m := pq_min_child q i in
  (forall j, (0 < j < length q)%nat -> pqParent j = i -> pq_key q m <= pq_key q j) /\
  (m = i \/ (0 < m < length q)%nat /\ pqParent m = i /\ pq_key q m < pq_key q i).
Proof.
  intros Hi Hg. unfold pq_min_child. cbv zeta.
  assert (Hch : forall j, (0 < j)%nat -> pqParent j = i -> j = pqLeftChild i \/ j = pqRightChild i).
  { intros j Hj <-. by apply pqParent_child. }
  destruct (child_pqParent i) as [El Er].
  assert (H0 : (0 < pqLeftChild i)%nat /\ (pqLeftChild i < pqRightChild i)%nat) by (unfold pqLeftChild, pqRightChild; lia).
  rewrite (pq_ltb q (pqLeftChild i) i) by done.
  destruct (Nat.ltb_spec (pqLeftChild i) (length q)) as [Hl|Hl]; destruct (Nat.ltb_spec (pqRightChild i) (length q)) as [Hr|Hr];
    cbn [andb]; try lia.
  - destruct (Z.ltb_spec (pq_key q (pqLeftChild i)) (pq_key q i)); rewrite pq_ltb by done;
      destruct (Z.ltb_spec (pq_key q (pqRightChild i)) (pq_key q (pqLeftChild i)));
      try destruct (Z.ltb_spec (pq_key q (pqRightChild i)) (pq_key q i));
      (split; [intros j Hj Ej; destruct (Hch j ltac:(lia) Ej) as [->| ->]; lia|]); try (by left); right; split; (done || lia).
  - destruct (Z.ltb_spec (pq_key q (pqLeftChild i)) (pq_key q i));
      (split; [intros j Hj Ej; destruct (Hch j ltac:(lia) Ej) as [->| ->]; lia|]); try (by left); right; split; (done || lia).
  - split; [|by left]. intros j Hj Ej. destruct (Hch j ltac:(lia) Ej) as [->| ->]; lia.
Qed.

(** Moving an entry down restores the heap. *)
Lemma pqBubbleDown_spec (fuel : nat) (q : GraphPriorityQueue) (i : nat) :
  (i < length q)%nat -> (length q <= fuel + i)%nat -> pq_good q -> heap_down (length q) (pq_key q) i ->
  pqBubbleDown fuel q i ≡ₚ q /\ pq_heap (pqBubbleDown fuel q i).
Proof.
  revert q i. induction fuel as [|fuel IH]; intros q i Hi Hf Hg Hh; [lia|].
  destruct (pq_min_child_spec q i Hi Hg) as [Hmin Hm]. cbn [pqBubbleDown]. cbv zeta. destruct (Nat.eqb_spec (pq_min_child q i) i) as [E|Hne].
  - split; [done|]. intros j Hj. destruct (decide (pqParent j = i)) as [Ej|]; [|apply (proj1 Hh); lia].
    rewrite Ej, <- E. by apply Hmin.
  - destruct Hm as [?|(Hm & Em & Hlt)]; [done|]. pose proof (pqParent_lt (pq_min_child q i) ltac:(lia)).
    destruct (IH (pqSwap q i (pq_min_child q i)) (pq_min_child q i)) as [Hp Hheap].
    + rewrite pqSwap_length. lia.
    + rewrite pqSwap_length. lia.
    + eapply pq_good_Permutation; [symmetry; apply pqSwap_Permutation; lia|done].
    + rewrite pqSwap_length. eapply heap_down_swap; [| |exact Hh| |exact Hmin|apply pqSwap_keys; lia]; done.
    + split; [|done]. rewrite Hp. apply pqSwap_Permutation; lia.
Qed.

Lemma pq_root_min (q : GraphPriorityQueue) (i : nat) : pq_heap q -> (i < length q)%nat -> pq_key q 0 <= pq_key q i.
Proof.
  intros Hq. induction (lt_wf i) as [i _ IH]. intros Hi. destruct (decide (i = 0%nat)) as [->|Hi0]; [lia|].
  pose proof (pqParent_lt i ltac:(lia)). specialize (IH (pqParent i) ltac:(lia) ltac:(lia)). specialize (Hq i ltac:(lia)). lia.
Qed.

Lemma pq_key_app_l (q q' : GraphPriorityQueue) (i : nat) : (i < length q)%nat -> pq_key (q ++ q') i = pq_key q i.
Proof. intros Hi. unfold pq_key, pq_dist. by rewrite aget_app_l. Qed.

Lemma pq_insert_spec (q : GraphPriorityQueue) (id : Z) (d : f64) :
  pq_heap q -> pq_good q -> f64_good d -> Z.of_nat (length q) < 2 ^ 26 ->
  exists q', graphPriorityQueueInsert q id d = Ok q' /\ q' ≡ₚ MkPQNode id d :: q /\ pq_heap q'.
Proof.
  intros Hh Hg Hd Hlen. unfold graphPriorityQueueInsert. rewrite (proj2 (Z.eqb_neq _ _)) by lia. eexists. split; [done|].
  destruct (pqBubbleUp_spec (length q) (q ++ [MkPQNode id d]) (length q)) as [Hp Hheap].
  - rewrite length_app. cbn. lia.
  - lia.
  - apply Forall_app. split; [done|]. by apply Forall_singleton.
  - rewrite length_app. cbn [length]. split.
    + intros j Hj Hne. pose proof (pqParent_lt j ltac:(lia)). rewrite !pq_key_app_l by lia. apply Hh. lia.
    + intros j Hj Ej _. pose proof (pqParent_lt j ltac:(lia)). lia.
  - split; [|done]. rewrite Hp. apply Permutation_app_comm.
Qed.

Lemma pq_extract_spec (q : GraphPriorityQueue) : pq_heap q -> pq_good q -> q <> [] ->
  exists x q', graphPriorityQueueExtractMin q = Ok (x, q') /\ q ≡ₚ x :: q' /\ pq_heap q' /\
    (forall y, y ∈ q -> f64_val (pq_rDistance x) <= f64_val (pq_rDistance y)).
Proof.
  intros Hh Hg Hne. destruct q as [|x q]; [done|].
  assert (Hmin : forall y, y ∈ x :: q -> f64_val (pq_rDistance x) <= f64_val (pq_rDistance y)).
  { intros y [i Hi]%list_elem_of_lookup. pose proof (lookup_lt_Some _ _ _ Hi) as Hlt. pose proof (pq_root_min _ i Hh Hlt) as Hr.
    unfold pq_key, pq_dist in Hr. by rewrite (aget_lookup _ _ _ _ Hi) in Hr. }
  destruct q as [|z q]; [exists x, []; repeat split; try done; intros j Hj; cbn in Hj; lia|].
  destruct (exists_last (l := z :: q) ltac:(done)) as (r & y & E). rewrite E in *. unfold graphPriorityQueueExtractMin.
  destruct (r ++ [y]) as [|z' q0] eqn:E'; [by destruct r|]. rewrite <- E' in *. clear z q E z' q0 E'. rewrite length_app. cbn [length].
  replace (length r + 1 - 1)%nat with (length r) by lia. rewrite take_app_length.
  replace (aget no_pqnode (r ++ [y]) (length r)) with y by (symmetry; apply aget_lookup, (list_lookup_middle r [] y); lia).
  assert (Hg' : pq_good (y :: r)).
  { apply Forall_cons_1 in Hg as [_ Hg]. eapply pq_good_Permutation; [|exact Hg]. symmetry. apply Permutation_cons_append. }
  assert (Hk : forall i, (0 < i < length (y :: r))%nat -> pq_key (y :: r) i = pq_key (x :: r ++ [y]) i).
  { intros [|i] Hi; [lia|]. cbn in Hi. change (pq_key r i = pq_key (r ++ [y]) i). symmetry. apply pq_key_app_l. lia. }
  destruct (pqBubbleDown_spec (length r + 1) (y :: r) 0) as [Hp Hheap].
  - cbn. lia.
  - cbn. lia.
  - done.
  - split.
    + intros j Hj Hpj. pose proof (pqParent_lt j ltac:(lia)). rewrite !Hk by lia. apply Hh. cbn in Hj |- *. rewrite length_app. cbn. lia.
    + lia.
  - eexists _, _. split; [done|]. split; [|by split]. rewrite Hp. constructor. symmetry. apply Permutation_cons_append.
Qed.

(** ** The distance map is a finite map *)

(** The distance and predecessor of each node that has them. *)
Abbreviation dmap := (gmap Z (f64 * Z)) (only parsing).

Definition di_pair (e : DistanceInfo) : f64 * Z := (di_rDistance e, di_iPredecessor e).

Record dm_rep (m : DistanceMap) (M : dmap) : Prop := {
  dr_buckets : 0 < dm_nBuckets m;
  dr_entries : dm_nEntries m = Z.of_nat (size M);
  dr_find : forall id b, bucket_of m id = Ok b -> di_pair <$> bucket_find (aget [] (dm_aBuckets m) b) id = M !! id;
  dr_neg : forall id, M !! id <> None -> 0 <= id
}.

Lemma bucket_of_nonneg (m : DistanceMap) (id : Z) : 0 < dm_nBuckets m -> 0 <= id ->
  exists b, bucket_of m id = Ok b /\ (b < length (dm_aBuckets m))%nat.
Proof.
  intros Hn Hid. unfold bucket_of. pose proof (Z.rem_bound_pos id (dm_nBuckets m) Hid Hn).
  rewrite (proj2 (Z.ltb_ge _ _)) by lia. eexists. split; [done|]. unfold dm_nBuckets in *. lia.
Qed.

Lemma bucket_of_ext (m m' : DistanceMap) (id : Z) : length (dm_aBuckets m) = length (dm_aBuckets m') -> bucket_of m id = bucket_of m' id.
Proof. intros E. unfold bucket_of, dm_nBuckets. by rewrite E. Qed.

Lemma bucket_find_update (l : list DistanceInfo) (id id' : Z) (d : f64) (p : Z) : bucket_find l id <> None ->
  di_pair <$> bucket_find (bucket_update l id d p) id' = if decide (id' = id) then Some (d, p) else di_pair <$> bucket_find l id'.
Proof.
  induction l as [|e l IH]; [done|]. cbn [bucket_find bucket_update].
  destruct (Z.eqb_spec (di_iNodeId e) id) as [E|Hne]; cbn [bucket_find di_iNodeId].
  - intros _. case_decide as Ei; [by rewrite Ei, Z.eqb_refl|]. by rewrite !(proj2 (Z.eqb_neq _ id')) by congruence.
  - intros Hf. destruct (Z.eqb_spec (di_iNodeId e) id') as [E|]; [|by apply IH]. by rewrite decide_False by congruence.
Qed.

Lemma distanceMapCreate_rep (n : Z) : 0 <= n < 2 ^ 27 -> exists m, distanceMapCreate n = Ok m /\ dm_rep m ∅.
Proof.
  intros Hn. unfold distanceMapCreate. rewrite (to_i32_id (_ * 8)) by (unfold in_i32; lia).
  rewrite (proj2 (Z.ltb_ge (n * 2 + 1) _)), (proj2 (Z.leb_gt _ (n * 2 + 1))), (proj2 (Z.leb_gt ((n * 2 + 1) * 8) _)), Z.eqb_refl by lia.
  cbn [orb negb]. eexists. split; [done|]. split; cbn [dm_aBuckets dm_nEntries].
  - unfold dm_nBuckets. cbn. rewrite length_replicate. lia.
  - done.
  - intros id b Hb. assert (E : aget [] (replicate (Z.to_nat (n * 2 + 1)) ([] : list DistanceInfo)) b = []).
    { unfold aget. destruct (_ !! b) as [l|] eqn:El; [|done]. by apply lookup_replicate in El as [-> _]. }
    by rewrite E.
  - done.
Qed.

Lemma distanceMapGet_rep (m : DistanceMap) (M : dmap) (id : Z) : dm_rep m M -> 0 <= id ->
  distanceMapGet m id = Ok (default DBL_MAX (fst <$> M !! id)).
Proof.
  intros Hm Hid. destruct (bucket_of_nonneg m id (dr_buckets _ _ Hm) Hid) as (b & Eb & _). unfold distanceMapGet. rewrite Eb. cbn [res_bind].
  rewrite <- (dr_find _ _ Hm id b Eb). by destruct (bucket_find _ id).
Qed.

Lemma distanceMapGetPredecessor_rep (m : DistanceMap) (M : dmap) (id : Z) : dm_rep m M -> 0 <= id ->
  distanceMapGetPredecessor m id = Ok (default (-1) (snd <$> M !! id)).
Proof.
  intros Hm Hid. destruct (bucket_of_nonneg m id (dr_buckets _ _ Hm) Hid) as (b & Eb & _). unfold distanceMapGetPredecessor. rewrite Eb. cbn [res_bind].
  rewrite <- (dr_find _ _ Hm id b Eb). by destruct (bucket_find _ id).
Qed.

(** One bucket changes: the others keep what they find. *)
Lemma dm_rep_insert (m : DistanceMap) (M : dmap) (id d p n : _) (b : nat) (l : list DistanceInfo) :
  dm_rep m M -> 0 <= id -> bucket_of m id = Ok b -> (b < length (dm_aBuckets m))%nat ->
  (forall id', di_pair <$> bucket_find l id'
     = if decide (id' = id) then Some (d, p) else di_pair <$> bucket_find (aget [] (dm_aBuckets m) b) id') ->
  n = Z.of_nat (size (<[id := (d, p)]> M)) ->
  dm_rep (MkDistanceMap (<[b := l]> (dm_aBuckets m)) n) (<[id := (d, p)]> M).
Proof.
  intros Hm Hid Eb Hb Hl ->. split; cbn [dm_aBuckets dm_nEntries].
  - unfold dm_nBuckets. cbn. rewrite length_insert. apply (dr_buckets _ _ Hm).
  - done.
  - intros id' b' Eb'. rewrite (bucket_of_ext _ m) in Eb' by (cbn; by rewrite length_insert). destruct (decide (b' = b)) as [->|Hne].
    + rewrite aget_insert_eq, Hl by done. case_decide as E; [subst id'; by rewrite lookup_insert_eq|].
      rewrite lookup_insert_ne by done. by apply (dr_find _ _ Hm).
    + rewrite aget_insert_ne by done. rewrite lookup_insert_ne by congruence. by apply (dr_find _ _ Hm).
  - intros id' H. destruct (decide (id' = id)) as [->|Hne]; [done|]. rewrite lookup_insert_ne in H by done. by apply (dr_neg _ _ Hm).
Qed.

Lemma distanceMapSet_rep (m : DistanceMap) (M : dmap) (id : Z) (d : f64) (p : Z) : dm_rep m M -> 0 <= id ->
  exists m', distanceMapSet m id d p = Ok m' /\ dm_rep m' (<[id := (d, p)]> M).
Proof.
  intros Hm Hid. destruct (bucket_of_nonneg m id (dr_buckets _ _ Hm) Hid) as (b & Eb & Hb). pose proof (dr_find _ _ Hm id b Eb) as Hf.
  unfold distanceMapSet. rewrite Eb. cbn [res_bind]. cbv zeta. destruct (bucket_find _ id) as [e|] eqn:Ef; cbn in Hf.
  - eexists. split; [done|]. eapply dm_rep_insert; try done.
    + intros id'. apply bucket_find_update. by rewrite Ef.
    + rewrite (dr_entries _ _ Hm). f_equal. symmetry. apply map_size_insert_Some. by exists (di_pair e).
  - eexists. split; [done|]. eapply dm_rep_insert; try done.
    + intros id'. cbn. case_decide as E; [by rewrite E, Z.eqb_refl|]. by rewrite (proj2 (Z.eqb_neq _ _)) by congruence.
    + rewrite (dr_entries _ _ Hm), map_size_insert_None by done. lia.
Qed.

(** ** Walks *)

(** A walk, the sum of its weights as the code adds them, and its nodes. *)
Inductive wwalk (out : Z -> list (Z * f64)) (s : Z) : Z -> f64 -> list Z -> Prop :=
| ww_nil : wwalk out s s (S754_zero false) [s]
| ww_step u v c w l : wwalk out s u c l -> (v, w) ∈ out u -> wwalk out s v (f64_add c w) (l ++ [v]).

(** A finite set of nodes that the edges do not leave, with weights that are
    not negative. *)
Record wgraph (out : Z -> list (Z * f64)) (V : list Z) : Prop := {
  wg_id : forall u, u ∈ V -> 0 <= u;
  wg_out : forall u v w, u ∈ V -> (v, w) ∈ out u -> v ∈ V /\ f64_good w
}.

Definition edge_count (out : Z -> list (Z * f64)) (V : list Z) : nat := sum_list_with (fun u => length (out u)) V.

Lemma wwalk_good (out : Z -> list (Z * f64)) (V : list Z) (s v : Z) (c : f64) (l : list Z) :
  wgraph out V -> s ∈ V -> wwalk out s v c l -> v ∈ V /\ f64_good c.
Proof.
  intros HV Hs Hw. induction Hw as [|u v c w l Hw [Hu Hc] He]; [split; [done|apply good_zero]|].
  destruct (wg_out _ _ HV u v w Hu He). split; [done|]. by apply f64_add_good.
Qed.

Lemma good_max : f64_good DBL_MAX.
Proof. by vm_compute. Qed.

Section Search.
Context (out : Z -> list (Z * f64)) (s t : Z) (V : list Z).
Context (HV : wgraph out V) (Hs : s ∈ V).

Abbreviation val := f64_val.
Abbreviation key x := (val (pq_rDistance x)).

(** The chain of predecessors of a node; all but the last node are in [S]. *)
Inductive trace (M : dmap) (S : list Z) : Z -> f64 -> list Z -> Prop :=
| tr_start : M !! s = Some (S754_zero false, -1) -> trace M S s (S754_zero false) [s]
| tr_step v p d w l : v <> s -> trace M S p d l -> p ∈ S -> (v, w) ∈ out p -> M !! v = Some (f64_add d w, p) ->
    trace M S v (f64_add d w) (l ++ [v]).

(** [S]: the nodes whose edges have been followed, but for the [rest] of those
    of [c], settled last at the distance [dc]. *)
Record dj_inv (M : dmap) (q : GraphPriorityQueue) (S : list Z) (c : Z) (dc : f64) (rest : list (Z * f64)) : Prop := {
  dj_start : M !! s = Some (S754_zero false, -1);
  dj_trace : forall v d p, M !! v = Some (d, p) -> exists l, trace M S v d l;
  dj_below : forall v d p, M !! v = Some (d, p) -> v ∈ V /\ f64_good d /\ val d < val DBL_MAX;
  dj_queue : forall x, x ∈ q -> f64_good (pq_rDistance x) /\
    exists d p, M !! pq_iNodeId x = Some (d, p) /\ (d = pq_rDistance x \/ val d < key x);
  dj_open : forall v d p, M !! v = Some (d, p) -> v ∉ S -> MkPQNode v d ∈ q;
  dj_settled : forall u, u ∈ S -> exists d p, M !! u = Some (d, p) /\
    forall x, x ∈ q -> val d <= key x /\ (pq_iNodeId x = u -> val d < key x);
  dj_relaxed : forall u v w d p, u ∈ S -> M !! u = Some (d, p) -> (v, w) ∈ out u ->
    (exists dv pv, M !! v = Some (dv, pv) /\ val dv <= val (f64_add d w)) \/ val DBL_MAX <= val (f64_add d w) \/
    (u = c /\ (v, w) ∈ rest);
  dj_nodup : NoDup ((fun x => (pq_iNodeId x, key x)) <$> q);
  dj_end : t ∉ S;
  dj_current : rest <> [] -> c ∈ S /\ (exists pc, M !! c = Some (dc, pc)) /\
    forall u d p, u ∈ S -> M !! u = Some (d, p) -> val d <= val dc
}.

Lemma trace_mono (M : dmap) (S S' : list Z) (v : Z) (d : f64) (l : list Z) : S ⊆ S' -> trace M S v d l -> trace M S' v d l.
Proof. intros Hsub Ht. induction Ht; econstructor; eauto. Qed.

Lemma trace_wwalk (M : dmap) (S : list Z) (v : Z) (d : f64) (l : list Z) : trace M S v d l -> wwalk out s v d l.
Proof. induction 1; econstructor; eauto. Qed.

(** A change of a node that is not settled changes no other chain. *)
Lemma trace_insert (M : dmap) (S : list Z) (u v : Z) (d : f64) (l : list Z) (e : f64 * Z) :
  trace M S v d l -> u ∉ S -> u <> v -> trace (<[u := e]> M) S v d l.
Proof.
  intros Ht Hu. induction Ht as [Hm|v p d w l Hv Ht IH Hp He Hm]; intros Hne.
  - constructor. by rewrite lookup_insert_ne.
  - apply tr_step with p; [done|apply IH; by intros ->|done|done|]. by rewrite lookup_insert_ne.
Qed.

Lemma dj_inv_Permutation (M : dmap) (q q' : GraphPriorityQueue) (S : list Z) (c : Z) (dc : f64) (rest : list (Z * f64)) :
  q ≡ₚ q' -> dj_inv M q S c dc rest -> dj_inv M q' S c dc rest.
Proof.
  intros Hp []. split; try done.
  - intros x Hx. apply dj_queue0. by rewrite Hp.
  - intros v d p Hm HS. rewrite <- Hp. eauto.
  - intros u Hu. destruct (dj_settled0 u Hu) as (d & p & Hm & Hx). exists d, p. split; [done|]. intros x Hin. apply Hx. by rewrite Hp.
  - by rewrite <- Hp.
Qed.

Lemma dj_init : dj_inv {[ s := (S754_zero false, -1) ]} [MkPQNode s (S754_zero false)] [] s (S754_zero false) [].
Proof.
  split.
  - apply lookup_singleton_eq.
  - intros v d p [<- [= <- <-]]%lookup_singleton_Some. exists [s]. constructor. apply lookup_singleton_eq.
  - intros v d p [<- [= <- <-]]%lookup_singleton_Some. split; [done|]. split; [apply good_zero|by vm_compute].
  - intros x ->%list_elem_of_singleton. split; [apply good_zero|]. exists (S754_zero false), (-1). cbn. split; [apply lookup_singleton_eq|by left].
  - intros v d p [<- [= <- <-]]%lookup_singleton_Some _. by left.
  - by intros u Hu%elem_of_nil.
  - by intros u v w d p Hu%elem_of_nil.
  - apply NoDup_singleton.
  - apply not_elem_of_nil.
  - done.
Qed.

(** The distance of a node, as the code reads it. *)
Definition dist_of (M : dmap) (v : Z) : f64 := default DBL_MAX (fst <$> M !! v).

Lemma dist_of_good (M : dmap) (q : GraphPriorityQueue) (S : list Z) (c v : Z) (dc : f64) (rest : list (Z * f64)) :
  dj_inv M q S c dc rest -> f64_good (dist_of M v).
Proof.
  intros Hi. unfold dist_of. destruct (M !! v) as [[d p]|] eqn:E; [by apply (dj_below _ _ _ _ _ _ Hi) in E as (_ & ? & _)|apply good_max].
Qed.

(** An edge that does not shorten the distance. *)
Lemma dj_skip (M : dmap) (q : GraphPriorityQueue) (S : list Z) (c v : Z) (dc w : f64) (rest : list (Z * f64)) :
  dj_inv M q S c dc ((v, w) :: rest) -> val (dist_of M v) <= val (f64_add dc w) -> dj_inv M q S c dc rest.
Proof.
  intros Hi Hle. destruct (dj_current _ _ _ _ _ _ Hi) as (Hc & (pc & Ec) & Hmax); [done|]. destruct Hi. split; try done.
  2: { intros _. by split; [|split; [exists pc|]]. }
  intros u v' w' d p Hu Hm He. destruct (dj_relaxed0 u v' w' d p Hu Hm He) as [?|[?|[-> [[= -> ->]|?]%elem_of_cons]]]; auto.
  rewrite Ec in Hm. injection Hm as <- <-. unfold dist_of in Hle. destruct (M !! v) as [[dv pv]|] eqn:Ev; cbn in Hle; [left|by right; left].
  by exists dv, pv.
Qed.

(** An edge that does: the node is not settled. *)
Lemma dj_update (M : dmap) (q : GraphPriorityQueue) (S : list Z) (c v : Z) (dc w : f64) (rest : list (Z * f64)) :
  dj_inv M q S c dc ((v, w) :: rest) -> (v, w) ∈ out c -> val (f64_add dc w) < val (dist_of M v) ->
  dj_inv (<[v := (f64_add dc w, c)]> M) (MkPQNode v (f64_add dc w) :: q) S c dc rest.
Proof.
  intros Hi He Hlt. destruct (dj_current _ _ _ _ _ _ Hi) as (Hc & (pc & Ec) & Hmax); [done|].
  destruct (dj_below _ _ _ _ _ _ Hi c dc pc Ec) as (HcV & Hdc & _). destruct (wg_out _ _ HV c v w HcV He) as [HvV Hw].
  pose proof (f64_add_good dc w Hdc Hw) as Hgood. pose proof (f64_add_grows dc w Hdc Hw) as Hgrow.
  assert (Hdec : forall d p, M !! v = Some (d, p) -> val (f64_add dc w) < val d).
  { intros d p E. unfold dist_of in Hlt. by rewrite E in Hlt. }
  assert (Hmx : val (f64_add dc w) < val DBL_MAX).
  { unfold dist_of in Hlt. destruct (M !! v) as [[d p]|] eqn:E; cbn in Hlt; [|done].
    destruct (dj_below _ _ _ _ _ _ Hi v d p E) as (_ & _ & ?). lia. }
  assert (HvS : v ∉ S).
  { intros Hv. destruct (dj_settled _ _ _ _ _ _ Hi v Hv) as (d & p & E & _). specialize (Hdec d p E). specialize (Hmax v d p Hv E). lia. }
  assert (Hvs : v <> s).
  { intros ->. specialize (Hdec _ _ (dj_start _ _ _ _ _ _ Hi)). destruct (f64_val_range _ Hgood). change (val (S754_zero false)) with 0 in Hdec. lia. }
  assert (HSv : forall u, u ∈ S -> u <> v) by (intros u Hu ->; done).
  destruct Hi. set (nd := f64_add dc w) in *. split.
  - by rewrite lookup_insert_ne.
  - intros v' d p [[<- [= <- <-]]|[Hne E]]%lookup_insert_Some.
    + destruct (dj_trace0 c dc pc Ec) as [l Hl]. exists (l ++ [v]). apply tr_step with c; try done.
      * apply trace_insert; [done|done|]. intros ->. done.
      * apply lookup_insert_eq.
    + destruct (dj_trace0 v' d p E) as [l Hl]. exists l. by apply trace_insert.
  - intros v' d p [[<- [= <- <-]]|[Hne E]]%lookup_insert_Some; [done|eauto].
  - intros x [->|Hx]%elem_of_cons.
    + cbn. split; [done|]. exists nd, c. rewrite lookup_insert_eq. auto.
    + destruct (dj_queue0 x Hx) as (Hgx & d & p & E & Hd). split; [done|]. destruct (decide (pq_iNodeId x = v)) as [Ex|Hne].
      * exists nd, c. rewrite Ex, lookup_insert_eq. split; [done|]. right. rewrite Ex in E. specialize (Hdec d p E). destruct Hd as [<-|]; lia.
      * exists d, p. by rewrite lookup_insert_ne.
  - intros v' d p [[<- [= <- <-]]|[Hne E]]%lookup_insert_Some Hv'; [by left|]. right. eauto.
  - intros u Hu. destruct (dj_settled0 u Hu) as (d & p & E & Hx). exists d, p. rewrite lookup_insert_ne by (by apply not_eq_sym, HSv).
    split; [done|]. intros x [->|Hin]%elem_of_cons; [|by apply Hx]. cbn. specialize (Hmax u d p Hu E). split; [lia|].
    intros <-. by destruct (HSv v Hu).
  - intros u v' w' d p Hu [[-> _]|[_ E]]%lookup_insert_Some He'; [by destruct (HSv u Hu)|].
    destruct (decide (v' = v)) as [->|Hne].
    + rewrite lookup_insert_eq. destruct (dj_relaxed0 u v w' d p Hu E He') as [(dv & pv & Ev & Hle)|[?|[-> [[= ->]|?]%elem_of_cons]]]; auto.
      * left. exists nd, c. split; [done|]. specialize (Hdec dv pv Ev). lia.
      * rewrite Ec in E. injection E as <- <-. left. by exists nd, c.
    + rewrite lookup_insert_ne by done. destruct (dj_relaxed0 u v' w' d p Hu E He') as [?|[?|[-> [[= -> ->]|?]%elem_of_cons]]]; auto. done.
  - cbn. constructor; [|done]. intros (x & [= Ev Ek] & Hx)%list_elem_of_fmap. destruct (dj_queue0 x Hx) as (_ & d & p & E & Hd).
    rewrite <- Ev in E. specialize (Hdec d p E). destruct Hd as [->|]; lia.
  - done.
  - intros Hr. split; [done|]. rewrite lookup_insert_ne by (by apply not_eq_sym, HSv). split; [by exists pc|].
    intros u d p Hu E. rewrite lookup_insert_ne in E by (by apply not_eq_sym, HSv). eauto.
Qed.

(** An entry that is out of date. *)
Lemma dj_stale (M : dmap) (x : PQNode) (q : GraphPriorityQueue) (S : list Z) (c : Z) (dc : f64) :
  dj_inv M (x :: q) S c dc [] -> val (dist_of M (pq_iNodeId x)) < key x -> dj_inv M q S c dc [].
Proof.
  intros [] Hlt. split; try done.
  - intros y Hy. apply dj_queue0. by right.
  - intros v d p E Hv. specialize (dj_open0 v d p E Hv) as [<-|?]%elem_of_cons; [|done]. cbn in Hlt. unfold dist_of in Hlt.
    rewrite E in Hlt. cbn in Hlt. lia.
  - intros u Hu. destruct (dj_settled0 u Hu) as (d & p & E & Hx). exists d, p. split; [done|]. intros y Hy. apply Hx. by right.
  - cbn in dj_nodup0. by apply NoDup_cons_1_2 in dj_nodup0.
Qed.

(** The least entry is the distance of its node, which is not settled: it is now. *)
Lemma dj_pop (M : dmap) (x : PQNode) (q : GraphPriorityQueue) (S : list Z) (c : Z) (dc : f64) :
  dj_inv M (x :: q) S c dc [] -> (forall y, y ∈ x :: q -> key x <= key y) -> key x <= val (dist_of M (pq_iNodeId x)) ->
  pq_iNodeId x <> t ->
  (pq_iNodeId x ∉ S) /\ dj_inv M q (pq_iNodeId x :: S) (pq_iNodeId x) (pq_rDistance x) (out (pq_iNodeId x)).
Proof.
  intros Hi Hmin Hle Ht. destruct (dj_queue _ _ _ _ _ _ Hi x) as (Hgx & d & p & E & Hd); [by left|].
  unfold dist_of in Hle. rewrite E in Hle. cbn in Hle. assert (d = pq_rDistance x) as -> by (destruct Hd; [done|lia]). clear Hd Hle.
  destruct x as [u d]. cbn in *.
  assert (Hu : u ∉ S).
  { intros Hu. destruct (dj_settled _ _ _ _ _ _ Hi u Hu) as (d' & p' & E' & Hx). rewrite E in E'. injection E' as <- <-.
    destruct (Hx (MkPQNode u d)) as [_ Hx']; [by left|]. cbn in Hx'. specialize (Hx' eq_refl). lia. }
  assert (Hlow : forall u' d' p', u' ∈ S -> M !! u' = Some (d', p') -> val d' <= val d).
  { intros u' d' p' Hu' E'. destruct (dj_settled _ _ _ _ _ _ Hi u' Hu') as (d2 & p2 & E2 & Hx). rewrite E' in E2. injection E2 as <- <-.
    destruct (Hx (MkPQNode u d)) as [H _]; [by left|]. done. }
  split; [done|]. destruct Hi. split; try done.
  - intros v d' p' E'. destruct (dj_trace0 v d' p' E') as [l Hl]. exists l. eapply trace_mono; [|done]. set_solver.
  - intros y Hy. apply dj_queue0. by right.
  - intros v d' p' E' Hv. apply not_elem_of_cons in Hv as [Hne Hv]. specialize (dj_open0 v d' p' E' Hv) as [[= -> ->]|?]%elem_of_cons; done.
  - intros u' [->|Hu']%elem_of_cons.
    + exists d, p. split; [done|]. intros y Hy. assert (val d <= key y) by (apply Hmin; by right). split; [done|]. intros Ey.
      destruct (decide (val d = key y)) as [Ek|]; [|lia]. exfalso. cbn in dj_nodup0. apply NoDup_cons_1_1 in dj_nodup0 as Hn. apply Hn.
      apply list_elem_of_fmap. exists y. by rewrite Ey, Ek.
    + destruct (dj_settled0 u' Hu') as (d' & p' & E' & Hx). exists d', p'. split; [done|]. intros y Hy. apply Hx. by right.
  - intros u' v w d' p' [->|Hu']%elem_of_cons E' He; [by right; right|].
    destruct (dj_relaxed0 u' v w d' p' Hu' E' He) as [?|[?|[_ []%elem_of_nil]]]; auto.
  - cbn in dj_nodup0. by apply NoDup_cons_1_2 in dj_nodup0.
  - apply not_elem_of_cons. by split.
  - intros _. split; [by left|]. split; [by exists p|]. intros u' d' p' [->|Hu']%elem_of_cons E'; [|by eapply Hlow].
    rewrite E in E'. by injection E' as <- <-.
Qed.

(** A walk leads to a node at most as far, or through the queue. *)
Lemma dj_frontier (M : dmap) (q : GraphPriorityQueue) (S : list Z) (c v : Z) (dc d : f64) (l : list Z) :
  dj_inv M q S c dc [] -> wwalk out s v d l -> val d < val DBL_MAX ->
  (exists dv p, M !! v = Some (dv, p) /\ val dv <= val d) \/ (exists x, x ∈ q /\ key x <= val d).
Proof.
  intros Hi Hw. induction Hw as [|u v d w l Hw IH He]; intros Hlt.
  - left. exists (S754_zero false), (-1). split; [apply (dj_start _ _ _ _ _ _ Hi)|lia].
  - destruct (wwalk_good _ _ _ _ _ _ HV Hs Hw) as [Hu Hd]. destruct (wg_out _ _ HV u v w Hu He) as [_ Hwg].
    pose proof (f64_add_grows d w Hd Hwg) as Hgrow. destruct IH as [(du & p & E & Hle)|(x & Hx & Hle)]; [lia| |right; exists x; split; [done|lia]].
    destruct (decide (u ∈ S)) as [HuS|HuS].
    + destruct (dj_below _ _ _ _ _ _ Hi u du p E) as (_ & Hdu & _). pose proof (f64_add_mono du d w Hdu Hd Hwg Hle) as Hmono.
      destruct (dj_relaxed _ _ _ _ _ _ Hi u v w du p HuS E He) as [(dv & pv & Ev & Hv)|[?|[_ []%elem_of_nil]]]; [|lia].
      left. exists dv, pv. split; [done|lia].
    + right. exists (MkPQNode u du). split; [by apply (dj_open _ _ _ _ _ _ Hi u du p)|]. cbn. lia.
Qed.

(** *** The rows of one statement *)

Definition pq_ok (q : GraphPriorityQueue) : Prop := pq_heap q /\ pq_good q.

Lemma dijkstra_rows_ok (c : Z) (dc : f64) (S : list Z) (rest : list (Z * f64)) (m : DistanceMap) (M : dmap) (q : GraphPriorityQueue) :
  dm_rep m M -> pq_ok q -> dj_inv M q S c dc rest -> c ∈ V -> rest ⊆ out c -> f64_good dc ->
  Z.of_nat (length q + length rest) <= 2 ^ 26 ->
  exists m' M' q', dijkstra_rows c dc rest (m, q) = Ok (m', q') /\ dm_rep m' M' /\ pq_ok q' /\ dj_inv M' q' S c dc [] /\
    (length q' <= length q + length rest)%nat.
Proof.
  revert m M q. induction rest as [|[v w] rest IH]; intros m M q Hm Hq Hi Hc Hout Hdc Hlen.
  { exists m, M, q. cbn. do 4 (split; [done|]). lia. }
  destruct Hq as [Hh Hg].
  assert (He : (v, w) ∈ out c) by (apply Hout; by left). destruct (wg_out _ _ HV c v w Hc He) as [HvV Hw].
  assert (Hv0 : 0 <= v) by (by apply (wg_id _ _ HV)). pose proof (f64_add_good dc w Hdc Hw) as Hnd.
  assert (Hsub : rest ⊆ out c) by (intros e ?; apply Hout; by right). cbn [length] in Hlen.
  cbn [dijkstra_rows]. unfold dijkstra_row. cbn [fst snd]. rewrite (distanceMapGet_rep m M v Hm Hv0). cbn [res_bind]. fold (dist_of M v).
  rewrite f64_ltb_val by (done || by eapply dist_of_good). destruct (Z.ltb_spec (f64_val (f64_add dc w)) (f64_val (dist_of M v))) as [Hlt|Hge].
  - destruct (distanceMapSet_rep m M v (f64_add dc w) c Hm Hv0) as (m1 & -> & Hm1). cbn [res_bind].
    destruct (pq_insert_spec q v (f64_add dc w) Hh Hg Hnd) as (q1 & -> & Hp & Hh1); [lia|]. cbn [res_bind].
    assert (Hl1 : length q1 = Datatypes.S (length q)) by (by rewrite Hp).
    destruct (IH m1 (<[v := (f64_add dc w, c)]> M) q1) as (m' & M' & q' & H1 & H2 & H3 & H4 & H5); try done.
    + split; [done|]. eapply pq_good_Permutation; [symmetry; exact Hp|]. by constructor.
    + eapply dj_inv_Permutation; [symmetry; exact Hp|]. by apply dj_update.
    + lia.
    + exists m', M', q'. cbn [length]. do 4 (split; [done|]). lia.
  - cbn [res_bind]. destruct (IH m M q) as (m' & M' & q' & H1 & H2 & H3 & H4 & H5); try done.
    + by apply (dj_skip M q S c v dc w).
    + lia.
    + exists m', M', q'. cbn [length]. do 4 (split; [done|]). lia.
Qed.

(** *** The loop *)

(** What the search has found when it ends. *)
Definition dj_done (M : dmap) (rc : Z) : Prop :=
  (exists d p S l, rc = SQLITE_OK /\ M !! t = Some (d, p) /\ trace M S t d l /\ f64_good d /\ val d < val DBL_MAX /\
     forall c' l', wwalk out s t c' l' -> val d <= val c') \/
  (M !! t = None /\ forall c' l', wwalk out s t c' l' -> val DBL_MAX <= val c').

Lemma dj_done_empty (M : dmap) (S : list Z) (c : Z) (dc : f64) (rc : Z) : dj_inv M [] S c dc [] -> dj_done M rc.
Proof.
  intros Hi. right. assert (Hn : M !! t = None).
  { destruct (M !! t) as [[d p]|] eqn:E; [|done]. by destruct (not_elem_of_nil (MkPQNode t d) (dj_open _ _ _ _ _ _ Hi t d p E (dj_end _ _ _ _ _ _ Hi))). }
  split; [done|]. intros c' l' Hw. destruct (Z.le_gt_cases (val DBL_MAX) (val c')) as [|Hlt]; [done|].
  destruct (dj_frontier _ _ _ _ _ _ _ _ Hi Hw Hlt) as [(d & p & E & _)|(x & Hx%elem_of_nil & _)]; [congruence|done].
Qed.

Lemma dj_done_found (M : dmap) (x : PQNode) (q : GraphPriorityQueue) (S : list Z) (c : Z) (dc : f64) :
  dj_inv M (x :: q) S c dc [] -> (forall y, y ∈ x :: q -> key x <= key y) -> pq_iNodeId x = t -> dj_done M SQLITE_OK.
Proof.
  intros Hi Hmin Ex. destruct (dj_queue _ _ _ _ _ _ Hi x) as (Hgx & d & p & E & Hd); [by left|]. rewrite Ex in E.
  destruct (dj_trace _ _ _ _ _ _ Hi t d p E) as [l Hl]. destruct (dj_below _ _ _ _ _ _ Hi t d p E) as (_ & Hg & Hlt).
  left. exists d, p, S, l. do 5 (split; [done|]). intros c' l' Hw.
  destruct (Z.le_gt_cases (val DBL_MAX) (val c')) as [|Hc]; [lia|].
  assert (val d <= key x) by (destruct Hd as [<-|]; lia).
  destruct (dj_frontier _ _ _ _ _ _ _ _ Hi Hw Hc) as [(d' & p' & E' & Hle)|(y & Hy & Hle)].
  - rewrite E in E'. by injection E' as <- <-.
  - specialize (Hmin y Hy). lia.
Qed.

(** The edges of the nodes that are not settled. *)
Definition open_edges (S : list Z) : nat := edge_count out (filter (fun u => u ∉ S) V).

Lemma open_edges_cons (S : list Z) (u : Z) : u ∈ V -> u ∉ S -> (open_edges (u :: S) + length (out u) <= open_edges S)%nat.
Proof.
  unfold open_edges, edge_count. clear HV Hs. induction V as [|x L IH]; intros Hu HuS; [by apply elem_of_nil in Hu|]. rewrite !filter_cons.
  assert (Hall : (sum_list_with (fun u => length (out u)) (filter (fun x => x ∉ u :: S) L)
                  <= sum_list_with (fun u => length (out u)) (filter (fun x => x ∉ S) L))%nat).
  { clear. induction L as [|y L IH]; [done|]. rewrite !filter_cons. destruct (decide (y ∉ u :: S)) as [H|H]; destruct (decide (y ∉ S)) as [H'|H'];
      cbn; try lia. destruct H'. set_solver. }
  apply elem_of_cons in Hu as [->|Hu].
  - rewrite decide_False by set_solver. rewrite decide_True by done. cbn. lia.
  - specialize (IH Hu HuS). destruct (decide (x ∉ u :: S)) as [H|H]; destruct (decide (x ∉ S)) as [H'|H']; cbn; try lia.
    destruct H'. set_solver.
Qed.

Lemma open_edges_nil : open_edges [] = edge_count out V.
Proof.
  unfold open_edges. f_equal. clear. induction V as [|x L IH]; [done|].
  rewrite filter_cons, decide_True by apply not_elem_of_nil. by rewrite IH.
Qed.

Lemma dijkstra_loop_ok (sel : Z -> option (list (Z * f64))) (fuel : nat) (rc : Z) (S : list Z) (c : Z) (dc : f64)
    (m : DistanceMap) (M : dmap) (q : GraphPriorityQueue) :
  (forall u, out u = default [] (sel u)) -> dm_rep m M -> pq_ok q -> dj_inv M q S c dc [] ->
  (length q + open_edges S <= fuel)%nat -> Z.of_nat (length q + open_edges S) <= 2 ^ 26 ->
  exists rc' m' M', dijkstra_loop fuel sel t rc (m, q) = Some (Ok (rc', m')) /\ dm_rep m' M' /\ dj_done M' rc'.
Proof.
  intros Hsel. revert rc S c dc m M q. induction fuel as [|fuel IH]; intros rc S c dc m M q Hm Hq Hi Hf Hlen;
    (destruct (decide (q = [])) as [->|Hne]; [exists rc, m, M; split; [done|]; split; [done|]; by eapply dj_done_empty|]).
  { destruct q; [done|]. cbn in Hf. lia. }
  destruct Hq as [Hh Hg]. destruct (pq_extract_spec q Hh Hg Hne) as (x & q1 & Ex & Hp & Hh1 & Hmin).
  assert (Hl : length q = Datatypes.S (length q1)) by (by rewrite Hp).
  assert (Hq1 : pq_ok q1) by (split; [done|]; apply (pq_good_Permutation _ _ Hp), Forall_cons_1 in Hg; apply Hg).
  apply (dj_inv_Permutation _ _ _ _ _ _ _ Hp) in Hi. setoid_rewrite Hp in Hmin.
  cbn [dijkstra_loop fst snd]. unfold graphPriorityQueueIsEmpty. rewrite Hl. cbn [Nat.eqb]. rewrite Ex. clear Ex.
  destruct (dj_queue _ _ _ _ _ _ Hi x) as (Hgx & d & p & E & _); [by left|]. destruct (dj_below _ _ _ _ _ _ Hi _ _ _ E) as (HuV & _ & _).
  destruct x as [u du]. cbn [pq_iNodeId pq_rDistance] in *. pose proof (wg_id _ _ HV u HuV) as Hu0.
  destruct ((0 <=? t) && (u =? t)) eqn:Et.
  { apply andb_true_iff in Et as [_ ->%Z.eqb_eq]. exists SQLITE_OK, m, M. split; [done|]. split; [done|]. by eapply dj_done_found. }
  assert (Hut : u <> t) by (intros ->; rewrite Z.eqb_refl, andb_true_r, Z.leb_gt in Et; lia).
  rewrite (distanceMapGet_rep m M u Hm Hu0). fold (dist_of M u). rewrite f64_ltb_val by (done || by eapply dist_of_good).
  destruct (Z.ltb_spec (val (dist_of M u)) (val du)) as [Hst|Hge].
  { eapply IH; [done|done|by eapply dj_stale|lia|lia]. }
  destruct (dj_pop M (MkPQNode u du) q1 S c dc Hi Hmin Hge Hut) as [HuS Hi1]. cbn [pq_iNodeId pq_rDistance] in *.
  pose proof (open_edges_cons S u HuV HuS) as Hoe. rewrite Hsel in Hi1, Hoe. destruct (sel u) as [rows|] eqn:Eu; cbn in Hi1, Hoe.
  - destruct (dijkstra_rows_ok u du (u :: S) rows m M q1) as (m' & M' & q' & -> & Hm' & Hq' & Hi' & Hl'); try done; [|lia|].
    + rewrite Hsel, Eu. done.
    + eapply IH; [done|done|done|lia|lia].
  - eapply IH; [done|done|done|lia|lia].
Qed.

(** *** The path *)

Lemma trace_unique (M : dmap) (S : list Z) (v : Z) (d d' : f64) (l l' : list Z) : trace M S v d l -> trace M S v d' l' -> l = l'.
Proof.
  intros Ht. revert d' l'. induction Ht as [Hm|v p d w l Hv Ht IH Hp He Hm]; intros d' l' Ht'; inversion Ht'; subst; try done.
  match goal with H : M !! v = Some _, H' : M !! v = Some _ |- _ => rewrite H in H'; injection H' as ?? end. subst.
  f_equal. eapply IH. eassumption.
Qed.

Lemma trace_prefix (M : dmap) (S : list Z) (v x : Z) (d : f64) (l : list Z) : trace M S v d l -> x ∈ l ->
  exists d' l', trace M S x d' l' /\ (length l' <= length l)%nat.
Proof.
  intros Ht. induction Ht as [Hm|v p d w l Hv Ht IH Hp He Hm]; intros Hx.
  - apply list_elem_of_singleton in Hx as ->. exists (S754_zero false), [s]. split; [by constructor|done].
  - apply elem_of_app in Hx as [Hx| ->%list_elem_of_singleton].
    + destruct (IH Hx) as (d' & l' & H1 & H2). exists d', l'. split; [done|]. rewrite length_app. lia.
    + exists (f64_add d w), (l ++ [v]). split; [by apply tr_step with p|done].
Qed.

Lemma trace_NoDup (M : dmap) (S : list Z) (v : Z) (d : f64) (l : list Z) : trace M S v d l -> NoDup l.
Proof.
  intros Ht. induction Ht as [Hm|v p d w l Hv Ht IH Hp He Hm]; [apply NoDup_singleton|].
  apply list.NoDup_app. split; [done|]. split; [|apply NoDup_singleton]. intros x Hx ->%list_elem_of_singleton.
  destruct (trace_prefix _ _ _ _ _ _ Ht Hx) as (d' & l' & H1 & H2).
  assert (E : l' = l ++ [v]) by (eapply trace_unique; [exact H1|by apply tr_step with p]). rewrite E, length_app in H2. cbn in H2. lia.
Qed.

Lemma trace_length (M : dmap) (S : list Z) (v : Z) (d : f64) (l : list Z) : trace M S v d l -> (length l <= size M)%nat.
Proof.
  intros Ht. rewrite <- size_dom. transitivity (size (list_to_set l : gset Z)).
  - rewrite size_list_to_set; [done|by eapply trace_NoDup].
  - apply subseteq_size. intros x Hx%elem_of_list_to_set. destruct (trace_prefix _ _ _ _ _ _ Ht Hx) as (d' & l' & H & _).
    apply elem_of_dom. destruct H; eauto.
Qed.

Lemma trace_last (M : dmap) (S : list Z) (v : Z) (d : f64) (l : list Z) : trace M S v d l -> exists p, M !! v = Some (d, p).
Proof. destruct 1; eauto. Qed.

Lemma path_ok (m : DistanceMap) (M : dmap) (S : list Z) (v : Z) (d : f64) (l acc : list Z) (fuel : nat) :
  dm_rep m M -> trace M S v d l -> (length l <= fuel)%nat ->
  path_count fuel m s v = Some (Ok (length l)) /\ path_fill (length l) m s v acc = Ok (l ++ acc).
Proof.
  intros Hm Ht. revert fuel acc. induction Ht as [Hs0|v p d w l Hv Ht IH Hp He Hv0]; intros fuel acc Hf.
  - pose proof (wg_id _ _ HV s Hs). destruct fuel as [|fuel]; cbn; rewrite Z.eqb_refl, (proj2 (Z.eqb_neq s (-1))) by lia; done.
  - assert (0 <= v) by (apply (dr_neg _ _ Hm); by rewrite Hv0). rewrite length_app in *. cbn [length] in *.
    destruct fuel as [|fuel]; [lia|]. destruct (IH fuel (v :: acc) ltac:(lia)) as [H1 H2].
    assert (Ep : distanceMapGetPredecessor m v = Ok p) by (rewrite (distanceMapGetPredecessor_rep m M v Hm) by done; by rewrite Hv0).
    rewrite Nat.add_1_r. cbn [path_count path_fill]. rewrite (proj2 (Z.eqb_neq v (-1))), (proj2 (Z.eqb_neq v s)), Ep, H1 by (lia || done).
    split; [done|]. cbn [res_bind]. rewrite H2. by rewrite <- app_assoc.
Qed.

(** What the search promises: a walk that no other undercuts, or that none has
    a sum below [DBL_MAX]. *)
Definition dj_promise (r : option (res (Z * option bytes * f64))) : Prop :=
  (exists l d, r = Some (Ok (SQLITE_OK, Some (path_text true l), d)) /\ wwalk out s t d l /\ f32_ltb d DBL_MAX = true /\
     forall d' l', wwalk out s t d' l' -> f32_ltb d' d = false) \/
  (r = Some (Ok (SQLITE_NOTFOUND, None, DBL_MAX)) /\ forall d' l', wwalk out s t d' l' -> f32_ltb d' DBL_MAX = false).

Lemma dijkstra_result_ok (m : DistanceMap) (M : dmap) (rc : Z) : 0 <= t -> dm_rep m M -> dj_done M rc -> dj_promise (dijkstra_result m s t rc).
Proof.
  intros Ht Hm Hd. unfold dijkstra_result. rewrite (proj2 (Z.ltb_ge t 0)), (distanceMapGet_rep m M t Hm Ht) by done.
  assert (Hge : forall x d' l', f64_good x -> wwalk out s t d' l' -> val x <= val d' -> f32_ltb d' x = false).
  { intros x d' l' Hx Hw Hle. destruct (wwalk_good _ _ _ _ _ _ HV Hs Hw) as [_ Hd']. rewrite f64_ltb_val by done. by apply Z.ltb_ge. }
  destruct Hd as [(d & p & S & l & -> & E & Htr & Hg & Hlt & Hmin)|[E Hmin]]; rewrite E; cbn [fmap option_fmap option_map from_option fst id].
  - assert (El : f32_ltb d DBL_MAX = true) by (rewrite f64_ltb_val by (done || apply good_max); by apply Z.ltb_lt). rewrite El.
    pose proof (trace_length _ _ _ _ _ Htr). pose proof (dr_entries _ _ Hm).
    destruct (path_ok m M S t d l [] (Z.to_nat (dm_nEntries m)) Hm Htr ltac:(lia)) as [-> ->]. rewrite app_nil_r.
    left. exists l, d. split; [done|]. split; [by eapply trace_wwalk|]. split; [done|]. intros d' l' Hw. eapply Hge; eauto.
  - rewrite f32_ltb_irrefl. right. split; [done|]. intros d' l' Hw. eapply Hge; [apply good_max|eauto|eauto].
Qed.

End Search.

(** C4: on a finite graph whose node ids and weights are not negative, with at
    most [2 ^ 26 - 1] edges, [graphDijkstra] ends after at most one extraction per
    edge and one more: it returns the path and the length of a walk from the start to the end such
    that no walk has a smaller sum, as [double]s are added and compared, or
    reports that no walk has a sum below [DBL_MAX]; also if some statements cannot
    be prepared, whose nodes then have no edges. *)
Theorem graphDijkstra_correct (sel : Z -> option (list (Z * f64))) (V : list Z) (fuel : nat) (nNodes iStartId iEndId : Z) :
  let out u := default [] (sel u) in
  wgraph out V -> iStartId ∈ V -> 0 <= nNodes < 2 ^ 27 -> 0 <= iEndId ->
  (1 + edge_count out V <= fuel)%nat -> Z.of_nat (1 + edge_count out V) <= 2 ^ 26 ->
  dj_promise out iStartId iEndId (graphDijkstra fuel sel nNodes iStartId iEndId).
Proof.
  intros out HV Hs Hn Ht Hf Hlen. pose proof (wg_id _ _ HV _ Hs) as Hs0. unfold graphDijkstra.
  destruct (distanceMapCreate_rep nNodes Hn) as (m0 & -> & Hm0). cbn [res_bind].
  destruct (distanceMapSet_rep m0 ∅ iStartId (S754_zero false) (-1) Hm0 Hs0) as (m & -> & Hm). cbn [res_bind].
  destruct (pq_insert_spec [] iStartId (S754_zero false)) as (q & Eq & Hp & Hh); [intros j Hj; cbn in Hj; lia|constructor|apply good_zero|cbn; lia|].
  unfold graphPriorityQueueCreate. rewrite Eq. cbn [res_bind]. rewrite insert_empty in Hm.
  assert (Hl : length q = 1%nat) by (by rewrite Hp).
  pose proof (open_edges_nil out V) as Ho.
  destruct (dijkstra_loop_ok out iStartId iEndId V HV Hs sel fuel SQLITE_OK [] iStartId (S754_zero false) m
    {[ iStartId := (S754_zero false, -1) ]} q) as (rc & m' & M' & -> & Hm' & Hd); try done; try lia.
  - split; [done|]. eapply pq_good_Permutation; [symmetry; exact Hp|]. constructor; [apply good_zero|constructor].
  - eapply dj_inv_Permutation; [symmetry; exact Hp|]. by apply dj_init.
  - by eapply dijkstra_result_ok.
Qed.

(** ** Examples *)

(** From 1 to 3 of weight 4, or over 2 of weight 1 and 2. *)
Definition demo_edges (id : Z) : option (list (Z * f64)) :=
  if id =? 1 then Some [(3, f64_of_Z 4); (2, f64_of_Z 1)] else if id =? 2 then Some [(3, f64_of_Z 2)] else Some [].

(** The hypothesis on the graph can be evaluated. *)
Definition wgraph_check (out : Z -> list (Z * f64)) (V : list Z) : bool :=
  forallb (fun u => (0 <=? u) && forallb (fun e => existsb (Z.eqb e.1) V && good 53 1024 e.2) (out u)) V.

Lemma wgraph_check_ok (out : Z -> list (Z * f64)) (V : list Z) : wgraph_check out V = true -> wgraph out V.
Proof.
  unfold wgraph_check. rewrite forallb_forall. intros H. split.
  - intros u Hu%list_elem_of_In. specialize (H u Hu). apply andb_true_iff in H as [H _]. by apply Z.leb_le.
  - intros u v w Hu%list_elem_of_In He%list_elem_of_In. specialize (H u Hu). apply andb_true_iff in H as [_ H]. rewrite forallb_forall in H.
    specialize (H (v, w) He). apply andb_true_iff in H as [Hv Hw]. split; [|done].
    apply existsb_exists in Hv as (x & Hx & <-%Z.eqb_eq). by apply list_elem_of_In.
Qed.

Lemma graphDijkstra_correct_witness :
  dj_promise (fun u => default [] (demo_edges u)) 1 3 (graphDijkstra 4 demo_edges 3 1 3) /\
  graphDijkstra 4 demo_edges 3 1 3 = Some (Ok (SQLITE_OK, Some (path_text true [1; 2; 3]), f64_of_Z 3)).
Proof.
  split; [|by vm_compute].
  apply (graphDijkstra_correct demo_edges [1; 2; 3] 4 3 1 3); [by apply wgraph_check_ok|by left|lia|lia|by_compute|by_compute].
Defined.

(** A node with a negative id has no bucket. *)
Lemma dijkstra_negative_id : graphDijkstra 4 demo_edges 3 (-1) 3 = Some Undef.
Proof. by vm_compute. Qed.

(** Weights may be negative: the end is settled too early. *)
Lemma dijkstra_negative_weight :
  let sel id := if id =? 1 then Some [(2, f64_of_Z 1); (3, f64_of_Z 2)] else if id =? 3 then Some [(2, f64_of_Z (-2))] else Some [] in
  graphDijkstra 9 sel 3 1 2 = Some (Ok (SQLITE_OK, Some (path_text true [1; 2]), f64_of_Z 1)) /\
  wwalk (fun u => default [] (sel u)) 1 2 (S754_zero false) [1; 3; 2].
Proof.
  cbv zeta. split; [by vm_compute|].
  apply (ww_step _ _ 3 2 (f64_of_Z 2) (f64_of_Z (-2)) [1; 3]); [apply (ww_step _ _ 1 3 (S754_zero false) (f64_of_Z 2) [1]); [constructor|]|].
  - right. by left.
  - by left.
Qed.
