(* ===== verification/GraphMeasures.v ===== *)
(** * Degrees, density, connectivity and PageRank (graph-algo.c)

    The statements are their rows: the ids of the nodes, the pairs
    [from_id], [to_id] of the edges; [None] if a statement cannot be prepared.
    The format [%.6f] is a parameter.  Shown: the degrees add up to the number of
    edges, [graphIsConnected] compares the nodes reachable from the first node
    with all, [graphPageRank] iterates the textbook recurrence until
    it changes by less than the bound. *)

From Stdlib Require Import String ZArith Lia Floats.SpecFloat.
From stdpp Require Import base option list numbers gmap sorting.
From S2P Require Import Prelude Float32 Codec Shadow DefParser Values Scalar Graph GraphSearch.

Local Open Scope Z_scope.

(** ** Degrees *)

(** [SELECT count( * )]: 0 if the statement cannot be prepared. *)
Definition count_rows {A : Type} (rows : option (list A)) : Z :=
  match rows with Some l => to_i32 (Z.of_nat (length l)) | None => 0 end.

Definition graphInDegree (edges : option (list (Z * Z))) (iNodeId : Z) : Z :=
  count_rows (filter (fun e : Z * Z => e.2 = iNodeId) <$> edges).

Definition graphOutDegree (edges : option (list (Z * Z))) (iNodeId : Z) : Z :=
  count_rows (filter (fun e : Z * Z => e.1 = iNodeId) <$> edges).

(** The sum of two [int]s. *)
Definition int_result (z : Z) : res Z := if (- 2 ^ 31 <=? z) && (z <? 2 ^ 31) then Ok z else Undef.

Definition graphTotalDegree (edges : option (list (Z * Z))) (iNodeId : Z) : res Z :=
  int_result (graphInDegree edges iNodeId + graphOutDegree edges iNodeId).

Definition graphDegreeCentrality (nodes : option (list Z)) (edges : option (list (Z * Z))) (iNodeId : Z) (bDirected : bool) : res f64 :=
  let nNodes := count_rows nodes in
  if nNodes <=? 1 then Ok (S754_zero false)
  else if bDirected then
    res_bind (int_result (graphInDegree edges iNodeId + graphOutDegree edges iNodeId)) (fun nDegree =>
      Ok (f64_div (f64_of_Z nDegree) (f64_mul (f64_of_Z 2) (f64_of_Z (nNodes - 1)))))
  else Ok (f64_div (f64_of_Z (graphOutDegree edges iNodeId)) (f64_of_Z (nNodes - 1))).

(** The product of the numbers of nodes is an [int]. *)
Definition graphDensity (nodes : option (list Z)) (edges : option (list (Z * Z))) (bDirected : bool) : res f64 :=
  let nNodes := count_rows nodes in
  let nEdges := count_rows edges in
  if nNodes <=? 1 then Ok (S754_zero false)
  else
    res_bind (int_result (nNodes * (nNodes - 1))) (fun nPairs =>
      if bDirected then Ok (f64_div (f64_of_Z nEdges) (f64_of_Z nPairs))
      else Ok (f64_div (f64_mul (f64_of_Z 2) (f64_of_Z nEdges)) (f64_of_Z nPairs))).

(** ** Connectivity *)

(** The neighbours of a node, for the breadth-first search. *)
Definition edge_sel (edges : option (list (Z * Z))) (id : Z) : option (list Z) :=
  (fun l : list (Z * Z) => snd <$> filter (fun e : Z * Z => e.1 = id) l) <$> edges.

Definition graphShortestPathUnweighted (fuel : nat) (edges : option (list (Z * Z))) (iStartId iEndId : Z) : option (res (Z * bytes)) :=
  match graphBFS fuel (edge_sel edges) iStartId (-1) with
  | Some (Ok (rc, l)) => Some (Ok (rc, path_text (rc =? SQLITE_OK) l))
  | Some (Err rc) => Some (Err rc)
  | Some Undef => Some Undef
  | None => None
  end.

(** The visited nodes are counted by the commas of the text. *)
Definition graphIsConnected (fuel : nat) (nodes : option (list Z)) (edges : option (list (Z * Z))) : option (res bool) :=
  let nNodes := count_rows nodes in
  if nNodes <=? 1 then Some (Ok true)
  else
    let iStartId := match nodes with Some (id :: _) => id | _ => -1 end in
    if iStartId =? -1 then Some (Ok false)
    else
      match graphShortestPathUnweighted fuel edges iStartId (-1) with
      | Some (Ok (_, zPath)) =>
          let nCommas := Z.of_nat (length (filter (fun c => c = 44) zPath)) in
          let nVisited := if existsb (Z.eqb 91) zPath then nCommas + 1 else nCommas in
          Some (Ok (nVisited =? nNodes))
      | Some (Err rc) => Some (Err rc)
      | Some Undef => Some Undef
      | None => None
      end.

(** ** PageRank *)

(** An access to an array of [nNodes + 1] elements. *)
Definition pr_index (nNodes i : Z) : res nat := if (0 <=? i) && (i <=? nNodes) then Ok (Z.to_nat i) else Undef.

(** [SELECT from_id, count( * ) GROUP BY from_id]. *)
Definition group_counts (edges : list (Z * Z)) : list (Z * Z) :=
  (fun u => (u, Z.of_nat (length (filter (fun e : Z * Z => e.1 = u) edges)))) <$> remove_dups (fst <$> edges).

Fixpoint pr_out_degrees (nNodes : Z) (rows : list (Z * Z)) (aOutDegree : list Z) : res (list Z) :=
  match rows with
  | [] => Ok aOutDegree
  | (u, n) :: rows =>
      res_bind (pr_index nNodes (to_i32 u)) (fun i => pr_out_degrees nNodes rows (<[i := to_i32 n]> aOutDegree))
  end.

Fixpoint pr_edges (nNodes : Z) (rDamping : f64) (aOutDegree : list Z) (aPageRank : list f64) (rows : list (Z * Z)) (aNew : list f64)
    : res (list f64) :=
  match rows with
  | [] => Ok aNew
  | (from, to) :: rows =>
      res_bind (pr_index nNodes (to_i32 from)) (fun i =>
        let deg := aget 0 aOutDegree i in
        if 0 <? deg then
          res_bind (pr_index nNodes (to_i32 to)) (fun j =>
            let share := f64_div (f64_mul rDamping (aget (S754_zero false) aPageRank i)) (f64_of_Z deg) in
            pr_edges nNodes rDamping aOutDegree aPageRank rows (<[j := f64_add (aget (S754_zero false) aNew j) share]> aNew))
        else pr_edges nNodes rDamping aOutDegree aPageRank rows aNew)
  end.

(** The largest change. *)
Definition pr_max_diff (aNew aOld : list f64) : f64 :=
  foldl (fun rMaxDiff p => let rDiff := f64_abs (f64_sub p.1 p.2) in if f32_ltb rMaxDiff rDiff then rDiff else rMaxDiff)
    (S754_zero false) (zip aNew aOld).

Fixpoint pr_loop (nIter : nat) (nNodes : Z) (rDamping rEpsilon : f64) (edges : list (Z * Z)) (aOutDegree : list Z) (aPageRank : list f64)
    : res (list f64) :=
  match nIter with
  | O => Ok aPageRank
  | S nIter =>
      let base := f64_div (f64_sub (f64_of_Z 1) rDamping) (f64_of_Z nNodes) in
      res_bind (pr_edges nNodes rDamping aOutDegree aPageRank edges (replicate (Z.to_nat (nNodes + 1)) base)) (fun aNew =>
        if f32_ltb (pr_max_diff aNew aPageRank) rEpsilon then Ok aNew
        else pr_loop nIter nNodes rDamping rEpsilon edges aOutDegree aNew)
  end.

(** The text: an object with the rank of each node. *)
Fixpoint pr_text (fmt_6f : f64 -> bytes) (first : bool) (l : list (Z * f64)) : bytes :=
  match l with
  | [] => [125]
  | (id, r) :: l => (if first then [] else [44]) ++ [34] ++ fmt_d id ++ [34; 58] ++ fmt_6f r ++ pr_text fmt_6f false l
  end.

Fixpoint pr_results (nNodes : Z) (aPageRank : list f64) (ids : list Z) : res (list (Z * f64)) :=
  match ids with
  | [] => Ok []
  | id :: ids =>
      res_bind (pr_index nNodes (to_i32 id)) (fun i =>
      res_bind (pr_results nNodes aPageRank ids) (fun l => Ok ((to_i32 id, aget (S754_zero false) aPageRank i) :: l)))
  end.

(** The ranks, [None] for the empty object [{}].  A statement on the edges that
    cannot be prepared has no rows.  The sizes of the arrays are [int]s; an array
    too small for its elements is overrun. *)
Definition page_ranks (nodes : option (list Z)) (edges : option (list (Z * Z))) (rDamping : f64) (nMaxIter : Z) (rEpsilon : f64)
    : res (option (list (Z * f64))) :=
  let nNodes := count_rows nodes in
  if nNodes =? 0 then Ok None
  else if (to_i32 (8 * (nNodes + 1)) <=? 0) || (to_i32 (4 * (nNodes + 1)) <=? 0) then Err SQLITE_NOMEM
  else if negb (to_i32 (8 * (nNodes + 1)) =? 8 * (nNodes + 1)) then Undef
  else
    let rows := default [] edges in
    res_bind (pr_out_degrees nNodes (group_counts rows) (replicate (Z.to_nat (nNodes + 1)) 0)) (fun aOutDegree =>
    res_bind (pr_loop (Z.to_nat nMaxIter) nNodes rDamping rEpsilon rows aOutDegree
                (replicate (Z.to_nat (nNodes + 1)) (f64_div (f64_of_Z 1) (f64_of_Z nNodes)))) (fun aPageRank =>
    res_bind (pr_results nNodes aPageRank (default [] nodes)) (fun l => Ok (Some l)))).

Definition graphPageRank (fmt_6f : f64 -> bytes) (nodes : option (list Z)) (edges : option (list (Z * Z))) (rDamping : f64) (nMaxIter : Z)
    (rEpsilon : f64) : res bytes :=
  res_bind (page_ranks nodes edges rDamping nMaxIter rEpsilon) (fun r =>
    Ok match r with Some l => [123] ++ pr_text fmt_6f true l | None => [123; 125] end).

(** ** The degrees add up *)

Lemma length_filter_key {A : Type} (f : A -> Z) (l : list A) (x : A) (V : list Z) : NoDup V -> f x ∈ V ->
  sum_list_with (fun v => length (filter (fun e => f e = v) (x :: l))) V = S (sum_list_with (fun v => length (filter (fun e => f e = v) l)) V).
Proof.
  intros HV Hx. induction HV as [|v V Hv HV IH]; [by apply elem_of_nil in Hx|]. cbn [sum_list_with]. rewrite filter_cons.
  destruct (decide (f x = v)) as [E|Hne].
  - cbn [length]. assert (Es : forall W, v ∉ W -> sum_list_with (fun v => length (filter (fun e => f e = v) (x :: l))) W
      = sum_list_with (fun v => length (filter (fun e => f e = v) l)) W).
    { induction W as [|w W IHW]; intros Hw; [done|]. apply not_elem_of_cons in Hw as [Hvw Hw]. cbn [sum_list_with].
      rewrite filter_cons, decide_False by congruence. by rewrite IHW. }
    rewrite Es by done. lia.
  - apply elem_of_cons in Hx as [?|Hx]; [done|]. rewrite IH by done. lia.
Qed.

Lemma count_by_key {A : Type} (f : A -> Z) (l : list A) (V : list Z) : NoDup V -> (forall x, x ∈ l -> f x ∈ V) ->
  sum_list_with (fun v => length (filter (fun e => f e = v) l)) V = length l.
Proof.
  intros HV. induction l as [|x l IH]; intros Hl.
  - clear. induction V; [done|]. by cbn in *.
  - rewrite length_filter_key by (done || (apply Hl; by left)). rewrite IH; [done|]. intros y Hy. apply Hl. by right.
Qed.

Definition edges_within (V : list Z) (edges : list (Z * Z)) : Prop := forall e, e ∈ edges -> e.1 ∈ V /\ e.2 ∈ V.

Lemma count_rows_small {A : Type} (l : list A) : Z.of_nat (length l) < 2 ^ 31 -> count_rows (Some l) = Z.of_nat (length l).
Proof. intros H. cbn. apply to_i32_id. unfold in_i32. lia. Qed.

Lemma filter_count_small {A : Type} (P : A -> Prop) `{forall x, Decision (P x)} (l : list A) :
  Z.of_nat (length l) < 2 ^ 31 -> count_rows (filter P <$> Some l) = Z.of_nat (length (filter P l)).
Proof. intros Hl. apply (count_rows_small (filter P l)). pose proof (length_filter P l). lia. Qed.

(** The sum of the in-degrees and that of the out-degrees are the number of edges. *)
Lemma degree_sum (V : list Z) (edges : list (Z * Z)) : NoDup V -> edges_within V edges -> Z.of_nat (length edges) < 2 ^ 31 ->
  sum_list_with (fun v => Z.to_nat (graphInDegree (Some edges) v)) V = length edges /\
  sum_list_with (fun v => Z.to_nat (graphOutDegree (Some edges) v)) V = length edges.
Proof.
  intros HV Hin Hlen. unfold graphInDegree, graphOutDegree. split.
  - rewrite <- (count_by_key snd edges V HV) by (intros e He; by apply Hin). clear HV Hin.
    induction V as [|v V IH]; [done|]. cbn [sum_list_with]. rewrite IH, filter_count_small by done. lia.
  - rewrite <- (count_by_key fst edges V HV) by (intros e He; by apply Hin). clear HV Hin.
    induction V as [|v V IH]; [done|]. cbn [sum_list_with]. rewrite IH, filter_count_small by done. lia.
Qed.

(** From 46342 nodes on the product of the density overflows. *)
Lemma density_overflows (nodes : list Z) (edges : option (list (Z * Z))) (bDirected : bool) :
  46342 <= Z.of_nat (length nodes) < 2 ^ 31 -> graphDensity (Some nodes) edges bDirected = Undef.
Proof.
  intros Hn. unfold graphDensity. rewrite count_rows_small by lia. rewrite (proj2 (Z.leb_gt _ 1)) by lia. unfold int_result.
  rewrite (proj2 (Z.ltb_ge _ (2 ^ 31))) by nia. by rewrite andb_false_r.
Qed.

(** ** Connectivity is reachability from the first node *)

Lemma fmt_d_chars (z : Z) : Forall (fun c => 45 <= c <= 57) (fmt_d z).
Proof.
  assert (Hd : forall n, 0 <= n -> Forall (fun c => 45 <= c <= 57) (print_dec n)).
  { intros n Hn. destruct (print_dec_spec n Hn) as (_ & H & _). rewrite forallb_forall in H. apply list.Forall_forall.
    intros c Hc%list_elem_of_In. specialize (H c Hc). unfold c_isdigit in H. lia. }
  unfold fmt_d. destruct (Z.ltb_spec z 0); [apply Forall_cons_2; [lia|]|]; apply Hd; lia.
Qed.

Definition commas (z : bytes) : nat := length (filter (fun c => c = 44) z).

Lemma commas_app (a b : bytes) : commas (a ++ b) = (commas a + commas b)%nat.
Proof. unfold commas. by rewrite filter_app, length_app. Qed.

Lemma commas_fmt_d (z : Z) : commas (fmt_d z) = 0%nat.
Proof.
  unfold commas. pose proof (fmt_d_chars z) as H. induction H as [|c l Hc Hl IH]; [done|]. rewrite filter_cons, decide_False by lia. done.
Qed.

Lemma commas_path_text (closed : bool) (x : Z) (l : list Z) : commas (path_text closed (x :: l)) = length l.
Proof.
  unfold path_text. rewrite !commas_app. replace (commas (if closed then [93] else [])) with 0%nat by (by destruct closed).
  change (commas [91]) with 0%nat. rewrite Nat.add_0_r, Nat.add_0_l. revert x. induction l as [|y l IH]; intros x; [apply commas_fmt_d|].
  change (commas (fmt_d x ++ [44] ++ join_ids (y :: l)) = length (y :: l)). rewrite !commas_app, commas_fmt_d, IH. done.
Qed.

(** Without a limit the breadth-first search visits the reachable nodes. *)
Lemma bfs_reachable (nbrs : Z -> list Z) (start : Z) (U : list Z) (fuel : nat) :
  start ∈ U -> (forall x y, x ∈ U -> y ∈ nbrs x -> y ∈ U) -> Z.of_nat (length U) <= 2 ^ 27 -> (length U <= fuel)%nat ->
  exists rc l, graphBFS fuel (fun x => Some (nbrs x)) start (-1) = Some (Ok (rc, l)) /\ NoDup l /\
    forall x, x ∈ l <-> exists k, walk nbrs k start x.
Proof.
  intros HU Hcl H27 Hf. destruct (graphBFS_search (fun x => Some (nbrs x)) start (-1) U HU Hcl H27 fuel Hf) as (l & dist & El & Hi).
  change (selected (fun x => Some (nbrs x))) with nbrs in Hi. eexists _, l. split; [exact El|]. split.
  - destruct Hi as (c & d & Hm). pose proof (bi_nodup _ _ _ _ _ _ _ _ _ Hm) as Hnd. by rewrite app_nil_r in Hnd.
  - intros x. split; [intros Hx; exists (dist x); eapply bfs_walk_sound; [exact Hi|]; by rewrite app_nil_r|]. intros (k & Hw).
    destruct (bfs_walk_complete _ _ _ _ _ _ k x Hi Hw) as [[H _]|(q & []%elem_of_nil & _)]; [done|by rewrite app_nil_r in H].
Qed.

Definition edge_targets (edges : list (Z * Z)) (id : Z) : list Z := snd <$> filter (fun e : Z * Z => e.1 = id) edges.

(** [graphIsConnected] asks whether each node can be reached from the first one;
    the directions of the edges and the first node matter. *)
Lemma is_connected_spec (id : Z) (rest : list Z) (edges : list (Z * Z)) (fuel : nat) :
  let nodes := id :: rest in
  NoDup nodes -> edges_within nodes edges -> id <> -1 -> rest <> [] -> Z.of_nat (length nodes) <= 2 ^ 27 -> (length nodes <= fuel)%nat ->
  exists b, graphIsConnected fuel (Some nodes) (Some edges) = Some (Ok b) /\
    (b = true <-> forall v, v ∈ nodes -> exists k, walk (edge_targets edges) k id v).
Proof.
  intros nodes Hnd Hin Hid Hr Hlen Hf. assert (H2n : (2 <= length nodes)%nat) by (unfold nodes; destruct rest; [done|cbn; lia]).
  unfold graphIsConnected, graphShortestPathUnweighted. rewrite count_rows_small by lia.
  rewrite (proj2 (Z.leb_gt _ 1)) by lia. change (match nodes with [] => -1 | id :: _ => id end) with id.
  rewrite (proj2 (Z.eqb_neq id (-1))) by done. change (edge_sel (Some edges)) with (fun x => Some (edge_targets edges x)).
  assert (Hcl : forall x y, x ∈ nodes -> y ∈ edge_targets edges x -> y ∈ nodes).
  { intros x y _ (e & -> & [_ He]%list_elem_of_filter)%list_elem_of_fmap. by apply Hin. }
  destruct (bfs_reachable (edge_targets edges) id nodes fuel ltac:(by left) Hcl Hlen Hf) as (rc & l & El & Hl & Hreach). rewrite El.
  assert (Hsub : l ⊆ nodes) by (intros x (k & Hw)%Hreach; eapply walk_in_closed; [exact Hw|by left|done]).
  assert (Hidl : id ∈ l) by (apply Hreach; exists 0%nat; constructor). destruct l as [|x l]; [by apply elem_of_nil in Hidl|].
  change (existsb (Z.eqb 91) (path_text _ (x :: l))) with true. fold (commas (path_text (rc =? SQLITE_OK) (x :: l))).
  rewrite commas_path_text. eexists. split; [done|]. rewrite Z.eqb_eq. cbn [length] in *. split.
  - intros E v Hv. apply Hreach. assert (Hp : x :: l ≡ₚ nodes); [|by rewrite Hp].
    apply submseteq_length_Permutation; [by apply NoDup_submseteq|]. cbn [length]. lia.
  - intros Hall. assert (Hsub' : nodes ⊆ x :: l) by (intros v Hv; by apply Hreach, Hall).
    pose proof (submseteq_length _ _ (NoDup_submseteq _ _ Hl Hsub)) as H1. pose proof (submseteq_length _ _ (NoDup_submseteq _ _ Hnd Hsub')) as H2.
    cbn [length] in H1, H2. lia.
Qed.

(** One edge joins two nodes; the answer depends on which comes first. *)
Lemma is_connected_order : graphIsConnected 2 (Some [1; 2]) (Some [(1, 2)]) = Some (Ok true) /\ graphIsConnected 2 (Some [2; 1]) (Some [(1, 2)]) = Some (Ok false).
Proof. split; vm_compute; reflexivity. Qed.

(** ** PageRank iterates the recurrence *)

Section PageRank.
Context (edges : list (Z * Z)) (n : Z) (rDamping rEpsilon : f64).
Context (Hn : 0 < n) (Hn31 : n < 2 ^ 31) (Hlen : Z.of_nat (length edges) < 2 ^ 31).
Context (Hin : forall e, e ∈ edges -> 0 <= e.1 <= n /\ 0 <= e.2 <= n).

Definition out_degree (u : Z) : Z := Z.of_nat (length (filter (fun e : Z * Z => e.1 = u) edges)).

(** The rank of a node: a base and a share of each node with an edge to it,
    added in the order of the edges. *)
Definition rank_share (R : Z -> f64) (u : Z) : f64 := f64_div (f64_mul rDamping (R u)) (f64_of_Z (out_degree u)).

Definition rank_sum (R : Z -> f64) (v : Z) (x : f64) (rows : list (Z * Z)) : f64 :=
  foldl (fun x u => f64_add x (rank_share R u)) x (fst <$> filter (fun e : Z * Z => e.2 = v) rows).

Definition rank_step (R : Z -> f64) (v : Z) : f64 := rank_sum R v (f64_div (f64_sub (f64_of_Z 1) rDamping) (f64_of_Z n)) edges.

Definition rank_array (R : Z -> f64) : list f64 := R <$> seqZ 0 (n + 1).

(** The iteration of the recurrence: it ends when no rank changes by [rEpsilon]. *)
Fixpoint rank_iterate (nIter : nat) (R : Z -> f64) : Z -> f64 :=
  match nIter with
  | O => R
  | S nIter =>
      let R' := rank_step R in
      if f32_ltb (pr_max_diff (rank_array R') (rank_array R)) rEpsilon then R' else rank_iterate nIter R'
  end.

Lemma pr_index_ok (i : Z) : 0 <= i <= n -> pr_index n (to_i32 i) = Ok (Z.to_nat i).
Proof. intros Hi. rewrite to_i32_id by (unfold in_i32; lia). unfold pr_index. rewrite !(proj2 (Z.leb_le _ _)) by lia. done. Qed.

Lemma rank_array_lookup (R : Z -> f64) (i : Z) : 0 <= i <= n -> rank_array R !! Z.to_nat i = Some (R i).
Proof.
  intros Hi. unfold rank_array. rewrite list_lookup_fmap, (proj2 (lookup_seqZ 0 (n + 1) (Z.to_nat i) i)) by lia. done.
Qed.

Lemma rank_array_get (R : Z -> f64) (i : Z) : 0 <= i <= n -> aget (S754_zero false) (rank_array R) (Z.to_nat i) = R i.
Proof. intros Hi. by apply aget_lookup, rank_array_lookup. Qed.

Lemma rank_array_ext (R R' : Z -> f64) : (forall i, 0 <= i <= n -> R i = R' i) -> rank_array R = rank_array R'.
Proof. intros H. apply list_fmap_ext. intros k i Hi%lookup_seqZ. apply H. lia. Qed.

Lemma rank_array_insert (R : Z -> f64) (i : Z) (x : f64) : 0 <= i <= n ->
  <[Z.to_nat i := x]> (rank_array R) = rank_array (fun j => if decide (j = i) then x else R j).
Proof.
  intros Hi. apply list_eq. intros k. destruct (decide (k < Z.to_nat (n + 1))%nat) as [Hk|Hk].
  - replace k with (Z.to_nat (Z.of_nat k)) by lia. rewrite (rank_array_lookup (fun _ => _)) by lia. destruct (decide (Z.of_nat k = i)) as [<-|Hne].
    + rewrite list_lookup_insert_eq; [done|]. eapply lookup_lt_Some, rank_array_lookup. lia.
    + rewrite list_lookup_insert_ne by lia. apply rank_array_lookup. lia.
  - rewrite !lookup_ge_None_2; [done| |]; rewrite ?length_insert; unfold rank_array; rewrite length_fmap, length_seqZ; lia.
Qed.

Lemma rank_array_const (x : f64) : replicate (Z.to_nat (n + 1)) x = rank_array (fun _ => x).
Proof.
  apply list_eq. intros k. destruct (decide (k < Z.to_nat (n + 1))%nat) as [Hk|Hk].
  - rewrite lookup_replicate_2 by done. replace k with (Z.to_nat (Z.of_nat k)) by lia. by rewrite rank_array_lookup by lia.
  - rewrite !lookup_ge_None_2; [done| |]; rewrite ?length_replicate; unfold rank_array; rewrite ?length_fmap, ?length_seqZ; lia.
Qed.

(** The array of the out-degrees, for the nodes with an edge. *)
Definition degrees_ok (aOutDegree : list Z) : Prop := forall e, e ∈ edges -> aget 0 aOutDegree (Z.to_nat e.1) = out_degree e.1.

Lemma out_degree_pos (e : Z * Z) : e ∈ edges -> 0 < out_degree e.1 < 2 ^ 31.
Proof.
  intros He. unfold out_degree. pose proof (length_filter (fun e' : Z * Z => e'.1 = e.1) edges).
  assert (Hf : e ∈ filter (fun e' : Z * Z => e'.1 = e.1) edges) by (by apply list_elem_of_filter).
  destruct (filter _ edges); [by apply elem_of_nil in Hf|]. cbn [length] in *. lia.
Qed.

Lemma pr_out_degrees_ok (keys : list Z) (arr : list Z) : NoDup keys -> keys ⊆ (fst <$> edges) -> length arr = Z.to_nat (n + 1) ->
  exists arr', pr_out_degrees n ((fun u => (u, out_degree u)) <$> keys) arr = Ok arr' /\ length arr' = length arr /\
    (forall u, u ∈ keys -> aget 0 arr' (Z.to_nat u) = out_degree u) /\
    (forall u, 0 <= u -> u ∉ keys -> aget 0 arr' (Z.to_nat u) = aget 0 arr (Z.to_nat u)).
Proof.
  revert arr. induction keys as [|k keys IH]; intros arr Hnd Hsub Hl.
  { exists arr. do 2 (split; [done|]). split; [|done]. by intros u Hu%elem_of_nil. }
  apply NoDup_cons in Hnd as [Hk Hnd]. assert (Hke : exists e, k = e.1 /\ e ∈ edges) by (apply list_elem_of_fmap, Hsub; by left).
  destruct Hke as (e & -> & He). destruct (Hin e He) as [H1 _]. pose proof (out_degree_pos e He).
  cbn [fmap list_fmap pr_out_degrees]. rewrite (pr_index_ok e.1 H1), (to_i32_id (out_degree _)) by (unfold in_i32; lia). cbn [res_bind].
  destruct (IH (<[Z.to_nat e.1 := out_degree e.1]> arr)) as (arr' & E & Hl' & Ha & Hb).
  - done.
  - intros u Hu. apply Hsub. by right.
  - by rewrite length_insert.
  - rewrite length_insert in Hl'. exists arr'. split; [done|]. split; [done|]. split.
    + intros u [->|Hu]%elem_of_cons; [|by apply Ha]. rewrite Hb by (done || lia). apply aget_insert_eq. lia.
    + intros u Hu [Hne Hu']%not_elem_of_cons. rewrite Hb by done. apply aget_insert_ne.
      intros E'. apply Hne. apply (Z2Nat.inj u e.1); [lia|lia|done].
Qed.

Lemma degrees_computed : exists arr, pr_out_degrees n (group_counts edges) (replicate (Z.to_nat (n + 1)) 0) = Ok arr /\ degrees_ok arr.
Proof.
  destruct (pr_out_degrees_ok (remove_dups (fst <$> edges)) (replicate (Z.to_nat (n + 1)) 0)) as (arr & E & _ & Ha & _).
  - apply NoDup_remove_dups.
  - intros u Hu. by rewrite elem_of_remove_dups in Hu.
  - by rewrite length_replicate.
  - exists arr. split; [done|]. intros e He. apply Ha. rewrite elem_of_remove_dups. apply list_elem_of_fmap. by exists e.
Qed.

Lemma pr_edges_ok (aOutDegree : list Z) (R B : Z -> f64) (rows : list (Z * Z)) : degrees_ok aOutDegree -> rows ⊆ edges ->
  pr_edges n rDamping aOutDegree (rank_array R) rows (rank_array B) = Ok (rank_array (fun v => rank_sum R v (B v) rows)).
Proof.
  intros Hd. revert B. induction rows as [|[from to] rows IH]; intros B Hsub; [done|].
  assert (He : (from, to) ∈ edges) by (apply Hsub; by left). destruct (Hin _ He) as [H1 H2]. cbn [fst snd] in H1, H2.
  pose proof (out_degree_pos _ He) as Hpos. pose proof (Hd _ He) as Hdeg. cbn [fst] in Hpos, Hdeg.
  cbn [pr_edges]. rewrite (pr_index_ok from H1). cbn [res_bind]. rewrite Hdeg, (proj2 (Z.ltb_lt 0 _)) by lia.
  rewrite (pr_index_ok to H2). cbn [res_bind]. rewrite !rank_array_get by done. fold (rank_share R from). rewrite rank_array_insert by done.
  rewrite IH by (intros x Hx; apply Hsub; by right). f_equal. apply rank_array_ext. intros v _. unfold rank_sum. rewrite (filter_cons _ (from, to)).
  cbn [snd]. destruct (decide (v = to)) as [->|Hne].
  - by rewrite decide_True by done.
  - by rewrite decide_False by congruence.
Qed.

Lemma pr_loop_ok (aOutDegree : list Z) (nIter : nat) (R : Z -> f64) : degrees_ok aOutDegree ->
  pr_loop nIter n rDamping rEpsilon edges aOutDegree (rank_array R) = Ok (rank_array (rank_iterate nIter R)).
Proof.
  intros Hd. revert R. induction nIter as [|nIter IH]; intros R; [done|]. cbn [pr_loop rank_iterate]. cbv zeta.
  rewrite rank_array_const, (pr_edges_ok aOutDegree R) by done. cbn [res_bind]. change (fun v => rank_sum R v _ edges) with (rank_step R).
  destruct (f32_ltb _ rEpsilon); [done|]. apply IH.
Qed.

Lemma pr_results_ok (R : Z -> f64) (ids : list Z) : (forall id, id ∈ ids -> 0 <= id <= n) ->
  pr_results n (rank_array R) ids = Ok ((fun id => (id, R id)) <$> ids).
Proof.
  induction ids as [|id ids IH]; intros Hids; [done|]. assert (Hid : 0 <= id <= n) by (apply Hids; by left).
  cbn [pr_results]. rewrite (pr_index_ok id Hid). cbn [res_bind]. rewrite IH by (intros x Hx; apply Hids; by right). cbn [res_bind].
  rewrite rank_array_get by done. rewrite to_i32_id by (unfold in_i32; lia). done.
Qed.

End PageRank.

(** [graphPageRank] on a graph whose ids are between 0 and the number of
    nodes: the text holds for each node the rank that [nMaxIter] rounds of the
    recurrence give it (fewer, if no rank changes by [rEpsilon] in a round): in each
    round a node has [(1 - rDamping) / n] and, of each edge to it, [rDamping]
    times the rank of the source divided by the out-degree of the source. *)
Lemma graphPageRank_correct (fmt_6f : f64 -> bytes) (nodes : list Z) (edges : list (Z * Z)) (rDamping rEpsilon : f64) (nMaxIter : Z) :
  let n := Z.of_nat (length nodes) in
  nodes <> [] -> 8 * (n + 1) < 2 ^ 31 -> Z.of_nat (length edges) < 2 ^ 31 ->
  (forall id, id ∈ nodes -> 0 <= id <= n) -> (forall e, e ∈ edges -> 0 <= e.1 <= n /\ 0 <= e.2 <= n) ->
  graphPageRank fmt_6f (Some nodes) (Some edges) rDamping nMaxIter rEpsilon =
    Ok ([123] ++ pr_text fmt_6f true ((fun id =>
      (id, rank_iterate edges n rDamping rEpsilon (Z.to_nat nMaxIter) (fun _ => f64_div (f64_of_Z 1) (f64_of_Z n)) id)) <$> nodes)).
Proof.
  intros n Hne Hn Hlen Hids Hin. assert (Hpos : 0 < n) by (unfold n; destruct nodes; [done|cbn; lia]).
  unfold graphPageRank, page_ranks. rewrite count_rows_small by (fold n; lia). fold n.
  rewrite (proj2 (Z.eqb_neq n 0)) by lia. rewrite !to_i32_id by (unfold in_i32; lia). rewrite !(proj2 (Z.leb_gt _ 0)), Z.eqb_refl by lia.
  cbn [orb negb default from_option id]. destruct (degrees_computed edges n ltac:(lia) ltac:(lia) Hlen Hin) as (arr & -> & Hd). cbn [res_bind].
  rewrite rank_array_const, (pr_loop_ok edges n rDamping rEpsilon) by (done || lia). cbn [res_bind].
  rewrite (pr_results_ok edges n) by (done || lia). done.
Qed.

(** Two nodes with an edge each way and one back to the first: with the
    damping 1/2 the first node gains. *)
Definition pr_nodes : list Z := [1; 2; 3].

Definition pr_demo_edges : list (Z * Z) := [(1, 2); (2, 1); (3, 1)].

Definition one_half : f64 := f64_div (f64_of_Z 1) (f64_of_Z 2).

Lemma graphPageRank_correct_witness :
  (exists r1 r2 r3, graphPageRank (fun _ => [48]) (Some pr_nodes) (Some pr_demo_edges) one_half 3 (S754_zero false) =
    Ok ([123] ++ pr_text (fun _ => [48]) true [(1, r1); (2, r2); (3, r3)]) /\ f32_ltb r2 r1 = true /\ f32_ltb r3 r2 = true).
Proof.
  eexists _, _, _. split; [|split].
  - apply (graphPageRank_correct (fun _ => [48]) pr_nodes pr_demo_edges one_half (S754_zero false) 3); [done|by_compute|by_compute| |].
    + intros id Hid. unfold pr_nodes in Hid. cbn. repeat (apply elem_of_cons in Hid as [->|Hid]; [lia|]). by apply elem_of_nil in Hid.
    + intros e He. unfold pr_demo_edges in He. cbn. repeat (apply elem_of_cons in He as [->|He]; [cbn; lia|]). by apply elem_of_nil in He.
  - by vm_compute.
  - by vm_compute.
Defined.

(** An id above the number of nodes, as after a deletion, is outside of the arrays. *)
Lemma page_rank_overruns (rDamping rEpsilon : f64) (nMaxIter : Z) :
  page_ranks (Some [5]) (Some [(5, 5)]) rDamping nMaxIter rEpsilon = Undef.
Proof. reflexivity. Qed.
