(* ===== verification/GraphRank.v ===== *)
(** * The SQL function graph_pagerank (graph.c)

    Unlike [graphPageRank] of [GraphMeasures] it checks its arguments, stops
    when the squares of the changes add up to less than the bound and does not
    look whether its arrays were allocated.  The statements are their rows.
    Shown: it iterates the same recurrence. *)

From Stdlib Require Import String ZArith Lia Floats.SpecFloat.
From stdpp Require Import base option list numbers gmap.
From S2P Require Import Prelude Float32 Codec Shadow DefParser Values Scalar Graph GraphSearch GraphMeasures.

Local Open Scope Z_scope.
Local Open Scope query_scope.

Definition default_damping : f64 := f64_div (f64_of_Z 85) (f64_of_Z 100).
Definition default_epsilon : f64 := f64_div (f64_of_Z 1) (f64_of_Z 10000).

(** One pass over the edges; there is no test for a node without edges. *)
Fixpoint prf_edges (nNodes : Z) (rDamping : f64) (pOutDegree : list Z) (pRank : list f64) (rows : list (Z * Z)) (pNextRank : list f64)
    : res (list f64) :=
  match rows with
  | [] => Ok pNextRank
  | (from, to) :: rows =>
      j <-? pr_index nNodes (to_i32 to);
      i <-? pr_index nNodes (to_i32 from);
      let share := f64_div (f64_mul rDamping (aget (S754_zero false) pRank i)) (f64_of_Z (aget 0 pOutDegree i)) in
      prf_edges nNodes rDamping pOutDegree pRank rows (<[j := f64_add (aget (S754_zero false) pNextRank j) share]> pNextRank)
  end.

(** The sum of the squares of the changes. *)
Definition prf_diff (pNextRank pRank : list f64) : f64 :=
  foldl (fun rDiff p => f64_add rDiff (f64_mul (f64_sub p.1 p.2) (f64_sub p.1 p.2))) (S754_zero false) (zip pNextRank pRank).

Fixpoint prf_loop (nIter : nat) (nNodes : Z) (rDamping rEpsilon : f64) (edges : list (Z * Z)) (pOutDegree : list Z) (pRank : list f64)
    : res (list f64) :=
  match nIter with
  | O => Ok pRank
  | S nIter =>
      let base := f64_div (f64_sub (f64_of_Z 1) rDamping) (f64_of_Z nNodes) in
      pNextRank <-? prf_edges nNodes rDamping pOutDegree pRank edges (replicate (Z.to_nat (nNodes + 1)) base);
      if f32_ltb (prf_diff pNextRank pRank) rEpsilon then Ok pNextRank
      else prf_loop nIter nNodes rDamping rEpsilon edges pOutDegree pNextRank
  end.

(** The arguments as SQLite converts them, those that are given; [graph]:
    whether there is a graph table. *)
Definition graphPageRankFunc (fmt_6f : f64 -> bytes) (graph : bool) (nodes : option (list Z)) (edges : option (list (Z * Z)))
    (oDamping : option f64) (oMaxIter : option Z) (oEpsilon : option f64) : res bytes :=
  let rDamping := default default_damping oDamping in
  let nMaxIter := default 100 oMaxIter in
  let rEpsilon := default default_epsilon oEpsilon in
  if f32_ltb rDamping (S754_zero false) || f32_ltb (f64_of_Z 1) rDamping then Err SQLITE_ERROR
  else if nMaxIter <? 1 then Err SQLITE_ERROR
  else if f32_leb rEpsilon (S754_zero false) then Err SQLITE_ERROR
  else if negb graph then Err SQLITE_ERROR
  else
    let nNodes := count_rows nodes in
    if nNodes =? 0 then Ok [123; 125]
    else
      match sqlite3_malloc (8 * (nNodes + 1)), sqlite3_malloc (4 * (nNodes + 1)) with
      | Some size, Some _ =>
          if size <? 8 * (nNodes + 1) then Undef
          else
            let rows := default [] edges in
            pOutDegree <-? pr_out_degrees nNodes (group_counts rows) (replicate (Z.to_nat (nNodes + 1)) 0);
            pRank <-? prf_loop (Z.to_nat nMaxIter) nNodes rDamping rEpsilon rows pOutDegree
                        (replicate (Z.to_nat (nNodes + 1)) (f64_div (f64_of_Z 1) (f64_of_Z nNodes)));
            l <-? pr_results nNodes pRank (default [] nodes);
            Ok ([123] ++ pr_text fmt_6f true l)
      | _, _ => Undef
      end.

(** ** The recurrence *)

Section Rank.
Context (edges : list (Z * Z)) (n : Z) (rDamping rEpsilon : f64).
Context (Hn : 0 < n) (Hn31 : n < 2 ^ 31) (Hlen : Z.of_nat (length edges) < 2 ^ 31).
Context (Hin : forall e, e ∈ edges -> 0 <= e.1 <= n /\ 0 <= e.2 <= n).

(** The test for a node without edges makes no difference. *)
Lemma prf_edges_same (pOutDegree : list Z) (pRank : list f64) (rows : list (Z * Z)) (pNextRank : list f64) :
  degrees_ok edges pOutDegree -> rows ⊆ edges ->
  prf_edges n rDamping pOutDegree pRank rows pNextRank = pr_edges n rDamping pOutDegree pRank rows pNextRank.
Proof.
  intros Hd. revert pNextRank. induction rows as [|[from to] rows IH]; intros pNextRank Hsub; [done|].
  assert (He : (from, to) ∈ edges) by (apply Hsub; by left). destruct (Hin _ He) as [H1 H2]. cbn [fst snd] in H1, H2.
  pose proof (out_degree_pos edges Hlen _ He) as Hpos. pose proof (Hd _ He) as Hdeg. cbn [fst] in Hpos, Hdeg.
  cbn [prf_edges pr_edges]. rewrite (pr_index_ok edges n Hn31 from H1), (pr_index_ok edges n Hn31 to H2). cbn [res_bind].
  rewrite Hdeg, (proj2 (Z.ltb_lt 0 _)) by lia. apply IH. intros x Hx. apply Hsub. by right.
Qed.

(** The recurrence of [GraphMeasures], with another test for its end. *)
Fixpoint rank_iterate_squares (nIter : nat) (R : Z -> f64) : Z -> f64 :=
  match nIter with
  | O => R
  | S nIter =>
      let R' := rank_step edges n rDamping R in
      if f32_ltb (prf_diff (rank_array n R') (rank_array n R)) rEpsilon then R' else rank_iterate_squares nIter R'
  end.

Lemma prf_loop_ok (pOutDegree : list Z) (nIter : nat) (R : Z -> f64) : degrees_ok edges pOutDegree ->
  prf_loop nIter n rDamping rEpsilon edges pOutDegree (rank_array n R) = Ok (rank_array n (rank_iterate_squares nIter R)).
Proof.
  intros Hd. revert R. induction nIter as [|nIter IH]; intros R; [done|]. cbn [prf_loop rank_iterate_squares]. cbv zeta.
  rewrite (rank_array_const edges n Hn), prf_edges_same, (pr_edges_ok edges n rDamping) by done. cbn [res_bind].
  change (fun v => rank_sum edges rDamping R v _ edges) with (rank_step edges n rDamping R).
  destruct (f32_ltb _ rEpsilon); [done|]. apply IH.
Qed.
End Rank.

(** C34: [graph_pagerank] with a damping factor between 0 and 1, a positive
    number of rounds and a positive bound, on a graph whose ids are between 0
    and the number of nodes: the text holds for each node the rank that
    [nMaxIter] rounds of the recurrence give it (fewer, if the squares of the
    changes add up to less than the bound): in each round a node has
    [(1 - rDamping) / n] and, of each edge to it, [rDamping] times the rank of
    the source divided by the out-degree of the source. *)
Theorem graphPageRankFunc_correct (fmt_6f : f64 -> bytes) (nodes : list Z) (edges : list (Z * Z)) (rDamping rEpsilon : f64) (nMaxIter : Z) :
  let n := Z.of_nat (length nodes) in
  f32_ltb rDamping (S754_zero false) = false -> f32_ltb (f64_of_Z 1) rDamping = false -> 1 <= nMaxIter -> f32_leb rEpsilon (S754_zero false) = false ->
  nodes <> [] -> 8 * (n + 1) < 2 ^ 31 -> Z.of_nat (length edges) < 2 ^ 31 ->
  (forall id, id ∈ nodes -> 0 <= id <= n) -> (forall e, e ∈ edges -> 0 <= e.1 <= n /\ 0 <= e.2 <= n) ->
  graphPageRankFunc fmt_6f true (Some nodes) (Some edges) (Some rDamping) (Some nMaxIter) (Some rEpsilon) =
    Ok ([123] ++ pr_text fmt_6f true ((fun id =>
      (id, rank_iterate_squares edges n rDamping rEpsilon (Z.to_nat nMaxIter) (fun _ => f64_div (f64_of_Z 1) (f64_of_Z n)) id)) <$> nodes)).
Proof.
  intros n D1 D2 Hm E1 Hne Hn Hlen Hids Hin. assert (Hpos : 0 < n) by (unfold n; destruct nodes; [done|cbn; lia]).
  unfold graphPageRankFunc. cbn [default from_option id]. rewrite D1, D2, E1, (proj2 (Z.ltb_ge nMaxIter 1)) by lia. cbn [orb negb].
  rewrite count_rows_small by (fold n; lia). fold n. rewrite (proj2 (Z.eqb_neq n 0)) by lia. unfold sqlite3_malloc. rewrite !to_i32_id by (unfold in_i32; lia).
  rewrite !(proj2 (Z.leb_gt _ 0)), Z.ltb_irrefl by lia.
  destruct (degrees_computed edges n ltac:(lia) ltac:(lia) Hlen Hin) as (arr & -> & Hd). cbn [res_bind].
  rewrite (rank_array_const edges n Hpos), (prf_loop_ok edges n rDamping rEpsilon) by (done || lia). cbn [res_bind].
  rewrite (pr_results_ok edges n) by (done || lia). done.
Qed.

(** Three rounds, three nodes; the node with two edges to it gains. *)
Lemma graphPageRankFunc_correct_witness :
  exists r1 r2 r3, graphPageRankFunc (fun _ => [48]) true (Some pr_nodes) (Some pr_demo_edges) (Some default_damping) (Some 3) (Some default_epsilon) =
    Ok ([123] ++ pr_text (fun _ => [48]) true [(1, r1); (2, r2); (3, r3)]) /\ f32_ltb r2 r1 = true /\ f32_ltb r3 r2 = true.
Proof.
  eexists _, _, _. split; [|split].
  - apply (graphPageRankFunc_correct (fun _ => [48]) pr_nodes pr_demo_edges default_damping default_epsilon 3);
      [by vm_compute|by vm_compute|lia|by vm_compute|done|by_compute|by_compute| |].
    + intros id Hid. unfold pr_nodes in Hid. cbn. repeat (apply elem_of_cons in Hid as [->|Hid]; [lia|]). by apply elem_of_nil in Hid.
    + intros e He. unfold pr_demo_edges in He. cbn. repeat (apply elem_of_cons in He as [->|He]; [cbn; lia|]). by apply elem_of_nil in He.
  - by vm_compute.
  - by vm_compute.
Defined.

(** With an id above the number of nodes, as after a deletion, the arrays are
    overrun. *)
Lemma page_rank_func_overruns (fmt_6f : f64 -> bytes) :
  graphPageRankFunc fmt_6f true (Some [5]) (Some []) None None None = Undef /\
  graphPageRankFunc fmt_6f true (Some [1; 2]) (Some [(1, 7)]) None None None = Undef.
Proof. split; by vm_compute. Qed.
