(* ===== verification/Tarjan.v ===== *)
(** * Strongly connected components (graph-advanced.c)

    Tarjan's algorithm on the nodes of a graph, numbered by a sorted array of
    their ids.  As in [GraphSearch], the statement that selects the successors
    of a node is a function, [None] if it cannot be prepared.  Shown: the
    components are the classes of mutual reachability, each once, and every
    component comes after those it leads to. *)

From Stdlib Require Import String ZArith Lia Sorting.
From stdpp Require Import base option list numbers relations sorting.
From S2P Require Import Prelude Float32 Codec Shadow DefParser Values Scalar Graph GraphSearch GraphMeasures.

Local Open Scope Z_scope.

(** ** The numbers of the nodes *)

(** [NULL] if there is no node or no memory for the ids; the size of the array
    is an [int], if it does not fit the ids are written past the end. *)
Definition createNodeIndexMap (nodes : option (list Z)) : res (option (list Z)) :=
  match nodes with
  | None | Some [] => Ok None
  | Some ids =>
      let nNodes := Z.of_nat (length ids) in
      if 2 ^ 31 <=? nNodes then Undef
      else
        match sqlite3_malloc (to_size (nNodes * 8)) with
        | None => Ok None
        | Some size => if size <? nNodes * 8 then Undef else Ok (Some ids)
        end
  end.

(** [None]: out of fuel. *)
Fixpoint index_search (fuel : nat) (aNodeIds : list Z) (iNodeId left right : Z) : option Z :=
  match fuel with
  | O => None
  | S fuel =>
      if left <=? right then
        let mid := Z.quot (left + right) 2 in
        let x := aget 0 aNodeIds (Z.to_nat mid) in
        if x =? iNodeId then Some mid
        else if x <? iNodeId then index_search fuel aNodeIds iNodeId (mid + 1) right
        else index_search fuel aNodeIds iNodeId left (mid - 1)
      else Some (-1)
  end.

Definition getNodeIndex (aNodeIds : list Z) (iNodeId : Z) : option Z :=
  index_search (S (length aNodeIds)) aNodeIds iNodeId 0 (Z.of_nat (length aNodeIds) - 1).

(** ** The algorithm *)

Record TarjanState := MkTarjan {
  ts_aIndex : list Z;
  ts_aLowLink : list Z;
  ts_aOnStack : list bool;
  ts_pStack : list nat;
  ts_nIndex : Z;
  ts_azSCC : list bytes
}.

Definition tarjan_enter (st : TarjanState) (i : nat) : TarjanState :=
  MkTarjan (<[i := ts_nIndex st]> (ts_aIndex st)) (<[i := ts_nIndex st]> (ts_aLowLink st)) (<[i := true]> (ts_aOnStack st))
    (i :: ts_pStack st) (ts_nIndex st + 1) (ts_azSCC st).

(** [aLowLink[i]] becomes [x] if that is smaller. *)
Definition tarjan_lower (st : TarjanState) (i : nat) (x : Z) : TarjanState :=
  if x <? aget (-1) (ts_aLowLink st) i then
    MkTarjan (ts_aIndex st) (<[i := x]> (ts_aLowLink st)) (ts_aOnStack st) (ts_pStack st) (ts_nIndex st) (ts_azSCC st)
  else st.

(** The stack down to a node: what is taken off, and the rest. *)
Fixpoint tarjan_pop (stack : list nat) (i : nat) : list nat * list nat :=
  match stack with
  | [] => ([], [])
  | x :: stack => if (x =? i)%nat then ([x], stack) else let r := tarjan_pop stack i in (x :: r.1, r.2)
  end.

Definition tarjan_leave (aNodeIds : list Z) (st : TarjanState) (i : nat) : TarjanState :=
  if aget (-1) (ts_aLowLink st) i =? aget (-1) (ts_aIndex st) i then
    let '(popped, stack) := tarjan_pop (ts_pStack st) i in
    MkTarjan (ts_aIndex st) (ts_aLowLink st) (foldl (fun on x => <[x := false]> on) (ts_aOnStack st) popped) stack (ts_nIndex st)
      (ts_azSCC st ++ [path_text true (aget 0 aNodeIds <$> popped)])
  else st.

Section Connect.
Context (connect : nat -> TarjanState -> option TarjanState) (aNodeIds : list Z) (iNodeIdx : nat).

(** The rows of the statement. *)
Fixpoint tarjan_rows (rows : list Z) (st : TarjanState) : option TarjanState :=
  match rows with
  | [] => Some st
  | to_id :: rows =>
      match getNodeIndex aNodeIds to_id with
      | None => None
      | Some z =>
          if 0 <=? z then
            let iToIdx := Z.to_nat z in
            if aget (-1) (ts_aIndex st) iToIdx =? -1 then
              match connect iToIdx st with
              | Some st => tarjan_rows rows (tarjan_lower st iNodeIdx (aget (-1) (ts_aLowLink st) iToIdx))
              | None => None
              end
            else if aget false (ts_aOnStack st) iToIdx then tarjan_rows rows (tarjan_lower st iNodeIdx (aget (-1) (ts_aIndex st) iToIdx))
            else tarjan_rows rows st
          else tarjan_rows rows st
      end
  end.

End Connect.

(** [None]: out of fuel. *)
Fixpoint tarjanStrongConnect (fuel : nat) (aNodeIds : list Z) (sel : Z -> option (list Z)) (iNodeIdx : nat) (st : TarjanState)
    : option TarjanState :=
  match fuel with
  | O => None
  | S fuel =>
      let st := tarjan_enter st iNodeIdx in
      match sel (aget 0 aNodeIds iNodeIdx) with
      | None => Some st
      | Some rows =>
          match tarjan_rows (tarjanStrongConnect fuel aNodeIds sel) aNodeIds iNodeIdx rows st with
          | Some st => Some (tarjan_leave aNodeIds st iNodeIdx)
          | None => None
          end
      end
  end.

Fixpoint scc_loop (fuel : nat) (aNodeIds : list Z) (sel : Z -> option (list Z)) (l : list nat) (st : TarjanState) : option TarjanState :=
  match l with
  | [] => Some st
  | i :: l =>
      if aget (-1) (ts_aIndex st) i =? -1 then
        match tarjanStrongConnect fuel aNodeIds sel i st with
        | Some st => scc_loop fuel aNodeIds sel l st
        | None => None
        end
      else scc_loop fuel aNodeIds sel l st
  end.

Fixpoint join_texts (l : list bytes) : bytes :=
  match l with
  | [] => []
  | [x] => x
  | x :: l => x ++ [44] ++ join_texts l
  end.

Definition tarjan_start (nNodes : nat) : TarjanState := MkTarjan (replicate nNodes (-1)) (replicate nNodes (-1)) (replicate nNodes false) [] 0 [].

Definition graphStronglyConnectedComponents (fuel : nat) (nodes : option (list Z)) (sel : Z -> option (list Z))
    : option (res (Z * option bytes)) :=
  let nNodes := count_rows nodes in
  if nNodes =? 0 then Some (Ok (SQLITE_OK, Some (bstr "[]")))
  else
    match createNodeIndexMap nodes with
    | Ok None => Some (Ok (SQLITE_NOMEM, None))
    | Ok (Some aNodeIds) =>
        match scc_loop fuel aNodeIds sel (seq 0 (Z.to_nat nNodes)) (tarjan_start (Z.to_nat nNodes)) with
        | Some st => Some (Ok (SQLITE_OK, Some ([91] ++ join_texts (ts_azSCC st) ++ [93])))
        | None => None
        end
    | Err rc => Some (Err rc)
    | Undef => Some Undef
    end.

(** ** The search for a number *)

Section Numbers.
Context (ids : list Z) (Hsorted : StronglySorted Z.lt ids).

Lemma ids_increase (i j : nat) (x y : Z) : ids !! i = Some x -> ids !! j = Some y -> (i < j)%nat -> x < y.
Proof.
  revert i j. induction Hsorted as [|z l _ IH Hz]; intros [|i] [|j] Hx Hy Hij; try done; try lia.
  - injection Hx as ->. apply (proj1 (list.Forall_forall _ _) Hz). by eapply list_elem_of_lookup_2.
  - apply StronglySorted_inv in Hsorted as [Hs _]. apply (IH Hs i j); [done|done|lia].
Qed.

Lemma ids_injective (i j : nat) (x : Z) : ids !! i = Some x -> ids !! j = Some x -> i = j.
Proof.
  intros Hi Hj. destruct (lt_eq_lt_dec i j) as [[Hl| ->]|Hl]; [|done|].
  - pose proof (ids_increase i j x x Hi Hj Hl). lia.
  - pose proof (ids_increase j i x x Hj Hi Hl). lia.
Qed.

(** The number of an id, or that there is none. *)
Definition finds (id z : Z) : Prop := (z = -1 /\ id ∉ ids) \/ (0 <= z /\ ids !! Z.to_nat z = Some id).

Lemma index_search_ok (fuel : nat) (id left right : Z) :
  0 <= left <= right + 1 -> right < Z.of_nat (length ids) -> right - left + 1 < Z.of_nat fuel ->
  (forall i x, ids !! i = Some x -> Z.of_nat i < left -> x < id) -> (forall i x, ids !! i = Some x -> right < Z.of_nat i -> id < x) ->
  exists z, index_search fuel ids id left right = Some z /\ finds id z.
Proof.
  revert left right. induction fuel as [|fuel IH]; intros left right Hl Hr Hf Hlo Hhi; cbn [index_search].
  { lia. }
  destruct (Z.leb_spec left right) as [Hlr|Hlr].
  - rewrite Z.quot_div_nonneg by lia. pose proof (Z.div_mod (left + right) 2) as Hd. pose proof (Z.mod_pos_bound (left + right) 2) as Hm.
    set (mid := (left + right) / 2) in *. assert (Hmid : left <= mid <= right) by lia.
    destruct (lookup_lt_is_Some_2 ids (Z.to_nat mid)) as [x Hx]; [lia|]. rewrite (aget_lookup _ _ _ _ Hx).
    destruct (Z.eqb_spec x id) as [->|Hne]; [exists mid; split; [done|]; right; split; [lia|done]|].
    destruct (Z.ltb_spec x id) as [Hlt|Hge].
    + apply IH; [lia|lia|lia| |done]. intros i y Hy Hi. destruct (decide (i = Z.to_nat mid)) as [->|Hn]; [congruence|].
      pose proof (ids_increase i (Z.to_nat mid) y x Hy Hx). lia.
    + apply IH; [lia|lia|lia|done|]. intros i y Hy Hi. destruct (decide (i = Z.to_nat mid)) as [->|Hn]; [assert (x = y) by congruence; lia|].
      pose proof (ids_increase (Z.to_nat mid) i x y Hx Hy). lia.
  - exists (-1). split; [done|]. left. split; [done|]. intros [i Hi]%list_elem_of_lookup_1.
    destruct (decide (Z.of_nat i < left)) as [H1|H1]; [pose proof (Hlo i id Hi H1); lia|]. pose proof (Hhi i id Hi ltac:(lia)). lia.
Qed.

Lemma getNodeIndex_ok (id : Z) : exists z, getNodeIndex ids id = Some z /\ finds id z.
Proof.
  apply index_search_ok; [lia|lia|lia|lia|]. intros i x Hi Hr. apply lookup_lt_Some in Hi. lia.
Qed.

End Numbers.

(** ** The graph *)

Section Components.
Context (ids : list Z) (Hsorted : StronglySorted Z.lt ids) (out : Z -> list Z).

(** Edges between numbers of nodes. *)
Definition arrow (a b : nat) : Prop := exists x y, ids !! a = Some x /\ ids !! b = Some y /\ y ∈ out x.

Abbreviation reach := (rtc arrow).

(** A path that leaves a set does so by an edge. *)
Lemma path_leaves (l : list nat) (x y : nat) : reach x y -> x ∈ l -> y ∉ l -> exists a b, a ∈ l /\ (b ∉ l) /\ arrow a b /\ reach b y.
Proof.
  intros Hr. induction Hr as [x|x z y Hxz Hzy IH]; intros Hx Hy; [done|]. destruct (decide (z ∈ l)) as [Hz|Hz]; [by apply IH|]. by exists x, z.
Qed.

(** A set that no edge leaves. *)
Lemma closed_reach (l : list nat) (x y : nat) : (forall a b, a ∈ l -> arrow a b -> b ∈ l) -> reach x y -> x ∈ l -> y ∈ l.
Proof. intros Hc Hr. induction Hr as [x|x z y Hxz Hzy IH]; [done|]. intros Hx. apply IH. by eapply Hc. Qed.

(** A class of mutual reachability. *)
Definition is_component (c : list nat) : Prop := c <> [] /\ forall x y, x ∈ c -> (y ∈ c <-> reach x y /\ reach y x).

(** ** The invariant *)

(** [ix] numbers the visited nodes, [G] are the nodes being visited: [stack] has
    the visited nodes that are in no component yet, the newest first, each
    reaches those above it and a node of [G] below it. *)
Record inv (ix : nat -> Z) (cnt : Z) (stack : list nat) (comps : list (list nat)) (G : list nat) : Prop := {
  iv_cnt : 0 <= cnt;
  iv_range : forall x, ix x <> -1 -> 0 <= ix x < cnt;
  iv_nodup : NoDup (stack ++ concat comps);
  iv_visited : forall x, ix x <> -1 <-> x ∈ stack \/ x ∈ concat comps;
  iv_sorted : StronglySorted (fun a b => ix b < ix a) stack;
  iv_gray : forall g, g ∈ G -> g ∈ stack;
  iv_black : forall x y, ix x <> -1 -> x ∉ G -> arrow x y -> ix y <> -1;
  iv_closed : forall x y, x ∈ concat comps -> arrow x y -> y ∈ concat comps;
  iv_order : forall i c a b, comps !! i = Some c -> a ∈ c -> arrow a b -> b ∈ concat (take (S i) comps);
  iv_comps : Forall is_component comps;
  iv_up : forall x y, x ∈ stack -> y ∈ stack -> ix x <= ix y -> reach x y;
  iv_down : forall y, y ∈ stack -> exists g, g ∈ G /\ ix g <= ix y /\ reach y g
}.

Lemma inv_start : inv (fun _ => -1) 0 [] [] [].
Proof.
  assert (Hno : forall x : nat, x ∉ @nil nat) by (intros x; apply not_elem_of_nil).
  split; cbn [app concat]; try done; try (by constructor).
  - intros x. split; [done|]. by intros [?%Hno|?%Hno].
  - by intros x y ?%Hno.
  - by intros x y ?%Hno.
  - by intros y ?%Hno.
Qed.

Lemma StronglySorted_same {A : Type} (R R' : A -> A -> Prop) (l : list A) :
  (forall a b, a ∈ l -> b ∈ l -> R a b -> R' a b) -> StronglySorted R l -> StronglySorted R' l.
Proof.
  intros HR Hs. induction Hs as [|x l Hs IH Hx]; constructor.
  - apply IH. intros a b Ha Hb. apply HR; by right.
  - apply list.Forall_forall. intros b Hb. apply HR; [by left|by right|]. by apply (proj1 (list.Forall_forall _ _) Hx).
Qed.

Section Step.
Context (ix : nat -> Z) (cnt : Z) (S0 : list nat) (comps : list (list nat)) (G : list nat) (x : nat).

Lemma inv_enter (ix' : nat -> Z) : inv ix cnt S0 comps G -> ix x = -1 -> ix' x = cnt -> (forall y, y <> x -> ix' y = ix y) ->
  (forall g, g ∈ G -> reach g x) -> inv ix' (cnt + 1) (x :: S0) comps (x :: G).
Proof.
  intros I Hx Hx' Hy Hg. destruct I as [Hc Hr Hn Hv Hs Hgr Hb Hcl Hor Hco Hu Hd].
  assert (Hnew : (x ∉ S0) /\ x ∉ concat comps).
  { split; intros H; assert (Hne : ix x <> -1) by (apply Hv; auto); congruence. }
  assert (Hold : forall y, y ∈ S0 -> ix' y = ix y /\ 0 <= ix y < cnt).
  { intros y Hin. assert (Hne : ix y <> -1) by (apply Hv; by left). split; [apply Hy; congruence|by apply Hr]. }
  split.
  - lia.
  - intros y Hne. destruct (decide (y = x)) as [->|Hyx]; [lia|]. rewrite (Hy y Hyx) in *. specialize (Hr y Hne). lia.
  - cbn. constructor; [rewrite elem_of_app; tauto|done].
  - intros y. destruct (decide (y = x)) as [->|Hyx]; [split; [intros _; left; by left|lia]|]. rewrite (Hy y Hyx), Hv, elem_of_cons. tauto.
  - apply StronglySorted_cons. split.
    + apply list.Forall_forall. intros a Ha. destruct (Hold a Ha). lia.
    + eapply StronglySorted_same; [|exact Hs]. cbn. intros a b Ha Hb' Hlt. destruct (Hold a Ha), (Hold b Hb'). lia.
  - intros g [->|Hin]%elem_of_cons; [by left|]. right. by apply Hgr.
  - intros y z Hne Hng Hyz. apply not_elem_of_cons in Hng as [Hyx Hng]. rewrite (Hy y Hyx) in Hne.
    destruct (decide (z = x)) as [->|Hzx]; [lia|]. rewrite (Hy z Hzx). by eapply Hb.
  - done.
  - done.
  - done.
  - intros y z Hin Hin' Hle. apply elem_of_cons in Hin as [->|Hin], Hin' as [->|Hin'].
    + done.
    + destruct (Hold z Hin'). lia.
    + destruct (Hd y Hin) as (g & HgG & _ & Hyg). etrans; [exact Hyg|]. by apply Hg.
    + destruct (Hold y Hin), (Hold z Hin'). apply Hu; [done|done|lia].
  - intros y [->|Hin]%elem_of_cons; [exists x; split; [by left|]; split; [lia|done]|]. destruct (Hd y Hin) as (g & HgG & Hle & Hyg).
    exists g. split; [by right|]. split; [|done]. destruct (Hold y Hin), (Hold g (Hgr g HgG)). lia.
Qed.

Context (new : list nat).

(** A node whose successors are visited, with the nodes above it on the stack. *)
Lemma stack_split (cnt' : Z) (comps' : list (list nat)) : inv ix cnt' (new ++ x :: S0) comps' (x :: G) ->
  (forall a, a ∈ new -> ix x < ix a) /\ (forall b, b ∈ S0 -> ix b < ix x) /\ (forall g, g ∈ G -> g ∈ S0 -> (g ∉ new) /\ g <> x).
Proof.
  intros I. pose proof (iv_sorted _ _ _ _ _ I) as Hs. pose proof (iv_nodup _ _ _ _ _ I) as Hn. apply StronglySorted_app in Hs as (Hx & _ & Hs).
  apply StronglySorted_cons in Hs as [Hs _]. apply list.NoDup_app in Hn as (Hn & _ & _). apply list.NoDup_app in Hn as (_ & Hd & Hn).
  apply list.NoDup_cons in Hn as [Hnx _]. split; [|split].
  - intros a Ha. apply Hx; [done|by left].
  - intros b Hb. by apply (proj1 (list.Forall_forall _ _) Hs).
  - intros g Hg HgS. split; [intros Hin; apply (Hd g Hin); by right|congruence].
Qed.

Section Finished.
Context (I : inv ix cnt (new ++ x :: S0) comps (x :: G)) (HG : forall g, g ∈ G -> g ∈ S0) (Hsucc : forall y, arrow x y -> ix y <> -1).

Lemma finished_successors (a b : nat) : a ∈ new ++ [x] -> arrow a b -> ix b <> -1.
Proof.
  destruct (stack_split _ _ I) as (Hnew & _ & HGn). intros [Ha|Ha]%elem_of_app; [|apply list_elem_of_singleton in Ha as ->; apply Hsucc].
  apply (iv_black _ _ _ _ _ I).
  - apply (iv_visited _ _ _ _ _ I). left. apply elem_of_app. by left.
  - intros [->|Hg]%elem_of_cons; [specialize (Hnew x Ha); lia|]. by destruct (HGn a Hg (HG a Hg)).
Qed.

(** The node stays on the stack: it reaches an older one. *)
Lemma inv_keep (z : nat) : z ∈ new ++ x :: S0 -> ix z < ix x -> reach x z -> inv ix cnt (new ++ x :: S0) comps G.
Proof.
  intros Hz Hzx Hxz. destruct I as [Hc Hr Hn Hv Hs Hgr Hb Hcl Hor Hco Hu Hd]. split; try done.
  - intros g Hg. apply Hgr. by right.
  - intros y w Hne Hng Hyw. destruct (decide (y = x)) as [->|Hyx]; [by apply Hsucc|]. eapply Hb; [done| |done]. by apply not_elem_of_cons.
  - intros y Hy. destruct (Hd y Hy) as (g & Hg & Hle & Hyg). apply elem_of_cons in Hg as [->|Hg]; [|by exists g].
    destruct (Hd z Hz) as (g' & Hg' & Hle' & Hzg). apply elem_of_cons in Hg' as [->|Hg']; [lia|]. exists g'. split; [done|]. split; [lia|].
    etrans; [exact Hyg|]. by etrans.
Qed.

Context (Hedges : forall a b, a ∈ new ++ [x] -> arrow a b -> b ∈ S0 -> ix x <= ix b).

(** An edge out of the new component leads to an older one. *)
Lemma component_edges (a b : nat) : a ∈ new ++ [x] -> arrow a b -> b ∉ new ++ [x] -> b ∈ concat comps.
Proof.
  intros Ha Hab Hb. destruct (stack_split _ _ I) as (_ & Hold & _).
  destruct (proj1 (iv_visited _ _ _ _ _ I b) (finished_successors a b Ha Hab)) as [Hs|Hs]; [|done].
  assert (HS : b ∈ S0).
  { apply elem_of_app in Hs as [Hs|Hs]; [destruct Hb; apply elem_of_app; by left|]. apply elem_of_cons in Hs as [->|Hs]; [|done].
    destruct Hb. apply elem_of_app. right. by left. }
  pose proof (Hedges a b Ha Hab HS). specialize (Hold b HS). lia.
Qed.

(** What a node of it reaches, outside of it, does not reach the stack. *)
Lemma component_exits (a y : nat) : a ∈ new ++ [x] -> reach a y -> y ∉ new ++ [x] -> y ∈ concat comps.
Proof.
  intros Ha Hay Hy. destruct (path_leaves _ a y Hay Ha Hy) as (b & c & Hb & Hc & Hbc & Hcy).
  eapply closed_reach; [exact (iv_closed _ _ _ _ _ I)|exact Hcy|]. by eapply component_edges.
Qed.

Lemma stack_apart (y : nat) : y ∈ new ++ x :: S0 -> y ∉ concat comps.
Proof. pose proof (iv_nodup _ _ _ _ _ I) as Hn. apply list.NoDup_app in Hn as (_ & Hd & _). apply Hd. Qed.

Lemma in_component (y : nat) : y ∈ new ++ [x] -> y ∈ new ++ x :: S0.
Proof. intros [Hy|Hy]%elem_of_app; apply elem_of_app; [by left|right; apply list_elem_of_singleton in Hy as ->; by left]. Qed.

Lemma new_component : is_component (new ++ [x]).
Proof.
  destruct (stack_split _ _ I) as (Hnew & Hold & HGn).
  assert (Hx : x ∈ new ++ [x]) by (apply elem_of_app; right; by left).
  assert (Hto : forall y, y ∈ new ++ [x] -> reach x y).
  { intros y Hy. apply (iv_up _ _ _ _ _ I); [by apply in_component|by apply in_component|].
    apply elem_of_app in Hy as [Hy|Hy]; [specialize (Hnew y Hy); lia|]. apply list_elem_of_singleton in Hy as ->. lia. }
  assert (Hfrom : forall y, y ∈ new ++ [x] -> reach y x).
  { intros y Hy. destruct (iv_down _ _ _ _ _ I y (in_component y Hy)) as (g & Hg & _ & Hyg). apply elem_of_cons in Hg as [->|Hg]; [done|]. exfalso.
    pose proof (HG g Hg) as HgS. destruct (HGn g Hg HgS) as [Hgn Hgx].
    assert (Hout : g ∉ new ++ [x]) by (rewrite elem_of_app, list_elem_of_singleton; tauto).
    apply (stack_apart g); [apply elem_of_app; right; by right|]. by eapply component_exits. }
  split; [by destruct new|]. intros a b Ha. split.
  - intros Hb. split; (etrans; [by apply Hfrom|by apply Hto]).
  - intros [Hab Hba]. destruct (decide (b ∈ new ++ [x])) as [Hb|Hb]; [done|]. exfalso.
    pose proof (component_exits a b Ha Hab Hb) as Hin. apply (stack_apart a); [by apply in_component|].
    eapply closed_reach; [exact (iv_closed _ _ _ _ _ I)|exact Hba|done].
Qed.

Lemma concat_snoc {A : Type} (l : list (list A)) (c : list A) : concat (l ++ [c]) = concat l ++ c.
Proof. rewrite concat_app. cbn. by rewrite app_nil_r. Qed.

(** The component is taken off the stack. *)
Lemma inv_pop : inv ix cnt S0 (comps ++ [new ++ [x]]) G.
Proof.
  pose proof new_component as Hcomp. destruct (stack_split _ _ I) as (Hnew & Hold & HGn). pose proof I as I'.
  destruct I' as [Hc Hr Hn Hv Hs Hgr Hb Hcl Hor Hco Hu Hd].
  assert (Hin : forall y, y ∈ S0 -> y ∈ new ++ x :: S0) by (intros y Hy; apply elem_of_app; right; by right).
  split; rewrite ?concat_snoc; try done.
  - replace ((new ++ x :: S0) ++ concat comps) with ((new ++ [x]) ++ (S0 ++ concat comps)) in Hn by (by rewrite <- !app_assoc).
    rewrite Permutation_app_comm in Hn. by rewrite <- app_assoc in Hn.
  - intros y. rewrite Hv, !elem_of_app, elem_of_cons, list_elem_of_singleton. tauto.
  - apply StronglySorted_app_1_r in Hs. by apply StronglySorted_cons in Hs as [_ Hs].
  - intros y z Hne Hng Hyz. destruct (decide (y = x)) as [->|Hyx]; [by apply Hsucc|]. eapply Hb; [done| |done]. by apply not_elem_of_cons.
  - intros y z [Hy|Hy]%elem_of_app Hyz; apply elem_of_app; [left; by eapply Hcl|].
    destruct (decide (z ∈ new ++ [x])) as [Hz|Hz]; [by right|]. left. by eapply component_edges.
  - intros i c a b Hi Ha Hab. destruct (decide (i < length comps)%nat) as [Hlt|Hge].
    + rewrite lookup_app_l in Hi by done. rewrite take_app_le by lia. by eapply Hor.
    + rewrite take_ge by (rewrite length_app; cbn; lia). rewrite lookup_app_r in Hi by lia. apply list_lookup_singleton_Some in Hi as [_ <-].
      rewrite concat_snoc. apply elem_of_app. destruct (decide (b ∈ new ++ [x])) as [Hb'|Hb']; [by right|]. left. by eapply component_edges.
  - apply Forall_app_2; [done|]. by constructor.
  - intros y z Hy Hz. apply Hu; by apply Hin.
  - intros y Hy. destruct (Hd y (Hin y Hy)) as (g & Hg & Hle & Hyg). apply elem_of_cons in Hg as [->|Hg]; [specialize (Hold y Hy); lia|]. by exists g.
Qed.
End Finished.
End Step.

(** ** The arrays *)

Abbreviation n := (length ids).
Definition idx (st : TarjanState) (i : nat) : Z := aget (-1) (ts_aIndex st) i.
Definition low (st : TarjanState) (i : nat) : Z := aget (-1) (ts_aLowLink st) i.

Definition scc_text (c : list nat) : bytes := path_text true (aget 0 ids <$> c).

Record coherent (st : TarjanState) (comps : list (list nat)) : Prop := {
  co_index : length (ts_aIndex st) = n;
  co_low : length (ts_aLowLink st) = n;
  co_length : length (ts_aOnStack st) = n;
  co_on : forall x, (x < n)%nat -> aget false (ts_aOnStack st) x = true <-> x ∈ ts_pStack st;
  co_text : ts_azSCC st = scc_text <$> comps
}.

Definition holds (st : TarjanState) (comps : list (list nat)) (G : list nat) : Prop :=
  inv (idx st) (ts_nIndex st) (ts_pStack st) comps G /\ coherent st comps.

Lemma idx_lt (st : TarjanState) (comps : list (list nat)) (x : nat) : coherent st comps -> idx st x <> -1 -> (x < n)%nat.
Proof.
  intros Hc Hx. destruct (decide (x < n)%nat) as [Hl|Hl]; [done|]. destruct Hx. unfold idx, aget. rewrite lookup_ge_None_2; [done|].
  rewrite (co_index _ _ Hc). lia.
Qed.

Lemma holds_lower (st : TarjanState) (comps : list (list nat)) (G : list nat) (x : nat) (z : Z) :
  holds st comps G -> holds (tarjan_lower st x z) comps G.
Proof.
  intros [I [H1 H2 H3 H4 H5]]. unfold tarjan_lower. destruct (z <? _); [|by split]. split; [done|]. split; cbn; try done. by rewrite length_insert.
Qed.

Lemma lower_same (st : TarjanState) (x : nat) (z : Z) :
  idx (tarjan_lower st x z) = idx st /\ ts_pStack (tarjan_lower st x z) = ts_pStack st.
Proof. unfold tarjan_lower. by destruct (z <? _). Qed.

Lemma low_lower (st : TarjanState) (comps : list (list nat)) (x : nat) (z : Z) : coherent st comps -> (x < n)%nat ->
  low (tarjan_lower st x z) x = Z.min (low st x) z /\ (forall y, y <> x -> low (tarjan_lower st x z) y = low st y).
Proof.
  intros Hc Hx. unfold tarjan_lower, low in *. destruct (Z.ltb_spec z (aget (-1) (ts_aLowLink st) x)); cbn.
  - rewrite aget_insert_eq by (by rewrite (co_low _ _ Hc)). split; [lia|]. intros y Hy. by apply aget_insert_ne.
  - split; [lia|done].
Qed.

(** Nodes not visited yet. *)
Definition white (st : TarjanState) : nat := length (filter (fun i => idx st i = -1) (seq 0 n)).

Lemma white_le (st st' : TarjanState) : (forall y, idx st y <> -1 -> idx st' y <> -1) -> (white st' <= white st)%nat.
Proof.
  intros H. unfold white. induction (seq 0 n) as [|a l IH]; [done|]. rewrite !filter_cons.
  destruct (decide (idx st' a = -1)), (decide (idx st a = -1)); cbn [length]; try lia. exfalso. by eapply H.
Qed.

Lemma white_lt (st st' : TarjanState) (x : nat) : (forall y, idx st y <> -1 -> idx st' y <> -1) -> (x < n)%nat -> idx st x = -1 -> idx st' x <> -1 ->
  (white st' < white st)%nat.
Proof.
  intros H Hx H1 H2. assert (Hin : x ∈ seq 0 n) by (apply elem_of_seq; lia). unfold white. induction (seq 0 n) as [|a l IH]; [by apply not_elem_of_nil in Hin|].
  rewrite !filter_cons. assert (Hle : (length (filter (fun i => idx st' i = (-1)%Z) l) <= length (filter (fun i => idx st i = (-1)%Z) l))%nat).
  { clear -H. induction l as [|a l IH]; [done|]. rewrite !filter_cons. destruct (decide (idx st' a = -1)), (decide (idx st a = -1)); cbn [length]; try lia.
    exfalso. by eapply H. }
  apply elem_of_cons in Hin as [<-|Hin].
  - rewrite decide_False by done. rewrite decide_True by done. cbn. lia.
  - specialize (IH Hin). destruct (decide (idx st' a = -1)), (decide (idx st a = -1)); cbn [length]; try lia. exfalso. by eapply H.
Qed.

(** Entering and leaving a node. *)
Lemma holds_enter (st : TarjanState) (comps : list (list nat)) (G : list nat) (x : nat) :
  holds st comps G -> (x < n)%nat -> idx st x = -1 -> (forall g, g ∈ G -> reach g x) -> holds (tarjan_enter st x) comps (x :: G).
Proof.
  intros [I [H1 H2 H3 H4 H5]] Hx Hw Hg. split.
  - eapply (inv_enter (idx st)); [done|done| | |done].
    + unfold idx, tarjan_enter. cbn. by rewrite aget_insert_eq by (by rewrite H1).
    + intros y Hy. unfold idx, tarjan_enter. cbn. by rewrite aget_insert_ne.
  - split; cbn; rewrite ?length_insert; try done. intros y Hy. destruct (decide (y = x)) as [->|Hyx].
    + rewrite aget_insert_eq by (by rewrite H3). split; [intros _; by left|done].
    + rewrite aget_insert_ne by done. rewrite H4, elem_of_cons by done. naive_solver.
Qed.

Lemma pop_split (new S0 : list nat) (x : nat) : x ∉ new -> tarjan_pop (new ++ x :: S0) x = (new ++ [x], S0).
Proof.
  induction new as [|a l IH]; intros Hx; cbn.
  - by rewrite Nat.eqb_refl.
  - apply not_elem_of_cons in Hx as [Hxa Hx]. destruct (Nat.eqb_spec a x); [congruence|]. by rewrite (IH Hx).
Qed.

Lemma pop_on (popped : list nat) (on : list bool) (x : nat) : (x < length on)%nat ->
  aget false (foldl (fun on x => <[x := false]> on) on popped) x = true <-> aget false on x = true /\ x ∉ popped.
Proof.
  revert on. induction popped as [|a l IH]; intros on Hx; cbn [foldl].
  - split; [intros; split; [done|apply not_elem_of_nil]|tauto].
  - rewrite IH by (by rewrite length_insert). rewrite not_elem_of_cons. destruct (decide (a = x)) as [->|Ha].
    + rewrite aget_insert_eq by done. naive_solver.
    + rewrite aget_insert_ne by done. naive_solver.
Qed.

Lemma pop_on_length (popped : list nat) (on : list bool) : length (foldl (fun on x => <[x := false]> on) on popped) = length on.
Proof. revert on. induction popped as [|a l IH]; intros on; cbn; [done|]. by rewrite IH, length_insert. Qed.

(** ** Visiting a node *)

(** Nothing that was visited changes; the low link of the node is the number of
    a node that it reaches on the stack, and at most those of the older nodes
    the new part of the stack has edges to. *)
Record connected (x : nat) (st st' : TarjanState) (comps' : list (list nat)) (G new : list nat) : Prop := {
  cn_holds : holds st' comps' G;
  cn_stack : ts_pStack st' = new ++ ts_pStack st;
  cn_kept : forall y, idx st y <> -1 -> idx st' y = idx st y /\ low st' y = low st y;
  cn_visited : idx st' x <> -1;
  cn_low : (new = [] /\ ts_nIndex st <= low st' x) \/ (exists z, z ∈ ts_pStack st' /\ idx st' z = low st' x /\ reach x z);
  cn_edges : forall a b, a ∈ new -> arrow a b -> b ∈ ts_pStack st -> low st' x <= idx st' b
}.

(** In the loop over the successors of [x], those of [done] so far. *)
Record scanning (x : nat) (st0 : TarjanState) (G : list nat) (done : list Z) (st : TarjanState) (comps : list (list nat)) (above : list nat) : Prop := {
  sc_holds : holds st comps (x :: G);
  sc_stack : ts_pStack st = above ++ x :: ts_pStack st0;
  sc_kept : forall y, idx st0 y <> -1 -> idx st y = idx st0 y /\ low st y = low st0 y;
  sc_number : ts_nIndex st0 <= idx st x;
  sc_low : low st x <= idx st x;
  sc_reach : exists z, z ∈ ts_pStack st /\ idx st z = low st x /\ reach x z;
  sc_done : forall b y, y ∈ done -> ids !! b = Some y -> idx st b <> -1 /\ (b ∈ ts_pStack st0 -> low st x <= idx st b);
  sc_edges : forall a b, a ∈ above -> arrow a b -> b ∈ ts_pStack st0 -> low st x <= idx st b
}.

Section Rows.
Context (connect : nat -> TarjanState -> option TarjanState) (fuel : nat).
Context (Hconnect : forall x st comps G, holds st comps G -> (x < n)%nat -> idx st x = -1 -> (forall g, g ∈ G -> reach g x) -> (white st <= fuel)%nat ->
  exists st' comps' new, connect x st = Some st' /\ connected x st st' comps' G new).
Context (x : nat) (Hx : (x < n)%nat) (st0 : TarjanState) (G : list nat) (HG : forall g, g ∈ G -> reach g x) (Hx0 : idx st0 x = -1).

(** A successor that is visited now. *)
Lemma scan_white (done : list Z) (st : TarjanState) (comps : list (list nat)) (above : list nat) (y : nat) (id : Z) :
  scanning x st0 G done st comps above -> ids !! y = Some id -> arrow x y -> idx st y = -1 -> (white st <= fuel)%nat ->
  exists st' comps' above', connect y st = Some st' /\ (white st' <= fuel)%nat /\
    scanning x st0 G (id :: done) (tarjan_lower st' x (low st' y)) comps' above'.
Proof.
  intros [Hh Hs Hk Hnum Hl Hr Hd He] Hid Hxy Hw Hf. assert (Hy : (y < n)%nat) by (by eapply lookup_lt_Some).
  destruct (Hconnect y st comps (x :: G) Hh Hy Hw) as (st' & comps' & new & E & [Ch Cs Ck Cv Cl Ce]).
  { intros g [->|Hg]%elem_of_cons; [by apply rtc_once|]. eapply rtc_r; [by apply HG|done]. } { done. }
  assert (Hvis : forall z, z ∈ ts_pStack st -> idx st z <> -1).
  { intros z Hz. apply (iv_visited _ _ _ _ _ (proj1 Hh)). by left. }
  assert (Hxs : x ∈ ts_pStack st) by (rewrite Hs; apply elem_of_app; right; by left).
  destruct (Ck x (Hvis x Hxs)) as [Hix Hlx]. destruct (low_lower st' comps' x (low st' y) (proj2 Ch) Hx) as [Hlow Hlow'].
  destruct (lower_same st' x (low st' y)) as [Hidx Hstack].
  exists st', comps', (new ++ above). split; [done|]. split; [pose proof (white_le st st') as Hwl; assert (white st' <= white st)%nat by (apply Hwl; intros z Hz; by rewrite (proj1 (Ck z Hz))); lia|].
  split; rewrite ?Hidx, ?Hstack.
  - by apply holds_lower.
  - by rewrite Cs, Hs, <- app_assoc.
  - intros z Hz. assert (Hzx : z <> x) by congruence. rewrite (Hlow' z Hzx). destruct (Hk z Hz) as [H1 H2]. destruct (Ck z) as [H3 H4]; [congruence|]. split; congruence.
  - by rewrite Hix.
  - rewrite Hlow, Hlx, Hix. lia.
  - rewrite Hlow, Hlx. destruct (Z.le_gt_cases (low st x) (low st' y)) as [Hle|Hgt].
    + rewrite Z.min_l by done. destruct Hr as (z & Hz & Hzi & Hzr). exists z. split; [rewrite Cs; apply elem_of_app; by right|].
      split; [|done]. by rewrite (proj1 (Ck z (Hvis z Hz))).
    + rewrite Z.min_r by lia. destruct Cl as [[_ Hlow2]|(z & Hz & Hzi & Hzr)].
      * pose proof (iv_range _ _ _ _ _ (proj1 Hh) x (Hvis x Hxs)). lia.
      * exists z. split; [done|]. split; [done|]. eapply rtc_l; done.
  - intros b u [->|Hu]%elem_of_cons Hb.
    + assert (b = y) as -> by (by eapply ids_injective). split; [done|]. intros Hin.
      assert (Hin' : y ∈ ts_pStack st) by (rewrite Hs; apply elem_of_app; right; by right). by destruct (Hvis y Hin').
    + destruct (Hd b u Hu Hb) as [H1 H2]. destruct (Ck b H1) as [H3 _]. rewrite H3. split; [done|]. intros Hin. rewrite Hlow, Hlx. specialize (H2 Hin). lia.
  - intros a b [Ha|Ha]%elem_of_app Hab Hb.
    + assert (Hb' : b ∈ ts_pStack st) by (rewrite Hs; apply elem_of_app; right; by right). rewrite Hlow. pose proof (Ce a b Ha Hab Hb'). lia.
    + assert (Hb' : b ∈ ts_pStack st) by (rewrite Hs; apply elem_of_app; right; by right). rewrite Hlow, Hlx, (proj1 (Ck b (Hvis b Hb'))).
      pose proof (He a b Ha Hab Hb). lia.
Qed.

(** A successor on the stack. *)
Lemma scan_stack (done : list Z) (st : TarjanState) (comps : list (list nat)) (above : list nat) (y : nat) (id : Z) :
  scanning x st0 G done st comps above -> ids !! y = Some id -> arrow x y -> y ∈ ts_pStack st ->
  scanning x st0 G (id :: done) (tarjan_lower st x (idx st y)) comps above.
Proof.
  intros [Hh Hs Hk Hnum Hl Hr Hd He] Hid Hxy Hy. destruct (low_lower st comps x (idx st y) (proj2 Hh) Hx) as [Hlow Hlow'].
  destruct (lower_same st x (idx st y)) as [Hidx Hstack]. split; rewrite ?Hidx, ?Hstack, ?Hlow; try done.
  - by apply holds_lower.
  - intros z Hz. rewrite Hlow' by congruence. by apply Hk.
  - lia.
  - destruct (Z.le_gt_cases (low st x) (idx st y)) as [Hle|Hgt].
    + by rewrite Z.min_l.
    + rewrite Z.min_r by lia. exists y. split; [done|]. split; [done|]. by apply rtc_once.
  - intros b u [->|Hu]%elem_of_cons Hb.
    + assert (b = y) as -> by (by eapply ids_injective). split; [apply (iv_visited _ _ _ _ _ (proj1 Hh)); by left|lia].
    + destruct (Hd b u Hu Hb) as [H1 H2]. split; [done|]. intros Hin. specialize (H2 Hin). lia.
  - intros a b Ha Hab Hb. pose proof (He a b Ha Hab Hb). lia.
Qed.

(** A successor in a component, or that is no node. *)
Lemma scan_skip (done : list Z) (st : TarjanState) (comps : list (list nat)) (above : list nat) (id : Z) :
  scanning x st0 G done st comps above -> (forall y, ids !! y = Some id -> idx st y <> -1 /\ y ∉ ts_pStack st) ->
  scanning x st0 G (id :: done) st comps above.
Proof.
  intros [Hh Hs Hk Hnum Hl Hr Hd He] Hskip. split; try done. intros b u [->|Hu]%elem_of_cons Hb; [|by apply (Hd b u)].
  destruct (Hskip b Hb) as [H1 H2]. split; [done|]. intros Hin. destruct H2. rewrite Hs. apply elem_of_app. right. by right.
Qed.

Lemma rows_ok (rows done : list Z) (st : TarjanState) (comps : list (list nat)) (above : list nat) :
  (forall id, id ∈ rows -> id ∈ out (aget 0 ids x)) -> scanning x st0 G done st comps above -> (white st <= fuel)%nat ->
  exists st' comps' above', tarjan_rows connect ids x rows st = Some st' /\ scanning x st0 G (rev rows ++ done) st' comps' above'.
Proof.
  revert done st comps above. induction rows as [|id rows IH]; intros done st comps above Hrows Hsc Hf; [by eexists _, _, _|].
  assert (Hrows' : forall i, i ∈ rows -> i ∈ out (aget 0 ids x)) by (intros i Hi; apply Hrows; by right).
  assert (Hout : id ∈ out (aget 0 ids x)) by (apply Hrows; by left). cbn [rev]. rewrite <- app_assoc. cbn [tarjan_rows app].
  destruct (getNodeIndex_ok ids Hsorted id) as (z & -> & Hz). destruct Hz as [[-> Hno]|[Hz Hid]].
  - eapply IH; [done| |done]. apply scan_skip; [done|]. intros y Hy. destruct Hno. by eapply list_elem_of_lookup_2.
  - rewrite (proj2 (Z.leb_le _ _)) by done. set (y := Z.to_nat z) in *. assert (Hyn : (y < n)%nat) by (by eapply lookup_lt_Some).
    assert (Hxy : arrow x y) by (exists (aget 0 ids x), id; split; [by apply aget_lookup_lt|done]).
    change (aget (-1) (ts_aIndex st) y) with (idx st y). destruct (Z.eqb_spec (idx st y) (-1)) as [Hw|Hw].
    + destruct (scan_white done st comps above y id Hsc Hid Hxy Hw Hf) as (st' & comps' & above' & -> & Hf' & Hsc').
      eapply IH; [done|exact Hsc'|]. etrans; [|exact Hf']. apply white_le. intros u. by rewrite (proj1 (lower_same st' x _)).
    + pose proof (co_on _ _ (proj2 (sc_holds _ _ _ _ _ _ _ Hsc)) y Hyn) as Hon. destruct (aget false (ts_aOnStack st) y) eqn:Eon.
      * eapply IH; [done|by apply scan_stack, Hon|]. etrans; [|exact Hf]. apply white_le. intros u. by rewrite (proj1 (lower_same st x (idx st y))).
      * eapply IH; [done| |done]. apply scan_skip; [done|]. intros u Hu. assert (u = y) as -> by (by eapply ids_injective). split; [done|].
        intros Hin%Hon. done.
Qed.

(** All successors are scanned. *)
Lemma scan_leave (comps0 : list (list nat)) (done : list Z) (st : TarjanState) (comps : list (list nat)) (above : list nat) :
  holds st0 comps0 G -> (forall id, id ∈ out (aget 0 ids x) -> id ∈ done) -> scanning x st0 G done st comps above ->
  exists comps' new, connected x st0 (tarjan_leave ids st x) comps' G new.
Proof.
  intros H0 Hdone [[I Hco] Hs Hk Hnum Hl Hr Hd He]. rewrite Hs in I.
  assert (HGS : forall g, g ∈ G -> g ∈ ts_pStack st0) by (intros g; apply (iv_gray _ _ _ _ _ (proj1 H0))).
  assert (Hout : forall y, arrow x y -> exists w, ids !! y = Some w /\ w ∈ done).
  { intros y (u & w & Hu & Hw & Hin). exists w. split; [done|]. apply Hdone. by rewrite (aget_lookup _ _ _ _ Hu). }
  assert (Hsucc : forall y, arrow x y -> idx st y <> -1) by (intros y (w & Hw & Hin)%Hout; by apply (Hd y w)).
  assert (Hxv : idx st x <> -1) by (apply (iv_visited _ _ _ _ _ I); left; apply elem_of_app; right; by left).
  assert (Hedges : forall a b, a ∈ above ++ [x] -> arrow a b -> b ∈ ts_pStack st0 -> low st x <= idx st b).
  { intros a b [Ha|Ha]%elem_of_app Hab Hb; [by eapply He|]. apply list_elem_of_singleton in Ha as ->. destruct (Hout b Hab) as (w & Hw & Hin).
    by apply (Hd b w). }
  unfold tarjan_leave. change (aget (-1) (ts_aLowLink st) x) with (low st x). change (aget (-1) (ts_aIndex st) x) with (idx st x).
  destruct (Z.eqb_spec (low st x) (idx st x)) as [Heq|Hne].
  - pose proof (iv_nodup _ _ _ _ _ I) as Hnd. apply list.NoDup_app in Hnd as (Hnd & _ & _). pose proof Hnd as Hnd'.
    apply list.NoDup_app in Hnd' as (_ & Hap & Hnx). apply list.NoDup_cons in Hnx as [Hnx _].
    assert (Hxa : x ∉ above) by (intros Hin; apply (Hap x Hin); by left). rewrite Hs, (pop_split above (ts_pStack st0) x Hxa).
    exists (comps ++ [above ++ [x]]), []. split; try done.
    + split; [change (inv (idx st) (ts_nIndex st) (ts_pStack st0) (comps ++ [above ++ [x]]) G); eapply inv_pop; [exact I|done|done|]; intros a b Ha Hab Hb; rewrite <- Heq; by eapply Hedges|].
      destruct Hco as [H1 H2 H3 H4 H5]. split; cbn [ts_aIndex ts_aLowLink ts_aOnStack ts_pStack ts_azSCC]; rewrite ?pop_on_length; try done; [|by rewrite (fmap_app scc_text), H5].
      intros y Hy. rewrite pop_on by (by rewrite H3). rewrite H4, Hs by done. rewrite !elem_of_app, elem_of_cons, list_elem_of_singleton.
      split; [tauto|]. intros Hin. split; [tauto|]. intros [Hin'| ->]; [|done]. apply (Hap y Hin'). by right.
    + left. split; [done|]. cbn. change (ts_nIndex st0 <= low st x). lia.
    + intros a b Ha. by apply not_elem_of_nil in Ha.
  - exists comps, (above ++ [x]). destruct Hr as (z & Hz & Hzi & Hzr). rewrite Hs in Hz. split; try done.
    + split; [|done]. rewrite Hs. eapply inv_keep; [exact I|done|exact Hz|lia|done].
    + by rewrite Hs, <- app_assoc.
    + right. exists z. by rewrite Hs.
Qed.
End Rows.

(** Visiting a node that is not visited yet. *)
Lemma connect_ok (fuel : nat) (x : nat) (st : TarjanState) (comps : list (list nat)) (G : list nat) :
  holds st comps G -> (x < n)%nat -> idx st x = -1 -> (forall g, g ∈ G -> reach g x) -> (white st <= fuel)%nat ->
  exists st' comps' new, tarjanStrongConnect fuel ids (fun id => Some (out id)) x st = Some st' /\ connected x st st' comps' G new.
Proof.
  revert x st comps G. induction fuel as [|fuel IH]; intros x st comps G Hh Hx Hw HG Hf.
  { exfalso. assert (Hin : x ∈ filter (fun i => idx st i = -1) (seq 0 n)) by (apply list_elem_of_filter; split; [done|]; apply elem_of_seq; lia).
    unfold white in Hf. destruct (filter _ _); [by apply not_elem_of_nil in Hin|cbn in Hf; lia]. }
  cbn [tarjanStrongConnect]. pose proof (holds_enter st comps G x Hh Hx Hw HG) as He. set (st1 := tarjan_enter st x) in *.
  assert (Hix : idx st1 x = ts_nIndex st) by (unfold idx, st1; cbn; by rewrite aget_insert_eq by (by rewrite (co_index _ _ (proj2 Hh)))).
  assert (Hlx : low st1 x = ts_nIndex st) by (unfold low, st1; cbn; by rewrite aget_insert_eq by (by rewrite (co_low _ _ (proj2 Hh)))).
  assert (Hk : forall y, y <> x -> idx st1 y = idx st y /\ low st1 y = low st y).
  { intros y Hy. unfold idx, low, st1. cbn. by rewrite !aget_insert_ne. }
  assert (Hxv : idx st1 x <> -1) by (pose proof (iv_cnt _ _ _ _ _ (proj1 Hh)); lia).
  assert (Hsc : scanning x st G [] st1 comps []).
  { split; try done; try lia.
    - intros y Hy. apply Hk. congruence.
    - exists x. split; [by left|]. split; [lia|done].
    - intros b y Hy. by apply not_elem_of_nil in Hy.
    - intros a b Ha. by apply not_elem_of_nil in Ha. }
  destruct (rows_ok (tarjanStrongConnect fuel ids (fun id => Some (out id))) fuel IH x Hx st G HG Hw (out (aget 0 ids x)) [] st1 comps [])
    as (st' & comps' & above & -> & Hsc'); [done|done| |].
  { assert (white st1 < white st)%nat; [|lia]. apply (white_lt st st1 x); [|done|done|done]. intros y Hy. rewrite (proj1 (Hk y ltac:(congruence))). done. }
  assert (Hleave : exists comps2 new, connected x st (tarjan_leave ids st' x) comps2 G new).
  { eapply scan_leave; [exact Hx|exact Hh| |exact Hsc']. intros id Hid. apply elem_of_app. left. apply list_elem_of_In, (proj1 (in_rev _ _)). by apply list_elem_of_In. }
  destruct Hleave as (comps2 & new & Hcon). by exists (tarjan_leave ids st' x), comps2, new.
Qed.

(** ** All nodes *)

Lemma scc_loop_ok (fuel : nat) (l : list nat) (st : TarjanState) (comps : list (list nat)) :
  (forall i, i ∈ l -> (i < n)%nat) -> holds st comps [] -> (n <= fuel)%nat ->
  exists st' comps', scc_loop fuel ids (fun id => Some (out id)) l st = Some st' /\ holds st' comps' [] /\
    (forall i, i ∈ l -> idx st' i <> -1) /\ (forall i, idx st i <> -1 -> idx st' i <> -1).
Proof.
  intros Hl Hh Hf. revert st comps Hl Hh. induction l as [|i l IH]; intros st comps Hl Hh.
  - exists st, comps. split; [done|]. split; [done|]. split; [|done]. intros i Hi. by apply not_elem_of_nil in Hi.
  - assert (Hl' : forall j, j ∈ l -> (j < n)%nat) by (intros j Hj; apply Hl; by right). assert (Hi : (i < n)%nat) by (apply Hl; by left).
    assert (Hw : (white st <= fuel)%nat).
    { etrans; [|exact Hf]. unfold white. rewrite <- (length_seq n 0) at 2. apply length_filter. }
    cbn [scc_loop]. change (aget (-1) (ts_aIndex st) i) with (idx st i). destruct (Z.eqb_spec (idx st i) (-1)) as [Hwh|Hv].
    + destruct (connect_ok fuel i st comps [] Hh Hi Hwh) as (st1 & comps1 & new & -> & [C1 _ C2 C3 _ _]); [intros g Hg; by apply not_elem_of_nil in Hg|done|].
      destruct (IH st1 comps1 Hl' C1) as (st' & comps' & E & H1 & H2 & H3). exists st', comps'. split; [done|]. split; [done|]. split.
      * intros j [->|Hj]%elem_of_cons; [by apply H3|by apply H2].
      * intros j Hj. apply H3. by rewrite (proj1 (C2 j Hj)).
    + destruct (IH st comps Hl' Hh) as (st' & comps' & E & H1 & H2 & H3). exists st', comps'. split; [done|]. split; [done|]. split; [|done].
      intros j [->|Hj]%elem_of_cons; [by apply H3|by apply H2].
Qed.

Lemma holds_start : holds (tarjan_start n) [] [].
Proof.
  split.
  - assert (E : forall i, idx (tarjan_start n) i = -1).
    { intros i. unfold idx, aget. cbn. destruct (replicate n (-1) !! i) as [y|] eqn:Ey; [|done]. by apply lookup_replicate in Ey as [-> _]. }
    pose proof inv_start as [H1 H2 H3 H4 H5 H6 H7 H8 H9 H10 H11 H12]. split; try done.
    + intros x. by rewrite E.
    + intros x. rewrite E. apply H4.
    + constructor.
    + intros x y. by rewrite E.
    + intros x y Hx. by apply not_elem_of_nil in Hx.
    + intros y Hy. by apply not_elem_of_nil in Hy.
  - split; cbn; rewrite ?length_replicate; try done. intros x Hx. rewrite aget_replicate by done. split; [done|]. intros H. by apply not_elem_of_nil in H.
Qed.

Lemma scc_all (fuel : nat) : (n <= fuel)%nat ->
  exists st comps, scc_loop fuel ids (fun id => Some (out id)) (seq 0 n) (tarjan_start n) = Some st /\ ts_azSCC st = scc_text <$> comps /\
    concat comps ≡ₚ seq 0 n /\ Forall is_component comps /\
    (forall i c a b, comps !! i = Some c -> a ∈ c -> arrow a b -> b ∈ concat (take (S i) comps)).
Proof.
  intros Hf. destruct (scc_loop_ok fuel (seq 0 n) (tarjan_start n) []) as (st & comps & E & [I Hc] & Hv & _); [|apply holds_start|done|].
  { intros i Hi. apply elem_of_seq in Hi. lia. }
  exists st, comps. split; [done|]. split; [apply (co_text _ _ Hc)|]. split; [|split; [apply (iv_comps _ _ _ _ _ I)|exact (iv_order _ _ _ _ _ I)]].
  assert (Hempty : ts_pStack st = []).
  { destruct (ts_pStack st) as [|y l] eqn:Es; [done|]. destruct (iv_down _ _ _ _ _ I y) as (g & Hg & _); [by left|]. by apply not_elem_of_nil in Hg. }
  rewrite Hempty in I. apply NoDup_Permutation.
  - exact (iv_nodup _ _ _ _ _ I).
  - apply NoDup_seq.
  - intros x. split.
    + intros Hx. apply elem_of_seq. assert (idx st x <> -1) by (apply (iv_visited _ _ _ _ _ I); by right). pose proof (idx_lt st comps x Hc). lia.
    + intros Hx%Hv. apply (iv_visited _ _ _ _ _ I) in Hx as [Hx|Hx]; [by apply not_elem_of_nil in Hx|done].
Qed.
End Components.

(** ** The result *)

(** Edges between the nodes of a graph, and mutual reachability. *)
Definition joined (ids : list Z) (out : Z -> list Z) (a b : Z) : Prop := a ∈ ids /\ b ∈ ids /\ b ∈ out a.
Definition mutual (ids : list Z) (out : Z -> list Z) (a b : Z) : Prop := rtc (joined ids out) a b /\ rtc (joined ids out) b a.

(** Components in an order in which edges lead to earlier ones. *)
Definition components (ids : list Z) (out : Z -> list Z) (comps : list (list Z)) : Prop :=
  concat comps ≡ₚ ids /\ Forall (fun c => c <> [] /\ forall x y, x ∈ c -> (y ∈ c <-> y ∈ ids /\ mutual ids out x y)) comps /\
  forall i c a b, comps !! i = Some c -> a ∈ c -> joined ids out a b -> b ∈ concat (take (S i) comps).

Section Ids.
Context (ids : list Z) (Hsorted : StronglySorted Z.lt ids) (out : Z -> list Z).

Lemma arrow_joined (a b : nat) (x y : Z) : ids !! a = Some x -> ids !! b = Some y -> (arrow ids out a b <-> joined ids out x y).
Proof.
  intros Ha Hb. split.
  - intros (u & w & Hu & Hw & Hin). assert (u = x) as -> by congruence. assert (w = y) as -> by congruence.
    split; [by eapply list_elem_of_lookup_2|]. split; [by eapply list_elem_of_lookup_2|done].
  - intros (_ & _ & Hin). by exists x, y.
Qed.

Lemma reach_joined (a b : nat) (x y : Z) : ids !! a = Some x -> ids !! b = Some y -> (rtc (arrow ids out) a b <-> rtc (joined ids out) x y).
Proof.
  intros Ha Hb. split.
  - intros Hr. revert x Ha. induction Hr as [a|a c b Hac _ IH]; intros x Ha; [assert (x = y) as -> by congruence; done|].
    pose proof Hac as (_ & z & _ & Hz & _). eapply rtc_l; [by eapply arrow_joined in Hac|]. by apply IH.
  - intros Hr. revert a Ha. induction Hr as [x|x z y Hxz _ IH]; intros a Ha; [assert (a = b) as -> by (by eapply ids_injective); done|].
    pose proof Hxz as (_ & [c Hc]%list_elem_of_lookup_1 & _). eapply rtc_l; [by eapply arrow_joined|]. by apply IH.
Qed.

Lemma index_ids : aget 0 ids <$> seq 0 (length ids) = ids.
Proof.
  apply list_eq. intros i. rewrite list_lookup_fmap. destruct (ids !! i) as [x|] eqn:E.
  - rewrite lookup_seq_lt by (by eapply lookup_lt_Some). cbn. by rewrite (aget_lookup _ _ _ _ E).
  - by rewrite lookup_seq_ge by (by apply lookup_ge_None_1).
Qed.

Lemma concat_fmap {A B : Type} (f : A -> B) (l : list (list A)) : concat ((fun c : list A => f <$> c) <$> l) = f <$> concat l.
Proof. induction l as [|x l IH]; [done|]. cbn. by rewrite fmap_app, <- IH. Qed.

Lemma components_ids (comps : list (list nat)) : concat comps ≡ₚ seq 0 (length ids) -> Forall (is_component ids out) comps ->
  (forall i c a b, comps !! i = Some c -> a ∈ c -> arrow ids out a b -> b ∈ concat (take (S i) comps)) ->
  components ids out ((fun c : list nat => aget 0 ids <$> c) <$> comps).
Proof.
  intros Hp Hc Ho.
  assert (Hnode : forall c a, c ∈ comps -> a ∈ c -> ids !! a = Some (aget 0 ids a)).
  { intros c a Hin Ha. apply aget_lookup_lt. assert (Hs : a ∈ seq 0 (length ids)) by (rewrite <- Hp; apply list_elem_of_In, in_concat; exists c; split; by apply list_elem_of_In).
    apply elem_of_seq in Hs. lia. }
  split; [|split].
  - rewrite concat_fmap, Hp. by rewrite index_ids.
  - apply Forall_fmap. rewrite list.Forall_forall in Hc |- *. intros c Hin. destruct (Hc c Hin) as [Hne Hcl]. split; [by destruct c|].
    intros x y Hx. apply list_elem_of_fmap in Hx as (a & -> & Ha). pose proof (Hnode c a Hin Ha) as Hida. split.
    + intros Hy. apply list_elem_of_fmap in Hy as (b & -> & Hb). pose proof (Hnode c b Hin Hb) as Hidb. split; [by eapply list_elem_of_lookup_2|].
      destruct (proj1 (Hcl a b Ha) Hb) as [H1 H2]. split; by eapply reach_joined.
    + intros [[b Hb]%list_elem_of_lookup_1 [H1 H2]]. apply list_elem_of_fmap. exists b. split; [by rewrite (aget_lookup _ _ _ _ Hb)|].
      apply (Hcl a b Ha). split; by eapply reach_joined.
  - intros i c a b Hi Ha Hab. rewrite <- fmap_take, concat_fmap. rewrite list_lookup_fmap in Hi.
    destruct (comps !! i) as [c'|] eqn:Ei; [|done]. injection Hi as <-. apply list_elem_of_fmap in Ha as (a' & -> & Ha).
    assert (Hin : c' ∈ comps) by (by eapply list_elem_of_lookup_2). pose proof (Hnode c' a' Hin Ha) as Hida.
    pose proof Hab as (_ & [b' Hb]%list_elem_of_lookup_1 & _). apply list_elem_of_fmap. exists b'. split; [by rewrite (aget_lookup _ _ _ _ Hb)|].
    eapply Ho; [done|done|]. by eapply arrow_joined.
Qed.
End Ids.

(** The ids of fewer than 2^28 nodes fit. *)
Lemma createNodeIndexMap_ok (ids : list Z) : Z.of_nat (length ids) < 2 ^ 28 -> ids <> [] -> createNodeIndexMap (Some ids) = Ok (Some ids).
Proof.
  intros Hn Hne. destruct ids as [|id l]; [done|]. cbn [createNodeIndexMap]. rewrite malloc_small by (cbn [length] in *; lia).
  by rewrite (proj2 (Z.leb_gt _ _)), (proj2 (Z.ltb_ge _ _)) by (cbn [length] in *; lia).
Qed.

(** C5: The components are the strongly connected ones.  On a graph of fewer
    than 2^28 nodes whose edges can be selected,
    [graphStronglyConnectedComponents] ends, with a recursion no deeper than
    there are nodes, and returns the JSON array of the classes of mutual
    reachability, every node in one of them; each class comes after those its
    edges lead to. *)
Theorem scc_correct (ids : list Z) (out : Z -> list Z) (fuel : nat) :
  StronglySorted Z.lt ids -> Z.of_nat (length ids) < 2 ^ 28 -> (length ids <= fuel)%nat ->
  exists comps, components ids out comps /\
    graphStronglyConnectedComponents fuel (Some ids) (fun id => Some (out id)) =
    Some (Ok (SQLITE_OK, Some ([91] ++ join_texts (path_text true <$> comps) ++ [93]))).
Proof.
  intros Hs Hn Hf. destruct (scc_all ids Hs out fuel Hf) as (st & comps & E & Ht & Hp & Hc & Ho).
  exists ((fun c : list nat => aget 0 ids <$> c) <$> comps). split; [by apply components_ids|]. unfold graphStronglyConnectedComponents, count_rows.
  rewrite to_i32_id by (unfold in_i32; lia). destruct ids as [|id l] eqn:Eids.
  - cbn in Hp. assert (comps = []) as ->; [|done]. destruct comps as [|c comps]; [done|]. apply Forall_cons_1 in Hc as [[Hne _] _].
    destruct c; [done|]. by apply Permutation_sym, Permutation_nil in Hp.
  - rewrite <- Eids in *. rewrite (proj2 (Z.eqb_neq _ _)) by (rewrite Eids; cbn [length]; lia).
    rewrite createNodeIndexMap_ok by (done || by rewrite Eids).
    rewrite Nat2Z.id, E, Ht. by rewrite <- list_fmap_compose.
Qed.

Lemma scc_correct_witness :
  let out := fun id => if id =? 3 then [7; 5] else if id =? 5 then [3] else if id =? 7 then [9; 100] else if id =? 9 then [7; 9] else [] in
  exists comps, components [3; 5; 7; 9] out comps /\
    graphStronglyConnectedComponents 4 (Some [3; 5; 7; 9]) (fun id => Some (out id)) =
    Some (Ok (SQLITE_OK, Some ([91] ++ join_texts (path_text true <$> comps) ++ [93]))).
Proof.
  apply scc_correct; [repeat first [constructor | lia]|by_compute|cbn; lia].
Defined.

Lemma scc_loop_blind (fuel : nat) (ids : list Z) (l : list nat) (st : TarjanState) : (1 <= fuel)%nat ->
  exists st', scc_loop fuel ids (fun _ => None) l st = Some st' /\ ts_azSCC st' = ts_azSCC st.
Proof.
  intros Hf. revert st. induction l as [|i l IH]; intros st; cbn [scc_loop]; [by exists st|].
  destruct (aget (-1) (ts_aIndex st) i =? -1); [|apply IH]. destruct fuel as [|fuel]; [lia|]. exact (IH (tarjan_enter st i)).
Qed.

(** The tables have the columns source and target, the statement selects to_id
    where from_id is given: it cannot be prepared, and the result has no
    component whatever the graph. *)
Lemma scc_without_columns (ids : list Z) (fuel : nat) : Z.of_nat (length ids) < 2 ^ 28 -> (1 <= fuel)%nat ->
  graphStronglyConnectedComponents fuel (Some ids) (fun _ => None) = Some (Ok (SQLITE_OK, Some (bstr "[]"))).
Proof.
  intros Hn Hf. unfold graphStronglyConnectedComponents. destruct (count_rows (Some ids) =? 0) eqn:E; [done|].
  rewrite createNodeIndexMap_ok; [|done|by intros ->].
  destruct (scc_loop_blind fuel ids (seq 0 (Z.to_nat (count_rows (Some ids)))) (tarjan_start (Z.to_nat (count_rows (Some ids)))) Hf) as (st & -> & ->).
  done.
Qed.
