(* ===== verification/StaticBlob.v ===== *)
(** * Static blobs (sqlite-vec.c, [vec_static_blob_from_raw] to
    [vec_static_blob_entriesModule])

    [vec_static_blobs] is a table of at most 16 named arrays of vectors in
    memory of the caller, [vec_static_blob_entries] a table over one of them.
    The memory is a function from addresses to bytes, [None] where nothing may
    be read.  A search writes one bit past its bitmap: the bytes an allocation
    has beyond its size are an argument, and if there are none the search is
    undefined.  [Undef] is also the end of the process by [abort].

    Shown: what is registered is what is listed and found, by a prefix of the
    name asked for; a scan returns the vectors; a search returns the nearest
    ones, unless it has overwritten foreign memory. *)

From Stdlib Require Import String ZArith Lia Sorting.
From stdpp Require Import base option list numbers.
From S2P Require Import Prelude Float32 Bitmap TopK Distance Codec Shadow DefParser Values Scalar Filter Plan Storage Query Graph.

Local Open Scope Z_scope.
Local Open Scope query_scope.

(** ** Definitions of blobs *)

Record static_blob_definition := MkBlobDef {
  bd_p : Z;
  bd_dimensions : Z;
  bd_nvectors : Z;
  bd_element_type : VectorElementType
}.

Record static_blob := MkBlob {
  sb_name : bytes;
  sb_p : Z;
  sb_dimensions : Z;
  sb_nvectors : Z;
  sb_element_type : VectorElementType
}.

Definition MAX_STATIC_BLOBS : nat := 16.

(** [None]: the name is [NULL]. *)
Abbreviation vec_static_blob_data := (list (option static_blob)).

Definition no_blobs : vec_static_blob_data := replicate MAX_STATIC_BLOBS None.

(** [while (!xEof) { visit; xNext }]: how SQLite reads a cursor. *)
Fixpoint read_rows {C A : Type} (eof : C -> bool) (next : C -> C) (visit : C -> A) (fuel : nat) (cur : C) : option (list A) :=
  if eof cur then Some []
  else match fuel with O => None | S fuel => cons (visit cur) <$> read_rows eof next visit fuel (next cur) end.

Section Blobs.
Context `{SqlValues}.

Definition vec_static_blob_from_raw (argv : list value) : res static_blob_definition :=
  match argv with
  | [p; _; dimensions; nvectors] =>
      Ok (MkBlobDef (value_int64 p) (to_size (value_int64 dimensions)) (to_size (value_int64 nvectors)) SQLITE_VEC_ELEMENT_TYPE_FLOAT32)
  | _ => Undef
  end.

Fixpoint free_slot (data : vec_static_blob_data) (i : nat) : option nat :=
  match data with
  | [] => None
  | None :: _ => Some i
  | Some _ :: data => free_slot data (S i)
  end.

(** [def] is what [sqlite3_value_pointer] gives for the column data. *)
Definition vec_static_blobsUpdate (data : vec_static_blob_data) (argv : list value) (def : option static_blob_definition)
    : res vec_static_blob_data :=
  if (1 <? length argv)%nat && is_null (aget VNull argv 0) then
    let key := default [] (arg_text (aget VNull argv 2)) in
    match free_slot data 0, def with
    | Some idx, Some d => Ok (<[idx := Some (MkBlob key (bd_p d) (bd_dimensions d) (bd_nvectors d) (bd_element_type d))]> data)
    | _, _ => Undef
    end
  else Err SQLITE_ERROR.

(** ** [vec_static_blobs] *)

(** A cursor is its row. *)
Fixpoint skip_unused (fuel : nat) (data : vec_static_blob_data) (iRowid : Z) : Z :=
  match fuel with
  | O => iRowid
  | S fuel =>
      if iRowid <? Z.of_nat MAX_STATIC_BLOBS then
        match aget None data (Z.to_nat iRowid) with
        | Some _ => iRowid
        | None => skip_unused fuel data (iRowid + 1)
        end
      else iRowid
  end.

Definition vec_static_blobsNext (data : vec_static_blob_data) (iRowid : Z) : Z := skip_unused MAX_STATIC_BLOBS data (iRowid + 1).

Definition vec_static_blobsFilter (data : vec_static_blob_data) : Z := vec_static_blobsNext data (-1).

Definition vec_static_blobsRowid (iRowid : Z) : Z := iRowid.

Definition vec_static_blobsEof (iRowid : Z) : bool := Z.of_nat MAX_STATIC_BLOBS <=? iRowid.

Definition VEC_STATIC_BLOBS_NAME : Z := 0.
Definition VEC_STATIC_BLOBS_DATA : Z := 1.
Definition VEC_STATIC_BLOBS_DIMENSIONS : Z := 2.
Definition VEC_STATIC_BLOBS_COUNT : Z := 3.

Definition vec_static_blobsColumn (data : vec_static_blob_data) (iRowid i : Z) : res column_result :=
  match aget None data (Z.to_nat iRowid) with
  | Some b =>
      Ok (if i =? VEC_STATIC_BLOBS_NAME then CValue (VText (sb_name b))
          else if i =? VEC_STATIC_BLOBS_DATA then Query.CNull
          else if i =? VEC_STATIC_BLOBS_DIMENSIONS then CValue (VInt (to_i64 (sb_dimensions b)))
          else if i =? VEC_STATIC_BLOBS_COUNT then CValue (VInt (to_i64 (sb_nvectors b)))
          else CUnset)
  | None => Undef
  end.

(** ** [vec_static_blob_entries] *)

Fixpoint find_blob (data : vec_static_blob_data) (arg : bytes) (i : nat) : option nat :=
  match data with
  | [] => None
  | None :: data => find_blob data arg (S i)
  | Some b :: data =>
      if strncmp (length (sb_name b)) (sb_name b) arg =? 0 then Some i else find_blob data arg (S i)
  end.

(** The number of the blob; [arg] is the first argument of the module. *)
Definition vec_static_blob_entriesConnect (data : vec_static_blob_data) (arg : bytes) : res nat :=
  match find_blob data arg 0 with Some idx => Ok idx | None => Undef end.

Definition VEC_STATIC_BLOB_ENTRIES_VECTOR : Z := 0.
Definition VEC_STATIC_BLOB_ENTRIES_DISTANCE : Z := 1.
Definition VEC_STATIC_BLOB_ENTRIES_K : Z := 2.

Definition VEC_SBE__QUERYPLAN_FULLSCAN : Z := 1.
Definition VEC_SBE__QUERYPLAN_KNN : Z := 2.

(** *** [xBestIndex] *)

(** The constraints a plan uses. *)
Record sbe_terms := MkSbeTerms { bx_match : option nat; bx_limit : option nat; bx_k : option nat }.

Definition sbe_term (t : sbe_terms) (i : nat) (c : index_constraint) : option sbe_terms :=
  if negb (ic_usable c) then Some t
  else
    let is_match := (ic_op c =? SQLITE_INDEX_CONSTRAINT_MATCH) && (ic_column c =? VEC_STATIC_BLOB_ENTRIES_VECTOR) in
    if is_match && bool_decide (is_Some (bx_match t)) then None
    else
      let iMatchTerm := if is_match then Some i else bx_match t in
      let iLimitTerm := if ic_op c =? SQLITE_INDEX_CONSTRAINT_LIMIT then Some i else bx_limit t in
      let iKTerm :=
        if (ic_op c =? SQLITE_INDEX_CONSTRAINT_EQ) && (ic_column c =? VEC_STATIC_BLOB_ENTRIES_K) then Some i else bx_k t in
      Some (MkSbeTerms iMatchTerm iLimitTerm iKTerm).

Fixpoint sbe_terms_loop (t : sbe_terms) (i : nat) (cs : list index_constraint) : option sbe_terms :=
  match cs with
  | [] => Some t
  | c :: cs => match sbe_term t i c with Some t => sbe_terms_loop t (S i) cs | None => None end
  end.

(** The plan of a search, of [n] constraints: [idxNum], the use of the
    constraints, and [orderByConsumed]. *)
Definition sbe_knn_plan (n iMatchTerm iSizeTerm : nat) (orderBy : list index_orderby) : res (Z * list constraint_usage * bool) :=
  match orderBy with
  | [o] =>
      if negb (ob_column o =? VEC_STATIC_BLOB_ENTRIES_DISTANCE) then Err SQLITE_CONSTRAINT
      else if ob_desc o then Err SQLITE_CONSTRAINT
      else Ok (VEC_SBE__QUERYPLAN_KNN, <[iSizeTerm := MkUsage 2 true false]> (<[iMatchTerm := MkUsage 1 true false]> (replicate n unused)), true)
  | _ => Err SQLITE_CONSTRAINT
  end.

Definition vec_static_blob_entriesBestIndex (cs : list index_constraint) (orderBy : list index_orderby)
    : res (Z * list constraint_usage * bool) :=
  match sbe_terms_loop (MkSbeTerms None None None) 0 cs with
  | None => Err SQLITE_ERROR
  | Some t =>
      match bx_match t, bx_limit t, bx_k t with
      | None, _, _ => Ok (VEC_SBE__QUERYPLAN_FULLSCAN, replicate (length cs) unused, false)
      | Some _, None, None | Some _, Some _, Some _ => Err SQLITE_ERROR
      | Some iMatchTerm, Some iSizeTerm, None | Some iMatchTerm, None, Some iSizeTerm => sbe_knn_plan (length cs) iMatchTerm iSizeTerm orderBy
      end
  end.

(** *** Cursors *)

Record sbe_query_knn_data := MkSbeKnn {
  sq_k : Z;
  sq_rowids : list Z;
  sq_distances : list f32;
  sq_current_idx : Z
}.

Record vec_static_blob_entries_cursor := MkSbe {
  se_iRowid : Z;
  se_query_plan : Z;
  se_knn_data : option sbe_query_knn_data
}.

Definition vec_static_blob_entriesOpen : vec_static_blob_entries_cursor := MkSbe 0 0 None.

(** The memory of the caller; [pad]: what follows the bytes of the bitmap in
    its allocation. *)
Context (mem : Z -> option Z) (strtod : bytes -> number f64) (pad : bytes) (blob : static_blob).

Definition load (p : Z) (n : nat) : option bytes := mapM (fun i => mem (p + Z.of_nat i)) (seq 0 n).

(** The bytes of a vector. *)
Definition blob_vector (i : Z) : option bytes := load (sb_p blob + i * sb_dimensions blob * 4) (Z.to_nat (sb_dimensions blob * 4)).

Definition blob_distance (query : bytes) (i : nat) : option f32 :=
  let d := Z.to_nat (sb_dimensions blob) in
  (fun v => distance_l2_sqr_float (vector_floats v d) (vector_floats query d) d) <$> blob_vector (Z.of_nat i).

(** [for (i = bsize; i >= nvectors; i--) bitmap_set(candidates, i, 0)] *)
Fixpoint unset_down (bitmap : bytes) (i steps : nat) : res bytes :=
  match steps with
  | O => Ok bitmap
  | S steps => if (i / CHAR_BIT <? length bitmap)%nat then unset_down (bitmap_set bitmap i false) (i - 1) steps else Undef
  end.

(** The search proper, of at least one row. *)
Definition sbe_search (query : bytes) (k : Z) : res sbe_query_knn_data :=
  let bsize := Z.land (to_size (sb_nvectors blob + 7)) (-8) in
  match sqlite3_malloc (to_size (k * 4)), sqlite3_malloc (to_size (bsize * 4)) with
  | Some rowids_size, Some distances_size =>
      if (rowids_size <? k * 4) || (distances_size <? bsize * 4) then Undef
      else
        let n := Z.to_nat bsize in
        let nvectors := Z.to_nat (sb_nvectors blob) in
        match mapM (blob_distance query) (seq 0 nvectors) with
        | None => Undef
        | Some distances =>
            candidates <-? unset_down (bitmap_fill (bitmap_new n ++ pad) n) n (n - nvectors + 1);
            let '(topk_rowids, _) := min_idx distances n candidates (Z.to_nat k) (bitmap_new n) in
            Ok (MkSbeKnn k (Z.of_nat <$> topk_rowids) distances 0)
        end
  | _, _ => Err SQLITE_ERROR
  end.

Definition vec_static_blob_entriesFilter (idxNum : Z) (argv : list sval) (cur : vec_static_blob_entries_cursor)
    : res vec_static_blob_entries_cursor :=
  if idxNum =? VEC_SBE__QUERYPLAN_KNN then
    match argv with
    | [query; size] =>
        match vector_from_value strtod query with
        | None => Err SQLITE_ERROR
        | Some v =>
            if negb (bool_decide (vec_type v = sb_element_type blob)) then Err SQLITE_ERROR
            else if negb (Z.of_nat (vec_dims v) =? sb_dimensions blob) then Err SQLITE_ERROR
            else
              let k := Z.min (value_int64 (sv_value size)) (to_i64 (sb_nvectors blob)) in
              if k <? 0 then Err SQLITE_ERROR
              else
                knn_data <-? (if k =? 0 then Ok (MkSbeKnn 0 [] [] 0) else sbe_search (vec_bytes v) k);
                Ok (MkSbe (se_iRowid cur) VEC_SBE__QUERYPLAN_KNN (Some knn_data))
        end
    | _ => Undef
    end
  else Ok (MkSbe 0 VEC_SBE__QUERYPLAN_FULLSCAN (se_knn_data cur)).

(** The row of a search; [Undef]: not written. *)
Definition sbe_knn_rowid (cur : vec_static_blob_entries_cursor) : res Z :=
  match se_knn_data cur with
  | Some d => match sq_rowids d !! Z.to_nat (sq_current_idx d) with Some rowid => Ok rowid | None => Undef end
  | None => Undef
  end.

Definition vec_static_blob_entriesRowid (cur : vec_static_blob_entries_cursor) : res Z :=
  if se_query_plan cur =? VEC_SBE__QUERYPLAN_FULLSCAN then Ok (se_iRowid cur)
  else if se_query_plan cur =? VEC_SBE__QUERYPLAN_KNN then sbe_knn_rowid cur
  else Err SQLITE_ERROR.

(** A cursor with the plan KNN has its data. *)
Definition vec_static_blob_entriesNext (cur : vec_static_blob_entries_cursor) : vec_static_blob_entries_cursor :=
  if se_query_plan cur =? VEC_SBE__QUERYPLAN_FULLSCAN then MkSbe (se_iRowid cur + 1) (se_query_plan cur) (se_knn_data cur)
  else if se_query_plan cur =? VEC_SBE__QUERYPLAN_KNN then
    MkSbe (se_iRowid cur) (se_query_plan cur)
      ((fun d => MkSbeKnn (sq_k d) (sq_rowids d) (sq_distances d) (sq_current_idx d + 1)) <$> se_knn_data cur)
  else cur.

Definition vec_static_blob_entriesEof (cur : vec_static_blob_entries_cursor) : bool :=
  if se_query_plan cur =? VEC_SBE__QUERYPLAN_FULLSCAN then sb_nvectors blob <=? to_size (se_iRowid cur)
  else if se_query_plan cur =? VEC_SBE__QUERYPLAN_KNN then
    match se_knn_data cur with Some d => sq_k d <=? sq_current_idx d | None => true end
  else true.

(** [sqlite3_result_blob]: the length is an [int]. *)
Definition sbe_vector_result (rowid : Z) : res column_result :=
  if sb_dimensions blob * 4 <? 2 ^ 31 then
    match blob_vector rowid with
    | Some b => Ok (CBlob b (element_code (sb_element_type blob)))
    | None => Undef
    end
  else Undef.

(** Only the column vector is ever set. *)
Definition vec_static_blob_entriesColumn (cur : vec_static_blob_entries_cursor) (i : Z) : res column_result :=
  if se_query_plan cur =? VEC_SBE__QUERYPLAN_FULLSCAN then
    if i =? VEC_STATIC_BLOB_ENTRIES_VECTOR then sbe_vector_result (se_iRowid cur) else Ok CUnset
  else if se_query_plan cur =? VEC_SBE__QUERYPLAN_KNN then
    if i =? VEC_STATIC_BLOB_ENTRIES_VECTOR then rowid <-? sbe_knn_rowid cur; sbe_vector_result rowid else Ok CUnset
  else Err SQLITE_ERROR.

(** The rows of a query: rowid, vector and distance. *)
Definition sbe_rows (fuel : nat) (cur : vec_static_blob_entries_cursor) : option (list (res Z * res column_result * res column_result)) :=
  read_rows vec_static_blob_entriesEof vec_static_blob_entriesNext
    (fun cur => (vec_static_blob_entriesRowid cur, vec_static_blob_entriesColumn cur VEC_STATIC_BLOB_ENTRIES_VECTOR,
                 vec_static_blob_entriesColumn cur VEC_STATIC_BLOB_ENTRIES_DISTANCE)) fuel cur.
End Blobs.

(** ** Reading cursors *)

(** A cursor that goes through the states [f i] to [f n]. *)
Lemma read_rows_seq {C A : Type} (eof : C -> bool) (next : C -> C) (visit : C -> A) (f : nat -> C) (n fuel i : nat) :
  (forall j, (i <= j < n)%nat -> eof (f j) = false /\ next (f j) = f (S j)) -> eof (f n) = true -> (i <= n)%nat -> (n - i <= fuel)%nat ->
  read_rows eof next visit fuel (f i) = Some ((fun j => visit (f j)) <$> seq i (n - i)).
Proof.
  revert i. induction fuel as [|fuel IH]; intros i Hf He Hi Hn.
  - replace i with n by lia. cbn. by rewrite He, Nat.sub_diag.
  - destruct (decide (i = n)) as [->|Hne]; [cbn; by rewrite He, Nat.sub_diag|].
    destruct (Hf i) as [H1 H2]; [lia|]. cbn [read_rows]. rewrite H1, H2, IH; [|intros j Hj; apply Hf; lia|done|lia|lia].
    replace (n - i)%nat with (S (n - S i)) by lia. done.
Qed.

Section Listing.
Context `{SqlValues}.

(** ** The blobs registered *)

(** The slots after blobs have been registered. *)
Definition slots (bs : list static_blob) : vec_static_blob_data := (Some <$> bs) ++ replicate (MAX_STATIC_BLOBS - length bs) None.

Lemma free_slot_slots (bs : list static_blob) (i : nat) : (length bs < MAX_STATIC_BLOBS)%nat -> free_slot (slots bs) i = Some (i + length bs)%nat.
Proof.
  intros Hl. unfold slots. destruct (MAX_STATIC_BLOBS - length bs)%nat as [|m] eqn:E; [lia|]. clear Hl E.
  revert i. induction bs as [|b bs IH]; intros i; cbn; [f_equal; lia|]. rewrite IH. f_equal. lia.
Qed.

Lemma slots_snoc (bs : list static_blob) (b : static_blob) : (length bs < MAX_STATIC_BLOBS)%nat ->
  <[length bs := Some b]> (slots bs) = slots (bs ++ [b]).
Proof.
  intros Hl. unfold slots. rewrite fmap_app, length_app. cbn [length fmap list_fmap].
  replace (MAX_STATIC_BLOBS - length bs)%nat with (S (MAX_STATIC_BLOBS - (length bs + 1))) by lia.
  rewrite insert_app_r_alt by (by rewrite length_fmap). rewrite length_fmap, Nat.sub_diag. cbn. by rewrite <- app_assoc.
Qed.

Lemma slots_get (bs : list static_blob) (i : nat) : aget None (slots bs) i = bs !! i.
Proof.
  unfold slots. destruct (decide (i < length bs)%nat) as [Hi|Hi].
  - destruct (lookup_lt_is_Some_2 bs i Hi) as [b E]. rewrite E. apply aget_lookup. rewrite lookup_app_l by (by rewrite length_fmap). by rewrite list_lookup_fmap, E.
  - rewrite (lookup_ge_None_2 bs) by lia. unfold aget. rewrite lookup_app_r by (rewrite length_fmap; lia).
    destruct (replicate _ None !! _) as [x|] eqn:E; [|done]. by apply lookup_replicate in E as [-> _].
Qed.

Lemma cstring_no_nul (t : bytes) : no_nul t -> cstring t = t.
Proof. induction 1 as [|c t Hc _ IH]; [done|]. cbn. destruct (Z.eqb_spec c 0); [lia|]. by rewrite IH. Qed.

(** The statements that register blobs. *)
Fixpoint register (data : vec_static_blob_data) (rows : list (bytes * static_blob_definition)) : res vec_static_blob_data :=
  match rows with
  | [] => Ok data
  | (name, d) :: rows => data <-? vec_static_blobsUpdate data [VNull; VNull; VText name; VNull; VNull; VNull] (Some d); register data rows
  end.

Definition blob_of (r : bytes * static_blob_definition) : static_blob :=
  MkBlob r.1 (bd_p r.2) (bd_dimensions r.2) (bd_nvectors r.2) (bd_element_type r.2).

Lemma register_slots (rows : list (bytes * static_blob_definition)) (bs : list static_blob) :
  Forall (fun r => no_nul r.1) rows -> (length bs + length rows <= MAX_STATIC_BLOBS)%nat ->
  register (slots bs) rows = Ok (slots (bs ++ (blob_of <$> rows))).
Proof.
  revert bs. induction rows as [|[name d] rows IH]; intros bs Hn Hl; cbn [register].
  - by rewrite app_nil_r.
  - apply Forall_cons_1 in Hn as [Hname Hn]. cbn [length] in Hl. unfold vec_static_blobsUpdate.
    change (default [] (arg_text (aget VNull [VNull; VNull; VText name; VNull; VNull; VNull] 2))) with (cstring (value_text (VText name))).
    cbn [length Nat.ltb Nat.leb andb aget default is_null]. rewrite free_slot_slots by lia.
    rewrite value_text_text, cstring_no_nul, Nat.add_0_l, slots_snoc by (done || lia). cbn.
    rewrite IH by (done || rewrite length_app; cbn; lia). by rewrite <- app_assoc.
Qed.

Lemma skip_unused_slots (bs : list static_blob) (fuel i : nat) : (length bs <= MAX_STATIC_BLOBS)%nat -> (i <= length bs)%nat ->
  (MAX_STATIC_BLOBS <= fuel + i)%nat ->
  skip_unused fuel (slots bs) (Z.of_nat i) = Z.of_nat (if (i <? length bs)%nat then i else MAX_STATIC_BLOBS).
Proof.
  intros Hl Hi Hf. destruct (Nat.ltb_spec i (length bs)) as [Hlt|Hge].
  - destruct fuel as [|fuel]; [lia|]. cbn [skip_unused]. rewrite (proj2 (Z.ltb_lt _ _)) by lia. rewrite Nat2Z.id, slots_get.
    by destruct (lookup_lt_is_Some_2 bs i Hlt) as [b ->].
  - assert (Hskip : forall fuel i, (length bs <= i <= MAX_STATIC_BLOBS)%nat -> (MAX_STATIC_BLOBS <= fuel + i)%nat ->
      skip_unused fuel (slots bs) (Z.of_nat i) = Z.of_nat MAX_STATIC_BLOBS); [|apply Hskip; lia].
    clear i fuel Hi Hf Hge. induction fuel as [|fuel IH]; intros i Hi Hf; cbn [skip_unused]; [f_equal; lia|].
    destruct (Z.ltb_spec (Z.of_nat i) (Z.of_nat MAX_STATIC_BLOBS)); [|f_equal; lia].
    rewrite Nat2Z.id, slots_get, lookup_ge_None_2 by lia. replace (Z.of_nat i + 1) with (Z.of_nat (S i)) by lia. apply IH; lia.
Qed.

(** Listing the table gives the blobs in the order of their registration. *)
Lemma static_blobs_listed (rows : list (bytes * static_blob_definition)) : Forall (fun r => no_nul r.1) rows ->
  (length rows <= MAX_STATIC_BLOBS)%nat ->
  exists data, register no_blobs rows = Ok data /\
    read_rows vec_static_blobsEof (vec_static_blobsNext data)
      (fun cur => (vec_static_blobsRowid cur, vec_static_blobsColumn data cur <$> [0; 1; 2; 3])) (length rows) (vec_static_blobsFilter data) =
    Some ((fun i => let b := blob_of (aget ([], MkBlobDef 0 0 0 SQLITE_VEC_ELEMENT_TYPE_FLOAT32) rows i) in
      (Z.of_nat i, [Ok (CValue (VText (sb_name b))); Ok Query.CNull; Ok (CValue (VInt (to_i64 (sb_dimensions b)))); Ok (CValue (VInt (to_i64 (sb_nvectors b))))]))
      <$> seq 0 (length rows)).
Proof.
  intros Hn Hl. exists (slots (blob_of <$> rows)). split; [apply (register_slots rows []); [done|cbn; lia]|].
  pose proof (length_fmap blob_of rows) as Hlen. set (bs := blob_of <$> rows) in *.
  set (f := fun i : nat => Z.of_nat (if (i <? length bs)%nat then i else MAX_STATIC_BLOBS)).
  assert (Hf : forall i, (i <= length bs)%nat -> skip_unused MAX_STATIC_BLOBS (slots bs) (Z.of_nat i) = f i).
  { intros i Hi. apply skip_unused_slots; lia. }
  replace (vec_static_blobsFilter (slots bs)) with (f 0%nat) by (symmetry; apply (Hf 0%nat); lia).
  rewrite (read_rows_seq _ _ _ f (length bs)).
  - rewrite Nat.sub_0_r, Hlen. f_equal. apply fmap_seq0_ext. intros i Hi. unfold f. rewrite (proj2 (Nat.ltb_lt _ _)) by lia.
    unfold vec_static_blobsRowid. f_equal. unfold vec_static_blobsColumn. cbn [fmap list_fmap]. rewrite Nat2Z.id, slots_get.
    unfold bs. rewrite list_lookup_fmap. destruct (lookup_lt_is_Some_2 rows i) as [r Er]; [lia|]. rewrite Er. by rewrite (aget_lookup _ _ _ _ Er).
  - intros j Hj. unfold f at 1 2. rewrite (proj2 (Nat.ltb_lt _ _)) by lia. split; [apply Z.leb_gt; lia|].
    unfold vec_static_blobsNext. replace (Z.of_nat j + 1) with (Z.of_nat (S j)) by lia. apply Hf. lia.
  - unfold f. by rewrite Nat.ltb_irrefl.
  - lia.
  - lia.
Qed.

(** A table is opened on the first blob whose name begins the name asked for. *)
Lemma static_blob_found (bs : list static_blob) (arg : bytes) (i : nat) (b : static_blob) : Forall (fun b => no_nul (sb_name b)) bs -> no_nul arg ->
  bs !! i = Some b -> sb_name b `prefix_of` arg -> (forall j c, (j < i)%nat -> bs !! j = Some c -> ~ sb_name c `prefix_of` arg) ->
  vec_static_blob_entriesConnect (slots bs) arg = Ok i.
Proof.
  intros Hn Ha. unfold vec_static_blob_entriesConnect, slots. generalize (replicate (MAX_STATIC_BLOBS - length bs) (None : option static_blob)) as rest. intros rest.
  assert (Hp : forall c, no_nul (sb_name c) -> (strncmp (length (sb_name c)) (sb_name c) arg =? 0) = bool_decide (sb_name c `prefix_of` arg)).
  { intros c Hc. rewrite strncmp_eqb by done. apply bool_decide_ext. rewrite firstn_all. split.
    - intros ->. exists (drop (length (sb_name c)) arg). symmetry. apply take_drop.
    - intros [k ->]. by rewrite take_app_length. }
  enough (Hf : forall i0, bs !! i = Some b -> sb_name b `prefix_of` arg -> (forall j c, (j < i)%nat -> bs !! j = Some c -> ~ sb_name c `prefix_of` arg) ->
    find_blob ((Some <$> bs) ++ rest) arg i0 = Some (i0 + i)%nat).
  { intros Hi Hb Hj. by rewrite (Hf 0%nat Hi Hb Hj). }
  clear -Hn Hp. revert i. induction Hn as [|c bs Hc _ IH]; intros i i0 Hi Hb Hj; [done|]. cbn [fmap list_fmap app find_blob]. rewrite Hp by done.
  destruct i as [|i]; [injection Hi as ->; rewrite bool_decide_eq_true_2 by done; f_equal; lia|].
  rewrite bool_decide_eq_false_2 by (apply (Hj 0%nat); [lia|done]). rewrite (IH i (S i0)); [f_equal; lia|done|done|].
  intros j d Hlt. apply (Hj (S j)). lia.
Qed.
End Listing.

(** ** Queries *)

(** Which bits are left. *)
Lemma unset_down_ok (steps i : nat) (bm : bytes) : Forall is_byte bm -> (steps <= i + 1)%nat -> (i / CHAR_BIT < length bm)%nat ->
  exists bm', unset_down bm i steps = Ok bm' /\ Forall is_byte bm' /\
    forall j, bitmap_test bm' j = bitmap_test bm j && negb ((i <? j + steps)%nat && (j <=? i)%nat).
Proof.
  revert i bm. induction steps as [|steps IH]; intros i bm Hb Hs Hi; cbn [unset_down].
  - exists bm. split; [done|]. split; [done|]. intros j. rewrite Nat.add_0_r.
    destruct (Nat.ltb_spec i j), (Nat.leb_spec j i); cbn; rewrite ?andb_true_r; done || lia.
  - rewrite (proj2 (Nat.ltb_lt _ _)) by done.
    assert (Hlt : (i < length bm * 8)%nat) by (change CHAR_BIT with 8%nat in Hi; pose proof (Nat.div_mod_eq i 8); pose proof (Nat.mod_upper_bound i 8); lia).
    destruct (bitmap_set_wf (length bm * 8) bm i false) as [Hlen Hb']; [by split|].
    destruct (IH (i - 1)%nat (bitmap_set bm i false)) as (bm' & E & Hb'' & Ht).
    + done.
    + lia.
    + clear Hi. change CHAR_BIT with 8%nat. apply Nat.Div0.div_lt_upper_bound. rewrite Nat.mul_comm, Hlen. lia.
    + exists bm'. split; [done|]. split; [done|]. intros j. rewrite Ht. destruct (decide (j = i)) as [->|Hne].
      * rewrite bitmap_test_set_eq by done. cbn [andb]. rewrite (proj2 (Nat.ltb_lt _ _)), Nat.leb_refl by lia. by rewrite andb_false_r.
      * rewrite bitmap_test_set_ne by (done || lia). f_equal. f_equal.
        destruct (Nat.ltb_spec (i - 1) (j + steps)), (Nat.ltb_spec i (j + S steps)), (Nat.leb_spec j (i - 1)), (Nat.leb_spec j i); done || lia.
Qed.

Lemma land_round (z : Z) : Z.land z (-8) = 8 * (z / 8).
Proof.
  change (-8) with (Z.lnot (Z.ones 3)). rewrite <- Z.ldiff_land, Z.ldiff_ones_r, Z.shiftl_mul_pow2, Z.shiftr_div_pow2 by lia.
  change (2 ^ 3) with 8. lia.
Qed.

(** The candidates of a search: all vectors, if the bit past the bitmap is
    in the allocation. *)
Lemma search_candidates (n b : nat) (pad : bytes) : (0 < n)%nat -> (n <= 8 * b < n + 8)%nat -> Forall is_byte pad ->
  match pad with
  | [] => unset_down (bitmap_fill (bitmap_new (8 * b) ++ pad) (8 * b)) (8 * b) (8 * b - n + 1) = Undef
  | _ => exists bm, unset_down (bitmap_fill (bitmap_new (8 * b) ++ pad) (8 * b)) (8 * b) (8 * b - n + 1) = Ok bm /\
      candidate_idxs (8 * b) bm = seq 0 n
  end.
Proof.
  intros Hn Hb Hp. assert (Hdiv : (8 * b / CHAR_BIT)%nat = b) by (change CHAR_BIT with 8%nat; rewrite Nat.mul_comm; by apply Nat.div_mul).
  assert (Hfill : bitmap_fill (bitmap_new (8 * b) ++ pad) (8 * b) = replicate b 255 ++ pad).
  { unfold bitmap_fill, bitmap_new. rewrite Hdiv. by rewrite drop_app_length' by (by rewrite length_replicate). }
  destruct pad as [|c pad].
  - rewrite Nat.add_1_r. cbn [unset_down]. rewrite Hdiv, Hfill, app_nil_r, length_replicate. by rewrite Nat.ltb_irrefl.
  - destruct (unset_down_ok (8 * b - n + 1) (8 * b) (bitmap_fill (bitmap_new (8 * b) ++ c :: pad) (8 * b))) as (bm & E & _ & Ht).
    + rewrite Hfill. apply Forall_app. split; [|done]. apply Forall_replicate. unfold is_byte. lia.
    + lia.
    + rewrite Hdiv, Hfill, length_app, length_replicate. cbn. lia.
    + exists bm. split; [done|]. unfold candidate_idxs. replace (8 * b)%nat with (n + (8 * b - n))%nat at 1 by lia. rewrite seq_app, list.filter_app.
      rewrite filter_keeps_all, filter_drops_all, app_nil_r; [done| |]; intros j Hj; apply elem_of_seq in Hj; rewrite Ht.
      * destruct (Nat.ltb_spec (8 * b) (j + (8 * b - n + 1))), (Nat.leb_spec j (8 * b)); try lia.
      * rewrite bitmap_test_fill; [|rewrite Nat.mul_comm; apply Nat.Div0.mod_mul|lia].
        by destruct (Nat.ltb_spec (8 * b) (j + (8 * b - n + 1))), (Nat.leb_spec j (8 * b)); try lia.
Qed.

Section Query.
Context `{SqlValues} (mem : Z -> option Z) (strtod : bytes -> number f64) (pad : bytes) (blob : static_blob) (rows : list bytes).
Let n := length rows.
Let d := Z.to_nat (sb_dimensions blob).

(** The vectors of a blob, in memory. *)
Definition blob_rows : Prop :=
  sb_nvectors blob = Z.of_nat n /\ Z.of_nat n < 2 ^ 28 /\ 0 <= sb_dimensions blob < 2 ^ 29 /\
  mapM (fun i => blob_vector mem blob (Z.of_nat i)) (seq 0 n) = Some rows.

Context (Hblob : blob_rows).

Lemma blob_vector_row (i : nat) : (i < n)%nat -> blob_vector mem blob (Z.of_nat i) = Some (aget [] rows i).
Proof.
  intros Hi. destruct Hblob as (_ & _ & _ & Hm). apply mapM_Some in Hm. destruct (lookup_lt_is_Some_2 rows i Hi) as [v Hv].
  rewrite (aget_lookup _ _ _ _ Hv). destruct (Forall2_lookup_r _ _ _ i v Hm Hv) as (j & Hj & E).
  rewrite lookup_seq_lt in Hj by done. by injection Hj as <-.
Qed.

Lemma row_result (i : nat) : (i < n)%nat -> sbe_vector_result mem blob (Z.of_nat i) = Ok (CBlob (aget [] rows i) (element_code (sb_element_type blob))).
Proof.
  intros Hi. unfold sbe_vector_result. rewrite (proj2 (Z.ltb_lt _ _)) by (destruct Hblob; lia). by rewrite blob_vector_row.
Qed.

(** What is read of row [i]. *)
Definition blob_row (i : nat) : res Z * res column_result * res column_result :=
  (Ok (Z.of_nat i), Ok (CBlob (aget [] rows i) (element_code (sb_element_type blob))), Ok CUnset).

(** A scan returns the vectors in order. *)
Lemma static_scan_correct (argv : list sval) (cur : vec_static_blob_entries_cursor) (fuel : nat) : (n <= fuel)%nat ->
  exists cur', vec_static_blob_entriesFilter mem strtod pad blob VEC_SBE__QUERYPLAN_FULLSCAN argv cur = Ok cur' /\
    sbe_rows mem blob fuel cur' = Some (blob_row <$> seq 0 n).
Proof.
  intros Hf. eexists. split; [done|]. pose proof Hblob as (Hn & Hlt & _). unfold sbe_rows.
  set (f := fun i : nat => MkSbe (Z.of_nat i) VEC_SBE__QUERYPLAN_FULLSCAN (se_knn_data cur)).
  assert (Heof : forall i : nat, (i <= n)%nat -> vec_static_blob_entriesEof blob (f i) = (n <=? i)%nat).
  { intros i Hi. unfold vec_static_blob_entriesEof, f. cbn [se_query_plan se_iRowid Z.eqb]. unfold to_size, wrap_u. rewrite Hn, Z.mod_small by lia.
    destruct (Nat.leb_spec n i), (Z.leb_spec (Z.of_nat n) (Z.of_nat i)); done || lia. }
  change (MkSbe 0 VEC_SBE__QUERYPLAN_FULLSCAN (se_knn_data cur)) with (f 0%nat). rewrite (read_rows_seq _ _ _ f n).
  - rewrite Nat.sub_0_r. f_equal. apply fmap_seq0_ext. intros i Hi. unfold blob_row. rewrite <- row_result by done. done.
  - intros j Hj. rewrite Heof by lia. split; [apply Nat.leb_gt; lia|]. unfold vec_static_blob_entriesNext, f. cbn. f_equal. lia.
  - rewrite Heof by done. apply Nat.leb_refl.
  - lia.
  - lia.
Qed.

Lemma read_hits (iRowid : Z) (hits : list nat) (distances : list f32) (fuel : nat) : Forall (fun i => i < n)%nat hits -> (length hits <= fuel)%nat ->
  sbe_rows mem blob fuel (MkSbe iRowid VEC_SBE__QUERYPLAN_KNN (Some (MkSbeKnn (Z.of_nat (length hits)) (Z.of_nat <$> hits) distances 0))) =
  Some (blob_row <$> hits).
Proof.
  intros Hh Hf. unfold sbe_rows.
  set (f := fun i : nat => MkSbe iRowid VEC_SBE__QUERYPLAN_KNN (Some (MkSbeKnn (Z.of_nat (length hits)) (Z.of_nat <$> hits) distances (Z.of_nat i)))).
  change (MkSbe iRowid _ _) with (f 0%nat). rewrite (read_rows_seq _ _ _ f (length hits)).
  - f_equal. rewrite Nat.sub_0_r. apply list_eq. intros i. rewrite !list_lookup_fmap. destruct (hits !! i) as [h|] eqn:E.
    + rewrite lookup_seq_lt by (by eapply lookup_lt_Some). cbn [fmap option_fmap option_map Nat.add]. f_equal. unfold blob_row.
      unfold vec_static_blob_entriesRowid, vec_static_blob_entriesColumn, sbe_knn_rowid, f. cbn [se_query_plan se_knn_data sq_rowids sq_current_idx].
      rewrite Nat2Z.id, list_lookup_fmap, E. cbn. rewrite row_result; [done|]. by eapply (proj1 (list.Forall_forall _ _) Hh), list_elem_of_lookup_2.
    + by rewrite lookup_seq_ge by (by apply lookup_ge_None_1).
  - intros j Hj. split; [apply Z.leb_gt; cbn; lia|]. unfold vec_static_blob_entriesNext, f. cbn. do 3 f_equal. lia.
  - apply Z.leb_refl.
  - lia.
  - lia.
Qed.

(** The distances of the vectors from a query. *)
Definition blob_distances (query : bytes) : list f32 :=
  (fun v => distance_l2_sqr_float (vector_floats v d) (vector_floats query d) d) <$> rows.

Lemma distances_computed (query : bytes) : mapM (blob_distance mem blob query) (seq 0 n) = Some (blob_distances query).
Proof.
  apply mapM_Some_2, Forall2_same_length_lookup. unfold blob_distances. rewrite length_seq, length_fmap. split; [done|].
  intros i j x Hj Hx. apply lookup_seq in Hj as [-> Hi]. rewrite list_lookup_fmap in Hx. destruct (rows !! i) as [v|] eqn:Ev; [|done].
  injection Hx as <-. unfold blob_distance. rewrite Nat.add_0_l, (blob_vector_row i) by done. by rewrite (aget_lookup _ _ _ _ Ev).
Qed.

Lemma search_ok (query : bytes) (k : nat) : (0 < k <= n)%nat -> Forall is_byte pad -> Forall (fun x => is_nan x = false) (blob_distances query) ->
  match pad with
  | [] => sbe_search mem pad blob query (Z.of_nat k) = Undef
  | _ => exists hits, sbe_search mem pad blob query (Z.of_nat k) = Ok (MkSbeKnn (Z.of_nat k) (Z.of_nat <$> hits) (blob_distances query) 0) /\
      topk_of (aget f32_zero (blob_distances query)) k (seq 0 n) hits /\ StronglySorted (le_by (aget f32_zero (blob_distances query))) hits
  end.
Proof.
  intros Hk Hp Hnan. pose proof Hblob as (Hn & Hlt & _). unfold sbe_search. rewrite Hn. cbv zeta.
  set (b := Z.to_nat ((Z.of_nat n + 7) / 8)). assert (Hb : Z.land (to_size (Z.of_nat n + 7)) (-8) = Z.of_nat (8 * b)).
  { rewrite land_round. unfold to_size, wrap_u. rewrite Z.mod_small by lia. unfold b. rewrite Nat2Z.inj_mul, Z2Nat.id; [done|]. apply Z.div_pos; lia. }
  assert (Hbn : (n <= 8 * b < n + 8)%nat).
  { pose proof (Z.div_mod (Z.of_nat n + 7) 8). pose proof (Z.mod_pos_bound (Z.of_nat n + 7) 8). lia. }
  clearbody b. rewrite Hb, !malloc_small by lia. rewrite !(proj2 (Z.ltb_ge _ _)) by lia. cbn [orb].
  rewrite !Nat2Z.id, distances_computed. pose proof (search_candidates n b pad ltac:(lia) Hbn Hp) as Hc.
  destruct pad as [|c pad']; [by rewrite Hc|]. destruct Hc as (bm & -> & Hc). cbn [res_bind].
  pose proof (min_idx_topk_of (blob_distances query) (8 * b) bm k (bitmap_new (8 * b))) as Hm. rewrite Hc in Hm.
  destruct (min_idx _ _ _ _ _) as [hits used]. destruct Hm as (Ht & Hs & _).
  - split; [|apply Forall_replicate; unfold is_byte; lia]. unfold bitmap_new. rewrite length_replicate. change CHAR_BIT with 8%nat.
    rewrite Nat.mul_comm with (n := 8%nat), Nat.div_mul by done. done.
  - intros j Hj. apply elem_of_seq in Hj. rewrite list.Forall_forall in Hnan. apply Hnan. apply list_elem_of_lookup. exists j.
    apply aget_lookup_lt. unfold blob_distances. rewrite length_fmap. lia.
  - by exists hits.
Qed.
End Query.

(** ** Plans *)

(** The constraint [i] is usable and satisfies [P]. *)
Definition term_is (cs : list index_constraint) (P : index_constraint -> Prop) (i : nat) : Prop :=
  exists c, cs !! i = Some c /\ ic_usable c = true /\ P c.

Definition is_vector_match (c : index_constraint) : Prop :=
  ic_op c = SQLITE_INDEX_CONSTRAINT_MATCH /\ ic_column c = VEC_STATIC_BLOB_ENTRIES_VECTOR.

Definition is_size (c : index_constraint) : Prop :=
  ic_op c = SQLITE_INDEX_CONSTRAINT_LIMIT \/ (ic_op c = SQLITE_INDEX_CONSTRAINT_EQ /\ ic_column c = VEC_STATIC_BLOB_ENTRIES_K).

Definition terms_ok (cs : list index_constraint) (t : sbe_terms) : Prop :=
  (forall i, bx_match t = Some i -> term_is cs is_vector_match i) /\ (forall i, bx_limit t = Some i -> term_is cs is_size i) /\
  (forall i, bx_k t = Some i -> term_is cs is_size i).

Lemma sbe_term_ok (cs : list index_constraint) (t t' : sbe_terms) (i : nat) (c : index_constraint) :
  cs !! i = Some c -> terms_ok cs t -> sbe_term t i c = Some t' -> terms_ok cs t'.
Proof.
  intros Hi (Hm & Hl & Hk) E. unfold sbe_term in E. destruct (ic_usable c) eqn:Eu; cbn [negb] in E; [|injection E as <-; done].
  destruct (_ && bool_decide _); [done|]. injection E as <-. split; [|split]; cbn [bx_match bx_limit bx_k]; intros j.
  - destruct (Z.eqb_spec (ic_op c) SQLITE_INDEX_CONSTRAINT_MATCH), (Z.eqb_spec (ic_column c) VEC_STATIC_BLOB_ENTRIES_VECTOR); cbn; try apply Hm.
    intros [= <-]. by exists c.
  - destruct (Z.eqb_spec (ic_op c) SQLITE_INDEX_CONSTRAINT_LIMIT); [|apply Hl]. intros [= <-]. exists c. split; [done|]. split; [done|]. by left.
  - destruct (Z.eqb_spec (ic_op c) SQLITE_INDEX_CONSTRAINT_EQ), (Z.eqb_spec (ic_column c) VEC_STATIC_BLOB_ENTRIES_K); cbn; try apply Hk.
    intros [= <-]. exists c. split; [done|]. split; [done|]. by right.
Qed.

Lemma sbe_terms_loop_ok (cs l : list index_constraint) (t t' : sbe_terms) (i : nat) :
  (forall j c, l !! j = Some c -> cs !! (i + j)%nat = Some c) -> terms_ok cs t -> sbe_terms_loop t i l = Some t' -> terms_ok cs t'.
Proof.
  revert t i. induction l as [|c l IH]; intros t i Hl Ht E; cbn [sbe_terms_loop] in E; [by injection E as <-|].
  destruct (sbe_term t i c) as [t1|] eqn:E1; [|done]. eapply IH; [| |exact E].
  - intros j c' Hj. replace (S i + j)%nat with (i + S j)%nat by lia. by apply Hl.
  - eapply sbe_term_ok; [|exact Ht|exact E1]. specialize (Hl 0%nat c eq_refl). by rewrite Nat.add_0_r in Hl.
Qed.

(** What a planned search is given. *)
Definition knn_planned (cs : list index_constraint) (orderBy : list index_orderby) (usage : list constraint_usage) : Prop :=
  orderBy = [MkOrderBy VEC_STATIC_BLOB_ENTRIES_DISTANCE false] /\
  exists iMatchTerm iSizeTerm, term_is cs is_vector_match iMatchTerm /\ term_is cs is_size iSizeTerm /\
    usage !! iMatchTerm = Some (MkUsage 1 true false) /\ usage !! iSizeTerm = Some (MkUsage 2 true false) /\
    forall i u, usage !! i = Some u -> i <> iMatchTerm -> i <> iSizeTerm -> u = unused.

Lemma sbe_knn_plan_ok (cs : list index_constraint) (orderBy : list index_orderby) (iM iS : nat) (r : Z * list constraint_usage * bool) :
  term_is cs is_vector_match iM -> term_is cs is_size iS -> sbe_knn_plan (length cs) iM iS orderBy = Ok r ->
  r.2 = true /\ knn_planned cs orderBy r.1.2.
Proof.
  intros HM HS. unfold sbe_knn_plan. destruct orderBy as [|[col desc] [|]]; try done. cbn [ob_column ob_desc].
  destruct (Z.eqb_spec col VEC_STATIC_BLOB_ENTRIES_DISTANCE) as [->|]; [|done]. destruct desc; [done|]. intros [= <-]. cbn [fst snd].
  split; [done|]. split; [done|]. exists iM, iS. split; [done|]. split; [done|]. destruct HM as (c1 & H1 & _ & [Hop _]), HS as (c2 & H2 & _ & Hs).
  assert (iM <> iS) by (intros ->; rewrite H1 in H2; injection H2 as ->; destruct Hs as [Hs|[Hs _]]; rewrite Hop in Hs; done).
  apply lookup_lt_Some in H1, H2. split; [|split].
  - rewrite list_lookup_insert_ne by done. rewrite list_lookup_insert_eq; [done|]. by rewrite length_replicate.
  - rewrite list_lookup_insert_eq; [done|]. by rewrite length_insert, length_replicate.
  - intros i u Hu Hi1 Hi2. rewrite !list_lookup_insert_ne in Hu by done. by apply lookup_replicate in Hu as [-> _].
Qed.

(** A search is planned only for one MATCH of the vector and a LIMIT or a k, in
    the ascending order of the distance; the search is given these two
    values, no other constraint is used. *)
Lemma static_best_index (cs : list index_constraint) (orderBy : list index_orderby) (usage : list constraint_usage) (consumed : bool) :
  vec_static_blob_entriesBestIndex cs orderBy = Ok (VEC_SBE__QUERYPLAN_KNN, usage, consumed) -> consumed = true /\ knn_planned cs orderBy usage.
Proof.
  unfold vec_static_blob_entriesBestIndex. destruct (sbe_terms_loop _ 0 cs) as [t|] eqn:Et; [|done].
  apply (sbe_terms_loop_ok cs) in Et as (Hm & Hl & Hk); [|done|done].
  destruct (bx_match t) as [iM|], (bx_limit t) as [iL|], (bx_k t) as [iK|]; try done; intros E.
  - exact (sbe_knn_plan_ok cs orderBy iM iL _ (Hm _ eq_refl) (Hl _ eq_refl) E).
  - exact (sbe_knn_plan_ok cs orderBy iM iK _ (Hm _ eq_refl) (Hk _ eq_refl) E).
Qed.

(** ** The claim *)

(** C25: A search of a static blob returns the nearest vectors, if it survives.
    On a blob of fewer than 2^28 vectors, with a query of its type and
    dimensions and a positive number of rows asked for, [xFilter] clears the
    bit after the last one of its bitmap.  If nothing follows the bitmap in its
    allocation the write is out of bounds; otherwise reading the cursor gives
    the vectors nearest to the query, in the order of their distance, as many
    as are asked for or there are, with the column distance never set. *)
Theorem static_knn_correct `{SqlValues} (mem : Z -> option Z) (strtod : bytes -> number f64) (pad : bytes) (blob : static_blob)
    (rows : list bytes) (query size : sval) (x : vector) (cur : vec_static_blob_entries_cursor) (fuel : nat) :
  let distances := blob_distances blob rows (vec_bytes x) in
  let k := Nat.min (Z.to_nat (value_int64 (sv_value size))) (length rows) in
  let result := vec_static_blob_entriesFilter mem strtod pad blob VEC_SBE__QUERYPLAN_KNN [query; size] cur in
  blob_rows mem blob rows -> vector_from_value strtod query = Some x -> vec_type x = sb_element_type blob ->
  Z.of_nat (vec_dims x) = sb_dimensions blob -> (0 < k <= fuel)%nat -> Forall is_byte pad -> Forall (fun y => is_nan y = false) distances ->
  match pad with
  | [] => result = Undef
  | _ => exists cur' hits, result = Ok cur' /\ sbe_rows mem blob fuel cur' = Some (blob_row blob rows <$> hits) /\
      topk_of (aget f32_zero distances) k (seq 0 (length rows)) hits /\ StronglySorted (le_by (aget f32_zero distances)) hits
  end.
Proof.
  intros distances k result Hb Hx Ht Hd Hk Hp Hnan. unfold result, vec_static_blob_entriesFilter. cbn [Z.eqb]. rewrite Z.eqb_refl, Hx.
  rewrite bool_decide_eq_true_2 by done. rewrite (proj2 (Z.eqb_eq _ _) Hd). cbn [negb]. pose proof Hb as (Hn & Hlt & _).
  rewrite Hn, to_i64_id by (unfold in_i64; lia). replace (Z.min _ _) with (Z.of_nat k) by lia.
  rewrite (proj2 (Z.ltb_ge _ _)), (proj2 (Z.eqb_neq _ _)) by lia.
  pose proof (search_ok mem pad blob rows Hb (vec_bytes x) k ltac:(lia) Hp Hnan) as Hs. destruct pad as [|c pad']; [by rewrite Hs|].
  destruct Hs as (hits & E & Htop & Hsort). rewrite E. cbn [res_bind]. eexists _, hits. split; [done|]. split; [|done].
  assert (Hlen : length hits = k) by (destruct Htop as (rest & _ & Hl & _); rewrite length_seq in Hl; lia).
  rewrite <- Hlen. apply read_hits; [done| |lia]. apply list.Forall_forall. intros i Hi. eapply topk_of_elem in Hi; [|exact Htop].
  apply elem_of_seq in Hi. lia.
Qed.

(** Three vectors of one dimension: 1, 5 and 2. *)
Definition demo_blob : static_blob := MkBlob [97] 100 1 3 SQLITE_VEC_ELEMENT_TYPE_FLOAT32.
Definition demo_rows : list bytes := [[0; 0; 128; 63]; [0; 0; 160; 64]; [0; 0; 0; 64]].
Definition demo_memory (a : Z) : option Z := if 100 <=? a then concat demo_rows !! Z.to_nat (a - 100) else None.

Lemma static_knn_correct_witness :
  exists cur' hits,
    @vec_static_blob_entriesFilter demo_values demo_memory (fun _ => NumNone) [7] demo_blob VEC_SBE__QUERYPLAN_KNN
      [MkSval (VBlob [0; 0; 64; 64]) 0; MkSval (VInt 2) 0] vec_static_blob_entriesOpen = Ok cur' /\
    sbe_rows demo_memory demo_blob 2 cur' = Some (blob_row demo_blob demo_rows <$> hits) /\
    topk_of (aget f32_zero (blob_distances demo_blob demo_rows [0; 0; 64; 64])) 2 (seq 0 3) hits /\
    StronglySorted (le_by (aget f32_zero (blob_distances demo_blob demo_rows [0; 0; 64; 64]))) hits.
Proof.
  apply (@static_knn_correct demo_values demo_memory (fun _ => NumNone) [7] demo_blob demo_rows
    (MkSval (VBlob [0; 0; 64; 64]) 0) (MkSval (VInt 2) 0) (MkVector SQLITE_VEC_ELEMENT_TYPE_FLOAT32 1 [0; 0; 64; 64]) vec_static_blob_entriesOpen 2).
  - split; [reflexivity|]. split; [reflexivity|]. split; [cbn; lia|]. vm_compute. reflexivity.
  - reflexivity.
  - reflexivity.
  - reflexivity.
  - cbn. lia.
  - repeat constructor; unfold is_byte; lia.
  - repeat constructor.
Defined.

(** A blob is found by any name that its own begins: with the blobs a and ab, a
    table over ab reads the vectors of a. *)
Lemma static_blob_prefix (a ab : static_blob) : sb_name a = [97] -> sb_name ab = [97; 98] ->
  vec_static_blob_entriesConnect (slots [a; ab]) [97; 98] = Ok 0%nat.
Proof. intros Ha Hab. unfold vec_static_blob_entriesConnect, slots. cbn. by rewrite Ha. Qed.

(** The seventeenth blob stops the process. *)
Lemma static_blobs_full `{SqlValues} (data : vec_static_blob_data) (argv : list value) (def : option static_blob_definition) :
  Forall is_Some data -> (1 < length argv)%nat -> aget VNull argv 0 = VNull -> vec_static_blobsUpdate data argv def = Undef.
Proof.
  intros Hd Hl Hn. unfold vec_static_blobsUpdate. rewrite (proj2 (Nat.ltb_lt _ _)), Hn by done. cbn [andb is_null].
  assert (Hf : forall i, free_slot data i = None) by (induction Hd as [|s data [b ->] _ IH]; intros i; [done|apply IH]). by rewrite Hf.
Qed.
