(* ===== verification/CypherLexer.v ===== *)
(** * The Cypher lexer (sqlite-graph/src/cypher/cypher-lexer.c)

    The input is the bytes of a C string, without the NUL that ends it; the
    lexer's state is the rest of the input and the position.  Characters are
    classified as in the C locale.  Shown: the lexer reaches the end of every
    input, its tokens are pieces of the input in order, and the tokens of a
    text written token by token are those that were written. *)

From Stdlib Require Import String ZArith Lia.
From stdpp Require Import base option list numbers.
From S2P Require Import Prelude Codec DefParser Values.

Local Open Scope Z_scope.

(** ** Tokens *)

Inductive CypherTokenType :=
| CYPHER_TOK_EOF | CYPHER_TOK_ERROR | CYPHER_TOK_WHITESPACE | CYPHER_TOK_COMMENT
| CYPHER_TOK_MATCH | CYPHER_TOK_OPTIONAL | CYPHER_TOK_WHERE | CYPHER_TOK_RETURN | CYPHER_TOK_CREATE | CYPHER_TOK_MERGE
| CYPHER_TOK_SET | CYPHER_TOK_DELETE | CYPHER_TOK_DETACH | CYPHER_TOK_REMOVE | CYPHER_TOK_WITH | CYPHER_TOK_CALL
| CYPHER_TOK_YIELD | CYPHER_TOK_UNION | CYPHER_TOK_AS | CYPHER_TOK_ORDER | CYPHER_TOK_BY | CYPHER_TOK_ASC
| CYPHER_TOK_DESC | CYPHER_TOK_LIMIT | CYPHER_TOK_SKIP | CYPHER_TOK_DISTINCT | CYPHER_TOK_AND | CYPHER_TOK_OR
| CYPHER_TOK_XOR | CYPHER_TOK_NOT | CYPHER_TOK_IN | CYPHER_TOK_STARTS_WITH | CYPHER_TOK_ENDS_WITH | CYPHER_TOK_CONTAINS
| CYPHER_TOK_IS_NULL | CYPHER_TOK_IS_NOT_NULL | CYPHER_TOK_NULL
| CYPHER_TOK_EQ | CYPHER_TOK_NE | CYPHER_TOK_LT | CYPHER_TOK_LE | CYPHER_TOK_GT | CYPHER_TOK_GE | CYPHER_TOK_PLUS
| CYPHER_TOK_MINUS | CYPHER_TOK_MULT | CYPHER_TOK_DIV | CYPHER_TOK_MOD | CYPHER_TOK_POW | CYPHER_TOK_DOT
| CYPHER_TOK_COLON | CYPHER_TOK_COMMA | CYPHER_TOK_SEMICOLON | CYPHER_TOK_LPAREN | CYPHER_TOK_RPAREN
| CYPHER_TOK_LBRACKET | CYPHER_TOK_RBRACKET | CYPHER_TOK_LBRACE | CYPHER_TOK_RBRACE | CYPHER_TOK_DASH
| CYPHER_TOK_ARROW_RIGHT | CYPHER_TOK_ARROW_LEFT | CYPHER_TOK_ARROW_BOTH | CYPHER_TOK_PIPE | CYPHER_TOK_REGEX
| CYPHER_TOK_DOLLAR
| CYPHER_TOK_INTEGER | CYPHER_TOK_FLOAT | CYPHER_TOK_STRING | CYPHER_TOK_BOOLEAN
| CYPHER_TOK_IDENTIFIER | CYPHER_TOK_LABEL | CYPHER_TOK_PROPERTY | CYPHER_TOK_REL_TYPE.

#[global] Instance CypherTokenType_eq_dec : EqDecision CypherTokenType.
Proof. solve_decision. Defined.

Record CypherToken := MkTok { tok_type : CypherTokenType; tok_text : bytes; tok_line : Z; tok_column : Z }.

Record CypherLexer := MkLexer { lx_rest : bytes; lx_line : Z; lx_column : Z }.

Definition cypherLexerCreate (zInput : bytes) : CypherLexer := MkLexer zInput 1 1.

(** ** Characters *)

Definition is_alpha_code (c : Z) : bool := (65 <=? c) && (c <=? 90) || (97 <=? c) && (c <=? 122).
Definition is_name_start (c : Z) : bool := is_alpha_code c || (c =? 95).
Definition is_name_char (c : Z) : bool := is_alpha_code c || c_isdigit c || (c =? 95).

(** [lexerPeek]: 0 past the end. *)
Definition lexerPeek (lx : CypherLexer) (offset : nat) : Z := aget 0 (lx_rest lx) offset.

Definition lexerNext (lx : CypherLexer) : CypherLexer :=
  let c := lexerPeek lx 0 in
  if c =? 10 then MkLexer (tail (lx_rest lx)) (lx_line lx + 1) 1
  else MkLexer (tail (lx_rest lx)) (lx_line lx) (lx_column lx + 1).

(** Consuming [n] characters. *)
Definition lexer_skip (n : nat) (lx : CypherLexer) : CypherLexer := Nat.iter n lexerNext lx.

(** The length of the longest prefix whose bytes satisfy [p]. *)
Fixpoint run_length (p : Z -> bool) (s : bytes) : nat :=
  match s with
  | c :: s => if p c then S (run_length p s) else 0%nat
  | [] => 0%nat
  end.

Definition lexerSkipWhitespace (lx : CypherLexer) : CypherLexer := lexer_skip (run_length c_isspace (lx_rest lx)) lx.

(** The length of a comment that starts with slash and star, after these two:
    up to and with star and slash, or to the end. *)
Fixpoint block_comment (s : bytes) : nat :=
  match s with
  | [] => 0%nat
  | c :: s' => if (c =? 42) && (aget 0 s' 0 =? 47) then 2%nat else S (block_comment s')
  end.

Definition comment_length (s : bytes) : nat :=
  match s with
  | c1 :: c2 :: s' =>
      if (c1 =? 47) && (c2 =? 47) then run_length (fun c => negb (c =? 10)) s
      else if (c1 =? 47) && (c2 =? 42) then (2 + block_comment s')%nat
      else 0%nat
  | _ => 0%nat
  end.

Definition lexerSkipComment (lx : CypherLexer) : CypherLexer := lexer_skip (comment_length (lx_rest lx)) lx.

(** ** Keywords *)

Definition upper (c : Z) : Z := if (97 <=? c) && (c <=? 122) then c - 32 else c.

Definition keywords : list (string * CypherTokenType) :=
  [("AS", CYPHER_TOK_AS); ("BY", CYPHER_TOK_BY); ("IS", CYPHER_TOK_IS_NULL); ("IN", CYPHER_TOK_IN); ("OR", CYPHER_TOK_OR);
   ("AND", CYPHER_TOK_AND); ("ASC", CYPHER_TOK_ASC); ("NOT", CYPHER_TOK_NOT); ("SET", CYPHER_TOK_SET); ("XOR", CYPHER_TOK_XOR);
   ("DESC", CYPHER_TOK_DESC); ("SKIP", CYPHER_TOK_SKIP); ("WITH", CYPHER_TOK_WITH); ("NULL", CYPHER_TOK_NULL);
   ("TRUE", CYPHER_TOK_BOOLEAN);
   ("MATCH", CYPHER_TOK_MATCH); ("LIMIT", CYPHER_TOK_LIMIT); ("MERGE", CYPHER_TOK_MERGE); ("ORDER", CYPHER_TOK_ORDER);
   ("UNION", CYPHER_TOK_UNION); ("WHERE", CYPHER_TOK_WHERE); ("FALSE", CYPHER_TOK_BOOLEAN);
   ("CREATE", CYPHER_TOK_CREATE); ("DELETE", CYPHER_TOK_DELETE); ("DETACH", CYPHER_TOK_DETACH); ("REMOVE", CYPHER_TOK_REMOVE);
   ("RETURN", CYPHER_TOK_RETURN);
   ("DISTINCT", CYPHER_TOK_DISTINCT); ("OPTIONAL", CYPHER_TOK_OPTIONAL); ("CONTAINS", CYPHER_TOK_CONTAINS)]%string.

(** The switch on the length, and [strncasecmp] with keywords of that length. *)
Definition cypherGetKeywordToken (zKeyword : bytes) : CypherTokenType :=
  match find (fun k : string * CypherTokenType => bool_decide (upper <$> zKeyword = bstr k.1)) keywords with
  | Some k => k.2
  | None => CYPHER_TOK_IDENTIFIER
  end.

(** ** Tokens of each kind *)

(** The token is the first [n] bytes, which are consumed. *)
Definition lexerAddToken (type : CypherTokenType) (n : nat) (lx : CypherLexer) : CypherToken * CypherLexer :=
  let lx' := lexer_skip n lx in
  (MkTok type (take n (lx_rest lx)) (lx_line lx') (lx_column lx' - Z.of_nat n), lx').

Definition lexerTokenizeIdentifier (lx : CypherLexer) : CypherToken * CypherLexer :=
  let n := run_length is_name_char (lx_rest lx) in
  lexerAddToken (cypherGetKeywordToken (take n (lx_rest lx))) n lx.

Definition lexerTokenizeNumber (lx : CypherLexer) : CypherToken * CypherLexer :=
  let n := run_length c_isdigit (lx_rest lx) in
  if aget 0 (lx_rest lx) n =? 46 then
    lexerAddToken CYPHER_TOK_FLOAT (n + 1 + run_length c_isdigit (drop (n + 1) (lx_rest lx))) lx
  else lexerAddToken CYPHER_TOK_INTEGER n lx.

(** The bytes before the closing quote, and whether there is one. *)
Fixpoint string_body (quote : Z) (s : bytes) : nat * bool :=
  match s with
  | [] => (0%nat, false)
  | c :: s =>
      if c =? quote then (0%nat, true)
      else if c =? 92 then
        match s with
        | [] => (1%nat, false)
        | _ :: s => let '(n, b) := string_body quote s in (S (S n), b)
        end
      else let '(n, b) := string_body quote s in (S n, b)
  end.

(** The text of a string is without its quotes. *)
Definition lexerTokenizeString (lx : CypherLexer) : CypherToken * CypherLexer :=
  let quote := lexerPeek lx 0 in
  let lx1 := lexerNext lx in
  let '(n, closed) := string_body quote (lx_rest lx1) in
  if closed then
    let lx2 := lexerNext (lexer_skip n lx1) in
    (MkTok CYPHER_TOK_STRING (take n (lx_rest lx1)) (lx_line lx2) (lx_column lx2 - Z.of_nat n), lx2)
  else lexerAddToken CYPHER_TOK_ERROR (S n) lx.

(** Operators: the type and the length, by the first three characters. *)
Definition operator (c c1 c2 : Z) : option (CypherTokenType * nat) :=
  if c =? 61 then Some (if c1 =? 126 then (CYPHER_TOK_REGEX, 2%nat) else (CYPHER_TOK_EQ, 1%nat))
  else if c =? 60 then
    Some (if c1 =? 62 then (CYPHER_TOK_NE, 2%nat)
          else if c1 =? 45 then (if c2 =? 62 then (CYPHER_TOK_ARROW_BOTH, 3%nat) else (CYPHER_TOK_ARROW_LEFT, 2%nat))
          else if c1 =? 61 then (CYPHER_TOK_LE, 2%nat) else (CYPHER_TOK_LT, 1%nat))
  else if c =? 62 then Some (if c1 =? 61 then (CYPHER_TOK_GE, 2%nat) else (CYPHER_TOK_GT, 1%nat))
  else if c =? 45 then Some (if c1 =? 62 then (CYPHER_TOK_ARROW_RIGHT, 2%nat) else (CYPHER_TOK_MINUS, 1%nat))
  else if c =? 43 then Some (CYPHER_TOK_PLUS, 1%nat)
  else if c =? 42 then Some (CYPHER_TOK_MULT, 1%nat)
  else if c =? 47 then Some (CYPHER_TOK_DIV, 1%nat)
  else if c =? 37 then Some (CYPHER_TOK_MOD, 1%nat)
  else if c =? 94 then Some (CYPHER_TOK_POW, 1%nat)
  else if c =? 46 then Some (CYPHER_TOK_DOT, 1%nat)
  else if c =? 58 then Some (CYPHER_TOK_COLON, 1%nat)
  else if c =? 44 then Some (CYPHER_TOK_COMMA, 1%nat)
  else if c =? 59 then Some (CYPHER_TOK_SEMICOLON, 1%nat)
  else if c =? 40 then Some (CYPHER_TOK_LPAREN, 1%nat)
  else if c =? 41 then Some (CYPHER_TOK_RPAREN, 1%nat)
  else if c =? 91 then Some (CYPHER_TOK_LBRACKET, 1%nat)
  else if c =? 93 then Some (CYPHER_TOK_RBRACKET, 1%nat)
  else if c =? 123 then Some (CYPHER_TOK_LBRACE, 1%nat)
  else if c =? 125 then Some (CYPHER_TOK_RBRACE, 1%nat)
  else if c =? 124 then Some (CYPHER_TOK_PIPE, 1%nat)
  else if c =? 36 then Some (CYPHER_TOK_DOLLAR, 1%nat)
  else None.

(** After a comment no whitespace is skipped. *)
Definition cypherLexerNextToken (lx : CypherLexer) : CypherToken * CypherLexer :=
  let lx := lexerSkipComment (lexerSkipWhitespace lx) in
  let c := lexerPeek lx 0 in
  if c =? 0 then lexerAddToken CYPHER_TOK_EOF 0 lx
  else if is_name_start c then lexerTokenizeIdentifier lx
  else if c_isdigit c then lexerTokenizeNumber lx
  else if (c =? 39) || (c =? 34) then lexerTokenizeString lx
  else
    match operator c (lexerPeek lx 1) (lexerPeek lx 2) with
    | Some (type, n) => lexerAddToken type n lx
    | None => lexerAddToken CYPHER_TOK_ERROR 1 lx
    end.

(** All tokens, up to the end; [None]: not within [fuel] tokens. *)
Fixpoint lex_all (fuel : nat) (lx : CypherLexer) : option (list CypherToken) :=
  match fuel with
  | O => None
  | S fuel =>
      let '(t, lx) := cypherLexerNextToken lx in
      if decide (tok_type t = CYPHER_TOK_EOF) then Some [t] else cons t <$> lex_all fuel lx
  end.

(** ** The lexer reaches the end *)

Lemma lexerNext_rest (lx : CypherLexer) : lx_rest (lexerNext lx) = tail (lx_rest lx).
Proof. unfold lexerNext. by destruct (_ =? 10). Qed.

Lemma lexer_skip_rest (n : nat) (lx : CypherLexer) : lx_rest (lexer_skip n lx) = drop n (lx_rest lx).
Proof.
  unfold lexer_skip. induction n as [|n IH]; [done|]. cbn [Nat.iter nat_rect]. rewrite lexerNext_rest.
  change (nat_rect _ lx _ n) with (Nat.iter n lexerNext lx). rewrite IH. destruct (lx_rest lx) as [|c s]; [by rewrite drop_nil|].
  rewrite <- (Nat.add_1_r n), <- drop_drop. by destruct (drop n (c :: s)) as [|x [|y l]].
Qed.

Lemma run_le (p : Z -> bool) (s : bytes) : (run_length p s <= length s)%nat.
Proof. induction s as [|c s IH]; [done|]. cbn. destruct (p c); lia. Qed.

Lemma run_take (p : Z -> bool) (s : bytes) : Forall (fun c => p c = true) (take (run_length p s) s).
Proof. induction s as [|c s IH]; [constructor|]. cbn. destruct (p c) eqn:E; cbn; constructor; done. Qed.

Lemma block_comment_le (s : bytes) : (block_comment s <= length s)%nat.
Proof.
  induction s as [|c s IH]; [done|]. cbn [block_comment length]. destruct ((c =? 42) && (aget 0 s 0 =? 47)) eqn:E; [|lia].
  destruct s as [|c2 s]; [|cbn; lia]. apply andb_true_iff in E as [_ E]. by vm_compute in E.
Qed.

Lemma comment_length_le (s : bytes) : (comment_length s <= length s)%nat.
Proof.
  destruct s as [|c1 [|c2 s]]; cbn [comment_length length]; [lia|lia|].
  destruct ((c1 =? 47) && (c2 =? 47)); [apply (run_le _ (c1 :: c2 :: s))|].
  destruct ((c1 =? 47) && (c2 =? 42)); [|lia]. pose proof (block_comment_le s). lia.
Qed.

(** What is skipped before a token: blanks, then at most one comment. *)
Definition gap (g : bytes) : Prop := exists w c, g = w ++ c /\ Forall (fun x => c_isspace x = true) w /\
  (c = [] \/ exists r, c = 47 :: 47 :: r \/ c = 47 :: 42 :: r).

(** A text is the given tokens with gaps between them; a string token is
    without its quotes. *)
Inductive covers : bytes -> list CypherToken -> Prop :=
| covers_end g line column : gap g -> covers g [MkTok CYPHER_TOK_EOF [] line column]
| covers_token g q t s ts : gap g -> tok_type t <> CYPHER_TOK_EOF ->
    (q = [] \/ tok_type t = CYPHER_TOK_STRING /\ (q = [39] \/ q = [34])) -> covers s ts ->
    covers (g ++ q ++ tok_text t ++ q ++ s) (t :: ts).

Lemma comment_gap (w s : bytes) : Forall (fun x => c_isspace x = true) w -> gap (w ++ take (comment_length s) s).
Proof.
  intros Hw. exists w, (take (comment_length s) s). split; [done|]. split; [done|].
  destruct s as [|c1 [|c2 s]]; [by left..|]. unfold comment_length.
  destruct ((c1 =? 47) && (c2 =? 47)) eqn:E1; [|destruct ((c1 =? 47) && (c2 =? 42)) eqn:E2; [|by left]].
  - apply andb_true_iff in E1 as [->%Z.eqb_eq ->%Z.eqb_eq]. right. cbn. eauto.
  - apply andb_true_iff in E2 as [->%Z.eqb_eq ->%Z.eqb_eq]. right. cbn. eauto.
Qed.

(** The state after the gap. *)
Definition after_gap (lx : CypherLexer) : CypherLexer := lexerSkipComment (lexerSkipWhitespace lx).

Lemma after_gap_rest (lx : CypherLexer) : exists g, gap g /\ lx_rest lx = g ++ lx_rest (after_gap lx).
Proof.
  unfold after_gap, lexerSkipComment, lexerSkipWhitespace. rewrite !lexer_skip_rest.
  set (n := run_length c_isspace (lx_rest lx)). set (s := drop n (lx_rest lx)).
  exists (take n (lx_rest lx) ++ take (comment_length s) s). split; [apply comment_gap, run_take|].
  rewrite <- app_assoc, take_drop. symmetry. apply take_drop.
Qed.

Lemma string_body_spec (quote : Z) (s : bytes) :
  let '(n, closed) := string_body quote s in
  (n <= length s)%nat /\ (closed = true -> exists r, s = take n s ++ quote :: r).
Proof.
  remember (length s) as len eqn:El. revert s El. induction (lt_wf len) as [len _ IH]. intros s ->.
  destruct s as [|c s]; [done|]. cbn [string_body length]. destruct (Z.eqb_spec c quote) as [->|Hq].
  { split; [lia|]. intros _. by exists s. }
  destruct (c =? 92).
  - destruct s as [|d s]; [cbn; split; [lia|done]|].
    specialize (IH (length s) ltac:(cbn; lia) s eq_refl). destruct (string_body quote s) as [n b]. destruct IH as [Hn Hc].
    split; [cbn [length]; lia|]. intros Hb. destruct (Hc Hb) as [r Hr]. exists r. cbn. by rewrite <- Hr.
  - specialize (IH (length s) ltac:(cbn; lia) s eq_refl). destruct (string_body quote s) as [n b]. destruct IH as [Hn Hc].
    split; [lia|]. intros Hb. destruct (Hc Hb) as [r Hr]. exists r. cbn. by rewrite <- Hr.
Qed.

(** A token after the gap: its text is in front of the rest of the input. *)
Definition token_at (s : bytes) (t : CypherToken) (lx' : CypherLexer) : Prop :=
  tok_type t <> CYPHER_TOK_EOF /\ (length (lx_rest lx') < length s)%nat /\ exists q,
    (q = [] \/ tok_type t = CYPHER_TOK_STRING /\ (q = [39] \/ q = [34])) /\ s = q ++ tok_text t ++ q ++ lx_rest lx'.

Lemma add_token_at (type : CypherTokenType) (n : nat) (lx : CypherLexer) :
  type <> CYPHER_TOK_EOF -> (0 < n <= length (lx_rest lx))%nat ->
  let '(t, lx') := lexerAddToken type n lx in token_at (lx_rest lx) t lx'.
Proof.
  intros Ht Hn. unfold lexerAddToken, token_at. cbn [tok_type tok_text]. rewrite lexer_skip_rest. split; [done|].
  split; [rewrite length_drop; lia|]. exists []. split; [by left|]. cbn. symmetry. apply take_drop.
Qed.

Lemma keyword_not_eof (s : bytes) : cypherGetKeywordToken s <> CYPHER_TOK_EOF.
Proof.
  unfold cypherGetKeywordToken. destruct (find _ keywords) as [k|] eqn:E; [|done].
  apply find_some in E as [Hk _].
  assert (Hall : Forall (fun k : string * CypherTokenType => k.2 <> CYPHER_TOK_EOF) keywords) by by_compute.
  exact (proj1 (List.Forall_forall _ _) Hall k Hk).
Qed.

Lemma operator_ok (c c1 c2 : Z) (type : CypherTokenType) (n : nat) (s : bytes) :
  operator c c1 c2 = Some (type, n) -> aget 0 s 0 = c -> aget 0 s 1 = c1 -> aget 0 s 2 = c2 -> s <> [] ->
  type <> CYPHER_TOK_EOF /\ (0 < n <= length s)%nat.
Proof.
  unfold operator. intros Ho H0 H1 H2 Hs.
  assert (Hlen : (c1 <> 0 -> (2 <= length s)%nat) /\ (c1 <> 0 -> c2 <> 0 -> (3 <= length s)%nat)).
  { destruct s as [|x [|y [|z s]]]; cbn in *; split; intros; subst; try done; lia. }
  clear H0 H1 H2. destruct s as [|x s]; [done|]. cbn [length] in *.
  repeat (case_match; [|]); simplify_eq; (split; [done|]);
    repeat match goal with E : (_ =? _) = true |- _ => apply Z.eqb_eq in E end; lia.
Qed.

(** A name, a number or a string at the front is not empty. *)
Lemma tokenize_at (lx : CypherLexer) (c : Z) (s : bytes) :
  lx_rest lx = c :: s ->
  (is_name_start c = true -> let '(t, lx') := lexerTokenizeIdentifier lx in token_at (c :: s) t lx') /\
  (c_isdigit c = true -> let '(t, lx') := lexerTokenizeNumber lx in token_at (c :: s) t lx') /\
  (c = 39 \/ c = 34 -> let '(t, lx') := lexerTokenizeString lx in token_at (c :: s) t lx').
Proof.
  intros Hs. split; [|split]; intros Hc.
  - unfold lexerTokenizeIdentifier. rewrite <- Hs. apply add_token_at; [apply keyword_not_eof|]. split; [|apply run_le].
    rewrite Hs. cbn [run_length]. assert (E : is_name_char c = true).
    { unfold is_name_start in Hc. unfold is_name_char. destruct (is_alpha_code c), (c_isdigit c); done. }
    rewrite E. lia.
  - unfold lexerTokenizeNumber. rewrite <- Hs. assert (Hpos : (0 < run_length c_isdigit (lx_rest lx))%nat) by (rewrite Hs; cbn [run_length]; rewrite Hc; lia).
    pose proof (run_le c_isdigit (lx_rest lx)) as Hle. destruct (Z.eqb_spec (aget 0 (lx_rest lx) (run_length c_isdigit (lx_rest lx))) 46) as [Hd|_].
    + apply add_token_at; [done|]. set (n := run_length c_isdigit (lx_rest lx)) in *.
      assert (n < length (lx_rest lx))%nat by (apply Nat.nle_gt; intros Hge; unfold aget in Hd; rewrite lookup_ge_None_2 in Hd by done; done).
      pose proof (run_le c_isdigit (drop (n + 1) (lx_rest lx))) as H2. rewrite length_drop in H2. lia.
    + apply add_token_at; [done|lia].
  - unfold lexerTokenizeString. unfold lexerPeek. rewrite lexerNext_rest, Hs. change (aget 0 (c :: s) 0) with c. cbn [tail].
    pose proof (string_body_spec c s) as Hb. destruct (string_body c s) as [n closed]. destruct Hb as [Hn Hcl]. destruct closed.
    + destruct (Hcl eq_refl) as [r Hr]. unfold token_at. cbn [tok_type tok_text].
      assert (Hrest : lx_rest (lexerNext (lexer_skip n (lexerNext lx))) = r).
      { rewrite lexerNext_rest, lexer_skip_rest, lexerNext_rest, Hs. cbn [tail]. rewrite Hr at 1.
        rewrite drop_app_ge by (rewrite length_take; lia). rewrite length_take. replace (n - min n (length s))%nat with 0%nat by lia. done. }
      rewrite Hrest. split; [done|]. split.
      * rewrite Hr. cbn [length]. rewrite length_app. cbn. lia.
      * exists [c]. split; [right; split; [done|destruct Hc as [-> | ->]; auto]|]. cbn. by rewrite <- Hr.
    + rewrite <- Hs. apply add_token_at; [done|]. rewrite Hs. cbn [length]. lia.
Qed.

Lemma next_token_cover (lx : CypherLexer) :
  Forall (fun c => c <> 0) (lx_rest lx) ->
  let '(t, lx') := cypherLexerNextToken lx in
  (tok_type t = CYPHER_TOK_EOF /\ tok_text t = [] /\ lx_rest (after_gap lx) = []) \/
  (exists g s, gap g /\ lx_rest lx = g ++ s /\ token_at s t lx').
Proof.
  intros Hnz. unfold cypherLexerNextToken. fold (after_gap lx). destruct (after_gap_rest lx) as (g & Hg & Hrest).
  assert (Hnz' : Forall (fun c => c <> 0) (lx_rest (after_gap lx))) by (rewrite Hrest in Hnz; by apply Forall_app in Hnz as [_ ?]).
  unfold lexerPeek. destruct (lx_rest (after_gap lx)) as [|c s] eqn:Es.
  - cbn. left. rewrite Es. done.
  - apply Forall_cons_1 in Hnz' as [Hc _]. change (aget 0 (c :: s) 0) with c. rewrite (proj2 (Z.eqb_neq _ _)) by done.
    destruct (tokenize_at (after_gap lx) c s Es) as (H1 & H2 & H3).
    assert (Hfin : forall p : CypherToken * CypherLexer, token_at (c :: s) p.1 p.2 ->
      let '(t, lx') := p in (tok_type t = CYPHER_TOK_EOF /\ tok_text t = [] /\ c :: s = []) \/
        (exists g s, gap g /\ lx_rest lx = g ++ s /\ token_at s t lx')).
    { intros [t lx'] Ht. right. eauto. }
    destruct (is_name_start c) eqn:E1; [apply Hfin; specialize (H1 eq_refl); by destruct (lexerTokenizeIdentifier _)|].
    destruct (c_isdigit c) eqn:E2; [apply Hfin; specialize (H2 eq_refl); by destruct (lexerTokenizeNumber _)|].
    destruct ((c =? 39) || (c =? 34)) eqn:E3.
    { apply Hfin. specialize (H3 ltac:(lia)). by destruct (lexerTokenizeString _). }
    destruct (operator c (aget 0 (c :: s) 1) (aget 0 (c :: s) 2)) as [[type n]|] eqn:Eo; apply Hfin.
    + destruct (operator_ok _ _ _ _ _ (c :: s) Eo eq_refl eq_refl eq_refl) as [Ht Hn]; [done|].
      rewrite <- Es in Hn. pose proof (add_token_at type n (after_gap lx) Ht Hn) as Ha. rewrite Es in Ha.
      by destruct (lexerAddToken type n (after_gap lx)).
    + assert (Hn : (0 < 1 <= length (lx_rest (after_gap lx)))%nat) by (rewrite Es; cbn; lia).
      pose proof (add_token_at CYPHER_TOK_ERROR 1 (after_gap lx) ltac:(done) Hn) as Ha. rewrite Es in Ha.
      by destruct (lexerAddToken CYPHER_TOK_ERROR 1 (after_gap lx)).
Qed.

Lemma lex_all_covers (fuel : nat) (lx : CypherLexer) :
  Forall (fun c => c <> 0) (lx_rest lx) -> (length (lx_rest lx) < fuel)%nat ->
  exists ts, lex_all fuel lx = Some ts /\ covers (lx_rest lx) ts.
Proof.
  revert lx. induction fuel as [|fuel IH]; intros lx Hnz Hf; [lia|]. cbn [lex_all]. pose proof (next_token_cover lx Hnz) as Hn.
  destruct (cypherLexerNextToken lx) as [t lx']. destruct Hn as [(Ht & Htext & Hg)|(g & s & Hg & Hs & Ht & Hlen & q & Hq & Es)].
  - rewrite decide_True by done. exists [t]. split; [done|]. destruct (after_gap_rest lx) as (g & Hgap & Hrest).
    rewrite Hg, app_nil_r in Hrest. rewrite Hrest. destruct t. cbn in *. subst. by constructor.
  - rewrite decide_False by done. destruct (IH lx') as (ts & Ets & Hc).
    + rewrite Hs, Es, !Forall_app in Hnz. tauto.
    + rewrite Hs, length_app in Hf. lia.
    + exists (t :: ts). rewrite Ets. split; [done|]. rewrite Hs, Es. by constructor.
Qed.

(** The Cypher lexer ends on every input: within one more token than the
    input has bytes it returns the end token, and the tokens up to there are
    pieces of the input in order, with nothing between them but blanks,
    comments and the quotes of strings. *)
Lemma cypher_lexer_total (zInput : bytes) :
  Forall (fun c => c <> 0) zInput ->
  exists ts, lex_all (S (length zInput)) (cypherLexerCreate zInput) = Some ts /\ covers zInput ts.
Proof. intros Hnz. apply (lex_all_covers (S (length zInput)) (cypherLexerCreate zInput)); [done|cbn; lia]. Qed.

Lemma cypher_lexer_total_witness :
  exists ts, lex_all 15 (cypherLexerCreate (bstr "RETURN 'x'//ok")) = Some ts /\ covers (bstr "RETURN 'x'//ok") ts /\
    tok_type <$> ts = [CYPHER_TOK_RETURN; CYPHER_TOK_STRING; CYPHER_TOK_EOF].
Proof.
  destruct (cypher_lexer_total (bstr "RETURN 'x'//ok")) as (ts & E & Hc); [by_compute|].
  exists ts. split; [exact E|]. split; [exact Hc|]. vm_compute in E. injection E as <-. reflexivity.
Defined.

(** ** Written tokens are read back *)

Inductive lexeme :=
| LName (s : bytes)
| LInt (ds : bytes)
| LFloat (ds fs : bytes)
| LString (quote : Z) (body : bytes)
| LOp (s : bytes) (type : CypherTokenType).

Definition spell (l : lexeme) : bytes :=
  match l with
  | LName s => s
  | LInt ds => ds
  | LFloat ds fs => ds ++ 46 :: fs
  | LString quote body => quote :: body ++ [quote]
  | LOp s _ => s
  end.

(** The type and the text of the token. *)
Definition lexeme_token (l : lexeme) : CypherTokenType * bytes :=
  match l with
  | LName s => (cypherGetKeywordToken s, s)
  | LInt ds => (CYPHER_TOK_INTEGER, ds)
  | LFloat ds fs => (CYPHER_TOK_FLOAT, ds ++ 46 :: fs)
  | LString _ body => (CYPHER_TOK_STRING, body)
  | LOp s type => (type, s)
  end.

Definition operators : list (string * CypherTokenType) :=
  [("=~", CYPHER_TOK_REGEX); ("=", CYPHER_TOK_EQ); ("<>", CYPHER_TOK_NE); ("<->", CYPHER_TOK_ARROW_BOTH);
   ("<-", CYPHER_TOK_ARROW_LEFT); ("<=", CYPHER_TOK_LE); ("<", CYPHER_TOK_LT); (">=", CYPHER_TOK_GE); (">", CYPHER_TOK_GT);
   ("->", CYPHER_TOK_ARROW_RIGHT); ("-", CYPHER_TOK_MINUS); ("+", CYPHER_TOK_PLUS); ("*", CYPHER_TOK_MULT);
   ("/", CYPHER_TOK_DIV); ("%", CYPHER_TOK_MOD); ("^", CYPHER_TOK_POW); (".", CYPHER_TOK_DOT); (":", CYPHER_TOK_COLON);
   (",", CYPHER_TOK_COMMA); (";", CYPHER_TOK_SEMICOLON); ("(", CYPHER_TOK_LPAREN); (")", CYPHER_TOK_RPAREN);
   ("[", CYPHER_TOK_LBRACKET); ("]", CYPHER_TOK_RBRACKET); ("{", CYPHER_TOK_LBRACE); ("}", CYPHER_TOK_RBRACE);
   ("|", CYPHER_TOK_PIPE); ("$", CYPHER_TOK_DOLLAR)]%string.

Definition op_lexemes : list (bytes * CypherTokenType) := (fun k : string * CypherTokenType => (bstr k.1, k.2)) <$> operators.

(** Well-formed lexemes; in the body of a string the quote and the backslash
    are escaped by a backslash. *)
Definition lexeme_ok (l : lexeme) : bool :=
  match l with
  | LName s => match s with c :: _ => is_name_start c && forallb is_name_char s | [] => false end
  | LInt ds => negb (bool_decide (ds = [])) && forallb c_isdigit ds
  | LFloat ds fs => negb (bool_decide (ds = [])) && forallb c_isdigit ds && forallb c_isdigit fs
  | LString quote body => ((quote =? 39) || (quote =? 34)) && bool_decide (string_body quote (body ++ [quote]) = (length body, true))
  | LOp s type => bool_decide ((s, type) ∈ op_lexemes)
  end.

(** No operator, and no comment, starts with the operator [s] and [c]. *)
Definition op_ends (s : bytes) (c : Z) : bool :=
  negb (bool_decide (s ++ [c] ∈ op_lexemes.*1 ++ [bstr "//"; bstr "/*"])).

(** Whether a lexeme ends where [r] begins: a name, a number and an operator
    could go on. *)
Definition ends (l : lexeme) (r : bytes) : bool :=
  let c := aget 0 r 0 in
  match l with
  | LName _ => negb (is_name_char c)
  | LInt _ => negb (c_isdigit c) && negb (c =? 46)
  | LFloat _ _ => negb (c_isdigit c)
  | LString _ _ => true
  | LOp s _ => op_ends s c
  end.

Lemma run_app (p : Z -> bool) (s r : bytes) :
  forallb p s = true -> p (aget 0 r 0) = false -> run_length p (s ++ r) = length s.
Proof.
  intros Hs Hr. induction s as [|c s IH]; cbn [app run_length length].
  - destruct r as [|d r]; [done|]. change (aget 0 (d :: r) 0) with d in Hr. cbn [run_length]. by rewrite Hr.
  - cbn [forallb] in Hs. apply andb_true_iff in Hs as [-> Hs]. by rewrite IH.
Qed.

Lemma string_body_app (quote : Z) (body r : bytes) :
  string_body quote (body ++ [quote]) = (length body, true) ->
  string_body quote (body ++ quote :: r) = (length body, true).
Proof.
  remember (length body) as len eqn:El. revert body El. induction (lt_wf len) as [len _ IH]. intros body ->.
  destruct body as [|c s]; [cbn; by rewrite Z.eqb_refl|]. cbn [app string_body length]. destruct (c =? quote); [done|].
  destruct (c =? 92).
  - destruct s as [|d s]; [done|]. cbn [app length]. specialize (IH (length s) ltac:(cbn; lia) s eq_refl).
    destruct (string_body quote (s ++ [quote])) as [n b]. intros [= -> ->]. by rewrite IH.
  - specialize (IH (length s) ltac:(cbn; lia) s eq_refl). destruct (string_body quote (s ++ [quote])) as [n b]. intros [= -> ->].
    by rewrite IH.
Qed.

Lemma op_forall (P : bytes * CypherTokenType -> Prop) (s : bytes) (type : CypherTokenType) :
  Forall P op_lexemes -> bool_decide ((s, type) ∈ op_lexemes) = true -> P (s, type).
Proof. intros Hall Hin%bool_decide_eq_true. rewrite list.Forall_forall in Hall. by apply Hall. Qed.

(** The first character of a lexeme. *)
Lemma spell_head (l : lexeme) :
  lexeme_ok l = true -> exists c s, spell l = c :: s /\ c_isspace c = false /\ c <> 0.
Proof.
  destruct l as [s|ds|ds fs|q b|s ty]; cbn [lexeme_ok spell]; intros H.
  - destruct s as [|c s]; [done|]. exists c, s. split; [done|]. unfold is_name_start, is_alpha_code in H. unfold c_isspace. lia.
  - destruct ds as [|c s]; [done|]. exists c, s. split; [done|]. cbn in H. unfold c_isdigit in H. unfold c_isspace. lia.
  - destruct ds as [|c s]; [done|]. exists c, (s ++ 46 :: fs). split; [done|]. cbn in H. unfold c_isdigit in H. unfold c_isspace. lia.
  - exists q, (b ++ [q]). split; [done|]. unfold c_isspace. lia.
  - apply (op_forall (fun k => match k.1 with c :: _ => c_isspace c = false /\ c <> 0 | [] => False end)) in H.
    + cbn in H. destruct s as [|c s]; [done|]. by exists c, s.
    + repeat constructor; done.
Qed.

(** No lexeme that ends starts a comment. *)
Lemma spell_no_comment (l : lexeme) (r : bytes) : lexeme_ok l = true -> ends l r = true -> comment_length (spell l ++ r) = 0%nat.
Proof.
  intros Hl Hw.
  assert (Hslash : forall c s, spell l = c :: s -> c <> 47 -> comment_length (spell l ++ r) = 0%nat).
  { intros c s -> Hc. cbn [app]. unfold comment_length. destruct (s ++ r); [done|]. by rewrite (proj2 (Z.eqb_neq c 47)). }
  destruct l as [s|ds|ds fs|q b|s ty]; cbn [lexeme_ok spell] in *.
  - destruct s as [|c s]; [done|]. apply (Hslash c s); [done|]. unfold is_name_start, is_alpha_code in Hl. lia.
  - destruct ds as [|c s]; [done|]. apply (Hslash c s); [done|]. cbn in Hl. unfold c_isdigit in Hl. lia.
  - destruct ds as [|c s]; [done|]. apply (Hslash c (s ++ 46 :: fs)); [done|]. cbn in Hl. unfold c_isdigit in Hl. lia.
  - apply (Hslash q (b ++ [q])); [done|]. lia.
  - apply (op_forall (fun k => match k.1 with [] => False | [_] => True | c :: _ => c <> 47 end)) in Hl; [|repeat constructor; done].
    destruct s as [|c [|d s]]; [done| |by apply (Hslash c (d :: s))].
    destruct (Z.eqb_spec c 47) as [->|Hc]; [|by apply (Hslash c [])]. cbn [app]. destruct r as [|x r]; [done|]. cbn in Hw.
    unfold comment_length. destruct (Z.eqb_spec x 47) as [->|H1]; [by vm_compute in Hw|]. destruct (Z.eqb_spec x 42) as [->|H2]; [by vm_compute in Hw|].
    by rewrite !andb_false_r.
Qed.

(** An operator that ends. *)
Definition op_reads (k : bytes * CypherTokenType) : Prop := forall x y, op_ends k.1 x = true ->
  let s := k.1 ++ [x; y] in
  operator (aget 0 s 0) (aget 0 s 1) (aget 0 s 2) = Some (k.2, length k.1) /\
  is_name_start (aget 0 s 0) = false /\ c_isdigit (aget 0 s 0) = false /\ (aget 0 s 0 =? 39) || (aget 0 s 0 =? 34) = false.

Lemma ops_read : Forall op_reads op_lexemes.
Proof.
  repeat (apply Forall_cons_2; [|]); [..|apply Forall_nil_2]; intros x y Hx;
    (split; [|done]); unfold operator, aget; cbn -[Z.eqb];
    repeat match goal with |- context [x =? ?n] => destruct (Z.eqb_spec x n) as [->|_]; [vm_compute in Hx; discriminate Hx|] end; reflexivity.
Qed.

Lemma aget_app_lt (a b : bytes) (i : nat) : (i < length a)%nat -> aget 0 (a ++ b) i = aget 0 a i.
Proof. intros Hi. unfold aget. by rewrite lookup_app_l. Qed.

Lemma aget_app_ge (a b : bytes) (i : nat) : aget 0 (a ++ b) (length a + i) = aget 0 b i.
Proof. unfold aget. by rewrite lookup_app_r, Nat.add_comm, Nat.add_sub by lia. Qed.

Definition reads_lexeme (l : lexeme) (w r : bytes) (p : CypherToken * CypherLexer) : Prop :=
  (tok_type p.1, tok_text p.1) = lexeme_token l /\ lx_rest p.2 = w ++ r.

Lemma add_token_read (lx : CypherLexer) (l : lexeme) (w r : bytes) (type : CypherTokenType) (text : bytes) (n : nat) :
  lx_rest lx = spell l ++ w ++ r -> n = length text -> lexeme_token l = (type, text) -> spell l = text ->
  reads_lexeme l w r (lexerAddToken type n lx).
Proof.
  intros at_lexeme -> Ht Hs. unfold reads_lexeme, lexerAddToken. cbn [fst snd tok_type tok_text].
  rewrite lexer_skip_rest, at_lexeme, Hs, take_app_length, drop_app_length. done.
Qed.

Section ReadLexeme.
Context (lx : CypherLexer) (l : lexeme) (w r : bytes).
Hypothesis ok : lexeme_ok l = true.
Hypothesis sep : ends l (w ++ r) = true.
Hypothesis at_lexeme : lx_rest lx = spell l ++ w ++ r.

Lemma read_name (s : bytes) : l = LName s -> reads_lexeme l w r (lexerTokenizeIdentifier lx).
Proof.
  intros ->. cbn [spell lexeme_ok ends] in *. apply negb_true_iff in sep. destruct s as [|c s]; [done|]. apply andb_true_iff in ok as [_ Hs].
  unfold lexerTokenizeIdentifier. rewrite at_lexeme.
  assert (E : run_length is_name_char ((c :: s) ++ w ++ r) = length (c :: s)).
  { by apply run_app. }
  rewrite E, take_app_length. by apply (add_token_read lx _ w r _ (c :: s)).
Qed.

Lemma read_int (ds : bytes) : l = LInt ds -> reads_lexeme l w r (lexerTokenizeNumber lx).
Proof.
  intros ->. cbn [spell lexeme_ok ends] in *. apply andb_true_iff in ok as [_ Hd].
  apply andb_true_iff in sep as [Hb1%negb_true_iff Hb2%negb_true_iff]. unfold lexerTokenizeNumber. rewrite at_lexeme.
  rewrite (run_app c_isdigit ds) by done.
  assert (E : aget 0 (ds ++ w ++ r) (length ds) = aget 0 (w ++ r) 0) by (rewrite <- (aget_app_ge ds (w ++ r) 0), Nat.add_0_r; done).
  rewrite E, Hb2.
  by apply (add_token_read lx _ w r _ ds).
Qed.

Lemma read_float (ds fs : bytes) : l = LFloat ds fs -> reads_lexeme l w r (lexerTokenizeNumber lx).
Proof.
  intros ->. cbn [spell lexeme_ok ends] in *. apply andb_true_iff in ok as [Hd Hf]. apply andb_true_iff in Hd as [_ Hd].
  apply negb_true_iff in sep. unfold lexerTokenizeNumber. rewrite at_lexeme.
  assert (E0 : (ds ++ 46 :: fs) ++ w ++ r = ds ++ (46 :: fs ++ w ++ r)) by (by rewrite <- app_assoc).
  rewrite E0, (run_app c_isdigit ds) by done.
  assert (E1 : aget 0 (ds ++ 46 :: fs ++ w ++ r) (length ds) = 46).
  { rewrite <- (Nat.add_0_r (length ds)). apply aget_app_ge. }
  rewrite E1. change (46 =? 46) with true. cbv iota.
  assert (E2 : drop (length ds + 1) (ds ++ 46 :: fs ++ w ++ r) = fs ++ w ++ r).
  { by rewrite <- drop_drop, drop_app_length. }
  rewrite E2, (run_app c_isdigit fs) by done.
  apply (add_token_read lx _ w r _ (ds ++ 46 :: fs)); [done| |done..]. rewrite length_app. cbn [length]. lia.
Qed.

Lemma read_string (quote : Z) (body : bytes) : l = LString quote body -> reads_lexeme l w r (lexerTokenizeString lx).
Proof.
  intros ->. cbn [spell lexeme_ok] in *. apply andb_true_iff in ok as [_ Hb%bool_decide_eq_true].
  unfold lexerTokenizeString, lexerPeek. rewrite lexerNext_rest, at_lexeme. cbn [app tail].
  change (aget 0 (quote :: (body ++ [quote]) ++ w ++ r) 0) with quote.
  assert (E : (body ++ [quote]) ++ w ++ r = body ++ quote :: w ++ r) by (by rewrite <- app_assoc).
  rewrite E, string_body_app by done. unfold reads_lexeme. cbn [tok_type tok_text fst snd lexeme_token].
  rewrite lexerNext_rest, lexer_skip_rest, lexerNext_rest, at_lexeme. cbn [app tail].
  rewrite E, take_app_length, drop_app_length. done.
Qed.

Lemma read_op (s : bytes) (type : CypherTokenType) :
  l = LOp s type -> op_reads (s, type) /\ exists x y, op_ends s x = true /\
    forall i, (i < 3)%nat -> aget 0 (lx_rest lx) i = aget 0 (s ++ [x; y]) i.
Proof.
  intros E. rewrite at_lexeme. subst l. cbn [spell lexeme_ok ends] in *.
  assert (Hs : (0 < length s)%nat).
  { apply (op_forall (fun k => (0 < length k.1)%nat) s type); [|done]. repeat constructor; cbn; lia. }
  split; [by apply op_forall; [apply ops_read|]|].
  exists (aget 0 (w ++ r) 0), (aget 0 (w ++ r) 1). split; [done|].
  intros i Hi. destruct (decide (i < length s)%nat) as [Hlt|Hge]; [by rewrite !aget_app_lt|].
  replace i with (length s + (i - length s))%nat by lia. rewrite !aget_app_ge.
  destruct (i - length s)%nat as [|[|k]] eqn:Ek; [done..|lia].
Qed.

End ReadLexeme.

Lemma next_token_lexeme (lx : CypherLexer) (l : lexeme) (w0 w r : bytes) :
  lexeme_ok l = true -> ends l (w ++ r) = true -> Forall (fun c => c_isspace c = true) w0 -> lx_rest lx = w0 ++ spell l ++ w ++ r ->
  reads_lexeme l w r (cypherLexerNextToken lx).
Proof.
  intros Hl Hw Hw0 Hlx. destruct (spell_head l Hl) as (c & s & Hs & Hc & Hc0).
  unfold cypherLexerNextToken. fold (after_gap lx).
  assert (Hrest : lx_rest (after_gap lx) = spell l ++ w ++ r).
  { unfold after_gap, lexerSkipComment, lexerSkipWhitespace. rewrite !lexer_skip_rest, Hlx.
    rewrite (run_app c_isspace w0).
    - by rewrite drop_app_length, spell_no_comment, drop_0.
    - by apply forallb_forall, List.Forall_forall.
    - by rewrite Hs. }
  set (lx1 := after_gap lx) in *. clearbody lx1. clear Hlx Hw0.
  assert (Hpeek : lexerPeek lx1 0 = c) by (unfold lexerPeek; rewrite Hrest, Hs; done). rewrite Hpeek.
  rewrite (proj2 (Z.eqb_neq _ _)) by done. destruct l as [n|ds|ds fs|q b|o ty] eqn:El.
  - cbn [spell lexeme_ok] in *. subst n. apply andb_true_iff in Hl as Hl2. destruct Hl2 as [-> _].
    by apply (read_name lx1 (LName (c :: s)) w r Hl Hw Hrest (c :: s)).
  - assert (Hd : c_isdigit c = true /\ is_name_start c = false).
    { cbn [spell lexeme_ok] in *. subst ds. cbn in Hl. apply andb_true_iff in Hl as [Hd _]. split; [done|].
      unfold is_name_start, is_alpha_code. unfold c_isdigit in Hd. lia. }
    destruct Hd as [-> ->]. by apply (read_int lx1 (LInt ds) w r Hl Hw Hrest ds).
  - assert (Hd : c_isdigit c = true /\ is_name_start c = false).
    { cbn [spell lexeme_ok] in *. destruct ds as [|d ds]; [done|]. injection Hs as <- _. cbn in Hl.
      do 2 apply andb_true_iff in Hl as [Hl _]. split; [done|]. unfold is_name_start, is_alpha_code. unfold c_isdigit in Hl. lia. }
    destruct Hd as [-> ->]. by apply (read_float lx1 (LFloat ds fs) w r Hl Hw Hrest ds fs).
  - assert (Hd : c_isdigit c = false /\ is_name_start c = false /\ (c =? 39) || (c =? 34) = true).
    { cbn [spell lexeme_ok] in *. injection Hs as <- _. apply andb_true_iff in Hl as [Hq _].
      unfold is_name_start, is_alpha_code, c_isdigit. lia. }
    destruct Hd as (-> & -> & ->). by apply (read_string lx1 (LString q b) w r Hl Hw Hrest q b).
  - destruct (read_op lx1 (LOp o ty) w r Hl Hw Hrest o ty eq_refl) as (Hop & x & y & Hx & Hi).
    destruct (Hop x y Hx) as (H1 & H2 & H3 & H4). cbn [fst snd] in *. rewrite <- !Hi in * by lia.
    unfold lexerPeek in *. rewrite Hpeek in *. rewrite H2, H3, H4, H1.
    by apply (add_token_read lx1 (LOp o ty) w r ty o).
Qed.

(** A text: lexemes, each with the blanks that follow it. *)
Definition text_of (ls : list (lexeme * bytes)) : bytes := concat ((fun p : lexeme * bytes => spell p.1 ++ p.2) <$> ls).

(** Well-formed lexemes with blanks between them, at least where a lexeme
    would otherwise run into the next one. *)
Fixpoint separated (ls : list (lexeme * bytes)) : bool :=
  match ls with
  | [] => true
  | (l, w) :: ls => lexeme_ok l && forallb c_isspace w && ends l (w ++ text_of ls) && separated ls
  end.

Lemma separated_cons (l : lexeme) (w : bytes) (ls : list (lexeme * bytes)) :
  separated ((l, w) :: ls) = true ->
  lexeme_ok l = true /\ Forall (fun c => c_isspace c = true) w /\ ends l (w ++ text_of ls) = true /\ separated ls = true.
Proof. cbn. rewrite !andb_true_iff. intros [[[H1 H2] H3] H4]. split; [done|]. split; [by apply List.Forall_forall, forallb_forall|done]. Qed.

Definition token_view (t : CypherToken) : CypherTokenType * bytes := (tok_type t, tok_text t).

Lemma lexeme_not_eof (l : lexeme) : lexeme_ok l = true -> (lexeme_token l).1 <> CYPHER_TOK_EOF.
Proof.
  destruct l as [s|ds|ds fs|q b|s ty]; cbn; intros H; [apply keyword_not_eof|done..|].
  apply (op_forall (fun k => k.2 <> CYPHER_TOK_EOF)) in H; [done|by_compute].
Qed.

Lemma next_token_end (lx : CypherLexer) (w : bytes) :
  Forall (fun c => c_isspace c = true) w -> lx_rest lx = w -> token_view (cypherLexerNextToken lx).1 = (CYPHER_TOK_EOF, []).
Proof.
  intros Hw Hlx. unfold cypherLexerNextToken. fold (after_gap lx).
  assert (Hrest : lx_rest (after_gap lx) = []).
  { unfold after_gap, lexerSkipComment, lexerSkipWhitespace. rewrite !lexer_skip_rest, Hlx.
    rewrite <- (app_nil_r w), (run_app c_isspace w) by (done || by apply forallb_forall, List.Forall_forall).
    by rewrite drop_app_length. }
  unfold lexerPeek. rewrite Hrest. cbn. by rewrite Hrest.
Qed.

Lemma lex_all_lexemes (ls : list (lexeme * bytes)) (w0 : bytes) (lx : CypherLexer) :
  separated ls = true -> Forall (fun c => c_isspace c = true) w0 ->
  lx_rest lx = w0 ++ text_of ls ->
  exists ts, lex_all (S (length ls)) lx = Some ts /\ token_view <$> ts = (lexeme_token <$> ls.*1) ++ [(CYPHER_TOK_EOF, [])].
Proof.
  revert w0 lx. induction ls as [|[l w] ls IH]; intros w0 lx Hls Hw0 Hlx; cbn [length lex_all].
  - pose proof (next_token_end lx w0 Hw0 ltac:(rewrite Hlx; apply app_nil_r)) as Ht.
    destruct (cypherLexerNextToken lx) as [t lx']. cbn [fst] in Ht. injection Ht as Ht1 Ht2. rewrite decide_True by done.
    exists [t]. split; [done|]. cbn. unfold token_view. by rewrite Ht1, Ht2.
  - apply separated_cons in Hls as (Hl & Hw & He & Hls).
    assert (Htext : lx_rest lx = w0 ++ spell l ++ w ++ text_of ls).
    { rewrite Hlx. unfold text_of. cbn. by rewrite <- app_assoc. }
    destruct (next_token_lexeme lx l w0 w (text_of ls) Hl He Hw0 Htext) as [Ht Hr].
    pose proof (lexeme_not_eof l Hl) as Hne.
    destruct (cypherLexerNextToken lx) as [t lx']. cbn [fst snd] in *.
    rewrite <- Ht in Hne. rewrite decide_False by done.
    destruct (IH w lx' Hls Hw Hr) as (ts & Ets & Hts). exists (t :: ts).
    cbn [lex_all] in Ets |- *. rewrite Ets. split; [done|].
    cbn. rewrite Hts. unfold token_view. by rewrite Ht.
Qed.

(** A Cypher text written as a list of names, numbers, quoted strings and
    operators, with blanks between them where they would run together, is read back as exactly these tokens,
    their texts unchanged and every name that is a keyword classified as such,
    and then the end. *)
Lemma cypher_lexer_roundtrip (w0 : bytes) (ls : list (lexeme * bytes)) :
  separated ls = true -> Forall (fun c => c_isspace c = true) w0 ->
  exists ts, lex_all (S (length ls)) (cypherLexerCreate (w0 ++ text_of ls)) = Some ts /\
    token_view <$> ts = (lexeme_token <$> ls.*1) ++ [(CYPHER_TOK_EOF, [])].
Proof. intros Hls Hw0. by apply (lex_all_lexemes ls w0). Qed.

Definition demo_lexemes : list (lexeme * bytes) :=
  [(LName (bstr "match"), []); (LOp (bstr "<-") CYPHER_TOK_ARROW_LEFT, bstr "  "); (LFloat (bstr "3") (bstr "14"), [10]);
   (LString 39 (bstr "it\'s"), [])].

Lemma cypher_lexer_roundtrip_witness :
  exists ts, lex_all 5 (cypherLexerCreate (bstr " " ++ text_of demo_lexemes)) = Some ts /\
    token_view <$> ts = [(CYPHER_TOK_MATCH, bstr "match"); (CYPHER_TOK_ARROW_LEFT, bstr "<-"); (CYPHER_TOK_FLOAT, bstr "3.14");
      (CYPHER_TOK_STRING, bstr "it\'s"); (CYPHER_TOK_EOF, [])].
Proof.
  apply (cypher_lexer_roundtrip (bstr " ") demo_lexemes); [by vm_compute|by_compute].
Defined.

(** Only one comment is skipped, and no blank after it: a blank after a
    comment is an error token. *)
Lemma cypher_blank_after_comment :
  exists ts, lex_all 4 (cypherLexerCreate (bstr "/* all */ MATCH")) = Some ts /\
    token_view <$> ts = [(CYPHER_TOK_ERROR, bstr " "); (CYPHER_TOK_MATCH, bstr "MATCH"); (CYPHER_TOK_EOF, [])].
Proof. eexists. split; vm_compute; reflexivity. Qed.
