(* ===== verification/CypherParser.v ===== *)
(** * The Cypher parser (sqlite-graph/src/cypher/cypher-parser.c, cypher-ast.c)

    A recursive-descent parser over the lexer.  Its state is the lexer with
    the token it returned last, the static copy of the token that was peeked
    at, the error message, and a counter for the addresses of the nodes.
    A function returns a node, [NULL], or has undefined behaviour; the fuel
    bounds nesting and loops.  Nodes have the address they were created at, so
    that a node that hangs at two places is seen when it is freed.

    The positions stored in nodes are left out; the error message is the text
    given to [parserSetError] and the token it appends. *)

From Stdlib Require Import String ZArith Lia.
From stdpp Require Import base option list numbers.
From S2P Require Import Prelude Codec DefParser Values Scalar CypherLexer.

Local Open Scope Z_scope.

(** ** Syntax trees *)

Inductive CypherAstNodeType :=
| CYPHER_AST_QUERY | CYPHER_AST_SINGLE_QUERY | CYPHER_AST_UNION | CYPHER_AST_MATCH | CYPHER_AST_OPTIONAL_MATCH
| CYPHER_AST_WHERE | CYPHER_AST_RETURN | CYPHER_AST_PROJECTION_LIST | CYPHER_AST_PROJECTION_ITEM | CYPHER_AST_ORDER_BY
| CYPHER_AST_SORT_LIST | CYPHER_AST_SORT_ITEM | CYPHER_AST_LIMIT | CYPHER_AST_SKIP | CYPHER_AST_PATTERN
| CYPHER_AST_NODE_PATTERN | CYPHER_AST_REL_PATTERN | CYPHER_AST_LABELS | CYPHER_AST_PATH | CYPHER_AST_IDENTIFIER
| CYPHER_AST_LITERAL | CYPHER_AST_UNARY_OP | CYPHER_AST_BINARY_OP | CYPHER_AST_PROPERTY | CYPHER_AST_MAP
| CYPHER_AST_LIST | CYPHER_AST_FUNCTION_CALL | CYPHER_AST_CASE | CYPHER_AST_PROPERTY_PAIR | CYPHER_AST_AND
| CYPHER_AST_OR | CYPHER_AST_NOT | CYPHER_AST_COMPARISON | CYPHER_AST_ADDITIVE | CYPHER_AST_MULTIPLICATIVE
| CYPHER_AST_ARRAY | CYPHER_AST_OBJECT | CYPHER_AST_STARTS_WITH | CYPHER_AST_ENDS_WITH | CYPHER_AST_CONTAINS_OP
| CYPHER_AST_REGEX | CYPHER_AST_CREATE | CYPHER_AST_MERGE | CYPHER_AST_SET | CYPHER_AST_DELETE | CYPHER_AST_REMOVE
| CYPHER_AST_COUNT.

#[export] Instance CypherAstNodeType_eq_dec : EqDecision CypherAstNodeType.
Proof. solve_decision. Defined.

Inductive CypherAst := MkAst {
  ast_addr : nat;
  ast_type : CypherAstNodeType;
  ast_value : option bytes;
  ast_flags : Z;
  ast_children : list CypherAst
}.

Definition cypherAstAddChild (pParent pChild : CypherAst) : CypherAst :=
  MkAst (ast_addr pParent) (ast_type pParent) (ast_value pParent) (ast_flags pParent) (ast_children pParent ++ [pChild]).

Definition cypherAstSetValue (pAst : CypherAst) (zValue : bytes) : CypherAst :=
  MkAst (ast_addr pAst) (ast_type pAst) (Some zValue) (ast_flags pAst) (ast_children pAst).

Definition ast_set_flags (pAst : CypherAst) (iFlags : Z) : CypherAst :=
  MkAst (ast_addr pAst) (ast_type pAst) (ast_value pAst) iFlags (ast_children pAst).

Definition cypherAstGetChildCount (pAst : CypherAst) : Z := Z.of_nat (length (ast_children pAst)).

(** The nodes [cypherAstDestroy] frees, in order. *)
Fixpoint frees (pAst : CypherAst) : list nat := flat_map frees (ast_children pAst) ++ [ast_addr pAst].

(** ** The parser's monad *)

Inductive pres (A : Type) :=
| PNode (a : A)
| PNull
| PUndef
| PFuel.
Arguments PNode {A} a.
Arguments PNull {A}.
Arguments PUndef {A}.
Arguments PFuel {A}.

Record pstate := MkPs {
  ps_lexer : CypherLexer;
  ps_last : option CypherToken;      (* pLexer->pLastToken *)
  ps_peeked : CypherToken;           (* s_peekedToken *)
  ps_peeked_live : bool;             (* its text is not freed *)
  ps_error : option (string * option CypherToken);  (* pParser->zErrorMsg *)
  ps_next : nat                      (* the address of the next node *)
}.

Definition PM (A : Type) : Type := pstate -> pres A * pstate.

Definition pret {A : Type} (a : A) : PM A := fun st => (PNode a, st).
Definition pnull {A : Type} : PM A := fun st => (PNull, st).
Definition pundef {A : Type} : PM A := fun st => (PUndef, st).
Definition pfuel {A : Type} : PM A := fun st => (PFuel, st).

Definition pbind {A B : Type} (m : PM A) (f : A -> PM B) : PM B :=
  fun st => match m st with
            | (PNode a, st') => f a st'
            | (PNull, st') => (PNull, st')
            | (PUndef, st') => (PUndef, st')
            | (PFuel, st') => (PFuel, st')
            end.

(** A call whose result is compared with [NULL]. *)
Definition ptry {A : Type} (m : PM A) : PM (option A) :=
  fun st => match m st with
            | (PNode a, st') => (PNode (Some a), st')
            | (PNull, st') => (PNode None, st')
            | (PUndef, st') => (PUndef, st')
            | (PFuel, st') => (PFuel, st')
            end.

Declare Scope parser_scope.
Notation "x <-y m ; f" := (pbind m (fun x => f))
  (at level 200, m at level 100, f at level 200, right associativity) : parser_scope.
Notation "m ;; f" := (pbind m (fun _ => f)) (at level 100, f at level 200, right associativity) : parser_scope.
Local Open Scope parser_scope.

(** [if( !x ){ h; return NULL; }] *)
Definition or_else {A : Type} (m : PM A) (h : PM unit) : PM A :=
  r <-y ptry m;
  match r with
  | Some a => pret a
  | None => h ;; pnull
  end.

Definition cypherAstCreate (type : CypherAstNodeType) : PM CypherAst :=
  fun st => (PNode (MkAst (ps_next st) type None 0 []),
             MkPs (ps_lexer st) (ps_last st) (ps_peeked st) (ps_peeked_live st) (ps_error st) (S (ps_next st))).

Definition create_valued (type : CypherAstNodeType) (zValue : bytes) : PM CypherAst :=
  pAst <-y cypherAstCreate type; pret (cypherAstSetValue pAst zValue).

Definition cypherAstCreateLiteral (zValue : bytes) : PM CypherAst := create_valued CYPHER_AST_LITERAL zValue.
Definition cypherAstCreateIdentifier (zName : bytes) : PM CypherAst := create_valued CYPHER_AST_IDENTIFIER zName.
Definition cypherAstCreateNodeLabel (zName : bytes) : PM CypherAst := create_valued CYPHER_AST_LABELS zName.

Definition cypherAstCreateBinaryOp (zOp : bytes) (pLeft pRight : CypherAst) : PM CypherAst :=
  pAst <-y create_valued CYPHER_AST_BINARY_OP zOp;
  pret (cypherAstAddChild (cypherAstAddChild pAst pLeft) pRight).

Definition cypherAstCreateUnaryOp (zOp : bytes) (pExpr : CypherAst) : PM CypherAst :=
  pAst <-y create_valued CYPHER_AST_UNARY_OP zOp;
  pret (cypherAstAddChild pAst pExpr).

(** Freeing a node twice is undefined. *)
Definition cypherAstDestroy (pAst : CypherAst) : PM unit :=
  if decide (NoDup (frees pAst)) then pret tt else pundef.

(** [" near '%.*s' at line %d column %d"], with the 0 that ends it. *)
Definition suffix_size (t : CypherToken) : nat :=
  (7 + length (tok_text t) + 10 + length (fmt_d (tok_line t)) + 8 + length (fmt_d (tok_column t)) + 1)%nat.

(** The suffix is written into 256 bytes. *)
Definition parserSetError (zFormat : string) : PM unit :=
  fun st =>
    let st' := MkPs (ps_lexer st) (ps_last st) (ps_peeked st) (ps_peeked_live st) (Some (zFormat, ps_last st)) (ps_next st) in
    match ps_last st with
    | Some t => if (256 <? suffix_size t)%nat then (PUndef, st') else (PNode tt, st')
    | None => (PNode tt, st')
    end.

(** ** Tokens *)

(** [cypherLexerNextToken] frees the text of the token before. *)
Definition next_token : PM CypherToken :=
  fun st =>
    let '(t, lx) := cypherLexerNextToken (ps_lexer st) in
    (PNode t, MkPs lx (Some t) (ps_peeked st) false (ps_error st) (ps_next st)).

Definition parserPeekToken : PM CypherToken :=
  fun st =>
    let '(t, _) := cypherLexerNextToken (ps_lexer st) in
    (PNode t, MkPs (ps_lexer st) (Some t) t true (ps_error st) (ps_next st)).

(** [pToken->text] for a [pToken] that points to [s_peekedToken]. *)
Definition peeked_text : PM bytes :=
  fun st => if ps_peeked_live st then (PNode (tok_text (ps_peeked st)), st) else (PUndef, st).

(** The token is consumed even if it is not the expected one. *)
Definition parserConsumeToken (expectedType : CypherTokenType) : PM CypherToken :=
  t <-y next_token;
  if decide (tok_type t = expectedType) then pret t else pnull.

(** A call whose result is not looked at. *)
Definition skip_token (expectedType : CypherTokenType) : PM unit := ptry (parserConsumeToken expectedType) ;; pret tt.

(** ** Expressions *)

Definition type_is (types : list CypherTokenType) (t : CypherTokenType) : bool := bool_decide (t ∈ types).

Definition or_ops : list CypherTokenType := [CYPHER_TOK_OR].
Definition and_ops : list CypherTokenType := [CYPHER_TOK_AND].
Definition comparison_ops : list CypherTokenType :=
  [CYPHER_TOK_EQ; CYPHER_TOK_NE; CYPHER_TOK_LT; CYPHER_TOK_LE; CYPHER_TOK_GT; CYPHER_TOK_GE; CYPHER_TOK_STARTS_WITH;
   CYPHER_TOK_ENDS_WITH; CYPHER_TOK_CONTAINS; CYPHER_TOK_IN].
Definition additive_ops : list CypherTokenType := [CYPHER_TOK_PLUS; CYPHER_TOK_MINUS].
Definition multiplicative_ops : list CypherTokenType := [CYPHER_TOK_MULT; CYPHER_TOK_DIV; CYPHER_TOK_MOD].
Definition literal_types : list CypherTokenType :=
  [CYPHER_TOK_INTEGER; CYPHER_TOK_FLOAT; CYPHER_TOK_STRING; CYPHER_TOK_BOOLEAN; CYPHER_TOK_NULL].

(** The loop of the left-associative operators; [node] builds the node from
    the token of the operator and the operands. *)
Fixpoint binary_loop (ops : list CypherTokenType) (operand : PM CypherAst) (zError : string)
  (node : CypherToken -> CypherAst -> CypherAst -> PM CypherAst) (fuel : nat) (pLeft : CypherAst) : PM CypherAst :=
  match fuel with
  | O => pfuel
  | S fuel =>
      pToken <-y parserPeekToken;
      if type_is ops (tok_type pToken) then
        skip_token (tok_type pToken) ;;
        pRight <-y or_else operand (cypherAstDestroy pLeft ;; parserSetError zError);
        pNode <-y node pToken pLeft pRight;
        binary_loop ops operand zError node fuel pNode
      else pret pLeft
  end.

Definition pair_node (type : CypherAstNodeType) (pLeft pRight : CypherAst) : PM CypherAst :=
  pNode <-y cypherAstCreate type;
  pret (cypherAstAddChild (cypherAstAddChild pNode pLeft) pRight).

(** [cypherAstCreateBinaryOp] has added the operands already. *)
Definition or_node (_ : CypherToken) (pLeft pRight : CypherAst) : PM CypherAst :=
  pOrExpr <-y cypherAstCreateBinaryOp (bstr "OR") pLeft pRight;
  pret (cypherAstAddChild (cypherAstAddChild pOrExpr pLeft) pRight).

Definition and_node (_ : CypherToken) (pLeft pRight : CypherAst) : PM CypherAst := pair_node CYPHER_AST_AND pLeft pRight.

(** The text of the operator is copied before the right operand is parsed. *)
Definition comparison_node (pToken : CypherToken) (pLeft pRight : CypherAst) : PM CypherAst :=
  pCompExpr <-y cypherAstCreate CYPHER_AST_COMPARISON;
  pret (cypherAstAddChild (cypherAstAddChild (cypherAstSetValue pCompExpr (tok_text pToken)) pLeft) pRight).

(** The text is read from [s_peekedToken] after the right operand is parsed. *)
Definition arithmetic_node (type : CypherAstNodeType) (_ : CypherToken) (pLeft pRight : CypherAst) : PM CypherAst :=
  pNode <-y cypherAstCreate type;
  zText <-y peeked_text;
  pret (cypherAstAddChild (cypherAstAddChild (cypherAstSetValue pNode zText) pLeft) pRight).

Section Expressions.
Context (fuel : nat) (parseExpression : PM CypherAst).

(** [{ element; }] separated by commas: lists and arguments. *)
Fixpoint elements_loop (zError : string) (n : nat) (pList : CypherAst) : PM CypherAst :=
  match n with
  | O => pfuel
  | S n =>
      pElement <-y or_else parseExpression (cypherAstDestroy pList ;; parserSetError zError);
      pToken <-y parserPeekToken;
      if decide (tok_type pToken = CYPHER_TOK_COMMA) then
        skip_token CYPHER_TOK_COMMA ;; elements_loop zError n (cypherAstAddChild pList pElement)
      else pret (cypherAstAddChild pList pElement)
  end.

Definition parseListLiteral : PM CypherAst :=
  parserConsumeToken CYPHER_TOK_LBRACKET ;;
  pList <-y cypherAstCreate CYPHER_AST_ARRAY;
  pToken <-y parserPeekToken;
  if decide (tok_type pToken = CYPHER_TOK_RBRACKET) then skip_token CYPHER_TOK_RBRACKET ;; pret pList
  else
    pList <-y elements_loop "Expected expression in list" fuel pList;
    or_else (parserConsumeToken CYPHER_TOK_RBRACKET) (cypherAstDestroy pList ;; parserSetError "Expected closing bracket") ;;
    pret pList.

Fixpoint map_loop (n : nat) (pMap : CypherAst) : PM CypherAst :=
  match n with
  | O => pfuel
  | S n =>
      pToken <-y parserPeekToken;
      if negb (type_is [CYPHER_TOK_IDENTIFIER; CYPHER_TOK_STRING] (tok_type pToken)) then
        cypherAstDestroy pMap ;; parserSetError "Expected property name" ;; pnull
      else
        pToken <-y next_token;
        pKey <-y cypherAstCreateLiteral (tok_text pToken);
        or_else (parserConsumeToken CYPHER_TOK_COLON)
          (cypherAstDestroy pMap ;; cypherAstDestroy pKey ;; parserSetError "Expected colon after property name") ;;
        pValue <-y or_else parseExpression
          (cypherAstDestroy pMap ;; cypherAstDestroy pKey ;; parserSetError "Expected expression after colon");
        pPair <-y pair_node CYPHER_AST_PROPERTY_PAIR pKey pValue;
        pToken <-y parserPeekToken;
        if decide (tok_type pToken = CYPHER_TOK_COMMA) then
          skip_token CYPHER_TOK_COMMA ;; map_loop n (cypherAstAddChild pMap pPair)
        else pret (cypherAstAddChild pMap pPair)
  end.

Definition parseMapLiteral : PM CypherAst :=
  parserConsumeToken CYPHER_TOK_LBRACE ;;
  pMap <-y cypherAstCreate CYPHER_AST_OBJECT;
  pToken <-y parserPeekToken;
  if decide (tok_type pToken = CYPHER_TOK_RBRACE) then skip_token CYPHER_TOK_RBRACE ;; pret pMap
  else
    pMap <-y map_loop fuel pMap;
    or_else (parserConsumeToken CYPHER_TOK_RBRACE) (cypherAstDestroy pMap ;; parserSetError "Expected closing brace") ;;
    pret pMap.

Definition parseFunctionCall (pFunctionName : CypherAst) : PM CypherAst :=
  parserConsumeToken CYPHER_TOK_LPAREN ;;
  pFunctionCall <-y cypherAstCreate CYPHER_AST_FUNCTION_CALL;
  let pFunctionCall := cypherAstAddChild pFunctionCall pFunctionName in
  pToken <-y parserPeekToken;
  if decide (tok_type pToken = CYPHER_TOK_RPAREN) then skip_token CYPHER_TOK_RPAREN ;; pret pFunctionCall
  else
    pFunctionCall <-y elements_loop "Expected expression in function call" fuel pFunctionCall;
    or_else (parserConsumeToken CYPHER_TOK_RPAREN)
      (cypherAstDestroy pFunctionCall ;; parserSetError "Expected closing parenthesis") ;;
    pret pFunctionCall.

Definition parseLiteral : PM CypherAst :=
  pToken <-y parserPeekToken;
  if decide (tok_type pToken = CYPHER_TOK_LBRACKET) then parseListLiteral
  else if decide (tok_type pToken = CYPHER_TOK_LBRACE) then parseMapLiteral
  else if decide (tok_type pToken = CYPHER_TOK_LPAREN) then
    skip_token CYPHER_TOK_LPAREN ;;
    pExpr <-y parseExpression;
    or_else (parserConsumeToken CYPHER_TOK_RPAREN)
      (cypherAstDestroy pExpr ;; parserSetError "Expected closing parenthesis") ;;
    pret pExpr
  else if decide (tok_type pToken = CYPHER_TOK_IDENTIFIER) then
    pToken <-y next_token; cypherAstCreateIdentifier (tok_text pToken)
  else if type_is literal_types (tok_type pToken) then
    pToken <-y next_token; cypherAstCreateLiteral (tok_text pToken)
  else pnull.

Fixpoint property_loop (n : nat) (pExpr : CypherAst) : PM CypherAst :=
  match n with
  | O => pfuel
  | S n =>
      pToken <-y parserPeekToken;
      if decide (tok_type pToken = CYPHER_TOK_DOT) then
        skip_token CYPHER_TOK_DOT ;;
        pProperty <-y or_else (parserConsumeToken CYPHER_TOK_IDENTIFIER)
          (cypherAstDestroy pExpr ;; parserSetError "Expected property name after '.'");
        pPropExpr <-y cypherAstCreate CYPHER_AST_PROPERTY;
        pName <-y cypherAstCreateIdentifier (tok_text pProperty);
        property_loop n (cypherAstAddChild (cypherAstAddChild pPropExpr pExpr) pName)
      else pret pExpr
  end.

Definition parsePropertyExpression (pExpr : CypherAst) : PM CypherAst := property_loop fuel pExpr.

(** A function call that fails has freed [pExpr], which is used then. *)
Definition parsePrimaryExpression : PM CypherAst :=
  pExpr <-y parseLiteral;
  if decide (ast_type pExpr = CYPHER_AST_IDENTIFIER) then
    pToken <-y parserPeekToken;
    if decide (tok_type pToken = CYPHER_TOK_LPAREN) then
      r <-y ptry (parseFunctionCall pExpr);
      match r with
      | Some pFunctionCall => parsePropertyExpression pFunctionCall
      | None => pundef
      end
    else parsePropertyExpression pExpr
  else parsePropertyExpression pExpr.

(** [cypherAstCreateUnaryOp] has added the operand already. *)
Fixpoint unary_loop (n : nat) : PM CypherAst :=
  match n with
  | O => pfuel
  | S n =>
      pToken <-y parserPeekToken;
      if type_is additive_ops (tok_type pToken) then
        skip_token (tok_type pToken) ;;
        pExpr <-y or_else (unary_loop n) (parserSetError "Expected expression after unary operator");
        zText <-y peeked_text;
        pUnaryExpr <-y cypherAstCreateUnaryOp zText pExpr;
        pret (cypherAstAddChild (cypherAstSetValue pUnaryExpr zText) pExpr)
      else parsePrimaryExpression
  end.

Definition parseUnaryExpression : PM CypherAst := unary_loop fuel.

Definition parseMultiplicativeExpression : PM CypherAst :=
  pLeft <-y parseUnaryExpression;
  binary_loop multiplicative_ops parseUnaryExpression "Expected expression after multiplicative operator"
    (arithmetic_node CYPHER_AST_MULTIPLICATIVE) fuel pLeft.

Definition parseAdditiveExpression : PM CypherAst :=
  pLeft <-y parseMultiplicativeExpression;
  binary_loop additive_ops parseMultiplicativeExpression "Expected expression after additive operator"
    (arithmetic_node CYPHER_AST_ADDITIVE) fuel pLeft.

Definition parseComparisonExpression : PM CypherAst :=
  pLeft <-y parseAdditiveExpression;
  binary_loop comparison_ops parseAdditiveExpression "Expected expression after comparison operator"
    comparison_node fuel pLeft.

Fixpoint not_loop (n : nat) : PM CypherAst :=
  match n with
  | O => pfuel
  | S n =>
      pToken <-y parserPeekToken;
      if decide (tok_type pToken = CYPHER_TOK_NOT) then
        skip_token CYPHER_TOK_NOT ;;
        pExpr <-y or_else (not_loop n) (parserSetError "Expected expression after NOT");
        pNotExpr <-y cypherAstCreate CYPHER_AST_NOT;
        pret (cypherAstAddChild pNotExpr pExpr)
      else parseComparisonExpression
  end.

Definition parseNotExpression : PM CypherAst := not_loop fuel.

Definition parseAndExpression : PM CypherAst :=
  pLeft <-y parseNotExpression;
  binary_loop and_ops parseNotExpression "Expected expression after AND" and_node fuel pLeft.

Definition parseOrExpression : PM CypherAst :=
  pLeft <-y parseAndExpression;
  binary_loop or_ops parseAndExpression "Expected expression after OR" or_node fuel pLeft.

End Expressions.

Fixpoint parseExpression (fuel : nat) : PM CypherAst :=
  match fuel with
  | O => pfuel
  | S n => parseOrExpression fuel (parseExpression n)
  end.

(** ** Patterns *)

Definition has_error : PM bool := fun st => (PNode (bool_decide (is_Some (ps_error st))), st).

Definition parseNodeLabels : PM CypherAst :=
  pColon <-y parserPeekToken;
  if decide (tok_type pColon = CYPHER_TOK_COLON) then
    skip_token CYPHER_TOK_COLON ;;
    pLabel <-y or_else (parserConsumeToken CYPHER_TOK_IDENTIFIER) (parserSetError "Expected node label after ':'");
    cypherAstCreateNodeLabel (tok_text pLabel)
  else pnull.

Section Patterns.
Context (fuel : nat).

Fixpoint property_map_loop (n : nat) (pMap : CypherAst) : PM CypherAst :=
  match n with
  | O => pfuel
  | S n =>
      pKey <-y or_else (parserConsumeToken CYPHER_TOK_IDENTIFIER)
        (parserSetError "Expected property name" ;; cypherAstDestroy pMap);
      or_else (parserConsumeToken CYPHER_TOK_COLON)
        (parserSetError "Expected ':' after property name" ;; cypherAstDestroy pMap) ;;
      pValue <-y or_else (parseExpression fuel)
        (parserSetError "Expected property value expression" ;; cypherAstDestroy pMap);
      pPair <-y cypherAstCreate CYPHER_AST_PROPERTY_PAIR;
      let pPair := cypherAstAddChild (cypherAstSetValue pPair (tok_text pKey)) pValue in
      pComma <-y parserPeekToken;
      if decide (tok_type pComma = CYPHER_TOK_COMMA) then
        skip_token CYPHER_TOK_COMMA ;; property_map_loop n (cypherAstAddChild pMap pPair)
      else pret (cypherAstAddChild pMap pPair)
  end.

Definition parsePropertyMap : PM CypherAst :=
  parserConsumeToken CYPHER_TOK_LBRACE ;;
  pMap <-y cypherAstCreate CYPHER_AST_MAP;
  pRBrace <-y parserPeekToken;
  if decide (tok_type pRBrace = CYPHER_TOK_RBRACE) then skip_token CYPHER_TOK_RBRACE ;; pret pMap
  else
    pMap <-y property_map_loop fuel pMap;
    or_else (parserConsumeToken CYPHER_TOK_RBRACE)
      (parserSetError "Expected '}' to close property map" ;; cypherAstDestroy pMap) ;;
    pret pMap.

(** An optional identifier becomes the first child. *)
Definition optional_variable (pPattern : CypherAst) : PM CypherAst :=
  pPeek <-y parserPeekToken;
  if decide (tok_type pPeek = CYPHER_TOK_IDENTIFIER) then
    pId <-y parserConsumeToken CYPHER_TOK_IDENTIFIER;
    pName <-y cypherAstCreateIdentifier (tok_text pId);
    pret (cypherAstAddChild pPattern pName)
  else pret pPattern.

Definition node_labels (pNodePattern : CypherAst) : PM CypherAst :=
  pLabels <-y ptry parseNodeLabels;
  match pLabels with
  | Some pLabels => pret (cypherAstAddChild pNodePattern pLabels)
  | None =>
      zErrorMsg <-y has_error;
      if zErrorMsg : bool then cypherAstDestroy pNodePattern ;; pnull else pret pNodePattern
  end.

(** A property map that cannot be parsed is left out. *)
Definition node_properties (pNodePattern : CypherAst) : PM CypherAst :=
  pBrace <-y parserPeekToken;
  if decide (tok_type pBrace = CYPHER_TOK_LBRACE) then
    pProperties <-y ptry parsePropertyMap;
    match pProperties with
    | Some pProperties => pret (cypherAstAddChild pNodePattern pProperties)
    | None => pret pNodePattern
    end
  else pret pNodePattern.

Definition parseNodePattern : PM CypherAst :=
  or_else (parserConsumeToken CYPHER_TOK_LPAREN) (parserSetError "Expected (") ;;
  pNodePattern <-y cypherAstCreate CYPHER_AST_NODE_PATTERN;
  pNodePattern <-y optional_variable pNodePattern;
  pNodePattern <-y node_labels pNodePattern;
  pNodePattern <-y node_properties pNodePattern;
  or_else (parserConsumeToken CYPHER_TOK_RPAREN) (parserSetError "Expected )" ;; cypherAstDestroy pNodePattern) ;;
  pret pNodePattern.

(** The tokens before the bracket: the direction so far, or the loop stops. *)
Definition rel_start (type : CypherTokenType) : PM (option Z) :=
  if decide (type = CYPHER_TOK_ARROW_LEFT) then skip_token CYPHER_TOK_ARROW_LEFT ;; pret (Some (-1))
  else if decide (type = CYPHER_TOK_DASH) then
    pDash <-y ptry (parserConsumeToken CYPHER_TOK_DASH); pret (const 0 <$> pDash)
  else if decide (type = CYPHER_TOK_MINUS) then
    pDash <-y ptry (parserConsumeToken CYPHER_TOK_MINUS); pret (const 0 <$> pDash)
  else pret None.

Definition rel_type (pPattern pRelPattern : CypherAst) : PM CypherAst :=
  pNext <-y parserPeekToken;
  if decide (tok_type pNext = CYPHER_TOK_COLON) then
    skip_token CYPHER_TOK_COLON ;;
    pType <-y or_else (parserConsumeToken CYPHER_TOK_IDENTIFIER)
      (cypherAstDestroy pRelPattern ;; cypherAstDestroy pPattern ;;
       parserSetError "Expected relationship type after ':'");
    pTypeNode <-y create_valued CYPHER_AST_LABELS (tok_text pType);
    pret (cypherAstAddChild pRelPattern pTypeNode)
  else pret pRelPattern.

Definition rel_properties (pPattern pRelPattern : CypherAst) : PM CypherAst :=
  pNext <-y parserPeekToken;
  if decide (tok_type pNext = CYPHER_TOK_LBRACE) then
    pProperties <-y ptry parsePropertyMap;
    match pProperties with
    | Some pProperties => pret (cypherAstAddChild pRelPattern pProperties)
    | None =>
        zErrorMsg <-y has_error;
        if zErrorMsg : bool then cypherAstDestroy pRelPattern ;; cypherAstDestroy pPattern ;; pnull
        else pret pRelPattern
    end
  else pret pRelPattern.

(** After the bracket; the token after an undirected start is consumed
    whatever it is, after a left arrow nothing is. *)
Definition rel_end (iDirection : Z) : PM Z :=
  pNext <-y parserPeekToken;
  if decide (tok_type pNext = CYPHER_TOK_ARROW_RIGHT) then
    skip_token CYPHER_TOK_ARROW_RIGHT ;; pret (if iDirection =? -1 then 0 else 1)
  else if iDirection =? 0 then skip_token CYPHER_TOK_DASH ;; pret iDirection
  else pret iDirection.

Definition parse_rel (pPattern : CypherAst) (iDirection : Z) : PM CypherAst :=
  pRelPattern <-y cypherAstCreate CYPHER_AST_REL_PATTERN;
  or_else (parserConsumeToken CYPHER_TOK_LBRACKET)
    (cypherAstDestroy pRelPattern ;; parserSetError "Expected '[' after '-' in relationship pattern" ;;
     cypherAstDestroy pPattern) ;;
  pRelPattern <-y optional_variable pRelPattern;
  pRelPattern <-y rel_type pPattern pRelPattern;
  pRelPattern <-y rel_properties pPattern pRelPattern;
  or_else (parserConsumeToken CYPHER_TOK_RBRACKET)
    (cypherAstDestroy pRelPattern ;; cypherAstDestroy pPattern ;;
     parserSetError "Expected ']' after relationship pattern") ;;
  iDirection <-y rel_end iDirection;
  pret (ast_set_flags pRelPattern iDirection).

Fixpoint pattern_loop (n : nat) (pPattern : CypherAst) : PM CypherAst :=
  match n with
  | O => pfuel
  | S n =>
      pNext <-y parserPeekToken;
      if type_is [CYPHER_TOK_DASH; CYPHER_TOK_MINUS; CYPHER_TOK_ARROW_LEFT; CYPHER_TOK_ARROW_RIGHT] (tok_type pNext) then
        iDirection <-y rel_start (tok_type pNext);
        match iDirection with
        | None => pret pPattern
        | Some iDirection =>
            pRelPattern <-y parse_rel pPattern iDirection;
            let pPattern := cypherAstAddChild pPattern pRelPattern in
            pTargetNode <-y or_else parseNodePattern
              (cypherAstDestroy pPattern ;; parserSetError "Expected node pattern after relationship");
            pattern_loop n (cypherAstAddChild pPattern pTargetNode)
        end
      else pret pPattern
  end.

Definition parsePattern : PM CypherAst :=
  pPattern <-y cypherAstCreate CYPHER_AST_PATTERN;
  pNodePattern <-y or_else parseNodePattern (cypherAstDestroy pPattern);
  pattern_loop fuel (cypherAstAddChild pPattern pNodePattern).

Definition parsePatternList : PM CypherAst := parsePattern.

(** ** Clauses *)

(** A keyword, and a node with what follows it as child. *)
Definition clause (keyword : CypherTokenType) (zError : string) (type : CypherAstNodeType) (body : PM CypherAst) : PM CypherAst :=
  or_else (parserConsumeToken keyword) (parserSetError zError) ;;
  pClause <-y cypherAstCreate type;
  pBody <-y or_else body (cypherAstDestroy pClause);
  pret (cypherAstAddChild pClause pBody).

Definition parseMatchClause : PM CypherAst := clause CYPHER_TOK_MATCH "Expected MATCH" CYPHER_AST_MATCH parsePatternList.
Definition parseCreateClause : PM CypherAst := clause CYPHER_TOK_CREATE "Expected CREATE" CYPHER_AST_CREATE parsePatternList.
Definition parseMergeClause : PM CypherAst := clause CYPHER_TOK_MERGE "Expected MERGE" CYPHER_AST_MERGE parsePatternList.
Definition parseSetClause : PM CypherAst := clause CYPHER_TOK_SET "Expected SET" CYPHER_AST_SET (parseExpression fuel).
Definition parseDeleteClause : PM CypherAst :=
  clause CYPHER_TOK_DELETE "Expected DELETE" CYPHER_AST_DELETE (parseExpression fuel).

Definition parseWhereClause : PM CypherAst :=
  parserConsumeToken CYPHER_TOK_WHERE ;;
  pWhereClause <-y cypherAstCreate CYPHER_AST_WHERE;
  pExpr <-y or_else (parseExpression fuel) (cypherAstDestroy pWhereClause);
  pret (cypherAstAddChild pWhereClause pExpr).

Definition parseProjectionItem : PM CypherAst :=
  pProjectionItem <-y cypherAstCreate CYPHER_AST_PROJECTION_ITEM;
  pExpr <-y or_else (parseExpression fuel) (cypherAstDestroy pProjectionItem);
  pret (cypherAstAddChild pProjectionItem pExpr).

Definition parseProjectionList : PM CypherAst :=
  pProjectionList <-y cypherAstCreate CYPHER_AST_PROJECTION_LIST;
  pProjectionItem <-y or_else parseProjectionItem (cypherAstDestroy pProjectionList);
  pret (cypherAstAddChild pProjectionList pProjectionItem).

Definition parseReturnClause : PM CypherAst :=
  clause CYPHER_TOK_RETURN "Expected RETURN" CYPHER_AST_RETURN parseProjectionList.

Definition first_clause : PM CypherAst :=
  pPeek <-y parserPeekToken;
  if decide (tok_type pPeek = CYPHER_TOK_MATCH) then parseMatchClause
  else if decide (tok_type pPeek = CYPHER_TOK_CREATE) then parseCreateClause
  else if decide (tok_type pPeek = CYPHER_TOK_MERGE) then parseMergeClause
  else if decide (tok_type pPeek = CYPHER_TOK_SET) then parseSetClause
  else if decide (tok_type pPeek = CYPHER_TOK_DELETE) then parseDeleteClause
  else parserSetError "Expected MATCH, CREATE, MERGE, SET, or DELETE" ;; pnull.

(** A WHERE clause that cannot be parsed is left out. *)
Definition where_clause (pSingleQuery : CypherAst) : PM CypherAst :=
  pPeek <-y parserPeekToken;
  if decide (tok_type pPeek = CYPHER_TOK_WHERE) then
    pWhereClause <-y ptry parseWhereClause;
    match pWhereClause with
    | Some pWhereClause => pret (cypherAstAddChild pSingleQuery pWhereClause)
    | None => pret pSingleQuery
    end
  else pret pSingleQuery.

Definition return_clause (pSingleQuery : CypherAst) : PM CypherAst :=
  pPeek <-y parserPeekToken;
  if decide (tok_type pPeek = CYPHER_TOK_RETURN) then
    pReturnClause <-y or_else parseReturnClause (cypherAstDestroy pSingleQuery);
    pret (cypherAstAddChild pSingleQuery pReturnClause)
  else pret pSingleQuery.

(** The rest of the query is read and ignored. *)
Fixpoint drain (n : nat) : PM CypherToken :=
  match n with
  | O => pfuel
  | S n =>
      token <-y next_token;
      if type_is [CYPHER_TOK_EOF; CYPHER_TOK_ERROR] (tok_type token) then pret token else drain n
  end.

Definition parseSingleQuery : PM CypherAst :=
  pSingleQuery <-y cypherAstCreate CYPHER_AST_SINGLE_QUERY;
  pClause <-y or_else first_clause (cypherAstDestroy pSingleQuery);
  pSingleQuery <-y where_clause (cypherAstAddChild pSingleQuery pClause);
  pSingleQuery <-y return_clause pSingleQuery;
  token <-y drain fuel;
  if decide (tok_type token = CYPHER_TOK_ERROR) then
    parserSetError "Syntax error" ;; cypherAstDestroy pSingleQuery ;; pnull
  else pret pSingleQuery.

Definition parseQuery : PM CypherAst :=
  pQuery <-y cypherAstCreate CYPHER_AST_QUERY;
  pSingleQuery <-y or_else parseSingleQuery (cypherAstDestroy pQuery);
  pret (cypherAstAddChild pQuery pSingleQuery).

End Patterns.

Definition cypherParserCreate (zQuery : bytes) : pstate :=
  MkPs (cypherLexerCreate zQuery) None (MkTok CYPHER_TOK_EOF [] 0 0) false None 0.

(** The tree and the message; one unit of fuel more than the text has bytes. *)
Definition cypherParse (zQuery : bytes) : pres CypherAst * option (string * option CypherToken) :=
  let '(pAst, st) := parseQuery (S (length zQuery)) (cypherParserCreate zQuery) in
  (pAst, match pAst with PNull => ps_error st | _ => None end).

Definition CYPHER_ERROR_SYNTAX_GENERAL : Z := 1001.
Definition CYPHER_ERROR_SEMANTIC_UNDEFINED_VARIABLE : Z := 2001.

(** The tree is freed, and freed again by [cypherParserDestroy]. *)
Definition cypherValidateQuery (zQuery : bytes) : pres Z :=
  match (cypherParse zQuery).1 with
  | PNode pAst =>
      let result := if cypherAstGetChildCount pAst =? 0 then CYPHER_ERROR_SEMANTIC_UNDEFINED_VARIABLE else SQLITE_OK in
      if decide (NoDup (frees pAst ++ frees pAst)) then PNode result else PUndef
  | PNull => PNode CYPHER_ERROR_SYNTAX_GENERAL
  | PUndef => PUndef
  | PFuel => PFuel
  end.
