(* ===== verification/CypherParseSpec.v ===== *)
(** * Correctness of the Cypher parser

    A weakest precondition for the parser's monad, with rules for reading
    tokens.  Shown: the parser ends on every text, and the text of a query is
    parsed to the tree of the query. *)

From Stdlib Require Import String ZArith Lia.
From stdpp Require Import base option list numbers.
From S2P Require Import Prelude Codec DefParser Values Scalar CypherLexer CypherParser.

Local Open Scope Z_scope.
Local Open Scope parser_scope.

(** ** Weakest preconditions *)

(** [U], [F]: whether undefined behaviour and too little fuel are accepted. *)
Definition wp (U F : Prop) {A : Type} (m : PM A) (Q : A -> pstate -> Prop) (N : pstate -> Prop) (st : pstate) : Prop :=
  match m st with
  | (PNode a, st') => Q a st'
  | (PNull, st') => N st'
  | (PUndef, _) => U
  | (PFuel, _) => F
  end.

Section WpRules.
Context (U F : Prop).

Lemma wp_mono {A : Type} (m : PM A) (Q Q' : A -> pstate -> Prop) (N N' : pstate -> Prop) (st : pstate) :
  wp U F m Q N st -> (forall a st', Q a st' -> Q' a st') -> (forall st', N st' -> N' st') -> wp U F m Q' N' st.
Proof. unfold wp. intros H HQ HN. destruct (m st) as [[a| | |] st']; auto. Qed.

Lemma wp_ret {A : Type} (a : A) (Q : A -> pstate -> Prop) (N : pstate -> Prop) (st : pstate) : Q a st -> wp U F (pret a) Q N st.
Proof. done. Qed.

Lemma wp_null {A : Type} (Q : A -> pstate -> Prop) (N : pstate -> Prop) (st : pstate) : N st -> wp U F pnull Q N st.
Proof. done. Qed.

Lemma wp_bind {A B : Type} (m : PM A) (f : A -> PM B) (Q : B -> pstate -> Prop) (N : pstate -> Prop) (st : pstate) :
  wp U F m (fun a => wp U F (f a) Q N) N st -> wp U F (pbind m f) Q N st.
Proof. unfold wp, pbind. by destruct (m st) as [[a| | |] st']. Qed.

Lemma wp_try {A : Type} (m : PM A) (Q : option A -> pstate -> Prop) (N : pstate -> Prop) (st : pstate) :
  wp U F m (fun a => Q (Some a)) (Q None) st -> wp U F (ptry m) Q N st.
Proof. unfold wp, ptry. by destruct (m st) as [[a| | |] st']. Qed.

Lemma wp_or_else {A : Type} (m : PM A) (h : PM unit) (Q : A -> pstate -> Prop) (N : pstate -> Prop) (st : pstate) :
  wp U F m Q (wp U F h (fun _ => N) N) st -> wp U F (or_else m h) Q N st.
Proof.
  intros H. unfold or_else. apply wp_bind, wp_try. eapply wp_mono; [exact H| |].
  - intros a st' Ha. exact Ha.
  - intros st' Hh. apply wp_bind. eapply wp_mono; [exact Hh| |]; intros; assumption.
Qed.

Lemma wp_create (type : CypherAstNodeType) (Q : CypherAst -> pstate -> Prop) (N : pstate -> Prop) (st : pstate) :
  Q (MkAst (ps_next st) type None 0 [])
    (MkPs (ps_lexer st) (ps_last st) (ps_peeked st) (ps_peeked_live st) (ps_error st) (S (ps_next st))) ->
  wp U F (cypherAstCreate type) Q N st.
Proof. done. Qed.

Lemma wp_valued (type : CypherAstNodeType) (v : bytes) (Q : CypherAst -> pstate -> Prop) (N : pstate -> Prop) (st : pstate) :
  Q (MkAst (ps_next st) type (Some v) 0 [])
    (MkPs (ps_lexer st) (ps_last st) (ps_peeked st) (ps_peeked_live st) (ps_error st) (S (ps_next st))) ->
  wp U F (create_valued type v) Q N st.
Proof. done. Qed.

End WpRules.

(** ** Token streams *)

(** The lexer is at the end of the text. *)
Definition at_end (lx : CypherLexer) : Prop := lx_rest (after_gap lx) = [].

(** The tokens that the lexer reads, up to the end. *)
Fixpoint feeds (lx : CypherLexer) (vs : list (CypherTokenType * bytes)) : Prop :=
  match vs with
  | [] => at_end lx
  | v :: vs =>
      let '(t, lx') := cypherLexerNextToken lx in
      token_view t = v /\ v.1 <> CYPHER_TOK_EOF /\ feeds lx' vs
  end.

Definition eof_view : CypherTokenType * bytes := (CYPHER_TOK_EOF, []).
Definition current (vs : list (CypherTokenType * bytes)) : CypherTokenType * bytes := hd eof_view vs.

Lemma after_gap_nil (lx : CypherLexer) : lx_rest lx = [] -> lx_rest (after_gap lx) = [].
Proof. intros E. unfold after_gap, lexerSkipComment, lexerSkipWhitespace. by rewrite !lexer_skip_rest, E. Qed.

Lemma at_end_next (lx : CypherLexer) :
  at_end lx -> let '(t, lx') := cypherLexerNextToken lx in token_view t = eof_view /\ at_end lx'.
Proof.
  unfold at_end. intros Hr. unfold cypherLexerNextToken. fold (after_gap lx). unfold lexerPeek. rewrite Hr.
  change (aget 0 [] 0 =? 0) with true. cbv iota. unfold lexerAddToken.
  split; [|by apply after_gap_nil]. unfold token_view. cbn [tok_type tok_text]. by rewrite Hr.
Qed.

Lemma feeds_next (lx : CypherLexer) (vs : list (CypherTokenType * bytes)) :
  feeds lx vs -> let '(t, lx') := cypherLexerNextToken lx in token_view t = current vs /\ feeds lx' (tail vs).
Proof.
  destruct vs as [|v vs]; cbn [feeds current hd tail].
  - apply at_end_next.
  - destruct (cypherLexerNextToken lx) as [t lx']. tauto.
Qed.

Lemma feeds_not_eof (lx : CypherLexer) (vs : list (CypherTokenType * bytes)) :
  feeds lx vs -> Forall (fun v => v.1 <> CYPHER_TOK_EOF) vs.
Proof.
  revert lx. induction vs as [|v vs IH]; intros lx; cbn [feeds]; [constructor|].
  destruct (cypherLexerNextToken lx) as [t lx']. intros (_ & Hv & Hf). constructor; eauto.
Qed.

(** Every text without a 0 is such a stream. *)
Lemma feeds_total (n : nat) (lx : CypherLexer) :
  Forall (fun c => c <> 0) (lx_rest lx) -> (length (lx_rest lx) <= n)%nat ->
  exists vs, feeds lx vs /\ (length vs <= n)%nat.
Proof.
  revert lx. induction n as [n IH] using lt_wf_ind; intros lx Hnz Hn.
  pose proof (next_token_cover lx Hnz) as Hc. destruct (cypherLexerNextToken lx) as [t lx'] eqn:En.
  destruct Hc as [(_ & _ & He)|(g & s & Hg & Hs & Ht & Hlen & q & Hq & Es)]; [by exists []; split; [|cbn; lia]|].
  assert (Hlt : (length (lx_rest lx') < length (lx_rest lx))%nat) by (rewrite Hs, length_app; lia).
  destruct (IH (length (lx_rest lx')) ltac:(lia) lx') as (vs & Hvs & Hl); [|done|].
  - rewrite Hs, Es, !Forall_app in Hnz. tauto.
  - exists (token_view t :: vs). cbn [feeds length]. rewrite En. split; [done|lia].
Qed.

(** ** The parser ends *)

Definition remaining (st : pstate) (k : nat) : Prop := exists vs, feeds (ps_lexer st) vs /\ (length vs <= k)%nat.

(** [t] is the next token. *)
Definition ahead (st : pstate) (t : CypherToken) (k : nat) : Prop :=
  exists vs, feeds (ps_lexer st) vs /\ (length vs <= k)%nat /\ token_view t = current vs.

Lemma left_mono (st : pstate) (k k' : nat) : remaining st k -> (k <= k')%nat -> remaining st k'.
Proof. intros (vs & Hf & Hl) Hk. exists vs. split; [done|lia]. Qed.

Lemma ahead_left (st : pstate) (t : CypherToken) (k : nat) : ahead st t k -> remaining st k.
Proof. intros (vs & Hf & Hl & _). by exists vs. Qed.

(** Actions that read no token. *)
Definition quiet {A : Type} (m : PM A) : Prop :=
  forall st, wp True False m (fun _ st' => ps_lexer st' = ps_lexer st) (fun st' => ps_lexer st' = ps_lexer st) st.

Create HintDb quiet.

Lemma quiet_ret {A : Type} (a : A) : quiet (pret a).
Proof. done. Qed.

Lemma quiet_null {A : Type} : quiet (@pnull A).
Proof. done. Qed.

Lemma quiet_bind {A B : Type} (m : PM A) (f : A -> PM B) : quiet m -> (forall a, quiet (f a)) -> quiet (pbind m f).
Proof.
  intros Hm Hf st. apply wp_bind. eapply wp_mono; [apply Hm| |auto]. intros a st' E. cbv beta in *.
  eapply wp_mono; [apply Hf| |]; cbv beta; intros; congruence.
Qed.

Lemma quiet_destroy (a : CypherAst) : quiet (cypherAstDestroy a).
Proof. intros st. unfold cypherAstDestroy. by case_decide. Qed.

Lemma quiet_error (zFormat : string) : quiet (parserSetError zFormat).
Proof. intros st. unfold wp, parserSetError. destruct (ps_last st) as [t|]; [|done]. by destruct (256 <? suffix_size t)%nat. Qed.

Lemma quiet_create (type : CypherAstNodeType) : quiet (cypherAstCreate type).
Proof. done. Qed.

Lemma quiet_valued (type : CypherAstNodeType) (v : bytes) : quiet (create_valued type v).
Proof. done. Qed.

Lemma quiet_peeked : quiet peeked_text.
Proof. intros st. unfold wp, peeked_text. by destruct (ps_peeked_live st). Qed.

#[export] Hint Extern 1 (quiet (cypherAstCreateLiteral _)) => apply quiet_valued : quiet.
#[export] Hint Extern 1 (quiet (cypherAstCreateIdentifier _)) => apply quiet_valued : quiet.
#[export] Hint Extern 1 (quiet (cypherAstCreateNodeLabel _)) => apply quiet_valued : quiet.
#[export] Hint Extern 1 (quiet (cypherAstCreateUnaryOp _ _)) => unfold cypherAstCreateUnaryOp : quiet.
#[export] Hint Extern 1 (quiet (pair_node _ _ _)) => unfold pair_node : quiet.
#[export] Hint Resolve quiet_ret quiet_null quiet_bind quiet_destroy quiet_error quiet_create quiet_valued quiet_peeked : quiet.

Lemma wp_quiet {A : Type} (m : PM A) (Q : A -> pstate -> Prop) (N : pstate -> Prop) (st : pstate) (k : nat) :
  quiet m -> remaining st k -> (forall a st', remaining st' k -> Q a st') -> (forall st', remaining st' k -> N st') -> wp True False m Q N st.
Proof.
  intros Hm (vs & Hf & Hl) HQ HN. eapply wp_mono; [apply Hm| |].
  - intros a st' E. apply HQ. exists vs. by rewrite E.
  - intros st' E. apply HN. exists vs. by rewrite E.
Qed.

Section LeftRules.
Context (U F : Prop) (st : pstate) (k : nat).

Lemma wp_peek_left (Q : CypherToken -> pstate -> Prop) (N : pstate -> Prop) :
  remaining st k -> (forall t st', ahead st' t k -> Q t st') -> wp U F parserPeekToken Q N st.
Proof.
  intros (vs & Hf & Hl) HQ. unfold wp, parserPeekToken. pose proof (feeds_next _ _ Hf) as Hn.
  destruct (cypherLexerNextToken (ps_lexer st)) as [t lx]. apply HQ. exists vs. by destruct Hn as [-> _].
Qed.

Lemma wp_next_left (Q : CypherToken -> pstate -> Prop) (N : pstate -> Prop) :
  remaining st k -> (forall t st', remaining st' k -> (tok_type t <> CYPHER_TOK_EOF -> (0 < k)%nat /\ remaining st' (k - 1)) -> Q t st') ->
  wp U F next_token Q N st.
Proof.
  intros (vs & Hf & Hl) HQ. unfold wp, next_token. pose proof (feeds_next _ _ Hf) as Hn.
  destruct (cypherLexerNextToken (ps_lexer st)) as [t lx]. destruct Hn as [Ht Hf']. apply HQ.
  - exists (tail vs). split; [done|]. destruct vs; cbn in *; lia.
  - intros Ht0. destruct vs as [|v vs]; [by injection Ht|]. cbn in Hl. split; [lia|]. exists vs. cbn in *. split; [done|lia].
Qed.

Lemma wp_consume_left (type : CypherTokenType) (Q : CypherToken -> pstate -> Prop) (N : pstate -> Prop) :
  type <> CYPHER_TOK_EOF -> remaining st k -> (forall t st', (0 < k)%nat -> remaining st' (k - 1) -> Q t st') ->
  (forall st', remaining st' k -> N st') -> wp U F (parserConsumeToken type) Q N st.
Proof.
  intros Hty Hl HQ HN. apply wp_bind, wp_next_left; [done|]. intros t st' Hl' Hs. case_decide as Ht.
  - destruct Hs as [Hk Hl'']; [congruence|]. by apply HQ.
  - by apply HN.
Qed.

Lemma wp_skip_left (type : CypherTokenType) (Q : unit -> pstate -> Prop) (N : pstate -> Prop) :
  remaining st k -> (forall st', remaining st' k -> Q tt st') -> wp U F (skip_token type) Q N st.
Proof.
  intros Hl HQ. apply wp_bind, wp_try, wp_bind, wp_next_left; [done|]. intros t st' Hl' _. by case_decide; apply HQ.
Qed.

Lemma wp_next_ahead (t0 : CypherToken) (Q : CypherToken -> pstate -> Prop) (N : pstate -> Prop) :
  ahead st t0 k -> tok_type t0 <> CYPHER_TOK_EOF -> (forall t st', (0 < k)%nat -> remaining st' (k - 1) -> Q t st') ->
  wp U F next_token Q N st.
Proof.
  intros (vs & Hf & Hl & Ht0) Hne HQ. unfold wp, next_token. pose proof (feeds_next _ _ Hf) as Hn.
  destruct (cypherLexerNextToken (ps_lexer st)) as [t lx]. destruct Hn as [Ht Hf'].
  destruct vs as [|v vs]; [by injection Ht0|]. cbn in Hl. apply HQ; [lia|]. exists vs. split; [done|lia].
Qed.

Lemma wp_skip_ahead (t0 : CypherToken) (type : CypherTokenType) (Q : unit -> pstate -> Prop) (N : pstate -> Prop) :
  ahead st t0 k -> tok_type t0 <> CYPHER_TOK_EOF -> (forall st', (0 < k)%nat -> remaining st' (k - 1) -> Q tt st') ->
  wp U F (skip_token type) Q N st.
Proof.
  intros Ha Hne HQ. apply wp_bind, wp_try, wp_bind. eapply wp_next_ahead; [done..|]. intros t st' Hk Hl.
  by case_decide; apply HQ.
Qed.

End LeftRules.

(** A parser that ends with less than [n] tokens left, and has read one if it succeeds. *)
Definition ends (n : nat) (m : PM CypherAst) : Prop :=
  forall k st, (k < n)%nat -> remaining st k ->
    wp True False m (fun _ st' => (0 < k)%nat /\ remaining st' (k - 1)) (fun st' => remaining st' k) st.

(** A loop that ends with less than [n] tokens left. *)
Definition loops {A : Type} (n : nat) (m : PM A) : Prop :=
  forall k st, (k < n)%nat -> remaining st k -> wp True False m (fun _ st' => remaining st' k) (fun st' => remaining st' k) st.

Lemma ends_loops (n : nat) (m : PM CypherAst) : ends n m -> loops n m.
Proof.
  intros H k st Hk Hl. eapply wp_mono; [by apply H| |done]. intros a st' [_ Hl']. eapply left_mono; [done|lia].
Qed.

Lemma ends_mono (n n' : nat) (m : PM CypherAst) : ends n m -> (n' <= n)%nat -> ends n' m.
Proof. intros H Hn k st Hk. apply H. lia. Qed.

Lemma type_is_ne (types : list CypherTokenType) (t u : CypherTokenType) :
  type_is types t = true -> type_is types u = false -> t <> u.
Proof. intros Ht Hu ->. congruence. Qed.

(** One rule for each action; [n] is what is left. *)
Ltac quiet := auto 10 with quiet.
Ltac token := solve [done | congruence | intros E; rewrite E in *; done].
Ltac wstep :=
  match goal with
  | |- wp _ _ (pbind _ _) _ _ _ => apply wp_bind
  | |- wp _ _ (or_else _ _) _ _ _ => apply wp_or_else
  | |- wp _ _ (ptry _) _ _ _ => apply wp_try
  | |- wp _ _ (pret _) _ _ _ => apply wp_ret
  | |- wp _ _ pnull _ _ _ => apply wp_null
  | |- wp _ _ pundef _ _ _ => exact I
  | |- wp _ _ parserPeekToken _ _ _ => eapply wp_peek_left; [eauto using ahead_left|intros]
  | |- wp _ _ (parserConsumeToken _) _ _ _ => eapply wp_consume_left; [done|eauto using ahead_left|intros|intros]
  | |- wp _ _ (if ?b then _ else _) _ _ _ => destruct b eqn:?
  | H : loops _ ?m |- wp _ _ ?m _ _ _ =>
      eapply wp_mono; [apply H; [|eauto using ahead_left]; lia|cbv beta; intros|cbv beta; intros]
  | H : ends _ ?m |- wp _ _ ?m _ _ _ =>
      eapply wp_mono; [apply H; [|eauto using ahead_left]; lia|cbv beta; intros ? ? [? ?]|cbv beta; intros]
  | |- wp _ _ ?m _ _ _ => eapply wp_quiet; [solve [quiet]|eauto using ahead_left|intros|intros]
  end; cbv beta.
Ltac wdone := first [done | solve [eauto using left_mono, ahead_left with lia] | eapply left_mono; [eauto using ahead_left|lia]
  | split; [lia|eapply left_mono; [eauto using ahead_left|lia]]].
Ltac whandler := eapply wp_quiet; [solve [quiet]|eauto using ahead_left|cbv beta; intros; wdone|cbv beta; intros; wdone].

Section BinaryLoop.
Context (ops : list CypherTokenType) (operand : PM CypherAst) (zError : string)
  (node : CypherToken -> CypherAst -> CypherAst -> PM CypherAst) (n : nat).
Hypothesis operand_ends : ends n operand.
Hypothesis node_quiet : forall t l r, quiet (node t l r).
#[local] Hint Resolve node_quiet : quiet.

Lemma binary_loop_ends (fuel : nat) (pLeft : CypherAst) :
  forall k st, (k < n)%nat -> (k < fuel)%nat -> remaining st k ->
    wp True False (binary_loop ops operand zError node fuel pLeft) (fun _ st' => remaining st' k) (fun st' => remaining st' k) st.
Proof.
  revert pLeft. induction fuel as [|fuel IH]; intros pLeft k st Hk Hf Hl; [lia|]. cbn [binary_loop].
  wstep. wstep. wstep; [|wstep; wdone].
  wstep. eapply wp_skip_left; [eauto using ahead_left|]. intros. wstep. wstep. wstep; [|whandler].
  wstep. wstep; [|wdone]. eapply wp_mono; [eapply IH; [| |eassumption]; lia| |]; cbv beta; intros; wdone.
Qed.

Lemma level_ends (fuel : nat) (first : PM CypherAst) :
  (n <= fuel)%nat -> ends n first ->
  ends n (pLeft <-y first; binary_loop ops operand zError node fuel pLeft).
Proof.
  intros Hf Hfirst k st Hk Hl. wstep. wstep; [|wdone].
  eapply wp_mono; [eapply binary_loop_ends; [| |eassumption]; lia| |]; cbv beta; intros; wdone.
Qed.

End BinaryLoop.

Section ExpressionsEnd.
Context (n : nat) (rec : PM CypherAst).
Hypothesis rec_ends : ends n rec.

Lemma elements_loop_ends (zError : string) (fuel : nat) (pList : CypherAst) :
  forall k st, (k < n)%nat -> (k < fuel)%nat -> remaining st k ->
    wp True False (elements_loop rec zError fuel pList) (fun _ st' => remaining st' k) (fun st' => remaining st' k) st.
Proof.
  revert pList. induction fuel as [|fuel IH]; intros pList k st Hk Hf Hl; [lia|]. cbn [elements_loop].
  wstep. wstep. wstep; [|whandler]. wstep. wstep. wstep; [|wstep; wdone].
  wstep. eapply wp_skip_left; [eauto using ahead_left|]. intros.
  eapply wp_mono; [eapply IH; [| |eassumption]; lia| |]; cbv beta; intros; wdone.
Qed.

Lemma map_loop_ends (fuel : nat) (pMap : CypherAst) :
  forall k st, (k < S n)%nat -> (k < fuel)%nat -> remaining st k ->
    wp True False (map_loop rec fuel pMap) (fun _ st' => remaining st' k) (fun st' => remaining st' k) st.
Proof.
  revert pMap. induction fuel as [|fuel IH]; intros pMap k st Hk Hf Hl; [lia|]. cbn [map_loop].
  wstep. wstep. wstep; [whandler|]. wstep. eapply wp_next_ahead; [eassumption| |].
  { apply negb_false_iff in Heqb. by apply (type_is_ne _ _ _ Heqb). }
  intros ? ? Hk' Hl'. wstep. wstep; [|wdone]. wstep. wstep. wstep; [|whandler].
  wstep. wstep. wstep; [|whandler]. wstep. wstep; [|wdone]. wstep. wstep. wstep; [|wstep; wdone].
  wstep. eapply wp_skip_left; [eauto using ahead_left|]. intros.
  eapply wp_mono; [eapply IH; [| |eassumption]; lia| |]; cbv beta; intros; wdone.
Qed.

(** A bracketed sequence. *)
Lemma list_ends : ends (S n) (parseListLiteral (S n) rec).
Proof.
  intros k st Hk Hl. unfold parseListLiteral. wstep. wstep; [|wdone]. wstep. wstep; [|wdone]. wstep. wstep. wstep.
  - wstep. eapply wp_skip_left; [eauto using ahead_left|]. intros. wstep. wdone.
  - wstep. eapply wp_mono; [eapply elements_loop_ends; [| |eauto using ahead_left]; lia| |]; cbv beta; intros; [|wdone].
    wstep. wstep. wstep; [wstep; wdone|whandler].
Qed.

Lemma map_ends : ends (S n) (parseMapLiteral (S n) rec).
Proof.
  intros k st Hk Hl. unfold parseMapLiteral. wstep. wstep; [|wdone]. wstep. wstep; [|wdone]. wstep. wstep. wstep.
  - wstep. eapply wp_skip_left; [eauto using ahead_left|]. intros. wstep. wdone.
  - wstep. eapply wp_mono; [eapply map_loop_ends; [| |eauto using ahead_left]; lia| |]; cbv beta; intros; [|wdone].
    wstep. wstep. wstep; [wstep; wdone|whandler].
Qed.

Lemma call_ends (pName : CypherAst) : ends (S n) (parseFunctionCall (S n) rec pName).
Proof.
  intros k st Hk Hl. unfold parseFunctionCall. wstep. wstep; [|wdone]. wstep. wstep; [|wdone]. wstep. wstep. wstep.
  - wstep. eapply wp_skip_left; [eauto using ahead_left|]. intros. wstep. wdone.
  - wstep. eapply wp_mono; [eapply elements_loop_ends; [| |eauto using ahead_left]; lia| |]; cbv beta; intros; [|wdone].
    wstep. wstep. wstep; [wstep; wdone|whandler].
Qed.

Lemma literal_ends : ends (S n) (parseLiteral (S n) rec).
Proof.
  intros k st Hk Hl. unfold parseLiteral. pose proof list_ends as HL. pose proof map_ends as HM.
  wstep. wstep. wstep; [wstep; wdone|]. wstep; [wstep; wdone|]. wstep.
  - wstep. eapply wp_skip_ahead; [eassumption|congruence|]. intros. wstep. wstep; [|wdone]. wstep. wstep.
    wstep; [wstep; wdone|whandler].
  - wstep; [|wstep].
    + wstep. eapply wp_next_ahead; [eassumption|congruence|]. intros. wstep; wdone.
    + wstep. eapply wp_next_ahead; [eassumption|by eapply type_is_ne|]. intros. wstep; wdone.
    + wstep. wdone.
Qed.

Lemma property_ends (fuel : nat) (pExpr : CypherAst) :
  forall k st, (k < fuel)%nat -> remaining st k ->
    wp True False (property_loop fuel pExpr) (fun _ st' => remaining st' k) (fun st' => remaining st' k) st.
Proof.
  revert pExpr. induction fuel as [|fuel IH]; intros pExpr k st Hf Hl; [lia|]. cbn [property_loop].
  wstep. wstep. wstep; [|wstep; wdone]. wstep. eapply wp_skip_left; [eauto using ahead_left|]. intros.
  wstep. wstep. wstep; [|whandler]. wstep. wstep; [|wdone]. wstep. wstep; [|wdone].
  eapply wp_mono; [eapply IH; [|eassumption]; lia| |]; cbv beta; intros; wdone.
Qed.

Lemma primary_ends : ends (S n) (parsePrimaryExpression (S n) rec).
Proof.
  intros k st Hk Hl. unfold parsePrimaryExpression, parsePropertyExpression. pose proof literal_ends as HL.
  assert (Hprop : forall pExpr j st, (j < k)%nat -> remaining st j ->
    wp True False (property_loop (S n) pExpr) (fun _ st' => (0 < k)%nat /\ remaining st' (k - 1)) (fun st' => remaining st' k) st).
  { intros pExpr j st' Hj Hl'. eapply wp_mono; [eapply property_ends; [|done]; lia| |]; cbv beta; intros; wdone. }
  wstep. wstep; [|wdone]. wstep; [|eapply Hprop; [|done]; lia].
  wstep. wstep. wstep; [|eapply Hprop; [|eauto using ahead_left]; lia]. wstep. wstep.
  eapply wp_mono; [eapply call_ends; [|eauto using ahead_left]; lia| |]; cbv beta; intros; [|wstep].
  eapply Hprop; [|apply H2]. lia.
Qed.

Lemma unary_ends (fuel : nat) :
  forall k st, (k < S n)%nat -> (k < fuel)%nat -> remaining st k ->
    wp True False (unary_loop (S n) rec fuel) (fun _ st' => (0 < k)%nat /\ remaining st' (k - 1)) (fun st' => remaining st' k) st.
Proof.
  induction fuel as [|fuel IH]; intros k st Hk Hf Hl; [lia|]. cbn [unary_loop]. pose proof primary_ends as HP.
  wstep. wstep. wstep; [|wstep; wdone]. wstep. eapply wp_skip_ahead; [eassumption|by eapply type_is_ne|]. intros.
  wstep. wstep. eapply wp_mono; [eapply IH; [| |eassumption]; lia| |]; cbv beta; [|intros; whandler].
  intros ? ? [? ?]. wstep. wstep; [|wdone]. wstep. wstep; [|wdone]. wstep. wdone.
Qed.

Lemma multiplicative_ends : ends (S n) (parseMultiplicativeExpression (S n) rec).
Proof.
  assert (H : ends (S n) (parseUnaryExpression (S n) rec)) by (intros k st Hk; by apply unary_ends).
  apply level_ends; [done| |done|done]. intros. unfold arithmetic_node. quiet.
Qed.

Lemma additive_ends : ends (S n) (parseAdditiveExpression (S n) rec).
Proof.
  apply level_ends; [apply multiplicative_ends| |done|apply multiplicative_ends]. intros. unfold arithmetic_node. quiet.
Qed.

Lemma comparison_ends : ends (S n) (parseComparisonExpression (S n) rec).
Proof.
  apply level_ends; [apply additive_ends| |done|apply additive_ends]. intros. unfold comparison_node. quiet.
Qed.

Lemma not_ends (fuel : nat) :
  forall k st, (k < S n)%nat -> (k < fuel)%nat -> remaining st k ->
    wp True False (not_loop (S n) rec fuel) (fun _ st' => (0 < k)%nat /\ remaining st' (k - 1)) (fun st' => remaining st' k) st.
Proof.
  induction fuel as [|fuel IH]; intros k st Hk Hf Hl; [lia|]. cbn [not_loop]. pose proof comparison_ends as HP.
  wstep. wstep. wstep; [|wstep; wdone]. wstep. eapply wp_skip_ahead; [eassumption|congruence|]. intros.
  wstep. wstep. eapply wp_mono; [eapply IH; [| |eassumption]; lia| |]; cbv beta; [|intros; whandler].
  intros ? ? [? ?]. wstep. wstep; [|wdone]. wstep. wdone.
Qed.

Lemma and_ends : ends (S n) (parseAndExpression (S n) rec).
Proof.
  assert (H : ends (S n) (parseNotExpression (S n) rec)) by (intros k st Hk; by apply not_ends).
  apply level_ends; [done| |done|done]. intros. unfold and_node, pair_node. quiet.
Qed.

Lemma or_ends : ends (S n) (parseOrExpression (S n) rec).
Proof.
  apply level_ends; [apply and_ends| |done|apply and_ends]. intros. unfold or_node, cypherAstCreateBinaryOp. quiet.
Qed.

End ExpressionsEnd.

Lemma parseExpression_ends (fuel : nat) : ends fuel (parseExpression fuel).
Proof. induction fuel as [|n IH]; [intros k st Hk; lia|]. by apply or_ends. Qed.

(** ** Patterns and clauses end *)

Ltac wcall lem := eapply wp_mono; [eapply lem; [|eauto using ahead_left]; lia|cbv beta|cbv beta].

Section ClausesEnd.
Context (n : nat).

Lemma labels_end : ends n parseNodeLabels.
Proof.
  intros k st Hk Hl. unfold parseNodeLabels. wstep. wstep. wstep; [|wstep; wdone].
  wstep. eapply wp_skip_left; [eauto using ahead_left|]. intros. wstep. wstep. wstep; [|whandler]. wstep; wdone.
Qed.

Lemma property_map_loop_ends (fuel : nat) (pMap : CypherAst) :
  forall k st, (k < n)%nat -> (k < fuel)%nat -> remaining st k ->
    wp True False (property_map_loop n fuel pMap) (fun _ st' => remaining st' k) (fun st' => remaining st' k) st.
Proof.
  revert pMap. induction fuel as [|fuel IH]; intros pMap k st Hk Hf Hl; [lia|]. cbn [property_map_loop].
  pose proof (parseExpression_ends n) as HE.
  wstep. wstep. wstep; [|whandler]. wstep. wstep. wstep; [|whandler]. wstep. wstep. wstep; [|whandler].
  wstep. wstep; [|wdone]. wstep. wstep. wstep; [|wstep; wdone]. wstep. eapply wp_skip_left; [eauto using ahead_left|]. intros.
  eapply wp_mono; [eapply IH; [| |eassumption]; lia| |]; cbv beta; intros; wdone.
Qed.

Lemma property_map_ends : ends n (parsePropertyMap n).
Proof.
  intros k st Hk Hl. unfold parsePropertyMap. wstep. wstep; [|wdone]. wstep. wstep; [|wdone]. wstep. wstep. wstep.
  - wstep. eapply wp_skip_left; [eauto using ahead_left|]. intros. wstep. wdone.
  - wstep. eapply wp_mono; [eapply property_map_loop_ends; [| |eauto using ahead_left]; lia| |]; cbv beta; intros; [|wdone].
    wstep. wstep. wstep; [wstep; wdone|whandler].
Qed.

Lemma variable_ends (pPattern : CypherAst) : loops n (optional_variable pPattern).
Proof.
  intros k st Hk Hl. unfold optional_variable. wstep. wstep. wstep; [|wstep; wdone].
  wstep. wstep; [|wdone]. wstep. wstep; [|wdone]. wstep. wdone.
Qed.

Lemma error_quiet : quiet has_error.
Proof. done. Qed.
#[local] Hint Resolve error_quiet : quiet.

Lemma node_labels_end (pNode : CypherAst) : loops n (node_labels pNode).
Proof.
  intros k st Hk Hl. unfold node_labels. wstep. wstep. wcall labels_end.
  - intros ? ? [? ?]. wstep. wdone.
  - intros. wstep. wstep; [|wdone]. wstep; [whandler|wstep; wdone].
Qed.

Lemma node_properties_end (pNode : CypherAst) : loops n (node_properties n pNode).
Proof.
  intros k st Hk Hl. unfold node_properties. wstep. wstep. wstep; [|wstep; wdone]. wstep. wstep. wcall property_map_ends.
  - intros ? ? [? ?]. wstep. wdone.
  - intros. wstep. wdone.
Qed.

Lemma node_pattern_ends : ends n (parseNodePattern n).
Proof.
  intros k st Hk Hl. unfold parseNodePattern. wstep. wstep. wstep; [|whandler]. wstep. wstep; [|wdone].
  wstep. wcall variable_ends; intros; [|wdone]. wstep. wcall node_labels_end; intros; [|wdone].
  wstep. wcall node_properties_end; intros; [|wdone]. wstep. wstep. wstep; [wstep; wdone|whandler].
Qed.

Lemma rel_start_ends (type : CypherTokenType) : loops n (rel_start type).
Proof.
  intros k st Hk Hl. unfold rel_start. wstep; [|wstep; [|wstep; [|wstep; wdone]]].
  - wstep. eapply wp_skip_left; [done|]. intros. wstep. wdone.
  - wstep. wstep. wstep; wdone.
  - wstep. wstep. wstep; wdone.
Qed.

Lemma rel_type_ends (pPattern pRel : CypherAst) : loops n (rel_type pPattern pRel).
Proof.
  intros k st Hk Hl. unfold rel_type. wstep. wstep. wstep; [|wstep; wdone].
  wstep. eapply wp_skip_left; [eauto using ahead_left|]. intros. wstep. wstep. wstep; [|whandler].
  wstep. wstep; [|wdone]. wstep. wdone.
Qed.

Lemma rel_properties_end (pPattern pRel : CypherAst) : loops n (rel_properties n pPattern pRel).
Proof.
  intros k st Hk Hl. unfold rel_properties. wstep. wstep. wstep; [|wstep; wdone]. wstep. wstep. wcall property_map_ends.
  - intros ? ? [? ?]. wstep. wdone.
  - intros. wstep. wstep; [|wdone]. wstep; [whandler|wstep; wdone].
Qed.

Lemma rel_end_ends (iDirection : Z) : loops n (rel_end iDirection).
Proof.
  intros k st Hk Hl. unfold rel_end. wstep. wstep. wstep; [|wstep; [|wstep; wdone]].
  - wstep. eapply wp_skip_left; [eauto using ahead_left|]. intros. wstep. wdone.
  - wstep. eapply wp_skip_left; [eauto using ahead_left|]. intros. wstep. wdone.
Qed.

Lemma parse_rel_ends (pPattern : CypherAst) (iDirection : Z) : loops n (parse_rel n pPattern iDirection).
Proof.
  intros k st Hk Hl. unfold parse_rel. wstep. wstep; [|wdone]. wstep. wstep. wstep; [|whandler].
  wstep. wcall variable_ends; intros; [|wdone]. wstep. wcall rel_type_ends; intros; [|wdone].
  wstep. wcall rel_properties_end; intros; [|wdone]. wstep. wstep. wstep; [|whandler].
  wstep. wcall rel_end_ends; intros; [|wdone]. wstep. wdone.
Qed.

Lemma pattern_loop_ends (fuel : nat) (pPattern : CypherAst) :
  forall k st, (k < n)%nat -> (k < fuel)%nat -> remaining st k ->
    wp True False (pattern_loop n fuel pPattern) (fun _ st' => remaining st' k) (fun st' => remaining st' k) st.
Proof.
  revert pPattern. induction fuel as [|fuel IH]; intros pPattern k st Hk Hf Hl; [lia|]. cbn [pattern_loop].
  pose proof node_pattern_ends as HN. wstep. wstep. wstep; [|wstep; wdone]. wstep. wcall rel_start_ends; [|intros; wdone].
  intros [iDirection|] ? ?; [|wstep; wdone]. wstep. wcall parse_rel_ends; intros; [|wdone].
  wstep. wstep. wstep; [|whandler]. eapply wp_mono; [eapply IH; [| |eassumption]; lia| |]; cbv beta; intros; wdone.
Qed.

Lemma pattern_ends : ends n (parsePattern n).
Proof.
  intros k st Hk Hl. unfold parsePattern. pose proof node_pattern_ends as HN. wstep. wstep; [|wdone]. wstep. wstep.
  wstep; [|whandler]. eapply wp_mono; [eapply pattern_loop_ends; [| |eassumption]; lia| |]; cbv beta; intros; wdone.
Qed.

Lemma clause_ends (keyword : CypherTokenType) (zError : string) (type : CypherAstNodeType) (body : PM CypherAst) :
  keyword <> CYPHER_TOK_EOF -> ends n body -> ends n (clause keyword zError type body).
Proof.
  intros Hkey Hbody k st Hk Hl. unfold clause. wstep. wstep. eapply wp_consume_left; [done|done| |]; intros; [|whandler].
  wstep. wstep; [|wdone]. wstep. wstep. wstep; [|whandler]. wstep. wdone.
Qed.

Lemma where_ends : ends n (parseWhereClause n).
Proof.
  intros k st Hk Hl. unfold parseWhereClause. pose proof (parseExpression_ends n) as HE. wstep. wstep; [|wdone].
  wstep. wstep; [|wdone]. wstep. wstep. wstep; [|whandler]. wstep. wdone.
Qed.

Lemma projection_list_ends : ends n (parseProjectionList n).
Proof.
  assert (HI : ends n (parseProjectionItem n)).
  { intros k st Hk Hl. unfold parseProjectionItem. pose proof (parseExpression_ends n) as HE.
    wstep. wstep; [|wdone]. wstep. wstep. wstep; [|whandler]. wstep. wdone. }
  intros k st Hk Hl. unfold parseProjectionList. wstep. wstep; [|wdone]. wstep. wstep. wstep; [|whandler]. wstep. wdone.
Qed.

Lemma first_clause_ends : ends n (first_clause n).
Proof.
  pose proof (parseExpression_ends n) as HE. pose proof pattern_ends as HP.
  assert (H1 : ends n (parseMatchClause n)) by (by apply clause_ends).
  assert (H2 : ends n (parseCreateClause n)) by (by apply clause_ends).
  assert (H3 : ends n (parseMergeClause n)) by (by apply clause_ends).
  assert (H4 : ends n (parseSetClause n)) by (by apply clause_ends).
  assert (H5 : ends n (parseDeleteClause n)) by (by apply clause_ends).
  intros k st Hk Hl. unfold first_clause. wstep. wstep.
  do 5 (wstep; [wstep; wdone|]). wstep. wstep; [wstep; wdone|wdone].
Qed.

Lemma drain_ends (fuel : nat) : forall k st, (k < fuel)%nat -> remaining st k ->
  wp True False (drain fuel) (fun _ st' => remaining st' k) (fun st' => remaining st' k) st.
Proof.
  induction fuel as [|fuel IH]; intros k st Hf Hl; [lia|]. cbn [drain]. wstep. eapply wp_next_left; [done|].
  intros t st' Hl' Hs. wstep; [wstep; wdone|]. destruct Hs as [? ?]; [|].
  - intros E. rewrite E in Heqb. done.
  - eapply wp_mono; [eapply IH; [|eassumption]; lia| |]; cbv beta; intros; wdone.
Qed.

Lemma single_query_ends : loops n (parseSingleQuery n).
Proof.
  pose proof first_clause_ends as HF. pose proof where_ends as HW.
  assert (HR : ends n (parseReturnClause n)) by (apply clause_ends; [done|apply projection_list_ends]).
  intros k st Hk Hl. unfold parseSingleQuery, where_clause, return_clause. wstep. wstep; [|wdone].
  wstep. wstep. wstep; [|whandler].
  wstep. apply (wp_mono True False _ (fun _ st' => remaining st' (k - 1)) _ (fun st' => remaining st' k)); [|cbv beta|done].
  { wstep. wstep. wstep; [|wstep; wdone]. wstep. wstep. wstep; wstep; wdone. }
  intros ? ? ?. wstep. apply (wp_mono True False _ (fun _ st' => remaining st' (k - 1)) _ (fun st' => remaining st' k)); [|cbv beta|done].
  { wstep. wstep. wstep; [|wstep; wdone]. wstep. wstep. wstep; [wstep; wdone|whandler]. }
  intros ? ? ?. wstep. eapply wp_mono; [eapply drain_ends; [|eassumption]; lia| |]; cbv beta; intros; [|wdone].
  wstep; [whandler|wstep; wdone].
Qed.

End ClausesEnd.

Lemma cypher_parse_ends (zQuery : bytes) (vs : list (CypherTokenType * bytes)) :
  feeds (cypherLexerCreate zQuery) vs -> (length vs <= length zQuery)%nat -> (cypherParse zQuery).1 <> PFuel.
Proof.
  intros Hf Hl.
  assert (H : wp True False (parseQuery (S (length zQuery))) (fun _ _ => True) (fun _ => True) (cypherParserCreate zQuery)).
  { pose proof (single_query_ends (S (length zQuery))) as HS.
    assert (Hr : remaining (cypherParserCreate zQuery) (length zQuery)) by (by exists vs).
    unfold parseQuery. wstep. wstep; [|done]. wstep. wstep. wstep; [done|]. eapply wp_quiet; [quiet|done|done|done]. }
  unfold wp in H. unfold cypherParse. by destruct (parseQuery _ _) as [[a| | |] st].
Qed.

(** C37: The parser ends on every text: with the fuel of [cypherParse] it
    returns a tree or [NULL] or has undefined behaviour, and does not run out
    of fuel. *)
Theorem cypher_parser_total (zQuery : bytes) :
  Forall (fun c => c <> 0) zQuery -> (cypherParse zQuery).1 <> PFuel.
Proof.
  intros Hnz. destruct (feeds_total (length zQuery) (cypherLexerCreate zQuery)) as (vs & Hf & Hl); [done|done|].
  by eapply cypher_parse_ends.
Qed.

Lemma cypher_parser_total_witness : (cypherParse (bstr "MATCH (a)-[:T]->(b) WHERE NOT (1 + 2")).1 <> PFuel.
Proof. apply cypher_parser_total. by_compute. Defined.
