(* ===== verification/CypherExpr.v ===== *)
(** * Cypher expressions are parsed to their trees

    The syntax of expressions, how they are written as tokens, and the tree
    the parser builds for each.  A tree is compared up to the addresses of its
    nodes; which nodes are shared is stated by the nodes that
    [cypherAstDestroy] frees.  [next] is the text of the token after an
    expression, which the parser stores as the operator of arithmetic nodes. *)

From Stdlib Require Import String ZArith Lia.
From stdpp Require Import base option list numbers.
From S2P Require Import Prelude Codec DefParser Values Scalar CypherLexer CypherParser CypherParseSpec.

Local Open Scope Z_scope.
Local Open Scope parser_scope.

(** ** Trees without addresses *)

Inductive tree := Node (type : CypherAstNodeType) (value : option bytes) (flags : Z) (children : list tree).

Fixpoint shape (a : CypherAst) : tree := Node (ast_type a) (ast_value a) (ast_flags a) (map shape (ast_children a)).

Definition shared_type (type : CypherAstNodeType) : bool := bool_decide (type ∈ [CYPHER_AST_BINARY_OP; CYPHER_AST_UNARY_OP]).

(** No node of a type whose operands are added twice. *)
Fixpoint plain (t : tree) : bool :=
  match t with Node type _ _ children => negb (shared_type type) && forallb plain children end.

(** ** Syntax *)

Definition tok : Type := CypherTokenType * bytes.

Inductive blevel := BOr | BAnd | BCmp | BAdd | BMul.

#[export] Instance blevel_eq_dec : EqDecision blevel.
Proof. solve_decision. Defined.

Inductive cexpr :=
| EName (s : bytes)
| ELit (t : tok)
| EParen (e : cexpr)
| EList (es : list cexpr)
| EMap (kvs : list (tok * cexpr))
| ECall (f : bytes) (args : list cexpr)
| EProp (e : cexpr) (x : bytes)
| EUnary (op : tok) (e : cexpr)
| EBin (b : blevel) (op : tok) (l r : cexpr)
| ENot (op : bytes) (e : cexpr).

Definition t_lparen : tok := (CYPHER_TOK_LPAREN, bstr "(").
Definition t_rparen : tok := (CYPHER_TOK_RPAREN, bstr ")").
Definition t_lbracket : tok := (CYPHER_TOK_LBRACKET, bstr "[").
Definition t_rbracket : tok := (CYPHER_TOK_RBRACKET, bstr "]").
Definition t_lbrace : tok := (CYPHER_TOK_LBRACE, bstr "{").
Definition t_rbrace : tok := (CYPHER_TOK_RBRACE, bstr "}").
Definition t_comma : tok := (CYPHER_TOK_COMMA, bstr ",").
Definition t_colon : tok := (CYPHER_TOK_COLON, bstr ":").
Definition t_dot : tok := (CYPHER_TOK_DOT, bstr ".").
Definition t_name (s : bytes) : tok := (CYPHER_TOK_IDENTIFIER, s).

Fixpoint commas (l : list (list tok)) : list tok :=
  match l with
  | [] => []
  | [x] => x
  | x :: l => x ++ t_comma :: commas l
  end.

Fixpoint print (e : cexpr) : list tok :=
  match e with
  | EName s => [t_name s]
  | ELit t => [t]
  | EParen e => t_lparen :: print e ++ [t_rparen]
  | EList es => t_lbracket :: commas (map print es) ++ [t_rbracket]
  | EMap kvs => t_lbrace :: commas (map (fun kv => kv.1 :: t_colon :: print kv.2) kvs) ++ [t_rbrace]
  | ECall f args => t_name f :: t_lparen :: commas (map print args) ++ [t_rparen]
  | EProp e x => print e ++ [t_dot; t_name x]
  | EUnary op e => op :: print e
  | EBin _ op l r => print l ++ op :: print r
  | ENot op e => (CYPHER_TOK_NOT, op) :: print e
  end.

Definition ops (b : blevel) : list CypherTokenType :=
  match b with
  | BOr => or_ops
  | BAnd => and_ops
  | BCmp => comparison_ops
  | BAdd => additive_ops
  | BMul => multiplicative_ops
  end.

Definition level (b : blevel) : nat := match b with BOr => 0 | BAnd => 1 | BCmp => 3 | BAdd => 4 | BMul => 5 end.

(** How tight an expression binds. *)
Definition elevel (e : cexpr) : nat :=
  match e with
  | EBin b _ _ _ => level b
  | ENot _ _ => 2
  | EUnary _ _ => 6
  | _ => 7
  end.

(** Operands bind tighter than their operator, on the left at least as tight. *)
Fixpoint wf (e : cexpr) : bool :=
  match e with
  | EName _ => true
  | ELit t => type_is literal_types t.1
  | EParen e => wf e
  | EList es => forallb wf es
  | EMap kvs => forallb (fun kv => type_is [CYPHER_TOK_IDENTIFIER; CYPHER_TOK_STRING] kv.1.1 && wf kv.2) kvs
  | ECall _ args => forallb wf args
  | EProp e _ => (7 <=? elevel e)%nat && wf e
  | EUnary op e => type_is additive_ops op.1 && (6 <=? elevel e)%nat && wf e
  | EBin b op l r => type_is (ops b) op.1 && (level b <=? elevel l)%nat && (S (level b) <=? elevel r)%nat && wf l && wf r
  | ENot _ e => (2 <=? elevel e)%nat && wf e
  end.

(** Items followed by commas, the last one by [last]. *)
Definition each {A : Type} (f : A -> bytes -> tree) (last : bytes) : list A -> list tree :=
  fix go l := match l with
              | [] => []
              | x :: l' => f x (match l' with [] => last | _ => t_comma.2 end) :: go l'
              end.

Definition ident (s : bytes) : tree := Node CYPHER_AST_IDENTIFIER (Some s) 0 [].

Fixpoint ast_of (e : cexpr) (next : bytes) : tree :=
  match e with
  | EName s => ident s
  | ELit t => Node CYPHER_AST_LITERAL (Some t.2) 0 []
  | EParen e => ast_of e t_rparen.2
  | EList es => Node CYPHER_AST_ARRAY None 0 (each ast_of t_rbracket.2 es)
  | EMap kvs =>
      Node CYPHER_AST_OBJECT None 0
        (each (fun kv next => Node CYPHER_AST_PROPERTY_PAIR None 0
                 [Node CYPHER_AST_LITERAL (Some kv.1.2) 0 []; ast_of kv.2 next]) t_rbrace.2 kvs)
  | ECall f args => Node CYPHER_AST_FUNCTION_CALL None 0 (ident f :: each ast_of t_rparen.2 args)
  | EProp e x => Node CYPHER_AST_PROPERTY None 0 [ast_of e t_dot.2; ident x]
  | EUnary _ e => Node CYPHER_AST_UNARY_OP (Some next) 0 [ast_of e next; ast_of e next]
  | EBin b op l r =>
      let l := ast_of l op.2 in
      let r := ast_of r next in
      match b with
      | BOr => Node CYPHER_AST_BINARY_OP (Some (bstr "OR")) 0 [l; r; l; r]
      | BAnd => Node CYPHER_AST_AND None 0 [l; r]
      | BCmp => Node CYPHER_AST_COMPARISON (Some op.2) 0 [l; r]
      | BAdd => Node CYPHER_AST_ADDITIVE (Some next) 0 [l; r]
      | BMul => Node CYPHER_AST_MULTIPLICATIVE (Some next) 0 [l; r]
      end
  | ENot _ e => Node CYPHER_AST_NOT None 0 [ast_of e next]
  end.

(** ** Ownership: the addresses of a tree *)

Definition in_range (lo hi : nat) (l : list nat) : Prop := Forall (fun u => (lo <= u < hi)%nat) l.

Definition owned (lo hi : nat) (a : CypherAst) : Prop :=
  in_range lo hi (frees a) /\ (NoDup (frees a) <-> plain (shape a) = true).

Definition owned_list (lo hi : nat) (cs : list CypherAst) : Prop :=
  in_range lo hi (flat_map frees cs) /\ (NoDup (flat_map frees cs) <-> forallb plain (map shape cs) = true).

Lemma in_range_mono (lo hi lo' hi' : nat) (l : list nat) :
  in_range lo hi l -> (lo' <= lo)%nat -> (hi <= hi')%nat -> in_range lo' hi' l.
Proof. intros H Hlo Hhi. eapply list.Forall_impl; [exact H|]. cbn. lia. Qed.

(** Two ranges apart. *)
Lemma nodup_apart (lo mid mid' hi : nat) (l l' : list nat) :
  in_range lo mid l -> in_range mid' hi l' -> (mid <= mid')%nat -> NoDup (l ++ l') <-> NoDup l /\ NoDup l'.
Proof.
  unfold in_range. rewrite !list.Forall_forall. intros Hl Hl' Hm. rewrite list.NoDup_app. split; [tauto|]. intros [H1 H2].
  split; [done|]. split; [|done]. intros x Hx Hx'. specialize (Hl x Hx). specialize (Hl' x Hx'). lia.
Qed.

Lemma owned_list_nil (n : nat) : owned_list n n [].
Proof. split; [constructor|]. split; [done|constructor]. Qed.

Lemma owned_list_app (lo mid mid' hi : nat) (cs cs' : list CypherAst) :
  owned_list lo mid cs -> owned_list mid' hi cs' -> (lo <= mid <= mid')%nat -> (mid' <= hi)%nat -> owned_list lo hi (cs ++ cs').
Proof.
  intros [Hr Hn] [Hr' Hn'] Hm Hh. unfold owned_list. rewrite flat_map_app, map_app, forallb_app, andb_true_iff, <- Hn, <- Hn'.
  split; [|by apply (nodup_apart lo mid mid' hi); [| |lia]]. apply Forall_app_2; eapply in_range_mono; eauto; lia.
Qed.

Lemma owned_list_one (lo hi : nat) (c : CypherAst) : owned lo hi c -> owned_list lo hi [c].
Proof. intros [Hr Hn]. unfold owned_list. cbn. by rewrite app_nil_r, andb_true_r. Qed.

(** A node created at [mid], the children before and after it. *)
Lemma owned_node (lo mid hi : nat) (type : CypherAstNodeType) (v : option bytes) (f : Z) (cs cs' : list CypherAst) :
  owned_list lo mid cs -> owned_list (S mid) hi cs' -> shared_type type = false -> (lo <= mid < hi)%nat ->
  owned lo hi (MkAst mid type v f (cs ++ cs')).
Proof.
  intros [Hr Hn] [Hr' Hn'] Ht Hm.
  assert (Hperm : frees (MkAst mid type v f (cs ++ cs')) ≡ₚ flat_map frees cs ++ [mid] ++ flat_map frees cs').
  { cbn [frees ast_children ast_addr]. rewrite flat_map_app, <- app_assoc. apply Permutation_app_head, Permutation_app_comm. }
  assert (H1 : in_range mid (S mid) [mid]) by (constructor; [lia|constructor]).
  split.
  - unfold in_range. rewrite Hperm. repeat apply Forall_app_2; eapply in_range_mono; eauto; lia.
  - rewrite Hperm. rewrite (nodup_apart lo mid mid hi); [|done| |done].
    + rewrite (nodup_apart mid (S mid) (S mid) hi) by done. cbn [shape plain ast_type ast_children]. rewrite Ht, Hn, Hn', map_app, forallb_app.
      cbn [negb andb]. rewrite andb_true_iff. assert (NoDup [mid]) by (apply NoDup_singleton). tauto.
    + apply Forall_app_2; eapply in_range_mono; eauto; lia.
Qed.

(** A node of a type whose operands are added twice. *)
Lemma owned_shared (lo mid hi : nat) (type : CypherAstNodeType) (v : option bytes) (f : Z) (cs : list CypherAst) :
  owned_list lo mid cs -> shared_type type = true -> cs <> [] -> (lo <= mid < hi)%nat ->
  owned lo hi (MkAst mid type v f (cs ++ cs)).
Proof.
  intros [Hr Hn] Ht Hcs Hm. split.
  - cbn [frees ast_children ast_addr]. rewrite flat_map_app.
    repeat apply Forall_app_2; [eapply in_range_mono; eauto; lia..|constructor; [lia|constructor]].
  - cbn [frees shape plain ast_type ast_children ast_addr]. rewrite Ht. cbn [negb andb]. split; [|done]. intros Hnd. exfalso.
    rewrite flat_map_app in Hnd. apply list.NoDup_app in Hnd as [Hnd _]. apply list.NoDup_app in Hnd as (_ & Hd & _).
    destruct cs as [|c cs]; [done|]. apply (Hd (ast_addr c)); cbn [flat_map]; apply elem_of_app; left;
      destruct c as [x ty v0 fl ch]; cbn [frees ast_addr]; apply elem_of_app; right; apply list_elem_of_singleton; done.
Qed.

(** ** Reading known tokens *)

(** The tokens to come, no error, and the address of the next node. *)
Definition reads (st : pstate) (vs : list tok) (n : nat) : Prop :=
  feeds (ps_lexer st) vs /\ ps_error st = None /\ ps_next st = n.

(** The static token is the next one, and its text is not freed. *)
Definition peeked (st : pstate) (vs : list tok) : Prop :=
  ps_peeked_live st = true /\ token_view (ps_peeked st) = current vs.

(** Without undefined behaviour; the fuel is enough by [cypher_parser_total]. *)
Abbreviation wpr := (wp False True).

Section ReadRules.
Context (st : pstate) (vs : list tok) (n : nat) (N : pstate -> Prop).

Lemma wpr_peek (Q : CypherToken -> pstate -> Prop) :
  reads st vs n -> (forall t st', token_view t = current vs -> reads st' vs n -> peeked st' vs -> Q t st') ->
  wpr parserPeekToken Q N st.
Proof.
  intros (Hf & He & Hn) HQ. unfold wp, parserPeekToken. pose proof (feeds_next _ _ Hf) as Hx.
  destruct (cypherLexerNextToken (ps_lexer st)) as [t lx]. destruct Hx as [Ht _]. by apply HQ.
Qed.

Lemma wpr_next (v : tok) (Q : CypherToken -> pstate -> Prop) :
  reads st (v :: vs) n -> (forall t st', token_view t = v -> reads st' vs n -> Q t st') -> wpr next_token Q N st.
Proof.
  intros (Hf & He & Hn) HQ. unfold wp, next_token. pose proof (feeds_next _ _ Hf) as Hx.
  destruct (cypherLexerNextToken (ps_lexer st)) as [t lx]. destruct Hx as [Ht Hl]. by apply HQ.
Qed.

Lemma wpr_consume (type : CypherTokenType) (x : bytes) (Q : CypherToken -> pstate -> Prop) :
  reads st ((type, x) :: vs) n -> (forall t st', tok_text t = x -> reads st' vs n -> Q t st') ->
  wpr (parserConsumeToken type) Q N st.
Proof.
  intros Hr HQ. apply wp_bind. unfold wp, next_token. destruct Hr as (Hf & He & Hn). pose proof (feeds_next _ _ Hf) as Hx.
  destruct (cypherLexerNextToken (ps_lexer st)) as [t lx]. destruct Hx as [Ht Hl]. injection Ht as Ht Hx.
  rewrite decide_True by done. by apply HQ.
Qed.

Lemma wpr_skip (v : tok) (type : CypherTokenType) (Q : unit -> pstate -> Prop) :
  reads st (v :: vs) n -> (forall st', reads st' vs n -> Q tt st') -> wpr (skip_token type) Q N st.
Proof.
  intros (Hf & He & Hn) HQ. apply wp_bind, wp_try, wp_bind. unfold wp at 1, next_token. pose proof (feeds_next _ _ Hf) as Hx.
  destruct (cypherLexerNextToken (ps_lexer st)) as [t lx]. destruct Hx as [Ht Hl]. case_decide; by apply HQ.
Qed.

Lemma wpr_create (type : CypherAstNodeType) (Q : CypherAst -> pstate -> Prop) :
  reads st vs n ->
  (forall st', reads st' vs (S n) -> (forall us, peeked st us -> peeked st' us) -> Q (MkAst n type None 0 []) st') ->
  wpr (cypherAstCreate type) Q N st.
Proof. intros (Hf & He & Hn) HQ. apply wp_create. rewrite Hn. apply HQ; [by rewrite <- Hn|done]. Qed.

Lemma wpr_valued (type : CypherAstNodeType) (v : bytes) (Q : CypherAst -> pstate -> Prop) :
  reads st vs n ->
  (forall st', reads st' vs (S n) -> (forall us, peeked st us -> peeked st' us) -> Q (MkAst n type (Some v) 0 []) st') ->
  wpr (create_valued type v) Q N st.
Proof. intros (Hf & He & Hn) HQ. apply wp_valued. rewrite Hn. apply HQ; [by rewrite <- Hn|done]. Qed.

Lemma wpr_peeked_text (Q : bytes -> pstate -> Prop) : peeked st vs -> Q (current vs).2 st -> wpr peeked_text Q N st.
Proof. intros [Hl Hv] HQ. unfold wp, peeked_text. rewrite Hl. by rewrite <- Hv in HQ. Qed.

Lemma wpr_no_error (Q : bool -> pstate -> Prop) : reads st vs n -> Q false st -> wpr has_error Q N st.
Proof. intros (_ & He & _) HQ. unfold wp, has_error. by rewrite He. Qed.

End ReadRules.

(** The parser reads the first tokens of [vs] up to [vs'], and builds the
    tree [s]. *)
Definition yields (m : PM CypherAst) (vs vs' : list tok) (s : tree) : Prop :=
  forall st n, reads st vs n ->
    wpr m (fun a st' => exists n', reads st' vs' n' /\ peeked st' vs' /\ (n <= n')%nat /\ owned n n' a /\ shape a = s)
      (fun _ => False) st.

Lemma wpr_yields (m : PM CypherAst) (vs vs' : list tok) (s : tree) (st : pstate) (n : nat)
    (Q : CypherAst -> pstate -> Prop) (N : pstate -> Prop) :
  yields m vs vs' s -> reads st vs n ->
  (forall a st' n', reads st' vs' n' -> peeked st' vs' -> (n <= n')%nat -> owned n n' a -> shape a = s -> Q a st') ->
  wpr m Q N st.
Proof.
  intros Hm Hr HQ. eapply wp_mono; [by apply Hm| |done]. intros a st' (n' & H1 & H2 & H3 & H4 & H5). by eapply HQ.
Qed.

(** The token does not go on with an expression of level [k]. *)
Definition ops_from (k : nat) : list CypherTokenType :=
  concat (drop k [or_ops; and_ops; []; comparison_ops; additive_ops; multiplicative_ops]).

Definition stops (k : nat) (v : tok) : bool := negb (type_is (CYPHER_TOK_LPAREN :: CYPHER_TOK_DOT :: ops_from k) v.1).

Lemma type_is_false (l : list CypherTokenType) (t : CypherTokenType) : type_is l t = false <-> t ∉ l.
Proof. apply bool_decide_eq_false. Qed.

Lemma type_is_true (l : list CypherTokenType) (t : CypherTokenType) : type_is l t = true <-> t ∈ l.
Proof. apply bool_decide_eq_true. Qed.

Lemma concat_drop_sub {A : Type} (l : list (list A)) (k k' : nat) (x : A) :
  (k <= k')%nat -> x ∈ concat (drop k' l) -> x ∈ concat (drop k l).
Proof.
  intros Hk Hx. replace k' with (k + (k' - k))%nat in Hx by lia. rewrite <- drop_drop in Hx.
  rewrite <- (take_drop (k' - k) (drop k l)), concat_app. apply elem_of_app. by right.
Qed.

Lemma stops_mono (k k' : nat) (v : tok) : (k <= k')%nat -> stops k v = true -> stops k' v = true.
Proof.
  intros Hk. unfold stops. rewrite !negb_true_iff, !type_is_false, !not_elem_of_cons. intros (H1 & H2 & H3).
  split; [done|]. split; [done|]. intros Hin. apply H3. by eapply concat_drop_sub.
Qed.

(** The operators of one level are not those of another. *)
Lemma stops_op (b : blevel) (v : tok) : stops (level b) v = true -> type_is (ops b) v.1 = false.
Proof.
  unfold stops. rewrite negb_true_iff, !type_is_false, !not_elem_of_cons. intros (_ & _ & H) Hin. apply H.
  unfold ops_from. destruct b; cbn [ops level drop concat] in *; rewrite ?elem_of_app; auto.
Qed.

Lemma op_stops (b : blevel) (v : tok) : type_is (ops b) v.1 = true -> stops (S (level b)) v = true.
Proof.
  intros Hin%type_is_true. destruct v as [t x]. cbn [fst] in Hin. unfold stops. cbn [fst].
  assert (Hall : Forall (fun t => negb (type_is (CYPHER_TOK_LPAREN :: CYPHER_TOK_DOT :: ops_from (S (level b))) t) = true) (ops b)).
  { destruct b; by_compute. }
  rewrite list.Forall_forall in Hall. by apply Hall.
Qed.

(** ** Expressions *)

Definition add_children (a : CypherAst) (cs : list CypherAst) : CypherAst :=
  MkAst (ast_addr a) (ast_type a) (ast_value a) (ast_flags a) (ast_children a ++ cs).

Lemma add_children_cons (a c : CypherAst) (cs : list CypherAst) :
  add_children (cypherAstAddChild a c) cs = add_children a (c :: cs).
Proof. unfold add_children, cypherAstAddChild. cbn. by rewrite <- app_assoc. Qed.

Lemma owned_list_cons (lo mid mid' hi : nat) (c : CypherAst) (cs : list CypherAst) :
  owned lo mid c -> owned_list mid' hi cs -> (lo <= mid <= mid')%nat -> (mid' <= hi)%nat -> owned_list lo hi (c :: cs).
Proof. intros Hc Hcs H1 H2. apply (owned_list_app lo mid mid' hi [c] cs); [by apply owned_list_one|done..]. Qed.

Lemma view_type (t : CypherToken) (vs : list tok) : token_view t = current vs -> tok_type t = (current vs).1.
Proof. by intros <-. Qed.

(** One rule for each action on known tokens. *)
Ltac rstep :=
  match goal with
  | |- wp _ _ (pbind _ _) _ _ _ => apply wp_bind
  | |- wp _ _ (or_else _ _) _ _ _ => apply wp_or_else
  | |- wp _ _ (ptry _) _ _ _ => apply wp_try
  | |- wp _ _ (pret _) _ _ _ => apply wp_ret
  | |- wp _ _ pnull _ _ _ => apply wp_null
  | |- wp _ _ pfuel _ _ _ => exact I
  | |- wp _ _ parserPeekToken _ _ _ => eapply wpr_peek; [eassumption|intros ? ? ?Hview ? ?]
  | |- wp _ _ (parserConsumeToken _) _ _ _ => eapply wpr_consume; [eassumption|intros]
  | |- wp _ _ next_token _ _ _ => eapply wpr_next; [eassumption|intros ? ? ?Hview ?]
  | |- wp _ _ (skip_token _) _ _ _ => eapply wpr_skip; [eassumption|intros]
  | |- wp _ _ (cypherAstCreate _) _ _ _ => eapply wpr_create; [eassumption|intros ? ? ?Hkeep]
  | |- wp _ _ (cypherAstCreateLiteral _) _ _ _ => eapply wpr_valued; [eassumption|intros ? ? ?Hkeep]
  | |- wp _ _ (cypherAstCreateIdentifier _) _ _ _ => eapply wpr_valued; [eassumption|intros ? ? ?Hkeep]
  | |- wp _ _ (cypherAstCreateNodeLabel _) _ _ _ => eapply wpr_valued; [eassumption|intros ? ? ?Hkeep]
  | |- wp _ _ (create_valued _ _) _ _ _ => eapply wpr_valued; [eassumption|intros ? ? ?Hkeep]
  end; cbv beta.

(** Deciding on the type of the token that was read. *)
Ltac rtype :=
  match goal with
  | Hv : token_view ?t = _ |- context [tok_type ?t] => rewrite (view_type t _ Hv) in *
  | Hv : token_view ?t = (_, _) |- context [tok_type ?t] => rewrite (f_equal fst Hv) in *
  end; cbn [current hd fst snd] in *.

(** What follows the first item of a sequence. *)
Definition after_item {A : Type} (p : A -> list tok) (xs : list A) (close : tok) (vs : list tok) : list tok :=
  match xs with
  | [] => close :: vs
  | _ => t_comma :: commas (map p xs) ++ close :: vs
  end.

Lemma commas_cons {A : Type} (p : A -> list tok) (x : A) (xs : list A) (close : tok) (vs : list tok) :
  commas (map p (x :: xs)) ++ close :: vs = p x ++ after_item p xs close vs.
Proof. destruct xs as [|y xs]; cbn [map commas after_item]; [done|]. by rewrite <- app_assoc. Qed.

Ltac rdecide := repeat first [rewrite decide_False by done | rewrite decide_True by done].

Section ExpressionsRead.
Context (fuel : nat) (rec : PM CypherAst).
Hypothesis rec_yields : forall e vs, wf e = true -> stops 0 (current vs) = true ->
  yields rec (print e ++ vs) vs (ast_of e (current vs).2).

Lemma elements_read (zError : string) (close : tok) (vs : list tok) (es : list cexpr) (N : pstate -> Prop) :
  es <> [] -> forallb wf es = true -> close.1 <> CYPHER_TOK_COMMA -> stops 0 close = true ->
  forall f acc st n Q, reads st (commas (map print es) ++ close :: vs) n ->
  (forall cs st' n', reads st' (close :: vs) n' -> (n <= n')%nat -> owned_list n n' cs ->
     map shape cs = each ast_of close.2 es -> Q (add_children acc cs) st') ->
  wpr (elements_loop rec zError f acc) Q N st.
Proof.
  intros Hes Hwf Hc Hs. induction es as [|e es IH]; [done|]. clear Hes. cbn [forallb] in Hwf. apply andb_true_iff in Hwf as [He Hwf].
  intros f acc st n Q Hr HQ. destruct f as [|f]; cbn [elements_loop]; [rstep|]. rewrite commas_cons in Hr.
  assert (Hstop : stops 0 (current (after_item print es close vs)) = true) by (by destruct es).
  rstep. rstep. eapply wpr_yields; [by apply (rec_yields e)|done|]. intros a st1 n1 Hr1 _ Hn1 Ho1 Hsh1.
  rstep. rstep. rtype. destruct es as [|e' es]; cbn [after_item current hd] in *.
  - rewrite decide_False by done. rstep. apply (HQ [a] _ n1); [done|done|by apply owned_list_one|]. cbn. by rewrite Hsh1.
  - rewrite decide_True by done. rstep. rstep. eapply IH; [done|done|eassumption|].
    intros cs st2 n2 Hr2 Hn2 Ho2 Hsh2. rewrite add_children_cons. eapply HQ; [done|lia|by eapply owned_list_cons; [done|done|lia|lia]|].
    cbn [map]. by rewrite Hsh1, Hsh2.
Qed.

Definition print_pair (kv : tok * cexpr) : list tok := kv.1 :: t_colon :: print kv.2.
Definition pair_ok (kv : tok * cexpr) : bool := type_is [CYPHER_TOK_IDENTIFIER; CYPHER_TOK_STRING] kv.1.1 && wf kv.2.
Definition pair_tree (kv : tok * cexpr) (next : bytes) : tree :=
  Node CYPHER_AST_PROPERTY_PAIR None 0 [Node CYPHER_AST_LITERAL (Some kv.1.2) 0 []; ast_of kv.2 next].

Lemma owned_leaf (n : nat) (type : CypherAstNodeType) (v : option bytes) :
  shared_type type = false -> owned n (S n) (MkAst n type v 0 []).
Proof. intros Ht. apply (owned_node n n (S n) type v 0 [] []); [apply owned_list_nil|apply owned_list_nil|done|lia]. Qed.

(** A node created after its children. *)
Lemma owned_after (lo mid : nat) (type : CypherAstNodeType) (v : option bytes) (f : Z) (cs : list CypherAst) :
  owned_list lo mid cs -> (lo <= mid)%nat -> shared_type type = false -> owned lo (S mid) (MkAst mid type v f cs).
Proof.
  intros Hcs Hm Ht. rewrite <- (app_nil_r cs). apply (owned_node lo mid (S mid)); [done|apply owned_list_nil|done|lia].
Qed.

(** A node created before its children. *)
Lemma owned_before (lo hi : nat) (type : CypherAstNodeType) (v : option bytes) (f : Z) (cs : list CypherAst) :
  owned_list (S lo) hi cs -> (lo < hi)%nat -> shared_type type = false -> owned lo hi (MkAst lo type v f cs).
Proof. intros Hcs Hm Ht. apply (owned_node lo lo hi type v f [] cs); [apply owned_list_nil|done|done|lia]. Qed.

Lemma map_read (vs : list tok) (kvs : list (tok * cexpr)) (N : pstate -> Prop) :
  kvs <> [] -> forallb pair_ok kvs = true ->
  forall f acc st n Q, reads st (commas (map print_pair kvs) ++ t_rbrace :: vs) n ->
  (forall cs st' n', reads st' (t_rbrace :: vs) n' -> (n <= n')%nat -> owned_list n n' cs ->
     map shape cs = each pair_tree t_rbrace.2 kvs -> Q (add_children acc cs) st') ->
  wpr (map_loop rec f acc) Q N st.
Proof.
  intros Hes Hwf. induction kvs as [|[[kt k] e] kvs IH]; [done|]. clear Hes. cbn [forallb] in Hwf. apply andb_true_iff in Hwf as [He Hwf].
  apply andb_true_iff in He as [Hk He]. cbn [fst snd] in *.
  intros f acc st n Q Hr HQ. destruct f as [|f]; cbn [map_loop]; [rstep|].
  rewrite commas_cons in Hr. cbn [print_pair fst snd app] in Hr. set (rest := after_item print_pair kvs t_rbrace vs) in *.
  assert (Hstop : stops 0 (current rest) = true) by (by destruct kvs).
  rstep. rstep. rtype. rewrite Hk. cbn [negb]. rstep. rstep. rstep. rstep. rstep. rstep. rstep. rstep. rstep.
  eapply wpr_yields; [by apply (rec_yields e rest)|done|]. intros a st1 n1 Hr1 _ Hn1 Ho1 Hsh1.
  rstep. unfold pair_node. rstep. rstep. rstep. rstep. rstep.
  set (p := cypherAstAddChild (cypherAstAddChild (MkAst n1 CYPHER_AST_PROPERTY_PAIR None 0 []) _) a).
  assert (Ht : tok_text t0 = k) by (by match goal with Hv : token_view t0 = (kt, k) |- _ => injection Hv end).
  assert (Hp : owned n (S n1) p /\ shape p = pair_tree ((kt, k), e) (current rest).2).
  { split.
    - apply (owned_after n n1); [|lia|done]. eapply (owned_list_cons n (S n) (S n)); [by apply owned_leaf|by apply owned_list_one|lia|lia].
    - unfold p, pair_tree. cbn. by rewrite Hsh1, Ht. }
  destruct Hp as [Hop Hsp]. rtype. destruct kvs as [|kv' kvs].
  - cbn [rest after_item current hd fst]. rewrite decide_False by done. rstep.
    eapply (HQ [p]); [done|lia|by apply owned_list_one|]. cbn [map]. by rewrite Hsp.
  - cbn [rest after_item current hd fst]. rewrite decide_True by done. rstep. rstep. eapply IH; [done|done|eassumption|].
    intros cs st5 n2 Hr2 Hn2 Ho2 Hsh2. rewrite add_children_cons.
    eapply (HQ (p :: cs)); [done|lia|by eapply owned_list_cons; [done|done|lia|lia]|]. cbn [map]. by rewrite Hsp, Hsh2.
Qed.

(** The first token of an expression. *)
Definition starters : list CypherTokenType :=
  CYPHER_TOK_IDENTIFIER :: literal_types ++
  [CYPHER_TOK_LPAREN; CYPHER_TOK_LBRACKET; CYPHER_TOK_LBRACE; CYPHER_TOK_PLUS; CYPHER_TOK_MINUS; CYPHER_TOK_NOT].

Definition head_ok (k : nat) (v : tok) : Prop :=
  type_is starters v.1 = true /\ ((3 <= k)%nat -> v.1 <> CYPHER_TOK_NOT) /\ ((7 <= k)%nat -> type_is additive_ops v.1 = false).

Lemma head_ok_mono (k k' : nat) (v : tok) : (k' <= k)%nat -> head_ok k v -> head_ok k' v.
Proof. intros Hk (H1 & H2 & H3). split; [done|]. split; intros; [apply H2|apply H3]; lia. Qed.

Lemma print_head (e : cexpr) : wf e = true -> exists v r, print e = v :: r /\ head_ok (elevel e) v.
Proof.
  assert (Hlit : forall t, type_is literal_types t = true -> head_ok 7 (t, [])).
  { intros t Ht%type_is_true. assert (Hall : Forall (fun t => type_is starters t = true /\ t <> CYPHER_TOK_NOT /\
      type_is additive_ops t = false) literal_types) by by_compute.
    rewrite list.Forall_forall in Hall. destruct (Hall t Ht) as (H1 & H2 & H3). done. }
  induction e as [s|[t x]|e IH|es|kvs|f args|e IH x|op e IH|b op l IHl r IHr|op e IH]; cbn [wf print elevel]; intros Hwf;
    try (by eexists _, _; split; [reflexivity|]; (split; [reflexivity|split; intros; [done|reflexivity]])).
  - eexists _, _. split; [done|]. apply Hlit in Hwf. destruct Hwf as (H1 & H2 & H3). split; [done|]. auto.
  - apply andb_true_iff in Hwf as [Hl Hwf]. destruct (IH Hwf) as (v & r & -> & Hh). eexists _, _. split; [reflexivity|].
    eapply head_ok_mono; [|exact Hh]. apply Nat.leb_le in Hl. lia.
  - apply andb_true_iff in Hwf as [Hwf _]. apply andb_true_iff in Hwf as [Hop%type_is_true _]. eexists _, _. split; [done|].
    assert (Hall : Forall (fun t => type_is starters t = true /\ t <> CYPHER_TOK_NOT) additive_ops) by by_compute.
    rewrite list.Forall_forall in Hall. destruct (Hall _ Hop) as (H1 & H2). split; [done|]. split; [done|lia].
  - rewrite !andb_true_iff in Hwf. destruct Hwf as [[[[_ Hl%Nat.leb_le] _] Hwl] _]. destruct (IHl Hwl) as (v & r' & -> & Hh).
    eexists _, _. split; [reflexivity|]. eapply head_ok_mono; [|exact Hh]. lia.
  - eexists _, _. split; [done|]. split; [reflexivity|split; lia].
Qed.

(** The first token is none of these. *)
Lemma print_head_not (e : cexpr) (vs : list tok) (t : CypherTokenType) :
  wf e = true -> type_is starters t = false -> (current (print e ++ vs)).1 <> t.
Proof.
  intros Hwf Ht. destruct (print_head e Hwf) as (v & r & -> & Hh & _). cbn. by eapply type_is_ne.
Qed.

Lemma items_head_not (es : list cexpr) (vs : list tok) (t : CypherTokenType) :
  es <> [] -> forallb wf es = true -> type_is starters t = false -> (current (commas (map print es) ++ vs)).1 <> t.
Proof.
  intros Hes Hwf Ht. destruct es as [|e es]; [done|]. cbn [forallb] in Hwf. apply andb_true_iff in Hwf as [He _].
  destruct es as [|e' es]; cbn [map commas]; [by apply print_head_not|]. rewrite <- app_assoc. by apply print_head_not.
Qed.

(** [...] between brackets. *)
Lemma bracket_read (zError : string) (es : list cexpr) (close : tok) (vs : list tok) (type : CypherAstNodeType)
    (handler : CypherAst -> PM unit) (pre : list CypherAst) (lo mid : nat) (st : pstate)
    (Q : CypherAst -> pstate -> Prop) (N : pstate -> Prop) :
  forallb wf es = true -> close.1 <> CYPHER_TOK_COMMA -> stops 0 close = true -> type_is starters close.1 = false ->
  shared_type type = false -> owned_list lo mid pre -> (lo <= mid)%nat ->
  reads st (commas (map print es) ++ close :: vs) (S mid) ->
  (forall a st' n', reads st' vs n' -> (lo <= n')%nat -> owned lo n' a ->
     shape a = Node type None 0 (map shape pre ++ each ast_of close.2 es) -> Q a st') ->
  wpr (pToken <-y parserPeekToken;
       if decide (tok_type pToken = close.1) then skip_token close.1 ;; pret (MkAst mid type None 0 pre)
       else
         pList <-y elements_loop rec zError fuel (MkAst mid type None 0 pre);
         or_else (parserConsumeToken close.1) (handler pList) ;; pret pList) Q N st.
Proof.
  intros Hwf Hcomma Hstop Hstart Htype Hpre Hlo Hr HQ. destruct close as [ct cx]. cbn [fst snd] in *. rstep. rstep.
  destruct (decide (es = [])) as [->|Hes].
  - cbn [map commas app] in *. rtype. rewrite decide_True by done. rstep. rstep. rstep.
    eapply HQ; [done| |by apply owned_after|by rewrite app_nil_r]. lia.
  - rewrite (view_type _ _ Hview), decide_False by (by apply items_head_not).
    rstep. eapply (elements_read zError (ct, cx) vs es); [done|done|done|done|eassumption|]. intros cs st2 n2 Hr2 Hn2 Ho2 Hsh2.
    rstep. rstep. rstep. rstep. eapply HQ; [done|lia| |].
    + apply (owned_node lo mid n2); [done|done|done|lia].
    + cbn. by rewrite map_app, Hsh2.
Qed.

Definition is_base (e : cexpr) : bool :=
  match e with EName _ | ELit _ | EParen _ | EList _ | EMap _ => true | _ => false end.

Lemma literal_read (e : cexpr) (next : bytes) (vs : list tok) (st : pstate) (n : nat)
    (Q : CypherAst -> pstate -> Prop) (N : pstate -> Prop) :
  is_base e = true -> wf e = true -> reads st (print e ++ vs) n ->
  (forall a st' n', reads st' vs n' -> (n <= n')%nat -> owned n n' a -> shape a = ast_of e next -> Q a st') ->
  wpr (parseLiteral fuel rec) Q N st.
Proof.
  intros Hb Hwf Hr HQ. unfold parseLiteral. rstep. rstep.
  destruct e as [s|[lt x]|e|es|kvs| | | | |]; try done; cbn [print app] in *; rtype; cbn [wf fst] in Hwf.
  - rdecide. rstep. rstep. rstep. eapply HQ; [done|lia|by apply owned_leaf|]. cbn.
    by injection Hview0 as _ ->.
  - assert (Hnot : forall u, type_is literal_types u = false -> lt <> u) by (intros u Hu; by eapply type_is_ne).
    rewrite !decide_False, Hwf by (by apply Hnot). rstep. rstep. rstep. eapply HQ; [done|lia|by apply owned_leaf|]. cbn.
    by injection Hview0 as _ ->.
  - rdecide. rewrite <- app_assoc in *. cbn [app] in *. rstep. rstep. rstep.
    eapply wpr_yields; [by apply (rec_yields e (t_rparen :: vs))|done|]. intros a st1 n1 Hr1 _ Hn1 Ho1 Hsh1.
    rstep. rstep. rstep. rstep. by eapply HQ.
  - rdecide. rewrite <- app_assoc in *. cbn [app] in *. unfold parseListLiteral. rstep. rstep. rstep. rstep.
    apply (bracket_read _ es t_rbracket vs CYPHER_AST_ARRAY
      (fun pList => cypherAstDestroy pList ;; parserSetError "Expected closing bracket") [] n n); try done; try apply owned_list_nil.
  - rdecide. rewrite <- app_assoc in *. cbn [app] in *. unfold parseMapLiteral. rstep. rstep. rstep. rstep. rstep. rstep.
    destruct kvs as [|kv kvs].
    + cbn [map commas app] in *. rtype. rdecide. rstep. rstep. rstep. eapply HQ; [done|lia|by apply owned_leaf|done].
    + assert (Hne : (current (commas (map print_pair (kv :: kvs)) ++ t_rbrace :: vs)).1 <> CYPHER_TOK_RBRACE).
      { rewrite commas_cons. cbn [print_pair app current hd]. cbn [forallb] in Hwf. apply andb_true_iff in Hwf as [Hk _].
        apply andb_true_iff in Hk as [Hk _]. by eapply type_is_ne. }
      change (map (fun kv => kv.1 :: t_colon :: print kv.2)) with (map print_pair) in *.
      rewrite (view_type _ _ Hview0), decide_False by done. rstep.
      eapply (map_read vs (kv :: kvs)); [done|done|eassumption|]. intros cs st3 n3 Hr3 Hn3 Ho3 Hsh3.
      rstep. rstep. rstep. rstep. eapply HQ; [done|lia| |].
      * apply (owned_before n n3); [done|lia|done].
      * cbn [shape add_children ast_type ast_value ast_flags ast_children app ast_of]. by rewrite Hsh3.
Qed.

(** Up to the loop over the properties. *)
Lemma primary_read (e : cexpr) : wf e = true -> (7 <= elevel e)%nat ->
  forall vs st n Q N, reads st (print e ++ vs) n -> (current vs).1 <> CYPHER_TOK_LPAREN ->
  (forall f a st' n', reads st' vs n' -> (n <= n')%nat -> owned n n' a -> shape a = ast_of e (current vs).2 ->
     wpr (property_loop f a) Q N st') ->
  wpr (parsePrimaryExpression fuel rec) Q N st.
Proof.
  assert (Hbase : forall e, is_base e = true -> wf e = true ->
    forall vs st n Q N, reads st (print e ++ vs) n -> (current vs).1 <> CYPHER_TOK_LPAREN ->
    (forall f a st' n', reads st' vs n' -> (n <= n')%nat -> owned n n' a -> shape a = ast_of e (current vs).2 ->
       wpr (property_loop f a) Q N st') ->
    wpr (parsePrimaryExpression fuel rec) Q N st).
  { intros e0 Hb Hwf vs st n Q N Hr Hne HQ. unfold parsePrimaryExpression, parsePropertyExpression. rstep.
    eapply (literal_read e0 (current vs).2); [done..|]. intros a st1 n1 Hr1 Hn1 Ho1 Hsh1.
    case_decide; [|by eapply HQ]. rstep. rstep. rtype. rewrite decide_False by done. by eapply HQ. }
  induction e as [s|t|e IH|es|kvs|g args|e IH x|op e IH|b op l IHl r IHr|op e IH]; intros Hwf Hlev vs st n Q N Hr Hne HQ;
    try (by eapply Hbase; [|exact Hwf|exact Hr|exact Hne|exact HQ]); try (cbn in Hlev; destruct b; cbn in Hlev; lia); try (cbn in Hlev; lia).
  - (* a call *)
    assert (Hr0 : reads st (print (EName g) ++ t_lparen :: commas (map print args) ++ t_rparen :: vs) n).
    { cbn [print app] in Hr |- *. by rewrite <- app_assoc in Hr. }
    unfold parsePrimaryExpression, parsePropertyExpression. rstep.
    eapply (literal_read (EName g) []); [done|done|exact Hr0|]. intros a st1 n1 Hr1 Hn1 Ho1 Hsh1.
    destruct a as [x ty v fl ch]. injection Hsh1 as -> -> -> Hch. destruct ch; [|done]. cbn [ast_type]. rdecide.
    rstep. rstep. rtype. rdecide. rstep. rstep. unfold parseFunctionCall. rstep. rstep. rstep. rstep.
    apply (bracket_read _ args t_rparen vs CYPHER_AST_FUNCTION_CALL
      (fun pCall => cypherAstDestroy pCall ;; parserSetError "Expected closing parenthesis")
      [MkAst x CYPHER_AST_IDENTIFIER (Some g) 0 []] n n1); try done; try (by apply owned_list_one).
    intros a st4 n4 Hr4 Hn4 Ho4 Hsh4. by eapply HQ.
  - (* a property *)
    cbn [wf] in Hwf. apply andb_true_iff in Hwf as [Hl%Nat.leb_le Hwf]. cbn [print] in Hr. rewrite <- app_assoc in Hr.
    eapply IH; [done|done|exact Hr|done|]. intros f a st1 n1 Hr1 Hn1 Ho1 Hsh1. destruct f as [|f]; cbn [property_loop]; [rstep|].
    cbn [app] in *. rstep. rstep. rtype. rdecide. rstep. rstep. rstep. rstep. rstep. rstep. rstep. rstep. rstep.
    apply (HQ f _ _ (S (S n1))); [done|lia| |].
    + apply (owned_node n n1 (S (S n1)) CYPHER_AST_PROPERTY None 0 [a]); [by apply owned_list_one| |done|lia].
      by apply owned_list_one, owned_leaf.
    + cbn. rewrite Hsh1. by subst.
Qed.

Lemma primary_yields (e : cexpr) (vs : list tok) : wf e = true -> (7 <= elevel e)%nat -> stops 7 (current vs) = true ->
  yields (parsePrimaryExpression fuel rec) (print e ++ vs) vs (ast_of e (current vs).2).
Proof.
  intros Hwf Hl Hs st n Hr. unfold stops in Hs. rewrite negb_true_iff, type_is_false, !not_elem_of_cons in Hs.
  destruct Hs as (Hs1 & Hs2 & _). eapply primary_read; [done|done|exact Hr|done|].
  intros f a st1 n1 Hr1 Hn1 Ho1 Hsh1. destruct f as [|f]; cbn [property_loop]; [rstep|]. rstep. rstep. rtype.
  rewrite decide_False by done. rstep. exists n1. done.
Qed.

Lemma unary_yields (e : cexpr) : wf e = true -> (6 <= elevel e)%nat -> forall f vs, stops 6 (current vs) = true ->
  yields (unary_loop fuel rec f) (print e ++ vs) vs (ast_of e (current vs).2).
Proof.
  induction e as [s|t|e IH|es|kvs|g args|e IH x|op e IH|b op l IHl r IHr|op e IH]; intros Hwf Hlev f vs Hs st n Hr;
    destruct f as [|f]; cbn [unary_loop]; try (by rstep); try (cbn in Hlev; destruct b; cbn in Hlev; lia); try (cbn in Hlev; lia).
  all: try (rstep; rstep;
    match goal with H : wf ?e = true |- _ => destruct (print_head e H) as (v & r & Ep & _ & _ & Hadd) end;
    rewrite (view_type _ _ Hview), Ep; cbn [app current hd fst]; rewrite Hadd by done;
    by eapply wpr_yields; [apply primary_yields|eassumption|]; eauto 10).
  cbn [wf] in Hwf. rewrite !andb_true_iff in Hwf. destruct Hwf as [[Hop Hl%Nat.leb_le] Hwf]. cbn [print app] in *.
  rstep. rstep. rtype. rewrite Hop. rstep. rstep. rstep. rstep. eapply wpr_yields; [by apply IH|done|].
  intros a st1 n1 Hr1 Hp1 Hn1 Ho1 Hsh1. rstep. eapply wpr_peeked_text; [done|]. rstep. unfold cypherAstCreateUnaryOp.
  rstep. rstep. rstep. rstep. exists (S n1). split; [done|]. split; [by apply Hkeep|]. split; [lia|]. split.
  - apply (owned_shared n n1 (S n1) CYPHER_AST_UNARY_OP _ 0 [a]); [by apply owned_list_one|done|done|lia].
  - cbn. by rewrite Hsh1.
Qed.

(** *** Left-associative operators *)

Section Level.
Context (b : blevel) (operand : PM CypherAst) (node : CypherToken -> CypherAst -> CypherAst -> PM CypherAst) (zError : string).

Definition operand_ok (k : nat) (m : PM CypherAst) : Prop := forall e vs, wf e = true -> (k <= elevel e)%nat ->
  stops k (current vs) = true -> yields m (print e ++ vs) vs (ast_of e (current vs).2).

(** The node of two operands that have been read. *)
Definition node_ok : Prop := forall op l r t pLeft pRight st vs n0 n1 n2 Q N,
  token_view t = op -> reads st vs n2 -> peeked st vs -> (n0 <= n1 <= n2)%nat ->
  owned n0 n1 pLeft -> owned n1 n2 pRight -> shape pLeft = ast_of l op.2 -> shape pRight = ast_of r (current vs).2 ->
  (forall x st' n', reads st' vs n' -> (n0 <= n')%nat -> owned n0 n' x ->
     shape x = ast_of (EBin b op l r) (current vs).2 -> Q x st') ->
  wpr (node t pLeft pRight) Q N st.

Hypothesis operand_yields : operand_ok (S (level b)) operand.
Hypothesis node_reads : node_ok.

Lemma level_above (e : cexpr) : (level b <= elevel e)%nat -> (forall op l r, e <> EBin b op l r) -> (S (level b) <= elevel e)%nat.
Proof.
  intros Hl Hne. destruct e as [| | | | | | | |b' op l r|]; cbn [elevel] in *; try (destruct b; cbn in *; lia).
  destruct (decide (level b = level b')) as [E|]; [|lia]. exfalso. apply (Hne op l r). by destruct b, b'.
Qed.

Lemma level_reads (e : cexpr) : wf e = true -> (level b <= elevel e)%nat ->
  forall vs st n Q N, stops (S (level b)) (current vs) = true -> reads st (print e ++ vs) n ->
  (forall f a st' n', reads st' vs n' -> (n <= n')%nat -> owned n n' a -> shape a = ast_of e (current vs).2 ->
     wpr (binary_loop (ops b) operand zError node f a) Q N st') ->
  wpr (pLeft <-y operand; binary_loop (ops b) operand zError node fuel pLeft) Q N st.
Proof.
  assert (Hfirst : forall e, wf e = true -> (S (level b) <= elevel e)%nat ->
    forall vs st n Q N, stops (S (level b)) (current vs) = true -> reads st (print e ++ vs) n ->
    (forall f a st' n', reads st' vs n' -> (n <= n')%nat -> owned n n' a -> shape a = ast_of e (current vs).2 ->
       wpr (binary_loop (ops b) operand zError node f a) Q N st') ->
    wpr (pLeft <-y operand; binary_loop (ops b) operand zError node fuel pLeft) Q N st).
  { intros e0 Hwf Hl vs st n Q N Hs Hr HQ. rstep. eapply wpr_yields; [by apply operand_yields|exact Hr|].
    intros a st1 n1 Hr1 _ Hn1 Ho1 Hsh1. by eapply HQ. }
  induction e as [s|t|e IH|es|kvs|g args|e IH x|op e IH|b' op l IHl r IHr|op e IH]; intros Hwf Hlev vs st n Q N Hs Hr HQ;
    try (by eapply Hfirst; [exact Hwf|apply level_above; [exact Hlev|done]|exact Hs|exact Hr|exact HQ]).
  destruct (decide (b' = b)) as [->|Hb].
  2: { eapply Hfirst; [exact Hwf|apply level_above; [exact Hlev|congruence]|exact Hs|exact Hr|exact HQ]. }
  cbn [wf] in Hwf. rewrite !andb_true_iff in Hwf. destruct Hwf as [[[[Hop Hll%Nat.leb_le] Hlr%Nat.leb_le] Hwl] Hwr].
  cbn [print] in Hr. rewrite <- app_assoc in Hr. cbn [app] in Hr.
  eapply IHl; [done|done| |exact Hr|]; [by apply op_stops|]. intros f a st1 n1 Hr1 Hn1 Ho1 Hsh1.
  destruct f as [|f]; cbn [binary_loop]; [rstep|]. rstep. rstep. pose proof Hview as Hop'. rtype. rewrite Hop. rstep. rstep. rstep. rstep.
  eapply wpr_yields; [by apply operand_yields|eassumption|]. intros c st2 n2 Hr2 Hp2 Hn2 Ho2 Hsh2. rstep.
  eapply (node_reads op l r); [done|done|done| |done|done|done|done|]; [lia|]. intros x st3 n3 Hr3 Hn3 Ho3 Hsh3. by eapply HQ.
Qed.

Lemma level_yields : operand_ok (level b) (pLeft <-y operand; binary_loop (ops b) operand zError node fuel pLeft).
Proof.
  intros e vs Hwf Hlev Hs st n Hr. eapply level_reads; [done|done| |exact Hr|]; [by eapply stops_mono; [|exact Hs]; lia|].
  intros f a st1 n1 Hr1 Hn1 Ho1 Hsh1. destruct f as [|f]; cbn [binary_loop]; [rstep|]. rstep. rstep. rtype.
  rewrite stops_op by done. rstep. exists n1. done.
Qed.
End Level.

Lemma two_owned (n0 n1 n2 : nat) (l r : CypherAst) :
  owned n0 n1 l -> owned n1 n2 r -> (n0 <= n1 <= n2)%nat -> owned_list n0 n2 [l; r].
Proof. intros Hl Hr Hn. eapply owned_list_cons; [done|by apply owned_list_one|lia|lia]. Qed.

Lemma or_node_ok : node_ok BOr or_node.
Proof.
  intros op l r t a c st vs n0 n1 n2 Q N Hop Hr Hp Hn Ha Hc Hsa Hsc HQ. unfold or_node, cypherAstCreateBinaryOp.
  rstep. rstep. rstep. rstep. rstep. eapply HQ; [done|lia| |].
  - apply (owned_shared n0 n2 (S n2) CYPHER_AST_BINARY_OP _ 0 [a; c]); [by eapply two_owned|done|done|lia].
  - cbn. by rewrite Hsa, Hsc.
Qed.

Lemma and_node_ok : node_ok BAnd and_node.
Proof.
  intros op l r t a c st vs n0 n1 n2 Q N Hop Hr Hp Hn Ha Hc Hsa Hsc HQ. unfold and_node, pair_node. rstep. rstep. rstep.
  eapply HQ; [done|lia| |].
  - apply (owned_after n0 n2); [by eapply two_owned|lia|done].
  - cbn. by rewrite Hsa, Hsc.
Qed.

Lemma comparison_node_ok : node_ok BCmp comparison_node.
Proof.
  intros op l r t a c st vs n0 n1 n2 Q N Hop Hr Hp Hn Ha Hc Hsa Hsc HQ. unfold comparison_node. rstep. rstep. rstep.
  eapply HQ; [done|lia| |].
  - apply (owned_after n0 n2); [by eapply two_owned|lia|done].
  - cbn. rewrite Hsa, Hsc. by rewrite <- Hop.
Qed.

Lemma arithmetic_node_ok (b : blevel) (type : CypherAstNodeType) :
  (b = BAdd /\ type = CYPHER_AST_ADDITIVE) \/ (b = BMul /\ type = CYPHER_AST_MULTIPLICATIVE) -> node_ok b (arithmetic_node type).
Proof.
  intros Hb op l r t a c st vs n0 n1 n2 Q N Hop Hr Hp Hn Ha Hc Hsa Hsc HQ. unfold arithmetic_node. rstep. rstep. rstep.
  eapply wpr_peeked_text; [by apply Hkeep|]. rstep. eapply HQ; [done|lia| |].
  - apply (owned_after n0 n2); [by eapply two_owned|lia|]. by destruct Hb as [[-> ->]|[-> ->]].
  - cbn. rewrite Hsa, Hsc. by destruct Hb as [[-> ->]|[-> ->]].
Qed.

Lemma multiplicative_yields : operand_ok (level BMul) (parseMultiplicativeExpression fuel rec).
Proof. apply level_yields; [|by apply arithmetic_node_ok; right]. intros e vs Hwf Hl Hs. by apply unary_yields. Qed.

Lemma additive_yields : operand_ok (level BAdd) (parseAdditiveExpression fuel rec).
Proof. apply level_yields; [apply multiplicative_yields|by apply arithmetic_node_ok; left]. Qed.

Lemma comparison_yields : operand_ok (level BCmp) (parseComparisonExpression fuel rec).
Proof. apply level_yields; [apply additive_yields|apply comparison_node_ok]. Qed.

Lemma not_yields (e : cexpr) : wf e = true -> (2 <= elevel e)%nat -> forall f vs, stops 2 (current vs) = true ->
  yields (not_loop fuel rec f) (print e ++ vs) vs (ast_of e (current vs).2).
Proof.
  assert (Hcmp : forall e, wf e = true -> (3 <= elevel e)%nat -> forall f vs, stops 2 (current vs) = true ->
    yields (not_loop fuel rec f) (print e ++ vs) vs (ast_of e (current vs).2)).
  { intros e0 Hwf Hl f vs Hs st n Hr. destruct f as [|f]; cbn [not_loop]; [rstep|]. rstep. rstep.
    destruct (print_head e0 Hwf) as (v & r & Ep & _ & Hnot & _).
    rewrite (view_type _ _ Hview), Ep. cbn [app current hd]. rewrite decide_False by auto.
    eapply wpr_yields; [apply comparison_yields; [done|done|by eapply stops_mono; [|exact Hs]; cbn; lia]|eassumption|]. eauto 10. }
  induction e as [s|t|e IH|es|kvs|g args|e IH x|op e IH|b op l IHl r IHr|op e IH]; intros Hwf Hlev f vs Hs;
    try (by apply Hcmp; [done|cbn; lia|done]).
  { apply Hcmp; [done| |done]. destruct b; cbn in *; lia. }
  cbn [wf] in Hwf. apply andb_true_iff in Hwf as [Hl%Nat.leb_le Hwf]. cbn [print app]. intros st n Hr.
  destruct f as [|f]; cbn [not_loop]; [rstep|]. rstep. rstep. rtype. rdecide. rstep. rstep. rstep. rstep.
  eapply wpr_yields; [by apply IH|eassumption|]. intros a st1 n1 Hr1 Hp1 Hn1 Ho1 Hsh1. rstep. rstep. rstep.
  exists (S n1). split; [done|]. split; [by apply Hkeep|]. split; [lia|]. split.
  - apply (owned_after n n1); [by apply owned_list_one|lia|done].
  - cbn. by rewrite Hsh1.
Qed.

Lemma and_yields : operand_ok (level BAnd) (parseAndExpression fuel rec).
Proof. apply level_yields; [|apply and_node_ok]. intros e vs Hwf Hl Hs. by apply not_yields. Qed.

Lemma or_yields : operand_ok (level BOr) (parseOrExpression fuel rec).
Proof. apply level_yields; [apply and_yields|apply or_node_ok]. Qed.

End ExpressionsRead.

Lemma expression_yields (fuel : nat) (e : cexpr) (vs : list tok) : wf e = true -> stops 0 (current vs) = true ->
  yields (parseExpression fuel) (print e ++ vs) vs (ast_of e (current vs).2).
Proof.
  revert e vs. induction fuel as [|fuel IH]; intros e vs Hwf Hs; [by intros st n Hr|].
  apply or_yields; [exact IH|done|cbn; lia|done].
Qed.
