(* ===== verification/CypherQuery.v ===== *)
(** * Cypher queries are parsed to their trees

    Patterns, clauses and queries: how they are written, the tree the parser
    builds for them, and the theorem on the text of a query.  After the
    expressions of [CypherExpr]. *)

From Stdlib Require Import String ZArith Lia.
From stdpp Require Import base option list numbers.
From S2P Require Import Prelude Codec DefParser Values Scalar CypherLexer CypherParser CypherParseSpec CypherExpr.

Local Open Scope Z_scope.
Local Open Scope parser_scope.

(** ** Syntax *)

Definition cprops : Type := list (bytes * cexpr).

Record cnode := MkCNode { cn_var : option bytes; cn_label : option bytes; cn_props : option cprops }.

(** [-[]-], [-[]->], [<-[]] and [<-[]->]. *)
Inductive cdir := DNone | DRight | DLeft | DBoth.

Record crel := MkCRel { cr_var : option bytes; cr_type : option bytes; cr_props : option cprops; cr_dir : cdir }.

Record cpattern := MkCPattern { cp_start : cnode; cp_steps : list (crel * cnode) }.

Inductive cclause :=
| CMatch (p : cpattern)
| CCreate (p : cpattern)
| CMerge (p : cpattern)
| CSet (e : cexpr)
| CDelete (e : cexpr).

Record cquery := MkCQuery { cq_clause : cclause; cq_where : option cexpr; cq_return : option cexpr }.

(** ** Tokens *)

Definition t_minus : tok := (CYPHER_TOK_MINUS, bstr "-").
Definition t_left : tok := (CYPHER_TOK_ARROW_LEFT, bstr "<-").
Definition t_right : tok := (CYPHER_TOK_ARROW_RIGHT, bstr "->").

Definition print_var (v : option bytes) : list tok := match v with Some s => [t_name s] | None => [] end.
Definition print_label (l : option bytes) : list tok := match l with Some s => [t_colon; t_name s] | None => [] end.
Definition print_prop (kv : bytes * cexpr) : list tok := t_name kv.1 :: t_colon :: print kv.2.
Definition print_map (kvs : cprops) : list tok := t_lbrace :: commas (map print_prop kvs) ++ [t_rbrace].
Definition print_props (p : option cprops) : list tok := match p with Some kvs => print_map kvs | None => [] end.

Definition print_node (c : cnode) : list tok :=
  t_lparen :: print_var (cn_var c) ++ print_label (cn_label c) ++ print_props (cn_props c) ++ [t_rparen].

Definition dir_start (d : cdir) : tok := match d with DNone | DRight => t_minus | DLeft | DBoth => t_left end.
Definition dir_end (d : cdir) : list tok := match d with DNone => [t_minus] | DRight | DBoth => [t_right] | DLeft => [] end.
Definition dir_flag (d : cdir) : Z := match d with DRight => 1 | DLeft => -1 | _ => 0 end.

Definition print_rel (r : crel) : list tok :=
  dir_start (cr_dir r) :: t_lbracket :: print_var (cr_var r) ++ print_label (cr_type r) ++ print_props (cr_props r) ++
  t_rbracket :: dir_end (cr_dir r).

Definition print_steps (l : list (crel * cnode)) : list tok := concat (map (fun s => print_rel s.1 ++ print_node s.2) l).
Definition print_pattern (p : cpattern) : list tok := print_node (cp_start p) ++ print_steps (cp_steps p).

Definition print_clause (c : cclause) : list tok :=
  match c with
  | CMatch p => (CYPHER_TOK_MATCH, bstr "MATCH") :: print_pattern p
  | CCreate p => (CYPHER_TOK_CREATE, bstr "CREATE") :: print_pattern p
  | CMerge p => (CYPHER_TOK_MERGE, bstr "MERGE") :: print_pattern p
  | CSet e => (CYPHER_TOK_SET, bstr "SET") :: print e
  | CDelete e => (CYPHER_TOK_DELETE, bstr "DELETE") :: print e
  end.

Definition t_where : tok := (CYPHER_TOK_WHERE, bstr "WHERE").
Definition t_return : tok := (CYPHER_TOK_RETURN, bstr "RETURN").

Definition print_where (w : option cexpr) : list tok := match w with Some e => t_where :: print e | None => [] end.
Definition print_return (r : option cexpr) : list tok := match r with Some e => t_return :: print e | None => [] end.

Definition print_query (q : cquery) : list tok :=
  print_clause (cq_clause q) ++ print_where (cq_where q) ++ print_return (cq_return q).

(** ** Trees *)

Definition prop_tree (kv : bytes * cexpr) (next : bytes) : tree :=
  Node CYPHER_AST_PROPERTY_PAIR (Some kv.1) 0 [ast_of kv.2 next].
Definition map_tree (kvs : cprops) : tree := Node CYPHER_AST_MAP None 0 (each prop_tree t_rbrace.2 kvs).

Definition var_trees (v : option bytes) : list tree := match v with Some s => [ident s] | None => [] end.
Definition label_trees (l : option bytes) : list tree := match l with Some s => [Node CYPHER_AST_LABELS (Some s) 0 []] | None => [] end.
Definition props_trees (p : option cprops) : list tree := match p with Some kvs => [map_tree kvs] | None => [] end.

Definition node_tree (c : cnode) : tree :=
  Node CYPHER_AST_NODE_PATTERN None 0 (var_trees (cn_var c) ++ label_trees (cn_label c) ++ props_trees (cn_props c)).
Definition rel_tree (r : crel) : tree :=
  Node CYPHER_AST_REL_PATTERN None (dir_flag (cr_dir r)) (var_trees (cr_var r) ++ label_trees (cr_type r) ++ props_trees (cr_props r)).
Definition pattern_tree (p : cpattern) : tree :=
  Node CYPHER_AST_PATTERN None 0 (node_tree (cp_start p) :: concat (map (fun s => [rel_tree s.1; node_tree s.2]) (cp_steps p))).

Definition clause_tree (c : cclause) (next : bytes) : tree :=
  match c with
  | CMatch p => Node CYPHER_AST_MATCH None 0 [pattern_tree p]
  | CCreate p => Node CYPHER_AST_CREATE None 0 [pattern_tree p]
  | CMerge p => Node CYPHER_AST_MERGE None 0 [pattern_tree p]
  | CSet e => Node CYPHER_AST_SET None 0 [ast_of e next]
  | CDelete e => Node CYPHER_AST_DELETE None 0 [ast_of e next]
  end.

Definition where_trees (w : option cexpr) (next : bytes) : list tree :=
  match w with Some e => [Node CYPHER_AST_WHERE None 0 [ast_of e next]] | None => [] end.
Definition return_trees (r : option cexpr) : list tree :=
  match r with
  | Some e => [Node CYPHER_AST_RETURN None 0 [Node CYPHER_AST_PROJECTION_LIST None 0
                [Node CYPHER_AST_PROJECTION_ITEM None 0 [ast_of e []]]]]
  | None => []
  end.

Definition query_tree (q : cquery) : tree :=
  let after_clause := (current (print_where (cq_where q) ++ print_return (cq_return q))).2 in
  let after_where := (current (print_return (cq_return q))).2 in
  Node CYPHER_AST_QUERY None 0 [Node CYPHER_AST_SINGLE_QUERY None 0
    (clause_tree (cq_clause q) after_clause :: where_trees (cq_where q) after_where ++ return_trees (cq_return q))].

(** ** The trees that are meant

    An operator node with the text of its operator and each operand once.  The
    parser departs from it at three places: the node of an arithmetic operator
    or a sign has the text of the token after its last operand, and the operands
    of OR and of a sign are there twice. *)

Fixpoint meant (e : cexpr) : tree :=
  match e with
  | EName s => ident s
  | ELit t => Node CYPHER_AST_LITERAL (Some t.2) 0 []
  | EParen e => meant e
  | EList es => Node CYPHER_AST_ARRAY None 0 (map meant es)
  | EMap kvs =>
      Node CYPHER_AST_OBJECT None 0
        (map (fun kv => Node CYPHER_AST_PROPERTY_PAIR None 0 [Node CYPHER_AST_LITERAL (Some kv.1.2) 0 []; meant kv.2]) kvs)
  | ECall f args => Node CYPHER_AST_FUNCTION_CALL None 0 (ident f :: map meant args)
  | EProp e x => Node CYPHER_AST_PROPERTY None 0 [meant e; ident x]
  | EUnary op e => Node CYPHER_AST_UNARY_OP (Some op.2) 0 [meant e]
  | EBin b op l r =>
      let '(type, text) :=
        match b with
        | BOr => (CYPHER_AST_BINARY_OP, Some (bstr "OR"))
        | BAnd => (CYPHER_AST_AND, None)
        | BCmp => (CYPHER_AST_COMPARISON, Some op.2)
        | BAdd => (CYPHER_AST_ADDITIVE, Some op.2)
        | BMul => (CYPHER_AST_MULTIPLICATIVE, Some op.2)
        end in
      Node type text 0 [meant l; meant r]
  | ENot _ e => Node CYPHER_AST_NOT None 0 [meant e]
  end.

Definition meant_prop (kv : bytes * cexpr) : tree := Node CYPHER_AST_PROPERTY_PAIR (Some kv.1) 0 [meant kv.2].
Definition meant_props (p : option cprops) : list tree :=
  match p with Some kvs => [Node CYPHER_AST_MAP None 0 (map meant_prop kvs)] | None => [] end.
Definition meant_node (c : cnode) : tree :=
  Node CYPHER_AST_NODE_PATTERN None 0 (var_trees (cn_var c) ++ label_trees (cn_label c) ++ meant_props (cn_props c)).
Definition meant_rel (r : crel) : tree :=
  Node CYPHER_AST_REL_PATTERN None (dir_flag (cr_dir r)) (var_trees (cr_var r) ++ label_trees (cr_type r) ++ meant_props (cr_props r)).
Definition meant_pattern (p : cpattern) : tree :=
  Node CYPHER_AST_PATTERN None 0 (meant_node (cp_start p) :: concat (map (fun s => [meant_rel s.1; meant_node s.2]) (cp_steps p))).
Definition meant_clause (c : cclause) : tree :=
  match c with
  | CMatch p => Node CYPHER_AST_MATCH None 0 [meant_pattern p]
  | CCreate p => Node CYPHER_AST_CREATE None 0 [meant_pattern p]
  | CMerge p => Node CYPHER_AST_MERGE None 0 [meant_pattern p]
  | CSet e => Node CYPHER_AST_SET None 0 [meant e]
  | CDelete e => Node CYPHER_AST_DELETE None 0 [meant e]
  end.
Definition meant_query (q : cquery) : tree :=
  Node CYPHER_AST_QUERY None 0 [Node CYPHER_AST_SINGLE_QUERY None 0
    (meant_clause (cq_clause q)
     :: match cq_where q with Some e => [Node CYPHER_AST_WHERE None 0 [meant e]] | None => [] end
     ++ match cq_return q with
        | Some e => [Node CYPHER_AST_RETURN None 0 [Node CYPHER_AST_PROJECTION_LIST None 0
                      [Node CYPHER_AST_PROJECTION_ITEM None 0 [meant e]]]]
        | None => []
        end)].

(** A tree without what the parser gets wrong: the texts of arithmetic operators
    and signs, and the second copies of operands. *)
Definition text_wrong (type : CypherAstNodeType) : bool :=
  bool_decide (type ∈ [CYPHER_AST_ADDITIVE; CYPHER_AST_MULTIPLICATIVE; CYPHER_AST_UNARY_OP]).
Definition operand_count (type : CypherAstNodeType) (n : nat) : nat :=
  match type with CYPHER_AST_BINARY_OP => 2 | CYPHER_AST_UNARY_OP => 1 | _ => n end.
Fixpoint blur (t : tree) : tree :=
  match t with
  | Node type value flags children =>
      Node type (if text_wrong type then None else value) flags (take (operand_count type (length children)) (map blur children))
  end.

(** No node of a type the parser gets wrong. *)
Fixpoint exact (t : tree) : bool :=
  match t with Node type _ _ children => negb (text_wrong type) && negb (shared_type type) && forallb exact children end.

(** What the tree of the parser has of the one that is meant. *)
Definition stands_for (t u : tree) : Prop := blur t = blur u /\ plain t = plain u /\ (exact u = true -> t = u).

Definition all_stand_for (ts us : list tree) : Prop := Forall2 stands_for ts us.

Lemma stands_refl (t : tree) : stands_for t t.
Proof. done. Qed.

Lemma all_stand_refl (ts : list tree) : all_stand_for ts ts.
Proof. unfold all_stand_for. induction ts; by constructor. Qed.

Lemma all_stand_app (ts us ts' us' : list tree) : all_stand_for ts us -> all_stand_for ts' us' -> all_stand_for (ts ++ ts') (us ++ us').
Proof. apply Forall2_app. Qed.

Lemma one_stands (t u : tree) : stands_for t u -> all_stand_for [t] [u].
Proof. intros H. by apply Forall2_cons. Qed.

Lemma two_stand (t t' u u' : tree) : stands_for t u -> stands_for t' u' -> all_stand_for [t; t'] [u; u'].
Proof. intros H H'. apply Forall2_cons; [done|]. by apply one_stands. Qed.

(** Same type, text and flags, operands that stand for each other. *)
Lemma node_stands (type : CypherAstNodeType) (value : option bytes) (flags : Z) (ts us : list tree) :
  all_stand_for ts us -> stands_for (Node type value flags ts) (Node type value flags us).
Proof.
  intros H. assert (E : length ts = length us /\ map blur ts = map blur us /\ forallb plain ts = forallb plain us /\ (forallb exact us = true -> ts = us)).
  { induction H as [|t u ts us (H1 & H2 & H3) _ (E0 & E1 & E2 & E3)]; [done|]. cbn [length map forallb]. rewrite H1, H2, E0, E1, E2. split; [done|].
    split; [done|]. split; [done|]. intros [Ha Hb]%andb_true_iff. by rewrite H3, E3. }
  destruct E as (E0 & E1 & E2 & E3). split; [|split]; cbn [blur plain exact]; rewrite ?E0, ?E1, ?E2; [done|done|].
  intros [_ Hx]%andb_true_iff. by rewrite E3.
Qed.

(** A node with the text of another token. *)
Lemma text_stands (type : CypherAstNodeType) (v v' : option bytes) (t t' u u' : tree) :
  text_wrong type = true -> shared_type type = false -> stands_for t u -> stands_for t' u' ->
  stands_for (Node type v 0 [t; t']) (Node type v' 0 [u; u']).
Proof.
  intros Hw Hs (H1 & H2 & _) (H1' & H2' & _). split; [|split]; cbn [blur plain exact map forallb length]; rewrite ?Hw, ?H1, ?H2, ?H1', ?H2'; done.
Qed.

Lemma each_stands {A : Type} (f : A -> bytes -> tree) (g : A -> tree) (last : bytes) (l : list A) :
  Forall (fun x => forall next, stands_for (f x next) (g x)) l -> all_stand_for (each f last l) (map g l).
Proof. unfold all_stand_for. induction 1 as [|x l Hx _ IH]; cbn; constructor; auto. Qed.

Lemma ast_stands : forall (e : cexpr) (next : bytes), stands_for (ast_of e next) (meant e).
Proof.
  fix IH 1. intros [s|t|e|es|kvs|f args|e x|op e|b op l r|op e] next; cbn [ast_of meant].
  - done.
  - done.
  - apply IH.
  - apply node_stands, each_stands. induction es; constructor; [apply IH|done].
  - apply node_stands, each_stands. induction kvs as [|kv kvs IHk]; constructor; [|done]. intros next'. by apply node_stands, two_stand.
  - apply node_stands. constructor; [done|]. apply each_stands. induction args; constructor; [apply IH|done].
  - by apply node_stands, two_stand.
  - destruct (IH e next) as (H1 & H2 & _). split; [|split]; cbn; rewrite ?H1; done.
  - pose proof (IH l op.2) as Hl. pose proof (IH r next) as Hr. destruct b; cbn zeta beta iota; [|by apply node_stands, two_stand..|by apply text_stands|by apply text_stands].
    destruct Hl as (H1 & H2 & _), Hr as (H1' & H2' & _). split; [|split]; cbn; rewrite ?H1, ?H1'; done.
  - apply node_stands, one_stands, IH.
Qed.

Lemma pattern_stands (p : cpattern) : stands_for (pattern_tree p) (meant_pattern p).
Proof.
  assert (Hp : forall o, all_stand_for (props_trees o) (meant_props o)).
  { intros [kvs|]; [|constructor]. cbn. constructor; [|constructor]. apply node_stands, each_stands. apply list.Forall_forall. intros kv _ next.
    apply node_stands. constructor; [apply ast_stands|constructor]. }
  assert (Hn : forall c, stands_for (node_tree c) (meant_node c)).
  { intros c. apply node_stands, all_stand_app; [apply all_stand_refl|]. apply all_stand_app; [apply all_stand_refl|apply Hp]. }
  apply node_stands. constructor; [apply Hn|]. induction (cp_steps p) as [|[r c] l IH]; cbn; [constructor|].
  constructor; [|constructor; [apply Hn|exact IH]]. apply node_stands, all_stand_app; [apply all_stand_refl|].
  apply all_stand_app; [apply all_stand_refl|apply Hp].
Qed.

Lemma query_stands (q : cquery) : stands_for (query_tree q) (meant_query q).
Proof.
  apply node_stands. constructor; [|constructor]. apply node_stands. constructor.
  - destruct (cq_clause q); apply node_stands; (constructor; [|constructor]); first [apply pattern_stands|apply ast_stands].
  - apply all_stand_app.
    + destruct (cq_where q); [|constructor]. constructor; [|constructor]. apply node_stands. constructor; [apply ast_stands|constructor].
    + destruct (cq_return q); [|constructor]. constructor; [|constructor]. do 3 (apply node_stands; constructor; [|constructor]). apply ast_stands.
Qed.

(** ** Well-formed queries *)

Definition map_wf (kvs : cprops) : bool := forallb (fun kv => wf kv.2) kvs.
Definition props_wf (p : option cprops) : bool := match p with Some kvs => map_wf kvs | None => true end.
Definition pattern_wf (p : cpattern) : bool :=
  props_wf (cn_props (cp_start p)) && forallb (fun s => props_wf (cr_props s.1) && props_wf (cn_props s.2)) (cp_steps p).
Definition clause_wf (c : cclause) : bool :=
  match c with
  | CMatch p | CCreate p | CMerge p => pattern_wf p
  | CSet e | CDelete e => wf e
  end.
Definition option_wf (e : option cexpr) : bool := match e with Some e => wf e | None => true end.
Definition query_wf (q : cquery) : bool := clause_wf (cq_clause q) && option_wf (cq_where q) && option_wf (cq_return q).

(** ** Nodes under construction *)

(** A node created at [x], its children so far. *)
Definition partial (x n : nat) (type : CypherAstNodeType) (ts : list tree) (a : CypherAst) : Prop :=
  exists cs, a = MkAst x type None 0 cs /\ owned_list (S x) n cs /\ map shape cs = ts /\ (S x <= n)%nat.

Lemma partial_new (x : nat) (type : CypherAstNodeType) : partial x (S x) type [] (MkAst x type None 0 []).
Proof. exists []. split; [done|]. split; [apply owned_list_nil|done]. Qed.

Lemma partial_add (x n n' : nat) (type : CypherAstNodeType) (ts : list tree) (t : tree) (a c : CypherAst) :
  partial x n type ts a -> owned n n' c -> (n <= n')%nat -> shape c = t -> partial x n' type (ts ++ [t]) (cypherAstAddChild a c).
Proof.
  intros (cs & -> & Ho & Hs & Hx) Hc Hn Ht. exists (cs ++ [c]). split; [done|]. split; [|split; [|lia]].
  - eapply owned_list_app; [done|by apply owned_list_one|lia|lia].
  - by rewrite map_app, Hs, <- Ht.
Qed.

Lemma partial_done (x n : nat) (type : CypherAstNodeType) (ts : list tree) (a : CypherAst) (f : Z) :
  partial x n type ts a -> shared_type type = false ->
  owned x n (ast_set_flags a f) /\ shape (ast_set_flags a f) = Node type None f ts.
Proof.
  intros (cs & -> & Ho & Hs & Hx) Ht. split; [apply (owned_before x n); [done|lia|done]|]. cbn. by rewrite Hs.
Qed.

Lemma partial_closed (x n : nat) (type : CypherAstNodeType) (ts : list tree) (a : CypherAst) :
  partial x n type ts a -> shared_type type = false -> owned x n a /\ shape a = Node type None 0 ts.
Proof.
  intros Hp Ht. destruct (partial_done x n type ts a 0 Hp Ht) as [H1 H2]. destruct Hp as (cs & -> & _). done.
Qed.

Lemma partial_range (x n : nat) (type : CypherAstNodeType) (ts : list tree) (a : CypherAst) : partial x n type ts a -> (x < n)%nat.
Proof. intros (cs & _ & _ & _ & Hx). lia. Qed.

(** ** Patterns *)

(** The parser reads up to [vs'] and builds [s]. *)
Definition builds (m : PM CypherAst) (vs vs' : list tok) (s : tree) : Prop :=
  forall st n Q N, reads st vs n ->
  (forall a st' n', reads st' vs' n' -> (n <= n')%nat -> owned n n' a -> shape a = s -> Q a st') -> wpr m Q N st.

Lemma yields_builds (m : PM CypherAst) (vs vs' : list tok) (s : tree) : yields m vs vs' s -> builds m vs vs' s.
Proof. intros Hy st n Q N Hr HQ. eapply wpr_yields; [done|done|]. intros. by eapply HQ. Qed.

(** The parser adds the trees [ts'] to a node under construction. *)
Definition extends (m : CypherAst -> PM CypherAst) (vs vs' : list tok) (ts' : list tree) : Prop :=
  forall x n type ts a st Q N, partial x n type ts a -> reads st vs n ->
  (forall a' st' n', reads st' vs' n' -> partial x n' type (ts ++ ts') a' -> Q a' st') -> wpr (m a) Q N st.

Lemma variable_extends (v : option bytes) (vs : list tok) :
  (current vs).1 <> CYPHER_TOK_IDENTIFIER -> extends optional_variable (print_var v ++ vs) vs (var_trees v).
Proof.
  intros Hne x n type ts a st Q N Hp Hr HQ. unfold optional_variable. rstep. rstep. destruct v as [s|]; cbn [print_var app] in *; rtype.
  - rdecide. rstep. rstep. rstep. rstep. rstep. eapply HQ; [done|]. eapply partial_add; [done|by apply owned_leaf|lia|]. cbn. by subst.
  - rewrite decide_False by done. rstep. eapply HQ; [done|]. by rewrite app_nil_r.
Qed.

Lemma labels_extend (l : option bytes) (vs : list tok) :
  (current vs).1 <> CYPHER_TOK_COLON -> extends node_labels (print_label l ++ vs) vs (label_trees l).
Proof.
  intros Hne x n type ts a st Q N Hp Hr HQ. unfold node_labels, parseNodeLabels. rstep. rstep. rstep. rstep.
  destruct l as [s|]; cbn [print_label app] in *; rtype.
  - rdecide. rstep. rstep. rstep. rstep. rstep. rstep. rstep. eapply HQ; [done|].
    eapply partial_add; [done|by apply owned_leaf|lia|]. cbn. by subst.
  - rewrite decide_False by done. rstep. rstep. eapply wpr_no_error; [eassumption|]. rstep. eapply HQ; [done|]. by rewrite app_nil_r.
Qed.

Lemma rel_type_extends (pPattern : CypherAst) (l : option bytes) (vs : list tok) :
  (current vs).1 <> CYPHER_TOK_COLON -> extends (rel_type pPattern) (print_label l ++ vs) vs (label_trees l).
Proof.
  intros Hne x n type ts a st Q N Hp Hr HQ. unfold rel_type. rstep. rstep. destruct l as [s|]; cbn [print_label app] in *; rtype.
  - rdecide. rstep. rstep. rstep. rstep. rstep. rstep. rstep. rstep. eapply HQ; [done|].
    eapply partial_add; [done|by apply owned_leaf|lia|]. cbn. by subst.
  - rewrite decide_False by done. rstep. eapply HQ; [done|]. by rewrite app_nil_r.
Qed.

Section PatternsRead.
Context (fuel : nat).

Lemma property_map_loop_extends (kvs : cprops) (f : nat) (vs : list tok) :
  kvs <> [] -> map_wf kvs = true ->
  extends (property_map_loop fuel f) (commas (map print_prop kvs) ++ t_rbrace :: vs) (t_rbrace :: vs) (each prop_tree t_rbrace.2 kvs).
Proof.
  intros Hne Hwf. revert f. induction kvs as [|[k e] kvs IH]; [done|]. clear Hne. cbn [map_wf forallb snd] in Hwf.
  apply andb_true_iff in Hwf as [He Hwf]. intros f x n type ts a st Q N Hp Hr HQ. destruct f as [|f]; cbn [property_map_loop]; [rstep|].
  rewrite commas_cons in Hr. cbn [print_prop fst snd app] in Hr. set (rest := after_item print_prop kvs t_rbrace vs) in *.
  assert (Hstop : stops 0 (current rest) = true) by (by destruct kvs).
  rstep. rstep. rstep. rstep. rstep. rstep. rstep. rstep. eapply wpr_yields; [by apply (expression_yields fuel e rest)|done|].
  intros c st1 n1 Hr1 _ Hn1 Ho1 Hsh1. rstep. rstep. rstep. rstep.
  set (p := cypherAstAddChild (cypherAstSetValue _ _) c).
  assert (Hpair : partial x (S n1) type (ts ++ [prop_tree (k, e) (current rest).2]) (cypherAstAddChild a p)).
  { eapply partial_add; [done| |lia|].
    - apply (owned_after n n1); [by apply owned_list_one|lia|done].
    - unfold p, prop_tree. cbn. rewrite Hsh1. by subst. }
  rtype. destruct kvs as [|kv kvs].
  - cbn [rest after_item current hd fst]. rewrite decide_False by done. rstep. by eapply HQ.
  - cbn [rest after_item current hd fst]. rewrite decide_True by done. rstep. rstep.
    eapply IH; [done|done|exact Hpair|eassumption|]. intros a' st9 n' Hr' Hp'. eapply HQ; [done|]. by rewrite <- app_assoc in Hp'.
Qed.

Lemma property_map_builds (kvs : cprops) (vs : list tok) :
  map_wf kvs = true -> builds (parsePropertyMap fuel) (print_map kvs ++ vs) vs (map_tree kvs).
Proof.
  intros Hwf st n Q N Hr HQ. unfold parsePropertyMap. unfold print_map in Hr. cbn [app] in Hr. rewrite <- app_assoc in Hr. cbn [app] in Hr.
  rstep. rstep. rstep. rstep. rstep. rstep. destruct kvs as [|kv kvs].
  - cbn [map commas app] in *. rtype. rdecide. rstep. rstep. rstep. eapply HQ; [done|lia|by apply owned_leaf|done].
  - assert (Hne : (current (commas (map print_prop (kv :: kvs)) ++ t_rbrace :: vs)).1 <> CYPHER_TOK_RBRACE) by (by rewrite commas_cons).
    rewrite (view_type _ _ Hview), decide_False by done. rstep.
    eapply (property_map_loop_extends (kv :: kvs)); [done|done|apply partial_new|eassumption|]. intros a st3 n3 Hr3 Hp3.
    rstep. rstep. rstep. rstep. pose proof (partial_range _ _ _ _ _ Hp3). apply partial_closed in Hp3 as [Ho Hs]; [|done].
    eapply HQ; [done|lia|done|done].
Qed.

Lemma node_properties_extend (p : option cprops) (vs : list tok) :
  props_wf p = true -> (current vs).1 <> CYPHER_TOK_LBRACE -> extends (node_properties fuel) (print_props p ++ vs) vs (props_trees p).
Proof.
  intros Hwf Hne x n type ts a st Q N Hp Hr HQ. unfold node_properties. rstep. rstep. destruct p as [kvs|]; cbn [print_props app] in *.
  - unfold print_map in *. cbn [app] in *. rtype. rdecide. rstep. rstep. eapply (property_map_builds kvs vs); [done|eassumption|].
    intros c st1 n1 Hr1 Hn1 Ho1 Hsh1. rstep. eapply HQ; [done|]. by eapply partial_add.
  - rtype. rewrite decide_False by done. rstep. eapply HQ; [done|]. by rewrite app_nil_r.
Qed.

Lemma rel_properties_extend (pPattern : CypherAst) (p : option cprops) (vs : list tok) :
  props_wf p = true -> (current vs).1 <> CYPHER_TOK_LBRACE -> extends (rel_properties fuel pPattern) (print_props p ++ vs) vs (props_trees p).
Proof.
  intros Hwf Hne x n type ts a st Q N Hp Hr HQ. unfold rel_properties. rstep. rstep. destruct p as [kvs|]; cbn [print_props app] in *.
  - unfold print_map in *. cbn [app] in *. rtype. rdecide. rstep. rstep. eapply (property_map_builds kvs vs); [done|eassumption|].
    intros c st1 n1 Hr1 Hn1 Ho1 Hsh1. rstep. eapply HQ; [done|]. by eapply partial_add.
  - rtype. rewrite decide_False by done. rstep. eapply HQ; [done|]. by rewrite app_nil_r.
Qed.

(** What follows an optional part. *)
Lemma props_head (p : option cprops) (v : tok) (vs : list tok) (t : CypherTokenType) :
  v.1 <> t -> CYPHER_TOK_LBRACE <> t -> (current (print_props p ++ v :: vs)).1 <> t.
Proof. intros Hv Ht. by destruct p. Qed.

Lemma label_head (l : option bytes) (p : option cprops) (v : tok) (vs : list tok) (t : CypherTokenType) :
  v.1 <> t -> CYPHER_TOK_LBRACE <> t -> CYPHER_TOK_COLON <> t -> (current (print_label l ++ print_props p ++ v :: vs)).1 <> t.
Proof. intros Hv Ht Hc. destruct l; [done|]. by apply props_head. Qed.

Lemma node_builds (c : cnode) (vs : list tok) :
  props_wf (cn_props c) = true -> builds (parseNodePattern fuel) (print_node c ++ vs) vs (node_tree c).
Proof.
  intros Hwf st n Q N Hr HQ. unfold parseNodePattern. unfold print_node in Hr. cbn [app] in Hr. rewrite <- !app_assoc in Hr. cbn [app] in Hr.
  rstep. rstep. rstep. rstep. rstep. rstep.
  eapply variable_extends; [|apply partial_new|eassumption|]; [by apply label_head|]. intros a1 st1 n1 Hr1 Hp1. rstep.
  eapply labels_extend; [|eassumption|eassumption|]; [by apply props_head|]. intros a2 st2 n2 Hr2 Hp2. rstep.
  eapply node_properties_extend; [done| |eassumption|eassumption|]; [done|]. intros a3 st3 n3 Hr3 Hp3.
  rstep. rstep. rstep. rstep. pose proof (partial_range _ _ _ _ _ Hp3). apply partial_closed in Hp3 as [Ho Hs]; [|done].
  eapply HQ; [done|lia|done|]. rewrite Hs. unfold node_tree. cbn [app]. by rewrite <- app_assoc.
Qed.

(** The end of a relationship, and the node after it. *)
Lemma rel_end_read (d : cdir) (c : cnode) (vs : list tok) (st : pstate) (n : nat) (Q : Z -> pstate -> Prop) (N : pstate -> Prop) :
  reads st (dir_end d ++ print_node c ++ vs) n -> (forall st', reads st' (print_node c ++ vs) n -> Q (dir_flag d) st') ->
  wpr (rel_end (match d with DNone | DRight => 0 | DLeft | DBoth => -1 end)) Q N st.
Proof.
  intros Hr HQ. unfold rel_end. rstep. rstep. destruct d; cbn [dir_end app] in *; unfold print_node in Hview; rtype; rdecide; cbn [Z.eqb Pos.eqb];
    repeat rstep; by apply HQ.
Qed.

Lemma rel_builds (pPattern : CypherAst) (r : crel) (c : cnode) (vs : list tok) :
  props_wf (cr_props r) = true ->
  builds (parse_rel fuel pPattern (match cr_dir r with DNone | DRight => 0 | DLeft | DBoth => -1 end))
    (tail (print_rel r) ++ print_node c ++ vs) (print_node c ++ vs) (rel_tree r).
Proof.
  intros Hwf st n Q N Hr HQ. unfold parse_rel. unfold print_rel in Hr. cbn [tail app] in Hr. rewrite <- !app_assoc in Hr. cbn [app] in Hr.
  rstep. rstep. rstep. rstep. rstep. rstep.
  eapply variable_extends; [|apply partial_new|eassumption|]; [by apply label_head|]. intros a1 st1 n1 Hr1 Hp1. rstep.
  eapply rel_type_extends; [|eassumption|eassumption|]; [by apply props_head|]. intros a2 st2 n2 Hr2 Hp2. rstep.
  eapply rel_properties_extend; [done| |eassumption|eassumption|]; [done|]. intros a3 st3 n3 Hr3 Hp3.
  rstep. rstep. rstep. rstep. eapply rel_end_read; [eassumption|]. intros st5 Hr5. rstep.
  pose proof (partial_range _ _ _ _ _ Hp3). apply (partial_done _ _ _ _ _ (dir_flag (cr_dir r))) in Hp3 as [Ho Hs]; [|done].
  eapply HQ; [done|lia|done|]. rewrite Hs. unfold rel_tree. cbn [app]. by rewrite <- app_assoc.
Qed.

(** Tokens that do not go on with a pattern. *)
Definition ends_pattern (v : tok) : bool :=
  negb (type_is [CYPHER_TOK_DASH; CYPHER_TOK_MINUS; CYPHER_TOK_ARROW_LEFT; CYPHER_TOK_ARROW_RIGHT] v.1).

Lemma steps_extend (l : list (crel * cnode)) (vs : list tok) :
  forallb (fun s => props_wf (cr_props s.1) && props_wf (cn_props s.2)) l = true -> ends_pattern (current vs) = true ->
  forall f, extends (pattern_loop fuel f) (print_steps l ++ vs) vs (concat (map (fun s => [rel_tree s.1; node_tree s.2]) l)).
Proof.
  intros Hwf Hend. induction l as [|[r c] l IH]; intros f x n type ts a st Q N Hp Hr HQ; destruct f as [|f]; cbn [pattern_loop];
    try (by rstep).
  - rstep. rstep. rtype. apply negb_true_iff in Hend. change (print_steps [] ++ vs) with vs in *. rewrite Hend. rstep. eapply HQ; [done|].
    by rewrite app_nil_r.
  - cbn [forallb fst snd] in Hwf. rewrite !andb_true_iff in Hwf. destruct Hwf as [[Hr1 Hc1] Hwf].
    assert (Hr0 : reads st (dir_start (cr_dir r) :: tail (print_rel r) ++ print_node c ++ print_steps l ++ vs) n).
    { unfold print_steps in Hr |- *. cbn [map concat fst snd] in Hr. by rewrite <- !app_assoc in Hr. }
    clear Hr. rstep. rstep. rtype.
    assert (Htype : type_is [CYPHER_TOK_DASH; CYPHER_TOK_MINUS; CYPHER_TOK_ARROW_LEFT; CYPHER_TOK_ARROW_RIGHT]
                      (dir_start (cr_dir r)).1 = true) by (by destruct (cr_dir r)).
    rewrite Htype. rstep.
    apply (wp_mono False True _ (fun d st' => d = Some (match cr_dir r with DNone | DRight => 0 | DLeft | DBoth => -1 end) /\
      reads st' (tail (print_rel r) ++ print_node c ++ print_steps l ++ vs) n) _ (fun _ => False)); [|cbv beta|done].
    { unfold rel_start. destruct (cr_dir r); cbn [dir_start t_minus t_left fst] in *; rdecide; repeat rstep; done. }
    intros d st1 [-> Hr2]. rstep. eapply rel_builds; [done|eassumption|]. intros p st2 n2 Hr3 Hn2 Ho2 Hs2.
    rstep. rstep. eapply node_builds; [done|eassumption|]. intros q st3 n3 Hr4 Hn3 Ho3 Hs3.
    eapply IH; [done| |eassumption|].
    + eapply partial_add; [by eapply partial_add|done|done|done].
    + intros a' st4 n4 Hr5 Hp5. eapply HQ; [done|]. by rewrite <- !app_assoc in Hp5.
Qed.

Lemma pattern_builds (p : cpattern) (vs : list tok) :
  pattern_wf p = true -> ends_pattern (current vs) = true -> builds (parsePattern fuel) (print_pattern p ++ vs) vs (pattern_tree p).
Proof.
  intros [Hwf Hsteps]%andb_true_iff Hend st n Q N Hr HQ. unfold parsePattern. unfold print_pattern in Hr. rewrite <- app_assoc in Hr.
  rstep. rstep. rstep. rstep. eapply node_builds; [done|eassumption|]. intros c st1 n1 Hr1 Hn1 Ho1 Hs1.
  eapply steps_extend; [done|done| |eassumption|]; [by eapply partial_add; [apply partial_new|..]|]. intros a st2 n2 Hr2 Hp2.
  pose proof (partial_range _ _ _ _ _ Hp2). apply partial_closed in Hp2 as [Ho Hs]; [|done]. eapply HQ; [done|lia|done|done].
Qed.

(** ** Clauses and queries *)

Lemma clause_builds (keyword : CypherTokenType) (text : bytes) (zError : string) (type : CypherAstNodeType) (body : PM CypherAst)
    (vs vs' : list tok) (s : tree) :
  shared_type type = false -> builds body vs vs' s ->
  builds (clause keyword zError type body) ((keyword, text) :: vs) vs' (Node type None 0 [s]).
Proof.
  intros Ht Hb st n Q N Hr HQ. unfold clause. rstep. rstep. rstep. rstep. rstep. rstep. rstep.
  eapply Hb; [eassumption|]. intros a st1 n1 Hr1 Hn1 Ho1 Hs1. rstep.
  destruct (partial_closed n n1 type [s] (cypherAstAddChild (MkAst n type None 0 []) a)) as [Ho Hs]; [|done|].
  - apply (partial_add n (S n) n1 type [] s); [apply partial_new|done|done|done].
  - eapply HQ; [done|lia|done|done].
Qed.

Lemma expression_builds (e : cexpr) (vs : list tok) :
  wf e = true -> stops 0 (current vs) = true -> builds (parseExpression fuel) (print e ++ vs) vs (ast_of e (current vs).2).
Proof. intros Hwf Hs. by apply yields_builds, expression_yields. Qed.

Lemma first_clause_builds (c : cclause) (vs : list tok) :
  clause_wf c = true -> stops 0 (current vs) = true -> ends_pattern (current vs) = true ->
  builds (first_clause fuel) (print_clause c ++ vs) vs (clause_tree c (current vs).2).
Proof.
  intros Hwf Hs Hend st n Q N Hr HQ. unfold first_clause. rstep. rstep.
  destruct c as [p|p|p|e|e]; cbn [print_clause app clause_tree clause_wf] in *; rtype; rdecide;
    (eapply clause_builds; [done|by apply pattern_builds || by apply expression_builds|eassumption|exact HQ]).
Qed.

Lemma where_extends (w : option cexpr) (vs : list tok) :
  option_wf w = true -> stops 0 (current vs) = true -> (current vs).1 <> CYPHER_TOK_WHERE ->
  extends (where_clause fuel) (print_where w ++ vs) vs (where_trees w (current vs).2).
Proof.
  intros Hwf Hs Hne x n type ts a st Q N Hp Hr HQ. unfold where_clause. rstep. rstep. destruct w as [e|]; cbn [print_where app] in *; rtype.
  - rdecide. unfold parseWhereClause. rstep. rstep. rstep. rstep. rstep. rstep. rstep. rstep.
    eapply expression_builds; [done|done|eassumption|]. intros c st1 n1 Hr1 Hn1 Ho1 Hs1. rstep. rstep.
    eapply HQ; [done|]. eapply (partial_add x n n1); [done| |lia|].
    + eapply (partial_closed n n1 CYPHER_AST_WHERE [_]); [|done]. eapply (partial_add n (S n) n1 _ []); [apply partial_new|done|done|done].
    + cbn. by rewrite Hs1.
  - rewrite decide_False by done. rstep. eapply HQ; [done|]. by rewrite app_nil_r.
Qed.

Lemma return_extends (r : option cexpr) :
  option_wf r = true -> extends (return_clause fuel) (print_return r ++ []) [] (return_trees r).
Proof.
  intros Hwf x n type ts a st Q N Hp Hr HQ. unfold return_clause. rstep. rstep. destruct r as [e|]; cbn [print_return app] in *; rtype.
  - rdecide. rstep. rstep. eapply (clause_builds _ _ _ _ _ (print e ++ []) []); [done| |eassumption|].
    + intros st1 n1 Q1 N1 Hr1 HQ1. unfold parseProjectionList, parseProjectionItem. rstep. rstep. rstep. rstep. rstep. rstep. rstep. rstep.
      eapply (expression_builds e []); [done|done|eassumption|]. intros c st4 n4 Hr4 Hn4 Ho4 Hs4. rstep. rstep.
      destruct (partial_closed (S n1) n4 CYPHER_AST_PROJECTION_ITEM [ast_of e []]
        (cypherAstAddChild (MkAst (S n1) CYPHER_AST_PROJECTION_ITEM None 0 []) c)) as [Ho Hs];
        [by apply (partial_add (S n1) (S (S n1)) n4 _ []); [apply partial_new|..]|done|].
      destruct (partial_closed n1 n4 CYPHER_AST_PROJECTION_LIST [Node CYPHER_AST_PROJECTION_ITEM None 0 [ast_of e []]]
        (cypherAstAddChild (MkAst n1 CYPHER_AST_PROJECTION_LIST None 0 [])
          (cypherAstAddChild (MkAst (S n1) CYPHER_AST_PROJECTION_ITEM None 0 []) c))) as [Ho' Hs'];
        [by apply (partial_add n1 (S n1) n4 _ []); [apply partial_new|done|lia|]|done|].
      eapply HQ1; [done|lia|done|done].
    + intros c st1 n1 Hr1 Hn1 Ho1 Hs1. rstep. eapply HQ; [done|]. by eapply partial_add.
  - rewrite decide_False by done. rstep. eapply HQ; [done|]. by rewrite app_nil_r.
Qed.

Lemma wpr_next_end (st : pstate) (n : nat) (Q : CypherToken -> pstate -> Prop) (N : pstate -> Prop) :
  reads st [] n -> (forall t st', tok_type t = CYPHER_TOK_EOF -> reads st' [] n -> Q t st') -> wpr next_token Q N st.
Proof.
  intros (Hf & He & Hn) HQ. unfold wp, next_token. pose proof (feeds_next _ _ Hf) as Hx.
  destruct (cypherLexerNextToken (ps_lexer st)) as [t lx]. destruct Hx as [Ht Hl]. apply HQ; [by injection Ht|done].
Qed.

Lemma single_query_builds (q : cquery) :
  query_wf q = true ->
  builds (parseSingleQuery fuel) (print_query q) []
    (Node CYPHER_AST_SINGLE_QUERY None 0
      (clause_tree (cq_clause q) (current (print_where (cq_where q) ++ print_return (cq_return q))).2 ::
       where_trees (cq_where q) (current (print_return (cq_return q))).2 ++ return_trees (cq_return q))).
Proof.
  intros [[Hc Hw]%andb_true_iff Hret]%andb_true_iff st n Q N Hr HQ. unfold parseSingleQuery. destruct q as [c w r].
  unfold print_query in Hr. cbn [cq_clause cq_where cq_return] in *.
  rstep. rstep. rstep. rstep. eapply (first_clause_builds c (print_where w ++ print_return r)); [done| | |eassumption|]; [by destruct w, r..|].
  intros a1 st1 n1 Hr1 Hn1 Ho1 Hs1. rstep.
  eapply (where_extends w (print_return r)); [done| | | |eassumption|]; [by destruct r..|by eapply partial_add; [apply partial_new|..]|].
  intros a2 st2 n2 Hr2 Hp2. rstep. eapply return_extends; [done|eassumption|by rewrite app_nil_r|]. intros a3 st3 n3 Hr3 Hp3. rstep.
  destruct fuel as [|f]; cbn [drain]; [rstep|]. rstep. eapply wpr_next_end; [eassumption|]. intros t st4 Ht Hr4. rewrite Ht.
  change (type_is _ CYPHER_TOK_EOF) with true. cbv iota. rstep. rewrite Ht, decide_False by done. rstep.
  pose proof (partial_range _ _ _ _ _ Hp3). apply partial_closed in Hp3 as [Ho Hs]; [|done]. eapply HQ; [done|lia|done|].
  rewrite Hs. cbn [app]. done.
Qed.

Lemma query_builds (q : cquery) : query_wf q = true -> builds (parseQuery fuel) (print_query q) [] (query_tree q).
Proof.
  intros Hwf st n Q N Hr HQ. unfold parseQuery. rstep. rstep. rstep. rstep.
  eapply (single_query_builds q); [done|eassumption|]. intros a st1 n1 Hr1 Hn1 Ho1 Hs1. rstep.
  edestruct (partial_closed n n1 CYPHER_AST_QUERY) as [Ho Hs]; [eapply (partial_add n (S n) n1 _ []); [apply partial_new|done|done|done]|done|].
  eapply HQ; [done|lia|done|done].
Qed.
End PatternsRead.

(** ** Texts *)

Lemma feeds_text (ls : list (lexeme * bytes)) (w0 : bytes) (lx : CypherLexer) :
  separated ls = true -> Forall (fun c => c_isspace c = true) w0 ->
  lx_rest lx = w0 ++ text_of ls -> feeds lx (lexeme_token <$> ls.*1).
Proof.
  revert w0 lx. induction ls as [|[l w] ls IH]; intros w0 lx Hls Hw0 Hlx.
  - cbn. unfold at_end, after_gap, lexerSkipComment, lexerSkipWhitespace. rewrite !lexer_skip_rest, Hlx.
    change (text_of []) with (@nil Z). rewrite (run_app c_isspace w0) by (done || by apply forallb_forall, List.Forall_forall).
    by rewrite drop_app_length.
  - apply separated_cons in Hls as (Hl & Hw & He & Hls). cbn [fst snd fmap list_fmap feeds] in *.
    assert (Htext : lx_rest lx = w0 ++ spell l ++ w ++ text_of ls).
    { rewrite Hlx. unfold text_of. cbn. by rewrite <- app_assoc. }
    destruct (next_token_lexeme lx l w0 w (text_of ls) Hl He Hw0 Htext) as [Ht Hr]. pose proof (lexeme_not_eof l Hl) as Hne.
    destruct (cypherLexerNextToken lx) as [t lx']. cbn [fst snd] in *. split; [exact Ht|]. split; [done|].
    exact (IH w lx' Hls Hw Hr).
Qed.

Lemma text_length (ls : list (lexeme * bytes)) :
  separated ls = true -> (length ls <= length (text_of ls))%nat.
Proof.
  induction ls as [|[l w] ls IH]; intros Hls; [cbn; lia|]. apply separated_cons in Hls as (Hl & _ & _ & Hls). specialize (IH Hls).
  destruct (spell_head l Hl) as (c & s & Hs & _). unfold text_of in *. cbn [fmap list_fmap map concat fst snd] in *.
  rewrite !length_app, Hs. cbn [length]. cbn in *. lia.
Qed.

(** A text whose tokens are those of a query. *)
Lemma fed_query_parsed (q : cquery) (z : bytes) :
  query_wf q = true -> feeds (cypherLexerCreate z) (print_query q) -> (length (print_query q) <= length z)%nat ->
  exists pAst, cypherParse z = (PNode pAst, None) /\ shape pAst = query_tree q /\
    (NoDup (frees pAst) <-> plain (query_tree q) = true).
Proof.
  intros Hwf Hf Hlen. assert (Hfuel : (cypherParse z).1 <> PFuel) by (by eapply cypher_parse_ends).
  assert (H : wpr (parseQuery (S (length z))) (fun a _ => shape a = query_tree q /\ (NoDup (frees a) <-> plain (query_tree q) = true))
                (fun _ => False) (cypherParserCreate z)).
  { eapply (query_builds (S (length z)) q Hwf); [by split|]. intros a st' n' Hr Hn [_ Ho] Hs. rewrite Hs in Ho. done. }
  unfold cypherParse in *. unfold wp in H. destruct (parseQuery _ _) as [[a| | |] st]; try done. by exists a.
Qed.

(** Lexemes with the tokens of a query, and blanks between them at least where
    they would run together. *)
Definition writes (ls : list (lexeme * bytes)) (q : cquery) : Prop :=
  separated ls = true /\ lexeme_token <$> ls.*1 = print_query q.

Lemma writes_feeds (ls : list (lexeme * bytes)) (q : cquery) (w0 : bytes) : writes ls q -> Forall (fun c => c_isspace c = true) w0 ->
  feeds (cypherLexerCreate (w0 ++ text_of ls)) (print_query q) /\ (length (print_query q) <= length (w0 ++ text_of ls))%nat.
Proof.
  intros [Hls <-] Hw0. split; [by apply (feeds_text ls w0)|]. rewrite !length_fmap, length_app. pose proof (text_length ls Hls). lia.
Qed.

(** C36: A query is parsed to its tree, as far as the parser stores it.  Take a
    text without comments that is written with the tokens of a query - a MATCH,
    CREATE or MERGE of a path of nodes and relationships, or SET or DELETE of an
    expression, then WHERE and RETURN with expressions grouped by precedence and
    association - and any blanks, none needed where two tokens do not run
    together.  It is accepted, without undefined behaviour, and the tree is the
    one that is meant, with the operands of each operator and the text of each
    leaf, except for two defects of the parser: the node of an arithmetic
    operator or a sign has the text of the token after its last operand, so that
    a + b and a - b have the same tree ([cypher_operator_text]), and the operands
    of OR and of a sign are stored twice.  A query without these operators is
    parsed to exactly the tree that is meant; and no node is freed twice by
    [cypherAstDestroy] exactly if the query has no OR and no sign. *)
Theorem cypher_query_parsed (q : cquery) (w0 : bytes) (ls : list (lexeme * bytes)) :
  query_wf q = true -> separated ls = true -> Forall (fun c => c_isspace c = true) w0 -> lexeme_token <$> ls.*1 = print_query q ->
  exists pAst, cypherParse (w0 ++ text_of ls) = (PNode pAst, None) /\
    blur (shape pAst) = blur (meant_query q) /\
    (exact (meant_query q) = true -> shape pAst = meant_query q) /\
    (NoDup (frees pAst) <-> plain (meant_query q) = true).
Proof.
  intros Hwf Hls Hw0 Hq. destruct (writes_feeds ls q w0) as [Hf Hl]; [by split|done|].
  destruct (fed_query_parsed q _ Hwf Hf Hl) as (pAst & E & Hs & Hn). destruct (query_stands q) as (H1 & H2 & H3).
  exists pAst. rewrite Hs, <- H2. done.
Qed.

(** A token as it is written. *)
Definition lexeme_of (v : tok) : lexeme :=
  match v.1 with
  | CYPHER_TOK_INTEGER => LInt v.2
  | CYPHER_TOK_STRING => LString 39 v.2
  | CYPHER_TOK_IDENTIFIER | CYPHER_TOK_MATCH | CYPHER_TOK_CREATE | CYPHER_TOK_WHERE | CYPHER_TOK_RETURN | CYPHER_TOK_AND | CYPHER_TOK_NOT => LName v.2
  | type => LOp v.2 type
  end.

(** [MATCH (a:P {x: 1})-[r:T]->(b) WHERE a.x * 2 > 3 AND NOT f(b, 'c') RETURN [a]] *)
Definition demo_query : cquery :=
  MkCQuery
    (CMatch (MkCPattern (MkCNode (Some (bstr "a")) (Some (bstr "P")) (Some [(bstr "x", ELit (CYPHER_TOK_INTEGER, bstr "1"))]))
      [(MkCRel (Some (bstr "r")) (Some (bstr "T")) None DRight, MkCNode (Some (bstr "b")) None None)]))
    (Some (EBin BAnd (CYPHER_TOK_AND, bstr "AND")
      (EBin BCmp (CYPHER_TOK_GT, bstr ">")
        (EBin BMul (CYPHER_TOK_MULT, bstr "*") (EProp (EName (bstr "a")) (bstr "x")) (ELit (CYPHER_TOK_INTEGER, bstr "2")))
        (ELit (CYPHER_TOK_INTEGER, bstr "3")))
      (ENot (bstr "NOT") (ECall (bstr "f") [EName (bstr "b"); ELit (CYPHER_TOK_STRING, bstr "c")]))))
    (Some (EList [EName (bstr "a")])).

(** The tokens with a blank after those that need one. *)
Definition needs_blank (l : lexeme) : bytes := match l with LName _ | LInt _ => [32] | _ => [] end.
Definition demo_text : list (lexeme * bytes) := (fun v => (lexeme_of v, needs_blank (lexeme_of v))) <$> print_query demo_query.

(** [MATCH (n) RETURN n], as it is usually written. *)
Definition short_query : cquery :=
  MkCQuery (CMatch (MkCPattern (MkCNode (Some (bstr "n")) None None) [])) None (Some (EName (bstr "n"))).
Definition short_text : list (lexeme * bytes) :=
  [(LName (bstr "MATCH"), bstr " "); (LOp (bstr "(") CYPHER_TOK_LPAREN, []); (LName (bstr "n"), []); (LOp (bstr ")") CYPHER_TOK_RPAREN, bstr " ");
   (LName (bstr "RETURN"), bstr " "); (LName (bstr "n"), [])].

Lemma cypher_query_parsed_witness :
  (exists pAst, cypherParse (text_of demo_text) = (PNode pAst, None) /\ blur (shape pAst) = blur (meant_query demo_query)) /\
  text_of short_text = bstr "MATCH (n) RETURN n" /\
  exists pAst, cypherParse (text_of short_text) = (PNode pAst, None) /\ shape pAst = meant_query short_query.
Proof.
  split; [|split; [reflexivity|]].
  - destruct (cypher_query_parsed demo_query [] demo_text) as (pAst & E & Hb & _);
      [reflexivity|vm_compute; reflexivity|constructor|vm_compute; reflexivity|]. exists pAst. auto.
  - destruct (cypher_query_parsed short_query [] short_text) as (pAst & E & _ & Hx & _);
      [reflexivity|vm_compute; reflexivity|constructor|vm_compute; reflexivity|]. exists pAst. split; [exact E|]. apply Hx. reflexivity.
Defined.

(** ** Defects *)

Definition parse_shape (s : string) : option tree :=
  match (cypherParse (bstr s)).1 with PNode a => Some (shape a) | _ => None end.

(** Every query that is accepted is freed twice when it is validated. *)
Lemma cypher_validate_frees_twice (zQuery : bytes) (pAst : CypherAst) :
  (cypherParse zQuery).1 = PNode pAst -> cypherValidateQuery zQuery = PUndef.
Proof.
  intros E. unfold cypherValidateQuery. rewrite E, decide_False; [done|]. intros (_ & Hd & _)%list.NoDup_app.
  destruct pAst as [x ty v f cs]. apply (Hd x); cbn [frees]; apply elem_of_app; right; by apply list_elem_of_singleton.
Qed.

(** An arithmetic node stores the token after its right operand: sums and
    differences have the same tree. *)
Lemma cypher_operator_text :
  parse_shape "SET a + b RETURN c" = parse_shape "SET a - b RETURN c" /\ parse_shape "SET a + b RETURN c" <> None.
Proof. vm_compute. done. Qed.

(** The operands of OR hang twice below it: freeing the tree after an error
    is undefined. *)
Lemma cypher_or_error : (cypherParse (bstr "SET a OR b OR")).1 = PUndef.
Proof. vm_compute. reflexivity. Qed.

(** A call whose arguments cannot be parsed is used after it is freed. *)
Lemma cypher_call_error : (cypherParse (bstr "SET f(")).1 = PUndef.
Proof. vm_compute. reflexivity. Qed.

(** A message is appended to without looking at the length of the token. *)
Lemma cypher_long_token : (cypherParse (replicate 240 97)).1 = PUndef.
Proof. vm_compute. reflexivity. Qed.

(** What cannot be parsed after WHERE, or in the properties of a node, is
    left out, as is what follows the first expression. *)
Lemma cypher_errors_ignored :
  parse_shape "MATCH (n) WHERE RETURN n" = parse_shape "MATCH (n) RETURN n" /\
  parse_shape "MATCH (n {a b) RETURN n" = parse_shape "MATCH (n) RETURN n" /\
  parse_shape "MATCH (n) RETURN n, m ORDER BY" = parse_shape "MATCH (n) RETURN n" /\ parse_shape "MATCH (n) RETURN n" <> None.
Proof. vm_compute. done. Qed.

(** An arrow to the left is refused with the dash that belongs to it. *)
Lemma cypher_left_arrow : parse_shape "MATCH (a)<-[r]-(b) RETURN a" = None /\ parse_shape "MATCH (a)<-[r](b) RETURN a" <> None.
Proof. vm_compute. done. Qed.

(** A query can be refused without a message. *)
Lemma cypher_silent_error : cypherParse (bstr "MATCH (n) RETURN") = (PNull, None).
Proof. vm_compute. reflexivity. Qed.
