(* ===== verification/CypherPlan.v ===== *)
(** * The Cypher planner (cypher-planner.c, cypher-logical-plan.c,
    cypher-physical-plan.c)

    The syntax tree is compiled to a logical plan, which is annotated with
    estimates, rewritten and turned into a physical plan.  The planner reads the
    types, values and children of the nodes, so it is a function of their
    [tree].  Nodes that are created and then dropped are leaked by the code;
    memory is never exhausted.  An estimate that overflows its 64 bits is
    undefined. *)

From Stdlib Require Import String ZArith Lia Floats.SpecFloat.
From stdpp Require Import base option list numbers.
From S2P Require Import Prelude Float32 Codec Shadow DefParser Values Scalar CypherLexer CypherParser CypherExpr.

Local Open Scope Z_scope.

(** ** Trees *)

Definition t_type (t : tree) : CypherAstNodeType := match t with Node type _ _ _ => type end.
Definition cypherAstGetValue (t : tree) : option bytes := match t with Node _ value _ _ => value end.
Definition t_children (t : tree) : list tree := match t with Node _ _ _ children => children end.
Definition cypherAstIsType (t : tree) (type : CypherAstNodeType) : bool := bool_decide (t_type t = type).

(** ** Logical plans *)

Inductive LogicalPlanNodeType :=
| LOGICAL_NODE_SCAN | LOGICAL_LABEL_SCAN | LOGICAL_INDEX_SCAN | LOGICAL_RELATIONSHIP_SCAN | LOGICAL_TYPE_SCAN
| LOGICAL_EXPAND | LOGICAL_VAR_LENGTH_EXPAND | LOGICAL_OPTIONAL_EXPAND | LOGICAL_FILTER | LOGICAL_PROPERTY_FILTER
| LOGICAL_LABEL_FILTER | LOGICAL_HASH_JOIN | LOGICAL_NESTED_LOOP_JOIN | LOGICAL_CARTESIAN_PRODUCT | LOGICAL_PROJECTION
| LOGICAL_DISTINCT | LOGICAL_AGGREGATION | LOGICAL_SORT | LOGICAL_LIMIT | LOGICAL_SKIP | LOGICAL_CREATE | LOGICAL_MERGE
| LOGICAL_SET | LOGICAL_DELETE | LOGICAL_DETACH_DELETE.

#[export] Instance LogicalPlanNodeType_eq_dec : EqDecision LogicalPlanNodeType.
Proof. solve_decision. Defined.

Inductive LogicalPlanNode := MkLogical {
  lp_type : LogicalPlanNodeType;
  lp_zAlias : option bytes;
  lp_zLabel : option bytes;
  lp_zProperty : option bytes;
  lp_zValue : option bytes;
  lp_children : list LogicalPlanNode;
  lp_rEstimatedCost : f64;
  lp_iEstimatedRows : Z;
  lp_iFlags : Z;
  lp_pExtra : option tree
}.

Definition logicalPlanNodeCreate (type : LogicalPlanNodeType) : LogicalPlanNode :=
  MkLogical type None None None None [] (S754_zero false) 0 0 None.

Definition logicalPlanNodeAddChild (p c : LogicalPlanNode) : LogicalPlanNode :=
  MkLogical (lp_type p) (lp_zAlias p) (lp_zLabel p) (lp_zProperty p) (lp_zValue p) (lp_children p ++ [c])
    (lp_rEstimatedCost p) (lp_iEstimatedRows p) (lp_iFlags p) (lp_pExtra p).

(** [NULL] clears the field. *)
Definition logicalPlanNodeSetAlias (p : LogicalPlanNode) (z : option bytes) : LogicalPlanNode :=
  MkLogical (lp_type p) z (lp_zLabel p) (lp_zProperty p) (lp_zValue p) (lp_children p)
    (lp_rEstimatedCost p) (lp_iEstimatedRows p) (lp_iFlags p) (lp_pExtra p).

Definition logicalPlanNodeSetLabel (p : LogicalPlanNode) (z : option bytes) : LogicalPlanNode :=
  MkLogical (lp_type p) (lp_zAlias p) z (lp_zProperty p) (lp_zValue p) (lp_children p)
    (lp_rEstimatedCost p) (lp_iEstimatedRows p) (lp_iFlags p) (lp_pExtra p).

Definition logicalPlanNodeSetProperty (p : LogicalPlanNode) (z : option bytes) : LogicalPlanNode :=
  MkLogical (lp_type p) (lp_zAlias p) (lp_zLabel p) z (lp_zValue p) (lp_children p)
    (lp_rEstimatedCost p) (lp_iEstimatedRows p) (lp_iFlags p) (lp_pExtra p).

Definition logicalPlanNodeSetValue (p : LogicalPlanNode) (z : option bytes) : LogicalPlanNode :=
  MkLogical (lp_type p) (lp_zAlias p) (lp_zLabel p) (lp_zProperty p) z (lp_children p)
    (lp_rEstimatedCost p) (lp_iEstimatedRows p) (lp_iFlags p) (lp_pExtra p).

Definition lp_set_flags (p : LogicalPlanNode) (f : Z) : LogicalPlanNode :=
  MkLogical (lp_type p) (lp_zAlias p) (lp_zLabel p) (lp_zProperty p) (lp_zValue p) (lp_children p)
    (lp_rEstimatedCost p) (lp_iEstimatedRows p) f (lp_pExtra p).

Definition lp_set_extra (p : LogicalPlanNode) (x : option tree) : LogicalPlanNode :=
  MkLogical (lp_type p) (lp_zAlias p) (lp_zLabel p) (lp_zProperty p) (lp_zValue p) (lp_children p)
    (lp_rEstimatedCost p) (lp_iEstimatedRows p) (lp_iFlags p) x.

Definition lp_estimated (p : LogicalPlanNode) (type : LogicalPlanNodeType) (cs : list LogicalPlanNode) (cost : f64) (rows : Z) : LogicalPlanNode :=
  MkLogical type (lp_zAlias p) (lp_zLabel p) (lp_zProperty p) (lp_zValue p) cs cost rows (lp_iFlags p) (lp_pExtra p).

(** ** Compilation *)

(** The variables; the error is the type of the node that is not supported. *)
Record PlanContext := MkPlanContext {
  pc_azVariables : list bytes;
  pc_bUseIndexes : bool;
  pc_bReorderJoins : bool;
  pc_zErrorMsg : option CypherAstNodeType;
  pc_nErrors : Z
}.

Definition plan_context : PlanContext := MkPlanContext [] true true None 0.

Definition planContextAddVariable (c : PlanContext) (zVar : option bytes) : PlanContext :=
  match zVar with
  | Some z => MkPlanContext (pc_azVariables c ++ [z]) (pc_bUseIndexes c) (pc_bReorderJoins c) (pc_zErrorMsg c) (pc_nErrors c)
  | None => c
  end.

Definition plan_error (c : PlanContext) (type : CypherAstNodeType) : PlanContext :=
  MkPlanContext (pc_azVariables c) (pc_bUseIndexes c) (pc_bReorderJoins c) (Some type) (pc_nErrors c + 1).

(** The first label: of a child or of the node itself. *)
Definition first_label (pLabels : tree) : option bytes :=
  match t_children pLabels with c :: _ => cypherAstGetValue c | [] => cypherAstGetValue pLabels end.

Definition compile_node_pattern (t : tree) (c : PlanContext) : option LogicalPlanNode * PlanContext :=
  match t_children t with
  | [] => (Some (logicalPlanNodeCreate LOGICAL_NODE_SCAN), c)
  | a :: rest =>
      if cypherAstIsType a CYPHER_AST_IDENTIFIER then
        let zAlias := cypherAstGetValue a in
        let scan :=
          match rest with
          | l :: _ =>
              if cypherAstIsType l CYPHER_AST_LABELS then
                logicalPlanNodeSetLabel (logicalPlanNodeSetAlias (logicalPlanNodeCreate LOGICAL_LABEL_SCAN) zAlias) (first_label l)
              else logicalPlanNodeSetAlias (logicalPlanNodeCreate LOGICAL_NODE_SCAN) zAlias
          | [] => logicalPlanNodeSetAlias (logicalPlanNodeCreate LOGICAL_NODE_SCAN) zAlias
          end in
        (Some scan, planContextAddVariable c zAlias)
      else if cypherAstIsType a CYPHER_AST_LABELS then
        (Some (logicalPlanNodeSetLabel (logicalPlanNodeCreate LOGICAL_LABEL_SCAN) (first_label a)), c)
      else (None, c)
  end.

Definition operator_flag (zOp : bytes) : Z :=
  if decide (zOp = bstr "=") then 1 else if decide (zOp = bstr ">") then 2 else if decide (zOp = bstr "<") then 3
  else if decide (zOp = bstr ">=") then 4 else if decide (zOp = bstr "<=") then 5
  else if decide (zOp = bstr "<>") then 6 else if decide (zOp = bstr "!=") then 6 else 0.

(** [n.prop OP value]: a property filter; other expressions a filter without
    property. *)
Definition compile_where (pExpr : tree) : LogicalPlanNode :=
  let property :=
    if cypherAstIsType pExpr CYPHER_AST_BINARY_OP || cypherAstIsType pExpr CYPHER_AST_COMPARISON then
      match t_children pExpr, cypherAstGetValue pExpr with
      | pProp :: pRight :: _, Some zOp =>
          if cypherAstIsType pProp CYPHER_AST_PROPERTY then
            let p := logicalPlanNodeCreate LOGICAL_PROPERTY_FILTER in
            Some match t_children pProp with
                 | x :: y :: _ =>
                     lp_set_flags (logicalPlanNodeSetValue (logicalPlanNodeSetProperty (logicalPlanNodeSetAlias p
                       (cypherAstGetValue x)) (cypherAstGetValue y)) (cypherAstGetValue pRight)) (operator_flag zOp)
                 | _ => p
                 end
          else None
      | _, _ => None
      end
    else None in
  lp_set_extra (default (logicalPlanNodeCreate LOGICAL_FILTER) property) (Some pExpr).

Definition compile_return (t : tree) : LogicalPlanNode :=
  let p := logicalPlanNodeCreate LOGICAL_PROJECTION in
  match t_children t with
  | pProjList :: _ =>
      if cypherAstIsType pProjList CYPHER_AST_PROJECTION_LIST then
        match t_children pProjList with
        | pItem :: _ =>
            if cypherAstIsType pItem CYPHER_AST_PROJECTION_ITEM then
              match t_children pItem with
              | pExpr :: _ =>
                  if cypherAstIsType pExpr CYPHER_AST_IDENTIFIER then logicalPlanNodeSetAlias p (cypherAstGetValue pExpr)
                  else if cypherAstIsType pExpr CYPHER_AST_PROPERTY then
                    match t_children pExpr with
                    | x :: y :: _ => logicalPlanNodeSetProperty (logicalPlanNodeSetAlias p (cypherAstGetValue x)) (cypherAstGetValue y)
                    | _ => p
                    end
                  else p
              | [] => p
              end
            else p
        | [] => p
        end
      else p
  | [] => p
  end.

(** SKIP and LIMIT keep the text of their first child. *)
Definition compile_count (type : LogicalPlanNodeType) (t : tree) : LogicalPlanNode :=
  match t_children t with
  | c :: _ => logicalPlanNodeSetValue (logicalPlanNodeCreate type) (cypherAstGetValue c)
  | [] => logicalPlanNodeCreate type
  end.

Definition set_some (set : LogicalPlanNode -> option bytes -> LogicalPlanNode) (p : LogicalPlanNode) (z : option bytes) : LogicalPlanNode :=
  match z with Some _ => set p z | None => p end.

Definition compile_comparison (t : tree) : LogicalPlanNode :=
  let p := logicalPlanNodeCreate LOGICAL_FILTER in
  match t_children t with
  | pLeft :: pRight :: _ =>
      if cypherAstIsType pLeft CYPHER_AST_PROPERTY then
        match t_children pLeft with
        | x :: y :: _ =>
            set_some logicalPlanNodeSetValue (set_some logicalPlanNodeSetProperty (set_some logicalPlanNodeSetAlias p
              (cypherAstGetValue x)) (cypherAstGetValue y)) (cypherAstGetValue pRight)
        | _ => p
        end
      else p
  | _ => p
  end.

(** The last name and the last type among the children of a relationship. *)
Fixpoint rel_parts (cs : list tree) (zVar zType : option bytes) : option bytes * option bytes :=
  match cs with
  | [] => (zVar, zType)
  | c :: cs =>
      if cypherAstIsType c CYPHER_AST_IDENTIFIER then rel_parts cs (cypherAstGetValue c) zType
      else if cypherAstIsType c CYPHER_AST_LABELS then
        rel_parts cs zVar (match cypherAstGetValue c with Some z => Some z | None => zType end)
      else rel_parts cs zVar zType
  end.

(** The name of the relationship is its label, its type the property. *)
Definition compile_rel (t : tree) : LogicalPlanNode :=
  let '(zVar, zType) := rel_parts (t_children t) None None in
  set_some logicalPlanNodeSetProperty (set_some logicalPlanNodeSetLabel (logicalPlanNodeCreate LOGICAL_EXPAND) zVar) zType.

Definition find_type (type : CypherAstNodeType) (cs : list tree) : option tree := head (filter (fun c => cypherAstIsType c type = true) cs).

(** The target of a relationship: a scan that is never run, for its label. *)
Definition target_scan (pTarget : tree) : LogicalPlanNode :=
  let p := logicalPlanNodeCreate LOGICAL_NODE_SCAN in
  let p := match t_children pTarget with
           | a :: _ => if cypherAstIsType a CYPHER_AST_IDENTIFIER then set_some logicalPlanNodeSetAlias p (cypherAstGetValue a) else p
           | [] => p
           end in
  match find_type CYPHER_AST_LABELS (t_children pTarget) with
  | Some l => logicalPlanNodeSetLabel p (first_label l)
  | None => p
  end.

Definition expand_step (pElement : tree) (pLogical : option LogicalPlanNode) (pTarget : option tree) : LogicalPlanNode :=
  let pExpand := compile_rel pElement in
  let pExpand := match pLogical with Some p => logicalPlanNodeAddChild pExpand p | None => pExpand end in
  match pTarget with
  | Some t => let s := target_scan t in logicalPlanNodeAddChild (set_some logicalPlanNodeSetAlias pExpand (lp_zAlias s)) s
  | None => pExpand
  end.

(** The properties of a node to create, as JSON: a text that starts with a
    quote loses its first and last character. *)
Fixpoint map_json (first : bool) (pairs : list tree) : bytes :=
  match pairs with
  | [] => [125]
  | p :: pairs =>
      let zValue := match t_children p with c :: _ => cypherAstGetValue c | [] => None end in
      match cypherAstIsType p CYPHER_AST_PROPERTY_PAIR, cypherAstGetValue p, zValue with
      | true, Some zKey, Some zValue =>
          let quoted := match zValue with c :: _ => (c =? 39) || (c =? 34) | [] => false end in
          let text :=
            if quoted then [34] ++ take (Z.to_nat (Z.abs (Z.of_nat (length zValue) - 2))) (drop 1 zValue) ++ [34] else zValue in
          (if first then [] else [44; 32]) ++ [34] ++ zKey ++ [34; 58; 32] ++ text ++ map_json false pairs
      | _, _, _ => map_json first pairs
      end
  end.

Fixpoint create_label (cs : list tree) : option bytes :=
  match cs with
  | [] => None
  | c :: cs =>
      if cypherAstIsType c CYPHER_AST_LABELS then
        match first_label c with Some z => Some z | None => create_label cs end
      else create_label cs
  end.

Definition compile_create (t : tree) : LogicalPlanNode :=
  let p := logicalPlanNodeCreate LOGICAL_CREATE in
  match t_children t with
  | pPattern :: _ =>
      if cypherAstIsType pPattern CYPHER_AST_PATTERN then
        let p := lp_set_extra p (Some pPattern) in
        match t_children pPattern with
        | [pNode] =>
            if cypherAstIsType pNode CYPHER_AST_NODE_PATTERN then
              let p := match t_children pNode with
                       | a :: _ => if cypherAstIsType a CYPHER_AST_IDENTIFIER then set_some logicalPlanNodeSetAlias p (cypherAstGetValue a) else p
                       | [] => p
                       end in
              let p := set_some logicalPlanNodeSetLabel p (create_label (t_children pNode)) in
              match find_type CYPHER_AST_MAP (t_children pNode) with
              | Some pMap => logicalPlanNodeSetProperty p (Some ([123] ++ map_json true (t_children pMap)))
              | None => p
              end
            else p
        | _ => p
        end
      else p
  | [] => p
  end.

(** The last name to delete. *)
Definition compile_delete (t : tree) : LogicalPlanNode :=
  foldl (fun p c => if cypherAstIsType c CYPHER_AST_IDENTIFIER then set_some logicalPlanNodeSetAlias p (cypherAstGetValue c) else p)
    (logicalPlanNodeCreate LOGICAL_DELETE) (t_children t).

Definition add_opt (p : LogicalPlanNode) (c : option LogicalPlanNode) : LogicalPlanNode :=
  match c with Some c => logicalPlanNodeAddChild p c | None => p end.

(** The loops of [compileAstNode], over the function itself. *)
Section CompileLoops.
Context (compile : tree -> PlanContext -> option LogicalPlanNode * PlanContext).

(** Each clause consumes the rows of the one before. *)
Fixpoint compile_pipeline (l : list tree) (p : option LogicalPlanNode) (ctx : PlanContext) : option LogicalPlanNode * PlanContext :=
  match l with
  | [] => (p, ctx)
  | e :: l =>
      let '(c, ctx) := compile e ctx in
      match c, p with
      | Some c, Some p => compile_pipeline l (Some (logicalPlanNodeAddChild c p)) ctx
      | _, _ => compile_pipeline l p ctx
      end
  end.

(** The elements of a pattern after the first: a relationship takes the node
    after it along; other elements are joined. *)
Fixpoint compile_elements (l : list tree) (p : option LogicalPlanNode) (ctx : PlanContext) : option LogicalPlanNode * PlanContext :=
  match l with
  | [] => (p, ctx)
  | e :: l =>
      if cypherAstIsType e CYPHER_AST_REL_PATTERN then
        match l with
        | x :: l' =>
            if cypherAstIsType x CYPHER_AST_NODE_PATTERN then compile_elements l' (Some (expand_step e p (Some x))) ctx
            else compile_elements l (Some (expand_step e p None)) ctx
        | [] => (Some (expand_step e p None), ctx)
        end
      else
        let '(c, ctx) := compile e ctx in
        match c, p with
        | Some c, Some p =>
            compile_elements l (Some (logicalPlanNodeAddChild (logicalPlanNodeAddChild (logicalPlanNodeCreate LOGICAL_HASH_JOIN) p) c)) ctx
        | _, _ => compile_elements l p ctx
        end
  end.

Fixpoint compile_items (l : list tree) (p : LogicalPlanNode) (ctx : PlanContext) : option LogicalPlanNode * PlanContext :=
  match l with
  | [] => (Some p, ctx)
  | e :: l => let '(c, ctx) := compile e ctx in compile_items l (add_opt p c) ctx
  end.

End CompileLoops.

Fixpoint compileAstNode (t : tree) (ctx : PlanContext) : option LogicalPlanNode * PlanContext :=
  match t with
  | Node type _ _ children =>
      match type with
      | CYPHER_AST_QUERY | CYPHER_AST_SINGLE_QUERY =>
          match children with
          | [] => (None, ctx)
          | e :: l => let '(p, ctx) := compileAstNode e ctx in compile_pipeline compileAstNode l p ctx
          end
      | CYPHER_AST_MATCH => match children with e :: _ => compileAstNode e ctx | [] => (None, ctx) end
      | CYPHER_AST_NODE_PATTERN => compile_node_pattern t ctx
      | CYPHER_AST_WHERE => match children with e :: _ => (Some (compile_where e), ctx) | [] => (None, ctx) end
      | CYPHER_AST_RETURN => (Some (compile_return t), ctx)
      | CYPHER_AST_SKIP => (Some (compile_count LOGICAL_SKIP t), ctx)
      | CYPHER_AST_LIMIT => (Some (compile_count LOGICAL_LIMIT t), ctx)
      | CYPHER_AST_IDENTIFIER | CYPHER_AST_LITERAL | CYPHER_AST_PROPERTY => (None, ctx)
      | CYPHER_AST_COMPARISON => (Some (compile_comparison t), ctx)
      | CYPHER_AST_AND | CYPHER_AST_OR =>
          match children with
          | l :: r :: _ =>
              let '(pLeft, ctx) := compileAstNode l ctx in
              let '(pRight, ctx) := compileAstNode r ctx in
              match pLeft, pRight with
              | Some pLeft, Some pRight =>
                  (Some (logicalPlanNodeAddChild (logicalPlanNodeAddChild (logicalPlanNodeCreate LOGICAL_FILTER) pLeft) pRight), ctx)
              | _, _ => (None, ctx)
              end
          | _ => (None, ctx)
          end
      | CYPHER_AST_NOT =>
          match children with
          | e :: _ =>
              let '(c, ctx) := compileAstNode e ctx in
              match c with
              | Some c => (Some (lp_set_flags (logicalPlanNodeAddChild (logicalPlanNodeCreate LOGICAL_FILTER) c) 1), ctx)
              | None => (None, ctx)
              end
          | [] => (None, ctx)
          end
      | CYPHER_AST_PATTERN =>
          match children with
          | [] => (None, ctx)
          | e :: l => let '(p, ctx) := compileAstNode e ctx in compile_elements compileAstNode l p ctx
          end
      | CYPHER_AST_REL_PATTERN => (Some (compile_rel t), ctx)
      | CYPHER_AST_LABELS | CYPHER_AST_MAP | CYPHER_AST_PROPERTY_PAIR | CYPHER_AST_PROJECTION_LIST | CYPHER_AST_PROJECTION_ITEM => (None, ctx)
      | CYPHER_AST_CREATE => (Some (compile_create t), ctx)
      | CYPHER_AST_MERGE =>
          match children with
          | e :: _ => let '(c, ctx) := compileAstNode e ctx in (Some (add_opt (logicalPlanNodeCreate LOGICAL_MERGE) c), ctx)
          | [] => (Some (logicalPlanNodeCreate LOGICAL_MERGE), ctx)
          end
      | CYPHER_AST_SET | CYPHER_AST_REMOVE =>
          let p := logicalPlanNodeCreate LOGICAL_SET in
          compile_items compileAstNode children (if bool_decide (type = CYPHER_AST_REMOVE) then match children with [] => p | _ => lp_set_flags p 2 end else p) ctx
      | CYPHER_AST_DELETE => (Some (compile_delete t), ctx)
      | _ => (None, plan_error ctx type)
      end
  end.

(** ** Estimates *)

(** A decimal constant [a / b]. *)
Definition decimal (a b : Z) : f64 := f64_div (f64_of_Z a) (f64_of_Z b).

Definition base_cost (type : LogicalPlanNodeType) : f64 :=
  match type with
  | LOGICAL_NODE_SCAN => f64_of_Z 1000
  | LOGICAL_LABEL_SCAN => f64_of_Z 10
  | LOGICAL_INDEX_SCAN => f64_of_Z 1
  | LOGICAL_FILTER => f64_of_Z 1
  | LOGICAL_EXPAND => f64_of_Z 5
  | LOGICAL_HASH_JOIN => f64_of_Z 10
  | LOGICAL_NESTED_LOOP_JOIN => f64_of_Z 100
  | LOGICAL_PROJECTION => decimal 1 10
  | LOGICAL_SORT => f64_of_Z 50
  | _ => f64_of_Z 1
  end.

Fixpoint logicalPlanEstimateCost (p : LogicalPlanNode) : LogicalPlanNode :=
  let cs := map logicalPlanEstimateCost (lp_children p) in
  lp_estimated p (lp_type p) cs (foldl (fun r c => f64_add r (lp_rEstimatedCost c)) (base_cost (lp_type p)) cs) (lp_iEstimatedRows p).

(** A signed 64-bit result. *)
Definition i64_result (z : Z) : res Z := if (- 2 ^ 63 <=? z) && (z <? 2 ^ 63) then Ok z else Undef.

Definition lp_set_rows (p : LogicalPlanNode) (cs : list LogicalPlanNode) (rows : Z) : LogicalPlanNode :=
  lp_estimated p (lp_type p) cs (lp_rEstimatedCost p) rows.

(** Only the children whose rows count are visited. *)
Fixpoint logicalPlanEstimateRows (p : LogicalPlanNode) : res LogicalPlanNode :=
  let first (rows : Z -> res Z) (none : Z) :=
    match lp_children p with
    | c :: cs => res_bind (logicalPlanEstimateRows c) (fun c => res_bind (rows (lp_iEstimatedRows c)) (fun n => Ok (lp_set_rows p (c :: cs) n)))
    | [] => Ok (lp_set_rows p [] none)
    end in
  match lp_type p with
  | LOGICAL_NODE_SCAN => Ok (lp_set_rows p (lp_children p) 10000)
  | LOGICAL_LABEL_SCAN => Ok (lp_set_rows p (lp_children p) 1000)
  | LOGICAL_INDEX_SCAN => Ok (lp_set_rows p (lp_children p) 100)
  | LOGICAL_FILTER => first (fun n => Ok (Z.quot n 10)) 100
  | LOGICAL_EXPAND => first (fun n => i64_result (n * 5)) 500
  | LOGICAL_HASH_JOIN | LOGICAL_NESTED_LOOP_JOIN =>
      match lp_children p with
      | l :: r :: cs =>
          res_bind (logicalPlanEstimateRows l) (fun l =>
          res_bind (logicalPlanEstimateRows r) (fun r =>
          res_bind (i64_result (lp_iEstimatedRows l * lp_iEstimatedRows r)) (fun n => Ok (lp_set_rows p (l :: r :: cs) (Z.quot n 100)))))
      | cs => Ok (lp_set_rows p cs 1000)
      end
  | LOGICAL_LIMIT => Ok (lp_set_rows p (lp_children p) 10)
  | _ => first Ok 100
  end.

(** ** Rewriting *)

Definition calculateJoinCost (pLeft pRight : LogicalPlanNode) (joinType : LogicalPlanNodeType) : f64 :=
  let rows p := if 0 <? lp_iEstimatedRows p then f64_of_Z (lp_iEstimatedRows p) else f64_of_Z 1000 in
  let leftRows := rows pLeft in
  let rightRows := rows pRight in
  let cost :=
    match joinType with
    | LOGICAL_HASH_JOIN => f64_add (f64_mul rightRows (decimal 12 10)) (f64_mul leftRows (f64_of_Z 1))
    | LOGICAL_NESTED_LOOP_JOIN => f64_mul (f64_mul leftRows rightRows) (decimal 1 1000)
    | _ => f64_mul (f64_mul leftRows rightRows) (decimal 1 100)
    end in
  f64_mul cost (decimal 1 10).

Fixpoint logicalPlanOptimizeJoins (p : LogicalPlanNode) : res LogicalPlanNode :=
  let fix each (l : list LogicalPlanNode) : res (list LogicalPlanNode) :=
    match l with
    | [] => Ok []
    | c :: l => res_bind (logicalPlanOptimizeJoins c) (fun c => res_bind (each l) (fun l => Ok (c :: l)))
    end in
  res_bind (each (lp_children p)) (fun cs =>
    match lp_type p with
    | LOGICAL_HASH_JOIN | LOGICAL_NESTED_LOOP_JOIN =>
        match cs with
        | pLeft :: pRight :: cs' =>
            let swap := f32_ltb (calculateJoinCost pRight pLeft (lp_type p)) (calculateJoinCost pLeft pRight (lp_type p)) in
            res_bind (i64_result (lp_iEstimatedRows pLeft * lp_iEstimatedRows pRight)) (fun n =>
              Ok (lp_set_rows p (if swap then pRight :: pLeft :: cs' else cs) (Z.quot n 10)))
        | _ => Ok (lp_set_rows p cs (lp_iEstimatedRows p))
        end
    | _ => Ok (lp_set_rows p cs (lp_iEstimatedRows p))
    end).

Fixpoint optimizeIndexUsage (p : LogicalPlanNode) : LogicalPlanNode :=
  let cs := map optimizeIndexUsage (lp_children p) in
  match lp_type p with
  | LOGICAL_NODE_SCAN =>
      let '(type, rows) :=
        match lp_zLabel p with
        | Some (_ :: _) => (LOGICAL_LABEL_SCAN, Z.quot (lp_iEstimatedRows p) 10)
        | _ => (LOGICAL_NODE_SCAN, lp_iEstimatedRows p)
        end in
      let '(type, rows) :=
        match lp_zProperty p, lp_zValue p with
        | Some _, Some _ => (LOGICAL_INDEX_SCAN, Z.quot rows 100)
        | _, _ => (type, rows)
        end in
      lp_estimated p type cs (lp_rEstimatedCost p) rows
  | _ => lp_estimated p (lp_type p) cs (lp_rEstimatedCost p) (lp_iEstimatedRows p)
  end.

(** ** Physical plans *)

Inductive PhysicalOperatorType :=
| PHYSICAL_ALL_NODES_SCAN | PHYSICAL_LABEL_INDEX_SCAN | PHYSICAL_PROPERTY_INDEX_SCAN | PHYSICAL_ALL_RELS_SCAN
| PHYSICAL_TYPE_INDEX_SCAN | PHYSICAL_HASH_JOIN | PHYSICAL_NESTED_LOOP_JOIN | PHYSICAL_INDEX_NESTED_LOOP | PHYSICAL_EXPAND
| PHYSICAL_FILTER | PHYSICAL_PROJECTION | PHYSICAL_SORT | PHYSICAL_LIMIT | PHYSICAL_AGGREGATION | PHYSICAL_CREATE
| PHYSICAL_MERGE | PHYSICAL_SET | PHYSICAL_DELETE | PHYSICAL_REMOVE.

(** The planner leaves the filter expression, the projections, the sort keys
    and the limit of a node empty.  [pChild] is the first child. *)
Inductive PhysicalPlanNode := MkPhysical {
  pp_type : PhysicalOperatorType;
  pp_zAlias : option bytes;
  pp_zLabel : option bytes;
  pp_zProperty : option bytes;
  pp_zValue : option bytes;
  pp_children : list PhysicalPlanNode;
  pp_nLimit : Z;
  pp_rCost : f64;
  pp_iRows : Z;
  pp_rSelectivity : f64;
  pp_pExecState : option tree;
  pp_iFlags : Z
}.

Definition physical_type (p : LogicalPlanNode) (ctx : PlanContext) : PhysicalOperatorType :=
  match lp_type p with
  | LOGICAL_NODE_SCAN => PHYSICAL_ALL_NODES_SCAN
  | LOGICAL_LABEL_SCAN =>
      if pc_bUseIndexes ctx && bool_decide (is_Some (lp_zLabel p)) then PHYSICAL_LABEL_INDEX_SCAN else PHYSICAL_ALL_NODES_SCAN
  | LOGICAL_INDEX_SCAN => PHYSICAL_PROPERTY_INDEX_SCAN
  | LOGICAL_FILTER | LOGICAL_PROPERTY_FILTER | LOGICAL_LABEL_FILTER => PHYSICAL_FILTER
  | LOGICAL_EXPAND => PHYSICAL_EXPAND
  | LOGICAL_HASH_JOIN => PHYSICAL_HASH_JOIN
  | LOGICAL_NESTED_LOOP_JOIN => if pc_bUseIndexes ctx then PHYSICAL_INDEX_NESTED_LOOP else PHYSICAL_NESTED_LOOP_JOIN
  | LOGICAL_PROJECTION => PHYSICAL_PROJECTION
  | LOGICAL_SORT => PHYSICAL_SORT
  | LOGICAL_SKIP | LOGICAL_LIMIT => PHYSICAL_LIMIT
  | LOGICAL_AGGREGATION => PHYSICAL_AGGREGATION
  | LOGICAL_CREATE => PHYSICAL_CREATE
  | LOGICAL_MERGE => PHYSICAL_MERGE
  | LOGICAL_SET => PHYSICAL_SET
  | LOGICAL_DELETE | LOGICAL_DETACH_DELETE => PHYSICAL_DELETE
  | _ => PHYSICAL_FILTER
  end.

(** The value of an index scan without one is the empty text; the other fields,
    the cost included, are overwritten with those of the logical node. *)
Fixpoint logicalPlanToPhysical (p : LogicalPlanNode) (ctx : PlanContext) : PhysicalPlanNode :=
  let type := physical_type p ctx in
  let zValue :=
    match lp_type p, lp_zProperty p, lp_zValue p with
    | LOGICAL_INDEX_SCAN, Some _, None => Some []
    | _, _, z => z
    end in
  let rSelectivity :=
    match lp_type p with
    | LOGICAL_FILTER | LOGICAL_PROPERTY_FILTER | LOGICAL_LABEL_FILTER => decimal 1 10
    | _ => f64_of_Z 1
    end in
  MkPhysical type (lp_zAlias p) (lp_zLabel p) (lp_zProperty p) zValue (map (fun c => logicalPlanToPhysical c ctx) (lp_children p)) 0
    (lp_rEstimatedCost p) (lp_iEstimatedRows p) rSelectivity (lp_pExtra p) (lp_iFlags p).

(** ** The planner *)

Definition cypherPlannerCompile (t : tree) : res LogicalPlanNode * PlanContext :=
  match compileAstNode t plan_context with
  | (Some p, ctx) => (logicalPlanEstimateRows (logicalPlanEstimateCost p), ctx)
  | (None, ctx) => (Err SQLITE_ERROR, ctx)
  end.

Definition cypherPlannerOptimize (p : LogicalPlanNode) (ctx : PlanContext) : res PhysicalPlanNode :=
  res_bind (if pc_bReorderJoins ctx then logicalPlanOptimizeJoins p else Ok p) (fun p =>
    Ok (logicalPlanToPhysical (optimizeIndexUsage p) ctx)).

(** Both, as the executor calls them. *)
Definition plan_query (t : tree) : res PhysicalPlanNode :=
  let '(p, ctx) := cypherPlannerCompile t in
  res_bind p (fun p => cypherPlannerOptimize p ctx).
