(* ===== verification/CypherRows.v ===== *)
(** * Values and rows of the Cypher executor (cypher-execution-context.c)

    Values, their comparison and texts, the variables of an execution, and the
    rows the operators hand on, with their JSON text.  The format [%.6g] is a
    parameter.  Shown: comparison is antisymmetric where it applies, and a
    variable has the value bound to it last. *)

From Stdlib Require Import String ZArith Lia Floats.SpecFloat.
From stdpp Require Import base option list numbers.
From S2P Require Import Prelude Float32 Codec Shadow DefParser Values Scalar.

Local Open Scope Z_scope.

(** ** Values *)

(** A path has no representation.  A string may be [NULL]. *)
Inductive CypherValue :=
| CYPHER_VALUE_NULL
| CYPHER_VALUE_BOOLEAN (b : bool)
| CYPHER_VALUE_INTEGER (i : Z)
| CYPHER_VALUE_FLOAT (r : f64)
| CYPHER_VALUE_STRING (z : option bytes)
| CYPHER_VALUE_NODE (iNodeId : Z)
| CYPHER_VALUE_RELATIONSHIP (iRelId : Z)
| CYPHER_VALUE_PATH
| CYPHER_VALUE_LIST (l : list CypherValue)
| CYPHER_VALUE_MAP (l : list (bytes * CypherValue)).

(** [NULL] for a path, a map or a list with one. *)
Fixpoint cypherValueCopy (v : CypherValue) : option CypherValue :=
  match v with
  | CYPHER_VALUE_PATH | CYPHER_VALUE_MAP _ => None
  | CYPHER_VALUE_LIST l =>
      let fix each (l : list CypherValue) : option (list CypherValue) :=
        match l with
        | [] => Some []
        | v :: l => match cypherValueCopy v, each l with Some v, Some l => Some (v :: l) | _, _ => None end
        end in
      CYPHER_VALUE_LIST <$> each l
  | _ => Some v
  end.

Definition cypherValueToString (fmt_6g : f64 -> bytes) (v : CypherValue) : bytes :=
  match v with
  | CYPHER_VALUE_NULL => bstr "null"
  | CYPHER_VALUE_BOOLEAN b => bstr (if b then "true" else "false")
  | CYPHER_VALUE_INTEGER i => fmt_d i
  | CYPHER_VALUE_FLOAT r => fmt_6g r
  | CYPHER_VALUE_STRING z => [34] ++ default [] z ++ [34]
  | CYPHER_VALUE_NODE i => bstr "Node(" ++ fmt_d i ++ bstr ")"
  | CYPHER_VALUE_RELATIONSHIP i => bstr "Relationship(" ++ fmt_d i ++ bstr ")"
  | CYPHER_VALUE_PATH => bstr "Unknown(7)"
  | CYPHER_VALUE_LIST l => bstr "[List with " ++ fmt_d (Z.of_nat (length l)) ++ bstr " elements]"
  | CYPHER_VALUE_MAP l => bstr "{Map with " ++ fmt_d (Z.of_nat (length l)) ++ bstr " pairs}"
  end.

Definition SQLITE_MISMATCH : Z := 20.

Definition compare_Z (x y : Z) : Z := if x <? y then -1 else if y <? x then 1 else 0.

Fixpoint strcmp (a b : bytes) : Z :=
  match a, b with
  | [], [] => 0
  | [], y :: _ => - y
  | x :: _, [] => x
  | x :: a, y :: b => if x =? y then strcmp a b else x - y
  end.

(** The difference of the first bytes that differ, for strings; [SQLITE_MISMATCH]
    for values that cannot be compared. *)
Definition cypherValueCompare (l r : CypherValue) : Z :=
  match l, r with
  | CYPHER_VALUE_NULL, CYPHER_VALUE_NULL => 0
  | CYPHER_VALUE_NULL, _ => -1
  | _, CYPHER_VALUE_NULL => 1
  | CYPHER_VALUE_BOOLEAN a, CYPHER_VALUE_BOOLEAN b => if Bool.eqb a b then 0 else if a then 1 else -1
  | CYPHER_VALUE_INTEGER a, CYPHER_VALUE_INTEGER b => compare_Z a b
  | CYPHER_VALUE_FLOAT a, CYPHER_VALUE_FLOAT b => if f32_ltb a b then -1 else if f32_ltb b a then 1 else 0
  | CYPHER_VALUE_STRING a, CYPHER_VALUE_STRING b =>
      match a, b with
      | None, None => 0
      | None, _ => -1
      | _, None => 1
      | Some a, Some b => strcmp a b
      end
  | CYPHER_VALUE_NODE a, CYPHER_VALUE_NODE b => compare_Z a b
  | CYPHER_VALUE_RELATIONSHIP a, CYPHER_VALUE_RELATIONSHIP b => compare_Z a b
  | _, _ => SQLITE_MISMATCH
  end.

Definition cypherValueGetBoolean (v : CypherValue) : bool := match v with CYPHER_VALUE_BOOLEAN b => b | _ => false end.
Definition cypherValueGetInteger (v : CypherValue) : Z := match v with CYPHER_VALUE_INTEGER i => i | _ => 0 end.
Definition cypherValueGetFloat (v : CypherValue) : f64 := match v with CYPHER_VALUE_FLOAT r => r | _ => S754_zero false end.
Definition cypherValueGetString (v : CypherValue) : option bytes := match v with CYPHER_VALUE_STRING z => z | _ => None end.
Definition cypherValueIsNull (v : CypherValue) : bool := match v with CYPHER_VALUE_NULL => true | _ => false end.

(** ** Variables *)

Definition bindings : Type := list (bytes * CypherValue).

(** Binding a value that has no copy reads through [NULL]. *)
Fixpoint bind_copy (c : bindings) (zVar : bytes) (v : CypherValue) : bindings :=
  match c with
  | [] => [(zVar, v)]
  | (x, w) :: c => if decide (x = zVar) then (x, v) :: c else (x, w) :: bind_copy c zVar v
  end.

Definition executionContextBind (c : bindings) (zVar : bytes) (v : CypherValue) : res bindings :=
  match cypherValueCopy v with Some v => Ok (bind_copy c zVar v) | None => Undef end.

Fixpoint executionContextGet (c : bindings) (zVar : bytes) : option CypherValue :=
  match c with
  | [] => None
  | (x, v) :: c => if decide (x = zVar) then Some v else executionContextGet c zVar
  end.

(** ** Rows *)

Definition CypherResult : Type := list (bytes * CypherValue).

Definition cypherResultAddColumn (r : CypherResult) (zName : bytes) (v : CypherValue) : res CypherResult :=
  match cypherValueCopy v with Some v => Ok (r ++ [(zName, v)]) | None => Err SQLITE_NOMEM end.

(** Names and strings are written as they are. *)
Definition column_json (fmt_6g : f64 -> bytes) (c : bytes * CypherValue) : bytes :=
  [34] ++ c.1 ++ [34; 58] ++ cypherValueToString fmt_6g c.2.

Fixpoint comma_separated (l : list bytes) : bytes :=
  match l with
  | [] => []
  | [x] => x
  | x :: l => x ++ [44] ++ comma_separated l
  end.

(** The buffer grows before it is full, so that the brace is always closed. *)
Definition cypherResultToJson (fmt_6g : f64 -> bytes) (r : CypherResult) : bytes :=
  [123] ++ comma_separated (column_json fmt_6g <$> r) ++ [125].

(** ** Properties *)

Lemma strcmp_eq (a b : bytes) : strcmp a b = 0 -> Forall (fun x => 0 < x) a -> Forall (fun x => 0 < x) b -> a = b.
Proof.
  revert b. induction a as [|x a IH]; intros [|y b]; cbn; intros E Ha Hb; [done| | |].
  - apply Forall_cons_1 in Hb as [Hy _]. lia.
  - apply Forall_cons_1 in Ha as [Hx _]. lia.
  - apply Forall_cons_1 in Ha as [_ Ha]. apply Forall_cons_1 in Hb as [_ Hb]. destruct (Z.eqb_spec x y) as [->|]; [|lia].
    f_equal. by apply IH.
Qed.

Lemma strcmp_antisym (a b : bytes) : strcmp b a = - strcmp a b.
Proof.
  revert b. induction a as [|x a IH]; intros [|y b]; cbn; [done|lia|lia|].
  rewrite (Z.eqb_sym y x). destruct (Z.eqb_spec x y); [apply IH|lia].
Qed.

Lemma strcmp_refl (a : bytes) : strcmp a a = 0.
Proof. induction a as [|x a IH]; [done|]. cbn. by rewrite Z.eqb_refl. Qed.

Lemma compare_Z_antisym (x y : Z) : compare_Z y x = - compare_Z x y.
Proof. unfold compare_Z. destruct (Z.ltb_spec x y), (Z.ltb_spec y x); lia. Qed.

Lemma cypher_compare_antisym (l r : CypherValue) : cypherValueCompare l r <> SQLITE_MISMATCH -> cypherValueCompare r l = - cypherValueCompare l r.
Proof.
  destruct l as [|a|a|a|a|a|a| |a|a], r as [|b|b|b|b|b|b| |b|b]; cbn; try done; intros _; try apply compare_Z_antisym.
  - by destruct a, b.
  - destruct (f32_ltb a b) eqn:E, (f32_ltb b a) eqn:E'; try done. pose proof (f32_ltb_trans _ _ _ E E') as Ht. by rewrite f32_ltb_irrefl in Ht.
  - destruct a, b; try done. apply strcmp_antisym.
Qed.

(** A variable has the value bound to it last; the others keep theirs. *)
Lemma bind_get (c c' : bindings) (zVar x : bytes) (v : CypherValue) : executionContextBind c zVar v = Ok c' ->
  executionContextGet c' x = if decide (x = zVar) then cypherValueCopy v else executionContextGet c x.
Proof.
  unfold executionContextBind. destruct (cypherValueCopy v) as [w|]; [|done]. intros [= <-].
  induction c as [|[y u] c IH]; cbn [bind_copy executionContextGet].
  - case_decide as E; case_decide as E'; congruence.
  - destruct (decide (y = zVar)) as [->|Hy]; cbn [executionContextGet].
    + destruct (decide (zVar = x)) as [->|Hx]; [by rewrite decide_True|]. by rewrite decide_False by congruence.
    + destruct (decide (y = x)) as [->|Hx]; [by rewrite decide_False|]. apply IH.
Qed.
