(* ===== verification/CypherEval.v ===== *)
(** * Evaluation of Cypher expressions (cypher-expressions.c)

    Expressions are evaluated to values; an integer operation is done on
    [double]s.  [pow] and the format [%.6g] are parameters.  A string that is
    [NULL] is dereferenced by most operations, which is [Undef], and so is a
    conversion out of range.  [min] and [max] return their argument itself,
    which is then destroyed: a value that owns memory is lost.

    Shown: a semantics of expressions in terms of integers and texts, and that
    evaluation agrees with it; where it departs from what is expected. *)

From Stdlib Require Import String ZArith Lia Floats.SpecFloat.
From stdpp Require Import base option list numbers.
From S2P Require Import Prelude Float32 FloatOrder FloatExact Codec Shadow DefParser Values Scalar CypherRows.

Local Open Scope Z_scope.
Local Open Scope query_scope.

(** ** Expressions *)

Inductive CypherArithmeticOp :=
| CYPHER_OP_ADD | CYPHER_OP_SUBTRACT | CYPHER_OP_MULTIPLY | CYPHER_OP_DIVIDE | CYPHER_OP_MODULO | CYPHER_OP_POWER.

Inductive CypherComparisonOp :=
| CYPHER_CMP_EQUAL | CYPHER_CMP_NOT_EQUAL | CYPHER_CMP_LESS | CYPHER_CMP_LESS_EQUAL | CYPHER_CMP_GREATER | CYPHER_CMP_GREATER_EQUAL
| CYPHER_CMP_IS_NULL | CYPHER_CMP_IS_NOT_NULL | CYPHER_CMP_STARTS_WITH | CYPHER_CMP_ENDS_WITH | CYPHER_CMP_CONTAINS | CYPHER_CMP_IN.

Inductive CypherLogicalOp := CYPHER_LOGIC_AND | CYPHER_LOGIC_OR | CYPHER_LOGIC_NOT | CYPHER_LOGIC_XOR.

Inductive CypherExpression :=
| CYPHER_EXPR_LITERAL (literal : CypherValue)
| CYPHER_EXPR_VARIABLE (zName : option bytes)
| CYPHER_EXPR_PROPERTY (pObject : CypherExpression) (zProperty : bytes)
| CYPHER_EXPR_ARITHMETIC (pLeft pRight : CypherExpression) (op : CypherArithmeticOp)
| CYPHER_EXPR_COMPARISON (pLeft pRight : CypherExpression) (op : CypherComparisonOp)
| CYPHER_EXPR_LOGICAL (pLeft pRight : CypherExpression) (op : CypherLogicalOp)
| CYPHER_EXPR_STRING (pLeft pRight : CypherExpression) (op : Z)
| CYPHER_EXPR_LIST (apElements : list CypherExpression)
| CYPHER_EXPR_MAP (pairs : list (bytes * CypherExpression))
| CYPHER_EXPR_FUNCTION (zName : bytes) (apArgs : list CypherExpression)
| CYPHER_EXPR_CASE.

(** ** Operators *)

(** The conversion of a [double] to a 64-bit integer. *)
Definition f64_to_i64 (x : f64) : res Z :=
  match trunc_f64 x with
  | Some z => if (- 2 ^ 63 <=? z) && (z <? 2 ^ 63) then Ok z else Undef
  | None => Undef
  end.

Definition f64_is_zero (x : f64) : bool := match x with S754_zero _ => true | _ => false end.

(** [None]: no number. *)
Definition numeric (v : CypherValue) : option f64 :=
  match v with
  | CYPHER_VALUE_INTEGER i => Some (f64_of_Z i)
  | CYPHER_VALUE_FLOAT r => Some r
  | _ => None
  end.

Definition is_integer (v : CypherValue) : bool := match v with CYPHER_VALUE_INTEGER _ => true | _ => false end.

Section Evaluation.
Context (c_pow : f64 -> f64 -> f64) (fmt_6g : f64 -> bytes).

(** The result of an operation; [None]: null. *)
Definition arithmetic (op : CypherArithmeticOp) (l r : f64) : option f64 :=
  match op with
  | CYPHER_OP_ADD => Some (f64_add l r)
  | CYPHER_OP_SUBTRACT => Some (f64_sub l r)
  | CYPHER_OP_MULTIPLY => Some (f64_mul l r)
  | CYPHER_OP_DIVIDE => if f64_is_zero r then None else Some (f64_div l r)
  | CYPHER_OP_MODULO => if f64_is_zero r then None else Some (f64_fmod l r)
  | CYPHER_OP_POWER => Some (c_pow l r)
  end.

Definition keeps_integers (op : CypherArithmeticOp) : bool := match op with CYPHER_OP_DIVIDE | CYPHER_OP_POWER => false | _ => true end.

Definition cypherEvaluateArithmetic (pLeft pRight : CypherValue) (op : CypherArithmeticOp) : res CypherValue :=
  if cypherValueIsNull pLeft || cypherValueIsNull pRight then Ok CYPHER_VALUE_NULL
  else
    match numeric pLeft, numeric pRight with
    | Some l, Some r =>
        match arithmetic op l r with
        | None => Ok CYPHER_VALUE_NULL
        | Some result =>
            if is_integer pLeft && is_integer pRight && keeps_integers op then z <-? f64_to_i64 result; Ok (CYPHER_VALUE_INTEGER z)
            else Ok (CYPHER_VALUE_FLOAT result)
        end
    | _, _ => Err SQLITE_MISMATCH
    end.

(** [strncmp(a, b, strlen(b)) == 0] *)
Fixpoint starts_with (a b : bytes) : bool :=
  match b, a with
  | [], _ => true
  | y :: b, x :: a => (x =? y) && starts_with a b
  | _ :: _, [] => false
  end.

Fixpoint strstr (a b : bytes) : bool :=
  starts_with a b || match a with [] => false | _ :: a => strstr a b end.

Definition ends_with (a b : bytes) : bool :=
  if (length a <? length b)%nat then false else strcmp (drop (length a - length b) a) b =? 0.

(** An operation on two strings, null for other values. *)
Definition on_strings (f : bytes -> bytes -> bool) (pLeft pRight : CypherValue) : res CypherValue :=
  match pLeft, pRight with
  | CYPHER_VALUE_STRING (Some a), CYPHER_VALUE_STRING (Some b) => Ok (CYPHER_VALUE_BOOLEAN (f a b))
  | CYPHER_VALUE_STRING _, CYPHER_VALUE_STRING _ => Undef
  | _, _ => Ok CYPHER_VALUE_NULL
  end.

Definition cypherEvaluateComparison (pLeft pRight : CypherValue) (op : CypherComparisonOp) : res CypherValue :=
  let by_order (f : Z -> bool) := Ok (CYPHER_VALUE_BOOLEAN (f (cypherValueCompare pLeft pRight))) in
  match op with
  | CYPHER_CMP_IS_NULL => Ok (CYPHER_VALUE_BOOLEAN (cypherValueIsNull pLeft))
  | CYPHER_CMP_IS_NOT_NULL => Ok (CYPHER_VALUE_BOOLEAN (negb (cypherValueIsNull pLeft)))
  | _ =>
      if cypherValueIsNull pLeft || cypherValueIsNull pRight then Ok CYPHER_VALUE_NULL
      else
        match op with
        | CYPHER_CMP_EQUAL => by_order (fun cmp => cmp =? 0)
        | CYPHER_CMP_NOT_EQUAL => by_order (fun cmp => negb (cmp =? 0))
        | CYPHER_CMP_LESS => by_order (fun cmp => cmp <? 0)
        | CYPHER_CMP_LESS_EQUAL => by_order (fun cmp => cmp <=? 0)
        | CYPHER_CMP_GREATER => by_order (fun cmp => 0 <? cmp)
        | CYPHER_CMP_GREATER_EQUAL => by_order (fun cmp => 0 <=? cmp)
        | CYPHER_CMP_STARTS_WITH => on_strings starts_with pLeft pRight
        | CYPHER_CMP_ENDS_WITH => on_strings ends_with pLeft pRight
        | CYPHER_CMP_CONTAINS => on_strings strstr pLeft pRight
        | _ =>
            match pRight with
            | CYPHER_VALUE_LIST l => Ok (CYPHER_VALUE_BOOLEAN (existsb (fun v => cypherValueCompare pLeft v =? 0) l))
            | _ => Ok CYPHER_VALUE_NULL
            end
        end
  end.

(** NOT uses the right operand; no expression is evaluated with this. *)
Definition cypherEvaluateLogical (pLeft pRight : option CypherValue) (op : CypherLogicalOp) : res CypherValue :=
  match op, pLeft, pRight with
  | CYPHER_LOGIC_AND, Some l, Some r =>
      if cypherValueIsNull l || cypherValueIsNull r then Ok CYPHER_VALUE_NULL
      else Ok (CYPHER_VALUE_BOOLEAN (cypherValueGetBoolean l && cypherValueGetBoolean r))
  | CYPHER_LOGIC_OR, Some l, Some r =>
      if cypherValueIsNull l && cypherValueIsNull r then Ok CYPHER_VALUE_NULL
      else if cypherValueGetBoolean l || cypherValueGetBoolean r then Ok (CYPHER_VALUE_BOOLEAN true)
      else if cypherValueIsNull l || cypherValueIsNull r then Ok CYPHER_VALUE_NULL
      else Ok (CYPHER_VALUE_BOOLEAN false)
  | CYPHER_LOGIC_NOT, _, Some r =>
      if cypherValueIsNull r then Ok CYPHER_VALUE_NULL else Ok (CYPHER_VALUE_BOOLEAN (negb (cypherValueGetBoolean r)))
  | _, _, _ => Err SQLITE_MISUSE
  end.

(** ** Functions *)

(** [NULL] stays null; [f] is given the rest. *)
Definition one_argument (f : CypherValue -> res CypherValue) (apArgs : list CypherValue) : res CypherValue :=
  match apArgs with
  | [CYPHER_VALUE_NULL] => Ok CYPHER_VALUE_NULL
  | [v] => f v
  | _ => Err SQLITE_MISUSE
  end.

(** [toupper] and [tolower] in the C locale, which leaves the bytes from 128 on. *)
Definition upper_byte (c : Z) : Z := if (97 <=? c) && (c <=? 122) then c - 32 else c.

Definition change_case (f : Z -> Z) (v : CypherValue) : res CypherValue :=
  match v with
  | CYPHER_VALUE_STRING (Some z) => Ok (CYPHER_VALUE_STRING (Some (f <$> z)))
  | CYPHER_VALUE_STRING None => Undef
  | _ => Err SQLITE_MISMATCH
  end.

Definition cypherFunctionToUpper : list CypherValue -> res CypherValue := one_argument (change_case upper_byte).
Definition cypherFunctionToLower : list CypherValue -> res CypherValue := one_argument (change_case lower_byte).

Definition cypherFunctionLength : list CypherValue -> res CypherValue :=
  one_argument (fun v =>
    match v with
    | CYPHER_VALUE_STRING (Some z) => Ok (CYPHER_VALUE_INTEGER (Z.of_nat (length z)))
    | CYPHER_VALUE_STRING None => Undef
    | _ => Err SQLITE_MISMATCH
    end).

Definition cypherFunctionSize : list CypherValue -> res CypherValue := cypherFunctionLength.

(** [-val] overflows for the least integer. *)
Definition cypherFunctionAbs : list CypherValue -> res CypherValue :=
  one_argument (fun v =>
    match v with
    | CYPHER_VALUE_INTEGER i => if Z.abs i <? 2 ^ 63 then Ok (CYPHER_VALUE_INTEGER (Z.abs i)) else Undef
    | CYPHER_VALUE_FLOAT r => Ok (CYPHER_VALUE_FLOAT (f64_abs r))
    | _ => Err SQLITE_MISMATCH
    end).

(** A function of floating-point numbers that leaves integers alone. *)
Definition rounding (f : f64 -> f64) : list CypherValue -> res CypherValue :=
  one_argument (fun v =>
    match v with
    | CYPHER_VALUE_INTEGER i => Ok (CYPHER_VALUE_INTEGER i)
    | CYPHER_VALUE_FLOAT r => Ok (CYPHER_VALUE_FLOAT (f r))
    | _ => Err SQLITE_MISMATCH
    end).

Definition cypherFunctionCeil : list CypherValue -> res CypherValue := rounding f64_ceil.
Definition cypherFunctionFloor : list CypherValue -> res CypherValue := rounding f64_floor.
Definition cypherFunctionRound : list CypherValue -> res CypherValue := rounding f64_round.

Definition cypherFunctionSqrt : list CypherValue -> res CypherValue :=
  one_argument (fun v =>
    match numeric v with
    | Some x =>
        let val := f64_sqrt x in
        Ok (if f32_ltb val (S754_zero false) then CYPHER_VALUE_NULL else CYPHER_VALUE_FLOAT val)
    | None => Err SQLITE_MISMATCH
    end).

Definition cypherFunctionToString (apArgs : list CypherValue) : res CypherValue :=
  match apArgs with [v] => Ok (CYPHER_VALUE_STRING (Some (cypherValueToString fmt_6g v))) | _ => Err SQLITE_MISUSE end.

Definition cypherFunctionCount (apArgs : list CypherValue) : res CypherValue :=
  match apArgs with [v] => Ok (CYPHER_VALUE_INTEGER (if cypherValueIsNull v then 0 else 1)) | _ => Err SQLITE_MISUSE end.

Definition cypherFunctionSum : list CypherValue -> res CypherValue := rounding (fun r => r).

Definition cypherFunctionAvg : list CypherValue -> res CypherValue :=
  one_argument (fun v => match numeric v with Some x => Ok (CYPHER_VALUE_FLOAT x) | None => Err SQLITE_MISMATCH end).

Definition cypherFunctionMin (apArgs : list CypherValue) : res CypherValue := match apArgs with [v] => Ok v | _ => Err SQLITE_MISUSE end.
Definition cypherFunctionMax (apArgs : list CypherValue) : res CypherValue := match apArgs with [v] => Ok v | _ => Err SQLITE_MISUSE end.

(** All take one argument; whether the result is the argument itself. *)
Record CypherBuiltinFunction := MkBuiltin { bf_zName : bytes; bf_xFunction : list CypherValue -> res CypherValue; bf_shares : bool }.

Definition g_builtinFunctions : list CypherBuiltinFunction :=
  [ MkBuiltin (bstr "toUpper") cypherFunctionToUpper false;
    MkBuiltin (bstr "toLower") cypherFunctionToLower false;
    MkBuiltin (bstr "length") cypherFunctionLength false;
    MkBuiltin (bstr "size") cypherFunctionSize false;
    MkBuiltin (bstr "abs") cypherFunctionAbs false;
    MkBuiltin (bstr "ceil") cypherFunctionCeil false;
    MkBuiltin (bstr "floor") cypherFunctionFloor false;
    MkBuiltin (bstr "round") cypherFunctionRound false;
    MkBuiltin (bstr "sqrt") cypherFunctionSqrt false;
    MkBuiltin (bstr "toString") cypherFunctionToString false;
    MkBuiltin (bstr "count") cypherFunctionCount false;
    MkBuiltin (bstr "sum") cypherFunctionSum false;
    MkBuiltin (bstr "avg") cypherFunctionAvg false;
    MkBuiltin (bstr "min") cypherFunctionMin true;
    MkBuiltin (bstr "max") cypherFunctionMax true ].

(** The table in use: [[]] until [cypherRegisterBuiltinFunctions] is called. *)
Context (g_functions : list CypherBuiltinFunction).

Definition cypherRegisterBuiltinFunctions : list CypherBuiltinFunction := g_builtinFunctions.

Definition cypherGetBuiltinFunction (zName : bytes) : option CypherBuiltinFunction :=
  List.find (fun f => bool_decide (lower_byte <$> zName = lower_byte <$> bf_zName f)) g_functions.

(** Whether destroying a value frees memory. *)
Definition owns_memory (v : CypherValue) : bool :=
  match v with CYPHER_VALUE_STRING (Some _) | CYPHER_VALUE_LIST _ | CYPHER_VALUE_MAP _ => true | _ => false end.

(** The call, and the destruction of the arguments. *)
Definition call_function (f : CypherBuiltinFunction) (aValues : list CypherValue) : res CypherValue :=
  v <-? bf_xFunction f aValues; if bf_shares f && owns_memory v then Undef else Ok v.

(** ** Evaluation *)

Definition evaluate_variable (context : option bindings) (zName : option bytes) : res CypherValue :=
  match context, zName with
  | Some c, Some x =>
      match executionContextGet c x with
      | Some v =>
          match cypherValueCopy v with
          | None => Undef
          | Some CYPHER_VALUE_NULL => Err SQLITE_NOMEM
          | Some v => Ok v
          end
      | None => Ok CYPHER_VALUE_NULL
      end
  | _, _ => Ok CYPHER_VALUE_NULL
  end.

(** Property accesses, logical operations, lists, maps and cases are null. *)
Fixpoint cypherExpressionEvaluate (context : option bindings) (pExpr : CypherExpression) : res CypherValue :=
  match pExpr with
  | CYPHER_EXPR_LITERAL v => match cypherValueCopy v with Some v => Ok v | None => Err SQLITE_NOMEM end
  | CYPHER_EXPR_VARIABLE zName => evaluate_variable context zName
  | CYPHER_EXPR_ARITHMETIC l r op =>
      left <-? cypherExpressionEvaluate context l; right <-? cypherExpressionEvaluate context r; cypherEvaluateArithmetic left right op
  | CYPHER_EXPR_COMPARISON l r op =>
      left <-? cypherExpressionEvaluate context l; right <-? cypherExpressionEvaluate context r; cypherEvaluateComparison left right op
  | CYPHER_EXPR_FUNCTION zName apArgs =>
      let fix each (l : list CypherExpression) : res (list CypherValue) :=
        match l with
        | [] => Ok []
        | e :: l => v <-? cypherExpressionEvaluate context e; vs <-? each l; Ok (v :: vs)
        end in
      match cypherGetBuiltinFunction zName with
      | None => Err SQLITE_ERROR
      | Some f => if negb (length apArgs =? 1)%nat then Err SQLITE_ERROR else aValues <-? each apArgs; call_function f aValues
      end
  | _ => Ok CYPHER_VALUE_NULL
  end.
End Evaluation.

(** ** What expressions mean *)

Definition scalar (v : CypherValue) : Prop := match v with CYPHER_VALUE_PATH | CYPHER_VALUE_LIST _ | CYPHER_VALUE_MAP _ => False | _ => True end.

Definition text (a : bytes) : CypherValue := CYPHER_VALUE_STRING (Some a).

Definition no_zero (a : bytes) : Prop := Forall (fun x => 0 < x) a.

Definition int_op (op : CypherArithmeticOp) (a b : Z) : option Z :=
  match op with
  | CYPHER_OP_ADD => Some (a + b)
  | CYPHER_OP_SUBTRACT => Some (a - b)
  | CYPHER_OP_MULTIPLY => Some (a * b)
  | CYPHER_OP_MODULO => if b =? 0 then None else Some (Z.rem a b)
  | _ => None
  end.

Definition int_rel (op : CypherComparisonOp) (a b : Z) : option Prop :=
  match op with
  | CYPHER_CMP_EQUAL => Some (a = b)
  | CYPHER_CMP_NOT_EQUAL => Some (a <> b)
  | CYPHER_CMP_LESS => Some (a < b)
  | CYPHER_CMP_LESS_EQUAL => Some (a <= b)
  | CYPHER_CMP_GREATER => Some (b < a)
  | CYPHER_CMP_GREATER_EQUAL => Some (b <= a)
  | _ => None
  end.

(** The order of texts. *)
Inductive text_lt : bytes -> bytes -> Prop :=
| text_lt_nil y b : text_lt [] (y :: b)
| text_lt_head x y a b : x < y -> text_lt (x :: a) (y :: b)
| text_lt_tail x a b : text_lt a b -> text_lt (x :: a) (x :: b).

Definition text_rel (op : CypherComparisonOp) (a b : bytes) : option Prop :=
  match op with
  | CYPHER_CMP_EQUAL => Some (a = b)
  | CYPHER_CMP_NOT_EQUAL => Some (a <> b)
  | CYPHER_CMP_LESS => Some (text_lt a b)
  | CYPHER_CMP_LESS_EQUAL => Some (text_lt a b \/ a = b)
  | CYPHER_CMP_GREATER => Some (text_lt b a)
  | CYPHER_CMP_GREATER_EQUAL => Some (text_lt b a \/ a = b)
  | CYPHER_CMP_STARTS_WITH => Some (b `prefix_of` a)
  | CYPHER_CMP_ENDS_WITH => Some (b `suffix_of` a)
  | CYPHER_CMP_CONTAINS => Some (exists p s, a = p ++ b ++ s)
  | _ => None
  end.

(** Some of the functions. *)
Inductive function_means : bytes -> CypherValue -> CypherValue -> Prop :=
| f_length a : function_means (bstr "length") (text a) (CYPHER_VALUE_INTEGER (Z.of_nat (length a)))
| f_upper a : function_means (bstr "toUpper") (text a) (text (upper_byte <$> a))
| f_lower a : function_means (bstr "toLower") (text a) (text (lower_byte <$> a))
| f_abs i : Z.abs i < 2 ^ 63 -> function_means (bstr "abs") (CYPHER_VALUE_INTEGER i) (CYPHER_VALUE_INTEGER (Z.abs i))
| f_count v : v <> CYPHER_VALUE_NULL -> function_means (bstr "count") v (CYPHER_VALUE_INTEGER 1)
| f_null name : name ∈ [bstr "length"; bstr "toUpper"; bstr "toLower"; bstr "abs"; bstr "ceil"; bstr "floor"; bstr "round"; bstr "sqrt"; bstr "sum"; bstr "avg"] ->
    function_means name CYPHER_VALUE_NULL CYPHER_VALUE_NULL.

Inductive means (c : bindings) : CypherExpression -> CypherValue -> Prop :=
| m_literal v : scalar v -> means c (CYPHER_EXPR_LITERAL v) v
| m_list l : Forall scalar l -> means c (CYPHER_EXPR_LITERAL (CYPHER_VALUE_LIST l)) (CYPHER_VALUE_LIST l)
| m_variable x v : executionContextGet c x = Some v -> scalar v -> v <> CYPHER_VALUE_NULL -> means c (CYPHER_EXPR_VARIABLE (Some x)) v
| m_unbound x : executionContextGet c x = None -> means c (CYPHER_EXPR_VARIABLE (Some x)) CYPHER_VALUE_NULL
| m_arithmetic l r op a b z : means c l (CYPHER_VALUE_INTEGER a) -> means c r (CYPHER_VALUE_INTEGER b) ->
    exact_range a -> exact_range b -> int_op op a b = Some z -> exact_range z ->
    means c (CYPHER_EXPR_ARITHMETIC l r op) (CYPHER_VALUE_INTEGER z)
| m_by_zero l r op a : means c l (CYPHER_VALUE_INTEGER a) -> means c r (CYPHER_VALUE_INTEGER 0) -> op = CYPHER_OP_DIVIDE \/ op = CYPHER_OP_MODULO ->
    means c (CYPHER_EXPR_ARITHMETIC l r op) CYPHER_VALUE_NULL
| m_arithmetic_null l r op u v : means c l u -> means c r v -> u = CYPHER_VALUE_NULL \/ v = CYPHER_VALUE_NULL ->
    means c (CYPHER_EXPR_ARITHMETIC l r op) CYPHER_VALUE_NULL
| m_int_rel l r op a b P q : means c l (CYPHER_VALUE_INTEGER a) -> means c r (CYPHER_VALUE_INTEGER b) -> int_rel op a b = Some P ->
    (q = true <-> P) -> means c (CYPHER_EXPR_COMPARISON l r op) (CYPHER_VALUE_BOOLEAN q)
| m_text_rel l r op a b P q : means c l (text a) -> means c r (text b) -> no_zero a -> no_zero b -> text_rel op a b = Some P ->
    (q = true <-> P) -> means c (CYPHER_EXPR_COMPARISON l r op) (CYPHER_VALUE_BOOLEAN q)
| m_in l r a vs q : means c l (CYPHER_VALUE_INTEGER a) -> means c r (CYPHER_VALUE_LIST vs) -> (q = true <-> CYPHER_VALUE_INTEGER a ∈ vs) ->
    means c (CYPHER_EXPR_COMPARISON l r CYPHER_CMP_IN) (CYPHER_VALUE_BOOLEAN q)
| m_is_null l r v w q : means c l v -> means c r w -> (q = true <-> v = CYPHER_VALUE_NULL) ->
    means c (CYPHER_EXPR_COMPARISON l r CYPHER_CMP_IS_NULL) (CYPHER_VALUE_BOOLEAN q)
| m_comparison_null l r op u v : means c l u -> means c r v -> u = CYPHER_VALUE_NULL \/ v = CYPHER_VALUE_NULL ->
    op <> CYPHER_CMP_IS_NULL -> op <> CYPHER_CMP_IS_NOT_NULL -> means c (CYPHER_EXPR_COMPARISON l r op) CYPHER_VALUE_NULL
| m_function name e v w : means c e v -> function_means name v w -> means c (CYPHER_EXPR_FUNCTION name [e]) w.

(** ** Texts *)

Lemma starts_with_prefix (a b : bytes) : starts_with a b = true <-> b `prefix_of` a.
Proof.
  revert a. induction b as [|y b IH]; intros [|x a]; cbn.
  - split; [intros _; by exists []|done].
  - split; [intros _; by exists (x :: a)|done].
  - split; [done|]. intros [k Hk]. done.
  - rewrite andb_true_iff, Z.eqb_eq, IH. split.
    + intros [-> [k ->]]. by exists k.
    + intros [k Hk]. injection Hk as -> ->. split; [done|]. by exists k.
Qed.

Lemma strstr_infix (a b : bytes) : strstr a b = true <-> exists p s, a = p ++ b ++ s.
Proof.
  induction a as [|x a IH]; cbn [strstr].
  - rewrite orb_false_r, starts_with_prefix. split.
    + intros [k Hk]. by exists [], k.
    + intros (p & s & E). symmetry in E. apply app_nil in E as [-> E]. by exists s.
  - rewrite orb_true_iff, starts_with_prefix, IH. split.
    + intros [[k Hk]|(p & s & ->)]; [by exists [], k|by exists (x :: p), s].
    + intros ([|y p] & s & E); [left; by exists s|]. injection E as -> ->. right. by exists p, s.
Qed.

Lemma ends_with_suffix (a b : bytes) : no_zero a -> no_zero b -> ends_with a b = true <-> b `suffix_of` a.
Proof.
  intros Ha Hb. unfold ends_with. destruct (Nat.ltb_spec (length a) (length b)) as [Hlt|Hge].
  - split; [done|]. intros [k ->]. rewrite length_app in Hlt. lia.
  - rewrite Z.eqb_eq. split.
    + intros E. apply strcmp_eq in E; [|by apply Forall_drop|done]. exists (take (length a - length b) a). rewrite <- E at 2. symmetry. apply take_drop.
    + intros [k ->]. rewrite length_app. replace (length k + length b - length b)%nat with (length k) by lia. rewrite drop_app_length. apply strcmp_refl.
Qed.

Lemma strcmp_order (a b : bytes) : no_zero a -> no_zero b -> (strcmp a b < 0 <-> text_lt a b) /\ (0 < strcmp a b <-> text_lt b a) /\ (strcmp a b = 0 <-> a = b).
Proof.
  intros Ha Hb. assert (Hlt : forall a b, no_zero a -> no_zero b -> (strcmp a b < 0 <-> text_lt a b)).
  { clear. induction a as [|x a IH]; intros [|y b] Ha Hb; cbn [strcmp].
    - split; [lia|]. intros H. inversion H.
    - apply Forall_cons_1 in Hb as [Hy _]. split; [intros _; constructor|lia].
    - apply Forall_cons_1 in Ha as [Hx _]. split; [lia|]. intros H. inversion H.
    - apply Forall_cons_1 in Ha as [_ Ha]. apply Forall_cons_1 in Hb as [_ Hb]. destruct (Z.eqb_spec x y) as [->|Hne].
      + rewrite IH by done. split; [by constructor|]. intros H. inversion H; [lia|done].
      + split; [intros H; constructor; lia|]. intros H. inversion H; subst; [lia|done]. }
  split; [by apply Hlt|]. split.
  - rewrite <- Hlt by done. rewrite strcmp_antisym. lia.
  - split; [intros E; by apply strcmp_eq|intros ->; apply strcmp_refl].
Qed.

(** ** Evaluation agrees *)

Lemma copy_scalar (v : CypherValue) : scalar v -> cypherValueCopy v = Some v.
Proof. by destruct v. Qed.

Lemma copy_list (l : list CypherValue) : Forall scalar l -> cypherValueCopy (CYPHER_VALUE_LIST l) = Some (CYPHER_VALUE_LIST l).
Proof.
  intros Hl. cbn [cypherValueCopy]. match goal with |- CYPHER_VALUE_LIST <$> ?f l = _ => enough (E : f l = Some l) by (by rewrite E) end.
  induction Hl as [|v l Hv _ IH]; [done|]. by rewrite copy_scalar, IH.
Qed.

Lemma to_i64_exact (x : f64) (z : Z) : is_int x z -> exact_range z -> f64_to_i64 x = Ok z.
Proof.
  intros Hx Hz. apply is_int_trunc in Hx. unfold f64_to_i64, exact_range in *.
  assert (E : trunc_f64 x = Some z) by (destruct x as [s|s| |s m e]; cbn in Hx |- *; by rewrite ?Hx).
  rewrite E. rewrite (proj2 (Z.leb_le _ _)), (proj2 (Z.ltb_lt _ _)) by lia. done.
Qed.

Lemma same_truth (x q : bool) (P : Prop) : (x = true <-> P) -> (q = true <-> P) -> x = q.
Proof. destruct x, q; naive_solver. Qed.

Section Agreement.
Context (c_pow : f64 -> f64 -> f64) (fmt_6g : f64 -> bytes) (c : bindings).
Abbreviation evaluate := (cypherExpressionEvaluate c_pow (cypherRegisterBuiltinFunctions fmt_6g) (Some c)).

Lemma arithmetic_exact (op : CypherArithmeticOp) (a b z : Z) : exact_range a -> exact_range b -> int_op op a b = Some z -> exact_range z ->
  cypherEvaluateArithmetic c_pow (CYPHER_VALUE_INTEGER a) (CYPHER_VALUE_INTEGER b) op = Ok (CYPHER_VALUE_INTEGER z).
Proof.
  intros Ha Hb E Hz. pose proof (is_int_of_Z a Ha) as Ia. pose proof (is_int_of_Z b Hb) as Ib.
  assert (Hr : exists x, arithmetic c_pow op (f64_of_Z a) (f64_of_Z b) = Some x /\ is_int x z /\ keeps_integers op = true).
  { destruct op; cbn [int_op arithmetic] in *; try done.
    - injection E as <-. eexists. split; [done|]. split; [by apply is_int_add|done].
    - injection E as <-. eexists. split; [done|]. split; [by apply is_int_sub|done].
    - injection E as <-. eexists. split; [done|]. split; [by apply is_int_mul|done].
    - destruct (Z.eqb_spec b 0) as [|Hne]; [done|]. injection E as <-.
      assert (Hn : f64_is_zero (f64_of_Z b) = false) by (destruct (f64_of_Z b); done). rewrite Hn.
      eexists. split; [done|]. split; [by apply is_int_fmod|done]. }
  destruct Hr as (x & Ex & Ix & Ek). unfold cypherEvaluateArithmetic. cbn [cypherValueIsNull orb numeric]. rewrite Ex. cbn [is_integer andb]. rewrite Ek.
  by rewrite (to_i64_exact x z Ix Hz).
Qed.

Lemma compare_int_rel (op : CypherComparisonOp) (a b : Z) (P : Prop) (q : bool) : int_rel op a b = Some P -> (q = true <-> P) ->
  cypherEvaluateComparison (CYPHER_VALUE_INTEGER a) (CYPHER_VALUE_INTEGER b) op = Ok (CYPHER_VALUE_BOOLEAN q).
Proof.
  intros E Hq. pose proof (fun x => same_truth x q P) as Hb.
  assert (Hc : compare_Z a b = -1 /\ a < b \/ compare_Z a b = 0 /\ a = b \/ compare_Z a b = 1 /\ b < a)
    by (unfold compare_Z; destruct (Z.ltb_spec a b), (Z.ltb_spec b a); lia).
  destruct op; cbn [int_rel] in E; try done; injection E as <-; cbn; do 2 f_equal; (apply Hb; [|done]);
    destruct Hc as [[-> ?]|[[-> ?]|[-> ?]]]; cbn; split; intros; done || lia.
Qed.

Lemma compare_text_rel (op : CypherComparisonOp) (a b : bytes) (P : Prop) (q : bool) : no_zero a -> no_zero b -> text_rel op a b = Some P ->
  (q = true <-> P) -> cypherEvaluateComparison (text a) (text b) op = Ok (CYPHER_VALUE_BOOLEAN q).
Proof.
  intros Ha Hb E Hq. pose proof (fun x => same_truth x q P) as He.
  destruct (strcmp_order a b Ha Hb) as (Hl & Hg & Heq).
  destruct op; cbn [text_rel] in E; try done; injection E as <-; cbn; do 2 f_equal; (apply He; [|done]).
  - by rewrite Z.eqb_eq.
  - by rewrite negb_true_iff, Z.eqb_neq, <- Heq.
  - by rewrite Z.ltb_lt.
  - rewrite Z.leb_le, <- Hl, <- Heq. lia.
  - by rewrite Z.ltb_lt.
  - rewrite Z.leb_le, <- Hg, <- Heq. lia.
  - apply starts_with_prefix.
  - by apply ends_with_suffix.
  - apply strstr_infix.
Qed.

Lemma compare_in (a : Z) (vs : list CypherValue) (q : bool) : (q = true <-> CYPHER_VALUE_INTEGER a ∈ vs) ->
  cypherEvaluateComparison (CYPHER_VALUE_INTEGER a) (CYPHER_VALUE_LIST vs) CYPHER_CMP_IN = Ok (CYPHER_VALUE_BOOLEAN q).
Proof.
  intros Hq. cbn. do 2 f_equal. apply (same_truth _ _ (CYPHER_VALUE_INTEGER a ∈ vs)); [|done]. rewrite existsb_exists. split.
  - intros (v & Hv & E). apply list_elem_of_In in Hv. destruct v as [|b|b|b|b|b|b| |b|b]; cbn in E; try done.
    assert (a = b) as -> by (unfold compare_Z in E; destruct (Z.ltb_spec a b), (Z.ltb_spec b a); done || lia). done.
  - intros Hv. exists (CYPHER_VALUE_INTEGER a). split; [by apply list_elem_of_In|]. cbn. unfold compare_Z. by rewrite Z.ltb_irrefl.
Qed.

Lemma function_agrees (name : bytes) (v w : CypherValue) : function_means name v w ->
  exists f, cypherGetBuiltinFunction (cypherRegisterBuiltinFunctions fmt_6g) name = Some f /\ call_function f [v] = Ok w.
Proof.
  intros [a|a|a|i Hi|u Hu|n Hn].
  - eexists. split; [reflexivity|done].
  - eexists. split; [reflexivity|done].
  - eexists. split; [reflexivity|done].
  - eexists. split; [reflexivity|]. unfold call_function. cbn [bf_xFunction bf_shares]. unfold cypherFunctionAbs, one_argument.
    by rewrite (proj2 (Z.ltb_lt _ _) Hi).
  - eexists. split; [reflexivity|]. by destruct u.
  - repeat (apply elem_of_cons in Hn as [->|Hn]; [eexists; split; [reflexivity|done]|]). by apply not_elem_of_nil in Hn.
Qed.

Lemma means_evaluates (e : CypherExpression) (v : CypherValue) : means c e v -> evaluate e = Ok v.
Proof.
  induction 1; cbn [cypherExpressionEvaluate].
  - by rewrite copy_scalar.
  - by rewrite copy_list.
  - cbn. rewrite H, copy_scalar by done. by destruct v.
  - cbn. by rewrite H.
  - rewrite IHmeans1, IHmeans2. cbn [res_bind]. by apply arithmetic_exact.
  - rewrite IHmeans1, IHmeans2. by destruct H1 as [-> | ->].
  - rewrite IHmeans1, IHmeans2. cbn [res_bind]. unfold cypherEvaluateArithmetic. destruct H1 as [-> | ->]; [done|]. by rewrite orb_true_r.
  - rewrite IHmeans1, IHmeans2. by eapply compare_int_rel.
  - rewrite IHmeans1, IHmeans2. by eapply compare_text_rel.
  - rewrite IHmeans1, IHmeans2. by apply compare_in.
  - rewrite IHmeans1, IHmeans2. cbn. do 2 f_equal. destruct v, q; naive_solver.
  - rewrite IHmeans1, IHmeans2. unfold cypherEvaluateComparison. destruct op; try done; cbn [res_bind]; destruct H1 as [-> | ->]; try done; by rewrite orb_true_r.
  - destruct (function_agrees name v w H0) as (f & -> & Ec). cbn. by rewrite IHmeans.
Qed.
End Agreement.

(** C8: Expressions evaluate to what they mean.  Integers are added,
    subtracted, multiplied and divided with remainder exactly while operands
    and results are below 2^53 in size, although the evaluator computes with
    floating-point numbers; comparisons of integers and of texts, prefixes,
    suffixes and infixes, membership in a list, tests for null, the
    propagation of null and the functions of [function_means] have their
    meaning, with the built-in functions registered; and an expression has one
    meaning at most. *)
Theorem cypher_eval_correct (c_pow : f64 -> f64 -> f64) (fmt_6g : f64 -> bytes) (c : bindings) (e : CypherExpression) (v : CypherValue) :
  means c e v ->
  cypherExpressionEvaluate c_pow (cypherRegisterBuiltinFunctions fmt_6g) (Some c) e = Ok v /\ forall w, means c e w -> w = v.
Proof.
  intros Hv. pose proof (means_evaluates c_pow fmt_6g c e v Hv) as Ev. split; [done|]. intros w Hw.
  pose proof (means_evaluates c_pow fmt_6g c e w Hw) as Ew. congruence.
Qed.

Definition int_literal (z : Z) : CypherExpression := CYPHER_EXPR_LITERAL (CYPHER_VALUE_INTEGER z).

(** (x * 1000003 + 7) % 1000 = 157, with x = 50. *)
Definition demo_expression : CypherExpression :=
  CYPHER_EXPR_COMPARISON
    (CYPHER_EXPR_ARITHMETIC
       (CYPHER_EXPR_ARITHMETIC
          (CYPHER_EXPR_ARITHMETIC (CYPHER_EXPR_VARIABLE (Some (bstr "x"))) (int_literal 1000003) CYPHER_OP_MULTIPLY) (int_literal 7) CYPHER_OP_ADD)
       (int_literal 1000) CYPHER_OP_MODULO)
    (int_literal 157) CYPHER_CMP_EQUAL.

Definition demo_bindings : bindings := [(bstr "x", CYPHER_VALUE_INTEGER 50)].

Lemma demo_means : means demo_bindings demo_expression (CYPHER_VALUE_BOOLEAN true).
Proof.
  assert (Hlit : forall z, means demo_bindings (int_literal z) (CYPHER_VALUE_INTEGER z)) by (intros z; by constructor).
  eapply (m_int_rel _ _ _ _ 157 157); [|apply Hlit|done|done].
  eapply (m_arithmetic _ _ _ _ 50000157 1000); [|apply Hlit|done|done|done|done].
  eapply (m_arithmetic _ _ _ _ 50000150 7); [|apply Hlit|done|done|done|done].
  eapply (m_arithmetic _ _ _ _ 50 1000003); [by constructor|apply Hlit|done|done|done|done].
Qed.

Lemma cypher_eval_correct_witness :
  cypherExpressionEvaluate (fun x _ => x) (cypherRegisterBuiltinFunctions (fun _ => [])) (Some demo_bindings) demo_expression =
    Ok (CYPHER_VALUE_BOOLEAN true) /\
  forall w, means demo_bindings demo_expression w -> w = CYPHER_VALUE_BOOLEAN true.
Proof. apply (cypher_eval_correct (fun x _ => x) (fun _ => []) demo_bindings demo_expression). apply demo_means. Defined.

(** ** Where evaluation departs *)

Section Departures.
Context (c_pow : f64 -> f64 -> f64) (fmt_6g : f64 -> bytes) (c : bindings).
Abbreviation evaluate := (cypherExpressionEvaluate c_pow (cypherRegisterBuiltinFunctions fmt_6g) (Some c)).
Abbreviation lit v := (CYPHER_EXPR_LITERAL v).

(** From 2^53 on sums of integers are wrong. *)
Lemma eval_sum_rounded : evaluate (CYPHER_EXPR_ARITHMETIC (int_literal (2 ^ 53)) (int_literal 1) CYPHER_OP_ADD) = Ok (CYPHER_VALUE_INTEGER (2 ^ 53)).
Proof. by vm_compute. Qed.

(** A sum that is no 64-bit integer is converted to one all the same. *)
Lemma eval_sum_overflows : evaluate (CYPHER_EXPR_ARITHMETIC (int_literal (2 ^ 62)) (int_literal (2 ^ 62)) CYPHER_OP_ADD) = Undef.
Proof. by vm_compute. Qed.

Lemma eval_abs_overflows : evaluate (CYPHER_EXPR_FUNCTION (bstr "abs") [int_literal (- 2 ^ 63)]) = Undef.
Proof. by vm_compute. Qed.

(** An integer is never equal to a floating-point number, and values of
    different types are all greater than each other. *)
Lemma eval_int_float (r : f64) (i : Z) : evaluate (CYPHER_EXPR_COMPARISON (int_literal i) (lit (CYPHER_VALUE_FLOAT r)) CYPHER_CMP_EQUAL) = Ok (CYPHER_VALUE_BOOLEAN false).
Proof. done. Qed.

Lemma eval_mixed_order (i : Z) (a : bytes) :
  evaluate (CYPHER_EXPR_COMPARISON (int_literal i) (lit (text a)) CYPHER_CMP_GREATER) = Ok (CYPHER_VALUE_BOOLEAN true) /\
  evaluate (CYPHER_EXPR_COMPARISON (lit (text a)) (int_literal i) CYPHER_CMP_GREATER) = Ok (CYPHER_VALUE_BOOLEAN true).
Proof. done. Qed.

(** A variable bound to null is reported as a lack of memory. *)
Lemma eval_null_variable (x : bytes) : executionContextGet c x = Some CYPHER_VALUE_NULL -> evaluate (CYPHER_EXPR_VARIABLE (Some x)) = Err SQLITE_NOMEM.
Proof. intros E. cbn. by rewrite E. Qed.

(** Logical expressions are not evaluated; false AND null is null. *)
Lemma eval_logical_null (l r : CypherExpression) (op : CypherLogicalOp) : evaluate (CYPHER_EXPR_LOGICAL l r op) = Ok CYPHER_VALUE_NULL.
Proof. done. Qed.

Lemma logical_and_null : cypherEvaluateLogical (Some (CYPHER_VALUE_BOOLEAN false)) (Some CYPHER_VALUE_NULL) CYPHER_LOGIC_AND = Ok CYPHER_VALUE_NULL.
Proof. done. Qed.

(** The square root of a negative number is not null but NaN. *)
Lemma eval_sqrt_negative : evaluate (CYPHER_EXPR_FUNCTION (bstr "sqrt") [int_literal (-1)]) = Ok (CYPHER_VALUE_FLOAT S754_nan).
Proof. by vm_compute. Qed.

(** The text that min returns has been freed. *)
Lemma eval_min_freed (a : bytes) : evaluate (CYPHER_EXPR_FUNCTION (bstr "min") [lit (text a)]) = Undef.
Proof. done. Qed.

(** Nothing registers the functions: every call is an error. *)
Lemma eval_no_functions (context : option bindings) (zName : bytes) (apArgs : list CypherExpression) :
  cypherExpressionEvaluate c_pow [] context (CYPHER_EXPR_FUNCTION zName apArgs) = Err SQLITE_ERROR.
Proof. done. Qed.
End Departures.
