(* ===== verification/CypherJson.v ===== *)
(** * JSON of Cypher values (cypher-json.c)

    [cypherValueToJson] writes a value, [cypherParseJsonProperties] reads an
    object of plain values.  A text is the bytes before its NUL.  [atof] and
    the format [%.15g] are parameters.

    Shown: reading ends on every text and is defined, but for integers out of
    range; an object that is written and read back is the same, with its
    strings as they were escaped. *)

From Stdlib Require Import String ZArith Lia Floats.SpecFloat.
From stdpp Require Import base option list numbers.
From S2P Require Import Prelude Float32 Codec Shadow DefParser Values Scalar GraphMeasures CypherRows.

Local Open Scope Z_scope.
Local Open Scope query_scope.

(** ** Writing *)

(** A byte in a string. *)
Definition escape_byte (c : Z) : bytes :=
  if c =? 34 then [92; 34]
  else if c =? 92 then [92; 92]
  else if c =? 10 then [92; 110]
  else if c =? 13 then [92; 114]
  else if c =? 9 then [92; 116]
  else [c].

(** The buffer has two bytes for each of the string and 16 more. *)
Definition escape (z : bytes) : bytes := z ≫= escape_byte.

Section Json.
Context (fmt_15g : f64 -> bytes) (atof : bytes -> f64).

(** Keys are written as they are. *)
Fixpoint cypherValueToJson (v : CypherValue) : bytes :=
  match v with
  | CYPHER_VALUE_NULL => bstr "null"
  | CYPHER_VALUE_BOOLEAN b => bstr (if b then "true" else "false")
  | CYPHER_VALUE_INTEGER i => fmt_d i
  | CYPHER_VALUE_FLOAT r => fmt_15g r
  | CYPHER_VALUE_STRING z => [34] ++ escape (default [] z) ++ [34]
  | CYPHER_VALUE_LIST l =>
      let fix each (l : list CypherValue) : list bytes := match l with [] => [] | v :: l => cypherValueToJson v :: each l end in
      [91] ++ comma_separated (each l) ++ [93]
  | CYPHER_VALUE_MAP l =>
      let fix each (l : list (bytes * CypherValue)) : list bytes :=
        match l with [] => [] | (k, v) :: l => ([34] ++ k ++ [34; 58] ++ cypherValueToJson v) :: each l end in
      [123] ++ comma_separated (each l) ++ [125]
  | CYPHER_VALUE_NODE i => [123; 34] ++ bstr "_type" ++ [34; 58; 34] ++ bstr "node" ++ [34; 44; 34] ++ bstr "_id" ++ [34; 58] ++ fmt_d i ++ [125]
  | CYPHER_VALUE_RELATIONSHIP i =>
      [123; 34] ++ bstr "_type" ++ [34; 58; 34] ++ bstr "relationship" ++ [34; 44; 34] ++ bstr "_id" ++ [34; 58] ++ fmt_d i ++ [125]
  | CYPHER_VALUE_PATH => bstr "null"
  end.

(** ** Reading *)

Definition SQLITE_FORMAT : Z := 24.

(** What is between quotes, with its escapes, and what follows; [None]: no
    closing quote. *)
Fixpoint quoted_text (s : bytes) : option (bytes * bytes) :=
  match s with
  | [] => None
  | c :: s =>
      if c =? 34 then Some ([], s)
      else if c =? 92 then
        match s with
        | [] => None
        | d :: s => match quoted_text s with Some (t, r) => Some (c :: d :: t, r) | None => None end
        end
      else match quoted_text s with Some (t, r) => Some (c :: t, r) | None => None end
  end.

(** [atoll]: out of range it is undefined. *)
Definition integer_value (neg : bool) (n : Z) : res CypherValue :=
  let z := if neg then - n else n in
  if (- 2 ^ 63 <=? z) && (z <? 2 ^ 63) then Ok (CYPHER_VALUE_INTEGER z) else Undef.

(** The byte a pointer points to: NUL at the end. *)
Abbreviation peek s := (hd 0 s).

(** A number: the value and what follows. *)
Definition json_number (s : bytes) : res (CypherValue * bytes) :=
  let neg := peek s =? 45 in
  let s1 := if neg || (peek s =? 43) then tl s else s in
  let '(n, k) := dec_digits 0 s1 in
  let rest := drop k s1 in
  if peek rest =? 46 then
    let rest := drop (dec_digits 0 (tl rest)).2 (tl rest) in
    Ok (CYPHER_VALUE_FLOAT (atof (take (length s - length rest) s)), rest)
  else v <-? integer_value neg n; Ok (v, rest).

Definition json_value (s : bytes) : res (CypherValue * bytes) :=
  if peek s =? 34 then
    match quoted_text (tl s) with Some (t, r) => Ok (CYPHER_VALUE_STRING (Some t), r) | None => Err SQLITE_FORMAT end
  else if c_isdigit (peek s) || (peek s =? 45) || (peek s =? 43) then json_number s
  else if bool_decide (take 4 s = bstr "true") then Ok (CYPHER_VALUE_BOOLEAN true, drop 4 s)
  else if bool_decide (take 5 s = bstr "false") then Ok (CYPHER_VALUE_BOOLEAN false, drop 5 s)
  else if bool_decide (take 4 s = bstr "null") then Ok (CYPHER_VALUE_NULL, drop 4 s)
  else Err SQLITE_FORMAT.

(** A key and its value, and what follows the blanks after them. *)
Definition json_pair (s : bytes) : res (bytes * CypherValue * bytes) :=
  let s := skip_spaces s in
  if negb (peek s =? 34) then Err SQLITE_FORMAT
  else
    match quoted_text (tl s) with
    | None => Err SQLITE_FORMAT
    | Some (key, s) =>
        let s := skip_spaces s in
        if negb (peek s =? 58) then Err SQLITE_FORMAT
        else '(v, s) <-? json_value (skip_spaces (tl s)); Ok (key, v, skip_spaces s)
    end.

(** [None]: out of fuel. *)
Fixpoint json_pairs (fuel : nat) (s : bytes) (acc : list (bytes * CypherValue)) : option (res CypherValue) :=
  match fuel with
  | O => None
  | S fuel =>
      if bool_decide (s = []) then Some (Err SQLITE_FORMAT)
      else if peek s =? 125 then Some (Ok (CYPHER_VALUE_MAP acc))
      else
        match json_pair s with
        | Ok (key, v, s) =>
            if peek s =? 44 then json_pairs fuel (skip_spaces (tl s)) (acc ++ [(key, v)])
            else if peek s =? 125 then json_pairs fuel s (acc ++ [(key, v)])
            else Some (Err SQLITE_FORMAT)
        | Err rc => Some (Err rc)
        | Undef => Some Undef
        end
  end.

Definition cypherParseJsonProperties (zJson : bytes) : option (res CypherValue) :=
  let p := skip_spaces zJson in
  if bool_decide (p = []) || bool_decide (p = bstr "null") then Some (Ok CYPHER_VALUE_NULL)
  else if negb (peek p =? 123) then Some (Err SQLITE_FORMAT)
  else
    let s := skip_spaces (tl p) in
    if peek s =? 125 then Some (Ok (CYPHER_VALUE_MAP [])) else json_pairs (S (length s)) s [].

(** ** Reading ends *)

Lemma skip_spaces_le (s : bytes) : (length (skip_spaces s) <= length s)%nat.
Proof. induction s as [|c s IH]; [done|]. cbn. destruct (c_isspace c); cbn; lia. Qed.

Lemma quoted_le (n : nat) (s t r : bytes) : (length s <= n)%nat -> quoted_text s = Some (t, r) -> (length r < length s)%nat.
Proof.
  revert s t r. induction n as [|n IH]; intros [|c s] t r Hn E; try done; [cbn in Hn; lia|]. cbn [quoted_text length] in *.
  destruct (c =? 34); [injection E as <- <-; lia|]. destruct (c =? 92).
  - destruct s as [|d s]; [done|]. destruct (quoted_text s) as [[t' r']|] eqn:Eq; [|done]. injection E as <- <-. cbn [length] in *.
    pose proof (IH s t' r' ltac:(lia) Eq). lia.
  - destruct (quoted_text s) as [[t' r']|] eqn:Eq; [|done]. injection E as <- <-. pose proof (IH s t' r' ltac:(lia) Eq). lia.
Qed.

Lemma json_value_le (s r : bytes) (v : CypherValue) : json_value s = Ok (v, r) -> (length r <= length s)%nat.
Proof.
  unfold json_value. destruct (peek s =? 34).
  { destruct (quoted_text (tl s)) as [[t r']|] eqn:Eq; [|done]. intros [= <- <-]. apply (quoted_le _ _ _ _ (le_n _)) in Eq. destruct s; cbn in *; lia. }
  destruct (_ || _).
  { unfold json_number. assert (H1 : (length (if (peek s =? 45)%Z || (peek s =? 43)%Z then tl s else s) <= length s)%nat) by (destruct (_ || _), s; cbn; lia).
    revert H1. generalize (if (peek s =? 45)%Z || (peek s =? 43)%Z then tl s else s). intros s1 H1. destruct (dec_digits 0 s1) as [n k].
    assert (H2 : (length (drop k s1) <= length s1)%nat) by (rewrite length_drop; lia). revert H2. generalize (drop k s1). intros s2 H2.
    destruct (peek s2 =? 46).
    - intros [= _ <-]. rewrite length_drop. destruct s2; cbn in *; lia.
    - unfold integer_value. destruct (_ && _); [|done]. intros [= _ <-]. lia. }
  repeat (destruct (bool_decide _); [intros [= _ <-]; rewrite length_drop; lia|]). done.
Qed.

Lemma json_pair_lt (s r key : bytes) (v : CypherValue) : json_pair s = Ok (key, v, r) -> (length r < length s)%nat.
Proof.
  unfold json_pair. pose proof (skip_spaces_le s) as H1. destruct (peek (skip_spaces s) =? 34); [|done]. cbn [negb].
  destruct (quoted_text (tl (skip_spaces s))) as [[k s1]|] eqn:Eq; [|done]. apply (quoted_le _ _ _ _ (le_n _)) in Eq.
  pose proof (skip_spaces_le s1) as H2. destruct (peek (skip_spaces s1) =? 58); [|done]. cbn [negb].
  destruct (json_value _) as [[w s2]| |] eqn:Ev; [|done|done]. apply json_value_le in Ev. intros [= _ _ <-].
  pose proof (skip_spaces_le s2). pose proof (skip_spaces_le (tl (skip_spaces s1))). destruct (skip_spaces s), (skip_spaces s1); cbn in *; lia.
Qed.

Lemma json_pairs_end (fuel : nat) (s : bytes) (acc : list (bytes * CypherValue)) : (length s < fuel)%nat -> is_Some (json_pairs fuel s acc).
Proof.
  revert s acc. induction fuel as [|fuel IH]; intros s acc Hf; [lia|]. cbn [json_pairs]. destruct (bool_decide (s = [])); [done|].
  destruct (peek s =? 125); [done|]. destruct (json_pair s) as [[[key v] r]| |] eqn:E; [|done|done]. apply json_pair_lt in E.
  destruct (peek r =? 44); [|destruct (peek r =? 125); [apply IH; lia|done]].
  apply IH. pose proof (skip_spaces_le (tl r)). destruct r; cbn in *; lia.
Qed.

(** Reading ends on every text. *)
Lemma json_parse_total (zJson : bytes) : is_Some (cypherParseJsonProperties zJson).
Proof.
  unfold cypherParseJsonProperties. destruct (_ || _); [done|]. destruct (negb _); [done|]. destruct (_ =? 125); [done|]. apply json_pairs_end. lia.
Qed.

(** ** What is written is read *)

(** What reading gives for a plain value: escapes stay as they are written. *)
Definition read_back (v : CypherValue) : CypherValue :=
  match v with CYPHER_VALUE_STRING z => CYPHER_VALUE_STRING (Some (escape (default [] z))) | v => v end.

(** The values that are read: no number of type double, no nesting. *)
Definition plain_value (v : CypherValue) : bool :=
  match v with
  | CYPHER_VALUE_NULL | CYPHER_VALUE_BOOLEAN _ => true
  | CYPHER_VALUE_INTEGER i => (- 2 ^ 63 <=? i) && (i <? 2 ^ 63)
  | CYPHER_VALUE_STRING z => forallb (fun c => negb (c =? 0)) (default [] z)
  | _ => false
  end.

Definition plain_key (k : bytes) : bool := forallb (fun c => negb (c =? 0) && negb (c =? 34) && negb (c =? 92)) k.

Definition plain_pair (p : bytes * CypherValue) : bool := plain_key p.1 && plain_value p.2.

(** A string that needs no escape. *)
Definition unescaped (v : CypherValue) : bool :=
  match v with
  | CYPHER_VALUE_STRING (Some z) => forallb (fun c => negb (existsb (Z.eqb c) [34; 92; 10; 13; 9])) z
  | CYPHER_VALUE_STRING None => false
  | _ => true
  end.

Lemma escape_plain (z : bytes) : forallb (fun c => negb (existsb (Z.eqb c) [34; 92; 10; 13; 9])) z = true -> escape z = z.
Proof.
  induction z as [|c z IH]; [done|]. cbn [forallb existsb]. intros [H1 H2]%andb_true_iff. unfold escape. cbn. fold (escape z). rewrite (IH H2).
  apply negb_true_iff in H1. unfold escape_byte. repeat (apply orb_false_iff in H1 as [-> H1]). done.
Qed.

Lemma read_back_unescaped (v : CypherValue) : unescaped v = true -> read_back v = v.
Proof. destruct v as [| | | |[z|]| | | | |]; try done. cbn. intros H. by rewrite escape_plain. Qed.

Lemma quoted_key (k r : bytes) : plain_key k = true -> quoted_text (k ++ 34 :: r) = Some (k, r).
Proof.
  induction k as [|c k IH]; [done|]. unfold plain_key. cbn [forallb app quoted_text]. intros [[[_ ->%negb_true_iff]%andb_true_iff ->%negb_true_iff]%andb_true_iff H]%andb_true_iff.
  by rewrite (IH H).
Qed.

Lemma quoted_escape (z r : bytes) : quoted_text (escape z ++ 34 :: r) = Some (escape z, r).
Proof.
  induction z as [|c z IH]; [done|]. unfold escape. cbn. fold (escape z). rewrite <- app_assoc. unfold escape_byte.
  destruct (c =? 34) eqn:E1; [cbn; by rewrite IH|]. destruct (c =? 92) eqn:E2; [cbn; by rewrite IH|].
  destruct (c =? 10); [cbn; by rewrite IH|]. destruct (c =? 13); [cbn; by rewrite IH|]. destruct (c =? 9); [cbn; by rewrite IH|].
  cbn [app quoted_text]. by rewrite E1, E2, IH.
Qed.

(** What follows a value does not continue a number. *)
Definition value_end (r : bytes) : Prop := c_isdigit (peek r) = false /\ (peek r =? 46) = false.

Lemma json_number_fmt (i : Z) (r : bytes) :
  - 2 ^ 63 <= i < 2 ^ 63 -> value_end r ->
  (c_isdigit (peek (fmt_d i ++ r)) || (peek (fmt_d i ++ r) =? 45)) = true /\ (peek (fmt_d i ++ r) =? 34) = false /\
  json_number (fmt_d i ++ r) = Ok (CYPHER_VALUE_INTEGER i, r).
Proof.
  intros Hi [R1 R2]. unfold fmt_d. destruct (i <? 0) eqn:E.
  - destruct (print_dec_spec (- i)) as (_ & H2 & H3); [lia|]. split; [done|]. split; [done|]. unfold json_number. cbn [app hd tl].
    change (45 =? 45) with true. cbn [orb]. rewrite (dec_digits_app _ _ 0 H2 R1), drop_app_length, R2, H3. unfold integer_value.
    assert ((- 2 ^ 63 <=? - - i) && (- - i <? 2 ^ 63) = true) as -> by lia. by rewrite Z.opp_involutive.
  - destruct (print_dec_spec i) as (H1 & H2 & H3); [lia|]. pose proof (dec_digits_app _ r 0 H2 R1) as H4.
    pose proof (drop_app_length (print_dec i) r) as H5.
    destruct (print_dec i) as [|c ds] eqn:Ep; [done|]. pose proof H2 as Hc. cbn [forallb] in Hc. apply andb_true_iff in Hc as [Hc _].
    destruct (digit_plain c Hc) as (_ & C2 & C3 & _). unfold json_number. cbn [app hd] in *. rewrite Hc, C2, C3.
    assert ((c =? 34) = false) as -> by (unfold c_isdigit in Hc; lia). split; [done|]. split; [done|]. cbn [orb].
    rewrite H4, H5, R2, H3. unfold integer_value.
    assert ((- 2 ^ 63 <=? i) && (i <? 2 ^ 63) = true) as -> by lia. done.
Qed.

Lemma json_value_written (v : CypherValue) (r : bytes) :
  plain_value v = true -> value_end r -> json_value (cypherValueToJson v ++ r) = Ok (read_back v, r).
Proof.
  intros Hv Hr. destruct v as [|b|i| |z| | | | |]; try done.
  - by destruct b.
  - cbn [plain_value cypherValueToJson read_back] in *. destruct (json_number_fmt i r ltac:(lia) Hr) as (H1 & H2 & H3). unfold json_value.
    by rewrite H2, H1, H3.
  - cbn [cypherValueToJson read_back]. unfold json_value. cbn [app hd tl]. change (34 =? 34) with true. cbv iota.
    rewrite <- app_assoc. cbn [app]. by rewrite quoted_escape.
Qed.

Lemma skip_spaces_none (s : bytes) : c_isspace (peek s) = false -> skip_spaces s = s.
Proof. destruct s as [|c s]; [done|]. cbn. by intros ->. Qed.

(** The text of a value starts with no blank. *)
Lemma value_no_space (v : CypherValue) (r : bytes) : plain_value v = true -> c_isspace (peek (cypherValueToJson v ++ r)) = false.
Proof.
  intros Hv. destruct v as [|b|i| |z| | | | |]; try done; [by destruct b|]. cbn [cypherValueToJson].
  pose proof (fmt_d_chars i) as H. destruct (fmt_d i) as [|c ds] eqn:E.
  - exfalso. unfold fmt_d in E. destruct (i <? 0) eqn:Ei; [done|]. destruct (print_dec_spec i) as (H1 & _); [lia|]. done.
  - apply Forall_cons_1 in H as [H _]. cbn. unfold c_isspace. lia.
Qed.

(** A pair, as it is written. *)
Definition pair_text (p : bytes * CypherValue) : bytes := [34] ++ p.1 ++ [34; 58] ++ cypherValueToJson p.2.

Lemma json_pair_written (p : bytes * CypherValue) (r : bytes) :
  plain_pair p = true -> value_end r -> c_isspace (peek r) = false -> json_pair (pair_text p ++ r) = Ok (p.1, read_back p.2, r).
Proof.
  intros [Hk Hv]%andb_true_iff Hr Hs. unfold pair_text. rewrite <- !app_assoc. cbn [app]. unfold json_pair. cbn.
  rewrite (quoted_key _ _ Hk). cbn. rewrite (skip_spaces_none _ (value_no_space _ r Hv)), (json_value_written _ _ Hv Hr).
  cbn. by rewrite (skip_spaces_none r Hs).
Qed.

Lemma map_text (l : list (bytes * CypherValue)) :
  cypherValueToJson (CYPHER_VALUE_MAP l) = [123] ++ comma_separated (pair_text <$> l) ++ [125].
Proof. cbn [cypherValueToJson]. do 3 f_equal. induction l as [|[k v] l IH]; [done|]. cbn [fmap list_fmap] in *. rewrite <- IH. reflexivity. Qed.

Lemma json_pairs_written (fuel : nat) (p : bytes * CypherValue) (l acc : list (bytes * CypherValue)) :
  (S (length l) < fuel)%nat -> forallb plain_pair (p :: l) = true ->
  json_pairs fuel (comma_separated (pair_text <$> p :: l) ++ [125]) acc =
  Some (Ok (CYPHER_VALUE_MAP (acc ++ ((fun p => (p.1, read_back p.2)) <$> p :: l)))).
Proof.
  revert fuel p acc. induction l as [|q l IH]; intros fuel p acc Hf H.
  - cbn [forallb] in H. rewrite andb_true_r in H. destruct fuel as [|[|fuel]]; [cbn in Hf; lia|cbn in Hf; lia|].
    change (comma_separated (pair_text <$> [p])) with (pair_text p). cbn [json_pairs].
    rewrite bool_decide_eq_false_2 by done. change (peek (pair_text p ++ [125]) =? 125) with false. cbv iota.
    rewrite (json_pair_written p [125] H) by done. done.
  - cbn [forallb] in H. apply andb_true_iff in H as [Hp H]. destruct fuel as [|fuel]; [cbn in Hf; lia|].
    change (comma_separated (pair_text <$> p :: q :: l)) with (pair_text p ++ 44 :: comma_separated (pair_text <$> q :: l)).
    rewrite <- app_assoc. cbn [json_pairs]. rewrite bool_decide_eq_false_2 by done.
    assert (E : (peek (pair_text p ++ (44 :: comma_separated (pair_text <$> q :: l)) ++ [125]) =? 125) = false) by done. rewrite E. clear E.
    rewrite (json_pair_written p _ Hp) by done. cbn [app hd tl]. change (44 =? 44) with true. cbv iota.
    rewrite skip_spaces_none by (by destruct l). rewrite (IH fuel q (acc ++ [(p.1, read_back p.2)]) ltac:(cbn in Hf; lia) H). cbn [fmap list_fmap]. by rewrite <- app_assoc.
Qed.

Lemma length_comma (l : list bytes) : (length l <= S (length (comma_separated l)))%nat.
Proof.
  induction l as [|x [|y l] IH]; [cbn; lia|cbn; lia|]. change (comma_separated (x :: y :: l)) with (x ++ [44] ++ comma_separated (y :: l)).
  rewrite !length_app. cbn [length] in *. lia.
Qed.

Lemma json_map_written (l : list (bytes * CypherValue)) :
  forallb plain_pair l = true ->
  cypherParseJsonProperties (cypherValueToJson (CYPHER_VALUE_MAP l)) =
  Some (Ok (CYPHER_VALUE_MAP ((fun p => (p.1, read_back p.2)) <$> l))).
Proof.
  intros H. rewrite map_text. destruct l as [|p l]; [done|]. set (s := comma_separated (pair_text <$> p :: l) ++ [125]).
  assert (Hp : exists t, s = 34 :: t) by (destruct l; by eexists). unfold cypherParseJsonProperties. cbn [app skip_spaces]. fold s.
  change (c_isspace 123) with false. cbv iota. rewrite !bool_decide_eq_false_2 by done. cbn [orb hd tl]. change (negb (123 =? 123)) with false. cbv iota.
  assert (skip_spaces s = s) as -> by (destruct Hp as [t ->]; done). assert ((peek s =? 125) = false) as -> by (destruct Hp as [t ->]; done).
  apply (json_pairs_written _ p l []); [|done]. subst s. pose proof (length_comma (pair_text <$> p :: l)) as Hl.
  rewrite length_app, length_fmap in *. cbn [length] in *. lia.
Qed.
End Json.

(** C38: an object of null, boolean, 64-bit integer and string values, with
    keys without quotes and backslashes, is read back as it was written, each
    string as its escaped text; it is the same object when no string needs an
    escape.  Reading ends on every text. *)
Theorem cypher_json_roundtrip (fmt_15g : f64 -> bytes) (atof : bytes -> f64) (l : list (bytes * CypherValue)) :
  forallb plain_pair l = true ->
  cypherParseJsonProperties atof (cypherValueToJson fmt_15g (CYPHER_VALUE_MAP l)) =
    Some (Ok (CYPHER_VALUE_MAP ((fun p => (p.1, read_back p.2)) <$> l))) /\
  (forallb (fun p => unescaped p.2) l = true ->
   cypherParseJsonProperties atof (cypherValueToJson fmt_15g (CYPHER_VALUE_MAP l)) = Some (Ok (CYPHER_VALUE_MAP l))) /\
  (forall zJson, is_Some (cypherParseJsonProperties atof zJson)).
Proof.
  intros H. rewrite (json_map_written fmt_15g atof l H). split; [done|]. split; [|apply json_parse_total].
  intros Hu. do 3 f_equal. clear H. induction l as [|[k v] l IH]; [done|]. cbn in Hu. apply andb_true_iff in Hu as [H1 H2]. cbn.
  by rewrite (read_back_unescaped v H1), (IH H2).
Qed.

(** A person, with its properties. *)
Definition person : list (bytes * CypherValue) :=
  [(bstr "name", CYPHER_VALUE_STRING (Some (bstr "Ada"))); (bstr "age", CYPHER_VALUE_INTEGER (-36)); (bstr "ok", CYPHER_VALUE_BOOLEAN true);
   (bstr "x", CYPHER_VALUE_NULL)].

Lemma cypher_json_roundtrip_witness :
  forallb plain_pair person = true /\
  cypherParseJsonProperties (fun _ => S754_zero false) (cypherValueToJson (fun _ => []) (CYPHER_VALUE_MAP person)) = Some (Ok (CYPHER_VALUE_MAP person)).
Proof.
  split; [by vm_compute|].
  apply (cypher_json_roundtrip (fun _ => []) (fun _ => S754_zero false) person); by vm_compute.
Defined.

(** ** What is not read back *)

(** The object with one property. *)
Definition object (k v : bytes) : bytes := [123; 34] ++ k ++ [34; 58] ++ v ++ [125].

Section Defects.
Context (fmt_15g : f64 -> bytes) (atof : bytes -> f64).

(** Escapes are written and never decoded: a name with a quote comes back
    with a backslash more, and one more each time. *)
Lemma json_quote_changes :
  cypherParseJsonProperties atof (cypherValueToJson fmt_15g (CYPHER_VALUE_MAP [(bstr "a", CYPHER_VALUE_STRING (Some [34]))])) =
    Some (Ok (CYPHER_VALUE_MAP [(bstr "a", CYPHER_VALUE_STRING (Some [92; 34]))])) /\
  cypherParseJsonProperties atof (cypherValueToJson fmt_15g (CYPHER_VALUE_MAP [(bstr "a", CYPHER_VALUE_STRING (Some [92; 34]))])) =
    Some (Ok (CYPHER_VALUE_MAP [(bstr "a", CYPHER_VALUE_STRING (Some [92; 92; 92; 34]))])).
Proof. done. Qed.

(** A double without a fraction comes back as an integer, and one with an
    exponent is an error. *)
Lemma json_float_changes (r : f64) :
  (fmt_15g r = bstr "1" ->
   cypherParseJsonProperties atof (cypherValueToJson fmt_15g (CYPHER_VALUE_MAP [(bstr "a", CYPHER_VALUE_FLOAT r)])) =
     Some (Ok (CYPHER_VALUE_MAP [(bstr "a", CYPHER_VALUE_INTEGER 1)]))) /\
  (fmt_15g r = bstr "1e+20" ->
   cypherParseJsonProperties atof (cypherValueToJson fmt_15g (CYPHER_VALUE_MAP [(bstr "a", CYPHER_VALUE_FLOAT r)])) = Some (Err SQLITE_FORMAT)).
Proof. split; intros E; cbn [cypherValueToJson]; by rewrite E. Qed.

(** A quote in a key ends it. *)
Lemma json_key_unescaped (v : CypherValue) :
  cypherParseJsonProperties atof (cypherValueToJson fmt_15g (CYPHER_VALUE_MAP [([97; 34; 98], v)])) = Some (Err SQLITE_FORMAT).
Proof. done. Qed.

(** Lists and objects are written, and an error when they are read. *)
Lemma json_nested_refused :
  cypherParseJsonProperties atof (cypherValueToJson fmt_15g (CYPHER_VALUE_MAP [(bstr "a", CYPHER_VALUE_LIST [])])) = Some (Err SQLITE_FORMAT) /\
  cypherParseJsonProperties atof (cypherValueToJson fmt_15g (CYPHER_VALUE_MAP [(bstr "a", CYPHER_VALUE_MAP [])])) = Some (Err SQLITE_FORMAT).
Proof. done. Qed.

(** Texts that are no JSON are read: a comma before the brace, text after it,
    a sign without digits; an integer out of range is undefined. *)
Lemma json_lenient :
  cypherParseJsonProperties atof ([123; 34; 97; 34; 58; 49; 44; 125] ++ bstr "x") = Some (Ok (CYPHER_VALUE_MAP [(bstr "a", CYPHER_VALUE_INTEGER 1)])) /\
  cypherParseJsonProperties atof (object (bstr "a") (bstr "-")) = Some (Ok (CYPHER_VALUE_MAP [(bstr "a", CYPHER_VALUE_INTEGER 0)])) /\
  cypherParseJsonProperties atof (object (bstr "a") (bstr "9223372036854775808")) = Some Undef.
Proof. done. Qed.

(** A control character other than the three is written as it is, which no
    JSON string may hold. *)
Lemma json_control_raw : cypherValueToJson fmt_15g (CYPHER_VALUE_STRING (Some [8])) = [34; 8; 34].
Proof. done. Qed.
End Defects.
