(* ===== verification/PlanCache.v ===== *)
(** * The cache of query plans (graph-cache.c)

    A hash table with chaining whose entries are also linked by [pLRU].  The
    heap is a map from addresses to live entries; an address is not used again
    after it is freed, so that an access to freed memory is [Undefined].  The
    mutex is held by each operation from its start to its end: operations are
    atomic.

    Shown: while the limits are not reached and nothing is invalidated, every
    operation is defined and the cache is a map, and so is a first
    invalidation.  After an eviction or an invalidation the links [pLRU]
    dangle, and operations can touch freed memory or not end; those that do
    not still return no plan but the last one inserted for the query. *)

From Stdlib Require Import String ZArith Lia Floats.SpecFloat.
From stdpp Require Import base option list numbers gmap fin_maps fin_map_dom.
From S2P Require Import Prelude Float32 Codec Shadow DefParser Values Scalar CypherPlan CypherEval.

Local Open Scope Z_scope.

(** ** Outcomes *)

Inductive outcome (A : Type) :=
| Value (x : A)
| Undefined        (* undefined behaviour *)
| Unfinished.      (* out of fuel *)
Arguments Value {A} x.
Arguments Undefined {A}.
Arguments Unfinished {A}.

Definition outcome_bind {A B : Type} (m : outcome A) (f : A -> outcome B) : outcome B :=
  match m with Value x => f x | Undefined => Undefined | Unfinished => Unfinished end.

Declare Scope outcome_scope.
Notation "x <~ m ; f" := (outcome_bind m (fun x => f)) (at level 200, m at level 100, f at level 200, right associativity) : outcome_scope.
Notation "' p <~ m ; f" := (outcome_bind m (fun x => match x with p => f end)) (at level 20, p pattern, m at level 100, f at level 200) : outcome_scope.
Local Open Scope outcome_scope.

(** ** The cache *)

Record PlanCacheEntry := MkEntry {
  zQueryHash : bytes;
  pPlan : PhysicalPlanNode;
  lastUsed : Z;
  useCount : Z;
  memorySize : Z;
  pNext : option nat;
  pLRU : option nat
}.

Record PlanCache := MkCache {
  buckets : list (option nat);
  nEntries : Z;
  maxEntries : Z;
  maxMemory : Z;
  currentMemory : Z;
  pLRUHead : option nat;
  pLRUTail : option nat;
  hits : Z;
  misses : Z;
  evictions : Z;
  heap : gmap nat PlanCacheEntry;
  next_addr : nat
}.

Definition with_pNext (p : option nat) (e : PlanCacheEntry) : PlanCacheEntry :=
  MkEntry (zQueryHash e) (pPlan e) (lastUsed e) (useCount e) (memorySize e) p (pLRU e).
Definition with_pLRU (p : option nat) (e : PlanCacheEntry) : PlanCacheEntry :=
  MkEntry (zQueryHash e) (pPlan e) (lastUsed e) (useCount e) (memorySize e) (pNext e) p.

Definition with_heap (h : gmap nat PlanCacheEntry) (c : PlanCache) : PlanCache :=
  MkCache (buckets c) (nEntries c) (maxEntries c) (maxMemory c) (currentMemory c) (pLRUHead c) (pLRUTail c) (hits c) (misses c) (evictions c) h (next_addr c).
Definition with_buckets (l : list (option nat)) (c : PlanCache) : PlanCache :=
  MkCache l (nEntries c) (maxEntries c) (maxMemory c) (currentMemory c) (pLRUHead c) (pLRUTail c) (hits c) (misses c) (evictions c) (heap c) (next_addr c).
Definition with_lru (hd tl : option nat) (c : PlanCache) : PlanCache :=
  MkCache (buckets c) (nEntries c) (maxEntries c) (maxMemory c) (currentMemory c) hd tl (hits c) (misses c) (evictions c) (heap c) (next_addr c).
Definition with_stats (h m e : Z) (c : PlanCache) : PlanCache :=
  MkCache (buckets c) (nEntries c) (maxEntries c) (maxMemory c) (currentMemory c) (pLRUHead c) (pLRUTail c) h m e (heap c) (next_addr c).
Definition with_size (n mem : Z) (c : PlanCache) : PlanCache :=
  MkCache (buckets c) n (maxEntries c) (maxMemory c) mem (pLRUHead c) (pLRUTail c) (hits c) (misses c) (evictions c) (heap c) (next_addr c).

Definition load (c : PlanCache) (a : nat) : outcome PlanCacheEntry := match heap c !! a with Some e => Value e | None => Undefined end.

(** A write through a pointer. *)
Definition update (f : PlanCacheEntry -> PlanCacheEntry) (a : nat) (c : PlanCache) : outcome PlanCache :=
  e <~ load c a; Value (with_heap (<[a := f e]> (heap c)) c).

(** The bytes are [char]s, which are signed. *)
Definition planCacheHash (zQuery : bytes) : Z := foldl (fun hash c => wrap_u 32 (hash * 32 + hash + wrap_s 8 c)) 5381 zQuery.

Definition plan_bucket (c : PlanCache) (zQuery : bytes) : nat := Z.to_nat (planCacheHash zQuery mod Z.of_nat (length (buckets c))).

(** The size of an operator's own data: an estimate. *)
Definition operator_size (p : PhysicalPlanNode) : Z :=
  match pp_type p with
  | PHYSICAL_ALL_NODES_SCAN | PHYSICAL_ALL_RELS_SCAN | PHYSICAL_TYPE_INDEX_SCAN => 50
  | PHYSICAL_LABEL_INDEX_SCAN | PHYSICAL_PROPERTY_INDEX_SCAN =>
      from_option (fun z => Z.of_nat (length z) + 1) 0 (pp_zLabel p) + from_option (fun z => Z.of_nat (length z) + 1) 0 (pp_zProperty p)
  | PHYSICAL_HASH_JOIN | PHYSICAL_NESTED_LOOP_JOIN | PHYSICAL_INDEX_NESTED_LOOP => 200
  | PHYSICAL_FILTER | PHYSICAL_PROJECTION | PHYSICAL_SORT | PHYSICAL_LIMIT | PHYSICAL_AGGREGATION => 100
  | _ => 0
  end.

(** Where a link is: a bucket or the [pNext] of an entry. *)
Inductive link := in_bucket (b : nat) | in_entry (a : nat).

Definition read_link (c : PlanCache) (pp : link) : outcome (option nat) :=
  match pp with in_bucket b => match buckets c !! b with Some p => Value p | None => Undefined end | in_entry a => e <~ load c a; Value (pNext e) end.

Definition write_link (p : option nat) (pp : link) (c : PlanCache) : outcome PlanCache :=
  match pp with
  | in_bucket b => if (b <? length (buckets c))%nat then Value (with_buckets (<[b := p]> (buckets c)) c) else Undefined
  | in_entry a => update (with_pNext p) a c
  end.

Definition free (a : nat) (c : PlanCache) : PlanCache := with_heap (delete a (heap c)) c.

(** More steps than there are entries are a loop without end. *)
Definition steps (c : PlanCache) : nat := S (size (heap c)).

(** ** The operations *)

Section Cache.
(** [sizeof(PhysicalPlanNode)] *)
Context (sizeof_plan : Z).

Fixpoint calculatePlanSize (p : PhysicalPlanNode) : Z :=
  let fix children (l : list PhysicalPlanNode) : Z := match l with [] => 0 | q :: l => calculatePlanSize q + children l end in
  sizeof_plan + operator_size p + children (pp_children p).

(** A call when there is a cache is refused.  [None]: no memory. *)
Definition graphInitPlanCache (n mem : Z) : outcome (option PlanCache) :=
  let n := if n <=? 0 then 100 else n in
  let mem := if mem <=? 0 then 10 * 1024 * 1024 else mem in
  if 2 ^ 31 <=? n * 2 then Undefined
  else
    match sqlite3_malloc (to_size (n * 2 * 8)) with
    | None => Value None
    | Some size =>
        if size <? n * 2 * 8 then Undefined
        else Value (Some (MkCache (replicate (Z.to_nat (n * 2)) None) 0 n mem 0 None None 0 0 0 ∅ 0))
    end.

Definition planCacheTouchLRU (a : nat) (c : PlanCache) : outcome PlanCache :=
  if bool_decide (pLRUHead c = Some a) then Value c
  else
    e <~ load c a;
    c <~ match pLRU e with Some b => update (with_pLRU (Some b)) b c | None => Value c end;
    let tail := if bool_decide (pLRUTail c = Some a) then pLRU e else pLRUTail c in
    c <~ update (with_pLRU (pLRUHead c)) a c;
    Value (with_lru (Some a) (match tail with None => Some a | Some t => Some t end) c).

(** The search for the link to an entry; at the end of the chain nothing is
    unlinked. *)
Fixpoint unlink (fuel : nat) (victim : nat) (p : option nat) (pp : link) (c : PlanCache) : outcome PlanCache :=
  match fuel with
  | O => Unfinished
  | S fuel =>
      q <~ read_link c pp;
      match q with
      | None => Value c
      | Some a => if (a =? victim)%nat then write_link p pp c else unlink fuel victim p (in_entry a) c
      end
  end.

Definition planCacheEvictLRU (c : PlanCache) : outcome PlanCache :=
  match pLRUTail c with
  | None => Value c
  | Some victim =>
      e <~ load c victim;
      c <~ unlink (steps c) victim (pNext e) (in_bucket (plan_bucket c (zQueryHash e))) c;
      let c := with_lru (match pLRU e with None => None | Some _ => pLRUHead c end) (pLRU e) c in
      let c := with_size (nEntries c - 1) (to_size (currentMemory c - memorySize e)) c in
      Value (free victim (with_stats (hits c) (misses c) (evictions c + 1) c))
  end.

(** The entry of a query in a chain. *)
Fixpoint find_entry (fuel : nat) (zQuery : bytes) (p : option nat) (c : PlanCache) : outcome (option nat) :=
  match fuel with
  | O => Unfinished
  | S fuel =>
      match p with
      | None => Value None
      | Some a => e <~ load c a; if bool_decide (zQueryHash e = zQuery) then Value (Some a) else find_entry fuel zQuery (pNext e) c
      end
  end.

Definition find_query (zQuery : bytes) (c : PlanCache) : outcome (option nat) :=
  p <~ read_link c (in_bucket (plan_bucket c zQuery)); find_entry (steps c) zQuery p c.

(** [time] is the current time. *)
Definition graphPlanCacheLookup (time : Z) (zQuery : bytes) (c : PlanCache) : outcome (option PhysicalPlanNode * PlanCache) :=
  r <~ find_query zQuery c;
  match r with
  | Some a =>
      let c := with_stats (hits c + 1) (misses c) (evictions c) c in
      c <~ update (fun e => MkEntry (zQueryHash e) (pPlan e) time (useCount e + 1) (memorySize e) (pNext e) (pLRU e)) a c;
      c <~ planCacheTouchLRU a c;
      e <~ load c a;
      Value (Some (pPlan e), c)
  | None => Value (None, with_stats (hits c) (misses c + 1) (evictions c) c)
  end.

Definition over_limits (size : Z) (c : PlanCache) : bool :=
  (maxEntries c <=? nEntries c) || (maxMemory c <? to_size (currentMemory c + size)).

Fixpoint limits_loop (fuel : nat) (size : Z) (c : PlanCache) : outcome PlanCache :=
  match fuel with
  | O => Unfinished
  | S fuel =>
      if over_limits size c then c <~ planCacheEvictLRU c; if nEntries c =? 0 then Value c else limits_loop fuel size c
      else Value c
  end.

(** The insertion of a new entry. *)
Definition insert_entry (time : Z) (zQuery : bytes) (plan : PhysicalPlanNode) (c : PlanCache) : outcome PlanCache :=
  let size := calculatePlanSize plan in
  c <~ limits_loop (steps c) size c;
  let b := plan_bucket c zQuery in
  let a := next_addr c in
  p <~ read_link c (in_bucket b);
  c <~ write_link (Some a) (in_bucket b) c;
  let c := with_heap (<[a := MkEntry zQuery plan time 1 size p (pLRUHead c)]> (heap c)) c in
  let c := with_lru (Some a) (match pLRUTail c with None => Some a | Some t => Some t end) c in
  let c := with_size (nEntries c + 1) (to_size (currentMemory c + size)) c in
  Value (MkCache (buckets c) (nEntries c) (maxEntries c) (maxMemory c) (currentMemory c) (pLRUHead c) (pLRUTail c) (hits c) (misses c)
           (evictions c) (heap c) (S a)).

(** The memory in use is not changed when a plan is replaced. *)
Definition graphPlanCacheInsert (time : Z) (zQuery : bytes) (plan : PhysicalPlanNode) (c : PlanCache) : outcome PlanCache :=
  r <~ find_query zQuery c;
  match r with
  | Some a =>
      c <~ update (fun e => MkEntry (zQueryHash e) plan time (useCount e) (calculatePlanSize plan) (pNext e) (pLRU e)) a c;
      planCacheTouchLRU a c
  | None => insert_entry time zQuery plan c
  end.

Definition query_matches (pattern : option bytes) (zQuery : bytes) : bool := match pattern with None | Some [] => true | Some p => strstr zQuery p end.

(** The chain from a link on; also the number of entries removed. *)
Fixpoint invalidate_chain (fuel : nat) (pattern : option bytes) (pp : link) (n : Z) (c : PlanCache) : outcome (Z * PlanCache) :=
  match fuel with
  | O => Unfinished
  | S fuel =>
      q <~ read_link c pp;
      match q with
      | None => Value (n, c)
      | Some a =>
          e <~ load c a;
          if query_matches pattern (zQueryHash e) then
            c <~ write_link (pNext e) pp c;
            let c := with_lru (if bool_decide (pLRUHead c = Some a) then pLRU e else pLRUHead c)
                       (if bool_decide (pLRUTail c = Some a) then None else pLRUTail c) c in
            let c := with_size (nEntries c - 1) (to_size (currentMemory c - memorySize e)) c in
            invalidate_chain fuel pattern pp (n + 1) (free a c)
          else invalidate_chain fuel pattern (in_entry a) n c
      end
  end.

Fixpoint invalidate_buckets (k : nat) (pattern : option bytes) (i : nat) (n : Z) (c : PlanCache) : outcome (Z * PlanCache) :=
  match k with
  | O => Value (n, c)
  | S k => '(n, c) <~ invalidate_chain (steps c) pattern (in_bucket i) n c; invalidate_buckets k pattern (S i) n c
  end.

Definition graphPlanCacheInvalidate (pattern : option bytes) (c : PlanCache) : outcome (Z * PlanCache) :=
  invalidate_buckets (length (buckets c)) pattern 0 0 c.

Definition graphPlanCacheClear (c : PlanCache) : outcome PlanCache :=
  '(_, c) <~ graphPlanCacheInvalidate None c; Value (with_stats 0 0 0 c).

(** Hits, misses, entries, memory. *)
Definition graphPlanCacheStats (c : PlanCache) : Z * Z * Z * Z := (hits c, misses c, nEntries c, currentMemory c).

(** A member of the text of the statistics. *)
Definition stat_text (name : string) (value : bytes) : bytes := [34] ++ bstr name ++ [34; 58] ++ value.

(** Without a cache the variables are read that nothing has set. *)
Definition planCacheStatsFunc (fmt_1f : f64 -> bytes) (g_planCache : option PlanCache) : outcome bytes :=
  match g_planCache with
  | None => Undefined
  | Some c =>
      let '(hits, misses, nEntries, memoryUsed) := graphPlanCacheStats c in
      let hitRate :=
        if 0 <? hits + misses then f64_mul (f64_div (f64_of_Z hits) (f64_of_Z (hits + misses))) (f64_of_Z 100) else S754_zero false in
      Value ([123] ++ stat_text "hits" (fmt_d hits) ++ [44] ++ stat_text "misses" (fmt_d misses) ++ [44] ++ stat_text "entries" (fmt_d nEntries) ++ [44] ++
             stat_text "memory_bytes" (fmt_d memoryUsed) ++ [44] ++ stat_text "hit_rate" (fmt_1f hitRate) ++ [125])
  end.

(** Without a cache there is nothing to clear. *)
Definition planCacheClearFunc (g_planCache : option PlanCache) : outcome (bytes * option PlanCache) :=
  match g_planCache with
  | None => Value (bstr "Plan cache cleared", None)
  | Some c => c <~ graphPlanCacheClear c; Value (bstr "Plan cache cleared", Some c)
  end.
End Cache.

(** ** Chains *)

Fixpoint is_chain (h : gmap nat PlanCacheEntry) (p : option nat) (l : list nat) : Prop :=
  match l with
  | [] => p = None
  | a :: l => p = Some a /\ exists e, h !! a = Some e /\ is_chain h (pNext e) l
  end.

Lemma chain_det (h : gmap nat PlanCacheEntry) (p : option nat) (l1 l2 : list nat) : is_chain h p l1 -> is_chain h p l2 -> l1 = l2.
Proof.
  revert p l2. induction l1 as [|a l1 IH]; intros p [|b l2]; cbn; [done|intros ->; by intros [? _]|intros [-> _]; done|].
  intros [-> (e & He & H1)] [[= <-] (e' & He' & H2)]. rewrite He in He'. injection He' as <-. f_equal. by eapply IH.
Qed.

Lemma chain_app (h : gmap nat PlanCacheEntry) (p : option nat) (l1 : list nat) (a : nat) (l2 : list nat) :
  is_chain h p (l1 ++ a :: l2) -> is_chain h (Some a) (a :: l2).
Proof.
  revert p. induction l1 as [|b l1 IH]; intros p; cbn [app is_chain]; [by intros [-> H]|].
  intros [_ (e & _ & H)]. by apply (IH (pNext e)).
Qed.

Lemma chain_NoDup (h : gmap nat PlanCacheEntry) (p : option nat) (l : list nat) : is_chain h p l -> NoDup l.
Proof.
  revert p. induction l as [|a l IH]; intros p H; [constructor|]. constructor.
  - intros Hin. apply list_elem_of_split in Hin as (l1 & l2 & ->). pose proof H as [-> _].
    pose proof (chain_app h (Some a) (a :: l1) a l2 H) as H2. pose proof (chain_det h _ _ _ H H2) as E.
    apply (f_equal length) in E. cbn in E. rewrite length_app in E. cbn in E. lia.
  - destruct H as [_ (e & _ & H)]. by apply (IH (pNext e)).
Qed.

Lemma chain_live (h : gmap nat PlanCacheEntry) (p : option nat) (l : list nat) (a : nat) : is_chain h p l -> a ∈ l -> is_Some (h !! a).
Proof.
  revert p. induction l as [|b l IH]; intros p H Ha; [by apply elem_of_nil in Ha|]. destruct H as [_ (e & He & H)].
  apply elem_of_cons in Ha as [->|Ha]; [by eexists|by apply (IH (pNext e))].
Qed.

(** Only the links of its entries matter to a chain. *)
Lemma chain_same (h h' : gmap nat PlanCacheEntry) (p : option nat) (l : list nat) :
  (forall a, a ∈ l -> pNext <$> h' !! a = pNext <$> h !! a) -> is_chain h p l -> is_chain h' p l.
Proof.
  revert p. induction l as [|b l IH]; intros p Hs; [done|]. intros [-> (e & He & H)]. split; [done|].
  pose proof (Hs b (list_elem_of_here _ _)) as E. rewrite He in E. destruct (h' !! b) as [e'|] eqn:He'; [|done]. injection E as E.
  exists e'. split; [done|]. rewrite E. apply IH; [|done]. intros a Ha. apply Hs. by constructor.
Qed.

Lemma chain_length (h : gmap nat PlanCacheEntry) (p : option nat) (l : list nat) : is_chain h p l -> (length l <= size h)%nat.
Proof.
  intros H. rewrite <- size_dom, <- (size_list_to_set (C := gset nat) l (chain_NoDup h p l H)). apply subseteq_size.
  intros a Ha. apply elem_of_list_to_set in Ha. apply elem_of_dom. by apply (chain_live h p l).
Qed.

(** Taking an entry out of a chain. *)
Lemma chain_unlink (h : gmap nat PlanCacheEntry) (p : option nat) (l1 : list nat) (x v : nat) (l2 : list nat) (ex ev : PlanCacheEntry) :
  is_chain h p (l1 ++ x :: v :: l2) -> h !! x = Some ex -> h !! v = Some ev ->
  is_chain (<[x := with_pNext (pNext ev) ex]> h) p (l1 ++ x :: l2).
Proof.
  intros H Hx Hv. pose proof (chain_NoDup _ _ _ H) as Hnd. revert p H. induction l1 as [|b l1 IH]; intros p H.
  - destruct H as [-> (e & _ & H)]. destruct H as [_ (e' & He' & H)]. rewrite Hv in He'. injection He' as <-.
    split; [done|]. exists (with_pNext (pNext ev) ex). rewrite lookup_insert_eq. split; [done|]. cbn.
    apply (chain_same h); [|done]. intros a Ha. rewrite lookup_insert_ne; [done|]. intros ->. cbn in Hnd.
    apply NoDup_cons in Hnd as [Hnd _]. apply Hnd. by constructor.
  - cbn [app] in *. apply NoDup_cons in Hnd as [Hb Hnd]. destruct H as [-> (e & He & H)]. split; [done|]. exists e. split; [|by apply IH].
    rewrite lookup_insert_ne; [done|]. intros ->. apply Hb. apply elem_of_app. right. constructor.
Qed.

(** ** Well-formed caches *)

Record wf (c : PlanCache) : Prop := {
  wf_chain : forall b, (b < length (buckets c))%nat ->
    exists p l, buckets c !! b = Some p /\ is_chain (heap c) p l /\ forall a, a ∈ l <-> exists e, heap c !! a = Some e /\ plan_bucket c (zQueryHash e) = b;
  wf_keys : forall a1 a2 e1 e2, heap c !! a1 = Some e1 -> heap c !! a2 = Some e2 -> zQueryHash e1 = zQueryHash e2 -> a1 = a2;
  wf_fresh : forall a, is_Some (heap c !! a) -> (a < next_addr c)%nat;
  wf_count : nEntries c = Z.of_nat (size (heap c));
  wf_buckets : (0 < length (buckets c))%nat
}.

Lemma bucket_lt (c : PlanCache) (q : bytes) : wf c -> (plan_bucket c q < length (buckets c))%nat.
Proof.
  intros W. pose proof (wf_buckets c W). unfold plan_bucket. pose proof (Z.mod_pos_bound (planCacheHash q) (Z.of_nat (length (buckets c)))). lia.
Qed.

Definition links (e : PlanCacheEntry) : bytes * option nat := (zQueryHash e, pNext e).

Lemma size_links (h h' : gmap nat PlanCacheEntry) {A : Type} (f : PlanCacheEntry -> A) : (forall a, f <$> h' !! a = f <$> h !! a) -> size h' = size h.
Proof.
  intros E. rewrite <- !size_dom. f_equal. apply set_eq. intros a. rewrite !elem_of_dom. specialize (E a). destruct (h' !! a), (h !! a); try done.
Qed.

Lemma fmap_links (h h' : gmap nat PlanCacheEntry) {A : Type} (f : PlanCacheEntry -> A) (a : nat) (e : PlanCacheEntry) :
  f <$> h' !! a = f <$> h !! a -> h' !! a = Some e -> exists e0, h !! a = Some e0 /\ f e = f e0.
Proof. intros E He. rewrite He in E. destruct (h !! a) as [e0|]; [|done]. injection E as E. by exists e0. Qed.

Lemma wf_links (c c' : PlanCache) :
  buckets c' = buckets c -> nEntries c' = nEntries c -> next_addr c' = next_addr c ->
  (forall a, links <$> heap c' !! a = links <$> heap c !! a) -> wf c -> wf c'.
Proof.
  intros Eb En Ea El [W1 W2 W3 W4 W5].
  assert (Ebk : forall q, plan_bucket c' q = plan_bucket c q) by (intros q; unfold plan_bucket; by rewrite Eb).
  constructor.
  - rewrite Eb. intros b Hb. destruct (W1 b Hb) as (p & l & Hp & Hl & Hin). exists p, l. split; [done|]. split.
    + apply (chain_same (heap c)); [|done]. intros a _. specialize (El a). destruct (heap c' !! a) as [x|], (heap c !! a) as [y|]; try done. injection El as _ El'. cbn. by rewrite El'.
    + intros a. rewrite Hin. split; intros (e & He & Hq).
      * destruct (fmap_links (heap c') (heap c) links a e) as (e0 & He0 & E); [done|done|]. injection E as E _. exists e0. by rewrite Ebk, <- E.
      * destruct (fmap_links (heap c) (heap c') links a e) as (e0 & He0 & E); [done|done|]. injection E as E _. exists e0. by rewrite <- Ebk, <- E.
  - intros a1 a2 e1 e2 H1 H2 Eq. destruct (fmap_links (heap c) (heap c') links a1 e1) as (f1 & F1 & E1); [done|done|].
    destruct (fmap_links (heap c) (heap c') links a2 e2) as (f2 & F2 & E2); [done|done|]. injection E1 as E1 _. injection E2 as E2 _.
    apply (W2 a1 a2 f1 f2); [done|done|congruence].
  - rewrite Ea. intros a [e He]. apply W3. destruct (fmap_links (heap c) (heap c') links a e) as (f & F & _); [done|done|by exists f].
  - rewrite En, W4. f_equal. symmetry. by apply (size_links _ _ links).
  - by rewrite Eb.
Qed.

(** ** Finding an entry *)

Lemma find_entry_spec (c : PlanCache) (fuel : nat) (q : bytes) (p : option nat) (l : list nat) :
  is_chain (heap c) p l -> (length l < fuel)%nat ->
  exists r, find_entry fuel q p c = Value r /\
    match r with
    | Some a => exists e, heap c !! a = Some e /\ zQueryHash e = q
    | None => forall a e, a ∈ l -> heap c !! a = Some e -> zQueryHash e <> q
    end.
Proof.
  revert fuel p. induction l as [|a l IH]; intros fuel p H Hf; (destruct fuel as [|fuel]; [cbn in Hf; lia|]).
  - cbn in H. subst p. exists None. split; [done|]. intros a e Ha. by apply elem_of_nil in Ha.
  - destruct H as [-> (e & He & H)]. cbn [find_entry]. unfold load. rewrite He. cbn [outcome_bind]. destruct (bool_decide_reflect (zQueryHash e = q)) as [Eq|Nq].
    + exists (Some a). split; [done|]. by exists e.
    + destruct (IH fuel (pNext e) H ltac:(cbn in Hf; lia)) as (r & Er & Hr). exists r. split; [done|]. destruct r as [b|]; [done|].
      intros a' e' Ha He'. apply elem_of_cons in Ha as [->|Ha]; [|by eapply Hr]. rewrite He in He'. by injection He' as <-.
Qed.

Lemma find_query_spec (c : PlanCache) (q : bytes) :
  wf c ->
  exists r, find_query q c = Value r /\
    match r with
    | Some a => exists e, heap c !! a = Some e /\ zQueryHash e = q
    | None => forall a e, heap c !! a = Some e -> zQueryHash e <> q
    end.
Proof.
  intros W. destruct (wf_chain c W _ (bucket_lt c q W)) as (p & l & Hp & Hl & Hin). unfold find_query. cbn [read_link]. rewrite Hp. cbn [outcome_bind].
  destruct (find_entry_spec c (steps c) q p l Hl) as (r & Er & Hr); [unfold steps; pose proof (chain_length _ _ _ Hl); lia|].
  exists r. split; [done|]. destruct r as [a|]; [done|]. intros a e He Eq. apply (Hr a e); [|done|done]. apply Hin. exists e. by rewrite Eq.
Qed.

(** ** Removing an entry *)

(** The link after the entries [l] of a bucket. *)
Definition pos (b : nat) (l : list nat) : link := match last l with None => in_bucket b | Some x => in_entry x end.

Lemma pos_snoc (b : nat) (l : list nat) (x : nat) : pos b (l ++ [x]) = in_entry x.
Proof. unfold pos. by rewrite last_snoc. Qed.

Lemma read_pos (c : PlanCache) (b : nat) (p : option nat) (l1 l2 : list nat) :
  buckets c !! b = Some p -> is_chain (heap c) p (l1 ++ l2) -> read_link c (pos b l1) = Value (head l2).
Proof.
  intros Hp H. destruct l1 as [|x l1 _] using rev_ind.
  - cbn. rewrite Hp. f_equal. destruct l2; [done|]. by destruct H as [-> _].
  - rewrite pos_snoc. rewrite <- app_assoc in H. apply chain_app in H. destruct H as [_ (e & He & H)]. cbn. unfold load. rewrite He. cbn. f_equal.
    destruct l2; [done|]. by destruct H as [-> _].
Qed.

(** What an entry holds for its query. *)
Definition content (e : PlanCacheEntry) : bytes * PhysicalPlanNode := (zQueryHash e, pPlan e).
Definition view (c : PlanCache) (a : nat) : option (bytes * PhysicalPlanNode) := content <$> heap c !! a.

Lemma write_pos (c : PlanCache) (b : nat) (p : option nat) (l1 : list nat) (v : nat) (l2 : list nat) (ev : PlanCacheEntry) :
  buckets c !! b = Some p -> is_chain (heap c) p (l1 ++ v :: l2) -> heap c !! v = Some ev ->
  exists bs h, write_link (pNext ev) (pos b l1) c = Value (with_heap h (with_buckets bs c)) /\
    length bs = length (buckets c) /\ (forall b', b' <> b -> bs !! b' = buckets c !! b') /\
    (exists p', bs !! b = Some p' /\ is_chain h p' (l1 ++ l2)) /\
    (forall a, a ∉ l1 -> h !! a = heap c !! a) /\ (forall a, with_pNext None <$> h !! a = with_pNext None <$> heap c !! a).
Proof.
  intros Hp H Hv. destruct l1 as [|x l1 _] using rev_ind.
  - cbn [pos last write_link app]. assert (Hb : (b < length (buckets c))%nat) by (by eapply lookup_lt_Some). rewrite (proj2 (Nat.ltb_lt _ _) Hb).
    exists (<[b := pNext ev]> (buckets c)), (heap c). split; [by destruct c|]. split; [by rewrite length_insert|]. split; [intros b' Hb'; by rewrite list_lookup_insert_ne|].
    split; [|done]. exists (pNext ev). rewrite list_lookup_insert_eq by done. split; [done|]. destruct H as [_ (e & He & H)].
    rewrite Hv in He. by injection He as <-.
  - rewrite pos_snoc. rewrite <- !app_assoc in *. cbn [app] in *.
    destruct (chain_live _ _ _ x H) as [ex Hx]; [apply elem_of_app; right; constructor|].
    exists (buckets c), (<[x := with_pNext (pNext ev) ex]> (heap c)). cbn. unfold update, load. rewrite Hx. cbn. split; [by destruct c|]. split; [done|]. split; [done|]. split.
    { exists p. split; [done|]. by apply (chain_unlink _ p l1 x v l2 ex ev). }
    split.
    + intros a Ha. rewrite lookup_insert_ne; [done|]. intros ->. apply Ha. apply elem_of_app. right. constructor.
    + intros a. destruct (decide (x = a)) as [<-|Hne]; [|by rewrite lookup_insert_ne]. by rewrite lookup_insert_eq, Hx.
Qed.

(** A cache [c'] is [c] without the entry [v], which follows [l1] in its bucket. *)
Section Removal.
Context (c c' : PlanCache) (b : nat) (p : option nat) (l1 : list nat) (v : nat) (l2 : list nat) (ev : PlanCacheEntry).
Context (bs : list (option nat)) (h : gmap nat PlanCacheEntry) (p' : option nat).
Context (W : wf c) (Hp : buckets c !! b = Some p) (H : is_chain (heap c) p (l1 ++ v :: l2)) (Hv : heap c !! v = Some ev).
Context (Hlen : length bs = length (buckets c)) (Hbs : forall b', b' <> b -> bs !! b' = buckets c !! b').
Context (Hp' : bs !! b = Some p') (Hc' : is_chain h p' (l1 ++ l2)).
Context (Hh1 : forall a, a ∉ l1 -> h !! a = heap c !! a) (Hh2 : forall a, with_pNext None <$> h !! a = with_pNext None <$> heap c !! a).
Context (Eb : buckets c' = bs) (Eh : heap c' = delete v h) (En : nEntries c' = nEntries c - 1) (Ea : next_addr c' = next_addr c).

Lemma removed_bucket (q : bytes) : plan_bucket c' q = plan_bucket c q.
Proof. unfold plan_bucket. by rewrite Eb, Hlen. Qed.

Lemma removed_get (a : nat) (e : PlanCacheEntry) : heap c' !! a = Some e -> a <> v /\ exists e0, heap c !! a = Some e0 /\ zQueryHash e = zQueryHash e0.
Proof.
  intros He. rewrite Eh in He. apply lookup_delete_Some in He as [Hne He]. split; [done|].
  destruct (fmap_links (heap c) h (with_pNext None) a e) as (e0 & He0 & E); [done|done|]. exists e0. split; [done|]. by injection E.
Qed.

Lemma removed_put (a : nat) (e : PlanCacheEntry) : a <> v -> heap c !! a = Some e -> exists e0, heap c' !! a = Some e0 /\ zQueryHash e = zQueryHash e0.
Proof.
  intros Hne He. destruct (fmap_links h (heap c) (with_pNext None) a e) as (e0 & He0 & E); [done|done|]. exists e0. rewrite Eh, lookup_delete_ne by done.
  split; [done|]. by injection E.
Qed.

Lemma removed_not_in : v ∉ l1 ++ l2.
Proof using H.
  pose proof (chain_NoDup _ _ _ H) as Hnd. apply NoDup_app in Hnd as (_ & Hd & Hn). apply NoDup_cons in Hn as [Hn _]. rewrite elem_of_app.
  intros [Hi|Hi]; [|done]. apply (Hd v Hi). constructor.
Qed.

Lemma removed_chain : is_chain (heap c') p' (l1 ++ l2).
Proof. rewrite Eh. apply (chain_same h); [|done]. intros a Ha. rewrite lookup_delete_ne; [done|]. intros <-. by apply removed_not_in. Qed.

(** The entries of the bucket of [v]. *)
Lemma in_own_bucket (a : nat) : a ∈ l1 ++ v :: l2 <-> exists e, heap c !! a = Some e /\ plan_bucket c (zQueryHash e) = b.
Proof.
  destruct (wf_chain c W b (lookup_lt_Some _ _ _ Hp)) as (p0 & l0 & Hp0 & Hl0 & Hin). rewrite Hp in Hp0. injection Hp0 as <-.
  by rewrite <- (chain_det _ _ _ _ Hl0 H).
Qed.

Lemma removed_own_bucket (a : nat) : a ∈ l1 ++ l2 <-> exists e, heap c' !! a = Some e /\ plan_bucket c' (zQueryHash e) = b.
Proof.
  assert (Hsplit : a ∈ l1 ++ v :: l2 <-> a = v \/ a ∈ l1 ++ l2) by (rewrite !elem_of_app, elem_of_cons; tauto). split.
  - intros Hi. assert (Hne : a <> v) by (intros ->; by apply removed_not_in). destruct (proj1 (in_own_bucket a)) as (e & He & Hbe); [tauto|].
    destruct (removed_put a e Hne He) as (e0 & He0 & E). exists e0. by rewrite removed_bucket, <- E.
  - intros (e & He & Hbe). destruct (removed_get a e He) as (Hne & e0 & He0 & E). destruct (proj1 Hsplit) as [?|?]; [|done|done].
    apply in_own_bucket. exists e0. by rewrite <- E, <- removed_bucket.
Qed.

Lemma removed_other_bucket (b' : nat) :
  b' <> b -> (b' < length (buckets c))%nat ->
  exists p l, bs !! b' = Some p /\ is_chain (heap c') p l /\ forall a, a ∈ l <-> exists e, heap c' !! a = Some e /\ plan_bucket c' (zQueryHash e) = b'.
Proof.
  intros Hne Hb'. destruct (wf_chain c W b' Hb') as (p0 & l0 & Hp0 & Hl0 & Hin). exists p0, l0. split; [by rewrite Hbs|].
  assert (Hout : forall a, a ∈ l0 -> a ∉ l1 ++ v :: l2).
  { intros a Hi Hi2. apply Hin in Hi as (e & He & Hbe). apply in_own_bucket in Hi2 as (e' & He' & Hbe'). rewrite He in He'. injection He' as <-. congruence. }
  split.
  - apply (chain_same (heap c)); [|done]. intros a Hi. specialize (Hout a Hi). rewrite elem_of_app, elem_of_cons in Hout.
    rewrite Eh, lookup_delete_ne, Hh1; [done| |]; naive_solver.
  - intros a. rewrite Hin. split; intros (e & He & Hbe).
    + destruct (removed_put a e) as (e0 & He0 & E); [|done|exists e0; by rewrite removed_bucket, <- E].
      intros ->. apply (Hout v); [apply Hin; by exists e|]. apply elem_of_app. right. constructor.
    + destruct (removed_get a e He) as (_ & e0 & He0 & E). exists e0. by rewrite <- E, <- removed_bucket.
Qed.

Lemma removed_count : nEntries c' = Z.of_nat (size (heap c')).
Proof.
  rewrite En, (wf_count c W), Eh. assert (Hsz : size h = size (heap c)) by (by apply (size_links _ _ (with_pNext None))).
  assert (is_Some (h !! v)) as [y Hy]. { specialize (Hh2 v). rewrite Hv in Hh2. destruct (h !! v); [by eexists|done]. }
  rewrite <- Hsz, map_size_delete_Some by (by exists y).
  assert (size h <> 0)%nat. { intros E0. apply map_size_empty_iff in E0. rewrite E0 in Hy. by rewrite lookup_empty in Hy. } lia.
Qed.

Lemma remove_wf :
  wf c' /\ (exists p', buckets c' !! b = Some p' /\ is_chain (heap c') p' (l1 ++ l2)) /\ (forall a, view c' a = if decide (a = v) then None else view c a).
Proof.
  split; [constructor|split].
  - rewrite Eb, Hlen. intros b' Hb'. destruct (decide (b' = b)) as [->|Hne]; [|by apply removed_other_bucket].
    exists p', (l1 ++ l2). split; [done|]. split; [apply removed_chain|apply removed_own_bucket].
  - intros a1 a2 e1 e2 H1 H2 Eq. destruct (removed_get _ _ H1) as (_ & f1 & F1 & E1). destruct (removed_get _ _ H2) as (_ & f2 & F2 & E2).
    apply (wf_keys c W a1 a2 f1 f2 F1 F2). congruence.
  - rewrite Ea. intros a [e He]. apply (wf_fresh c W). destruct (removed_get a e He) as (_ & e0 & He0 & _). by exists e0.
  - apply removed_count.
  - rewrite Eb, Hlen. apply (wf_buckets c W).
  - exists p'. rewrite Eb. split; [done|]. apply removed_chain.
  - intros a. unfold view. rewrite Eh. destruct (decide (a = v)) as [->|Hne]; [by rewrite lookup_delete_eq|]. rewrite lookup_delete_ne by done.
    specialize (Hh2 a). destruct (h !! a) as [x|], (heap c !! a) as [y|]; try done. injection Hh2. intros. cbn. unfold content. congruence.
Qed.
End Removal.

(** ** Eviction *)

Lemma unlink_spec (c : PlanCache) (b : nat) (q p : option nat) (fuel : nat) (l1 l2 : list nat) (v : nat) (l3 : list nat) :
  buckets c !! b = Some p -> is_chain (heap c) p (l1 ++ l2 ++ v :: l3) -> v ∉ l2 -> (length l2 < fuel)%nat ->
  unlink fuel v q (pos b l1) c = write_link q (pos b (l1 ++ l2)) c.
Proof.
  intros Hp. revert fuel l1. induction l2 as [|a l2 IH]; intros fuel l1 H Hv Hf; (destruct fuel as [|fuel]; [cbn in Hf; lia|]);
    cbn [unlink]; rewrite (read_pos c b p l1 _ Hp H); cbn [outcome_bind head app].
  - by rewrite Nat.eqb_refl, app_nil_r.
  - rewrite (proj2 (Nat.eqb_neq a v)) by (intros ->; apply Hv; constructor).
    replace (in_entry a) with (pos b (l1 ++ [a])) by apply pos_snoc. rewrite IH.
    + by rewrite <- app_assoc.
    + by rewrite <- app_assoc.
    + intros Hi. apply Hv. by constructor.
    + cbn in Hf. lia.
Qed.

(** The parameters and the buckets stay. *)
Definition same_limits (c c' : PlanCache) : Prop :=
  length (buckets c') = length (buckets c) /\ maxEntries c' = maxEntries c /\ maxMemory c' = maxMemory c.

#[global] Instance same_limits_preorder : PreOrder same_limits.
Proof. split; [done|]. intros c1 c2 c3 (H1 & H2 & H3) (G1 & G2 & G3). unfold same_limits. by rewrite G1, G2, G3. Qed.

(** Evicting removes one entry, if the tail of the list is one. *)
Lemma evict_spec (c : PlanCache) (v : nat) :
  wf c -> pLRUTail c = Some v -> is_Some (heap c !! v) ->
  exists c', planCacheEvictLRU c = Value c' /\ wf c' /\ same_limits c c' /\ nEntries c' = nEntries c - 1 /\
    forall a, view c' a = if decide (a = v) then None else view c a.
Proof.
  intros W Ht [e He]. unfold planCacheEvictLRU. rewrite Ht. unfold load. rewrite He. cbn [outcome_bind].
  destruct (wf_chain c W _ (bucket_lt c (zQueryHash e) W)) as (p & l & Hp & Hl & Hin). set (b := plan_bucket c (zQueryHash e)) in *.
  assert (Hvl : v ∈ l) by (apply Hin; by exists e). apply list_elem_of_split in Hvl as (l1 & l2 & ->).
  change (in_bucket b) with (pos b []). rewrite (unlink_spec c b (pNext e) p (steps c) [] l1 v l2 Hp Hl).
  2:{ pose proof (chain_NoDup _ _ _ Hl) as Hnd. apply NoDup_app in Hnd as (_ & Hd & _). intros Hi. apply (Hd v Hi). constructor. }
  2:{ pose proof (chain_length _ _ _ Hl) as Hc. rewrite length_app in Hc. cbn in Hc. unfold steps. lia. }
  destruct (write_pos c b p l1 v l2 e Hp Hl He) as (bs & h & Ew & Hlen & Hbs & (p' & Hp' & Hc') & Hh1 & Hh2). cbn [app]. rewrite Ew. cbn [outcome_bind].
  eexists. split; [reflexivity|]. match goal with |- wf ?x /\ _ => set (c' := x) end.
  destruct (remove_wf c c' b p l1 v l2 e bs h p' W Hp Hl He Hlen Hbs Hp' Hc' Hh1 Hh2 eq_refl eq_refl eq_refl eq_refl) as (W' & _ & Hview).
  split; [done|]. split; [|done]. split; [done|done].
Qed.

(** Without a dangling tail nothing else happens. *)
Lemma evict_sound (c c' : PlanCache) :
  wf c -> planCacheEvictLRU c = Value c' ->
  wf c' /\ same_limits c c' /\ forall a x, view c' a = Some x -> view c a = Some x.
Proof.
  intros W E. destruct (pLRUTail c) as [v|] eqn:Et.
  - destruct (heap c !! v) as [e|] eqn:He.
    + destruct (evict_spec c v W Et) as (c2 & E2 & W2 & L2 & _ & V2); [by exists e|]. rewrite E in E2. injection E2 as <-. split; [done|]. split; [done|].
      intros a x. rewrite V2. by destruct (decide (a = v)).
    + unfold planCacheEvictLRU in E. rewrite Et in E. unfold load in E. by rewrite He in E.
  - unfold planCacheEvictLRU in E. rewrite Et in E. injection E as <-. split; [done|]. split; [done|done].
Qed.

Lemma limits_sound (fuel : nat) (size : Z) (c c' : PlanCache) :
  wf c -> 0 < maxEntries c -> limits_loop fuel size c = Value c' ->
  wf c' /\ same_limits c c' /\ (forall a x, view c' a = Some x -> view c a = Some x) /\ nEntries c' < maxEntries c'.
Proof.
  revert c. induction fuel as [|fuel IH]; intros c W Hm E; [done|]. cbn [limits_loop] in E. destruct (over_limits size c) eqn:Eo.
  - destruct (planCacheEvictLRU c) as [c1| |] eqn:E1; cbn [outcome_bind] in E; [|done|done]. destruct (evict_sound c c1 W E1) as (W1 & L1 & V1).
    pose proof L1 as (_ & M1 & _). destruct (nEntries c1 =? 0) eqn:E0.
    + injection E as <-. split; [done|]. split; [done|]. split; [done|]. lia.
    + destruct (IH c1 W1 ltac:(lia) E) as (W2 & L2 & V2 & N2). split; [done|]. split; [by transitivity c1|]. split; [|done]. intros a x Hx. by apply V1, V2.
  - injection E as <-. split; [done|]. split; [done|]. split; [done|]. unfold over_limits in Eo. lia.
Qed.

(** ** Using an entry *)

Definition core (e : PlanCacheEntry) : bytes * PhysicalPlanNode * option nat := (zQueryHash e, pPlan e, pNext e).

(** Only the list and the times of use differ. *)
Definition quiet (c c' : PlanCache) : Prop :=
  buckets c' = buckets c /\ (nEntries c', maxEntries c', maxMemory c', currentMemory c', hits c', misses c', next_addr c') =
    (nEntries c, maxEntries c, maxMemory c, currentMemory c, hits c, misses c, next_addr c) /\
  forall a, core <$> heap c' !! a = core <$> heap c !! a.

#[global] Instance quiet_preorder : PreOrder quiet.
Proof. split; [done|]. intros c1 c2 c3 (H1 & H2 & H3) (G1 & G2 & G3). split; [by rewrite G1|]. split; [by rewrite G2|]. intros a. by rewrite G3. Qed.

Lemma quiet_links (c c' : PlanCache) (a : nat) : quiet c c' -> links <$> heap c' !! a = links <$> heap c !! a.
Proof. intros (_ & _ & H). specialize (H a). destruct (heap c' !! a), (heap c !! a); try done. injection H as H1 H2 H3. cbn. unfold links. congruence. Qed.

Lemma quiet_wf (c c' : PlanCache) : quiet c c' -> wf c -> wf c'.
Proof. intros Q. pose proof Q as (H1 & H2 & _). injection H2. intros. apply (wf_links c c'); try done. intros a. by apply quiet_links. Qed.

Lemma quiet_view (c c' : PlanCache) (a : nat) : quiet c c' -> view c' a = view c a.
Proof. intros (_ & _ & H). specialize (H a). unfold view. destruct (heap c' !! a), (heap c !! a); try done. injection H as H1 H2 H3. cbn. unfold content. congruence. Qed.

Lemma quiet_live (c c' : PlanCache) (a : nat) : quiet c c' -> is_Some (heap c !! a) -> is_Some (heap c' !! a).
Proof. intros (_ & _ & H) [e He]. specialize (H a). rewrite He in H. destruct (heap c' !! a); [by eexists|done]. Qed.

Lemma update_some (f : PlanCacheEntry -> PlanCacheEntry) (a : nat) (c : PlanCache) (e : PlanCacheEntry) :
  heap c !! a = Some e -> update f a c = Value (with_heap (<[a := f e]> (heap c)) c).
Proof. intros He. unfold update, load. by rewrite He. Qed.

Lemma update_inv (f : PlanCacheEntry -> PlanCacheEntry) (a : nat) (c c' : PlanCache) :
  update f a c = Value c' -> exists e, heap c !! a = Some e /\ c' = with_heap (<[a := f e]> (heap c)) c.
Proof. unfold update, load. destruct (heap c !! a) as [e|]; [|done]. intros [= <-]. by exists e. Qed.

Lemma update_quiet (f : PlanCacheEntry -> PlanCacheEntry) (a : nat) (c c' : PlanCache) :
  (forall e, core (f e) = core e) -> update f a c = Value c' -> quiet c c'.
Proof.
  intros Hf (e & He & ->)%update_inv. split; [done|]. split; [done|]. intros b. cbn. destruct (decide (a = b)) as [<-|Hne].
  - rewrite lookup_insert_eq, He. cbn. by rewrite Hf.
  - by rewrite lookup_insert_ne.
Qed.

Lemma touch_quiet (a : nat) (c c' : PlanCache) : planCacheTouchLRU a c = Value c' -> quiet c c'.
Proof.
  unfold planCacheTouchLRU. destruct (bool_decide _); [by intros [= <-]|]. unfold load. destruct (heap c !! a) as [e|]; [|done]. cbn [outcome_bind].
  assert (Hl : forall p x, core (with_pLRU p x) = core x) by done.
  destruct (match pLRU e with Some b => update (with_pLRU (Some b)) b c | None => Value c end) as [c1| |] eqn:E1; [|done|done]. cbn [outcome_bind].
  destruct (update (with_pLRU (pLRUHead c1)) a c1) as [c2| |] eqn:E2; [|done|done]. cbn [outcome_bind]. intros [= <-].
  assert (Q1 : quiet c c1) by (destruct (pLRU e); [exact (update_quiet _ _ _ _ (Hl _) E1)|by injection E1 as <-]).
  transitivity c1; [done|]. transitivity c2; [exact (update_quiet _ _ _ _ (Hl _) E2)|done].
Qed.

(** *** The links of the list *)

Definition live (c : PlanCache) (p : option nat) : Prop := forall a, p = Some a -> is_Some (heap c !! a).

(** No link of the list dangles. *)
Record lru_live (c : PlanCache) : Prop := {
  live_head : live c (pLRUHead c);
  live_tail : live c (pLRUTail c);
  live_links : forall a e, heap c !! a = Some e -> live c (pLRU e)
}.

Lemma update_live (x : PlanCacheEntry) (a : nat) (c : PlanCache) :
  lru_live c -> live c (pLRU x) -> lru_live (with_heap (<[a := x]> (heap c)) c).
Proof.
  intros [L1 L2 L3] Lp.
  assert (Hl : forall q, live c q -> live (with_heap (<[a := x]> (heap c)) c) q).
  { intros q Hq b Hb. cbn. destruct (decide (a = b)) as [<-|Hne]; [rewrite lookup_insert_eq; by eexists|]. rewrite lookup_insert_ne by done. by apply Hq. }
  constructor; [by apply Hl|by apply Hl|]. intros b eb. cbn. destruct (decide (a = b)) as [<-|Hne].
  - rewrite lookup_insert_eq. intros [= <-]. by apply Hl.
  - rewrite lookup_insert_ne by done. intros Hb. by apply Hl, (L3 b).
Qed.

Lemma touch_live (a : nat) (c : PlanCache) : lru_live c -> is_Some (heap c !! a) -> exists c', planCacheTouchLRU a c = Value c' /\ lru_live c'.
Proof.
  intros L [e He]. unfold planCacheTouchLRU. destruct (bool_decide _); [by exists c|]. unfold load. rewrite He. cbn [outcome_bind].
  assert (exists c1, match pLRU e with Some b => update (with_pLRU (Some b)) b c | None => Value c end = Value c1 /\ lru_live c1 /\
            is_Some (heap c1 !! a) /\ live c1 (pLRU e)) as (c1 & -> & L1 & [e1 He1] & Lt).
  { pose proof (live_links c L a e He) as Hn. destruct (pLRU e) as [b|] eqn:Eb; [|exists c; split; [done|]; split; [done|]; split; [by exists e|done]].
    destruct (Hn b eq_refl) as [eb Heb]. rewrite (update_some _ _ _ _ Heb). eexists. split; [done|]. split; [by apply update_live|]. cbn.
    split; [|intros b' [= <-]; cbn; rewrite lookup_insert_eq; by eexists].
    destruct (decide (b = a)) as [->|Hne]; [rewrite lookup_insert_eq; by eexists|rewrite lookup_insert_ne by done; by exists e]. }
  cbn [outcome_bind]. rewrite (update_some _ _ _ _ He1). cbn [outcome_bind]. eexists. split; [done|].
  pose proof (update_live (with_pLRU (pLRUHead c1) e1) a c1 L1 (live_head c1 L1)) as [M1 M2 M3]. constructor; [| |done].
  - intros x [= <-]. cbn. rewrite lookup_insert_eq. by eexists.
  - set (t := if bool_decide (pLRUTail c1 = Some a) then pLRU e else pLRUTail c1).
    assert (Ht : live (with_heap (<[a := with_pLRU (pLRUHead c1) e1]> (heap c1)) c1) t).
    { subst t. destruct (bool_decide _); [|done]. intros x Hx. cbn. destruct (decide (a = x)) as [<-|Hne]; [rewrite lookup_insert_eq; by eexists|].
      rewrite lookup_insert_ne by done. by apply Lt. }
    destruct t as [t|]; [done|]. intros x [= <-]. cbn. rewrite lookup_insert_eq. by eexists.
Qed.

(** ** Looking up *)

Lemma lookup_spec (time : Z) (q : bytes) (c : PlanCache) (o : option PhysicalPlanNode) (c' : PlanCache) :
  wf c -> graphPlanCacheLookup time q c = Value (o, c') ->
  wf c' /\ same_limits c c' /\ nEntries c' = nEntries c /\ currentMemory c' = currentMemory c /\ (forall a, view c' a = view c a) /\
  (hits c', misses c') = match o with Some _ => (hits c + 1, misses c) | None => (hits c, misses c + 1) end /\
  match o with Some p => exists a, view c a = Some (q, p) | None => forall a p, view c a <> Some (q, p) end.
Proof.
  intros W. unfold graphPlanCacheLookup. destruct (find_query_spec c q W) as (r & -> & Hr). cbn [outcome_bind]. destruct r as [a|].
  - destruct Hr as (e & He & <-). set (c1 := with_stats _ _ _ c). destruct (update _ a c1) as [c2| |] eqn:E2; [|done|done]. cbn [outcome_bind].
    destruct (planCacheTouchLRU a c2) as [c3| |] eqn:E3; [|done|done]. cbn [outcome_bind]. destruct (load c3 a) as [e3| |] eqn:E4; [|done|done]. intros [= <- <-].
    assert (Q : quiet c1 c3) by (transitivity c2; [by refine (update_quiet _ _ _ _ _ E2)|by eapply touch_quiet]).
    assert (W1 : wf c1) by (apply (wf_links c); done). pose proof Q as (Hb & Hn & _). injection Hn as N1 N2 N3 N4 N5 N6 N7.
    split; [by apply (quiet_wf c1)|]. split; [unfold same_limits; by rewrite Hb, N2, N3|]. split; [done|]. split; [done|].
    split; [intros b; by apply (quiet_view c1)|]. split; [by rewrite N5, N6|]. exists a. pose proof (quiet_view c1 c3 a Q) as Hv.
    unfold load in E4. destruct (heap c3 !! a) as [x|] eqn:Ex; [|done]. injection E4 as <-. unfold view in *. rewrite Ex in Hv. cbn in Hv. rewrite He in *.
    cbn in *. unfold content in *. congruence.
  - intros [= <- <-]. split; [by apply (wf_links c)|]. do 5 (split; [done|]). intros a p Hv. unfold view in Hv.
    destruct (heap c !! a) as [e|] eqn:He; [|done]. injection Hv as Hq _. by apply (Hr a e).
Qed.

Lemma stats_live (h m e : Z) (c : PlanCache) : lru_live c -> lru_live (with_stats h m e c).
Proof. intros [L1 L2 L3]. by constructor. Qed.

Lemma lookup_total (time : Z) (q : bytes) (c : PlanCache) :
  wf c -> lru_live c -> exists o c', graphPlanCacheLookup time q c = Value (o, c') /\ lru_live c'.
Proof.
  intros W L. unfold graphPlanCacheLookup. destruct (find_query_spec c q W) as (r & -> & Hr). cbn [outcome_bind]. destruct r as [a|].
  - destruct Hr as (e & He & _). set (f := fun e : PlanCacheEntry => _). set (c1 := with_stats _ _ _ c).
    assert (He1 : heap c1 !! a = Some e) by done. rewrite (update_some f a c1 e He1). cbn [outcome_bind]. set (c2 := with_heap _ c1).
    assert (L2 : lru_live c2) by (apply update_live; [by apply stats_live|exact (live_links c L a e He)]).
    assert (Ha2 : is_Some (heap c2 !! a)) by (cbn; rewrite lookup_insert_eq; by eexists).
    destruct (touch_live a c2 L2 Ha2) as (c3 & E3 & L3). rewrite E3. cbn [outcome_bind].
    destruct (quiet_live c2 c3 a (touch_quiet _ _ _ E3) Ha2) as [e3 He3]. unfold load. rewrite He3. cbn [outcome_bind]. by eexists _, _.
  - eexists _, _. split; [done|]. by apply stats_live.
Qed.

(** ** Inserting *)

Lemma push_wf (c c' : PlanCache) (p : option nat) (e : PlanCacheEntry) :
  wf c -> (forall a x, heap c !! a = Some x -> zQueryHash x <> zQueryHash e) ->
  buckets c !! plan_bucket c (zQueryHash e) = Some p -> pNext e = p ->
  buckets c' = <[plan_bucket c (zQueryHash e) := Some (next_addr c)]> (buckets c) -> heap c' = <[next_addr c := e]> (heap c) ->
  nEntries c' = nEntries c + 1 -> next_addr c' = S (next_addr c) -> wf c'.
Proof.
  intros [W1 W2 W3 W4 W5] Hk Hp Hn Eb Eh En Ea. set (a := next_addr c) in *. set (b := plan_bucket c (zQueryHash e)) in *.
  assert (Ha : heap c !! a = None). { destruct (heap c !! a) as [x|] eqn:E; [|done]. pose proof (W3 a ltac:(by exists x)). subst a. lia. }
  assert (Hlen : length (buckets c') = length (buckets c)) by (rewrite Eb; apply length_insert).
  assert (Ebk : forall q, plan_bucket c' q = plan_bucket c q) by (intros q; unfold plan_bucket; by rewrite Hlen).
  assert (Hlt : (b < length (buckets c))%nat) by (by eapply lookup_lt_Some).
  assert (Hold : forall p l, is_chain (heap c) p l -> is_chain (heap c') p l).
  { intros p0 l Hl. apply (chain_same (heap c)); [|done]. intros x Hx. rewrite Eh, lookup_insert_ne; [done|]. intros <-.
    destruct (chain_live _ _ _ _ Hl Hx) as [y Hy]. congruence. }
  constructor.
  - rewrite Hlen. intros b' Hb'. destruct (W1 b' Hb') as (p0 & l & Hp0 & Hl & Hin). destruct (decide (b' = b)) as [->|Hne].
    + rewrite Hp in Hp0. injection Hp0 as <-. exists (Some a), (a :: l). rewrite Eb, list_lookup_insert_eq by done. split; [done|]. split.
      * split; [done|]. exists e. rewrite Eh, lookup_insert_eq, Hn. split; [done|]. rewrite <- Eh. by apply Hold.
      * intros x. rewrite elem_of_cons, Hin, Eh. split.
        -- intros [->|(y & Hy & Hby)]; [exists e; by rewrite lookup_insert_eq, Ebk|]. exists y. rewrite lookup_insert_ne by congruence. by rewrite Ebk.
        -- intros (y & Hy & Hby). destruct (decide (x = a)) as [->|Hxa]; [by left|right]. rewrite lookup_insert_ne in Hy by done. exists y. by rewrite <- Ebk.
    + exists p0, l. rewrite Eb, list_lookup_insert_ne by done. split; [done|]. split; [by apply Hold|]. intros x. rewrite Hin, Eh. split; intros (y & Hy & Hby).
      * exists y. rewrite lookup_insert_ne by congruence. by rewrite Ebk.
      * rewrite Ebk in Hby. destruct (decide (x = a)) as [->|Hxa]; [|rewrite lookup_insert_ne in Hy by done; by exists y].
        rewrite lookup_insert_eq in Hy. injection Hy as <-. done.
  - intros a1 a2 e1 e2. rewrite Eh. destruct (decide (a = a1)) as [<-|H1], (decide (a = a2)) as [<-|H2]; rewrite ?lookup_insert_eq; [done| | |].
    + rewrite lookup_insert_ne by done. intros [= <-] Hx Hq. by destruct (Hk a2 e2 Hx).
    + rewrite lookup_insert_ne by done. intros Hx [= <-] Hq. by destruct (Hk a1 e1 Hx).
    + rewrite !lookup_insert_ne by done. apply W2.
  - rewrite Ea, Eh. intros x. destruct (decide (a = x)) as [<-|Hne]; [lia|]. rewrite lookup_insert_ne by done. intros Hx. pose proof (W3 x Hx). lia.
  - rewrite En, W4, Eh, map_size_insert_None by done. lia.
  - lia.
Qed.

Section Insert.
Context (sizeof_plan : Z).

(** The new entry, after the limits are met. *)
Lemma insert_entry_spec (time : Z) (q : bytes) (plan : PhysicalPlanNode) (c c1 : PlanCache) :
  wf c1 -> (forall a x, heap c1 !! a = Some x -> zQueryHash x <> q) ->
  limits_loop (steps c) (calculatePlanSize sizeof_plan plan) c = Value c1 ->
  exists c', insert_entry sizeof_plan time q plan c = Value c' /\ wf c' /\ same_limits c1 c' /\ nEntries c' = nEntries c1 + 1 /\
    currentMemory c' = to_size (currentMemory c1 + calculatePlanSize sizeof_plan plan) /\ (hits c', misses c') = (hits c1, misses c1) /\
    (forall a, view c' a = if decide (a = next_addr c1) then Some (q, plan) else view c1 a) /\ (lru_live c1 -> lru_live c').
Proof.
  intros W Hk El. unfold insert_entry. rewrite El. cbn [outcome_bind]. pose proof (bucket_lt c1 q W) as Hb.
  destruct (wf_chain c1 W _ Hb) as (p & l & Hp & _). cbn [read_link]. rewrite Hp. cbn [outcome_bind write_link]. rewrite (proj2 (Nat.ltb_lt _ _) Hb).
  cbn [outcome_bind]. eexists. split; [reflexivity|]. set (e := MkEntry q plan time 1 (calculatePlanSize sizeof_plan plan) p (pLRUHead c1)).
  split; [by apply (push_wf c1 _ p e)|]. split; [split; [cbn; apply length_insert|done]|]. do 3 (split; [done|]). split.
  - intros a. unfold view. cbn. destruct (decide (a = next_addr c1)) as [->|Hne]; [by rewrite lookup_insert_eq|by rewrite lookup_insert_ne].
  - intros L. pose proof (update_live e (next_addr c1) c1 L (live_head c1 L)) as [M1 M2 M3]. constructor; cbn; [| |done].
    + intros x [= <-]. cbn. rewrite lookup_insert_eq. by eexists.
    + intros x Hx. destruct (pLRUTail c1) as [t|] eqn:Et; [apply (M2 x); cbn; congruence|]. injection Hx as <-. cbn. rewrite lookup_insert_eq. by eexists.
Qed.

(** A plan in the place of another. *)
Lemma replace_spec (time : Z) (plan : PhysicalPlanNode) (a : nat) (e : PlanCacheEntry) (c c1 : PlanCache) :
  wf c -> heap c !! a = Some e ->
  update (fun e => MkEntry (zQueryHash e) plan time (useCount e) (calculatePlanSize sizeof_plan plan) (pNext e) (pLRU e)) a c = Value c1 ->
  wf c1 /\ (lru_live c -> lru_live c1) /\ forall b, view c1 b = if decide (b = a) then Some (zQueryHash e, plan) else view c b.
Proof.
  intros W He. rewrite (update_some _ a c e He). intros [= <-]. split; [|split].
  - apply (wf_links c); try done. intros b. cbn. destruct (decide (a = b)) as [<-|Hne]; [by rewrite lookup_insert_eq, He|by rewrite lookup_insert_ne].
  - intros L. apply update_live; [done|]. exact (live_links c L a e He).
  - intros b. unfold view. cbn. destruct (decide (b = a)) as [->|Hne]; [by rewrite lookup_insert_eq|by rewrite lookup_insert_ne].
Qed.

Lemma view_keys (c : PlanCache) (a b : nat) (q : bytes) (p1 p2 : PhysicalPlanNode) : wf c -> view c a = Some (q, p1) -> view c b = Some (q, p2) -> a = b.
Proof.
  intros W. unfold view. destruct (heap c !! a) as [x|] eqn:Ex, (heap c !! b) as [y|] eqn:Ey; try done. intros [= <- _] [= E _]. by apply (wf_keys c W a b x y).
Qed.

(** Whatever is evicted, an entry afterwards is the new one or was there
    before, for another query. *)
Lemma insert_sound (time : Z) (q : bytes) (plan : PhysicalPlanNode) (c c' : PlanCache) :
  wf c -> 0 < maxEntries c -> nEntries c <= maxEntries c -> graphPlanCacheInsert sizeof_plan time q plan c = Value c' ->
  wf c' /\ same_limits c c' /\ nEntries c' <= maxEntries c' /\
  forall a x, view c' a = Some x -> x = (q, plan) \/ x.1 <> q /\ view c a = Some x.
Proof.
  intros W Hm Hn. unfold graphPlanCacheInsert. destruct (find_query_spec c q W) as (r & -> & Hr). cbn [outcome_bind]. destruct r as [a|].
  - destruct Hr as (e & He & <-). destruct (update _ a c) as [c1| |] eqn:E1; [|done|done]. cbn [outcome_bind]. intros E2.
    destruct (replace_spec _ _ _ _ _ _ W He E1) as (W1 & _ & V1). pose proof (touch_quiet _ _ _ E2) as Q. pose proof Q as (Hb & N & _). injection N as N1 N2 N3 _ _ _ _.
    apply update_inv in E1 as (e0 & He0 & ->). cbn in N1, N2, N3, Hb. split; [by apply (quiet_wf _ _ Q)|]. split; [unfold same_limits; by rewrite Hb, N2, N3|].
    split; [lia|]. intros b x Hx. rewrite (quiet_view _ _ b Q), V1 in Hx. destruct (decide (b = a)) as [->|Hne]; [left; by injection Hx|].
    right. split; [|done]. destruct x as [q0 p0]. cbn. intros ->. apply Hne. apply (view_keys c b a (zQueryHash e) p0 (pPlan e) W Hx). unfold view. by rewrite He.
  - destruct (limits_loop (steps c) (calculatePlanSize sizeof_plan plan) c) as [c1| |] eqn:El;
      [|unfold insert_entry; by rewrite El|unfold insert_entry; by rewrite El].
    destruct (limits_sound _ _ _ _ W Hm El) as (W1 & L1 & V1 & N1).
    assert (Hk : forall a x, heap c1 !! a = Some x -> zQueryHash x <> q).
    { intros a x Hx Eq. pose proof (V1 a (content x)) as Hv. unfold view in Hv. rewrite Hx in Hv. specialize (Hv eq_refl).
      destruct (heap c !! a) as [y|] eqn:Ey; [|done]. injection Hv as Hq _. apply (Hr a y Ey). congruence. }
    destruct (insert_entry_spec time q plan c c1 W1 Hk El) as (c2 & -> & W2 & L2 & N2 & _ & _ & V2 & _). intros [= <-].
    split; [done|]. split; [by transitivity c1|]. split; [destruct L2 as (_ & -> & _); lia|].
    intros a x. rewrite V2. destruct (decide (a = next_addr c1)) as [->|Hne]; [intros [= <-]; by left|]. intros Hx. right. split; [|by apply V1].
    unfold view in Hx. destruct (heap c1 !! a) as [y|] eqn:Ey; [|done]. injection Hx as <-. by apply (Hk a y).
Qed.
End Insert.

(** ** Invalidating *)

Lemma invalidate_chain_spec (pattern : option bytes) (b : nat) (fuel : nat) (l2 l1 : list nat) (n : Z) (c : PlanCache) (p : option nat) :
  wf c -> buckets c !! b = Some p -> is_chain (heap c) p (l1 ++ l2) -> (length l2 < fuel)%nat ->
  exists n' c', invalidate_chain fuel pattern (pos b l1) n c = Value (n', c') /\ wf c' /\ same_limits c c' /\ n' + nEntries c' = n + nEntries c /\
    forall a, view c' a = match view c a with Some x => if bool_decide (a ∈ l2) && query_matches pattern x.1 then None else Some x | None => None end.
Proof.
  revert l2 l1 n c p. induction fuel as [|fuel IH]; intros l2 l1 n c p W Hp H Hf; [lia|]. cbn [invalidate_chain].
  rewrite (read_pos c b p l1 l2 Hp H). cbn [outcome_bind]. destruct l2 as [|v l2]; cbn [head].
  { exists n, c. split; [done|]. split; [done|]. split; [done|]. split; [done|]. intros a. rewrite bool_decide_eq_false_2 by apply not_elem_of_nil. by destruct (view c a). }
  destruct (chain_live _ _ _ v H) as [e He]; [apply elem_of_app; right; constructor|]. unfold load. rewrite He. cbn [outcome_bind].
  destruct (query_matches pattern (zQueryHash e)) eqn:Em.
  - destruct (write_pos c b p l1 v l2 e Hp H He) as (bs & h & Ew & Hlen & Hbs & (p' & Hp' & Hc') & Hh1 & Hh2). rewrite Ew. cbn [outcome_bind].
    match goal with |- context [invalidate_chain fuel pattern (pos b l1) (n + 1) ?x] => set (c1 := x) end.
    destruct (remove_wf c c1 b p l1 v l2 e bs h p' W Hp H He Hlen Hbs Hp' Hc' Hh1 Hh2 eq_refl eq_refl eq_refl eq_refl) as (W1 & (p1 & Hp1 & H1) & V1).
    destruct (IH l2 l1 (n + 1) c1 p1 W1 Hp1 H1 ltac:(cbn in Hf; lia)) as (n' & c' & E & W' & L' & N' & V').
    exists n', c'. split; [done|]. split; [done|]. split; [transitivity c1; [by split|done]|]. split; [cbn in N'; lia|]. intros a. rewrite V', V1.
    destruct (decide (a = v)) as [->|Hne].
    + unfold view. rewrite He. cbn. rewrite Em, bool_decide_eq_true_2 by constructor. done.
    + destruct (view c a); [|done]. rewrite (bool_decide_ext (a ∈ v :: l2) (a ∈ l2)); [done|]. rewrite elem_of_cons. tauto.
  - replace (in_entry v) with (pos b (l1 ++ [v])) by apply pos_snoc.
    destruct (IH l2 (l1 ++ [v]) n c p W Hp ltac:(by rewrite <- app_assoc) ltac:(cbn in Hf; lia)) as (n' & c' & E & W' & L' & N' & V').
    exists n', c'. split; [done|]. split; [done|]. split; [done|]. split; [done|]. intros a. rewrite V'. destruct (view c a) as [x|] eqn:Ex; [|done].
    destruct (decide (a = v)) as [->|Hne].
    + unfold view in Ex. rewrite He in Ex. injection Ex as <-. cbn. by rewrite Em, !andb_false_r.
    + rewrite (bool_decide_ext (a ∈ v :: l2) (a ∈ l2)); [done|]. rewrite elem_of_cons. tauto.
Qed.

Lemma bind_some {A B : Type} (x : A) (f : A -> option B) : Some x ≫= f = f x.
Proof. done. Qed.

(** What is left of an entry. *)
Definition kept (pattern : option bytes) (in_range : bytes -> bool) (x : bytes * PhysicalPlanNode) : option (bytes * PhysicalPlanNode) :=
  if in_range x.1 && query_matches pattern x.1 then None else Some x.

Lemma invalidate_buckets_spec (pattern : option bytes) (k i : nat) (n : Z) (c : PlanCache) :
  wf c -> (i + k <= length (buckets c))%nat ->
  exists n' c', invalidate_buckets k pattern i n c = Value (n', c') /\ wf c' /\ same_limits c c' /\ n' + nEntries c' = n + nEntries c /\
    forall a, view c' a = view c a ≫= kept pattern (fun q => (i <=? plan_bucket c q)%nat && (plan_bucket c q <? i + k)%nat).
Proof.
  revert i n c. induction k as [|k IH]; intros i n c W Hi; cbn [invalidate_buckets].
  { exists n, c. split; [done|]. split; [done|]. split; [done|]. split; [done|]. intros a. destruct (view c a) as [x|]; [|done]. rewrite ?bind_some. unfold kept.
    destruct (Nat.leb_spec i (plan_bucket c x.1)), (Nat.ltb_spec (plan_bucket c x.1) (i + 0)); try done; lia. }
  destruct (wf_chain c W i ltac:(lia)) as (p & l & Hp & Hl & Hin).
  destruct (invalidate_chain_spec pattern i (steps c) l [] n c p W Hp Hl) as (n1 & c1 & E1 & W1 & L1 & N1 & V1); [pose proof (chain_length _ _ _ Hl); unfold steps; lia|].
  change (pos i []) with (in_bucket i) in E1. rewrite E1. cbn [outcome_bind]. pose proof L1 as (B1 & _).
  destruct (IH (S i) n1 c1 W1 ltac:(lia)) as (n' & c' & E' & W' & L' & N' & V'). exists n', c'. split; [done|]. split; [done|]. split; [by transitivity c1|].
  split; [lia|]. intros a. rewrite V', V1. destruct (view c a) as [x|] eqn:Ex; [|done]. rewrite ?bind_some.
  assert (Ea : bool_decide (a ∈ l) = (plan_bucket c x.1 =? i)%nat).
  { unfold view in Ex. destruct (heap c !! a) as [e|] eqn:He; [|done]. injection Ex as <-. cbn. destruct (Nat.eqb_spec (plan_bucket c (zQueryHash e)) i) as [Hb|Hb].
    - apply bool_decide_eq_true_2. apply Hin. by exists e.
    - apply bool_decide_eq_false_2. intros Ha. apply Hin in Ha as (e' & He' & Hb'). rewrite He in He'. by injection He' as <-. }
  rewrite Ea. assert (Eb : plan_bucket c1 x.1 = plan_bucket c x.1) by (unfold plan_bucket; by rewrite B1). unfold kept.
  destruct (query_matches pattern x.1) eqn:Em; [|rewrite !andb_false_r; rewrite ?bind_some; unfold kept; by rewrite Em, andb_false_r]. rewrite !andb_true_r.
  destruct (Nat.eqb_spec (plan_bucket c x.1) i) as [Hb|Hb]; rewrite ?bind_some; unfold kept; rewrite ?Eb, ?Em, ?andb_true_r.
  - destruct (Nat.leb_spec i (plan_bucket c x.1)), (Nat.ltb_spec (plan_bucket c x.1) (i + S k)); try done; lia.
  - destruct (Nat.leb_spec i (plan_bucket c x.1)), (Nat.leb_spec (S i) (plan_bucket c x.1)), (Nat.ltb_spec (plan_bucket c x.1) (S i + k)),
      (Nat.ltb_spec (plan_bucket c x.1) (i + S k)); cbn; try done; lia.
Qed.

(** The entries whose query contains the pattern go, the others stay; the
    chains are as they should be, whatever the list is. *)
Lemma invalidate_spec (pattern : option bytes) (c : PlanCache) :
  wf c ->
  exists n c', graphPlanCacheInvalidate pattern c = Value (n, c') /\ wf c' /\ same_limits c c' /\ n = nEntries c - nEntries c' /\
    forall a, view c' a = view c a ≫= (fun x => if query_matches pattern x.1 then None else Some x).
Proof.
  intros W. destruct (invalidate_buckets_spec pattern (length (buckets c)) 0 0 c W) as (n & c' & E & W' & L & N & V); [lia|].
  exists n, c'. split; [done|]. split; [done|]. split; [done|]. split; [lia|]. intros a. rewrite V. destruct (view c a) as [x|]; [|done]. rewrite ?bind_some. unfold kept.
  by rewrite Nat.add_0_l, (proj2 (Nat.ltb_lt _ _) (bucket_lt c x.1 W)).
Qed.

(** ** What the cache promises *)

Inductive request :=
| Lookup (time : Z) (zQuery : bytes)
| Insert (time : Z) (zQuery : bytes) (plan : PhysicalPlanNode)
| Invalidate (pattern : option bytes).

Inductive answer := Found (o : option PhysicalPlanNode) | Inserted | Removed (n : Z).

Abbreviation plans := (gmap bytes PhysicalPlanNode).

Section Promise.
Context (sizeof_plan : Z).

Definition perform (r : request) (c : PlanCache) : outcome (answer * PlanCache) :=
  match r with
  | Lookup time q => '(o, c) <~ graphPlanCacheLookup time q c; Value (Found o, c)
  | Insert time q p => c <~ graphPlanCacheInsert sizeof_plan time q p c; Value (Inserted, c)
  | Invalidate pattern => '(n, c) <~ graphPlanCacheInvalidate pattern c; Value (Removed n, c)
  end.

Fixpoint run (rs : list request) (c : PlanCache) : outcome (list answer * PlanCache) :=
  match rs with
  | [] => Value ([], c)
  | r :: rs => '(x, c) <~ perform r c; '(xs, c) <~ run rs c; Value (x :: xs, c)
  end.

(** The plans that may be returned: the last one inserted for a query, unless
    it was invalidated. *)
Definition inserted (r : request) (last : plans) : plans :=
  match r with
  | Lookup _ _ => last
  | Insert _ q p => <[q := p]> last
  | Invalidate pattern => filter (fun x => query_matches pattern x.1 = false) last
  end.

(** An answer that is not wrong: a plan that is found is the last one. *)
Definition sound_answer (last : plans) (r : request) (x : answer) : Prop :=
  match r, x with
  | Lookup _ q, Found o => o = None \/ o = last !! q
  | Insert _ _ _, Inserted => True
  | Invalidate _, Removed n => 0 <= n
  | _, _ => False
  end.

Fixpoint sound (last : plans) (rs : list request) (xs : list answer) : Prop :=
  match rs, xs with
  | [], [] => True
  | r :: rs, x :: xs => sound_answer last r x /\ sound (inserted r last) rs xs
  | _, _ => False
  end.

(** A map of plans, with the memory they take when they are first inserted. *)
Record table := MkTable { t_plans : plans; t_memory : Z; t_hits : Z; t_misses : Z }.

Definition table_step (r : request) (t : table) : answer * table :=
  match r with
  | Lookup _ q =>
      (Found (t_plans t !! q),
       match t_plans t !! q with
       | Some _ => MkTable (t_plans t) (t_memory t) (t_hits t + 1) (t_misses t)
       | None => MkTable (t_plans t) (t_memory t) (t_hits t) (t_misses t + 1)
       end)
  | Insert _ q p =>
      (Inserted,
       MkTable (<[q := p]> (t_plans t))
         (match t_plans t !! q with Some _ => t_memory t | None => t_memory t + calculatePlanSize sizeof_plan p end) (t_hits t) (t_misses t))
  | Invalidate _ => (Removed 0, t)
  end.

Fixpoint table_run (rs : list request) (t : table) : list answer * table :=
  match rs with
  | [] => ([], t)
  | r :: rs => let '(x, t) := table_step r t in let '(xs, t) := table_run rs t in (x :: xs, t)
  end.

(** Requests that keep within the limits and invalidate nothing. *)
Fixpoint fits (n mem : Z) (rs : list request) (t : table) : bool :=
  match rs with
  | [] => true
  | r :: rs =>
      let t' := (table_step r t).2 in
      match r with Invalidate _ => false | _ => (Z.of_nat (size (t_plans t')) <=? n) && (t_memory t' <=? mem) end && fits n mem rs t'
  end.

(** *** Soundness *)

Definition below (c : PlanCache) (last : plans) : Prop := forall a q p, view c a = Some (q, p) -> last !! q = Some p.

Lemma perform_sound (r : request) (x : answer) (c c' : PlanCache) (last : plans) :
  wf c -> 0 < maxEntries c -> nEntries c <= maxEntries c -> below c last -> perform r c = Value (x, c') ->
  sound_answer last r x /\ wf c' /\ same_limits c c' /\ nEntries c' <= maxEntries c' /\ below c' (inserted r last).
Proof.
  intros W Hm Hn B. destruct r as [time q|time q p|pattern]; cbn [perform].
  - destruct (graphPlanCacheLookup time q c) as [[o c1]| |] eqn:E; [|done|done]. cbn [outcome_bind]. intros [= <- <-].
    destruct (lookup_spec time q c o c1 W E) as (W1 & L1 & N1 & _ & V1 & _ & Ho). pose proof L1 as (_ & M1 & _). split.
    { destruct o as [p|]; [|by left]. destruct Ho as [a Ha]. right. symmetry. by apply (B a). }
    split; [done|]. split; [done|]. split; [lia|]. intros a q0 p0. rewrite V1. apply B.
  - destruct (graphPlanCacheInsert sizeof_plan time q p c) as [c1| |] eqn:E; [|done|done]. cbn [outcome_bind]. intros [= <- <-].
    destruct (insert_sound sizeof_plan time q p c c1 W Hm Hn E) as (W1 & L1 & N1 & V1). split; [done|]. split; [done|]. split; [done|]. split; [done|].
    intros a q0 p0 Ha. cbn. destruct (V1 a _ Ha) as [Ea|[Hne Hv]]; [injection Ea as -> ->; apply lookup_insert_eq|].
    cbn in Hne. rewrite lookup_insert_ne by congruence. by apply (B a).
  - destruct (invalidate_spec pattern c W) as (n & c1 & -> & W1 & L1 & Hcount & V1). cbn [outcome_bind]. intros [= <- <-]. pose proof L1 as (_ & M1 & _).
    assert (Hle : nEntries c1 <= nEntries c).
    { rewrite (wf_count c W), (wf_count c1 W1), <- !size_dom. apply inj_le, subseteq_size. intros a. rewrite !elem_of_dom. intros [e He].
      specialize (V1 a). unfold view in V1. rewrite He in V1. destruct (heap c !! a); [by eexists|done]. }
    split; [cbn; lia|]. split; [done|]. split; [done|]. split; [lia|]. intros a q p Ha. rewrite V1 in Ha. cbn. apply map_lookup_filter_Some.
    destruct (view c a) as [[q0 p0]|] eqn:Ev; [|done]. rewrite bind_some in Ha. cbn in Ha. destruct (query_matches pattern q0) eqn:Em; [done|]. injection Ha as <- <-.
    split; [by apply (B a)|done].
Qed.

Lemma run_sound (rs : list request) (xs : list answer) (c c' : PlanCache) (last : plans) :
  wf c -> 0 < maxEntries c -> nEntries c <= maxEntries c -> below c last -> run rs c = Value (xs, c') ->
  sound last rs xs /\ wf c' /\ nEntries c' <= maxEntries c.
Proof.
  revert xs c last. induction rs as [|r rs IH]; intros xs c last W Hm Hn B; cbn [run]; [intros [= <- <-]; done|].
  destruct (perform r c) as [[x c1]| |] eqn:E; [|done|done]. cbn [outcome_bind]. destruct (run rs c1) as [[ys c2]| |] eqn:E2; [|done|done]. cbn [outcome_bind].
  intros [= <- <-]. destruct (perform_sound r x c c1 last W Hm Hn B E) as (S1 & W1 & (_ & L1 & _) & N1 & B1).
  destruct (IH ys c1 _ W1 ltac:(lia) N1 B1 E2) as (S2 & W2 & N2). split; [done|]. split; [done|]. lia.
Qed.

(** *** Within the limits *)

Definition shows (c : PlanCache) (m : plans) : Prop := forall q p, m !! q = Some p <-> exists a, view c a = Some (q, p).

Record agrees (c : PlanCache) (t : table) : Prop := {
  ag_wf : wf c;
  ag_live : lru_live c;
  ag_shows : shows c (t_plans t);
  ag_count : nEntries c = Z.of_nat (size (t_plans t));
  ag_memory : currentMemory c = t_memory t;
  ag_hits : hits c = t_hits t;
  ag_misses : misses c = t_misses t
}.

(** The entries are as many as the plans shown. *)
Lemma shows_size (c : PlanCache) (m : plans) : wf c -> shows c m -> nEntries c = Z.of_nat (size m).
Proof using Type.
  intros W Hs. rewrite (wf_count c W). f_equal. set (keys := (fun x : nat * PlanCacheEntry => zQueryHash x.2) <$> map_to_list (heap c)).
  assert (Hnd : NoDup keys).
  { apply NoDup_fmap_2_strong; [|apply NoDup_map_to_list]. intros [a e] [b f] Ha%elem_of_map_to_list Hb%elem_of_map_to_list E. cbn in E.
    assert (a = b) as <- by (by eapply (wf_keys c W)). rewrite Ha in Hb. by injection Hb as <-. }
  assert (Hd : dom m = list_to_set (C := gset bytes) keys).
  { apply set_eq. intros q. rewrite elem_of_dom, elem_of_list_to_set. unfold keys. rewrite list_elem_of_fmap. split.
    - intros [p Hp]. apply Hs in Hp as [a Ha]. unfold view in Ha. destruct (heap c !! a) as [e|] eqn:He; [|done]. injection Ha as <- _.
      exists (a, e). split; [done|]. by apply elem_of_map_to_list.
    - intros ([a e] & -> & He%elem_of_map_to_list). exists (pPlan e). apply Hs. exists a. unfold view. by rewrite He. }
  rewrite <- (size_dom m), Hd, size_list_to_set by done. unfold keys. by rewrite length_fmap, length_map_to_list.
Qed.

Lemma plan_size_nonneg (Hs : 0 <= sizeof_plan) : forall p, 0 <= calculatePlanSize sizeof_plan p.
Proof using Type.
  fix IH 1. intros [ty z1 z2 z3 z4 l n c r s x f]. cbn [calculatePlanSize pp_children].
  assert (Ho : 0 <= operator_size (MkPhysical ty z1 z2 z3 z4 l n c r s x f)) by (unfold operator_size; cbn; destruct ty; try lia; destruct z2, z3; cbn; lia).
  assert (Hl : 0 <= (fix children (l : list PhysicalPlanNode) : Z := match l with [] => 0 | q :: l => calculatePlanSize sizeof_plan q + children l end) l).
  { clear Ho. induction l as [|q l IHl]; [lia|]. pose proof (IH q). lia. }
  lia.
Qed.

Lemma lookup_agrees (time : Z) (q : bytes) (c : PlanCache) (t : table) :
  agrees c t -> exists c', perform (Lookup time q) c = Value ((table_step (Lookup time q) t).1, c') /\ agrees c' (table_step (Lookup time q) t).2 /\ same_limits c c'.
Proof.
  intros [W L S N M H1 H2]. cbn [perform]. destruct (lookup_total time q c W L) as (o & c' & E & L'). rewrite E. cbn [outcome_bind].
  destruct (lookup_spec time q c o c' W E) as (W' & Lim & N' & M' & V' & St & Ho).
  assert (Eo : o = t_plans t !! q).
  { destruct o as [p|]; [symmetry; by apply S|]. destruct (t_plans t !! q) as [p|] eqn:Ep; [|done]. apply S in Ep as [a Ha]. by destruct (Ho a p). }
  exists c'. cbn [table_step fst snd]. rewrite <- Eo. split; [done|]. split; [|done].
  assert (S' : shows c' (t_plans t)) by (intros q0 p0; rewrite (S q0 p0); split; intros [a Ha]; exists a; [by rewrite V'|by rewrite V' in Ha]).
  destruct o; injection St as St1 St2; constructor; cbn; try done; lia.
Qed.

Lemma shows_put (c c' : PlanCache) (m : plans) (q : bytes) (p : PhysicalPlanNode) (a : nat) :
  shows c m -> (forall b, view c' b = if decide (b = a) then Some (q, p) else view c b) ->
  (forall b p0, view c b = Some (q, p0) -> b = a) -> (forall q0 p0, view c a = Some (q0, p0) -> q0 = q) -> shows c' (<[q := p]> m).
Proof.
  intros S V K1 K2 q0 p0. rewrite lookup_insert_Some. split.
  - intros [[<- <-]|[Hne Hp0]]; [exists a; rewrite V; by rewrite decide_True|]. apply S in Hp0 as [b Hb]. exists b. rewrite V, decide_False; [done|].
    intros ->. apply Hne. symmetry. by apply (K2 q0 p0).
  - intros [b Hb]. rewrite V in Hb. destruct (decide (b = a)) as [->|Hne]; [injection Hb as <- <-; by left|right].
    split; [|apply S; by exists b]. intros <-. apply Hne. by apply (K1 b p0).
Qed.

Lemma replace_agrees (time : Z) (q : bytes) (p : PhysicalPlanNode) (c : PlanCache) (t : table) (a : nat) :
  agrees c t -> find_query q c = Value (Some a) -> (exists e, heap c !! a = Some e /\ zQueryHash e = q) ->
  exists c', perform (Insert time q p) c = Value (Inserted, c') /\ agrees c' (table_step (Insert time q p) t).2 /\ same_limits c c'.
Proof using Type.
  intros [W L S N M H1 H2] Ef (e & He & <-). cbn [perform table_step snd]. unfold graphPlanCacheInsert. rewrite Ef. cbn [outcome_bind].
  assert (Hq : t_plans t !! zQueryHash e = Some (pPlan e)) by (apply S; exists a; unfold view; by rewrite He). rewrite Hq.
  set (f := fun e : PlanCacheEntry => _). pose proof (update_some f a c e He) as Eu. rewrite Eu. cbn [outcome_bind].
  destruct (replace_spec sizeof_plan time p a e c _ W He Eu) as (W1 & L1 & V1). set (c1 := with_heap _ c) in *.
  destruct (touch_live a c1 (L1 L)) as (c2 & E2 & L2); [cbn; rewrite lookup_insert_eq; by eexists|]. rewrite E2. cbn [outcome_bind]. exists c2.
  pose proof (touch_quiet _ _ _ E2) as Q. pose proof Q as (Hb & Hn & _). injection Hn as N1 N2 N3 N4 N5 N6 _. split; [done|].
  split; [|unfold same_limits; by rewrite Hb, N2, N3]. constructor; cbn [t_plans t_memory t_hits t_misses]; try (rewrite ?N4, ?N5, ?N6; done).
  - by apply (quiet_wf c1).
  - apply (shows_put c c2 (t_plans t) (zQueryHash e) p a S).
    + intros b. by rewrite (quiet_view c1 c2 b Q), V1.
    + intros b p0 Hv. apply (view_keys c b a (zQueryHash e) p0 (pPlan e) W Hv). unfold view. by rewrite He.
    + intros q0 p0. unfold view. rewrite He. by intros [= <- _].
  - rewrite N1. cbn. rewrite N, map_size_insert_Some; [done|by eexists].
Qed.

Lemma insert_agrees (time : Z) (q : bytes) (p : PhysicalPlanNode) (c : PlanCache) (t : table) :
  0 <= sizeof_plan -> agrees c t -> maxMemory c < 2 ^ 64 -> 0 <= t_memory t ->
  Z.of_nat (size (<[q := p]> (t_plans t))) <= maxEntries c -> t_memory (table_step (Insert time q p) t).2 <= maxMemory c ->
  exists c', perform (Insert time q p) c = Value (Inserted, c') /\ agrees c' (table_step (Insert time q p) t).2 /\ same_limits c c'.
Proof.
  intros Hs A Hmax Hmem Hfit Hfm. destruct (find_query_spec c q (ag_wf c t A)) as (r & Er & Hr). destruct r as [a|]; [by apply (replace_agrees time q p c t a)|].
  destruct A as [W L S N M H1 H2]. cbn [perform table_step snd t_memory] in *. unfold graphPlanCacheInsert. rewrite Er. cbn [outcome_bind].
  assert (Hnone : forall b p0, view c b <> Some (q, p0)).
  { intros b p0 Ha. unfold view in Ha. destruct (heap c !! b) as [x|] eqn:Ex; [|done]. injection Ha as Hk _. by destruct (Hr b x Ex). }
  assert (Hq : t_plans t !! q = None) by (destruct (t_plans t !! q) as [p0|] eqn:Ep; [apply S in Ep as [a Ha]; by destruct (Hnone a p0)|done]).
  rewrite Hq in *. pose proof (plan_size_nonneg Hs p) as Hsz. rewrite map_size_insert_None in Hfit by done.
  assert (Hto : to_size (currentMemory c + calculatePlanSize sizeof_plan p) = t_memory t + calculatePlanSize sizeof_plan p)
    by (unfold to_size, wrap_u; rewrite M; apply Z.mod_small; lia).
  assert (El : limits_loop (steps c) (calculatePlanSize sizeof_plan p) c = Value c).
  { unfold steps. cbn [limits_loop]. assert (over_limits (calculatePlanSize sizeof_plan p) c = false) as -> by (unfold over_limits; rewrite Hto; lia). done. }
  destruct (insert_entry_spec sizeof_plan time q p c c W Hr El) as (c2 & -> & W2 & Lim & N2 & M2 & St & V2 & L2). cbn [outcome_bind]. exists c2.
  injection St as St1 St2. split; [done|]. split; [|done]. constructor; cbn [t_plans t_memory t_hits t_misses]; try done; [by apply L2| | |lia|lia|lia].
  - apply (shows_put c c2 (t_plans t) q p (next_addr c) S V2); [intros b p0 Hv; by destruct (Hnone b p0)|].
    intros q0 p0 Hx. unfold view in Hx. destruct (heap c !! next_addr c) as [y|] eqn:Ey; [|done]. pose proof (wf_fresh c W (next_addr c) ltac:(by exists y)). lia.
  - rewrite N2, N, map_size_insert_None by done. lia.
Qed.

Lemma run_agrees (rs : list request) (c : PlanCache) (t : table) :
  0 <= sizeof_plan -> agrees c t -> maxMemory c < 2 ^ 64 -> 0 <= t_memory t -> fits (maxEntries c) (maxMemory c) rs t = true ->
  exists c', run rs c = Value ((table_run rs t).1, c') /\ agrees c' (table_run rs t).2.
Proof.
  intros Hs. revert c t. induction rs as [|r rs IH]; intros c t A Hmax Hmem Hf; [by exists c|]. cbn [fits] in Hf. apply andb_true_iff in Hf as [Hf Hrest].
  assert (exists c1, perform r c = Value ((table_step r t).1, c1) /\ agrees c1 (table_step r t).2 /\ same_limits c c1) as (c1 & E1 & A1 & (_ & L1 & L2)).
  { destruct r as [time q|time q p|pattern]; [by apply lookup_agrees| |done]. apply andb_true_iff in Hf as [F1 F2]. apply insert_agrees; try done; cbn in *; lia. }
  assert (Hmem1 : 0 <= t_memory (table_step r t).2).
  { destruct r as [time q|time q p|pattern]; [|pose proof (plan_size_nonneg Hs p)|done]; cbn; destruct (t_plans t !! q); cbn; lia. }
  rewrite <- L1, <- L2 in Hrest. destruct (IH c1 _ A1 ltac:(lia) Hmem1 Hrest) as (c2 & E2 & A2). exists c2. cbn [run table_run].
  rewrite E1. cbn [outcome_bind]. rewrite E2. cbn [outcome_bind]. destruct (table_step r t) as [x t1]. cbn [fst snd] in *. by destruct (table_run rs t1).
Qed.

Lemma init_spec (n mem : Z) (c : PlanCache) :
  graphInitPlanCache n mem = Value (Some c) ->
  agrees c (MkTable ∅ 0 0 0) /\ 0 < maxEntries c /\ nEntries c = 0 /\ maxMemory c = (if mem <=? 0 then 10485760 else mem).
Proof using Type.
  unfold graphInitPlanCache. set (n1 := if n <=? 0 then 100 else n). assert (0 < n1) by (subst n1; destruct (n <=? 0) eqn:E; lia).
  destruct (2 ^ 31 <=? n1 * 2); [done|]. destruct (sqlite3_malloc _); [|done]. destruct (z <? n1 * 2 * 8); [done|]. intros [= <-].
  split; [|done]. constructor; [constructor|constructor| |done|done|done|done]; cbn.
  - intros b Hb. rewrite length_replicate in Hb. exists None, []. rewrite lookup_replicate_2 by lia. split; [done|]. split; [done|]. intros a. split; [intros Ha; by apply elem_of_nil in Ha|].
    intros (e & He & _). by rewrite lookup_empty in He.
  - intros a1 a2 e1 e2 He. by rewrite lookup_empty in He.
  - intros a [e He]. by rewrite lookup_empty in He.
  - done.
  - rewrite length_replicate. lia.
  - done.
  - done.
  - intros a e He. by rewrite lookup_empty in He.
  - intros q p. rewrite lookup_empty. split; [done|]. intros [a Ha]. unfold view in Ha. cbn in Ha. by rewrite lookup_empty in Ha.
Qed.
End Promise.

(** Whatever is looked up, inserted, invalidated and evicted: in a run in which
    no freed memory was touched and every loop has ended, a plan that is found
    is the last one inserted for the query, not invalidated since, and there
    are never more entries than allowed.  Such a run is not guaranteed once an
    entry was evicted or invalidated ([cache_evict_dangles],
    [cache_invalidate_dangles], [cache_insert_hangs]). *)
Lemma plan_cache_sound (sizeof_plan n mem : Z) (c : PlanCache) (rs : list request) (xs : list answer) (c' : PlanCache) :
  graphInitPlanCache n mem = Value (Some c) -> run sizeof_plan rs c = Value (xs, c') -> sound ∅ rs xs /\ nEntries c' <= maxEntries c.
Proof.
  intros Hi E. destruct (init_spec n mem c Hi) as (A & Hm & Hn & HM).
  destruct (run_sound sizeof_plan rs xs c c' ∅ (ag_wf _ _ A) Hm ltac:(lia)) as (S & _ & N); [|done|done].
  intros a q p Hv. destruct (ag_shows _ _ A q p) as [_ H]. by apply H; exists a.
Qed.

(** An invalidation and the lookups after it that find nothing do not use the
    list. *)
Lemma invalidate_agrees (pattern : option bytes) (c : PlanCache) (t : table) :
  agrees c t ->
  let left := filter (fun x => query_matches pattern x.1 = false) (t_plans t) in
  exists c', graphPlanCacheInvalidate pattern c = Value (Z.of_nat (size (t_plans t)) - Z.of_nat (size left), c') /\
    nEntries c' = Z.of_nat (size left) /\ shows c' left /\
    forall time q, left !! q = None -> exists c'', graphPlanCacheLookup time q c' = Value (None, c'').
Proof.
  intros A left. destruct (invalidate_spec pattern c (ag_wf _ _ A)) as (n & c' & E & W & _ & Hn & V).
  assert (Hs : shows c' left).
  { intros q p. unfold left. rewrite map_lookup_filter_Some, (ag_shows _ _ A q p). split.
    - intros [[a Ha] Hq]. exists a. rewrite V, Ha. cbn in *. by rewrite Hq.
    - intros [a Ha]. rewrite V in Ha. destruct (view c a) as [[q0 p0]|] eqn:Ev; [|done]. cbn in Ha.
      destruct (query_matches pattern q0) eqn:Eq; [done|]. injection Ha as <- <-. split; [by exists a|done]. }
  pose proof (shows_size c' left W Hs) as Hsz. exists c'. rewrite E, Hn, (ag_count _ _ A), Hsz. split; [done|]. split; [done|]. split; [done|].
  intros time q Hq. destruct (find_query_spec c' q W) as (r & Er & Hr). unfold graphPlanCacheLookup. rewrite Er. cbn [outcome_bind].
  destruct r as [a|]; [|by eexists]. exfalso. destruct Hr as (e & He & Hz). assert (left !! q = Some (pPlan e)); [|congruence].
  apply Hs. exists a. unfold view. rewrite He. cbn. by rewrite <- Hz.
Qed.

(** C9: while the limits are not reached and nothing is invalidated, the plan
    cache is a map: every operation ends without touching freed memory, every
    plan inserted is found, and entries, hits, misses and memory are counted.
    A first invalidation after such a history is defined as well: it removes
    exactly the plans whose query contains the pattern, returns their number,
    and looking up a query whose plan is gone finds none.  Nothing is claimed
    of what follows an eviction or an invalidation: both leave links of the
    list to freed entries, and a later lookup can write to freed memory
    ([cache_evict_dangles], [cache_invalidate_dangles]) or an insertion not end
    ([cache_insert_hangs]). *)
Theorem plan_cache_correct (sizeof_plan n mem : Z) (c : PlanCache) (rs : list request) :
  0 <= sizeof_plan -> mem < 2 ^ 64 -> graphInitPlanCache n mem = Value (Some c) ->
  fits sizeof_plan (maxEntries c) (maxMemory c) rs (MkTable ∅ 0 0 0) = true ->
  let t := (table_run sizeof_plan rs (MkTable ∅ 0 0 0)).2 in
  exists c', run sizeof_plan rs c = Value ((table_run sizeof_plan rs (MkTable ∅ 0 0 0)).1, c') /\
    graphPlanCacheStats c' = (t_hits t, t_misses t, Z.of_nat (size (t_plans t)), t_memory t) /\
    forall pattern, let left := filter (fun x => query_matches pattern x.1 = false) (t_plans t) in
      exists c'', graphPlanCacheInvalidate pattern c' = Value (Z.of_nat (size (t_plans t)) - Z.of_nat (size left), c'') /\
        nEntries c'' = Z.of_nat (size left) /\ shows c'' left /\
        forall time q, left !! q = None -> exists c3, graphPlanCacheLookup time q c'' = Value (None, c3).
Proof.
  intros Hs Hmem Hi Hf t. destruct (init_spec n mem c Hi) as (A & Hm & Hn & HM).
  destruct (run_agrees sizeof_plan rs c _ Hs A) as (c' & E & A'); [rewrite HM; destruct (mem <=? 0); lia|done|done|].
  exists c'. split; [done|]. split; [|intros pattern left; by apply (invalidate_agrees pattern c' t)].
  destruct A' as [_ _ _ N M H1 H2]. unfold graphPlanCacheStats, t. by rewrite H1, H2, N, M.
Qed.

(** ** Examples *)

(** A scan by a label. *)
Definition scan_plan (label : string) : PhysicalPlanNode :=
  MkPhysical PHYSICAL_LABEL_INDEX_SCAN None (Some (bstr label)) None None [] 0 (S754_zero false) 0 (S754_zero false) None 0.

Definition cache_of (n mem : Z) : PlanCache :=
  MkCache (replicate (Z.to_nat (n * 2)) None) 0 n mem 0 None None 0 0 0 ∅ 0.

Abbreviation qA := (bstr "A").
Abbreviation qB := (bstr "B").
Abbreviation qC := (bstr "C").
Abbreviation qD := (bstr "D").

Definition demo_requests : list request :=
  [Insert 1 qA (scan_plan "a"); Lookup 2 qB; Insert 3 qB (scan_plan "b"); Insert 4 qA (scan_plan "aa"); Lookup 5 qA; Lookup 6 qB].

Lemma plan_cache_correct_witness :
  exists c', run 200 demo_requests (cache_of 2 10485760) =
      Value ([Inserted; Found None; Inserted; Inserted; Found (Some (scan_plan "aa")); Found (Some (scan_plan "b"))], c') /\
    graphPlanCacheStats c' = (2, 1, 2, 404) /\
    exists c'', graphPlanCacheInvalidate (Some qA) c' = Value (1, c'') /\ nEntries c'' = 1.
Proof.
  destruct (plan_cache_correct 200 2 0 (cache_of 2 10485760) demo_requests) as (c' & E & St & Inv); [lia|lia|by vm_compute|by vm_compute|].
  exists c'. rewrite E. split; [by vm_compute|]. rewrite St. split; [by vm_compute|].
  destruct (Inv (Some qA)) as (c'' & E2 & N & _). exists c''. split; [rewrite E2; do 2 f_equal; vm_compute; reflexivity|rewrite N; vm_compute; reflexivity].
Defined.

(** *** When the limits are reached *)

(** The first eviction leaves the entry inserted after the victim with a link
    to freed memory: looking it up writes there. *)
Lemma cache_evict_dangles :
  run 200 [Insert 1 qA (scan_plan "a"); Insert 2 qB (scan_plan "b"); Insert 3 qC (scan_plan "c"); Lookup 4 qB] (cache_of 2 10485760) = Undefined.
Proof. by vm_compute. Qed.

(** An invalidation does the same, and after the cache is cleared the head of
    the list is an entry that was freed. *)
Lemma cache_invalidate_dangles :
  run 200 [Insert 1 qA (scan_plan "a"); Insert 2 qB (scan_plan "b"); Insert 3 qC (scan_plan "c"); Invalidate (Some qA); Lookup 4 qB] (cache_of 9 10485760) = Undefined /\
  run 200 [Insert 1 qA (scan_plan "a"); Insert 2 qB (scan_plan "b"); Invalidate None; Insert 3 qC (scan_plan "c"); Insert 4 qD (scan_plan "d"); Lookup 5 qC]
    (cache_of 9 10485760) = Undefined.
Proof. split; by vm_compute. Qed.

(** The entry used last, not the one used least recently, is evicted: the
    tail that is moved to the front stays the tail. *)
Lemma cache_evicts_recent :
  match run 200 [Insert 1 qA (scan_plan "a"); Insert 2 qB (scan_plan "b"); Lookup 3 qA; Insert 4 qC (scan_plan "c"); Lookup 5 qA] (cache_of 2 10485760) with
  | Value (xs, _) => xs = [Inserted; Inserted; Found (Some (scan_plan "a")); Inserted; Found None]
  | _ => False
  end.
Proof. by vm_compute. Qed.

(** Without a tail nothing is evicted: an insertion that needs more memory
    than there is never ends, with the mutex held. *)
Lemma limits_hang (size : Z) (c : PlanCache) (fuel : nat) :
  pLRUTail c = None -> over_limits size c = true -> nEntries c <> 0 -> limits_loop fuel size c = Unfinished.
Proof.
  intros Ht Ho Hn. induction fuel as [|fuel IH]; [done|]. cbn [limits_loop]. rewrite Ho. unfold planCacheEvictLRU. rewrite Ht. cbn [outcome_bind].
  by rewrite (proj2 (Z.eqb_neq _ _) Hn).
Qed.

Lemma cache_insert_hangs :
  run 200 [Insert 1 qA (scan_plan "a"); Insert 2 qB (scan_plan "b"); Insert 3 qC (scan_plan "a label that is long enough to need the memory of two")] (cache_of 9 450) = Unfinished.
Proof. by vm_compute. Qed.

(** Replacing a plan by a larger one does not change the memory in use. *)
Lemma cache_replace_memory :
  match run 200 [Insert 1 qA (scan_plan "a"); Insert 2 qA (scan_plan "a longer label")] (cache_of 9 10485760) with
  | Value (_, c) => currentMemory c = 202
  | _ => False
  end.
Proof. by vm_compute. Qed.
