(* ===== verification/StringDict.v ===== *)
(** * The string dictionary and compressed properties (graph-compress.c)

    A hash table gives each string an id; a chain is the list of its entries,
    the newest first.  Nothing is ever removed.  Shown: ids and strings
    correspond one to one, and an id stays valid.  Compression replaces long
    strings by ids and drops what is not a string, so that it cannot be undone. *)

From Stdlib Require Import String ZArith Lia.
From stdpp Require Import base option list numbers.
From S2P Require Import Prelude Float32 Codec Shadow DefParser Values Scalar CypherRows CypherEval PlanCache.

Local Open Scope Z_scope.
Local Open Scope query_scope.

Record DictEntry := MkDictEntry { de_zValue : bytes; de_dictId : Z; de_refCount : Z }.

(** [savedBytes] is never changed. *)
Record StringDictionary := MkDict {
  sd_buckets : list (list DictEntry);
  sd_nEntries : Z;
  sd_nextId : Z;
  sd_totalSize : Z
}.

(** The hash of the plan cache. *)
Definition dictHash (zStr : bytes) : Z := planCacheHash zStr.

Definition dict_bucket (d : StringDictionary) (zStr : bytes) : nat := Z.to_nat (dictHash zStr mod Z.of_nat (length (sd_buckets d))).

(** A call when there is a dictionary is refused. *)
Definition graphInitStringDictionary (initialBuckets : Z) : res StringDictionary :=
  let n := if initialBuckets <=? 0 then 1024 else initialBuckets in
  match sqlite3_malloc (to_size (n * 8)) with
  | None => Err SQLITE_NOMEM
  | Some size => if size <? n * 8 then Undef else Ok (MkDict (replicate (Z.to_nat n) []) 0 1 0)
  end.

(** The entry of a string in a chain: its id, with one reference more. *)
Fixpoint use_entry (zStr : bytes) (chain : list DictEntry) : option (Z * list DictEntry) :=
  match chain with
  | [] => None
  | e :: chain =>
      if bool_decide (de_zValue e = zStr) then Some (de_dictId e, MkDictEntry (de_zValue e) (de_dictId e) (de_refCount e + 1) :: chain)
      else match use_entry zStr chain with Some (id, chain) => Some (id, e :: chain) | None => None end
  end.

Section Dictionary.
(** [sizeof(DictEntry)] *)
Context (sizeof_entry : Z).

Definition dictAddString (zStr : bytes) (d : StringDictionary) : Z * StringDictionary :=
  let b := dict_bucket d zStr in
  let chain := aget [] (sd_buckets d) b in
  match use_entry zStr chain with
  | Some (id, chain) => (id, MkDict (<[b := chain]> (sd_buckets d)) (sd_nEntries d) (sd_nextId d) (sd_totalSize d))
  | None =>
      (sd_nextId d,
       MkDict (<[b := MkDictEntry zStr (sd_nextId d) 1 :: chain]> (sd_buckets d)) (sd_nEntries d + 1) (sd_nextId d + 1)
         (to_size (sd_totalSize d + sizeof_entry + Z.of_nat (length zStr) + 1)))
  end.

(** A search through all buckets. *)
Definition dictGetString (dictId : Z) (d : StringDictionary) : option bytes :=
  if dictId <=? 0 then None else de_zValue <$> List.find (fun e => de_dictId e =? dictId) (concat (sd_buckets d)).

(** ** Compression *)

Definition compressed_prefix : bytes := [123; 34] ++ bstr "_compressed" ++ [34; 58] ++ bstr "true,".

(** Up to the next quote: [None] if there is none. *)
Fixpoint until_quote (s : bytes) : option (bytes * bytes) :=
  match s with
  | [] => None
  | c :: s => if c =? 34 then Some ([], s) else match until_quote s with Some (t, r) => Some (c :: t, r) | None => None end
  end.

(** The text so far, in a buffer of [bufSize] bytes.  After a quote without a
    second one the scan goes on behind the end of the text. *)
Fixpoint compress_loop (fuel : nat) (bufSize : nat) (p : bytes) (compressed : bytes) (d : StringDictionary)
    : option (res (option bytes * StringDictionary)) :=
  match fuel with
  | O => None
  | S fuel =>
      match p with
      | [] => Some (Ok (if (bufSize <=? length compressed + 2)%nat then None else Some (compressed ++ [125]), d))
      | c :: p =>
          if negb (c =? 34) then compress_loop fuel bufSize p compressed d
          else
            match until_quote p with
            | None => Some Undef
            | Some (value, p) =>
                if (10 <? length value)%nat then
                  let '(dictId, d) := dictAddString value d in
                  let dictRef := [34] ++ bstr "_dict" ++ [34; 58] ++ fmt_d dictId in
                  if 0 <? dictId then
                    if (bufSize <=? length compressed + length dictRef)%nat then Some (Ok (None, d))
                    else compress_loop fuel bufSize p (compressed ++ dictRef) d
                  else compress_loop fuel bufSize p compressed d
                else if (bufSize <=? length compressed + length value + 3)%nat then Some (Ok (None, d))
                else compress_loop fuel bufSize p (compressed ++ [34] ++ value ++ [34]) d
            end
      end
  end.

Definition graphCompressProperties (zProperties : bytes) (d : StringDictionary) : option (res (option bytes * StringDictionary)) :=
  compress_loop (S (length zProperties)) (length zProperties * 2 + 256) zProperties compressed_prefix d.

(** [strstr]: the text from the first place where [b] begins. *)
Fixpoint find_text (a b : bytes) : option bytes :=
  if starts_with a b then Some a else match a with [] => None | _ :: a => find_text a b end.

(** A number of 64 bits. *)
Fixpoint dict_id (acc : Z) (s : bytes) : res (Z * bytes) :=
  match s with
  | c :: s' =>
      if (48 <=? c) && (c <=? 57) then
        let acc := acc * 10 + (c - 48) in if acc <? 2 ^ 63 then dict_id acc s' else Undef
      else Ok (acc, s)
  | [] => Ok (acc, [])
  end.

Fixpoint decompress_loop (fuel : nat) (bufSize : nat) (p : option bytes) (decompressed : bytes) (d : StringDictionary) : option (res (option bytes)) :=
  match fuel with
  | O => None
  | S fuel =>
      match p with
      | None => Some (Ok (if (bufSize <=? length decompressed + 2)%nat then None else Some (decompressed ++ [125])))
      | Some p =>
          if (length p <? 7)%nat then Some Undef
          else
            match dict_id 0 (drop 7 p) with
            | Ok (dictId, p) =>
                match dictGetString dictId d with
                | Some value =>
                    if (bufSize <=? length decompressed + length value + 3)%nat then Some (Ok None)
                    else decompress_loop fuel bufSize (find_text p (bstr "_dict")) (decompressed ++ [34] ++ value ++ [34]) d
                | None => decompress_loop fuel bufSize (find_text p (bstr "_dict")) decompressed d
                end
            | _ => Some Undef
            end
      end
  end.

Definition graphDecompressProperties (zCompressed : bytes) (d : StringDictionary) : option (res (option bytes)) :=
  if strstr zCompressed (bstr "_compressed") then
    decompress_loop (S (length zCompressed)) (length zCompressed * 4 + 256) (find_text zCompressed (bstr "_dict")) [123] d
  else Some (Ok (Some zCompressed)).
End Dictionary.

(** ** Ids and strings *)

Definition kv (e : DictEntry) : bytes * Z := (de_zValue e, de_dictId e).

(** The pairs of strings and ids, in the order of the search. *)
Definition pairs (d : StringDictionary) : list (bytes * Z) := kv <$> concat (sd_buckets d).

Record dict_ok (d : StringDictionary) : Prop := {
  dict_nonempty : (0 < length (sd_buckets d))%nat;
  dict_home : forall b chain e, sd_buckets d !! b = Some chain -> e ∈ chain -> dict_bucket d (de_zValue e) = b;
  dict_ids : forall s id, (s, id) ∈ pairs d -> 1 <= id < sd_nextId d;
  dict_strings : NoDup (fst <$> pairs d);
  dict_unique : NoDup (snd <$> pairs d);
  dict_count : sd_nEntries d = Z.of_nat (length (pairs d));
  dict_next : 1 <= sd_nextId d
}.

Lemma dict_bucket_lt (d : StringDictionary) (s : bytes) : (0 < length (sd_buckets d))%nat -> (dict_bucket d s < length (sd_buckets d))%nat.
Proof. intros H. unfold dict_bucket. pose proof (Z.mod_pos_bound (dictHash s) (Z.of_nat (length (sd_buckets d)))). lia. Qed.

Lemma use_entry_spec (s : bytes) (chain : list DictEntry) :
  match use_entry s chain with
  | Some (id, chain') => (s, id) ∈ kv <$> chain /\ kv <$> chain' = kv <$> chain
  | None => forall e, e ∈ chain -> de_zValue e <> s
  end.
Proof.
  induction chain as [|e chain IH]; [intros e He; by apply elem_of_nil in He|]. cbn [use_entry]. destruct (bool_decide_reflect (de_zValue e = s)) as [E|N].
  - split; [cbn; rewrite <- E; constructor|done].
  - destruct (use_entry s chain) as [[id chain']|].
    + destruct IH as [H1 H2]. split; [cbn; by constructor|]. cbn. by rewrite H2.
    + intros x [->|Hx]%elem_of_cons; [done|by apply IH].
Qed.

Lemma concat_insert {A : Type} (l : list (list A)) (b : nat) (x : list A) :
  (b < length l)%nat -> concat (<[b := x]> l) = concat (take b l) ++ x ++ concat (drop (S b) l).
Proof. intros Hb. rewrite insert_take_drop, concat_app by done. done. Qed.

Lemma concat_middle {A : Type} (l : list (list A)) (b : nat) (x : list A) :
  l !! b = Some x -> concat l = concat (take b l) ++ x ++ concat (drop (S b) l).
Proof. intros Hb. rewrite <- (take_drop_middle l b x Hb) at 1. by rewrite concat_app. Qed.

Section DictionaryProofs.
Context (sizeof_entry : Z).

(** Adding a string that is there changes no pair. *)
Lemma add_known (s : bytes) (d : StringDictionary) (chain chain' : list DictEntry) (id : Z) :
  dict_ok d -> sd_buckets d !! dict_bucket d s = Some chain -> use_entry s chain = Some (id, chain') ->
  let d' := (dictAddString sizeof_entry s d).2 in
  dict_ok d' /\ pairs d' = pairs d /\ (dictAddString sizeof_entry s d).1 = id /\ (s, id) ∈ pairs d.
Proof.
  intros D Hc Hu. unfold dictAddString. rewrite (aget_lookup _ _ _ _ Hc), Hu. cbn [fst snd]. pose proof (use_entry_spec s chain) as Hs. rewrite Hu in Hs. destruct Hs as [H1 H2].
  set (b := dict_bucket d s) in *. assert (Hb : (b < length (sd_buckets d))%nat) by (by eapply lookup_lt_Some).
  match goal with |- dict_ok ?x /\ _ => set (d' := x) end. assert (Ep : pairs d' = pairs d).
  { unfold pairs, d'. cbn. rewrite (concat_insert _ _ _ Hb), (concat_middle _ _ _ Hc), !fmap_app. by rewrite H2. }
  split; [|split; [done|split; [done|]]].
  - destruct D as [D1 D2 D3 D4 D5 D6 D7]. constructor; rewrite ?Ep; cbn; rewrite ?length_insert; try done. intros b' ch e Hl He.
    unfold dict_bucket. cbn. rewrite length_insert. fold (dict_bucket d (de_zValue e)). destruct (decide (b' = b)) as [->|Hne].
    + rewrite list_lookup_insert_eq in Hl by done. injection Hl as <-. assert (Hk : kv e ∈ kv <$> chain) by (rewrite <- H2; apply list_elem_of_fmap; by exists e).
      apply list_elem_of_fmap in Hk as (e0 & E0 & He0). injection E0 as E0 _. rewrite E0. by apply (D2 b chain).
    + rewrite list_lookup_insert_ne in Hl by done. by apply (D2 b' ch).
  - unfold pairs. rewrite (concat_middle _ _ _ Hc), !fmap_app. apply elem_of_app. right. apply elem_of_app. by left.
Qed.

(** A new string gets the next id. *)
Lemma add_new (s : bytes) (d : StringDictionary) (chain : list DictEntry) :
  dict_ok d -> sd_buckets d !! dict_bucket d s = Some chain -> use_entry s chain = None ->
  let d' := (dictAddString sizeof_entry s d).2 in
  dict_ok d' /\ pairs d' ≡ₚ (s, sd_nextId d) :: pairs d /\ (dictAddString sizeof_entry s d).1 = sd_nextId d /\ s ∉ fst <$> pairs d.
Proof.
  intros D Hc Hu. unfold dictAddString. rewrite (aget_lookup _ _ _ _ Hc), Hu. cbn [fst snd]. pose proof (use_entry_spec s chain) as Hs. rewrite Hu in Hs.
  set (b := dict_bucket d s) in *. assert (Hb : (b < length (sd_buckets d))%nat) by (by eapply lookup_lt_Some).
  match goal with |- dict_ok ?x /\ _ => set (d' := x) end. assert (Ep : pairs d' ≡ₚ (s, sd_nextId d) :: pairs d).
  { unfold pairs, d'. cbn [sd_buckets]. rewrite (concat_insert _ _ _ Hb), (concat_middle _ _ _ Hc), !fmap_app. cbn [fmap list_fmap app]. symmetry. apply Permutation_middle. }
  destruct D as [D1 D2 D3 D4 D5 D6 D7].
  assert (Hout : s ∉ fst <$> pairs d).
  { intros (p & Es & Hp)%list_elem_of_fmap. unfold pairs in Hp. apply list_elem_of_fmap in Hp as (e & -> & He). apply list_elem_of_In, in_concat in He as (ch & Hch & He).
    apply list_elem_of_In in Hch, He. apply list_elem_of_lookup in Hch as [b' Hch]. cbn in Es. pose proof (D2 b' ch e Hch He) as Hb'. rewrite <- Es in Hb'. fold b in Hb'. subst b'.
    rewrite Hc in Hch. injection Hch as <-. by apply (Hs e). }
  split; [|split; [done|split; [done|done]]]. constructor.
  - cbn. by rewrite length_insert.
  - intros b' ch e Hl He. unfold dict_bucket. cbn in *. rewrite length_insert. fold (dict_bucket d (de_zValue e)). destruct (decide (b' = b)) as [->|Hne].
    + rewrite list_lookup_insert_eq in Hl by done. injection Hl as <-. apply elem_of_cons in He as [->|He]; [done|by apply (D2 b chain)].
    + rewrite list_lookup_insert_ne in Hl by done. by apply (D2 b' ch).
  - intros s0 id. rewrite Ep. cbn [sd_nextId]. intros [[= -> ->]|H]%elem_of_cons; [cbn; lia|]. pose proof (D3 s0 id H). cbn. lia.
  - rewrite Ep. cbn. by constructor.
  - rewrite Ep. cbn. constructor; [|done]. intros (p & Ei & Hp)%list_elem_of_fmap. destruct p as [s0 i]. cbn in Ei. subst i. pose proof (D3 s0 _ Hp). lia.
  - rewrite Ep. cbn. lia.
  - cbn. lia.
Qed.

(** Adding strings one after the other: their ids. *)
Fixpoint add_all (ss : list bytes) (d : StringDictionary) : list Z * StringDictionary :=
  match ss with
  | [] => ([], d)
  | s :: ss => let '(id, d) := dictAddString sizeof_entry s d in let '(ids, d) := add_all ss d in (id :: ids, d)
  end.

Lemma add_spec (s : bytes) (d : StringDictionary) :
  dict_ok d ->
  let '(id, d') := dictAddString sizeof_entry s d in
  dict_ok d' /\ (s, id) ∈ pairs d' /\ (forall x, x ∈ pairs d -> x ∈ pairs d') /\ (forall x, x ∈ pairs d' -> x.1 = s \/ x ∈ pairs d) /\
  length (pairs d') = if bool_decide (s ∈ fst <$> pairs d) then length (pairs d) else S (length (pairs d)).
Proof.
  intros D. pose proof (dict_bucket_lt d s (dict_nonempty d D)) as Hb. destruct (lookup_lt_is_Some_2 _ _ Hb) as [chain Hc].
  destruct (use_entry s chain) as [[id chain']|] eqn:Hu.
  - destruct (add_known s d chain chain' id D Hc Hu) as (D' & Ep & Ei & Hin). destruct (dictAddString sizeof_entry s d) as [i d']. cbn [fst snd] in *. subst i.
    rewrite Ep. split; [done|]. split; [done|]. split; [done|]. split; [by right|]. rewrite bool_decide_eq_true_2; [done|]. apply list_elem_of_fmap. by exists (s, id).
  - destruct (add_new s d chain D Hc Hu) as (D' & Ep & Ei & Hout). destruct (dictAddString sizeof_entry s d) as [i d']. cbn [fst snd] in *. subst i.
    split; [done|]. split; [rewrite Ep; constructor|]. split; [intros x Hx; rewrite Ep; by constructor|].
    split; [intros x; rewrite Ep; intros [->|Hx]%elem_of_cons; [by left|by right]|]. rewrite bool_decide_eq_false_2 by done. by rewrite Ep.
Qed.

Lemma add_all_spec (ss : list bytes) (d : StringDictionary) :
  dict_ok d ->
  let '(ids, d') := add_all ss d in
  dict_ok d' /\ Forall2 (fun s id => (s, id) ∈ pairs d') ss ids /\ (forall x, x ∈ pairs d -> x ∈ pairs d') /\ (forall x, x ∈ pairs d' -> x.1 ∈ ss \/ x ∈ pairs d).
Proof.
  revert d. induction ss as [|s ss IH]; intros d D; cbn [add_all]; [split; [done|]; split; [constructor|]; split; [done|by right]|].
  pose proof (add_spec s d D) as H. destruct (dictAddString sizeof_entry s d) as [id d1]. destruct H as (D1 & Hin & Hkeep & Honly & _).
  pose proof (IH d1 D1) as H. destruct (add_all ss d1) as [ids d2]. destruct H as (D2 & HF & Hkeep2 & Honly2).
  split; [done|]. split; [constructor; [by apply Hkeep2|done]|]. split; [intros x Hx; by apply Hkeep2, Hkeep|].
  intros x Hx. destruct (Honly2 x Hx) as [Hi|Hi]; [left; by constructor|]. destruct (Honly x Hi) as [->|Hd]; [left; constructor|by right].
Qed.

Lemma get_spec (d : StringDictionary) (s : bytes) (id : Z) : dict_ok d -> (s, id) ∈ pairs d -> dictGetString id d = Some s.
Proof.
  intros D Hin. pose proof (dict_ids d D s id Hin) as Hid. unfold dictGetString. rewrite (proj2 (Z.leb_gt id 0)) by lia.
  pose proof (dict_unique d D) as Hu. unfold pairs in *. revert Hin Hu. induction (concat (sd_buckets d)) as [|e l IH]; intros Hin Hu; [by apply elem_of_nil in Hin|].
  cbn [fmap list_fmap] in *. apply list.NoDup_cons in Hu as [Hnot Hu]. apply elem_of_cons in Hin as [E|Hin].
  - injection E as -> ->. cbn. by rewrite Z.eqb_refl.
  - cbn [List.find]. destruct (Z.eqb_spec (de_dictId e) id) as [E|Hne]; [|by apply IH]. exfalso. apply Hnot. apply list_elem_of_fmap. exists (s, id). split; [exact E|done].
Qed.

Lemma dict_init_ok (n : Z) (d : StringDictionary) : graphInitStringDictionary n = Ok d -> dict_ok d /\ pairs d = [].
Proof using Type.
  unfold graphInitStringDictionary. set (m := if n <=? 0 then 1024 else n). assert (0 < m) by (subst m; destruct (n <=? 0) eqn:E; lia).
  destruct (sqlite3_malloc _); [|done]. destruct (z <? m * 8); [done|]. intros [= <-].
  assert (Ec : forall k, concat (replicate k (@nil DictEntry)) = []) by (induction k; done).
  assert (Ep : pairs (MkDict (replicate (Z.to_nat m) []) 0 1 0) = []) by (unfold pairs; cbn; by rewrite Ec). split; [|done].
  constructor; rewrite ?Ep; cbn; try done.
  - rewrite length_replicate. lia.
  - intros b ch e Hl He. apply lookup_replicate_1 in Hl as [-> _]. by apply elem_of_nil in He.
  - intros s id H0. by apply elem_of_nil in H0.
  - constructor.
  - constructor.
Qed.
End DictionaryProofs.

(** The dictionary after any sequence of additions: each id that was returned
    gives its string, and two additions returned the same id exactly if they
    added the same string. *)
Lemma dict_correct (sizeof_entry n : Z) (d : StringDictionary) (ss : list bytes) :
  graphInitStringDictionary n = Ok d ->
  let '(ids, d') := add_all sizeof_entry ss d in
  Forall2 (fun s id => dictGetString id d' = Some s) ss ids /\
  forall i j s t a b, ss !! i = Some s -> ss !! j = Some t -> ids !! i = Some a -> ids !! j = Some b -> (a = b <-> s = t).
Proof.
  intros Hi. destruct (dict_init_ok n d Hi) as [D Ep]. pose proof (add_all_spec sizeof_entry ss d D) as H. destruct (add_all sizeof_entry ss d) as [ids d'].
  destruct H as (D' & HF & _ & _). split; [eapply Forall2_impl; [|exact HF]; intros s id Hp; by apply get_spec|].
  intros i j s t a b Hs Ht Ha Hb. pose proof (Forall2_lookup_lr _ _ _ _ _ _ HF Hs Ha) as P1. pose proof (Forall2_lookup_lr _ _ _ _ _ _ HF Ht Hb) as P2. split.
  - intros <-. pose proof (get_spec d' s a D' P1) as G1. pose proof (get_spec d' t a D' P2) as G2. congruence.
  - intros <-. assert (E : (s, a) = (s, b)); [|congruence]. pose proof (dict_strings d' D') as Hn. revert P1 P2 Hn. generalize (pairs d'). clear.
    induction l as [|x l IH]; intros P1 P2 Hn; [by apply elem_of_nil in P1|]. cbn in Hn. apply list.NoDup_cons in Hn as [Hx Hn].
    apply elem_of_cons in P1 as [<-|P1], P2 as [<-|P2]; [done| | |by apply IH]; exfalso; apply Hx; cbn; apply list_elem_of_fmap; [by exists (s, b)|by exists (s, a)].
Qed.

(** ** Compression ends *)

Lemma until_quote_le (s t r : bytes) : until_quote s = Some (t, r) -> (length r < length s)%nat.
Proof.
  revert t. induction s as [|c s IH]; intros t E; [done|]. cbn [until_quote length] in *. destruct (c =? 34); [injection E as <- <-; lia|].
  destruct (until_quote s) as [[t' r']|]; [|done]. injection E as <- <-. pose proof (IH t' eq_refl). lia.
Qed.

Lemma compress_loop_ends (sizeof_entry : Z) (fuel bufSize : nat) (p out : bytes) (d : StringDictionary) :
  (length p < fuel)%nat -> is_Some (compress_loop sizeof_entry fuel bufSize p out d).
Proof.
  revert p out d. induction fuel as [|fuel IH]; intros p out d Hf; [lia|]. cbn [compress_loop]. destruct p as [|c p]; [done|]. cbn [length] in Hf.
  destruct (negb (c =? 34)); [apply IH; lia|]. destruct (until_quote p) as [[value r]|] eqn:Eq; [|done]. apply until_quote_le in Eq.
  destruct (10 <? length value)%nat.
  - destruct (dictAddString sizeof_entry value d) as [id d']. destruct (0 <? id); [|apply IH; lia]. destruct (_ <=? _)%nat; [done|apply IH; lia].
  - destruct (_ <=? _)%nat; [done|apply IH; lia].
Qed.

Lemma compress_total (sizeof_entry : Z) (z : bytes) (d : StringDictionary) : is_Some (graphCompressProperties sizeof_entry z d).
Proof. apply compress_loop_ends. lia. Qed.

Lemma find_text_le (a b r : bytes) : find_text a b = Some r -> (length r <= length a)%nat.
Proof.
  revert r. induction a as [|c a IH]; intros r; cbn [find_text]; destruct (starts_with _ b); try done; [intros [= <-]; done|intros [= <-]; done|].
  intros E. apply IH in E. cbn. lia.
Qed.

Lemma dict_id_le (s r : bytes) (acc id : Z) : dict_id acc s = Ok (id, r) -> (length r <= length s)%nat.
Proof.
  revert acc. induction s as [|c s IH]; intros acc; cbn [dict_id]; [by intros [= _ <-]|]. destruct (_ && _); [|by intros [= _ <-]].
  destruct (_ <? 2 ^ 63); [|done]. intros E. apply IH in E. cbn. lia.
Qed.

Lemma decompress_loop_ends (fuel bufSize : nat) (p : option bytes) (out : bytes) (d : StringDictionary) :
  (from_option length 0 p < fuel)%nat -> is_Some (decompress_loop fuel bufSize p out d).
Proof.
  revert p out. induction fuel as [|fuel IH]; intros p out Hf; [lia|]. cbn [decompress_loop]. destruct p as [p|]; [|done]. cbn [from_option] in Hf.
  destruct (Nat.ltb_spec (length p) 7) as [|H7]; [done|]. destruct (dict_id 0 (drop 7 p)) as [[id r]| |] eqn:Ed; [|done|done]. apply dict_id_le in Ed.
  rewrite length_drop in Ed. assert (Hn : (from_option length 0 (find_text r (bstr "_dict")) < fuel)%nat).
  { destruct (find_text r (bstr "_dict")) as [x|] eqn:Ef; [|cbn; lia]. apply find_text_le in Ef. cbn. lia. }
  destruct (dictGetString id d); [|by apply IH]. destruct (_ <=? _)%nat; [done|by apply IH].
Qed.

Lemma decompress_total (z : bytes) (d : StringDictionary) : is_Some (graphDecompressProperties z d).
Proof.
  unfold graphDecompressProperties. destruct (strstr z _); [|done]. apply decompress_loop_ends.
  destruct (find_text z _) as [x|] eqn:Ef; [|cbn; lia]. apply find_text_le in Ef. cbn. lia.
Qed.

(** ** What is lost *)

Definition demo_dict : StringDictionary := MkDict (replicate 4 []) 0 1 0.

(** Compressing and decompressing. *)
Definition through (z : bytes) : option (res (option bytes)) :=
  match graphCompressProperties 40 z demo_dict with
  | Some (Ok (Some t, d)) => graphDecompressProperties t d
  | Some (Ok (None, _)) => Some (Ok None)
  | Some (Err rc) => Some (Err rc)
  | Some Undef => Some Undef
  | None => None
  end.

(** An object with a member. *)
Definition member (k v : bytes) : bytes := [123; 34] ++ k ++ [34; 58] ++ v ++ [125].

(** Keys, short strings, numbers and punctuation do not come back. *)
Lemma compress_loses :
  through (member (bstr "name") ([34] ++ bstr "a long string value" ++ [34])) = Some (Ok (Some ([123; 34] ++ bstr "a long string value" ++ [34; 125]))) /\
  through (member (bstr "age") (bstr "30")) = Some (Ok (Some [123; 125])).
Proof. split; by vm_compute. Qed.

(** A string of 400 bytes is replaced by a reference and cannot be put back:
    the buffer is measured by the compressed text. *)
Lemma decompress_no_room : through (member (bstr "text") ([34] ++ replicate 400 97 ++ [34])) = Some (Ok None).
Proof. by vm_compute. Qed.

(** With a quote that is not closed the text is read past its end. *)
Lemma compress_open_quote (sizeof_entry : Z) (d : StringDictionary) : graphCompressProperties sizeof_entry [34; 97] d = Some Undef.
Proof. done. Qed.
