(* ===== verification/CsvLoad.v ===== *)
(** * Bulk loading of CSV files (graph-bulk.c)

    A parser is its buffer, which ends with a NUL, and a position.  Shown: rows
    of fields, with or without quotes, are read back as they were written when
    each ends with a newline; the name of the last column is never stored, so
    that the loader reads a pointer that was not set, for every file. *)

From Stdlib Require Import String ZArith Lia.
From stdpp Require Import base option list numbers.
From S2P Require Import Prelude Float32 Codec Shadow DefParser Values CypherRows.

Local Open Scope Z_scope.
Local Open Scope query_scope.

(** A header is [None] as long as it is not set. *)
Record CSVParser := MkCsv { csv_buffer : bytes; csv_position : nat; csv_headers : list (option bytes) }.

Definition csv_delimiter : Z := 44.
Definition csv_quote : Z := 34.

Definition csvParserCreate (data : bytes) : CSVParser := MkCsv data 0 [].

(** ** The header *)

(** The number of delimiters outside of quotes in the first line. *)
Fixpoint count_delimiters (inQuote : bool) (s : bytes) : nat :=
  match s with
  | [] => 0
  | c :: s =>
      if (c =? 0) || (c =? 10) then 0%nat
      else if c =? csv_quote then count_delimiters (negb inQuote) s
      else if (c =? csv_delimiter) && negb inQuote then S (count_delimiters inQuote s)
      else count_delimiters inQuote s
  end.

(** The names: [start] holds the characters since the last delimiter, and
    [col] columns are still to be named.  Also the place where the line ends. *)
Fixpoint header_names (inQuote : bool) (start : bytes) (col : nat) (s : bytes) : list bytes * bytes :=
  match s with
  | [] => ([], [])
  | c :: s' =>
      if (c =? 0) || (c =? 10) || (col =? 0)%nat then ([], s)
      else if c =? csv_quote then header_names (negb inQuote) (start ++ [c]) col s'
      else if (c =? csv_delimiter) && negb inQuote then
        let '(names, r) := header_names inQuote [] (pred col) s' in (start :: names, r)
      else header_names inQuote (start ++ [c]) col s'
  end.

Definition csvParseHeader (p : CSVParser) : CSVParser :=
  let nCols := S (count_delimiters false (csv_buffer p)) in
  let '(names, r) := header_names false [] nCols (csv_buffer p) in
  MkCsv (csv_buffer p) (S (length (csv_buffer p) - length r)) ((Some <$> names) ++ replicate (nCols - length names) None).

Definition nColumns (p : CSVParser) : nat := length (csv_headers p).

(** ** Rows *)

(** Quotes around a field are removed. *)
Definition unquote (f : bytes) : bytes :=
  if (2 <=? length f)%nat && (hd 0 f =? csv_quote) && (List.last f 0 =? csv_quote) then take (length f - 2) (tl f) else f.

(** The fields up to the end of the line, and where the scan ends. *)
Fixpoint row_fields (inQuote : bool) (start : bytes) (col : nat) (s : bytes) : list bytes * bytes :=
  match s with
  | [] => ([], [])
  | c :: s' =>
      if (c =? 0) || (col =? 0)%nat then ([], s)
      else if c =? csv_quote then row_fields (negb inQuote) (start ++ [c]) col s'
      else if ((c =? csv_delimiter) || (c =? 10)) && negb inQuote then
        if c =? 10 then ([unquote start], s)
        else let '(fields, r) := row_fields inQuote [] (pred col) s' in (unquote start :: fields, r)
      else row_fields inQuote (start ++ [c]) col s'
  end.

(** [None] at the end of the buffer; missing columns are [NULL]. *)
Definition csvParseRow (p : CSVParser) : option (list (option bytes) * CSVParser) :=
  if (length (csv_buffer p) <=? csv_position p)%nat then None
  else
    let s := drop (csv_position p) (csv_buffer p) in
    let '(fields, r) := row_fields false [] (nColumns p) s in
    Some ((Some <$> fields) ++ replicate (nColumns p - length fields) None,
          MkCsv (csv_buffer p) (S (csv_position p + (length s - length r))) (csv_headers p)).

(** The rows until the end. *)
Fixpoint csv_rows (fuel : nat) (p : CSVParser) : option (list (list (option bytes))) :=
  match fuel with
  | O => None
  | S fuel =>
      match csvParseRow p with
      | None => Some []
      | Some (row, p) => match csv_rows fuel p with Some rows => Some (row :: rows) | None => None end
      end
  end.

(** ** Loading *)

(** The columns [id], [label] and [properties], the last of each name; a name
    that is not set is an invalid pointer. *)
Fixpoint find_columns (i : Z) (headers : list (option bytes)) (cols : Z * Z * Z) : res (Z * Z * Z) :=
  match headers with
  | [] => Ok cols
  | None :: _ => Undef
  | Some h :: headers =>
      let '(idCol, labelCol, propsCol) := cols in
      find_columns (i + 1) headers
        (if bool_decide (h = bstr "id") then (i, labelCol, propsCol)
         else if bool_decide (h = bstr "label") then (idCol, i, propsCol)
         else if bool_decide (h = bstr "properties") then (idCol, labelCol, i)
         else cols)
  end.

Section Load.
(** What is done with the rows. *)
Context {A : Type} (load_rows : CSVParser -> Z * Z * Z -> res A).

Definition graphBulkLoadNodesCSV (csvData : bytes) : res A :=
  let parser := csvParseHeader (csvParserCreate csvData) in
  '(idCol, labelCol, propsCol) <-? find_columns 0 (csv_headers parser) (-1, -1, -1);
  if idCol <? 0 then Err SQLITE_ERROR else load_rows parser (idCol, labelCol, propsCol).

(** ** The last header *)

Lemma header_count (s start : bytes) (q : bool) (col : nat) :
  (count_delimiters q s < col)%nat -> length (header_names q start col s).1 = count_delimiters q s.
Proof using Type.
  revert q start col. induction s as [|c s IH]; intros q start col Hc; [done|]. cbn [header_names count_delimiters] in *.
  destruct (Nat.eqb_spec col 0) as [->|Hne]; [lia|]. rewrite orb_false_r. destruct ((c =? 0) || (c =? 10)); [done|].
  destruct (c =? csv_quote); [by apply IH|]. destruct ((c =? csv_delimiter) && negb q); [|by apply IH].
  specialize (IH q [] (pred col)). destruct (header_names q [] (pred col) s) as [names r]. cbn [fst length] in *. rewrite IH; lia.
Qed.

Lemma find_columns_unset (l : list bytes) (i : Z) (cols : Z * Z * Z) : find_columns i ((Some <$> l) ++ [None]) cols = Undef.
Proof using Type.
  revert i cols. induction l as [|h l IH]; intros i cols; [done|]. cbn [fmap list_fmap app find_columns]. destruct cols as [[a b] c]. apply IH.
Qed.

(** All names but the last are stored. *)
Lemma headers_last_unset (data : bytes) : exists names, csv_headers (csvParseHeader (csvParserCreate data)) = (Some <$> names) ++ [None].
Proof using Type.
  unfold csvParseHeader. cbn [csvParserCreate csv_buffer]. pose proof (header_count data [] false (S (count_delimiters false data)) ltac:(lia)) as H.
  destruct (header_names _ _ _ data) as [names r]. cbn [fst] in H. exists names. cbn [csv_headers]. rewrite H.
  replace (S (count_delimiters false data) - count_delimiters false data)%nat with 1%nat by lia. done.
Qed.

(** Every call is undefined. *)
Lemma csv_load_undefined (csvData : bytes) : graphBulkLoadNodesCSV csvData = Undef.
Proof. unfold graphBulkLoadNodesCSV. destruct (headers_last_unset csvData) as [names ->]. by rewrite find_columns_unset. Qed.
End Load.

(** ** Rows are read back *)

(** A field with or without quotes. *)
Definition field_text (f : bool * bytes) : bytes := if f.1 then [34] ++ f.2 ++ [34] else f.2.

Definition field_ok (f : bool * bytes) : bool :=
  forallb (fun c => negb (c =? 0) && negb (c =? 34) && (f.1 || negb (c =? 44) && negb (c =? 10))) f.2.

Definition csv_line (row : list (bool * bytes)) : bytes := comma_separated (field_text <$> row) ++ [10].

Lemma row_chars (q : bool) (f start s : bytes) (col : nat) :
  forallb (fun c => negb (c =? 0) && negb (c =? 34) && (q || negb (c =? 44) && negb (c =? 10))) f = true ->
  row_fields q start (S col) (f ++ s) = row_fields q (start ++ f) (S col) s.
Proof.
  revert start. induction f as [|c f IH]; intros start H; [by rewrite app_nil_r|]. cbn [forallb] in H. apply andb_true_iff in H as [Hc H].
  cbn [app row_fields]. unfold csv_quote, csv_delimiter. cbn [Nat.eqb]. rewrite orb_false_r.
  assert ((c =? 0) = false) as -> by (destruct (c =? 0); done). assert ((c =? 34) = false) as -> by (destruct (c =? 34), (c =? 0); done).
  assert (((c =? 44) || (c =? 10)) && negb q = false) as -> by (destruct q; [by rewrite andb_false_r|]; destruct (c =? 44), (c =? 10), (c =? 34), (c =? 0); done).
  rewrite (IH _ H), <- app_assoc. done.
Qed.

Lemma row_field (f : bool * bytes) (s : bytes) (col : nat) :
  field_ok f = true -> row_fields false [] (S col) (field_text f ++ s) = row_fields false (field_text f) (S col) s.
Proof.
  destruct f as [[] f]; unfold field_ok, field_text; cbn [fst snd]; intros H; [|by apply (row_chars false)].
  rewrite <- !app_assoc. cbn [app row_fields]. change (34 =? csv_quote) with true. cbn [Z.eqb orb Nat.eqb negb]. rewrite (row_chars true) by done.
  cbn [app row_fields]. change (34 =? csv_quote) with true. done.
Qed.

Lemma unquote_text (f : bool * bytes) : field_ok f = true -> unquote (field_text f) = f.2.
Proof.
  destruct f as [[] f]; unfold field_ok, field_text, unquote; cbn [fst snd]; intros H.
  - rewrite !length_app. cbn [length app hd tl]. rewrite app_comm_cons, List.last_last. change (34 =? csv_quote) with true.
    assert ((2 <=? 1 + (length f + 1))%nat = true) as -> by (apply Nat.leb_le; lia). cbn [andb]. replace (1 + (length f + 1) - 2)%nat with (length f) by lia.
    apply take_app_length.
  - destruct f as [|c f]; [done|]. cbn [forallb hd] in *. apply andb_true_iff in H as [H _]. assert ((c =? csv_quote) = false) as -> by (unfold csv_quote; destruct (c =? 34), (c =? 0); done).
    by rewrite andb_false_r.
Qed.

Lemma row_read (row : list (bool * bytes)) (s : bytes) :
  row <> [] -> forallb field_ok row = true -> row_fields false [] (length row) (csv_line row ++ s) = (snd <$> row, 10 :: s).
Proof.
  induction row as [|f row IH]; intros Hne H; [done|]. cbn [forallb] in H. apply andb_true_iff in H as [Hf H]. unfold csv_line. destruct row as [|g row].
  - cbn [fmap list_fmap comma_separated length]. rewrite <- app_assoc, row_field by done. cbn [app row_fields]. rewrite unquote_text by done. done.
  - change (comma_separated (field_text <$> f :: g :: row)) with (field_text f ++ 44 :: comma_separated (field_text <$> g :: row)).
    rewrite <- !app_assoc. cbn [length]. rewrite row_field by done. cbn [app row_fields]. change (44 =? csv_quote) with false. cbn [Z.eqb orb Nat.eqb negb andb pred].
    rewrite unquote_text by done.
    replace (comma_separated (field_text <$> g :: row) ++ 10 :: s) with (csv_line (g :: row) ++ s) by (unfold csv_line; by rewrite <- app_assoc).
    change (S (length row)) with (length (g :: row)). rewrite (IH ltac:(done) H). done.
Qed.

Lemma row_parsed (p : CSVParser) (row : list (bool * bytes)) (s : bytes) :
  nColumns p = length row -> row <> [] -> forallb field_ok row = true -> drop (csv_position p) (csv_buffer p) = csv_line row ++ s ->
  exists p', csvParseRow p = Some (Some <$> (snd <$> row), p') /\ csv_headers p' = csv_headers p /\ csv_buffer p' = csv_buffer p /\ drop (csv_position p') (csv_buffer p') = s.
Proof.
  intros Hn Hne H Hs. unfold csvParseRow. assert (Hl : length (drop (csv_position p) (csv_buffer p)) = length (csv_line row ++ s)) by (by rewrite Hs).
  rewrite length_drop, length_app in Hl. assert (Hpos : (0 < length (csv_line row))%nat) by (unfold csv_line; rewrite length_app; cbn; lia).
  rewrite (proj2 (Nat.leb_gt _ _)) by lia. rewrite Hs, Hn, row_read by done. rewrite length_fmap, Nat.sub_diag. cbn [replicate]. rewrite app_nil_r.
  eexists. split; [reflexivity|]. split; [done|]. split; [done|]. cbn [csv_position csv_buffer]. rewrite length_app. cbn [length].
  replace (S (csv_position p + (length (csv_line row) + length s - S (length s)))) with (csv_position p + length (csv_line row))%nat by lia.
  rewrite <- drop_drop, Hs. apply drop_app_length.
Qed.

(** Rows of as many fields as the header has names, each row ended by a
    newline, are read back; a field in quotes may hold delimiters and
    newlines. *)
Lemma csv_rows_roundtrip (p : CSVParser) (rows : list (list (bool * bytes))) (fuel : nat) :
  Forall (fun row => length row = nColumns p /\ row <> [] /\ forallb field_ok row = true) rows ->
  drop (csv_position p) (csv_buffer p) = concat (csv_line <$> rows) -> (length rows < fuel)%nat ->
  csv_rows fuel p = Some ((fun row : list (bool * bytes) => Some <$> (snd <$> row)) <$> rows).
Proof.
  intros H. revert p fuel H. induction rows as [|row rows IH]; intros p fuel H Hs Hf; (destruct fuel as [|fuel]; [cbn in Hf; lia|]); cbn [csv_rows].
  - unfold csvParseRow. apply (f_equal length) in Hs. rewrite length_drop in Hs. cbn in Hs. by rewrite (proj2 (Nat.leb_le _ _)) by lia.
  - apply Forall_cons_1 in H as [(Hn & Hne & Hok) H]. cbn [fmap list_fmap concat] in Hs. destruct (row_parsed p row (concat (csv_line <$> rows))) as (p' & -> & Eh & Eb & Hs'); [done|done|done|done|].
    rewrite (IH p' fuel); [done| |done|cbn in Hf; lia]. unfold nColumns. by rewrite Eh.
Qed.

(** ** What is lost *)

(** Without a newline at the end the last field is NULL. *)
Lemma csv_last_field_lost : csvParseRow (MkCsv (bstr "1,x") 0 [None; None]) = Some ([Some (bstr "1"); None], MkCsv (bstr "1,x") 4 [None; None]).
Proof. done. Qed.

(** A row with more fields than columns: the scan stops behind a delimiter and
    the next row starts in the middle of this one, one character late. *)
Lemma csv_long_row :
  csv_rows 9 (MkCsv (bstr "1,xy" ++ [10]) 0 [None]) = Some [[Some (bstr "1")]; [Some (bstr "y")]].
Proof. done. Qed.

(** Two quotes for one inside a field are kept. *)
Lemma csv_double_quote : csv_rows 9 (MkCsv [34; 97; 34; 34; 98; 34; 10] 0 [None]) = Some [[Some [97; 34; 34; 98]]].
Proof. done. Qed.
