(* ===== verification/CypherExec.v ===== *)
(** * The Cypher executor (cypher-iterators.c, cypher-executor.c,
    cypher-executor-sql.c)

    A physical plan becomes a tree of iterators, each with [xOpen] and [xNext],
    that pull rows from the one below; the executor collects the rows of the
    root as a JSON text.  A statement is the list of its rows when it is
    prepared: a query that writes does not read.  [LIKE] and the JSON functions
    of SQLite are a class.  Loops have fuel.  Releasing iterators and rows is not
    modelled, except where it is undefined. *)

From Stdlib Require Import String Ascii ZArith Lia Floats.SpecFloat.
From stdpp Require Import base option list numbers gmap.
From S2P Require Import Prelude Float32 Codec Shadow DefParser Values Scalar Graph CypherLexer CypherParser CypherExpr CypherPlan CypherRows.

Local Open Scope Z_scope.
Local Open Scope storage_scope.

(** ** What the statements use of SQLite *)

(** [x LIKE p]; whether the array or object that a JSON text denotes has an element
    equal to a text, [None] if the text is not JSON, also with the condition that it is
    a non-empty array; the text of a member ([None]: no such member, or not
    JSON), which ends at its first NUL, and whether it is equal to a text. *)
Class CypherSql := {
  sql_like : bytes -> bytes -> bool;
  json_has : bytes -> bytes -> option bool;
  json_array_has : bytes -> bytes -> option bool;
  json_text : bytes -> bytes -> option bytes;
  json_equal : bytes -> bytes -> bytes -> option bool;
  json_text_string : forall z x y, json_text z x = Some y -> Forall (fun c => 0 < c) y
}.

Section Exec.
Context `{CypherSql} `{ScanOrder} `{GraphSql}.

(** The pattern that looks for a quoted label. *)
Definition label_like (zLabel : bytes) (n : GraphNode) : bool :=
  match gn_labels n with
  | Some z => sql_like z ([37; 37; 34] ++ zLabel ++ [34; 37; 37])
  | None => false
  end.

(** The rows up to the first for which a condition cannot be evaluated; NULL
    does not satisfy it. *)
Fixpoint select_ids (test : bytes -> option bool) (field : GraphNode -> text) (l : list (Z * GraphNode)) : list Z :=
  match l with
  | [] => []
  | (id, n) :: l =>
      match field n with
      | None => select_ids test field l
      | Some z =>
          match test z with
          | None => []
          | Some true => id :: select_ids test field l
          | Some false => select_ids test field l
          end
      end
  end.

(** One row of the statement of an expansion: target, id and type of an edge. *)
Definition edge_rows (nodes : gmap Z GraphNode) (edges : gmap Z GraphEdge) (iSource : Z) (zEdgeType : bytes) (zTargetLabel : option bytes)
    : list (option (Z * Z * text)) :=
  let typed e := match zEdgeType with [] => true | _ => bool_decide (ge_edge_type e = Some zEdgeType) end in
  let rows := filter (fun p : Z * GraphEdge => ge_source p.2 = iSource /\ typed p.2 = true) (scan edges) in
  let out p := (ge_target p.2, p.1, ge_edge_type p.2) in
  match zTargetLabel with
  | Some (c :: z) =>
      flat_map (fun p : Z * GraphEdge =>
        match nodes !! ge_target p.2 with
        | None => []
        | Some n =>
            match gn_labels n with
            | None => []
            | Some l => match json_has l (c :: z) with Some true => [Some (out p)] | Some false => [] | None => [None] end
            end
        end) rows
  | _ => (fun p => Some (out p)) <$> rows
  end.

(** ** Iterators *)

Inductive CypherIterator :=
| AllNodesScan (p : PhysicalPlanNode)
| LabelIndexScan (p : PhysicalPlanNode)
| PropertyIndexScan (p : PhysicalPlanNode)
| FilterIterator (p : PhysicalPlanNode) (pSource : CypherIterator)
| ProjectionIterator (p : PhysicalPlanNode) (pSource : CypherIterator)
| SortIterator (p : PhysicalPlanNode) (pSource : CypherIterator)
| LimitIterator (p : PhysicalPlanNode) (pSource : CypherIterator)
| ExpandIterator (p : PhysicalPlanNode) (pSource : option CypherIterator)
| CreateIterator (p : PhysicalPlanNode).

(** [NULL]: no iterator for the node.  MERGE is executed as CREATE; SET and
    DELETE have none. *)
Fixpoint cypherIteratorCreate (p : PhysicalPlanNode) : option CypherIterator :=
  let source := match pp_children p with c :: _ => cypherIteratorCreate c | [] => None end in
  match pp_type p with
  | PHYSICAL_ALL_NODES_SCAN => Some (AllNodesScan p)
  | PHYSICAL_LABEL_INDEX_SCAN => Some (LabelIndexScan p)
  | PHYSICAL_PROPERTY_INDEX_SCAN => Some (PropertyIndexScan p)
  | PHYSICAL_FILTER =>
      match pp_pExecState p, pp_zProperty p, pp_zValue p with
      | Some _, _, _ | None, Some _, Some _ => FilterIterator p <$> source
      | _, _, _ => None
      end
  | PHYSICAL_PROJECTION => ProjectionIterator p <$> source
  | PHYSICAL_SORT => SortIterator p <$> source
  | PHYSICAL_LIMIT => if pp_nLimit p <=? 0 then None else LimitIterator p <$> source
  | PHYSICAL_CREATE | PHYSICAL_MERGE => Some (CreateIterator p)
  | PHYSICAL_EXPAND =>
      match pp_children p with
      | [] => Some (ExpandIterator p None)
      | _ => (fun i => ExpandIterator p (Some i)) <$> source
      end
  | _ => None
  end.

(** The iterators of the children are created once more and not used.  When one
    cannot be created, those before it are destroyed twice. *)
Fixpoint createIteratorTree (p : PhysicalPlanNode) : res CypherIterator :=
  match cypherIteratorCreate p with
  | None => Err SQLITE_ERROR
  | Some it =>
      (fix kids (first : bool) (l : list PhysicalPlanNode) : res CypherIterator :=
         match l with
         | [] => Ok it
         | c :: l =>
             match createIteratorTree c with
             | Ok _ => kids false l
             | Err rc => if first then Err rc else Undef
             | Undef => Undef
             end
         end) true (pp_children p)
  end.

(** The state of an iterator: the rows of its statement that are left, and the
    state of its source. *)
Inductive iter_state :=
| StScan (rows : list Z)
| StSource (src : iter_state)
| StLimit (nReturned : Z) (src : iter_state)
| StExpand (stmt : option (list (option (Z * Z * text)))) (pCurrentRow : CypherResult) (bSourceExhausted : bool) (src : option iter_state)
| StCreate (bExecuted : bool)
| StSorted.

Inductive next_result :=
| NextRow (r : CypherResult) (st : iter_state) (s : gdb)
| NextDone (st : iter_state) (s : gdb)
| NextError (rc : Z) (s : gdb)
| NextUndef
| NextFuel.

(** The first column of a name. *)
Fixpoint find_column (r : list (bytes * CypherValue)) (zName : bytes) : option CypherValue :=
  match r with
  | [] => None
  | (x, v) :: r => if decide (x = zName) then Some v else find_column r zName
  end.

(** *** Filters *)

(** [json_extract] of the properties of a node. *)
Definition cypherValueGetProperty (v : GraphVtab) (s : gdb) (iNodeId : Z) (zProperty : bytes) : option bytes :=
  t ← gd_nodes s !! gv_zNodeTableName v;
  n ← t !! iNodeId;
  z ← gn_properties n;
  json_text z zProperty.

Definition atoi_bytes (z : bytes) : Z := atoi ((fun c => ascii_of_N (Z.to_N c)) <$> z).

Definition comparison_passes (iFlags : Z) (zPropValue zValue : bytes) : bool :=
  let cmp := strcmp zPropValue zValue in
  if iFlags =? 1 then cmp =? 0
  else if iFlags =? 2 then atoi_bytes zValue <? atoi_bytes zPropValue
  else if iFlags =? 3 then atoi_bytes zPropValue <? atoi_bytes zValue
  else if iFlags =? 4 then atoi_bytes zValue <=? atoi_bytes zPropValue
  else if iFlags =? 5 then atoi_bytes zPropValue <=? atoi_bytes zValue
  else if iFlags =? 6 then negb (cmp =? 0)
  else false.

(** A filter without property lets nothing pass: no expression is ever compiled. *)
Definition filter_passes (v : GraphVtab) (s : gdb) (p : PhysicalPlanNode) (r : CypherResult) : bool :=
  match pp_zProperty p, pp_zValue p, pp_zAlias p with
  | Some zProperty, Some zValue, Some zVarName =>
      match find_column r zVarName with
      | Some (CYPHER_VALUE_NODE id) =>
          match cypherValueGetProperty v s id zProperty with
          | Some z => comparison_passes (pp_iFlags p) z zValue
          | None => false
          end
      | _ => false
      end
  | _, _, _ => false
  end.

(** *** Expansion *)

Definition rel_text (iRelId : Z) (zRelType : text) : bytes :=
  match zRelType with
  | Some (c :: z) => bstr "Relationship(id=" ++ fmt_d iRelId ++ bstr ",type=" ++ (c :: z) ++ bstr ")"
  | _ => bstr "Relationship(" ++ fmt_d iRelId ++ bstr ")"
  end.

Definition expand_row (p : PhysicalPlanNode) (cur : CypherResult) (e : Z * Z * text) : res CypherResult :=
  let '(target, id, type) := e in
  res_bind (cypherResultAddColumn cur (default (bstr "target") (pp_zAlias p)) (CYPHER_VALUE_NODE target)) (fun r =>
    cypherResultAddColumn r (default (bstr "r") (pp_zLabel p)) (CYPHER_VALUE_STRING (Some (rel_text id type)))).

(** The statement for a source row. *)
Definition expand_statement (v : GraphVtab) (s : gdb) (p : PhysicalPlanNode) (cur : CypherResult) : res (list (option (Z * Z * text))) :=
  let zSourceAlias := match pp_children p with c :: _ => default (bstr "node") (pp_zAlias c) | [] => bstr "node" end in
  match find_column cur zSourceAlias with
  | Some (CYPHER_VALUE_NODE id) =>
      let zTargetLabel := match pp_children p with _ :: c :: _ => pp_zLabel c | _ => None end in
      let joined := match zTargetLabel with Some (_ :: _) => true | _ => false end in
      match gd_edges s !! suffixed_edges v, gd_nodes s !! suffixed_nodes v with
      | Some edges, Some nodes => Ok (edge_rows nodes edges id (default [] (pp_zProperty p)) zTargetLabel)
      | Some edges, None => if joined then Err SQLITE_ERROR else Ok (edge_rows ∅ edges id (default [] (pp_zProperty p)) zTargetLabel)
      | None, _ => Err SQLITE_ERROR
      end
  | _ => Err SQLITE_ERROR
  end.

(** *** Creation *)

(** The properties as JSON: a value that starts with a digit or a sign, [true],
    [false] and [null] are written as they are. *)
Fixpoint pairs_json (first : bool) (pairs : list tree) : bytes :=
  match pairs with
  | [] => [125]
  | p :: pairs =>
      let zValue := match t_children p with c :: _ => cypherAstGetValue c | [] => None end in
      match cypherAstIsType p CYPHER_AST_PROPERTY_PAIR, cypherAstGetValue p, zValue with
      | true, Some zKey, Some zValue =>
          let isNumeric :=
            match zValue with c :: _ => ((48 <=? c) && (c <=? 57)) || (c =? 45) | [] => false end ||
            bool_decide (zValue ∈ [bstr "true"; bstr "false"; bstr "null"]) in
          (if first then [] else [44]) ++ [34] ++ zKey ++ [34; 58] ++ (if isNumeric then zValue else [34] ++ zValue ++ [34]) ++
          pairs_json false pairs
      | _, _, _ => pairs_json first pairs
      end
  end.

Definition convertMapToJson (pMap : tree) : bytes :=
  if cypherAstIsType pMap CYPHER_AST_MAP then [123] ++ pairs_json true (t_children pMap) else [123; 125].

(** Labels and properties of a pattern: the last of each. *)
Fixpoint node_fields (cs : list tree) (zLabels zProperties : bytes) : bytes * bytes :=
  match cs with
  | [] => (zLabels, zProperties)
  | c :: cs =>
      if cypherAstIsType c CYPHER_AST_LABELS then
        node_fields cs (match cypherAstGetValue c with Some z => [91; 34] ++ z ++ [34; 93] | None => zLabels end) zProperties
      else if cypherAstIsType c CYPHER_AST_MAP then node_fields cs zLabels (convertMapToJson c)
      else node_fields cs zLabels zProperties
  end.

Fixpoint rel_fields (cs : list tree) (zRelType zRelProps : bytes) : bytes * bytes :=
  match cs with
  | [] => (zRelType, zRelProps)
  | c :: cs =>
      if cypherAstIsType c CYPHER_AST_LABELS then rel_fields cs (default zRelType (cypherAstGetValue c)) zRelProps
      else if cypherAstIsType c CYPHER_AST_MAP then rel_fields cs zRelType (convertMapToJson c)
      else rel_fields cs zRelType zRelProps
  end.

Definition mundef {A : Type} : M gdb A := fun s => (Undef, s).

(** [INSERT INTO nodes] without an id. *)
Definition insert_new_node (name : bytes) (n : GraphNode) : M gdb Z :=
  t <-m node_table name;
  let id := auto_rowid t in
  _ <-m mput (set_nodes name (<[id := n]> t));
  mret id.

(** The array of the new ids has ten elements. *)
Fixpoint create_nodes (v : GraphVtab) (cs : list tree) (ids : list Z) : M gdb (list Z) :=
  match cs with
  | [] => mret ids
  | c :: cs =>
      if cypherAstIsType c CYPHER_AST_NODE_PATTERN then
        let '(zLabels, zProperties) := node_fields (t_children c) (bstr "[]") (bstr "{}") in
        id <-m insert_new_node (gv_zNodeTableName v) (MkGNode (Some zLabels) (Some zProperties));
        if (10 <=? length ids)%nat then mundef else create_nodes v cs (ids ++ [id])
      else create_nodes v cs ids
  end.

Fixpoint create_edges (v : GraphVtab) (cs : list tree) (ids : list Z) (nodeIndex : nat) : M gdb unit :=
  match cs with
  | [] => mret tt
  | c :: cs =>
      if cypherAstIsType c CYPHER_AST_REL_PATTERN then
        match ids !! nodeIndex, ids !! S nodeIndex with
        | Some iSource, Some iTarget =>
            let '(zRelType, zRelProps) := rel_fields (t_children c) [] (bstr "{}") in
            _ <-m insert_edge (gv_zEdgeTableName v) (MkGEdge iSource iTarget (Some zRelType) None (Some zRelProps));
            create_edges v cs ids (S nodeIndex)
        | _, _ => create_edges v cs ids nodeIndex
        end
      else create_edges v cs ids nodeIndex
  end.

Definition nonempty (z : option bytes) (d : bytes) : bytes := match z with Some (c :: z) => c :: z | _ => d end.

(** The row has the first node created. *)
Definition createIteratorNext (v : GraphVtab) (p : PhysicalPlanNode) (r : CypherResult) : M gdb CypherResult :=
  let column id := match cypherResultAddColumn r (default (bstr "node") (pp_zAlias p)) (CYPHER_VALUE_NODE id) with
                   | Ok r => mret r | Err rc => mfail rc | Undef => mundef end in
  match pp_pExecState p with
  | Some pPattern =>
      if cypherAstIsType pPattern CYPHER_AST_PATTERN then
        ids <-m create_nodes v (t_children pPattern) [];
        _ <-m create_edges v (t_children pPattern) ids 0;
        match ids with id :: _ => column id | [] => mret r end
      else
        id <-m insert_new_node (gv_zNodeTableName v) (MkGNode (Some (nonempty (pp_zLabel p) [])) (Some (nonempty (pp_zProperty p) (bstr "{}"))));
        column id
  | None =>
      id <-m insert_new_node (gv_zNodeTableName v) (MkGNode (Some (nonempty (pp_zLabel p) [])) (Some (nonempty (pp_zProperty p) (bstr "{}"))));
      column id
  end.

(** *** [xNext] *)

(** A scan adds a column to what [pResult] holds, which the scans of all nodes
    and by label clear first. *)
Definition scan_next (p : PhysicalPlanNode) (rows : list Z) (r : CypherResult) (s : gdb) : next_result :=
  match rows with
  | [] => NextDone (StScan []) s
  | id :: rows =>
      match cypherResultAddColumn r (default (bstr "node") (pp_zAlias p)) (CYPHER_VALUE_NODE id) with
      | Ok r => NextRow r (StScan rows) s
      | Err rc => NextError rc s
      | Undef => NextUndef
      end
  end.

Definition allNodesScanNext (p : PhysicalPlanNode) (rows : list Z) (s : gdb) : next_result := scan_next p rows [] s.
Definition labelIndexScanNext (p : PhysicalPlanNode) (rows : list Z) (s : gdb) : next_result := scan_next p rows [] s.
Definition propertyIndexScanNext (p : PhysicalPlanNode) (rows : list Z) (r : CypherResult) (s : gdb) : next_result := scan_next p rows r s.

(** The operators that have a source, over its [xNext]. *)
Section NextLoops.
Context (next : iter_state -> CypherResult -> gdb -> next_result) (v : GraphVtab) (p : PhysicalPlanNode).

Fixpoint filterIteratorNext (n : nat) (st : iter_state) (r : CypherResult) (s : gdb) : next_result :=
  match n with
  | O => NextFuel
  | S n =>
      match next st r s with
      | NextRow r st s => if filter_passes v s p r then NextRow r (StSource st) s else filterIteratorNext n st r s
      | NextDone st s => NextDone (StSource st) s
      | x => x
      end
  end.

(** There are no projections: rows are passed on. *)
Definition projectionIteratorNext (st : iter_state) (r : CypherResult) (s : gdb) : next_result :=
  match next st r s with
  | NextRow r st s => NextRow r (StSource st) s
  | NextDone st s => NextDone (StSource st) s
  | x => x
  end.

Definition limitIteratorNext (nReturned : Z) (st : iter_state) (r : CypherResult) (s : gdb) : next_result :=
  if pp_nLimit p <=? nReturned then NextDone (StLimit nReturned st) s
  else
    match next st r s with
    | NextRow r st s => NextRow r (StLimit (nReturned + 1) st) s
    | NextDone st s => NextDone (StLimit nReturned st) s
    | x => x
    end.

(** Without a source there is no row to expand. *)
Fixpoint expandNext (n : nat) (stmt : option (list (option (Z * Z * text)))) (cur : CypherResult) (exhausted : bool)
    (st : option iter_state) (s : gdb) : next_result :=
  match n with
  | O => NextFuel
  | S n =>
      match stmt with
      | Some (None :: _) => NextError SQLITE_ERROR s
      | Some (Some e :: rest) =>
          match expand_row p cur e with
          | Ok r => NextRow r (StExpand (Some rest) cur exhausted st) s
          | Err rc => NextError rc s
          | Undef => NextUndef
          end
      | _ =>
          if exhausted then NextDone (StExpand None cur exhausted st) s
          else
            match st with
            | Some st =>
                match next st [] s with
                | NextRow cur st s =>
                    match expand_statement v s p cur with
                    | Ok rows => expandNext n (Some rows) cur false (Some st) s
                    | Err rc => NextError rc s
                    | Undef => NextUndef
                    end
                | NextDone st s => NextDone (StExpand None [] true (Some st)) s
                | x => x
                end
            | None => NextDone (StExpand None [] true None) s
            end
      end
  end.

End NextLoops.

Definition create_next (v : GraphVtab) (p : PhysicalPlanNode) (bExecuted : bool) (r : CypherResult) (s : gdb) : next_result :=
  if bExecuted then NextDone (StCreate true) s
  else
    match createIteratorNext v p r s with
    | (Ok r, s) => NextRow r (StCreate true) s
    | (Err _, s) => NextError SQLITE_ERROR s
    | (Undef, _) => NextUndef
    end.

(** [pIterator->xNext]; [pGraph] is [NULL] when no graph table is open. *)
Fixpoint iter_next (fuel : nat) (pGraph : option GraphVtab) (it : CypherIterator) (st : iter_state) (r : CypherResult) (s : gdb) : next_result :=
  match it, st with
  | AllNodesScan p, StScan rows => allNodesScanNext p rows s
  | LabelIndexScan p, StScan rows => labelIndexScanNext p rows s
  | PropertyIndexScan p, StScan rows => propertyIndexScanNext p rows r s
  | FilterIterator p src, StSource st =>
      match pGraph with
      | Some v => filterIteratorNext (iter_next fuel pGraph src) v p fuel st r s
      | None => NextUndef
      end
  | ProjectionIterator p src, StSource st => projectionIteratorNext (iter_next fuel pGraph src) st r s
  | LimitIterator p src, StLimit n st => limitIteratorNext (iter_next fuel pGraph src) p n st r s
  | SortIterator _ _, StSorted => NextDone StSorted s
  | ExpandIterator p src, StExpand stmt cur exhausted st =>
      match pGraph, src with
      | None, _ => NextError SQLITE_ERROR s
      | Some v, Some src => expandNext (iter_next fuel pGraph src) v p fuel stmt cur exhausted st s
      | Some v, None => expandNext (fun _ _ _ => NextUndef) v p fuel stmt cur exhausted None s
      end
  | CreateIterator p, StCreate executed =>
      match pGraph with Some v => create_next v p executed r s | None => if executed then NextDone (StCreate true) s else NextUndef end
  | _, _ => NextUndef
  end.

(** *** [xOpen] *)

Definition open_table {A : Type} (t : option A) (f : A -> list Z) : res iter_state :=
  match t with Some t => Ok (StScan (f t)) | None => Err SQLITE_ERROR end.

Definition allNodesScanOpen (pGraph : option GraphVtab) (p : PhysicalPlanNode) (s : gdb) : res iter_state :=
  match pGraph with
  | None => Err SQLITE_ERROR
  | Some v =>
      open_table (gd_nodes s !! gv_zNodeTableName v) (fun t =>
        match pp_zLabel p with
        | Some l => select_ids (fun z => json_array_has z l) gn_labels (scan t)
        | None => (scan t).*1
        end)
  end.

Definition labelIndexScanOpen (pGraph : option GraphVtab) (p : PhysicalPlanNode) (s : gdb) : res iter_state :=
  match pGraph, pp_zLabel p with
  | Some v, Some l =>
      open_table (gd_nodes s !! suffixed_nodes v) (fun t => (filter (fun q : Z * GraphNode => label_like l q.2 = true) (scan t)).*1)
  | _, _ => Err SQLITE_ERROR
  end.

Definition propertyIndexScanOpen (pGraph : option GraphVtab) (p : PhysicalPlanNode) (s : gdb) : res iter_state :=
  match pGraph, pp_zProperty p with
  | Some v, Some x =>
      open_table (gd_nodes s !! suffixed_nodes v) (fun t =>
        select_ids (fun z => match pp_zValue p with Some y => json_equal z x y | None => Some false end) gn_properties (scan t))
  | _, _ => Err SQLITE_ERROR
  end.

(** A sort collects its rows when it is opened; a row it holds is later freed at
    an address inside an array. *)
Definition sortIteratorOpen (next : iter_state -> CypherResult -> gdb -> next_result) (st : iter_state) (s : gdb) : res iter_state :=
  match next st [] s with
  | NextDone _ _ => Ok StSorted
  | NextError rc _ => Err rc
  | _ => Undef
  end.

Definition createIteratorOpen (pGraph : option GraphVtab) (s : gdb) : res iter_state :=
  match pGraph with
  | None => Err SQLITE_ERROR
  | Some v => match gd_nodes s !! gv_zNodeTableName v with Some _ => Ok (StCreate false) | None => Err SQLITE_ERROR end
  end.

(** [pIterator->xOpen]: an operator opens its source. *)
Fixpoint iter_open (fuel : nat) (pGraph : option GraphVtab) (it : CypherIterator) (s : gdb) : res iter_state :=
  match it with
  | AllNodesScan p => allNodesScanOpen pGraph p s
  | LabelIndexScan p => labelIndexScanOpen pGraph p s
  | PropertyIndexScan p => propertyIndexScanOpen pGraph p s
  | FilterIterator _ src | ProjectionIterator _ src => res_bind (iter_open fuel pGraph src s) (fun st => Ok (StSource st))
  | LimitIterator _ src => res_bind (iter_open fuel pGraph src s) (fun st => Ok (StLimit 0 st))
  | SortIterator _ src => res_bind (iter_open fuel pGraph src s) (fun st => sortIteratorOpen (iter_next fuel pGraph src) st s)
  | ExpandIterator _ src =>
      match src with
      | Some src => res_bind (iter_open fuel pGraph src s) (fun st => Ok (StExpand None [] false (Some st)))
      | None => Ok (StExpand None [] false None)
      end
  | CreateIterator _ => createIteratorOpen pGraph s
  end.

(** ** The executor *)

(** The rows of the root; more than 10000 are an error.  [None]: out of fuel. *)
Fixpoint execute_loop (n fuel : nat) (pGraph : option GraphVtab) (it : CypherIterator) (st : iter_state) (rows : list CypherResult) (s : gdb)
    : option (res (list CypherResult) * gdb) :=
  match n with
  | O => None
  | S n =>
      match iter_next fuel pGraph it st [] s with
      | NextRow r st s =>
          if 10000 <=? Z.of_nat (length rows) then Some (Err SQLITE_ERROR, s) else execute_loop n fuel pGraph it st (rows ++ [r]) s
      | NextDone _ s => Some (Ok rows, s)
      | NextError rc s => Some (Err rc, s)
      | NextUndef => Some (Undef, s)
      | NextFuel => None
      end
  end.

Definition cypherExecutorExecute (fuel : nat) (pGraph : option GraphVtab) (it : CypherIterator) (s : gdb)
    : option (res (list CypherResult) * gdb) :=
  match iter_open fuel pGraph it s with
  | Ok st => execute_loop fuel fuel pGraph it st [] s
  | Err rc => Some (Err rc, s)
  | Undef => Some (Undef, s)
  end.

Definition results_json (fmt_6g : f64 -> bytes) (rows : list CypherResult) : bytes :=
  [91] ++ comma_separated (cypherResultToJson fmt_6g <$> rows) ++ [93].

(** A query that is not accepted, planned or executed is an error.  The syntax
    tree is freed at the end, which is undefined if a node hangs in it twice. *)
Definition cypherExecuteSqlFunc (fuel : nat) (fmt_6g : f64 -> bytes) (pGraph : option GraphVtab) (zQuery : bytes) (s : gdb)
    : option (res bytes * gdb) :=
  match (cypherParse zQuery).1 with
  | PNode pAst =>
      let destroy (r : res bytes) : res bytes := if decide (NoDup (frees pAst)) then r else Undef in
      match res_bind (plan_query (shape pAst)) createIteratorTree with
      | Ok it =>
          match cypherExecutorExecute fuel pGraph it s with
          | Some (Ok rows, s) => Some (destroy (Ok (results_json fmt_6g rows)), s)
          | Some (Err rc, s) => Some (destroy (Err rc), s)
          | Some (Undef, s) => Some (Undef, s)
          | None => None
          end
      | Err rc => Some (destroy (Err rc), s)
      | Undef => Some (Undef, s)
      end
  | PNull => Some (Err SQLITE_ERROR, s)
  | PUndef => Some (Undef, s)
  | PFuel => None
  end.

End Exec.
