(* ===== verification/CypherPlanSpec.v ===== *)
(** * The plan of a query

    Estimates do not change what a plan does, and plans without joins are not
    rewritten but for the scans.  Shown: the physical plan of a MATCH. *)

From Stdlib Require Import String ZArith Lia Floats.SpecFloat.
From stdpp Require Import base option list numbers.
From S2P Require Import Prelude Float32 Codec Shadow DefParser Values Scalar CypherLexer CypherParser CypherParseSpec CypherExpr CypherQuery CypherPlan.

Local Open Scope Z_scope.

(** ** Induction on plans *)

Section PlanInd.
Context (P : LogicalPlanNode -> Prop)
  (step : forall p, Forall P (lp_children p) -> P p).

Fixpoint plan_ind (p : LogicalPlanNode) : P p :=
  step p ((fix go (l : list LogicalPlanNode) : Forall P l :=
             match l with [] => List.Forall_nil _ | c :: l => List.Forall_cons _ _ _ (plan_ind c) (go l) end) (lp_children p)).
End PlanInd.

(** ** Plans without estimates *)

Fixpoint erase (p : LogicalPlanNode) : LogicalPlanNode :=
  lp_estimated p (lp_type p) (map erase (lp_children p)) (S754_zero false) 0.

Fixpoint perase (p : PhysicalPlanNode) : PhysicalPlanNode :=
  MkPhysical (pp_type p) (pp_zAlias p) (pp_zLabel p) (pp_zProperty p) (pp_zValue p) (map perase (pp_children p)) (pp_nLimit p)
    (S754_zero false) 0 (S754_zero false) (pp_pExecState p) (pp_iFlags p).

Lemma erase_unfold (p : LogicalPlanNode) : erase p = lp_estimated p (lp_type p) (map erase (lp_children p)) (S754_zero false) 0.
Proof. by destruct p. Qed.

Lemma erase_estimated (p : LogicalPlanNode) (type : LogicalPlanNodeType) (cs : list LogicalPlanNode) (cost : f64) (rows : Z) :
  erase (lp_estimated p type cs cost rows) = lp_estimated p type (map erase cs) (S754_zero false) 0.
Proof. done. Qed.

Lemma erase_idemp (p : LogicalPlanNode) : erase (erase p) = erase p.
Proof.
  induction p as [p IH] using plan_ind. rewrite (erase_unfold p), erase_estimated. f_equal. rewrite map_map.
  apply map_ext_Forall. exact IH.
Qed.

Lemma erase_fields (p q : LogicalPlanNode) : erase p = erase q ->
  lp_type p = lp_type q /\ lp_zAlias p = lp_zAlias q /\ lp_zLabel p = lp_zLabel q /\ lp_zProperty p = lp_zProperty q /\
  lp_zValue p = lp_zValue q /\ lp_iFlags p = lp_iFlags q /\ lp_pExtra p = lp_pExtra q /\ map erase (lp_children p) = map erase (lp_children q).
Proof. rewrite !erase_unfold. unfold lp_estimated. intros [=]. done. Qed.

Lemma cost_unfold (p : LogicalPlanNode) : exists cost, logicalPlanEstimateCost p =
  lp_estimated p (lp_type p) (map logicalPlanEstimateCost (lp_children p)) cost (lp_iEstimatedRows p).
Proof. destruct p. eexists. reflexivity. Qed.

Lemma cost_erase (p : LogicalPlanNode) : erase (logicalPlanEstimateCost p) = erase p.
Proof.
  induction p as [p IH] using plan_ind. destruct (cost_unfold p) as [cost ->]. rewrite erase_estimated, (erase_unfold p). f_equal.
  rewrite map_map. by apply map_ext_Forall.
Qed.

Lemma rows_erase (p p' : LogicalPlanNode) : logicalPlanEstimateRows p = Ok p' -> erase p' = erase p.
Proof.
  revert p'. induction p as [[type alias label prop val cs cost rows flags extra] IH] using plan_ind. cbn [lp_children] in IH. intros p'.
  assert (Hfirst : forall (f : Z -> res Z) none, match cs with
    | c :: cs => res_bind (logicalPlanEstimateRows c) (fun c => res_bind (f (lp_iEstimatedRows c)) (fun n =>
        Ok (MkLogical type alias label prop val (c :: cs) cost n flags extra)))
    | [] => Ok (MkLogical type alias label prop val [] cost none flags extra)
    end = Ok p' -> erase p' = erase (MkLogical type alias label prop val cs cost rows flags extra)).
  { intros f none. destruct cs as [|c cs]; [by intros [= <-]|]. apply Forall_cons_1 in IH as [IH _].
    destruct (logicalPlanEstimateRows c) as [c'| |]; try done. cbn [res_bind]. specialize (IH c' eq_refl).
    destruct (f _) as [n| |]; try done. cbn [res_bind]. intros [= <-]. unfold erase at 1 2. fold erase. cbn. by rewrite IH. }
  assert (Hjoin : match cs with
      | l :: r :: cs =>
          res_bind (logicalPlanEstimateRows l) (fun l =>
          res_bind (logicalPlanEstimateRows r) (fun r =>
          res_bind (i64_result (lp_iEstimatedRows l * lp_iEstimatedRows r)) (fun n =>
            Ok (MkLogical type alias label prop val (l :: r :: cs) cost (Z.quot n 100) flags extra))))
      | cs => Ok (MkLogical type alias label prop val cs cost 1000 flags extra)
      end = Ok p' -> erase p' = erase (MkLogical type alias label prop val cs cost rows flags extra)).
  { destruct cs as [|l [|r cs]]; [by intros [= <-]..|]. apply Forall_cons_1 in IH as [IHl IH]. apply Forall_cons_1 in IH as [IHr _].
    destruct (logicalPlanEstimateRows l) as [l'| |]; try done. cbn [res_bind]. destruct (logicalPlanEstimateRows r) as [r'| |]; try done.
    cbn [res_bind]. destruct (i64_result _) as [n| |]; try done. cbn [res_bind]. intros [= <-]. unfold erase at 1 2. fold erase. cbn.
    by rewrite (IHl l' eq_refl), (IHr r' eq_refl). }
  destruct type; cbn [logicalPlanEstimateRows lp_type lp_children];
    first [by intros [= <-] | (destruct cs as [|l [|r cs]]; exact Hjoin) | exact (Hfirst (fun n => Ok (Z.quot n 10)) 100) | exact (Hfirst (fun n => i64_result (n * 5)) 500)
    | exact (Hfirst Ok 100)].
Qed.

(** No joins in a plan. *)
Definition is_join (type : LogicalPlanNodeType) : bool :=
  match type with LOGICAL_HASH_JOIN | LOGICAL_NESTED_LOOP_JOIN => true | _ => false end.

Fixpoint joinless (p : LogicalPlanNode) : bool := negb (is_join (lp_type p)) && forallb joinless (lp_children p).

Lemma joinless_unfold (p : LogicalPlanNode) : joinless p = negb (is_join (lp_type p)) && forallb joinless (lp_children p).
Proof. by destruct p. Qed.

Lemma joinless_erase (p : LogicalPlanNode) : joinless (erase p) = joinless p.
Proof.
  induction p as [p IH] using plan_ind. rewrite erase_unfold, !joinless_unfold. cbn [lp_estimated lp_type lp_children]. f_equal.
  induction IH as [|c cs Hc _ IH]; [done|]. cbn. by rewrite Hc, IH.
Qed.

Definition optimize_all (l : list LogicalPlanNode) : res (list LogicalPlanNode) :=
  foldr (fun c acc => res_bind (logicalPlanOptimizeJoins c) (fun c => res_bind acc (fun l => Ok (c :: l)))) (Ok []) l.

Lemma joins_unfold (p : LogicalPlanNode) : is_join (lp_type p) = false ->
  logicalPlanOptimizeJoins p = res_bind (optimize_all (lp_children p)) (fun cs => Ok (lp_set_rows p cs (lp_iEstimatedRows p))).
Proof.
  destruct p as [type alias label prop val cs cost rows flags extra]. cbn [lp_type lp_children]. intros Hj. cbn [logicalPlanOptimizeJoins lp_children].
  match goal with |- res_bind (?f cs) _ = _ => assert (Hf : f cs = optimize_all cs) by (clear; induction cs as [|c cs IH]; [done|]; cbn; by rewrite IH) end.
  rewrite Hf. destruct (optimize_all cs); [|done|done]. by destruct type.
Qed.

Lemma joins_erase (p : LogicalPlanNode) : joinless p = true -> exists p', logicalPlanOptimizeJoins p = Ok p' /\ erase p' = erase p.
Proof.
  induction p as [p IH] using plan_ind. rewrite joinless_unfold, andb_true_iff, negb_true_iff. intros [Hj Hcs]. rewrite (joins_unfold p Hj).
  assert (Hall : exists cs, optimize_all (lp_children p) = Ok cs /\ map erase cs = map erase (lp_children p)).
  { clear Hj. induction IH as [|c cs Hc _ IH]; [by exists []|]. cbn in Hcs. apply andb_true_iff in Hcs as [Hc' Hcs].
    destruct (Hc Hc') as (c' & Ec & He). destruct (IH Hcs) as (cs' & Ecs & Hes). exists (c' :: cs'). cbn [optimize_all foldr map].
    rewrite Ec. cbn [res_bind]. unfold optimize_all in Ecs. rewrite Ecs. cbn [res_bind]. by rewrite He, Hes. }
  destruct Hall as (cs & -> & Hcs'). eexists. split; [reflexivity|]. rewrite (erase_unfold p), <- Hcs'. done.
Qed.

Lemma index_unfold (p : LogicalPlanNode) : exists type cost rows,
  optimizeIndexUsage p = lp_estimated p type (map optimizeIndexUsage (lp_children p)) cost rows /\
  type = match lp_type p with
         | LOGICAL_NODE_SCAN =>
             match lp_zProperty p, lp_zValue p with
             | Some _, Some _ => LOGICAL_INDEX_SCAN
             | _, _ => match lp_zLabel p with Some (_ :: _) => LOGICAL_LABEL_SCAN | _ => LOGICAL_NODE_SCAN end
             end
         | type => type
         end.
Proof.
  destruct p as [type alias label prop val cs cost rows flags extra]. cbn. destruct type;
    try (do 3 eexists; split; reflexivity). destruct label as [[|]|], prop, val; do 3 eexists; split; reflexivity.
Qed.

Lemma index_erase (p q : LogicalPlanNode) : erase p = erase q -> erase (optimizeIndexUsage p) = erase (optimizeIndexUsage q).
Proof.
  revert q. induction p as [p IH] using plan_ind. intros q E. apply erase_fields in E as (Ht & Ha & Hl & Hp & Hv & Hf & Hx & Hc).
  destruct (index_unfold p) as (t1 & c1 & r1 & -> & ->). destruct (index_unfold q) as (t2 & c2 & r2 & -> & ->). rewrite !erase_estimated.
  unfold lp_estimated. rewrite Ht, Ha, Hl, Hp, Hv, Hf, Hx. f_equal. rewrite !map_map. clear -IH Hc. revert Hc. generalize (lp_children q).
  induction IH as [|c cs Hc _ IH]; intros [|d ds]; cbn; try done. intros [= E1 E2]. f_equal; [by apply Hc|by apply IH].
Qed.

Lemma physical_unfold (p : LogicalPlanNode) (ctx : PlanContext) : perase (logicalPlanToPhysical p ctx) =
  MkPhysical (physical_type p ctx) (lp_zAlias p) (lp_zLabel p) (lp_zProperty p)
    (match lp_type p, lp_zProperty p, lp_zValue p with LOGICAL_INDEX_SCAN, Some _, None => Some [] | _, _, z => z end)
    (map (fun c => perase (logicalPlanToPhysical c ctx)) (lp_children p)) 0 (S754_zero false) 0 (S754_zero false) (lp_pExtra p) (lp_iFlags p).
Proof. destruct p. cbn. by rewrite map_map. Qed.

Lemma physical_erase (p q : LogicalPlanNode) (ctx : PlanContext) :
  erase p = erase q -> perase (logicalPlanToPhysical p ctx) = perase (logicalPlanToPhysical q ctx).
Proof.
  revert q. induction p as [p IH] using plan_ind. intros q E. apply erase_fields in E as (Ht & Ha & Hl & Hp & Hv & Hf & Hx & Hc).
  rewrite !physical_unfold. unfold physical_type. rewrite Ht, Ha, Hl, Hp, Hv, Hf, Hx. f_equal. clear -IH Hc. revert Hc. generalize (lp_children q).
  induction IH as [|c cs Hc _ IH]; intros [|d ds]; cbn; try done. intros [= E1 E2]. f_equal; [by apply Hc|by apply IH].
Qed.

(** A plan without joins whose rows can be estimated: optimization changes
    its scans only. *)
Lemma optimize_joinless (p p' : LogicalPlanNode) (ctx : PlanContext) :
  joinless p = true -> logicalPlanEstimateRows (logicalPlanEstimateCost p) = Ok p' ->
  exists pp, cypherPlannerOptimize p' ctx = Ok pp /\ perase pp = perase (logicalPlanToPhysical (optimizeIndexUsage p) ctx).
Proof.
  intros Hj Hr. apply rows_erase in Hr. rewrite cost_erase in Hr.
  assert (Hp : exists p'', (if pc_bReorderJoins ctx then logicalPlanOptimizeJoins p' else Ok p') = Ok p'' /\ erase p'' = erase p).
  { destruct (pc_bReorderJoins ctx); [|by exists p']. destruct (joins_erase p') as (p'' & E & He).
    - by rewrite <- joinless_erase, Hr, joinless_erase.
    - exists p''. split; [done|]. by rewrite He. }
  destruct Hp as (p'' & E & He). unfold cypherPlannerOptimize. rewrite E. eexists. split; [reflexivity|].
  by apply physical_erase, index_erase.
Qed.

(** ** The plan of a path *)

Definition start_logical (c : cnode) : LogicalPlanNode :=
  match cn_label c with
  | Some _ => logicalPlanNodeSetLabel (logicalPlanNodeSetAlias (logicalPlanNodeCreate LOGICAL_LABEL_SCAN) (cn_var c)) (cn_label c)
  | None => logicalPlanNodeSetAlias (logicalPlanNodeCreate LOGICAL_NODE_SCAN) (cn_var c)
  end.

Definition target_logical (c : cnode) : LogicalPlanNode :=
  logicalPlanNodeSetLabel (logicalPlanNodeSetAlias (logicalPlanNodeCreate LOGICAL_NODE_SCAN) (cn_var c)) (cn_label c).

Definition step_logical (p : LogicalPlanNode) (s : crel * cnode) : LogicalPlanNode :=
  MkLogical LOGICAL_EXPAND (cn_var s.2) (cr_var s.1) (cr_type s.1) None [p; target_logical s.2] (S754_zero false) 0 0 None.

Definition pattern_logical (p : cpattern) : LogicalPlanNode := foldl step_logical (start_logical (cp_start p)) (cp_steps p).

Lemma compile_start (c : cnode) (ctx : PlanContext) :
  is_Some (cn_var c) -> compileAstNode (node_tree c) ctx = (Some (start_logical c), planContextAddVariable ctx (cn_var c)).
Proof. destruct c as [v l m]. intros [x Hx]. cbn in Hx. subst v. by destruct l, m. Qed.

Lemma compile_step (p : LogicalPlanNode) (s : crel * cnode) :
  expand_step (rel_tree s.1) (Some p) (Some (node_tree s.2)) = step_logical p s.
Proof. destruct s as [[v t m d] [v' l m']]. by destruct v, t, m, v', l, m'. Qed.

Lemma compile_steps (steps : list (crel * cnode)) (p : LogicalPlanNode) (ctx : PlanContext) :
  compile_elements compileAstNode (concat (map (fun s => [rel_tree s.1; node_tree s.2]) steps)) (Some p) ctx =
  (Some (foldl step_logical p steps), ctx).
Proof.
  revert p. induction steps as [|s steps IH]; intros p; [done|]. cbn [map concat app compile_elements].
  change (cypherAstIsType (rel_tree s.1) CYPHER_AST_REL_PATTERN) with true. change (cypherAstIsType (node_tree s.2) CYPHER_AST_NODE_PATTERN) with true.
  cbv iota. rewrite compile_step. apply IH.
Qed.

Lemma compile_pattern (p : cpattern) (ctx : PlanContext) : is_Some (cn_var (cp_start p)) ->
  compileAstNode (pattern_tree p) ctx = (Some (pattern_logical p), planContextAddVariable ctx (cn_var (cp_start p))).
Proof.
  intros Hv. unfold pattern_tree. cbn [compileAstNode]. rewrite (compile_start _ _ Hv). apply compile_steps.
Qed.

Lemma pattern_joinless (p : cpattern) : joinless (pattern_logical p) = true.
Proof.
  unfold pattern_logical. destruct p as [c steps]. cbn [cp_start cp_steps].
  assert (Hs : joinless (start_logical c) = true) by (unfold start_logical; by destruct (cn_label c)).
  revert Hs. generalize (start_logical c). induction steps as [|s steps IH]; intros p Hp; [done|]. cbn [foldl]. apply IH.
  rewrite joinless_unfold. cbn. by rewrite Hp.
Qed.

(** The rows of a plan are estimated, as [n] at most. *)
Definition estimated (p : LogicalPlanNode) (n : Z) : Prop :=
  exists p', logicalPlanEstimateRows (logicalPlanEstimateCost p) = Ok p' /\ 0 <= lp_iEstimatedRows p' <= n.

Lemma estimated_first (p : LogicalPlanNode) (n : Z) (type : LogicalPlanNodeType) (alias label prop val : option bytes)
    (cs : list LogicalPlanNode) (cost : f64) (rows flags : Z) (extra : option tree) :
  estimated p n -> type ∈ [LOGICAL_PROPERTY_FILTER; LOGICAL_PROJECTION] ->
  estimated (MkLogical type alias label prop val (p :: cs) cost rows flags extra) n.
Proof.
  intros (p' & E & Hn) Ht. unfold estimated.
  destruct (cost_unfold (MkLogical type alias label prop val (p :: cs) cost rows flags extra)) as [cost' ->].
  assert (H : logicalPlanEstimateRows (lp_estimated (MkLogical type alias label prop val (p :: cs) cost rows flags extra) type
    (map logicalPlanEstimateCost (p :: cs)) cost' rows) =
    Ok (MkLogical type alias label prop val (p' :: map logicalPlanEstimateCost cs) cost' (lp_iEstimatedRows p') flags extra)).
  { rewrite !elem_of_cons, elem_of_nil in Ht. destruct Ht as [->|[->|[]]]; cbn; by rewrite E. }
  eexists. split; [exact H|done].
Qed.

Lemma estimated_step (p : LogicalPlanNode) (s : crel * cnode) (n : Z) :
  estimated p n -> 5 * n < 2 ^ 63 -> estimated (step_logical p s) (5 * n).
Proof.
  intros (p' & E & Hn) Hb. unfold estimated. destruct (cost_unfold (step_logical p s)) as [cost' ->].
  cbn [step_logical lp_children lp_type map lp_estimated logicalPlanEstimateRows lp_iEstimatedRows]. rewrite E. cbn [res_bind].
  unfold i64_result. destruct (Z.leb_spec (- 2 ^ 63) (lp_iEstimatedRows p' * 5)), (Z.ltb_spec (lp_iEstimatedRows p' * 5) (2 ^ 63)); cbn [andb res_bind]; try lia.
  eexists. split; [reflexivity|]. cbn. lia.
Qed.

Lemma pattern_estimated (p : cpattern) : (length (cp_steps p) <= 21)%nat -> estimated (pattern_logical p) (10000 * 5 ^ 21).
Proof.
  unfold pattern_logical. destruct p as [c steps]. cbn [cp_start cp_steps]. intros Hl.
  assert (Hs : estimated (foldl step_logical (start_logical c) steps) (10000 * 5 ^ Z.of_nat (length steps))).
  { induction steps as [|s steps IH] using rev_ind.
    - unfold estimated, start_logical. destruct (cn_label c); eexists; (split; [reflexivity|cbn; lia]).
    - rewrite length_app in *. cbn [length] in *. rewrite foldl_snoc. rewrite Nat2Z.inj_add, Z.pow_add_r by lia.
      replace (10000 * (5 ^ Z.of_nat (length steps) * 5 ^ Z.of_nat 1)) with (5 * (10000 * 5 ^ Z.of_nat (length steps))) by lia.
      apply estimated_step; [apply IH; lia|]. assert (5 ^ Z.of_nat (length steps) <= 5 ^ 20) by (apply Z.pow_le_mono_r; lia). lia. }
  destruct Hs as (p' & E & Hn). exists p'. split; [done|]. assert (5 ^ Z.of_nat (length steps) <= 5 ^ 21) by (apply Z.pow_le_mono_r; lia). lia.
Qed.

(** ** Physical plans *)

Definition bare_physical (type : PhysicalOperatorType) (alias label prop val : option bytes) (cs : list PhysicalPlanNode)
    (extra : option tree) (flags : Z) : PhysicalPlanNode :=
  MkPhysical type alias label prop val cs 0 (S754_zero false) 0 (S754_zero false) extra flags.

Definition start_physical (c : cnode) : PhysicalPlanNode :=
  bare_physical (match cn_label c with Some _ => PHYSICAL_LABEL_INDEX_SCAN | None => PHYSICAL_ALL_NODES_SCAN end) (cn_var c) (cn_label c)
    None None [] None 0.

Definition target_physical (c : cnode) : PhysicalPlanNode :=
  bare_physical (match cn_label c with Some (_ :: _) => PHYSICAL_LABEL_INDEX_SCAN | _ => PHYSICAL_ALL_NODES_SCAN end) (cn_var c) (cn_label c)
    None None [] None 0.

Definition step_physical (p : PhysicalPlanNode) (s : crel * cnode) : PhysicalPlanNode :=
  bare_physical PHYSICAL_EXPAND (cn_var s.2) (cr_var s.1) (cr_type s.1) None [p; target_physical s.2] None 0.

Definition pattern_physical (p : cpattern) : PhysicalPlanNode := foldl step_physical (start_physical (cp_start p)) (cp_steps p).

(** What the planner makes of a logical plan, up to estimates. *)
Definition physical (ctx : PlanContext) (p : LogicalPlanNode) : PhysicalPlanNode := perase (logicalPlanToPhysical (optimizeIndexUsage p) ctx).

Lemma pattern_is_physical (p : cpattern) (ctx : PlanContext) : pc_bUseIndexes ctx = true -> physical ctx (pattern_logical p) = pattern_physical p.
Proof.
  intros Hctx. unfold pattern_logical, pattern_physical. destruct p as [c steps]. cbn [cp_start cp_steps].
  induction steps as [|s steps IH] using rev_ind.
  - cbn [foldl]. unfold physical, start_logical, start_physical. destruct (cn_label c); cbn; unfold physical_type; cbn; by rewrite ?Hctx.
  - rewrite !foldl_snoc, <- IH. set (q := foldl _ _ _). unfold physical. cbn [step_logical optimizeIndexUsage lp_type lp_children map].
    rewrite physical_unfold. cbn [lp_estimated lp_type lp_children map lp_zAlias lp_zLabel lp_zProperty lp_zValue lp_pExtra lp_iFlags].
    unfold step_physical, bare_physical. f_equal. f_equal. f_equal. rewrite physical_unfold. unfold target_physical, target_logical, physical_type.
    destruct (cn_label s.2) as [[|]|]; cbn; by rewrite ?Hctx.
Qed.

(** ** Comparisons after WHERE *)

Inductive cmp_op := OpEq | OpGt | OpLt | OpGe | OpLe | OpNe.

Definition op_tok (o : cmp_op) : tok :=
  match o with
  | OpEq => (CYPHER_TOK_EQ, bstr "=")
  | OpGt => (CYPHER_TOK_GT, bstr ">")
  | OpLt => (CYPHER_TOK_LT, bstr "<")
  | OpGe => (CYPHER_TOK_GE, bstr ">=")
  | OpLe => (CYPHER_TOK_LE, bstr "<=")
  | OpNe => (CYPHER_TOK_NE, bstr "<>")
  end.

(** [x.prop OP literal] *)
Record condition := MkCondition { w_var : bytes; w_prop : bytes; w_op : cmp_op; w_lit : tok }.

Definition where_expr (w : condition) : cexpr :=
  EBin BCmp (op_tok (w_op w)) (EProp (EName (w_var w)) (w_prop w)) (ELit (w_lit w)).

Definition match_query (p : cpattern) (w : option condition) (r : option cexpr) : cquery :=
  MkCQuery (CMatch p) (where_expr <$> w) r.

Definition op_flag (o : cmp_op) : Z := match o with OpEq => 1 | OpGt => 2 | OpLt => 3 | OpGe => 4 | OpLe => 5 | OpNe => 6 end.

(** The next token is the operator's text only where it is not used. *)
Definition where_logical (w : condition) (next : bytes) : LogicalPlanNode :=
  MkLogical LOGICAL_PROPERTY_FILTER (Some (w_var w)) None (Some (w_prop w)) (Some (w_lit w).2) [] (S754_zero false) 0 (op_flag (w_op w))
    (Some (ast_of (where_expr w) next)).

Lemma compile_condition (w : condition) (next : bytes) : compile_where (ast_of (where_expr w) next) = where_logical w next.
Proof. destruct w as [x prop op lit]. by destruct op. Qed.

Lemma compile_return_projection (t : tree) : exists alias prop,
  compile_return t = MkLogical LOGICAL_PROJECTION alias None prop None [] (S754_zero false) 0 0 None.
Proof.
  unfold compile_return. repeat case_match; unfold logicalPlanNodeSetAlias, logicalPlanNodeSetProperty, logicalPlanNodeCreate; cbn; eauto.
Qed.

(** The nodes of the plan above the path. *)
Definition filter_physical (w : condition) (next : bytes) (p : PhysicalPlanNode) : PhysicalPlanNode :=
  bare_physical PHYSICAL_FILTER (Some (w_var w)) None (Some (w_prop w)) (Some (w_lit w).2) [p] (Some (ast_of (where_expr w) next)) (op_flag (w_op w)).

Inductive match_physical (p : cpattern) : option condition -> option cexpr -> PhysicalPlanNode -> Prop :=
| physical_path : match_physical p None None (pattern_physical p)
| physical_where w next : match_physical p (Some w) None (filter_physical w next (pattern_physical p))
| physical_return w e alias prop q : match_physical p w None q ->
    match_physical p w (Some e) (bare_physical PHYSICAL_PROJECTION alias None prop None [q] None 0).

(** A filter or projection above a plan. *)
Lemma plan_above (p q : LogicalPlanNode) (n : Z) (type : LogicalPlanNodeType) (alias prop val : option bytes) (flags : Z)
    (extra : option tree) (ctx : PlanContext) :
  joinless p = true -> estimated p n -> type ∈ [LOGICAL_PROPERTY_FILTER; LOGICAL_PROJECTION] ->
  q = MkLogical type alias None prop val [p] (S754_zero false) 0 flags extra ->
  joinless q = true /\ estimated q n /\
  physical ctx q = bare_physical (match type with LOGICAL_PROJECTION => PHYSICAL_PROJECTION | _ => PHYSICAL_FILTER end) alias None prop val
    [physical ctx p] extra flags.
Proof.
  intros Hj He Ht ->. split; [|split; [by apply estimated_first|]].
  - rewrite joinless_unfold. cbn. rewrite Hj. rewrite !elem_of_cons, elem_of_nil in Ht. by destruct Ht as [->|[->|[]]].
  - unfold physical. rewrite physical_unfold. rewrite !elem_of_cons, elem_of_nil in Ht. by destruct Ht as [->|[->|[]]].
Qed.

Definition return_tree (e : cexpr) : tree :=
  Node CYPHER_AST_RETURN None 0 [Node CYPHER_AST_PROJECTION_LIST None 0 [Node CYPHER_AST_PROJECTION_ITEM None 0 [ast_of e []]]].

Definition with_where (w : option condition) (next : bytes) (p : LogicalPlanNode) : LogicalPlanNode :=
  match w with Some w => logicalPlanNodeAddChild (where_logical w next) p | None => p end.

Definition with_return (r : option cexpr) (p : LogicalPlanNode) : LogicalPlanNode :=
  match r with Some e => logicalPlanNodeAddChild (compile_return (return_tree e)) p | None => p end.

Lemma compile_match (p : cpattern) (w : option condition) (r : option cexpr) (ctx : PlanContext) :
  is_Some (cn_var (cp_start p)) -> compileAstNode (query_tree (match_query p w r)) ctx =
    (Some (with_return r (with_where w (current (print_return r)).2 (pattern_logical p))), planContextAddVariable ctx (cn_var (cp_start p))).
Proof.
  intros Hv. unfold query_tree. cbn [match_query cq_clause cq_where cq_return]. generalize (current (print_return r)).2 as next. intros next.
  cbn [compileAstNode clause_tree]. change (compileAstNode (Node CYPHER_AST_PATTERN None 0 ?l)) with (compileAstNode (pattern_tree p)).
  fold compileAstNode. rewrite compile_pattern by done.
  assert (Hw : compile_pipeline compileAstNode (where_trees (where_expr <$> w) next ++ return_trees r) (Some (pattern_logical p))
    (planContextAddVariable ctx (cn_var (cp_start p))) = (Some (with_return r (with_where w next (pattern_logical p))),
    planContextAddVariable ctx (cn_var (cp_start p)))).
  { destruct w as [w|], r as [e|]; cbn [where_trees return_trees fmap option_fmap option_map app compile_pipeline compileAstNode with_where with_return];
      rewrite ?compile_condition; done. }
  by rewrite Hw.
Qed.

Lemma match_logical (p : cpattern) (w : option condition) (r : option cexpr) (next : bytes) (ctx : PlanContext) :
  (length (cp_steps p) <= 21)%nat -> pc_bUseIndexes ctx = true ->
  let q := with_return r (with_where w next (pattern_logical p)) in
  joinless q = true /\ estimated q (10000 * 5 ^ 21) /\ match_physical p w r (physical ctx q).
Proof.
  intros Hl Hctx. set (n := 10000 * 5 ^ 21).
  assert (H1 : joinless (with_where w next (pattern_logical p)) = true /\ estimated (with_where w next (pattern_logical p)) n /\
    match_physical p w None (physical ctx (with_where w next (pattern_logical p)))).
  { destruct w as [w|].
    - edestruct (plan_above (pattern_logical p) (with_where (Some w) next (pattern_logical p)) n LOGICAL_PROPERTY_FILTER) as (Hj & He & Hp);
        [apply pattern_joinless|by apply pattern_estimated|by left|reflexivity|].
      split; [done|]. split; [done|]. rewrite Hp, pattern_is_physical by done. apply physical_where.
    - split; [apply pattern_joinless|]. split; [by apply pattern_estimated|]. cbn [with_where]. rewrite pattern_is_physical by done. apply physical_path. }
  destruct H1 as (Hj & He & Hp). destruct r as [e|]; [|done]. destruct (compile_return_projection (return_tree e)) as (alias & prop & Er).
  edestruct (plan_above (with_where w next (pattern_logical p)) (with_return (Some e) (with_where w next (pattern_logical p))) n LOGICAL_PROJECTION)
    as (Hj' & He' & Hp'); [done|done|right; by left|cbn [with_return]; rewrite Er; reflexivity|].
  split; [done|]. split; [done|]. rewrite Hp'. by apply physical_return.
Qed.

(** The planner's result for a MATCH. *)
Lemma plan_match (p : cpattern) (w : option condition) (r : option cexpr) :
  is_Some (cn_var (cp_start p)) -> (length (cp_steps p) <= 21)%nat ->
  exists pp, plan_query (query_tree (match_query p w r)) = Ok pp /\ match_physical p w r (perase pp).
Proof.
  intros Hv Hl. unfold plan_query, cypherPlannerCompile. rewrite compile_match by done.
  set (ctx := planContextAddVariable _ _). assert (Hctx : pc_bUseIndexes ctx = true) by (unfold ctx; by destruct (cn_var _)).
  destruct (match_logical p w r (current (print_return r)).2 ctx Hl Hctx) as (Hj & (p' & E & _) & Hp). rewrite E. cbn [res_bind].
  destruct (optimize_joinless _ p' ctx Hj E) as (pp & Epp & He). exists pp. split; [done|]. by rewrite He.
Qed.
