(* ===== verification/CypherRun.v ===== *)
(** * What a Cypher query computes

    The planner and the executor together: a MATCH of a path of named nodes,
    with a comparison after WHERE, returns the rows of its reference semantics
    (the walks of the graph that fit the pattern, in the order of the scans),
    and a CREATE adds its path to the graph.  Then the queries for which the
    executor does something else. *)

From Stdlib Require Import String Ascii ZArith Lia Floats.SpecFloat.
From stdpp Require Import base option list numbers gmap.
From S2P Require Import Prelude Float32 Codec Shadow DefParser Values Scalar Graph CypherLexer CypherParser CypherParseSpec CypherExpr CypherQuery CypherPlan CypherPlanSpec CypherRows CypherExec.

Local Open Scope Z_scope.

(** ** Reference semantics *)

(** The comparison that is executed: the texts are compared for equality, and
    what [atoi] reads at their start for order, whatever they are. *)
Definition meets (o : cmp_op) (x y : bytes) : bool :=
  match o with
  | OpEq => bool_decide (x = y)
  | OpNe => bool_decide (x <> y)
  | OpGt => atoi_bytes y <? atoi_bytes x
  | OpLt => atoi_bytes x <? atoi_bytes y
  | OpGe => atoi_bytes y <=? atoi_bytes x
  | OpLe => atoi_bytes x <=? atoi_bytes y
  end.

(** The comparison that is documented: numbers by their values, strings in
    lexicographic order; the literal says which.  A number is an integer as it
    is printed. *)
Definition split_sign (x : bytes) : bool * bytes :=
  match x with c :: ds => if c =? 45 then (true, ds) else (false, x) | [] => (false, []) end.
Definition number_of (x : bytes) : option Z :=
  let i := int_value (split_sign x) in
  if decide (x = fmt_d i) then Some i else None.

Fixpoint lex_compare (x y : bytes) : comparison :=
  match x, y with
  | [], [] => Eq
  | [], _ :: _ => Lt
  | _ :: _, [] => Gt
  | c :: x, d :: y => match c ?= d with Eq => lex_compare x y | k => k end
  end.

Definition holds (o : cmp_op) (k : comparison) : bool :=
  match o, k with
  | OpEq, Eq | OpNe, (Lt | Gt) | OpGt, Gt | OpLt, Lt | OpGe, (Gt | Eq) | OpLe, (Lt | Eq) => true
  | _, _ => false
  end.

(** [None]: the documentation does not say. *)
Definition documented (o : cmp_op) (x : bytes) (lit : tok) : option bool :=
  match lit.1 with
  | CYPHER_TOK_STRING => Some (holds o (lex_compare x lit.2))
  | CYPHER_TOK_INTEGER =>
      match number_of x, number_of lit.2 with
      | Some a, Some b => Some (holds o (a ?= b))
      | _, _ => None
      end
  | _ => None
  end.

(** The values for which the two agree: strings for equality, and integers in
    the range of an [int]. *)
Definition int_number (x : bytes) : Prop := exists i, x = fmt_d i /\ in_i32 i.
Definition comparable (o : cmp_op) (x : bytes) (lit : tok) : Prop :=
  match lit.1 with
  | CYPHER_TOK_STRING => o = OpEq \/ o = OpNe
  | CYPHER_TOK_INTEGER => int_number x /\ int_number lit.2
  | _ => False
  end.

Definition node_name (c : cnode) : bytes := default (bstr "node") (cn_var c).
Definition rel_name (r : crel) : bytes := default (bstr "r") (cr_var r).

Section Reference.
Context `{CypherSql} `{ScanOrder} (nodes : gmap Z GraphNode) (edges : gmap Z GraphEdge).

Definition has_label (l : bytes) (n : GraphNode) : bool :=
  match gn_labels n with Some z => bool_decide (json_has z l = Some true) | None => false end.

(** An edge that leaves [from], of the type of the relationship, to a node
    with the label of the pattern. *)
Definition fits (from : Z) (r : crel) (c : cnode) (e : GraphEdge) : bool :=
  bool_decide (ge_source e = from) &&
  match cr_type r with Some t => bool_decide (ge_edge_type e = Some t) | None => true end &&
  match cn_label c with
  | Some l => match nodes !! ge_target e with Some n => has_label l n | None => false end
  | None => true
  end.

(** Target, id and type of the edges that fit. *)
Definition hops (from : Z) (r : crel) (c : cnode) : list (Z * Z * text) :=
  (fun p : Z * GraphEdge => (ge_target p.2, p.1, ge_edge_type p.2)) <$> filter (fun p : Z * GraphEdge => fits from r c p.2 = true) (scan edges).

Fixpoint walks (from : Z) (steps : list (crel * cnode)) : list (list (Z * Z * text)) :=
  match steps with
  | [] => [[]]
  | (r, c) :: steps => flat_map (fun e => cons e <$> walks e.1.1 steps) (hops from r c)
  end.

Definition starts (c : cnode) : list Z :=
  match cn_label c with
  | Some l => (filter (fun q : Z * GraphNode => label_like l q.2 = true) (scan nodes)).*1
  | None => (scan nodes).*1
  end.

(** The columns of a row: the first node, then each node with the
    relationship that leads to it. *)
Fixpoint walk_columns (steps : list (crel * cnode)) (es : list (Z * Z * text)) : CypherResult :=
  match steps, es with
  | (r, c) :: steps, (target, id, type) :: es =>
      (node_name c, CYPHER_VALUE_NODE target) :: (rel_name r, CYPHER_VALUE_STRING (Some (rel_text id type))) :: walk_columns steps es
  | _, _ => []
  end.

Definition walk_row (p : cpattern) (x : Z) (es : list (Z * Z * text)) : CypherResult :=
  (node_name (cp_start p), CYPHER_VALUE_NODE x) :: walk_columns (cp_steps p) es.

Definition matches (p : cpattern) : list CypherResult :=
  flat_map (fun x => walk_row p x <$> walks x (cp_steps p)) (starts (cp_start p)).

(** A row in which the node [w_var] has the property, with a value that meets
    the condition. *)
Definition row_meets (w : condition) (r : CypherResult) : bool :=
  match find_column r (w_var w) with
  | Some (CYPHER_VALUE_NODE id) =>
      match n ← nodes !! id; z ← gn_properties n; json_text z (w_prop w) with
      | Some x => meets (w_op w) x (w_lit w).2
      | None => false
      end
  | _ => false
  end.

Definition answers (p : cpattern) (w : option condition) : list CypherResult :=
  match w with Some w => filter (fun r => row_meets w r = true) (matches p) | None => matches p end.

(** The rows that the documentation promises. *)
Definition property_of (w : condition) (r : CypherResult) : option bytes :=
  match find_column r (w_var w) with
  | Some (CYPHER_VALUE_NODE id) => n ← nodes !! id; z ← gn_properties n; json_text z (w_prop w)
  | _ => None
  end.

Definition meant_answers (p : cpattern) (w : option condition) : list CypherResult :=
  match w with
  | Some w => filter (fun r => (x ← property_of w r; documented (w_op w) x (w_lit w)) = Some true) (matches p)
  | None => matches p
  end.

(** The values of the property in the graph can be compared with the literal. *)
Definition comparable_values (w : condition) : Prop :=
  forall id n z x, nodes !! id = Some n -> gn_properties n = Some z -> json_text z (w_prop w) = Some x -> comparable (w_op w) x (w_lit w).

End Reference.

(** The columns that RETURN asks for. *)
Definition returned (r : option cexpr) (row : CypherResult) : CypherResult :=
  match r with Some (EName x) => filter (fun c : bytes * CypherValue => c.1 = x) row | _ => row end.

(** ** The executed comparison and the documented one *)

Lemma lex_compare_eq (x y : bytes) : lex_compare x y = Eq <-> x = y.
Proof.
  revert y. induction x as [|c x IH]; intros [|d y]; cbn; try done. destruct (Z.compare_spec c d) as [->|Hc|Hc].
  - rewrite IH. split; [congruence|]. by intros [= ->].
  - split; [done|]. intros [= -> _]. lia.
  - split; [done|]. intros [= -> _]. lia.
Qed.

Lemma digits_value_dec (ds : bytes) (acc : Z) : forallb c_isdigit ds = true ->
  digits_value acc ((fun c => ascii_of_N (Z.to_N c)) <$> ds) = (dec_digits acc ds).1.
Proof.
  revert acc. induction ds as [|c ds IH]; intros acc Hd; [done|]. cbn [forallb] in Hd. apply andb_true_iff in Hd as [Hc Hd].
  assert (Hcode : code (ascii_of_N (Z.to_N c)) = c).
  { unfold code, c_isdigit in *. rewrite N_ascii_embedding by lia. lia. }
  cbn [fmap list_fmap digits_value dec_digits]. unfold is_digit. rewrite Hcode, Hc.
  replace (between 48 c 57) with true by (unfold between, c_isdigit in *; lia). rewrite (IH _ Hd). by destruct (dec_digits _ ds).
Qed.

Lemma fmt_d_digits (i : Z) : exists ds, ds <> [] /\ forallb c_isdigit ds = true /\ (dec_digits 0 ds).1 = Z.abs i /\
  fmt_d i = if i <? 0 then 45 :: ds else ds.
Proof.
  destruct (print_dec_spec (Z.abs i)) as (H1 & H2 & H3); [lia|]. exists (print_dec (Z.abs i)). split; [done|]. split; [done|]. split; [done|].
  unfold fmt_d. destruct (Z.ltb_spec i 0); [by rewrite Z.abs_neq by lia|by rewrite Z.abs_eq by lia].
Qed.

Lemma number_of_fmt_d (i : Z) : number_of (fmt_d i) = Some i.
Proof.
  destruct (fmt_d_digits i) as (ds & Hne & Hd & Hv & E). unfold number_of.
  assert (int_value (split_sign (fmt_d i)) = i) as ->; [|by rewrite decide_True]. rewrite E. unfold int_value, split_sign. destruct (Z.ltb_spec i 0).
  - change (45 =? 45) with true. cbn [fst snd]. rewrite Hv. lia.
  - destruct ds as [|c ds]; [done|]. cbn [forallb] in Hd. apply andb_true_iff in Hd as [Hc Hd].
    replace (c =? 45) with false by (unfold c_isdigit in Hc; lia). cbn [fst snd]. rewrite Hv. lia.
Qed.

Lemma atoi_fmt_d (i : Z) : in_i32 i -> atoi_bytes (fmt_d i) = i.
Proof.
  intros Hi. destruct (fmt_d_digits i) as (ds & Hne & Hd & Hv & E). unfold atoi_bytes. rewrite E. unfold in_i32 in Hi.
  assert (Hw : to_i32 (clamp_long i) = i).
  { unfold clamp_long. rewrite Z.min_r, Z.max_r by lia. by apply to_i32_id. }
  destruct (Z.ltb_spec i 0).
  - cbn. change (digits_value 0 _) with (digits_value 0 ((fun c => ascii_of_N (Z.to_N c)) <$> ds)). rewrite digits_value_dec, Hv by done.
    rewrite Z.abs_neq, Z.opp_involutive by lia. exact Hw.
  - pose proof (digits_value_dec ds 0 Hd) as Ev. rewrite Hv, Z.abs_eq in Ev by lia. destruct ds as [|c ds]; [done|].
    cbn [forallb] in Hd. apply andb_true_iff in Hd as [Hc Hd]. cbn [fmap list_fmap] in *. cbn [atoi].
    assert (Hcode : code (ascii_of_N (Z.to_N c)) = c).
    { unfold code, c_isdigit in *. rewrite N_ascii_embedding by lia. lia. }
    destruct (digit_not_sign (ascii_of_N (Z.to_N c))) as (-> & -> & ->); [unfold is_digit, between; rewrite Hcode; unfold c_isdigit in Hc; lia|].
    by rewrite Ev.
Qed.

Lemma meets_documented (o : cmp_op) (x : bytes) (lit : tok) : comparable o x lit -> documented o x lit = Some (meets o x lit.2).
Proof.
  destruct lit as [ty y]. unfold comparable, documented. cbn [fst snd]. destruct ty; try done.
  - intros [(a & -> & Ha) (b & -> & Hb)]. rewrite !number_of_fmt_d. f_equal.
    assert (E : fmt_d a = fmt_d b <-> a = b).
    { split; [|congruence]. intros E%(f_equal number_of). rewrite !number_of_fmt_d in E. congruence. }
    unfold meets. rewrite !atoi_fmt_d by done. destruct (Z.compare_spec a b), o; cbn [holds];
      rewrite ?bool_decide_eq_true_2, ?bool_decide_eq_false_2 by (rewrite ?E; lia); lia.
  - intros Ho. f_equal. pose proof (lex_compare_eq x y) as E. unfold meets.
    destruct Ho as [-> | ->]; destruct (lex_compare x y); cbn [holds]; symmetry.
    all: first [apply bool_decide_eq_true_2|apply bool_decide_eq_false_2]; rewrite <- E; congruence || auto.
Qed.

Lemma answers_meant `{CypherSql} `{ScanOrder} (nodes : gmap Z GraphNode) (edges : gmap Z GraphEdge) (p : cpattern) (w : option condition) :
  (forall c, w = Some c -> comparable_values nodes c) -> answers nodes edges p w = meant_answers nodes edges p w.
Proof.
  destruct w as [c|]; [|done]. intros Hc. specialize (Hc c eq_refl). cbn [answers meant_answers]. apply list_filter_iff. intros row.
  unfold row_meets, property_of. destruct (find_column row (w_var c)) as [[]|]; try (split; discriminate).
  destruct (nodes !! iNodeId) as [n|] eqn:En; [|split; discriminate]. cbn. destruct (gn_properties n) as [z|] eqn:Ez; [|split; discriminate]. cbn.
  destruct (json_text z (w_prop c)) as [x|] eqn:Ex; [|split; discriminate]. cbn. rewrite (meets_documented _ _ _ (Hc _ _ _ _ En Ez Ex)).
  split; congruence.
Qed.

(** RETURN asks for the only column there is. *)
Lemma returned_node `{CypherSql} `{ScanOrder} (nodes : gmap Z GraphNode) (edges : gmap Z GraphEdge) (p : cpattern) (w : option condition) :
  cp_steps p = [] -> returned (Some (EName (node_name (cp_start p)))) <$> answers nodes edges p w = answers nodes edges p w.
Proof.
  intros Hp. rewrite <- (list_fmap_id (answers nodes edges p w)) at 2. apply list_fmap_ext. intros i row Hrow%list_elem_of_lookup_2.
  assert (Hm : row ∈ matches nodes edges p) by (unfold answers in Hrow; destruct w; [by apply list_elem_of_filter in Hrow as [_ Hrow]|done]).
  unfold matches in Hm. rewrite Hp in Hm. apply list_elem_of_In, in_flat_map in Hm as (x & _ & Hm). cbn in Hm. destruct Hm as [<-|[]].
  unfold walk_row. rewrite Hp. cbn. by rewrite decide_True.
Qed.

(** ** The queries this holds for *)

Definition none_or_name (z : option bytes) : bool := match z with Some [] => false | _ => true end.

Definition node_simple (c : cnode) : bool :=
  bool_decide (is_Some (cn_var c)) && none_or_name (cn_label c) && bool_decide (cn_props c = None).

Definition rel_simple (r : crel) : bool :=
  none_or_name (cr_type r) && bool_decide (cr_props r = None) && bool_decide (dir_flag (cr_dir r) = 1).

Definition pattern_nodes (p : cpattern) : list cnode := cp_start p :: (cp_steps p).*2.

(** Nodes have names, of their own, and no properties; arrows point to the
    right; at most 21 steps, as the planner's estimates do not overflow then. *)
Record simple_pattern (p : cpattern) : Prop := {
  sp_nodes : Forall (fun c => node_simple c = true) (pattern_nodes p);
  sp_rels : Forall (fun s : crel * cnode => rel_simple s.1 = true) (cp_steps p);
  sp_names : NoDup (node_name <$> pattern_nodes p);
  sp_apart : forall c s, c ∈ pattern_nodes p -> s ∈ cp_steps p -> node_name c <> rel_name s.1;
  sp_length : (length (cp_steps p) <= 21)%nat
}.

(** ** Iterators that yield a list of rows *)

Section Execution.
Context `{CypherSql} `{ScanOrder} `{GraphSql}.

Lemma tree_of_children (p : PhysicalPlanNode) (it : CypherIterator) :
  cypherIteratorCreate p = Some it -> Forall (fun c => exists i, createIteratorTree c = Ok i) (pp_children p) -> createIteratorTree p = Ok it.
Proof.
  destruct p as [type alias label prop val cs lim cost rows sel ex flags]. cbn [pp_children]. intros E Hcs. cbn [createIteratorTree]. rewrite E.
  cbn [pp_children]. clear E. generalize true. induction Hcs as [|c cs [i Hc] _ IH]; intros b; [done|]. rewrite Hc. apply IH.
Qed.

Context (v : GraphVtab) (s : gdb).

(** [xNext] hands on the rows one by one, whatever its argument holds, and
    does not change the database. *)
Inductive yields_rows (fuel : nat) (it : CypherIterator) : iter_state -> list CypherResult -> Prop :=
| yields_done st st' : (forall r, iter_next fuel (Some v) it st r s = NextDone st' s) -> yields_rows fuel it st []
| yields_row st row st' rows : (forall r, iter_next fuel (Some v) it st r s = NextRow row st' s) ->
    yields_rows fuel it st' rows -> yields_rows fuel it st (row :: rows).

(** The iterator of a plan is created, opened, and yields the rows, given
    enough fuel. *)
Definition runs (p : PhysicalPlanNode) (rows : list CypherResult) : Prop :=
  exists it, cypherIteratorCreate p = Some it /\ createIteratorTree p = Ok it /\
  exists N, forall fuel, (N <= fuel)%nat -> exists st, iter_open fuel (Some v) it s = Ok st /\ yields_rows fuel it st rows.

Lemma yields_scan (fuel : nat) (it : CypherIterator) (p : PhysicalPlanNode) (ids : list Z) :
  it = AllNodesScan p \/ it = LabelIndexScan p ->
  yields_rows fuel it (StScan ids) ((fun id => [(default (bstr "node") (pp_zAlias p), CYPHER_VALUE_NODE id)]) <$> ids).
Proof.
  intros Hit. assert (Hnext : forall st r, iter_next fuel (Some v) it st r s = iter_next fuel (Some v) (AllNodesScan p) st r s).
  { intros st r. by destruct Hit as [->| ->]. }
  induction ids as [|id ids IH].
  - eapply yields_done. intros r. by rewrite Hnext.
  - eapply yields_row; [|exact IH]. intros r. by rewrite Hnext.
Qed.

Lemma filter_next_yields (fuel n : nat) (src : CypherIterator) (p : PhysicalPlanNode) (st : iter_state) (rows : list CypherResult) :
  yields_rows fuel src st rows -> (length rows < n)%nat ->
  (filter (fun r => filter_passes v s p r = true) rows = [] /\
   exists st', forall r, filterIteratorNext (iter_next fuel (Some v) src) v p n st r s = NextDone st' s) \/
  (exists row st' rows', filter (fun r => filter_passes v s p r = true) rows = row :: filter (fun r => filter_passes v s p r = true) rows' /\
     (length rows' < length rows)%nat /\ yields_rows fuel src st' rows' /\
     forall r, filterIteratorNext (iter_next fuel (Some v) src) v p n st r s = NextRow row (StSource st') s).
Proof.
  intros Hy. revert n. induction Hy as [st st' Hd|st row st' rows Hr Hy IH]; intros n Hn.
  - left. split; [done|]. exists (StSource st'). intros r. destruct n as [|n]; [cbn in Hn; lia|]. cbn [filterIteratorNext]. by rewrite Hd.
  - cbn [length] in Hn. destruct n as [|n]; [lia|]. rewrite filter_cons. case_decide as E.
    + right. exists row, st', rows. split; [done|]. split; [cbn; lia|]. split; [done|]. intros r. cbn [filterIteratorNext]. by rewrite Hr, E.
    + assert (Hstep : forall r, filterIteratorNext (iter_next fuel (Some v) src) v p (S n) st r s = filterIteratorNext (iter_next fuel (Some v) src) v p n st' row s).
      { intros r. cbn [filterIteratorNext]. rewrite Hr. by destruct (filter_passes v s p row). }
      destruct (IH n ltac:(lia)) as [(Ef & st2 & H2)|(row2 & st2 & rows2 & Ef & Hl & Hy2 & H2)].
      * left. split; [done|]. exists st2. intros r. by rewrite Hstep.
      * right. exists row2, st2, rows2. split; [done|]. split; [cbn; lia|]. split; [done|]. intros r. by rewrite Hstep.
Qed.

Lemma yields_filter (fuel : nat) (src : CypherIterator) (p : PhysicalPlanNode) (st : iter_state) (rows : list CypherResult) :
  yields_rows fuel src st rows -> (length rows < fuel)%nat ->
  yields_rows fuel (FilterIterator p src) (StSource st) (filter (fun r => filter_passes v s p r = true) rows).
Proof.
  revert st. induction rows as [rows IH] using (well_founded_ind (Wf_nat.well_founded_ltof _ (@length CypherResult))). intros st Hy Hf.
  destruct (filter_next_yields fuel fuel src p st rows Hy Hf) as [(-> & st' & Hd)|(row & st' & rows' & -> & Hl & Hy' & Hr)].
  - eapply yields_done. intros r. apply Hd.
  - eapply yields_row; [intros r; apply Hr|]. apply IH; [done|done|]. lia.
Qed.

Lemma yields_projection (fuel : nat) (src : CypherIterator) (p : PhysicalPlanNode) (st : iter_state) (rows : list CypherResult) :
  yields_rows fuel src st rows -> yields_rows fuel (ProjectionIterator p src) (StSource st) rows.
Proof.
  induction 1 as [st st' Hd|st row st' rows Hr _ IH].
  - eapply yields_done. intros r. cbn [iter_next]. unfold projectionIteratorNext. by rewrite Hd.
  - eapply yields_row; [|exact IH]. intros r. cbn [iter_next]. unfold projectionIteratorNext. by rewrite Hr.
Qed.

(** The row of an expansion. *)
Definition expanded (p : PhysicalPlanNode) (cur : CypherResult) (e : Z * Z * text) : CypherResult :=
  cur ++ [(default (bstr "target") (pp_zAlias p), CYPHER_VALUE_NODE e.1.1);
          (default (bstr "r") (pp_zLabel p), CYPHER_VALUE_STRING (Some (rel_text e.1.2 e.2)))].

Lemma expand_row_ok (p : PhysicalPlanNode) (cur : CypherResult) (e : Z * Z * text) : expand_row p cur e = Ok (expanded p cur e).
Proof. destruct e as [[target id] type]. unfold expand_row, expanded, cypherResultAddColumn. cbn [cypherValueCopy res_bind fst snd]. by rewrite <- app_assoc. Qed.

Section Expand.
Context (fuel : nat) (src : CypherIterator) (p : PhysicalPlanNode) (es : CypherResult -> list (Z * Z * text)).

Definition expansion (row : CypherResult) : list CypherResult := expanded p row <$> es row.

(** Up to the next row of an edge. *)
Lemma expand_next_yields (n : nat) (st : iter_state) (rows : list CypherResult) :
  yields_rows fuel src st rows -> Forall (fun r => expand_statement v s p r = Ok (Some <$> es r)) rows -> (length rows < n)%nat ->
  (flat_map expansion rows = [] /\
   exists st', forall stmt cur, stmt ∈ [None; Some []] -> expandNext (iter_next fuel (Some v) src) v p n stmt cur false (Some st) s = NextDone st' s) \/
  (exists e l cur' st' rows', flat_map expansion rows = expanded p cur' e :: (expanded p cur' <$> l) ++ flat_map expansion rows' /\
     (length rows' < length rows)%nat /\ yields_rows fuel src st' rows' /\ Forall (fun r => expand_statement v s p r = Ok (Some <$> es r)) rows' /\
     forall stmt cur, stmt ∈ [None; Some []] -> expandNext (iter_next fuel (Some v) src) v p n stmt cur false (Some st) s =
       NextRow (expanded p cur' e) (StExpand (Some (Some <$> l)) cur' false (Some st')) s).
Proof.
  intros Hy. revert n. induction Hy as [st st' Hd|st row st' rows Hr Hy IH]; intros n Hes Hn.
  - left. split; [done|]. exists (StExpand None [] true (Some st')). intros stmt cur Hs. destruct n as [|n]; [cbn in Hn; lia|]. cbn [expandNext].
    rewrite Hd. rewrite !elem_of_cons, elem_of_nil in Hs. by destruct Hs as [->|[->|[]]].
  - cbn [length] in Hn. destruct n as [|n]; [lia|]. apply Forall_cons_1 in Hes as [He Hes].
    assert (Hstep : forall stmt cur, stmt ∈ [None; Some []] -> expandNext (iter_next fuel (Some v) src) v p (S n) stmt cur false (Some st) s =
      expandNext (iter_next fuel (Some v) src) v p n (Some (Some <$> es row)) row false (Some st') s).
    { intros stmt cur Hs. cbn [expandNext]. rewrite Hr, He. rewrite !elem_of_cons, elem_of_nil in Hs. by destruct Hs as [->|[->|[]]]. }
    cbn [flat_map]. unfold expansion at 1 3. destruct (es row) as [|e l] eqn:El.
    + destruct (IH n Hes ltac:(lia)) as [(Ef & st2 & H2)|(e & l & cur & st2 & rows2 & Ef & Hl & Hy2 & Hes2 & H2)].
      * left. split; [done|]. exists st2. intros stmt cur Hs. rewrite Hstep by done. apply H2. right. by left.
      * right. exists e, l, cur, st2, rows2. split; [done|]. split; [cbn; lia|]. split; [done|]. split; [done|].
        intros stmt cur' Hs. rewrite Hstep by done. apply H2. right. by left.
    + right. exists e, l, row, st', rows. split; [done|]. split; [cbn; lia|]. split; [done|]. split; [done|].
      intros stmt cur Hs. rewrite Hstep by done. destruct n as [|n]; [lia|]. cbn [expandNext fmap list_fmap]. by rewrite expand_row_ok.
Qed.

Lemma yields_expand (st : iter_state) (rows : list CypherResult) (stmt : option (list (option (Z * Z * text)))) (l : list (Z * Z * text)) (cur : CypherResult) :
  yields_rows fuel src st rows -> Forall (fun r => expand_statement v s p r = Ok (Some <$> es r)) rows -> (length rows < fuel)%nat ->
  stmt = Some (Some <$> l) \/ stmt = None /\ l = [] ->
  yields_rows fuel (ExpandIterator p (Some src)) (StExpand stmt cur false (Some st)) ((expanded p cur <$> l) ++ flat_map expansion rows).
Proof.
  revert st stmt l cur. induction rows as [rows IH] using (well_founded_ind (Wf_nat.well_founded_ltof _ (@length CypherResult))).
  intros st stmt l cur Hy Hes Hf. revert stmt. induction l as [|e l IHl]; intros stmt Hs.
  - assert (Hs' : stmt ∈ [None; Some []]) by (rewrite !elem_of_cons; naive_solver). cbn [fmap list_fmap app].
    destruct (expand_next_yields fuel st rows Hy Hes Hf) as [(-> & st' & Hd)|(e & l & cur' & st' & rows' & -> & Hl & Hy' & Hes' & Hr)].
    + eapply yields_done. intros r. cbn [iter_next]. by apply Hd.
    + eapply yields_row; [intros r; cbn [iter_next]; by apply Hr|]. apply IH; [done|done|done|lia|by left].
  - destruct Hs as [->|[_ Hs]]; [|done]. cbn [fmap list_fmap app]. eapply yields_row; [|apply IHl; by left].
    intros r. cbn [iter_next]. destruct fuel as [|n]; [lia|]. cbn [expandNext fmap list_fmap]. by rewrite expand_row_ok.
Qed.

End Expand.

Lemma execute_loop_yields (n fuel : nat) (it : CypherIterator) (st : iter_state) (rows acc : list CypherResult) :
  yields_rows fuel it st rows -> (length rows < n)%nat ->
  Z.of_nat (length acc) <= 10000 ->
  execute_loop n fuel (Some v) it st acc s =
    Some (if Z.of_nat (length acc + length rows) <=? 10000 then Ok (acc ++ rows) else Err SQLITE_ERROR, s).
Proof.
  intros Hy. revert n acc. induction Hy as [st st' Hd|st row st' rows Hr Hy IH]; intros n acc Hn Hacc; (destruct n as [|n]; [cbn in Hn; lia|]).
  - cbn [execute_loop length]. rewrite Hd, app_nil_r. by rewrite (proj2 (Z.leb_le _ _)) by lia.
  - cbn [execute_loop length] in *. rewrite Hr. destruct (Z.leb_spec 10000 (Z.of_nat (length acc))).
    + by rewrite (proj2 (Z.leb_gt _ _)) by lia.
    + rewrite IH by (rewrite ?length_app; cbn [length]; lia). rewrite length_app, <- app_assoc. cbn [length app].
      by replace (length acc + 1 + length rows)%nat with (length acc + S (length rows))%nat by lia.
Qed.

(** ** The operators of a plan *)

Lemma perase_fields (p : PhysicalPlanNode) (type : PhysicalOperatorType) (alias label prop val : option bytes) (cs : list PhysicalPlanNode)
    (extra : option tree) (flags : Z) : perase p = bare_physical type alias label prop val cs extra flags ->
  pp_type p = type /\ pp_zAlias p = alias /\ pp_zLabel p = label /\ pp_zProperty p = prop /\ pp_zValue p = val /\
  map perase (pp_children p) = cs /\ pp_pExecState p = extra /\ pp_iFlags p = flags.
Proof. destruct p. unfold bare_physical. cbn. intros [=]. done. Qed.

Lemma iterator_unfold (p : PhysicalPlanNode) : cypherIteratorCreate p =
  let source := match pp_children p with c :: _ => cypherIteratorCreate c | [] => None end in
  match pp_type p with
  | PHYSICAL_ALL_NODES_SCAN => Some (AllNodesScan p)
  | PHYSICAL_LABEL_INDEX_SCAN => Some (LabelIndexScan p)
  | PHYSICAL_PROPERTY_INDEX_SCAN => Some (PropertyIndexScan p)
  | PHYSICAL_FILTER =>
      match pp_pExecState p, pp_zProperty p, pp_zValue p with
      | Some _, _, _ | None, Some _, Some _ => FilterIterator p <$> source
      | _, _, _ => None
      end
  | PHYSICAL_PROJECTION => ProjectionIterator p <$> source
  | PHYSICAL_SORT => SortIterator p <$> source
  | PHYSICAL_LIMIT => if pp_nLimit p <=? 0 then None else LimitIterator p <$> source
  | PHYSICAL_CREATE | PHYSICAL_MERGE => Some (CreateIterator p)
  | PHYSICAL_EXPAND =>
      match pp_children p with
      | [] => Some (ExpandIterator p None)
      | _ => (fun i => ExpandIterator p (Some i)) <$> source
      end
  | _ => None
  end.
Proof. by destruct p. Qed.

Lemma runs_filter (p c : PhysicalPlanNode) (rows : list CypherResult) :
  pp_type p = PHYSICAL_FILTER -> is_Some (pp_pExecState p) -> pp_children p = [c] -> runs c rows ->
  runs p (filter (fun r => filter_passes v s p r = true) rows).
Proof.
  intros Ht [x Hx] Hc (it & Hi & Hit & N & Hopen). exists (FilterIterator p it).
  assert (E : cypherIteratorCreate p = Some (FilterIterator p it)) by (rewrite iterator_unfold; cbn zeta; by rewrite Ht, Hx, Hc, Hi).
  split; [done|]. split; [apply tree_of_children; [done|]; rewrite Hc; repeat constructor; eauto|].
  exists (N + S (length rows))%nat. intros fuel Hf. destruct (Hopen fuel ltac:(lia)) as (st & Ho & Hy). exists (StSource st).
  split; [cbn [iter_open]; by rewrite Ho|]. apply yields_filter; [done|lia].
Qed.

Lemma runs_projection (p c : PhysicalPlanNode) (rows : list CypherResult) :
  pp_type p = PHYSICAL_PROJECTION -> pp_children p = [c] -> runs c rows -> runs p rows.
Proof.
  intros Ht Hc (it & Hi & Hit & N & Hopen). exists (ProjectionIterator p it).
  assert (E : cypherIteratorCreate p = Some (ProjectionIterator p it)) by (rewrite iterator_unfold; cbn zeta; by rewrite Ht, Hc, Hi).
  split; [done|]. split; [apply tree_of_children; [done|]; rewrite Hc; repeat constructor; eauto|].
  exists N. intros fuel Hf. destruct (Hopen fuel Hf) as (st & Ho & Hy). exists (StSource st).
  split; [cbn [iter_open]; by rewrite Ho|]. by apply yields_projection.
Qed.

Lemma runs_expand (p c t : PhysicalPlanNode) (rows : list CypherResult) (es : CypherResult -> list (Z * Z * text)) :
  pp_type p = PHYSICAL_EXPAND -> pp_children p = [c; t] -> (exists i, createIteratorTree t = Ok i) -> runs c rows ->
  Forall (fun r => expand_statement v s p r = Ok (Some <$> es r)) rows -> runs p (flat_map (expansion p es) rows).
Proof.
  intros Ht Hc Htarget (it & Hi & Hit & N & Hopen) Hes. exists (ExpandIterator p (Some it)).
  assert (E : cypherIteratorCreate p = Some (ExpandIterator p (Some it))) by (rewrite iterator_unfold; cbn zeta; by rewrite Ht, Hc, Hi).
  split; [done|]. split; [apply tree_of_children; [done|]; rewrite Hc; repeat constructor; eauto|].
  exists (N + S (length rows))%nat. intros fuel Hf. destruct (Hopen fuel ltac:(lia)) as (st & Ho & Hy). exists (StExpand None [] false (Some st)).
  split; [cbn [iter_open]; by rewrite Ho|]. apply (yields_expand fuel it p es st rows None [] []); [done|done|lia|by right].
Qed.

(** ** The path *)

Context (nodes : gmap Z GraphNode) (edges : gmap Z GraphEdge).
Context (Hname : gv_zNodeTableName v = suffixed_nodes v) (Hnodes : gd_nodes s !! suffixed_nodes v = Some nodes)
  (Hedges : gd_edges s !! suffixed_edges v = Some edges)
  (Hjson : forall id n z l, nodes !! id = Some n -> gn_labels n = Some z -> json_has z l <> None).

Lemma runs_start (p : PhysicalPlanNode) (c : cnode) :
  perase p = start_physical c -> runs p ((fun x => [(node_name c, CYPHER_VALUE_NODE x)]) <$> starts nodes c).
Proof.
  intros (Ht & Ha & Hl & _ & _ & Hc & _ & _)%perase_fields. apply map_eq_nil in Hc. unfold node_name. rewrite <- Ha. unfold starts.
  destruct (cn_label c) as [l|].
  - assert (E : cypherIteratorCreate p = Some (LabelIndexScan p)) by (rewrite iterator_unfold; cbn zeta; by rewrite Ht).
    exists (LabelIndexScan p). split; [done|]. split; [apply tree_of_children; [done|]; by rewrite Hc|]. exists 0%nat. intros fuel _. eexists.
    split; [cbn [iter_open]; unfold labelIndexScanOpen; rewrite Hl, Hnodes; reflexivity|]. apply yields_scan. by right.
  - assert (E : cypherIteratorCreate p = Some (AllNodesScan p)) by (rewrite iterator_unfold; cbn zeta; by rewrite Ht).
    exists (AllNodesScan p). split; [done|]. split; [apply tree_of_children; [done|]; by rewrite Hc|]. exists 0%nat. intros fuel _. eexists.
    split; [cbn [iter_open]; unfold allNodesScanOpen; rewrite Hl, Hname, Hnodes; reflexivity|]. apply yields_scan. by left.
Qed.

Lemma target_created (p : PhysicalPlanNode) (c : cnode) : perase p = target_physical c -> exists i, createIteratorTree p = Ok i.
Proof.
  intros (Ht & _ & _ & _ & _ & Hc & _ & _)%perase_fields. apply map_eq_nil in Hc.
  assert (E : exists i, cypherIteratorCreate p = Some i).
  { rewrite iterator_unfold. cbn zeta. rewrite Ht. destruct (cn_label c) as [[|]|]; by eexists. }
  destruct E as [i E]. exists i. apply tree_of_children; [done|]. by rewrite Hc.
Qed.

(** The statement of an expansion has the edges that fit. *)
Lemma edge_rows_hops (from : Z) (r : crel) (c : cnode) : none_or_name (cr_type r) = true -> none_or_name (cn_label c) = true ->
  edge_rows nodes edges from (default [] (cr_type r)) (cn_label c) = Some <$> hops nodes edges from r c.
Proof.
  intros Ht Hl. unfold edge_rows, hops. rewrite <- list_fmap_compose.
  set (typed := fun e : GraphEdge => match default [] (cr_type r) with [] => true | _ => bool_decide (ge_edge_type e = Some (default [] (cr_type r))) end).
  assert (Htyped : forall e, match cr_type r with Some t => bool_decide (ge_edge_type e = Some t) | None => true end = typed e).
  { intros e. unfold typed. by destruct (cr_type r) as [[|]|]. }
  unfold fits. induction (scan edges) as [|[id e] l IH]; [by destruct (cn_label c) as [[|]|]|]. rewrite !filter_cons. cbn [snd fst].
  rewrite Htyped. destruct (cn_label c) as [[|x z]|]; [done| |].
  - destruct (decide (ge_source e = from)) as [Es|Es]; [rewrite (bool_decide_true _ Es)|rewrite (bool_decide_false _ Es)].
    2: {rewrite !decide_False by (cbn; intuition congruence). apply IH. }
    destruct (typed e) eqn:Et; unfold typed in Et; [|rewrite (decide_False (P := _ /\ _)) by (rewrite Et; by intros [_ ?]); rewrite decide_False by done; apply IH].
    rewrite Et. rewrite decide_True by done. cbn [flat_map snd fst andb].
    rewrite IH. destruct (nodes !! ge_target e) as [n|] eqn:En; [|by rewrite decide_False]. unfold has_label.
    destruct (gn_labels n) as [y|] eqn:Ey; [|by rewrite decide_False]. destruct (json_has y (x :: z)) as [b|] eqn:Ej; [|by destruct (Hjson _ _ _ _ En Ey Ej)].
    destruct b; [by rewrite decide_True|by rewrite decide_False].
  - destruct (decide (ge_source e = from)) as [Es|Es]; [rewrite (bool_decide_true _ Es)|rewrite (bool_decide_false _ Es)].
    2: { rewrite (decide_False (P := _ /\ _)) by (by intros [? _]). rewrite decide_False by done. apply IH. }
    destruct (typed e) eqn:Et; unfold typed in Et; [|rewrite (decide_False (P := _ /\ _)) by (rewrite Et; by intros [_ ?]); rewrite decide_False by done; apply IH].
    rewrite Et. rewrite !decide_True by done. cbn [fmap list_fmap]. f_equal. apply IH.
Qed.

(** The last node of a walk, and the walks with one step more. *)
Definition walk_end (x : Z) (es : list (Z * Z * text)) : Z := match last es with Some e => e.1.1 | None => x end.

Lemma walk_end_cons (x : Z) (e : Z * Z * text) (es : list (Z * Z * text)) : walk_end x (e :: es) = walk_end e.1.1 es.
Proof. unfold walk_end. rewrite last_cons. by destruct (last es). Qed.

Lemma flat_map_flat_map {A B C : Type} (f : B -> list C) (g : A -> list B) (l : list A) :
  flat_map f (flat_map g l) = flat_map (fun x => flat_map f (g x)) l.
Proof. induction l as [|x l IH]; [done|]. cbn. by rewrite flat_map_app, IH. Qed.

Lemma fmap_flat_map {A B C : Type} (f : B -> C) (g : A -> list B) (l : list A) : f <$> flat_map g l = flat_map (fun x => f <$> g x) l.
Proof. induction l as [|x l IH]; [done|]. cbn. by rewrite fmap_app, IH. Qed.

Lemma flat_map_fmap {A B C : Type} (f : B -> list C) (g : A -> B) (l : list A) : flat_map f (g <$> l) = flat_map (fun x => f (g x)) l.
Proof. induction l as [|x l IH]; [done|]. cbn. by rewrite IH. Qed.

Lemma walks_snoc (x : Z) (steps : list (crel * cnode)) (r : crel) (c : cnode) :
  walks nodes edges x (steps ++ [(r, c)]) =
  flat_map (fun es => (fun e => es ++ [e]) <$> hops nodes edges (walk_end x es) r c) (walks nodes edges x steps).
Proof.
  revert x. induction steps as [|[r' c'] steps IH]; intros x; cbn [app walks].
  - cbn [flat_map]. rewrite app_nil_r. change (walk_end x []) with x. induction (hops nodes edges x r c) as [|e l IH]; [done|]. cbn in *. by f_equal.
  - rewrite flat_map_flat_map. apply flat_map_ext. intros e. rewrite IH, fmap_flat_map, flat_map_fmap. apply flat_map_ext. intros es.
    rewrite walk_end_cons, <- list_fmap_compose. done.
Qed.

Lemma walks_length (x : Z) (steps : list (crel * cnode)) : Forall (fun es => length es = length steps) (walks nodes edges x steps).
Proof.
  revert x. induction steps as [|[r c] steps IH]; intros x; cbn [walks]; [by repeat constructor|]. apply list.Forall_forall. intros es Hes.
  apply list_elem_of_In, in_flat_map in Hes as (e & _ & Hes). apply list_elem_of_In, list_elem_of_fmap in Hes as (l & -> & Hl).
  cbn. f_equal. by apply (proj1 (list.Forall_forall _ _) (IH e.1.1)).
Qed.

Lemma walk_columns_snoc (steps : list (crel * cnode)) (r : crel) (c : cnode) (es : list (Z * Z * text)) (e : Z * Z * text) :
  length es = length steps ->
  walk_columns (steps ++ [(r, c)]) (es ++ [e]) =
  walk_columns steps es ++ [(node_name c, CYPHER_VALUE_NODE e.1.1); (rel_name r, CYPHER_VALUE_STRING (Some (rel_text e.1.2 e.2)))].
Proof.
  revert es. induction steps as [|[r' c'] steps IH]; intros [|[[t i] ty] es] Hl; cbn in Hl; try lia; [by destruct e as [[??]?]|].
  cbn [app walk_columns]. rewrite IH by lia. done.
Qed.

Lemma flat_map_ext_Forall {A B : Type} (f g : A -> list B) (l : list A) : Forall (fun x => f x = g x) l -> flat_map f l = flat_map g l.
Proof. induction 1 as [|x l Hx _ IH]; [done|]. cbn. by rewrite Hx, IH. Qed.

Lemma find_column_app (l l' : CypherResult) (z : bytes) : z ∉ l.*1 -> find_column (l ++ l') z = find_column l' z.
Proof.
  induction l as [|[x y] l IH]; [done|]. cbn [fmap list_fmap app]. intros [Hc Hz]%not_elem_of_cons. cbn in *. rewrite decide_False by congruence. by apply IH.
Qed.

Lemma walk_columns_names (steps : list (crel * cnode)) (es : list (Z * Z * text)) (z : bytes) :
  z ∈ (walk_columns steps es).*1 -> z ∈ node_name <$> steps.*2 \/ exists s, s ∈ steps /\ z = rel_name s.1.
Proof.
  revert es. induction steps as [|[r c] steps IH]; intros [|[[t i] ty] es]; cbn [walk_columns fmap list_fmap fst snd]; try (intros Hz; by apply not_elem_of_nil in Hz).
  rewrite !elem_of_cons. intros [->|[->|Hz]]; [left; by left|right; exists (r, c); split; [by left|done]|].
  destruct (IH es Hz) as [?|(s' & ? & ->)]; [left; by right|right; exists s'; split; [by right|done]].
Qed.

Definition last_node (p : cpattern) : cnode := match last (cp_steps p) with Some s => s.2 | None => cp_start p end.

(** Of a longer pattern, the path without its last step. *)
Lemma simple_prefix (c : cnode) (steps : list (crel * cnode)) (s' : crel * cnode) :
  simple_pattern (MkCPattern c (steps ++ [s'])) -> simple_pattern (MkCPattern c steps) /\ node_simple s'.2 = true /\ rel_simple s'.1 = true /\
  (node_name s'.2 ∉ node_name <$> (c :: steps.*2)) /\ (forall s, s ∈ steps -> node_name s'.2 <> rel_name s.1).
Proof.
  intros [Hn Hr Hd Ha Hl]. unfold pattern_nodes in *. cbn [cp_start cp_steps] in *. rewrite fmap_app in *. cbn [fmap list_fmap] in *.
  rewrite length_app in Hl. cbn [length] in Hl. rewrite app_comm_cons in *. apply Forall_app in Hn as [Hn Hn'], Hr as [Hr Hr'].
  change (NoDup (node_name <$> (c :: steps.*2) ++ [s'.2])) in Hd. rewrite fmap_app in Hd. apply list.NoDup_app in Hd as (Hd & Hdd & _). apply Forall_cons_1 in Hn' as [Hn' _], Hr' as [Hr' _].
  split; [split; unfold pattern_nodes; cbn [cp_start cp_steps]; try done|].
  - intros x y Hx Hy. apply Ha; apply elem_of_app; by left.
  - lia.
  - split; [done|]. split; [done|]. split.
    + intros Hin. apply (Hdd _ Hin). by left.
    + intros y Hy. apply Ha; apply elem_of_app; [right; by left|by left].
Qed.

Lemma find_last (p : cpattern) (x : Z) (es : list (Z * Z * text)) : simple_pattern p -> length es = length (cp_steps p) ->
  find_column (walk_row p x es) (node_name (last_node p)) = Some (CYPHER_VALUE_NODE (walk_end x es)).
Proof.
  destruct p as [c steps]. unfold last_node, walk_row. cbn [cp_start cp_steps]. intros Hp.
  destruct steps as [|[r d] steps _] using rev_ind; intros Hl.
  - destruct es; [|done]. unfold find_column. cbn. by rewrite decide_True.
  - rewrite length_app in Hl. cbn [length] in Hl. destruct es as [|e es _] using rev_ind; [cbn in Hl; lia|]. rewrite length_app in Hl. cbn [length] in Hl.
    apply simple_prefix in Hp as (_ & _ & _ & Hd & Ha). rewrite last_snoc. rewrite walk_columns_snoc by lia. cbn [fst snd] in *.
    rewrite app_comm_cons, find_column_app.
    + unfold find_column, walk_end. rewrite last_snoc. cbn. by rewrite decide_True.
    + cbn [fmap list_fmap fst] in *. rewrite elem_of_cons. intros [E|E]; [apply Hd; rewrite E; by left|].
      apply walk_columns_names in E as [E|(y & Hy & E)]; [apply Hd; by right|by eapply Ha].
Qed.

Lemma simple_last_var (p : cpattern) : simple_pattern p -> is_Some (cn_var (last_node p)) /\ pp_zAlias (pattern_physical p) = cn_var (last_node p).
Proof.
  intros [Hn _ _ _ _]. unfold last_node, pattern_physical, pattern_nodes in *. destruct p as [c steps]. cbn [cp_start cp_steps] in *.
  destruct steps as [|[r d] steps _] using rev_ind.
  - apply Forall_cons_1 in Hn as [Hn _]. unfold node_simple in Hn. split; [|done]. cbn. apply andb_true_iff in Hn as [[Hn _]%andb_true_iff _].
    by apply bool_decide_eq_true in Hn.
  - rewrite last_snoc, foldl_snoc. split; [|done]. rewrite fmap_app in Hn. cbn [fmap list_fmap] in Hn. rewrite app_comm_cons in Hn.
    apply Forall_app in Hn as [_ Hn]. apply Forall_cons_1 in Hn as [Hn _]. unfold node_simple in Hn. cbn [snd].
    apply andb_true_iff in Hn as [[Hn _]%andb_true_iff _]. by apply bool_decide_eq_true in Hn.
Qed.

Lemma node_simple_iff (c : cnode) : node_simple c = true <-> is_Some (cn_var c) /\ none_or_name (cn_label c) = true /\ cn_props c = None.
Proof. unfold node_simple. rewrite !andb_true_iff, !bool_decide_eq_true. tauto. Qed.

(** The rows of a path with one step more. *)
Lemma matches_snoc (p : PhysicalPlanNode) (c : cnode) (steps : list (crel * cnode)) (r : crel) (d : cnode) (es : CypherResult -> list (Z * Z * text)) :
  pp_zAlias p = cn_var d -> is_Some (cn_var d) -> pp_zLabel p = cr_var r ->
  (forall x l, length l = length steps -> es (walk_row (MkCPattern c steps) x l) = hops nodes edges (walk_end x l) r d) ->
  flat_map (expansion p es) (matches nodes edges (MkCPattern c steps)) = matches nodes edges (MkCPattern c (steps ++ [(r, d)])).
Proof.
  intros Ha [z Hz] Hl Hes. unfold matches. cbn [cp_start cp_steps]. rewrite flat_map_flat_map. apply flat_map_ext. intros x.
  rewrite walks_snoc, fmap_flat_map, flat_map_fmap. apply flat_map_ext_Forall.
  eapply list.Forall_impl; [apply walks_length|]. intros l Hlen. cbn beta. unfold expansion. rewrite (Hes x l Hlen), <- list_fmap_compose.
  apply list_fmap_ext. intros _ e _. unfold expanded, walk_row. cbn [compose cp_start cp_steps]. rewrite walk_columns_snoc by done.
  rewrite Ha, Hl, Hz. unfold node_name at 3. by rewrite Hz.
Qed.

Lemma matches_rows (p : cpattern) (row : CypherResult) : row ∈ matches nodes edges p ->
  exists x l, row = walk_row p x l /\ length l = length (cp_steps p).
Proof.
  unfold matches. intros Hr. apply list_elem_of_In, in_flat_map in Hr as (x & _ & Hr). apply list_elem_of_In, list_elem_of_fmap in Hr as (l & -> & Hl).
  exists x, l. split; [done|]. by apply (proj1 (list.Forall_forall _ _) (walks_length x (cp_steps p))).
Qed.

Lemma runs_pattern (p : cpattern) (pp : PhysicalPlanNode) :
  simple_pattern p -> perase pp = pattern_physical p -> runs pp (matches nodes edges p).
Proof.
  destruct p as [c steps]. revert pp. induction steps as [|[r d] steps IH] using rev_ind; intros pp Hp E.
  - unfold matches. cbn [cp_start cp_steps walks]. replace (flat_map _ _) with ((fun x => [(node_name c, CYPHER_VALUE_NODE x)]) <$> starts nodes c); [by apply runs_start|].
    induction (starts nodes c) as [|x l IH]; [done|]. cbn in *. by f_equal.
  - pose proof (simple_prefix c steps (r, d) Hp) as (Hq & Hd & Hr & _ & _). cbn [fst snd] in *. apply node_simple_iff in Hd as (Hv & Hlabel & _).
    unfold rel_simple in Hr. apply andb_true_iff in Hr as [[Htype _]%andb_true_iff _].
    unfold pattern_physical in E. cbn [cp_start cp_steps] in E. rewrite foldl_snoc in E.
    change (foldl step_physical (start_physical c) steps) with (pattern_physical (MkCPattern c steps)) in E. set (q := MkCPattern c steps) in *.
    apply perase_fields in E as (Et & Ea & El & Ep & _ & Ec & _ & _). cbn [fst snd] in *.
    destruct (pp_children pp) as [|src [|tgt [|]]] eqn:Echildren; try done. cbn [map] in Ec. injection Ec as Esrc Etgt.
    destruct (simple_last_var q Hq) as [Hlast Halias].
    assert (Hsrc : pp_zAlias src = cn_var (last_node q)) by (rewrite <- Halias, <- Esrc; by destruct src).
    assert (Htgt : pp_zLabel tgt = cn_label d) by (by apply perase_fields in Etgt as (_ & _ & ? & _)).
    set (es := fun row => match find_column row (node_name (last_node q)) with Some (CYPHER_VALUE_NODE id) => hops nodes edges id r d | _ => [] end).
    rewrite <- (matches_snoc pp c steps r d es); [|done|done|done|intros x l Hl; unfold es; fold q; by rewrite (find_last q x l Hq Hl)].
    apply (runs_expand pp src tgt); [done|done|by eapply target_created|by apply IH|].
    apply list.Forall_forall. intros row (x & l & -> & Hl)%matches_rows. fold q. unfold expand_statement, es. rewrite Echildren, Hsrc.
    change (default (bstr "node") (cn_var (last_node q))) with (node_name (last_node q)). rewrite (find_last q x l Hq Hl).
    rewrite Hedges, Hnodes, Ep, Htgt. by rewrite edge_rows_hops.
Qed.

(** ** The condition *)

Lemma comparison_meets (o : cmp_op) (x y : bytes) : Forall (fun c => 0 < c) x -> Forall (fun c => 0 < c) y ->
  comparison_passes (op_flag o) x y = meets o x y.
Proof.
  intros Hx Hy. assert (E : (strcmp x y =? 0) = bool_decide (x = y)).
  { apply eq_true_iff_eq. rewrite Z.eqb_eq, bool_decide_eq_true. split; [intros ?; by apply strcmp_eq|intros ->; apply strcmp_refl]. }
  destruct o; unfold comparison_passes; cbn; rewrite ?E; try done. by rewrite bool_decide_not.
Qed.

Lemma filter_meets (p : PhysicalPlanNode) (q : PhysicalPlanNode) (w : condition) (next : bytes) (row : CypherResult) :
  perase p = filter_physical w next q -> Forall (fun c => 0 < c) (w_lit w).2 -> filter_passes v s p row = row_meets nodes w row.
Proof.
  intros (_ & Ha & _ & Hp & Hv & _ & _ & Hf)%perase_fields Hpos. unfold filter_passes, row_meets. rewrite Ha, Hp, Hv, Hf.
  destruct (find_column row (w_var w)) as [[]|]; try done. unfold cypherValueGetProperty. rewrite Hname, Hnodes. cbn [mbind option_bind].
  match goal with |- match ?x with _ => _ end = match ?y with _ => _ end => change y with x; destruct x as [z|] eqn:E end; [|done].
  apply comparison_meets; [|done]. cbn in E. destruct (nodes !! iNodeId) as [n|]; [|done]. cbn in E. destruct (gn_properties n) as [y|]; [|done].
  by eapply json_text_string.
Qed.

Lemma runs_match (p : cpattern) (w : option condition) (r : option cexpr) (pp : PhysicalPlanNode) :
  simple_pattern p -> (forall c, w = Some c -> Forall (fun x => 0 < x) (w_lit c).2) -> match_physical p w r (perase pp) ->
  runs pp (answers nodes edges p w).
Proof.
  intros Hp Hw Hm. remember (perase pp) as q eqn:Eq. revert pp Eq. induction Hm as [|c next|w e alias prop q Hm IH]; intros pp Eq.
  - by apply runs_pattern.
  - symmetry in Eq. pose proof Eq as Eq'. apply perase_fields in Eq' as (Ht & _ & _ & _ & _ & Hc & Hx & _).
    destruct (pp_children pp) as [|src [|]] eqn:Ec; try done. injection Hc as Hc. cbn [answers].
    replace (filter _ (matches nodes edges p)) with (filter (fun r => filter_passes v s pp r = true) (matches nodes edges p)).
    + eapply runs_filter; [done|by rewrite Hx|done|by apply runs_pattern].
    + apply list_filter_iff. intros row. by rewrite (filter_meets pp _ c next row Eq (Hw c eq_refl)).
  - symmetry in Eq. apply perase_fields in Eq as (Ht & _ & _ & _ & _ & Hc & _ & _). destruct (pp_children pp) as [|src [|]] eqn:Ec; try done.
    injection Hc as Hc. eapply runs_projection; [done|done|]. by apply IH.
Qed.

Lemma runs_executed (pp : PhysicalPlanNode) (rows : list CypherResult) : runs pp rows ->
  exists it, createIteratorTree pp = Ok it /\ exists N, forall fuel, (N <= fuel)%nat ->
    cypherExecutorExecute fuel (Some v) it s = Some (if Z.of_nat (length rows) <=? 10000 then Ok rows else Err SQLITE_ERROR, s).
Proof.
  intros (it & _ & Ht & N & Hopen). exists it. split; [done|]. exists (N + S (length rows))%nat. intros fuel Hf.
  destruct (Hopen fuel ltac:(lia)) as (st & Ho & Hy). unfold cypherExecutorExecute. rewrite Ho.
  rewrite (execute_loop_yields fuel fuel it st rows [] Hy) by (cbn; lia). done.
Qed.

End Execution.

(** ** The queries as texts *)

Lemma forallb_concat {A : Type} (f : A -> bool) (l : list (list A)) : forallb f (concat l) = forallb (forallb f) l.
Proof. induction l as [|x l IH]; [done|]. cbn. by rewrite forallb_app, IH. Qed.

Lemma simple_wf (p : cpattern) : simple_pattern p -> pattern_wf p = true /\ plain (pattern_tree p) = true.
Proof.
  intros [Hn Hr _ _ _]. destruct p as [c steps]. unfold pattern_wf, pattern_nodes in *. cbn [cp_start cp_steps] in *.
  apply Forall_cons_1 in Hn as [Hc Hn]. rewrite Forall_fmap in Hn.
  assert (Hnode : forall d, node_simple d = true -> props_wf (cn_props d) = true /\ plain (node_tree d) = true).
  { intros d (_ & _ & E)%node_simple_iff. unfold node_tree. rewrite E. split; [done|]. by destruct (cn_var d), (cn_label d). }
  assert (Hrel : forall d, rel_simple d = true -> props_wf (cr_props d) = true /\ plain (rel_tree d) = true).
  { intros d. unfold rel_simple. rewrite !andb_true_iff, !bool_decide_eq_true. intros [[_ E] _]. unfold rel_tree. rewrite E. split; [done|].
    by destruct (cr_var d), (cr_type d). }
  assert (Hsteps : forall x, x ∈ steps -> node_simple x.2 = true /\ rel_simple x.1 = true).
  { intros x Hx. split; [exact (proj1 (list.Forall_forall _ _) Hn x Hx)|exact (proj1 (list.Forall_forall _ _) Hr x Hx)]. }
  split.
  - apply andb_true_iff. split; [by apply Hnode|]. apply forallb_forall. intros x Hx. apply list_elem_of_In, Hsteps in Hx as [Hx1 Hx2].
    apply andb_true_iff. split; [by apply Hrel|by apply Hnode].
  - unfold pattern_tree. cbn [plain shared_type cp_start cp_steps forallb]. rewrite (proj2 (Hnode c Hc)), forallb_concat. apply forallb_forall.
    intros l Hl. apply list_elem_of_In, list_elem_of_fmap in Hl as (x & -> & Hx). apply Hsteps in Hx as [Hx1 Hx2]. cbn [forallb].
    by rewrite (proj2 (Hrel _ Hx2)), (proj2 (Hnode _ Hx1)).
Qed.

Lemma match_query_wf (p : cpattern) (w : option condition) (r : option cexpr) :
  simple_pattern p -> (forall c, w = Some c -> type_is literal_types (w_lit c).1 = true) ->
  (forall e, r = Some e -> wf e = true /\ plain (ast_of e []) = true) ->
  query_wf (match_query p w r) = true /\ plain (query_tree (match_query p w r)) = true.
Proof.
  intros [Hp1 Hp2]%simple_wf Hw Hr. unfold query_wf, query_tree. cbn [match_query cq_clause cq_where cq_return clause_wf clause_tree]. rewrite Hp1.
  assert (Hw1 : option_wf (where_expr <$> w) = true).
  { destruct w as [[x prop op lit]|]; [|done]. specialize (Hw _ eq_refl). cbn in Hw. cbn. rewrite Hw. by destruct op. }
  assert (Hr1 : option_wf r = true) by (destruct r as [e|]; [by apply (Hr e)|done]). rewrite Hw1, Hr1. split; [done|].
  cbn [plain forallb]. rewrite Hp2. generalize (current (print_return r)).2. intros next. rewrite forallb_app.
  assert (Hw2 : forallb plain (where_trees (where_expr <$> w) next) = true) by (destruct w as [[x prop op lit]|]; [by destruct op|done]).
  assert (Hr2 : forallb plain (return_trees r) = true).
  { destruct r as [e|]; [|done]. cbn [return_trees forallb plain]. by rewrite (proj2 (Hr e eq_refl)). }
  rewrite Hw2, Hr2. done.
Qed.

(** C6: A MATCH returns its rows, whatever RETURN says.  Take a text without
    comments of a query [MATCH path WHERE x.prop OP literal RETURN e] (WHERE and
    RETURN may be missing; no blanks are needed where tokens do not run together
    or at the end) whose path has at most 21 steps, nodes with names of their
    own and without properties, arrows to the right, labels and types.
    [cypher_execute] parses, plans and executes it, terminates and leaves the
    database as it is; its result is the JSON text of the walks in the graph that
    fit the pattern, in the order of the scans, that meet the condition, each
    with the columns of all nodes and relationships of the path.  A label is
    looked up exactly, except that of the first node, for which LIKE is used
    ([label_like]), without regard to case ([cypher_label_case]).  RETURN is
    parsed and then ignored, which is what it asks for only if it names the node
    of a path without steps.  With more than 10000 rows it is an error.
    The condition that is executed compares texts for equality and what [atoi]
    reads of them for order; these are the rows that the documentation promises -
    numbers by value, strings in lexicographic order - if a string literal is
    compared with = or <>, or an integer literal in the range of an [int] with
    values that are such integers ([cypher_string_order] is a query where they
    are not). *)
Theorem cypher_match_correct `{CypherSql} `{ScanOrder} `{GraphSql} (fmt_6g : f64 -> bytes) (v : GraphVtab) (s : gdb)
    (nodes : gmap Z GraphNode) (edges : gmap Z GraphEdge) (p : cpattern) (w : option condition) (r : option cexpr)
    (w0 : bytes) (ls : list (lexeme * bytes)) :
  simple_pattern p ->
  (forall c, w = Some c -> type_is literal_types (w_lit c).1 = true /\ Forall (fun x => 0 < x) (w_lit c).2) ->
  (forall e, r = Some e -> wf e = true /\ plain (ast_of e []) = true) ->
  writes ls (match_query p w r) -> Forall (fun c => c_isspace c = true) w0 ->
  gv_zNodeTableName v = suffixed_nodes v -> gd_nodes s !! suffixed_nodes v = Some nodes -> gd_edges s !! suffixed_edges v = Some edges ->
  (forall id n z l, nodes !! id = Some n -> gn_labels n = Some z -> json_has z l <> None) ->
  let rows := answers nodes edges p w in
  (exists N, forall fuel, (N <= fuel)%nat ->
    cypherExecuteSqlFunc fuel fmt_6g (Some v) (w0 ++ text_of ls) s =
    Some (if Z.of_nat (length rows) <=? 10000 then Ok (results_json fmt_6g rows) else Err SQLITE_ERROR, s)) /\
  ((forall c, w = Some c -> comparable_values nodes c) -> rows = meant_answers nodes edges p w) /\
  (cp_steps p = [] -> r = Some (EName (node_name (cp_start p))) -> returned r <$> rows = rows).
Proof.
  intros Hp Hw Hr Hls Hw0 Hname Hnodes Hedges Hjson rows. split; [|split; [by apply answers_meant|intros ? ->; by apply returned_node]].
  destruct (match_query_wf p w r Hp) as [Hwf Hplain]; [intros c Hc; by apply Hw|done|].
  destruct (writes_feeds ls _ w0 Hls Hw0) as [Hf Hlen]. destruct (fed_query_parsed _ _ Hwf Hf Hlen) as (pAst & Hparse & Hshape & Hfrees).
  destruct (plan_match p w r) as (pp & Hplan & Hm).
  { destruct Hp as [Hn _ _ _ _]. apply Forall_cons_1 in Hn as [Hc _]. by apply node_simple_iff in Hc as [Hc _]. }
  { by destruct Hp. }
  destruct (runs_executed v s pp rows) as (it & Hit & N & Hrun); [apply (runs_match v s nodes edges Hname Hnodes Hedges Hjson p w r pp); [done|by intros c Hc; apply Hw|done]|].
  exists N. intros fuel Hfuel. unfold cypherExecuteSqlFunc. rewrite Hparse. cbn [fst]. rewrite Hshape, Hplan. cbn [res_bind]. rewrite Hit, (Hrun fuel Hfuel).
  rewrite Hplain in Hfrees. destruct (Z.leb_spec (Z.of_nat (length rows)) 10000); by rewrite decide_True by (by apply Hfrees).
Qed.

(** ** A concrete graph *)

(** A pattern of LIKE: [%] and [_]; letters in either case. *)
Fixpoint demo_like (p x : bytes) : bool :=
  match p with
  | [] => bool_decide (x = [])
  | c :: p =>
      if c =? 37 then (fix any (x : bytes) : bool := demo_like p x || match x with [] => false | _ :: x => any x end) x
      else match x with
           | d :: x => ((c =? 95) || (Z.land c 223 =? Z.land d 223)) && demo_like p x
           | [] => false
           end
  end.

(** Objects with one member and arrays with one string. *)
Definition demo_member (z x : bytes) : option bytes :=
  let key := [123; 34] ++ x ++ [34; 58] in
  if bool_decide (take (length key) z = key) then
    let y := filter (fun c => 0 < c /\ c <> 34 /\ c <> 125) (drop (length key) z) in Some y
  else None.

#[local] Instance demo_cypher_sql : CypherSql.
Proof.
  refine {|
    sql_like := fun x p => demo_like p x;
    json_has := fun z x => Some (bool_decide (z = [91; 34] ++ x ++ [34; 93]));
    json_array_has := fun z x => Some (bool_decide (z = [91; 34] ++ x ++ [34; 93]));
    json_text := demo_member;
    json_equal := fun z x y => Some (bool_decide (demo_member z x = Some y))
  |}.
  abstract (intros z x y; unfold demo_member; case_match; [|done]; intros [= <-]; apply list.Forall_forall; intros c Hc; apply list_elem_of_filter in Hc; tauto).
Defined.

#[local] Existing Instance demo_sql.
#[local] Existing Instance demo_order.

Definition person (label age : string) : GraphNode :=
  MkGNode (Some ([91; 34] ++ bstr label ++ [34; 93])) (Some ([123; 34] ++ bstr "age" ++ [34; 58] ++ bstr age ++ [125])).
Definition link (a b : Z) (type : string) : GraphEdge := MkGEdge a b (Some (bstr type)) None None.

Definition cypher_nodes : gmap Z GraphNode :=
  list_to_map [(1, person "P" "40"); (2, person "P" "20"); (3, person "Q" "35"); (4, person "Q" "9")].
Definition cypher_edges : gmap Z GraphEdge :=
  list_to_map [(1, link 1 2 "T"); (2, link 2 3 "T"); (3, link 2 4 "T"); (4, link 1 3 "U"); (5, link 2 1 "T")].
Definition cypher_vtab : GraphVtab := MkGVtab (bstr "g") (bstr "g_nodes") (bstr "g_edges").
Definition cypher_db : gdb := MkGdb {[ bstr "g_nodes" := cypher_nodes ]} {[ bstr "g_edges" := cypher_edges ]}.

Definition cnode_of (x : string) (l : option string) : cnode := MkCNode (Some (bstr x)) (bstr <$> l) None.

(** [(a:P)-[r:T]->(b)-[:T]->(c:Q)], [a.age > 30] *)
Definition demo_path : cpattern :=
  MkCPattern (cnode_of "a" (Some "P"%string))
    [(MkCRel (Some (bstr "r")) (Some (bstr "T")) None DRight, cnode_of "b" None);
     (MkCRel None (Some (bstr "T")) None DRight, cnode_of "c" (Some "Q"%string))].
Definition demo_condition : condition := MkCondition (bstr "a") (bstr "age") OpGt (CYPHER_TOK_INTEGER, bstr "30").
Definition demo_match : cquery := match_query demo_path (Some demo_condition) (Some (EName (bstr "c"))).

(** The tokens as they are usually written: a blank after the keywords and in
    front of them, and around a comparison. *)
Definition word_token (t : tok) : bool := match t.1 with CYPHER_TOK_WHERE | CYPHER_TOK_RETURN | CYPHER_TOK_GT => true | _ => false end.
Fixpoint spaced (ts : list tok) : list (lexeme * bytes) :=
  match ts with
  | [] => []
  | t :: ts =>
      (lexeme_of t, if match t.1 with CYPHER_TOK_MATCH | CYPHER_TOK_CREATE => true | _ => false end || word_token t ||
                       match ts with t' :: _ => word_token t' | [] => false end then [32] else []) :: spaced ts
  end.

Definition no_float (_ : f64) : bytes := [].

(** The nodes of [demo_path]: ids of [a], [b], [c]. *)
Definition row_nodes (r : CypherResult) : list Z := omap (fun c : bytes * CypherValue => match c.2 with CYPHER_VALUE_NODE i => Some i | _ => None end) r.

Lemma demo_path_simple : simple_pattern demo_path.
Proof.
  split; try by_compute. intros c x Hc Hx.
  apply (proj1 (list.Forall_forall (fun c => Forall (fun x : crel * cnode => node_name c <> rel_name x.1) (cp_steps demo_path)) (pattern_nodes demo_path))) with (x := c) in Hc;
    [by apply (proj1 (list.Forall_forall _ _) Hc)|]. by_compute.
Qed.

Definition int_numberb (x : bytes) : bool := match number_of x with Some i => (- 2 ^ 31 <=? i) && (i <? 2 ^ 31) | None => false end.

Lemma int_numberb_sound (x : bytes) : int_numberb x = true -> int_number x.
Proof.
  unfold int_numberb, number_of. destruct (decide _) as [E|]; [|done]. intros Hi. eexists. split; [exact E|]. unfold in_i32. lia.
Qed.

Lemma demo_values : comparable_values cypher_nodes demo_condition.
Proof.
  intros id n z x Hn Hz Hx. split; apply int_numberb_sound; [|reflexivity].
  assert (Hall : forallb (fun p : Z * GraphNode => match z ← gn_properties p.2; demo_member z (bstr "age") with Some x => int_numberb x | None => true end)
    (map_to_list cypher_nodes) = true) by (vm_compute; reflexivity).
  rewrite forallb_forall in Hall. specialize (Hall (id, n)). cbn [snd] in Hall. rewrite Hz in Hall. cbn in Hall.
  change (demo_member z (bstr "age") = Some x) in Hx. cbn in Hx. rewrite Hx in Hall. apply Hall, list_elem_of_In. by apply elem_of_map_to_list.
Qed.

Lemma cypher_match_correct_witness :
  let rows := answers cypher_nodes cypher_edges demo_path (Some demo_condition) in
  let text := bstr "MATCH (a:P)-[r:T]->(b)-[:T]->(c:Q) WHERE a.age > 30 RETURN c" in
  row_nodes <$> rows = [[1; 2; 4]; [1; 2; 3]] /\ rows = meant_answers cypher_nodes cypher_edges demo_path (Some demo_condition) /\
  exists N, forall fuel, (N <= fuel)%nat ->
    cypherExecuteSqlFunc fuel no_float (Some cypher_vtab) text cypher_db = Some (Ok (results_json no_float rows), cypher_db).
Proof.
  split; [vm_compute; reflexivity|].
  assert (Hlen : (Z.of_nat (length (answers cypher_nodes cypher_edges demo_path (Some demo_condition))) <=? 10000) = true) by (vm_compute; reflexivity).
  edestruct (cypher_match_correct no_float cypher_vtab cypher_db cypher_nodes cypher_edges demo_path (Some demo_condition) (Some (EName (bstr "c")))
    [] (spaced (print_query demo_match))) as ([N HN] & Hmeant & _); cycle -1.
  { split; [apply Hmeant; intros c [= <-]; exact demo_values|]. exists N. intros fuel Hf. rewrite Hlen in HN. exact (HN fuel Hf). }
  - apply demo_path_simple.
  - intros c [= <-]. split; [done|by_compute].
  - intros e [= <-]. done.
  - split; vm_compute; reflexivity.
  - constructor.
  - reflexivity.
  - vm_compute. reflexivity.
  - vm_compute. reflexivity.
  - discriminate.
Defined.
