(* ===== verification/CypherCreate.v ===== *)
(** * What CREATE does to the graph

    [CREATE path] adds the nodes of the path with their labels and properties,
    and an edge between consecutive nodes for each relationship; nothing else
    changes.  Then the queries for which the executor does something else than
    they say. *)

From Stdlib Require Import String Ascii ZArith Lia Floats.SpecFloat.
From stdpp Require Import base option list numbers gmap.
From S2P Require Import Prelude Float32 Codec Shadow DefParser Values Scalar Graph CypherLexer CypherParser CypherParseSpec CypherExpr CypherQuery CypherPlan CypherPlanSpec CypherRows CypherExec CypherRun.

Local Open Scope Z_scope.

(** ** Reference semantics *)

Definition words : list bytes := [bstr "true"; bstr "false"; bstr "null"].

Definition is_digit_code (c : Z) : bool := (48 <=? c) && (c <=? 57).

(** What is written for a literal: it is taken for a number or a word if it
    looks like one, whatever its type, and put between quotes as it is else. *)
Definition looks_numeric (z : bytes) : bool :=
  match z with c :: _ => is_digit_code c || (c =? 45) | [] => false end || bool_decide (z ∈ words).
Definition literal_stored (t : tok) : bytes := if looks_numeric t.2 then t.2 else [34] ++ t.2 ++ [34].

(** The JSON text of a literal, for those that have one without escapes: an
    integer or a decimal number without superfluous zeros in front, a string of
    printable characters without quotes and backslashes that does not look like
    a number or a word, and the words themselves. *)
Definition plain_float (z : bytes) : bool :=
  match list_find (fun c => c = 46) z with
  | Some (i, _) => bool_decide (is_Some (number_of (take i z))) && forallb is_digit_code (drop (S i) z) && negb (bool_decide (drop (S i) z = []))
  | None => false
  end.
Definition literal_plain (t : tok) : bool :=
  match t.1 with
  | CYPHER_TOK_INTEGER => bool_decide (is_Some (number_of t.2))
  | CYPHER_TOK_FLOAT => plain_float t.2
  | CYPHER_TOK_STRING => forallb (fun c => (32 <=? c) && negb (c =? 34) && negb (c =? 92)) t.2 && negb (looks_numeric t.2)
  | CYPHER_TOK_BOOLEAN | CYPHER_TOK_NULL => bool_decide (t.2 ∈ words)
  | _ => false
  end.
Definition literal_json (t : tok) : bytes := match t.1 with CYPHER_TOK_STRING => [34] ++ t.2 ++ [34] | _ => t.2 end.

(** Properties that are literals with [ok]. *)
Definition props_with (ok : tok -> bool) (p : option cprops) : bool :=
  match p with
  | Some kvs => forallb (fun kv => match kv.2 with ELit t => ok t | _ => false end) kvs
  | None => true
  end.
Definition is_literal (t : tok) : bool := type_is literal_types t.1.

Section Records.
Context (lit : tok -> bytes).

Definition member_json (kv : bytes * cexpr) : bytes :=
  [34] ++ kv.1 ++ [34; 58] ++ match kv.2 with ELit t => lit t | _ => [] end.

Definition props_json (p : option cprops) : bytes := [123] ++ comma_separated (map member_json (default [] p)) ++ [125].

Definition node_record (c : cnode) : GraphNode :=
  MkGNode (Some match cn_label c with Some l => [91; 34] ++ l ++ [34; 93] | None => bstr "[]" end) (Some (props_json (cn_props c))).

Definition edge_record (ends : Z * Z) (r : crel) : GraphEdge :=
  MkGEdge ends.1 ends.2 (Some (default [] (cr_type r))) None (Some (props_json (cr_props r))).

(** The edges between consecutive nodes. *)
Definition path_edges_of (ids : list Z) (rels : list crel) : list GraphEdge := zip_with edge_record (zip ids (tail ids)) rels.

(** New rows, with ids that were free. *)
Definition adds_rows {A : Type} (t t' : gmap Z A) (ids : list Z) (l : list A) : Prop :=
  length ids = length l /\ NoDup ids /\ (forall i, i ∈ ids -> t !! i = None) /\ t' = list_to_map (zip ids l) ∪ t.

(** The path, with new nodes [ids]. *)
Definition adds_path (p : cpattern) (nodes nodes' : gmap Z GraphNode) (edges edges' : gmap Z GraphEdge) (ids : list Z) : Prop :=
  adds_rows nodes nodes' ids (node_record <$> pattern_nodes p) /\
  exists eids, adds_rows edges edges' eids (path_edges_of ids (cp_steps p).*1).

End Records.

(** Properties are literals, arrows point to the right; at most ten nodes. *)
Record creatable (p : cpattern) : Prop := {
  cr_nodes : Forall (fun c => props_with is_literal (cn_props c) = true) (pattern_nodes p);
  cr_rels : Forall (fun s : crel * cnode => props_with is_literal (cr_props s.1) = true /\ dir_flag (cr_dir s.1) = 1) (cp_steps p);
  cr_length : (length (cp_steps p) <= 9)%nat
}.

(** All properties have a JSON text without escapes. *)
Definition path_plain (p : cpattern) : bool :=
  forallb (fun c => props_with literal_plain (cn_props c)) (pattern_nodes p) &&
  forallb (fun s : crel * cnode => props_with literal_plain (cr_props s.1)) (cp_steps p).

(** ** Properties as JSON *)

Lemma comma_separated_cons (x y : bytes) (l : list bytes) : comma_separated (x :: y :: l) = x ++ [44] ++ comma_separated (y :: l).
Proof. done. Qed.

Lemma pairs_json_ok (kvs : cprops) (last : bytes) (first : bool) : props_with is_literal (Some kvs) = true ->
  pairs_json first (each prop_tree last kvs) =
  (if first then [] else match kvs with [] => [] | _ => [44] end) ++ comma_separated (map (member_json literal_stored) kvs) ++ [125].
Proof.
  revert first. induction kvs as [|[k e] kvs IH]; intros first Hp; [by destruct first|]. cbn [props_with forallb snd] in Hp.
  apply andb_true_iff in Hp as [He Hp]. destruct e as [|t| | | | | | | |]; try done. specialize (IH false Hp).
  cbn [each map pairs_json]. rewrite IH. cbn [prop_tree t_children ast_of cypherAstGetValue fst snd].
  change (if _ || bool_decide (t.2 ∈ [bstr "true"; bstr "false"; bstr "null"]) then t.2 else [34] ++ t.2 ++ [34]) with (literal_stored t).
  change (cypherAstIsType _ CYPHER_AST_PROPERTY_PAIR) with true. cbv iota. unfold member_json. cbn [fst snd].
  destruct kvs as [|kv kvs].
  - destruct first; cbn [map comma_separated app]; by rewrite <- ?app_assoc.
  - cbn [map]. rewrite comma_separated_cons. destruct first; cbn [app]; rewrite <- ?app_assoc; done.
Qed.

Lemma map_json_ok (p : option cprops) (l : list tree) : props_with is_literal p = true -> props_trees p = l ->
  match l with [] => bstr "{}" | m :: _ => convertMapToJson m end = props_json literal_stored p.
Proof.
  intros Hp <-. destruct p as [kvs|]; [|done]. cbn [props_trees]. unfold convertMapToJson, map_tree, props_json.
  change (cypherAstIsType _ _) with true. cbv iota. cbn [t_children default]. by rewrite pairs_json_ok.
Qed.

Lemma node_fields_ok (c : cnode) : props_with is_literal (cn_props c) = true ->
  node_fields (t_children (node_tree c)) (bstr "[]") (bstr "{}") =
  (match cn_label c with Some l => [91; 34] ++ l ++ [34; 93] | None => bstr "[]" end, props_json literal_stored (cn_props c)).
Proof.
  intros Hp. destruct c as [v l p]. cbn [cn_props cn_label] in *. rewrite <- (map_json_ok p (props_trees p) Hp eq_refl).
  by destruct v, l, p.
Qed.

Lemma rel_fields_ok (r : crel) : props_with is_literal (cr_props r) = true ->
  rel_fields (t_children (rel_tree r)) [] (bstr "{}") = (default [] (cr_type r), props_json literal_stored (cr_props r)).
Proof.
  intros Hp. destruct r as [v t p d]. cbn [cr_props cr_type] in *. rewrite <- (map_json_ok p (props_trees p) Hp eq_refl).
  by destruct v, t, p.
Qed.

(** ** New rows *)

Section Create.
Context `{CypherSql} `{ScanOrder} `{GraphSql}.

Fixpoint add_rows {A : Type} (t : gmap Z A) (l : list A) : list Z * gmap Z A :=
  match l with
  | [] => ([], t)
  | x :: l => let id := auto_rowid t in let r := add_rows (<[id := x]> t) l in (id :: r.1, r.2)
  end.

Lemma add_rows_ok {A : Type} (t : gmap Z A) (l : list A) : adds_rows t (add_rows t l).2 (add_rows t l).1 l.
Proof.
  revert t. induction l as [|x l IH]; intros t.
  - repeat split; [constructor|intros i Hi; by apply not_elem_of_nil in Hi|]. cbn. by rewrite (left_id_L ∅ (∪)).
  - cbn [add_rows fst snd]. pose proof (auto_rowid_fresh t) as Hfresh. set (id := auto_rowid t) in *.
    destruct (IH (<[id := x]> t)) as (Hl & Hd & Hf & Et). set (r := add_rows _ l) in *.
    assert (Hid : id ∉ r.1) by (intros Hi%Hf; by rewrite lookup_insert_eq in Hi).
    split; [cbn; by rewrite Hl|]. split; [by constructor|]. split.
    + intros i [->|Hi]%elem_of_cons; [done|]. apply Hf in Hi. by apply lookup_insert_None in Hi as [? _].
    + rewrite Et. cbn [zip_with list_to_map foldr fst snd]. rewrite <- insert_union_l. rewrite <- insert_union_r; [done|].
      apply not_elem_of_list_to_map_1. intros Hi. apply Hid. apply list_elem_of_fmap in Hi as ([i y] & -> & Hi). by apply elem_of_zip_l in Hi.
Qed.

Lemma set_nodes_twice (name : bytes) (t t' : gmap Z GraphNode) (s : gdb) : set_nodes name t (set_nodes name t' s) = set_nodes name t s.
Proof. unfold set_nodes. cbn. by rewrite insert_insert_eq. Qed.

Lemma set_edges_twice (name : bytes) (t t' : gmap Z GraphEdge) (s : gdb) : set_edges name t (set_edges name t' s) = set_edges name t s.
Proof. unfold set_edges. cbn. by rewrite insert_insert_eq. Qed.

Lemma set_nodes_same (name : bytes) (t : gmap Z GraphNode) (s : gdb) : gd_nodes s !! name = Some t -> set_nodes name t s = s.
Proof. intros E. unfold set_nodes. rewrite insert_id by done. by destruct s. Qed.

Lemma set_edges_same (name : bytes) (t : gmap Z GraphEdge) (s : gdb) : gd_edges s !! name = Some t -> set_edges name t s = s.
Proof. intros E. unfold set_edges. rewrite insert_id by done. by destruct s. Qed.

Lemma insert_new_node_ok (name : bytes) (n : GraphNode) (t : gmap Z GraphNode) (s : gdb) : gd_nodes s !! name = Some t ->
  insert_new_node name n s = (Ok (auto_rowid t), set_nodes name (<[auto_rowid t := n]> t) s).
Proof. intros E. unfold insert_new_node, node_table, Shadow.mbind, mget, mopt. by rewrite E. Qed.

Lemma insert_edge_ok (name : bytes) (e : GraphEdge) (t : gmap Z GraphEdge) (s : gdb) : gd_edges s !! name = Some t ->
  insert_edge name e s = (Ok (auto_rowid t), set_edges name (<[auto_rowid t := e]> t) s).
Proof. intros E. unfold insert_edge, edge_table, Shadow.mbind, mget, mopt. by rewrite E. Qed.

(** ** The two loops of CREATE *)

Context (v : GraphVtab).

Abbreviation step_trees steps := (concat (map (fun s : crel * cnode => [rel_tree s.1; node_tree s.2]) steps)).

Lemma create_node_ok (c : cnode) (cs : list tree) (ids : list Z) (t : gmap Z GraphNode) (s : gdb) :
  props_with is_literal (cn_props c) = true -> gd_nodes s !! gv_zNodeTableName v = Some t -> (length ids < 10)%nat ->
  create_nodes v (node_tree c :: cs) ids s =
  create_nodes v cs (ids ++ [auto_rowid t]) (set_nodes (gv_zNodeTableName v) (<[auto_rowid t := node_record literal_stored c]> t) s).
Proof.
  intros Hp Ht Hl. cbn [create_nodes]. change (cypherAstIsType (node_tree c) CYPHER_AST_NODE_PATTERN) with true. cbv iota.
  rewrite (node_fields_ok c Hp). unfold Shadow.mbind. rewrite (insert_new_node_ok _ _ t s Ht).
  destruct (Nat.leb_spec 10 (length ids)); [lia|done].
Qed.

Lemma create_nodes_ok (steps : list (crel * cnode)) (ids : list Z) (t : gmap Z GraphNode) (s : gdb) :
  Forall (fun x : crel * cnode => props_with is_literal (cn_props x.2) = true) steps -> gd_nodes s !! gv_zNodeTableName v = Some t ->
  (length ids + length steps <= 10)%nat ->
  create_nodes v (step_trees steps) ids s =
  (Ok (ids ++ (add_rows t (node_record literal_stored <$> steps.*2)).1), set_nodes (gv_zNodeTableName v) (add_rows t (node_record literal_stored <$> steps.*2)).2 s).
Proof.
  intros Hs. revert ids t s. induction Hs as [|x steps Hx _ IH]; intros ids t s Ht Hl.
  - cbn. rewrite app_nil_r. by rewrite set_nodes_same.
  - cbn [length] in Hl. cbn [map concat app].
    change (create_nodes v (rel_tree x.1 :: node_tree x.2 :: step_trees steps) ids s) with (create_nodes v (node_tree x.2 :: step_trees steps) ids s).
    rewrite (create_node_ok _ _ _ t) by (done || lia). rewrite (IH _ (<[auto_rowid t := node_record literal_stored x.2]> t)).
    + cbn [fmap list_fmap add_rows fst snd]. rewrite <- app_assoc, set_nodes_twice. done.
    + cbn. by rewrite lookup_insert_eq.
    + rewrite length_app. cbn [length]. lia.
Qed.

Lemma create_edges_ok (steps : list (crel * cnode)) (ids : list Z) (k : nat) (t : gmap Z GraphEdge) (s : gdb) :
  Forall (fun x : crel * cnode => props_with is_literal (cr_props x.1) = true) steps -> gd_edges s !! gv_zEdgeTableName v = Some t ->
  length ids = (k + S (length steps))%nat ->
  create_edges v (step_trees steps) ids k s =
  (Ok tt, set_edges (gv_zEdgeTableName v) (add_rows t (path_edges_of literal_stored (drop k ids) steps.*1)).2 s).
Proof.
  intros Hs. revert k t s. induction Hs as [|x steps Hx _ IH]; intros k t s Ht Hl.
  - cbn [map concat create_edges fmap list_fmap]. unfold path_edges_of. rewrite zip_with_nil_r. cbn. by rewrite set_edges_same.
  - cbn [length] in Hl. cbn [map concat app create_edges]. change (cypherAstIsType (rel_tree x.1) CYPHER_AST_REL_PATTERN) with true.
    change (cypherAstIsType (node_tree x.2) CYPHER_AST_REL_PATTERN) with false. cbv iota.
    destruct (lookup_lt_is_Some_2 ids k) as [a Ha]; [lia|]. destruct (lookup_lt_is_Some_2 ids (S k)) as [b Hb]; [lia|].
    rewrite Ha, Hb, (rel_fields_ok _ Hx). unfold Shadow.mbind. rewrite (insert_edge_ok _ _ t s Ht).
    set (e := MkGEdge _ _ _ _ _). rewrite (IH (S k) (<[auto_rowid t := e]> t)); [|cbn; by rewrite lookup_insert_eq|lia].
    rewrite set_edges_twice. rewrite (drop_S ids a k Ha), (drop_S ids b (S k) Hb). done.
Qed.

(** ** The plan of CREATE *)

Definition create_alias (p : cpattern) : option bytes := match cp_steps p with [] => cn_var (cp_start p) | _ => None end.

Definition create_query (p : cpattern) (r : option cexpr) : cquery := MkCQuery (CCreate p) None r.

Lemma compile_create_pattern (p : cpattern) : exists label prop,
  compile_create (Node CYPHER_AST_CREATE None 0 [pattern_tree p]) =
  MkLogical LOGICAL_CREATE (create_alias p) label prop None [] (S754_zero false) 0 0 (Some (pattern_tree p)).
Proof.
  destruct p as [[x l m] [|s steps]]; unfold compile_create; cbn [t_children]; change (cypherAstIsType (pattern_tree _) CYPHER_AST_PATTERN) with true; cbv iota.
  - destruct x, l, m; do 2 eexists; reflexivity.
  - do 2 eexists. reflexivity.
Qed.

Lemma compile_create_query (p : cpattern) (r : option cexpr) (ctx : PlanContext) :
  compileAstNode (query_tree (create_query p r)) ctx = (Some (with_return r (compile_create (Node CYPHER_AST_CREATE None 0 [pattern_tree p]))), ctx).
Proof. destruct r; reflexivity. Qed.

(** The plan: CREATE, below a projection if there is a RETURN. *)
Inductive create_physical (p : cpattern) : option cexpr -> PhysicalPlanNode -> Prop :=
| physical_create label prop : create_physical p None (bare_physical PHYSICAL_CREATE (create_alias p) label prop None [] (Some (pattern_tree p)) 0)
| physical_created e alias prop q : create_physical p None q ->
    create_physical p (Some e) (bare_physical PHYSICAL_PROJECTION alias None prop None [q] None 0).

Lemma plan_create (p : cpattern) (r : option cexpr) : exists pp, plan_query (query_tree (create_query p r)) = Ok pp /\ create_physical p r (perase pp).
Proof.
  unfold plan_query, cypherPlannerCompile. rewrite compile_create_query. destruct (compile_create_pattern p) as (label & prop & ->).
  set (c := MkLogical _ _ _ _ _ _ _ _ _ _). set (ctx := plan_context).
  assert (Hc : joinless c = true /\ estimated c 100 /\ create_physical p None (physical ctx c)).
  { split; [done|]. split; [by eexists; split; [reflexivity|cbn; lia]|]. unfold physical. rewrite physical_unfold. apply physical_create. }
  assert (Hq : joinless (with_return r c) = true /\ estimated (with_return r c) 100 /\ create_physical p r (physical ctx (with_return r c))).
  { destruct Hc as (Hj & He & Hp). destruct r as [e|]; [|done]. destruct (compile_return_projection (return_tree e)) as (alias & prop' & Er).
    edestruct (plan_above c (with_return (Some e) c) 100 LOGICAL_PROJECTION) as (Hj' & He' & Hp');
      [done|done|right; by left|cbn [with_return]; rewrite Er; reflexivity|].
    split; [done|]. split; [done|]. rewrite Hp'. by apply physical_created. }
  destruct Hq as (Hj & (p' & E & _) & Hp). rewrite E. cbn [res_bind]. destruct (optimize_joinless _ p' ctx Hj E) as (pp & Epp & He).
  exists pp. split; [done|]. by rewrite He.
Qed.

(** ** Execution *)

(** The iterator is opened, gives one row and changes the database. *)
Definition creates (pp : PhysicalPlanNode) (s s' : gdb) (row : CypherResult) : Prop :=
  exists it st st' st'', cypherIteratorCreate pp = Some it /\ createIteratorTree pp = Ok it /\
  forall fuel, iter_open fuel (Some v) it s = Ok st /\ iter_next fuel (Some v) it st [] s = NextRow row st' s' /\
    forall r, iter_next fuel (Some v) it st' r s' = NextDone st'' s'.

Lemma creates_projection (p c : PhysicalPlanNode) (s s' : gdb) (row : CypherResult) :
  pp_type p = PHYSICAL_PROJECTION -> pp_children p = [c] -> creates c s s' row -> creates p s s' row.
Proof.
  intros Ht Hc (it & st & st' & st'' & Hi & Hit & Hrun).
  assert (E : cypherIteratorCreate p = Some (ProjectionIterator p it)) by (rewrite iterator_unfold; cbn zeta; by rewrite Ht, Hc, Hi).
  exists (ProjectionIterator p it), (StSource st), (StSource st'), (StSource st''). split; [done|].
  split; [apply tree_of_children; [done|]; rewrite Hc; repeat constructor; eauto|]. intros fuel. destruct (Hrun fuel) as (Ho & Hn & Hd).
  cbn [iter_open iter_next]. unfold projectionIteratorNext. rewrite Ho, Hn. split; [done|]. split; [done|]. intros r. by rewrite Hd.
Qed.

Lemma creates_executed (pp : PhysicalPlanNode) (s s' : gdb) (row : CypherResult) : creates pp s s' row ->
  exists it, createIteratorTree pp = Ok it /\ forall fuel, (2 <= fuel)%nat -> cypherExecutorExecute fuel (Some v) it s = Some (Ok [row], s').
Proof.
  intros (it & st & st' & st'' & _ & Hit & Hrun). exists it. split; [done|]. intros fuel Hf. destruct (Hrun fuel) as (Ho & Hn & Hd).
  unfold cypherExecutorExecute. rewrite Ho. destruct fuel as [|[|n]]; [lia|lia|]. set (fuel := S (S n)) in *.
  change (execute_loop fuel fuel (Some v) it st [] s) with (execute_loop (S (S n)) fuel (Some v) it st [] s). cbn [execute_loop]. rewrite Hn.
  change (10000 <=? Z.of_nat (length (@nil CypherResult))) with false. cbv iota. by rewrite Hd.
Qed.

Lemma creates_path (p : cpattern) (pp : PhysicalPlanNode) (label prop : option bytes) (s : gdb) (nodes : gmap Z GraphNode) (edges : gmap Z GraphEdge) :
  creatable p -> perase pp = bare_physical PHYSICAL_CREATE (create_alias p) label prop None [] (Some (pattern_tree p)) 0 ->
  gd_nodes s !! gv_zNodeTableName v = Some nodes -> gd_edges s !! gv_zEdgeTableName v = Some edges ->
  exists id ids nodes' edges', adds_path literal_stored p nodes nodes' edges edges' (id :: ids) /\
    creates pp s (set_edges (gv_zEdgeTableName v) edges' (set_nodes (gv_zNodeTableName v) nodes' s))
      [(default (bstr "node") (create_alias p), CYPHER_VALUE_NODE id)].
Proof.
  intros [Hn Hr Hl] (Ht & Ha & _ & _ & _ & Hc & Hx & _)%perase_fields Hnodes Hedges. apply map_eq_nil in Hc.
  pose proof (add_rows_ok nodes (node_record literal_stored <$> pattern_nodes p)) as Hadd. set (r := add_rows nodes _) in Hadd.
  assert (Hids : r.1 = auto_rowid nodes :: tail r.1) by done. set (ids := tail r.1) in *.
  set (e := add_rows edges (path_edges_of literal_stored r.1 (cp_steps p).*1)).
  exists (auto_rowid nodes), ids, r.2, e.2. split; [split; [by rewrite <- Hids|]; exists e.1; rewrite <- Hids; apply add_rows_ok|].
  unfold pattern_nodes in *. destruct p as [c steps]. cbn [cp_start cp_steps] in *. apply Forall_cons_1 in Hn as [Hc' Hn]. rewrite Forall_fmap in Hn.
  assert (E : cypherIteratorCreate pp = Some (CreateIterator pp)) by (rewrite iterator_unfold; cbn zeta; by rewrite Ht).
  exists (CreateIterator pp), (StCreate false), (StCreate true), (StCreate true). split; [done|].
  split; [apply tree_of_children; [done|]; by rewrite Hc|]. intros fuel. cbn [iter_open iter_next]. unfold createIteratorOpen, create_next. rewrite Hnodes. split; [done|]. split; [|done].
  unfold createIteratorNext. rewrite Hx. change (cypherAstIsType (pattern_tree _) CYPHER_AST_PATTERN) with true. cbv iota.
  unfold pattern_tree. cbn [t_children cp_start cp_steps]. unfold Shadow.mbind.
  rewrite (create_node_ok c _ [] nodes s Hc' Hnodes) by (cbn; lia).
  rewrite (create_nodes_ok steps _ (<[auto_rowid nodes := node_record literal_stored c]> nodes)); [|done|cbn; by rewrite lookup_insert_eq|cbn; lia].
  cbn [app]. rewrite set_nodes_twice.
  change (auto_rowid nodes :: (add_rows (<[auto_rowid nodes := node_record literal_stored c]> nodes) (node_record literal_stored <$> steps.*2)).1) with r.1.
  change (add_rows (<[auto_rowid nodes := node_record literal_stored c]> nodes) (node_record literal_stored <$> steps.*2)).2 with r.2.
  change (create_edges v (node_tree c :: ?l) r.1 0) with (create_edges v l r.1 0).
  rewrite (create_edges_ok steps r.1 0 edges).
  - rewrite Hids, Ha. cbn [drop]. done.
  - eapply list.Forall_impl; [exact Hr|]. by intros x [? _].
  - done.
  - destruct Hadd as [Hadd _]. rewrite Hadd. cbn. by rewrite !length_fmap.
Qed.

Lemma creates_query (p : cpattern) (r : option cexpr) (pp : PhysicalPlanNode) (s : gdb) (nodes : gmap Z GraphNode) (edges : gmap Z GraphEdge) :
  creatable p -> create_physical p r (perase pp) -> gd_nodes s !! gv_zNodeTableName v = Some nodes -> gd_edges s !! gv_zEdgeTableName v = Some edges ->
  exists id ids nodes' edges', adds_path literal_stored p nodes nodes' edges edges' (id :: ids) /\
    creates pp s (set_edges (gv_zEdgeTableName v) edges' (set_nodes (gv_zNodeTableName v) nodes' s))
      [(default (bstr "node") (create_alias p), CYPHER_VALUE_NODE id)].
Proof.
  intros Hp Hm Hnodes Hedges. remember (perase pp) as q eqn:Eq. revert pp Eq. induction Hm as [label prop|e alias prop q Hm IH]; intros pp Eq.
  - by eapply creates_path.
  - symmetry in Eq. apply perase_fields in Eq as (Ht & _ & _ & _ & _ & Hc & _ & _). destruct (pp_children pp) as [|src [|]] eqn:Ec; try done.
    injection Hc as Hc. destruct (IH src) as (id & ids & nodes' & edges' & Ha & Hcr); [done|].
    exists id, ids, nodes', edges'. split; [done|]. by eapply creates_projection.
Qed.
End Create.

(** ** The queries as texts *)

Lemma props_literal_wf (p : option cprops) : props_with is_literal p = true -> props_wf p = true /\ forallb plain (props_trees p) = true.
Proof.
  destruct p as [kvs|]; [|done]. cbn [props_with props_wf props_trees forallb]. unfold map_wf, map_tree. intros Hp. rewrite andb_true_r. cbn [plain].
  generalize t_rbrace.2. intros last. induction kvs as [|[k e] kvs IH]; [done|]. cbn [forallb snd] in *. apply andb_true_iff in Hp as [He Hp].
  destruct (IH Hp) as [H1 H2]. destruct e as [|t| | | | | | | |]; try done. rewrite H1.
  split; [cbn; rewrite andb_true_r; exact He|].
  cbn [each forallb]. change (plain (prop_tree (k, ELit t) _)) with true. exact H2.
Qed.

Lemma create_query_wf (p : cpattern) (r : option cexpr) : creatable p -> (forall e, r = Some e -> wf e = true /\ plain (ast_of e []) = true) ->
  query_wf (create_query p r) = true /\ plain (query_tree (create_query p r)) = true.
Proof.
  intros [Hn Hr _] Hret. destruct p as [c steps]. unfold pattern_nodes in *. cbn [cp_start cp_steps] in *. apply Forall_cons_1 in Hn as [Hc Hn].
  rewrite Forall_fmap in Hn.
  assert (Hnode : forall d, props_with is_literal (cn_props d) = true -> props_wf (cn_props d) = true /\ plain (node_tree d) = true).
  { intros d [H1 H2]%props_literal_wf. split; [done|]. unfold node_tree. cbn [plain]. rewrite !forallb_app, H2. by destruct (cn_var d), (cn_label d). }
  assert (Hrel : forall d, props_with is_literal (cr_props d) = true -> props_wf (cr_props d) = true /\ plain (rel_tree d) = true).
  { intros d [H1 H2]%props_literal_wf. split; [done|]. unfold rel_tree. cbn [plain]. rewrite !forallb_app, H2. by destruct (cr_var d), (cr_type d). }
  assert (Hsteps : forall x, x ∈ steps -> props_with is_literal (cn_props x.2) = true /\ props_with is_literal (cr_props x.1) = true).
  { intros x Hx. split; [exact (proj1 (list.Forall_forall _ _) Hn x Hx)|exact (proj1 (proj1 (list.Forall_forall _ _) Hr x Hx))]. }
  assert (Hwf : pattern_wf (MkCPattern c steps) = true).
  { unfold pattern_wf. cbn [cp_start cp_steps]. apply andb_true_iff. split; [by apply Hnode|]. apply forallb_forall. intros x Hx.
    apply list_elem_of_In, Hsteps in Hx as [Hx1 Hx2]. apply andb_true_iff. split; [by apply Hrel|by apply Hnode]. }
  assert (Hplain : plain (pattern_tree (MkCPattern c steps)) = true).
  { unfold pattern_tree. cbn [plain cp_start cp_steps forallb]. rewrite (proj2 (Hnode c Hc)), forallb_concat. apply forallb_forall.
    intros l Hl. apply list_elem_of_In, list_elem_of_fmap in Hl as (x & -> & Hx). apply Hsteps in Hx as [Hx1 Hx2]. cbn [forallb].
    by rewrite (proj2 (Hrel _ Hx2)), (proj2 (Hnode _ Hx1)). }
  unfold query_wf, query_tree. cbn [create_query cq_clause cq_where cq_return clause_wf clause_tree]. rewrite Hwf. destruct r as [e|].
  - destruct (Hret e eq_refl) as [H1 H2]. cbn [option_wf where_trees return_trees app forallb plain]. rewrite H1, Hplain, H2. done.
  - cbn [option_wf where_trees return_trees app forallb plain]. by rewrite Hplain.
Qed.

(** ** Literals as JSON *)

Lemma looks_numeric_fmt_d (i : Z) (r : bytes) : looks_numeric (fmt_d i ++ r) = true.
Proof.
  destruct (fmt_d_digits i) as (ds & Hne & Hd & _ & ->). unfold looks_numeric. destruct (i <? 0); [done|]. destruct ds as [|c ds]; [done|].
  cbn [forallb app] in *. apply andb_true_iff in Hd as [Hc _]. change (is_digit_code c) with (c_isdigit c). by rewrite Hc.
Qed.

Lemma looks_numeric_number (z r : bytes) : is_Some (number_of z) -> looks_numeric (z ++ r) = true.
Proof. unfold number_of. destruct (decide _) as [->|]; [intros _; apply looks_numeric_fmt_d|by intros [? ?]]. Qed.

Lemma literal_plain_stored (t : tok) : literal_plain t = true -> literal_stored t = literal_json t.
Proof.
  destruct t as [ty z]. unfold literal_plain, literal_stored, literal_json. cbn [fst snd].
  assert (Hword : bool_decide (z ∈ words) = true -> looks_numeric z = true) by (intros Hz; unfold looks_numeric; by rewrite Hz, orb_true_r).
  assert (Hint : is_Some (number_of z) -> looks_numeric z = true).
  { intros Hz. pose proof (looks_numeric_number z [] Hz) as E. by rewrite app_nil_r in E. }
  assert (Hfloat : plain_float z = true -> looks_numeric z = true).
  { unfold plain_float. destruct (list_find _ z) as [[i c]|]; [|done]. intros [[Hz%bool_decide_eq_true _]%andb_true_iff _]%andb_true_iff.
    pose proof (looks_numeric_number (take i z) (drop i z) Hz) as E. by rewrite take_drop in E. }
  destruct ty; try done.
  all: first [intros ->%Hword; done|intros ->%Hfloat; done|intros ->%bool_decide_eq_true%Hint; done|intros [_ ->%negb_true_iff]%andb_true_iff; done].
Qed.

Lemma props_json_plain (p : option cprops) : props_with literal_plain p = true -> props_json literal_stored p = props_json literal_json p.
Proof.
  destruct p as [kvs|]; [|done]. cbn [props_with]. intros Hp. unfold props_json. cbn [default]. do 3 f_equal. apply map_ext_in. intros [k e] Hk.
  rewrite forallb_forall in Hp. specialize (Hp _ Hk). cbn [snd] in Hp. destruct e; try done. unfold member_json. cbn [fst snd].
  by rewrite literal_plain_stored.
Qed.

Lemma adds_path_plain (p : cpattern) (nodes nodes' : gmap Z GraphNode) (edges edges' : gmap Z GraphEdge) (ids : list Z) :
  path_plain p = true -> adds_path literal_stored p nodes nodes' edges edges' ids -> adds_path literal_json p nodes nodes' edges edges' ids.
Proof.
  unfold path_plain, adds_path. intros [Hn Hr]%andb_true_iff. rewrite forallb_forall in Hn, Hr.
  replace (node_record literal_json <$> pattern_nodes p) with (node_record literal_stored <$> pattern_nodes p).
  2: { apply list_fmap_ext. intros i c Hc%list_elem_of_lookup_2%list_elem_of_In. unfold node_record. by rewrite (props_json_plain _ (Hn c Hc)). }
  replace (path_edges_of literal_json ids (cp_steps p).*1) with (path_edges_of literal_stored ids (cp_steps p).*1); [done|].
  assert (Hrels : Forall (fun r => props_with literal_plain (cr_props r) = true) (cp_steps p).*1).
  { apply Forall_fmap, list.Forall_forall. intros x Hx%list_elem_of_In. by apply Hr. }
  unfold path_edges_of. revert Hrels. generalize (cp_steps p).*1. generalize (zip ids (tail ids)). intros l rels. revert l.
  induction rels as [|r rels IH]; intros [|e l] Hrels; try done. apply Forall_cons_1 in Hrels as [Hc Hrels]. cbn [zip_with]. f_equal; [|by apply IH].
  unfold edge_record. by rewrite (props_json_plain _ Hc).
Qed.

(** C7: A CREATE adds its path and nothing else.  Take a text without comments
    of a query [CREATE path] (RETURN may follow; no blanks are needed where
    tokens do not run together or at the end) whose path has at most ten nodes,
    arrows to the right and literals as properties.  [cypher_execute] parses,
    plans and executes it; the graph then has, under ids that were free, the
    nodes of the path with their labels and the texts of their properties, and
    an edge from each node to the next one, of the type and with the properties
    of the relationship between them; all other rows are kept.  The result is
    one row with the first node.
    A property is written as [literal_stored] says.  That is the JSON text of the
    literal for integers and decimal numbers without zeros in front, the
    words true, false and null in lower case, and strings of printable
    characters without quotes and backslashes that do not start with a digit or
    a dash and are not one of these words.  It is not for the other literals:
    a string like '5th' or '-' is written without quotes, and quotes and
    backslashes are not escaped, so that the stored text is not JSON
    ([cypher_create_string], [cypher_create_unescaped]). *)
Theorem cypher_create_correct `{CypherSql} `{ScanOrder} `{GraphSql} (fmt_6g : f64 -> bytes) (v : GraphVtab) (s : gdb)
    (nodes : gmap Z GraphNode) (edges : gmap Z GraphEdge) (p : cpattern) (r : option cexpr) (w0 : bytes) (ls : list (lexeme * bytes)) :
  creatable p -> (forall e, r = Some e -> wf e = true /\ plain (ast_of e []) = true) ->
  writes ls (create_query p r) -> Forall (fun c => c_isspace c = true) w0 ->
  gd_nodes s !! gv_zNodeTableName v = Some nodes -> gd_edges s !! gv_zEdgeTableName v = Some edges ->
  exists id ids nodes' edges', adds_path literal_stored p nodes nodes' edges edges' (id :: ids) /\
    (path_plain p = true -> adds_path literal_json p nodes nodes' edges edges' (id :: ids)) /\
    forall fuel, (2 <= fuel)%nat -> cypherExecuteSqlFunc fuel fmt_6g (Some v) (w0 ++ text_of ls) s =
      Some (Ok (results_json fmt_6g [[(default (bstr "node") (create_alias p), CYPHER_VALUE_NODE id)]]),
            set_edges (gv_zEdgeTableName v) edges' (set_nodes (gv_zNodeTableName v) nodes' s)).
Proof.
  intros Hp Hr Hls Hw0 Hnodes Hedges. destruct (create_query_wf p r Hp Hr) as [Hwf Hplain].
  destruct (writes_feeds ls _ w0 Hls Hw0) as [Hf Hlen]. destruct (fed_query_parsed _ _ Hwf Hf Hlen) as (pAst & Hparse & Hshape & Hfrees).
  destruct (plan_create p r) as (pp & Hplan & Hm).
  pose proof (creates_query v p r pp s nodes edges Hp Hm Hnodes Hedges) as Hrun.
  destruct Hrun as (id & ids & nodes' & edges' & Ha & Hcr). destruct (creates_executed v pp s _ _ Hcr) as (it & Hit & Hex).
  exists id, ids, nodes', edges'. split; [done|]. split; [intros Hpl; by apply adds_path_plain|]. intros fuel Hfuel. unfold cypherExecuteSqlFunc. rewrite Hparse. cbn [fst].
  rewrite Hshape, Hplan. cbn [res_bind]. rewrite Hit, (Hex fuel Hfuel). rewrite decide_True; [done|]. by apply Hfrees.
Qed.

(** ** A concrete graph *)

#[local] Existing Instance demo_sql.
#[local] Existing Instance demo_order.
#[local] Existing Instance demo_cypher_sql.

Definition demo_creation : cpattern :=
  MkCPattern (MkCNode (Some (bstr "a")) (Some (bstr "P"))
      (Some [(bstr "age", ELit (CYPHER_TOK_INTEGER, bstr "50")); (bstr "name", ELit (CYPHER_TOK_STRING, bstr "Ann"))]))
    [(MkCRel (Some (bstr "r")) (Some (bstr "T")) None DRight, cnode_of "b" (Some "Q"%string))].

Lemma cypher_create_correct_witness :
  let text := bstr "CREATE (a:P{age:50,name:'Ann'})-[r:T]->(b:Q)" in
  exists id ids nodes' edges', adds_path literal_json demo_creation cypher_nodes nodes' cypher_edges edges' (id :: ids) /\
    forall fuel, (2 <= fuel)%nat -> cypherExecuteSqlFunc fuel no_float (Some cypher_vtab) text cypher_db =
      Some (Ok (results_json no_float [[(bstr "node", CYPHER_VALUE_NODE id)]]),
            set_edges (bstr "g_edges") edges' (set_nodes (bstr "g_nodes") nodes' cypher_db)).
Proof.
  edestruct (cypher_create_correct no_float cypher_vtab cypher_db cypher_nodes cypher_edges demo_creation None [] (spaced (print_query (create_query demo_creation None))))
    as (id & ids & nodes' & edges' & _ & Hplain & Hrun); cycle -1.
  { exists id, ids, nodes', edges'. split; [apply Hplain; vm_compute; reflexivity|exact Hrun]. }
  - split; [by_compute|by_compute|cbn; lia].
  - discriminate.
  - split; vm_compute; reflexivity.
  - constructor.
  - vm_compute. reflexivity.
  - vm_compute. reflexivity.
Defined.

(** ** Queries that do something else *)

Definition run_cypher (z : string) : option (res bytes * gdb) := cypherExecuteSqlFunc 20 no_float (Some cypher_vtab) (bstr z) cypher_db.

(** A column [x] with the nodes given; the node is not a JSON value. *)
Definition node_rows (x : string) (ids : list Z) : bytes := results_json no_float ((fun i => [(bstr x, CYPHER_VALUE_NODE i)]) <$> ids).

(** RETURN has no effect: a property is asked for, the nodes are returned. *)
Lemma cypher_return_ignored : run_cypher "MATCH (a:P) RETURN a.age" = Some (Ok (node_rows "a" [2; 1]), cypher_db) /\
  run_cypher "MATCH (a:P) RETURN b" = Some (Ok (node_rows "a" [2; 1]), cypher_db).
Proof. vm_compute. done. Qed.

(** A condition that is not a single comparison lets nothing pass. *)
Lemma cypher_and_drops_all : run_cypher "MATCH (a:P) WHERE a.age > 1 RETURN a" = Some (Ok (node_rows "a" [2; 1]), cypher_db) /\
  run_cypher "MATCH (a:P) WHERE a.age > 1 AND a.age > 1 RETURN a" = Some (Ok (node_rows "a" []), cypher_db).
Proof. vm_compute. done. Qed.

(** Strings are ordered by the number they start with: the ages 20 and 40 are
    said to be greater than the string b, which comes after them. *)
Lemma cypher_string_order : run_cypher "MATCH (a:P) WHERE a.age > 'b' RETURN a" = Some (Ok (node_rows "a" [2; 1]), cypher_db) /\
  documented OpGt (bstr "40") (CYPHER_TOK_STRING, bstr "b") = Some false /\ documented OpGt (bstr "20") (CYPHER_TOK_STRING, bstr "b") = Some false.
Proof. vm_compute. done. Qed.

(** Directions are ignored. *)
Lemma cypher_direction_ignored :
  run_cypher "MATCH (a)<-[r:T](b) RETURN a" = run_cypher "MATCH (a)-[r:T]->(b) RETURN a" /\
  run_cypher "MATCH (a)-[r:T]-(b) RETURN a" = run_cypher "MATCH (a)-[r:T]->(b) RETURN a" /\
  run_cypher "CREATE (a)<-[r:T](b)" = run_cypher "CREATE (a)-[r:T]->(b)" /\ run_cypher "MATCH (a)-[r:T]->(b) RETURN a" <> None.
Proof. vm_compute. done. Qed.

(** Properties in a pattern are ignored, or keep it from being compiled. *)
Lemma cypher_properties_ignored :
  run_cypher "MATCH (a {age: 9}) RETURN a" = run_cypher "MATCH (a) RETURN a" /\ run_cypher "MATCH (a) RETURN a" <> None /\
  run_cypher "MATCH ({age: 9}) RETURN a" = Some (Err SQLITE_ERROR, cypher_db).
Proof. vm_compute. done. Qed.

(** A path through a node without a name is an error. *)
Lemma cypher_unnamed_error : run_cypher "MATCH (a)-[r:T]->()-[s:T]->(c) RETURN c" = Some (Err SQLITE_ERROR, cypher_db).
Proof. vm_compute. done. Qed.

(** A name that is used twice stands for two nodes: the walks of length two
    from node 1 end at 1, 3 and 4, and all of them are returned. *)
Lemma cypher_repeated_name : exists rows,
  run_cypher "MATCH (a)-[:T]->(b)-[:T]->(a) RETURN a" = Some (Ok (results_json no_float rows), cypher_db) /\
  row_nodes <$> rows = [[2; 1; 2]; [1; 2; 1]; [1; 2; 4]; [1; 2; 3]].
Proof.
  set (step := fun x => (MkCRel None (Some (bstr "T")) None DRight, cnode_of x None)).
  exists (answers cypher_nodes cypher_edges (MkCPattern (cnode_of "a" None) [step "b"%string; step "a"%string]) None). by vm_compute.
Qed.

(** The label of the first node is compared without regard to case, those of
    the others exactly. *)
Lemma cypher_label_case : run_cypher "MATCH (a:p) RETURN a" = Some (Ok (node_rows "a" [2; 1]), cypher_db) /\
  run_cypher "MATCH (a)-[r]->(b:p) RETURN b" = Some (Ok (node_rows "b" []), cypher_db).
Proof. vm_compute. done. Qed.

(** MERGE adds a node that exists, without its label: the labels are the
    empty text, which is not JSON. *)
Lemma cypher_merge_creates : exists s', run_cypher "MERGE (a:P)" = Some (Ok (node_rows "node" [5]), s') /\
  gd_nodes s' = <[bstr "g_nodes" := <[5 := MkGNode (Some []) (Some (bstr "{}"))]> cypher_nodes]> (gd_nodes cypher_db).
Proof. eexists. vm_compute. done. Qed.

(** SET and DELETE cannot be executed. *)
Lemma cypher_no_set_delete : run_cypher "SET a.x" = Some (Err SQLITE_ERROR, cypher_db) /\ run_cypher "DELETE a" = Some (Err SQLITE_ERROR, cypher_db).
Proof. vm_compute. done. Qed.

(** A string that starts with a digit is stored as it is. *)
Lemma cypher_create_string : exists s', run_cypher "CREATE (a:P {age: '5th'})" = Some (Ok (node_rows "a" [5]), s') /\
  gd_nodes s' = <[bstr "g_nodes" := <[5 := person "P" "5th"]> cypher_nodes]> (gd_nodes cypher_db).
Proof. eexists. vm_compute. done. Qed.

(** A backslash is stored as it is: the text is not JSON. *)
Lemma cypher_create_unescaped : exists s', run_cypher "CREATE (a {age: 'x\y'})" = Some (Ok (node_rows "a" [5]), s') /\
  gd_nodes s' = <[bstr "g_nodes" := <[5 := MkGNode (Some (bstr "[]")) (Some ([123; 34] ++ bstr "age" ++ [34; 58; 34; 120; 92; 121; 34; 125]))]> cypher_nodes]> (gd_nodes cypher_db).
Proof. eexists. vm_compute. done. Qed.

(** The ids of more than ten nodes do not fit. *)
Lemma cypher_create_overruns :
  fst <$> run_cypher "CREATE (a)-[r]->(a)-[r]->(a)-[r]->(a)-[r]->(a)-[r]->(a)-[r]->(a)-[r]->(a)-[r]->(a)-[r]->(a)-[r]->(a)" = Some Undef.
Proof. vm_compute. done. Qed.

(** The estimate of a path of 22 steps overflows. *)
Definition long_match (n : nat) : cquery :=
  match_query (MkCPattern (cnode_of "a" None) (replicate n (MkCRel None None None DRight, cnode_of "b" None))) None None.

Lemma cypher_estimate_overflows : plan_query (query_tree (long_match 22)) = Undef /\
  (exists p, plan_query (query_tree (long_match 21)) = Ok p).
Proof. split; [by vm_compute|]. eexists. by vm_compute. Qed.
