(* ===== verification/WorkPool.v ===== *)
(** * The thread pool (graph-parallel.c)

    Workers with a queue each, from which others steal, a client that creates
    them, schedules tasks, waits until the queues are empty and stops them.
    What is done under the mutex is one step; the steps of the threads
    interleave, and a thread that waits for the condition may wake at any
    time.  A task is its argument.

    Shown: in every interleaving the only fault is that a worker looks for tasks
    of one whose context is not set up yet, while the threads are created;
    until then no task runs twice, no wake-up is lost, with at most three tasks
    for each worker no task is lost, and the pool can come to its end. *)

From Stdlib Require Import String ZArith Lia Permutation.
From stdpp Require Import base option list numbers relations.
From S2P Require Import Prelude.

Local Open Scope Z_scope.

(** ** States *)

Inductive worker_pc :=
| W_TEST                (* the test of [shouldStop] *)
| W_LOCAL               (* before the local queue *)
| W_STEAL (i : nat)     (* before the victim [i] *)
| W_EXEC (t : nat)      (* executing a task *)
| W_WAIT                (* before the wait *)
| W_ASLEEP              (* in [pthread_cond_wait] *)
| W_STOPPED.

Record WorkerContext := MkWorker {
  localQueue : list nat;
  localQueueSize : Z;
  shouldStop : bool;
  tasksExecuted : Z;
  tasksStolen : Z;
  w_pc : worker_pc
}.

Inductive client_pc :=
| C_SCHEDULE (ts : list nat)   (* the tasks still to schedule *)
| C_POLL
| C_RETURN                     (* graphExecuteParallel has returned *)
| C_JOIN (i : nat)             (* waiting for the thread [i] *)
| C_FREED
| C_CREATE (ts : list nat).    (* in graphCreateTaskScheduler *)

(** The number of workers there will be, those whose context has been set up,
    the tasks executed, and those no queue holds and no worker has. *)
Record pool := MkPool {
  nWorkers : nat;
  workers : list WorkerContext;    (* those created *)
  client : client_pc;
  executed : list nat;
  lost : list nat
}.

Inductive move := Next (s : pool) | Blocked | Fault.

Definition at_pc (pc : worker_pc) (w : WorkerContext) : WorkerContext :=
  MkWorker (localQueue w) (localQueueSize w) (shouldStop w) (tasksExecuted w) (tasksStolen w) pc.

Definition with_queue (q : list nat) (n : Z) (w : WorkerContext) : WorkerContext :=
  MkWorker q n (shouldStop w) (tasksExecuted w) (tasksStolen w) (w_pc w).

(** ** The threads *)

(** A worker [k] is robbed: half of its tasks are cut off, the first of them is
    the task of the thief, the others hang behind it.  [None]: the chain ends
    before the half. *)
Definition steal_half (w : WorkerContext) : option (option nat * list nat * WorkerContext * Z) :=
  let stealCount := localQueueSize w / 2 in
  let keep := Z.to_nat (localQueueSize w - stealCount) in
  if (length (localQueue w) <? keep)%nat then None
  else
    let w' := with_queue (take keep (localQueue w)) (localQueueSize w - stealCount) w in
    match drop keep (localQueue w) with
    | [] => Some (None, [], w', stealCount)
    | t :: rest => Some (Some t, rest, w', stealCount)
    end.

Definition workerThreadMain (i : nat) (s : pool) : move :=
  match workers s !! i with
  | None => Blocked
  | Some w =>
      let go (w : WorkerContext) := Next (MkPool (nWorkers s) (<[i := w]> (workers s)) (client s) (executed s) (lost s)) in
      match w_pc w with
      | W_TEST => go (at_pc (if shouldStop w then W_STOPPED else W_LOCAL) w)
      | W_LOCAL =>
          match localQueue w with
          | t :: q => go (at_pc (W_EXEC t) (with_queue q (localQueueSize w - 1) w))
          | [] => go (at_pc (W_STEAL 0) w)
          end
      | W_STEAL k =>
          match workers s !! k with
          | None => if (k <? nWorkers s)%nat then Fault else go (at_pc W_WAIT w)   (* the context is not set up *)
          | Some victim =>
              if (k =? i)%nat then go (at_pc (W_STEAL (S k)) w)
              else if localQueueSize victim <=? 1 then go (at_pc (W_STEAL (S k)) w)
              else
                match steal_half victim with
                | None => Fault
                | Some (task, rest, victim, stealCount) =>
                    let w := MkWorker (localQueue w) (localQueueSize w) (shouldStop w) (tasksExecuted w) (tasksStolen w + stealCount) (w_pc w) in
                    Next (MkPool (nWorkers s) (<[i := at_pc (match task with Some t => W_EXEC t | None => W_STEAL (S k) end) w]> (<[k := victim]> (workers s)))
                            (client s) (executed s) (lost s ++ rest))
                end
          end
      | W_EXEC t =>
          let w := MkWorker (localQueue w) (localQueueSize w) (shouldStop w) (tasksExecuted w + 1) (tasksStolen w) W_TEST in
          Next (MkPool (nWorkers s) (<[i := w]> (workers s)) (client s) (executed s ++ [t]) (lost s))
      | W_WAIT => go (at_pc (if negb (shouldStop w) && bool_decide (localQueue w = []) then W_ASLEEP else W_TEST) w)
      | W_ASLEEP => go (at_pc W_TEST w)
      | W_STOPPED => Blocked
      end
  end.

(** [pthread_cond_broadcast] *)
Definition awake (w : WorkerContext) : WorkerContext := match w_pc w with W_ASLEEP => at_pc W_TEST w | _ => w end.

(** The first worker with the smallest queue. *)
Fixpoint smallest (i target : nat) (minQueueSize : Z) (ws : list WorkerContext) : nat :=
  match ws with
  | [] => target
  | w :: ws => if localQueueSize w <? minQueueSize then smallest (S i) i (localQueueSize w) ws else smallest (S i) target minQueueSize ws
  end.

Definition push (t : nat) (w : WorkerContext) : WorkerContext := with_queue (t :: localQueue w) (localQueueSize w + 1) w.

(** [None]: there is no worker. *)
Definition graphScheduleTask (t : nat) (ws : list WorkerContext) : option (list WorkerContext) :=
  let target := smallest 0 0 (2 ^ 31 - 1) ws in
  match ws !! target with
  | Some w => Some (awake <$> <[target := push t w]> ws)
  | None => None
  end.

Definition stop (w : WorkerContext) : WorkerContext :=
  MkWorker (localQueue w) (localQueueSize w) true (tasksExecuted w) (tasksStolen w) (w_pc w).

(** [graphExecuteParallel] refuses an empty list of tasks at once. *)
Definition graphExecuteParallel (tasks : list nat) : client_pc := match tasks with [] => C_RETURN | _ => C_SCHEDULE tasks end.

(** One round of the loop that creates the workers: the context is set up and
    the thread started, while those created before are running.  After the
    last the client goes on with its tasks. *)
Definition graphCreateTaskScheduler (ts : list nat) (s : pool) : pool :=
  if (length (workers s) <? nWorkers s)%nat
  then MkPool (nWorkers s) (workers s ++ [MkWorker [] 0 false 0 0 W_TEST]) (client s) (executed s) (lost s)
  else MkPool (nWorkers s) (workers s) (graphExecuteParallel ts) (executed s) (lost s).

(** graphCreateTaskScheduler, graphExecuteParallel, and then
    graphDestroyTaskScheduler. *)
Definition client_step (s : pool) : move :=
  match client s with
  | C_SCHEDULE (t :: ts) =>
      match graphScheduleTask t (workers s) with
      | Some ws => Next (MkPool (nWorkers s) ws (C_SCHEDULE ts) (executed s) (lost s))
      | None => Fault
      end
  | C_SCHEDULE [] => Next (MkPool (nWorkers s) (workers s) C_POLL (executed s) (lost s))
  | C_POLL =>
      let allDone := forallb (fun w => localQueueSize w <=? 0) (workers s) in
      Next (MkPool (nWorkers s) (workers s) (if allDone then C_RETURN else C_POLL) (executed s) (lost s))
  | C_RETURN => Next (MkPool (nWorkers s) (awake <$> (stop <$> workers s)) (C_JOIN 0) (executed s) (lost s))
  | C_JOIN i =>
      match workers s !! i with
      | Some w => match w_pc w with W_STOPPED => Next (MkPool (nWorkers s) (workers s) (C_JOIN (S i)) (executed s) (lost s)) | _ => Blocked end
      | None => Next (MkPool (nWorkers s) (workers s) C_FREED (executed s) (lost s))
      end
  | C_FREED => Blocked
  | C_CREATE ts => Next (graphCreateTaskScheduler ts s)
  end.

Inductive thread := Client | Worker (i : nat).

Definition move_of (th : thread) (s : pool) : move := match th with Client => client_step s | Worker i => workerThreadMain i s end.

Definition step (s s' : pool) : Prop := exists th, move_of th s = Next s'.

(** The number of threads: no more than two for each core. *)
Definition thread_count (nThreads nCores : Z) : Z := if (nThreads <=? 0) || (nCores * 2 <? nThreads) then nCores else nThreads.

(** [nWorkers] is set before the first worker is created. *)
Definition start (nThreads nCores : Z) (tasks : list nat) : pool :=
  MkPool (Z.to_nat (thread_count nThreads nCores)) [] (C_CREATE tasks) [] [].

(** The pool after some steps of the threads named. *)
Fixpoint run_threads (ths : list thread) (s : pool) : move :=
  match ths with
  | [] => Next s
  | th :: ths => match move_of th s with Next s => run_threads ths s | m => m end
  end.

Lemma run_threads_reachable (ths : list thread) (s s' : pool) : run_threads ths s = Next s' -> rtc step s s'.
Proof.
  revert s. induction ths as [|th ths IH]; intros s H; cbn in H; [injection H as ->; apply rtc_refl|].
  destruct (move_of th s) as [s1| |] eqn:E; try done. eapply rtc_l; [by exists th|by apply IH].
Qed.

(** ** Counting tasks *)

Definition running (w : WorkerContext) : list nat := match w_pc w with W_EXEC t => [t] | _ => [] end.
Definition holdings (w : WorkerContext) : list nat := localQueue w ++ running w.
Definition held (ws : list WorkerContext) : list nat := concat (holdings <$> ws).
Definition pending (c : client_pc) : list nat := match c with C_SCHEDULE ts | C_CREATE ts => ts | _ => [] end.

(** All tasks, wherever they are. *)
Definition all_tasks (s : pool) : list nat := held (workers s) ++ executed s ++ lost s ++ pending (client s).

Abbreviation cnt t l := (count_occ Nat.eq_dec l t).

Lemma cnt_cons (t x : nat) (l : list nat) : cnt t (x :: l) = (cnt t [x] + cnt t l)%nat.
Proof. change (x :: l) with ([x] ++ l). apply count_occ_app. Qed.

Lemma held_update (ws : list WorkerContext) (i : nat) (w w' : WorkerContext) (t : nat) :
  ws !! i = Some w -> (cnt t (held (<[i := w']> ws)) + cnt t (holdings w) = cnt t (held ws) + cnt t (holdings w'))%nat.
Proof.
  revert i. induction ws as [|x ws IH]; intros i Hi; [done|]. destruct i as [|i].
  - injection Hi as ->. change (held (<[0%nat := w']> (w :: ws))) with (holdings w' ++ held ws). change (held (w :: ws)) with (holdings w ++ held ws).
    rewrite !count_occ_app. lia.
  - specialize (IH i Hi). change (held (<[S i := w']> (x :: ws))) with (holdings x ++ held (<[i := w']> ws)). change (held (x :: ws)) with (holdings x ++ held ws).
    rewrite !count_occ_app. lia.
Qed.

Lemma held_same (ws ws' : list WorkerContext) : holdings <$> ws' = holdings <$> ws -> held ws' = held ws.
Proof. unfold held. by intros ->. Qed.

Lemma awake_holdings (w : WorkerContext) : holdings (awake w) = holdings w.
Proof. unfold awake. by destruct (w_pc w) eqn:E; unfold holdings, running; cbn; rewrite ?E. Qed.

Lemma fmap_holdings (f : WorkerContext -> WorkerContext) (ws : list WorkerContext) :
  (forall w, holdings (f w) = holdings w) -> held (f <$> ws) = held ws.
Proof. intros H. apply held_same. rewrite <- list_fmap_compose. apply list_fmap_ext. intros ? w _. apply H. Qed.

(** ** The invariant *)

(** What holds of a worker: the size of its queue, and why it sleeps. *)
Record worker_ok (w : WorkerContext) : Prop := {
  ok_size : localQueueSize w = Z.of_nat (length (localQueue w));
  ok_asleep : w_pc w = W_ASLEEP -> localQueue w = [] /\ shouldStop w = false;
  ok_stopped : w_pc w = W_STOPPED -> shouldStop w = true
}.

(** The state of the client: once it has seen the queues empty they are, and the
    workers before the one it waits for have stopped. *)
Definition client_ok (s : pool) : Prop :=
  match client s with
  | C_SCHEDULE _ | C_POLL => forall w, w ∈ workers s -> shouldStop w = false
  | C_RETURN => forall w, w ∈ workers s -> shouldStop w = false /\ localQueue w = []
  | C_JOIN i => (forall w, w ∈ workers s -> shouldStop w = true /\ localQueue w = []) /\ forall j w, (j < i)%nat -> workers s !! j = Some w -> w_pc w = W_STOPPED
  | C_FREED => forall w, w ∈ workers s -> w_pc w = W_STOPPED /\ localQueue w = []
  | C_CREATE _ => False
  end.

(** How many tasks have been scheduled. *)
Definition scheduled (tasks : list nat) (s : pool) : nat := length tasks - length (pending (client s)).

(** Once all workers are created. *)
Record pool_inv (n : nat) (tasks : list nat) (s : pool) : Prop := {
  inv_nworkers : nWorkers s = n;
  inv_workers : length (workers s) = n;
  inv_tasks : forall t, cnt t (all_tasks s) = cnt t tasks;
  inv_ok : forall w, w ∈ workers s -> worker_ok w;
  inv_client : client_ok s;
  inv_bound : forall w, w ∈ workers s -> ((length (localQueue w) - 1) * n <= scheduled tasks s - 1)%nat /\ (length (localQueue w) <= scheduled tasks s)%nat;
  inv_lost : (length tasks <= 3 * n)%nat -> lost s = []
}.

Lemma inv_length (n : nat) (tasks : list nat) (s : pool) : pool_inv n tasks s -> length (all_tasks s) = length tasks.
Proof. intros I. apply Permutation_length, (Permutation_count_occ Nat.eq_dec). apply (inv_tasks n tasks s I). Qed.

Lemma elem_of_insert_worker (ws : list WorkerContext) (i : nat) (x w : WorkerContext) : w ∈ <[i := x]> ws -> w = x \/ w ∈ ws.
Proof.
  intros [j Hj]%list_elem_of_lookup. destruct (decide (i = j)) as [<-|Hne].
  - destruct (decide (i < length ws)%nat); [rewrite list_lookup_insert_eq in Hj by done; left; congruence|].
    rewrite list_insert_ge in Hj by lia. right. by eapply list_elem_of_lookup_2.
  - rewrite list_lookup_insert_ne in Hj by done. right. by eapply list_elem_of_lookup_2.
Qed.

(** ** Steps of a worker *)

(** How a worker may change: the queue gets no longer. *)
Definition shrinks (y x : WorkerContext) : Prop :=
  worker_ok x /\ shouldStop x = shouldStop y /\ (length (localQueue x) <= length (localQueue y))%nat /\ (w_pc y = W_STOPPED -> w_pc x = W_STOPPED).

Section WorkerStep.
Context (n : nat) (tasks : list nat) (s : pool) (I : pool_inv n tasks s).

Lemma shrinks_refl (w : WorkerContext) : w ∈ workers s -> shrinks w w.
Proof using I. intros Hw. split; [by apply (inv_ok n tasks s I)|done]. Qed.

Lemma workers_inv (ws : list WorkerContext) (ex lo : list nat) :
  length ws = n -> (forall t, cnt t (held ws) + cnt t ex + cnt t lo = cnt t (held (workers s)))%nat ->
  (forall j x, ws !! j = Some x -> exists y, workers s !! j = Some y /\ shrinks y x) -> ((length tasks <= 3 * n)%nat -> lo = []) ->
  pool_inv n tasks (MkPool (nWorkers s) ws (client s) (executed s ++ ex) (lost s ++ lo)).
Proof using I.
  intros Hlen Hcnt Hsh Hlo. destruct I as [I0 I1 I2 I3 I4 I5 I6].
  assert (Hall : forall x, x ∈ ws -> exists y, y ∈ workers s /\ shrinks y x).
  { intros x [j Hj]%list_elem_of_lookup. destruct (Hsh j x Hj) as (y & Hy & Hs). exists y. split; [by eapply list_elem_of_lookup_2|done]. }
  assert (Hnil : forall x y, shrinks y x -> localQueue y = [] -> localQueue x = []).
  { intros x y (_ & _ & Hl & _) E. rewrite E in Hl. destruct (localQueue x); [done|cbn in Hl; lia]. }
  constructor; cbn [nWorkers workers client executed lost].
  - done.
  - done.
  - intros t. rewrite <- I2. unfold all_tasks. cbn [workers client executed lost]. rewrite !count_occ_app. specialize (Hcnt t). lia.
  - intros x Hx. by destruct (Hall x Hx) as (y & _ & Hy & _).
  - unfold client_ok in *. cbn [workers client]. destruct (client s) as [ts| | |j| |ts0].
    + intros x Hx. destruct (Hall x Hx) as (y & Hy & _ & -> & _). by apply I4.
    + intros x Hx. destruct (Hall x Hx) as (y & Hy & _ & -> & _). by apply I4.
    + intros x Hx. destruct (Hall x Hx) as (y & Hy & Hs). destruct (I4 y Hy) as [E1 E2]. split; [|by apply (Hnil x y)]. by destruct Hs as (_ & -> & _).
    + destruct I4 as [I4 I4']. split.
      * intros x Hx. destruct (Hall x Hx) as (y & Hy & Hs). destruct (I4 y Hy) as [E1 E2]. split; [|by apply (Hnil x y)]. by destruct Hs as (_ & -> & _).
      * intros k x Hk Hx. destruct (Hsh k x Hx) as (y & Hy & _ & _ & _ & Hst). apply Hst. by apply (I4' k).
    + intros x Hx. destruct (Hall x Hx) as (y & Hy & Hs). destruct (I4 y Hy) as [E1 E2]. split; [|by apply (Hnil x y)]. by apply Hs.
    + done.
  - intros x Hx. destruct (Hall x Hx) as (y & Hy & _ & _ & Hl & _). destruct (I5 y Hy) as [B1 B2]. unfold scheduled in *. cbn [client]. split; [|lia].
    etransitivity; [|exact B1]. apply Nat.mul_le_mono_r. lia.
  - intros H3. rewrite (I6 H3), (Hlo H3). done.
Qed.

Context (i : nat) (w : WorkerContext) (Hw : workers s !! i = Some w).

Lemma worker_in : w ∈ workers s.
Proof using Hw. by eapply list_elem_of_lookup_2. Qed.

(** A step that changes the worker [i] only. *)
Lemma one_worker_inv (x : WorkerContext) (ex : list nat) :
  shrinks w x -> (forall t, cnt t (holdings x) + cnt t ex = cnt t (holdings w))%nat ->
  pool_inv n tasks (MkPool (nWorkers s) (<[i := x]> (workers s)) (client s) (executed s ++ ex) (lost s)).
Proof using I Hw.
  intros Hx Hcnt. rewrite <- (app_nil_r (lost s)). apply workers_inv; [by rewrite length_insert, (inv_workers n tasks s I)| | |done].
  - intros t. pose proof (held_update (workers s) i w x t Hw). specialize (Hcnt t). cbn. lia.
  - intros j y Hj. destruct (decide (i = j)) as [<-|Hne].
    + rewrite list_lookup_insert_eq in Hj by (by eapply lookup_lt_Some). injection Hj as <-. by exists w.
    + rewrite list_lookup_insert_ne in Hj by done. exists y. split; [done|]. apply shrinks_refl. by eapply list_elem_of_lookup_2.
Qed.

Lemma pc_inv (pc : worker_pc) :
  running w = [] -> running (at_pc pc w) = [] -> w_pc w <> W_STOPPED -> (pc = W_ASLEEP -> localQueue w = [] /\ shouldStop w = false) ->
  (pc = W_STOPPED -> shouldStop w = true) -> pool_inv n tasks (MkPool (nWorkers s) (<[i := at_pc pc w]> (workers s)) (client s) (executed s) (lost s)).
Proof using I Hw.
  intros Hr Hr' Hns Ha Hs. pose proof (inv_ok n tasks s I w worker_in) as [O1 O2 O3]. rewrite <- (app_nil_r (executed s)).
  apply one_worker_inv; [by split|]. intros t. unfold holdings. rewrite Hr, Hr'. cbn. lia.
Qed.

(** Stealing takes tasks off the end of the queue of the victim. *)
Lemma steal_half_spec (v : WorkerContext) :
  worker_ok v -> 1 < localQueueSize v ->
  exists t rest v' k, steal_half v = Some (Some t, rest, v', k) /\ localQueue v = localQueue v' ++ t :: rest /\ localQueueSize v' = Z.of_nat (length (localQueue v')) /\
    w_pc v' = w_pc v /\ shouldStop v' = shouldStop v /\ (length rest < Nat.div2 (length (localQueue v)))%nat.
Proof using Type.
  intros [O1 _ _] H1. unfold steal_half. set (len := length (localQueue v)) in *. rewrite O1 in *.
  assert (Hdiv : (Nat.div2 len = len / 2)%nat) by apply Nat.div2_div.
  replace (Z.of_nat len / 2) with (Z.of_nat (Nat.div2 len)) by (rewrite Hdiv, Nat2Z.inj_div; done). assert (Hk : (1 <= Nat.div2 len <= len)%nat).
  { assert (Hm : forall m, (2 <= m)%nat -> (1 <= Nat.div2 m)%nat) by (intros [|[|m]] Hm; [lia|lia|]; apply le_n_S, Nat.le_0_l). split; [apply Hm; lia|]. rewrite Hdiv. apply Nat.Div0.div_le_upper_bound. lia. }
  replace (Z.to_nat (Z.of_nat len - Z.of_nat (Nat.div2 len))) with (len - Nat.div2 len)%nat by lia. set (keep := (len - Nat.div2 len)%nat).
  rewrite (proj2 (Nat.ltb_ge len keep)) by lia. pose proof (take_drop keep (localQueue v)) as Htd. pose proof (length_drop (localQueue v) keep) as Hd. fold len in Hd.
  destruct (drop keep (localQueue v)) as [|t rest] eqn:Ed; [cbn in Hd; lia|]. eexists t, rest, _, _. split; [done|]. cbn. split; [done|].
  rewrite length_take. fold len. split; [lia|]. split; [done|]. split; [done|]. cbn in Hd. lia.
Qed.

Lemma steal_inv (k : nat) (v : WorkerContext) (c : Z) :
  k <> i -> w_pc w = W_STEAL k -> workers s !! k = Some v -> 1 < localQueueSize v ->
  exists t rest v' stealCount, steal_half v = Some (Some t, rest, v', stealCount) /\
    pool_inv n tasks (MkPool (nWorkers s) (<[i := at_pc (W_EXEC t) (MkWorker (localQueue w) (localQueueSize w) (shouldStop w) (tasksExecuted w) c (w_pc w))]> (<[k := v']> (workers s)))
      (client s) (executed s) (lost s ++ rest)).
Proof using I Hw.
  intros Hki Hpc Hv H1. assert (Hvin : v ∈ workers s) by (by eapply list_elem_of_lookup_2). pose proof (inv_ok n tasks s I v Hvin) as Ov.
  destruct (steal_half_spec v Ov H1) as (t & rest & v' & sc & Es & Eq & Esz & Epc & Estop & Hrest). exists t, rest, v', sc. split; [done|].
  set (x := at_pc (W_EXEC t) _). rewrite <- (app_nil_r (executed s)). pose proof (inv_ok n tasks s I w worker_in) as Ow.
  assert (Hwi : <[k := v']> (workers s) !! i = Some w) by (by rewrite list_lookup_insert_ne).
  apply workers_inv.
  - by rewrite !length_insert, (inv_workers n tasks s I).
  - intros u. pose proof (held_update (<[k := v']> (workers s)) i w x u Hwi). pose proof (held_update (workers s) k v v' u Hv). unfold holdings in *.
    rewrite Eq in *. assert (Er : running v' = running v) by (unfold running; by rewrite Epc). rewrite Er in *. change (localQueue x) with (localQueue w) in *.
    change (running x) with [t] in *. assert (Erw : running w = []) by (unfold running; by rewrite Hpc). rewrite Erw in *. rewrite !count_occ_app in *.
    rewrite (cnt_cons u t rest) in *. change (cnt u []) with 0%nat in *. lia.
  - intros j y Hj. destruct (decide (i = j)) as [<-|Hij].
    + rewrite list_lookup_insert_eq in Hj by (by eapply lookup_lt_Some). injection Hj as <-. exists w. split; [done|]. destruct Ow as [O1 O2 O3]. split; [by constructor|].
      split; [done|]. split; [done|]. by rewrite Hpc.
    + rewrite list_lookup_insert_ne in Hj by done. destruct (decide (k = j)) as [<-|Hkj].
      * rewrite list_lookup_insert_eq in Hj by (by eapply lookup_lt_Some). injection Hj as <-. exists v. split; [done|]. destruct Ov as [O1 O2 O3].
        assert (Hle : (length (localQueue v') <= length (localQueue v))%nat) by (rewrite Eq, length_app; lia). split; [|by rewrite Epc].
        constructor; [done|rewrite Epc, Estop; intros Ha; destruct (O2 Ha) as [E _]; rewrite E in Eq; by destruct (localQueue v')|by rewrite Epc, Estop].
      * rewrite list_lookup_insert_ne in Hj by done. exists y. split; [done|]. apply shrinks_refl. by eapply list_elem_of_lookup_2.
  - intros H3. destruct (inv_bound n tasks s I v Hvin) as [B1 _]. unfold scheduled in B1. assert (Hn : (0 < n)%nat) by (rewrite <- (inv_workers n tasks s I); apply lookup_lt_Some in Hw; lia).
    assert (Hlen : (length (localQueue v) <= 3)%nat) by nia. assert (Hd2 : (Nat.div2 (length (localQueue v)) <= 1)%nat).
    { destruct (length (localQueue v)) as [|[|[|[|q]]]]; cbn; lia. }
    destruct rest; [done|cbn in Hrest; lia].
Qed.
End WorkerStep.

(** No worker is missing. *)
Lemma no_more_workers (n : nat) (tasks : list nat) (s : pool) (k : nat) :
  pool_inv n tasks s -> workers s !! k = None -> (k <? nWorkers s)%nat = false.
Proof. intros I Hk%lookup_ge_None. apply Nat.ltb_ge. by rewrite (inv_nworkers n tasks s I), <- (inv_workers n tasks s I). Qed.

Lemma worker_step_inv (n : nat) (tasks : list nat) (s : pool) (i : nat) :
  pool_inv n tasks s -> match workerThreadMain i s with Next s' => pool_inv n tasks s' | Blocked => True | Fault => False end.
Proof.
  intros I. unfold workerThreadMain. destruct (workers s !! i) as [w|] eqn:Hw; [|done]. pose proof (inv_ok n tasks s I w (worker_in s i w Hw)) as [O1 O2 O3].
  assert (Hrun : (forall t, w_pc w <> W_EXEC t) -> running w = []) by (unfold running; destruct (w_pc w); try done; intros H; by destruct (H t)).
  destruct (w_pc w) as [| |k|t| | |] eqn:Hpc.
  - destruct (shouldStop w) eqn:Es; apply (pc_inv n tasks s I i w Hw); try done; try (by apply Hrun); by rewrite Hpc.
  - destruct (localQueue w) as [|t q] eqn:Eq.
    + apply (pc_inv n tasks s I i w Hw); try done; [by apply Hrun|by rewrite Hpc].
    + rewrite <- (app_nil_r (executed s)). apply (one_worker_inv n tasks s I i w Hw).
      * cbn [length] in O1. split; [constructor; cbn; [lia|done|done]|]. cbn. rewrite Eq. cbn. split; [done|]. split; [lia|]. by rewrite Hpc.
      * intros u. unfold holdings. rewrite Eq, (Hrun ltac:(done)). cbn [localQueue with_queue at_pc running w_pc]. rewrite !count_occ_app, (cnt_cons u t q). change (cnt u []) with 0%nat. cbn [running w_pc at_pc]. unfold running. cbn [w_pc at_pc]. lia.
  - destruct (workers s !! k) as [v|] eqn:Hv;
      [|rewrite (no_more_workers n tasks s k I Hv); apply (pc_inv n tasks s I i w Hw); try done; [by apply Hrun|by rewrite Hpc]].
    destruct (Nat.eqb_spec k i) as [->|Hki]; [apply (pc_inv n tasks s I i w Hw); try done; [by apply Hrun|by rewrite Hpc]|].
    destruct (Z.leb_spec (localQueueSize v) 1) as [Hle|Hgt]; [apply (pc_inv n tasks s I i w Hw); try done; [by apply Hrun|by rewrite Hpc]|].
    destruct (steal_half v) as [[[[task rest] v'] sc]|] eqn:Es.
    + destruct (steal_inv n tasks s I i w Hw k v (tasksStolen w + sc) Hki Hpc Hv Hgt) as (t & rest' & v'' & sc' & E & H). rewrite Es in E. injection E as -> -> -> ->. exact H.
    + destruct (steal_inv n tasks s I i w Hw k v 0 Hki Hpc Hv Hgt) as (t & rest' & v'' & sc' & E & _). congruence.
  - apply (one_worker_inv n tasks s I i w Hw).
    + split; [by constructor|]. cbn. split; [done|]. split; [done|]. by rewrite Hpc.
    + intros u. unfold holdings, running. cbn [localQueue w_pc]. rewrite Hpc, !count_occ_app. change (cnt u []) with 0%nat. lia.
  - destruct (negb (shouldStop w) && bool_decide (localQueue w = [])) eqn:E; apply (pc_inv n tasks s I i w Hw); try done; try (by apply Hrun); try (by rewrite Hpc).
    intros _. apply andb_true_iff in E as [E1 E2]. split; [by apply bool_decide_eq_true in E2|by apply negb_true_iff in E1].
  - apply (pc_inv n tasks s I i w Hw); try done; [by apply Hrun|by rewrite Hpc].
  - done.
Qed.

(** ** Steps of the client *)

Lemma smallest_spec (ws : list WorkerContext) (i target : nat) (m : Z) (x : WorkerContext) (pre : list WorkerContext) :
  length pre = i -> (pre ++ ws) !! target = Some x -> localQueueSize x = m -> (forall w, w ∈ pre -> m <= localQueueSize w) ->
  exists y, (pre ++ ws) !! smallest i target m ws = Some y /\ forall w, w ∈ pre ++ ws -> localQueueSize y <= localQueueSize w.
Proof.
  revert i target m x pre. induction ws as [|w ws IH]; intros i target m x pre Hi Hx Hm Hpre; cbn [smallest].
  - exists x. split; [done|]. rewrite app_nil_r. by rewrite Hm.
  - replace (pre ++ w :: ws) with ((pre ++ [w]) ++ ws) in * by (by rewrite <- app_assoc). destruct (Z.ltb_spec (localQueueSize w) m) as [Hlt|Hge].
    + apply (IH (S i) i (localQueueSize w) w (pre ++ [w])); [rewrite length_app; cbn; lia| |done|].
      * rewrite <- app_assoc. rewrite lookup_app_r by lia. by replace (i - length pre)%nat with 0%nat by lia.
      * intros v [Hv| ->%list_elem_of_singleton]%elem_of_app; [specialize (Hpre v Hv); lia|lia].
    + apply (IH (S i) target m x (pre ++ [w])); [rewrite length_app; cbn; lia|done|done|].
      intros v [Hv| ->%list_elem_of_singleton]%elem_of_app; [by apply Hpre|lia].
Qed.

(** The target of a task has the smallest queue. *)
Lemma target_spec (ws : list WorkerContext) :
  ws <> [] -> (forall w, w ∈ ws -> localQueueSize w < 2 ^ 31 - 1) ->
  exists y, ws !! smallest 0 0 (2 ^ 31 - 1) ws = Some y /\ forall w, w ∈ ws -> localQueueSize y <= localQueueSize w.
Proof.
  intros Hne Hlt. destruct ws as [|w ws]; [done|]. cbn [smallest]. rewrite (proj2 (Z.ltb_lt _ _)) by (apply Hlt; by left).
  apply (smallest_spec ws 1 0 (localQueueSize w) w [w]); [done|done|done|]. intros v ->%list_elem_of_singleton. done.
Qed.

Lemma held_length (ws : list WorkerContext) (m : nat) : (forall w, w ∈ ws -> (m <= length (localQueue w))%nat) -> (m * length ws <= length (held ws))%nat.
Proof.
  induction ws as [|w ws IH]; intros H; [cbn; lia|]. change (held (w :: ws)) with (holdings w ++ held ws). rewrite length_app. unfold holdings at 1. rewrite length_app.
  specialize (IH (fun v Hv => H v (list_elem_of_further _ _ _ Hv))). specialize (H w ltac:(by left)). cbn [length]. lia.
Qed.

Lemma awake_ok (w : WorkerContext) : worker_ok w \/ localQueueSize w = Z.of_nat (length (localQueue w)) /\ (w_pc w = W_STOPPED -> shouldStop w = true) -> worker_ok (awake w).
Proof.
  unfold awake. intros [[O1 O2 O3]|[O1 O3]]; destruct (w_pc w) eqn:E; constructor; cbn; try done; rewrite ?E; done.
Qed.

Lemma awake_queue (w : WorkerContext) : localQueue (awake w) = localQueue w /\ shouldStop (awake w) = shouldStop w.
Proof. unfold awake. by destruct (w_pc w). Qed.

Section ClientStep.
Context (n : nat) (tasks : list nat) (Hn : (0 < n)%nat) (Hsmall : Z.of_nat (length tasks) < 2 ^ 31 - 1).

Lemma pending_le (s : pool) : pool_inv n tasks s -> (length (held (workers s)) + length (pending (client s)) <= length tasks)%nat.
Proof. intros I. rewrite <- (inv_length n tasks s I). unfold all_tasks. rewrite !length_app. lia. Qed.

(** Scheduling a task. *)
Lemma schedule_inv (s : pool) (t : nat) (ts : list nat) :
  pool_inv n tasks s -> client s = C_SCHEDULE (t :: ts) ->
  exists ws, graphScheduleTask t (workers s) = Some ws /\ pool_inv n tasks (MkPool (nWorkers s) ws (C_SCHEDULE ts) (executed s) (lost s)).
Proof.
  intros I Hc. pose proof (pending_le s I) as Hp. rewrite Hc in Hp. cbn [pending length] in Hp. pose proof I as [I0 I1 I2 I3 I4 I5 I6].
  assert (Hsched : scheduled tasks s = (length tasks - S (length ts))%nat) by (unfold scheduled; by rewrite Hc).
  destruct (target_spec (workers s)) as (y & Hy & Hmin).
  { intros E. rewrite E in I1. cbn in I1. lia. }
  { intros w Hw. destruct (I5 w Hw) as [_ B]. rewrite (ok_size w (I3 w Hw)). lia. }
  unfold graphScheduleTask. rewrite Hy. eexists. split; [done|]. set (k := smallest _ _ _ _) in *. assert (Hyin : y ∈ workers s) by (by eapply list_elem_of_lookup_2).
  assert (Hmem : forall w, w ∈ awake <$> <[k := push t y]> (workers s) -> exists v, w = awake v /\ (v = push t y \/ v ∈ workers s)).
  { intros w (v & -> & Hv)%list_elem_of_fmap. exists v. split; [done|]. by apply elem_of_insert_worker in Hv. }
  unfold client_ok in I4. rewrite Hc in I4. constructor; cbn [nWorkers workers client executed lost].
  - done.
  - by rewrite length_fmap, length_insert.
  - intros u. rewrite <- I2. unfold all_tasks. cbn [workers client executed lost]. rewrite (fmap_holdings awake _ awake_holdings), Hc. cbn [pending].
    pose proof (held_update (workers s) k y (push t y) u Hy) as Hu. change (holdings (push t y)) with ((t :: localQueue y) ++ running y) in Hu. unfold holdings in Hu.
    rewrite !count_occ_app in *. rewrite (cnt_cons u t ts). rewrite (cnt_cons u t (localQueue y)) in Hu. lia.
  - intros w Hw. destruct (Hmem w Hw) as (v & -> & [->|Hv]); apply awake_ok; [right|left; by apply I3]. destruct (I3 y Hyin) as [O1 O2 O3]. cbn. split; [lia|done].
  - unfold client_ok. cbn [workers client]. intros w Hw. destruct (Hmem w Hw) as (v & -> & [->|Hv]); rewrite (proj2 (awake_queue _)); [exact (I4 y Hyin)|by apply I4].
  - assert (Hs' : scheduled tasks (MkPool (nWorkers s) (awake <$> <[k := push t y]> (workers s)) (C_SCHEDULE ts) (executed s) (lost s)) = S (scheduled tasks s)) by (rewrite Hsched; unfold scheduled; cbn; lia).
    rewrite Hs'. intros w Hw. destruct (Hmem w Hw) as (v & -> & [->|Hv]); rewrite (proj1 (awake_queue _)).
    + cbn [push with_queue localQueue length]. assert (Hmul : (length (localQueue y) * n <= length (held (workers s)))%nat).
      { rewrite <- I1. apply held_length. intros v Hv. specialize (Hmin v Hv). rewrite (ok_size y (I3 y Hyin)), (ok_size v (I3 v Hv)) in Hmin. lia. }
      destruct (I5 y Hyin) as [_ B]. split; [|lia]. replace (S (length (localQueue y)) - 1)%nat with (length (localQueue y)) by lia. lia.
    + destruct (I5 v Hv) as [B1 B2]. split; lia.
  - done.
Qed.

Lemma client_step_inv (s : pool) :
  pool_inv n tasks s -> match client_step s with Next s' => pool_inv n tasks s' | Blocked => True | Fault => False end.
Proof.
  intros I. pose proof I as [I0 I1 I2 I3 I4 I5 I6]. unfold client_step, client_ok in *. unfold all_tasks, scheduled in *.
  destruct (client s) as [[|t ts]| | |i| |ts0] eqn:Hc.
  - constructor; cbn; try done; unfold all_tasks, scheduled, client_ok; cbn; done.
  - destruct (schedule_inv s t ts I Hc) as (ws & -> & H). exact H.
  - destruct (forallb _ (workers s)) eqn:Ed; constructor; cbn; try done. unfold client_ok. cbn. intros w Hw. split; [by apply I4|].
    rewrite forallb_forall in Ed. specialize (Ed w ltac:(by apply list_elem_of_In)). apply Z.leb_le in Ed. rewrite (ok_size w (I3 w Hw)) in Ed.
    destruct (localQueue w); [done|cbn in Ed; lia].
  - assert (Hmem : forall w, w ∈ awake <$> (stop <$> workers s) -> exists v, w = awake (stop v) /\ v ∈ workers s).
    { intros w (x & -> & (v & -> & Hv)%list_elem_of_fmap)%list_elem_of_fmap. by exists v. }
    constructor; cbn [nWorkers workers client executed lost]; unfold all_tasks, scheduled, client_ok; cbn [workers client executed lost pending].
    + done.
    + by rewrite !length_fmap.
    + intros t. rewrite (fmap_holdings awake _ awake_holdings), (fmap_holdings stop); [by apply I2|done].
    + intros w Hw. destruct (Hmem w Hw) as (v & -> & Hv). apply awake_ok. right. destruct (I3 v Hv) as [O1 _ _]. done.
    + split; [|intros j w Hj; lia]. intros w Hw. destruct (Hmem w Hw) as (v & -> & Hv). destruct (awake_queue (stop v)) as [-> ->]. split; [done|]. exact (proj2 (I4 v Hv)).
    + intros w Hw. destruct (Hmem w Hw) as (v & -> & Hv). rewrite (proj1 (awake_queue _)). exact (I5 v Hv).
    + done.
  - destruct I4 as [I4 I4']. destruct (workers s !! i) as [w|] eqn:Hw.
    + destruct (w_pc w) eqn:Ew; try done. constructor; cbn; try done. unfold client_ok. cbn. split; [done|]. intros j x Hj Hx. destruct (decide (j = i)) as [->|Hne]; [congruence|].
      apply (I4' j); [lia|done].
    + constructor; cbn; try done. unfold client_ok. cbn. intros w Hin. split; [|by apply I4]. apply list_elem_of_lookup in Hin as [j Hj]. apply (I4' j); [|done].
      apply lookup_ge_None in Hw. apply lookup_lt_Some in Hj. lia.
  - done.
  - done.
Qed.

End ClientStep.

(** ** While the workers are created *)

(** A worker that has nothing to do yet. *)
Definition idle (w : WorkerContext) : Prop :=
  worker_ok w /\ localQueue w = [] /\ shouldStop w = false /\ running w = [].

Record creating (n : nat) (tasks : list nat) (s : pool) : Prop := {
  cr_nworkers : nWorkers s = n;
  cr_workers : (length (workers s) <= n)%nat;
  cr_idle : forall w, w ∈ workers s -> idle w;
  cr_client : client s = C_CREATE tasks;
  cr_executed : executed s = [];
  cr_lost : lost s = []
}.

Lemma held_idle (ws : list WorkerContext) : (forall w, w ∈ ws -> idle w) -> held ws = [].
Proof.
  induction ws as [|w ws IH]; intros H; [done|]. change (held (w :: ws)) with (holdings w ++ held ws). rewrite IH by (intros x Hx; apply H; by right).
  destruct (H w ltac:(by left)) as (_ & H1 & _ & H2). unfold holdings. by rewrite H1, H2.
Qed.

Section Creating.
Context (n : nat) (tasks : list nat).

Lemma creating_go (s : pool) (i : nat) (x : WorkerContext) :
  creating n tasks s -> idle x -> creating n tasks (MkPool (nWorkers s) (<[i := x]> (workers s)) (client s) (executed s) (lost s)).
Proof.
  intros [H1 H2 H3 H4 H5 H6] Hx. constructor; cbn; try done; [by rewrite length_insert|]. intros w [->|Hw]%elem_of_insert_worker; [done|by apply H3].
Qed.

(** A step of a worker: only the search for a victim can go wrong. *)
Lemma creating_worker (s : pool) (i : nat) :
  creating n tasks s ->
  match workerThreadMain i s with
  | Next s' => creating n tasks s'
  | Blocked => True
  | Fault => exists w k, workers s !! i = Some w /\ w_pc w = W_STEAL k /\ (length (workers s) <= k < nWorkers s)%nat
  end.
Proof.
  intros C. unfold workerThreadMain. destruct (workers s !! i) as [w|] eqn:Hw; [|done].
  destruct (cr_idle n tasks s C w ltac:(by eapply list_elem_of_lookup_2)) as ([O1 O2 O3] & Hq & Hs & Hr).
  assert (Hgo : forall pc, pc <> W_STOPPED -> running (at_pc pc w) = [] ->
            creating n tasks (MkPool (nWorkers s) (<[i := at_pc pc w]> (workers s)) (client s) (executed s) (lost s))).
  { intros pc Hpc Hrun. apply creating_go; [done|]. split; [|done]. by constructor. }
  destruct (w_pc w) as [| |k|t| | |] eqn:Hpc.
  - rewrite Hs. by apply Hgo.
  - rewrite Hq. by apply Hgo.
  - destruct (workers s !! k) as [v|] eqn:Hv.
    + destruct (k =? i)%nat; [by apply Hgo|]. destruct (cr_idle n tasks s C v ltac:(by eapply list_elem_of_lookup_2)) as ([Ov _ _] & Hvq & _).
      rewrite Hvq in Ov. rewrite Ov. by apply Hgo.
    + destruct (Nat.ltb_spec k (nWorkers s)) as [Hlt|Hge]; [|by apply Hgo]. exists w, k. apply lookup_ge_None in Hv. done.
  - unfold running in Hr. by rewrite Hpc in Hr.
  - rewrite Hs, Hq. by apply Hgo.
  - by apply Hgo.
  - done.
Qed.

(** After the last worker is created the pool is as it should be. *)
Lemma created_inv (s : pool) :
  creating n tasks s -> length (workers s) = n ->
  pool_inv n tasks (MkPool (nWorkers s) (workers s) (graphExecuteParallel tasks) (executed s) (lost s)).
Proof.
  intros [H1 H2 H3 H4 H5 H6] Hn. constructor; cbn [nWorkers workers client executed lost]; [done|done| | | | |done].
  - intros t. unfold all_tasks. cbn [workers client executed lost]. rewrite (held_idle _ H3), H5, H6. by destruct tasks.
  - intros w Hw. by apply H3.
  - unfold client_ok. cbn [client workers]. destruct tasks; cbn [graphExecuteParallel]; intros w Hw; destruct (H3 w Hw) as (_ & ? & ? & _); done.
  - intros w Hw. destruct (H3 w Hw) as (_ & -> & _). cbn. lia.
Qed.

Lemma creating_client (s : pool) :
  creating n tasks s ->
  exists s', client_step s = Next s' /\
    (creating n tasks s' /\ length (workers s') = S (length (workers s)) \/ pool_inv n tasks s').
Proof.
  intros C. pose proof C as [H1 H2 H3 H4 H5 H6]. unfold client_step. rewrite H4. eexists. split; [done|]. unfold graphCreateTaskScheduler.
  destruct (Nat.ltb_spec (length (workers s)) (nWorkers s)) as [Hlt|Hge]; [|right; apply created_inv; [done|lia]].
  left. split; [|cbn; rewrite length_app; cbn; lia]. constructor; cbn; try done; [rewrite length_app; cbn; lia|].
  intros w [Hw| ->%list_elem_of_singleton]%elem_of_app; [by apply H3|]. split; [by constructor|done].
Qed.
End Creating.

(** ** What holds of every state *)

Section Reachable.
Context (n : nat) (tasks : list nat) (Hn : (0 < n)%nat) (Hsmall : Z.of_nat (length tasks) < 2 ^ 31 - 1).

Definition reachable_ok (s : pool) : Prop := creating n tasks s \/ pool_inv n tasks s.

Lemma reachable_step (s s' : pool) : step s s' -> reachable_ok s -> reachable_ok s'.
Proof.
  intros [[|i] Hm] [C|I]; cbn [move_of] in Hm.
  - destruct (creating_client n tasks s C) as (s1 & E & H). rewrite E in Hm. injection Hm as <-. unfold reachable_ok. tauto.
  - pose proof (client_step_inv n tasks Hn Hsmall s I) as Hi. rewrite Hm in Hi. by right.
  - pose proof (creating_worker n tasks s i C) as Hi. rewrite Hm in Hi. by left.
  - pose proof (worker_step_inv n tasks s i I) as Hi. rewrite Hm in Hi. by right.
Qed.

Lemma reachable_inv (s : pool) : rtc step (MkPool n [] (C_CREATE tasks) [] []) s -> reachable_ok s.
Proof.
  intros H. assert (Hgen : forall a b, rtc step a b -> reachable_ok a -> reachable_ok b).
  { induction 1 as [|a b c Hab _ IH]; [done|]. intros Ha. apply IH. by eapply reachable_step. }
  apply (Hgen _ _ H). left. constructor; cbn; try done; [lia|]. intros w Hw. by apply elem_of_nil in Hw.
Qed.

End Reachable.


(** ** The pool can finish *)

Definition queued (ws : list WorkerContext) : nat := sum_list_with (fun w => length (localQueue w)) ws.

Lemma queued_update (ws : list WorkerContext) (i : nat) (w x : WorkerContext) :
  ws !! i = Some w -> (queued (<[i := x]> ws) + length (localQueue w) = queued ws + length (localQueue x))%nat.
Proof.
  revert i. induction ws as [|y ws IH]; intros i Hi; [done|]. change (queued (y :: ws)) with (length (localQueue y) + queued ws)%nat.
  destruct i as [|i].
  - injection Hi as ->. change (queued (<[0%nat := x]> (w :: ws))) with (length (localQueue x) + queued ws)%nat. lia.
  - specialize (IH i Hi). change (queued (<[S i := x]> (y :: ws))) with (length (localQueue y) + queued (<[i := x]> ws))%nat. lia.
Qed.

Lemma queued_zero (ws : list WorkerContext) : queued ws = 0%nat <-> forall w, w ∈ ws -> localQueue w = [].
Proof.
  induction ws as [|y ws IH]; cbn; [split; [intros _ w Hw; by apply elem_of_nil in Hw|done]|]. split.
  - intros H w [->|Hw]%elem_of_cons; [destruct (localQueue y); [done|cbn in H; lia]|]. apply IH; [unfold queued; lia|done].
  - intros H. rewrite (H y) by (by left). cbn. apply IH. intros w Hw. apply H. by right.
Qed.

Section Finish.
Context (n : nat) (tasks : list nat) (Hn : (0 < n)%nat) (Hsmall : Z.of_nat (length tasks) < 2 ^ 31 - 1).

Definition can_reach (P : pool -> Prop) (s : pool) : Prop := exists s', rtc step s s' /\ P s'.

Lemma can_reach_step (P : pool -> Prop) (s s' : pool) (th : thread) : move_of th s = Next s' -> can_reach P s' -> can_reach P s.
Proof using Type. intros H (s2 & H2 & HP). exists s2. split; [|done]. eapply rtc_l; [by exists th|done]. Qed.

(** How far a worker is from its queue. *)
Definition distance_to_queue (w : WorkerContext) : nat :=
  match w_pc w with W_LOCAL => 0 | W_TEST => 1 | W_EXEC _ | W_WAIT => 2 | W_STEAL k => 3 + (n - k) | _ => 0 end.

(** A worker with tasks takes one, or comes closer to it. *)
Lemma drive_worker (s : pool) (j : nat) (w : WorkerContext) :
  pool_inv n tasks s -> client s = C_POLL -> workers s !! j = Some w -> localQueue w <> [] ->
  exists s', move_of (Worker j) s = Next s' /\ client s' = C_POLL /\
    ((queued (workers s') < queued (workers s))%nat \/
     queued (workers s') = queued (workers s) /\ exists w', workers s' !! j = Some w' /\ localQueue w' <> [] /\ (distance_to_queue w' < distance_to_queue w)%nat).
Proof.
  intros I Hc Hw Hq. assert (Hin : w ∈ workers s) by (by eapply list_elem_of_lookup_2). pose proof (inv_ok n tasks s I w Hin) as [O1 O2 O3].
  assert (Hstop : shouldStop w = false) by (pose proof (inv_client n tasks s I) as HC; unfold client_ok in HC; rewrite Hc in HC; by apply HC).
  assert (Hj : (j < length (workers s))%nat) by (by eapply lookup_lt_Some).
  assert (Hgo : forall x ex lo, localQueue x = localQueue w -> (distance_to_queue x < distance_to_queue w)%nat ->
            let s' := MkPool (nWorkers s) (<[j := x]> (workers s)) (client s) ex lo in
            client s' = C_POLL /\ ((queued (workers s') < queued (workers s))%nat \/ queued (workers s') = queued (workers s) /\
              exists w', workers s' !! j = Some w' /\ localQueue w' <> [] /\ (distance_to_queue w' < distance_to_queue w)%nat)).
  { intros x ex lo Ex Hd s'. split; [done|]. right. pose proof (queued_update (workers s) j w x Hw) as Hu. rewrite Ex in Hu. unfold s'. cbn [workers client]. split; [lia|].
    exists x. rewrite list_lookup_insert_eq by done. by rewrite Ex. }
  cbn [move_of]. unfold workerThreadMain. rewrite Hw. unfold distance_to_queue in Hgo. destruct (w_pc w) as [| |k|t| | |] eqn:Hpc; try rewrite Hpc in Hgo.
  - eexists. split; [done|]. rewrite Hstop. unfold distance_to_queue. rewrite Hpc. apply Hgo; [done|cbn; lia].
  - destruct (localQueue w) as [|t q] eqn:Eq; [done|]. eexists. split; [done|]. split; [done|]. left. cbn [workers].
    pose proof (queued_update (workers s) j w (at_pc (W_EXEC t) (with_queue q (localQueueSize w - 1) w)) Hw) as Hu. rewrite Eq in Hu. cbn [length at_pc with_queue localQueue] in Hu. lia.
  - destruct (workers s !! k) as [v|] eqn:Hv;
      [|rewrite (no_more_workers n tasks s k I Hv); eexists; split; [done|]; unfold distance_to_queue; rewrite Hpc; apply Hgo; [done|cbn; lia]].
    assert (Hk : (k < n)%nat) by (rewrite <- (inv_workers n tasks s I); by eapply lookup_lt_Some).
    destruct (Nat.eqb_spec k j) as [->|Hkj]; [eexists; split; [done|]; unfold distance_to_queue; rewrite Hpc; apply Hgo; [done|cbn; lia]|].
    destruct (Z.leb_spec (localQueueSize v) 1) as [Hle|Hgt]; [eexists; split; [done|]; unfold distance_to_queue; rewrite Hpc; apply Hgo; [done|cbn; lia]|].
    pose proof (inv_ok n tasks s I v ltac:(by eapply list_elem_of_lookup_2)) as Ov. destruct (steal_half_spec v Ov Hgt) as (t & rest & v' & sc & -> & Eq & _).
    eexists. split; [done|]. split; [done|]. left. cbn [workers]. pose proof (queued_update (workers s) k v v' Hv) as H1. rewrite Eq, length_app in H1. cbn [length] in H1.
    assert (Hwk : <[k := v']> (workers s) !! j = Some w) by (by rewrite list_lookup_insert_ne).
    match goal with |- (queued (<[j := ?x]> _) < _)%nat => pose proof (queued_update (<[k := v']> (workers s)) j w x Hwk) as H2 end. cbn [localQueue at_pc] in H2. lia.
  - eexists. split; [done|]. unfold distance_to_queue. rewrite Hpc. apply Hgo; [done|cbn; lia].
  - eexists. split; [done|]. unfold distance_to_queue. rewrite Hpc, Hstop, bool_decide_eq_false_2 by done. apply Hgo; [done|cbn; lia].
  - by destruct (O2 eq_refl).
  - rewrite (O3 eq_refl) in Hstop. done.
Qed.

(** All queues get empty. *)
Lemma reach_empty (q d : nat) (s : pool) (j : nat) (w : WorkerContext) :
  (forall s, pool_inv n tasks s -> client s = C_POLL -> (queued (workers s) < q)%nat -> can_reach (fun s => pool_inv n tasks s /\ client s = C_POLL /\ queued (workers s) = 0%nat) s) ->
  pool_inv n tasks s -> client s = C_POLL -> queued (workers s) = q -> workers s !! j = Some w -> localQueue w <> [] -> (distance_to_queue w < d)%nat ->
  can_reach (fun s => pool_inv n tasks s /\ client s = C_POLL /\ queued (workers s) = 0%nat) s.
Proof.
  intros IHq. revert s w. induction d as [|d IHd]; intros s w I Hc Hq Hw Hne Hd; [lia|].
  destruct (drive_worker s j w I Hc Hw Hne) as (s' & Hm & Hc' & H). pose proof (worker_step_inv n tasks s j I) as I'. cbn [move_of] in Hm. rewrite Hm in I'.
  apply (can_reach_step _ s s' (Worker j) Hm). destruct H as [Hlt|(Heq & w' & Hw' & Hne' & Hd')]; [apply IHq; [done|done|lia]|].
  apply (IHd s' w'); [done|done|lia|done|done|lia].
Qed.

Lemma can_empty (s : pool) :
  pool_inv n tasks s -> client s = C_POLL -> can_reach (fun s => pool_inv n tasks s /\ client s = C_POLL /\ queued (workers s) = 0%nat) s.
Proof.
  remember (queued (workers s)) as q eqn:Hq. revert s Hq. induction (lt_wf q) as [q _ IH]. intros s Hq I Hc. destruct (decide (q = 0%nat)) as [->|Hne]; [exists s; done|].
  assert (exists j w, workers s !! j = Some w /\ localQueue w <> []) as (j & w & Hw & Hnq).
  { destruct (decide (Forall (fun w => localQueue w = []) (workers s))) as [HF|HF].
    - exfalso. apply Hne. rewrite Hq. apply queued_zero. by apply list.Forall_forall.
    - apply not_Forall_Exists, list.Exists_exists in HF as (w & Hin & Hx); [|intros x; apply _]. apply list_elem_of_lookup in Hin as [j Hj]. by exists j, w. }
  apply (reach_empty q (S (distance_to_queue w)) s j w); try done; [|lia]. intros s2 I2 Hc2 Hlt. by apply (IH (queued (workers s2))).
Qed.

(** How far a worker that is told to stop is from the end. *)
Definition distance_to_stop (w : WorkerContext) : nat :=
  match w_pc w with W_STOPPED => 0 | W_TEST => 1 | W_EXEC _ | W_WAIT | W_ASLEEP => 2 | W_STEAL k => 3 + (n - k) | W_LOCAL => 4 + n end.

Lemma drive_stop (s : pool) (i j : nat) (w : WorkerContext) :
  pool_inv n tasks s -> client s = C_JOIN i -> workers s !! j = Some w -> w_pc w <> W_STOPPED ->
  exists s' w', move_of (Worker j) s = Next s' /\ client s' = C_JOIN i /\ workers s' !! j = Some w' /\ (distance_to_stop w' < distance_to_stop w)%nat.
Proof.
  intros I Hc Hw Hns. assert (Hin : w ∈ workers s) by (by eapply list_elem_of_lookup_2).
  pose proof (inv_client n tasks s I) as HC. unfold client_ok in HC. rewrite Hc in HC. destruct HC as [HC _]. destruct (HC w Hin) as [Hstop Hq].
  assert (Hgo : forall x ex lo, (distance_to_stop x < distance_to_stop w)%nat ->
            exists s' w', Next (MkPool (nWorkers s) (<[j := x]> (workers s)) (client s) ex lo) = Next s' /\ client s' = C_JOIN i /\ workers s' !! j = Some w' /\
              (distance_to_stop w' < distance_to_stop w)%nat).
  { intros x ex lo Hd. eexists _, x. split; [done|]. cbn. rewrite list_lookup_insert_eq by (by eapply lookup_lt_Some). done. }
  assert (Hd : forall (pc : worker_pc) y, distance_to_stop (at_pc pc y) = match pc with W_STOPPED => 0 | W_TEST => 1 | W_EXEC _ | W_WAIT | W_ASLEEP => 2 | W_STEAL k => 3 + (n - k) | W_LOCAL => 4 + n end%nat) by done.
  cbn [move_of]. unfold workerThreadMain. rewrite Hw. assert (Ew : distance_to_stop w = distance_to_stop (at_pc (w_pc w) w)) by done.
  destruct (w_pc w) as [| |k|t| | |] eqn:Hpc; try done; rewrite Hd in Ew.
  - rewrite Hstop. apply Hgo. rewrite Hd. lia.
  - rewrite Hq. apply Hgo. rewrite Hd. lia.
  - destruct (workers s !! k) as [v|] eqn:Hv; [|rewrite (no_more_workers n tasks s k I Hv); apply Hgo; rewrite Hd; lia].
    assert (Hk : (k < n)%nat) by (rewrite <- (inv_workers n tasks s I); by eapply lookup_lt_Some). assert (Hvin : v ∈ workers s) by (by eapply list_elem_of_lookup_2).
    destruct (k =? j)%nat; [apply Hgo; rewrite Hd; lia|]. rewrite (proj2 (Z.leb_le _ _)); [apply Hgo; rewrite Hd; lia|].
    rewrite (ok_size v (inv_ok n tasks s I v Hvin)). destruct (HC v Hvin) as [_ ->]. cbn. lia.
  - apply Hgo. unfold distance_to_stop at 1. cbn [w_pc]. lia.
  - rewrite Hstop. apply Hgo. cbn [negb andb]. rewrite Hd. lia.
  - apply Hgo. rewrite Hd. lia.
Qed.

Lemma can_stop (d : nat) (s : pool) (i : nat) (w : WorkerContext) :
  pool_inv n tasks s -> client s = C_JOIN i -> workers s !! i = Some w -> (distance_to_stop w <= d)%nat ->
  can_reach (fun s => pool_inv n tasks s /\ client s = C_JOIN (S i)) s.
Proof.
  revert s w. induction d as [|d IH]; intros s w I Hc Hw Hd; (destruct (decide (distance_to_stop w = 0%nat)) as [E|Hne];
    [assert (Hpc : w_pc w = W_STOPPED) by (unfold distance_to_stop in E; by destruct (w_pc w)); pose proof (client_step_inv n tasks Hn Hsmall s I) as I';
     assert (Hm : move_of Client s = Next (MkPool (nWorkers s) (workers s) (C_JOIN (S i)) (executed s) (lost s))) by (cbn; unfold client_step; by rewrite Hc, Hw, Hpc);
     apply (can_reach_step _ _ _ _ Hm); cbn [move_of] in Hm; rewrite Hm in I'; by eexists|]).
  - lia.
  - destruct (drive_stop s i i w I Hc Hw) as (s' & w' & Hm & Hc' & Hw' & Hd'); [intros Hpc; apply Hne; unfold distance_to_stop; by rewrite Hpc|].
    apply (can_reach_step _ _ _ _ Hm). pose proof (worker_step_inv n tasks s i I) as I'. cbn [move_of] in Hm. rewrite Hm in I'. apply (IH s' w'); [done|done|done|lia].
Qed.

Lemma can_reach_trans (P Q : pool -> Prop) (s : pool) : can_reach P s -> (forall s, P s -> can_reach Q s) -> can_reach Q s.
Proof using Type. intros (s1 & H1 & HP) H. destruct (H s1 HP) as (s2 & H2 & HQ). exists s2. split; [by etransitivity|done]. Qed.

Lemma can_join (k : nat) (s : pool) (i : nat) : pool_inv n tasks s -> client s = C_JOIN i -> (n - i <= k)%nat -> can_reach (fun s => client s = C_FREED) s.
Proof.
  revert s i. induction k as [|k IH]; intros s i I Hc Hk.
  - assert (Hm : move_of Client s = Next (MkPool (nWorkers s) (workers s) C_FREED (executed s) (lost s))).
    { cbn. unfold client_step. rewrite Hc, lookup_ge_None_2; [done|]. rewrite (inv_workers n tasks s I). lia. }
    apply (can_reach_step _ _ _ _ Hm). by eexists.
  - destruct (workers s !! i) as [w|] eqn:Hw.
    + eapply can_reach_trans; [by apply (can_stop (distance_to_stop w) s i w)|]. intros s' [I' Hc']. apply (IH s' (S i)); [done|done|lia].
    + assert (Hm : move_of Client s = Next (MkPool (nWorkers s) (workers s) C_FREED (executed s) (lost s))) by (cbn; unfold client_step; by rewrite Hc, Hw).
      apply (can_reach_step _ _ _ _ Hm). by eexists.
Qed.

Lemma can_return (s : pool) : pool_inv n tasks s -> client s = C_RETURN -> can_reach (fun s => client s = C_FREED) s.
Proof.
  intros I Hc. pose proof (client_step_inv n tasks Hn Hsmall s I) as I'.
  assert (Hm : move_of Client s = Next (MkPool (nWorkers s) (awake <$> (stop <$> workers s)) (C_JOIN 0) (executed s) (lost s))) by (cbn; unfold client_step; by rewrite Hc).
  apply (can_reach_step _ _ _ _ Hm). cbn [move_of] in Hm. rewrite Hm in I'. by apply (can_join n _ 0); [|done|lia].
Qed.

Lemma can_poll (s : pool) : pool_inv n tasks s -> client s = C_POLL -> can_reach (fun s => client s = C_FREED) s.
Proof.
  intros I Hc. eapply can_reach_trans; [by apply can_empty|]. intros s1 (I1 & Hc1 & Hq). pose proof (client_step_inv n tasks Hn Hsmall s1 I1) as I'.
  assert (Hall : forallb (fun w => localQueueSize w <=? 0) (workers s1) = true).
  { apply forallb_forall. intros w Hw%list_elem_of_In. rewrite (ok_size w (inv_ok n tasks s1 I1 w Hw)), (proj1 (queued_zero (workers s1)) Hq w Hw). done. }
  assert (Hm : move_of Client s1 = Next (MkPool (nWorkers s1) (workers s1) C_RETURN (executed s1) (lost s1))) by (cbn; unfold client_step; by rewrite Hc1, Hall).
  apply (can_reach_step _ _ _ _ Hm). cbn [move_of] in Hm. rewrite Hm in I'. by apply can_return.
Qed.

Lemma can_schedule (ts : list nat) (s : pool) : pool_inv n tasks s -> client s = C_SCHEDULE ts -> can_reach (fun s => client s = C_FREED) s.
Proof.
  revert s. induction ts as [|t ts IH]; intros s I Hc; pose proof (client_step_inv n tasks Hn Hsmall s I) as I'.
  - assert (Hm : move_of Client s = Next (MkPool (nWorkers s) (workers s) C_POLL (executed s) (lost s))) by (cbn; unfold client_step; by rewrite Hc).
    apply (can_reach_step _ _ _ _ Hm). cbn [move_of] in Hm. rewrite Hm in I'. by apply can_poll.
  - destruct (schedule_inv n tasks Hn Hsmall s t ts I Hc) as (ws & Es & Is).
    assert (Hm : move_of Client s = Next (MkPool (nWorkers s) ws (C_SCHEDULE ts) (executed s) (lost s))) by (cbn; unfold client_step; by rewrite Hc, Es).
    apply (can_reach_step _ _ _ _ Hm). by apply IH.
Qed.

Lemma can_finish (s : pool) : pool_inv n tasks s -> can_reach (fun s => client s = C_FREED) s.
Proof.
  intros I. destruct (client s) as [ts| | |i| |ts0] eqn:Hc; [by apply (can_schedule ts)|by apply can_poll|by apply can_return|by apply (can_join n s i); [| |lia]|by exists s|].
  pose proof (inv_client n tasks s I) as HC. unfold client_ok in HC. by rewrite Hc in HC.
Qed.

(** The client can create the workers that are missing. *)
Lemma can_create (k : nat) (s : pool) : creating n tasks s -> (n - length (workers s) <= k)%nat -> can_reach (fun s => client s = C_FREED) s.
Proof.
  revert s. induction k as [|k IH]; intros s C Hk; destruct (creating_client n tasks s C) as (s' & E & [[C' Hl]|I]);
    apply (can_reach_step _ s s' Client E); try by apply can_finish.
  - pose proof (cr_workers n tasks s' C'). lia.
  - apply IH; [done|lia].
Qed.
End Finish.

(** What holds of a pool with [n] workers that is given [tasks]. *)
Section Correct.
Context (n : nat) (tasks : list nat) (Hn : (0 < n)%nat) (Hs : Z.of_nat (length tasks) < 2 ^ 31 - 1) (s : pool) (I : pool_inv n tasks s).

Lemma inv_no_fault (th : thread) : move_of th s <> Fault.
Proof using All.
  destruct th as [|i]; cbn [move_of]; intros E; [pose proof (client_step_inv n tasks Hn Hs s I) as H|pose proof (worker_step_inv n tasks s i I) as H]; by rewrite E in H.
Qed.

Lemma inv_perm : Permutation (all_tasks s) tasks.
Proof using I. apply (Permutation_count_occ Nat.eq_dec), (inv_tasks n tasks s I). Qed.

Lemma held_running (ws : list WorkerContext) : (forall w, w ∈ ws -> localQueue w = []) -> held ws = concat (running <$> ws).
Proof using Type.
  unfold held. induction ws as [|w ws IH]; intros H; [done|]. cbn. unfold holdings at 1. rewrite (H w) by (by left). cbn. f_equal. apply IH. intros v Hv. apply H. by right.
Qed.

Lemma stopped_running (ws : list WorkerContext) : (forall w, w ∈ ws -> w_pc w = W_STOPPED) -> concat (running <$> ws) = [].
Proof using Type. induction ws as [|w ws IH]; intros H; [done|]. cbn. unfold running at 1. rewrite (H w) by (by left). apply IH. intros v Hv. apply H. by right. Qed.

(** When [graphExecuteParallel] has returned. *)
Lemma inv_returned : (length tasks <= 3 * n)%nat -> client s = C_RETURN -> Permutation (concat (running <$> workers s) ++ executed s) tasks.
Proof using I.
  intros H3 Hc. pose proof inv_perm as Hp. pose proof (inv_client n tasks s I) as HC. unfold client_ok in HC. unfold all_tasks in Hp.
  rewrite (inv_lost n tasks s I H3), Hc in Hp. rewrite Hc in HC. cbn [pending app] in Hp.
  rewrite held_running in Hp by (intros w Hw; by apply HC). by rewrite !app_nil_r in Hp.
Qed.

(** When the pool is freed. *)
Lemma inv_freed : (length tasks <= 3 * n)%nat -> client s = C_FREED -> Permutation (executed s) tasks.
Proof using I.
  intros H3 Hc. pose proof inv_perm as Hp. pose proof (inv_client n tasks s I) as HC. unfold client_ok in HC. unfold all_tasks in Hp.
  rewrite (inv_lost n tasks s I H3), Hc in Hp. rewrite Hc in HC. cbn [pending app] in Hp.
  rewrite held_running, stopped_running in Hp by (intros w Hw; by apply HC). by rewrite !app_nil_r in Hp.
Qed.
End Correct.

Lemma thread_count_pos (nThreads nCores : Z) : 0 < nCores -> 0 < thread_count nThreads nCores.
Proof. intros H. unfold thread_count. destruct (Z.leb_spec nThreads 0); cbn; [done|]. destruct (Z.ltb_spec (nCores * 2) nThreads); lia. Qed.

(** C10: a pool of [nThreads] threads on [nCores] cores that is created, given
    [tasks] and destroyed.  In every interleaving the only fault is that, while
    the threads are still being created, a worker without tasks looks at the
    context of one that is not set up yet, which is uninitialised memory
    ([steals_uninitialised]): [nWorkers] is set before the first thread starts.
    In every state reached without it: each task is at one place, so that none
    is executed twice; a worker that sleeps has an empty queue and is not to
    stop, so that no wake-up is lost; the pool can come to its end.  With at
    most three tasks for each worker none is lost: when [graphExecuteParallel]
    has returned each task has been executed or is being executed, and when the
    pool is freed all have been executed, once. *)
Theorem work_pool_correct (nThreads nCores : Z) (tasks : list nat) (s : pool) :
  0 < nCores -> Z.of_nat (length tasks) < 2 ^ 31 - 1 -> rtc step (start nThreads nCores tasks) s ->
  (forall th, move_of th s = Fault ->
     client s = C_CREATE tasks /\
     exists i w k, th = Worker i /\ workers s !! i = Some w /\ w_pc w = W_STEAL k /\ (length (workers s) <= k < nWorkers s)%nat) /\
  Permutation (all_tasks s) tasks /\
  (forall w, w ∈ workers s -> w_pc w = W_ASLEEP -> localQueue w = [] /\ shouldStop w = false) /\
  (exists s', rtc step s s' /\ client s' = C_FREED) /\
  (Z.of_nat (length tasks) <= 3 * thread_count nThreads nCores ->
    (client s = C_RETURN -> Permutation (concat (running <$> workers s) ++ executed s) tasks) /\
    (client s = C_FREED -> Permutation (executed s) tasks)).
Proof.
  intros Hc Hs Hr. pose proof (thread_count_pos nThreads nCores Hc) as Hp. set (n := Z.to_nat (thread_count nThreads nCores)).
  assert (Hn : (0 < n)%nat) by lia. destruct (reachable_inv n tasks Hn Hs s Hr) as [C|I].
  - split; [|split; [|split; [|split]]].
    + intros [|i] Hm; cbn [move_of] in Hm.
      * destruct (creating_client n tasks s C) as (s' & E & _). congruence.
      * pose proof (creating_worker n tasks s i C) as H. rewrite Hm in H. destruct H as (w & k & H). split; [apply C|]. by exists i, w, k.
    + destruct C as [_ _ H3 H4 H5 H6]. unfold all_tasks. rewrite (held_idle _ H3), H4, H5, H6. done.
    + intros w Hw. apply (ok_asleep w). by apply (cr_idle n tasks s C).
    + by apply (can_create n tasks Hn Hs n s C); lia.
    + intros _. rewrite (cr_client n tasks s C). done.
  - split; [|split; [|split; [|split]]].
    + intros th Hm. by destruct (inv_no_fault n tasks Hn Hs s I th).
    + by apply (inv_perm n).
    + intros w Hw. apply (ok_asleep w (inv_ok n tasks s I w Hw)).
    + by apply (can_finish n tasks Hn Hs s I).
    + intros H3. split; [apply (inv_returned n); [done|lia]|apply (inv_freed n); [done|lia]].
Qed.

(** The client has created two workers and left the loop. *)
Definition two_created : list thread := [Client; Client; Client].

(** Two workers, three tasks; the second has taken one, the first has not begun. *)
Definition three_tasks : list thread := two_created ++ [Client; Client; Client; Client; Worker 1; Worker 1].

Lemma work_pool_correct_witness :
  exists s, run_threads three_tasks (start 2 1 [1; 2; 3]%nat) = Next s /\ Permutation (all_tasks s) [1; 2; 3]%nat /\ move_of Client s <> Fault.
Proof.
  eexists. split; [reflexivity|].
  match goal with |- Permutation (all_tasks ?s) _ /\ _ => destruct (work_pool_correct 2 1 [1; 2; 3]%nat s) as (H1 & H2 & _) end.
  - lia.
  - cbn. lia.
  - by apply (run_threads_reachable three_tasks).
  - split; [done|]. intros Hf. destruct (H1 _ Hf) as [Hc _]. discriminate Hc.
Defined.

(** ** What goes wrong *)

(** The first worker runs before the second is created, and looks for tasks to
    steal in its context. *)
Lemma steals_uninitialised :
  run_threads [Client; Worker 0; Worker 0; Worker 0; Worker 0] (start 2 1 [5%nat]) = Fault.
Proof. vm_compute. reflexivity. Qed.

Definition all_of_one (i n : nat) : list thread := replicate n (Worker i).

(** Eight tasks on two workers: the second runs its four, steals two of the
    first, and runs one of them.  The other is never run; the pool ends. *)
Lemma stolen_tasks_lost :
  exists s, rtc step (start 2 1 (seq 0 8)) s /\ client s = C_FREED /\ executed s = [7; 5; 3; 1; 2; 6; 4]%nat /\ lost s = [0%nat].
Proof.
  eexists. split; [apply (run_threads_reachable (two_created ++ replicate 8 Client ++ all_of_one 1 16 ++ all_of_one 0 6 ++ [Client; Client; Client; Worker 0; Worker 1; Client; Client; Client])); vm_compute; reflexivity|].
  vm_compute. done.
Qed.

(** [graphExecuteParallel] returns while the only task is still running. *)
Lemma returns_too_early :
  exists s w, rtc step (start 1 1 [5%nat]) s /\ client s = C_RETURN /\ workers s = [w] /\ w_pc w = W_EXEC 5 /\ executed s = [].
Proof.
  eexists _, _. split; [apply (run_threads_reachable [Client; Client; Client; Client; Worker 0; Worker 0; Client]); vm_compute; reflexivity|]. vm_compute. done.
Qed.
