(* ===== verification/ParallelMatch.v ===== *)
(** * Parallel pattern matching (graph-parallel.c)

    The nodes are cut into one range for each thread; a thread goes through its
    range and writes the nodes with the label into the results.  A row that a
    thread reads is one step, and the steps of the threads interleave.  The
    threads themselves are those of [WorkPool].

    Shown: the ranges are the nodes, one after the other; no write is outside the
    buffer, each entry written is a node that matches and each thread counts the
    nodes of its range that match, up to the limit; with one thread the results
    are the matching nodes.  With more threads they overwrite each other. *)

From Stdlib Require Import String ZArith Lia.
From stdpp Require Import base option list numbers.
From S2P Require Import Prelude Codec DefParser CypherEval.

Local Open Scope Z_scope.

(** ** The model *)

(** A row of the nodes: its id and its labels. *)
Record match_row := MkNodeRow { row_id : Z; row_labels : option bytes }.

Definition node_matches (zValue : option bytes) (row : match_row) : bool :=
  match zValue, row_labels row with Some v, Some labels => strstr labels v | _, _ => true end.

(** What is read of a range: [LIMIT end - start OFFSET start]. *)
Definition select_range {A} (rows : list A) (startNode endNode : Z) : list A :=
  take (Z.to_nat (endNode - startNode)) (drop (Z.to_nat startNode) rows).

(** The range of the thread [i]. *)
Definition startNode (nNodes nThreads i : Z) : Z := i * (nNodes `quot` nThreads).
Definition endNode (nNodes nThreads i : Z) : Z := if i =? nThreads - 1 then nNodes else (i + 1) * (nNodes `quot` nThreads).

(** A thread: the rows of its statement that are still to come, and its count. *)
Record ParallelPatternMatch := MkMatch { pStmt : list match_row; nResults : Z }.

Definition result_limit : Z := 1000.

(** The buffer shared by the threads; [None]: not written. *)
Abbreviation buffer := (list (option Z)).

Record match_state := MkMatchState { threads : list ParallelPatternMatch; results : buffer }.

(** The thread [i] reads one row.  [None]: a write outside the buffer. *)
Definition parallelPatternWorker (zValue : option bytes) (i : nat) (s : match_state) : option match_state :=
  match threads s !! i with
  | None => Some s
  | Some m =>
      match pStmt m with
      | [] => Some s
      | row :: rows =>
          if node_matches zValue row && (nResults m <? result_limit) then
            if (Z.to_nat (nResults m) <? length (results s))%nat then
              Some (MkMatchState (<[i := MkMatch rows (nResults m + 1)]> (threads s)) (<[Z.to_nat (nResults m) := Some (row_id row)]> (results s)))
            else None
          else Some (MkMatchState (<[i := MkMatch rows (nResults m)]> (threads s)) (results s))
      end
  end.

Fixpoint interleave (zValue : option bytes) (sched : list nat) (s : match_state) : option match_state :=
  match sched with
  | [] => Some s
  | i :: sched => match parallelPatternWorker zValue i s with Some s => interleave zValue sched s | None => None end
  end.

Definition thread_range (rows : list match_row) (nThreads : nat) (i : nat) : list match_row :=
  let nNodes := Z.of_nat (length rows) in
  select_range rows (startNode nNodes (Z.of_nat nThreads) (Z.of_nat i)) (endNode nNodes (Z.of_nat nThreads) (Z.of_nat i)).

Definition match_start (rows : list match_row) (nThreads : nat) : match_state :=
  MkMatchState ((fun i => MkMatch (thread_range rows nThreads i) 0) <$> seq 0 nThreads) (replicate 1000 None).

(** The results and their number, for the interleaving [sched]. *)
Definition graphParallelPatternMatch (zValue : option bytes) (rows : list match_row) (nThreads : nat) (sched : list nat) : option (buffer * Z) :=
  match interleave zValue sched (match_start rows nThreads) with
  | Some s => Some (results s, foldl (fun total m => total + nResults m) 0 (threads s))
  | None => None
  end.

(** Each thread has read its rows. *)
Definition complete (zValue : option bytes) (rows : list match_row) (nThreads : nat) (sched : list nat) : Prop :=
  exists s, interleave zValue sched (match_start rows nThreads) = Some s /\ forall m, m ∈ threads s -> pStmt m = [].

(** ** The ranges *)

Lemma take_select {A} (rows : list A) (a b : Z) : 0 <= a <= b -> take (Z.to_nat a) rows ++ select_range rows a b = take (Z.to_nat b) rows.
Proof. intros H. unfold select_range. rewrite take_take_drop, <- Z2Nat.inj_add by lia. by replace (a + (b - a)) with b by lia. Qed.

Lemma ranges_prefix (rows : list match_row) (nThreads k : nat) :
  (k < nThreads)%nat ->
  concat (thread_range rows nThreads <$> seq 0 k) = take (Z.to_nat (Z.of_nat k * (Z.of_nat (length rows) `quot` Z.of_nat nThreads))) rows.
Proof.
  set (q := Z.of_nat (length rows) `quot` Z.of_nat nThreads). intros Hk. assert (Hq : 0 <= q) by (apply Z.quot_pos; lia). induction k as [|k IH]; [done|].
  rewrite seq_S, fmap_app, concat_app, IH by lia. cbn [fmap list_fmap concat Nat.add]. rewrite app_nil_r. unfold thread_range, startNode, endNode. fold q.
  rewrite (proj2 (Z.eqb_neq _ _)) by lia. rewrite take_select by nia. by replace (Z.of_nat (S k) * q) with ((Z.of_nat k + 1) * q) by lia.
Qed.

(** The ranges of the threads are the nodes. *)
Lemma ranges_partition (rows : list match_row) (nThreads : nat) : (0 < nThreads)%nat -> concat (thread_range rows nThreads <$> seq 0 nThreads) = rows.
Proof.
  intros H. destruct nThreads as [|k]; [lia|]. rewrite seq_S, fmap_app, concat_app, ranges_prefix by lia. cbn [fmap list_fmap concat Nat.add]. rewrite app_nil_r.
  unfold thread_range, startNode, endNode. rewrite (proj2 (Z.eqb_eq _ _)) by lia.
  set (q := Z.of_nat (length rows) `quot` Z.of_nat (S k)). assert (Hq : 0 <= q) by (apply Z.quot_pos; lia).
  assert (Z.of_nat (S k) * q <= Z.of_nat (length rows)) by (apply Z.mul_quot_le; lia).
  rewrite take_select by nia. rewrite take_ge; [done|lia].
Qed.

(** ** The threads *)

Definition matching (zValue : option bytes) (rows : list match_row) : list Z := row_id <$> filter (fun r => node_matches zValue r = true) rows.

Section Threads.
Context (zValue : option bytes) (rows : list match_row) (nThreads : nat).

(** The thread [i] has read the rows [seen]. *)
Definition thread_ok (i : nat) (m : ParallelPatternMatch) : Prop :=
  exists seen, thread_range rows nThreads i = seen ++ pStmt m /\ nResults m = Z.of_nat (Nat.min 1000 (length (matching zValue seen))).

Record match_inv (s : match_state) : Prop := {
  mi_threads : length (threads s) = nThreads;
  mi_buffer : length (results s) = 1000%nat;
  mi_ok : forall i m, threads s !! i = Some m -> thread_ok i m;
  mi_written : forall j v, results s !! j = Some (Some v) -> v ∈ matching zValue rows;
  mi_prefix : forall i m j, threads s !! i = Some m -> Z.of_nat j < nResults m -> exists v, results s !! j = Some (Some v);
  mi_unwritten : forall j, (forall m, m ∈ threads s -> nResults m <= Z.of_nat j) -> (j < 1000)%nat -> results s !! j = Some None
}.

Lemma matching_app (a b : list match_row) : matching zValue (a ++ b) = matching zValue a ++ matching zValue b.
Proof using Type. unfold matching. by rewrite list.filter_app, fmap_app. Qed.

Lemma matching_one (r : match_row) : matching zValue [r] = if node_matches zValue r then [row_id r] else [].
Proof using Type. unfold matching. rewrite list.filter_cons. destruct (node_matches zValue r); by destruct (decide _). Qed.

Lemma range_matching (i : nat) (seen rest : list match_row) (r : match_row) :
  thread_range rows nThreads i = seen ++ r :: rest -> node_matches zValue r = true -> row_id r ∈ matching zValue rows.
Proof using Type.
  intros E Hm. assert (Hr : r ∈ rows).
  { apply (subseteq_drop (Z.to_nat (startNode (Z.of_nat (length rows)) (Z.of_nat nThreads) (Z.of_nat i)))). eapply subseteq_take.
    unfold thread_range, select_range in E. rewrite E. apply elem_of_app. right. by left. }
  unfold matching. apply list_elem_of_fmap. exists r. split; [done|]. by apply list_elem_of_filter.
Qed.

Section Step.
Context (s : match_state) (I : match_inv s) (i : nat) (m : ParallelPatternMatch) (Hi : threads s !! i = Some m).
Context (row : match_row) (rest : list match_row) (Hrow : pStmt m = row :: rest).

Lemma update_lookup (x y : ParallelPatternMatch) (k : nat) : <[i := x]> (threads s) !! k = Some y -> (k = i /\ y = x) \/ (k <> i /\ threads s !! k = Some y).
Proof using Hi.
  intros H. destruct (decide (i = k)) as [<-|Hne]; [|right; by rewrite list_lookup_insert_ne in H].
  left. rewrite list_lookup_insert_eq in H by (by eapply lookup_lt_Some). split; [done|congruence].
Qed.

Lemma read_ok (n' : Z) :
  (forall seen, nResults m = Z.of_nat (Nat.min 1000 (length (matching zValue seen))) -> n' = Z.of_nat (Nat.min 1000 (length (matching zValue (seen ++ [row]))))) ->
  forall k x, <[i := MkMatch rest n']> (threads s) !! k = Some x -> thread_ok k x.
Proof using I Hi Hrow.
  intros Hn k x [[-> ->]|[_ Hk]]%update_lookup; [|by apply (mi_ok s I)]. destruct (mi_ok s I i m Hi) as (seen & Er & En).
  exists (seen ++ [row]). cbn [pStmt nResults]. split; [by rewrite <- app_assoc, Er, Hrow|by apply Hn].
Qed.

(** A row that is not recorded. *)
Lemma skip_inv : node_matches zValue row && (nResults m <? result_limit) = false -> match_inv (MkMatchState (<[i := MkMatch rest (nResults m)]> (threads s)) (results s)).
Proof using I Hi Hrow.
  intros Hno. constructor; cbn [threads results].
  - rewrite length_insert. apply (mi_threads s I).
  - apply (mi_buffer s I).
  - apply read_ok. intros seen En. rewrite matching_app, matching_one, length_app. destruct (node_matches zValue row); cbn [andb length] in *; [|lia].
    apply Z.ltb_ge in Hno. unfold result_limit in Hno. lia.
  - apply (mi_written s I).
  - intros k x j [[-> ->]|[_ Hk]]%update_lookup Hj; [by apply (mi_prefix s I i m)|by apply (mi_prefix s I k x)].
  - intros j Hj. apply (mi_unwritten s I). intros x [k Hk]%list_elem_of_lookup. destruct (decide (k = i)) as [->|Hne].
    + replace x with m by congruence. apply (Hj (MkMatch rest (nResults m))). apply (list_elem_of_lookup_2 _ i). apply list_lookup_insert_eq. by eapply lookup_lt_Some.
    + apply Hj. apply (list_elem_of_lookup_2 _ k). by rewrite list_lookup_insert_ne.
Qed.

(** A row that is recorded. *)
Lemma record_inv :
  node_matches zValue row = true -> nResults m < result_limit ->
  match_inv (MkMatchState (<[i := MkMatch rest (nResults m + 1)]> (threads s)) (<[Z.to_nat (nResults m) := Some (row_id row)]> (results s))).
Proof using I Hi Hrow.
  intros Hm Hlim. unfold result_limit in Hlim. pose proof (mi_buffer s I) as Hb. destruct (mi_ok s I i m Hi) as (seen0 & Er0 & En0).
  constructor; cbn [threads results].
  - rewrite length_insert. apply (mi_threads s I).
  - by rewrite length_insert.
  - apply read_ok. intros seen En. rewrite matching_app, matching_one, length_app, Hm. cbn [length]. lia.
  - intros j v Hj. destruct (decide (Z.to_nat (nResults m) = j)) as [<-|Hne].
    + rewrite list_lookup_insert_eq in Hj by lia. injection Hj as <-. rewrite Hrow in Er0. by eapply range_matching.
    + rewrite list_lookup_insert_ne in Hj by done. by apply (mi_written s I j).
  - intros k x j Hk Hj. destruct (decide (Z.to_nat (nResults m) = j)) as [<-|Hne]; [exists (row_id row); apply list_lookup_insert_eq; lia|].
    rewrite list_lookup_insert_ne by done. apply update_lookup in Hk as [[-> ->]|[_ Hk]]; [|by apply (mi_prefix s I k x)].
    cbn [nResults] in Hj. apply (mi_prefix s I i m); [done|lia].
  - intros j Hj Hlt. assert (Hnew : nResults m + 1 <= Z.of_nat j).
    { apply (Hj (MkMatch rest (nResults m + 1))). apply (list_elem_of_lookup_2 _ i). apply list_lookup_insert_eq. by eapply lookup_lt_Some. }
    rewrite list_lookup_insert_ne by lia. apply (mi_unwritten s I); [|done]. intros x [k Hk]%list_elem_of_lookup. destruct (decide (k = i)) as [->|Hne].
    + replace x with m by congruence. lia.
    + apply Hj. apply (list_elem_of_lookup_2 _ k). by rewrite list_lookup_insert_ne.
Qed.
End Step.

Lemma worker_inv (s : match_state) (i : nat) : match_inv s -> exists s', parallelPatternWorker zValue i s = Some s' /\ match_inv s'.
Proof using Type.
  intros I. unfold parallelPatternWorker. destruct (threads s !! i) as [m|] eqn:Hi; [|by exists s]. destruct (pStmt m) as [|row rest] eqn:Hrow; [by exists s|].
  destruct (node_matches zValue row && (nResults m <? result_limit)) eqn:E; [|by eexists; split; [done|apply (skip_inv s I i m Hi row)]].
  apply andb_true_iff in E as [Hm Hl%Z.ltb_lt]. rewrite (proj2 (Nat.ltb_lt _ _)); [|unfold result_limit in Hl; rewrite (mi_buffer s I); lia].
  eexists. split; [done|]. by apply (record_inv s I i m Hi row).
Qed.

Lemma start_inv : match_inv (match_start rows nThreads).
Proof using Type.
  assert (Hl : forall i m, threads (match_start rows nThreads) !! i = Some m -> m = MkMatch (thread_range rows nThreads i) 0).
  { intros i m H. cbn [match_start threads] in H. rewrite list_lookup_fmap in H. destruct (seq 0 nThreads !! i) as [k|] eqn:Hk; [|done]. apply lookup_seq in Hk as [-> _]. cbn in H. congruence. }
  constructor; cbn [match_start results].
  - cbn [match_start threads]. by rewrite length_fmap, length_seq.
  - done.
  - intros i m ->%Hl. exists []. done.
  - intros j v H. by apply lookup_replicate in H as [? _].
  - intros i m j ->%Hl Hj. cbn in Hj. lia.
  - intros j _ Hj. by apply lookup_replicate.
Qed.

Lemma interleave_inv (sched : list nat) (s : match_state) : match_inv s -> exists s', interleave zValue sched s = Some s' /\ match_inv s'.
Proof using Type.
  revert s. induction sched as [|i sched IH]; intros s I; cbn [interleave]; [by exists s|]. destruct (worker_inv s i I) as (s1 & -> & I1). by apply IH.
Qed.

(** What the threads counted, when they have read all rows. *)
Lemma complete_counts (s : match_state) :
  match_inv s -> (forall m, m ∈ threads s -> pStmt m = []) ->
  nResults <$> threads s = (fun i => Z.of_nat (Nat.min 1000 (length (matching zValue (thread_range rows nThreads i))))) <$> seq 0 nThreads.
Proof using Type.
  intros I Hd. apply list_eq. intros i. rewrite !list_lookup_fmap. destruct (decide (i < nThreads)%nat) as [Hlt|Hge].
  - rewrite lookup_seq_lt by done. destruct (lookup_lt_is_Some_2 (threads s) i) as [m Hm]; [by rewrite (mi_threads s I)|]. rewrite Hm. cbn.
    destruct (mi_ok s I i m Hm) as (seen & Er & En). rewrite (Hd m) in Er by (by eapply list_elem_of_lookup_2). by rewrite Er, app_nil_r, En.
  - rewrite !lookup_ge_None_2; [done|rewrite length_seq; lia|rewrite (mi_threads s I); lia].
Qed.
End Threads.

(** ** One thread *)

(** The state of a single thread that has read [seen]. *)
Definition single (zValue : option bytes) (seen rest : list match_row) : match_state :=
  let l := take 1000 (matching zValue seen) in
  MkMatchState [MkMatch rest (Z.of_nat (length l))] ((Some <$> l) ++ replicate (1000 - length l) None).

Lemma single_step (zValue : option bytes) (seen rest : list match_row) (row : match_row) :
  parallelPatternWorker zValue 0 (single zValue seen (row :: rest)) = Some (single zValue (seen ++ [row]) rest).
Proof.
  unfold parallelPatternWorker, single. cbn [threads lookup list_lookup pStmt nResults results]. rewrite matching_app, matching_one.
  set (l := matching zValue seen). rewrite length_app, length_fmap, length_replicate, Nat2Z.id. destruct (node_matches zValue row); cbn [andb].
  - destruct (Z.ltb_spec (Z.of_nat (length (take 1000 l))) result_limit) as [Hlt|Hge]; unfold result_limit in *; rewrite length_take in *.
    + rewrite (proj2 (Nat.ltb_lt _ _)) by lia. rewrite (take_ge (l ++ _)), (take_ge l) by (rewrite ?length_app; cbn [length]; lia).
      rewrite Nat.min_r by lia. rewrite length_app. cbn [length]. rewrite fmap_app.
      rewrite insert_app_r_alt by (rewrite length_fmap; lia). rewrite length_fmap, Nat.sub_diag.
      replace (1000 - length l)%nat with (S (1000 - (length l + 1))) by lia. cbn [replicate insert list_insert fmap list_fmap]. rewrite <- app_assoc.
      by replace (Z.of_nat (length l + 1)) with (Z.of_nat (length l) + 1) by lia.
    + rewrite take_app_le, length_take by lia. done.
  - by rewrite app_nil_r.
Qed.

Lemma single_run (zValue : option bytes) (sched : list nat) (seen rest : list match_row) :
  exists seen' rest', seen ++ rest = seen' ++ rest' /\ interleave zValue sched (single zValue seen rest) = Some (single zValue seen' rest').
Proof.
  revert seen rest. induction sched as [|i sched IH]; intros seen rest; cbn [interleave]; [by exists seen, rest|].
  destruct i as [|i]; [|by apply IH]. destruct rest as [|row rest]; [by apply IH|]. rewrite single_step.
  destruct (IH (seen ++ [row]) rest) as (a & b & E & ->). exists a, b. split; [|done]. by rewrite <- E, <- app_assoc.
Qed.

(** With one thread the results are the first nodes that match. *)
Lemma one_thread_correct (zValue : option bytes) (rows : list match_row) (sched : list nat) :
  complete zValue rows 1 sched ->
  let l := take 1000 (matching zValue rows) in
  graphParallelPatternMatch zValue rows 1 sched = Some ((Some <$> l) ++ replicate (1000 - length l) None, Z.of_nat (length l)).
Proof.
  intros (s & Es & Hd) l. assert (E0 : match_start rows 1 = single zValue [] rows).
  { unfold match_start, single. cbn [seq fmap list_fmap]. do 3 f_equal. pose proof (ranges_partition rows 1 ltac:(lia)) as H. cbn in H. by rewrite app_nil_r in H. }
  unfold graphParallelPatternMatch. rewrite E0 in *. destruct (single_run zValue sched [] rows) as (seen & rest & E & Er). rewrite Er in *. injection Es as <-.
  assert (rest = []) as -> by (apply (Hd (MkMatch rest (Z.of_nat (length (take 1000 (matching zValue seen)))))); by left). rewrite app_nil_r in E. cbn [app] in E. by rewrite <- E.
Qed.

(** ** More threads *)

Lemma foldl_sum (l : list ParallelPatternMatch) (a : Z) : foldl (fun total m => total + nResults m) a l = a + foldr Z.add 0 (nResults <$> l).
Proof. revert a. induction l as [|m l IH]; intros a; cbn; [lia|]. rewrite IH. lia. Qed.

(** No write is outside the buffer, what is written matches, and each thread
    counts the nodes of its range that match, up to the limit. *)
Lemma parallel_match_safe (zValue : option bytes) (rows : list match_row) (nThreads : nat) (sched : list nat) :
  exists res total, graphParallelPatternMatch zValue rows nThreads sched = Some (res, total) /\ length res = 1000%nat /\
    (forall j v, res !! j = Some (Some v) -> v ∈ matching zValue rows) /\
    (complete zValue rows nThreads sched ->
      total = foldr Z.add 0 ((fun i => Z.of_nat (Nat.min 1000 (length (matching zValue (thread_range rows nThreads i))))) <$> seq 0 nThreads)).
Proof.
  destruct (interleave_inv zValue rows nThreads sched _ (start_inv zValue rows nThreads)) as (s & Es & I). unfold graphParallelPatternMatch. rewrite Es.
  eexists _, _. split; [done|]. split; [apply (mi_buffer _ _ _ _ I)|]. split; [apply (mi_written _ _ _ _ I)|].
  intros (s' & Es' & Hd). rewrite Es in Es'. injection Es' as <-. rewrite foldl_sum, Z.add_0_l. by rewrite (complete_counts zValue rows nThreads s I Hd).
Qed.

Lemma sum_nonneg (l : list Z) : (forall x, x ∈ l -> 0 <= x) -> 0 <= foldr Z.add 0 l.
Proof. induction l as [|y l IH]; intros H; cbn [foldr]; [lia|]. pose proof (H y ltac:(by left)). assert (0 <= foldr Z.add 0 l) by (apply IH; intros x Hx; apply H; by right). lia. Qed.

Lemma sum_insert (l : list Z) (i : nat) (x y : Z) : l !! i = Some x -> foldr Z.add 0 (<[i := y]> l) + x = foldr Z.add 0 l + y.
Proof. revert i. induction l as [|z l IH]; intros i H; [done|]. destruct i as [|i]; [injection H as ->; cbn; lia|]. specialize (IH i H). change (<[S i := y]> (z :: l)) with (z :: <[i := y]> l). cbn [foldr]. lia. Qed.

(** Two different elements are no more than the sum. *)
Lemma sum_two (l : list Z) (i j : nat) (x y : Z) : (forall x, x ∈ l -> 0 <= x) -> i <> j -> l !! i = Some x -> l !! j = Some y -> x + y <= foldr Z.add 0 l.
Proof.
  intros Hp Hne Hi Hj. pose proof (sum_insert l i x 0 Hi) as H1. assert (Hj' : <[i := 0]> l !! j = Some y) by (by rewrite list_lookup_insert_ne).
  pose proof (sum_insert _ j y 0 Hj') as H2. assert (0 <= foldr Z.add 0 (<[j := 0]> (<[i := 0]> l))); [|lia].
  apply sum_nonneg. intros z [k Hk]%list_elem_of_lookup. destruct (decide (j = k)) as [<-|H3].
  - rewrite list_lookup_insert_eq in Hk by (by eapply lookup_lt_Some). injection Hk as <-. lia.
  - rewrite list_lookup_insert_ne in Hk by done. destruct (decide (i = k)) as [<-|H4].
    + rewrite list_lookup_insert_eq in Hk by (by eapply lookup_lt_Some). injection Hk as <-. lia.
    + rewrite list_lookup_insert_ne in Hk by done. apply Hp. by eapply list_elem_of_lookup_2.
Qed.

(** When two threads have found a node, the number reported is greater than the
    number of entries written: in every interleaving the last entry reported is
    memory that was not written, or lies behind the buffer. *)
Lemma two_threads_garbage (zValue : option bytes) (rows : list match_row) (nThreads : nat) (sched : list nat) (a b : nat) :
  complete zValue rows nThreads sched -> (a < b < nThreads)%nat ->
  matching zValue (thread_range rows nThreads a) <> [] -> matching zValue (thread_range rows nThreads b) <> [] ->
  exists res total, graphParallelPatternMatch zValue rows nThreads sched = Some (res, total) /\ (res !! Z.to_nat (total - 1) = Some None \/ res !! Z.to_nat (total - 1) = None).
Proof.
  intros (s & Es & Hd) Hab Ha Hb. destruct (interleave_inv zValue rows nThreads sched _ (start_inv zValue rows nThreads)) as (s' & Es' & I).
  assert (s' = s) as -> by congruence. unfold graphParallelPatternMatch. rewrite Es. eexists _, _. split; [done|]. rewrite foldl_sum, Z.add_0_l.
  pose proof (complete_counts zValue rows nThreads s I Hd) as Ec. set (counts := nResults <$> threads s) in *.
  assert (Hpos : forall x, x ∈ counts -> 0 <= x) by (rewrite Ec; intros x [k [-> _]]%list_elem_of_fmap; lia).
  assert (Hat : forall k, (k < nThreads)%nat -> matching zValue (thread_range rows nThreads k) <> [] -> exists x, counts !! k = Some x /\ 1 <= x).
  { intros k Hk Hne. eexists. rewrite Ec, list_lookup_fmap, lookup_seq_lt by done. split; [done|]. destruct (matching zValue (thread_range rows nThreads (0 + k))) eqn:E; [done|cbn [length]; lia]. }
  destruct (Hat a ltac:(lia) Ha) as (xa & Hxa & Pa). destruct (Hat b ltac:(lia) Hb) as (xb & Hxb & Pb).
  assert (Hmax : forall m, m ∈ threads s -> nResults m <= foldr Z.add 0 counts - 1).
  { intros m [k Hk]%list_elem_of_lookup. assert (Hck : counts !! k = Some (nResults m)) by (unfold counts; by rewrite list_lookup_fmap, Hk).
    destruct (decide (k = a)) as [->|Hne]; [pose proof (sum_two counts a b _ _ Hpos ltac:(lia) Hck Hxb)|pose proof (sum_two counts k a _ _ Hpos Hne Hck Hxa)]; lia. }
  destruct (decide (Z.to_nat (foldr Z.add 0%Z counts - 1) < 1000)%nat) as [Hlt|Hge].
  - left. apply (mi_unwritten _ _ _ s I); [|done]. intros m Hm. specialize (Hmax m Hm). lia.
  - right. apply lookup_ge_None_2. rewrite (mi_buffer _ _ _ s I). lia.
Qed.

(** Two nodes, one for each of two threads: two results are reported, one entry is written. *)
Lemma two_threads_example :
  let rows := [MkNodeRow 1 (Some (bstr "Person")); MkNodeRow 2 (Some (bstr "Person"))] in
  complete (Some (bstr "Person")) rows 2 [0; 1]%nat /\
  exists res, graphParallelPatternMatch (Some (bstr "Person")) rows 2 [0; 1]%nat = Some (res, 2) /\ res !! 0%nat = Some (Some 2) /\ res !! 1%nat = Some None.
Proof.
  split; [|eexists; split; [vm_compute; reflexivity|done]]. eexists. split; [vm_compute; reflexivity|]. intros m H. cbn in H.
  apply elem_of_cons in H as [->|H]; [done|]. by apply list_elem_of_singleton in H as ->.
Qed.
