(* ===== verification/GraphSchema.v ===== *)
(** * Labels and relationship types (graph-schema.c)

    A schema keeps the names of the labels and of the relationship types in two
    arrays that grow when they are full.  Names are compared without regard to
    the case of ASCII letters.

    Shown: no name is written past the end of its array; a schema is a set of
    names up to case, with the first spelling of each; on labels that pass the
    validation the comparison of two arrays of labels is equality of sets. *)

From Stdlib Require Import String ZArith Lia.
From stdpp Require Import base option list numbers.
From S2P Require Import Prelude Codec DefParser Scalar Graph.

Local Open Scope Z_scope.

(** ** Comparing names *)

(** [sqlite3UpperToLower] *)
Definition UpperToLower (c : Z) : Z := if (65 <=? c) && (c <=? 90) then c + 32 else c.

(** The end of a text reads as 0. *)
Fixpoint sqlite3StrICmp (a b : bytes) : Z :=
  match a, b with
  | [], [] => 0
  | [], x :: _ => UpperToLower 0 - UpperToLower x
  | c :: _, [] => UpperToLower c - UpperToLower 0
  | c :: a, x :: b =>
      if c =? x then sqlite3StrICmp a b
      else let d := UpperToLower c - UpperToLower x in if d =? 0 then sqlite3StrICmp a b else d
  end.

Definition folded (z : bytes) : bytes := UpperToLower <$> z.

(** [sqlite3_stricmp(a, b) == 0]; a null pointer equals itself only. *)
Definition same_name (a b : option bytes) : bool :=
  match a, b with
  | Some a, Some b => bool_decide (folded a = folded b)
  | None, None => true
  | _, _ => false
  end.

(** ** The schema *)

(** An array of names and the number of pointers it has room for. *)
Record name_array := MkNames { az : list bytes; nAlloc : nat }.

Record CypherSchema := MkSchema { azNodeLabels : name_array; azRelTypes : name_array }.

(** Of the virtual table: its schema, once there is one. *)
Definition graphInitSchema (pSchema : option CypherSchema) : CypherSchema :=
  match pSchema with
  | Some p => p
  | None => MkSchema (MkNames [] 16) (MkNames [] 16)
  end.

Definition is_power_of_2 (n : nat) : bool := Z.land (Z.of_nat n) (Z.of_nat n - 1) =? 0.

(** [None]: a write past the end of the array. *)
Definition register_name (a : name_array) (z : bytes) : option name_array :=
  if existsb (fun y => same_name (Some y) (Some z)) (az a) then Some a
  else
    let n := length (az a) in
    let nAlloc := if (16 <=? n)%nat && is_power_of_2 n then (n * 2)%nat else nAlloc a in
    if (n <? nAlloc)%nat then Some (MkNames (az a ++ [z]) nAlloc) else None.

Definition graphRegisterLabel (p : CypherSchema) (zLabel : bytes) : option CypherSchema :=
  a ← register_name (azNodeLabels p) zLabel; Some (MkSchema a (azRelTypes p)).

Definition graphRegisterRelationshipType (p : CypherSchema) (zType : bytes) : option CypherSchema :=
  a ← register_name (azRelTypes p) zType; Some (MkSchema (azNodeLabels p) a).

(** It makes sure that there is a schema; there is no index. *)
Definition graphCreatePropertyIndex (pSchema : option CypherSchema) (zProperty : option bytes) : Z * option CypherSchema :=
  match zProperty with
  | None => (SQLITE_MISUSE, pSchema)
  | Some _ => (SQLITE_OK, Some (graphInitSchema pSchema))
  end.

Inductive schema_op := RegisterLabel (z : bytes) | RegisterType (z : bytes) | CreatePropertyIndex (z : bytes).

Definition schema_step (op : schema_op) (p : CypherSchema) : option CypherSchema :=
  match op with
  | RegisterLabel z => graphRegisterLabel p z
  | RegisterType z => graphRegisterRelationshipType p z
  | CreatePropertyIndex z => (graphCreatePropertyIndex (Some p) (Some z)).2
  end.

Fixpoint schema_run (ops : list schema_op) (p : CypherSchema) : option CypherSchema :=
  match ops with
  | [] => Some p
  | op :: ops => p ← schema_step op p; schema_run ops p
  end.

(** ** Arrays of labels *)

(** A null pointer, or the labels. *)
Definition label_array := option (list (option bytes)).

Definition graphLabelsEqual (azLabels1 : label_array) (nLabels1 : nat) (azLabels2 : label_array) (nLabels2 : nat) : bool :=
  if negb (nLabels1 =? nLabels2)%nat then false
  else
    match azLabels1, azLabels2 with
    | None, None => true
    | Some l1, Some l2 => forallb (fun x => existsb (same_name x) (take nLabels2 l2)) (take nLabels1 l1)
    | _, _ => false
    end.

Fixpoint validate_labels (l : list (option bytes)) : Z :=
  match l with
  | [] => SQLITE_OK
  | None :: _ | Some [] :: _ => SQLITE_CONSTRAINT
  | x :: l => if existsb (same_name x) l then SQLITE_CONSTRAINT else validate_labels l
  end.

Definition graphValidateNodeLabels (azLabels : label_array) (nLabels : nat) : Z :=
  match azLabels with
  | None => SQLITE_OK
  | Some l => validate_labels (take nLabels l)
  end.

Definition graphValidateRelationshipType (zType : option bytes) : Z :=
  match zType with
  | Some [] => SQLITE_CONSTRAINT
  | _ => SQLITE_OK
  end.

(** [sqlite3_mprintf("%s", NULL)] is the empty text. *)
Definition graphCopyLabels (azLabels : label_array) (nLabels : nat) : label_array :=
  match azLabels, nLabels with
  | Some l, S _ => Some ((fun z => Some (default [] z)) <$> take nLabels l)
  | _, _ => None
  end.

(** The text is that of two counts. *)
Definition graphGetSchemaInfo (v : GraphVtab) (s : gdb) : bytes :=
  [123; 34] ++ bstr "node_count" ++ [34; 58] ++ fmt_d (graphCountNodes v s) ++
  [44; 34] ++ bstr "edge_count" ++ [34; 58] ++ fmt_d (graphCountEdges v s) ++ [125].

(** ** Names up to case *)

(** On texts, which hold no zero, [sqlite3StrICmp] is 0 exactly if they are equal up to case. *)
Lemma stricmp_folded (a b : bytes) : Forall (fun c => 0 < c) a -> Forall (fun c => 0 < c) b -> (sqlite3StrICmp a b = 0 <-> folded a = folded b).
Proof.
  assert (Hpos : forall c, 0 < c -> UpperToLower c <> 0) by (intros c Hc; unfold UpperToLower; destruct (_ && _); lia).
  revert b. induction a as [|c a IH]; intros [|x b] Ha Hb; cbn [sqlite3StrICmp folded fmap list_fmap].
  - done.
  - apply list.Forall_cons in Hb as [Hx _]. pose proof (Hpos x Hx). change (UpperToLower 0) with 0. split; [lia|done].
  - apply list.Forall_cons in Ha as [Hc _]. pose proof (Hpos c Hc). change (UpperToLower 0) with 0. split; [lia|done].
  - apply list.Forall_cons in Ha as [_ Ha]. apply list.Forall_cons in Hb as [_ Hb]. specialize (IH b Ha Hb). unfold folded in *.
    destruct (Z.eqb_spec c x) as [->|Hne]; [rewrite IH; split; [by intros ->|by intros [= H]]|].
    destruct (Z.eqb_spec (UpperToLower c - UpperToLower x) 0) as [E|E].
    + rewrite IH. replace (UpperToLower c) with (UpperToLower x) by lia. split; [by intros ->|by intros [= H]].
    + split; [done|]. intros [= H _]. lia.
Qed.

Lemma same_name_iff (a b : bytes) : same_name (Some a) (Some b) = true <-> folded a = folded b.
Proof. cbn. apply bool_decide_eq_true. Qed.

Lemma existsb_same (l : list bytes) (z : bytes) :
  existsb (fun y => same_name (Some y) (Some z)) l = true <-> folded z ∈ (folded <$> l).
Proof.
  rewrite existsb_exists, list_elem_of_fmap. split.
  - intros (y & Hy%list_elem_of_In & E%same_name_iff). by exists y.
  - intros (y & E & Hy%list_elem_of_In). exists y. by rewrite same_name_iff.
Qed.

(** ** Growing arrays *)

Lemma power_of_2_double (n : nat) : is_power_of_2 n = true -> is_power_of_2 (n * 2) = true.
Proof.
  unfold is_power_of_2. intros H%Z.eqb_eq. apply Z.eqb_eq. replace (Z.of_nat (n * 2)) with (2 * Z.of_nat n) by lia.
  replace (2 * Z.of_nat n - 1) with (2 * (Z.of_nat n - 1) + 1) by lia. apply Z.bits_inj'. intros i Hi. rewrite Z.land_spec, Z.bits_0.
  destruct (decide (i = 0)) as [->|Hne]; [by rewrite Z.testbit_even_0|].
  replace i with (Z.succ (i - 1)) by lia. rewrite Z.testbit_even_succ, Z.testbit_odd_succ by lia. by rewrite <- Z.land_spec, H, Z.bits_0.
Qed.

(** The room is a power of two: an array that is full has as many names. *)
Record array_ok (a : name_array) : Prop := {
  ao_fits : (length (az a) <= nAlloc a)%nat;
  ao_min : (16 <= nAlloc a)%nat;
  ao_power : is_power_of_2 (nAlloc a) = true;
  ao_nodup : NoDup (folded <$> az a)
}.

Lemma register_name_ok (a : name_array) (z : bytes) :
  array_ok a ->
  exists a', register_name a z = Some a' /\ array_ok a' /\
    az a' = if existsb (fun y => same_name (Some y) (Some z)) (az a) then az a else az a ++ [z].
Proof.
  intros [F M P N]. unfold register_name. destruct (existsb _ (az a)) eqn:E; [by exists a|].
  assert (Hn : NoDup (folded <$> az a ++ [z])).
  { rewrite fmap_app. apply list.NoDup_app. split; [done|]. split; [|apply NoDup_singleton]. intros x Hx ->%list_elem_of_singleton.
    apply existsb_same in Hx. congruence. }
  destruct ((16 <=? length (az a))%nat && is_power_of_2 (length (az a))) eqn:G.
  - apply andb_true_iff in G as [G1%Nat.leb_le G2]. rewrite (proj2 (Nat.ltb_lt _ _)) by lia. eexists. split; [done|]. split; [|done].
    constructor; cbn; [rewrite length_app; cbn; lia|lia|by apply power_of_2_double|done].
  - assert (length (az a) <> nAlloc a).
    { intros Eq. rewrite Eq, P, (proj2 (Nat.leb_le _ _)) in G by lia. done. }
    rewrite (proj2 (Nat.ltb_lt _ _)) by lia. eexists. split; [done|]. split; [|done]. constructor; cbn; [rewrite length_app; cbn; lia|done|done|done].
Qed.

(** ** What a schema knows *)

Definition knows (a : name_array) (z : bytes) : Prop := folded z ∈ folded <$> az a.

Lemma register_name_knows (a a' : name_array) (z y : bytes) :
  array_ok a -> register_name a z = Some a' -> (knows a' y <-> knows a y \/ folded y = folded z).
Proof.
  intros O E. destruct (register_name_ok a z O) as (b & E' & _ & Hb). assert (b = a') as -> by congruence. unfold knows. rewrite Hb.
  destruct (existsb _ (az a)) eqn:X.
  - apply existsb_same in X. split; [by left|]. intros [H|H]; [done|by rewrite H].
  - rewrite fmap_app, elem_of_app. cbn. by rewrite list_elem_of_singleton.
Qed.

(** The names in the operations. *)
Definition op_label (op : schema_op) : list bytes := match op with RegisterLabel z => [z] | _ => [] end.
Definition op_type (op : schema_op) : list bytes := match op with RegisterType z => [z] | _ => [] end.

Record schema_ok (p : CypherSchema) : Prop := { so_labels : array_ok (azNodeLabels p); so_types : array_ok (azRelTypes p) }.

Lemma init_schema_ok : schema_ok (graphInitSchema None).
Proof. split; (constructor; cbn; [lia|lia|done|apply NoDup_nil_2]). Qed.

Lemma schema_step_ok (op : schema_op) (p : CypherSchema) :
  schema_ok p -> exists p', schema_step op p = Some p' /\ schema_ok p' /\
    (forall z, knows (azNodeLabels p') z <-> knows (azNodeLabels p) z \/ folded z ∈ folded <$> op_label op) /\
    (forall z, knows (azRelTypes p') z <-> knows (azRelTypes p) z \/ folded z ∈ folded <$> op_type op).
Proof.
  assert (Hnil : forall z : bytes, z ∉ ([] : list bytes)) by (intros z; apply not_elem_of_nil).
  assert (Hone : forall y z : bytes, folded z ∈ folded <$> [y] <-> folded z = folded y) by (intros y z; cbn; apply list_elem_of_singleton).
  intros [L T]. destruct op as [y|y|y]; cbn [schema_step op_label op_type].
  - unfold graphRegisterLabel. destruct (register_name_ok _ y L) as (a & E & Oa & _). rewrite E. eexists. split; [done|]. split; [by split|]. cbn [azNodeLabels azRelTypes].
    split; intros z; [rewrite Hone; by apply register_name_knows|]. cbn. specialize (Hnil (folded z)). tauto.
  - unfold graphRegisterRelationshipType. destruct (register_name_ok _ y T) as (a & E & Oa & _). rewrite E. eexists. split; [done|]. split; [by split|]. cbn [azNodeLabels azRelTypes].
    split; intros z; [|rewrite Hone; by apply register_name_knows]. cbn. specialize (Hnil (folded z)). tauto.
  - exists p. split; [done|]. split; [by split|]. split; intros z; cbn; specialize (Hnil (folded z)); tauto.
Qed.

(** Whatever is registered, in a new schema: no write is outside an array, each
    name is kept once, and exactly the names registered are known, up to case. *)
Lemma schema_correct (ops : list schema_op) :
  exists p, schema_run ops (graphInitSchema None) = Some p /\
    NoDup (folded <$> az (azNodeLabels p)) /\ NoDup (folded <$> az (azRelTypes p)) /\
    (forall z, knows (azNodeLabels p) z <-> folded z ∈ folded <$> (ops ≫= op_label)) /\
    (forall z, knows (azRelTypes p) z <-> folded z ∈ folded <$> (ops ≫= op_type)).
Proof.
  assert (Hgen : forall q, schema_ok q -> exists p, schema_run ops q = Some p /\ schema_ok p /\
    (forall z, knows (azNodeLabels p) z <-> knows (azNodeLabels q) z \/ folded z ∈ folded <$> (ops ≫= op_label)) /\
    (forall z, knows (azRelTypes p) z <-> knows (azRelTypes q) z \/ folded z ∈ folded <$> (ops ≫= op_type))).
  { induction ops as [|op ops IH]; intros q Q; cbn [schema_run].
    - exists q. split; [done|]. split; [done|]. cbn. split; intros z; pose proof (not_elem_of_nil (folded z)); tauto.
    - destruct (schema_step_ok op q Q) as (q1 & -> & Q1 & L1 & T1). cbn [mbind option_bind]. destruct (IH q1 Q1) as (p & -> & P & L & T).
      exists p. split; [done|]. split; [done|]. rewrite !bind_cons, !fmap_app.
      split; intros z; rewrite elem_of_app; [rewrite L, L1|rewrite T, T1]; tauto. }
  destruct (Hgen _ init_schema_ok) as (p & E & [L T] & HL & HT). exists p. split; [done|]. split; [apply (ao_nodup _ L)|]. split; [apply (ao_nodup _ T)|].
  split; intros z; [rewrite HL|rewrite HT]; unfold knows; cbn; pose proof (not_elem_of_nil (folded z)); tauto.
Qed.

(** ** Labels that are valid *)

Lemma validate_spec (l : list (option bytes)) :
  validate_labels l = SQLITE_OK <-> exists zs, l = Some <$> zs /\ Forall (fun z => z <> []) zs /\ NoDup (folded <$> zs).
Proof.
  induction l as [|x l IH]; cbn [validate_labels].
  - split; [intros _; exists []; split; [done|split; [done|apply NoDup_nil_2]]|done].
  - split.
    + destruct x as [[|c z]|]; [done| |done]. destruct (existsb _ l) eqn:E; [done|]. intros (zs & -> & Hn & Hd)%IH. exists ((c :: z) :: zs).
      split; [done|]. split; [by constructor|]. apply list.NoDup_cons. split; [|done]. intros (y & Ey & Hy)%list_elem_of_fmap.
      assert (existsb (same_name (Some (c :: z))) (Some <$> zs) = true); [|congruence].
      apply existsb_exists. exists (Some y). split; [apply list_elem_of_In, list_elem_of_fmap; by exists y|by apply same_name_iff].
    + intros ([|z zs] & E & Hn & Hd); [done|]. rewrite fmap_cons in E. change (NoDup (folded z :: (folded <$> zs))) in Hd. assert (x = Some z /\ l = Some <$> zs) as [-> ->] by (split; congruence). apply list.Forall_cons in Hn as [Hz Hn]. apply list.NoDup_cons in Hd as [Hz' Hd].
      destruct z as [|c z]; [done|]. clear E. destruct (existsb _ (Some <$> zs)) eqn:E; [|apply IH; by exists zs].
      apply existsb_exists in E as (y & Hy%list_elem_of_In & Hs). apply list_elem_of_fmap in Hy as (w & -> & Hw). apply same_name_iff in Hs.
      exfalso. apply Hz'. rewrite Hs. apply list_elem_of_fmap. by exists w.
Qed.

(** On valid labels the comparison is equality of sets, up to case. *)
Lemma labels_equal_correct (l1 l2 : list (option bytes)) :
  graphValidateNodeLabels (Some l1) (length l1) = SQLITE_OK -> graphValidateNodeLabels (Some l2) (length l2) = SQLITE_OK ->
  graphLabelsEqual (Some l1) (length l1) (Some l2) (length l2) = true <->
  forall z, (exists x, Some x ∈ l1 /\ folded x = z) <-> (exists x, Some x ∈ l2 /\ folded x = z).
Proof.
  unfold graphValidateNodeLabels, graphLabelsEqual. rewrite !firstn_all. intros (z1 & -> & _ & D1)%validate_spec (z2 & -> & _ & D2)%validate_spec.
  assert (Hin : forall (zs : list bytes) (z : bytes), (exists x, Some x ∈ Some <$> zs /\ folded x = z) <-> z ∈ folded <$> zs).
  { intros zs z. rewrite list_elem_of_fmap. split.
    - intros (x & (y & [= ->] & Hy)%list_elem_of_fmap & <-). by exists y.
    - intros (x & -> & Hx). exists x. split; [apply list_elem_of_fmap; by exists x|done]. }
  assert (Hsub : forallb (fun x => existsb (same_name x) (Some <$> z2)) (Some <$> z1) = true <-> folded <$> z1 ⊆ folded <$> z2).
  { rewrite forallb_forall. split.
    - intros H z (x & -> & Hx)%list_elem_of_fmap. specialize (H (Some x) ltac:(apply list_elem_of_In, list_elem_of_fmap; by exists x)).
      apply existsb_exists in H as (y & Hy%list_elem_of_In & Hs). apply list_elem_of_fmap in Hy as (w & -> & Hw). apply same_name_iff in Hs. rewrite Hs. apply list_elem_of_fmap. by exists w.
    - intros H x Hx%list_elem_of_In. apply list_elem_of_fmap in Hx as (y & -> & Hy). specialize (H (folded y) ltac:(apply list_elem_of_fmap; by exists y)).
      apply list_elem_of_fmap in H as (w & E & Hw). apply existsb_exists. exists (Some w). split; [apply list_elem_of_In, list_elem_of_fmap; by exists w|by apply same_name_iff]. }
  rewrite !length_fmap. setoid_rewrite Hin. split.
  - destruct (Nat.eqb_spec (length z1) (length z2)) as [El|]; cbn [negb]; [|done]. intros H%Hsub z. split; [apply H|].
    assert (Hp : folded <$> z1 ≡ₚ folded <$> z2) by (apply submseteq_length_Permutation; [by apply NoDup_submseteq|rewrite !length_fmap; lia]). by rewrite Hp.
  - intros H. assert (Hp : folded <$> z1 ≡ₚ folded <$> z2) by (by apply list.NoDup_Permutation). pose proof (Permutation_length Hp) as El. rewrite !length_fmap in El.
    rewrite El, Nat.eqb_refl. cbn [negb]. apply Hsub. intros z Hz. by apply H.
Qed.

(** Without the validation it depends on the order of its arguments. *)
Lemma labels_equal_not_symmetric :
  let aa := Some [Some (bstr "a"); Some (bstr "a")] in let ab := Some [Some (bstr "a"); Some (bstr "b")] in
  graphLabelsEqual aa 2 ab 2 = true /\ graphLabelsEqual ab 2 aa 2 = false.
Proof. by vm_compute. Qed.

(** A copy of labels that are not null is equal to the labels. *)
Lemma copy_labels_equal (zs : list bytes) :
  zs <> [] -> let l := Some (Some <$> zs) in graphCopyLabels l (length zs) = l /\ graphLabelsEqual l (length zs) (graphCopyLabels l (length zs)) (length zs) = true.
Proof.
  intros Hne l. assert (E : graphCopyLabels l (length zs) = l).
  { destruct zs as [|z zs]; [done|]. unfold graphCopyLabels, l. cbn [length]. rewrite take_ge by (rewrite length_fmap; done). by rewrite <- list_fmap_compose. }
  split; [done|]. rewrite E. unfold graphLabelsEqual, l. rewrite Nat.eqb_refl. cbn [negb]. rewrite take_ge by (by rewrite length_fmap).
  apply forallb_forall. intros x Hx. apply existsb_exists. exists x. split; [done|]. apply list_elem_of_In, list_elem_of_fmap in Hx as (y & -> & _). by apply same_name_iff.
Qed.
