(* ===== verification/GraphTvf.v ===== *)
(** * Table functions over the searches (graph-tvf.c)

    The modules [graph_dfs] and [graph_bfs]: planning, the cursor over an array
    of node ids, and the parser of the text of a path, [[1,2,3]].

    Shown: the parser ends on every text, reads the texts the searches write
    back as the nodes they list, and a cursor over them visits each node once,
    in order.  No query reaches it: [graphDFSFilter] returns an error whatever
    its arguments, and no use of the functions passes [graphDFSBestIndex] with
    constraints on their columns. *)

From Stdlib Require Import String ZArith Lia.
From stdpp Require Import base option list numbers gmap.
From S2P Require Import Prelude Codec Shadow DefParser Values Scalar Graph GraphSearch.

Local Open Scope Z_scope.

(** ** The parser *)

(** [strtoll(s, &end, 10)]: the value, at the ends of the range if it is
    outside, and how many bytes were read. *)
Definition strtoll (s : bytes) : Z * nat :=
  let s1 := skip_spaces s in
  let '(neg, s2) := match s1 with
                    | c :: s' => if c =? 45 then (true, s') else if c =? 43 then (false, s') else (false, s1)
                    | [] => (false, s1)
                    end in
  let '(v, n) := dec_digits 0 s2 in
  if (n =? 0)%nat then (0, 0%nat)
  else (Z.max (- 2 ^ 63) (Z.min (2 ^ 63 - 1) (if neg then - v else v)), (length s - (length s2 - n))%nat).

(** Blanks and commas. *)
Fixpoint skip_commas (s : bytes) : bytes :=
  match s with
  | c :: s' => if (c =? 32) || (c =? 44) then skip_commas s' else s
  | [] => []
  end.

(** [None]: out of fuel. *)
Fixpoint parse_ids (fuel : nat) (p : bytes) (aIds : list Z) : option (res (list Z)) :=
  match fuel with
  | O => None
  | S fuel =>
      match p with
      | [] => Some (Ok aIds)
      | c :: _ =>
          if c =? 93 then Some (Ok aIds)
          else
            let p := skip_commas p in
            if hd 0 p =? 93 then Some (Ok aIds)
            else
              let '(iNodeId, n) := strtoll p in
              if (n =? 0)%nat then Some (Err SQLITE_ERROR)
              else parse_ids fuel (drop n p) (aIds ++ [iNodeId])
      end
  end.

Definition parseTraversalPath (zPath : option bytes) : option (res (list Z)) :=
  match zPath with
  | Some (c :: p) => if c =? 91 then parse_ids (S (length p)) p [] else Some (Err SQLITE_ERROR)
  | _ => Some (Err SQLITE_ERROR)
  end.

(** ** The table *)

Record GraphTraversalVtab := MkTraversal { iTraversalType : Z }.

(** The module data of [graph_bfs] is not null. *)
Definition graphDFSCreate (pAux : bool) : GraphTraversalVtab := MkTraversal (if pAux then 1 else 0).

(** The first two usable constraints on the rowid. *)
Fixpoint start_and_depth (i : nat) (iStartNodeArg iMaxDepthArg : option nat) (cs : list constraint) : option nat * option nat :=
  match cs with
  | [] => (iStartNodeArg, iMaxDepthArg)
  | c :: cs =>
      if (co_iColumn c =? -1) && co_usable c then
        match iStartNodeArg, iMaxDepthArg with
        | None, _ => start_and_depth (S i) (Some i) iMaxDepthArg cs
        | Some _, None => start_and_depth (S i) iStartNodeArg (Some i) cs
        | Some _, Some _ => start_and_depth (S i) iStartNodeArg iMaxDepthArg cs
        end
      else start_and_depth (S i) iStartNodeArg iMaxDepthArg cs
  end.

(** [argvIndex] of each constraint. *)
Definition graphDFSBestIndex (cs : list constraint) : res (list nat) :=
  match start_and_depth 0 None None cs with
  | (None, _) => Err SQLITE_CONSTRAINT
  | (Some a, None) => Ok (<[a := 1%nat]> (replicate (length cs) 0%nat))
  | (Some a, Some b) => Ok (<[b := 2%nat]> (<[a := 1%nat]> (replicate (length cs) 0%nat)))
  end.

Record GraphTraversalCursor := MkTravCursor { aNodeIds : list Z; iCurrentNode : nat }.

Definition graphDFSOpen : GraphTraversalCursor := MkTravCursor [] 0.

(** The results are dropped, the arguments read; then it returns. *)
Definition graphDFSFilter (argv : list value) (cur : GraphTraversalCursor) : Z * GraphTraversalCursor :=
  match argv with
  | [] => (SQLITE_ERROR, MkTravCursor [] 0)
  | _ :: _ => (SQLITE_ERROR, MkTravCursor [] 0)
  end.

Definition graphDFSNext (cur : GraphTraversalCursor) : GraphTraversalCursor := MkTravCursor (aNodeIds cur) (S (iCurrentNode cur)).
Definition graphDFSEof (cur : GraphTraversalCursor) : bool := (length (aNodeIds cur) <=? iCurrentNode cur)%nat.

Definition graphDFSColumn (cur : GraphTraversalCursor) (iCol : Z) : res Z :=
  match aNodeIds cur !! iCurrentNode cur with
  | None => Err SQLITE_ERROR
  | Some id =>
      if iCol =? 0 then Ok id
      else if iCol =? 1 then Ok 0
      else if iCol =? 2 then Ok (Z.of_nat (iCurrentNode cur))
      else Err SQLITE_ERROR
  end.

Definition graphDFSRowid (cur : GraphTraversalCursor) : Z := Z.of_nat (iCurrentNode cur).

(** The rows of a cursor: node, depth, position. *)
Fixpoint trav_drive (fuel : nat) (cur : GraphTraversalCursor) : option (list (res Z * res Z * res Z)) :=
  if graphDFSEof cur then Some []
  else
    match fuel with
    | O => None
    | S fuel =>
        rows ← trav_drive fuel (graphDFSNext cur);
        Some ((graphDFSColumn cur 0, graphDFSColumn cur 1, graphDFSColumn cur 2) :: rows)
    end.

(** ** Reading numbers *)

Lemma strtoll_printed (z : Z) (rest : bytes) :
  - 2 ^ 63 <= z < 2 ^ 63 -> c_isdigit (hd 0 rest) = false -> strtoll (fmt_d z ++ rest) = (z, length (fmt_d z)).
Proof.
  intros Hz Hr. destruct (print_dec_spec (Z.abs z)) as (Hne & Hd & Hv); [lia|]. pose proof (dec_digits_app _ rest 0 Hd Hr) as E.
  unfold fmt_d, strtoll. destruct (Z.ltb_spec z 0) as [Hneg|Hpos].
  - rewrite Z.abs_neq in * by lia. set (ds := print_dec (- z)) in *. cbn [app]. change (skip_spaces (45 :: ds ++ rest)) with (45 :: ds ++ rest).
    cbv iota beta. change (45 =? 45) with true. cbv iota. rewrite E, Hv. assert ((length ds =? 0)%nat = false) as -> by (by destruct ds).
    f_equal; [lia|]. cbn [length]. rewrite length_app. lia.
  - rewrite Z.abs_eq in * by lia. set (ds := print_dec z) in *. destruct ds as [|c ds]; [done|].
    assert (Hc : c_isdigit c = true) by (cbn in Hd; by apply andb_true_iff in Hd as [? _]). destruct (digit_plain c Hc) as (C1 & C2 & C3 & _).
    cbn [app skip_spaces]. rewrite C1, C2, C3. change (c :: ds ++ rest) with ((c :: ds) ++ rest). rewrite E, Hv. cbn [Nat.eqb length].
    f_equal; [lia|]. rewrite length_app. cbn [length]. lia.
Qed.

Lemma skip_spaces_length (s : bytes) : (length (skip_spaces s) <= length s)%nat.
Proof. induction s as [|c s IH]; cbn; [lia|]. destruct (c_isspace c); cbn; lia. Qed.

Lemma skip_commas_length (s : bytes) : (length (skip_commas s) <= length s)%nat.
Proof. induction s as [|c s IH]; cbn; [lia|]. destruct (_ || _); cbn; lia. Qed.

Lemma skip_commas_plain (c : Z) (s : bytes) : c <> 32 -> c <> 44 -> skip_commas (c :: s) = c :: s.
Proof. intros H1 H2. cbn. rewrite (proj2 (Z.eqb_neq _ _) H1), (proj2 (Z.eqb_neq _ _) H2). done. Qed.

(** The first byte of a number. *)
Lemma fmt_d_first (z : Z) : exists c s, fmt_d z = c :: s /\ c <> 32 /\ c <> 44 /\ c <> 93.
Proof.
  unfold fmt_d. destruct (Z.ltb_spec z 0); [exists 45, (print_dec (- z)); split; [done|lia]|]. destruct (print_dec_spec z) as (Hne & Hd & _); [lia|].
  destruct (print_dec z) as [|c s]; [done|]. exists c, s. cbn [forallb] in Hd. apply andb_true_iff in Hd as [Hc _]. unfold c_isdigit in Hc. split; [done|lia].
Qed.

(** ** The parser reads paths *)

(** One more byte of fuel than text is enough. *)
Lemma parse_ids_ends (fuel : nat) (p : bytes) (acc : list Z) : (length p < fuel)%nat -> is_Some (parse_ids fuel p acc).
Proof.
  revert p acc. induction fuel as [|fuel IH]; intros p acc H; [lia|]. cbn [parse_ids]. destruct p as [|c p]; [by eexists|].
  destruct (c =? 93); [by eexists|]. destruct (hd 0 (skip_commas (c :: p)) =? 93); [by eexists|].
  destruct (strtoll (skip_commas (c :: p))) as [v n]. destruct (Nat.eqb_spec n 0) as [|Hn]; [by eexists|].
  apply IH. rewrite length_drop. pose proof (skip_commas_length (c :: p)). cbn [length] in *. lia.
Qed.

Lemma parse_total (zPath : option bytes) : is_Some (parseTraversalPath zPath).
Proof. destruct zPath as [[|c p]|]; cbn [parseTraversalPath]; [by eexists| |by eexists]. destruct (c =? 91); [apply parse_ids_ends; lia|by eexists]. Qed.

Definition closing (closed : bool) : bytes := if closed then [93] else [].

(** Behind a comma, or at the beginning. *)
Lemma parse_ids_printed (l : list Z) (closed : bool) (pre : bytes) (fuel : nat) (acc : list Z) :
  Forall (fun z => - 2 ^ 63 <= z < 2 ^ 63) l -> (pre = [] \/ pre = [44]) -> (l = [] -> pre = []) -> (length (pre ++ join_ids l ++ closing closed) < fuel)%nat ->
  parse_ids fuel (pre ++ join_ids l ++ closing closed) acc = Some (Ok (acc ++ l)).
Proof.
  revert pre fuel acc. induction l as [|z l IH]; intros pre fuel acc Hl Hpre Hnil Hf; (destruct fuel as [|fuel]; [lia|]).
  - rewrite (Hnil eq_refl), app_nil_r. by destruct closed.
  - apply list.Forall_cons in Hl as [Hz Hl]. destruct (fmt_d_first z) as (c & s & Ec & C1 & C2 & C3).
    set (rest := match l with [] => [] | _ => [44] end ++ join_ids l ++ closing closed).
    assert (Et : join_ids (z :: l) ++ closing closed = fmt_d z ++ rest) by (unfold rest; destruct l; [done|cbn [join_ids]; by rewrite <- !app_assoc]).
    assert (Hdig : c_isdigit (hd 0 rest) = false) by (unfold rest; by destruct l; destruct closed).
    rewrite Et in *. assert (Hskip : skip_commas (pre ++ fmt_d z ++ rest) = fmt_d z ++ rest).
    { rewrite Ec. destruct Hpre as [-> | ->]; cbn [app]; [by apply skip_commas_plain|]. change (skip_commas (44 :: c :: s ++ rest)) with (skip_commas (c :: s ++ rest)). by apply skip_commas_plain. }
    assert (Hone : exists d t, pre ++ fmt_d z ++ rest = d :: t /\ (d =? 93) = false).
    { rewrite Ec. destruct Hpre as [-> | ->]; [exists c, (s ++ rest); split; [done|by apply Z.eqb_neq]|by exists 44, (c :: s ++ rest)]. }
    destruct Hone as (d & t & Ed & Hd). assert (Hh : (hd 0 (fmt_d z ++ rest) =? 93) = false) by (rewrite Ec; by apply Z.eqb_neq).
    cbn [parse_ids]. rewrite Ed, Hd, <- Ed, Hskip, Hh, strtoll_printed by done. rewrite drop_app_length.
    assert (Hpos : (length (fmt_d z) =? 0)%nat = false) by (by rewrite Ec). rewrite Hpos. replace (acc ++ z :: l) with ((acc ++ [z]) ++ l) by (by rewrite <- app_assoc).
    unfold rest. apply IH; [done|destruct l; [by left|by right]|by intros ->|]. fold rest. rewrite !length_app in Hf. apply Nat.eqb_neq in Hpos. lia.
Qed.

(** The text of a search is read back, also when the search failed and the text is not closed. *)
Lemma traversal_path_roundtrip (closed : bool) (l : list Z) :
  Forall (fun z => - 2 ^ 63 <= z < 2 ^ 63) l -> parseTraversalPath (Some (path_text closed l)) = Some (Ok l).
Proof.
  intros Hl. unfold path_text. cbn [app parseTraversalPath]. change (91 =? 91) with true. cbv iota.
  change (if closed then [93] else []) with (closing closed). apply (parse_ids_printed l closed []); [done|by left|done|cbn; lia].
Qed.

(** A text that ends behind a comma is refused. *)
Lemma traversal_path_open_comma : parseTraversalPath (Some (bstr "[1,")) = Some (Err SQLITE_ERROR).
Proof. by vm_compute. Qed.

(** ** The cursor *)

Lemma trav_drive_from (l seen : list Z) (fuel : nat) :
  (length l <= fuel)%nat ->
  trav_drive fuel (MkTravCursor (seen ++ l) (length seen)) = Some (imap (fun i id => (Ok id, Ok 0, Ok (Z.of_nat (length seen + i)))) l).
Proof.
  revert seen fuel. induction l as [|z l IH]; intros seen fuel Hf.
  - rewrite app_nil_r. destruct fuel; cbn [trav_drive]; unfold graphDFSEof; cbn [aNodeIds iCurrentNode]; by rewrite Nat.leb_refl.
  - destruct fuel as [|fuel]; [cbn in Hf; lia|]. cbn [trav_drive]. unfold graphDFSEof. cbn [aNodeIds iCurrentNode].
    rewrite (proj2 (Nat.leb_gt _ _)) by (rewrite length_app; cbn; lia). unfold graphDFSNext. cbn [aNodeIds iCurrentNode].
    specialize (IH (seen ++ [z]) fuel ltac:(cbn in Hf; lia)). rewrite <- app_assoc, length_app in IH. cbn [app length] in IH. rewrite Nat.add_1_r in IH. rewrite IH.
    unfold graphDFSColumn. cbn [aNodeIds iCurrentNode]. rewrite list_lookup_middle by done. cbn [imap]. rewrite Nat.add_0_r.
    match goal with |- _ = Some (?x :: ?l') => match goal with |- Some ?l'' ≫= _ = _ => change (Some (x :: l'') = Some (x :: l')) end end. do 2 f_equal.
    apply imap_ext. intros i x _. cbn. do 3 f_equal. lia.
Qed.

(** A cursor over the path of a search visits its nodes in order. *)
Lemma traversal_cursor_correct (closed : bool) (l : list Z) (fuel : nat) :
  Forall (fun z => - 2 ^ 63 <= z < 2 ^ 63) l -> (length l <= fuel)%nat ->
  exists ids, parseTraversalPath (Some (path_text closed l)) = Some (Ok ids) /\
    trav_drive fuel (MkTravCursor ids 0) = Some (imap (fun i id => (Ok id, Ok 0, Ok (Z.of_nat i))) l).
Proof. intros Hl Hf. exists l. split; [by apply traversal_path_roundtrip|by apply (trav_drive_from l [])]. Qed.

(** ** What queries do *)

(** Every query fails, and the cursor has no row. *)
Lemma traversal_always_fails (argv : list value) (cur : GraphTraversalCursor) :
  (graphDFSFilter argv cur).1 = SQLITE_ERROR /\ graphDFSEof (graphDFSFilter argv cur).2 = true.
Proof. by destruct argv. Qed.

Lemma start_none (cs : list constraint) (i : nat) : (forall c, c ∈ cs -> 0 <= co_iColumn c) -> start_and_depth i None None cs = (None, None).
Proof.
  revert i. induction cs as [|c cs IH]; intros i H; [done|]. cbn [start_and_depth]. rewrite (proj2 (Z.eqb_neq _ _)) by (pose proof (H c ltac:(by left)); lia).
  cbn [andb]. apply IH. intros d Hd. apply H. by right.
Qed.

(** The arguments of a table function are constraints on its hidden columns,
    which are numbered from 0; there is none, and -1 is the rowid. *)
Lemma traversal_needs_rowid (cs : list constraint) : (forall c, c ∈ cs -> 0 <= co_iColumn c) -> graphDFSBestIndex cs = Err SQLITE_CONSTRAINT.
Proof. intros H. unfold graphDFSBestIndex. by rewrite start_none. Qed.
